(* ===== verification/_CoqProject ===== *)
-Q . S2P
Prelude.v
Consensus.v
PmmrIndex.v
Pmmr.v
Ser.v
PeerAddr.v
LinkedList.v
Kernel.v
CutThrough.v
Transaction.v
Siphash.v
Cuckoo.v
CuckooSpec.v
PowTypes.v
Block.v
Pedersen.v
BlockSpec.v
Bitmap.v
PruneList.v
AppendOnly.v
LeafSet.v
PmmrStore.v
PmmrCompact.v
PmmrStoreSpec.v
Segments.v
SegmentSpec.v
SegmentServe.v
ChainTypes.v
Pool.v
PoolSpec.v
TransactionPool.v
Dandelion.v
TransactionPoolSpec.v
DandelionSpec.v
PoolSample.v
ChainStore.v
BitmapAccumulator.v
BitmapSegment.v
Msg.v
MsgSpec.v
Codec.v
CodecSpec.v
TxHashSet.v
Pipe.v
Chain.v
PoolChain.v
Desegmenter.v
SyncState.v
SyncSpec.v
Node.v
PipeSpec.v
NodeSpec.v
HeaderChain.v
ForkChoice.v
Supply.v
Atomic.v
ChainStorage.v
Orphans.v
Lookup.v
Start.v
Walk.v
ChainSpec.v
DesegmenterSpec.v
StateSync.v
NodeSample.v
