(* ===== verification/Prelude.v ===== *)
(** * Verification of a Grin node

    A model of the core of the Grin node in [src/], and the theorems that make
    it correct. Grin is a Mimblewimble blockchain: transactions are commitments
    and kernels, the chain keeps every output and kernel in prunable Merkle
    mountain ranges (MMRs), and blocks are secured by Cuckoo cycle proofs of
    work.

    ** Conventions

    - A [uN] of the source is a [Z]; arithmetic of the release profile wraps
      modulo [2^N] ([add64], [shl64], .. in this file). A [usize] that only
      counts or indexes a vector is a [nat] or a [Z].
    - [Result<A, E>] is [result E A], with [let? p := r in ..] for the question
      mark; a panic is [None] of [option], with [let! p := o in ..].
    - Code outside of [src/] (the secp256k1 library, blake2b, the key-value
      store, [sort_unstable], bitmaps) is a type class or an argument, with
      what is relied on as laws; every class has an instance that the witnesses
      use.
    - Global and thread-local settings (the chain type) are arguments.
    - Loops whose bound is not structural take fuel. Each has a lemma that the
      fuel used is enough, or a theorem that says when it is not: 64 rounds for
      the loops over the bits of a position, the number of elements for list
      rewinds, the total length for cut-through, [size + 1] steps for the walk
      along a Cuckoo cycle and [2 * size + 1] for the scan of one node,
      [cutoff + 1] for the iterator over unpruned positions, one more than the
      number of bytes for the passes over a file. Loops of the chain that walk
      back over headers have the height of the header as fuel, since heights go
      down by one ([Walk]); starting a node has one more than the height of the head, and
      processing orphans one more than there are orphans ([Start], [Orphans]);
      the lookup of a kernel has 65 rounds, for heights of 64 bits ([Lookup]).
    - The code of the chain changes shared state. An effect [M S A] takes a state
      and gives [None] (a panic, or no fuel) or a result, which may be an error,
      with the state after it: what was changed before an error stays changed.
      [focus] runs an effect on a part of the state.
    - The database is one record of typed maps ([Batch]); a batch is a copy of it
      that is written back if it is committed. Locks are left out: one operation
      at a time.
    - MMR positions in the store are below [2^31 - 64], since its bitmaps hold
      one-based positions of 32 bits and parents are looked at as well.

    ** Files

    - [Prelude]: results, machine integers, tactics, hints, generic lemmas.
    - [Consensus] ([core/src/consensus.rs], parameters of
      [core/src/global.rs], [Difficulty] of [core/src/pow/types.rs]): difficulty
      adjustment, graph weights, hard forks, reward. Theorems: WTEMA moves the
      difficulty in the right direction and within bounds, DMA is damped, the
      window is always full, the hard-fork schedule.
    - [PmmrIndex] ([core/src/core/pmmr/pmmr.rs], free functions): positions of
      nodes in an MMR. Theorems: positions and (leaf, height) nodes correspond
      one to one, [family] and [family_branch] climb the tree, peaks tile it.
    - [Pmmr] (the [PMMR] of [pmmr.rs], [backend.rs], [vec_backend.rs],
      [readonly_pmmr.rs], [rewindable_pmmr.rs], [merkle_proof.rs]): the
      structure over a [Backend] class and the in-memory backend. Theorems: any
      history of pushes, prunes and rewinds stores the hash tree of the
      surviving leaves; Merkle proofs verify exactly for what is stored.
    - [Ser] ([core/src/ser.rs], [core/src/core/hash.rs]): writers, the three
      readers as instances of [Reader] and of its laws, round trips.
    - [LinkedList] ([chain/src/linked_list.rs]): the index of duplicate
      positions in the key-value store refines a list per commitment.
    - [Kernel] ([core/src/core/transaction.rs], first part): fee fields, NRD
      heights, kernel features, inputs, outputs, in both wire formats.
    - [CutThrough] ([cut_through] of [transaction.rs]): the in-place algorithm
      removes exactly the matched pairs.
    - [Transaction] (the rest of [transaction.rs], [committed.rs]): bodies and
      transactions, validation, aggregation, kernel sums.
    - [Siphash] ([core/src/pow/siphash.rs]), [Cuckoo] (the five verifiers in
      [core/src/pow/]) and [CuckooSpec] (their correctness: a proof verifies if
      and only if its edges form one cycle; the Cuckarood verifier can loop).
    - [PowTypes] ([core/src/pow/types.rs]): proofs, their packing and encoding.
    - [Block] ([core/src/core/block.rs], [block_sums.rs], [compact_block.rs],
      [id.rs], [verify_size] of [core/src/pow.rs]): headers, blocks and compact
      blocks with their encodings, checks and construction. [Pedersen] states
      what commitments add up to, as discrete logarithms modulo the order of
      the group. [BlockSpec] has the theorems: headers from the network are
      accepted exactly when proven, valid blocks create no coins, hydration
      gives the block back.
    - [Bitmap]: the interface of the bitmap library, with finite sets as an
      instance.
    - [PruneList] ([store/src/prune_list.rs]): the roots of pruned subtrees and
      the shifts they cause. Theorems: appending prunes a subtree and rolls it
      up, the cached shifts count what compaction removed, a list that is saved
      and opened again is the same.
    - [AppendOnly] ([store/src/types.rs]): append-only files of elements of fixed
      or variable size. Theorems: they implement a journal (synced elements of
      which a prefix is kept, then pending ones), and pruning filters it.
    - [LeafSet] ([store/src/leaf_set.rs]): the unspent leaves.
    - [PmmrStore] ([store/src/pmmr.rs]): the persistent backend, an instance of
      the [Backend] class of [Pmmr] over the four files above. [PmmrCompact] has
      the theory of which positions compaction removes; [PmmrStoreSpec] the
      representation invariant [store_ok] (the backend shows hashes [hs] and data
      [ds] up to position [n]) and the theorems: every operation preserves it,
      syncing makes it durable, and compaction removes exactly what lies below
      pruned subtrees while the root, the unspent data and their Merkle proofs
      stay the same.
    - [Segments] ([core/src/core/pmmr/segment.rs]): segments of an MMR, how they
      are cut, their roots, proofs, checks and encoding. [SegmentSpec]: the stack
      machine that computes the root is a recursive definition over the tree, a
      segment that validates is bound to its leaves, and when validation panics.
      [SegmentServe]: a segment that is cut validates, and one that validates
      has the leaves of the MMR.
    - [ChainTypes] ([chain/src/types.rs], [error.rs]): effects, the class [Mmr]
      of what the chain needs of a backend and the law [MmrLaws] that discarding
      undoes everything since the last sync; tips, options, roots.
    - [ChainStore] ([chain/src/store.rs]): the database with its reads and writes,
      and the iterator over headers for the difficulty.
    - [BitmapAccumulator] ([chain/src/txhashset/bitmap_accumulator.rs]): the MMR
      over chunks of the bitmap of unspent outputs. Theorems: updating it gives
      the same chunks and root as rebuilding it; blocks of a bitmap survive their
      three encodings.
    - [TxHashSet] ([chain/src/txhashset/txhashset.rs], [utxo_view.rs],
      [rewindable_kernel_view.rs]): the MMRs of headers, outputs, range proofs and
      kernels, extensions that apply and rewind blocks on them, the indices in
      the database, compaction, and the units of work [extending] and
      [header_extending] around them.
    - [Pipe] ([chain/src/pipe.rs]): what happens to a header and to a block.
    - [Chain] ([chain/src/chain.rs]): the pool of orphans, the operations of a
      node, starting.
    - [PipeSpec]: which operations touch which part of the state: rules for
      effects that keep a property, collected in the hint database [keeps].
    - [HeaderChain]: [handle] is what a node does on an [Event], [reaches] the
      chains it gets to. The headers stored form a tree, [header_tree]: each
      [follows] its predecessor, which is what the consensus rules say.
    - [ForkChoice]: what accepting a block does; the head never loses work; both
      heads are tips of stored headers.
    - [Supply]: the sums stored for a block are those of a [history] of blocks
      from genesis, and they balance.
    - [Atomic]: units of work that fail or are rolled back leave nothing behind.
    - [ChainStorage] ([PMMRHandle::new] and [TxHashSet::open] of [txhashset.rs]):
      the persistent backend as an instance of [Mmr], which satisfies [MmrLaws].
    - [Orphans], [Lookup], [Start], [Walk]: the pool is bounded and indexed, the
      search for the block of a kernel is exact, and their loops and the walks
      back over headers end.
    - [ChainSpec]: the main theorems about a node, applied to a chain over the
      persistent backend that runs from empty files.

    - [Desegmenter] ([segmenter.rs], [desegmenter.rs] of [chain/src/txhashset/],
      [pibd_params.rs]): serving segments, and rebuilding the state of an archive
      header from them. [DesegmenterSpec]: the invariant of its caches under
      every call, what it needs and asks for next, the cases in which it stalls,
      panics or takes what it should not. [StateSync]: a node gets all kernels
      of another one, whatever it starts with.
    - [SyncState] ([SyncStatus], [SyncState] and the requests of [types.rs]): what
      has been asked for, refused and received. [SyncSpec]: it stays well formed and
      bounded, and a peer that sent a bad segment is refused.

    - [Pool] ([pool/src/pool.rs], [types.rs]): entries, pools, buckets, over the
      interface [BlockChain]. [PoolSpec]: what joint validity promises, from the
      laws [ChainLaws]. [TransactionPool] ([pool/src/transaction_pool.rs]): the
      public and the private pool and the cache for reorganisations.
      [TransactionPoolSpec]: both pools are sound together on top of the chain,
      what a miner gets is valid and in order, sizes are bounded, what is stemmed
      stays private. [PoolSample] has the witnesses.
    - [Dandelion] ([DandelionEpoch] of [servers/src/common/types.rs], the adapter to
      the network, [servers/src/grin/dandelion_monitor.rs]) and [DandelionSpec]:
      private transactions are held back during their embargo and public after it.
    - [PoolChain] ([PoolToChainAdapter] of [servers/src/common/adapters.rs]): the
      chain is an instance of [BlockChain] and satisfies [ChainLaws].
    - [Node] (the other adapters of [adapters.rs]): what a node does with every
      message, and with the pool when a block is accepted. [NodeSpec]: the pool
      follows the chain, what peers can make a node keep is bounded, joining the
      header segments that are cached ends. [NodeSample] has the witnesses.

    - [PeerAddr] ([p2p/src/types.rs]): addresses, which of them are the same peer,
      and their encoding.
    - [BitmapSegment] ([bitmap_accumulator.rs]): segments of the accumulator on the
      wire, which come back as they were.
    - [Msg] ([p2p/src/msg.rs], [decode_message] of [codec.rs]) and [MsgSpec]: the
      messages; each is decoded to what was sent and fits its limit.
    - [Codec] ([p2p/src/codec.rs]) and [CodecSpec]: the stream of a connection; the
      messages that are sent come out in order, lists of headers in batches. A
      reading takes at most 35 turns of its loop: two for the header and the count,
      one for each header of a batch.

    How the parts interact: [process_block] validates a block with [Block] and
    [Transaction], its header with [Consensus] and [PowTypes], and opens a unit of
    work ([extending]) in which [TxHashSet] applies it to the MMRs, which [Pmmr]
    runs over a backend. The theorems about the chain are proved for every
    backend; where they need a law of the backend ([MmrLaws]), [ChainStorage]
    discharges it from [PmmrStore]. The desegmenter shares the handles and the
    database with the chain; it opens the same units of work to apply segments,
    and ends with the validation that the chain does for an archive. The proof of work verifier is an argument of
    the chain; two laws of it and of the hash are used: [binding] (the hash of a
    proven header determines it) and [rootless] (no proven header has the hash
    that the genesis header names as its predecessor). The node gives the chain what comes from peers, and
    the pool what the chain accepts; the pool sees the chain through [BlockChain],
    and peers get what the adapters hand to the messages.

    ** Findings

    - [Consensus.header_version_testing_truncates]: the hard-fork count is cast
      to [u16] before it is bounded.
    - [Pmmr.vec_rewind_keeps_removed]: the in-memory backend forgets to restore
      removed leaves on a rewind.
    - [Ser.streaming_reader_counts]: length prefixes are counted twice.
    - [LeafSet.n_unpruned_leaves_counts_positions]: the number of unspent leaves
      before a leaf index counts positions instead of leaves.
    - [Pedersen.sum_kernel_offsets_zero]: the sum of offsets is zero when no
      positive one is left, even if there are negative ones.
    - [CuckooSpec.cuckarood_verify_diverges]: verification of a Cuckarood proof
      need not terminate.
    - [ChainSpec.pibd_head_kept]: resetting the PIBD head has no effect, since the
      batch is never committed.
    - [ChainSpec.kernel_lookup_diverges]: the search for the block of a kernel does
      not end for an index beyond the last header.
    - [BitmapAccumulator.accumulator_trailing_chunk]: updating the accumulator can
      leave an empty chunk at the end that a rebuild does not have.
    - [DesegmenterSpec.bitmap_sync_stalls]: a last bitmap segment with one chunk is
      needed but not asked for.
    - [DesegmenterSpec.desegmenter_new_panics]: no desegmenter can be made for an
      archive header with at most 1024 outputs.
    - [DesegmenterSpec.foreign_chunk_applied]: leaves of a segment outside its
      range are not checked, but applied.
    - [SegmentSpec.segment_validate_panics]: a segment that starts past the end of
      the MMR makes validation panic.
    - [PoolSample.child_offered_before_parent]: buckets can put a transaction
      before one that it spends from.
    - [PoolSample.full_pool_evicts_parent]: a full pool can evict a transaction on which
      another depends, and takes fees that are too low.
    - [TransactionPoolSpec.pool_bounded]: what comes back after a reorganisation is
      not counted against the size of the pool.
    - [PeerAddr.peer_addresses_identify]: the address [::1] is read back as another
      peer. [PeerAddr.store_keys_collide]: two peers can share a key.
    - [BitmapSegment.into_segment_panics]: a segment that is read can fail an
      assertion.
    - [CodecSpec.empty_list_refused]: a list of no headers, which nodes answer with,
      ends the connection. [CodecSpec.pause_loses_bytes]: a read that times out
      loses the bytes it has.
    - Seen while modelling: [get_first_header_with] forgets its candidate at the
      end of the MMR; rebuilding the index of outputs gives the outputs of the
      genesis block height 1; [get_kernel_height] lets a maximal height above the
      head through; the header MMR is synced before the batch around it commits,
      so it can be ahead of the database after a block is refused.

    ** Not modelled

    In the store, errors of the file system and the removal of old leaf set
    snapshots are left out; the key-value store itself is the maps of [Batch].
    Of the chain, the zip archives of the hash set and the status callbacks are
    left out, and of the node the hooks, which only log.

    Of the network, sockets, threads, the handshake, the table of peers with its
    database, the dispatch of messages to the adapters and files that are attached
    to messages are left out; so are the threads that drive synchronisation and
    the server that hands out work to miners ([servers/]), the interfaces of
    [api/], the wallet code of [keychain/], the building of transactions
    ([core/src/libtx/]), which calls the secp256k1 library, the terminal interface
    ([src/bin]), configuration and logging. The
    solvers of proofs of work ([core/src/pow/lean.rs], [Graph] of
    [cuckatoo.rs]) are optional mining code; serde, JSON and Display forms are
    presentation. *)

From Stdlib Require Import ZArith Lia.
From stdpp Require Import base list numbers option sorting.

Declare Scope grin_scope.
Delimit Scope grin_scope with grin.
Open Scope grin_scope.
Open Scope Z_scope.

(** * Results

    Rust's [Result<A, E>]. A panic (failed [unwrap], index out of range,
    failed [assert!]) is modelled by [option] around the result type where a
    function of the source can panic. *)

Inductive result (E A : Type) : Type :=
| Ok (a : A)
| Err (e : E).

Arguments Ok {E A} a.
Arguments Err {E A} e.

Definition rbind {E A B} (r : result E A) (f : A -> result E B) : result E B :=
  match r with
  | Ok a => f a
  | Err e => Err e
  end.

Definition map_err {E F A} (f : E -> F) (r : result E A) : result F A :=
  match r with
  | Ok a => Ok a
  | Err e => Err (f e)
  end.

Definition is_ok {E A} (r : result E A) : bool :=
  match r with Ok _ => true | Err _ => false end.

Definition ok_or {E A} (o : option A) (e : E) : result E A :=
  match o with Some a => Ok a | None => Err e end.

(** [for x in l { f(x)?; }] *)
Fixpoint for_each {E A} (f : A -> result E unit) (l : list A) : result E unit :=
  match l with
  | [] => Ok tt
  | x :: l => match f x with Ok _ => for_each f l | Err e => Err e end
  end.

(** The question-mark operator. *)
Notation "'let?' p := c1 'in' c2" :=
  (rbind c1 (fun p => c2))
  (at level 10, p pattern, c1 at level 200, c2 at level 200)
  : grin_scope.
Notation "c1 ;? c2" :=
  (rbind c1 (fun _ => c2)) (at level 199, right associativity) : grin_scope.

(** The same for code that may panic ([None]). *)
Notation "'let!' p := c1 'in' c2" :=
  (mbind (fun p => c2) c1)
  (at level 10, p pattern, c1 at level 200, c2 at level 200)
  : grin_scope.

(** * Fixed-width unsigned integers

    A [uN] value is a [Z] in [0, 2^N). The operators [+], [-], [*] and [<<]
    of the release profile (the workspace sets no [overflow-checks]) wrap
    modulo [2^N]; a shift amount is taken modulo [N]. *)

Definition u_max (w : Z) : Z := 2 ^ w - 1.
Definition wrap (w x : Z) : Z := x mod 2 ^ w.
Definition in_range (w x : Z) : Prop := 0 <= x < 2 ^ w.

Definition u64 (x : Z) : Prop := in_range 64 x.
Definition u32 (x : Z) : Prop := in_range 32 x.

Definition add64 (a b : Z) : Z := wrap 64 (a + b).
Definition sub64 (a b : Z) : Z := wrap 64 (a - b).
Definition mul64 (a b : Z) : Z := wrap 64 (a * b).
Definition shl64 (a n : Z) : Z := wrap 64 (Z.shiftl a (n mod 64)).
Definition shr64 (a n : Z) : Z := Z.shiftr a (n mod 64).

(** [saturating_add], [saturating_sub] and [saturating_mul] on [u64]. *)
Definition sat_add64 (a b : Z) : Z := Z.min (a + b) (u_max 64).
Definition sat_sub64 (a b : Z) : Z := Z.max (a - b) 0.
Definition sat_mul64 (a b : Z) : Z := Z.min (a * b) (u_max 64).

(** [Iterator::sum::<u64>()]. *)
Definition sum64 (l : list Z) : Z := fold_left add64 l 0.

(** Mathematical sum, the reference for [sum64]. *)
Definition sumZ (l : list Z) : Z := foldr Z.add 0 l.

(** * Tactics and hints *)

Create HintDb grin.

Ltac unfold_words :=
  unfold add64, sub64, mul64, shl64, shr64, sat_add64, sat_sub64, sat_mul64,
    u_max, u64, u32, in_range, wrap in *.

(** Split every boolean test of the goal and the hypotheses that [lia] can
    decide afterwards. *)
Ltac split_tests :=
  repeat match goal with
  | H : context [if ?b then _ else _] |- _ => destruct b eqn:?
  | |- context [if ?b then _ else _] => destruct b eqn:?
  end.

Ltac inv_res :=
  repeat match goal with
  | H : rbind ?r _ = Ok _ |- _ =>
      let E := fresh "E" in destruct r eqn:E; cbn [rbind] in H; [|discriminate H]
  | H : Ok _ = Ok _ |- _ => injection H as H; try subst
  | H : Err _ = Ok _ |- _ => discriminate H
  | H : Ok _ = Err _ |- _ => discriminate H
  end.

(** * Generic lemmas *)

Lemma rbind_Ok {E A B} (r : result E A) (f : A -> result E B) b :
  rbind r f = Ok b <-> exists a, r = Ok a /\ f a = Ok b.
Proof. destruct r; simpl; split; [eauto|intros (?&?&?)|done|intros (?&?&?)]; congruence. Qed.

Lemma rbind_Err {E A B} (r : result E A) (f : A -> result E B) e :
  rbind r f = Err e <-> r = Err e \/ exists a, r = Ok a /\ f a = Err e.
Proof.
  destruct r; simpl; split; intros H; eauto.
  - destruct H as [H | (?&H&?)]; congruence.
  - left. congruence.
  - destruct H as [H | (?&?&?)]; congruence.
Qed.

Lemma is_ok_iff {E A} (r : result E A) : is_ok r = true <-> exists a, r = Ok a.
Proof. destruct r; simpl; split; [eauto|done|done|intros [? ?]; done]. Qed.

Lemma for_each_Ok {E A} (f : A -> result E unit) l :
  for_each f l = Ok tt <-> Forall (fun x => f x = Ok tt) l.
Proof.
  induction l as [|x l IH]; simpl; [by rewrite Forall_nil|].
  rewrite Forall_cons, <- IH.
  destruct (f x) as [[]|]; split; [auto|by intros [_ ?]|done|by intros [? _]].
Qed.

Lemma for_each_Err {E A} (f : A -> result E unit) l e :
  for_each f l = Err e -> exists x, x ∈ l /\ f x = Err e.
Proof.
  induction l as [|x l IH]; simpl; [done|]. destruct (f x) eqn:E1.
  - intros (y & Hy & ?)%IH. exists y. split; [by right|done].
  - intros [= ->]. exists x. split; [by left|done].
Qed.

Lemma wrap_small w x : in_range w x -> wrap w x = x.
Proof. unfold in_range, wrap. apply Z.mod_small. Qed.

Lemma wrap_range w x : 0 <= w -> in_range w (wrap w x).
Proof. intros. apply Z.mod_pos_bound. lia. Qed.

Lemma wrap64_range x : u64 (wrap 64 x).
Proof. apply wrap_range. lia. Qed.

Lemma add64_small a b : u64 (a + b) -> add64 a b = a + b.
Proof. apply wrap_small. Qed.

Lemma sub64_small a b : u64 (a - b) -> sub64 a b = a - b.
Proof. apply wrap_small. Qed.

Lemma mul64_small a b : u64 (a * b) -> mul64 a b = a * b.
Proof. apply wrap_small. Qed.

Lemma shl64_small a n :
  0 <= n < 64 -> u64 (a * 2 ^ n) -> shl64 a n = a * 2 ^ n.
Proof.
  intros Hn H. unfold shl64. rewrite (Z.mod_small n 64) by lia.
  rewrite Z.shiftl_mul_pow2 by lia. now apply wrap_small.
Qed.

Lemma sat_add64_u64 a b : u64 a -> u64 b -> u64 (sat_add64 a b).
Proof. unfold_words. lia. Qed.

Lemma sat_sub64_u64 a b : u64 a -> u64 b -> u64 (sat_sub64 a b).
Proof. unfold_words. lia. Qed.

Lemma sat_mul64_u64 a b : u64 a -> u64 b -> u64 (sat_mul64 a b).
Proof. unfold_words. nia. Qed.

#[export] Hint Resolve wrap64_range sat_add64_u64 sat_sub64_u64 sat_mul64_u64 : grin.

Lemma sumZ_nonneg l : Forall (Z.le 0) l -> 0 <= sumZ l.
Proof. unfold sumZ. induction 1; simpl; lia. Qed.

Lemma fold_add64_small l acc :
  0 <= acc -> Forall (Z.le 0) l -> acc + sumZ l < 2 ^ 64 ->
  fold_left add64 l acc = acc + sumZ l.
Proof.
  revert acc. induction l as [|x l IH]; simpl; intros acc Ha Hl Hs.
  - unfold sumZ. simpl. lia.
  - inversion_clear Hl as [|? ? Hx Hl'].
    pose proof (sumZ_nonneg _ Hl'). unfold sumZ in *. simpl in *. rewrite add64_small by (unfold_words; lia).
    rewrite IH; auto; lia.
Qed.

Lemma sum64_small l :
  Forall (Z.le 0) l -> sumZ l < 2 ^ 64 -> sum64 l = sumZ l.
Proof. intros. unfold sum64. rewrite fold_add64_small; auto; lia. Qed.

Lemma sumZ_app l k : sumZ (l ++ k) = sumZ l + sumZ k.
Proof. unfold sumZ. induction l as [|x l IH]; simpl; [done|]. rewrite IH. lia. Qed.

Lemma sumZ_rev l : sumZ (rev l) = sumZ l.
Proof. induction l as [|x l IH]; simpl; [done|]. rewrite sumZ_app, IH. unfold sumZ. simpl. lia. Qed.

Lemma sumZ_bound l k :
  Forall (fun x => x <= k) l -> sumZ l <= Z.of_nat (length l) * k.
Proof.
  induction 1 as [|x l Hx Hl IH]; simpl length; unfold sumZ in *; simpl; [lia|].
  rewrite Nat2Z.inj_succ. nia.
Qed.

(** A bit of a sum of a low part and a multiple of a power of two. *)
Lemma pow2_pos n : 0 <= n -> 0 < 2 ^ n.
Proof. intros. apply Z.pow_pos_nonneg; lia. Qed.

#[export] Hint Resolve pow2_pos : grin.

(** Membership in the standard library's [map], which the models use for
    [Iterator::map]. *)
Lemma elem_of_map {A B} (f : A -> B) l y : y ∈ map f l <-> exists x, y = f x /\ x ∈ l.
Proof. apply list_elem_of_fmap. Qed.

Lemma elem_of_concat {A} (x : A) (ls : list (list A)) : x ∈ concat ls <-> exists l, x ∈ l /\ l ∈ ls.
Proof.
  induction ls as [|l ls IH]; simpl.
  - split; [by intros ?%elem_of_nil|]. by intros (l & _ & ?%elem_of_nil).
  - rewrite elem_of_app, IH. split.
    + intros [H|(k & H & Hk)]; [exists l; split; [done|by left]|exists k; split; [done|by right]].
    + intros (k & H & [->|Hk]%elem_of_cons); [by left|right; eauto].
Qed.

Lemma filter_all {A} (P : A -> Prop) `{forall x, Decision (P x)} l :
  Forall P l -> filter P l = l.
Proof.
  induction 1 as [|x l Hx _ IH]; [done|]. rewrite filter_cons, decide_True by done. by rewrite IH.
Qed.

Lemma filter_none {A} (P : A -> Prop) `{forall x, Decision (P x)} l :
  Forall (fun x => ~ P x) l -> filter P l = [].
Proof.
  induction 1 as [|x l Hx _ IH]; [done|]. by rewrite filter_cons, decide_False by done.
Qed.

(** A strictly decreasing list of integers between two bounds is short. *)
Lemma decreasing_length b k l :
  StronglySorted (fun x y => y < x) l -> b < k -> Forall (fun c => b < c < k) l ->
  Z.of_nat (length l) + b < k.
Proof.
  intros Hs. revert k. induction Hs as [|x l Hs IH Hx]; intros k Hk Hl; [simpl; lia|].
  apply Forall_cons in Hl as [Hx' Hl]. specialize (IH x ltac:(lia)).
  cbn [length]. rewrite Nat2Z.inj_succ. enough (Z.of_nat (length l) + b < x) by lia.
  apply IH. apply Forall_forall. intros c Hc.
  eapply Forall_forall in Hl; [|exact Hc]. eapply Forall_forall in Hx; [|exact Hc]. lia.
Qed.

Lemma even_double j : Z.even (2 * j) = true.
Proof. apply Z.even_spec. by exists j. Qed.

Lemma even_double1 j : Z.even (2 * j + 1) = false.
Proof. rewrite <- Z.negb_odd. apply negb_false_iff, Z.odd_spec. by exists j. Qed.
