(* ===== verification/Consensus.v ===== *)
(** Consensus parameters and difficulty adjustment.

    Models [src/core/src/consensus.rs], the chain-type dependent parameters of
    [src/core/src/global.rs] and the [Difficulty] type of
    [src/core/src/pow/types.rs]. The process-wide chain type that
    [global::get_chain_type] reads is an explicit argument [ct]. A panic
    (empty iterator, index out of range) is [None]. *)

From Stdlib Require Import ZArith Lia.
From stdpp Require Import base numbers option sorting list.
From S2P Require Import Prelude.
Open Scope Z_scope.

(** ** Constants *)

Definition GRIN_BASE : Z := 1000000000.
Definition MILLI_GRIN : Z := GRIN_BASE / 1000.
Definition MICRO_GRIN : Z := MILLI_GRIN / 1000.
Definition NANO_GRIN : Z := 1.
Definition BLOCK_TIME_SEC : Z := 60.
Definition REWARD : Z := BLOCK_TIME_SEC * GRIN_BASE.

Definition reward (fee : Z) : Z := sat_add64 REWARD fee.

Definition HOUR_SEC : Z := 60 * 60.
Definition HOUR_HEIGHT : Z := HOUR_SEC / BLOCK_TIME_SEC.
Definition DAY_HEIGHT : Z := 24 * HOUR_HEIGHT.
Definition WEEK_HEIGHT : Z := 7 * DAY_HEIGHT.
Definition YEAR_HEIGHT : Z := 52 * WEEK_HEIGHT.
Definition COINBASE_MATURITY : Z := DAY_HEIGHT.

Definition secondary_pow_ratio (height : Z) : Z :=
  sat_sub64 90 (height / (2 * YEAR_HEIGHT / 90)).

Definition PROOFSIZE : Z := 42.
Definition DEFAULT_MIN_EDGE_BITS : Z := 31.
Definition SECOND_POW_EDGE_BITS : Z := 29.
Definition BASE_EDGE_BITS : Z := 24.
Definition CUT_THROUGH_HORIZON : Z := wrap 32 WEEK_HEIGHT.
Definition STATE_SYNC_THRESHOLD : Z := 2 * wrap 32 DAY_HEIGHT.
Definition INPUT_WEIGHT : Z := 1.
Definition OUTPUT_WEIGHT : Z := 21.
Definition KERNEL_WEIGHT : Z := 3.
Definition MAX_BLOCK_WEIGHT : Z := 40000.
Definition HARD_FORK_INTERVAL : Z := YEAR_HEIGHT / 2.
Definition TESTNET_FIRST_HARD_FORK : Z := 185040.
Definition TESTNET_SECOND_HARD_FORK : Z := 298080.
Definition TESTNET_THIRD_HARD_FORK : Z := 552960.
Definition TESTNET_FOURTH_HARD_FORK : Z := 642240.
Definition TESTING_HARD_FORK_INTERVAL : Z := 3.
Definition DMA_WINDOW : Z := HOUR_HEIGHT.
Definition WTEMA_HALF_LIFE : Z := 4 * HOUR_SEC.
Definition BLOCK_TIME_WINDOW : Z := DMA_WINDOW * BLOCK_TIME_SEC.
Definition CLAMP_FACTOR : Z := 2.
Definition DMA_DAMP_FACTOR : Z := 3.
Definition AR_SCALE_DAMP_FACTOR : Z := 13.
Definition C32_GRAPH_WEIGHT : Z := Z.shiftl 2 (32 - BASE_EDGE_BITS) * 32.
Definition MIN_DMA_DIFFICULTY : Z := DMA_DAMP_FACTOR.
Definition MIN_AR_SCALE : Z := AR_SCALE_DAMP_FACTOR.
Definition UNIT_DIFFICULTY : Z :=
  Z.shiftl 2 (SECOND_POW_EDGE_BITS - BASE_EDGE_BITS) * SECOND_POW_EDGE_BITS.
Definition INITIAL_DIFFICULTY : Z := 1000000 * UNIT_DIFFICULTY.

(** ** Chain types and their parameters ([global.rs]) *)

Inductive ChainTypes : Type :=
| AutomatedTesting
| UserTesting
| Testnet
| Mainnet.

#[export] Instance ChainTypes_eq_dec : EqDecision ChainTypes.
Proof. solve_decision. Defined.

Definition AUTOMATED_TESTING_MIN_EDGE_BITS : Z := 10.
Definition AUTOMATED_TESTING_PROOF_SIZE : Z := 8.
Definition USER_TESTING_MIN_EDGE_BITS : Z := 15.
Definition USER_TESTING_PROOF_SIZE : Z := 42.
Definition AUTOMATED_TESTING_COINBASE_MATURITY : Z := 3.
Definition USER_TESTING_COINBASE_MATURITY : Z := 3.
Definition AUTOMATED_TESTING_CUT_THROUGH_HORIZON : Z := 20.
Definition USER_TESTING_CUT_THROUGH_HORIZON : Z := 70.
Definition TESTING_STATE_SYNC_THRESHOLD : Z := 20.
Definition TESTING_INITIAL_DIFFICULTY : Z := 1.
Definition TESTING_MAX_BLOCK_WEIGHT : Z := 250.
Definition DEFAULT_ACCEPT_FEE_BASE : Z := GRIN_BASE / 100 / 20.
Definition DEFAULT_FUTURE_TIME_LIMIT : Z := 5 * 60.
Definition TESTING_TXHASHSET_ARCHIVE_INTERVAL : Z := 10.
Definition TXHASHSET_ARCHIVE_INTERVAL : Z := 12 * 60.

Definition min_edge_bits (ct : ChainTypes) : Z :=
  match ct with
  | AutomatedTesting => AUTOMATED_TESTING_MIN_EDGE_BITS
  | UserTesting => USER_TESTING_MIN_EDGE_BITS
  | _ => DEFAULT_MIN_EDGE_BITS
  end.

Definition base_edge_bits (ct : ChainTypes) : Z :=
  match ct with
  | AutomatedTesting => AUTOMATED_TESTING_MIN_EDGE_BITS
  | UserTesting => USER_TESTING_MIN_EDGE_BITS
  | _ => BASE_EDGE_BITS
  end.

Definition proofsize (ct : ChainTypes) : Z :=
  match ct with
  | AutomatedTesting => AUTOMATED_TESTING_PROOF_SIZE
  | UserTesting => USER_TESTING_PROOF_SIZE
  | _ => PROOFSIZE
  end.

Definition coinbase_maturity (ct : ChainTypes) : Z :=
  match ct with
  | AutomatedTesting => AUTOMATED_TESTING_COINBASE_MATURITY
  | UserTesting => USER_TESTING_COINBASE_MATURITY
  | _ => COINBASE_MATURITY
  end.

Definition initial_block_difficulty (ct : ChainTypes) : Z :=
  match ct with
  | AutomatedTesting | UserTesting => TESTING_INITIAL_DIFFICULTY
  | Testnet | Mainnet => INITIAL_DIFFICULTY
  end.

Definition max_block_weight (ct : ChainTypes) : Z :=
  match ct with
  | AutomatedTesting | UserTesting => TESTING_MAX_BLOCK_WEIGHT
  | Testnet | Mainnet => MAX_BLOCK_WEIGHT
  end.

Definition max_tx_weight (ct : ChainTypes) : Z :=
  let coinbase_weight := OUTPUT_WEIGHT + KERNEL_WEIGHT in
  sat_sub64 (max_block_weight ct) coinbase_weight.

Definition cut_through_horizon (ct : ChainTypes) : Z :=
  match ct with
  | AutomatedTesting => AUTOMATED_TESTING_CUT_THROUGH_HORIZON
  | UserTesting => USER_TESTING_CUT_THROUGH_HORIZON
  | _ => CUT_THROUGH_HORIZON
  end.

Definition state_sync_threshold (ct : ChainTypes) : Z :=
  match ct with
  | AutomatedTesting | UserTesting => TESTING_STATE_SYNC_THRESHOLD
  | _ => STATE_SYNC_THRESHOLD
  end.

Definition txhashset_archive_interval (ct : ChainTypes) : Z :=
  match ct with
  | AutomatedTesting | UserTesting => TESTING_TXHASHSET_ARCHIVE_INTERVAL
  | _ => TXHASHSET_ARCHIVE_INTERVAL
  end.

(** ** Header versions

    [HeaderVersion] wraps a [u16]; the cast [as u16] truncates. *)

Definition header_version (ct : ChainTypes) (height : Z) : Z :=
  let hf_interval := wrap 16 (1 + height / HARD_FORK_INTERVAL) in
  match ct with
  | Mainnet => Z.min 5 hf_interval
  | AutomatedTesting | UserTesting =>
      let testing_hf_interval := wrap 16 (1 + height / TESTING_HARD_FORK_INTERVAL) in
      Z.min 5 testing_hf_interval
  | Testnet =>
      if height <? TESTNET_FIRST_HARD_FORK then 1
      else if height <? TESTNET_SECOND_HARD_FORK then 2
      else if height <? TESTNET_THIRD_HARD_FORK then 3
      else if height <? TESTNET_FOURTH_HARD_FORK then 4
      else 5
  end.

Definition valid_header_version (ct : ChainTypes) (height version : Z) : bool :=
  version =? header_version ct height.

(** ** Graph weights

    [edge_bits] is a [u8]: the subtraction of the base wraps modulo 256, and
    the shift amount is taken modulo 64. *)

Definition graph_weight (ct : ChainTypes) (height edge_bits : Z) : Z :=
  let expiry_height := YEAR_HEIGHT in
  let xpr_edge_bits :=
    if (edge_bits =? 31) && (expiry_height <=? height)
    then sat_sub64 edge_bits (1 + (height - expiry_height) / WEEK_HEIGHT)
    else edge_bits in
  mul64 (shl64 2 (wrap 8 (edge_bits - base_edge_bits ct))) xpr_edge_bits.

Definition initial_graph_weight (ct : ChainTypes) : Z :=
  match ct with
  | AutomatedTesting => wrap 32 (graph_weight ct 0 AUTOMATED_TESTING_MIN_EDGE_BITS)
  | UserTesting => wrap 32 (graph_weight ct 0 USER_TESTING_MIN_EDGE_BITS)
  | Testnet => wrap 32 (graph_weight ct 0 SECOND_POW_EDGE_BITS)
  | Mainnet => wrap 32 (graph_weight ct 0 SECOND_POW_EDGE_BITS)
  end.

Definition min_wtema_graph_weight (ct : ChainTypes) : Z :=
  match ct with
  | AutomatedTesting => graph_weight ct 0 AUTOMATED_TESTING_MIN_EDGE_BITS
  | UserTesting => graph_weight ct 0 USER_TESTING_MIN_EDGE_BITS
  | Testnet => graph_weight ct 0 SECOND_POW_EDGE_BITS
  | Mainnet => C32_GRAPH_WEIGHT
  end.

(** ** Difficulty ([pow/types.rs]) *)

Record Difficulty : Type := mkDifficulty { num : Z }.

Module Diff.
Definition zero : Difficulty := mkDifficulty 0.
Definition min_dma : Difficulty := mkDifficulty MIN_DMA_DIFFICULTY.
Definition min_wtema (ct : ChainTypes) : Difficulty :=
  mkDifficulty (min_wtema_graph_weight ct).
Definition unit (ct : ChainTypes) : Difficulty := mkDifficulty (initial_graph_weight ct).
Definition from_num (n : Z) : Difficulty := mkDifficulty (Z.max n 1).
Definition to_num (d : Difficulty) : Z := num d.
Definition add (a b : Difficulty) : Difficulty := mkDifficulty (add64 (num a) (num b)).
Definition sub (a b : Difficulty) : Difficulty := mkDifficulty (sub64 (num a) (num b)).
(** [max] through the derived [Ord] on the single field. *)
Definition max (a b : Difficulty) : Difficulty :=
  if num b <? num a then a else b.
End Diff.

(** ** Difficulty adjustment *)

Record HeaderDifficultyInfo : Type := mkHDI {
  hash : option Z;
  timestamp : Z;
  difficulty : Difficulty;
  secondary_scaling : Z;
  is_secondary : bool
}.

Definition from_ts_diff (ct : ChainTypes) (ts : Z) (d : Difficulty) : HeaderDifficultyInfo :=
  {| hash := None;
     timestamp := ts;
     difficulty := d;
     secondary_scaling := initial_graph_weight ct;
     is_secondary := true |}.

Definition from_diff_scaling (d : Difficulty) (scaling : Z) : HeaderDifficultyInfo :=
  {| hash := None;
     timestamp := 1;
     difficulty := d;
     secondary_scaling := scaling;
     is_secondary := true |}.

Definition damp (actual goal damp_factor : Z) : Z :=
  add64 actual (mul64 (sub64 damp_factor 1) goal) / damp_factor.

Definition clamp (actual goal clamp_factor : Z) : Z :=
  Z.max (goal / clamp_factor) (Z.min actual (mul64 goal clamp_factor)).

(** The loop that pads the window with simulated pre-genesis blocks. *)
Fixpoint pad_window (ct : ChainTypes) (k : nat) (last_ts last_ts_delta : Z)
    (last_diff : Difficulty) : list HeaderDifficultyInfo :=
  match k with
  | O => []
  | S k =>
      let last_ts := sat_sub64 last_ts last_ts_delta in
      from_ts_diff ct last_ts last_diff :: pad_window ct k last_ts last_ts_delta last_diff
  end.

Definition difficulty_data_to_vector (ct : ChainTypes) (cursor : list HeaderDifficultyInfo)
    : option (list HeaderDifficultyInfo) :=
  let needed_block_count := (Z.to_nat DMA_WINDOW + 1)%nat in
  let last_n := take needed_block_count cursor in
  let n := length last_n in
  if (n <? needed_block_count)%nat then
    match last_n, last last_n with
    | first :: rest, Some oldest =>
        let last_ts_delta :=
          match rest with
          | second :: _ => sub64 (timestamp first) (timestamp second)
          | [] => BLOCK_TIME_SEC
          end in
        Some (rev (last_n ++
          pad_window ct (needed_block_count - n) (timestamp oldest) last_ts_delta
            (difficulty first)))
    | _, _ => None
    end
  else Some (rev last_n).

Definition ar_count (height : Z) (diff_data : list HeaderDifficultyInfo) : Z :=
  mul64 100 (Z.of_nat (length (List.filter is_secondary diff_data))).

Definition secondary_pow_scaling (height : Z) (diff_data : list HeaderDifficultyInfo) : Z :=
  let scale_sum := sum64 (map secondary_scaling diff_data) in
  let target_pct := secondary_pow_ratio height in
  let target_count := mul64 DMA_WINDOW target_pct in
  let adj_count :=
    clamp (damp (ar_count height diff_data) target_count AR_SCALE_DAMP_FACTOR)
      target_count CLAMP_FACTOR in
  let scale := mul64 scale_sum target_pct / Z.max 1 adj_count in
  wrap 32 (Z.max MIN_AR_SCALE scale).

Definition next_dma_difficulty (ct : ChainTypes) (height : Z)
    (cursor : list HeaderDifficultyInfo) : option HeaderDifficultyInfo :=
  let! diff_data := difficulty_data_to_vector ct cursor in
  let sec_pow_scaling := secondary_pow_scaling height (drop 1 diff_data) in
  let! newest := diff_data !! Z.to_nat DMA_WINDOW in
  let! oldest := diff_data !! 0%nat in
  let ts_delta := sub64 (timestamp newest) (timestamp oldest) in
  let diff_sum := sum64 (map (fun dd => Diff.to_num (difficulty dd)) (drop 1 diff_data)) in
  let adj_ts :=
    clamp (damp ts_delta BLOCK_TIME_WINDOW DMA_DAMP_FACTOR) BLOCK_TIME_WINDOW CLAMP_FACTOR in
  let d := Z.max MIN_DMA_DIFFICULTY (mul64 diff_sum BLOCK_TIME_SEC / adj_ts) in
  Some (from_diff_scaling (Diff.from_num d) sec_pow_scaling).

Definition next_wtema_difficulty (ct : ChainTypes) (height : Z)
    (cursor : list HeaderDifficultyInfo) : option HeaderDifficultyInfo :=
  match cursor with
  | last_header :: prev_header :: _ =>
      let last_block_time := sub64 (timestamp last_header) (timestamp prev_header) in
      let last_diff := Diff.to_num (difficulty last_header) in
      let denom := add64 (sub64 WTEMA_HALF_LIFE BLOCK_TIME_SEC) last_block_time in
      if denom =? 0 then None
      else
        let next_diff := mul64 last_diff WTEMA_HALF_LIFE / denom in
        let d := Diff.max (Diff.min_wtema ct) (Diff.from_num next_diff) in
        Some (from_diff_scaling d 0)
  | _ => None
  end.

Definition next_difficulty (ct : ChainTypes) (height : Z)
    (cursor : list HeaderDifficultyInfo) : option HeaderDifficultyInfo :=
  if header_version ct height <? 5
  then next_dma_difficulty ct height cursor
  else next_wtema_difficulty ct height cursor.

(** * Lemmas *)

Ltac unfold_consts :=
  unfold MIN_DMA_DIFFICULTY, MIN_AR_SCALE, BLOCK_TIME_WINDOW, DMA_WINDOW, WTEMA_HALF_LIFE,
    HARD_FORK_INTERVAL, TESTING_HARD_FORK_INTERVAL, YEAR_HEIGHT, WEEK_HEIGHT, DAY_HEIGHT,
    HOUR_HEIGHT, HOUR_SEC, BLOCK_TIME_SEC, CLAMP_FACTOR, DMA_DAMP_FACTOR,
    AR_SCALE_DAMP_FACTOR, TESTNET_FIRST_HARD_FORK, TESTNET_SECOND_HARD_FORK,
    TESTNET_THIRD_HARD_FORK, TESTNET_FOURTH_HARD_FORK in *.

Lemma YEAR_HEIGHT_val : YEAR_HEIGHT = 524160.
Proof. reflexivity. Qed.

Lemma WEEK_HEIGHT_val : WEEK_HEIGHT = 10080.
Proof. reflexivity. Qed.

Lemma HARD_FORK_INTERVAL_val : HARD_FORK_INTERVAL = 262080.
Proof. reflexivity. Qed.

Lemma BLOCK_TIME_WINDOW_val : BLOCK_TIME_WINDOW = 3600.
Proof. reflexivity. Qed.

Lemma DMA_WINDOW_val : DMA_WINDOW = 60.
Proof. reflexivity. Qed.

Lemma Diff_max_num a b : num (Diff.max a b) = Z.max (num a) (num b).
Proof. unfold Diff.max. destruct (Z.ltb_spec (num b) (num a)); lia. Qed.

Lemma damp_small actual goal f :
  1 <= f -> 0 <= actual -> 0 <= goal -> actual + (f - 1) * goal < 2 ^ 64 -> f <= 2 ^ 32 ->
  damp actual goal f = (actual + (f - 1) * goal) / f.
Proof.
  intros Hf Ha Hg Hs Hf'. unfold damp.
  rewrite (sub64_small f 1) by (unfold_words; lia).
  rewrite mul64_small by (unfold_words; nia).
  rewrite add64_small by (unfold_words; nia). done.
Qed.

Lemma clamp_small actual goal f :
  0 <= goal * f < 2 ^ 64 ->
  clamp actual goal f = Z.max (goal / f) (Z.min actual (goal * f)).
Proof. intros H. unfold clamp. rewrite mul64_small; [done|]. unfold_words; lia. Qed.

Lemma ratio_le (x a b : Z) : 0 <= x -> 0 < a <= b -> x / b <= x / a.
Proof. intros Hx [Ha Hab]. apply Z.div_le_compat_l; lia. Qed.

(** The damped and clamped time span never reaches the lower clamp: damping
    alone keeps it at or above two thirds of the window. *)
Lemma dma_adj_ts_bounds ts_delta :
  0 <= ts_delta -> ts_delta + 7200 < 2 ^ 64 ->
  2400 <= clamp (damp ts_delta BLOCK_TIME_WINDOW DMA_DAMP_FACTOR)
            BLOCK_TIME_WINDOW CLAMP_FACTOR <= 7200.
Proof.
  intros H0 H1. rewrite BLOCK_TIME_WINDOW_val. unfold DMA_DAMP_FACTOR, CLAMP_FACTOR.
  rewrite damp_small by lia. rewrite clamp_small by lia.
  assert (2400 <= (ts_delta + (3 - 1) * 3600) / 3) by (apply Z.div_le_lower_bound; lia).
  change (3600 / 2) with 1800. change (3600 * 2) with 7200. lia.
Qed.

Lemma length_pad_window ct k ts delta d : length (pad_window ct k ts delta d) = k.
Proof. revert ts. induction k; simpl; auto. Qed.

Lemma pad_window_lookup ct k ts delta d i :
  0 <= ts -> 0 <= delta -> (i < k)%nat ->
  pad_window ct k ts delta d !! i =
    Some (from_ts_diff ct (Z.max 0 (ts - (Z.of_nat i + 1) * delta)) d).
Proof.
  revert ts i. induction k as [|k IH]; intros ts i Hts Hd Hi; [lia|].
  destruct i as [|i]; simpl.
  - do 2 f_equal. unfold sat_sub64. lia.
  - rewrite IH by (unfold sat_sub64; lia). do 2 f_equal. unfold sat_sub64. nia.
Qed.

Lemma pad_window_difficulty ct k ts delta d :
  Forall (fun x => difficulty x = d) (pad_window ct k ts delta d).
Proof. revert ts. induction k; simpl; constructor; auto. Qed.

Lemma div_step (d t : Z) :
  0 <= d -> 0 <= t ->
  (t <= 60 -> d <= d * 14400 / (14340 + t)) /\
  (60 <= t -> d * 14400 / (14340 + t) <= d).
Proof.
  intros Hd Ht. split; intros H.
  - apply Z.div_le_lower_bound; nia.
  - apply Z.div_le_upper_bound; nia.
Qed.

(** The value [next_wtema_difficulty] returns when nothing overflows. *)
Lemma wtema_value ct h last prev rest :
  timestamp prev < timestamp last < 2 ^ 63 -> 0 <= timestamp prev ->
  0 <= num (difficulty last) -> num (difficulty last) * 14400 < 2 ^ 64 ->
  next_wtema_difficulty ct h (last :: prev :: rest) =
    Some (from_diff_scaling
      (Diff.max (Diff.min_wtema ct)
        (Diff.from_num (num (difficulty last) * 14400 /
          (14340 + (timestamp last - timestamp prev))))) 0).
Proof.
  intros Hts Hp Hd Hov. unfold next_wtema_difficulty, Diff.to_num.
  change WTEMA_HALF_LIFE with 14400. change (sub64 14400 BLOCK_TIME_SEC) with 14340.
  rewrite (sub64_small (timestamp last)) by (unfold_words; lia).
  rewrite add64_small by (unfold_words; lia).
  rewrite mul64_small by (unfold_words; lia).
  destruct (Z.eqb_spec (14340 + (timestamp last - timestamp prev)) 0); [lia|]. done.
Qed.

(** * Properties *)

(** [next_wtema_difficulty] steers the difficulty towards one block per
    minute: with strictly increasing timestamps and no overflow of the product
    it returns a header whose difficulty is at least the network minimum, is
    the last difficulty again (up to the minimum) for a 60 second block, does
    not drop for a faster block, does not rise above the last difficulty (or
    the minimum) for a slower one, and always carries a zero secondary
    scaling. *)
Theorem wtema_steers ct h last prev rest :
  timestamp prev < timestamp last < 2 ^ 63 -> 0 <= timestamp prev ->
  1 <= num (difficulty last) -> num (difficulty last) * 14400 < 2 ^ 64 ->
  exists info,
    next_wtema_difficulty ct h (last :: prev :: rest) = Some info /\
    let d := num (difficulty info) in
    let t := timestamp last - timestamp prev in
    let floor := min_wtema_graph_weight ct in
    floor <= d /\ secondary_scaling info = 0 /\
    (t <= 60 -> num (difficulty last) <= d) /\
    (60 <= t -> d <= Z.max floor (num (difficulty last))) /\
    (t = 60 -> d = Z.max floor (num (difficulty last))).
Proof.
  intros Hts Hp Hd Hov. rewrite wtema_value by (auto; lia).
  eexists; split; [reflexivity|]. cbn [difficulty from_diff_scaling secondary_scaling].
  rewrite Diff_max_num. cbn [num Diff.from_num Diff.min_wtema].
  destruct (div_step (num (difficulty last)) (timestamp last - timestamp prev)); lia.
Qed.

Lemma wtema_steers_witness :
  exists info,
    next_wtema_difficulty Mainnet 1500000
      [mkHDI None 1100 (mkDifficulty 20000) 0 false;
       mkHDI None 1000 (mkDifficulty 20000) 0 false] = Some info /\
    16384 <= num (difficulty info) <= 20000.
Proof.
  destruct (wtema_steers Mainnet 1500000
    (mkHDI None 1100 (mkDifficulty 20000) 0 false)
    (mkHDI None 1000 (mkDifficulty 20000) 0 false) [])
    as (info & Heq & Hf & _ & _ & Hs & _); cbn [timestamp difficulty num]; [lia..|].
  exists info. split; [exact Heq|].
  assert (E : min_wtema_graph_weight Mainnet = 16384) by reflexivity.
  rewrite E in *. cbn [timestamp difficulty num] in *. lia.
Defined.

(** On mainnet the minimum difficulty [C32_GRAPH_WEIGHT] is large enough
    that retargeting cannot get stuck: any block faster than a minute strictly
    increases the difficulty. *)
Theorem wtema_mainnet_not_stuck h last prev rest :
  timestamp prev < timestamp last < 2 ^ 63 -> 0 <= timestamp prev ->
  timestamp last - timestamp prev < 60 ->
  min_wtema_graph_weight Mainnet <= num (difficulty last) ->
  num (difficulty last) * 14400 < 2 ^ 64 ->
  exists info,
    next_wtema_difficulty Mainnet h (last :: prev :: rest) = Some info /\
    num (difficulty last) < num (difficulty info).
Proof.
  intros Hts Hp Ht Hd Hov. change (min_wtema_graph_weight Mainnet) with 16384 in Hd.
  rewrite wtema_value by (auto; lia).
  eexists; split; [reflexivity|]. cbn [difficulty from_diff_scaling].
  rewrite Diff_max_num. cbn [num Diff.from_num Diff.min_wtema].
  set (t := timestamp last - timestamp prev) in *. set (d := num (difficulty last)) in *.
  assert (d + 1 <= d * 14400 / (14340 + t)) by (apply Z.div_le_lower_bound; nia).
  lia.
Qed.

Lemma wtema_mainnet_not_stuck_witness :
  exists info,
    next_wtema_difficulty Mainnet 1500000
      [mkHDI None 1059 (mkDifficulty 16384) 0 false;
       mkHDI None 1000 (mkDifficulty 16384) 0 false] = Some info /\
    16384 < num (difficulty info).
Proof.
  apply (wtema_mainnet_not_stuck 1500000
    (mkHDI None 1059 (mkDifficulty 16384) 0 false)
    (mkHDI None 1000 (mkDifficulty 16384) 0 false) []); simpl; try lia.
  vm_compute. discriminate.
Defined.

(** [difficulty_data_to_vector] always produces a full window: from any
    non-empty run of headers (newest first) it returns exactly
    [DMA_WINDOW + 1] entries, oldest first, whose most recent part is the
    given headers reversed, and whose padding repeats the newest difficulty at
    timestamps that step back by the last block time and stop at zero. *)
Theorem difficulty_window_full ct first rest :
  let cursor := first :: rest in
  let real := take 61 cursor in
  let delta := match rest with s :: _ => timestamp first - timestamp s | [] => 60 end in
  Forall (fun x => 0 <= timestamp x < 2 ^ 64) cursor -> 0 <= delta ->
  exists v,
    difficulty_data_to_vector ct cursor = Some v /\
    length v = 61%nat /\
    drop (61 - length real) v = rev real /\
    forall i oldest, (i < 61 - length real)%nat -> last real = Some oldest ->
      rev v !! (length real + i)%nat =
        Some (from_ts_diff ct (Z.max 0 (timestamp oldest - (Z.of_nat i + 1) * delta))
                (difficulty first)).
Proof.
  intros cursor real delta Hts Hdelta.
  assert (Hreal : Forall (fun x => 0 <= timestamp x < 2 ^ 64) real) by now apply Forall_take.
  unfold difficulty_data_to_vector. change (Z.to_nat DMA_WINDOW + 1)%nat with 61%nat.
  fold real.
  assert (Hlen : (length real <= 61)%nat) by (unfold real; rewrite length_take; lia).
  destruct (Nat.ltb_spec (length real) 61) as [Hlt|Hge].
  - assert (Hr : real = cursor).
    { apply take_ge. destruct (decide (61 <= length cursor)%nat) as [H|]; [|lia].
      unfold real in Hlt. rewrite length_take in Hlt. lia. }
    destruct (last real) as [oldest|] eqn:Hl; [|rewrite Hr in Hl; by apply last_None in Hl].
    assert (Hto : 0 <= timestamp oldest).
    { rewrite last_lookup in Hl. rewrite Forall_lookup in Hreal. apply Hreal in Hl. lia. }
    clearbody real. subst real. unfold cursor at 1. cbv beta iota.
    fold cursor. rewrite Hl.
    replace (match rest with
             | [] => BLOCK_TIME_SEC
             | second :: _ => sub64 (timestamp first) (timestamp second) end) with delta.
    2:{ unfold delta in *. inversion Hts as [|? ? H1 H2]; subst.
        destruct rest as [|s rest]; [done|]. inversion H2; subst.
        rewrite sub64_small; [done|]. unfold_words; lia. }
    eexists; split; [reflexivity|].
    rewrite length_rev, length_app, length_pad_window. split; [lia|].
    rewrite rev_involutive, rev_app_distr.
    split.
    + rewrite drop_app_ge; rewrite length_rev, length_pad_window; [|lia].
      by rewrite Nat.sub_diag.
    + intros i o Hi [= <-]. rewrite lookup_app_r by lia.
      replace (length cursor + i - length cursor)%nat with i by lia.
      apply pad_window_lookup; auto.
  - eexists; split; [reflexivity|]. rewrite length_rev. split; [lia|].
    replace (61 - length real)%nat with 0%nat by lia. split; [done|]. intros; lia.
Qed.

Lemma difficulty_window_full_witness :
  exists v, difficulty_data_to_vector Mainnet [mkHDI None 100 (mkDifficulty 7) 1 false] = Some v
    /\ length v = 61%nat.
Proof.
  destruct (difficulty_window_full Mainnet (mkHDI None 100 (mkDifficulty 7) 1 false) [])
    as (v & Hv & Hl & _); [repeat constructor; simpl; lia | lia |].
  exists v. split; [exact Hv | exact Hl].
Defined.

Lemma drop1_lookup {A} (l : list A) (x : A) : l !! 0%nat = Some x -> l = x :: drop 1 l.
Proof. destruct l; simpl; [done|]. intros [= ->]. by rewrite drop_0. Qed.

(** [next_dma_difficulty] is a damped moving average: on a full window
    with increasing timestamps whose scaled difficulty sum does not overflow,
    the next difficulty is at least [MIN_DMA_DIFFICULTY], at least half of the
    window's average difficulty and at most one and a half times that average
    (or the minimum). *)
Theorem dma_damped ct h cursor v oldest newest :
  difficulty_data_to_vector ct cursor = Some v ->
  v !! 0%nat = Some oldest -> v !! 60%nat = Some newest ->
  0 <= timestamp oldest <= timestamp newest -> timestamp newest < 2 ^ 63 ->
  Forall (fun x => 0 <= num (difficulty x)) v ->
  let diff_sum := sumZ (map (fun x => num (difficulty x)) (drop 1 v)) in
  diff_sum * 60 < 2 ^ 64 ->
  exists info,
    next_dma_difficulty ct h cursor = Some info /\
    let d := num (difficulty info) in
    MIN_DMA_DIFFICULTY <= d /\
    diff_sum / 120 <= d /\
    d <= Z.max MIN_DMA_DIFFICULTY (diff_sum / 40).
Proof.
  intros Hv Ho Hn Hts Hn63 Hd diff_sum Hov. unfold next_dma_difficulty.
  rewrite Hv. simpl mbind. change (Z.to_nat DMA_WINDOW) with 60%nat.
  rewrite Hn, Ho. simpl mbind.
  eexists; split; [reflexivity|]. cbn [difficulty from_diff_scaling num Diff.from_num].
  unfold Diff.to_num.
  assert (Hnn : Forall (Z.le 0) (map (fun x => num (difficulty x)) (drop 1 v))).
  { apply Forall_map, Forall_drop. done. }
  pose proof (sumZ_nonneg _ Hnn) as Hsum. fold diff_sum in Hsum.
  rewrite sum64_small by (auto; fold diff_sum; lia). fold diff_sum.
  rewrite (sub64_small (timestamp newest)) by (unfold_words; lia).
  rewrite mul64_small by (unfold BLOCK_TIME_SEC; unfold_words; lia).
  pose proof (dma_adj_ts_bounds (timestamp newest - timestamp oldest)
    ltac:(lia) ltac:(lia)) as Hadj.
  set (adj := clamp _ _ _) in *.
  assert (H1 : diff_sum * BLOCK_TIME_SEC / adj <= diff_sum * 60 / 2400)
    by (apply ratio_le; unfold BLOCK_TIME_SEC; lia).
  assert (H2 : diff_sum * 60 / 7200 <= diff_sum * BLOCK_TIME_SEC / adj)
    by (apply ratio_le; unfold BLOCK_TIME_SEC; lia).
  replace (diff_sum * 60 / 2400) with (diff_sum / 40) in H1
    by (change 2400 with (40 * 60); rewrite Z.div_mul_cancel_r; lia).
  replace (diff_sum * 60 / 7200) with (diff_sum / 120) in H2
    by (change 7200 with (120 * 60); rewrite Z.div_mul_cancel_r; lia).
  unfold MIN_DMA_DIFFICULTY, DMA_DAMP_FACTOR. lia.
Qed.

Lemma dma_damped_witness :
  exists info,
    next_dma_difficulty Mainnet 10
      [mkHDI None 6000 (mkDifficulty 1000) 1 false;
       mkHDI None 5900 (mkDifficulty 1000) 1 false] = Some info /\
    500 <= num (difficulty info) <= 1500.
Proof.
  destruct (dma_damped Mainnet 10
    [mkHDI None 6000 (mkDifficulty 1000) 1 false;
     mkHDI None 5900 (mkDifficulty 1000) 1 false]
    (default [] (difficulty_data_to_vector Mainnet
      [mkHDI None 6000 (mkDifficulty 1000) 1 false;
       mkHDI None 5900 (mkDifficulty 1000) 1 false]))
    (mkHDI None 0 (mkDifficulty 1000) 1856 true)
    (mkHDI None 6000 (mkDifficulty 1000) 1 false)) as (info & Heq & H).
  1-3: vm_compute; reflexivity.
  1,2: cbn [timestamp]; lia.
  - match goal with |- Forall ?P ?l =>
      let v := eval vm_compute in l in change (Forall P v) end.
    repeat constructor; simpl; lia.
  - vm_compute. reflexivity.
  - exists info. split; [exact Heq|].
    match type of H with context [sumZ ?l] =>
      replace (sumZ l) with 60000 in H by (vm_compute; reflexivity) end.
    cbv zeta in H. unfold MIN_DMA_DIFFICULTY, DMA_DAMP_FACTOR in H.
    change (60000 / 120) with 500 in H. change (60000 / 40) with 1500 in H. lia.
Defined.

Lemma secondary_pow_ratio_range h : 0 <= h -> 0 <= secondary_pow_ratio h <= 90.
Proof.
  intros. unfold secondary_pow_ratio, sat_sub64.
  change (2 * YEAR_HEIGHT / 90) with 11648.
  pose proof (Z.div_pos h 11648). lia.
Qed.

Lemma ar_count_range h l :
  (length l <= 60)%nat -> 0 <= ar_count h l <= 6000.
Proof.
  intros H. unfold ar_count.
  pose proof (List.filter_length_le is_secondary l).
  rewrite mul64_small; unfold_words; lia.
Qed.

(** The secondary proof-of-work factor stays within its damped range: over
    a window of at most 60 headers it is at least [MIN_AR_SCALE] and at most
    twice the average factor of a full window (or [MIN_AR_SCALE]), as long as
    that bound fits a [u32]; once the target ratio reaches zero it is exactly
    the minimum. *)
Theorem secondary_scaling_damped h data :
  0 <= h -> (length data <= 60)%nat ->
  Forall (fun x => 0 <= secondary_scaling x < 2 ^ 32) data ->
  let scale_sum := sumZ (map secondary_scaling data) in
  scale_sum / 30 < 2 ^ 32 ->
  MIN_AR_SCALE <= secondary_pow_scaling h data <= Z.max MIN_AR_SCALE (scale_sum / 30) /\
  (secondary_pow_ratio h = 0 -> secondary_pow_scaling h data = MIN_AR_SCALE).
Proof.
  intros Hh Hlen Hd scale_sum Hov.
  assert (Hnn : Forall (Z.le 0) (map secondary_scaling data))
    by (apply Forall_map; eapply Forall_impl; [exact Hd|]; simpl; lia).
  pose proof (sumZ_nonneg _ Hnn) as Hs0.
  assert (Hs1 : scale_sum <= 60 * 2 ^ 32).
  { assert (H := sumZ_bound (map secondary_scaling data) (2 ^ 32)).
    rewrite length_map in H. unfold scale_sum. etransitivity; [apply H|lia].
    apply Forall_map. eapply Forall_impl; [exact Hd|]. simpl; lia. }
  pose proof (secondary_pow_ratio_range h Hh) as Hp.
  pose proof (ar_count_range h data Hlen) as Ha.
  unfold secondary_pow_scaling. fold scale_sum in Hs0.
  rewrite sum64_small by (auto; fold scale_sum; lia). fold scale_sum.
  set (pct := secondary_pow_ratio h) in *. set (ar := ar_count h data) in *.
  rewrite DMA_WINDOW_val. unfold AR_SCALE_DAMP_FACTOR, CLAMP_FACTOR, MIN_AR_SCALE.
  unfold AR_SCALE_DAMP_FACTOR.
  rewrite (mul64_small 60) by (unfold_words; lia).
  rewrite (mul64_small scale_sum) by (unfold_words; nia).
  rewrite damp_small by lia. rewrite clamp_small by lia.
  assert (Hadj : 30 * pct <= Z.max (60 * pct / 2)
      (Z.min ((ar + (13 - 1) * (60 * pct)) / 13) (60 * pct * 2))).
  { replace (60 * pct) with (30 * pct * 2) at 1 by lia. rewrite Z.div_mul by lia. lia. }
  set (adj := Z.max (60 * pct / 2) _) in *.
  assert (Hscale : 0 <= scale_sum * pct / Z.max 1 adj <= scale_sum / 30).
  { split; [apply Z.div_pos; nia|].
    destruct (decide (pct = 0)) as [->|].
    - rewrite Z.mul_0_r, Z.div_0_l by lia. apply Z.div_pos; lia.
    - transitivity (scale_sum * pct / (30 * pct)); [apply ratio_le; nia|].
      rewrite Z.div_mul_cancel_r by lia. lia. }
  rewrite wrap_small by (unfold in_range; lia).
  split; [lia|]. intros Hp0. rewrite Hp0, Z.mul_0_r, Z.div_0_l; lia.
Qed.

Lemma secondary_scaling_damped_witness :
  13 <= secondary_pow_scaling 100 (replicate 60 (mkHDI None 1 (mkDifficulty 1) 1856 true))
     <= 3712.
Proof.
  destruct (secondary_scaling_damped 100
    (replicate 60 (mkHDI None 1 (mkDifficulty 1) 1856 true))) as [H _].
  - lia.
  - simpl; lia.
  - apply Forall_replicate. simpl. lia.
  - vm_compute. reflexivity.
  - match type of H with context [sumZ ?l] =>
      replace (sumZ l) with 111360 in H by (vm_compute; reflexivity) end.
    unfold MIN_AR_SCALE, AR_SCALE_DAMP_FACTOR in H.
    change (111360 / 30) with 3712 in H. lia.
Defined.

(** The heights up to which the [u16] cast of [header_version] is exact. *)
Definition version_limit (ct : ChainTypes) : Z :=
  match ct with
  | Mainnet => 65535 * HARD_FORK_INTERVAL
  | Testnet => 2 ^ 64
  | AutomatedTesting | UserTesting => 65535 * TESTING_HARD_FORK_INTERVAL
  end.

Lemma min5_interval k h :
  0 < k -> 0 <= h < 65535 * k -> wrap 16 (1 + h / k) = 1 + h / k.
Proof.
  intros Hk Hh. apply wrap_small. unfold in_range.
  pose proof (Z.div_pos h k). assert (h / k < 65535) by (apply Z.div_lt_upper_bound; lia).
  lia.
Qed.

(** Hard forks are scheduled in order: below the height where the [u16]
    cast truncates, the header version required at a height lies in 1..5,
    never decreases with the height, and is the only version
    [valid_header_version] accepts there. *)
Theorem header_version_schedule ct h1 h2 :
  0 <= h1 <= h2 -> h2 < version_limit ct ->
  1 <= header_version ct h1 <= header_version ct h2 /\
  header_version ct h2 <= 5 /\
  forall v, valid_header_version ct h1 v = true <-> v = header_version ct h1.
Proof.
  intros Hh Hl.
  split; [|split; [|intros v; unfold valid_header_version; apply Z.eqb_eq]].
  - assert (Hmono : forall k, 0 < k -> h2 < 65535 * k ->
      1 <= Z.min 5 (wrap 16 (1 + h1 / k)) <= Z.min 5 (wrap 16 (1 + h2 / k))).
    { intros k Hk Hlk. rewrite !min5_interval by lia.
      pose proof (Z.div_pos h1 k). pose proof (Z.div_le_mono h1 h2 k). lia. }
    destruct ct; cbn [version_limit] in Hl; unfold header_version.
    1-2: apply Hmono; [done|exact Hl].
    + split_tests; lia.
    + apply Hmono; [done|exact Hl].
  - destruct ct; unfold header_version; split_tests; lia.
Qed.

Lemma header_version_schedule_witness :
  1 <= header_version Mainnet 0 <= header_version Mainnet 1048320.
Proof.
  apply (header_version_schedule Mainnet 0 1048320).
  - lia.
  - vm_compute. reflexivity.
Defined.

(** On the testing chains the schedule does not hold for ever: the cast of
    [1 + height / 3] to [u16] truncates, so at height 196605 the required
    version falls from 5 back to 0 (the height where the schedule of
    [header_version_schedule] ends), and [next_difficulty] returns to the
    pre-HF4 averaging. *)
Theorem header_version_testing_truncates cursor :
  header_version UserTesting 196604 = 5 /\
  header_version UserTesting 196605 = 0 /\
  next_difficulty UserTesting 196604 cursor = next_wtema_difficulty UserTesting 196604 cursor /\
  next_difficulty UserTesting 196605 cursor = next_dma_difficulty UserTesting 196605 cursor.
Proof. repeat split; reflexivity. Qed.

(** The 31-bit graph is phased out and nothing else is: on mainnet, for
    every height, the weight of a graph of 24 to 63 edge bits is
    [2^(edge_bits - 23) * edge_bits] modulo 2^64, except that a 31-bit graph
    loses one bit of weight per week after the first year and weighs nothing
    from thirty weeks later on. *)
Theorem graph_weight_phase_out h b :
  0 <= h -> 24 <= b <= 63 ->
  (b <> 31 \/ h < YEAR_HEIGHT ->
     graph_weight Mainnet h b = (2 ^ (b - 23) * b) mod 2 ^ 64) /\
  (YEAR_HEIGHT <= h ->
     graph_weight Mainnet h 31 = 256 * Z.max 0 (30 - (h - YEAR_HEIGHT) / WEEK_HEIGHT)) /\
  (YEAR_HEIGHT + 30 * WEEK_HEIGHT <= h -> graph_weight Mainnet h 31 = 0).
Proof.
  intros Hh Hb.
  assert (Hshl : shl64 2 (wrap 8 (b - 24)) = 2 ^ (b - 23)).
  { rewrite (wrap_small 8) by (unfold in_range; lia).
    rewrite shl64_small; [|lia|].
    - replace (b - 23) with (1 + (b - 24)) by lia. rewrite Z.pow_add_r; lia.
    - replace (2 * 2 ^ (b - 24)) with (2 ^ (1 + (b - 24))) by (rewrite Z.pow_add_r; lia).
      split; [lia|]. apply Z.pow_lt_mono_r; lia. }
  assert (H31 : YEAR_HEIGHT <= h ->
    graph_weight Mainnet h 31 = 256 * Z.max 0 (30 - (h - YEAR_HEIGHT) / WEEK_HEIGHT)).
  { intros Hy. unfold graph_weight.
    rewrite (proj2 (Z.leb_le _ _) Hy). cbn [Z.eqb Pos.eqb andb].
    change (shl64 2 (wrap 8 (31 - base_edge_bits Mainnet))) with 256.
    pose proof (Z.div_pos (h - YEAR_HEIGHT) WEEK_HEIGHT ltac:(lia) ltac:(done)).
    unfold sat_sub64. rewrite mul64_small by (unfold_words; lia). lia. }
  split; [|split; [exact H31|]].
  - intros Hc. unfold graph_weight. change (base_edge_bits Mainnet) with 24. rewrite Hshl.
    destruct (Z.eqb_spec b 31), (Z.leb_spec YEAR_HEIGHT h); simpl; try reflexivity; lia.
  - intros Hy. rewrite H31 by (rewrite YEAR_HEIGHT_val, WEEK_HEIGHT_val in *; lia).
    assert (30 <= (h - YEAR_HEIGHT) / WEEK_HEIGHT) by (apply Z.div_le_lower_bound; [done|lia]).
    lia.
Qed.

Lemma graph_weight_phase_out_witness :
  graph_weight Mainnet 3000000 32 = 512 * 32 /\ graph_weight Mainnet 3000000 31 = 0.
Proof.
  destruct (graph_weight_phase_out 3000000 32) as (H1 & _ & H3); [lia..|].
  split; [rewrite H1; [reflexivity | left; lia] | apply H3; vm_compute; discriminate].
Defined.

Example graph_weight_source_table :
  graph_weight Mainnet 1 31 = 256 * 31 /\ graph_weight Mainnet 1 33 = 1024 * 33 /\
  graph_weight Mainnet YEAR_HEIGHT 31 = 256 * 30 /\
  graph_weight Mainnet (YEAR_HEIGHT + 2 * WEEK_HEIGHT) 31 = 256 * 28 /\
  graph_weight Mainnet (2 * YEAR_HEIGHT + 31 * WEEK_HEIGHT) 32 = C32_GRAPH_WEIGHT.
Proof. vm_compute. repeat split. Qed.
