(* ===== verification/PmmrIndex.v ===== *)
(** Index arithmetic of Merkle mountain ranges.

    Models the free functions of [src/core/src/core/pmmr/pmmr.rs]: positions
    are 0-based [u64] indices of a postorder traversal of the range. The
    specification views a position as a pair [(m, h)] of the index [m] of the
    rightmost leaf below the node and its height [h]; such a pair is a node
    exactly when [2^h] divides [m + 1], and it sits at position
    [2m - popcount(m) + h]. Counting the nodes of one height from the left,
    the [q]-th node of height [h] has rightmost leaf [2^h (q + 1) - 1] and sits
    at position [npos h q]; its parent is node [q / 2] of the next height. *)

From Stdlib Require Import ZArith Lia.
From stdpp Require Import base numbers option sorting list.
From S2P Require Import Prelude.
Open Scope Z_scope.

(** ** Bit primitives of the standard library *)

Fixpoint pos_count_ones (p : positive) : Z :=
  match p with
  | xH => 1
  | xO p => pos_count_ones p
  | xI p => 1 + pos_count_ones p
  end.

(** [u64::count_ones]. *)
Definition count_ones (z : Z) : Z :=
  match z with
  | Zpos p => pos_count_ones p
  | _ => 0
  end.

(** [u64::leading_zeros], for a non-zero argument. *)
Definition leading_zeros (z : Z) : Z := 63 - Z.log2 z.

Definition ALL_ONES : Z := u_max 64.

(** ** The functions of [pmmr.rs] *)

(** The [while peak_size != 0] loop of [peak_map_height]; 64 iterations empty
    every [u64]. *)
Fixpoint peak_map_loop (fuel : nat) (size peak_size peak_map : Z) : Z * Z :=
  match fuel with
  | O => (peak_map, size)
  | S fuel =>
      if peak_size =? 0 then (peak_map, size)
      else
        let peak_map := shl64 peak_map 1 in
        if peak_size <=? size
        then peak_map_loop fuel (size - peak_size) (Z.shiftr peak_size 1) (Z.lor peak_map 1)
        else peak_map_loop fuel size (Z.shiftr peak_size 1) peak_map
  end.

Definition peak_map_height (size : Z) : Z * Z :=
  if size =? 0 then (0, 0)
  else peak_map_loop 64 size (shr64 ALL_ONES (leading_zeros size)) 0.

(** The loop of [peak_sizes_height]. *)
Fixpoint peak_sizes_loop (fuel : nat) (size peak_size : Z) : list Z * Z :=
  match fuel with
  | O => ([], size)
  | S fuel =>
      if peak_size =? 0 then ([], size)
      else if peak_size <=? size
        then let '(sizes, rest) := peak_sizes_loop fuel (size - peak_size) (Z.shiftr peak_size 1) in
             (peak_size :: sizes, rest)
        else peak_sizes_loop fuel size (Z.shiftr peak_size 1)
  end.

Definition peak_sizes_height (size : Z) : list Z * Z :=
  if size =? 0 then ([], 0)
  else peak_sizes_loop 64 size (shr64 ALL_ONES (leading_zeros size)).

(** The running sum of [iter().scan(0, ..)]. *)
Fixpoint scan_sum (acc : Z) (l : list Z) : list Z :=
  match l with
  | [] => []
  | x :: l => let acc := add64 acc x in acc :: scan_sum acc l
  end.

Definition peaks (size : Z) : list Z :=
  let '(peak_sizes, height) := peak_sizes_height size in
  if height =? 0 then map (fun x => sub64 x 1) (scan_sum 0 peak_sizes) else [].

Definition n_leaves (size : Z) : Z :=
  let '(peak_map, height) := peak_map_height size in
  if height =? 0 then peak_map else add64 peak_map 1.

Definition insertion_to_pmmr_index (nleaf0 : Z) : Z :=
  sub64 (mul64 2 nleaf0) (count_ones nleaf0).

Definition round_up_to_leaf_pos (pos0 : Z) : Z :=
  let '(insert_idx, height) := peak_map_height pos0 in
  let leaf_idx := if height =? 0 then insert_idx else add64 insert_idx 1 in
  insertion_to_pmmr_index leaf_idx.

Definition pmmr_leaf_to_insertion_index (pos0 : Z) : option Z :=
  let '(insert_idx, height) := peak_map_height pos0 in
  if height =? 0 then Some insert_idx else None.

Definition bintree_postorder_height (pos0 : Z) : Z := snd (peak_map_height pos0).

Definition is_leaf (pos0 : Z) : bool := bintree_postorder_height pos0 =? 0.

Definition family (pos0 : Z) : Z * Z :=
  let '(peak_map, height) := peak_map_height pos0 in
  let peak := shl64 1 height in
  if negb (Z.land peak_map peak =? 0)
  then (add64 pos0 1, sub64 (add64 pos0 1) (mul64 2 peak))
  else (add64 pos0 (mul64 2 peak), sub64 (add64 pos0 (mul64 2 peak)) 1).

Definition is_left_sibling (pos0 : Z) : bool :=
  let '(peak_map, height) := peak_map_height pos0 in
  let peak := shl64 1 height in
  Z.land peak_map peak =? 0.

(** The loop of [family_branch]; each round doubles [peak], so 64 rounds are
    more than any [u64] size allows. *)
Fixpoint family_branch_loop (fuel : nat) (peak_map peak current size : Z) : list (Z * Z) :=
  match fuel with
  | O => []
  | S fuel =>
      if add64 current 1 <? size then
        let '(current, sibling) :=
          if negb (Z.land peak_map peak =? 0)
          then let c := add64 current 1 in (c, sub64 c (mul64 2 peak))
          else let c := add64 current (mul64 2 peak) in (c, sub64 c 1) in
        if size <=? current then []
        else (current, sibling) :: family_branch_loop fuel peak_map (shl64 peak 1) current size
      else []
  end.

Definition family_branch (pos0 size : Z) : list (Z * Z) :=
  let '(peak_map, height) := peak_map_height pos0 in
  family_branch_loop 64 peak_map (shl64 1 height) pos0 size.

Definition bintree_rightmost (pos0 : Z) : Z :=
  sub64 pos0 (bintree_postorder_height pos0).

Definition bintree_leftmost (pos0 : Z) : Z :=
  let height := bintree_postorder_height pos0 in
  sub64 (add64 pos0 2) (shl64 2 height).

(** [a..=b] as a list. *)
Definition range_incl (a b : Z) : list Z := seqZ a (b - a + 1).

Definition bintree_leaf_pos_iter (pos0 : Z) : list Z :=
  match pmmr_leaf_to_insertion_index (bintree_leftmost pos0),
        pmmr_leaf_to_insertion_index (bintree_rightmost pos0) with
  | Some leaf_start, Some leaf_end =>
      map insertion_to_pmmr_index (range_incl leaf_start leaf_end)
  | _, _ => []
  end.

Definition bintree_pos_iter (pos0 : Z) : list Z :=
  range_incl (bintree_leftmost pos0) pos0.

(** A half-open [Range<u64>]. *)
Definition bintree_range (pos0 : Z) : Z * Z :=
  let height := bintree_postorder_height pos0 in
  let leftmost := sub64 (add64 pos0 2) (shl64 2 height) in
  (leftmost, add64 pos0 1).

Example peak_map_height_doc : peak_map_height 4 = (3, 0).
Proof. reflexivity. Qed.

Example peak_sizes_doc : peak_sizes_height 5 = ([3; 1], 1).
Proof. reflexivity. Qed.

(** * Specification: nodes *)

Definition node_pos (m h : Z) : Z := 2 * m - count_ones m + h.

Definition is_node (m h : Z) : Prop := 0 <= m /\ 0 <= h /\ (2 ^ h | m + 1).

(** ** Population counts *)

Lemma count_ones_double a : 0 <= a -> count_ones (2 * a) = count_ones a.
Proof. destruct a; done. Qed.

Lemma count_ones_double1 a : 0 <= a -> count_ones (2 * a + 1) = 1 + count_ones a.
Proof. destruct a; done. Qed.

(** The population count splits at any bit boundary. *)
Lemma count_ones_split k a b :
  0 <= k -> 0 <= a -> 0 <= b < 2 ^ k -> count_ones (2 ^ k * a + b) = count_ones a + count_ones b.
Proof.
  intros Hk. revert a b. pattern k. apply natlike_ind; [| |done]; clear k Hk.
  - intros a b Ha Hb. rewrite Z.pow_0_r in *. replace b with 0 by lia.
    rewrite Z.mul_1_l, !Z.add_0_r. done.
  - intros k Hk IH a b Ha Hb. rewrite Z.pow_succ_r in * by done.
    pose proof (Z.div_mod b 2 ltac:(lia)) as Eb.
    pose proof (Z.mod_pos_bound b 2 ltac:(lia)). set (q := b / 2) in *.
    assert (0 <= q < 2 ^ k) by lia. pose proof (pow2_pos k Hk).
    destruct (Z.eq_dec (b mod 2) 0) as [E|E].
    + replace b with (2 * q) by lia.
      replace (2 * 2 ^ k * a + 2 * q) with (2 * (2 ^ k * a + q)) by lia.
      rewrite !count_ones_double by nia. apply IH; lia.
    + replace b with (2 * q + 1) by lia.
      replace (2 * 2 ^ k * a + (2 * q + 1)) with (2 * (2 ^ k * a + q) + 1) by lia.
      rewrite !count_ones_double1 by nia. rewrite IH by lia. lia.
Qed.

Lemma count_ones_pow2_sub1 k : 0 <= k -> count_ones (2 ^ k - 1) = k.
Proof.
  intros Hk. pattern k. apply natlike_ind; [done| |done]. intros x Hx IH.
  rewrite Z.pow_succ_r by done.
  replace (2 * 2 ^ x - 1) with (2 * (2 ^ x - 1) + 1) by lia.
  rewrite count_ones_double1 by (pose proof (pow2_pos x Hx); lia). lia.
Qed.

Lemma count_ones_bound m : 0 <= m -> 0 <= count_ones m <= m.
Proof.
  intros H. destruct m as [|p|]; simpl; try lia. clear H.
  induction p; simpl pos_count_ones; lia.
Qed.

Lemma count_ones_log m k : 0 <= k -> 0 <= m < 2 ^ k -> count_ones m <= k.
Proof.
  intros Hk. revert m. pattern k. apply natlike_ind; [| |done]; clear k Hk.
  - intros m Hm. rewrite Z.pow_0_r in Hm. replace m with 0 by lia. done.
  - intros k Hk IH m Hm. rewrite Z.pow_succ_r in Hm by done.
    pose proof (Z.div_mod m 2 ltac:(lia)) as Eb.
    pose proof (Z.mod_pos_bound m 2 ltac:(lia)). set (q := m / 2) in *.
    specialize (IH q ltac:(lia)).
    destruct (Z.eq_dec (m mod 2) 0) as [E|E].
    + replace m with (2 * q) by lia. rewrite count_ones_double by lia. lia.
    + replace m with (2 * q + 1) by lia. rewrite count_ones_double1 by lia. lia.
Qed.

(** ** Decomposition of nodes *)

Lemma pow2_divide_le h k : 0 <= h <= k -> (2 ^ h | 2 ^ k).
Proof. intros. exists (2 ^ (k - h)). rewrite <- Z.pow_add_r by lia. f_equal. lia. Qed.

Lemma is_node_height_lt m h k : is_node m h -> m + 1 < 2 ^ k -> h < k.
Proof.
  intros (Hm & Hh & Hd) Hk. apply Z.divide_pos_le in Hd; [|lia].
  destruct (Z.lt_ge_cases h k); [done|]. exfalso.
  assert (2 ^ k <= 2 ^ h) by (apply Z.pow_le_mono_r; lia). lia.
Qed.

Lemma is_node_split m h :
  is_node m h <-> 0 <= h /\ exists q, 0 <= q /\ m = 2 ^ h * q + (2 ^ h - 1).
Proof.
  unfold is_node. split.
  - intros (Hm & Hh & [q Hq]). pose proof (pow2_pos h Hh). split; [done|].
    exists (q - 1). split; nia.
  - intros (Hh & q & Hq & ->). pose proof (pow2_pos h Hh).
    split; [nia|]. split; [done|]. exists (q + 1). lia.
Qed.

Lemma count_ones_node h q :
  0 <= h -> 0 <= q -> count_ones (2 ^ h * q + (2 ^ h - 1)) = count_ones q + h.
Proof.
  intros Hh Hq. pose proof (pow2_pos h Hh).
  rewrite count_ones_split by lia. now rewrite count_ones_pow2_sub1.
Qed.

(** The top bit of the leaf index is the leftmost tree of the range. *)
Lemma node_pos_top k m h :
  0 <= k -> 0 <= m < 2 ^ k -> node_pos (2 ^ k + m) h = 2 ^ (k + 1) - 1 + node_pos m h.
Proof.
  intros Hk Hm. unfold node_pos. replace (2 ^ k + m) with (2 ^ k * 1 + m) at 2 by lia.
  rewrite count_ones_split by lia. rewrite Z.pow_add_r by lia. simpl (count_ones 1). lia.
Qed.

Lemma is_node_top k m h :
  0 <= k -> 0 <= m < 2 ^ k -> is_node (2 ^ k + m) h ->
  is_node m h \/ (h = k + 1 /\ m = 2 ^ k - 1).
Proof.
  intros Hk Hm (Hm' & Hh & Hd). destruct (Z.le_gt_cases h k) as [Hle|Hgt].
  - left. split; [lia|]. split; [done|].
    replace (m + 1) with (2 ^ k + m + 1 - 2 ^ k) by lia.
    apply Z.divide_sub_r; [done|]. apply pow2_divide_le; lia.
  - right. destruct Hd as [q Hq]. pose proof (pow2_pos k Hk).
    assert (Hkk : 2 ^ (k + 1) = 2 * 2 ^ k) by (rewrite Z.pow_add_r by lia; lia).
    assert (H2 : 2 ^ (k + 1) <= 2 ^ h) by (apply Z.pow_le_mono_r; lia).
    assert (0 < q) by nia. assert (q = 1) by nia. subst q.
    assert (h = k + 1); [|lia].
    destruct (Z.lt_ge_cases (k + 1) h) as [Hlt|]; [|lia].
    assert (2 ^ (k + 1) < 2 ^ h) by (apply Z.pow_lt_mono_r; lia). lia.
Qed.

(** Nodes whose leaves are the first [2^k] ones lie below position
    [2^(k+1) - 2], the root of the perfect tree over them. *)
Lemma node_pos_bound k m h :
  0 <= k -> 0 <= m < 2 ^ k -> is_node m h -> 0 <= node_pos m h <= 2 ^ (k + 1) - 2.
Proof.
  intros Hk. revert m h. pattern k. apply natlike_ind; [| |done]; clear k Hk.
  - intros m h Hm (_ & Hh & Hd). rewrite Z.pow_0_r in Hm. replace m with 0 in * by lia.
    apply Z.divide_1_r_nonneg in Hd; [|lia].
    assert (h = 0) by (destruct (Z.eq_dec h 0); [done|]; assert (2 ^ 1 <= 2 ^ h) by
      (apply Z.pow_le_mono_r; lia); lia). subst. done.
  - intros k Hk IH m h Hm Hn. rewrite Z.pow_succ_r in Hm by done.
    replace (Z.succ k + 1) with (1 + (k + 1)) by lia. rewrite (Z.pow_add_r 2 1) by lia.
    destruct (Z.lt_ge_cases m (2 ^ k)) as [Hlt|Hge].
    + specialize (IH m h ltac:(lia) Hn). lia.
    + replace m with (2 ^ k + (m - 2 ^ k)) in Hn |- * by lia.
      rewrite node_pos_top by lia.
      apply is_node_top in Hn; [|lia..]. destruct Hn as [Hn|[-> E]].
      * specialize (IH (m - 2 ^ k) h ltac:(lia) Hn). lia.
      * assert (Hn' : is_node (m - 2 ^ k) k).
        { split; [lia|]. split; [done|]. rewrite E. exists 1. lia. }
        specialize (IH (m - 2 ^ k) k ltac:(lia) Hn').
        unfold node_pos in *. lia.
Qed.

(** ** The loop of [peak_map_height] *)

Lemma shiftr_ones k : 0 <= k -> Z.shiftr (2 ^ (k + 1) - 1) 1 = 2 ^ k - 1.
Proof.
  intros. rewrite Z.shiftr_div_pow2, Z.pow_1_r by lia. rewrite Z.pow_add_r by lia.
  replace (2 ^ k * 2 ^ 1 - 1) with (1 + (2 ^ k - 1) * 2) by lia.
  rewrite Z.div_add by lia. done.
Qed.

Lemma lor_1 p : 0 <= p -> Z.lor (2 * p) 1 = 2 * p + 1.
Proof. intros. destruct p; [done..|lia]. Qed.

(** Pairs the loop reconstructs at level [k]: nodes of the first [2^k]
    leaves, and, while descending to a root, the full set of leaves with any
    remaining height. *)
Definition loop_node (k m h : Z) : Prop :=
  0 <= m < 2 ^ k /\ 0 <= h /\ ((2 ^ h | m + 1) \/ m = 2 ^ k - 1).

Lemma loop_node_top k m h :
  0 <= k -> loop_node (k + 1) (2 ^ k + m) h -> 0 <= m < 2 ^ k -> loop_node k m h.
Proof.
  intros Hk (Hm & Hh & [Hd|E]) Hm'; (split; [done|split; [done|]]).
  - destruct (is_node_top k m h) as [H|[_ E]]; auto.
    + split; [lia|]. done.
    + left. apply H.
  - right. rewrite Z.pow_add_r in E by lia. lia.
Qed.

Lemma peak_map_loop_spec fuel k p m h :
  0 <= k -> (Z.to_nat k <= fuel)%nat -> 0 <= p -> p * 2 ^ k + 2 ^ k <= 2 ^ 64 ->
  loop_node k m h ->
  peak_map_loop fuel (node_pos m h) (2 ^ k - 1) p = (p * 2 ^ k + m, h).
Proof.
  intros Hk. revert fuel p m h. pattern k. apply natlike_ind; [| |done]; clear k Hk.
  - intros fuel p m h Hf Hp Hov (Hm & Hh & _). rewrite Z.pow_0_r in *.
    replace m with 0 by lia. unfold node_pos. simpl.
    replace (p * 1 + 0) with p by lia. destruct fuel; done.
  - intros k Hk IH fuel p m h Hf Hp Hov Hn.
    destruct fuel as [|fuel]; [lia|]. cbn [peak_map_loop].
    replace (Z.succ k) with (k + 1) in * by lia. pose proof (pow2_pos k Hk).
    assert (E2 : 2 ^ (k + 1) = 2 * 2 ^ k) by (rewrite Z.pow_add_r; lia).
    destruct (Z.eqb_spec (2 ^ (k + 1) - 1) 0); [lia|].
    rewrite shl64_small by (unfold_words; try rewrite Z.pow_1_r; nia).
    rewrite Z.pow_1_r, (Z.mul_comm p 2). rewrite shiftr_ones by done.
    destruct (Z.lt_ge_cases m (2 ^ k)) as [Hlt|Hge].
    + assert (Hnode : is_node m h).
      { destruct Hn as (Hm & Hh & [Hd|E]); [|lia]. split; [lia|]. by split. }
      destruct (Z.leb_spec (2 ^ (k + 1) - 1) (node_pos m h)) as [Hle|_].
      * pose proof (node_pos_bound k m h Hk ltac:(unfold is_node in *; lia) Hnode). lia.
      * rewrite IH; [f_equal; nia|lia|lia|nia|].
        destruct Hnode as (? & ? & ?). split; [lia|]. split; [done|]. by left.
    + assert (Hm' : 0 <= m - 2 ^ k < 2 ^ k) by (destruct Hn as [? _]; lia).
      replace m with (2 ^ k + (m - 2 ^ k)) in Hn |- * by lia.
      apply loop_node_top in Hn; [|done..]. set (m' := m - 2 ^ k) in *.
      rewrite node_pos_top by done.
      assert (0 <= node_pos m' h).
      { unfold node_pos. pose proof (count_ones_bound m'). destruct Hn as (? & ? & _). lia. }
      destruct (Z.leb_spec (2 ^ (k + 1) - 1) (2 ^ (k + 1) - 1 + node_pos m' h)); [|lia].
      rewrite lor_1 by lia.
      replace (2 ^ (k + 1) - 1 + node_pos m' h - (2 ^ (k + 1) - 1)) with (node_pos m' h) by lia.
      rewrite IH; [f_equal; nia|lia|lia|nia|done].
Qed.

(** Decoding: [peak_map_height] recovers the node from its position. *)
Lemma peak_map_height_node m h :
  is_node m h -> node_pos m h < 2 ^ 64 -> peak_map_height (node_pos m h) = (m, h).
Proof.
  intros Hn Hlt. unfold peak_map_height. pose proof Hn as (Hm & Hh & Hd).
  pose proof (count_ones_bound m Hm) as Hc.
  destruct (Z.eqb_spec (node_pos m h) 0) as [E|E].
  - assert (m = 0 /\ h = 0) as [-> ->] by (unfold node_pos in E; lia). done.
  - assert (Hp : 0 < node_pos m h) by (unfold node_pos in *; lia).
    set (s := node_pos m h) in *. set (k := Z.log2 s + 1).
    assert (Hs : s < 2 ^ k) by (unfold k; apply Z.log2_spec; lia).
    assert (Hk : 1 <= k <= 64).
    { unfold k. pose proof (Z.log2_nonneg s).
      assert (Z.log2 s < 64) by (apply Z.log2_lt_pow2; lia). lia. }
    replace (shr64 ALL_ONES (leading_zeros s)) with (2 ^ k - 1).
    + unfold s. rewrite (peak_map_loop_spec 64 k 0 m h); [f_equal; lia|lia|lia|lia| |].
      * assert (2 ^ k <= 2 ^ 64) by (apply Z.pow_le_mono_r; lia). lia.
      * split; [|auto]. unfold s, node_pos in Hs. lia.
    + unfold shr64, leading_zeros, ALL_ONES, u_max. rewrite Z.mod_small by lia.
      replace (2 ^ 64 - 1) with (Z.ones 64) by done.
      rewrite Z.shiftr_div_pow2 by lia.
      rewrite Z.ones_div_pow2 by lia. rewrite Z.ones_equiv. unfold k.
      replace (64 - (63 - Z.log2 s)) with (Z.log2 s + 1) by lia. lia.
Qed.

(** The successor of a node in postorder. *)
Lemma node_succ m h :
  is_node m h -> ~ (2 ^ (h + 1) | m + 1) -> node_pos (m + 1) 0 = node_pos m h + 1.
Proof.
  intros Hn Hnd. apply is_node_split in Hn. destruct Hn as (Hh & q & Hq & ->).
  pose proof (pow2_pos h Hh). unfold node_pos. rewrite count_ones_node by done.
  destruct (Z.Even_or_Odd q) as [[j Hj]|[j Hj]].
  - assert (count_ones (2 ^ h * q + (2 ^ h - 1) + 1) = 1 + count_ones q).
    { replace (2 ^ h * q + (2 ^ h - 1) + 1) with (2 ^ h * (2 * j + 1) + 0) by nia.
      rewrite count_ones_split by lia. rewrite count_ones_double1 by lia.
      subst q. rewrite count_ones_double by lia. simpl. lia. }
    lia.
  - exfalso. apply Hnd. exists (j + 1). rewrite Z.pow_add_r by lia. nia.
Qed.

(** Every position is a node. *)
Lemma node_pos_surj p : 0 <= p -> exists m h, is_node m h /\ p = node_pos m h.
Proof.
  intros Hp. pattern p. apply natlike_ind; [| |done]; clear p Hp.
  - exists 0, 0. split; [|done]. split; [lia|]. split; [lia|]. apply Z.divide_1_l.
  - intros p Hp (m & h & Hn & ->).
    destruct (decide ((m + 1) mod 2 ^ (h + 1) = 0)) as [Hd|Hd];
      rewrite Z.mod_divide in Hd by (apply Z.pow_nonzero; destruct Hn as (? & ? & _); lia).
    + exists m, (h + 1). destruct Hn as (? & ? & _). split; [split; [done|split; [lia|done]]|].
      unfold node_pos. lia.
    + exists (m + 1), 0. split; [|rewrite (node_succ m h) by done; lia].
      destruct Hn as (? & ? & _). split; [lia|]. split; [lia|]. apply Z.divide_1_l.
Qed.

Lemma peak_map_height_spec p :
  0 <= p < 2 ^ 64 ->
  let '(m, h) := peak_map_height p in is_node m h /\ p = node_pos m h.
Proof.
  intros Hp. destruct (node_pos_surj p ltac:(lia)) as (m & h & Hn & ->).
  rewrite peak_map_height_node by (auto; lia). done.
Qed.

(** ** Nodes counted from the left *)

Definition npos (h q : Z) : Z := 2 ^ (h + 1) * (q + 1) - 2 - count_ones q.

(** The index of the rightmost leaf below node [q] of height [h]. *)
Definition last_leaf (h q : Z) : Z := 2 ^ h * (q + 1) - 1.

Lemma node_pos_npos h q :
  0 <= h -> 0 <= q -> node_pos (last_leaf h q) h = npos h q.
Proof.
  intros Hh Hq. unfold node_pos, npos, last_leaf.
  replace (count_ones (2 ^ h * (q + 1) - 1)) with (count_ones q + h).
  - rewrite Z.pow_add_r by lia. lia.
  - rewrite <- count_ones_node by done. f_equal. lia.
Qed.

Lemma last_leaf_node h q : 0 <= h -> 0 <= q -> is_node (last_leaf h q) h.
Proof.
  intros Hh Hq. apply is_node_split. split; [done|]. exists q. unfold last_leaf. lia.
Qed.

Lemma peak_map_height_npos h q :
  0 <= h -> 0 <= q -> npos h q < 2 ^ 64 -> peak_map_height (npos h q) = (last_leaf h q, h).
Proof.
  intros Hh Hq Hlt. rewrite <- node_pos_npos in Hlt |- * by done.
  apply peak_map_height_node; [by apply last_leaf_node|done].
Qed.

Lemma npos_surj p : 0 <= p -> exists h q, 0 <= h /\ 0 <= q /\ p = npos h q.
Proof.
  intros Hp. destruct (node_pos_surj p Hp) as (m & h & Hn & ->).
  apply is_node_split in Hn. destruct Hn as (Hh & q & Hq & ->).
  exists h, q. split_and!; [done..|]. rewrite <- node_pos_npos by done.
  f_equal. unfold last_leaf. lia.
Qed.

Lemma npos_bounds h q : 0 <= h -> 0 <= q -> 2 ^ h * q + 2 ^ h <= npos h q + h + 1
  /\ 2 ^ (h + 1) <= npos h q + 2 /\ q <= npos h q.
Proof.
  intros Hh Hq. unfold npos. pose proof (count_ones_bound q Hq). pose proof (pow2_pos h Hh).
  rewrite Z.pow_add_r by lia. nia.
Qed.

Lemma npos_inj h q h' q' :
  0 <= h -> 0 <= q -> 0 <= h' -> 0 <= q' -> npos h q < 2 ^ 64 ->
  npos h q = npos h' q' -> h = h' /\ q = q'.
Proof.
  intros Hh Hq Hh' Hq' Hlt E.
  pose proof (peak_map_height_npos h q Hh Hq Hlt) as E1.
  pose proof (peak_map_height_npos h' q' Hh' Hq' ltac:(lia)) as E2.
  rewrite <- E, E1 in E2. injection E2 as E3 <-. split; [done|].
  unfold last_leaf in E3. pose proof (pow2_pos h Hh). nia.
Qed.

(** Children of a node. *)
Lemma npos_right h j : 0 <= h -> 0 <= j -> npos h (2 * j + 1) = npos (h + 1) j - 1.
Proof.
  intros. unfold npos. rewrite count_ones_double1 by done.
  rewrite !(Z.pow_add_r 2 _ 1) by lia. lia.
Qed.

Lemma npos_left h j : 0 <= h -> 0 <= j -> npos h (2 * j) = npos (h + 1) j - 2 ^ (h + 1).
Proof.
  intros. unfold npos. rewrite count_ones_double by done.
  rewrite !(Z.pow_add_r 2 _ 1) by lia. lia.
Qed.

(** The bit of the peak map that [family] tests is the parity of [q]. *)
Lemma land_pow2_testbit m h : 0 <= h -> (Z.land m (2 ^ h) =? 0) = negb (Z.testbit m h).
Proof.
  intros Hh. destruct (Z.testbit m h) eqn:E; simpl.
  - apply Z.eqb_neq. intros H0. apply (f_equal (fun z => Z.testbit z h)) in H0.
    rewrite Z.land_spec, Z.pow2_bits_true, E, Z.bits_0 in H0 by done. done.
  - apply Z.eqb_eq. apply Z.bits_inj'. intros n Hn. rewrite Z.land_spec, Z.bits_0.
    rewrite Z.pow2_bits_eqb by done. destruct (Z.eqb_spec h n) as [->|].
    + by rewrite E.
    + apply andb_false_r.
Qed.

Lemma testbit_last_leaf h q : 0 <= h -> 0 <= q -> Z.testbit (last_leaf h q) h = Z.odd q.
Proof.
  intros Hh Hq. pose proof (pow2_pos h Hh).
  rewrite Z.testbit_odd, Z.shiftr_div_pow2 by done. f_equal. unfold last_leaf.
  replace (2 ^ h * (q + 1) - 1) with (2 ^ h - 1 + q * 2 ^ h) by lia.
  rewrite Z.div_add by lia. rewrite Z.div_small by lia. lia.
Qed.

(** Positions the machine handles without overflow. *)
Definition in_bounds (p : Z) : Prop := 0 <= p < 2 ^ 62.

Lemma height_bound h q : 0 <= h -> 0 <= q -> npos h q < 2 ^ 62 -> h <= 61.
Proof.
  intros Hh Hq Hlt. destruct (npos_bounds h q Hh Hq) as (_ & H2 & _).
  destruct (Z.le_gt_cases h 61); [done|]. exfalso.
  assert (2 ^ 63 <= 2 ^ (h + 1)) by (apply Z.pow_le_mono_r; lia). lia.
Qed.

Lemma shl64_1 h : 0 <= h < 64 -> shl64 1 h = 2 ^ h.
Proof.
  intros. rewrite shl64_small; [lia|lia|]. unfold_words.
  assert (2 ^ h < 2 ^ 64) by (apply Z.pow_lt_mono_r; lia). pose proof (pow2_pos h). lia.
Qed.

Lemma bit_test h q :
  0 <= h <= 62 -> 0 <= q ->
  (Z.land (last_leaf h q) (shl64 1 h) =? 0) = Z.even q.
Proof.
  intros Hh Hq. rewrite shl64_1 by lia. rewrite land_pow2_testbit by lia.
  rewrite testbit_last_leaf by lia. by rewrite <- Z.negb_odd.
Qed.

Lemma family_npos h q :
  0 <= h -> 0 <= q -> in_bounds (npos h q) ->
  family (npos h q) =
    (npos (h + 1) (q / 2), if Z.even q then npos h (q + 1) else npos h (q - 1)).
Proof.
  intros Hh Hq [H0 Hlt]. unfold family.
  rewrite peak_map_height_npos by lia.
  pose proof (height_bound h q Hh Hq Hlt) as Hh61.
  rewrite bit_test by lia. rewrite shl64_1 by lia.
  destruct (npos_bounds h q Hh Hq) as (_ & H2 & _).
  assert (E2 : 2 ^ (h + 1) = 2 * 2 ^ h) by (rewrite Z.pow_add_r; lia).
  pose proof (pow2_pos h Hh).
  assert (2 ^ h <= 2 ^ 61) by (apply Z.pow_le_mono_r; lia).
  rewrite (mul64_small 2) by (unfold_words; lia).
  rewrite (add64_small (npos h q) 1) by (unfold_words; lia).
  rewrite (add64_small (npos h q) (2 * 2 ^ h)) by (unfold_words; lia).
  destruct (Z.even q) eqn:Ev; simpl.
  - rewrite sub64_small by (unfold_words; lia). apply Z.even_spec in Ev. destruct Ev as [j ->].
    rewrite (Z.mul_comm 2 j), Z.div_mul, (Z.mul_comm j 2) by lia.
    pose proof (npos_left h j Hh ltac:(lia)). pose proof (npos_right h j Hh ltac:(lia)).
    f_equal; lia.
  - rewrite <- Z.negb_odd in Ev. apply negb_false_iff, Z.odd_spec in Ev.
    destruct Ev as [j ->].
    replace ((2 * j + 1) / 2) with j by (apply Z.div_unique with 1; lia).
    replace (2 * j + 1 - 1) with (2 * j) by lia.
    pose proof (npos_left h j Hh ltac:(lia)). pose proof (npos_right h j Hh ltac:(lia)).
    destruct (npos_bounds h (2 * j) Hh ltac:(lia)) as (_ & Hb3 & _).
    rewrite sub64_small by (unfold_words; lia). f_equal; lia.
Qed.

Lemma is_left_sibling_npos h q :
  0 <= h -> 0 <= q -> in_bounds (npos h q) -> is_left_sibling (npos h q) = Z.even q.
Proof.
  intros Hh Hq [H0 Hlt]. unfold is_left_sibling.
  rewrite peak_map_height_npos by lia. apply bit_test; [|done].
  pose proof (height_bound h q Hh Hq Hlt). lia.
Qed.

Lemma height_npos h q :
  0 <= h -> 0 <= q -> npos h q < 2 ^ 64 -> bintree_postorder_height (npos h q) = h.
Proof. intros. unfold bintree_postorder_height. by rewrite peak_map_height_npos. Qed.

Lemma is_leaf_npos h q :
  0 <= h -> 0 <= q -> npos h q < 2 ^ 64 -> is_leaf (npos h q) = (h =? 0).
Proof. intros. unfold is_leaf. by rewrite height_npos. Qed.

Lemma insertion_index_npos n :
  0 <= n < 2 ^ 62 -> insertion_to_pmmr_index n = npos 0 n.
Proof.
  intros Hn. unfold insertion_to_pmmr_index, npos. pose proof (count_ones_bound n ltac:(lia)).
  rewrite (mul64_small 2) by (unfold_words; lia).
  rewrite sub64_small by (unfold_words; lia). rewrite Z.pow_add_r by lia. lia.
Qed.

(** ** Leaves and sizes *)

Lemma count_ones_succ m : 0 <= m -> count_ones (m + 1) <= count_ones m + 1.
Proof.
  intros Hm. destruct m as [|p|]; [done| |lia].
  replace (Zpos p + 1) with (Zpos (Pos.succ p)) by lia. unfold count_ones. clear Hm.
  induction p; simpl; lia.
Qed.

(** All nodes ending at leaf [m] come before leaf [m + 1]. *)
Lemma node_before_next_leaf m h : is_node m h -> node_pos m h < node_pos (m + 1) 0.
Proof.
  intros Hn. apply is_node_split in Hn. destruct Hn as (Hh & q & Hq & ->).
  pose proof (pow2_pos h Hh). unfold node_pos. rewrite count_ones_node by done.
  replace (2 ^ h * q + (2 ^ h - 1) + 1) with (2 ^ h * (q + 1) + 0) by lia.
  rewrite count_ones_split by lia. pose proof (count_ones_succ q Hq). simpl. lia.
Qed.

Lemma npos0 n : npos 0 n = node_pos n 0.
Proof. unfold npos, node_pos. change (2 ^ (0 + 1)) with 2. lia. Qed.

Lemma npos0_mono a b : 0 <= a < b -> npos 0 a < npos 0 b.
Proof.
  intros [Ha Hab]. replace b with (a + 1 + (b - a - 1)) by lia.
  generalize (b - a - 1), (ltac:(lia) : 0 <= b - a - 1). clear b Hab. intros d Hd.
  pattern d. apply natlike_ind; [| |done].
  - rewrite Z.add_0_r, !npos0. apply node_before_next_leaf.
    split; [done|]. split; [done|]. apply Z.divide_1_l.
  - intros x Hx IH. etransitivity; [exact IH|]. rewrite !npos0.
    replace (a + 1 + Z.succ x) with (a + 1 + x + 1) by lia. apply node_before_next_leaf.
    split; [lia|]. split; [done|]. apply Z.divide_1_l.
Qed.

Lemma npos0_lt_iff a b : 0 <= a -> 0 <= b -> npos 0 a < npos 0 b <-> a < b.
Proof.
  intros Ha Hb. split; [|intros; by apply npos0_mono].
  intros H. destruct (Z.lt_trichotomy a b) as [?|[->|Hgt]]; [done|lia|].
  pose proof (npos0_mono b a ltac:(lia)). lia.
Qed.

Lemma npos0_ge n : 0 <= n -> n <= npos 0 n <= 2 * n.
Proof. intros. rewrite npos0. unfold node_pos. pose proof (count_ones_bound n). lia. Qed.

(** The leaves before a position. *)
Lemma leaf_before h q n :
  0 <= h -> 0 <= q -> 0 <= n ->
  npos 0 n < npos h q <-> n < (if h =? 0 then last_leaf h q else last_leaf h q + 1).
Proof.
  intros Hh Hq Hn. assert (Hl : 0 <= last_leaf h q)
    by (unfold last_leaf; pose proof (pow2_pos h Hh); nia).
  destruct (Z.eqb_spec h 0) as [->|Hne].
  - assert (E : last_leaf 0 q = q) by (unfold last_leaf; lia). rewrite E.
    by apply npos0_lt_iff.
  - rewrite <- (node_pos_npos h q) by done. set (m := last_leaf h q) in *. split; intros H.
    + destruct (Z.lt_ge_cases n (m + 1)) as [?|Hge]; [done|]. exfalso.
      pose proof (node_before_next_leaf m h ltac:(by apply last_leaf_node)) as Hb.
      rewrite <- (npos0 (m + 1)) in Hb. destruct (Z.eq_dec n (m + 1)) as [->|]; [lia|].
      pose proof (npos0_mono (m + 1) n ltac:(lia)). lia.
    + assert (npos 0 n <= npos 0 m).
      { destruct (Z.eq_dec n m) as [->|]; [lia|]. pose proof (npos0_mono n m ltac:(lia)). lia. }
      rewrite (npos0 m) in *. unfold node_pos in *. lia.
Qed.

(** ** Peaks *)

Fixpoint peak_bits (k : nat) (m : Z) : list Z :=
  match k with
  | O => []
  | S k => if Z.testbit m (Z.of_nat k) then Z.of_nat k :: peak_bits k m else peak_bits k m
  end.

Lemma testbit_low_add k a m j :
  0 <= j < k -> Z.testbit (2 ^ k * a + m) j = Z.testbit m j.
Proof.
  intros Hj. rewrite <- (Z.mod_pow2_bits_low (2 ^ k * a + m) k) by lia.
  rewrite <- (Z.mod_pow2_bits_low m k) by lia. f_equal.
  rewrite Z.add_comm, (Z.mul_comm (2 ^ k)). apply Z_mod_plus_full.
Qed.

Lemma peak_bits_low k k' m a :
  (k <= k')%nat -> peak_bits k (2 ^ Z.of_nat k' * a + m) = peak_bits k m.
Proof.
  induction k as [|k IH]; intros Hk; [done|]. cbn [peak_bits].
  rewrite IH by lia. rewrite testbit_low_add by lia. done.
Qed.

Lemma testbit_top k m : 0 <= k -> 0 <= m < 2 ^ k -> Z.testbit (2 ^ k + m) k = true /\ Z.testbit m k = false.
Proof.
  intros Hk Hm. split.
  - rewrite Z.testbit_odd, Z.shiftr_div_pow2 by done.
    replace (2 ^ k + m) with (1 * 2 ^ k + m) by lia.
    rewrite Z.div_add_l, Z.div_small by lia. done.
  - rewrite <- (Z.mod_small m (2 ^ k)) by lia. by apply Z.mod_pow2_bits_high.
Qed.

Lemma npos_of_prefix k a :
  0 <= k -> 0 <= a -> npos 0 (2 ^ (k + 1) * a) + (2 ^ (k + 1) - 1) = npos k (2 * a) + 1
    /\ npos 0 (2 ^ (k + 1) * a) + (2 ^ (k + 1) - 1) = npos 0 (2 ^ (k + 1) * a + 2 ^ k).
Proof.
  intros Hk Ha. pose proof (pow2_pos k Hk).
  assert (E2 : 2 ^ (k + 1) = 2 ^ k * 2) by (rewrite Z.pow_add_r; lia).
  unfold npos. change (2 ^ (0 + 1)) with 2. rewrite count_ones_double by done.
  assert (E : count_ones (2 ^ (k + 1) * a) = count_ones a).
  { replace (2 ^ (k + 1) * a) with (2 ^ (k + 1) * a + 0) by lia.
    rewrite count_ones_split by lia. simpl. lia. }
  assert (E' : count_ones (2 ^ (k + 1) * a + 2 ^ k) = count_ones a + 1).
  { rewrite count_ones_split by lia. f_equal.
    replace (2 ^ k) with (2 ^ k * 1 + 0) by lia. rewrite count_ones_split by lia. done. }
  rewrite E, E'. lia.
Qed.

(** The position of the peak of height [b] of a range of [n] leaves. *)
Definition peak_pos (n b : Z) : Z := npos b (n / 2 ^ b - 1).

Lemma peak_sizes_loop_spec k fuel a m h :
  (k <= fuel)%nat -> 0 <= a ->
  loop_node (Z.of_nat k) m h -> 2 ^ Z.of_nat k * a + m < 2 ^ 62 ->
  exists sizes,
    peak_sizes_loop fuel (node_pos m h) (2 ^ Z.of_nat k - 1) = (sizes, h) /\
    map (fun x => sub64 x 1) (scan_sum (npos 0 (2 ^ Z.of_nat k * a)) sizes) =
      map (peak_pos (2 ^ Z.of_nat k * a + m)) (peak_bits k m).
Proof.
  revert fuel a m h. induction k as [|k IH]; intros fuel a m h Hf Ha Hn Hlt.
  - destruct Hn as (Hm & Hh & _). change (2 ^ Z.of_nat 0) with 1 in *.
    replace m with 0 in * by lia. exists []. destruct fuel; done.
  - destruct fuel as [|fuel]; [lia|]. cbn [peak_sizes_loop peak_bits].
    rewrite Nat2Z.inj_succ in *. set (z := Z.of_nat k) in *.
    replace (Z.succ z) with (z + 1) in * by lia.
    assert (Hz : 0 <= z) by lia. pose proof (pow2_pos z Hz).
    assert (E2 : 2 ^ (z + 1) = 2 ^ z * 2) by (rewrite Z.pow_add_r; lia).
    destruct (Z.eqb_spec (2 ^ (z + 1) - 1) 0); [lia|]. rewrite shiftr_ones by done.
    destruct (Z.lt_ge_cases m (2 ^ z)) as [Hl|Hge].
    + assert (Hnode : is_node m h) by
        (destruct Hn as (Hm & Hh & [Hd|E]); [split; [lia|]; by split|lia]).
      assert (Hm0 : 0 <= m) by apply Hnode.
      pose proof (node_pos_bound z m h Hz ltac:(lia) Hnode).
      destruct (Z.leb_spec (2 ^ (z + 1) - 1) (node_pos m h)); [lia|].
      rewrite (proj2 (testbit_top z m Hz ltac:(lia))).
      replace (2 ^ (z + 1) * a) with (2 ^ z * (2 * a)) in * by lia.
      apply IH; [lia|lia| |lia]. split; [lia|]. destruct Hnode as (_ & ? & ?). auto.
    + assert (Hm' : 0 <= m - 2 ^ z < 2 ^ z) by (destruct Hn as [? _]; lia).
      remember (m - 2 ^ z) as m' eqn:Em. assert (m = 2 ^ z + m') as -> by lia. clear Em.
      apply loop_node_top in Hn; [|done..].
      rewrite node_pos_top by done. rewrite (proj1 (testbit_top z m' Hz Hm')).
      assert (0 <= node_pos m' h).
      { unfold node_pos. pose proof (count_ones_bound m'). destruct Hn as (? & ? & _). lia. }
      destruct (Z.leb_spec (2 ^ (z + 1) - 1) (2 ^ (z + 1) - 1 + node_pos m' h)); [|lia].
      replace (2 ^ (z + 1) - 1 + node_pos m' h - (2 ^ (z + 1) - 1)) with (node_pos m' h) by lia.
      destruct (IH fuel (2 * a + 1) m' h) as (sizes & Es & Ep); [lia|lia|done|lia|].
      rewrite Es. eexists; split; [reflexivity|]. cbn [scan_sum map].
      destruct (npos_of_prefix z a Hz Ha) as [P1 P2].
      assert (Hb : npos 0 (2 ^ (z + 1) * a + 2 ^ z) <= 2 * (2 ^ (z + 1) * a + 2 ^ z))
        by (apply npos0_ge; nia).
      assert (0 <= npos 0 (2 ^ (z + 1) * a)) by (pose proof (npos0_ge (2 ^ (z + 1) * a)); nia).
      rewrite add64_small by (unfold_words; lia). rewrite P2 at 2. rewrite P1.
      replace (2 ^ (z + 1) * a + 2 ^ z) with (2 ^ z * (2 * a + 1)) by lia.
      rewrite Ep. replace (2 ^ z + m') with (2 ^ z * 1 + m') by lia.
      replace (peak_bits k (2 ^ z * 1 + m')) with (peak_bits k m')
        by (symmetry; apply (peak_bits_low k k m' 1); lia).
      replace (2 ^ (z + 1) * a + (2 ^ z * 1 + m')) with (2 ^ z * (2 * a + 1) + m') by lia.
      f_equal. unfold peak_pos.
      rewrite (Z.mul_comm (2 ^ z)), Z.div_add_l, Z.div_small by lia.
      replace (2 * a + 1 + 0 - 1) with (2 * a) by lia.
      destruct (npos_bounds z (2 * a) Hz ltac:(lia)) as (_ & ? & ?).
      rewrite sub64_small; [lia|]. unfold_words. lia.
Qed.

(** [peaks] of a well-formed size lists the peaks from the tallest down. *)
Lemma peaks_npos n :
  0 <= n < 2 ^ 61 ->
  peaks (npos 0 n) = map (peak_pos n) (peak_bits 62 n).
Proof.
  intros Hn. unfold peaks, peak_sizes_height. pose proof (npos0_ge n ltac:(lia)) as Hg.
  destruct (Z.eqb_spec (npos 0 n) 0) as [E|E].
  - destruct (Z.eq_dec n 0) as [->|]; [done|].
    pose proof (npos0_mono 0 n ltac:(lia)). change (npos 0 0) with 0 in *. lia.
  - set (s := npos 0 n) in *. set (k := Z.log2 s + 1).
    assert (Hs : s < 2 ^ k) by (unfold k; apply Z.log2_spec; lia).
    assert (Hk : 1 <= k <= 62).
    { unfold k. pose proof (Z.log2_nonneg s).
      assert (Z.log2 s < 62) by (apply Z.log2_lt_pow2; lia). lia. }
    replace (shr64 ALL_ONES (leading_zeros s)) with (2 ^ k - 1).
    2:{ unfold shr64, leading_zeros, ALL_ONES, u_max. rewrite Z.mod_small by lia.
        replace (2 ^ 64 - 1) with (Z.ones 64) by done.
        rewrite Z.shiftr_div_pow2 by lia. rewrite Z.ones_div_pow2, Z.ones_equiv by lia.
        unfold k. replace (64 - (63 - Z.log2 s)) with (Z.log2 s + 1) by lia. lia. }
    destruct (peak_sizes_loop_spec (Z.to_nat k) 64 0 n 0) as (sizes & E1 & E2);
      rewrite ?Z2Nat.id in * by lia; [lia|lia| |lia|].
    { split; [unfold s in *; lia|]. split; [lia|]. left. apply Z.divide_1_l. }
    rewrite <- npos0 in E1. fold s in E1. rewrite E1. simpl (0 =? 0).
    rewrite Z.mul_0_r in E2. change (npos 0 0) with 0 in E2. rewrite E2. f_equal.
    clear -Hs Hn Hk Hg. unfold s in *. assert (Hnk : n < 2 ^ k) by lia. clear Hs Hg.
    assert (Hext : forall j, (Z.to_nat k <= j)%nat -> peak_bits j n = peak_bits (Z.to_nat k) n).
    { intros j Hj. induction Hj as [|j Hj IH]; [done|]. cbn [peak_bits].
      assert (n < 2 ^ Z.of_nat j) by
        (eapply Z.lt_le_trans; [exact Hnk|]; apply Z.pow_le_mono_r; lia).
      rewrite (proj2 (testbit_top (Z.of_nat j) n ltac:(lia) ltac:(lia))). done. }
    symmetry. apply Hext. lia.
Qed.

(** ** Overflow-free forms of the subtree functions *)

Lemma shl64_2 h : 0 <= h <= 62 -> shl64 2 h = 2 ^ (h + 1).
Proof.
  intros. rewrite shl64_small; [rewrite Z.pow_add_r; lia|lia|]. unfold_words.
  replace (2 * 2 ^ h) with (2 ^ (h + 1)) by (rewrite Z.pow_add_r; lia).
  assert (2 ^ (h + 1) < 2 ^ 64) by (apply Z.pow_lt_mono_r; lia).
  pose proof (pow2_pos (h + 1)). lia.
Qed.

Lemma leftmost_npos h q :
  0 <= h -> 0 <= q -> in_bounds (npos h q) ->
  bintree_leftmost (npos h q) = npos 0 (2 ^ h * q) /\
  npos 0 (2 ^ h * q) = npos h q + 2 - 2 ^ (h + 1).
Proof.
  intros Hh Hq [H0 Hlt]. unfold bintree_leftmost. rewrite height_npos by lia.
  pose proof (height_bound h q Hh Hq Hlt). destruct (npos_bounds h q Hh Hq) as (_ & H2 & _).
  rewrite shl64_2 by lia. pose proof (pow2_pos (h + 1) ltac:(lia)).
  rewrite add64_small by (unfold_words; lia). rewrite sub64_small by (unfold_words; lia).
  assert (E : count_ones (2 ^ h * q) = count_ones q).
  { pose proof (pow2_pos h Hh). replace (2 ^ h * q) with (2 ^ h * q + 0) by lia.
    rewrite count_ones_split by lia. simpl. lia. }
  unfold npos. rewrite E. change (2 ^ (0 + 1)) with 2.
  rewrite Z.pow_add_r by lia. split; lia.
Qed.

Lemma rightmost_npos h q :
  0 <= h -> 0 <= q -> in_bounds (npos h q) ->
  bintree_rightmost (npos h q) = npos 0 (last_leaf h q) /\
  npos 0 (last_leaf h q) = npos h q - h.
Proof.
  intros Hh Hq [H0 Hlt]. unfold bintree_rightmost. rewrite height_npos by lia.
  assert (E : npos 0 (last_leaf h q) = npos h q - h).
  { rewrite npos0, <- (node_pos_npos h q) by done. unfold node_pos. lia. }
  rewrite E. split; [|done].
  assert (0 <= npos 0 (last_leaf h q)).
  { pose proof (pow2_pos h Hh). apply (Z.le_trans _ (last_leaf h q));
      [unfold last_leaf; nia|apply npos0_ge; unfold last_leaf; nia]. }
  apply sub64_small. unfold_words. lia.
Qed.

Lemma range_npos h q :
  0 <= h -> 0 <= q -> in_bounds (npos h q) ->
  bintree_range (npos h q) = (npos 0 (2 ^ h * q), npos h q + 1).
Proof.
  intros Hh Hq Hb. destruct (leftmost_npos h q Hh Hq Hb) as [E _].
  unfold bintree_leftmost in E. unfold bintree_range. rewrite E.
  rewrite add64_small; [done|]. unfold in_bounds in Hb. unfold_words. lia.
Qed.

(** * Properties *)

(** ** Positions *)

(** [peak_map_height] is the inverse of the postorder numbering on the
    whole [u64] range: a position decodes to the index of the rightmost leaf
    below its node and the node's height (a pair that is a node, sitting at
    that position), and every node whose position fits decodes to itself, so
    no two nodes share a position. *)
Theorem peak_map_height_bijection :
  (forall pos0, u64 pos0 ->
     let '(m, h) := peak_map_height pos0 in is_node m h /\ node_pos m h = pos0) /\
  (forall m h, is_node m h -> u64 (node_pos m h) ->
     peak_map_height (node_pos m h) = (m, h)).
Proof.
  split.
  - intros p Hp. pose proof (peak_map_height_spec p Hp) as H.
    destruct (peak_map_height p) as [m h]. destruct H as [Hn ->]. done.
  - intros m h Hn [_ Hp]. by apply peak_map_height_node.
Qed.

Lemma pmmr_leaf_npos h q :
  0 <= h -> 0 <= q -> npos h q < 2 ^ 64 ->
  pmmr_leaf_to_insertion_index (npos h q) = if h =? 0 then Some q else None.
Proof.
  intros Hh Hq Hlt. unfold pmmr_leaf_to_insertion_index.
  rewrite peak_map_height_npos by done. destruct (Z.eqb_spec h 0) as [->|]; [|done].
  f_equal. unfold last_leaf. lia.
Qed.

(** Leaf indices and leaf positions are the same thing: converting an
    insertion index to its position and back is the identity, and a position
    that converts to an insertion index is the position of that index; the
    other positions, those with a height, have no insertion index. *)
Theorem leaf_index_roundtrip :
  (forall n, 0 <= n < 2 ^ 62 ->
     pmmr_leaf_to_insertion_index (insertion_to_pmmr_index n) = Some n) /\
  (forall pos0, in_bounds pos0 ->
     match pmmr_leaf_to_insertion_index pos0 with
     | Some n => is_leaf pos0 = true /\ insertion_to_pmmr_index n = pos0
     | None => is_leaf pos0 = false
     end).
Proof.
  split.
  - intros n Hn. rewrite insertion_index_npos by done.
    pose proof (npos0_ge n ltac:(lia)). by rewrite pmmr_leaf_npos by lia.
  - intros p [Hp Hlt]. destruct (npos_surj p Hp) as (h & q & Hh & Hq & ->).
    rewrite pmmr_leaf_npos, is_leaf_npos by lia. destruct (Z.eqb_spec h 0) as [->|]; [|done].
    split; [done|]. pose proof (npos0_ge q Hq). by rewrite insertion_index_npos by lia.
Qed.

Lemma leaf_at_or_after h q n :
  0 <= h -> 0 <= q -> 0 <= n ->
  npos h q <= npos 0 n <-> (if h =? 0 then last_leaf h q else last_leaf h q + 1) <= n.
Proof. intros Hh Hq Hn. pose proof (leaf_before h q n Hh Hq Hn). lia. Qed.

Lemma round_up_npos h q :
  0 <= h -> 0 <= q -> npos h q < 2 ^ 62 ->
  let r := if h =? 0 then last_leaf h q else last_leaf h q + 1 in
  round_up_to_leaf_pos (npos h q) = npos 0 r /\ 0 <= r < 2 ^ 62.
Proof.
  intros Hh Hq Hlt r. destruct (npos_bounds h q Hh Hq) as (Hb & _ & Hqb).
  pose proof (pow2_pos h Hh). pose proof (height_bound h q Hh Hq Hlt).
  assert (Hr : 0 <= r < 2 ^ 62).
  { subst r. destruct (Z.eqb_spec h 0) as [->|].
    - assert (last_leaf 0 q = q) as -> by (unfold last_leaf; lia). lia.
    - assert (count_ones q <= 62) by (apply count_ones_log; lia).
      unfold npos in Hlt. unfold last_leaf in *. pose proof (count_ones_bound q Hq).
      assert (2 ^ (h + 1) = 2 * 2 ^ h) by (rewrite Z.pow_add_r; lia). nia. }
  split; [|done]. unfold round_up_to_leaf_pos. rewrite peak_map_height_npos by lia.
  subst r. destruct (h =? 0); [apply insertion_index_npos; lia|].
  rewrite add64_small by (unfold_words; lia). apply insertion_index_npos; lia.
Qed.

(** [round_up_to_leaf_pos] returns the first leaf at or after a position:
    it is a leaf, not before the position, and no leaf lies in between. *)
Theorem round_up_to_leaf_pos_least pos0 :
  in_bounds pos0 ->
  is_leaf (round_up_to_leaf_pos pos0) = true /\ pos0 <= round_up_to_leaf_pos pos0 /\
  (forall x, in_bounds x -> pos0 <= x -> is_leaf x = true -> round_up_to_leaf_pos pos0 <= x).
Proof.
  intros [Hp Hlt]. destruct (npos_surj pos0 Hp) as (h & q & Hh & Hq & ->).
  destruct (round_up_npos h q Hh Hq Hlt) as [E Hr].
  set (r := if h =? 0 then last_leaf h q else last_leaf h q + 1) in *.
  pose proof (npos0_ge r ltac:(lia)). rewrite E, is_leaf_npos by lia. split_and!; [done| |].
  - apply leaf_at_or_after; [lia..|]. fold r. lia.
  - intros x [Hx Hx'] Hge Hleaf. destruct (npos_surj x Hx) as (h' & n & Hh' & Hn & ->).
    rewrite is_leaf_npos in Hleaf by lia. apply Z.eqb_eq in Hleaf as ->.
    apply leaf_at_or_after in Hge; [|done..]. fold r in Hge.
    destruct (Z.eq_dec r n) as [->|]; [lia|]. pose proof (npos0_mono r n). lia.
Qed.

Lemma round_up_to_leaf_pos_least_witness :
  round_up_to_leaf_pos 5 = 7 /\ is_leaf 7 = true /\ 5 <= round_up_to_leaf_pos 5.
Proof.
  split; [reflexivity|]. split; [reflexivity|].
  apply (round_up_to_leaf_pos_least 5). unfold in_bounds. lia.
Defined.

Lemma n_leaves_lt size n :
  in_bounds size -> 0 <= n -> n < n_leaves size <-> npos 0 n < size.
Proof.
  intros [Hs Hlt] Hn. destruct (npos_surj size Hs) as (h & q & Hh & Hq & ->).
  rewrite leaf_before by lia. unfold n_leaves. rewrite peak_map_height_npos by lia.
  destruct (Z.eqb_spec h 0); [done|]. pose proof (pow2_pos h Hh).
  destruct (npos_bounds h q Hh Hq) as (Hb & _ & _). pose proof (height_bound h q Hh Hq Hlt).
  rewrite add64_small; [done|]. unfold_words. unfold last_leaf. nia.
Qed.

(** [n_leaves] counts the leaves of a range of any size: leaf [n] lies
    inside the first [size] positions exactly when [n] is below the count. *)
Theorem n_leaves_counts size n :
  in_bounds size -> 0 <= n < 2 ^ 62 ->
  n < n_leaves size <-> insertion_to_pmmr_index n < size.
Proof.
  intros Hs Hn. rewrite insertion_index_npos by done. apply n_leaves_lt; [done|lia].
Qed.

Lemma n_leaves_counts_witness :
  n_leaves 9 = 6 /\ (5 < n_leaves 9 <-> insertion_to_pmmr_index 5 < 9).
Proof. split; [reflexivity|]. apply n_leaves_counts; unfold in_bounds; lia. Defined.

(** ** Families *)

(** [family] computes a parent and a sibling: both lie one level above
    and on the same level; the sibling relation is symmetric and the siblings
    share the parent; exactly one of the two is a left sibling; the left one
    comes first, the right one immediately precedes the parent, and the
    subtree of the right sibling starts where the left subtree ends. *)
Theorem family_spec pos0 :
  0 <= pos0 < 2 ^ 61 ->
  let '(parent, sibling) := family pos0 in
  bintree_postorder_height parent = bintree_postorder_height pos0 + 1 /\
  bintree_postorder_height sibling = bintree_postorder_height pos0 /\
  family sibling = (parent, pos0) /\
  is_left_sibling sibling = negb (is_left_sibling pos0) /\
  (if is_left_sibling pos0
   then sibling = parent - 1 /\ fst (bintree_range sibling) = pos0 + 1
   else pos0 = parent - 1 /\ fst (bintree_range pos0) = sibling + 1).
Proof.
  intros [Hp Hlt]. destruct (npos_surj pos0 Hp) as (h & q & Hh & Hq & ->).
  assert (Hb : in_bounds (npos h q)) by (unfold in_bounds; lia).
  destruct (npos_bounds h q Hh Hq) as (Hb1 & Hb2 & _). pose proof (pow2_pos h Hh).
  pose proof (height_bound h q Hh Hq ltac:(lia)).
  assert (E2 : 2 ^ (h + 1) = 2 * 2 ^ h) by (rewrite Z.pow_add_r; lia).
  assert (Hpar : exists j, 0 <= j /\ (q = 2 * j \/ q = 2 * j + 1)).
  { exists (q / 2). pose proof (Z.div_mod q 2). pose proof (Z.mod_pos_bound q 2).
    split; [apply Z.div_pos|]; lia. }
  destruct Hpar as (j & Hj & Hcase).
  pose proof (npos_left h j Hh Hj) as El. pose proof (npos_right h j Hh Hj) as Er.
  assert (Ed0 : 2 * j / 2 = j) by (rewrite Z.mul_comm; apply Z.div_mul; lia).
  assert (Ed1 : (2 * j + 1) / 2 = j) by (symmetry; apply Z.div_unique with 1; lia).
  pose proof (even_double j) as Ev0. pose proof (even_double1 j) as Ev1.
  assert (Hs : npos h (2 * j + 1) < 2 ^ 62).
  { destruct Hcase as [->| ->]; [|lia]. destruct (npos_bounds h (2 * j) Hh ltac:(lia)). lia. }
  assert (Hr0 : 0 <= npos h (2 * j)) by (destruct (npos_bounds h (2 * j) Hh); lia).
  assert (Hbl : in_bounds (npos h (2 * j))) by (unfold in_bounds; lia).
  assert (Hbr : in_bounds (npos h (2 * j + 1))) by (unfold in_bounds; lia).
  assert (Hfr : fst (bintree_range (npos h (2 * j + 1))) = npos h (2 * j) + 1).
  { rewrite range_npos by (auto; lia). simpl.
    destruct (leftmost_npos h (2 * j + 1)) as [_ ->]; auto; lia. }
  destruct Hcase as [->| ->]; rewrite family_npos by (auto; lia);
    rewrite ?Ed0, ?Ed1, ?Ev0, ?Ev1, ?Z.add_simpl_r;
    rewrite !is_left_sibling_npos by (auto; lia);
    rewrite ?Ev0, ?Ev1, !height_npos by lia; rewrite family_npos by (auto; lia);
    rewrite ?Ed0, ?Ed1, ?Ev0, ?Ev1, ?Z.add_simpl_r; split_and!; auto; lia.
Qed.

Lemma family_spec_witness :
  family 3 = (5, 4) /\ bintree_postorder_height 5 = 1 /\ family 4 = (5, 3).
Proof.
  destruct (family_spec 3 ltac:(lia)) as (H1 & _ & H3 & _).
  split; [reflexivity|]. split; [exact H1|exact H3].
Defined.

(** ** Peaks *)

(** Adjacent half-open ranges that cover [a, b). *)
Fixpoint tiles (a : Z) (ranges : list (Z * Z)) (b : Z) : Prop :=
  match ranges with
  | [] => a = b
  | (l, r) :: rest => l = a /\ l < r /\ tiles r rest b
  end.

Lemma peak_sizes_rest fuel size peak_size pm :
  snd (peak_sizes_loop fuel size peak_size) = snd (peak_map_loop fuel size peak_size pm).
Proof.
  revert size peak_size pm. induction fuel as [|fuel IH]; intros; [done|].
  cbn [peak_sizes_loop peak_map_loop]. destruct (peak_size =? 0); [done|].
  destruct (peak_size <=? size); [|apply IH].
  rewrite <- IH. by destruct (peak_sizes_loop _ _ _).
Qed.

Lemma peak_sizes_height_rest size :
  snd (peak_sizes_height size) = bintree_postorder_height size.
Proof.
  unfold bintree_postorder_height, peak_map_height, peak_sizes_height.
  destruct (size =? 0); [done|]. apply peak_sizes_rest.
Qed.

Lemma peak_pos_prefix k a m :
  0 <= k -> 0 <= m < 2 ^ k -> peak_pos (2 ^ (k + 1) * a + (2 ^ k + m)) k = npos k (2 * a).
Proof.
  intros Hk Hm. unfold peak_pos. f_equal. rewrite Z.pow_add_r by lia.
  replace (2 ^ k * 2 ^ 1 * a + (2 ^ k + m)) with ((2 * a + 1) * 2 ^ k + m) by lia.
  rewrite Z.div_add_l, Z.div_small by lia. lia.
Qed.

Lemma peak_ranges_tile k a m :
  0 <= a -> 0 <= m < 2 ^ Z.of_nat k -> 2 ^ Z.of_nat k * a + m < 2 ^ 61 ->
  let n := 2 ^ Z.of_nat k * a + m in
  tiles (npos 0 (2 ^ Z.of_nat k * a)) (map (bintree_range ∘ peak_pos n) (peak_bits k m)) (npos 0 n)
  /\ map (bintree_postorder_height ∘ peak_pos n) (peak_bits k m) = peak_bits k m.
Proof.
  revert a m. induction k as [|k IH]; intros a m Ha Hm Hn.
  - change (2 ^ Z.of_nat 0) with 1 in *. replace m with 0 by lia. simpl.
    split; [f_equal; lia|done].
  - cbn [peak_bits]. rewrite Nat2Z.inj_succ in *. set (z := Z.of_nat k) in *.
    replace (Z.succ z) with (z + 1) in * by lia.
    assert (Hz : 0 <= z) by lia. pose proof (pow2_pos z Hz).
    assert (E2 : 2 ^ (z + 1) = 2 ^ z * 2) by (rewrite Z.pow_add_r; lia).
    destruct (Z.lt_ge_cases m (2 ^ z)) as [Hlt|Hge].
    + rewrite (proj2 (testbit_top z m Hz ltac:(lia))).
      replace (2 ^ (z + 1) * a) with (2 ^ z * (2 * a)) in * by lia. apply IH; lia.
    + remember (m - 2 ^ z) as m' eqn:Em. assert (m = 2 ^ z + m') as -> by lia.
      rewrite (proj1 (testbit_top z m' Hz ltac:(lia))). cbn [map tiles].
      replace (peak_bits k (2 ^ z + m')) with (peak_bits k m')
        by (rewrite <- (Z.mul_1_r (2 ^ z)); symmetry; apply (peak_bits_low k k m' 1); lia).
      unfold compose at 1 3. rewrite peak_pos_prefix by lia.
      destruct (npos_of_prefix z a Hz Ha) as [P1 P2].
      pose proof (npos0_ge (2 ^ (z + 1) * a + 2 ^ z) ltac:(nia)) as Hb.
      assert (Hb0 : 0 <= npos z (2 * a)) by (destruct (npos_bounds z (2 * a)); lia).
      rewrite range_npos, height_npos by (unfold in_bounds; lia).
      destruct (IH (2 * a + 1) m' ltac:(lia) ltac:(lia) ltac:(lia)) as [IH1 IH2].
      replace (2 ^ (z + 1) * a + (2 ^ z + m')) with (2 ^ z * (2 * a + 1) + m') by lia.
      rewrite IH2. split; [|done]. split; [f_equal; lia|].
      replace (2 ^ z * (2 * a)) with (2 ^ (z + 1) * a) by lia. split; [lia|].
      rewrite <- P1, P2. by replace (2 ^ (z + 1) * a + 2 ^ z) with (2 ^ z * (2 * a + 1)) by lia.
Qed.

Lemma peak_bits_lt k m : Forall (fun b => b < Z.of_nat k) (peak_bits k m).
Proof.
  induction k as [|k IH]; simpl; [constructor|].
  assert (H : Forall (fun b => b < Z.of_nat (S k)) (peak_bits k m))
    by (eapply Forall_impl; [exact IH|]; simpl; lia).
  destruct (Z.testbit _ _); [constructor; [lia|done]|done].
Qed.

Lemma peak_bits_sorted k m : StronglySorted (fun x y => y < x) (peak_bits k m).
Proof.
  induction k as [|k IH]; simpl; [constructor|].
  destruct (Z.testbit _ _); [|done]. constructor; [done|]. apply peak_bits_lt.
Qed.

(** The peaks of a range with [n] leaves decompose it: their subtrees,
    as [bintree_range] reports them, are adjacent and cover exactly the
    positions of the range, from the first to the last, and their heights
    strictly decrease. A size that cuts a subtree has no peaks. *)
Theorem peaks_decompose :
  (forall n, 0 <= n < 2 ^ 61 ->
     let size := insertion_to_pmmr_index n in
     tiles 0 (map bintree_range (peaks size)) size /\
     StronglySorted (fun x y => y < x) (map bintree_postorder_height (peaks size))) /\
  (forall size, is_leaf size = false -> peaks size = []).
Proof.
  split.
  - intros n Hn size. unfold size. rewrite insertion_index_npos, peaks_npos by lia.
    destruct (peak_ranges_tile 62 0 n) as [H1 H2];
      [lia|change (Z.of_nat 62) with 62; lia|change (Z.of_nat 62) with 62; lia|].
    rewrite Z.mul_0_r, Z.add_0_l in H1, H2. rewrite !map_map. split; [exact H1|].
    unfold compose in H2. rewrite H2. apply peak_bits_sorted.
  - intros size Hl. unfold is_leaf in Hl. rewrite <- peak_sizes_height_rest in Hl.
    unfold peaks. destruct (peak_sizes_height size). simpl in Hl. by rewrite Hl.
Qed.

(** ** Paths to the peaks *)

(** The reference definition of a branch: climb by [family] while the parent
    is inside the range. *)
Fixpoint climb (fuel : nat) (pos0 size : Z) : list (Z * Z) :=
  match fuel with
  | O => []
  | S fuel =>
      let '(parent, sibling) := family pos0 in
      if parent <? size then (parent, sibling) :: climb fuel parent size else []
  end.

Lemma npos_parent_gt h q : 0 <= h -> 0 <= q -> npos h q < npos (h + 1) (q / 2).
Proof.
  intros Hh Hq.
  pose proof (Z.div_mod q 2 ltac:(lia)). pose proof (Z.mod_pos_bound q 2 ltac:(lia)).
  assert (0 <= q / 2) by (apply Z.div_pos; lia).
  pose proof (npos_right h (q / 2) Hh ltac:(done)). pose proof (npos_left h (q / 2) Hh ltac:(done)).
  pose proof (pow2_pos (h + 1)).
  assert (q = 2 * (q / 2) \/ q = 2 * (q / 2) + 1) as [Eq|Eq] by lia;
    rewrite Eq at 1; lia.
Qed.

(** A parent stays within the perfect tree that contains its child. *)
Lemma parent_bound h q K :
  0 <= h -> 0 <= q -> h + 1 <= K -> 2 ^ h * (q + 1) <= 2 ^ K ->
  2 ^ (h + 1) * (q / 2 + 1) <= 2 ^ K.
Proof.
  intros Hh Hq HK Hb. pose proof (pow2_pos h Hh).
  assert (Ek : 2 ^ K = 2 ^ (h + 1) * 2 ^ (K - (h + 1))) by
    (rewrite <- Z.pow_add_r by lia; f_equal; lia).
  assert (E2 : 2 ^ (h + 1) = 2 * 2 ^ h) by (rewrite Z.pow_add_r; lia).
  pose proof (pow2_pos (K - (h + 1)) ltac:(lia)). rewrite Ek in *. rewrite E2 in *.
  apply Z.mul_le_mono_nonneg_l; [lia|].
  assert (q + 1 <= 2 * 2 ^ (K - (h + 1))) by nia.
  assert (q / 2 < 2 ^ (K - (h + 1))) by (apply Z.div_lt_upper_bound; lia). lia.
Qed.

Lemma family_inside h q size :
  0 <= h -> 0 <= q -> npos h q < size <= 2 ^ 61 ->
  exists s, family (npos h q) = (npos (h + 1) (q / 2), s) /\ npos h q < npos (h + 1) (q / 2).
Proof.
  intros Hh Hq Hs. assert (0 <= npos h q) by (destruct (npos_bounds h q); lia).
  rewrite family_npos by (unfold in_bounds; lia). eexists. split; [done|].
  by apply npos_parent_gt.
Qed.

Lemma loop_bit_test m h q :
  0 <= h <= 62 -> 0 <= m -> m / 2 ^ h = q -> (Z.land m (2 ^ h) =? 0) = Z.even q.
Proof.
  intros Hh Hm Hq. rewrite land_pow2_testbit by lia.
  by rewrite Z.testbit_odd, Z.shiftr_div_pow2, Hq, Z.negb_odd by lia.
Qed.

Lemma family_branch_loop_climb fuel m h q size :
  0 <= h -> 0 <= m -> m / 2 ^ h = q -> npos h q < size <= 2 ^ 61 ->
  family_branch_loop fuel m (2 ^ h) (npos h q) size = climb fuel (npos h q) size.
Proof.
  revert h q. induction fuel as [|fuel IH]; intros h q Hh Hm Hq Hs; [done|].
  cbn [family_branch_loop climb]. pose proof (pow2_pos h Hh) as Hp.
  assert (Hq0 : 0 <= q) by (subst q; apply Z.div_pos; lia).
  assert (0 <= npos h q) by (destruct (npos_bounds h q); lia).
  pose proof (height_bound h q Hh Hq0 ltac:(lia)) as Hh61.
  destruct (family_inside h q size Hh Hq0 Hs) as (s & Ef & Hpar).
  rewrite (loop_bit_test m h q) by lia.
  assert (Ef' := Ef). unfold family in Ef'. rewrite peak_map_height_npos in Ef' by lia.
  rewrite bit_test, shl64_1 in Ef' by lia. cbv zeta in Ef' |- *. rewrite Ef', Ef.
  rewrite add64_small by (unfold_words; lia).
  destruct (Z.ltb_spec (npos h q + 1) size), (Z.ltb_spec (npos (h + 1) (q / 2)) size),
    (Z.leb_spec size (npos (h + 1) (q / 2))); try lia; try done.
  f_equal. rewrite (shl64_small (2 ^ h) 1) by
    (try lia; unfold_words; assert (2 ^ h <= 2 ^ 61) by (apply Z.pow_le_mono_r; lia); lia).
  rewrite <- Z.pow_add_r by lia. apply IH; [lia|done| |lia].
  rewrite Z.pow_add_r, <- Z.div_div by lia. by rewrite Hq.
Qed.

Lemma climb_stable fuel fuel' h q size :
  0 <= h -> 0 <= q -> npos h q < size <= 2 ^ 61 ->
  62 - h <= Z.of_nat fuel -> 62 - h <= Z.of_nat fuel' ->
  climb fuel (npos h q) size = climb fuel' (npos h q) size.
Proof.
  revert fuel' h q. induction fuel as [|fuel IH]; intros fuel' h q Hh Hq Hs Hf Hf';
    pose proof (height_bound h q Hh Hq ltac:(lia)); [lia|].
  destruct fuel' as [|fuel']; [lia|]. cbn [climb].
  destruct (family_inside h q size Hh Hq Hs) as (s & -> & Hpar).
  destruct (Z.ltb_spec (npos (h + 1) (q / 2)) size); [|done].
  f_equal. apply IH; try lia. apply Z.div_pos; lia.
Qed.

(** A node inside the range whose parent is outside is a peak. *)
Lemma npos_lt_leaf h q n :
  0 <= h -> 0 <= q -> 0 <= n -> npos h q < npos 0 n <-> 2 ^ h * (q + 1) <= n.
Proof.
  intros Hh Hq Hn. pose proof (pow2_pos h Hh).
  assert (Hll : 0 <= last_leaf h q) by (unfold last_leaf; nia).
  rewrite <- node_pos_npos by done. split; intros Hlt.
  - destruct (Z.le_gt_cases (2 ^ h * (q + 1)) n); [done|exfalso].
    assert (npos 0 n <= npos 0 (last_leaf h q)).
    { destruct (Z.eq_dec n (last_leaf h q)) as [->|]; [lia|].
      pose proof (npos0_mono n (last_leaf h q)). unfold last_leaf in *. lia. }
    rewrite (npos0 (last_leaf h q)) in *. unfold node_pos in *. lia.
  - eapply Z.lt_le_trans; [apply node_before_next_leaf, last_leaf_node; lia|].
    rewrite <- npos0. unfold last_leaf in *.
    replace (2 ^ h * (q + 1) - 1 + 1) with (2 ^ h * (q + 1)) by lia.
    destruct (Z.eq_dec (2 ^ h * (q + 1)) n) as [->|]; [lia|].
    pose proof (npos0_mono (2 ^ h * (q + 1)) n). lia.
Qed.

Lemma elem_of_peak_bits k m b :
  b ∈ peak_bits k m <-> 0 <= b < Z.of_nat k /\ Z.testbit m b = true.
Proof.
  induction k as [|k IH]; simpl peak_bits.
  - split; [by intros ?%elem_of_nil|lia].
  - destruct (Z.testbit m (Z.of_nat k)) eqn:E; rewrite ?elem_of_cons, IH.
    + split; [intros [->|[? ?]]; (split; [lia|done])|intros [? ?]].
      destruct (Z.eq_dec b (Z.of_nat k)); [by left|right; split; [lia|done]].
    + split; [intros [? ?]; split; [lia|done]|intros [? Hb]; split; [|done]].
      destruct (Z.eq_dec b (Z.of_nat k)); [congruence|lia].
Qed.

Lemma peak_iff h q n :
  0 <= h -> 0 <= q -> 0 <= n < 2 ^ 61 ->
  npos h q ∈ peaks (npos 0 n) <-> npos h q < npos 0 n <= npos (h + 1) (q / 2).
Proof.
  intros Hh Hq Hn. pose proof (pow2_pos h Hh).
  assert (E2 : 2 ^ (h + 1) = 2 ^ h * 2) by (rewrite Z.pow_add_r; lia).
  pose proof (Z.div_mod q 2 ltac:(lia)). pose proof (Z.mod_pos_bound q 2 ltac:(lia)).
  assert (0 <= q / 2) by (apply Z.div_pos; lia).
  pose proof (npos_lt_leaf h q n Hh Hq ltac:(lia)) as L1.
  pose proof (npos_lt_leaf (h + 1) (q / 2) n ltac:(lia) ltac:(done) ltac:(lia)) as L2.
  pose proof (npos0_ge n ltac:(lia)).
  rewrite peaks_npos by done. rewrite elem_of_map. split.
  - intros (b & E & [Hb Hbit]%elem_of_peak_bits). unfold peak_pos in E.
    rewrite Z.testbit_odd, Z.shiftr_div_pow2 in Hbit by lia.
    apply Z.odd_spec in Hbit as [j Hj]. pose proof (pow2_pos b ltac:(lia)) as Hpb.
    assert (0 <= n / 2 ^ b) by (apply Z.div_pos; lia).
    pose proof (Z.div_mod n (2 ^ b) ltac:(lia)) as Hdm.
    pose proof (Z.mod_pos_bound n (2 ^ b) ltac:(lia)).
    assert (Hlt : npos b (n / 2 ^ b - 1) < npos 0 n) by (apply npos_lt_leaf; nia).
    apply npos_inj in E as [-> ->]; try lia. split; [lia|].
    replace ((n / 2 ^ b - 1) / 2) with j in * by
      (rewrite Hj; replace (2 * j + 1 - 1) with (j * 2) by lia; symmetry; apply Z.div_mul; lia).
    apply Z.le_ngt. intros Hlt'. apply L2 in Hlt'. nia.
  - intros [Hle%L1 Hgt%Z.le_ngt]. rewrite L2 in Hgt.
    assert (Hq2 : q = 2 * (q / 2)) by nia. set (j := q / 2) in *.
    assert (Hdiv : n / 2 ^ h = 2 * j + 1) by (symmetry; apply Z.div_unique with (n - 2 ^ h * (2 * j + 1)); nia).
    exists h. split; [unfold peak_pos; f_equal; lia|]. apply elem_of_peak_bits.
    rewrite Z.testbit_odd, Z.shiftr_div_pow2, Hdiv by lia.
    split; [|apply Z.odd_spec; by exists j]. change (Z.of_nat 62) with 62. split; [done|].
    destruct (Z.lt_ge_cases h 62); [done|]. assert (2 ^ 62 <= 2 ^ h) by (apply Z.pow_le_mono_r; lia).
    nia.
Qed.

Lemma climb_last fuel h q size :
  0 <= h -> 0 <= q -> npos h q < size <= 2 ^ 61 -> 62 - h <= Z.of_nat fuel ->
  exists h' q', 0 <= h' /\ 0 <= q' /\
    default (npos h q) (fst <$> last (climb fuel (npos h q) size)) = npos h' q' /\
    npos h' q' < size <= npos (h' + 1) (q' / 2).
Proof.
  revert h q. induction fuel as [|fuel IH]; intros h q Hh Hq Hs Hf;
    pose proof (height_bound h q Hh Hq ltac:(lia)); [lia|]. cbn [climb].
  destruct (family_inside h q size Hh Hq Hs) as (s & -> & Hpar).
  destruct (Z.ltb_spec (npos (h + 1) (q / 2)) size).
  - destruct (IH (h + 1) (q / 2)) as (h' & q' & ? & ? & E & ?);
      [lia|apply Z.div_pos; lia|lia|lia|]. exists h', q'. split_and!; try lia.
    rewrite <- E. rewrite last_cons. by destruct (last _).
  - exists h, q. simpl. split_and!; lia.
Qed.

(** [family_branch], which tracks the bits of the leaf index instead of
    calling [family], is the climb by [family] from a position to the first
    node whose parent is outside the range: it agrees with the reference for
    every fuel of at least 64, and in a range of [n] leaves the climb ends at a
    peak. *)
Theorem family_branch_climbs pos0 n fuel :
  let size := insertion_to_pmmr_index n in
  0 <= n < 2 ^ 60 -> 0 <= pos0 < size -> (64 <= fuel)%nat ->
  family_branch pos0 size = climb fuel pos0 size /\
  default pos0 (fst <$> last (family_branch pos0 size)) ∈ peaks size.
Proof.
  intros size Hn Hp Hf. subst size. rewrite insertion_index_npos in * by lia.
  pose proof (npos0_ge n ltac:(lia)).
  destruct (npos_surj pos0 ltac:(lia)) as (h & q & Hh & Hq & ->).
  pose proof (height_bound h q Hh Hq ltac:(lia)).
  assert (E : family_branch (npos h q) (npos 0 n) = climb 64 (npos h q) (npos 0 n)).
  { unfold family_branch. rewrite peak_map_height_npos, shl64_1 by lia.
    pose proof (pow2_pos h Hh).
    apply family_branch_loop_climb; [lia|unfold last_leaf; nia| |lia].
    symmetry. apply Z.div_unique with (2 ^ h - 1); unfold last_leaf; lia. }
  rewrite E. split; [apply climb_stable; lia|].
  destruct (climb_last 64 h q (npos 0 n)) as (h' & q' & ? & ? & -> & ?); [lia..|].
  apply peak_iff; lia.
Qed.

Lemma family_branch_climbs_witness :
  family_branch 3 (insertion_to_pmmr_index 6) = climb 70 3 (insertion_to_pmmr_index 6) /\
  6 ∈ peaks (insertion_to_pmmr_index 6).
Proof.
  apply (family_branch_climbs 3 6 70); vm_compute; first [split; congruence | done | lia].
Defined.

(** ** Subtrees *)

Lemma filter_leaves_npos h q :
  0 <= h -> 0 <= q -> in_bounds (npos h q) ->
  forall x, x ∈ bintree_leaf_pos_iter (npos h q) <->
    exists n, x = npos 0 n /\ 2 ^ h * q <= n <= last_leaf h q.
Proof.
  intros Hh Hq Hb x. pose proof Hb as [Hp Hlt].
  destruct (leftmost_npos h q Hh Hq Hb) as [El El'].
  destruct (rightmost_npos h q Hh Hq Hb) as [Er Er'].
  pose proof (pow2_pos h Hh). pose proof (pow2_pos (h + 1)).
  assert (Hll : 0 <= last_leaf h q) by (unfold last_leaf; nia).
  assert (Hle : last_leaf h q <= npos 0 (last_leaf h q)) by (apply npos0_ge; lia).
  assert (2 ^ h * q <= npos 0 (2 ^ h * q)) by (apply npos0_ge; nia).
  unfold bintree_leaf_pos_iter. rewrite El, Er, !pmmr_leaf_npos by nia. simpl.
  rewrite elem_of_map. unfold range_incl. split.
  - intros (n & -> & Hn%elem_of_seqZ). exists n. split; [|lia].
    apply insertion_index_npos. nia.
  - intros (n & -> & Hn). exists n. split; [rewrite insertion_index_npos; nia|].
    apply elem_of_seqZ. lia.
Qed.

(** The subtree below a position is the contiguous range that
    [bintree_range] and [bintree_pos_iter] return: [2^(h+1) - 1] positions
    from the leftmost leaf up to the position itself, and
    [bintree_leaf_pos_iter] enumerates exactly the leaves of that range. *)
Theorem bintree_subtree pos0 :
  in_bounds pos0 ->
  let h := bintree_postorder_height pos0 in
  bintree_range pos0 = (bintree_leftmost pos0, pos0 + 1) /\
  bintree_leftmost pos0 = pos0 + 1 - (2 ^ (h + 1) - 1) /\
  is_leaf (bintree_leftmost pos0) = true /\ is_leaf (bintree_rightmost pos0) = true /\
  (forall x, x ∈ bintree_leaf_pos_iter pos0 <->
     x ∈ bintree_pos_iter pos0 /\ is_leaf x = true).
Proof.
  intros Hb h. pose proof Hb as [Hp Hlt]. destruct (npos_surj pos0 Hp) as (h' & q & Hh & Hq & ->).
  subst h. rewrite height_npos by lia.
  destruct (leftmost_npos h' q Hh Hq Hb) as [El El'].
  destruct (rightmost_npos h' q Hh Hq Hb) as [Er Er'].
  pose proof (pow2_pos h' Hh). pose proof (pow2_pos (h' + 1)).
  assert (Hle : last_leaf h' q <= npos 0 (last_leaf h' q))
    by (apply npos0_ge; unfold last_leaf; nia).
  assert (Hl0 : 0 <= 2 ^ h' * q <= npos 0 (2 ^ h' * q)) by (split; [nia|apply npos0_ge; nia]).
  rewrite range_npos by (auto; lia). rewrite El, Er.
  rewrite !is_leaf_npos by (unfold last_leaf in *; nia).
  split_and!; [done|lia|done|done|]. intros x. rewrite filter_leaves_npos by (auto; lia).
  unfold bintree_pos_iter, range_incl. rewrite El, elem_of_seqZ. split.
  - intros (n & -> & Hn). assert (npos 0 (2 ^ h' * q) <= npos 0 n <= npos 0 (last_leaf h' q)).
    { pose proof (npos0_lt_iff n (2 ^ h' * q)). pose proof (npos0_lt_iff (last_leaf h' q) n). nia. }
    split; [lia|]. by rewrite is_leaf_npos by nia.
  - intros [Hx Hleaf]. destruct (npos_surj x) as (hx & n & Hhx & Hn & ->); [lia|].
    rewrite is_leaf_npos in Hleaf by lia. apply Z.eqb_eq in Hleaf as ->.
    exists n. split; [done|]. pose proof (npos0_lt_iff n (2 ^ h' * q)).
    pose proof (npos_lt_leaf h' q n Hh Hq Hn). unfold last_leaf. lia.
Qed.

Lemma peak_map_height_bijection_witness :
  peak_map_height 6 = (3, 2) /\ peak_map_height (node_pos 3 2) = (3, 2).
Proof.
  split; [reflexivity|]. apply (proj2 peak_map_height_bijection).
  - split; [lia|]. split; [lia|]. exists 1. reflexivity.
  - unfold_words. split; vm_compute; congruence.
Defined.

Lemma leaf_index_roundtrip_witness :
  pmmr_leaf_to_insertion_index (insertion_to_pmmr_index 12345) = Some 12345.
Proof. apply (proj1 leaf_index_roundtrip). lia. Defined.

Lemma peaks_decompose_witness :
  peaks (insertion_to_pmmr_index 11) = [14; 17; 18] /\
  tiles 0 (map bintree_range (peaks (insertion_to_pmmr_index 11))) (insertion_to_pmmr_index 11).
Proof. split; [reflexivity|]. apply (proj1 peaks_decompose). lia. Defined.

Lemma bintree_subtree_witness :
  bintree_leaf_pos_iter 6 = [0; 1; 3; 4] /\
  bintree_range 6 = (bintree_leftmost 6, 6 + 1).
Proof. split; [reflexivity|]. apply (bintree_subtree 6). unfold in_bounds. lia. Defined.
