(* ===== verification/Pmmr.v ===== *)
(** The prunable Merkle mountain range.

    Models [PMMR] and the provided methods of [ReadablePMMR]
    ([src/core/src/core/pmmr/pmmr.rs]), the readonly and rewindable views
    ([readonly_pmmr.rs], [rewindable_pmmr.rs]), the [Backend] trait
    ([backend.rs]) as a type class with its laws as a second class, the
    [VecBackend] of [vec_backend.rs] as an instance of both, and Merkle proofs
    ([src/core/src/core/merkle_proof.rs]).

    The hash function is a parameter: [leaf_hash] and [pair_hash] stand for
    [hash_with_index] of a leaf and of a pair of hashes. The specification of a
    range is the list of its leaves; [tree_hash] is the hash it assigns to a
    node, and the refinement [rep] says that a PMMR stores exactly those. *)

From Stdlib Require Import ZArith Lia.
From stdpp Require Import base numbers option sorting gmap list.
From S2P Require Import Prelude PmmrIndex.
Open Scope Z_scope.

(** [PMMRIndexHashable] for leaves and for pairs of hashes. *)
Class PMMRHash (T Hash : Type) := {
  hash_eq_dec : EqDecision Hash;
  leaf_hash : T -> Z -> Hash;
  pair_hash : Hash * Hash -> Z -> Hash;
  ZERO_HASH : Hash;
}.
#[export] Existing Instance hash_eq_dec.

Inductive pmmr_error : Type :=
| BadMmrSize (pos : Z)
| MissingLeftSibling
| NotALeaf (pos : Z)
| NoElement (pos : Z)
| CantPrune (pos : Z)
| InvalidParent (pos : Z)
| NoRoot
| BackendFailure.

(** The [Backend] trait. [None] is a panic of an operation that an
    implementation leaves [unimplemented!()]. *)
Class Backend (T E Hash B : Type) := {
  append : B -> T -> list Hash -> result pmmr_error B;
  append_pruned_subtree : B -> Hash -> Z -> option (result pmmr_error B);
  append_hash : B -> Hash -> option (result pmmr_error B);
  backend_rewind : B -> Z -> gset Z -> result pmmr_error B;
  backend_get_hash : B -> Z -> option Hash;
  backend_get_data : B -> Z -> option E;
  backend_get_from_file : B -> Z -> option Hash;
  backend_get_peak_from_file : B -> Z -> option Hash;
  backend_get_data_from_file : B -> Z -> option E;
  backend_leaf_pos_iter : B -> list Z;
  backend_leaf_idx_iter : B -> Z -> list Z;
  backend_n_unpruned_leaves : B -> option Z;
  backend_remove : B -> Z -> result pmmr_error B;
}.

(** ** The Merkle mountain range over a backend *)

Section pmmr.
Context {T E Hash B : Type} {PH : PMMRHash T Hash} {BE : Backend T E Hash B}.

Record PMMR : Type := mkPMMR { size : Z; backend : B }.

Definition new (b : B) : PMMR := mkPMMR 0 b.
Definition at_ (b : B) (sz : Z) : PMMR := mkPMMR sz b.

(** *** [impl ReadablePMMR for PMMR] *)

Definition get_hash (p : PMMR) (pos0 : Z) : option Hash :=
  if size p <=? pos0 then None
  else if is_leaf pos0 then backend_get_hash (backend p) pos0
  else backend_get_from_file (backend p) pos0.

Definition get_data (p : PMMR) (pos0 : Z) : option E :=
  if size p <=? pos0 then None
  else if is_leaf pos0 then backend_get_data (backend p) pos0
  else None.

Definition get_from_file (p : PMMR) (pos0 : Z) : option Hash :=
  if size p <=? pos0 then None else backend_get_from_file (backend p) pos0.

Definition get_peak_from_file (p : PMMR) (pos0 : Z) : option Hash :=
  if size p <=? pos0 then None else backend_get_peak_from_file (backend p) pos0.

Definition get_data_from_file (p : PMMR) (pos0 : Z) : option E :=
  if size p <=? pos0 then None else backend_get_data_from_file (backend p) pos0.

Definition unpruned_size (p : PMMR) : Z := size p.

(** *** Provided methods of [ReadablePMMR] *)

Definition is_empty (p : PMMR) : bool := unpruned_size p =? 0.

(** The loop of [bag_the_rhs] and of [root], over the reversed peaks. *)
Definition bag_step (index : Z) (res : option Hash) (peak : Hash) : option Hash :=
  match res with
  | None => Some peak
  | Some rhash => Some (pair_hash (peak, rhash) index)
  end.

Definition bag_the_rhs (p : PMMR) (peak_pos0 : Z) : option Hash :=
  let size := unpruned_size p in
  let rhs := omap (get_from_file p) (filter (fun x => peak_pos0 < x) (peaks size)) in
  fold_left (bag_step size) (rev rhs) None.

Definition peaks_ (p : PMMR) : list Hash :=
  omap (get_peak_from_file p) (peaks (unpruned_size p)).

Definition peak_path (p : PMMR) (peak_pos0 : Z) : list Hash :=
  let rhs := bag_the_rhs p peak_pos0 in
  let res := omap (get_peak_from_file p)
               (filter (fun x => x < peak_pos0) (peaks (unpruned_size p))) in
  rev (match rhs with Some rhs => res ++ [rhs] | None => res end).

Definition root (p : PMMR) : result pmmr_error Hash :=
  if is_empty p then Ok ZERO_HASH
  else
    let mmr_size := unpruned_size p in
    ok_or (fold_left (bag_step mmr_size) (rev (peaks_ p)) None) NoRoot.

Record MerkleProof : Type := mkProof { mmr_size : Z; path : list Hash }.

Definition merkle_proof (p : PMMR) (pos0 : Z) : result pmmr_error MerkleProof :=
  let size := unpruned_size p in
  if negb (is_leaf pos0) then Err (NotALeaf pos0)
  else
    ok_or (get_hash p pos0) (NoElement pos0) ;?
    let family_branch := family_branch pos0 size in
    let path := omap (fun x => get_from_file p (snd x)) family_branch in
    let peak_pos := match last family_branch with Some (x, _) => x | None => pos0 end in
    Ok (mkProof size (path ++ peak_path p peak_pos)).

(** *** [PMMR] proper *)

(** The [while] loop of [push]: [64] rounds exhaust the bits of the peak map. *)
Fixpoint push_loop (fuel : nat) (b : B) (peak_map peak pos : Z) (current_hash : Hash)
    (hashes : list Hash) : result pmmr_error (Z * list Hash) :=
  match fuel with
  | O => Ok (pos, hashes)
  | S fuel =>
      if negb (Z.land peak_map peak =? 0) then
        let left_sibling := sub64 (add64 pos 1) (mul64 2 peak) in
        let? left_hash := ok_or (backend_get_peak_from_file b left_sibling) MissingLeftSibling in
        let peak := mul64 peak 2 in
        let pos := add64 pos 1 in
        let current_hash := pair_hash (left_hash, current_hash) pos in
        push_loop fuel b peak_map peak pos current_hash (hashes ++ [current_hash])
      else Ok (pos, hashes)
  end.

Definition push (p : PMMR) (leaf : T) : result pmmr_error (Z * PMMR) :=
  let leaf_pos := size p in
  let current_hash := leaf_hash leaf leaf_pos in
  let '(peak_map, height) := peak_map_height leaf_pos in
  if negb (height =? 0) then Err (BadMmrSize leaf_pos)
  else
    let? (pos, hashes) :=
      push_loop 64 (backend p) peak_map 1 leaf_pos current_hash [current_hash] in
    let? b := append (backend p) leaf hashes in
    Ok (leaf_pos, mkPMMR (add64 pos 1) b).

(** The loop of [push_pruned_subtree]; [None] is a panic of the backend. *)
Fixpoint pruned_subtree_loop (fuel : nat) (b : B) (peak_map peak pos : Z) (current_hash : Hash)
    : option (result pmmr_error (B * Z)) :=
  match fuel with
  | O => Some (Ok (b, pos))
  | S fuel =>
      if negb (Z.land peak_map peak =? 0) then
        let '(parent, sibling) := family pos in
        let peak := mul64 peak 2 in
        if pos <? sibling
        then pruned_subtree_loop fuel b peak_map peak pos current_hash
        else
          match backend_get_hash b sibling with
          | None => Some (Err MissingLeftSibling)
          | Some left_hash =>
              let current_hash := pair_hash (left_hash, current_hash) parent in
              let! r := append_hash b current_hash in
              match r with
              | Err e => Some (Err e)
              | Ok b => pruned_subtree_loop fuel b peak_map peak parent current_hash
              end
          end
      else Some (Ok (b, pos))
  end.

Definition push_pruned_subtree (p : PMMR) (hash : Hash) (pos0 : Z)
    : option (result pmmr_error PMMR) :=
  let! r := append_pruned_subtree (backend p) hash pos0 in
  match r with
  | Err e => Some (Err e)
  | Ok b =>
      let '(peak_map, _) := peak_map_height pos0 in
      let! r := pruned_subtree_loop 64 b peak_map 1 pos0 hash in
      match r with
      | Err e => Some (Err e)
      | Ok (b, pos) => Some (Ok (mkPMMR (round_up_to_leaf_pos pos) b))
      end
  end.

Definition rewind (p : PMMR) (position : Z) (rewind_rm_pos : gset Z) : result pmmr_error PMMR :=
  let leaf_pos := round_up_to_leaf_pos position in
  let? b := backend_rewind (backend p) leaf_pos rewind_rm_pos in
  Ok (mkPMMR leaf_pos b).

Definition prune (p : PMMR) (pos0 : Z) : result pmmr_error (bool * PMMR) :=
  if negb (is_leaf pos0) then Err (CantPrune pos0)
  else match backend_get_hash (backend p) pos0 with
  | None => Ok (false, p)
  | Some _ =>
      let? b := backend_remove (backend p) pos0 in
      Ok (true, mkPMMR (size p) b)
  end.

(** One round of the loop of [validate]. *)
Definition validate_node (p : PMMR) (n : Z) : result pmmr_error unit :=
  let height := bintree_postorder_height n in
  if 0 <? height then
    match get_hash p n with
    | None => Ok tt
    | Some hash =>
        let left_pos := sub64 n (shl64 1 height) in
        let right_pos := sub64 n 1 in
        match get_from_file p left_pos with
        | None => Ok tt
        | Some left_child_hs =>
            match get_from_file p right_pos with
            | None => Ok tt
            | Some right_child_hs =>
                if decide (pair_hash (left_child_hs, right_child_hs) n = hash)
                then Ok tt else Err (InvalidParent (add64 n 1))
            end
        end
    end
  else Ok tt.

Definition validate (p : PMMR) : result pmmr_error unit :=
  for_each (validate_node p) (seqZ 0 (size p)).

(** *** [ReadonlyPMMR] and [RewindablePMMR] *)

Definition readonly_pmmr (p : PMMR) : PMMR := at_ (backend p) (size p).

(** The loop of [elements_from_pmmr_index] runs at most once per position
    before [sz]. *)
Fixpoint elements_loop (fuel : nat) (p : PMMR) (max_count sz pmmr_index : Z) (acc : list E)
    : Z * list E :=
  match fuel with
  | O => (pmmr_index, acc)
  | S fuel =>
      if (Z.of_nat (length acc) <? max_count) && (pmmr_index <? sz) then
        let acc := match get_data p pmmr_index with Some t => acc ++ [t] | None => acc end in
        elements_loop fuel p max_count sz (add64 pmmr_index 1) acc
      else (pmmr_index, acc)
  end.

Definition elements_from_pmmr_index (p : PMMR) (pmmr_index1 max_count : Z)
    (max_pmmr_pos1 : option Z) : Z * list E :=
  let sz := match max_pmmr_pos1 with Some x => x | None => size p end in
  let pmmr_index := sat_sub64 pmmr_index1 1 in
  elements_loop (Z.to_nat (sz - pmmr_index)) p max_count sz pmmr_index [].

Fixpoint last_n_loop (fuel : nat) (p : PMMR) (n last_leaf : Z) (acc : list (Hash * E))
    : list (Hash * E) :=
  match fuel with
  | O => acc
  | S fuel =>
      if (Z.of_nat (length acc) <? n) && (0 <? last_leaf) then
        let last_leaf := bintree_rightmost (sub64 last_leaf 1) in
        let acc :=
          match backend_get_hash (backend p) last_leaf with
          | Some hash =>
              match backend_get_data (backend p) last_leaf with
              | Some data => acc ++ [(hash, data)]
              | None => acc
              end
          | None => acc
          end in
        last_n_loop fuel p n last_leaf acc
      else acc
  end.

(** Every round lowers [last_leaf], so [size] rounds are enough. *)
Definition get_last_n_insertions (p : PMMR) (n : Z) : list (Hash * E) :=
  last_n_loop (Z.to_nat (size p)) p n (size p) [].

Definition rewindable_rewind (p : PMMR) (position : Z) : PMMR :=
  mkPMMR (round_up_to_leaf_pos position) (backend p).

(** *** Merkle proofs *)

Inductive MerkleProofError : Type := RootMismatch.

Definition empty_proof : MerkleProof := mkProof 0 [].

(** [slice::binary_search] on a sorted slice without duplicates. *)
Fixpoint binary_search (l : list Z) (x : Z) : option Z :=
  match l with
  | [] => None
  | y :: l => if y =? x then Some 0 else Z.succ <$> binary_search l x
  end.

(** [MerkleProof::verify] and [verify_consume], which call each other with one
    path element less each time. The element is passed as its
    [hash_with_index]. *)
Fixpoint verify_consume (mmr_size : Z) (path : list Hash) (root : Hash)
    (element : Z -> Hash) (node_pos0 : Z) : result MerkleProofError unit :=
  let peaks_pos0 := peaks mmr_size in
  let node_hash := if mmr_size <=? node_pos0 then element mmr_size else element node_pos0 in
  match path with
  | [] => if decide (root = node_hash) then Ok tt else Err RootMismatch
  | sibling :: path =>
      let '(parent_pos0, sibling_pos0) := family node_pos0 in
      let parent :=
        match binary_search peaks_pos0 node_pos0 with
        | Some x =>
            if x =? Z.of_nat (length peaks_pos0) - 1
            then (sibling, node_hash) else (node_hash, sibling)
        | None =>
            if mmr_size <=? parent_pos0 then (sibling, node_hash)
            else if is_left_sibling sibling_pos0 then (sibling, node_hash)
            else (node_hash, sibling)
        end in
      verify_consume mmr_size path root (pair_hash parent) parent_pos0
  end.

Definition verify (proof : MerkleProof) (root : Hash) (element : Z -> Hash) (node_pos : Z)
    : result MerkleProofError unit :=
  verify_consume (mmr_size proof) (path proof) root element node_pos.

End pmmr.

Arguments PMMR : clear implicits.
Arguments MerkleProof : clear implicits.

(** ** The in-memory backend *)

Module Vec.
Section vec.
Context {T E Hash : Type} (as_elmt : T -> E).

Record VecBackend : Type := mkVec {
  data : option (list T);
  hashes : list Hash;
  removed : gset Z;
}.

Definition new : VecBackend := mkVec (Some []) [] ∅.
Definition new_hash_only : VecBackend := mkVec None [] ∅.
Definition size (v : VecBackend) : Z := Z.of_nat (length (hashes v)).

Definition append (v : VecBackend) (elmt : T) (hs : list Hash) : result pmmr_error VecBackend :=
  Ok (mkVec (match data v with Some d => Some (d ++ [elmt]) | None => None end)
        (hashes v ++ hs) (removed v)).

(** [unimplemented!()] *)
Definition append_pruned_subtree (v : VecBackend) (h : Hash) (pos0 : Z)
  : option (result pmmr_error VecBackend) := None.
Definition append_hash (v : VecBackend) (h : Hash)
  : option (result pmmr_error VecBackend) := None.
Definition n_unpruned_leaves (v : VecBackend) : option Z := None.

Definition get_from_file (v : VecBackend) (pos0 : Z) : option Hash :=
  hashes v !! Z.to_nat pos0.

Definition get_hash (v : VecBackend) (pos0 : Z) : option Hash :=
  if decide (pos0 ∈ removed v) then None else get_from_file v pos0.

Definition get_peak_from_file (v : VecBackend) (pos0 : Z) : option Hash :=
  get_from_file v pos0.

Definition get_data_from_file (v : VecBackend) (pos0 : Z) : option E :=
  match data v with
  | Some d => as_elmt <$> d !! Z.to_nat (sub64 (n_leaves (add64 1 pos0)) 1)
  | None => None
  end.

Definition get_data (v : VecBackend) (pos0 : Z) : option E :=
  if decide (pos0 ∈ removed v) then None else get_data_from_file v pos0.

Definition leaf_pos_iter (v : VecBackend) : list Z :=
  filter (fun x => is_leaf x = true /\ x ∉ removed v) (seqZ 0 (size v)).

Fixpoint skip_while (f : Z -> bool) (l : list Z) : list Z :=
  match l with
  | [] => []
  | x :: l => if f x then skip_while f l else x :: l
  end.

Definition leaf_idx_iter (v : VecBackend) (from_idx : Z) : list Z :=
  let from_pos := insertion_to_pmmr_index from_idx in
  map (fun x => sub64 (n_leaves (add64 x 1)) 1)
    (skip_while (fun x => x <? from_pos) (leaf_pos_iter v)).

Definition remove (v : VecBackend) (pos0 : Z) : result pmmr_error VecBackend :=
  Ok (mkVec (data v) (hashes v) ({[pos0]} ∪ removed v)).

Definition rewind (v : VecBackend) (position : Z) (_rewind_rm_pos : gset Z)
    : result pmmr_error VecBackend :=
  Ok (mkVec (match data v with
             | Some d => Some (take (Z.to_nat (n_leaves position)) d)
             | None => None
             end)
        (take (Z.to_nat position) (hashes v)) (removed v)).

End vec.
Arguments VecBackend : clear implicits.
End Vec.

#[export] Instance vec_backend {T E Hash} (as_elmt : T -> E) : Backend T E Hash (Vec.VecBackend T Hash) := {|
  append := Vec.append;
  append_pruned_subtree := Vec.append_pruned_subtree;
  append_hash := Vec.append_hash;
  backend_rewind := Vec.rewind;
  backend_get_hash := Vec.get_hash;
  backend_get_data := Vec.get_data as_elmt;
  backend_get_from_file := Vec.get_from_file;
  backend_get_peak_from_file := Vec.get_peak_from_file;
  backend_get_data_from_file := Vec.get_data_from_file as_elmt;
  backend_leaf_pos_iter := Vec.leaf_pos_iter;
  backend_leaf_idx_iter := Vec.leaf_idx_iter;
  backend_n_unpruned_leaves := Vec.n_unpruned_leaves;
  backend_remove := Vec.remove;
|}.

(** * Specification *)

(** What a PMMR relies on from its backend: the hash file is a list that
    [append] extends, [rewind] cuts and [remove] leaves alone. *)
Class BackendLaws (T E Hash B : Type) {BE : Backend T E Hash B} := {
  file : B -> list Hash;
  law_file b pos : 0 <= pos -> backend_get_from_file b pos = file b !! Z.to_nat pos;
  law_peak b pos : 0 <= pos -> backend_get_peak_from_file b pos = file b !! Z.to_nat pos;
  law_get_hash b pos h :
    0 <= pos -> backend_get_hash b pos = Some h -> file b !! Z.to_nat pos = Some h;
  law_append b x hs : exists b', append b x hs = Ok b' /\ file b' = file b ++ hs;
  law_rewind b pos rm :
    exists b', backend_rewind b pos rm = Ok b' /\ file b' = take (Z.to_nat pos) (file b);
  law_remove b pos : exists b', backend_remove b pos = Ok b' /\ file b' = file b;
}.

#[export] Instance vec_laws {T E Hash} (as_elmt : T -> E) :
  BackendLaws T E Hash (Vec.VecBackend T Hash) (BE := vec_backend as_elmt).
Proof.
  refine {| file := Vec.hashes |}; simpl; try done.
  - intros b pos h _. unfold Vec.get_hash. by case_decide.
  - intros. by eexists.
  - intros. by eexists.
  - intros. by eexists.
Defined.

Section spec.
Context {T Hash : Type} {PH : PMMRHash T Hash}.

(** The hash of node [q] of height [h] over the leaves [l]. *)
Fixpoint tree_hash (l : list T) (h : nat) (q : Z) : option Hash :=
  match h with
  | O => (fun x => leaf_hash x (npos 0 q)) <$> l !! Z.to_nat q
  | S h' =>
      match tree_hash l h' (2 * q), tree_hash l h' (2 * q + 1) with
      | Some a, Some b => Some (pair_hash (a, b) (npos (Z.of_nat h) q))
      | _, _ => None
      end
  end.

Lemma tree_hash_is_Some l h q :
  0 <= q -> 2 ^ Z.of_nat h * (q + 1) <= Z.of_nat (length l) -> is_Some (tree_hash l h q).
Proof.
  revert q. induction h as [|h IH]; intros q Hq Hlen.
  - simpl. change (2 ^ Z.of_nat 0) with 1 in Hlen. apply fmap_is_Some, lookup_lt_is_Some. lia.
  - rewrite Nat2Z.inj_succ, Z.pow_succ_r in Hlen by lia. pose proof (pow2_pos (Z.of_nat h)).
    destruct (IH (2 * q)) as [a Ha]; [lia|nia|]. destruct (IH (2 * q + 1)) as [b Hb]; [lia|nia|].
    cbn [tree_hash]. rewrite Ha, Hb. done.
Qed.

(** Leaves that come later do not change the hash of a node. *)
Lemma tree_hash_prefix l l' h q :
  0 <= q -> 2 ^ Z.of_nat h * (q + 1) <= Z.of_nat (length l) ->
  l `prefix_of` l' -> tree_hash l' h q = tree_hash l h q.
Proof.
  intros Hq Hlen [k ->]. revert q Hq Hlen. induction h as [|h IH]; intros q Hq Hlen.
  - simpl. change (2 ^ Z.of_nat 0) with 1 in Hlen. rewrite lookup_app_l by lia. done.
  - rewrite Nat2Z.inj_succ, Z.pow_succ_r in Hlen by lia. pose proof (pow2_pos (Z.of_nat h)).
    cbn [tree_hash]. rewrite !IH by nia. done.
Qed.

End spec.

Section refinement.
Context {T E Hash B : Type} {PH : PMMRHash T Hash} {BE : Backend T E Hash B}
  {BL : BackendLaws T E Hash B}.
Implicit Types (p : PMMR B) (l : list T).

(** A PMMR, or a view of one, over the leaves [l]: the size is that of the
    range and every node of the range is stored with its hash. *)
Definition view p l : Prop :=
  size p = npos 0 (Z.of_nat (length l)) /\ Z.of_nat (length l) < 2 ^ 60 /\
  forall h q, 0 <= q -> npos (Z.of_nat h) q < size p ->
    file (backend p) !! Z.to_nat (npos (Z.of_nat h) q) = tree_hash l h q.

Definition rep p l : Prop := view p l /\ Z.of_nat (length (file (backend p))) = size p.

Lemma view_node p l h q :
  view p l -> 0 <= q -> npos (Z.of_nat h) q < size p ->
  exists hs, tree_hash l h q = Some hs /\ get_from_file p (npos (Z.of_nat h) q) = Some hs
    /\ get_peak_from_file p (npos (Z.of_nat h) q) = Some hs.
Proof.
  intros (Es & Hl & Hv) Hq Hlt. pose proof Hlt as Hlt'. rewrite Es in Hlt'.
  apply npos_lt_leaf in Hlt'; [|lia..].
  destruct (tree_hash_is_Some l h q Hq Hlt') as [hs Ehs]. exists hs. split; [done|].
  destruct (npos_bounds (Z.of_nat h) q ltac:(lia) Hq) as (_ & _ & Hb).
  unfold get_from_file, get_peak_from_file.
  destruct (Z.leb_spec (size p) (npos (Z.of_nat h) q)); [lia|].
  rewrite law_file, law_peak, Hv, Ehs by lia. done.
Qed.

Lemma view_bounds p l : view p l -> 0 <= size p < 2 ^ 61.
Proof.
  intros (-> & Hl & _). pose proof (npos0_ge (Z.of_nat (length l))). lia.
Qed.

(** *** Pushing *)

Lemma push_loop_spec b l x n fuel h q cur hs :
  n = Z.of_nat (length l) -> n + 1 < 2 ^ 60 ->
  (forall h q, 0 <= q -> npos (Z.of_nat h) q < npos 0 n ->
     file b !! Z.to_nat (npos (Z.of_nat h) q) = tree_hash l h q) ->
  (60 <= fuel + h)%nat -> 0 <= q -> n + 1 = 2 ^ Z.of_nat h * (q + 1) ->
  tree_hash (l ++ [x]) h q = Some cur -> length hs = S h ->
  (forall j q', (j <= h)%nat -> n + 1 = 2 ^ Z.of_nat j * (q' + 1) ->
     hs !! j = tree_hash (l ++ [x]) j q') ->
  exists H' Q hs', push_loop fuel b n (2 ^ Z.of_nat h) (npos (Z.of_nat h) q) cur hs
      = Ok (npos (Z.of_nat H') Q, hs') /\
    0 <= Q /\ n + 1 = 2 ^ Z.of_nat H' * (Q + 1) /\ Z.even Q = true /\ length hs' = S H' /\
    (forall j q', (j <= H')%nat -> n + 1 = 2 ^ Z.of_nat j * (q' + 1) ->
       hs' !! j = tree_hash (l ++ [x]) j q').
Proof.
  intros Hn Hn60 Hb. revert h q cur hs. induction fuel as [|fuel IH]; intros h q cur hs Hf Hq Enq Hcur Hlen Hhs.
  { assert (2 ^ 60 <= 2 ^ Z.of_nat h) by (apply Z.pow_le_mono_r; lia). nia. }
  cbn [push_loop]. set (z := Z.of_nat h) in *. pose proof (pow2_pos z ltac:(lia)) as Hpz.
  assert (Hz : z < 60).
  { destruct (Z.lt_ge_cases z 60); [done|].
    assert (2 ^ 60 <= 2 ^ z) by (apply Z.pow_le_mono_r; lia). nia. }
  assert (Hdiv : n / 2 ^ z = q) by (symmetry; apply Z.div_unique with (2 ^ z - 1); lia).
  rewrite (loop_bit_test n z q) by lia. clear Hdiv.
  destruct (Z.even q) eqn:Ev; simpl.
  { exists h, q, hs. split_and!; auto. }
  rewrite <- Z.negb_odd in Ev. apply negb_false_iff, Z.odd_spec in Ev. destruct Ev as [j Ej].
  subst q. assert (Hj : 0 <= j) by lia.
  pose proof (npos_left z j ltac:(lia) Hj) as El. pose proof (npos_right z j ltac:(lia) Hj) as Er.
  assert (E2 : 2 ^ (z + 1) = 2 * 2 ^ z) by (rewrite Z.pow_add_r; lia).
  assert (Hleft : npos z (2 * j) < npos 0 n) by (apply npos_lt_leaf; nia).
  pose proof (npos0_ge n ltac:(lia)) as Hg.
  destruct (npos_bounds z (2 * j) ltac:(lia) ltac:(lia)) as (Hb1 & Hb2 & Hb3).
  assert (2 ^ z <= 2 ^ 60) by (apply Z.pow_le_mono_r; lia).
  rewrite (mul64_small 2), (mul64_small _ 2), (add64_small _ 1) by (unfold_words; lia).
  rewrite sub64_small by (unfold_words; lia).
  replace (npos z (2 * j + 1) + 1 - 2 * 2 ^ z) with (npos z (2 * j)) by lia.
  pose proof (Hb h (2 * j) ltac:(lia) Hleft) as Hfile. fold z in Hfile.
  rewrite law_peak, Hfile by lia.
  destruct (tree_hash_is_Some l h (2 * j)) as [lh Elh]; [lia|fold z; nia|]. rewrite Elh. simpl.
  replace (npos z (2 * j + 1) + 1) with (npos (Z.of_nat (S h)) j) by
    (replace (Z.of_nat (S h)) with (z + 1) by lia; lia).
  replace (2 ^ z * 2) with (2 ^ Z.of_nat (S h)) by
    (replace (Z.of_nat (S h)) with (z + 1) by lia; lia).
  assert (Ecur : tree_hash (l ++ [x]) (S h) j =
            Some (pair_hash (lh, cur) (npos (Z.of_nat (S h)) j))).
  { cbn [tree_hash]. rewrite Hcur.
    rewrite (tree_hash_prefix l); [by rewrite Elh|lia|fold z; nia|by exists [x]]. }
  assert (Enj : n + 1 = 2 ^ Z.of_nat (S h) * (j + 1)).
  { replace (Z.of_nat (S h)) with (z + 1) by lia. nia. }
  apply IH; auto; [lia|rewrite length_app; simpl; lia|].
  intros k q' Hk Eq'. destruct (decide (k = S h)) as [->|].
  - rewrite lookup_app_r, Hlen, Nat.sub_diag by lia.
    assert (q' + 1 = j + 1).
    { pose proof (pow2_pos (Z.of_nat (S h))).
      apply (Z.mul_reg_l _ _ (2 ^ Z.of_nat (S h))); lia. }
    replace q' with j by lia. by rewrite Ecur.
  - rewrite lookup_app_l by lia. apply Hhs; [lia|done].
Qed.

(** The nodes completed by leaf [n] sit right after it, one per height. *)
Lemma new_node n h q :
  0 <= h -> 0 <= q -> 0 <= n -> npos 0 n <= npos h q < npos 0 (n + 1) ->
  n + 1 = 2 ^ h * (q + 1) /\ npos h q = npos 0 n + h.
Proof.
  intros Hh Hq Hn [Hge Hlt]. pose proof (npos_lt_leaf h q n Hh Hq Hn).
  apply npos_lt_leaf in Hlt; [|lia..]. assert (En : n + 1 = 2 ^ h * (q + 1)) by lia.
  split; [done|]. rewrite npos0, <- node_pos_npos by done. unfold node_pos.
  replace (last_leaf h q) with n by (unfold last_leaf; lia). lia.
Qed.

Lemma next_leaf_pos n h q :
  0 <= h -> 0 <= q -> n + 1 = 2 ^ h * (q + 1) -> Z.even q = true -> npos 0 (n + 1) = npos h q + 1.
Proof.
  intros Hh Hq En Ev. apply Z.even_spec in Ev as [j ->].
  destruct (npos_of_prefix h j Hh ltac:(lia)) as [P1 P2]. rewrite <- P1, P2, En.
  f_equal. rewrite Z.pow_add_r by lia. lia.
Qed.

Lemma push_rep p l x :
  rep p l -> Z.of_nat (length l) + 1 < 2 ^ 60 ->
  exists p', push p x = Ok (size p, p') /\ rep p' (l ++ [x]).
Proof.
  intros [(Es & Hl & Hv) Hlen] Hn. set (n := Z.of_nat (length l)) in *.
  pose proof (npos0_ge n ltac:(lia)) as Hg. unfold push. rewrite Es.
  rewrite peak_map_height_npos by lia. simpl (negb (0 =? 0)).
  replace (last_leaf 0 n) with n by (unfold last_leaf; lia). rewrite Es in Hv.
  set (cur := leaf_hash x (npos 0 n)).
  assert (Hcur : tree_hash (l ++ [x]) 0 n = Some cur).
  { simpl. unfold n at 2. rewrite Nat2Z.id, lookup_app_r, Nat.sub_diag by lia. done. }
  destruct (push_loop_spec (backend p) l x n 64 0 n cur [cur])
    as (H' & Q & hs & Eloop & HQ & EnQ & Ev & Hhs & Hlk);
    [done|done|done|lia|lia|change (2 ^ Z.of_nat 0) with 1; lia|done|done| |].
  { intros j q' Hj Eq'. replace j with 0%nat in * by lia.
    change (2 ^ Z.of_nat 0) with 1 in Eq'. by replace q' with n by lia. }
  change (2 ^ Z.of_nat 0) with 1 in Eloop. change (Z.of_nat 0) with 0 in Eloop.
  rewrite Eloop. cbn [rbind]. destruct (law_append (backend p) x hs) as (b' & -> & Hfile).
  cbn [rbind]. pose proof (next_leaf_pos n (Z.of_nat H') Q ltac:(lia) HQ EnQ Ev) as Enext.
  assert (HposQ : npos (Z.of_nat H') Q = npos 0 n + Z.of_nat H').
  { apply (new_node n _ Q); [lia..|]. split; [|lia].
    apply Z.le_ngt. intros Hlt%npos_lt_leaf; lia. }
  pose proof (npos0_ge (n + 1) ltac:(lia)).
  rewrite add64_small by (unfold_words; lia). eexists. split; [done|].
  assert (En' : Z.of_nat (length (l ++ [x])) = n + 1) by (rewrite length_app; simpl; lia).
  split; simpl; [|rewrite Hfile, length_app; lia].
  split; [simpl; rewrite En'; lia|]. split; [lia|]. simpl. rewrite <- Enext. intros h q Hq Hlt.
  rewrite Hfile. destruct (Z.lt_ge_cases (npos (Z.of_nat h) q) (npos 0 n)) as [Hold|Hnew].
  - destruct (npos_bounds (Z.of_nat h) q ltac:(lia) Hq) as (_ & _ & Hb).
    rewrite lookup_app_l by lia. rewrite Hv by done. symmetry.
    apply npos_lt_leaf in Hold; [|lia..]. apply tree_hash_prefix; [done|done|by exists [x]].
  - destruct (new_node n (Z.of_nat h) q ltac:(lia) Hq ltac:(lia) ltac:(lia)) as [Enq Epos].
    rewrite lookup_app_r by lia. rewrite <- (Hlk h q); [|lia|done].
    f_equal. lia.
Qed.

(** *** Rewinding *)

Lemma take_view_nodes p l n b :
  view p l -> 0 <= n <= Z.of_nat (length l) ->
  file b = take (Z.to_nat (npos 0 n)) (file (backend p)) ->
  view (mkPMMR (npos 0 n) b) (take (Z.to_nat n) l).
Proof.
  intros (Es & Hl & Hv) Hn Hf.
  assert (Elen : Z.of_nat (length (take (Z.to_nat n) l)) = n) by (rewrite length_take; lia).
  split; [simpl; by rewrite Elen|]. split; [lia|]. simpl. intros h q Hq Hlt.
  assert (npos 0 n <= size p).
  { rewrite Es. destruct (Z.eq_dec n (Z.of_nat (length l))) as [->|]; [lia|].
    pose proof (npos0_mono n (Z.of_nat (length l))). lia. }
  destruct (npos_bounds (Z.of_nat h) q ltac:(lia) Hq) as (_ & _ & Hb).
  rewrite Hf, lookup_take_lt, Hv by lia. apply npos_lt_leaf in Hlt; [|lia..].
  apply tree_hash_prefix; [done|lia|apply prefix_take].
Qed.

Lemma round_up_n_leaves position :
  in_bounds position ->
  round_up_to_leaf_pos position = npos 0 (n_leaves position) /\ 0 <= n_leaves position /\
  (forall m, 0 <= m -> position <= npos 0 m -> n_leaves position <= m).
Proof.
  intros [Hp Hlt]. destruct (npos_surj position Hp) as (h & q & Hh & Hq & ->).
  destruct (round_up_npos h q Hh Hq Hlt) as [-> Hr].
  assert (En : n_leaves (npos h q) = if h =? 0 then last_leaf h q else last_leaf h q + 1).
  { unfold n_leaves. rewrite peak_map_height_npos by lia. destruct (h =? 0); [done|].
    apply add64_small. unfold_words; lia. }
  rewrite En. split; [done|]. split; [lia|]. intros m Hm Hle. by apply leaf_at_or_after.
Qed.

Lemma rewind_rep p l position rm :
  rep p l -> 0 <= position <= size p ->
  exists p', rewind p position rm = Ok p' /\
    rep p' (take (Z.to_nat (n_leaves position)) l).
Proof.
  intros [Hview Hlen] Hpos. pose proof (view_bounds p l Hview) as Hb.
  destruct (round_up_n_leaves position) as (Er & Hn & Hnl); [unfold in_bounds; lia|].
  unfold rewind. rewrite Er. set (n := n_leaves position) in *.
  destruct (law_rewind (backend p) (npos 0 n) rm) as (b & -> & Hf). simpl.
  pose proof Hview as (Es & _ & _).
  specialize (Hnl (Z.of_nat (length l)) ltac:(lia) ltac:(rewrite <- Es; lia)).
  eexists. split; [done|]. pose proof (take_view_nodes p l n b Hview ltac:(lia) Hf) as Hv.
  split; [done|]. simpl. rewrite Hf, length_take.
  pose proof (npos0_ge n Hn). rewrite Es in *.
  assert (npos 0 n <= npos 0 (Z.of_nat (length l))); [|lia].
  destruct (Z.eq_dec n (Z.of_nat (length l))) as [->|]; [lia|].
  pose proof (npos0_mono n (Z.of_nat (length l))). lia.
Qed.

(** *** Roots *)

#[local] Arguments peak_bits : simpl never.

(** Peaks are bagged from the right. *)
Definition bag (index : Z) (hs : list Hash) : option Hash :=
  foldr (fun peak res => bag_step index res peak) None hs.

Lemma bag_rev index hs : fold_left (bag_step index) (rev hs) None = bag index hs.
Proof. unfold bag. by rewrite <- fold_left_rev_right, rev_involutive. Qed.

Lemma bag_is_Some index x hs : is_Some (bag index (x :: hs)).
Proof. simpl. by destruct (bag index hs). Qed.

(** The hashes of the peaks of heights [bits]. *)
Definition mmr_peaks l (bits : list Z) : list Hash :=
  omap (fun b => tree_hash l (Z.to_nat b) (Z.of_nat (length l) / 2 ^ b - 1)) bits.

Definition mmr_root l : Hash :=
  let n := Z.of_nat (length l) in
  default ZERO_HASH (bag (npos 0 n) (mmr_peaks l (peak_bits 62 n))).

Lemma peak_bit_node n b :
  0 <= n < 2 ^ 61 -> b ∈ peak_bits 62 n ->
  0 <= b < 62 /\ 0 <= n / 2 ^ b - 1 /\ peak_pos n b < npos 0 n <= npos (b + 1) ((n / 2 ^ b - 1) / 2).
Proof.
  intros Hn Hb. pose proof Hb as [Hb62 Hbit]%elem_of_peak_bits.
  change (Z.of_nat 62) with 62 in Hb62. rewrite Z.testbit_odd, Z.shiftr_div_pow2 in Hbit by lia.
  apply Z.odd_spec in Hbit as [j Hj].
  assert (0 <= n / 2 ^ b) by (apply Z.div_pos; lia). split; [done|]. split; [lia|].
  apply peak_iff; [lia..|]. rewrite peaks_npos by done. apply elem_of_map. by exists b.
Qed.

Lemma view_peaks p l bits (f : PMMR B -> Z -> option Hash) :
  view p l -> (f = get_from_file \/ f = get_peak_from_file) ->
  (forall b, b ∈ bits -> b ∈ peak_bits 62 (Z.of_nat (length l))) ->
  omap (f p) (map (peak_pos (Z.of_nat (length l))) bits) = mmr_peaks l bits /\
  length (mmr_peaks l bits) = length bits.
Proof.
  intros Hview Hf. pose proof Hview as (Es & Hl & _). unfold mmr_peaks.
  induction bits as [|b bits IH]; intros Hbits; [done|].
  destruct IH as [IH1 IH2]; [intros; apply Hbits; by right|].
  destruct (peak_bit_node (Z.of_nat (length l)) b) as (Hb & Hq & Hlt);
    [lia|apply Hbits; by left|].
  set (n := Z.of_nat (length l)) in *. simpl. unfold peak_pos in Hlt |- * at 1.
  destruct (view_node p l (Z.to_nat b) (n / 2 ^ b - 1) Hview Hq) as (hs & E1 & E2 & E3);
    [rewrite Z2Nat.id; lia|]. rewrite Z2Nat.id in E2, E3 by lia.
  rewrite E1. destruct Hf as [-> | ->]; rewrite ?E2, ?E3; simpl; split; f_equal; done.
Qed.

Lemma peak_bits_nonempty n : 0 < n < 2 ^ 61 -> peak_bits 62 n <> [].
Proof.
  intros Hn Hnil. destruct (peak_ranges_tile 62 0 n) as [Ht _];
    [lia|change (Z.of_nat 62) with 62; lia|change (Z.of_nat 62) with 62; lia|].
  rewrite Hnil, Z.mul_0_r, Z.add_0_l in Ht. simpl in Ht.
  pose proof (npos0_mono 0 n). lia.
Qed.

Lemma root_view p l : view p l -> root p = Ok (mmr_root l).
Proof.
  intros Hview. pose proof Hview as (Es & Hl & _). unfold root, is_empty, unpruned_size, mmr_root.
  set (n := Z.of_nat (length l)) in *. destruct (Z.eqb_spec (size p) 0) as [E0|E0].
  - assert (n = 0) as ->; [|done]. pose proof (npos0_ge n). lia.
  - unfold peaks_, unpruned_size. rewrite bag_rev, Es, peaks_npos by lia.
    destruct (view_peaks p l (peak_bits 62 n) get_peak_from_file) as [E1 E2]; auto.
    fold n in E1. rewrite E1. destruct (mmr_peaks l (peak_bits 62 n)) as [|x hs] eqn:Em.
    + exfalso. cbn [length] in E2. symmetry in E2. apply length_zero_iff_nil in E2.
      apply (peak_bits_nonempty n); [|exact E2]. pose proof (npos0_ge n). lia.
    + destruct (bag_is_Some (npos 0 n) x hs) as [r ->]. done.
Qed.

(** *** Validation *)

Lemma validate_node_view p l n : view p l -> 0 <= n < size p -> validate_node p n = Ok tt.
Proof.
  intros Hview Hn. pose proof (view_bounds p l Hview) as Hb. unfold validate_node.
  destruct (npos_surj n ltac:(lia)) as (h & q & Hh & Hq & ->).
  rewrite height_npos by lia. destruct (Z.ltb_spec 0 h) as [Hpos|]; [|done].
  replace h with (Z.of_nat (S (Z.to_nat (h - 1)))) in * by lia.
  set (k := Z.to_nat (h - 1)) in *. clearbody k. clear h Hh Hpos.
  pose proof (height_bound (Z.of_nat (S k)) q ltac:(lia) Hq ltac:(lia)).
  unfold get_hash. destruct (Z.leb_spec (size p) (npos (Z.of_nat (S k)) q)); [lia|].
  rewrite is_leaf_npos by lia. destruct (Z.eqb_spec (Z.of_nat (S k)) 0); [lia|].
  destruct (view_node p l (S k) q Hview Hq ltac:(lia)) as (hs & E1 & E2 & _).
  unfold get_from_file in E2. destruct (Z.leb_spec (size p) (npos (Z.of_nat (S k)) q)); [lia|].
  rewrite E2. pose proof (npos_left (Z.of_nat k) q ltac:(lia) Hq) as El.
  pose proof (npos_right (Z.of_nat k) q ltac:(lia) Hq) as Er.
  replace (Z.of_nat k + 1) with (Z.of_nat (S k)) in El, Er by lia.
  destruct (npos_bounds (Z.of_nat k) (2 * q) ltac:(lia) ltac:(lia)) as (_ & _ & Hl0).
  pose proof (pow2_pos (Z.of_nat (S k))).
  rewrite shl64_1, !sub64_small by (unfold_words; lia). rewrite <- El, <- Er.
  destruct (view_node p l k (2 * q) Hview ltac:(lia) ltac:(lia)) as (hl & E3 & E4 & _).
  destruct (view_node p l k (2 * q + 1) Hview ltac:(lia) ltac:(lia)) as (hr & E5 & E6 & _).
  rewrite E4, E6. cbn [tree_hash] in E1. rewrite E3, E5 in E1. injection E1 as <-.
  by rewrite decide_True.
Qed.

Lemma validate_view p l : view p l -> validate p = Ok tt.
Proof.
  intros Hview. apply for_each_Ok, Forall_forall. intros n Hn%elem_of_seqZ.
  apply (validate_node_view p l); [done|lia].
Qed.

(** *** Merkle proofs *)

(** The positions of the peaks increase while their heights decrease. *)
Lemma peak_pos_mono n b c :
  0 <= n < 2 ^ 61 -> b ∈ peak_bits 62 n -> c ∈ peak_bits 62 n -> b < c ->
  peak_pos n c < peak_pos n b.
Proof.
  intros Hn [Hb Hbit]%elem_of_peak_bits [Hc Hcit]%elem_of_peak_bits Hlt.
  change (Z.of_nat 62) with 62 in *.
  rewrite Z.testbit_odd, Z.shiftr_div_pow2 in Hbit, Hcit by lia.
  apply Z.odd_spec in Hbit as [i Hi]. apply Z.odd_spec in Hcit as [j Hj].
  assert (Hpos : forall k a, 0 <= k -> n / 2 ^ k = 2 * a + 1 ->
             0 <= a /\ peak_pos n k + 1 = npos 0 (2 ^ k * (2 * a + 1))).
  { intros k a Hk Ha. pose proof (pow2_pos k Hk). unfold peak_pos. rewrite Ha.
    assert (0 <= n / 2 ^ k) by (apply Z.div_pos; lia). split; [lia|].
    replace (2 * a + 1 - 1) with (2 * a) by lia.
    destruct (npos_of_prefix k a Hk ltac:(lia)) as [<- ->]. f_equal.
    rewrite Z.pow_add_r by lia. lia. }
  destruct (Hpos b i ltac:(lia) Hi) as [Hi0 Ei]. destruct (Hpos c j ltac:(lia) Hj) as [Hj0 Ej].
  pose proof (pow2_pos b ltac:(lia)). pose proof (pow2_pos (c - b - 1) ltac:(lia)).
  assert (Ec : 2 ^ c = 2 ^ b * (2 * 2 ^ (c - b - 1))).
  { rewrite <- Z.pow_succ_r, <- Z.pow_add_r by lia. f_equal. lia. }
  assert (2 ^ c * (2 * j + 1) < 2 ^ b * (2 * i + 1)).
  { assert (Hle : 2 ^ c * (2 * j + 1) <= n) by (rewrite <- Hj; apply Z.mul_div_le; lia).
    assert (n < 2 ^ b * (2 * i + 1 + 1)) by (rewrite <- Hi; apply Z.mul_succ_div_gt; lia).
    rewrite Ec in *. set (x := 2 ^ (c - b - 1)) in *.
    replace (2 ^ b * (2 * x) * (2 * j + 1)) with (2 ^ b * (2 * (x * (2 * j + 1)))) in * by lia.
    apply Z.mul_lt_mono_pos_l; [done|].
    assert (2 * (x * (2 * j + 1)) < 2 * i + 1 + 1) by
      (apply (Z.mul_lt_mono_pos_l (2 ^ b)); lia). lia. }
  pose proof (npos0_mono (2 ^ c * (2 * j + 1)) (2 ^ b * (2 * i + 1))). nia.
Qed.

Lemma binary_search_app L x R :
  Forall (fun y => y <> x) L -> binary_search (L ++ x :: R) x = Some (Z.of_nat (length L)).
Proof.
  induction 1 as [|y L Hy _ IH]; cbn [app binary_search length].
  - by rewrite Z.eqb_refl.
  - destruct (Z.eqb_spec y x); [done|]. rewrite IH. simpl. f_equal. lia.
Qed.

Lemma binary_search_None ps x : x ∉ ps -> binary_search ps x = None.
Proof.
  induction ps as [|y ps IH]; [done|]. rewrite not_elem_of_cons. intros [Hne Hl]. simpl.
  destruct (Z.eqb_spec y x); [congruence|]. by rewrite IH.
Qed.

(** Splitting the peaks at one of them. *)
Lemma peaks_split n b K :
  0 <= n < 2 ^ K -> 0 <= K <= 61 -> b ∈ peak_bits 62 n ->
  exists L R, peak_bits 62 n = L ++ b :: R /\
    filter (fun x => x < peak_pos n b) (peaks (npos 0 n)) = map (peak_pos n) L /\
    filter (fun x => peak_pos n b < x) (peaks (npos 0 n)) = map (peak_pos n) R /\
    binary_search (peaks (npos 0 n)) (peak_pos n b) = Some (Z.of_nat (length L)) /\
    length (peaks (npos 0 n)) = S (length L + length R) /\
    Z.of_nat (length L) + b < K.
Proof.
  intros HnK HK Hb.
  assert (Hn : 0 <= n < 2 ^ 61).
  { assert (2 ^ K <= 2 ^ 61) by (apply Z.pow_le_mono_r; lia). lia. }
  pose proof (peak_bits_sorted 62 n) as Hs. rewrite peaks_npos by done.
  pose proof Hb as (L & R & Ebits)%list_elem_of_split. exists L, R. split; [done|].
  assert (Hin : forall c, c ∈ L \/ c = b \/ c ∈ R -> c ∈ peak_bits 62 n).
  { intros c Hc. rewrite Ebits, elem_of_app, elem_of_cons. done. }
  assert (HltK : forall c, c ∈ peak_bits 62 n -> c < K).
  { intros c [Hc Hbit]%elem_of_peak_bits. destruct (Z.lt_ge_cases c K); [done|].
    assert (n < 2 ^ c) by (eapply Z.lt_le_trans; [apply HnK|apply Z.pow_le_mono_r; lia]).
    rewrite (proj2 (testbit_top c n ltac:(lia) ltac:(lia))) in Hbit. done. }
  rewrite Ebits in Hs.
  assert (HL : Forall (fun c => b < c < K) L).
  { apply Forall_forall. intros c Hc. split; [|by apply HltK, Hin; left].
    by apply (StronglySorted_app_1_elem_of _ L (b :: R) c b Hs); [|left]. }
  assert (HLp : Forall (fun x => x < peak_pos n b) (map (peak_pos n) L)).
  { apply Forall_forall. intros x (c & -> & Hc)%elem_of_map.
    eapply Forall_forall in HL; [|exact Hc]. apply peak_pos_mono; auto; lia. }
  assert (HRp : Forall (fun x => peak_pos n b < x) (map (peak_pos n) R)).
  { apply Forall_forall. intros x (c & -> & Hc)%elem_of_map.
    apply StronglySorted_app_1_r, StronglySorted_cons in Hs as [Hs _].
    eapply Forall_forall in Hs; [|exact Hc]. apply peak_pos_mono; auto. }
  rewrite Ebits, map_app. cbn [map]. rewrite !filter_app, !filter_cons.
  rewrite !(decide_False (P := peak_pos n b < peak_pos n b)) by lia.
  split_and!.
  - rewrite filter_all, filter_none, app_nil_r; [done| |done].
    eapply Forall_impl; [exact HRp|]. simpl. lia.
  - rewrite filter_none, (filter_all _ (map (peak_pos n) R)); [done|done|].
    eapply Forall_impl; [exact HLp|]. simpl. lia.
  - rewrite binary_search_app, length_map; [done|].
    eapply Forall_impl; [exact HLp|]. simpl. lia.
  - rewrite length_app. cbn [length]. rewrite !length_map. lia.
  - apply decreasing_length; [by eapply StronglySorted_app_1_l|auto|done].
Qed.

Lemma peaks_below n x : 0 <= n < 2 ^ 61 -> npos 0 n <= x -> x ∉ peaks (npos 0 n).
Proof.
  intros Hn Hx Hin. rewrite peaks_npos in Hin by done.
  apply elem_of_map in Hin as (b & -> & Hb). apply peak_bit_node in Hb as (_ & _ & ? & _); lia.
Qed.

Definition bag_left (index : Z) : list Hash -> Hash -> Hash :=
  fold_left (fun acc s => pair_hash (s, acc) index).

Lemma bag_app index ls hs c :
  bag index hs = Some c -> bag index (ls ++ hs) = Some (bag_left index (rev ls) c).
Proof.
  intros Hc. induction ls as [|x ls IH]; simpl; [done|]. unfold bag_left in *.
  rewrite IH, fold_left_app. done.
Qed.

(** Past the peaks, a proof hashes the peaks on the left one by one. *)
Lemma verify_left n lefts rt element h q :
  0 <= n < 2 ^ 60 -> 0 <= h -> 0 <= q -> 2 ^ h * (q + 1) <= 2 ^ 60 ->
  h + Z.of_nat (length lefts) <= 60 -> npos 0 n <= npos h q ->
  verify_consume (npos 0 n) lefts rt element (npos h q) =
    if decide (rt = bag_left (npos 0 n) lefts (element (npos 0 n)))
    then Ok tt else Err RootMismatch.
Proof.
  intros Hn. revert element h q.
  induction lefts as [|s lefts IH]; intros element h q Hh Hq Hb Hlen Hge; cbn [verify_consume].
  - destruct (Z.leb_spec (npos 0 n) (npos h q)); [done|lia].
  - destruct (Z.leb_spec (npos 0 n) (npos h q)); [|lia].
    cbn [length] in Hlen. rewrite Nat2Z.inj_succ in Hlen.
    pose proof (npos_parent_gt h q Hh Hq).
    assert (E2 : 2 ^ (h + 1) = 2 * 2 ^ h) by (rewrite Z.pow_add_r; lia).
    pose proof (pow2_pos h Hh). pose proof (count_ones_bound q Hq). pose proof (npos0_ge n).
    assert (npos h q < 2 ^ 62) by (unfold npos; nia).
    rewrite family_npos by (unfold in_bounds; lia).
    rewrite binary_search_None by (apply peaks_below; lia).
    destruct (Z.leb_spec (npos 0 n) (npos (h + 1) (q / 2))); [|lia].
    pose proof (parent_bound h q 60 Hh Hq ltac:(lia) Hb).
    rewrite IH; [done|lia|apply Z.div_pos; lia|lia|lia|lia].
Qed.

Lemma verify_peak p l b rt element hb :
  view p l -> b ∈ peak_bits 62 (Z.of_nat (length l)) ->
  let n := Z.of_nat (length l) in
  tree_hash l (Z.to_nat b) (n / 2 ^ b - 1) = Some hb -> element (peak_pos n b) = hb ->
  verify_consume (npos 0 n) (peak_path p (peak_pos n b)) rt element (peak_pos n b) =
    if decide (rt = mmr_root l) then Ok tt else Err RootMismatch.
Proof.
  intros Hview Hb n Ehb Eel. pose proof Hview as (Es & Hl & _). fold n in Es, Hl, Hb.
  destruct (peaks_split n b 60) as (L & R & Ebits & EL & ER & Ebs & Elen & Hlen);
    [lia|lia|done|].
  destruct (peak_bit_node n b) as (Hb62 & Hq & Hpk); [lia|done|].
  assert (HinL : forall c, c ∈ L -> c ∈ peak_bits 62 n)
    by (intros c Hc; rewrite Ebits, elem_of_app; by left).
  assert (HinR : forall c, c ∈ R -> c ∈ peak_bits 62 n)
    by (intros c Hc; rewrite Ebits, elem_of_app, elem_of_cons; auto).
  destruct (view_peaks p l L get_peak_from_file) as [EpL _]; auto.
  destruct (view_peaks p l R get_from_file) as [EpR ElR]; auto. fold n in EpL, EpR.
  assert (Eroot : mmr_root l =
     default ZERO_HASH (bag (npos 0 n) (mmr_peaks l L ++ hb :: mmr_peaks l R))).
  { unfold mmr_root, mmr_peaks. fold n. rewrite Ebits, omap_app. cbn [omap list_omap].
    by rewrite Ehb. }
  unfold peak_path, bag_the_rhs, unpruned_size. rewrite Es, EL, ER, EpL, EpR, bag_rev.
  assert (Hlast : (Z.of_nat (length L) =? Z.of_nat (length (peaks (npos 0 n))) - 1)
                  = bool_decide (R = [])).
  { rewrite Elen. destruct R as [|c R']; case_bool_decide; try done;
      [apply Z.eqb_eq|apply Z.eqb_neq]; cbn [length]; lia. }
  pose proof (npos_parent_gt b (n / 2 ^ b - 1) ltac:(lia) Hq).
  pose proof (pow2_pos b ltac:(lia)). pose proof (npos0_ge n ltac:(lia)).
  assert (Hq1 : 2 ^ b * (n / 2 ^ b - 1 + 1) <= 2 ^ 60).
  { pose proof (Z.mul_div_le n (2 ^ b)). lia. }
  pose proof (parent_bound b _ 60 ltac:(lia) Hq ltac:(lia) Hq1) as Hbd.
  assert (Hlefts : (length (rev (mmr_peaks l L)) <= length L)%nat).
  { rewrite length_rev. destruct (view_peaks p l L get_from_file) as [_ ->]; auto. }
  unfold peak_pos in *. set (q := n / 2 ^ b - 1) in *.
  assert (0 <= npos b q) by (destruct (npos_bounds b q); lia).
  destruct (bag (npos 0 n) (mmr_peaks l R)) as [r|] eqn:Er.
  - rewrite rev_app_distr. cbn [rev app verify_consume].
    destruct (Z.leb_spec (npos 0 n) (npos b q)); [lia|].
    rewrite family_npos by (unfold in_bounds; lia). rewrite Ebs, Hlast.
    rewrite bool_decide_false by (intros ->; done).
    rewrite verify_left; [|lia|lia|apply Z.div_pos; lia|lia|lia|lia].
    rewrite Eroot, (bag_app _ _ _ (pair_hash (hb, r) (npos 0 n))); [simpl; by rewrite Eel|].
    simpl. by rewrite Er.
  - destruct R as [|c R'].
    2:{ destruct (mmr_peaks l (c :: R')) as [|y ys]; [simpl in ElR; lia|].
        destruct (bag_is_Some (npos 0 n) y ys); congruence. }
    rewrite (bag_app _ _ _ hb) in Eroot by done. simpl in Eroot.
    destruct (rev (mmr_peaks l L)) as [|s lefts]; cbn [verify_consume];
      (destruct (Z.leb_spec (npos 0 n) (npos b q)); [lia|]).
    + rewrite Eroot, Eel. done.
    + rewrite family_npos by (unfold in_bounds; lia). rewrite Ebs, Hlast.
      rewrite bool_decide_true by done. cbn [length] in Hlefts.
      rewrite verify_left; [|lia|lia|apply Z.div_pos; lia|lia|lia|lia].
      rewrite Eroot, Eel. done.
Qed.

(** Below the peaks, a proof climbs with the hashes of the siblings. *)
Lemma verify_climb p l fuel h q rest rt element hh :
  view p l -> 0 <= q -> npos (Z.of_nat h) q < size p -> 62 - Z.of_nat h <= Z.of_nat fuel ->
  tree_hash l h q = Some hh -> element (npos (Z.of_nat h) q) = hh ->
  let branch := climb fuel (npos (Z.of_nat h) q) (size p) in
  exists h' q' element' hh', 0 <= q' /\
    npos (Z.of_nat h') q' < size p <= npos (Z.of_nat h' + 1) (q' / 2) /\
    default (npos (Z.of_nat h) q) (fst <$> last branch) = npos (Z.of_nat h') q' /\
    tree_hash l h' q' = Some hh' /\ element' (npos (Z.of_nat h') q') = hh' /\
    verify_consume (size p) (omap (fun x => get_from_file p (snd x)) branch ++ rest)
        rt element (npos (Z.of_nat h) q)
      = verify_consume (size p) rest rt element' (npos (Z.of_nat h') q').
Proof.
  intros Hview. pose proof (view_bounds p l Hview) as Hsz. pose proof Hview as (Es & Hl & _).
  revert h q element hh. induction fuel as [|fuel IH]; intros h q element hh Hq Hlt Hf Eh Eel;
    pose proof (height_bound (Z.of_nat h) q ltac:(lia) Hq ltac:(lia)) as Hh61; [lia|].
  cbn [climb]. pose proof (npos_parent_gt (Z.of_nat h) q ltac:(lia) Hq) as Hpar.
  assert (0 <= npos (Z.of_nat h) q) by (destruct (npos_bounds (Z.of_nat h) q); lia).
  rewrite family_npos by (unfold in_bounds; lia).
  destruct (Z.ltb_spec (npos (Z.of_nat h + 1) (q / 2)) (size p)) as [Hin|Hout].
  2:{ exists h, q, element, hh. cbn [omap list_omap app last fmap option_fmap option_map default].
      split_and!; auto; lia. }
  pose proof (Z.div_mod q 2 ltac:(lia)) as Hdm. pose proof (Z.mod_pos_bound q 2 ltac:(lia)).
  set (j := q / 2) in *. assert (Hj : 0 <= j) by lia.
  pose proof (npos_left (Z.of_nat h) j ltac:(lia) Hj) as El.
  pose proof (npos_right (Z.of_nat h) j ltac:(lia) Hj) as Er.
  pose proof (pow2_pos (Z.of_nat h + 1)).
  destruct (view_node p l h (2 * j) Hview ltac:(lia) ltac:(lia)) as (hl & T1 & F1 & _).
  destruct (view_node p l h (2 * j + 1) Hview ltac:(lia) ltac:(lia)) as (hr & T2 & F2 & _).
  assert (Tp : tree_hash l (S h) j = Some (pair_hash (hl, hr) (npos (Z.of_nat h + 1) j))).
  { cbn [tree_hash]. rewrite T1, T2. repeat f_equal. lia. }
  destruct (IH (S h) j (pair_hash (hl, hr)) (pair_hash (hl, hr) (npos (Z.of_nat h + 1) j)))
    as (h' & q' & el' & hh' & ? & ? & Elast & ? & ? & Ev);
    [lia|replace (Z.of_nat (S h)) with (Z.of_nat h + 1) by lia; lia|lia|done|
     f_equal; f_equal; lia|].
  replace (Z.of_nat (S h)) with (Z.of_nat h + 1) in Elast, Ev by lia.
  exists h', q', el', hh'. split_and!; auto; [lia|lia| |].
  { rewrite last_cons. by destruct (last _). }
  rewrite <- Ev. assert (Hnp : npos (Z.of_nat h) q ∉ peaks (size p)).
  { rewrite Es, peak_iff by lia. fold j. lia. }
  cbn [omap list_omap snd].
  assert (Hcase : q = 2 * j /\ Z.even q = true \/ q = 2 * j + 1 /\ Z.even q = false).
  { clearbody j. assert (q = 2 * j \/ q = 2 * j + 1) as [-> | ->] by lia;
      rewrite ?even_double, ?even_double1; auto. }
  assert (Hstep : forall sib sh, family (npos (Z.of_nat h) q) = (npos (Z.of_nat h + 1) j, sib) ->
      get_from_file p sib = Some sh -> in_bounds sib ->
      (if is_left_sibling sib then (sh, hh) else (hh, sh)) = (hl, hr) ->
      forall tl, verify_consume (size p) (sh :: tl) rt element (npos (Z.of_nat h) q) =
        verify_consume (size p) tl rt (pair_hash (hl, hr)) (npos (Z.of_nat h + 1) j)).
  { intros sib sh Ef Eg Hb Eif tl. cbn [verify_consume]. rewrite Ef, binary_search_None by done.
    destruct (Z.leb_spec (size p) (npos (Z.of_nat h) q)); [lia|].
    destruct (Z.leb_spec (size p) (npos (Z.of_nat h + 1) j)); [lia|]. by rewrite Eel, Eif. }
  pose proof (family_npos (Z.of_nat h) q ltac:(lia) Hq ltac:(unfold in_bounds; lia)) as Ef.
  assert (0 <= npos (Z.of_nat h) (2 * j)) by (destruct (npos_bounds (Z.of_nat h) (2 * j)); lia).
  destruct Hcase as [[Eq Eev]|[Eq Eev]]; rewrite Eev in Ef |- *;
    [replace (q + 1) with (2 * j + 1) in * by lia; rewrite F2
    |replace (q - 1) with (2 * j) in * by lia; rewrite F1];
    cbn [app]; (eapply Hstep; [exact Ef|eassumption|unfold in_bounds; lia|]);
    rewrite is_left_sibling_npos by (unfold in_bounds; lia);
    rewrite ?even_double, ?even_double1; rewrite Eq in Eh; congruence.
Qed.

Lemma prune_rep p l pos0 :
  rep p l -> is_leaf pos0 = true -> exists r p', prune p pos0 = Ok (r, p') /\ rep p' l.
Proof.
  intros Hrep Hleaf. unfold prune. rewrite Hleaf. simpl.
  destruct (backend_get_hash _ _); [|by exists false, p].
  destruct (law_remove (backend p) pos0) as (b & -> & Hf). simpl. eexists true, _.
  split; [done|]. unfold rep, view in *. simpl. by rewrite Hf.
Qed.

(** ** Histories

    The operations of a PMMR and what they do to the list of its leaves. *)
Inductive op : Type :=
| Push (x : T)
| Prune (pos0 : Z)
| Rewind (position : Z) (rm : gset Z).

Definition step p (o : op) : result pmmr_error (PMMR B) :=
  match o with
  | Push x => let? (_, p) := push p x in Ok p
  | Prune pos0 => let? (_, p) := prune p pos0 in Ok p
  | Rewind position rm => rewind p position rm
  end.

Definition abs_step l (o : op) : list T :=
  match o with
  | Push x => l ++ [x]
  | Prune _ => l
  | Rewind position _ => take (Z.to_nat (n_leaves position)) l
  end.

Definition op_ok l (o : op) : Prop :=
  match o with
  | Push _ => Z.of_nat (length l) + 1 < 2 ^ 60
  | Prune pos0 => is_leaf pos0 = true
  | Rewind position _ => 0 <= position <= insertion_to_pmmr_index (Z.of_nat (length l))
  end.

Fixpoint run p (ops : list op) : result pmmr_error (PMMR B) :=
  match ops with
  | [] => Ok p
  | o :: ops => let? p := step p o in run p ops
  end.

Fixpoint ops_ok l (ops : list op) : Prop :=
  match ops with
  | [] => True
  | o :: ops => op_ok l o /\ ops_ok (abs_step l o) ops
  end.

Lemma step_rep p l o :
  rep p l -> op_ok l o -> exists p', step p o = Ok p' /\ rep p' (abs_step l o).
Proof.
  intros Hrep Hok. destruct o as [x|pos0|position rm]; simpl in *.
  - destruct (push_rep p l x Hrep Hok) as (p' & -> & ?). by exists p'.
  - destruct (prune_rep p l pos0 Hrep Hok) as (r & p' & -> & ?). by exists p'.
  - pose proof Hrep as [(Es & Hl & _) _]. rewrite insertion_index_npos in Hok by lia.
    apply rewind_rep; [done|]. by rewrite Es.
Qed.

Lemma run_rep p l ops :
  rep p l -> ops_ok l ops ->
  exists p', run p ops = Ok p' /\ rep p' (fold_left abs_step ops l).
Proof.
  revert p l. induction ops as [|o ops IH]; intros p l Hrep Hok; [by exists p|].
  destruct Hok as [Ho Hok]. destruct (step_rep p l o Hrep Ho) as (p' & Ep & Hrep').
  simpl. rewrite Ep. simpl. by apply IH.
Qed.

Lemma new_rep (b : B) : file b = [] -> rep (new b) [].
Proof.
  intros Hf. unfold rep, view. simpl. rewrite Hf. split; [|done]. split; [done|].
  split; [lia|]. intros h q Hq Hlt. destruct (npos_bounds (Z.of_nat h) q); lia.
Qed.

(** * Properties *)

(** C30. Refinement of histories: starting from an empty backend, any sequence
    of pushes, prunes of leaves and rewinds inside the range succeeds and
    leaves the PMMR storing exactly the hash tree of the leaves that the
    sequence keeps (a rewind keeps the leaves before its position, a prune all
    of them). Its root is therefore a function of those leaves alone, and
    [validate] accepts it. *)
Theorem pmmr_history (b : B) ops :
  file b = [] -> ops_ok [] ops ->
  let leaves := fold_left abs_step ops [] in
  exists p, run (new b) ops = Ok p /\ rep p leaves /\
    root p = Ok (mmr_root leaves) /\ validate p = Ok tt.
Proof.
  intros Hf Hok. destruct (run_rep (new b) [] ops (new_rep b Hf) Hok) as (p & Erun & Hrep).
  exists p. split; [done|]. split; [done|]. destruct Hrep as [Hview _].
  split; [by apply root_view|by eapply validate_view].
Qed.

(** [push] appends: on a PMMR that stores the leaves [l] it returns the
    position of the new leaf, which is the old size, the size grows to the next
    leaf position, and the result stores the hash tree of [l] with the new leaf
    at the end, including every parent that the leaf completes. *)
Theorem push_refines p l x :
  rep p l -> Z.of_nat (length l) + 1 < 2 ^ 60 ->
  exists p', push p x = Ok (insertion_to_pmmr_index (Z.of_nat (length l)), p') /\
    rep p' (l ++ [x]) /\ size p' = insertion_to_pmmr_index (Z.of_nat (length l) + 1).
Proof.
  intros Hrep Hlen. destruct (push_rep p l x Hrep Hlen) as (p' & Ep & Hrep').
  exists p'. destruct Hrep as [(Es & _) _]. rewrite !insertion_index_npos by lia.
  rewrite <- Es. split; [done|]. split; [done|]. destruct Hrep' as [(-> & _) _].
  rewrite length_app. f_equal. simpl. lia.
Qed.

(** [rewind] cancels the pushes after a position, whatever the position:
    the PMMR stores the hash tree of the leaves before it, and rewinding to
    the size a PMMR had earlier restores its root. *)
Theorem rewind_refines p l position rm :
  rep p l -> 0 <= position <= size p ->
  exists p', rewind p position rm = Ok p' /\
    let l' := take (Z.to_nat (n_leaves position)) l in
    rep p' l' /\ root p' = Ok (mmr_root l').
Proof.
  intros Hrep Hpos. destruct (rewind_rep p l position rm Hrep Hpos) as (p' & Ep & Hrep').
  exists p'. split; [done|]. split; [done|]. by apply root_view, Hrep'.
Qed.

(** C31. Merkle proofs are complete and exact: for every leaf of the range
    that has not been removed, [merkle_proof] succeeds, and [verify] of the
    proof, with the leaf at its position, accepts the root of the range and no
    other hash. *)
Theorem merkle_proof_exact p l i x hs :
  view p l -> l !! i = Some x ->
  let pos0 := insertion_to_pmmr_index (Z.of_nat i) in
  get_hash p pos0 = Some hs ->
  exists proof, merkle_proof p pos0 = Ok proof /\ root p = Ok (mmr_root l) /\
    forall rt, verify proof rt (leaf_hash x) pos0 =
      if decide (rt = mmr_root l) then Ok tt else Err RootMismatch.
Proof.
  intros Hview Hx pos0 Hget. pose proof Hview as (Es & Hl & _).
  pose proof (lookup_lt_Some _ _ _ Hx) as Hi. subst pos0.
  rewrite insertion_index_npos in * by lia. set (z := Z.of_nat i) in *.
  assert (Hlt : npos 0 z < size p) by (rewrite Es; apply npos0_mono; lia).
  pose proof (view_bounds p l Hview). pose proof (npos0_ge z ltac:(lia)).
  unfold merkle_proof. rewrite is_leaf_npos by lia. rewrite Hget. simpl (negb _). cbn [ok_or rbind].
  eexists. split; [done|]. split; [by apply root_view|]. intros rt. unfold verify.
  cbn [mmr_size path]. unfold unpruned_size.
  assert (Ebr : family_branch (npos 0 z) (size p) = climb 64 (npos 0 z) (size p)).
  { unfold family_branch. rewrite peak_map_height_npos, shl64_1 by lia.
    apply family_branch_loop_climb; [lia|unfold last_leaf; lia| |lia].
    rewrite Z.pow_0_r, Z.div_1_r. unfold last_leaf. lia. }
  rewrite Ebr. change (npos 0 z) with (npos (Z.of_nat 0) z).
  assert (Ex : tree_hash l 0 z = Some (leaf_hash x (npos (Z.of_nat 0) z)))
    by (simpl; unfold z at 2; by rewrite Nat2Z.id, Hx).
  destruct (verify_climb p l 64 0 z (peak_path p
      match last (climb 64 (npos (Z.of_nat 0) z) (size p)) with
      | Some (x, _) => x | None => npos (Z.of_nat 0) z end) rt (leaf_hash x)
      (leaf_hash x (npos (Z.of_nat 0) z)) Hview)
    as (h' & q' & el & hh & Hq' & Hpk & Elast & Eh & Eel & ->);
    [lia|exact Hlt|lia|exact Ex|done|].
  assert (Htop : match last (climb 64 (npos (Z.of_nat 0) z) (size p)) with
      | Some (x, _) => x | None => npos (Z.of_nat 0) z end = npos (Z.of_nat h') q').
  { rewrite <- Elast. by destruct (last _) as [[? ?]|]. }
  rewrite Htop, Es. rewrite Es in Hpk. apply peak_iff in Hpk; [|lia..].
  rewrite peaks_npos in Hpk by lia. apply elem_of_map in Hpk as (b & Eb & Hb).
  destruct (peak_bit_node (Z.of_nat (length l)) b) as (Hb62 & Hqb & Hltb); [lia|done|].
  unfold peak_pos in Eb, Hltb. pose proof (npos0_ge (Z.of_nat (length l))).
  apply npos_inj in Eb as [<- ->]; [|lia..].
  replace (npos (Z.of_nat h') _) with (peak_pos (Z.of_nat (length l)) (Z.of_nat h')) by done.
  apply (verify_peak p l (Z.of_nat h') rt el hh Hview Hb); [by rewrite Nat2Z.id|done].
Qed.

(** Merkle proofs bind: if the hash of a pair determines the pair, one
    proof accepts at one position and for one root only elements with the same
    hash there, whoever made the proof. *)
Theorem merkle_proof_binding proof rt (e1 e2 : Z -> Hash) node_pos :
  (forall a b i, pair_hash a i = pair_hash b i -> a = b) ->
  verify proof rt e1 node_pos = Ok tt -> verify proof rt e2 node_pos = Ok tt ->
  let i := if mmr_size proof <=? node_pos then mmr_size proof else node_pos in
  e1 i = e2 i.
Proof.
  intros Hinj. unfold verify. destruct proof as [sz pth]. cbn [mmr_size path].
  revert e1 e2 node_pos. induction pth as [|s pth IH]; intros e1 e2 pos; cbn [verify_consume].
  - destruct (sz <=? pos); repeat case_decide; congruence.
  - destruct (family pos) as [par sib]. intros H1' H2'.
    specialize (IH _ _ _ H1' H2'). apply Hinj in IH.
    destruct (binary_search _ _) as [k|];
      [destruct (k =? _)|destruct (sz <=? par); [|destruct (is_left_sibling _)]];
      destruct (sz <=? pos); congruence.
Qed.

(** [validate] is sound: when it accepts, every parent whose hash and
    whose children's hashes are stored is the hash of its children. *)
Theorem validate_sound p n :
  validate p = Ok tt -> in_bounds (size p) -> 0 <= n < size p -> is_leaf n = false ->
  let h := bintree_postorder_height n in
  forall hash left right, get_hash p n = Some hash ->
    get_from_file p (n - 2 ^ h) = Some left -> get_from_file p (n - 1) = Some right ->
    pair_hash (left, right) n = hash.
Proof.
  intros Hval Hb Hn Hleaf h hash lh rh E1 E2 E3. subst h.
  apply for_each_Ok in Hval. unfold in_bounds in Hb.
  eapply Forall_forall in Hval; [|apply elem_of_seqZ, conj; [apply Hn|lia]].
  destruct (npos_surj n ltac:(lia)) as (h & q & Hh & Hq & ->).
  pose proof (height_bound h q Hh Hq ltac:(lia)).
  destruct (npos_bounds h q Hh Hq) as (_ & Hb2 & _).
  rewrite is_leaf_npos in Hleaf by lia. apply Z.eqb_neq in Hleaf.
  unfold validate_node in Hval. rewrite height_npos in * by lia.
  assert (2 ^ (h + 1) = 2 * 2 ^ h) by (rewrite Z.pow_add_r; lia).
  assert (2 ^ 1 <= 2 ^ h) by (apply Z.pow_le_mono_r; lia).
  rewrite shl64_1, !sub64_small in Hval by (unfold_words; lia).
  destruct (Z.ltb_spec 0 h); [|lia]. rewrite E1, E2, E3 in Hval. by case_decide.
Qed.

End refinement.

(** ** The vector backend *)

Section vec_refinement.
Context {T E Hash : Type} {PH : PMMRHash T Hash} (as_elmt : T -> E).
#[local] Instance vec_be : Backend T E Hash (Vec.VecBackend T Hash) := vec_backend as_elmt.
#[local] Instance vec_bl : BackendLaws T E Hash (Vec.VecBackend T Hash) := vec_laws as_elmt.

Lemma n_leaves_npos n : 0 <= n < 2 ^ 60 -> n_leaves (npos 0 n) = n.
Proof.
  intros Hn. pose proof (npos0_ge n ltac:(lia)).
  unfold n_leaves. rewrite peak_map_height_npos by lia. unfold last_leaf. simpl. lia.
Qed.

Lemma n_leaves_after n : 0 <= n < 2 ^ 60 -> n_leaves (npos 0 n + 1) = n + 1.
Proof.
  intros Hn. pose proof (npos0_ge n ltac:(lia)).
  assert (Hb : in_bounds (npos 0 n + 1)) by (unfold in_bounds; lia).
  pose proof (n_leaves_lt _ n Hb ltac:(lia)). pose proof (n_leaves_lt _ (n + 1) Hb ltac:(lia)).
  pose proof (npos0_mono n (n + 1)). lia.
Qed.

(** The data file holds the leaves themselves. *)
Lemma vec_step_data (p p' : PMMR (Vec.VecBackend T Hash)) l o :
  rep p l -> op_ok l o -> step p o = Ok p' ->
  Vec.data (backend p) = Some l -> Vec.data (backend p') = Some (abs_step l o).
Proof.
  intros Hrep Hok Hstep Hd. destruct o as [x|pos0|position rm]; simpl in *.
  - unfold push in Hstep. destruct (peak_map_height _), (negb _); [done|].
    destruct (push_loop _ _ _ _ _ _ _) as [[pos hs]|]; [|done]. simpl in Hstep.
    injection Hstep as <-. simpl. by rewrite Hd.
  - unfold prune in Hstep. destruct (negb _); [done|]. simpl in Hstep.
    destruct (Vec.get_hash _ _); simpl in Hstep; injection Hstep as <-; done.
  - pose proof Hrep as [(Es & Hl & _) _]. rewrite insertion_index_npos in Hok by lia.
    unfold rewind in Hstep. simpl in Hstep. injection Hstep as <-. simpl. rewrite Hd.
    destruct (round_up_n_leaves position) as (-> & Hn0 & Hn).
    { pose proof (npos0_ge (Z.of_nat (length l))). unfold in_bounds. lia. }
    specialize (Hn (Z.of_nat (length l)) ltac:(lia) ltac:(lia)).
    by rewrite n_leaves_npos by lia.
Qed.

Lemma vec_run_data (p : PMMR (Vec.VecBackend T Hash)) l ops :
  rep p l -> Vec.data (backend p) = Some l -> ops_ok l ops ->
  exists p', run p ops = Ok p' /\ rep p' (fold_left abs_step ops l) /\
    Vec.data (backend p') = Some (fold_left abs_step ops l).
Proof.
  revert p l. induction ops as [|o ops IH]; intros p l Hrep Hd Hok; [by exists p|].
  destruct Hok as [Ho Hok]. destruct (step_rep p l o Hrep Ho) as (p' & Ep & Hrep').
  cbn [run fold_left]. rewrite Ep. cbn [rbind].
  apply IH; [done|by eapply vec_step_data|done].
Qed.

(** Data retrieval from the in-memory backend: after any history from
    the empty backend, reading the data at a leaf position returns exactly the
    element pushed there, unless that position was pruned, and positions past
    the end have no data. *)
Theorem vec_get_data ops i :
  ops_ok [] ops ->
  exists p, run (new Vec.new) ops = Ok p /\
    let leaves := fold_left abs_step ops [] in
    let pos0 := insertion_to_pmmr_index i in
    (0 <= i < Z.of_nat (length leaves) -> pos0 ∉ Vec.removed (backend p) ->
       get_data p pos0 = as_elmt <$> leaves !! Z.to_nat i) /\
    (pos0 ∈ Vec.removed (backend p) -> get_data p pos0 = None) /\
    (Z.of_nat (length leaves) <= i < 2 ^ 62 ->
       get_data p pos0 = None).
Proof.
  intros Hok. destruct (vec_run_data (new Vec.new) [] ops) as (p & Erun & Hrep & Hd);
    [by apply new_rep|done|done|].
  exists p. split; [done|]. set (leaves := fold_left _ _ _) in *. intros l pos0. subst l pos0.
  destruct Hrep as [(Es & Hl & _) _]. unfold get_data, Vec.get_data. simpl.
  split_and!.
  - intros Hi Hrm. rewrite insertion_index_npos in * by lia. rewrite Es.
    pose proof (npos0_mono i (Z.of_nat (length leaves)) Hi). pose proof (npos0_ge i ltac:(lia)).
    destruct (Z.leb_spec (npos 0 (Z.of_nat (length leaves))) (npos 0 i)); [lia|].
    rewrite is_leaf_npos by lia. unfold Vec.get_data. simpl. rewrite decide_False by done.
    unfold Vec.get_data_from_file. rewrite Hd.
    rewrite add64_small by (unfold_words; lia). rewrite (Z.add_comm 1), n_leaves_after by lia.
    rewrite sub64_small by (unfold_words; lia). by replace (i + 1 - 1) with i by lia.
  - intros Hrm. unfold Vec.get_data. rewrite decide_True by done.
    destruct (is_leaf _); by destruct (size p <=? _).
  - intros Hi. rewrite insertion_index_npos by lia. rewrite Es.
    destruct (Z.leb_spec (npos 0 (Z.of_nat (length leaves))) (npos 0 i)) as [|Hlt]; [done|].
    exfalso. pose proof (npos0_lt_iff i (Z.of_nat (length leaves))). lia.
Qed.

End vec_refinement.

(** ** A concrete hash: the free term algebra *)

Inductive term : Type :=
| TLeaf (x i : Z)
| TPair (l r : term) (i : Z)
| TZero.

#[export] Instance term_eq_dec : EqDecision term.
Proof. solve_decision. Defined.

#[export] Instance term_hash : PMMRHash Z term := {|
  hash_eq_dec := term_eq_dec;
  leaf_hash := TLeaf;
  pair_hash := fun '(l, r) i => TPair l r i;
  ZERO_HASH := TZero;
|}.

#[local] Instance vec_Z : Backend Z Z term (Vec.VecBackend Z term) := vec_backend (fun x => x).
#[local] Instance vec_Z_laws : BackendLaws Z Z term (Vec.VecBackend Z term) := vec_laws (fun x => x).

Definition sample_ops : list op :=
  [Push 10; Push 11; Push 12; Prune 1; Push 13; Rewind 3 ∅; Push 20; Push 21].

Lemma sample_ops_ok : ops_ok [] sample_ops.
Proof. repeat split; vm_compute; congruence. Qed.

(** The PMMR that the sample history builds. *)
Definition sample : PMMR (Vec.VecBackend Z term) :=
  match run (new Vec.new) sample_ops with Ok p => p | Err _ => new Vec.new end.

Lemma vec_new_rep : rep (new (Vec.new (T := Z) (Hash := term))) [].
Proof. by apply new_rep. Qed.

Lemma sample_rep : rep sample [10; 11; 20; 21].
Proof.
  destruct (run_rep (new Vec.new) [] sample_ops vec_new_rep sample_ops_ok)
    as (p & Ep & Hrep).
  unfold sample. rewrite Ep. exact Hrep.
Qed.

Lemma pmmr_history_witness :
  exists p, run (new Vec.new) sample_ops = Ok p /\ rep p [10; 11; 20; 21] /\
    root p = Ok (mmr_root [10; 11; 20; 21]) /\ validate p = Ok tt.
Proof. apply (pmmr_history Vec.new sample_ops); [reflexivity|apply sample_ops_ok]. Defined.

Lemma push_refines_witness :
  exists p', push sample 30 = Ok (insertion_to_pmmr_index 4, p') /\
    rep p' [10; 11; 20; 21; 30] /\ size p' = insertion_to_pmmr_index 5.
Proof. apply (push_refines sample [10; 11; 20; 21] 30); [apply sample_rep|simpl; lia]. Defined.

Lemma rewind_refines_witness :
  exists p', rewind sample 4 ∅ = Ok p' /\ rep p' [10; 11; 20] /\ root p' = Ok (mmr_root [10; 11; 20]).
Proof.
  apply (rewind_refines sample [10; 11; 20; 21] 4 ∅); [apply sample_rep|vm_compute; split; congruence].
Defined.

Lemma merkle_proof_exact_witness :
  exists proof, merkle_proof sample (insertion_to_pmmr_index (Z.of_nat 2)) = Ok proof /\
    root sample = Ok (mmr_root [10; 11; 20; 21]) /\
    forall rt, verify proof rt (leaf_hash 20) (insertion_to_pmmr_index (Z.of_nat 2)) =
      if decide (rt = mmr_root [10; 11; 20; 21]) then Ok tt else Err RootMismatch.
Proof.
  apply (merkle_proof_exact (PH := term_hash) (BE := vec_Z) (BL := vec_Z_laws)
           sample [10; 11; 20; 21] 2 20 (TLeaf 20 3)).
  - apply sample_rep.
  - reflexivity.
  - vm_compute. reflexivity.
Defined.

Lemma merkle_proof_binding_witness :
  let proof := mkProof 3 [TLeaf 7 1] in
  let rt := TPair (TLeaf 5 0) (TLeaf 7 1) 2 in
  TLeaf 5 0 = leaf_hash 5 0.
Proof.
  intros proof rt.
  apply (merkle_proof_binding proof rt (fun _ => TLeaf 5 0) (leaf_hash 5) 0);
    [|vm_compute; reflexivity..].
  intros [] [] i. simpl. congruence.
Defined.

Lemma validate_sound_witness :
  pair_hash (TLeaf 10 0, TLeaf 11 1) 2 = TPair (TLeaf 10 0) (TLeaf 11 1) 2.
Proof.
  apply (validate_sound sample 2); try reflexivity; vm_compute; split; congruence.
Defined.

Lemma vec_get_data_witness :
  exists p, run (new Vec.new) sample_ops = Ok p /\
    (0 <= 2 < 4 -> insertion_to_pmmr_index 2 ∉ Vec.removed (backend p) ->
     get_data p (insertion_to_pmmr_index 2) = Some 20).
Proof.
  destruct (vec_get_data (fun x : Z => x) sample_ops 2 sample_ops_ok) as (p & E1 & H1 & _).
  exists p. split; [exact E1|exact H1].
Defined.

(** A rewind of the in-memory backend does not restore removed leaves: a
    leaf pruned before the rewind and pushed again after it is still reported
    as removed, although the hash file and the root contain it, and although
    the trait asks [rewind] to undo the removals. *)
Theorem vec_rewind_keeps_removed :
  exists p : PMMR (Vec.VecBackend Z term),
    run (new Vec.new) [Push 1; Prune 0; Rewind 0 {[0]}; Push 1] = Ok p /\
    get_from_file p 0 = Some (leaf_hash 1 0) /\ root p = Ok (leaf_hash 1 0) /\
    get_hash p 0 = None /\ get_data p 0 = None.
Proof. eexists. split; [vm_compute; reflexivity|]. vm_compute. done. Qed.
