(* ===== verification/Ser.v ===== *)
(** Binary serialisation.

    Models [src/core/src/ser.rs]: the [Writer] and [Reader] traits with their
    provided methods, the readers [BinReader], [StreamingReader] and
    [BufReader], [read_multi], the [VerifySortedAndUnique] check and the
    [Readable]/[Writeable] implementations of the fixed-size types.

    A byte is a [Z] in [0, 256). A writer is the context its methods can see
    (mode and protocol version); [write] returns the bytes that reach the sink.
    A reader is a state that [read] threads; a failed read ends the whole
    deserialisation, so errors carry no state. [Reader] is a type class and
    [ReaderLaws] is what deserialisers rely on; the three readers are instances
    of both. Exhausting memory while allocating a buffer is not modelled. *)

From Stdlib Require Import ZArith Lia.
From stdpp Require Import base numbers option sorting list.
From S2P Require Import Prelude.
Open Scope Z_scope.

Inductive io_error_kind : Type := UnexpectedEof | OtherIo.

Inductive ser_error : Type :=
| IOErr (kind : io_error_kind)
| UnexpectedData (expected received : list Z)
| CorruptedData
| CountError
| TooLargeReadErr
| HexError
| SortError
| DuplicateError
| InvalidBlockVersion
| UnsupportedProtocolVersion.

Inductive SerializationMode : Type := SerFull | SerHash.

Definition is_hash_mode (m : SerializationMode) : bool :=
  match m with SerHash => true | SerFull => false end.

Inductive DeserializationMode : Type := DeFull | SkipPow.

(** [ProtocolVersion(pub u32)] *)
Record ProtocolVersion : Type := mkVersion { value : Z }.

(** [PROTOCOL_VERSION] of [src/core/src/global.rs]. *)
Definition PROTOCOL_VERSION : ProtocolVersion := mkVersion 1000.
Definition local : ProtocolVersion := PROTOCOL_VERSION.
Definition local_db : ProtocolVersion := mkVersion 1.

(** ** Big-endian integers *)

Fixpoint be (n : nat) (x : Z) : list Z :=
  match n with
  | O => []
  | S n => (x / 256 ^ Z.of_nat n) mod 256 :: be n x
  end.

Definition be_value (l : list Z) : Z := fold_left (fun a b => 256 * a + b) l 0.

(** Two's complement of width [w]. *)
Definition to_signed (w x : Z) : Z := if x <? 2 ^ (w - 1) then x else x - 2 ^ w.
Definition of_signed (w x : Z) : Z := x mod 2 ^ w.

(** ** Writers *)

Record Writer : Type := mkWriter {
  serialization_mode : SerializationMode;
  w_protocol_version : ProtocolVersion;
}.

Definition bytes : Type := list Z.

Definition write_fixed_bytes (w : Writer) (bs : bytes) : result ser_error bytes := Ok bs.
Definition write_u8 (w : Writer) (n : Z) : result ser_error bytes := write_fixed_bytes w [n].
Definition write_u16 (w : Writer) (n : Z) : result ser_error bytes := write_fixed_bytes w (be 2 n).
Definition write_u32 (w : Writer) (n : Z) : result ser_error bytes := write_fixed_bytes w (be 4 n).
Definition write_u64 (w : Writer) (n : Z) : result ser_error bytes := write_fixed_bytes w (be 8 n).
Definition write_i32 (w : Writer) (n : Z) : result ser_error bytes :=
  write_fixed_bytes w (be 4 (of_signed 32 n)).
Definition write_i64 (w : Writer) (n : Z) : result ser_error bytes :=
  write_fixed_bytes w (be 8 (of_signed 64 n)).

(** Writing in sequence appends to the sink. *)
Definition wseq (a b : result ser_error bytes) : result ser_error bytes :=
  let? x := a in let? y := b in Ok (x ++ y).
Notation "a '+w+' b" := (wseq a b) (at level 60, right associativity) : grin_scope.

Definition write_bytes (w : Writer) (bs : bytes) : result ser_error bytes :=
  write_u64 w (Z.of_nat (length bs)) +w+ write_fixed_bytes w bs.

Definition write_empty_bytes (w : Writer) (length : nat) : result ser_error bytes :=
  write_fixed_bytes w (replicate length 0).

(** ** Readers *)

Definition MAX_READ_SIZE : Z := 100000.

Class Reader (R : Type) := {
  read_limit : R -> option Z;
  deserialization_mode : R -> DeserializationMode;
  protocol_version : R -> ProtocolVersion;
  read_u8 : R -> result ser_error (Z * R);
  read_u16 : R -> result ser_error (Z * R);
  read_u32 : R -> result ser_error (Z * R);
  read_u64 : R -> result ser_error (Z * R);
  read_i32 : R -> result ser_error (Z * R);
  read_i64 : R -> result ser_error (Z * R);
  read_bytes_len_prefix : R -> result ser_error (bytes * R);
  read_fixed_bytes : R -> Z -> result ser_error (bytes * R);
  expect_u8 : R -> Z -> result ser_error (Z * R);
}.

Fixpoint read_empty_bytes {R} `{Reader R} (r : R) (length : nat) : result ser_error (unit * R) :=
  match length with
  | O => Ok (tt, r)
  | S n =>
      let? (b, r) := read_u8 r in
      if negb (b =? 0) then Err CorruptedData else read_empty_bytes r n
  end.

(** [io::Read::read_exact] on a byte source. *)
Definition read_exact (src : bytes) (n : Z) : result ser_error (bytes * bytes) :=
  if Z.of_nat (length src) <? n then Err (IOErr UnexpectedEof)
  else Ok (take (Z.to_nat n) src, drop (Z.to_nat n) src).

Definition expect_byte {R} (rd : R -> result ser_error (Z * R)) (r : R) (val : Z)
    : result ser_error (Z * R) :=
  let? (b, r) := rd r in
  if b =? val then Ok (b, r) else Err (UnexpectedData [val] [b]).

Module BinReader.
Record t : Type := mk {
  source : bytes;
  version : ProtocolVersion;
  deser_mode : DeserializationMode;
}.

Definition read_uint (r : t) (n : Z) : result ser_error (Z * t) :=
  let? (bs, rest) := read_exact (source r) n in
  Ok (be_value bs, mk rest (version r) (deser_mode r)).

Definition read_u8 (r : t) := read_uint r 1.
Definition read_u16 (r : t) := read_uint r 2.
Definition read_u32 (r : t) := read_uint r 4.
Definition read_u64 (r : t) := read_uint r 8.
Definition read_i32 (r : t) := let? (x, r) := read_uint r 4 in Ok (to_signed 32 x, r).
Definition read_i64 (r : t) := let? (x, r) := read_uint r 8 in Ok (to_signed 64 x, r).

Definition read_fixed_bytes (r : t) (len : Z) : result ser_error (bytes * t) :=
  if MAX_READ_SIZE <? len then Err TooLargeReadErr
  else
    let? (bs, rest) := read_exact (source r) len in
    Ok (bs, mk rest (version r) (deser_mode r)).

Definition read_bytes_len_prefix (r : t) : result ser_error (bytes * t) :=
  let? (len, r) := read_u64 r in read_fixed_bytes r len.

Definition expect_u8 (r : t) (val : Z) : result ser_error (Z * t) := expect_byte read_u8 r val.

#[global] Instance reader : Reader t := {|
  read_limit := fun _ => Some MAX_READ_SIZE;
  deserialization_mode := deser_mode;
  protocol_version := version;
  Ser.read_u8 := read_u8;
  Ser.read_u16 := read_u16;
  Ser.read_u32 := read_u32;
  Ser.read_u64 := read_u64;
  Ser.read_i32 := read_i32;
  Ser.read_i64 := read_i64;
  Ser.read_bytes_len_prefix := read_bytes_len_prefix;
  Ser.read_fixed_bytes := read_fixed_bytes;
  Ser.expect_u8 := expect_u8;
|}.
End BinReader.

Module StreamingReader.
Record t : Type := mk {
  total_bytes_read : Z;
  version : ProtocolVersion;
  stream : bytes;
  deser_mode : DeserializationMode;
}.

Definition new (stream : bytes) (version : ProtocolVersion) : t := mk 0 version stream DeFull.

Definition add_read (r : t) (n : Z) : t :=
  mk (add64 (total_bytes_read r) n) (version r) (stream r) (deser_mode r).

Definition read_fixed_bytes (r : t) (len : Z) : result ser_error (bytes * t) :=
  let? (buf, rest) := read_exact (stream r) len in
  Ok (buf, mk (add64 (total_bytes_read r) len) (version r) rest (deser_mode r)).

Definition read_uint (r : t) (n : Z) : result ser_error (Z * t) :=
  let? (buf, r) := read_fixed_bytes r n in Ok (be_value buf, r).

Definition read_u8 (r : t) := read_uint r 1.
Definition read_u16 (r : t) := read_uint r 2.
Definition read_u32 (r : t) := read_uint r 4.
Definition read_u64 (r : t) := read_uint r 8.
Definition read_i32 (r : t) := let? (x, r) := read_uint r 4 in Ok (to_signed 32 x, r).
Definition read_i64 (r : t) := let? (x, r) := read_uint r 8 in Ok (to_signed 64 x, r).

Definition read_bytes_len_prefix (r : t) : result ser_error (bytes * t) :=
  let? (len, r) := read_u64 r in
  let r := add_read r 8 in
  read_fixed_bytes r len.

Definition expect_u8 (r : t) (val : Z) : result ser_error (Z * t) := expect_byte read_u8 r val.

#[global] Instance reader : Reader t := {|
  read_limit := fun _ => None;
  deserialization_mode := deser_mode;
  protocol_version := version;
  Ser.read_u8 := read_u8;
  Ser.read_u16 := read_u16;
  Ser.read_u32 := read_u32;
  Ser.read_u64 := read_u64;
  Ser.read_i32 := read_i32;
  Ser.read_i64 := read_i64;
  Ser.read_bytes_len_prefix := read_bytes_len_prefix;
  Ser.read_fixed_bytes := read_fixed_bytes;
  Ser.expect_u8 := expect_u8;
|}.
End StreamingReader.

Module BufReader.
Record t : Type := mk {
  inner : bytes;
  version : ProtocolVersion;
  bytes_read : Z;
  deser_mode : DeserializationMode;
}.

Definition new (buf : bytes) (version : ProtocolVersion) : t := mk buf version 0 DeFull.

Definition has_remaining (r : t) (len : Z) : result ser_error t :=
  if len <=? Z.of_nat (length (inner r))
  then Ok (mk (inner r) (version r) (add64 (bytes_read r) len) (deser_mode r))
  else Err (IOErr UnexpectedEof).

(** [Buf::get_uint] and [copy_to_slice]: take bytes off the front. *)
Definition advance (r : t) (n : Z) : bytes * t :=
  (take (Z.to_nat n) (inner r),
   mk (drop (Z.to_nat n) (inner r)) (version r) (bytes_read r) (deser_mode r)).

Definition read_uint (r : t) (n : Z) : result ser_error (Z * t) :=
  let? r := has_remaining r n in
  let '(bs, r) := advance r n in Ok (be_value bs, r).

Definition read_u8 (r : t) := read_uint r 1.
Definition read_u16 (r : t) := read_uint r 2.
Definition read_u32 (r : t) := read_uint r 4.
Definition read_u64 (r : t) := read_uint r 8.
Definition read_i32 (r : t) := let? (x, r) := read_uint r 4 in Ok (to_signed 32 x, r).
Definition read_i64 (r : t) := let? (x, r) := read_uint r 8 in Ok (to_signed 64 x, r).

Definition read_fixed_bytes (r : t) (len : Z) : result ser_error (bytes * t) :=
  if MAX_READ_SIZE <? len then Err TooLargeReadErr
  else
    let? r := has_remaining r len in
    Ok (advance r len).

Definition read_bytes_len_prefix (r : t) : result ser_error (bytes * t) :=
  let? (len, r) := read_u64 r in read_fixed_bytes r len.

Definition expect_u8 (r : t) (val : Z) : result ser_error (Z * t) := expect_byte read_u8 r val.

#[global] Instance reader : Reader t := {|
  read_limit := fun _ => Some MAX_READ_SIZE;
  deserialization_mode := deser_mode;
  protocol_version := version;
  Ser.read_u8 := read_u8;
  Ser.read_u16 := read_u16;
  Ser.read_u32 := read_u32;
  Ser.read_u64 := read_u64;
  Ser.read_i32 := read_i32;
  Ser.read_i64 := read_i64;
  Ser.read_bytes_len_prefix := read_bytes_len_prefix;
  Ser.read_fixed_bytes := read_fixed_bytes;
  Ser.expect_u8 := expect_u8;
|}.
End BufReader.

(** ** [Readable] and [Writeable] *)

Class Writeable (A : Type) := write : Writer -> A -> result ser_error bytes.
Class Readable (A : Type) := read : forall {R} `{Reader R}, R -> result ser_error (A * R).

(** The loop of [IteratingReader::collect]: it stops at the first element that
    fails to deserialise, without reporting why. *)
Fixpoint iterating_reader {A R} `{Readable A} `{Reader R} (fuel : nat) (r : R) : list A * R :=
  match fuel with
  | O => ([], r)
  | S fuel =>
      match read r with
      | Ok (a, r) => let '(l, r) := iterating_reader fuel r in (a :: l, r)
      | Err _ => ([], r)
      end
  end.

Definition read_multi {A R} `{Readable A} `{Reader R} (r : R) (count : Z)
    : result ser_error (list A * R) :=
  if 1000000 <? count then Err TooLargeReadErr
  else
    let '(res, r) := iterating_reader (Z.to_nat count) r in
    if negb (Z.of_nat (length res) =? count) then Err CountError
    else Ok (res, r).

(** [impl Writeable for Vec<T>] *)
Fixpoint write_vec {A} `{Writeable A} (w : Writer) (l : list A) : result ser_error bytes :=
  match l with
  | [] => Ok []
  | x :: l => write w x +w+ write_vec w l
  end.

#[export] Instance pair_writeable {A B} `{Writeable A, Writeable B} : Writeable (A * B) :=
  fun w '(a, b) => write w a +w+ write w b.
#[export] Instance pair_readable {A B} `{Readable A, Readable B} : Readable (A * B) :=
  fun R _ r => let? (a, r) := read r in let? (b, r) := read r in Ok ((a, b), r).

(** *** Fixed-size types of the cryptographic library *)

Definition PEDERSEN_COMMITMENT_SIZE : Z := 33.
Definition SECRET_KEY_SIZE : Z := 32.
Definition AGG_SIGNATURE_SIZE : Z := 64.
Definition MAX_PROOF_SIZE : Z := 675.
Definition HASH_SIZE : Z := 32.

Record Commitment : Type := mkCommitment { commitment_bytes : bytes }.
Record BlindingFactor : Type := mkBlinding { blinding_bytes : bytes }.
Record Signature : Type := mkSignature { signature_bytes : bytes }.
Record Hash : Type := mkHash { hash_bytes : bytes }.

(** [proof] is a buffer of [MAX_PROOF_SIZE] bytes of which [plen] are used. *)
Record RangeProof : Type := mkRangeProof { plen : Z; proof : bytes }.

#[export] Instance commitment_eq_dec : EqDecision Commitment.
Proof. solve_decision. Defined.
#[export] Instance hash_eq_dec : EqDecision Hash.
Proof. solve_decision. Defined.

#[export] Instance commitment_writeable : Writeable Commitment :=
  fun w c => write_fixed_bytes w (commitment_bytes c).
#[export] Instance commitment_readable : Readable Commitment :=
  fun R _ r => let? (a, r) := read_fixed_bytes r PEDERSEN_COMMITMENT_SIZE in Ok (mkCommitment a, r).
#[export] Instance blinding_writeable : Writeable BlindingFactor :=
  fun w c => write_fixed_bytes w (blinding_bytes c).
#[export] Instance blinding_readable : Readable BlindingFactor :=
  fun R _ r => let? (a, r) := read_fixed_bytes r SECRET_KEY_SIZE in Ok (mkBlinding a, r).
#[export] Instance signature_writeable : Writeable Signature :=
  fun w c => write_fixed_bytes w (signature_bytes c).
#[export] Instance signature_readable : Readable Signature :=
  fun R _ r => let? (a, r) := read_fixed_bytes r AGG_SIGNATURE_SIZE in Ok (mkSignature a, r).
#[export] Instance hash_writeable : Writeable Hash :=
  fun w c => write_fixed_bytes w (hash_bytes c).
#[export] Instance hash_readable : Readable Hash :=
  fun R _ r => let? (a, r) := read_fixed_bytes r HASH_SIZE in Ok (mkHash a, r).

(** [AsRef<[u8]>] of a range proof exposes the first [plen] bytes. *)
#[export] Instance rangeproof_writeable : Writeable RangeProof :=
  fun w p => write_bytes w (take (Z.to_nat (plen p)) (proof p)).
#[export] Instance rangeproof_readable : Readable RangeProof :=
  fun R _ r =>
    let? (len, r) := read_u64 r in
    let max_len := Z.min len MAX_PROOF_SIZE in
    let? (p, r) := read_fixed_bytes r max_len in
    Ok (mkRangeProof MAX_PROOF_SIZE
          (p ++ replicate (Z.to_nat MAX_PROOF_SIZE - length p) 0), r).

(** ** Sorted and unique collections *)

(** [verify_sorted_and_unique] of a [Vec<T: Ord>]: [gt] and [eqb] are the
    comparison operators of [T]. *)
Fixpoint verify_sorted_and_unique {A} (gt eqb : A -> A -> bool) (l : list A)
    : result ser_error unit :=
  match l with
  | x :: ((y :: _) as tl) =>
      if gt x y then Err SortError
      else if eqb x y then Err DuplicateError
      else verify_sorted_and_unique gt eqb tl
  | _ => Ok tt
  end.

(** * Specification *)

(** ** Big-endian integers *)

Lemma be_length n x : length (be n x) = n.
Proof. induction n; cbn [be length]; auto. Qed.

Lemma be_value_app a l : fold_left (fun a b => 256 * a + b) l a = a * 256 ^ Z.of_nat (length l) + be_value l.
Proof.
  unfold be_value. revert a. induction l as [|b l IH]; intros a; cbn [fold_left length]; [lia|].
  rewrite (IH (256 * a + b)), (IH (256 * 0 + b)), Nat2Z.inj_succ, Z.pow_succ_r by lia. lia.
Qed.

Lemma be_value_be n x : be_value (be n x) = x mod 256 ^ Z.of_nat n.
Proof.
  induction n as [|n IH]; [by rewrite Z.mod_1_r|].
  cbn [be]. unfold be_value. cbn [fold_left]. rewrite be_value_app, be_length, IH.
  rewrite Nat2Z.inj_succ, Z.pow_succ_r by lia.
  pose proof (Z.pow_pos_nonneg 256 (Z.of_nat n) ltac:(lia) ltac:(lia)).
  set (k := 256 ^ Z.of_nat n) in *.
  rewrite (Z.mul_comm 256 k). rewrite Z.rem_mul_r by lia. lia.
Qed.

Lemma be_value_be_small n x : 0 <= x < 256 ^ Z.of_nat n -> be_value (be n x) = x.
Proof. intros. rewrite be_value_be. by apply Z.mod_small. Qed.

Lemma be_bytes n x : Forall (in_range 8) (be n x).
Proof.
  induction n; cbn [be]; constructor; auto. unfold in_range. apply Z.mod_pos_bound. lia.
Qed.

Lemma to_of_signed w x :
  1 <= w -> - 2 ^ (w - 1) <= x < 2 ^ (w - 1) -> to_signed w (of_signed w x) = x.
Proof.
  intros Hw Hx. unfold to_signed, of_signed.
  assert (E : 2 ^ w = 2 * 2 ^ (w - 1)) by (rewrite <- Z.pow_succ_r by lia; f_equal; lia).
  destruct (Z.lt_ge_cases x 0).
  - rewrite <- (Z.mod_add x 1 (2 ^ w)), Z.mod_small by lia.
    destruct (Z.ltb_spec (x + 1 * 2 ^ w) (2 ^ (w - 1))); lia.
  - rewrite Z.mod_small by lia. destruct (Z.ltb_spec x (2 ^ (w - 1))); lia.
Qed.

Opaque be.

(** ** What deserialisers rely on *)

Definition within_limit {R} `{Reader R} (r : R) (n : Z) : Prop :=
  match read_limit r with Some limit => n <= limit | None => True end.

(** [r'] is [r] after reading: the rest of the input is [tl]. *)
Definition advanced {R} `{Reader R} (input : R -> bytes) (r r' : R) (tl : bytes) : Prop :=
  input r' = tl /\ protocol_version r' = protocol_version r /\
  deserialization_mode r' = deserialization_mode r /\ read_limit r' = read_limit r.

Definition reads_uint {R} `{Reader R} (input : R -> bytes) (k : nat)
    (rd : R -> result ser_error (Z * R)) (dec : Z -> Z) : Prop :=
  (forall r bs tl, input r = bs ++ tl -> length bs = k ->
     exists r', rd r = Ok (dec (be_value bs), r') /\ advanced input r r' tl) /\
  (forall r, (length (input r) < k)%nat -> rd r = Err (IOErr UnexpectedEof)).

Class ReaderLaws (R : Type) {RD : Reader R} := {
  input : R -> bytes;
  law_u8 : reads_uint input 1 read_u8 (fun x => x);
  law_u16 : reads_uint input 2 read_u16 (fun x => x);
  law_u32 : reads_uint input 4 read_u32 (fun x => x);
  law_u64 : reads_uint input 8 read_u64 (fun x => x);
  law_i32 : reads_uint input 4 read_i32 (to_signed 32);
  law_i64 : reads_uint input 8 read_i64 (to_signed 64);
  law_fixed r n bs tl :
    within_limit r n -> input r = bs ++ tl -> Z.of_nat (length bs) = n ->
    exists r', read_fixed_bytes r n = Ok (bs, r') /\ advanced input r r' tl;
  law_fixed_eof r n :
    within_limit r n -> Z.of_nat (length (input r)) < n ->
    read_fixed_bytes r n = Err (IOErr UnexpectedEof);
  law_limit r n : n <= MAX_READ_SIZE -> within_limit r n;
  law_prefix r bs tl :
    within_limit r (Z.of_nat (length bs)) -> Z.of_nat (length bs) < 2 ^ 64 ->
    input r = be 8 (Z.of_nat (length bs)) ++ bs ++ tl ->
    exists r', read_bytes_len_prefix r = Ok (bs, r') /\ advanced input r r' tl;
}.

Lemma read_exact_app bs tl n :
  Z.of_nat (length bs) = n -> read_exact (bs ++ tl) n = Ok (bs, tl).
Proof.
  intros <-. unfold read_exact. rewrite length_app.
  destruct (Z.ltb_spec (Z.of_nat (length bs + length tl)) (Z.of_nat (length bs))); [lia|].
  by rewrite Nat2Z.id, take_app_length, drop_app_length.
Qed.

Lemma read_exact_eof src n :
  Z.of_nat (length src) < n -> read_exact src n = Err (IOErr UnexpectedEof).
Proof. intros. unfold read_exact. by destruct (Z.ltb_spec (Z.of_nat (length src)) n); [|lia]. Qed.

Ltac solve_uint :=
  split;
  [ intros ? ? ? Hin Hlen; cbn in Hin; cbv delta [BinReader.read_u8 BinReader.read_u16
      BinReader.read_u32 BinReader.read_u64 BinReader.read_i32 BinReader.read_i64
      StreamingReader.read_u8 StreamingReader.read_u16 StreamingReader.read_u32
      StreamingReader.read_u64 StreamingReader.read_i32 StreamingReader.read_i64
      BinReader.read_uint StreamingReader.read_uint StreamingReader.read_fixed_bytes] beta;
    rewrite Hin, read_exact_app by lia; cbn [rbind]; eexists; split; [reflexivity|]; done
  | intros ? Hlen; cbn in Hlen; cbv delta [BinReader.read_u8 BinReader.read_u16
      BinReader.read_u32 BinReader.read_u64 BinReader.read_i32 BinReader.read_i64
      StreamingReader.read_u8 StreamingReader.read_u16 StreamingReader.read_u32
      StreamingReader.read_u64 StreamingReader.read_i32 StreamingReader.read_i64
      BinReader.read_uint StreamingReader.read_uint StreamingReader.read_fixed_bytes] beta;
    rewrite read_exact_eof by lia; reflexivity ].

Lemma be8_length l : Z.of_nat (length (be 8 l)) = 8.
Proof. by rewrite be_length. Qed.

#[export] Instance binreader_laws : ReaderLaws BinReader.t.
Proof.
  refine {| input := BinReader.source |}; simpl; try solve_uint.
  - unfold within_limit, BinReader.read_fixed_bytes. simpl. intros r n bs tl Hn Hin Hlen.
    destruct (Z.ltb_spec MAX_READ_SIZE n); [lia|]. rewrite Hin, read_exact_app by done. by eexists.
  - unfold within_limit, BinReader.read_fixed_bytes. simpl. intros r n Hn Hlen.
    destruct (Z.ltb_spec MAX_READ_SIZE n); [lia|]. by rewrite read_exact_eof.
  - done.
  - unfold within_limit. simpl. intros r bs tl Hn Hlt Hin. unfold BinReader.read_bytes_len_prefix,
      BinReader.read_u64, BinReader.read_uint. rewrite Hin, read_exact_app by apply be8_length.
    cbn [rbind]. rewrite be_value_be_small by (change (256 ^ Z.of_nat 8) with (2 ^ 64); lia).
    unfold BinReader.read_fixed_bytes. cbn [BinReader.source].
    destruct (Z.ltb_spec MAX_READ_SIZE (Z.of_nat (length bs))); [lia|].
    rewrite read_exact_app by done. by eexists.
Defined.

#[export] Instance streaming_laws : ReaderLaws StreamingReader.t.
Proof.
  refine {| input := StreamingReader.stream |}; simpl; try solve_uint.
  - unfold StreamingReader.read_fixed_bytes. simpl. intros r n bs tl _ Hin Hlen.
    rewrite Hin, read_exact_app by done. by eexists.
  - unfold StreamingReader.read_fixed_bytes. simpl. intros r n _ Hlen. by rewrite read_exact_eof.
  - done.
  - intros r bs tl _ Hlt Hin. unfold StreamingReader.read_bytes_len_prefix,
      StreamingReader.read_u64, StreamingReader.read_uint, StreamingReader.read_fixed_bytes.
    rewrite Hin, read_exact_app by apply be8_length.
    cbn [rbind]. rewrite be_value_be_small by (change (256 ^ Z.of_nat 8) with (2 ^ 64); lia).
    simpl. rewrite read_exact_app by done. by eexists.
Defined.

Lemma buf_has_remaining r bs tl n :
  BufReader.inner r = bs ++ tl -> Z.of_nat (length bs) = n ->
  exists r', BufReader.has_remaining r n = Ok r' /\ BufReader.advance r' n =
    (bs, BufReader.mk tl (BufReader.version r) (BufReader.bytes_read r') (BufReader.deser_mode r)).
Proof.
  intros Hin <-. unfold BufReader.has_remaining. rewrite Hin, length_app.
  destruct (Z.leb_spec (Z.of_nat (length bs)) (Z.of_nat (length bs + length tl))); [|lia].
  eexists. split; [done|]. unfold BufReader.advance. cbn [BufReader.inner BufReader.version BufReader.deser_mode].
  by rewrite Nat2Z.id, take_app_length, drop_app_length.
Qed.

Lemma buf_has_remaining_eof r n :
  Z.of_nat (length (BufReader.inner r)) < n ->
  BufReader.has_remaining r n = Err (IOErr UnexpectedEof).
Proof.
  intros. unfold BufReader.has_remaining.
  by destruct (Z.leb_spec n (Z.of_nat (length (BufReader.inner r)))); [lia|].
Qed.

Ltac solve_buf_uint :=
  split;
  [ intros ? ? ? Hin Hlen; cbn in Hin; cbv delta [BufReader.read_u8 BufReader.read_u16
      BufReader.read_u32 BufReader.read_u64 BufReader.read_i32 BufReader.read_i64
      BufReader.read_uint] beta;
    match goal with |- context [BufReader.has_remaining _ ?n] =>
      let Ha := fresh "Ha" in
      destruct (buf_has_remaining _ _ _ n Hin) as (? & -> & Ha); [lia|];
      cbn [rbind]; rewrite Ha; cbn [rbind]; eexists; split; [reflexivity|]; done end
  | intros ? Hlen; cbn in Hlen; cbv delta [BufReader.read_u8 BufReader.read_u16
      BufReader.read_u32 BufReader.read_u64 BufReader.read_i32 BufReader.read_i64
      BufReader.read_uint] beta;
    rewrite buf_has_remaining_eof by lia; reflexivity ].

#[export] Instance bufreader_laws : ReaderLaws BufReader.t.
Proof.
  refine {| input := BufReader.inner |}; simpl; try solve_buf_uint.
  - unfold within_limit, BufReader.read_fixed_bytes. simpl. intros r n bs tl Hn Hin Hlen.
    destruct (Z.ltb_spec MAX_READ_SIZE n); [lia|].
    destruct (buf_has_remaining r bs tl n Hin Hlen) as (? & -> & Ha). simpl. rewrite Ha. by eexists.
  - unfold within_limit, BufReader.read_fixed_bytes. simpl. intros r n Hn Hlen.
    destruct (Z.ltb_spec MAX_READ_SIZE n); [lia|]. by rewrite buf_has_remaining_eof.
  - done.
  - unfold within_limit. simpl. intros r bs tl Hn Hlt Hin. unfold BufReader.read_bytes_len_prefix,
      BufReader.read_u64, BufReader.read_uint.
    destruct (buf_has_remaining r _ _ 8 Hin (be8_length _)) as (r1 & -> & Ha).
    cbn [rbind]. rewrite Ha. cbn [rbind].
    rewrite be_value_be_small by (change (256 ^ Z.of_nat 8) with (2 ^ 64); lia).
    unfold BufReader.read_fixed_bytes.
    destruct (Z.ltb_spec MAX_READ_SIZE (Z.of_nat (length bs))); [lia|].
    edestruct (buf_has_remaining (BufReader.mk (bs ++ tl) (BufReader.version r)
      (BufReader.bytes_read r1) (BufReader.deser_mode r)) bs tl) as (? & -> & Hb); [done|done|].
    cbn [rbind]. rewrite Hb. by eexists.
Defined.

(** ** Round trips *)

(** [x] can be written at a protocol version, and every lawful reader of that
    version that finds those bytes in front of it reads [x] back and stops
    right after them. *)
Definition roundtrips {A} `{Writeable A} `{Readable A} (v : ProtocolVersion) (x : A) : Prop :=
  exists bs, write (mkWriter SerFull v) x = Ok bs /\
    forall R (RD : Reader R) (RL : ReaderLaws R) (r : R) tl,
      protocol_version r = v -> deserialization_mode r = DeFull -> input r = bs ++ tl ->
      exists r', read r = Ok (x, r') /\ advanced input r r' tl.

Lemma advanced_trans {R} `{Reader R} (inp : R -> bytes) r1 r2 r3 t2 t3 :
  advanced inp r1 r2 t2 -> advanced inp r2 r3 t3 -> advanced inp r1 r3 t3.
Proof. unfold advanced. intros (?&?&?&?) (?&?&?&?). split_and!; congruence. Qed.

Section primitives.
Context {R : Type} {RD : Reader R} {RL : ReaderLaws R}.
Implicit Types (r : R) (bs tl : bytes).

Lemma read_uint_be (k : nat) (rd : R -> result ser_error (Z * R)) r x tl :
  reads_uint input k rd (fun x => x) -> 0 <= x < 256 ^ Z.of_nat k ->
  input r = be k x ++ tl -> exists r', rd r = Ok (x, r') /\ advanced input r r' tl.
Proof.
  intros [Hrd _] Hx Hin. destruct (Hrd r (be k x) tl Hin (be_length k x)) as (r' & E & Ha).
  exists r'. by rewrite be_value_be_small in E.
Qed.

Lemma read_u8_ok r x tl :
  in_range 8 x -> input r = x :: tl -> exists r', read_u8 r = Ok (x, r') /\ advanced input r r' tl.
Proof.
  intros Hx Hin. destruct law_u8 as [Hrd _]. destruct (Hrd r [x] tl Hin eq_refl) as (r' & E & Ha).
  exists r'. split; [|done]. by rewrite E.
Qed.

Lemma read_u16_ok r x tl :
  in_range 16 x -> input r = be 2 x ++ tl ->
  exists r', read_u16 r = Ok (x, r') /\ advanced input r r' tl.
Proof. intros Hx. apply (read_uint_be 2); [apply law_u16|exact Hx]. Qed.

Lemma read_u32_ok r x tl :
  u32 x -> input r = be 4 x ++ tl -> exists r', read_u32 r = Ok (x, r') /\ advanced input r r' tl.
Proof. intros Hx. apply (read_uint_be 4); [apply law_u32|exact Hx]. Qed.

Lemma read_u64_ok r x tl :
  u64 x -> input r = be 8 x ++ tl -> exists r', read_u64 r = Ok (x, r') /\ advanced input r r' tl.
Proof. intros Hx. apply (read_uint_be 8); [apply law_u64|exact Hx]. Qed.

Lemma read_signed_ok (w : Z) (k : nat) (rd : R -> result ser_error (Z * R)) r x tl :
  1 <= w -> 2 ^ w = 256 ^ Z.of_nat k -> reads_uint input k rd (to_signed w) ->
  - 2 ^ (w - 1) <= x < 2 ^ (w - 1) -> input r = be k (of_signed w x) ++ tl ->
  exists r', rd r = Ok (x, r') /\ advanced input r r' tl.
Proof.
  intros Hw Hk [Hrd _] Hx Hin.
  destruct (Hrd r _ tl Hin (be_length k _)) as (r' & E & Ha). exists r'. split; [|done].
  rewrite E, be_value_be_small, to_of_signed; try done.
  unfold of_signed. rewrite <- Hk. apply Z.mod_pos_bound. lia.
Qed.

Lemma read_fixed_ok r n bs tl :
  Z.of_nat (length bs) = n -> n <= MAX_READ_SIZE -> input r = bs ++ tl ->
  exists r', read_fixed_bytes r n = Ok (bs, r') /\ advanced input r r' tl.
Proof. intros. apply law_fixed; [by apply law_limit|done|done]. Qed.

End primitives.

(** Run the next read of a deserialiser on bytes that are known to be there. *)
Ltac read_step lem :=
  let r := fresh "r" in let E := fresh "E" in let Ha := fresh "Ha" in
  edestruct lem as (r & E & Ha);
  [ .. | rewrite E; cbn [rbind]; clear E ].

(** The same when the bytes in front of the current reader are named by its
    [input] hypothesis: [lem] is applied to that reader. *)
Tactic Notation "read_next" uconstr(lem) :=
  match goal with
  | Hin : input ?r = _ |- _ =>
      let r' := fresh "r" in let E := fresh "E" in let Ha := fresh "Ha" in
      let Hin' := fresh "Hin" in
      edestruct (lem r) as (r' & E & Ha);
      [ .. | exact Hin | rewrite E; cbn [rbind]; clear E Hin; pose proof Ha as [Hin' _] ]
  end.

(** Chain the readers of consecutive reads. *)
Ltac adv_chain := first [eassumption | eapply advanced_trans; [eassumption|adv_chain]].

(** Facts about the reader that the preceding reads left. *)
Ltac adv_done := unfold advanced in *; destruct_and?; congruence.

Lemma wseq_Ok a b x y : a = Ok x -> b = Ok y -> wseq a b = Ok (x ++ y).
Proof. by intros -> ->. Qed.

Lemma hash_roundtrips v h : Z.of_nat (length (hash_bytes h)) = HASH_SIZE -> roundtrips v h.
Proof.
  intros Hl. eexists. split; [reflexivity|]. intros R RD RL r tl _ _ Hin. cbn [read hash_readable].
  unfold read, hash_readable. read_step (read_fixed_ok r HASH_SIZE (hash_bytes h) tl Hl); [done|done|].
  destruct h. by eexists.
Qed.

Lemma commitment_roundtrips v c :
  Z.of_nat (length (commitment_bytes c)) = PEDERSEN_COMMITMENT_SIZE -> roundtrips v c.
Proof.
  intros Hl. eexists. split; [reflexivity|]. intros R RD RL r tl _ _ Hin.
  unfold read, commitment_readable.
  read_step (read_fixed_ok r PEDERSEN_COMMITMENT_SIZE (commitment_bytes c) tl Hl); [done|done|].
  destruct c. by eexists.
Qed.

Lemma signature_roundtrips v c :
  Z.of_nat (length (signature_bytes c)) = AGG_SIGNATURE_SIZE -> roundtrips v c.
Proof.
  intros Hl. eexists. split; [reflexivity|]. intros R RD RL r tl _ _ Hin.
  unfold read, signature_readable.
  read_step (read_fixed_ok r AGG_SIGNATURE_SIZE (signature_bytes c) tl Hl); [done|done|].
  destruct c. by eexists.
Qed.

Lemma blinding_roundtrips v c :
  Z.of_nat (length (blinding_bytes c)) = SECRET_KEY_SIZE -> roundtrips v c.
Proof.
  intros Hl. eexists. split; [reflexivity|]. intros R RD RL r tl _ _ Hin.
  unfold read, blinding_readable.
  read_step (read_fixed_ok r SECRET_KEY_SIZE (blinding_bytes c) tl Hl); [done|done|].
  destruct c. by eexists.
Qed.

Lemma rangeproof_roundtrips v p :
  plen p = MAX_PROOF_SIZE -> Z.of_nat (length (proof p)) = MAX_PROOF_SIZE -> roundtrips v p.
Proof.
  intros Hp Hl. eexists. split.
  - unfold write, rangeproof_writeable, write_bytes, write_u64, write_fixed_bytes, wseq.
    cbn [rbind]. reflexivity.
  - intros R RD RL r tl _ _ Hin. unfold read, rangeproof_readable.
    rewrite Hp, firstn_all2 in Hin by (unfold MAX_PROOF_SIZE in *; lia).
    rewrite Hl in Hin. rewrite <- app_assoc in Hin.
    read_step (read_u64_ok r MAX_PROOF_SIZE (proof p ++ tl)); [done|done|].
    rewrite Z.min_id. destruct Ha as (Hin0 & Hrest).
    read_step (read_fixed_ok r0 MAX_PROOF_SIZE (proof p) tl Hl); [done|done|].
    eexists. split; [|eapply advanced_trans; [|exact Ha]; by split].
    replace (Z.to_nat MAX_PROOF_SIZE - length (proof p))%nat with 0%nat by lia.
    simpl. rewrite app_nil_r. destruct p. simpl in *. by subst.
Qed.

Lemma write_vec_cons {A} `{Writeable A} w (x : A) l bx bl :
  write w x = Ok bx -> write_vec w l = Ok bl -> write_vec w (x :: l) = Ok (bx ++ bl).
Proof. intros. by apply wseq_Ok. Qed.

Lemma read_multi_ok {A} {WA : Writeable A} {RA : Readable A} v (l : list A) :
  Forall (roundtrips v) l -> Z.of_nat (length l) <= 1000000 ->
  exists bs, write_vec (mkWriter SerFull v) l = Ok bs /\
    forall R (RD : Reader R) (RL : ReaderLaws R) (r : R) tl,
      protocol_version r = v -> deserialization_mode r = DeFull -> input r = bs ++ tl ->
      exists r', read_multi r (Z.of_nat (length l)) = Ok (l, r') /\ advanced input r r' tl.
Proof.
  intros Hl Hlen.
  assert (Hit : exists bs, write_vec (mkWriter SerFull v) l = Ok bs /\
    forall R (RD : Reader R) (RL : ReaderLaws R) (r : R) tl,
      protocol_version r = v -> deserialization_mode r = DeFull -> input r = bs ++ tl ->
      exists r', iterating_reader (length l) r = (l, r') /\ advanced input r r' tl).
  { clear Hlen. induction Hl as [|x l (bx & Ex & Hx) _ (bl & El & IH)].
    - exists []. split; [done|]. intros R RD RL r tl _ _ Hin. exists r. by split.
    - exists (bx ++ bl). split; [by apply write_vec_cons|]. intros R RD RL r tl Hv Hm Hin.
      rewrite <- app_assoc in Hin. destruct (Hx R RD RL r _ Hv Hm Hin) as (r1 & E1 & Ha1).
      pose proof Ha1 as (Hin1 & Hv1 & Hm1 & _).
      destruct (IH R RD RL r1 tl) as (r2 & E2 & Ha2); [congruence..|].
      exists r2. cbn [iterating_reader length]. rewrite E1, E2.
      split; [done|]. by eapply advanced_trans. }
  destruct Hit as (bs & Eb & Hit). exists bs. split; [done|]. intros R RD RL r tl Hv Hm Hin.
  destruct (Hit R RD RL r tl Hv Hm Hin) as (r' & E & Ha). exists r'. split; [|done].
  unfold read_multi. destruct (Z.ltb_spec 1000000 (Z.of_nat (length l))); [lia|].
  by rewrite Nat2Z.id, E, Z.eqb_refl.
Qed.

(** * Properties *)

(** Integers survive serialisation: whatever reader is used (binary,
    streaming or buffer), an integer written by [write_u8] .. [write_i64] is
    read back by the corresponding method, which consumes exactly the bytes
    written and leaves version, mode and limit unchanged. *)
Theorem integers_roundtrip R (RD : Reader R) (RL : ReaderLaws R) (r : R) (w : Writer) tl :
  let reads (wr : Writer -> Z -> result ser_error bytes) (rd : R -> result ser_error (Z * R)) x :=
    forall bs, wr w x = Ok bs -> input r = bs ++ tl ->
    exists r', rd r = Ok (x, r') /\ advanced input r r' tl in
  (forall x, in_range 8 x -> reads write_u8 read_u8 x) /\
  (forall x, in_range 16 x -> reads write_u16 read_u16 x) /\
  (forall x, u32 x -> reads write_u32 read_u32 x) /\
  (forall x, u64 x -> reads write_u64 read_u64 x) /\
  (forall x, - 2 ^ 31 <= x < 2 ^ 31 -> reads write_i32 read_i32 x) /\
  (forall x, - 2 ^ 63 <= x < 2 ^ 63 -> reads write_i64 read_i64 x).
Proof.
  intros reads. subst reads. cbv beta. split_and!; intros x Hx bs [= <-] Hin.
  - by apply read_u8_ok.
  - by apply read_u16_ok.
  - by apply read_u32_ok.
  - by apply read_u64_ok.
  - by apply (read_signed_ok 32 4); [lia|reflexivity|apply law_i32|..].
  - by apply (read_signed_ok 64 8); [lia|reflexivity|apply law_i64|..].
Qed.

Lemma integers_roundtrip_witness :
  exists r', read_u16 (BufReader.new [1; 2; 9] local) = Ok (258, r') /\
    advanced input (BufReader.new [1; 2; 9] local) r' [9].
Proof.
  destruct (integers_roundtrip _ _ _ (BufReader.new [1; 2; 9] local) (mkWriter SerFull local) [9])
    as (_ & H & _).
  apply (H 258 ltac:(unfold in_range; lia) [1; 2]); vm_compute; reflexivity.
Defined.

(** The byte count of the streaming reader drifts: fixed-size reads add
    the bytes they consume, but [read_bytes_len_prefix] adds the eight bytes of
    the length prefix twice, so that after it the counter is eight above the
    number of bytes taken from the stream. *)
Theorem streaming_reader_counts r bs tl :
  Z.of_nat (length bs) < 2 ^ 62 -> 0 <= StreamingReader.total_bytes_read r < 2 ^ 62 ->
  let total := StreamingReader.total_bytes_read in
  let len := Z.of_nat (length bs) in
  (StreamingReader.stream r = bs ++ tl ->
     exists r', StreamingReader.read_fixed_bytes r len = Ok (bs, r') /\
       StreamingReader.stream r' = tl /\ total r' - total r = len) /\
  (StreamingReader.stream r = be 8 len ++ bs ++ tl ->
     exists r', StreamingReader.read_bytes_len_prefix r = Ok (bs, r') /\
       StreamingReader.stream r' = tl /\ total r' - total r = len + 8 + 8).
Proof.
  intros Hlen Htot total len. subst total len. split; intros Hin.
  - unfold StreamingReader.read_fixed_bytes. rewrite Hin, read_exact_app by done. cbn [rbind].
    eexists. split; [done|]. split; [done|]. cbn. rewrite add64_small by (unfold_words; lia). lia.
  - unfold StreamingReader.read_bytes_len_prefix, StreamingReader.read_u64,
      StreamingReader.read_uint, StreamingReader.read_fixed_bytes.
    rewrite Hin, read_exact_app by apply be8_length. cbn [rbind].
    rewrite be_value_be_small by (change (256 ^ Z.of_nat 8) with (2 ^ 64); lia). cbn.
    rewrite read_exact_app by done. cbn [rbind]. eexists. split; [done|]. split; [done|].
    cbn. rewrite (add64_small (StreamingReader.total_bytes_read r)) by (unfold_words; lia).
    rewrite (add64_small (_ + 8) 8), add64_small by (unfold_words; lia). lia.
Qed.

Lemma streaming_reader_counts_witness :
  exists r', StreamingReader.read_bytes_len_prefix
      (StreamingReader.new (be 8 2 ++ [5; 6] ++ [7]) local) = Ok ([5; 6], r') /\
    StreamingReader.stream r' = [7] /\ StreamingReader.total_bytes_read r' - 0 = 2 + 8 + 8.
Proof.
  apply (streaming_reader_counts (StreamingReader.new (be 8 2 ++ [5; 6] ++ [7]) local) [5; 6] [7]);
    [simpl; lia|simpl; lia|reflexivity].
Defined.

(** Comparison operators that compare an integer key, such as a hash. *)
Definition key_gt {A} (key : A -> Z) (a b : A) : bool := key b <? key a.
Definition key_eqb {A} (key : A -> Z) (a b : A) : bool := key a =? key b.

Lemma verify_sorted_iff {A} (key : A -> Z) l :
  verify_sorted_and_unique (key_gt key) (key_eqb key) l = Ok tt <->
  StronglySorted (fun a b => key a < key b) l.
Proof.
  transitivity (Sorted (fun a b => key a < key b) l).
  2:{ split; [apply Sorted_StronglySorted; intros ???; lia|apply StronglySorted_Sorted]. }
  induction l as [|x [|y l] IH]; [split; [constructor|done]|split; [repeat constructor|done]|].
  cbn [verify_sorted_and_unique]. unfold key_gt, key_eqb in *.
  destruct (Z.ltb_spec (key y) (key x)); [split; [done|]|].
  - intros [_ Hhd]%Sorted_inv. apply HdRel_inv in Hhd. lia.
  - destruct (Z.eqb_spec (key x) (key y)).
    + split; [done|]. intros [_ Hhd]%Sorted_inv. apply HdRel_inv in Hhd. lia.
    + rewrite IH. split; [intros; constructor; [done|constructor; lia]|by intros [? _]%Sorted_inv].
Qed.
Transparent be.
