(* ===== verification/PeerAddr.v ===== *)
(** Addresses of peers.

    Models [PeerAddr], [is_private_ip] and [normalize_ip] of
    [src/p2p/src/types.rs] with what they use of [std::net], and the flags and
    enumerations [Capabilities], [Direction] and [ReasonForBan] of that file.

    A socket address is a number, as in [SyncState]: 16 bits of port below the 32
    bits of an IPv4 address, and after those the 128 bits of an IPv6 address. The
    flow label and the scope of an IPv6 address are left out: no peer address that
    is read or parsed has them. Host names are not resolved here. *)

From Stdlib Require Import ZArith Lia.
From stdpp Require Import base numbers option list countable strings pretty.
From S2P Require Import Prelude Ser.
Open Scope Z_scope.

(** ** [std::net] *)

Inductive IpAddr : Type := V4 (bits : Z) | V6 (bits : Z).

#[export] Instance ip_eq_dec : EqDecision IpAddr.
Proof. solve_decision. Defined.

#[export] Program Instance ip_countable : Countable IpAddr :=
  inj_countable' (fun ip => match ip with V4 x => inl x | V6 x => inr x end)
    (fun s => match s with inl x => V4 x | inr x => V6 x end) _.
Next Obligation. by intros []. Qed.

Definition SocketAddr : Type := Z.

Definition socket_new (ip : IpAddr) (port : Z) : SocketAddr :=
  match ip with
  | V4 x => x * 2 ^ 16 + port
  | V6 x => 2 ^ 48 + x * 2 ^ 16 + port
  end.
Definition socket_ip (a : SocketAddr) : IpAddr :=
  if a <? 2 ^ 48 then V4 (a / 2 ^ 16) else V6 ((a - 2 ^ 48) / 2 ^ 16).
Definition socket_port (a : SocketAddr) : Z := a mod 2 ^ 16.

(** The [i]-th octet of an IPv4 address and the [i]-th segment of an IPv6 address. *)
Definition octet (x : Z) (i : Z) : Z := Z.shiftr x (8 * (3 - i)) mod 2 ^ 8.
Definition segment (x : Z) (i : Z) : Z := Z.shiftr x (16 * (7 - i)) mod 2 ^ 16.

Definition v4_new (a b c d : Z) : Z := ((a * 2 ^ 8 + b) * 2 ^ 8 + c) * 2 ^ 8 + d.
Definition v6_new (l : list Z) : Z := fold_left (fun x s => x * 2 ^ 16 + s) l 0.
Definition segments (x : Z) : list Z := map (segment x) [0; 1; 2; 3; 4; 5; 6; 7].

Definition v4_is_private (x : Z) : bool :=
  (octet x 0 =? 10) || (octet x 0 =? 172) && (16 <=? octet x 1) && (octet x 1 <=? 31) ||
  (octet x 0 =? 192) && (octet x 1 =? 168).
Definition v4_is_loopback (x : Z) : bool := octet x 0 =? 127.
Definition v4_is_link_local (x : Z) : bool := (octet x 0 =? 169) && (octet x 1 =? 254).
Definition v4_is_documentation (x : Z) : bool :=
  (octet x 0 =? 192) && (octet x 1 =? 0) && (octet x 2 =? 2) ||
  (octet x 0 =? 198) && (octet x 1 =? 51) && (octet x 2 =? 100) ||
  (octet x 0 =? 203) && (octet x 1 =? 0) && (octet x 2 =? 113).

Definition v6_is_loopback (x : Z) : bool := x =? 1.
Definition v6_is_unspecified (x : Z) : bool := x =? 0.
Definition v6_is_unique_local (x : Z) : bool := Z.land (segment x 0) 0xfe00 =? 0xfc00.
Definition v6_is_unicast_link_local (x : Z) : bool := Z.land (segment x 0) 0xffc0 =? 0xfe80.

(** IPv4-mapped addresses are [::ffff:a.b.c.d]; IPv4-compatible ones are
    [::a.b.c.d]. [to_ipv4] takes both. *)
Definition to_ipv4_mapped (x : Z) : option Z := if x / 2 ^ 32 =? 0xffff then Some (x mod 2 ^ 32) else None.
Definition to_ipv4 (x : Z) : option Z :=
  if (x / 2 ^ 32 =? 0xffff) || (x / 2 ^ 32 =? 0) then Some (x mod 2 ^ 32) else None.

(** *** [Display] *)

Definition show_dec (x : Z) : string := pretty (Z.to_N x).

Definition hex_digit (d : Z) : string :=
  match d with
  | 0 => "0" | 1 => "1" | 2 => "2" | 3 => "3" | 4 => "4" | 5 => "5" | 6 => "6" | 7 => "7"
  | 8 => "8" | 9 => "9" | 10 => "a" | 11 => "b" | 12 => "c" | 13 => "d" | 14 => "e" | _ => "f"
  end.

(** A segment has at most four digits; leading zeros are not shown. *)
Fixpoint show_hex (n : nat) (x : Z) : string :=
  match n with
  | O => ""
  | S n => if x <? 16 then hex_digit x else show_hex n (x / 16) +:+ hex_digit (x mod 16)
  end.

Fixpoint show_segments (l : list Z) : string :=
  match l with
  | [] => ""
  | [s] => show_hex 4 s
  | s :: l => show_hex 4 s +:+ ":" +:+ show_segments l
  end.

Definition show_v4 (x : Z) : string :=
  show_dec (octet x 0) +:+ "." +:+ show_dec (octet x 1) +:+ "." +:+ show_dec (octet x 2) +:+ "." +:+ show_dec (octet x 3).

(** The longest run of zero segments, the first one if there are several: its start
    and its length. [cur] is the run that ends before position [i]. *)
Fixpoint zero_run (l : list Z) (i : nat) (cur longest : nat * nat) : nat * nat :=
  match l with
  | [] => longest
  | s :: l =>
      if s =? 0 then
        let cur := (if decide (snd cur = 0%nat) then i else fst cur, S (snd cur)) in
        zero_run l (S i) cur (if (snd longest <? snd cur)%nat then cur else longest)
      else zero_run l (S i) (0%nat, 0%nat) longest
  end.

Definition show_v6 (x : Z) : string :=
  match to_ipv4_mapped x with
  | Some v4 => "::ffff:" +:+ show_v4 v4
  | None =>
      let l := segments x in
      let '(start, len) := zero_run l 0 (0%nat, 0%nat) (0%nat, 0%nat) in
      if (1 <? len)%nat then show_segments (take start l) +:+ "::" +:+ show_segments (drop (start + len) l)
      else show_segments l
  end.

Definition show_ip (ip : IpAddr) : string := match ip with V4 x => show_v4 x | V6 x => show_v6 x end.

(** ** Private addresses *)

Definition check_ip_v4 (x : Z) : bool :=
  v4_is_private x || v4_is_loopback x || v4_is_link_local x || v4_is_documentation x ||
  ((octet x 0 =? 192) && (octet x 1 =? 0) && (octet x 2 =? 0) && negb (octet x 3 =? 9) && negb (octet x 3 =? 10) ||
   (octet x 0 =? 100) && (Z.land (octet x 1) 0xc0 =? 0x40)).

(** The segments of [x] begin with [l]. *)
Definition segments_start (x : Z) (l : list Z) : bool := bool_decide (take (length l) (segments x) = l).

Definition check_ip_v6 (x : Z) : bool :=
  v6_is_loopback x || v6_is_unspecified x ||
  segments_start x [0; 0; 0; 0; 0; 0xffff] ||
  segments_start x [0x64; 0xff9b; 1] ||
  segments_start x [0x100; 0; 0; 0] ||
  (segments_start x [0x2001] && (segment x 1 <? 0x200) &&
   negb ((x =? 0x20010001000000000000000000000001) ||
         (x =? 0x20010001000000000000000000000002) ||
         segments_start x [0x2001; 3] ||
         segments_start x [0x2001; 4; 0x112] ||
         (segments_start x [0x2001] && (0x20 <=? segment x 1) && (segment x 1 <=? 0x3f)))) ||
  segments_start x [0x2002] ||
  segments_start x [0x5f00] ||
  v6_is_unique_local x || v6_is_unicast_link_local x.

Definition is_private_ip (ip : IpAddr) : bool :=
  match ip with
  | V4 x => check_ip_v4 x
  | V6 x => match to_ipv4_mapped x with Some v4 => check_ip_v4 v4 | None => check_ip_v6 x end
  end.

Definition normalize_ip (ip : IpAddr) : IpAddr :=
  match ip with
  | V6 x => match to_ipv4_mapped x with Some v4 => V4 v4 | None => ip end
  | V4 _ => ip
  end.

(** ** Peer addresses *)

Record PeerAddr : Type := mkPeerAddr { socket_addr : SocketAddr }.

#[export] Instance peer_addr_eq_dec : EqDecision PeerAddr.
Proof. solve_decision. Defined.

Definition ip_of (a : PeerAddr) : IpAddr := socket_ip (socket_addr a).
Definition port_of (a : PeerAddr) : Z := socket_port (socket_addr a).

(** [PartialEq] *)
Definition addr_eqb (a other : PeerAddr) : bool :=
  let ip := normalize_ip (ip_of a) in
  let other_ip := normalize_ip (ip_of other) in
  if is_private_ip ip then bool_decide (ip = other_ip) && (port_of a =? port_of other) else bool_decide (ip = other_ip).

(** [Hash]: what is fed to the hasher. *)
Definition addr_hash (a : PeerAddr) : SocketAddr + IpAddr :=
  let ip := normalize_ip (ip_of a) in
  if is_private_ip ip then inl (socket_new ip (port_of a)) else inr ip.

Definition as_key (a : PeerAddr) : string :=
  let ip := normalize_ip (ip_of a) in
  if is_private_ip ip then show_ip ip +:+ ":" +:+ show_dec (port_of a) else show_ip ip.

Definition as_ip_key (a : PeerAddr) : string := show_ip (normalize_ip (ip_of a)).

Definition matches_filter (a peer_addr : PeerAddr) : bool :=
  let same_ip := bool_decide (normalize_ip (ip_of a) = normalize_ip (ip_of peer_addr)) in
  if is_private_ip (ip_of a) then same_ip && ((port_of a =? port_of peer_addr) || (port_of a =? 0)) else same_ip.

#[export] Instance peer_addr_writeable : Writeable PeerAddr := fun w a =>
  match ip_of a with
  | V4 x => write_u8 w 0 +w+ write_fixed_bytes w [octet x 0; octet x 1; octet x 2; octet x 3] +w+ write_u16 w (port_of a)
  | V6 x => write_u8 w 1 +w+ foldr (fun s r => write_u16 w s +w+ r) (Ok []) (segments x) +w+ write_u16 w (port_of a)
  end.

(** [n] numbers of 16 bits *)
Fixpoint read_u16s {R} `{Reader R} (n : nat) (r : R) : result ser_error (list Z * R) :=
  match n with
  | O => Ok ([], r)
  | S n => let? (x, r) := read_u16 r in let? (l, r) := read_u16s n r in Ok (x :: l, r)
  end.

#[export] Instance peer_addr_readable : Readable PeerAddr := fun R _ r =>
  let? (v4_or_v6, r) := read_u8 r in
  if v4_or_v6 =? 0 then
    let? (ip, r) := read_fixed_bytes r 4 in
    let? (port, r) := read_u16 r in
    Ok (mkPeerAddr (socket_new (V4 (be_value ip)) port), r)
  else
    let? (ip, r) := read_u16s 8 r in
    let ipv6 := v6_new ip in
    let? (port, r) := read_u16 r in
    match to_ipv4 ipv6 with
    | Some ipv4 => Ok (mkPeerAddr (socket_new (V4 ipv4) port), r)
    | None => Ok (mkPeerAddr (socket_new (V6 ipv6) port), r)
    end.

(** Lists of addresses: [PeerAddrs] of [src/p2p/src/msg.rs]. *)
Record PeerAddrs : Type := mkPeerAddrs { addrs : list PeerAddr }.

Definition matches_addr (l : PeerAddrs) (a : PeerAddr) : bool := existsb (fun p => matches_filter p a) (addrs l).

Definition difference (l : PeerAddrs) (other : list PeerAddr) : PeerAddrs :=
  mkPeerAddrs (filter (fun x => existsb (fun p => matches_filter p x) other = false) (addrs l)).

Definition MAX_PEER_ADDRS : Z := 256.

(** The number of addresses is checked before any of them is read. *)
#[export] Instance peer_addrs_writeable : Writeable PeerAddrs := fun w l =>
  write_u32 w (wrap 32 (Z.of_nat (length (addrs l)))) +w+ write_vec w (addrs l).

Fixpoint read_addrs {R} `{Reader R} (n : nat) (r : R) : result ser_error (list PeerAddr * R) :=
  match n with
  | O => Ok ([], r)
  | S n => let? (a, r) := read r in let? (l, r) := read_addrs n r in Ok (a :: l, r)
  end.

#[export] Instance peer_addrs_readable : Readable PeerAddrs := fun R _ r =>
  let? (peer_count, r) := read_u32 r in
  if MAX_PEER_ADDRS <? peer_count then Err TooLargeReadErr
  else if peer_count =? 0 then Ok (mkPeerAddrs [], r)
  else
    let? (l, r) := read_addrs (Z.to_nat peer_count) r in
    Ok (mkPeerAddrs l, r).

(** ** Flags and enumerations *)

Module Capabilities.
Definition UNKNOWN : Z := 0.
Definition HEADER_HIST : Z := 1.
Definition TXHASHSET_HIST : Z := 2.
Definition PEER_LIST : Z := 4.
Definition TX_KERNEL_HASH : Z := 8.
Definition PIBD_HIST : Z := 16.
Definition BLOCK_HIST : Z := 32.
Definition PIBD_HIST_1 : Z := 64.
Definition PIHD_HIST : Z := 128.
Definition all : Z := 255.
Definition from_bits_truncate (x : Z) : Z := Z.land x all.
Definition contains (a b : Z) : bool := Z.land a b =? b.
Definition default : Z :=
  Z.lor HEADER_HIST (Z.lor TXHASHSET_HIST (Z.lor PEER_LIST (Z.lor TX_KERNEL_HASH (Z.lor PIBD_HIST (Z.lor PIBD_HIST_1 PIHD_HIST))))).
End Capabilities.

Inductive Direction : Type := Inbound | Outbound.

#[export] Instance direction_eq_dec : EqDecision Direction.
Proof. solve_decision. Defined.

Inductive ReasonForBan : Type :=
| NoReason | BadBlock | BadCompactBlock | BadBlockHeader | BadTxHashSet | ManualBan | FraudHeight | BadHandshake.

#[export] Instance reason_eq_dec : EqDecision ReasonForBan.
Proof. solve_decision. Defined.

Definition reason_code (r : ReasonForBan) : Z :=
  match r with
  | NoReason => 0 | BadBlock => 1 | BadCompactBlock => 2 | BadBlockHeader => 3
  | BadTxHashSet => 4 | ManualBan => 5 | FraudHeight => 6 | BadHandshake => 7
  end.

Definition reason_from_i32 (x : Z) : option ReasonForBan :=
  match x with
  | 0 => Some NoReason | 1 => Some BadBlock | 2 => Some BadCompactBlock | 3 => Some BadBlockHeader
  | 4 => Some BadTxHashSet | 5 => Some ManualBan | 6 => Some FraudHeight | 7 => Some BadHandshake
  | _ => None
  end.

Example show_loopback : show_ip (V6 1) = "::1".
Proof. vm_compute. reflexivity. Qed.
Example show_local : show_ip (V6 (v6_new [0xfe80; 0; 0; 0x12; 0; 0; 0; 0xab1])) = "fe80:0:0:12::ab1".
Proof. vm_compute. reflexivity. Qed.
Example show_four : show_ip (V4 (v4_new 192 168 0 7)) = "192.168.0.7".
Proof. vm_compute. reflexivity. Qed.

(** ** Identity *)

(** A [HashMap] needs equal keys to have equal hashes; the store needs them to have
    the same key. *)
Lemma addr_eqb_hash a b : addr_eqb a b = true -> addr_hash a = addr_hash b /\ as_key a = as_key b.
Proof.
  unfold addr_eqb, addr_hash, as_key.
  destruct (is_private_ip (normalize_ip (ip_of a))) eqn:E.
  - rewrite andb_true_iff, bool_decide_eq_true, Z.eqb_eq. intros [<- <-]. rewrite E. done.
  - rewrite bool_decide_eq_true. intros <-. by rewrite E.
Qed.

(** The identity of a peer. *)
Definition addr_id (a : PeerAddr) : IpAddr * option Z :=
  let ip := normalize_ip (ip_of a) in (ip, if is_private_ip ip then Some (port_of a) else None).

Lemma addr_eqb_id a b : addr_eqb a b = true <-> addr_id a = addr_id b.
Proof.
  unfold addr_eqb, addr_id. set (ia := normalize_ip (ip_of a)). set (ib := normalize_ip (ip_of b)).
  destruct (is_private_ip ia) eqn:E.
  - rewrite andb_true_iff, bool_decide_eq_true, Z.eqb_eq. split.
    + intros [H1 H2]. rewrite H1 in E |- *. rewrite E. congruence.
    + intros [= H1 H2]. rewrite <- H1, E in H2. naive_solver.
  - rewrite bool_decide_eq_true. split.
    + intros H1. rewrite H1 in E |- *. by rewrite E.
    + by intros [= H1 H2].
Qed.

Lemma addr_eqb_refl a : addr_eqb a a = true.
Proof. by apply addr_eqb_id. Qed.

(** ** Round trip *)

Definition valid_ip (ip : IpAddr) : Prop :=
  match ip with V4 x => 0 <= x < 2 ^ 32 | V6 x => 0 <= x < 2 ^ 128 end.
Definition valid_addr (a : PeerAddr) : Prop :=
  exists ip port, valid_ip ip /\ 0 <= port < 2 ^ 16 /\ a = mkPeerAddr (socket_new ip port).

Lemma socket_ip_new ip port : valid_ip ip -> 0 <= port < 2 ^ 16 -> socket_ip (socket_new ip port) = ip.
Proof.
  intros Hi Hp. unfold socket_ip, socket_new. destruct ip as [x|x]; cbn in Hi.
  - destruct (Z.ltb_spec (x * 2 ^ 16 + port) (2 ^ 48)); [|lia].
    f_equal. rewrite Z.div_add_l by lia. rewrite Z.div_small by lia. lia.
  - destruct (Z.ltb_spec (2 ^ 48 + x * 2 ^ 16 + port) (2 ^ 48)); [lia|].
    f_equal. replace (2 ^ 48 + x * 2 ^ 16 + port - 2 ^ 48) with (x * 2 ^ 16 + port) by lia.
    rewrite Z.div_add_l by lia. rewrite Z.div_small by lia. lia.
Qed.

Lemma socket_port_new ip port : 0 <= port < 2 ^ 16 -> socket_port (socket_new ip port) = port.
Proof.
  intros Hp. unfold socket_port, socket_new. destruct ip as [x|x].
  - rewrite Z.add_comm, Z.mod_add by lia. apply Z.mod_small. lia.
  - replace (2 ^ 48 + x * 2 ^ 16 + port) with (port + (2 ^ 32 + x) * 2 ^ 16) by lia.
    rewrite Z.mod_add by lia. apply Z.mod_small. lia.
Qed.

(** The digits of a number in a base, the highest first. *)
Fixpoint digits (base : Z) (n : nat) (x : Z) : list Z :=
  match n with
  | O => []
  | S n => (x / base ^ Z.of_nat n) mod base :: digits base n x
  end.

Lemma fold_digits base n x a :
  0 < base ->
  fold_left (fun y d => y * base + d) (digits base n x) a = a * base ^ Z.of_nat n + x mod base ^ Z.of_nat n.
Proof.
  intros Hb. revert a. induction n as [|n IH]; intros a; cbn [digits fold_left].
  - rewrite Z.pow_0_r, Z.mod_1_r. lia.
  - rewrite IH, Nat2Z.inj_succ, Z.pow_succ_r by lia.
    assert (0 < base ^ Z.of_nat n) by (apply Z.pow_pos_nonneg; lia).
    rewrite (Z.mul_comm base), Z.rem_mul_r by lia. lia.
Qed.

Lemma segments_digits x : segments x = digits (2 ^ 16) 8 x.
Proof. unfold segments, segment, digits. cbn [map]. rewrite !Z.shiftr_div_pow2 by lia. done. Qed.

Lemma octets_digits x : [octet x 0; octet x 1; octet x 2; octet x 3] = digits (2 ^ 8) 4 x.
Proof. unfold octet, digits. rewrite !Z.shiftr_div_pow2 by lia. done. Qed.

Lemma v6_segments x : 0 <= x < 2 ^ 128 -> v6_new (segments x) = x.
Proof.
  intros Hx. unfold v6_new. rewrite segments_digits, fold_digits by lia.
  change ((2 ^ 16) ^ Z.of_nat 8) with (2 ^ 128). rewrite Z.mod_small; lia.
Qed.

Lemma v4_octets x : 0 <= x < 2 ^ 32 -> be_value [octet x 0; octet x 1; octet x 2; octet x 3] = x.
Proof.
  intros Hx. rewrite octets_digits. unfold be_value.
  rewrite <- (Z.mod_small x (2 ^ 32)) at 2 by lia.
  transitivity (fold_left (fun y d => y * 2 ^ 8 + d) (digits (2 ^ 8) 4 x) 0).
  - generalize (digits (2 ^ 8) 4 x), 0. intros l. induction l as [|d l IH]; intros a; cbn [fold_left]; [done|].
    rewrite <- IH. f_equal. lia.
  - rewrite fold_digits by lia. by change ((2 ^ 8) ^ Z.of_nat 4) with (2 ^ 32).
Qed.

Section read.
Context {R : Type} {RD : Reader R} {RL : ReaderLaws R}.

Lemma read_u16s_ok l r tl :
  Forall (fun s => in_range 16 s) l -> input r = concat (map (be 2) l) ++ tl ->
  exists r', read_u16s (length l) r = Ok (l, r') /\ advanced input r r' tl.
Proof.
  intros Hl. revert r. induction Hl as [|s l Hs Hl IH]; intros r Hin; cbn [length read_u16s].
  - exists r. by split.
  - cbn [map concat] in Hin. rewrite <- app_assoc in Hin.
    destruct (read_u16_ok r s _ Hs Hin) as (r1 & -> & Ha). cbn [rbind].
    destruct (IH r1) as (r2 & -> & Hb); [apply Ha|]. cbn [rbind]. exists r2. split; [done|].
    by eapply advanced_trans.
Qed.
End read.

(** The address that is read back: an IPv4 address in the form of an IPv6 address
    comes back as the IPv4 address. *)
Definition addr_as_read (a : PeerAddr) : PeerAddr :=
  match ip_of a with
  | V6 x => match to_ipv4 x with Some v4 => mkPeerAddr (socket_new (V4 v4) (port_of a)) | None => a end
  | V4 _ => a
  end.

Lemma fold_segments w l : foldr (fun s r => write_u16 w s +w+ r) (Ok []) l = Ok (concat (map (be 2) l)).
Proof. induction l as [|s l IH]; cbn [foldr map concat]; [done|]. by rewrite IH. Qed.

Lemma segment_range x i : in_range 16 (segment x i).
Proof. unfold segment, in_range. apply Z.mod_pos_bound. lia. Qed.

Lemma peer_addr_reads a v :
  valid_addr a ->
  exists bs, write (mkWriter SerFull v) a = Ok bs /\
    forall R (RD : Reader R) (RL : ReaderLaws R) (r : R) tl,
      input r = bs ++ tl -> exists r', read r = Ok (addr_as_read a, r') /\ advanced input r r' tl.
Proof.
  intros (ip & port & Hi & Hp & ->). unfold write, peer_addr_writeable, addr_as_read, ip_of, port_of. cbn [socket_addr].
  rewrite socket_ip_new, socket_port_new by done.
  destruct ip as [x|x]; cbn in Hi; rewrite ?fold_segments; unfold write_u8, write_u16, write_fixed_bytes.
  - eexists. split; [cbn [wseq rbind]; reflexivity|]. intros R RD RL r tl Hin.
    rewrite <- !app_assoc in Hin. cbn [app] in Hin.
    unfold read, peer_addr_readable.
    destruct (read_u8_ok r 0 _ ltac:(unfold in_range; lia) Hin) as (r1 & -> & Ha). cbn [rbind Z.eqb].
    pose proof Ha as [Hin1 _].
    destruct (read_fixed_ok r1 4 [octet x 0; octet x 1; octet x 2; octet x 3] (be 2 port ++ tl)) as (r2 & -> & Hb);
      [done|unfold MAX_READ_SIZE; lia|exact Hin1|]. cbn [rbind]. pose proof Hb as [Hin2 _].
    destruct (read_u16_ok r2 port tl Hp Hin2) as (r3 & -> & Hc). cbn [rbind].
    rewrite v4_octets by done. exists r3. split; [done|]. do 2 (eapply advanced_trans; [eassumption|]). done.
  - eexists. split; [cbn [wseq rbind]; reflexivity|]. intros R RD RL r tl Hin.
    rewrite <- !app_assoc in Hin. cbn [app] in Hin.
    unfold read, peer_addr_readable.
    destruct (read_u8_ok r 1 _ ltac:(unfold in_range; lia) Hin) as (r1 & -> & Ha). cbn [rbind Z.eqb].
    pose proof Ha as [Hin1 _].
    destruct (read_u16s_ok (segments x) r1 (be 2 port ++ tl)) as (r2 & E2 & Hb);
      [unfold segments; repeat constructor; apply segment_range|exact Hin1|].
    change (length (segments x)) with 8%nat in E2. rewrite E2. cbn [rbind]. pose proof Hb as [Hin2 _].
    destruct (read_u16_ok r2 port tl Hp Hin2) as (r3 & -> & Hc). cbn [rbind].
    rewrite v6_segments by done.
    exists r3. split; [by destruct (to_ipv4 x)|]. do 2 (eapply advanced_trans; [eassumption|]). done.
Qed.

Lemma addr_as_read_valid a : valid_addr a -> valid_addr (addr_as_read a).
Proof.
  intros (ip & port & Hi & Hp & ->). unfold addr_as_read, ip_of, port_of. cbn [socket_addr].
  rewrite socket_ip_new, socket_port_new by done.
  destruct ip as [x|x]; [by exists (V4 x), port|].
  unfold to_ipv4. destruct (_ || _); [|by exists (V6 x), port].
  exists (V4 (x mod 2 ^ 32)), port. split_and!; [|lia|lia|done]. cbn. apply Z.mod_pos_bound. lia.
Qed.

Lemma addr_as_read_idem a : valid_addr a -> addr_as_read (addr_as_read a) = addr_as_read a.
Proof.
  intros (ip & port & Hi & Hp & ->). unfold addr_as_read at 2 3, ip_of, port_of. cbn [socket_addr].
  rewrite socket_ip_new, socket_port_new by done.
  destruct ip as [x|x]; [unfold addr_as_read, ip_of; cbn [socket_addr]; by rewrite socket_ip_new|].
  unfold to_ipv4. destruct (_ || _) eqn:E.
  - unfold addr_as_read, ip_of. cbn [socket_addr]. rewrite socket_ip_new; [done| |done]. cbn. apply Z.mod_pos_bound. lia.
  - unfold addr_as_read, ip_of. cbn [socket_addr]. rewrite socket_ip_new by done. unfold to_ipv4. by rewrite E.
Qed.

Lemma is_private_normal a : is_private_ip (ip_of a) = is_private_ip (normalize_ip (ip_of a)).
Proof.
  destruct (ip_of a) as [x|x]; [done|]. cbn [normalize_ip is_private_ip].
  destruct (to_ipv4_mapped x) as [v4|] eqn:E; [done|]. cbn. by rewrite E.
Qed.

(** Peer addresses: equality of addresses is an equivalence, equal addresses
    have the same hash and the same key in the store, a filter that is an equal
    address matches. An address that is written
    is read back, by any reader, as the same peer; except that an IPv6 address whose upper 96 bits
    are zero, such as the loopback address, comes back as another peer. *)
Theorem peer_addresses_identify a b v :
  valid_addr a -> valid_addr b ->
  (addr_eqb a b = true <-> addr_id a = addr_id b) /\
  (addr_eqb a b = true -> addr_hash a = addr_hash b /\ as_key a = as_key b /\ as_ip_key a = as_ip_key b /\ matches_filter a b = true) /\
  (exists bs, write (mkWriter SerFull v) a = Ok bs /\
    forall R (RD : Reader R) (RL : ReaderLaws R) (r : R) tl,
      input r = bs ++ tl -> exists r', read r = Ok (addr_as_read a, r') /\ advanced input r r' tl) /\
  (addr_eqb (addr_as_read a) a = true <-> match ip_of a with V6 x => x / 2 ^ 32 <> 0 | V4 _ => True end).
Proof.
  intros Ha Hb. split_and!; [apply addr_eqb_id| |by apply peer_addr_reads|].
  - intros E. destruct (addr_eqb_hash a b E) as [E1 E2]. split_and!; [done|done| |].
    + apply addr_eqb_id in E. unfold addr_id in E. unfold as_ip_key. by injection E as -> _.
    + apply addr_eqb_id in E. unfold addr_id in E. unfold matches_filter.
      rewrite is_private_normal. injection E as E3 E4. rewrite E3 in E4 |- *. rewrite bool_decide_eq_true_2 by done.
      destruct (is_private_ip _); [|done]. injection E4 as ->. by rewrite Z.eqb_refl.
  - destruct Ha as (ip & port & Hi & Hp & ->). unfold addr_as_read, ip_of, port_of. cbn [socket_addr].
    rewrite socket_ip_new, socket_port_new by done.
    destruct ip as [x|x]; [split; [done|intros _; apply addr_eqb_refl]|].
    unfold to_ipv4. destruct (Z.eqb_spec (x / 2 ^ 32) 0xffff) as [E|E]; cbn [orb].
    + split; [intros _; lia|intros _]. apply addr_eqb_id. unfold addr_id, ip_of, port_of. cbn [socket_addr].
      assert (valid_ip (V4 (x mod 2 ^ 32))) by (cbn; apply Z.mod_pos_bound; lia).
      rewrite !socket_ip_new, !socket_port_new by done. cbn [normalize_ip]. unfold to_ipv4_mapped.
      rewrite (proj2 (Z.eqb_eq _ _) E). done.
    + destruct (Z.eqb_spec (x / 2 ^ 32) 0) as [E0|E0].
      * split; [|by intros []]. intros H. exfalso. apply addr_eqb_id in H. unfold addr_id, ip_of, port_of in H. cbn [socket_addr] in H.
        assert (valid_ip (V4 (x mod 2 ^ 32))) by (cbn; apply Z.mod_pos_bound; lia).
        rewrite !socket_ip_new, !socket_port_new in H by done. cbn [normalize_ip] in H. unfold to_ipv4_mapped in H.
        rewrite (proj2 (Z.eqb_neq _ _) E) in H. apply (f_equal fst) in H. cbn [fst] in H. discriminate H.
      * split; [intros _; exact E0|]. intros _. apply addr_eqb_refl.
Qed.

(** Two peers whose addresses are written the same way share a record. *)
Definition loopback_peer : PeerAddr := mkPeerAddr (socket_new (V6 1) 1234).
Definition colliding_peer : PeerAddr := mkPeerAddr (socket_new (V6 0x11234) 3414).

Lemma store_keys_collide :
  addr_eqb loopback_peer colliding_peer = false /\ as_key loopback_peer = as_key colliding_peer.
Proof. split; vm_compute; reflexivity. Qed.

Lemma loopback_valid : valid_addr loopback_peer /\ valid_addr colliding_peer.
Proof. split; [exists (V6 1), 1234|exists (V6 0x11234), 3414]; cbn; split_and!; try lia; reflexivity. Qed.

Lemma peer_addresses_identify_witness :
  valid_addr loopback_peer /\ valid_addr colliding_peer /\
  addr_eqb (addr_as_read loopback_peer) loopback_peer = false /\
  is_private_ip (ip_of loopback_peer) = true /\ is_private_ip (ip_of (addr_as_read loopback_peer)) = false.
Proof.
  destruct loopback_valid as [H1 H2]. split; [exact H1|]. split; [exact H2|].
  destruct (peer_addresses_identify loopback_peer colliding_peer local H1 H2) as (_ & _ & _ & H).
  split; [|split; vm_compute; reflexivity].
  destruct (addr_eqb _ _); [|reflexivity]. exfalso. by apply (proj1 H).
Defined.
