(* ===== verification/LinkedList.v ===== *)
(** The linked-list index of the chain database.

    Models [src/chain/src/linked_list.rs]: [MultiIndex], which keeps for each
    commitment the positions where it occurs, newest first, as a doubly linked
    list spread over database entries. The database is a [Store] of two maps,
    one per key prefix: [lists] is keyed by the commitment and [entries] by
    commitment and position (the code concatenates the 33 bytes of the
    commitment with the big-endian position, which is injective). The batch
    operations [get_ser], [put_ser] and [delete] become lookup, insert and
    delete.

    The abstract state is one list of positions per commitment; the refinement
    theorem relates every operation to the obvious operation on that list. *)

From Stdlib Require Import ZArith Lia.
From stdpp Require Import base numbers option sorting gmap list.
From S2P Require Import Prelude Ser.
Open Scope Z_scope.

Inductive index_error : Type :=
| PosMustBeIncreasing
| ExpectedHead
| ExpectedTail
| NextUnexpected
| NextMissing
| PrevUnexpected
| PrevMissing.

(** [ListWrapper] and [ListEntry]. *)
Inductive ListWrapper (T : Type) : Type :=
| Single (pos : T)
| Multi (head tail : Z).
Arguments Single {T} pos.
Arguments Multi {T} head tail.

Inductive ListEntry (T : Type) : Type :=
| Head (pos : T) (next : Z)
| Tail (pos : T) (prev : Z)
| Middle (pos : T) (next prev : Z).
Arguments Head {T} pos next.
Arguments Tail {T} pos prev.
Arguments Middle {T} pos next prev.

Definition get_pos {T} (e : ListEntry T) : T :=
  match e with Head pos _ => pos | Tail pos _ => pos | Middle pos _ _ => pos end.

(** [PosEntry] *)
Class PosEntry (T : Type) := pos : T -> Z.

(** [CommitPos] of [src/chain/src/types.rs]. *)
Record CommitPos : Type := mkCommitPos { cp_pos : Z; cp_height : Z }.
#[export] Instance commit_pos_entry : PosEntry CommitPos := cp_pos.

(** ** Serialisation of the database entries *)

#[export] Instance commit_pos_writeable : Writeable CommitPos :=
  fun w c => write_u64 w (cp_pos c) +w+ write_u64 w (cp_height c).
#[export] Instance commit_pos_readable : Readable CommitPos :=
  fun R _ r =>
    let? (p, r) := read_u64 r in
    let? (h, r) := read_u64 r in
    Ok (mkCommitPos p h, r).

#[export] Instance list_wrapper_writeable {T} `{Writeable T} : Writeable (ListWrapper T) :=
  fun w l =>
    match l with
    | Single pos => write_u8 w 0 +w+ write w pos
    | Multi head tail => write_u8 w 1 +w+ write_u64 w head +w+ write_u64 w tail
    end.
#[export] Instance list_wrapper_readable {T} `{Readable T} : Readable (ListWrapper T) :=
  fun R _ r =>
    let? (v, r) := read_u8 r in
    if v =? 0 then let? (pos, r) := read r in Ok (Single pos, r)
    else if v =? 1 then
      let? (head, r) := read_u64 r in
      let? (tail, r) := read_u64 r in
      Ok (Multi head tail, r)
    else Err CorruptedData.

#[export] Instance list_entry_writeable {T} `{Writeable T} : Writeable (ListEntry T) :=
  fun w e =>
    match e with
    | Head pos next => write_u8 w 2 +w+ write w pos +w+ write_u64 w next
    | Tail pos prev => write_u8 w 3 +w+ write w pos +w+ write_u64 w prev
    | Middle pos next prev =>
        write_u8 w 4 +w+ write w pos +w+ write_u64 w next +w+ write_u64 w prev
    end.
#[export] Instance list_entry_readable {T} `{Readable T} : Readable (ListEntry T) :=
  fun R _ r =>
    let? (v, r) := read_u8 r in
    if v =? 2 then
      let? (pos, r) := read r in let? (next, r) := read_u64 r in Ok (Head pos next, r)
    else if v =? 3 then
      let? (pos, r) := read r in let? (prev, r) := read_u64 r in Ok (Tail pos prev, r)
    else if v =? 4 then
      let? (pos, r) := read r in
      let? (next, r) := read_u64 r in
      let? (prev, r) := read_u64 r in
      Ok (Middle pos next prev, r)
    else Err CorruptedData.

(** ** The index *)

Section index.
Context {C T : Type} `{Countable C} {PE : PosEntry T}.

Record Store : Type := mkStore {
  lists : gmap C (ListWrapper T);
  entries : gmap (C * Z) (ListEntry T);
}.

Definition empty_store : Store := mkStore ∅ ∅.

Definition put_list (st : Store) (c : C) (l : ListWrapper T) : Store :=
  mkStore (<[c := l]> (lists st)) (entries st).
Definition delete_list (st : Store) (c : C) : Store :=
  mkStore (delete c (lists st)) (entries st).
Definition put_entry (st : Store) (c : C) (p : Z) (e : ListEntry T) : Store :=
  mkStore (lists st) (<[(c, p) := e]> (entries st)).
Definition delete_entry (st : Store) (c : C) (p : Z) : Store :=
  mkStore (lists st) (delete (c, p) (entries st)).

Definition get_list (st : Store) (commit : C) : option (ListWrapper T) := lists st !! commit.
Definition get_entry (st : Store) (commit : C) (p : Z) : option (ListEntry T) :=
  entries st !! (commit, p).

Definition peek_pos (st : Store) (commit : C) : result index_error (option T) :=
  match get_list st commit with
  | None => Ok None
  | Some (Single pos) => Ok (Some pos)
  | Some (Multi head _) =>
      match get_entry st commit head with
      | Some (Head pos _) => Ok (Some pos)
      | _ => Err ExpectedHead
      end
  end.

Definition push_pos (st : Store) (commit : C) (new_pos : T) : result index_error Store :=
  match get_list st commit with
  | None => Ok (put_list st commit (Single new_pos))
  | Some (Single current_pos) =>
      if pos new_pos <=? pos current_pos then Err PosMustBeIncreasing
      else
        let head := Head new_pos (pos current_pos) in
        let tail := Tail current_pos (pos new_pos) in
        let list := Multi (pos new_pos) (pos current_pos) in
        let st := put_entry st commit (pos new_pos) head in
        let st := put_entry st commit (pos current_pos) tail in
        Ok (put_list st commit list)
  | Some (Multi head tail) =>
      if pos new_pos <=? head then Err PosMustBeIncreasing
      else
        match get_entry st commit head with
        | Some (Head current_pos current_next) =>
            let head := Head new_pos (pos current_pos) in
            let middle := Middle current_pos current_next (pos new_pos) in
            let list := Multi (pos new_pos) tail in
            let st := put_entry st commit (pos new_pos) head in
            let st := put_entry st commit (pos current_pos) middle in
            Ok (put_list st commit list)
        | _ => Err ExpectedHead
        end
  end.

Definition pop_pos (st : Store) (commit : C) : result index_error (option T * Store) :=
  match get_list st commit with
  | None => Ok (None, st)
  | Some (Single pos) => Ok (Some pos, delete_list st commit)
  | Some (Multi head tail) =>
      match get_entry st commit head with
      | Some (Head current_pos current_next) =>
          match get_entry st commit current_next with
          | Some (Middle pos' next _) =>
              let head := Head pos' next in
              let list := Multi (pos pos') tail in
              let st := delete_entry st commit (pos current_pos) in
              let st := put_entry st commit (pos pos') head in
              Ok (Some current_pos, put_list st commit list)
          | Some (Tail pos' _) =>
              let list := Single pos' in
              let st := delete_entry st commit (pos current_pos) in
              Ok (Some current_pos, put_list st commit list)
          | Some (Head _ _) => Err NextUnexpected
          | None => Err NextMissing
          end
      | _ => Err ExpectedHead
      end
  end.

Definition pop_pos_back (st : Store) (commit : C) : result index_error (option T * Store) :=
  match get_list st commit with
  | None => Ok (None, st)
  | Some (Single pos) => Ok (Some pos, delete_list st commit)
  | Some (Multi head tail) =>
      match get_entry st commit tail with
      | Some (Tail current_pos current_prev) =>
          match get_entry st commit current_prev with
          | Some (Middle pos' _ prev) =>
              let tail := Tail pos' prev in
              let list := Multi head (pos pos') in
              let st := delete_entry st commit (pos current_pos) in
              let st := put_entry st commit (pos pos') tail in
              Ok (Some current_pos, put_list st commit list)
          | Some (Head pos' _) =>
              let list := Single pos' in
              let st := delete_entry st commit (pos current_pos) in
              Ok (Some current_pos, put_list st commit list)
          | Some (Tail _ _) => Err PrevUnexpected
          | None => Err PrevMissing
          end
      | _ => Err ExpectedTail
      end
  end.

(** The [while] loop of [rewind]; [None] if [fuel] rounds are not enough. *)
Fixpoint rewind (fuel : nat) (st : Store) (commit : C) (rewind_pos : Z)
    : option (result index_error Store) :=
  match fuel with
  | O => None
  | S fuel =>
      match peek_pos st commit with
      | Err e => Some (Err e)
      | Ok x =>
          if match x with Some x => rewind_pos <? pos x | None => false end then
            match pop_pos st commit with
            | Err e => Some (Err e)
            | Ok (_, st) => rewind fuel st commit rewind_pos
            end
          else Some (Ok st)
      end
  end.

(** [clear] deletes every list and every entry of the two prefixes. *)
Definition clear (st : Store) : Store :=
  mkStore (foldr (fun '(c, _) m => delete c m) (lists st) (map_to_list (lists st)))
    (foldr (fun '(k, _) m => delete k m) (entries st) (map_to_list (entries st))).

End index.
Arguments Store C T {_ _}.

(** * Refinement *)

(** [clear] empties the index. *)
Lemma delete_all_lookup `{Countable K} {V} (m m' : gmap K V) k :
  (forall k', is_Some (m !! k') -> is_Some (m' !! k')) ->
  foldr (fun '(k, _) m => delete k m) m (map_to_list m') !! k = None.
Proof.
  intros Hsub. destruct (m !! k) as [x|] eqn:E.
  - destruct (Hsub k ltac:(eauto)) as [y Hy]. apply elem_of_map_to_list in Hy.
    induction (map_to_list m') as [|[k' y'] l IH]; [by apply elem_of_nil in Hy|]. simpl.
    destruct (decide (k' = k)) as [->|]; [apply lookup_delete_eq|].
    rewrite lookup_delete_ne by done. apply elem_of_cons in Hy as [[= -> ->]|Hy]; [done|auto].
  - induction (map_to_list m') as [|[k' y'] l IH]; [done|]. simpl.
    destruct (decide (k' = k)) as [->|]; [apply lookup_delete_eq|].
    by rewrite lookup_delete_ne.
Qed.

Lemma clear_empty {C T} `{Countable C} (st : Store C T) : clear st = empty_store.
Proof.
  unfold clear, empty_store. f_equal; apply map_eq; intros k; rewrite lookup_empty;
    by apply delete_all_lookup.
Qed.


Section refinement.
Context {C T : Type} `{Countable C} {PE : PosEntry T}.
Implicit Types (st : Store C T) (c : C) (l : list T).

(** Newest first: positions strictly decrease. *)
Definition decreasing l : Prop := StronglySorted (fun a b => pos b < pos a) l.

(** The entries of a list after its head; [prev] is the position before. *)
Fixpoint links (es : gmap (C * Z) (ListEntry T)) c (prev : Z) l : Prop :=
  match l with
  | [] => True
  | x :: l' =>
      match l' with
      | [] => es !! (c, pos x) = Some (Tail x prev)
      | y :: _ =>
          es !! (c, pos x) = Some (Middle x (pos y) prev) /\ links es c (pos x) l'
      end
  end.

Lemma links_cons2 es c prev x y l :
  links es c prev (x :: y :: l) <->
  es !! (c, pos x) = Some (Middle x (pos y) prev) /\ links es c (pos x) (y :: l).
Proof. done. Qed.

(** The list [l] as stored for one commitment. *)
Definition stored st c l : Prop :=
  match l with
  | [] => lists st !! c = None
  | [x] => lists st !! c = Some (Single x)
  | x :: (y :: _) as l' =>
      (exists z, last l' = Some z /\ lists st !! c = Some (Multi (pos x) (pos z))) /\
      entries st !! (c, pos x) = Some (Head x (pos y)) /\
      links (entries st) c (pos x) l'
  end.

Definition rep st (A : C -> list T) : Prop :=
  forall c, decreasing (A c) /\ stored st c (A c).

Definition upd (A : C -> list T) c l : C -> list T := fun c' => if decide (c' = c) then l else A c'.

(** ** Frames *)

Lemma links_frame es es' c prev l :
  (forall x, x ∈ l -> es' !! (c, pos x) = es !! (c, pos x)) ->
  links es c prev l -> links es' c prev l.
Proof.
  revert prev. induction l as [|x l IH]; intros prev Hf Hl; [done|].
  destruct l as [|y l]; simpl in *.
  - rewrite Hf; [done|by left].
  - destruct Hl as [Hx Hl]. split; [rewrite Hf; [done|by left]|].
    apply IH; [|done]. intros z Hz. apply Hf. by right.
Qed.

Lemma stored_frame st st' c l :
  lists st' !! c = lists st !! c ->
  (forall p, entries st' !! (c, p) = entries st !! (c, p)) ->
  stored st c l -> stored st' c l.
Proof.
  intros Hl He. destruct l as [|x [|y l]]; unfold stored; rewrite Hl; [done|done|].
  intros (Hm & Hh & Hk). rewrite He. split; [done|]. split; [done|].
  by apply (links_frame (entries st)).
Qed.

(** An operation on one commitment leaves the others alone. *)
Lemma rep_upd st st' A c l :
  rep st A -> decreasing l -> stored st' c l ->
  (forall c', c' <> c -> lists st' !! c' = lists st !! c' /\
                         forall p, entries st' !! (c', p) = entries st !! (c', p)) ->
  rep st' (upd A c l).
Proof.
  intros Hrep Hd Hs Hf c'. unfold upd. case_decide as Ec; [by subst|].
  destruct (Hrep c') as [Hd' Hs']. split; [done|].
  destruct (Hf c' Ec) as [Hl He]. by apply (stored_frame st).
Qed.

(** ** The operations on one list *)

Lemma links_tail_lt x l : decreasing (x :: l) -> forall z, z ∈ l -> pos z < pos x.
Proof. intros [_ Hx]%StronglySorted_inv z Hz. by eapply Forall_forall in Hx. Qed.

Ltac map_simpl :=
  repeat first
    [ rewrite lookup_insert_eq
    | rewrite lookup_insert_ne by (intros [=]; lia)
    | rewrite lookup_delete_ne by (intros [=]; lia) ].

Lemma push_stored st c l x :
  decreasing l -> stored st c l ->
  (forall y, head l = Some y -> pos y < pos x) ->
  exists st', push_pos st c x = Ok st' /\ stored st' c (x :: l) /\
    forall c', c' <> c -> lists st' !! c' = lists st !! c' /\
                         forall p, entries st' !! (c', p) = entries st !! (c', p).
Proof.
  intros Hd Hs Hgt. unfold push_pos, get_list, get_entry.
  destruct l as [|y [|z l]].
  - simpl in Hs. rewrite Hs. eexists. split; [done|]. simpl. split; [by rewrite lookup_insert_eq|].
    intros c' Hne. by rewrite lookup_insert_ne by done.
  - simpl in Hs. rewrite Hs. specialize (Hgt y eq_refl). destruct (Z.leb_spec (pos x) (pos y)); [lia|].
    eexists. split; [done|]. simpl. split.
    + map_simpl. split; [by exists y|]. done.
    + intros c' Hne. split; [by rewrite lookup_insert_ne|].
      intros p. by rewrite !lookup_insert_ne by congruence.
  - destruct Hs as ((w & Hw & ->) & Hh & Hk). specialize (Hgt y eq_refl).
    destruct (Z.leb_spec (pos x) (pos y)); [lia|]. rewrite Hh.
    eexists. split; [done|]. split.
    + cbn [stored lists entries put_list put_entry]. split; [|split].
      * exists w. by rewrite lookup_insert_eq.
      * by map_simpl.
      * apply links_cons2. map_simpl. split; [done|].
        apply (links_frame (entries st)); [|done]. intros u Hu.
        pose proof (links_tail_lt _ _ Hd u Hu). by map_simpl.
    + intros c' Hne. simpl. split; [by rewrite lookup_insert_ne|].
      intros p. by rewrite !lookup_insert_ne by congruence.
Qed.

Lemma pop_stored st c x l :
  decreasing (x :: l) -> stored st c (x :: l) ->
  exists st', pop_pos st c = Ok (Some x, st') /\ stored st' c l /\
    forall c', c' <> c -> lists st' !! c' = lists st !! c' /\
                         forall p, entries st' !! (c', p) = entries st !! (c', p).
Proof.
  intros Hd Hs. unfold pop_pos, get_list, get_entry. pose proof (links_tail_lt _ _ Hd) as Hlt.
  destruct l as [|y [|z l]].
  - simpl in Hs. rewrite Hs. eexists. split; [done|]. simpl. rewrite lookup_delete_eq. split; [done|].
    intros c' Hne. by rewrite lookup_delete_ne.
  - destruct Hs as ((w & Hw & ->) & -> & Hk). cbn [links] in Hk. rewrite Hk.
    eexists. split; [done|]. simpl. rewrite lookup_insert_eq. split; [done|].
    intros c' Hne. split; [by rewrite lookup_insert_ne|]. intros p.
    by rewrite lookup_delete_ne by congruence.
  - destruct Hs as ((w & Hw & ->) & -> & Hk). apply links_cons2 in Hk as [-> Hk].
    eexists. split; [done|]. split.
    + cbn [stored lists entries put_list put_entry delete_entry]. split; [|split].
      * exists w. by rewrite lookup_insert_eq.
      * by map_simpl.
      * apply (links_frame (entries st)); [|done]. intros u Hu.
        apply StronglySorted_inv in Hd as [Hd _]. pose proof (links_tail_lt _ _ Hd u Hu).
        pose proof (Hlt y ltac:(by left)). by map_simpl.
    + intros c' Hne. simpl. split; [by rewrite lookup_insert_ne|]. intros p.
      by rewrite lookup_insert_ne, lookup_delete_ne by congruence.
Qed.

(** The end of a linked list: dropping the last entry makes the one before it
    the tail. *)
Lemma links_snoc es c prev l a b :
  links es c prev (l ++ [a; b]) ->
  exists p, es !! (c, pos a) = Some (Middle a (pos b) p) /\
    es !! (c, pos b) = Some (Tail b (pos a)) /\
    forall es', (forall z, z ∈ l -> es' !! (c, pos z) = es !! (c, pos z)) ->
      es' !! (c, pos a) = Some (Tail a p) -> links es' c prev (l ++ [a]).
Proof.
  revert prev. induction l as [|x l IH]; intros prev Hl.
  - apply links_cons2 in Hl as [Ha Hb]. exists prev. split; [done|]. split; [done|]. by intros.
  - assert (exists y l', l ++ [a; b] = y :: l' /\ exists l'', l ++ [a] = y :: l'')
      as (y & l' & E1 & l'' & E2) by (destruct l; simpl; eauto 10).
    simpl app in Hl. rewrite E1 in Hl. apply links_cons2 in Hl as [Hx Hl]. rewrite <- E1 in Hl.
    destruct (IH (pos x) Hl) as (p & Ha & Hb & Hes). exists p. split; [done|]. split; [done|].
    intros es' Hf Ha'. simpl app. rewrite E2. apply links_cons2. rewrite <- E2. split.
    + rewrite Hf; [done|by left].
    + apply Hes; [|done]. intros z Hz. apply Hf. by right.
Qed.

Lemma decreasing_snoc l b : decreasing (l ++ [b]) -> forall z, z ∈ l -> pos b < pos z.
Proof. intros Hd z Hz. by apply (StronglySorted_app_1_elem_of _ l [b] z b Hd); [|left]. Qed.

Lemma pop_back_stored st c l b :
  decreasing (l ++ [b]) -> stored st c (l ++ [b]) ->
  exists st', pop_pos_back st c = Ok (Some b, st') /\ stored st' c l /\
    forall c', c' <> c -> lists st' !! c' = lists st !! c' /\
                         forall p, entries st' !! (c', p) = entries st !! (c', p).
Proof.
  intros Hd Hs. unfold pop_pos_back, get_list, get_entry.
  pose proof (decreasing_snoc _ _ Hd) as Hlt.
  destruct l as [|x l]; [|destruct l as [|a l _] using rev_ind].
  - simpl in Hs. rewrite Hs. eexists. split; [done|]. simpl. rewrite lookup_delete_eq. split; [done|].
    intros c' Hne. by rewrite lookup_delete_ne.
  - destruct Hs as ((w & [= <-] & ->) & Hh & Hk). cbn [links] in Hk. rewrite Hk, Hh.
    eexists. split; [done|]. simpl. rewrite lookup_insert_eq. split; [done|].
    intros c' Hne. split; [by rewrite lookup_insert_ne|]. intros p.
    by rewrite lookup_delete_ne by congruence.
  - rewrite app_comm_cons, <- app_assoc in Hs. simpl app in Hs.
    assert (exists y l', l ++ [a; b] = y :: l' /\ exists l'', l ++ [a] = y :: l'')
      as (y & l' & E1 & l'' & E2) by (destruct l; simpl; eauto 10).
    rewrite E1 in Hs. destruct Hs as ((w & Hw & ->) & Hh & Hk). rewrite <- E1 in Hw, Hk.
    change [a; b] with ([a] ++ [b]) in Hw. rewrite app_assoc, last_snoc in Hw. injection Hw as <-.
    apply links_snoc in Hk as (p & Ha & -> & Hes). rewrite Ha.
    eexists. split; [done|]. split.
    + assert (Hxa : pos a < pos x) by
        (rewrite <- app_comm_cons in Hd; eapply links_tail_lt;
           [exact Hd|rewrite !elem_of_app, !list_elem_of_singleton; auto]).
      pose proof (Hlt a ltac:(right; apply elem_of_app; right; by left)).
      pose proof (Hlt x ltac:(by left)).
      assert (Hla : forall z, z ∈ l -> pos a < pos z).
      { apply decreasing_snoc. rewrite <- app_comm_cons in Hd.
        apply StronglySorted_inv in Hd as [Hd _]. by eapply StronglySorted_app_1_l. }
      rewrite E2. cbn [stored lists entries put_list put_entry delete_entry].
      rewrite <- E2. split; [|split].
      * exists a. rewrite last_snoc. by rewrite lookup_insert_eq.
      * by map_simpl.
      * apply Hes; [|by map_simpl]. intros z Hz. pose proof (Hla z Hz). by map_simpl.
    + intros c' Hne. simpl. split; [by rewrite lookup_insert_ne|]. intros q.
      by rewrite lookup_insert_ne, lookup_delete_ne by congruence.
Qed.

Lemma peek_stored st c l : stored st c l -> peek_pos st c = Ok (head l).
Proof.
  intros Hs. unfold peek_pos, get_list, get_entry.
  destruct l as [|x [|y l]]; [by simpl in Hs; rewrite Hs|by simpl in Hs; rewrite Hs|].
  by destruct Hs as ((w & _ & ->) & -> & _).
Qed.

(** Drop the positions after the rewind position. *)
Fixpoint drop_after (rewind_pos : Z) l : list T :=
  match l with
  | [] => []
  | x :: l' => if rewind_pos <? pos x then drop_after rewind_pos l' else l
  end.

Lemma rewind_stored fuel st c l p :
  (length l < fuel)%nat -> decreasing l -> stored st c l ->
  exists st', rewind fuel st c p = Some (Ok st') /\ decreasing (drop_after p l) /\
    stored st' c (drop_after p l) /\
    forall c', c' <> c -> lists st' !! c' = lists st !! c' /\
                         forall q, entries st' !! (c', q) = entries st !! (c', q).
Proof.
  revert st l. induction fuel as [|fuel IH]; intros st l Hf Hd Hs; [lia|].
  cbn [rewind]. rewrite (peek_stored st c l Hs).
  destruct l as [|x l]; cbn [head drop_after]; [by exists st|].
  destruct (Z.ltb_spec p (pos x)); [|by exists st].
  destruct (pop_stored st c x l Hd Hs) as (st1 & -> & Hs1 & Hf1). simpl in Hf.
  apply StronglySorted_inv in Hd as [Hd _].
  destruct (IH st1 l ltac:(lia) Hd Hs1) as (st2 & -> & Hd2 & Hs2 & Hf2).
  exists st2. split; [done|]. split; [done|]. split; [done|]. intros c' Hne.
  destruct (Hf1 c' Hne) as [L1 E1]. destruct (Hf2 c' Hne) as [L2 E2].
  split; [congruence|]. intros q. by rewrite E2, E1.
Qed.

(** ** Sequences of operations *)

Inductive iop : Type :=
| IPush (c : C) (x : T)
| IPop (c : C)
| IPopBack (c : C)
| IPeek (c : C)
| IRewind (c : C) (rewind_pos : Z)
| IClear.

(** One operation on the database: the answer and the new state. An error
    leaves the batch as it was. *)
Definition exec (fuel : nat) st (o : iop) : option (result index_error (option T) * Store C T) :=
  match o with
  | IPush c x =>
      Some (match push_pos st c x with Ok st' => (Ok None, st') | Err e => (Err e, st) end)
  | IPop c =>
      Some (match pop_pos st c with Ok (r, st') => (Ok r, st') | Err e => (Err e, st) end)
  | IPopBack c =>
      Some (match pop_pos_back st c with Ok (r, st') => (Ok r, st') | Err e => (Err e, st) end)
  | IPeek c => Some (peek_pos st c, st)
  | IRewind c p =>
      let! r := rewind fuel st c p in
      Some (match r with Ok st' => (Ok None, st') | Err e => (Err e, st) end)
  | IClear => Some (Ok None, clear st)
  end.

(** The same on lists. *)
Definition abs_exec (A : C -> list T) (o : iop) : result index_error (option T) * (C -> list T) :=
  match o with
  | IPush c x =>
      if match head (A c) with Some y => pos x <=? pos y | None => false end
      then (Err PosMustBeIncreasing, A)
      else (Ok None, upd A c (x :: A c))
  | IPop c => (Ok (head (A c)), upd A c (tail (A c)))
  | IPopBack c => (Ok (last (A c)), upd A c (removelast (A c)))
  | IPeek c => (Ok (head (A c)), A)
  | IRewind c p => (Ok None, upd A c (drop_after p (A c)))
  | IClear => (Ok None, fun _ => [])
  end.

Fixpoint trace (fuel : nat) st (ops : list iop) : option (list (result index_error (option T))) :=
  match ops with
  | [] => Some []
  | o :: ops =>
      let! (r, st) := exec fuel st o in
      let! rs := trace fuel st ops in
      Some (r :: rs)
  end.

Fixpoint abs_trace (A : C -> list T) (ops : list iop) : list (result index_error (option T)) :=
  match ops with
  | [] => []
  | o :: ops => let '(r, A) := abs_exec A o in r :: abs_trace A ops
  end.

Lemma push_rejected st c l x y :
  stored st c l -> head l = Some y -> pos x <= pos y -> push_pos st c x = Err PosMustBeIncreasing.
Proof.
  intros Hs Hy Hle. unfold push_pos, get_list. destruct l as [|z [|w l]]; [done|..];
    injection Hy as ->.
  - simpl in Hs. rewrite Hs. by destruct (Z.leb_spec (pos x) (pos y)); [|lia].
  - destruct Hs as ((u & _ & ->) & _). by destruct (Z.leb_spec (pos x) (pos y)); [|lia].
Qed.

Lemma rep_upd_same st A c : rep st A -> rep st (upd A c (A c)).
Proof. intros Hrep. by apply (rep_upd st st A c (A c)); [|apply Hrep..|]. Qed.

Lemma empty_rep : rep empty_store (fun _ => []).
Proof. intros c. split; [constructor|]. simpl. apply lookup_empty. Qed.

Lemma exec_refines fuel st A o :
  rep st A -> (forall c, (length (A c) < fuel)%nat) ->
  exists st', exec fuel st o = Some (fst (abs_exec A o), st') /\ rep st' (snd (abs_exec A o)).
Proof.
  intros Hrep Hf. destruct o as [c x|c|c|c|c p|]; cbn [exec abs_exec];
    [destruct (Hrep c) as [Hd Hs]..|].
  - destruct (match head (A c) with Some y => pos x <=? pos y | None => false end) eqn:Egt.
    + destruct (head (A c)) as [y|] eqn:Ey; [|done]. apply Z.leb_le in Egt.
      rewrite (push_rejected st c (A c) x y Hs Ey Egt). by exists st.
    + destruct (push_stored st c (A c) x Hd Hs) as (st' & -> & Hs' & Hfr).
      { intros y Ey. rewrite Ey in Egt. apply Z.leb_gt in Egt. lia. }
      exists st'. split; [done|]. apply (rep_upd st); [done| |done|done].
      constructor; [done|]. destruct (A c) as [|y l]; [constructor|].
      apply Z.leb_gt in Egt. apply Forall_forall. intros z [->|Hz]%elem_of_cons; [done|].
      pose proof (links_tail_lt _ _ Hd z Hz). lia.
  - destruct (A c) as [|x l] eqn:EA.
    + unfold pop_pos, get_list. simpl in Hs. rewrite Hs. exists st. split; [done|].
      simpl. rewrite <- EA. by apply rep_upd_same.
    + destruct (pop_stored st c x l Hd Hs) as (st' & -> & Hs' & Hfr). exists st'.
      split; [done|]. apply StronglySorted_inv in Hd as [Hd _]. by apply (rep_upd st).
  - destruct (A c) as [|b l _] eqn:EA using rev_ind.
    + unfold pop_pos_back, get_list. simpl in Hs. rewrite Hs. exists st. split; [done|].
      simpl. rewrite <- EA. by apply rep_upd_same.
    + destruct (pop_back_stored st c l b Hd Hs) as (st' & -> & Hs' & Hfr). exists st'.
      rewrite last_snoc, removelast_last. split; [done|].
      apply StronglySorted_app_1_l in Hd. by apply (rep_upd st).
  - rewrite (peek_stored st c (A c) Hs). by exists st.
  - destruct (rewind_stored fuel st c (A c) p (Hf c) Hd Hs) as (st' & -> & Hd' & Hs' & Hfr).
    exists st'. split; [done|]. by apply (rep_upd st).
  - rewrite clear_empty. exists empty_store. split; [done|]. apply empty_rep.
Qed.

Lemma drop_after_length p l : (length (drop_after p l) <= length l)%nat.
Proof. induction l as [|x l IH]; simpl; [lia|]. destruct (p <? pos x); simpl; lia. Qed.

Lemma abs_exec_length A o c :
  (length (snd (abs_exec A o) c) <= S (length (A c)))%nat.
Proof.
  assert (Hupd : forall c' l, (length l <= S (length (A c')))%nat ->
            (length (upd A c' l c) <= S (length (A c)))%nat).
  { intros c' l Hl. unfold upd. case_decide; subst; lia. }
  destruct o as [c' x|c'|c'|c'|c' p|]; cbn [abs_exec];
    [case_match; [cbn [snd]; lia|]|..]; cbn [snd]; try apply Hupd; simpl; try lia.
  - destruct (A c'); simpl; lia.
  - destruct (A c') as [|b l _] using rev_ind; [simpl; lia|].
    rewrite removelast_last, length_app. lia.
  - pose proof (drop_after_length p (A c')). lia.
Qed.

Lemma trace_refines fuel st A ops :
  rep st A -> (forall c, (length (A c) + length ops < fuel)%nat) ->
  trace fuel st ops = Some (abs_trace A ops).
Proof.
  revert st A. induction ops as [|o ops IH]; intros st A Hrep Hf; [done|].
  cbn [length] in Hf. cbn [trace abs_trace].
  destruct (exec_refines fuel st A o Hrep) as (st' & -> & Hrep').
  { intros c. specialize (Hf c). lia. }
  destruct (abs_exec A o) as [r A'] eqn:E. cbn [mbind option_bind fst snd] in *.
  rewrite (IH st' A' Hrep'); [done|]. intros c. specialize (Hf c).
  pose proof (abs_exec_length A o c) as Hl. rewrite E in Hl. simpl in Hl. lia.
Qed.

(** * Properties *)

(** C37. The linked-list index implements one stack of positions per
    commitment: any sequence of pushes, pops from either end, peeks, rewinds
    and clears on an empty database gives, answer by answer, what the same
    operations give on plain lists. In particular no operation ever meets a missing or
    mislabelled entry; a push is refused exactly when its position is not above
    the head; entries left behind by earlier operations never reappear; and
    the loop of [rewind] ends. *)
Theorem multi_index_refines fuel ops :
  (length ops < fuel)%nat ->
  trace fuel empty_store ops = Some (abs_trace (fun _ => []) ops).
Proof. intros Hf. apply trace_refines; [apply empty_rep|]. intros c. simpl. lia. Qed.

End refinement.

Lemma multi_index_refines_witness :
  trace 20 (empty_store (C := Z))
    [IPush 1 (mkCommitPos 5 1); IPush 1 (mkCommitPos 7 2); IPush 2 (mkCommitPos 8 2);
     IPush 1 (mkCommitPos 9 3); IPopBack 1; IRewind 1 7; IPush 1 (mkCommitPos 6 4); IPop 1; IPop 1;
     IClear; IPeek 2]
  = Some [Ok None; Ok None; Ok None; Ok None; Ok (Some (mkCommitPos 5 1)); Ok None;
          Err PosMustBeIncreasing; Ok (Some (mkCommitPos 7 2)); Ok None;
          Ok None; Ok None].
Proof. rewrite multi_index_refines; [reflexivity|simpl; lia]. Defined.

(** ** Database entries *)

Lemma read_commit_pos_ok {R} {RD : Reader R} {RL : ReaderLaws R} (r : R) c tl :
  u64 (cp_pos c) -> u64 (cp_height c) ->
  input r = (be 8 (cp_pos c) ++ be 8 (cp_height c)) ++ tl ->
  exists r', read r = Ok (c, r') /\ advanced input r r' tl.
Proof.
  intros Hp Hh Hin. rewrite <- app_assoc in Hin. unfold read, commit_pos_readable.
  read_next read_u64_ok; [exact Hp|]. read_next read_u64_ok; [exact Hh|].
  destruct c. eexists. split; [done|]. adv_chain.
Qed.

(** The database entries of the index survive serialisation: every list
    wrapper and every list entry over positions and heights is read back
    unchanged from the bytes it is written as. *)
Theorem index_entries_roundtrip v :
  (forall l : ListWrapper CommitPos,
     match l with
     | Single p => u64 (cp_pos p) /\ u64 (cp_height p)
     | Multi head tail => u64 head /\ u64 tail
     end -> roundtrips v l) /\
  (forall e : ListEntry CommitPos,
     u64 (cp_pos (get_pos e)) /\ u64 (cp_height (get_pos e)) /\
     match e with
     | Head _ n => u64 n | Tail _ n => u64 n | Middle _ n m => u64 n /\ u64 m
     end -> roundtrips v e).
Proof.
  split; [intros [p|h t] [H1 H2]|intros [p n|p n|p n m] (H1 & H2 & H3)];
    eexists; (split; [reflexivity|]); intros R RD RL r tl _ _ Hin;
    rewrite <- ?app_assoc in Hin; cbn [app] in Hin;
    unfold read, list_wrapper_readable, list_entry_readable;
    (read_next read_u8_ok; [unfold in_range; lia|]); cbn [Z.eqb Pos.eqb].
  - rewrite (app_assoc (be 8 _)) in *. read_next read_commit_pos_ok; [done..|].
    eexists. split; [done|adv_chain].
  - read_next read_u64_ok; [done|]. read_next read_u64_ok; [done|].
    eexists. split; [done|adv_chain].
  - rewrite (app_assoc (be 8 _)) in *. read_next read_commit_pos_ok; [done..|].
    read_next read_u64_ok; [done|]. eexists. split; [done|adv_chain].
  - rewrite (app_assoc (be 8 _)) in *. read_next read_commit_pos_ok; [done..|].
    read_next read_u64_ok; [done|]. eexists. split; [done|adv_chain].
  - rewrite (app_assoc (be 8 _)) in *. read_next read_commit_pos_ok; [done..|].
    read_next read_u64_ok; [apply H3|]. read_next read_u64_ok; [apply H3|].
    eexists. split; [done|adv_chain].
Qed.

Lemma index_entries_roundtrip_witness :
  roundtrips local_db (Middle (mkCommitPos 12 3) 7 20).
Proof. apply (index_entries_roundtrip local_db). simpl. unfold_words. lia. Defined.
