(* ===== verification/Kernel.v ===== *)
(** Kernels, inputs and outputs.

    Models the element types of [src/core/src/core/transaction.rs]: fee fields,
    NRD relative heights, kernel features with their two wire formats, kernels,
    output features, inputs, commitment wrappers, output identifiers and
    outputs, and [Hashed] of [src/core/src/core/hash.rs].

    The hash function (BLAKE2b of the [blake2-rfc] crate) and the operations of
    the secp256k1 library are parameters, collected in [Crypto]. Byte arrays of
    one length are ordered like the big-endian integers they spell, so the
    order of hashes and commitments is the order of [be_value] of their
    bytes. *)

From Stdlib Require Import ZArith Lia.
From stdpp Require Import base numbers option sorting list.
From S2P Require Import Prelude Consensus Ser.
Open Scope Z_scope.

(** Errors of transaction validation. *)
Inductive Error : Type :=
| Secp
| KernelSumMismatch
| TooHeavy
| LockHeight (height : Z)
| Committed
| CutThrough
| InvalidOutputFeatures
| InvalidKernelFeatures
| InvalidFeeFields
| InvalidNRDRelativeHeight
| IncorrectSignature
| Serialization (e : ser_error).

(** ** Fee fields *)

Record FeeFields : Type := mkFeeFields { fee_bits : Z }.

Module Fee.
Definition FEE_BITS : Z := 40.
Definition FEE_MASK : Z := Z.shiftl 1 FEE_BITS - 1.
Definition FEE_SHIFT_BITS : Z := 4.
Definition FEE_SHIFT_MASK : Z := Z.shiftl 1 FEE_SHIFT_BITS - 1.

Definition zero : FeeFields := mkFeeFields 0.

Definition try_from (fee : Z) : result Error FeeFields :=
  if (fee =? 0) || (FEE_MASK <? fee) then Err InvalidFeeFields else Ok (mkFeeFields fee).

Definition new (fee_shift fee : Z) : result Error FeeFields :=
  if (fee =? 0) || (FEE_MASK <? fee) || (FEE_SHIFT_MASK <? fee_shift)
  then Err InvalidFeeFields
  else Ok (mkFeeFields (Z.lor (shl64 fee_shift FEE_BITS) fee)).

Definition fee_shift (f : FeeFields) : Z :=
  Z.land (shr64 (fee_bits f) FEE_BITS) FEE_SHIFT_MASK.

Definition fee (f : FeeFields) : Z := Z.land (fee_bits f) FEE_MASK.

Definition is_zero (f : FeeFields) : bool := fee_bits f =? 0.

Definition as_opt (f : FeeFields) : option FeeFields := if is_zero f then None else Some f.
End Fee.

#[export] Instance fee_writeable : Writeable FeeFields := fun w f => write_u64 w (fee_bits f).
#[export] Instance fee_readable : Readable FeeFields :=
  fun R _ r => let? (x, r) := read_u64 r in Ok (mkFeeFields x, r).

(** ** NRD relative heights *)

Record NRDRelativeHeight : Type := mkNRD { nrd_height : Z }.

Module NRD.
Definition MAX : Z := WEEK_HEIGHT.

(** [TryFrom<u16>] *)
Definition try_from_u16 (height : Z) : result Error NRDRelativeHeight :=
  if (height =? 0) || (MAX <? height) then Err InvalidNRDRelativeHeight else Ok (mkNRD height).

(** [TryFrom<u64>] *)
Definition try_from (height : Z) : result Error NRDRelativeHeight :=
  if u_max 16 <? height then Err InvalidNRDRelativeHeight else try_from_u16 height.

Definition new (height : Z) : result Error NRDRelativeHeight := try_from height.
End NRD.

#[export] Instance nrd_writeable : Writeable NRDRelativeHeight := fun w h => write_u16 w (nrd_height h).
#[export] Instance nrd_readable : Readable NRDRelativeHeight :=
  fun R _ r =>
    let? (x, r) := read_u16 r in
    let? h := map_err (fun _ => CorruptedData) (NRD.try_from_u16 x) in
    Ok (h, r).

(** ** Kernel features *)

Inductive KernelFeatures : Type :=
| PlainKernel (fee : FeeFields)
| CoinbaseKernel
| HeightLocked (fee : FeeFields) (lock_height : Z)
| NoRecentDuplicate (fee : FeeFields) (relative_height : NRDRelativeHeight).

Module Features.
Definition PLAIN_U8 : Z := 0.
Definition COINBASE_U8 : Z := 1.
Definition HEIGHT_LOCKED_U8 : Z := 2.
Definition NO_RECENT_DUPLICATE_U8 : Z := 3.

Definition as_u8 (k : KernelFeatures) : Z :=
  match k with
  | PlainKernel _ => PLAIN_U8
  | CoinbaseKernel => COINBASE_U8
  | HeightLocked _ _ => HEIGHT_LOCKED_U8
  | NoRecentDuplicate _ _ => NO_RECENT_DUPLICATE_U8
  end.

Definition write_v1 (w : Writer) (k : KernelFeatures) : result ser_error bytes :=
  write_u8 w (as_u8 k) +w+
  match k with
  | PlainKernel fee => write w fee +w+ write_empty_bytes w 8
  | CoinbaseKernel => write_empty_bytes w 16
  | HeightLocked fee lock_height => write w fee +w+ write_u64 w lock_height
  | NoRecentDuplicate fee relative_height =>
      write w fee +w+ write_empty_bytes w 6 +w+ write w relative_height
  end.

Definition write_v2 (w : Writer) (k : KernelFeatures) : result ser_error bytes :=
  write_u8 w (as_u8 k) +w+
  match k with
  | PlainKernel fee => write w fee
  | CoinbaseKernel => Ok []
  | HeightLocked fee lock_height => write w fee +w+ write_u64 w lock_height
  | NoRecentDuplicate fee relative_height => write w fee +w+ write w relative_height
  end.

(** [nrd_enabled] is [global::is_nrd_enabled()]. *)
Definition read_v1 {R} `{Reader R} (nrd_enabled : bool) (r : R)
    : result ser_error (KernelFeatures * R) :=
  let? (feature_byte, r) := read_u8 r in
  if feature_byte =? PLAIN_U8 then
    let? (fee, r) := read r in
    let? (_, r) := read_empty_bytes r 8 in
    Ok (PlainKernel fee, r)
  else if feature_byte =? COINBASE_U8 then
    let? (_, r) := read_empty_bytes r 16 in
    Ok (CoinbaseKernel, r)
  else if feature_byte =? HEIGHT_LOCKED_U8 then
    let? (fee, r) := read r in
    let? (lock_height, r) := read_u64 r in
    Ok (HeightLocked fee lock_height, r)
  else if feature_byte =? NO_RECENT_DUPLICATE_U8 then
    if negb nrd_enabled then Err CorruptedData
    else
      let? (fee, r) := read r in
      let? (_, r) := read_empty_bytes r 6 in
      let? (relative_height, r) := read r in
      Ok (NoRecentDuplicate fee relative_height, r)
  else Err CorruptedData.

Definition read_v2 {R} `{Reader R} (nrd_enabled : bool) (r : R)
    : result ser_error (KernelFeatures * R) :=
  let? (feature_byte, r) := read_u8 r in
  if feature_byte =? PLAIN_U8 then
    let? (fee, r) := read r in Ok (PlainKernel fee, r)
  else if feature_byte =? COINBASE_U8 then Ok (CoinbaseKernel, r)
  else if feature_byte =? HEIGHT_LOCKED_U8 then
    let? (fee, r) := read r in
    let? (lock_height, r) := read_u64 r in
    Ok (HeightLocked fee lock_height, r)
  else if feature_byte =? NO_RECENT_DUPLICATE_U8 then
    if negb nrd_enabled then Err CorruptedData
    else
      let? (fee, r) := read r in
      let? (relative_height, r) := read r in
      Ok (NoRecentDuplicate fee relative_height, r)
  else Err CorruptedData.

Definition is_coinbase (k : KernelFeatures) : bool :=
  match k with CoinbaseKernel => true | _ => false end.
Definition is_plain (k : KernelFeatures) : bool :=
  match k with PlainKernel _ => true | _ => false end.
Definition is_height_locked (k : KernelFeatures) : bool :=
  match k with HeightLocked _ _ => true | _ => false end.
Definition is_nrd (k : KernelFeatures) : bool :=
  match k with NoRecentDuplicate _ _ => true | _ => false end.
End Features.

(** Whether NRD kernels are enabled, [global::is_nrd_enabled()]. *)
Class NrdFlag := is_nrd_enabled : bool.

#[export] Instance features_writeable : Writeable KernelFeatures :=
  fun w k =>
    if is_hash_mode (serialization_mode w) then Features.write_v1 w k
    else if value (w_protocol_version w) <=? 1 then Features.write_v1 w k
    else Features.write_v2 w k.
#[export] Instance features_readable `{NrdFlag} : Readable KernelFeatures :=
  fun R _ r =>
    if value (protocol_version r) <=? 1 then Features.read_v1 is_nrd_enabled r
    else Features.read_v2 is_nrd_enabled r.

(** ** Kernels *)

Record TxKernel : Type := mkKernel {
  features : KernelFeatures;
  excess : Commitment;
  excess_sig : Signature;
}.

#[export] Instance kernel_writeable : Writeable TxKernel :=
  fun w k => write w (features k) +w+ write w (excess k) +w+ write w (excess_sig k).
#[export] Instance kernel_readable `{NrdFlag} : Readable TxKernel :=
  fun R _ r =>
    let? (features, r) := read r in
    let? (excess, r) := read r in
    let? (excess_sig, r) := read r in
    Ok (mkKernel features excess excess_sig, r).

(** ** Outputs and inputs *)

Inductive OutputFeatures : Type := PlainOutput | CoinbaseOutput.

Definition output_features_u8 (f : OutputFeatures) : Z :=
  match f with PlainOutput => 0 | CoinbaseOutput => 1 end.

Definition is_coinbase_output (f : OutputFeatures) : bool :=
  match f with CoinbaseOutput => true | PlainOutput => false end.

#[export] Instance output_features_writeable : Writeable OutputFeatures :=
  fun w f => write_u8 w (output_features_u8 f).
#[export] Instance output_features_readable : Readable OutputFeatures :=
  fun R _ r =>
    let? (b, r) := read_u8 r in
    if b =? 0 then Ok (PlainOutput, r)
    else if b =? 1 then Ok (CoinbaseOutput, r)
    else Err CorruptedData.

Record Input : Type := mkInput { in_features : OutputFeatures; in_commit : Commitment }.

Record CommitWrapper : Type := mkCommitWrapper { cw_commit : Commitment }.

Record OutputIdentifier : Type := mkOutputId { id_features : OutputFeatures; id_commit : Commitment }.

Record Output : Type := mkOutput { identifier : OutputIdentifier; out_proof : RangeProof }.

Definition input_of_identifier (out : OutputIdentifier) : Input :=
  mkInput (id_features out) (id_commit out).
Definition identifier_of_input (i : Input) : OutputIdentifier :=
  mkOutputId (in_features i) (in_commit i).
Definition wrapper_of_input (i : Input) : CommitWrapper := mkCommitWrapper (in_commit i).
Definition into_output (i : OutputIdentifier) (proof : RangeProof) : Output := mkOutput i proof.
Definition output_commitment (o : Output) : Commitment := id_commit (identifier o).
Definition output_is_coinbase (o : Output) : bool := is_coinbase_output (id_features (identifier o)).

#[export] Instance input_writeable : Writeable Input :=
  fun w i => write w (in_features i) +w+ write w (in_commit i).
#[export] Instance input_readable : Readable Input :=
  fun R _ r => let? (f, r) := read r in let? (c, r) := read r in Ok (mkInput f c, r).
#[export] Instance wrapper_writeable : Writeable CommitWrapper := fun w c => write w (cw_commit c).
#[export] Instance wrapper_readable : Readable CommitWrapper :=
  fun R _ r => let? (c, r) := read r in Ok (mkCommitWrapper c, r).
#[export] Instance identifier_writeable : Writeable OutputIdentifier :=
  fun w i => write w (id_features i) +w+ write w (id_commit i).
#[export] Instance identifier_readable : Readable OutputIdentifier :=
  fun R _ r => let? (f, r) := read r in let? (c, r) := read r in Ok (mkOutputId f c, r).
#[export] Instance output_writeable : Writeable Output :=
  fun w o => write w (identifier o) +w+ write w (out_proof o).
#[export] Instance output_readable : Readable Output :=
  fun R _ r => let? (i, r) := read r in let? (p, r) := read r in Ok (mkOutput i p, r).

(** ** The cryptographic library *)

Class Crypto := {
  (** BLAKE2b with a 32 byte digest. *)
  blake2b : bytes -> Hash;
  (** [Commitment::to_pubkey] followed by [aggsig::verify_batch]. *)
  verify_batch : list (Commitment * Signature * Hash) -> bool;
  (** [verify_bullet_proof_multi] *)
  verify_bullet_proof_multi : list Commitment -> list RangeProof -> bool;
  (** [secp.commit_sum]: positive and negative commitments. *)
  commit_sum : list Commitment -> list Commitment -> option Commitment;
  (** [secp.commit_value] and [secp.commit(0, key)]. *)
  commit_value : Z -> Commitment;
  commit_blind : BlindingFactor -> option Commitment;
  (** [secret_key] of a non-zero blinding factor, and [secp.blind_sum]. *)
  secret_key : BlindingFactor -> option Z;
  blind_sum : list Z -> list Z -> option BlindingFactor;
}.

(** [Hashed::hash]: the digest of the bytes written in hash mode. *)
Definition hash {A} `{Crypto} `{Writeable A} (x : A) : Hash :=
  match write (mkWriter SerHash local) x with
  | Ok bs => blake2b bs
  | Err _ => blake2b []
  end.

(** The keys of the orders: [hashable_ord!] compares hashes, [Commitment]
    compares its bytes, [Output] compares its identifier. *)
Definition hash_key {A} `{Crypto} `{Writeable A} (x : A) : Z := be_value (hash_bytes (hash x)).
Definition commit_key (c : Commitment) : Z := be_value (commitment_bytes c).
Definition output_key `{Crypto} (o : Output) : Z := hash_key (identifier o).

(** [kernel_sig_msg]: the message that a kernel signs. *)
Definition kernel_sig_msg `{Crypto} (k : KernelFeatures) : Hash :=
  let w := mkWriter SerHash local in
  let x := Features.as_u8 k in
  match
    match k with
    | PlainKernel fee => write_u8 w x +w+ write w fee
    | CoinbaseKernel => write_u8 w x
    | HeightLocked fee lock_height => write_u8 w x +w+ write w fee +w+ write_u64 w lock_height
    | NoRecentDuplicate fee relative_height =>
        write_u8 w x +w+ write w fee +w+ write w relative_height
    end
  with
  | Ok bs => blake2b bs
  | Err _ => blake2b []
  end.

Definition batch_sig_verify `{Crypto} (tx_kernels : list TxKernel) : result Error unit :=
  if verify_batch (map (fun k => (excess k, excess_sig k, kernel_sig_msg (features k))) tx_kernels)
  then Ok tt else Err IncorrectSignature.

(** * Lemmas *)

(** ** Fee fields *)

Lemma fee_mask : Fee.FEE_MASK = Z.ones 40.
Proof. reflexivity. Qed.

Lemma fee_shift_mask : Fee.FEE_SHIFT_MASK = Z.ones 4.
Proof. reflexivity. Qed.

Lemma fee_mod f : Fee.fee f = fee_bits f mod 2 ^ 40.
Proof. unfold Fee.fee. rewrite fee_mask. by apply Z.land_ones. Qed.

Lemma fee_shift_mod f : Fee.fee_shift f = (fee_bits f / 2 ^ 40) mod 2 ^ 4.
Proof.
  unfold Fee.fee_shift, shr64, Fee.FEE_BITS. rewrite fee_shift_mask, Z.land_ones by lia.
  rewrite (Z.mod_small 40 64), Z.shiftr_div_pow2 by lia. done.
Qed.

Lemma fee_bounds f : 0 <= Fee.fee f < 2 ^ 40 /\ 0 <= Fee.fee_shift f < 16.
Proof.
  rewrite fee_mod, fee_shift_mod. split; [apply Z.mod_pos_bound; lia|].
  change (2 ^ 4) with 16. apply Z.mod_pos_bound. lia.
Qed.

(** Bits of a shifted value and a value below the shift do not meet. *)
Lemma lor_shift_add a b k : 0 <= k -> 0 <= b < 2 ^ k -> Z.lor (a * 2 ^ k) b = a * 2 ^ k + b.
Proof.
  intros Hk Hb. assert (Hz : Z.land (a * 2 ^ k) b = 0);
    [|pose proof (Z.add_lor_land (a * 2 ^ k) b); lia].
  apply Z.bits_inj'. intros n Hn. rewrite Z.land_spec, Z.bits_0. destruct (Z.lt_ge_cases n k).
  - by rewrite Z.mul_pow2_bits_low.
  - rewrite <- (Z.mod_small b (2 ^ k)) by lia. rewrite Z.mod_pow2_bits_high by lia.
    apply andb_false_r.
Qed.

(** ** Round trips of the elements *)

Definition fee_ok (f : FeeFields) : Prop := u64 (fee_bits f).
Definition nrd_ok (h : NRDRelativeHeight) : Prop := 1 <= nrd_height h <= WEEK_HEIGHT.

Definition features_ok (nrd_enabled : bool) (k : KernelFeatures) : Prop :=
  match k with
  | PlainKernel fee => fee_ok fee
  | CoinbaseKernel => True
  | HeightLocked fee lock_height => fee_ok fee /\ u64 lock_height
  | NoRecentDuplicate fee h => fee_ok fee /\ nrd_ok h /\ nrd_enabled = true
  end.

Definition commitment_ok (c : Commitment) : Prop :=
  Z.of_nat (length (commitment_bytes c)) = PEDERSEN_COMMITMENT_SIZE.
Definition signature_ok (s : Signature) : Prop :=
  Z.of_nat (length (signature_bytes s)) = AGG_SIGNATURE_SIZE.
Definition proof_ok (p : RangeProof) : Prop :=
  plen p = MAX_PROOF_SIZE /\ Z.of_nat (length (proof p)) = MAX_PROOF_SIZE.
Definition kernel_ok (nrd_enabled : bool) (k : TxKernel) : Prop :=
  features_ok nrd_enabled (features k) /\ commitment_ok (excess k) /\ signature_ok (excess_sig k).
Definition input_ok (i : Input) : Prop := commitment_ok (in_commit i).
Definition wrapper_ok (c : CommitWrapper) : Prop := commitment_ok (cw_commit c).
Definition output_ok (o : Output) : Prop := commitment_ok (output_commitment o) /\ proof_ok (out_proof o).

Opaque be.

Section reads.
Context {R : Type} {RD : Reader R} {RL : ReaderLaws R}.
Implicit Types (r : R) (tl : bytes).

Lemma read_fee_ok r f tl :
  fee_ok f -> input r = be 8 (fee_bits f) ++ tl ->
  exists r', read r = Ok (f, r') /\ advanced input r r' tl.
Proof.
  intros Hf Hin. unfold read, fee_readable. read_next read_u64_ok; [exact Hf|].
  destruct f. eexists. split; [done|adv_chain].
Qed.

Lemma read_nrd_ok r h tl :
  nrd_ok h -> input r = be 2 (nrd_height h) ++ tl ->
  exists r', read r = Ok (h, r') /\ advanced input r r' tl.
Proof.
  intros Hh Hin. unfold nrd_ok, WEEK_HEIGHT, DAY_HEIGHT, HOUR_HEIGHT, HOUR_SEC, BLOCK_TIME_SEC in Hh.
  change (7 * (24 * (60 * 60 / 60))) with 10080 in Hh.
  unfold read, nrd_readable. read_next read_u16_ok; [unfold in_range; lia|].
  unfold NRD.try_from_u16. change NRD.MAX with 10080.
  destruct (Z.eqb_spec (nrd_height h) 0); [lia|].
  destruct (Z.ltb_spec 10080 (nrd_height h)); [lia|].
  simpl. destruct h. eexists. split; [done|adv_chain].
Qed.

Lemma read_empty_ok n r tl :
  input r = replicate n 0 ++ tl ->
  exists r', read_empty_bytes r n = Ok (tt, r') /\ advanced input r r' tl.
Proof.
  revert r. induction n as [|n IH]; intros r Hin; [by exists r|].
  cbn [replicate app] in Hin. cbn [read_empty_bytes].
  read_next read_u8_ok; [unfold in_range; lia|]. cbn [Z.eqb negb].
  destruct (IH _ Hin0) as (r' & E & Ha'). exists r'. split; [exact E|adv_chain].
Qed.

Lemma read_empty_ok' r n tl :
  input r = replicate n 0 ++ tl ->
  exists r', read_empty_bytes r n = Ok (tt, r') /\ advanced input r r' tl.
Proof. apply read_empty_ok. Qed.

Lemma read_commitment_ok r c tl :
  commitment_ok c -> input r = commitment_bytes c ++ tl ->
  exists r', read r = Ok (c, r') /\ advanced input r r' tl.
Proof.
  intros Hc Hin. unfold read, commitment_readable.
  read_step (read_fixed_ok r PEDERSEN_COMMITMENT_SIZE (commitment_bytes c) tl); [done..|].
  destruct c. by eexists.
Qed.

Lemma read_signature_ok r s tl :
  signature_ok s -> input r = signature_bytes s ++ tl ->
  exists r', read r = Ok (s, r') /\ advanced input r r' tl.
Proof.
  intros Hc Hin. unfold read, signature_readable.
  read_step (read_fixed_ok r AGG_SIGNATURE_SIZE (signature_bytes s) tl); [done..|].
  destruct s. by eexists.
Qed.

Lemma read_output_features_ok r f tl :
  input r = output_features_u8 f :: tl ->
  exists r', read r = Ok (f, r') /\ advanced input r r' tl.
Proof.
  intros Hin. unfold read, output_features_readable.
  read_next read_u8_ok; [destruct f; unfold in_range; simpl; lia|].
  destruct f; simpl; eexists; (split; [done|adv_chain]).
Qed.

End reads.

(** What [write] produces, and that [read] takes it back. *)
Ltac start_roundtrip :=
  eexists; split; [reflexivity|]; intros R RD RL r tl Hv Hm Hin;
  rewrite <- ?app_assoc in Hin; cbn [app] in Hin.

Ltac finish_roundtrip := eexists; split; [reflexivity|adv_chain].

Lemma features_roundtrips_v1 `{NrdFlag} v k :
  value v <= 1 -> features_ok is_nrd_enabled k -> roundtrips v k.
Proof.
  intros Hver Hk. assert (Hle : (value v <=? 1) = true) by lia.
  destruct k as [f| |f lh|f h]; simpl in Hk; eexists;
    (split; [unfold write, features_writeable; cbn [serialization_mode is_hash_mode w_protocol_version];
             rewrite Hle; reflexivity|]);
    intros R RD RL r tl Hv Hm Hin; rewrite <- ?app_assoc in Hin; cbn [app] in Hin;
    unfold read, features_readable; rewrite Hv, Hle; unfold Features.read_v1;
    (read_next read_u8_ok; [vm_compute; split; congruence|]);
    cbn [Features.as_u8 Features.PLAIN_U8 Features.COINBASE_U8 Features.HEIGHT_LOCKED_U8
         Features.NO_RECENT_DUPLICATE_U8 Z.eqb Pos.eqb].
  - read_next read_fee_ok; [done|]. read_next read_empty_ok'. finish_roundtrip.
  - read_next read_empty_ok'. finish_roundtrip.
  - read_next read_fee_ok; [apply Hk|]. read_next read_u64_ok; [apply Hk|]. finish_roundtrip.
  - destruct Hk as (Hf & Hh & ->). cbn [negb]. read_next read_fee_ok; [done|].
    read_next read_empty_ok'. read_next read_nrd_ok; [done|]. finish_roundtrip.
Qed.

Lemma features_roundtrips_v2 `{NrdFlag} v k :
  2 <= value v -> features_ok is_nrd_enabled k -> roundtrips v k.
Proof.
  intros Hver Hk. assert (Hle : (value v <=? 1) = false) by lia.
  destruct k as [f| |f lh|f h]; simpl in Hk; eexists;
    (split; [unfold write, features_writeable; cbn [serialization_mode is_hash_mode w_protocol_version];
             rewrite Hle; reflexivity|]);
    intros R RD RL r tl Hv Hm Hin; rewrite <- ?app_assoc in Hin; cbn [app] in Hin;
    unfold read, features_readable; rewrite Hv, Hle; unfold Features.read_v2;
    (read_next read_u8_ok; [vm_compute; split; congruence|]);
    cbn [Features.as_u8 Features.PLAIN_U8 Features.COINBASE_U8 Features.HEIGHT_LOCKED_U8
         Features.NO_RECENT_DUPLICATE_U8 Z.eqb Pos.eqb].
  - read_next read_fee_ok; [done|]. finish_roundtrip.
  - finish_roundtrip.
  - read_next read_fee_ok; [apply Hk|]. read_next read_u64_ok; [apply Hk|]. finish_roundtrip.
  - destruct Hk as (Hf & Hh & ->). cbn [negb]. read_next read_fee_ok; [done|].
    read_next read_nrd_ok; [done|]. finish_roundtrip.
Qed.

Lemma features_roundtrips `{NrdFlag} v k : features_ok is_nrd_enabled k -> roundtrips v k.
Proof.
  destruct (Z.le_gt_cases (value v) 1);
    [by apply features_roundtrips_v1|apply features_roundtrips_v2; lia].
Qed.

Lemma input_roundtrips v i : input_ok i -> roundtrips v i.
Proof.
  intros Hi. start_roundtrip. unfold read, input_readable.
  read_next read_output_features_ok. read_next read_commitment_ok; [exact Hi|].
  destruct i. finish_roundtrip.
Qed.

Lemma wrapper_roundtrips v c : wrapper_ok c -> roundtrips v c.
Proof.
  intros Hi. start_roundtrip. unfold read, wrapper_readable.
  read_next read_commitment_ok; [exact Hi|]. destruct c. finish_roundtrip.
Qed.

Lemma identifier_roundtrips v i : commitment_ok (id_commit i) -> roundtrips v i.
Proof.
  intros Hi. start_roundtrip. unfold read, identifier_readable.
  read_next read_output_features_ok. read_next read_commitment_ok; [exact Hi|].
  destruct i. finish_roundtrip.
Qed.

Lemma output_roundtrips v o : output_ok o -> roundtrips v o.
Proof.
  intros [Hc [Hp1 Hp2]]. destruct (identifier_roundtrips v (identifier o) Hc) as (b1 & E1 & R1).
  destruct (rangeproof_roundtrips v (out_proof o) Hp1 Hp2) as (b2 & E2 & R2).
  exists (b1 ++ b2). split; [by apply wseq_Ok|]. intros R RD RL r tl Hv Hm Hin.
  rewrite <- app_assoc in Hin. unfold read, output_readable.
  destruct (R1 R RD RL r _ Hv Hm Hin) as (r1 & -> & Ha1). cbn [rbind].
  pose proof Ha1 as (Hin1 & Hv1 & Hm1 & _).
  destruct (R2 R RD RL r1 tl) as (r2 & -> & Ha2); [congruence..|]. cbn [rbind].
  destruct o. finish_roundtrip.
Qed.

Lemma kernel_roundtrips `{NrdFlag} v k : kernel_ok is_nrd_enabled k -> roundtrips v k.
Proof.
  intros (Hf & Hc & Hs). destruct (features_roundtrips v (features k) Hf) as (b1 & E1 & R1).
  eexists. split.
  { unfold write, kernel_writeable. rewrite E1. reflexivity. }
  intros R RD RL r tl Hv Hm Hin. rewrite <- !app_assoc in Hin. unfold read, kernel_readable.
  destruct (R1 R RD RL r _ Hv Hm Hin) as (r1 & -> & Ha1). cbn [rbind].
  pose proof Ha1 as [Hin1 _]. clear Hin. read_next read_commitment_ok; [exact Hc|].
  read_next read_signature_ok; [exact Hs|]. destruct k. finish_roundtrip.
Qed.

Lemma be_inj n x y : 0 <= x < 256 ^ Z.of_nat n -> 0 <= y < 256 ^ Z.of_nat n -> be n x = be n y -> x = y.
Proof. intros Hx Hy E. rewrite <- (be_value_be_small n x), <- (be_value_be_small n y), E; auto. Qed.

(** * Properties *)

(** Fee fields pack a fee and a shift: [FeeFields::new] accepts exactly
    the positive fees of at most 40 bits with shifts of at most 4 bits, the
    packed value gives both back, and the two accessors stay within their
    fields for every [u64]. *)
Theorem fee_fields_pack fee_shift fee :
  u64 fee_shift -> u64 fee ->
  match Fee.new fee_shift fee with
  | Ok f => 1 <= fee < 2 ^ 40 /\ fee_shift < 2 ^ 4 /\ u64 (fee_bits f) /\
      Fee.fee f = fee /\ Fee.fee_shift f = fee_shift
  | Err e => e = InvalidFeeFields /\ (fee = 0 \/ 2 ^ 40 <= fee \/ 2 ^ 4 <= fee_shift)
  end /\
  (forall f, 0 <= Fee.fee f < 2 ^ 40 /\ 0 <= Fee.fee_shift f < 16).
Proof.
  intros Hs Hf. split; [|apply fee_bounds]. unfold Fee.new. unfold_words.
  rewrite fee_mask, fee_shift_mask, !Z.ones_equiv.
  destruct (Z.eqb_spec fee 0), (Z.ltb_spec (Z.pred (2 ^ 40)) fee),
    (Z.ltb_spec (Z.pred (2 ^ 4)) fee_shift); simpl orb; cbv iota;
    try (split; [done|lia]).
  assert (E : fee_bits (mkFeeFields (Z.lor (wrap 64 (Z.shiftl fee_shift (40 mod 64))) fee))
              = fee_shift * 2 ^ 40 + fee).
  { simpl. rewrite (Z.mod_small 40 64), Z.shiftl_mul_pow2, wrap_small by (unfold in_range; lia).
    apply lor_shift_add; lia. }
  unfold Fee.FEE_BITS. unfold wrap in E. rewrite fee_mod, fee_shift_mod, E.
  rewrite Z.div_add_l, (Z.div_small fee) by lia.
  rewrite (Z.add_comm _ fee), Z_mod_plus_full, !Z.mod_small by lia. lia.
Qed.

Lemma fee_fields_pack_witness :
  Fee.new 3 500000 = Ok (mkFeeFields (3 * 2 ^ 40 + 500000)) /\
  Fee.fee (mkFeeFields (3 * 2 ^ 40 + 500000)) = 500000.
Proof.
  split; [reflexivity|].
  destruct (fee_fields_pack 3 500000 ltac:(unfold_words; lia) ltac:(unfold_words; lia)) as [H _].
  apply H.
Defined.

(** Kernels survive both wire formats: for every protocol version, the
    fixed-size format of versions 0 and 1 and the variable-size one from
    version 2, a kernel with in-range fields is read back unchanged by every
    reader, with nothing left over; NRD kernels need the feature flag. *)
Theorem kernel_roundtrip `{NrdFlag} v k :
  kernel_ok is_nrd_enabled k -> roundtrips v k.
Proof. apply kernel_roundtrips. Qed.

Lemma kernel_roundtrip_witness :
  roundtrips (H0 := kernel_readable (H := true)) (mkVersion 1)
    (mkKernel (NoRecentDuplicate (mkFeeFields 7) (mkNRD 1440))
       (mkCommitment (replicate 33 8)) (mkSignature (replicate 64 9))).
Proof.
  apply (kernel_roundtrip (H := true)). split; [|split; vm_compute; reflexivity].
  split; [unfold fee_ok; simpl; unfold_words; lia|]. split; [|reflexivity].
  unfold nrd_ok. vm_compute. split; congruence.
Defined.

(** A kernel signature covers all of its features: if the hash function
    does not collide, two kernels that sign the same message have the same
    features (variant, fee, lock height or relative height). *)
Theorem kernel_sig_msg_binding `{Crypto} nrd k1 k2 :
  (forall a b, blake2b a = blake2b b -> a = b) ->
  features_ok nrd k1 -> features_ok nrd k2 ->
  kernel_sig_msg k1 = kernel_sig_msg k2 -> k1 = k2.
Proof.
  intros Hinj H1 H2 E. unfold kernel_sig_msg in E.
  assert (Hfee : forall f g : FeeFields, fee_ok f -> fee_ok g ->
            be 8 (fee_bits f) = be 8 (fee_bits g) -> f = g).
  { intros [f] [g] Hf Hg Eb. f_equal. by apply (be_inj 8) in Eb. }
  assert (Hl : forall n x y (t u : list Z), be n x ++ t = be n y ++ u -> be n x = be n y /\ t = u).
  { intros n x y t u Eb. apply app_inj_1 in Eb; [done|by rewrite !be_length]. }
  destruct k1 as [f1| |f1 l1|f1 h1], k2 as [f2| |f2 l2|f2 h2];
    simpl in H1, H2; cbn in E; apply Hinj in E; try discriminate E; try done;
    apply (f_equal (@List.tl Z)) in E; cbn [List.tl] in E.
  - f_equal. by apply Hfee.
  - apply Hl in E as [Ef El]. f_equal; [apply Hfee; tauto|].
    apply (be_inj 8); [apply H1|apply H2|done].
  - apply Hl in E as [Ef El]. f_equal; [apply Hfee; tauto|].
    destruct H1 as (_ & N1 & _), H2 as (_ & N2 & _). unfold nrd_ok in *.
    change WEEK_HEIGHT with 10080 in *. destruct h1, h2. simpl in *. f_equal.
    apply (be_inj 2) in El; lia.
Qed.

(** Sample parameters for examples: the hash function is a stand-in that does
    not collide on the inputs used. *)
Definition sample_crypto : Crypto := {|
  blake2b := fun bs => mkHash bs;
  verify_batch := fun _ => true;
  verify_bullet_proof_multi := fun _ _ => true;
  commit_sum := fun _ _ => None;
  commit_value := fun _ => mkCommitment [];
  commit_blind := fun _ => None;
  secret_key := fun b => Some (be_value (blinding_bytes b));
  blind_sum := fun p n => Some (mkBlinding (be 32 (foldr Z.add 0 p - foldr Z.add 0 n)));
|}.

Lemma kernel_sig_msg_binding_witness :
  HeightLocked (mkFeeFields 5) 9 = HeightLocked (mkFeeFields 5) 9.
Proof.
  apply (kernel_sig_msg_binding (H := sample_crypto) false).
  - intros a b. simpl. congruence.
  - simpl. unfold fee_ok. simpl. unfold_words. lia.
  - simpl. unfold fee_ok. simpl. unfold_words. lia.
  - reflexivity.
Defined.
Transparent be.
