(* ===== verification/CutThrough.v ===== *)
(** Cut-through.

    Models [cut_through] of [src/core/src/core/transaction.rs]: two slices are
    sorted by commitment, the elements of matching pairs are swapped to the
    back of their slices in one pass, and what remains is sorted again and
    checked for duplicates. The slices are lists updated in place by [swap].

    [slice::sort_unstable] leaves the order of equal elements open, so it is a
    class with its documented contract ([SortUnstable]); [merge_sort] is the
    instance used in examples. Elements are compared by integer keys: [ct] and
    [cu] give the commitment of an element, [kt] and [ku] the key of its [Ord]
    instance. *)

From Stdlib Require Import ZArith Lia.
From stdpp Require Import base numbers option sorting list.
From S2P Require Import Prelude Kernel.
Open Scope Z_scope.

Class SortUnstable := {
  sort_by_key : forall {A}, (A -> Z) -> list A -> list A;
  sort_perm {A} (key : A -> Z) l : sort_by_key key l ≡ₚ l;
  sort_sorted {A} (key : A -> Z) l : StronglySorted (fun a b => key a <= key b) (sort_by_key key l);
}.

Definition key_le {A} (key : A -> Z) (a b : A) : Prop := key a <= key b.

#[export] Instance key_le_dec {A} (key : A -> Z) : RelDecision (key_le key).
Proof. intros a b. unfold key_le. apply _. Defined.

#[export] Instance key_le_trans {A} (key : A -> Z) : Transitive (key_le key).
Proof. unfold key_le. intros ???; lia. Qed.

#[export] Instance key_le_total {A} (key : A -> Z) : Total (key_le key).
Proof. unfold key_le. intros ??; lia. Qed.

#[export] Instance merge_sort_unstable : SortUnstable.
Proof.
  refine {| sort_by_key := fun A key l => merge_sort (key_le key) l |}.
  - intros A key l. apply merge_sort_Permutation.
  - intros A key l. apply (StronglySorted_merge_sort (key_le key)).
Defined.

(** [slice::swap] *)
Definition swap {A} (l : list A) (i j : nat) : list A :=
  match l !! i, l !! j with
  | Some x, Some y => <[i := y]> (<[j := x]> l)
  | _, _ => l
  end.

(** [windows(2).any(|pair| pair[0] == pair[1])], equality being that of keys. *)
Fixpoint any_adjacent_equal {A} (key : A -> Z) (l : list A) : bool :=
  match l with
  | x :: ((y :: _) as tl) => (key x =? key y) || any_adjacent_equal key tl
  | _ => false
  end.

Section cut.
Context {SU : SortUnstable} {T U : Type} (ct kt : T -> Z) (cu ku : U -> Z).

(** The first [while] loop; it runs at most once per element. *)
Fixpoint cut_loop (fuel : nat) (inputs : list T) (outputs : list U)
    (inputs_idx outputs_idx ncut : nat) : list T * list U * nat * nat * nat :=
  match fuel with
  | O => (inputs, outputs, inputs_idx, outputs_idx, ncut)
  | S fuel =>
      match inputs !! inputs_idx, outputs !! outputs_idx with
      | Some x, Some y =>
          match ct x ?= cu y with
          | Lt => cut_loop fuel (swap inputs (inputs_idx - ncut) inputs_idx) outputs
                    (S inputs_idx) outputs_idx ncut
          | Gt => cut_loop fuel inputs (swap outputs (outputs_idx - ncut) outputs_idx)
                    inputs_idx (S outputs_idx) ncut
          | Eq => cut_loop fuel inputs outputs (S inputs_idx) (S outputs_idx) (S ncut)
          end
      | _, _ => (inputs, outputs, inputs_idx, outputs_idx, ncut)
      end
  end.

(** The two [while] loops that move the remaining elements forward. *)
Fixpoint move_rest {A} (fuel : nat) (l : list A) (idx ncut : nat) : list A :=
  match fuel with
  | O => l
  | S fuel =>
      if (idx <? length l)%nat then move_rest fuel (swap l (idx - ncut) idx) (S idx) ncut
      else l
  end.

Definition cut_through (inputs : list T) (outputs : list U)
    : result Error (list T * list U * list T * list U) :=
  let inputs := sort_by_key ct inputs in
  let outputs := sort_by_key cu outputs in
  let '(inputs, outputs, inputs_idx, outputs_idx, ncut) :=
    cut_loop (length inputs + length outputs) inputs outputs 0 0 0 in
  let inputs := move_rest (length inputs) inputs inputs_idx ncut in
  let outputs := move_rest (length outputs) outputs outputs_idx ncut in
  let ni := (length inputs - ncut)%nat in
  let no := (length outputs - ncut)%nat in
  let '(inputs, inputs_cut) := (take ni inputs, drop ni inputs) in
  let '(outputs, outputs_cut) := (take no outputs, drop no outputs) in
  let inputs := sort_by_key kt inputs in
  let outputs := sort_by_key ku outputs in
  let inputs_cut := sort_by_key kt inputs_cut in
  let outputs_cut := sort_by_key ku outputs_cut in
  if any_adjacent_equal kt inputs then Err CutThrough
  else if any_adjacent_equal ku outputs then Err CutThrough
  else Ok (inputs, outputs, inputs_cut, outputs_cut).

(** * Correctness *)

(** The pass over two lists as a function on lists: what is kept and cut. *)
Fixpoint merge_cut (fuel : nat) (ins : list T) (outs : list U)
    : list T * list T * list U * list U :=
  match fuel with
  | O => (ins, [], outs, [])
  | S fuel =>
      match ins, outs with
      | x :: ins', y :: outs' =>
          match ct x ?= cu y with
          | Lt => let '(ki, ci, ko, co) := merge_cut fuel ins' outs in (x :: ki, ci, ko, co)
          | Gt => let '(ki, ci, ko, co) := merge_cut fuel ins outs' in (ki, ci, y :: ko, co)
          | Eq => let '(ki, ci, ko, co) := merge_cut fuel ins' outs' in (ki, x :: ci, ko, y :: co)
          end
      | _, _ => (ins, [], outs, [])
      end
  end.

Lemma swap_shift {A} (K C : list A) x R :
  exists C', C' ≡ₚ C /\
    swap (K ++ C ++ x :: R) (length K + length C - length C) (length K + length C)
      = (K ++ [x]) ++ C' ++ R.
Proof.
  replace (length K + length C - length C)%nat with (length K) by lia. unfold swap.
  assert (Hx : (K ++ C ++ x :: R) !! (length K + length C)%nat = Some x).
  { rewrite app_assoc, lookup_app_r, length_app, Nat.sub_diag; [done|rewrite length_app; lia]. }
  rewrite Hx. destruct C as [|c C]; simpl length.
  - rewrite Nat.add_0_r in *. rewrite Hx. exists []. split; [done|].
    rewrite list_insert_insert_eq, list_insert_id by done. by rewrite <- app_assoc.
  - assert (Hc : (K ++ (c :: C) ++ x :: R) !! length K = Some c)
      by (rewrite lookup_app_r, Nat.sub_diag; done). rewrite Hc.
    exists (C ++ [c]). split; [by rewrite Permutation_app_comm|].
    rewrite insert_app_r_alt by lia. replace (length K + S (length C) - length K)%nat with (S (length C)) by lia.
    simpl. rewrite insert_app_r_alt, Nat.sub_diag by lia. simpl.
    rewrite insert_app_r_alt, Nat.sub_diag by lia. simpl. by rewrite <- !app_assoc.
Qed.

Lemma move_rest_spec {A} fuel (K C R : list A) :
  (length R <= fuel)%nat ->
  exists C', C' ≡ₚ C /\
    move_rest fuel (K ++ C ++ R) (length K + length C) (length C) = (K ++ R) ++ C'.
Proof.
  revert K C R. induction fuel as [|fuel IH]; intros K C R Hf; cbn [move_rest].
  - destruct R; [|simpl in Hf; lia]. exists C. rewrite !app_nil_r. done.
  - destruct R as [|x R].
    + rewrite app_nil_r. destruct (Nat.ltb_spec (length K + length C) (length (K ++ C)));
        [rewrite length_app in *; lia|]. exists C. by rewrite app_nil_r.
    + destruct (Nat.ltb_spec (length K + length C) (length (K ++ C ++ x :: R)));
        [|rewrite !length_app in *; simpl in *; lia].
      destruct (swap_shift K C x R) as (C1 & HC1 & ->).
      destruct (IH (K ++ [x]) C1 R ltac:(simpl in Hf; lia)) as (C2 & HC2 & E).
      exists C2. split; [by rewrite HC2|]. rewrite length_app in E. simpl in E.
      rewrite (Permutation_length HC1) in E.
      replace (length K + 1 + length C)%nat with (S (length K + length C)) in E by lia.
      rewrite E. by rewrite <- !app_assoc.
Qed.

Lemma cut_loop_spec fuel Ki Ci Ri Ko Co Ro :
  length Ci = length Co -> (length Ri + length Ro <= fuel)%nat ->
  exists Ki' Ci' Ri' Ko' Co' Ro' ki ci ko co,
    merge_cut fuel Ri Ro = (ki, ci, ko, co) /\
    cut_loop fuel (Ki ++ Ci ++ Ri) (Ko ++ Co ++ Ro)
        (length Ki + length Ci) (length Ko + length Co) (length Ci)
      = (Ki' ++ Ci' ++ Ri', Ko' ++ Co' ++ Ro',
         (length Ki' + length Ci')%nat, (length Ko' + length Co')%nat, length Ci') /\
    length Ci' = length Co' /\
    Ki' ++ Ri' = Ki ++ ki /\ Ci' ≡ₚ Ci ++ ci /\ Ko' ++ Ro' = Ko ++ ko /\ Co' ≡ₚ Co ++ co.
Proof.
  revert Ki Ci Ri Ko Co Ro. induction fuel as [|fuel IH]; intros Ki Ci Ri Ko Co Ro Hlen Hf.
  { destruct Ri, Ro; simpl in Hf; try lia. exists Ki, Ci, [], Ko, Co, [], [], [], [], [].
    rewrite !app_nil_r. auto 10. }
  cbn [cut_loop merge_cut].
  assert (Hi : (Ki ++ Ci ++ Ri) !! (length Ki + length Ci)%nat = head Ri).
  { rewrite app_assoc, lookup_app_r, length_app, Nat.sub_diag by (rewrite length_app; lia). by destruct Ri. }
  assert (Ho : (Ko ++ Co ++ Ro) !! (length Ko + length Co)%nat = head Ro).
  { rewrite app_assoc, lookup_app_r, length_app, Nat.sub_diag by (rewrite length_app; lia). by destruct Ro. }
  rewrite Hi, Ho. destruct Ri as [|x Ri].
  { exists Ki, Ci, [], Ko, Co, Ro, [], [], Ro, []. rewrite !app_nil_r. auto 10. }
  destruct Ro as [|y Ro].
  { exists Ki, Ci, (x :: Ri), Ko, Co, [], (x :: Ri), [], [], []. rewrite !app_nil_r. auto 10. }
  cbn [head]. simpl length in Hf. destruct (ct x ?= cu y) eqn:Ecmp.
  - destruct (IH Ki (Ci ++ [x]) Ri Ko (Co ++ [y]) Ro)
      as (Ki' & Ci' & Ri' & Ko' & Co' & Ro' & ki & ci & ko & co & Em & El & H1 & H2 & H3 & H4 & H5);
      [rewrite !length_app; simpl; lia|lia|].
    exists Ki', Ci', Ri', Ko', Co', Ro', ki, (x :: ci), ko, (y :: co). rewrite Em.
    rewrite !length_app in El. simpl length in El. rewrite <- !app_assoc in El. cbn [app] in El.
    replace (length Ki + (length Ci + 1))%nat with (S (length Ki + length Ci)) in El by lia.
    replace (length Ko + (length Co + 1))%nat with (S (length Ko + length Co)) in El by lia.
    rewrite Nat.add_1_r in El. split_and!; try done.
    + by rewrite H3, <- app_assoc.
    + by rewrite H5, <- app_assoc.
  - destruct (swap_shift Ki Ci x Ri) as (C1 & HC1 & ->).
    destruct (IH (Ki ++ [x]) C1 Ri Ko Co (y :: Ro))
      as (Ki' & Ci' & Ri' & Ko' & Co' & Ro' & ki & ci & ko & co & Em & El & H1 & H2 & H3 & H4 & H5);
      [by rewrite HC1|simpl; lia|].
    exists Ki', Ci', Ri', Ko', Co', Ro', (x :: ki), ci, ko, co. rewrite Em.
    rewrite length_app, (Permutation_length HC1) in El. simpl length in El.
    replace (length Ki + 1 + length Ci)%nat with (S (length Ki + length Ci)) in El by lia.
    split_and!; try done; [by rewrite H2, <- app_assoc|by rewrite H3, HC1].
  - destruct (swap_shift Ko Co y Ro) as (C1 & HC1 & Esw). rewrite Hlen, Esw.
    destruct (IH Ki Ci (x :: Ri) (Ko ++ [y]) C1 Ro)
      as (Ki' & Ci' & Ri' & Ko' & Co' & Ro' & ki & ci & ko & co & Em & El & H1 & H2 & H3 & H4 & H5);
      [by rewrite HC1|simpl; lia|].
    exists Ki', Ci', Ri', Ko', Co', Ro', ki, ci, (y :: ko), co. rewrite Em.
    rewrite length_app, (Permutation_length HC1), Hlen in El. simpl length in El.
    replace (length Ko + 1 + length Co)%nat with (S (length Ko + length Co)) in El by lia.
    split_and!; try done; [by rewrite H4, <- app_assoc|by rewrite H5, HC1].
Qed.

Lemma merge_cut_perm fuel ins outs ki ci ko co :
  merge_cut fuel ins outs = (ki, ci, ko, co) ->
  ins ≡ₚ ki ++ ci /\ outs ≡ₚ ko ++ co /\ map ct ci = map cu co.
Proof.
  revert ins outs ki ci ko co. induction fuel as [|fuel IH]; intros ins outs ki ci ko co E;
    cbn [merge_cut] in E.
  { injection E as <- <- <- <-. by rewrite !app_nil_r. }
  destruct ins as [|x ins]; [injection E as <- <- <- <-; by rewrite !app_nil_r|].
  destruct outs as [|y outs]; [injection E as <- <- <- <-; by rewrite !app_nil_r|].
  destruct (ct x ?= cu y) eqn:Ecmp.
  - destruct (merge_cut fuel ins outs) as [[[ki0 ci0] ko0] co0] eqn:Em. injection E as <- <- <- <-.
    destruct (IH _ _ _ _ _ _ Em) as (H1 & H2 & H3). apply Z.compare_eq in Ecmp.
    rewrite <- !Permutation_middle. simpl. split_and!; [by constructor|by constructor|congruence].
  - destruct (merge_cut fuel ins (y :: outs)) as [[[ki0 ci0] ko0] co0] eqn:Em.
    injection E as <- <- <- <-. destruct (IH _ _ _ _ _ _ Em) as (H1 & H2 & H3).
    split_and!; [by constructor|done|done].
  - destruct (merge_cut fuel (x :: ins) outs) as [[[ki0 ci0] ko0] co0] eqn:Em.
    injection E as <- <- <- <-. destruct (IH _ _ _ _ _ _ Em) as (H1 & H2 & H3).
    split_and!; [done|by constructor|done].
Qed.

Lemma merge_cut_disjoint fuel ins outs ki ci ko co :
  merge_cut fuel ins outs = (ki, ci, ko, co) -> (length ins + length outs <= fuel)%nat ->
  StronglySorted (fun a b => ct a <= ct b) ins -> StronglySorted (fun a b => cu a <= cu b) outs ->
  forall x y, x ∈ ki -> y ∈ ko -> ct x <> cu y.
Proof.
  revert ins outs ki ci ko co. induction fuel as [|fuel IH]; intros ins outs ki ci ko co E Hf Si So;
    cbn [merge_cut] in E.
  { injection E as <- <- <- <-. destruct ins; [|simpl in Hf; lia]. by intros ? ? ?%elem_of_nil. }
  destruct ins as [|x ins]; [injection E as <- <- <- <-; by intros ? ? ?%elem_of_nil|].
  destruct outs as [|y outs]; [injection E as <- <- <- <-; by intros ? ? ? ?%elem_of_nil|].
  simpl in Hf. pose proof Si as [Si' Hx]%StronglySorted_inv. pose proof So as [So' Hy]%StronglySorted_inv.
  destruct (ct x ?= cu y) eqn:Ecmp.
  - destruct (merge_cut fuel ins outs) as [[[ki0 ci0] ko0] co0] eqn:Em. injection E as <- <- <- <-.
    apply (IH _ _ _ _ _ _ Em); [lia|done|done].
  - destruct (merge_cut fuel ins (y :: outs)) as [[[ki0 ci0] ko0] co0] eqn:Em.
    injection E as <- <- <- <-. rewrite Z.compare_lt_iff in Ecmp.
    intros a b [->|Ha]%elem_of_cons Hb; [|by apply (IH _ _ _ _ _ _ Em); [simpl; lia|..]].
    destruct (merge_cut_perm _ _ _ _ _ _ _ Em) as (_ & Hp & _).
    assert (Hb' : b ∈ y :: outs) by (rewrite Hp; apply elem_of_app; by left).
    apply elem_of_cons in Hb' as [->|Hb']; [lia|]. eapply Forall_forall in Hy; [|exact Hb']. lia.
  - destruct (merge_cut fuel (x :: ins) outs) as [[[ki0 ci0] ko0] co0] eqn:Em.
    injection E as <- <- <- <-. rewrite Z.compare_gt_iff in Ecmp.
    intros a b Ha [->|Hb]%elem_of_cons; [|by apply (IH _ _ _ _ _ _ Em); [simpl; lia|..]].
    destruct (merge_cut_perm _ _ _ _ _ _ _ Em) as (Hp & _ & _).
    assert (Ha' : a ∈ x :: ins) by (rewrite Hp; apply elem_of_app; by left).
    apply elem_of_cons in Ha' as [->|Ha']; [lia|]. eapply Forall_forall in Hx; [|exact Ha']. lia.
Qed.

Lemma any_adjacent_equal_sorted {A} (key : A -> Z) l :
  StronglySorted (fun a b => key a <= key b) l ->
  if any_adjacent_equal key l then ~ NoDup (map key l)
  else StronglySorted (fun a b => key a < key b) l.
Proof.
  induction 1 as [|x l Hs IH Hx]; [constructor|].
  destruct l as [|y l]; [repeat constructor|].
  change (any_adjacent_equal key (x :: y :: l))
    with ((key x =? key y) || any_adjacent_equal key (y :: l)).
  destruct (Z.eqb_spec (key x) (key y)) as [E|E]; cbn [orb].
  - simpl. rewrite E. intros [Hn _]%NoDup_cons. apply Hn. by left.
  - destruct (any_adjacent_equal key (y :: l)).
    + simpl in *. intros [_ Hn]%NoDup_cons. by apply IH.
    + constructor; [done|]. pose proof IH as [_ Hy]%StronglySorted_inv.
      apply Forall_cons in Hx as [Hxy _]. constructor; [lia|].
      eapply Forall_impl; [exact Hy|]. simpl. lia.
Qed.

(** What a cut-through is: both sides split into what is kept and what is cut,
    the cut elements match one to one, and no kept input spends a kept
    output. *)
Definition is_cut (inputs : list T) (outputs : list U)
    (ins : list T) (outs : list U) (icut : list T) (ocut : list U) : Prop :=
  inputs ≡ₚ ins ++ icut /\ outputs ≡ₚ outs ++ ocut /\ map ct icut ≡ₚ map cu ocut /\
  forall x y, x ∈ ins -> y ∈ outs -> ct x <> cu y.

Lemma cut_pass inputs outputs :
  let inputs := sort_by_key ct inputs in
  let outputs := sort_by_key cu outputs in
  let '(i1, o1, ii, oi, n) := cut_loop (length inputs + length outputs) inputs outputs 0 0 0 in
  let i2 := move_rest (length i1) i1 ii n in
  let o2 := move_rest (length o1) o1 oi n in
  let ni := (length i2 - n)%nat in
  let no := (length o2 - n)%nat in
  is_cut inputs outputs (take ni i2) (take no o2) (drop ni i2) (drop no o2).
Proof.
  intros si so.
  destruct (cut_loop_spec (length si + length so) [] [] si [] [] so)
    as (Ki & Ci & Ri & Ko & Co & Ro & ki & ci & ko & co & Em & El & H1 & H2 & H3 & H4 & H5);
    [done|lia|].
  cbn [app length Nat.add] in El, H2, H3, H4, H5. rewrite El. cbv zeta.
  destruct (move_rest_spec (length (Ki ++ Ci ++ Ri)) Ki Ci Ri) as (Ci2 & HCi & ->);
    [rewrite !length_app; lia|].
  rewrite H1.
  destruct (move_rest_spec (length (Ko ++ Co ++ Ro)) Ko Co Ro) as (Co2 & HCo & ->);
    [rewrite !length_app; lia|].
  rewrite H2, H4, !length_app. rewrite (Permutation_length HCi), H1, (Permutation_length HCo).
  rewrite !Nat.add_sub, !take_app_length, !drop_app_length.
  destruct (merge_cut_perm _ _ _ _ _ _ _ Em) as (P1 & P2 & P3). unfold is_cut.
  rewrite HCi, H3, HCo, H5. split_and!; [done|done|by rewrite P3|].
  apply (merge_cut_disjoint _ _ _ _ _ _ _ Em); [lia|apply sort_sorted|apply sort_sorted].
Qed.

Lemma is_cut_sorted inputs outputs si so ins outs icut ocut :
  si ≡ₚ inputs -> so ≡ₚ outputs -> is_cut si so ins outs icut ocut ->
  is_cut inputs outputs (sort_by_key kt ins) (sort_by_key ku outs)
    (sort_by_key kt icut) (sort_by_key ku ocut).
Proof.
  intros Hsi Hso (H1 & H2 & H3 & H4). split_and!; [by rewrite <- Hsi, !sort_perm|by rewrite <- Hso, !sort_perm|by rewrite !sort_perm|].
  intros x y Hx Hy. rewrite sort_perm in Hx. rewrite sort_perm in Hy. auto.
Qed.

(** What comes back, and what an error means. *)
Lemma cut_through_cuts inputs outputs :
  match cut_through inputs outputs with
  | Ok (ins, outs, icut, ocut) =>
      is_cut inputs outputs ins outs icut ocut /\
      StronglySorted (fun a b => kt a < kt b) ins /\ StronglySorted (fun a b => ku a < ku b) outs
  | Err e => e = CutThrough /\ exists ins outs icut ocut,
      is_cut inputs outputs ins outs icut ocut /\ (~ NoDup (map kt ins) \/ ~ NoDup (map ku outs))
  end.
Proof.
  unfold cut_through. pose proof (cut_pass inputs outputs) as Hc. cbv zeta in Hc.
  destruct (cut_loop _ _ _ _ _ _) as [[[[i1 o1] ii] oi] n]. cbv zeta in Hc.
  set (i2 := move_rest _ i1 ii n) in *. set (o2 := move_rest _ o1 oi n) in *.
  apply (is_cut_sorted inputs outputs) in Hc; [|apply sort_perm|apply sort_perm].
  pose proof (any_adjacent_equal_sorted kt _ (sort_sorted kt (take (length i2 - n) i2))) as Hi.
  pose proof (any_adjacent_equal_sorted ku _ (sort_sorted ku (take (length o2 - n) o2))) as Ho.
  destruct (any_adjacent_equal kt _); [split; [done|]; eauto 10|].
  destruct (any_adjacent_equal ku _); [split; [done|]; eauto 10|]. done.
Qed.

(** [cut_through] removes exactly the matching pairs: on success both
    slices are split into kept and cut elements, the cut inputs and outputs
    carry the same commitments one to one, no kept input spends a kept output,
    and the kept elements come back strictly sorted. It fails only when the
    kept inputs or the kept outputs contain a duplicate. *)
Theorem cut_through_spec inputs outputs :
  match cut_through inputs outputs with
  | Ok (ins, outs, icut, ocut) =>
      is_cut inputs outputs ins outs icut ocut /\
      StronglySorted (fun a b => kt a < kt b) ins /\ StronglySorted (fun a b => ku a < ku b) outs
  | Err e => e = CutThrough /\ exists ins outs icut ocut,
      is_cut inputs outputs ins outs icut ocut /\ (~ NoDup (map kt ins) \/ ~ NoDup (map ku outs))
  end.
Proof. apply cut_through_cuts. Qed.

End cut.

Lemma cut_through_example :
  cut_through (fun x => x) (fun x => x) (fun x => x) (fun x => x) [3; 1; 2; 2] [2; 5; 3; 4]
  = Ok ([1; 2], [4; 5], [2; 3], [2; 3]).
Proof. vm_compute. reflexivity. Qed.
