(* ===== verification/Transaction.v ===== *)
(** Transactions.

    Models [TransactionBody] and [Transaction] of
    [src/core/src/core/transaction.rs] with their serialisation, weights, fees,
    validation, aggregation and deaggregation, and the [Committed] trait of
    [src/core/src/core/committed.rs].

    The chain type is an argument of the operations that ask the [global]
    module for a limit; NRD support is the [NrdFlag]. Comparisons of inputs,
    outputs and kernels are comparisons of hashes, as the [hashable_ord!] macro
    defines them. Batch verification of signatures and range proofs and the
    arithmetic of commitments belong to the secp256k1 library and come from
    [Crypto]. *)

From Stdlib Require Import ZArith Lia.
From stdpp Require Import base numbers option sorting list.
From S2P Require Import Prelude Consensus Ser Kernel CutThrough.
Open Scope Z_scope.

(** ** Inputs *)

Inductive Inputs : Type :=
| CommitOnly (inputs : list CommitWrapper)
| FeaturesAndCommit (inputs : list Input).

Inductive Weighting : Type :=
| AsTransaction
| AsLimitedTransaction (max_weight : Z)
| AsBlock
| NoLimit.

Record TransactionBody : Type := mkBody {
  inputs : Inputs;
  outputs : list Output;
  kernels : list TxKernel;
}.

Record Transaction : Type := mkTx { offset : BlindingFactor; body : TransactionBody }.

Definition blinding_zero : BlindingFactor := mkBlinding (replicate 32 0).

#[export] Instance blinding_eq_dec : EqDecision BlindingFactor.
Proof. solve_decision. Defined.

(** [Vec::dedup]: drop elements equal to their predecessor. *)
Fixpoint dedup {A} (key : A -> Z) (l : list A) : list A :=
  match l with
  | x :: ((y :: _) as tl) => if key x =? key y then dedup key tl else x :: dedup key tl
  | _ => l
  end.

(** [binary_search] followed by [insert] on a sorted vector. *)
Fixpoint insert_sorted {A} (key : A -> Z) (x : A) (l : list A) : list A :=
  match l with
  | [] => [x]
  | y :: l' =>
      if key y <? key x then y :: insert_sorted key x l'
      else if key y =? key x then l
      else x :: l
  end.

Section transaction.
Context {CR : Crypto} {SU : SortUnstable} {NF : NrdFlag}.

Definition inputs_len (i : Inputs) : Z :=
  match i with
  | CommitOnly l => Z.of_nat (length l)
  | FeaturesAndCommit l => Z.of_nat (length l)
  end.

Definition inputs_is_empty (i : Inputs) : bool := inputs_len i =? 0.

(** [From<Inputs> for Vec<CommitWrapper>] *)
Definition inputs_to_wrappers (i : Inputs) : list CommitWrapper :=
  match i with
  | CommitOnly l => l
  | FeaturesAndCommit l => sort_by_key hash_key (map wrapper_of_input l)
  end.

(** [From<&[OutputIdentifier]> for Inputs] *)
Definition inputs_of_identifiers (l : list OutputIdentifier) : Inputs :=
  FeaturesAndCommit (sort_by_key hash_key (map input_of_identifier l)).

Definition inputs_verify_sorted_and_unique (i : Inputs) : result ser_error unit :=
  match i with
  | CommitOnly l => verify_sorted_and_unique (key_gt hash_key) (key_eqb hash_key) l
  | FeaturesAndCommit l => verify_sorted_and_unique (key_gt hash_key) (key_eqb hash_key) l
  end.

Definition inputs_sort_unstable (i : Inputs) : Inputs :=
  match i with
  | CommitOnly l => CommitOnly (sort_by_key hash_key l)
  | FeaturesAndCommit l => FeaturesAndCommit (sort_by_key hash_key l)
  end.

Definition write_inputs (w : Writer) (i : Inputs) : result ser_error bytes :=
  if inputs_is_empty i then Ok []
  else if is_hash_mode (serialization_mode w) then
    match i with
    | CommitOnly l => write_vec w l
    | FeaturesAndCommit l => write_vec w l
    end
  else
    match i with
    | CommitOnly l =>
        if value (w_protocol_version w) <=? 2 then Err UnsupportedProtocolVersion
        else write_vec w l
    | FeaturesAndCommit l =>
        if value (w_protocol_version w) <=? 2 then write_vec w l
        else write_vec w (inputs_to_wrappers i)
    end.

(** ** Bodies *)

Definition write_body (w : Writer) (b : TransactionBody) : result ser_error bytes :=
  write_u64 w (inputs_len (inputs b)) +w+
  write_u64 w (Z.of_nat (length (outputs b))) +w+
  write_u64 w (Z.of_nat (length (kernels b))) +w+
  write_inputs w (inputs b) +w+ write_vec w (outputs b) +w+ write_vec w (kernels b).

Definition weight_by_iok (num_inputs num_outputs num_kernels : Z) : Z :=
  sat_add64
    (sat_add64 (sat_mul64 num_inputs INPUT_WEIGHT) (sat_mul64 num_outputs OUTPUT_WEIGHT))
    (sat_mul64 num_kernels KERNEL_WEIGHT).

Definition body_weight (b : TransactionBody) : Z :=
  weight_by_iok (inputs_len (inputs b)) (Z.of_nat (length (outputs b)))
    (Z.of_nat (length (kernels b))).

Definition inputs_committed (b : TransactionBody) : list Commitment :=
  map cw_commit (inputs_to_wrappers (inputs b)).
Definition outputs_committed (b : TransactionBody) : list Commitment :=
  map output_commitment (outputs b).
Definition kernels_committed (b : TransactionBody) : list Commitment := map excess (kernels b).

Definition body_empty : TransactionBody := mkBody (CommitOnly []) [] [].

Definition body_sort (b : TransactionBody) : TransactionBody :=
  mkBody (inputs_sort_unstable (inputs b)) (sort_by_key output_key (outputs b))
    (sort_by_key hash_key (kernels b)).

Definition verify_sorted (b : TransactionBody) : result Error unit :=
  map_err Serialization
    (inputs_verify_sorted_and_unique (inputs b) ;?
     verify_sorted_and_unique (key_gt output_key) (key_eqb output_key) (outputs b) ;?
     verify_sorted_and_unique (key_gt hash_key) (key_eqb hash_key) (kernels b)).

Definition body_init (inputs : Inputs) (outputs : list Output) (kernels : list TxKernel)
    (verify_sorted_flag : bool) : result Error TransactionBody :=
  let body := mkBody inputs outputs kernels in
  if verify_sorted_flag then verify_sorted body ;? Ok body
  else Ok (body_sort body).

(** The inputs of [TransactionBody::read]. *)
Definition read_inputs {R} `{Reader R} (r : R) (num_inputs : Z) : result ser_error (Inputs * R) :=
  if value (protocol_version r) <=? 2 then
    let? (l, r) := read_multi (A := Input) r num_inputs in Ok (FeaturesAndCommit l, r)
  else
    let? (l, r) := read_multi (A := CommitWrapper) r num_inputs in Ok (CommitOnly l, r).

Definition read_body {R} `{Reader R} (chain : ChainTypes) (r : R)
    : result ser_error (TransactionBody * R) :=
  let? (num_inputs, r) := read_u64 r in
  let? (num_outputs, r) := read_u64 r in
  let? (num_kernels, r) := read_u64 r in
  let tx_block_weight := weight_by_iok num_inputs num_outputs num_kernels in
  if max_block_weight chain <? tx_block_weight then Err TooLargeReadErr
  else
    let? (inputs, r) := read_inputs r num_inputs in
    let? (outputs, r) := read_multi r num_outputs in
    let? (kernels, r) := read_multi r num_kernels in
    let? body := map_err (fun _ => CorruptedData) (body_init inputs outputs kernels true) in
    Ok (body, r).

Definition with_input (b : TransactionBody) (input : Input) : TransactionBody :=
  mkBody
    match inputs b with
    | CommitOnly l => CommitOnly (insert_sorted hash_key (wrapper_of_input input) l)
    | FeaturesAndCommit l => FeaturesAndCommit (insert_sorted hash_key input l)
    end (outputs b) (kernels b).

Definition replace_inputs (b : TransactionBody) (i : Inputs) : TransactionBody :=
  mkBody i (outputs b) (kernels b).

Definition with_output (b : TransactionBody) (output : Output) : TransactionBody :=
  mkBody (inputs b) (insert_sorted output_key output (outputs b)) (kernels b).

Definition replace_outputs (b : TransactionBody) (l : list Output) : TransactionBody :=
  mkBody (inputs b) l (kernels b).

Definition with_kernel (b : TransactionBody) (kernel : TxKernel) : TransactionBody :=
  mkBody (inputs b) (outputs b) (insert_sorted hash_key kernel (kernels b)).

Definition replace_kernel (b : TransactionBody) (kernel : TxKernel) : TransactionBody :=
  mkBody (inputs b) (outputs b) [kernel].

Definition map_kernels_fees (b : TransactionBody) : list FeeFields :=
  omap (fun k =>
    match features k with
    | CoinbaseKernel => None
    | PlainKernel fee => Some fee
    | HeightLocked fee _ => Some fee
    | NoRecentDuplicate fee _ => Some fee
    end) (kernels b).

Definition body_fee (b : TransactionBody) : Z :=
  fold_left (fun acc f => sat_add64 acc (Fee.fee f)) (map_kernels_fees b) 0.

Definition body_fee_shift (b : TransactionBody) : Z :=
  fold_left (fun acc f => Z.max acc (Fee.fee_shift f)) (map_kernels_fees b) 0.

Definition shifted_fee (b : TransactionBody) : Z := shr64 (body_fee b) (body_fee_shift b).

Definition aggregate_fee_fields (b : TransactionBody) : result Error FeeFields :=
  Fee.new (body_fee_shift b) (body_fee b).

Definition body_overage (b : TransactionBody) : Z := to_signed 64 (body_fee b).

Definition lock_height (b : TransactionBody) : Z :=
  fold_left Z.max
    (omap (fun k => match features k with HeightLocked _ h => Some h | _ => None end) (kernels b)) 0.

Definition verify_weight (chain : ChainTypes) (b : TransactionBody) (weighting : Weighting)
    : result Error unit :=
  let coinbase_weight := OUTPUT_WEIGHT + KERNEL_WEIGHT in
  let check max_weight := if max_weight <? body_weight b then Err TooHeavy else Ok tt in
  match weighting with
  | AsTransaction => check (max_tx_weight chain)
  | AsLimitedTransaction max_weight =>
      check (sat_sub64 (Z.min (max_block_weight chain) max_weight) coinbase_weight)
  | AsBlock => check (max_block_weight chain)
  | NoLimit => Ok tt
  end.

Definition verify_no_nrd_duplicates (b : TransactionBody) : result Error unit :=
  if negb is_nrd_enabled then Ok tt
  else
    let nrd_excess := map excess (filter (fun k => Features.is_nrd (features k) = true) (kernels b)) in
    let nrd_excess := sort_by_key commit_key nrd_excess in
    let original_count := length nrd_excess in
    let dedup_count := length (dedup commit_key nrd_excess) in
    if (original_count =? dedup_count)%nat then Ok tt else Err InvalidNRDRelativeHeight.

Definition inputs_outputs_committed (b : TransactionBody) : list Commitment :=
  sort_by_key commit_key (inputs_committed b ++ outputs_committed b).

Definition verify_cut_through (b : TransactionBody) : result Error unit :=
  if any_adjacent_equal commit_key (inputs_outputs_committed b) then Err CutThrough else Ok tt.

Definition verify_output_features (b : TransactionBody) : result Error unit :=
  if existsb output_is_coinbase (outputs b) then Err InvalidOutputFeatures else Ok tt.

Definition verify_kernel_features (b : TransactionBody) : result Error unit :=
  if existsb (fun k => Features.is_coinbase (features k)) (kernels b)
  then Err InvalidKernelFeatures else Ok tt.

Definition verify_features (b : TransactionBody) : result Error unit :=
  verify_output_features b ;? verify_kernel_features b.

Definition body_validate_read (chain : ChainTypes) (b : TransactionBody) (weighting : Weighting)
    : result Error unit :=
  verify_weight chain b weighting ;?
  verify_no_nrd_duplicates b ;?
  verify_sorted b ;?
  verify_cut_through b.

Definition batch_verify_proofs (commits : list Commitment) (proofs : list RangeProof)
    : result Error unit :=
  if verify_bullet_proof_multi commits proofs then Ok tt else Err Secp.

Definition body_validate (chain : ChainTypes) (b : TransactionBody) (weighting : Weighting)
    : result Error unit :=
  body_validate_read chain b weighting ;?
  match outputs b with
  | [] => Ok tt
  | _ => batch_verify_proofs (map output_commitment (outputs b)) (map out_proof (outputs b))
  end ;?
  batch_sig_verify (kernels b).

(** ** [Committed] *)

(** [secp_static::commit_to_zero_value()] *)
Definition commit_to_zero_value : Commitment := mkCommitment (replicate 33 0).

Definition sum_commits (positive negative : list Commitment) : result Error Commitment :=
  let zero_commit := commit_to_zero_value in
  let keep := filter (fun x => x <> zero_commit) in
  ok_or (commit_sum (keep positive) (keep negative)) Committed.

Definition sum_kernel_excesses (kernel_commits : list Commitment) (offset : BlindingFactor)
    : result Error (Commitment * Commitment) :=
  let? kernel_sum := sum_commits kernel_commits [] in
  let? commits :=
    if decide (offset = blinding_zero) then Ok [kernel_sum]
    else let? c := ok_or (commit_blind offset) Committed in Ok [kernel_sum; c] in
  let? kernel_sum_plus_offset := ok_or (commit_sum commits []) Committed in
  Ok (kernel_sum, kernel_sum_plus_offset).

(** [overage] is an [i64], whose [checked_abs] fails on the least value. *)
Definition sum_commitments (input_commits output_commits : list Commitment) (overage : Z)
    : result Error Commitment :=
  if overage =? 0 then sum_commits output_commits input_commits
  else if overage =? - 2 ^ 63 then Err Committed
  else
    let over_commit := commit_value (Z.abs overage) in
    if overage <? 0 then sum_commits output_commits (input_commits ++ [over_commit])
    else sum_commits (output_commits ++ [over_commit]) input_commits.

(** [verify_kernel_sums], given what the implementation of the trait commits to. *)
Definition verify_kernel_sums (inputs outputs kernels : list Commitment) (overage : Z)
    (kernel_offset : BlindingFactor) : result Error (Commitment * Commitment) :=
  let? utxo_sum := sum_commitments inputs outputs overage in
  let? (kernel_sum, kernel_sum_plus_offset) := sum_kernel_excesses kernels kernel_offset in
  if decide (utxo_sum = kernel_sum_plus_offset) then Ok (utxo_sum, kernel_sum)
  else Err KernelSumMismatch.

Definition to_secrets (bf : list BlindingFactor) : list Z :=
  omap secret_key (filter (fun x => x <> blinding_zero) bf).

Definition sum_kernel_offsets (positive negative : list BlindingFactor)
    : result Error BlindingFactor :=
  let positive := to_secrets positive in
  let negative := to_secrets negative in
  match positive with
  | [] => Ok blinding_zero
  | _ => ok_or (blind_sum positive negative) Committed
  end.

(** ** Transactions *)

Definition write_tx (w : Writer) (tx : Transaction) : result ser_error bytes :=
  write w (offset tx) +w+ write_body w (body tx).

Definition tx_empty : Transaction := mkTx blinding_zero body_empty.

(** [Transaction::new]: sorting never fails. *)
Definition tx_new (inputs : Inputs) (outputs : list Output) (kernels : list TxKernel) : Transaction :=
  mkTx blinding_zero (body_sort (mkBody inputs outputs kernels)).

Definition with_offset (tx : Transaction) (o : BlindingFactor) : Transaction := mkTx o (body tx).

Definition tx_validate_read (chain : ChainTypes) (tx : Transaction) : result Error unit :=
  body_validate_read chain (body tx) AsTransaction ;?
  verify_features (body tx).

Definition read_tx {R} `{Reader R} (chain : ChainTypes) (r : R)
    : result ser_error (Transaction * R) :=
  let? (offset, r) := read r in
  let? (body, r) := read_body chain r in
  let tx := mkTx offset body in
  map_err (fun _ => CorruptedData) (tx_validate_read chain tx) ;?
  Ok (tx, r).

Definition tx_validate (chain : ChainTypes) (tx : Transaction) (weighting : Weighting)
    : result Error unit :=
  verify_features (body tx) ;?
  body_validate chain (body tx) weighting ;?
  let? _ := verify_kernel_sums (inputs_committed (body tx)) (outputs_committed (body tx))
             (kernels_committed (body tx)) (body_overage (body tx)) (offset tx) in
  Ok tt.

(** Division panics for a body of weight zero. *)
Definition fee_rate (tx : Transaction) : option Z :=
  if body_weight (body tx) =? 0 then None else Some (body_fee (body tx) / body_weight (body tx)).

Definition accept_fee (accept_fee_base : Z) (tx : Transaction) : Z :=
  mul64 (body_weight (body tx)) accept_fee_base.

Definition old_weight_by_iok (num_inputs num_outputs num_kernels : Z) : Z :=
  let body_weight := sat_sub64 (sat_add64 (sat_mul64 num_outputs 4) num_kernels) num_inputs in
  Z.max body_weight 1.

(** ** Aggregation *)

Definition aggregate (txs : list Transaction) : result Error Transaction :=
  match txs with
  | [] => Ok tx_empty
  | [tx] => Ok tx
  | _ =>
      let kernel_offsets := map offset txs in
      let all_inputs := concat (map (fun tx => inputs_to_wrappers (inputs (body tx))) txs) in
      let all_outputs := concat (map (fun tx => outputs (body tx)) txs) in
      let all_kernels := concat (map (fun tx => kernels (body tx)) txs) in
      let? (ins, outs, _, _) :=
        cut_through (fun c => commit_key (cw_commit c)) hash_key
          (fun o => commit_key (output_commitment o)) output_key all_inputs all_outputs in
      let? total_kernel_offset := sum_kernel_offsets kernel_offsets [] in
      Ok (with_offset (tx_new (CommitOnly ins) outs all_kernels) total_kernel_offset)
  end.

(** [contains], equality being that of keys. *)
Definition contains {A} (key : A -> Z) (l : list A) (x : A) : bool :=
  existsb (fun y => key y =? key x) l.

(** The loops of [deaggregate]: collect the elements of [mk] that are not in
    [tx], each once. *)
Definition difference {A} (key : A -> Z) (mk tx : list A) : list A :=
  fold_left (fun acc x =>
    if negb (contains key tx x) && negb (contains key acc x) then acc ++ [x] else acc) mk [].

Definition deaggregate (mk_tx : Transaction) (txs : list Transaction) : result Error Transaction :=
  let? tx := aggregate txs in
  let ins := difference hash_key (inputs_to_wrappers (inputs (body mk_tx)))
               (inputs_to_wrappers (inputs (body tx))) in
  let outs := difference output_key (outputs (body mk_tx)) (outputs (body tx)) in
  let kers := difference hash_key (kernels (body mk_tx)) (kernels (body tx)) in
  let positive_keys := to_secrets [offset mk_tx] in
  let negative_keys := to_secrets [offset tx] in
  let? total_kernel_offset :=
    match positive_keys, negative_keys with
    | [], [] => Ok blinding_zero
    | _, _ => ok_or (blind_sum positive_keys negative_keys) Secp
    end in
  let ins := sort_by_key hash_key ins in
  let outs := sort_by_key output_key outs in
  let kers := sort_by_key hash_key kers in
  Ok (with_offset (tx_new (CommitOnly ins) outs kers) total_kernel_offset).

(** * Lemmas *)

(** ** Lists ordered by keys *)

#[local] Instance sumZ_proper : Proper ((≡ₚ) ==> (=)) sumZ.
Proof. induction 1; unfold sumZ in *; simpl; lia. Qed.

Lemma any_adjacent_equal_iff {A} (key : A -> Z) l :
  StronglySorted (fun a b => key a <= key b) l ->
  any_adjacent_equal key l = false <-> NoDup (map key l).
Proof.
  intros Hs. pose proof (any_adjacent_equal_sorted key l Hs) as H.
  destruct (any_adjacent_equal key l); [done|]. split; [intros _|done]. clear Hs.
  induction H as [|x l Hs IH Hx]; simpl; constructor; [|done].
  rewrite elem_of_map. intros (y & E & Hy). eapply Forall_forall in Hx; [|exact Hy]. lia.
Qed.

Lemma dedup_length {A} (key : A -> Z) l :
  ((length (dedup key l) <= length l)%nat) /\
  ((length l =? length (dedup key l))%nat = negb (any_adjacent_equal key l)).
Proof.
  induction l as [|x l [IH1 IH2]]; [done|]. destruct l as [|y l]; [done|].
  change (dedup key (x :: y :: l))
    with (if key x =? key y then dedup key (y :: l) else x :: dedup key (y :: l)).
  change (any_adjacent_equal key (x :: y :: l))
    with ((key x =? key y) || any_adjacent_equal key (y :: l)).
  set (d := dedup key (y :: l)) in *. cbn [length] in *.
  destruct (key x =? key y); cbn [orb length]; (split; [lia|]).
  - apply Nat.eqb_neq. lia.
  - exact IH2.
Qed.

Lemma insert_sorted_spec {A} (key : A -> Z) x l :
  StronglySorted (fun a b => key a < key b) l ->
  StronglySorted (fun a b => key a < key b) (insert_sorted key x l) /\
  (if contains key l x then insert_sorted key x l = l else insert_sorted key x l ≡ₚ x :: l).
Proof.
  unfold contains. induction 1 as [|y l Hs [IH1 IH2] Hy]; simpl.
  { split; [repeat constructor|done]. }
  destruct (Z.ltb_spec (key y) (key x)) as [Hlt|Hge].
  - destruct (Z.eqb_spec (key y) (key x)); [lia|]. cbn [orb]. split.
    + constructor; [done|]. destruct (existsb _ l).
      * by rewrite IH2.
      * rewrite IH2. by constructor.
    + destruct (existsb _ l); [by rewrite IH2|]. rewrite IH2. apply perm_swap.
  - destruct (Z.eqb_spec (key y) (key x)) as [E|E]; cbn [orb].
    + split; [by constructor|done].
    + assert (Hno : existsb (fun z => key z =? key x) l = false).
      { apply not_true_is_false. intros (z & Hz & Ez)%existsb_exists.
        apply Z.eqb_eq in Ez. apply list_elem_of_In in Hz.
        eapply Forall_forall in Hy; [|exact Hz]. lia. }
      rewrite Hno. split; [|done]. constructor; [by constructor|]. constructor; [lia|].
      eapply Forall_impl; [exact Hy|]. simpl. lia.
Qed.

(** ** Weights *)

Lemma weight_by_iok_min i o k :
  0 <= i -> 0 <= o -> 0 <= k ->
  weight_by_iok i o k = Z.min (i + 21 * o + 3 * k) (u_max 64).
Proof.
  intros. unfold weight_by_iok, sat_add64, sat_mul64, INPUT_WEIGHT, OUTPUT_WEIGHT, KERNEL_WEIGHT, u_max.
  lia.
Qed.

(** The weight that a weighting allows. *)
Definition weight_limit (chain : ChainTypes) (w : Weighting) : option Z :=
  match w with
  | AsTransaction => Some (max_block_weight chain - 24)
  | AsLimitedTransaction m => Some (Z.max (Z.min (max_block_weight chain) m - 24) 0)
  | AsBlock => Some (max_block_weight chain)
  | NoLimit => None
  end.

Definition true_weight (b : TransactionBody) : Z :=
  inputs_len (inputs b) + 21 * Z.of_nat (length (outputs b)) + 3 * Z.of_nat (length (kernels b)).

Lemma inputs_len_nonneg i : 0 <= inputs_len i.
Proof. destruct i; simpl; lia. Qed.

Lemma verify_weight_iff chain b w :
  verify_weight chain b w = Ok tt <->
  match weight_limit chain w with Some m => true_weight b <= m | None => True end.
Proof.
  unfold verify_weight, weight_limit, body_weight, true_weight.
  pose proof (inputs_len_nonneg (inputs b)).
  rewrite weight_by_iok_min by lia.
  assert (Hm : max_tx_weight chain = max_block_weight chain - 24) by (destruct chain; reflexivity).
  assert (Hb : 250 <= max_block_weight chain <= 40000) by (destruct chain; vm_compute; split; congruence).
  rewrite Hm. unfold sat_sub64, u_max. change (OUTPUT_WEIGHT + KERNEL_WEIGHT) with 24.
  destruct w; [..|done];
    match goal with |- context [if ?a <? ?c then _ else _] => destruct (Z.ltb_spec a c) end;
    split; intros; try done; lia.
Qed.

(** ** Validation *)

Definition sorted_by {A} (key : A -> Z) (l : list A) : Prop :=
  StronglySorted (fun a b => key a < key b) l.

Definition inputs_sorted (i : Inputs) : Prop :=
  match i with
  | CommitOnly l => sorted_by hash_key l
  | FeaturesAndCommit l => sorted_by hash_key l
  end.

Definition body_sorted (b : TransactionBody) : Prop :=
  inputs_sorted (inputs b) /\ sorted_by output_key (outputs b) /\ sorted_by hash_key (kernels b).

Lemma rseq_Ok {E A} (a : result E unit) (b : result E A) x :
  (a ;? b) = Ok x <-> a = Ok tt /\ b = Ok x.
Proof. destruct a as [[]|]; simpl; split; [auto|by intros [_ ?]|done|by intros [? _]]. Qed.

Lemma verify_sorted_iff_body b : verify_sorted b = Ok tt <-> body_sorted b.
Proof.
  unfold verify_sorted, body_sorted, sorted_by. rewrite <- !verify_sorted_iff.
  assert (Hm : forall r : result ser_error unit, map_err Serialization r = Ok tt <-> r = Ok tt)
    by (intros [[]|]; done).
  rewrite Hm, !rseq_Ok. unfold inputs_verify_sorted_and_unique, inputs_sorted, sorted_by.
  destruct (inputs b); by rewrite verify_sorted_iff.
Qed.

Definition nrd_excesses (b : TransactionBody) : list Commitment :=
  map excess (filter (fun k => Features.is_nrd (features k) = true) (kernels b)).

Lemma NoDup_map_perm {A} (key : A -> Z) l k : l ≡ₚ k -> NoDup (map key l) <-> NoDup (map key k).
Proof. intros E. by rewrite E. Qed.

Lemma verify_no_nrd_duplicates_iff b :
  verify_no_nrd_duplicates b = Ok tt <->
  (is_nrd_enabled = true -> NoDup (map commit_key (nrd_excesses b))).
Proof.
  unfold verify_no_nrd_duplicates. destruct is_nrd_enabled; simpl; [|split; [by intros|done]].
  fold (nrd_excesses b). rewrite (proj2 (dedup_length _ _)).
  rewrite <- (NoDup_map_perm commit_key _ _ (sort_perm commit_key (nrd_excesses b))).
  rewrite <- any_adjacent_equal_iff by apply sort_sorted.
  destruct (any_adjacent_equal _ _); simpl; naive_solver.
Qed.

Lemma verify_cut_through_iff b :
  verify_cut_through b = Ok tt <->
  NoDup (map commit_key (inputs_committed b ++ outputs_committed b)).
Proof.
  unfold verify_cut_through, inputs_outputs_committed.
  rewrite <- (NoDup_map_perm commit_key _ _ (sort_perm commit_key (inputs_committed b ++ outputs_committed b))).
  rewrite <- any_adjacent_equal_iff by apply sort_sorted.
  destruct (any_adjacent_equal _ _); naive_solver.
Qed.

(** What [validate_read] checks. *)
Definition body_valid (chain : ChainTypes) (b : TransactionBody) (w : Weighting) : Prop :=
  match weight_limit chain w with Some m => true_weight b <= m | None => True end /\
  (is_nrd_enabled = true -> NoDup (map commit_key (nrd_excesses b))) /\
  body_sorted b /\
  NoDup (map commit_key (inputs_committed b ++ outputs_committed b)).

Lemma body_validate_read_valid chain b w :
  body_validate_read chain b w = Ok tt <-> body_valid chain b w.
Proof.
  unfold body_validate_read, body_valid. rewrite !rseq_Ok.
  by rewrite verify_weight_iff, verify_no_nrd_duplicates_iff, verify_sorted_iff_body,
    verify_cut_through_iff.
Qed.

Definition no_coinbase (b : TransactionBody) : Prop :=
  Forall (fun o => output_is_coinbase o = false) (outputs b) /\
  Forall (fun k => Features.is_coinbase (features k) = false) (kernels b).

Lemma existsb_Forall {A} (f : A -> bool) l : existsb f l = false <-> Forall (fun x => f x = false) l.
Proof.
  induction l as [|x l IH]; simpl; [by rewrite Forall_nil|].
  rewrite Forall_cons, orb_false_iff, IH. done.
Qed.

Lemma verify_features_iff b : verify_features b = Ok tt <-> no_coinbase b.
Proof.
  unfold verify_features, no_coinbase, verify_output_features, verify_kernel_features.
  rewrite rseq_Ok, <- !existsb_Forall.
  destruct (existsb _ (outputs b)), (existsb _ (kernels b)); split; intros H; try done; by destruct H.
Qed.

(** ** Aggregation *)

(** The balance of a body under a valuation of commitments: what it creates
    less what it spends. *)
Definition value_of (v : Z -> Z) (cs : list Commitment) : Z := sumZ (map (fun c => v (commit_key c)) cs).
Definition balance (v : Z -> Z) (b : TransactionBody) : Z :=
  value_of v (outputs_committed b) - value_of v (inputs_committed b).

Lemma value_of_perm v cs cs' : cs ≡ₚ cs' -> value_of v cs = value_of v cs'.
Proof. intros E. unfold value_of. by rewrite E. Qed.

Lemma value_of_app v cs cs' : value_of v (cs ++ cs') = value_of v cs + value_of v cs'.
Proof. unfold value_of. by rewrite map_app, sumZ_app. Qed.

Lemma value_of_concat v css : value_of v (concat css) = sumZ (map (value_of v) css).
Proof. induction css as [|cs css IH]; [done|]. simpl. rewrite value_of_app, IH. done. Qed.

Lemma value_of_keys v cs cs' :
  map commit_key cs ≡ₚ map commit_key cs' -> value_of v cs = value_of v cs'.
Proof. intros E. unfold value_of. rewrite <- !(map_map commit_key v). by rewrite E. Qed.

Lemma map_concat {A B} (f : A -> B) (ls : list (list A)) : map f (concat ls) = concat (map (map f) ls).
Proof. apply concat_map. Qed.

Definition all_inputs (txs : list Transaction) : list CommitWrapper :=
  concat (map (fun tx => inputs_to_wrappers (inputs (body tx))) txs).
Definition all_outputs (txs : list Transaction) : list Output :=
  concat (map (fun tx => outputs (body tx)) txs).
Definition all_kernels (txs : list Transaction) : list TxKernel :=
  concat (map (fun tx => kernels (body tx)) txs).

Lemma sumZ_balance v txs :
  sumZ (map (fun tx => balance v (body tx)) txs) =
  value_of v (map output_commitment (all_outputs txs)) - value_of v (map cw_commit (all_inputs txs)).
Proof.
  unfold all_outputs, all_inputs. rewrite !map_concat, !value_of_concat, !map_map.
  induction txs as [|tx txs IH]; unfold sumZ in *; simpl; [done|]. rewrite IH.
  unfold balance, outputs_committed, inputs_committed. lia.
Qed.

Lemma aggregate_many tx1 tx2 txs tx :
  aggregate (tx1 :: tx2 :: txs) = Ok tx ->
  exists ins outs ic oc,
    is_cut (fun c => commit_key (cw_commit c)) (fun o => commit_key (output_commitment o))
      (all_inputs (tx1 :: tx2 :: txs)) (all_outputs (tx1 :: tx2 :: txs)) ins outs ic oc /\
    sorted_by hash_key ins /\ sorted_by output_key outs /\
    sum_kernel_offsets (map offset (tx1 :: tx2 :: txs)) [] = Ok (offset tx) /\
    body tx = body_sort (mkBody (CommitOnly ins) outs (all_kernels (tx1 :: tx2 :: txs))).
Proof.
  unfold aggregate. cbv zeta. set (l := tx1 :: tx2 :: txs).
  fold (all_inputs l) (all_outputs l) (all_kernels l).
  pose proof (cut_through_cuts (fun c => commit_key (cw_commit c)) hash_key
    (fun o => commit_key (output_commitment o)) output_key (all_inputs l) (all_outputs l)) as Hc.
  destruct (cut_through _ _ _ _ _ _) as [[[[ins outs] ic] oc]|]; cbn [rbind]; [|done].
  destruct Hc as (Hc & Hi & Ho). destruct (sum_kernel_offsets (map offset l) []) eqn:Eo; cbn [rbind]; [|done].
  intros [= <-]. exists ins, outs, ic, oc. done.
Qed.

Lemma body_sort_lists b :
  inputs_to_wrappers (inputs (body_sort b)) ≡ₚ inputs_to_wrappers (inputs b) /\
  outputs (body_sort b) ≡ₚ outputs b /\ kernels (body_sort b) ≡ₚ kernels b.
Proof.
  unfold body_sort. cbn [inputs outputs kernels inputs_sort_unstable].
  split; [|split; apply sort_perm].
  destruct (inputs b); cbn [inputs_sort_unstable inputs_to_wrappers]; [apply sort_perm|].
  rewrite (sort_perm hash_key (map _ _)), (sort_perm hash_key (map _ inputs0)).
  apply Permutation_map, sort_perm.
Qed.

(** What aggregation does to values, kernels and offsets. *)
Lemma aggregate_balance txs tx :
  aggregate txs = Ok tx ->
  (forall v, balance v (body tx) = sumZ (map (fun t => balance v (body t)) txs)) /\
  kernels (body tx) ≡ₚ all_kernels txs /\
  ((2 <= length txs)%nat ->
     sum_kernel_offsets (map offset txs) [] = Ok (offset tx) /\
     forall i o, i ∈ inputs_committed (body tx) -> o ∈ outputs_committed (body tx) ->
       commit_key i <> commit_key o).
Proof.
  destruct txs as [|tx1 [|tx2 txs]].
  - intros [= <-]. split; [|split; [done|simpl; lia]]. done.
  - intros [= <-]. split; [|split; [|simpl; lia]].
    + intros v. unfold sumZ. simpl. lia.
    + unfold all_kernels. simpl. by rewrite app_nil_r.
  - intros (ins & outs & ic & oc & (Pi & Po & Pk & Hd) & _ & _ & Hoff & Eb)%aggregate_many.
    set (l := tx1 :: tx2 :: txs) in *.
    destruct (body_sort_lists (mkBody (CommitOnly ins) outs (all_kernels l))) as (Li & Lo & Lk).
    rewrite <- Eb in Li, Lo, Lk. cbn [inputs outputs kernels inputs_to_wrappers] in *.
    split; [|split; [done|intros _; split; [done|]]].
    + intros v. rewrite sumZ_balance. unfold balance, outputs_committed, inputs_committed.
      rewrite (value_of_perm v _ _ (Permutation_map output_commitment Lo)).
      rewrite (value_of_perm v _ _ (Permutation_map cw_commit Li)).
      rewrite (value_of_perm v _ _ (Permutation_map output_commitment Po)).
      rewrite (value_of_perm v _ _ (Permutation_map cw_commit Pi)).
      rewrite !map_app, !value_of_app.
      rewrite (value_of_keys v (map cw_commit ic) (map output_commitment oc));
        [lia|by rewrite !map_map].
    + intros i o. unfold inputs_committed, outputs_committed. rewrite !elem_of_map.
      intros (x & -> & Hx) (y & -> & Hy). rewrite Li in Hx. rewrite Lo in Hy. by apply Hd.
Qed.

(** ** Serialisation *)

(** What a reader of a protocol version makes of a body: up to version 2 the
    inputs carry features, later versions only have commitments. *)
Definition inputs_as_read (v : ProtocolVersion) (i : Inputs) : Inputs :=
  if value v <=? 2 then match i with CommitOnly _ => FeaturesAndCommit [] | _ => i end
  else CommitOnly (inputs_to_wrappers i).

Definition body_as_read (v : ProtocolVersion) (b : TransactionBody) : TransactionBody :=
  mkBody (inputs_as_read v (inputs b)) (outputs b) (kernels b).

Definition inputs_ok (i : Inputs) : Prop :=
  match i with
  | CommitOnly l => Forall wrapper_ok l
  | FeaturesAndCommit l => Forall input_ok l
  end.

Definition body_ok (b : TransactionBody) : Prop :=
  inputs_ok (inputs b) /\ Forall output_ok (outputs b) /\
  Forall (kernel_ok is_nrd_enabled) (kernels b).

(** Commitments alone cannot be written for a version that needs features. *)
Definition inputs_writable (v : ProtocolVersion) (i : Inputs) : Prop :=
  match i with CommitOnly (_ :: _) => 2 < value v | _ => True end.

Lemma inputs_to_wrappers_length i : Z.of_nat (length (inputs_to_wrappers i)) = inputs_len i.
Proof. destruct i; simpl; [done|]. by rewrite sort_perm, length_map. Qed.

Lemma inputs_to_wrappers_ok i : inputs_ok i -> Forall wrapper_ok (inputs_to_wrappers i).
Proof.
  destruct i as [l|l]; simpl; [done|]. intros H. rewrite sort_perm.
  apply Forall_map. eapply Forall_impl; [exact H|done].
Qed.

Lemma inputs_as_read_len v i : inputs_writable v i -> inputs_len (inputs_as_read v i) = inputs_len i.
Proof.
  unfold inputs_as_read. destruct (Z.leb_spec (value v) 2).
  - destruct i as [[|]|]; simpl; [done|lia|done].
  - intros _. apply inputs_to_wrappers_length.
Qed.

Lemma inputs_roundtrips v i :
  inputs_ok i -> inputs_writable v i -> inputs_len i <= 1000000 ->
  exists bs, write_inputs (mkWriter SerFull v) i = Ok bs /\
    forall R (RD : Reader R) (RL : ReaderLaws R) (r : R) tl,
      protocol_version r = v -> deserialization_mode r = DeFull -> input r = bs ++ tl ->
      exists r', read_inputs r (inputs_len i) = Ok (inputs_as_read v i, r') /\ advanced input r r' tl.
Proof.
  intros Hok Hw Hlen. unfold read_inputs, write_inputs, inputs_as_read, inputs_is_empty.
  cbn [serialization_mode is_hash_mode w_protocol_version].
  destruct (Z.leb_spec (value v) 2) as [Hv|Hv].
  - assert (Hl : exists l, inputs_len i = Z.of_nat (length l) /\ Forall input_ok l /\
        FeaturesAndCommit l = match i with CommitOnly _ => FeaturesAndCommit [] | _ => i end /\
        (inputs_len i = 0 -> l = []) /\
        match i with
        | CommitOnly l => inputs_len i = 0
        | FeaturesAndCommit l' => l' = l end).
    { destruct i as [[|]|l]; simpl in *; [exists []|lia|exists l]; try done.
      split_and!; try done. destruct l; simpl; [done|lia]. }
    destruct Hl as (l & El & Hl & <- & Hnil & Hi).
    destruct (read_multi_ok v l) as (bs & Eb & Hr);
      [eapply Forall_impl; [exact Hl|apply input_roundtrips]|lia|].
    exists bs. split.
    + destruct (Z.eqb_spec (inputs_len i) 0) as [E0|]; [by rewrite (Hnil E0) in Eb|].
      destruct i; [lia|by subst].
    + intros R RD RL r tl Ev Em Hin. rewrite Ev, El. destruct (Hr R RD RL r tl Ev Em Hin) as (r' & E & Ha).
      destruct (Z.leb_spec (value v) 2); [|lia]. rewrite E. simpl. by eexists.
  - destruct (read_multi_ok v (inputs_to_wrappers i)) as (bs & Eb & Hr);
      [eapply Forall_impl; [by apply inputs_to_wrappers_ok|apply wrapper_roundtrips]
      |rewrite inputs_to_wrappers_length; lia|].
    rewrite inputs_to_wrappers_length in Hr. exists bs. split.
    + destruct (Z.eqb_spec (inputs_len i) 0) as [E0|]; [|by destruct i].
      rewrite <- inputs_to_wrappers_length in E0.
      by destruct (inputs_to_wrappers i); [|simpl in E0; lia].
    + intros R RD RL r tl Ev Em Hin. rewrite Ev. destruct (Hr R RD RL r tl Ev Em Hin) as (r' & E & Ha).
      destruct (Z.leb_spec (value v) 2); [lia|]. rewrite E. simpl. by eexists.
Qed.

Opaque be.
Lemma body_roundtrips v chain b :
  body_ok b -> inputs_writable v (inputs b) -> true_weight b <= max_block_weight chain ->
  body_sorted (body_as_read v b) ->
  exists bs, write_body (mkWriter SerFull v) b = Ok bs /\
    forall R (RD : Reader R) (RL : ReaderLaws R) (r : R) tl,
      protocol_version r = v -> deserialization_mode r = DeFull -> input r = bs ++ tl ->
      exists r', read_body chain r = Ok (body_as_read v b, r') /\ advanced input r r' tl.
Proof.
  intros (Hi & Ho & Hk) Hw Hweight Hs. unfold true_weight in Hweight.
  assert (Hb : max_block_weight chain <= 40000) by (destruct chain; vm_compute; congruence).
  pose proof (inputs_len_nonneg (inputs b)) as Hi0.
  destruct (inputs_roundtrips v (inputs b)) as (bi & Ei & Ri); [done..|lia|].
  destruct (read_multi_ok v (outputs b)) as (bo & Eo & Ro);
    [eapply Forall_impl; [exact Ho|apply output_roundtrips]|lia|].
  destruct (read_multi_ok v (kernels b)) as (bk & Ek & Rk);
    [eapply Forall_impl; [exact Hk|apply kernel_roundtrips]|lia|].
  eexists. split.
  { unfold write_body. rewrite Ei, Eo, Ek. unfold write_u64, write_fixed_bytes, wseq. cbn [rbind].
    reflexivity. }
  intros R RD RL r tl Ev Em Hin. rewrite <- !app_assoc in Hin. unfold read_body.
  read_next read_u64_ok; [unfold_words; lia|].
  read_next read_u64_ok; [unfold_words; lia|].
  read_next read_u64_ok; [unfold_words; lia|].
  rewrite weight_by_iok_min by lia. unfold u_max.
  match goal with |- context [if ?a <? ?c then _ else _] => destruct (Z.ltb_spec a c); [lia|] end.
  match goal with Hin : input ?r = bi ++ _ |- _ =>
    destruct (Ri R RD RL r (bo ++ bk ++ tl)) as (ri & -> & Hai);
      [adv_done..|] end. cbn [rbind].
  destruct (Ro R RD RL ri (bk ++ tl)) as (ro & -> & Hao);
    [adv_done..|]. cbn [rbind].
  destruct (Rk R RD RL ro tl) as (rk & -> & Hak);
    [adv_done..|]. cbn [rbind].
  unfold body_init. fold (body_as_read v b). rewrite (proj2 (verify_sorted_iff_body _) Hs). cbn.
  exists rk. split; [done|adv_chain].
Qed.
Transparent be.

(** * Properties *)

(** C35. Aggregation conserves value, whatever the values are: for every
    valuation of commitments, what the aggregate creates less what it spends
    is the sum of the same over the transactions, so the kernel equation of
    the parts carries over. The aggregate has all their kernels and no others,
    the sum of their offsets, and cut-through is complete: it spends none of
    its own outputs. *)
Theorem aggregate_conserves txs tx :
  aggregate txs = Ok tx ->
  (forall v, balance v (body tx) = sumZ (map (fun t => balance v (body t)) txs)) /\
  kernels (body tx) ≡ₚ all_kernels txs /\
  ((2 <= length txs)%nat ->
     sum_kernel_offsets (map offset txs) [] = Ok (offset tx) /\
     forall i o, i ∈ inputs_committed (body tx) -> o ∈ outputs_committed (body tx) ->
       commit_key i <> commit_key o).
Proof. apply aggregate_balance. Qed.

(** C36. [validate_read] of a body checks exactly its meaning: the weight
    (without overflow, however many elements there are) is within the limit of
    the weighting, NRD kernels have distinct excesses when the feature is on,
    inputs, outputs and kernels are each strictly sorted by hash, and no
    commitment occurs twice among inputs and outputs together. *)
Theorem body_validate_read_iff chain b w :
  body_validate_read chain b w = Ok tt <-> body_valid chain b w.
Proof. apply body_validate_read_valid. Qed.

(** A transaction read from bytes is already valid: whatever the bytes and
    the reader, if reading succeeds the transaction satisfies the lightweight
    rules for a transaction and contains no coinbase output or kernel. *)
Theorem read_tx_valid R (RD : Reader R) chain (r r' : R) tx :
  read_tx chain r = Ok (tx, r') ->
  body_valid chain (body tx) AsTransaction /\ no_coinbase (body tx).
Proof.
  unfold read_tx. intros H.
  apply rbind_Ok in H as ([off r1] & _ & H). apply rbind_Ok in H as ([b r2] & _ & H).
  apply rbind_Ok in H as ([] & Hv & H). injection H as <- <-.
  unfold tx_validate_read in Hv. simpl in Hv.
  rewrite <- body_validate_read_valid, <- verify_features_iff.
  apply rseq_Ok. destruct (body_validate_read chain b AsTransaction ;? verify_features b) as [[]|] eqn:E;
    [exact E|discriminate Hv].
Qed.

(** Transactions survive serialisation: a transaction with in-range fields
    that fits a block is read back by every reader of the same protocol
    version exactly when the lightweight rules accept it, and rejected as
    corrupted otherwise. Up to version 2 inputs keep their features (bare
    commitments cannot be written); from version 3 on only commitments come
    back. *)
Theorem tx_roundtrip v chain tx :
  Z.of_nat (length (blinding_bytes (offset tx))) = SECRET_KEY_SIZE ->
  body_ok (body tx) -> inputs_writable v (inputs (body tx)) ->
  true_weight (body tx) <= max_block_weight chain -> body_sorted (body_as_read v (body tx)) ->
  exists bs, write_tx (mkWriter SerFull v) tx = Ok bs /\
    forall R (RD : Reader R) (RL : ReaderLaws R) (r : R) tl,
      protocol_version r = v -> deserialization_mode r = DeFull -> input r = bs ++ tl ->
      let tx' := mkTx (offset tx) (body_as_read v (body tx)) in
      match tx_validate_read chain tx' with
      | Ok _ => exists r', read_tx chain r = Ok (tx', r') /\ advanced input r r' tl
      | Err _ => read_tx chain r = Err CorruptedData
      end.
Proof.
  intros Hoff Hok Hw Hweight Hs.
  destruct (blinding_roundtrips v (offset tx) Hoff) as (b1 & E1 & R1).
  destruct (body_roundtrips v chain (body tx) Hok Hw Hweight Hs) as (b2 & E2 & R2).
  exists (b1 ++ b2). split; [by apply wseq_Ok|].
  intros R RD RL r tl Hv Hm Hin. rewrite <- app_assoc in Hin. cbv zeta. unfold read_tx.
  destruct (R1 R RD RL r _ Hv Hm Hin) as (r1 & -> & Ha1). cbn [rbind].
  destruct (R2 R RD RL r1 tl) as (r2 & -> & Ha2); [adv_done..|]. cbn [rbind].
  destruct (tx_validate_read chain _) as [[]|]; cbn; [|done].
  exists r2. split; [done|adv_chain].
Qed.

(** The builders keep a body sorted: adding an input, an output or a
    kernel to a sorted body gives a sorted body that contains the element next
    to the old ones, or the same body if an equal element is already there. *)
Theorem builders_keep_sorted b i o k :
  body_sorted b ->
  body_sorted (with_input b i) /\ body_sorted (with_output b o) /\ body_sorted (with_kernel b k) /\
  (if contains output_key (outputs b) o then with_output b o = b
   else outputs (with_output b o) ≡ₚ o :: outputs b) /\
  (if contains hash_key (kernels b) k then with_kernel b k = b
   else kernels (with_kernel b k) ≡ₚ k :: kernels b).
Proof.
  intros (Hi & Ho & Hk). unfold body_sorted, with_input, with_output, with_kernel, sorted_by in *. simpl.
  destruct (insert_sorted_spec output_key o _ Ho) as [So Co].
  destruct (insert_sorted_spec hash_key k _ Hk) as [Sk Ck].
  split_and!; try done.
  - destruct (inputs b); simpl in *; by apply insert_sorted_spec.
  - destruct (contains _ _ o); [rewrite Co; by destruct b|done].
  - destruct (contains _ _ k); [rewrite Ck; by destruct b|done].
Qed.

End transaction.

(** ** Witnesses *)

Section samples.
#[local] Existing Instance sample_crypto.
#[local] Existing Instance merge_sort_unstable.
#[local] Instance nrd_on : NrdFlag := true.

Definition sample_commitment (n : Z) : Commitment := mkCommitment (be 33 n).

(** A transaction that spends one commitment and creates another. *)
Definition sample_tx (i o k : Z) : Transaction :=
  mkTx (mkBlinding (be 32 k))
    (mkBody (CommitOnly [mkCommitWrapper (sample_commitment i)])
       [mkOutput (mkOutputId PlainOutput (sample_commitment o)) (mkRangeProof 675 (repeat 0 675))]
       [mkKernel (PlainKernel (mkFeeFields 1)) (sample_commitment k) (mkSignature (replicate 64 0))]).

(** The second transaction spends what the first creates. *)
Definition sample_aggregate : Transaction :=
  mkTx (mkBlinding (be 32 30))
    (mkBody (CommitOnly [mkCommitWrapper (sample_commitment 1)])
       (outputs (body (sample_tx 2 3 20)))
       (kernels (body (sample_tx 1 2 10)) ++ kernels (body (sample_tx 2 3 20)))).

Lemma aggregate_conserves_witness :
  aggregate [sample_tx 1 2 10; sample_tx 2 3 20] = Ok sample_aggregate /\
  balance (fun x => x) (body sample_aggregate) = (2 - 1) + (3 - 2).
Proof.
  assert (E : aggregate [sample_tx 1 2 10; sample_tx 2 3 20] = Ok sample_aggregate)
    by (vm_compute; reflexivity).
  split; [exact E|]. rewrite (proj1 (aggregate_conserves _ _ E)). vm_compute. reflexivity.
Defined.

Lemma tx_roundtrip_witness :
  exists bs, write_tx (mkWriter SerFull (mkVersion 3)) (sample_tx 1 2 10) = Ok bs /\
    exists r', read_tx Mainnet (BinReader.mk bs (mkVersion 3) DeFull) = Ok (sample_tx 1 2 10, r').
Proof.
  destruct (tx_roundtrip (mkVersion 3) Mainnet (sample_tx 1 2 10)) as (bs & E & H).
  - reflexivity.
  - split_and!; repeat constructor; vm_compute; try reflexivity; try congruence.
  - vm_compute. reflexivity.
  - vm_compute. congruence.
  - split_and!; repeat constructor.
  - exists bs. split; [exact E|].
    specialize (H _ _ _ (BinReader.mk bs (mkVersion 3) DeFull) [] eq_refl eq_refl).
    destruct (H ltac:(simpl; by rewrite app_nil_r)) as (r' & Er & _). by exists r'.
Defined.

Lemma read_tx_valid_witness :
  body_valid Mainnet (body (sample_tx 1 2 10)) AsTransaction /\ no_coinbase (body (sample_tx 1 2 10)).
Proof.
  assert (E : exists bs r', read_tx Mainnet (BinReader.mk bs (mkVersion 3) DeFull) = Ok (sample_tx 1 2 10, r')).
  { eexists (be 32 10 ++ be 8 1 ++ be 8 1 ++ be 8 1 ++ be 33 1 ++ [0] ++ be 33 2 ++ be 8 675 ++
             repeat 0 675 ++ [0] ++ be 8 1 ++ be 33 10 ++ repeat 0 64), _.
    vm_compute. reflexivity. }
  destruct E as (bs & r' & E). exact (read_tx_valid _ _ Mainnet _ r' _ E).
Defined.

Lemma builders_keep_sorted_witness :
  body_sorted (with_input (body (sample_tx 5 2 10)) (mkInput PlainOutput (sample_commitment 4))).
Proof.
  refine (proj1 (builders_keep_sorted (body (sample_tx 5 2 10)) (mkInput PlainOutput (sample_commitment 4))
    (mkOutput (mkOutputId PlainOutput (sample_commitment 9)) (mkRangeProof 0 []))
    (mkKernel CoinbaseKernel (sample_commitment 9) (mkSignature [])) _)).
  split_and!; repeat constructor.
Defined.

End samples.
