(* ===== verification/Siphash.v ===== *)
(** SipHash 2-4.

    Models [src/core/src/pow/siphash.rs]: the round function, single hashes and
    the blocks of 64 chained hashes from which Cuckaroo edges are taken. Words
    are 64 bits wide; the state is the four words of [SipHash24]. *)

From Stdlib Require Import ZArith Lia.
From stdpp Require Import base numbers option list.
From S2P Require Import Prelude.
Open Scope Z_scope.

Definition SIPHASH_BLOCK_BITS : Z := 6.
Definition SIPHASH_BLOCK_SIZE : Z := Z.shiftl 1 SIPHASH_BLOCK_BITS.
Definition SIPHASH_BLOCK_MASK : Z := SIPHASH_BLOCK_SIZE - 1.

(** [u64::wrapping_add] and [u64::rotate_left], with the masking written so
    that it evaluates fast. *)
Definition MASK64 : Z := 18446744073709551615.
Definition wrapping_add (a b : Z) : Z := Z.land (a + b) MASK64.
Definition rotl (num shift : Z) : Z :=
  let shift := shift mod 64 in
  Z.lor (Z.land (Z.shiftl num shift) MASK64) (Z.shiftr num (64 - shift)).

(** [[u64; 4]] *)
Definition keys : Type := Z * Z * Z * Z.

Record SipHash24 : Type := mkSip { s0 : Z; s1 : Z; s2 : Z; s3 : Z }.

Definition new (v : keys) : SipHash24 :=
  let '(v0, v1, v2, v3) := v in mkSip v0 v1 v2 v3.

Definition round (s : SipHash24) (rot_e : Z) : SipHash24 :=
  let a := wrapping_add (s0 s) (s1 s) in
  let c := wrapping_add (s2 s) (s3 s) in
  let b := rotl (s1 s) 13 in
  let d := rotl (s3 s) 16 in
  let b := Z.lxor b a in
  let d := Z.lxor d c in
  let a := rotl a 32 in
  let c := wrapping_add c b in
  let a := wrapping_add a d in
  let b := rotl b 17 in
  let d := rotl d rot_e in
  let b := Z.lxor b c in
  let d := Z.lxor d a in
  let c := rotl c 32 in
  mkSip a b c d.

(** [SipHash24::hash] *)
Definition hash_nonce (s : SipHash24) (nonce rot_e : Z) : SipHash24 :=
  let s := mkSip (s0 s) (s1 s) (s2 s) (Z.lxor (s3 s) nonce) in
  let s := round (round s rot_e) rot_e in
  let s := mkSip (Z.lxor (s0 s) nonce) (s1 s) (Z.lxor (s2 s) 255) (s3 s) in
  round (round (round (round s rot_e) rot_e) rot_e) rot_e.

Definition digest (s : SipHash24) : Z :=
  Z.lxor (Z.lxor (s0 s) (s1 s)) (Z.lxor (s2 s) (s3 s)).

Definition siphash24 (v : keys) (nonce : Z) : Z := digest (hash_nonce (new v) nonce 21).

(** The digests of a block, hashing one nonce after the other. *)
Fixpoint block_digests (s : SipHash24) (nonces : list Z) (rot_e : Z) : list Z :=
  match nonces with
  | [] => []
  | nonce :: nonces =>
      let s := hash_nonce s nonce rot_e in digest s :: block_digests s nonces rot_e
  end.

Definition siphash_block (v : keys) (nonce rot_e : Z) (xor_all : bool) : Z :=
  let nonce0 := Z.land nonce (Z.lxor SIPHASH_BLOCK_MASK (u_max 64)) in
  let nonce_i := Z.land nonce SIPHASH_BLOCK_MASK in
  let nonce_hash :=
    block_digests (new v) (map (fun i => add64 nonce0 i) (seqZ 0 SIPHASH_BLOCK_SIZE)) rot_e in
  let xor := nonce_hash !!! Z.to_nat nonce_i in
  let xor_from :=
    if xor_all || (nonce_i =? SIPHASH_BLOCK_MASK) then nonce_i + 1 else SIPHASH_BLOCK_MASK in
  fold_left Z.lxor (drop (Z.to_nat xor_from) nonce_hash) xor.

(** The vectors of the test module. *)
Lemma siphash24_vectors :
  siphash24 (1, 2, 3, 4) 10 = 928382149599306901 /\
  siphash24 (1, 2, 3, 4) 111 = 10524991083049122233 /\
  siphash24 (9, 7, 6, 7) 12 = 1305683875471634734 /\
  siphash24 (9, 7, 6, 7) 10 = 11589833042187638814.
Proof. vm_compute. auto. Qed.

Lemma siphash_block_vectors :
  siphash_block (1, 2, 3, 4) 10 21 false = 1182162244994096396 /\
  siphash_block (1, 2, 3, 4) 123 21 false = 11303676240481718781 /\
  siphash_block (9, 7, 6, 7) 12 21 false = 4886136884237259030.
Proof. vm_compute. auto. Qed.

(** * Words stay within 64 bits *)

Lemma u64_testbit x : 0 <= x -> (u64 x <-> forall i, 64 <= i -> Z.testbit x i = false).
Proof.
  intros Hx. unfold_words. split.
  - intros [_ Hlt] i Hi. rewrite <- (Z.mod_small x (2 ^ 64)) by lia. apply Z.mod_pow2_bits_high. lia.
  - intros Hb. split; [done|]. apply Z.lt_nge. intros Hge.
    assert (0 < x) by lia. pose proof (Z.log2_le_mono _ _ Hge) as Hl. rewrite Z.log2_pow2 in Hl by lia.
    specialize (Hb _ Hl). by rewrite Z.bit_log2 in Hb by lia.
Qed.

Lemma u64_lxor a b : u64 a -> u64 b -> u64 (Z.lxor a b).
Proof.
  intros Ha Hb. assert (0 <= a /\ 0 <= b) as [? ?] by (unfold_words; lia).
  apply u64_testbit; [by apply Z.lxor_nonneg|]. intros i Hi.
  rewrite Z.lxor_spec. rewrite u64_testbit in Ha, Hb by lia. by rewrite Ha, Hb.
Qed.

Lemma u64_lor a b : u64 a -> u64 b -> u64 (Z.lor a b).
Proof.
  intros Ha Hb. assert (0 <= a /\ 0 <= b) as [? ?] by (unfold_words; lia).
  apply u64_testbit; [by apply Z.lor_nonneg|]. intros i Hi.
  rewrite Z.lor_spec. rewrite u64_testbit in Ha, Hb by lia. by rewrite Ha, Hb.
Qed.

Lemma u64_land a b : u64 a -> 0 <= b -> u64 (Z.land a b).
Proof.
  intros Ha Hb. assert (0 <= a) by (unfold_words; lia).
  apply u64_testbit; [apply Z.land_nonneg; lia|]. intros i Hi.
  rewrite Z.land_spec. rewrite u64_testbit in Ha by lia. by rewrite Ha.
Qed.

Lemma u64_mask a : u64 (Z.land a MASK64).
Proof. change MASK64 with (Z.ones 64). rewrite Z.land_ones by lia. apply wrap64_range. Qed.

(** Rotating is moving every bit. *)
Lemma rotl_testbit a n i :
  u64 a -> 0 <= n < 64 -> 0 <= i < 64 -> Z.testbit (rotl a n) i = Z.testbit a ((i - n) mod 64).
Proof.
  intros Ha Hn Hi. unfold rotl. rewrite (Z.mod_small n 64) by lia. change MASK64 with (Z.ones 64).
  rewrite Z.lor_spec, Z.land_spec, Z.ones_spec_low, andb_true_r, Z.shiftr_spec, Z.shiftl_spec by lia.
  assert (Hhi : forall j, 64 <= j -> Z.testbit a j = false) by (apply u64_testbit; unfold_words; lia || done).
  destruct (Z.lt_ge_cases i n).
  - rewrite (Z.testbit_neg_r a (i - n)) by lia. simpl.
    replace ((i - n) mod 64) with (i + (64 - n)); [done|].
    apply Z.mod_unique with (-1); lia.
  - rewrite (Hhi (i + (64 - n))) by lia. rewrite orb_false_r. by rewrite Z.mod_small by lia.
Qed.

Lemma wrapping_add_wraps a b : wrapping_add a b = add64 a b.
Proof. unfold wrapping_add. change MASK64 with (Z.ones 64). by rewrite Z.land_ones. Qed.

Lemma u64_shiftr a n : u64 a -> 0 <= n -> u64 (Z.shiftr a n).
Proof.
  intros Ha Hn. rewrite Z.shiftr_div_pow2 by done. unfold_words.
  pose proof (pow2_pos n Hn). split; [apply Z.div_pos; lia|]. apply Z.div_lt_upper_bound; nia.
Qed.

Lemma u64_rotl a n : u64 a -> u64 (rotl a n).
Proof.
  intros. pose proof (Z.mod_pos_bound n 64 ltac:(lia)).
  apply u64_lor; [apply u64_mask|apply u64_shiftr; [done|lia]].
Qed.

Lemma u64_wrapping_add a b : u64 (wrapping_add a b).
Proof. apply u64_mask. Qed.

#[export] Hint Resolve u64_wrapping_add u64_lxor u64_lor u64_rotl : grin.

Definition sip_ok (s : SipHash24) : Prop := u64 (s0 s) /\ u64 (s1 s) /\ u64 (s2 s) /\ u64 (s3 s).

Lemma round_ok s r : sip_ok s -> sip_ok (round s r).
Proof.
  intros (H0 & H1 & H2 & H3). unfold round, sip_ok. cbn [s0 s1 s2 s3]. split_and!; eauto 12 with grin.
Qed.

Lemma hash_nonce_ok s n r : sip_ok s -> u64 n -> sip_ok (hash_nonce s n r).
Proof.
  intros (H0 & H1 & H2 & H3) Hn. unfold hash_nonce. do 4 apply round_ok.
  destruct (round_ok (round (mkSip (s0 s) (s1 s) (s2 s) (Z.lxor (s3 s) n)) r) r) as (?&?&?&?).
  { apply round_ok. unfold sip_ok. cbn [s0 s1 s2 s3]. eauto 6 with grin. }
  unfold sip_ok. cbn [s0 s1 s2 s3]. split_and!; eauto with grin. apply u64_lxor; [done|unfold_words; lia].
Qed.

Lemma siphash24_u64 v n : sip_ok (new v) -> u64 n -> u64 (siphash24 v n).
Proof.
  intros Hv Hn. destruct (hash_nonce_ok _ _ 21 Hv Hn) as (?&?&?&?). unfold siphash24, digest.
  eauto 6 with grin.
Qed.

Lemma block_digests_u64 s ns r :
  sip_ok s -> Forall u64 ns -> Forall u64 (block_digests s ns r).
Proof.
  intros Hs Hn. revert s Hs. induction Hn as [|n ns Hn _ IH]; intros s Hs; simpl; constructor.
  - destruct (hash_nonce_ok s n r Hs Hn) as (?&?&?&?). unfold digest. eauto 6 with grin.
  - apply IH. by apply hash_nonce_ok.
Qed.
