(* ===== verification/Cuckoo.v ===== *)
(** Verification of Cuckoo cycles.

    Models the verifiers of [src/core/src/pow/]: [cuckatoo.rs] ([verify_impl]),
    [cuckaroo.rs], [cuckarood.rs], [cuckaroom.rs] and [cuckarooz.rs] with
    [CuckooParams] of [common.rs], and the choice of the verifier in
    [create_pow_context] of [src/core/src/global.rs]. The solvers are not
    modelled.

    A [u64] is a [Z], a [usize] that indexes a vector is a [nat]. [None] stands
    for an index out of range, and for a loop that is cut off because its fuel
    is used up; [CuckooSpec] shows that neither happens, except in Cuckarood.
    One constructor of [pow_error] stands for one message of
    [Error::Verification]. *)

From Stdlib Require Import ZArith Lia.
From stdpp Require Import base numbers option list.
From S2P Require Import Prelude Consensus Siphash.
Open Scope Z_scope.

Inductive pow_error : Type :=
| WrongCycleLength
| EdgesNotBalanced
| EdgeTooBig
| EdgesNotAscending
| EndpointsDontMatchUp
| BranchInCycle
| CycleDeadEnds
| CycleTooShort
| NoCuckarooPastHardFork4
| GraphTooBig.

(** ** [common.rs] *)

Record CuckooParams : Type := mkParams {
  proof_size : nat;
  num_edges : Z;
  siphash_keys : keys;
  edge_mask : Z;
  node_mask : Z;
}.

Definition new_params (edge_bits node_bits : Z) (proof_size : nat) : CuckooParams :=
  let num_edges := shl64 1 edge_bits in
  let edge_mask := sub64 num_edges 1 in
  let num_nodes := shl64 1 node_bits in
  let node_mask := sub64 num_nodes 1 in
  mkParams proof_size num_edges (0, 0, 0, 0) edge_mask node_mask.

(** [reset_header_nonce], given the keys derived from the header. *)
Definition set_keys (p : CuckooParams) (k : keys) : CuckooParams :=
  mkParams (proof_size p) (num_edges p) k (edge_mask p) (node_mask p).

Definition sipnode (p : CuckooParams) (edge uorv : Z) : Z :=
  let hash_u64 := siphash24 (siphash_keys p) (add64 (mul64 2 edge) uorv) in
  Z.land hash_u64 (node_mask p).

(** The endpoints that the Cuckaroo family takes from one hash. *)
Definition edge_endpoints (p : CuckooParams) (rot_e : Z) (xor_all : bool) (nonce : Z) : Z * Z :=
  let edge := siphash_block (siphash_keys p) nonce rot_e xor_all in
  (Z.land edge (node_mask p), Z.land (shr64 edge 32) (node_mask p)).

(** ** Vectors *)

(** [l[i] = x] *)
Definition set {A} (l : list A) (i : nat) (x : A) : option (list A) :=
  if decide (i < length l)%nat then Some (<[i := x]> l) else None.

(** [prev[slot] = head[bits]; head[bits] = slot] *)
Definition link (head prev : list nat) (bits : Z) (slot : nat) : option (list nat * list nat) :=
  let! h := head !! Z.to_nat bits in
  let! prev := set prev slot h in
  let! head := set head (Z.to_nat bits) slot in
  Some (head, prev).

(** [for n in ns { .. }] *)
Fixpoint for_range {S} (step : S -> nat -> option (result pow_error S)) (ns : list nat) (s : S)
    : option (result pow_error S) :=
  match ns with
  | [] => Some (Ok s)
  | n :: ns =>
      let! r := step s n in
      match r with
      | Ok s => for_range step ns s
      | Err e => Some (Err e)
      end
  end.

(** [u64::leading_zeros], and the size of a proof rounded up to a power of two,
    less one. *)
Definition leading_zeros (x : Z) : Z := if x =? 0 then 64 else 63 - Z.log2 x.
Definition size_mask (size : nat) : Z := shr64 (u_max 64) (leading_zeros (Z.of_nat size)).

(** The checks on the nonce of an edge that all verifiers share. *)
Definition check_nonce (p : CuckooParams) (nonces : list Z) (n : nat) : option (result pow_error Z) :=
  let! nonce := nonces !! n in
  if edge_mask p <? nonce then Some (Err EdgeTooBig)
  else
    match n with
    | O => Some (Ok nonce)
    | S m =>
        let! previous := nonces !! m in
        if nonce <=? previous then Some (Err EdgesNotAscending) else Some (Ok nonce)
    end.

(** ** The walk along a cycle *)

Section scan.
Context (node : Z -> Z) (uvs : list Z) (prev : list nat).

(** The inner loop over a circular list of slots: [j] is the other slot at the
    node of slot [i], or [i] while none is found. *)
Fixpoint scan_circular (fuel : nat) (i j k : nat) : option (result pow_error nat) :=
  match fuel with
  | O => None
  | S fuel =>
      let! k := prev !! k in
      if (k =? i)%nat then Some (Ok j)
      else
        let! uvk := uvs !! k in
        let! uvi := uvs !! i in
        if node uvk =? node uvi then
          if negb (j =? i)%nat then Some (Err BranchInCycle)
          else scan_circular fuel i k k
        else scan_circular fuel i j k
  end.

(** The inner loop over a list that ends in [nil], from its element [k]. *)
Fixpoint scan_chain (fuel : nat) (nil i j k : nat) : option (result pow_error nat) :=
  match fuel with
  | O => None
  | S fuel =>
      if (k =? nil)%nat then Some (Ok j)
      else
        let! uvk := uvs !! k in
        let! uvi := uvs !! i in
        let! next := prev !! k in
        if node uvk =? node uvi then
          if negb (j =? i)%nat then Some (Err BranchInCycle)
          else scan_chain fuel nil i k next
        else scan_chain fuel nil i j next
  end.

End scan.

(** The outer loop: [scan i] is the inner one, [dead i j] the extra condition
    of Cuckatoo. The result is the length of the cycle. *)
Fixpoint follow (fuel : nat) (scan : nat -> option (result pow_error nat))
    (dead : nat -> nat -> bool) (i n : nat) : option (result pow_error nat) :=
  match fuel with
  | O => None
  | S fuel =>
      let! r := scan i in
      match r with
      | Err e => Some (Err e)
      | Ok j =>
          if (j =? i)%nat || dead i j then Some (Err CycleDeadEnds)
          else
            let i := Nat.lxor j 1 in
            let n := S n in
            if (i =? 0)%nat then Some (Ok n) else follow fuel scan dead i n
      end
  end.

Definition check_length (size : nat) (r : result pow_error nat) : result pow_error unit :=
  let? n := r in if (n =? size)%nat then Ok tt else Err CycleTooShort.

(** ** Bipartite graphs: Cuckatoo and Cuckaroo *)

Record bipartite : Type := mkBip {
  uvs : list Z;
  headu : list nat;
  headv : list nat;
  prev : list nat;
  xor0 : Z;
  xor1 : Z;
}.

Section bipartite.
Context (p : CuckooParams) (size : nat) (nonces : list Z).
Context (endpoints : Z -> Z * Z) (bits : Z -> Z).

Definition bip_edge (s : bipartite) (n : nat) : option (result pow_error bipartite) :=
  let! r := check_nonce p nonces n in
  match r with
  | Err e => Some (Err e)
  | Ok nonce =>
      let '(u, v) := endpoints nonce in
      let! uvs := set (uvs s) (2 * n) u in
      let! (headu, prev) := link (headu s) (prev s) (bits u) (2 * n) in
      let! uvs := set uvs (2 * n + 1) v in
      let! (headv, prev) := link (headv s) prev (bits v) (2 * n + 1) in
      Some (Ok (mkBip uvs headu headv prev (Z.lxor (xor0 s) u) (Z.lxor (xor1 s) v)))
  end.

(** One slot of the loop that makes the lists circular. *)
Definition close_slot (head : list nat) (uvs : list Z) (prev : list nat) (x : nat)
    : option (list nat) :=
  let! next := prev !! x in
  if (next =? 2 * size)%nat then
    let! uv := uvs !! x in
    let! h := head !! Z.to_nat (bits uv) in
    set prev x h
  else Some prev.

Definition bip_close (s : bipartite) (n : nat) : option (result pow_error bipartite) :=
  let! prev := close_slot (headu s) (uvs s) (prev s) (2 * n) in
  let! prev := close_slot (headv s) (uvs s) prev (2 * n + 1) in
  Some (Ok (mkBip (uvs s) (headu s) (headv s) prev (xor0 s) (xor1 s))).

Definition bip_init (xor : Z) : bipartite :=
  let heads := replicate (Z.to_nat (1 + size_mask size)) (2 * size)%nat in
  mkBip (replicate (2 * size) 0) heads heads (replicate (2 * size) 0%nat) xor xor.

(** The body of a verifier; [xor] is the start of both sums, [node] what two
    endpoints of one node have in common. *)
Definition bip_verify (xor : Z) (node : Z -> Z) (dead : Z -> Z -> bool)
    : option (result pow_error unit) :=
  let! r := for_range bip_edge (seq 0 size) (bip_init xor) in
  match r with
  | Err e => Some (Err e)
  | Ok s =>
      if negb (Z.lor (xor0 s) (xor1 s) =? 0) then Some (Err EndpointsDontMatchUp)
      else
        let! r := for_range bip_close (seq 0 size) s in
        match r with
        | Err e => Some (Err e)
        | Ok s =>
            let scan i := scan_circular node (uvs s) (prev s) (2 * size + 1) i i i in
            let dead i j := dead (uvs s !!! i) (uvs s !!! j) in
            let! r := follow (S size) scan dead 0 0 in
            Some (check_length size r)
        end
  end.

End bipartite.

Definition cuckaroo_verify (ct : ChainTypes) (p : CuckooParams) (nonces : list Z)
    : option (result pow_error unit) :=
  let size := length nonces in
  if negb (Z.of_nat size =? proofsize ct) then Some (Err WrongCycleLength)
  else
    let mask := size_mask size in
    bip_verify p size nonces (edge_endpoints p 21 false) (fun u => Z.land u mask)
      0 (fun u => u) (fun _ _ => false).

Definition cuckatoo_verify (ct : ChainTypes) (p : CuckooParams) (nonces : list Z)
    : option (result pow_error unit) :=
  let size := length nonces in
  if negb (Z.of_nat size =? proofsize ct) then Some (Err WrongCycleLength)
  else
    let mask := size_mask size in
    bip_verify p size nonces (fun nonce => (sipnode p nonce 0, sipnode p nonce 1))
      (fun u => Z.land (shr64 u 1) mask)
      (Z.land (Z.of_nat size / 2) 1) (fun u => shr64 u 1) Z.eqb.

(** ** Cuckarooz: one set of nodes *)

Record monopartite : Type := mkMono {
  m_uvs : list Z;
  m_head : list nat;
  m_prev : list nat;
  m_xoruv : Z;
}.

Section monopartite.
Context (p : CuckooParams) (size : nat) (nonces : list Z).
Context (endpoints : Z -> Z * Z) (bits : Z -> Z).

Definition mono_edge (s : monopartite) (n : nat) : option (result pow_error monopartite) :=
  let! r := check_nonce p nonces n in
  match r with
  | Err e => Some (Err e)
  | Ok nonce =>
      let '(u, v) := endpoints nonce in
      let! uvs := set (m_uvs s) (2 * n) u in
      let! (head, prev) := link (m_head s) (m_prev s) (bits u) (2 * n) in
      let! uvs := set uvs (2 * n + 1) v in
      let! (head, prev) := link head prev (bits v) (2 * n + 1) in
      Some (Ok (mkMono uvs head prev (Z.lxor (m_xoruv s) (Z.lxor u v))))
  end.

Definition mono_close (s : monopartite) (n : nat) : option (result pow_error monopartite) :=
  let! prev := close_slot size bits (m_head s) (m_uvs s) (m_prev s) n in
  Some (Ok (mkMono (m_uvs s) (m_head s) prev (m_xoruv s))).

Definition mono_init : monopartite :=
  mkMono (replicate (2 * size) 0) (replicate (Z.to_nat (1 + size_mask size)) (2 * size)%nat)
    (replicate (2 * size) 0%nat) 0.

End monopartite.

Definition cuckarooz_verify (ct : ChainTypes) (p : CuckooParams) (nonces : list Z)
    : option (result pow_error unit) :=
  let size := length nonces in
  if negb (Z.of_nat size =? proofsize ct) then Some (Err WrongCycleLength)
  else
    let mask := size_mask size in
    let bits u := Z.land u mask in
    let! r := for_range (mono_edge p nonces (edge_endpoints p 21 true) bits) (seq 0 size)
                (mono_init size) in
    match r with
    | Err e => Some (Err e)
    | Ok s =>
        if negb (m_xoruv s =? 0) then Some (Err EndpointsDontMatchUp)
        else
          let! r := for_range (mono_close size bits) (seq 0 (2 * size)) s in
          match r with
          | Err e => Some (Err e)
          | Ok s =>
              let scan i := scan_circular (fun u => u) (m_uvs s) (m_prev s) (2 * size + 1) i i i in
              let! r := follow (S size) scan (fun _ _ => false) 0 0 in
              Some (check_length (proof_size p) r)
          end
    end.

(** ** Cuckaroom: directed edges *)

Record directed : Type := mkDir {
  from : list Z;
  to : list Z;
  d_head : list nat;
  d_prev : list nat;
  xor_from : Z;
  xor_to : Z;
}.

Section directed.
Context (p : CuckooParams) (size : nat) (nonces : list Z).
Context (endpoints : Z -> Z * Z) (bits : Z -> Z).

Definition dir_edge (s : directed) (n : nat) : option (result pow_error directed) :=
  let! r := check_nonce p nonces n in
  match r with
  | Err e => Some (Err e)
  | Ok nonce =>
      let '(u, v) := endpoints nonce in
      let! from := set (from s) n u in
      let! (head, prev) := link (d_head s) (d_prev s) (bits u) n in
      let! to := set (to s) n v in
      Some (Ok (mkDir from to head prev (Z.lxor (xor_from s) u) (Z.lxor (xor_to s) v)))
  end.

Definition dir_init : directed :=
  mkDir (replicate size 0) (replicate size 0)
    (replicate (Z.to_nat (1 + size_mask size)) size) (replicate size 0%nat) 0 0.

(** The inner loop: the first edge of the list from [k] that starts at [node]. *)
Fixpoint scan_from (fuel : nat) (s : directed) (node : Z) (k : nat)
    : option (result pow_error nat) :=
  match fuel with
  | O => None
  | S fuel =>
      if (k =? size)%nat then Some (Err CycleDeadEnds)
      else
        let! u := from s !! k in
        if u =? node then Some (Ok k)
        else let! k := d_prev s !! k in scan_from fuel s node k
  end.

Fixpoint follow_directed (fuel : nat) (s : directed) (visited : list bool) (i n : nat)
    : option (result pow_error nat) :=
  match fuel with
  | O => None
  | S fuel =>
      let! seen := visited !! i in
      if (seen : bool) then Some (Err BranchInCycle)
      else
        let! visited := set visited i true in
        let! node := to s !! i in
        let! k := d_head s !! Z.to_nat (bits node) in
        let! r := scan_from (S size) s node k in
        match r with
        | Err e => Some (Err e)
        | Ok k =>
            let i := k in
            let n := S n in
            if (i =? 0)%nat then Some (Ok n) else follow_directed fuel s visited i n
        end
  end.

End directed.

Definition cuckaroom_verify (ct : ChainTypes) (p : CuckooParams) (nonces : list Z)
    : option (result pow_error unit) :=
  let size := length nonces in
  if negb (Z.of_nat size =? proofsize ct) then Some (Err WrongCycleLength)
  else
    let mask := size_mask size in
    let bits u := Z.land u mask in
    let! r := for_range (dir_edge p nonces (edge_endpoints p 21 true) bits) (seq 0 size)
                (dir_init size) in
    match r with
    | Err e => Some (Err e)
    | Ok s =>
        if negb (xor_from s =? xor_to s) then Some (Err EndpointsDontMatchUp)
        else
          let! r := follow_directed size bits (S size) s (replicate size false) 0 0 in
          Some (check_length size r)
    end.

(** ** Cuckarood: cycles alternate between even and odd edges *)

Record alternating : Type := mkAlt {
  a_uvs : list Z;
  ndir : list nat;
  a_headu : list nat;
  a_headv : list nat;
  a_prev : list nat;
  a_xor0 : Z;
  a_xor1 : Z;
}.

Section alternating.
Context (p : CuckooParams) (size : nat) (nonces : list Z) (mask : Z).

Definition alt_edge (s : alternating) (n : nat) : option (result pow_error alternating) :=
  let! nonce := nonces !! n in
  let dir := Z.land nonce 1 in
  let! nd := ndir s !! Z.to_nat dir in
  if (size / 2 <=? nd)%nat then Some (Err EdgesNotBalanced)
  else
    let! r := check_nonce p nonces n in
    match r with
    | Err e => Some (Err e)
    | Ok nonce =>
        let idx := (4 * nd + 2 * Z.to_nat dir)%nat in
        let '(u, v) := edge_endpoints p 25 false nonce in
        let! uvs := set (a_uvs s) idx u in
        let! (headu, prev) :=
          link (a_headu s) (a_prev s) (Z.land (Z.lor (shl64 u 1) dir) mask) idx in
        let! uvs := set uvs (idx + 1) v in
        let! (headv, prev) :=
          link (a_headv s) prev (Z.land (Z.lor (shl64 v 1) dir) mask) (idx + 1) in
        let! ndir := set (ndir s) (Z.to_nat dir) (S nd) in
        Some (Ok (mkAlt uvs ndir headu headv prev (Z.lxor (a_xor0 s) u) (Z.lxor (a_xor1 s) v)))
    end.

Definition alt_init : alternating :=
  let heads := replicate (Z.to_nat (1 + mask)) (2 * size)%nat in
  mkAlt (replicate (2 * size) 0) [0; 0]%nat heads heads (replicate (2 * size) 0%nat) 0 0.

(** The inner loop: the reverse edge at the node of slot [i]. *)
Definition alt_scan (s : alternating) (i : nat) : option (result pow_error nat) :=
  let! uvi := a_uvs s !! i in
  let! k :=
    if Nat.even i then a_headu s !! Z.to_nat (Z.land (Z.lor (shl64 uvi 1) 1) mask)
    else a_headv s !! Z.to_nat (Z.land (shl64 uvi 1) mask) in
  scan_chain (fun u => u) (a_uvs s) (a_prev s) (2 * size + 1) (2 * size) i i k.

End alternating.

(** The outer loop has no bound of its own: [fuel] rounds are run. *)
Definition cuckarood_verify (fuel : nat) (ct : ChainTypes) (p : CuckooParams) (nonces : list Z)
    : option (result pow_error unit) :=
  let size := length nonces in
  if negb (Z.of_nat size =? proofsize ct) then Some (Err WrongCycleLength)
  else
    let mask := size_mask size in
    let! r := for_range (alt_edge p size nonces mask) (seq 0 size) (alt_init size mask) in
    match r with
    | Err e => Some (Err e)
    | Ok s =>
        if negb (Z.lor (a_xor0 s) (a_xor1 s) =? 0) then Some (Err EndpointsDontMatchUp)
        else
          let! r := follow fuel (alt_scan size mask s) (fun _ _ => false) 0 0 in
          Some (check_length size r)
    end.

(** ** [create_pow_context] *)

Inductive PoWContext : Type :=
| Cuckatoo (params : CuckooParams)
| Cuckaroo (params : CuckooParams)
| Cuckarood (params : CuckooParams)
| Cuckaroom (params : CuckooParams)
| Cuckarooz (params : CuckooParams).

(** [new_cuckatoo_ctx], with the limit that [Graph::new] puts on the edges. Of
    the graph, which only the solver uses, nothing else is kept. *)
Definition new_cuckatoo_ctx (edge_bits : Z) (proof_size : nat) : result pow_error PoWContext :=
  let params := new_params edge_bits edge_bits proof_size in
  if u_max 64 / 2 <=? num_edges params then Err GraphTooBig else Ok (Cuckatoo params).

Definition create_pow_context (ct : ChainTypes) (height edge_bits : Z) (proof_size : nat)
    : result pow_error PoWContext :=
  match ct with
  | Mainnet | Testnet =>
      if 29 <? edge_bits then new_cuckatoo_ctx edge_bits proof_size
      else
        let version := header_version ct height in
        if version =? 1 then Ok (Cuckaroo (new_params edge_bits edge_bits proof_size))
        else if version =? 2 then
          Ok (Cuckarood (new_params edge_bits (edge_bits - 1) proof_size))
        else if version =? 3 then Ok (Cuckaroom (new_params edge_bits edge_bits proof_size))
        else if version =? 4 then
          Ok (Cuckarooz (new_params edge_bits (edge_bits + 1) proof_size))
        else Err NoCuckarooPastHardFork4
  | _ => new_cuckatoo_ctx edge_bits proof_size
  end.

(** The verifier of a context, with the keys of the header set; [fuel] bounds
    Cuckarood only. *)
Definition verify (fuel : nat) (ct : ChainTypes) (ctx : PoWContext) (k : keys) (nonces : list Z)
    : option (result pow_error unit) :=
  match ctx with
  | Cuckatoo p => cuckatoo_verify ct (set_keys p k) nonces
  | Cuckaroo p => cuckaroo_verify ct (set_keys p k) nonces
  | Cuckarood p => cuckarood_verify fuel ct (set_keys p k) nonces
  | Cuckaroom p => cuckaroom_verify ct (set_keys p k) nonces
  | Cuckarooz p => cuckarooz_verify ct (set_keys p k) nonces
  end.
