(* ===== verification/CuckooSpec.v ===== *)
(** Cuckoo cycles: what the verifiers of [Cuckoo] decide.

    Vectors with chained slots are related to the buckets they hold ([table],
    [closed]), the inner loops to a search of those buckets ([scan_result],
    [next_from]) and the outer loops to walks ([trace], [visits]). The walk
    meets every edge at most once because the relation between the slots of a
    node is symmetric, so the loops end; in Cuckarood it is not symmetric, and
    a concrete proof makes the walk endless. *)

From Stdlib Require Import ZArith Lia.
From stdpp Require Import base numbers option list.
From S2P Require Import Prelude Consensus Siphash Cuckoo.
Open Scope Z_scope.

(** * The walk *)

(** ** Ends of an edge *)

Lemma lxor1_div2 j : Nat.div2 (Nat.lxor j 1) = Nat.div2 j.
Proof. rewrite !Nat.div2_spec, Nat.shiftr_lxor. change (Nat.shiftr 1 1) with 0%nat. apply Nat.lxor_0_r. Qed.

Lemma lxor1_odd j : Nat.odd (Nat.lxor j 1) = negb (Nat.odd j).
Proof. rewrite <- !Nat.bit0_odd, Nat.lxor_spec. simpl. by rewrite xorb_true_r. Qed.

Lemma lxor1_lxor1 j : Nat.lxor (Nat.lxor j 1) 1 = j.
Proof. rewrite Nat.lxor_assoc. apply Nat.lxor_0_r. Qed.

Lemma lxor1_neq j : Nat.lxor j 1 <> j.
Proof. intros E. apply (f_equal Nat.odd) in E. rewrite lxor1_odd in E. by destruct (Nat.odd j). Qed.

Lemma div2_eq x y : Nat.div2 x = Nat.div2 y -> x = y \/ x = Nat.lxor y 1.
Proof.
  intros E. pose proof (Nat.div2_odd x) as Hx. pose proof (Nat.div2_odd y) as Hy.
  pose proof (Nat.div2_odd (Nat.lxor y 1)) as Hz. rewrite lxor1_div2, lxor1_odd in Hz.
  destruct (Nat.odd x), (Nat.odd y); simpl Nat.b2n in *; simpl negb in *; lia.
Qed.

Lemma div2_lt x size : (x < 2 * size)%nat <-> (Nat.div2 x < size)%nat.
Proof.
  rewrite (Nat.div2_odd x) at 1.
  destruct (Nat.odd x); simpl Nat.b2n; lia.
Qed.

Lemma lxor1_lt j size : (j < 2 * size)%nat -> (Nat.lxor j 1 < 2 * size)%nat.
Proof. by rewrite !div2_lt, lxor1_div2. Qed.

(** ** Single cycles *)

(** Slots are the ends of edges; slot [x] belongs to edge [x / 2], its other
    end is [x] xor 1. [adj] relates distinct slots at the same node. *)
Section walk.
Context (size : nat) (adj : nat -> nat -> Prop) (dead : nat -> nat -> bool).

(** [j] is the only other slot at the node of [i], and it may be taken. *)
Definition partner (i j : nat) : Prop :=
  (forall k, adj i k <-> k = j) /\ dead i j = false.

(** All [size] edges form one cycle: they can be listed in an order in which
    each is joined to the next, and the last one to the first, at a node that
    no third edge touches. *)
Definition single_cycle : Prop :=
  exists c : list nat, length c = size /\ c !! 0%nat = Some 0%nat /\
    NoDup (map Nat.div2 c) /\ Forall (fun x => x < 2 * size)%nat c /\
    forall t x y, c !! t = Some x -> c !! (S t mod size)%nat = Some y -> partner x (Nat.lxor y 1).

Hypothesis adj_lt : forall i k, adj i k -> (k < 2 * size)%nat.
Hypothesis adj_neq : forall i k, adj i k -> k <> i.
Hypothesis adj_sym : forall i k, (i < 2 * size)%nat -> adj i k -> adj k i.
Hypothesis adj_trans : forall i k k', (i < 2 * size)%nat -> adj i k -> adj i k' -> k <> k' -> adj k k'.
Hypothesis dead_sym : forall i j, dead i j = dead j i.

Lemma partner_sym i j : (i < 2 * size)%nat -> partner i j -> partner j i.
Proof.
  intros Hi [Hp Hd]. assert (Hij : adj i j) by (by apply Hp).
  pose proof (adj_lt _ _ Hij) as Hj.
  split; [|by rewrite dead_sym]. intros k. split; [|intros ->; by apply adj_sym].
  intros Hk. destruct (decide (k = i)) as [|Hne]; [done|]. exfalso.
  assert (adj i k).
  { apply (adj_trans j); [done|by apply adj_sym|done|done]. }
  apply Hp in H. subst. by apply adj_neq in Hk.
Qed.

(** The slots that the walk has stopped at, the current one last. *)
Definition trace (l : list nat) (i : nat) : Prop :=
  l !! 0%nat = Some 0%nat /\ last l = Some i /\ NoDup (map Nat.div2 l) /\
  Forall (fun x => x < 2 * size)%nat l /\
  forall t x y, l !! t = Some x -> l !! S t = Some y -> partner x (Nat.lxor y 1).

Lemma trace_length l i : trace l i -> (length l <= size)%nat.
Proof.
  intros (_ & _ & Hnd & Hlt & _). rewrite <- (length_map Nat.div2 l), <- (length_seq size 0).
  apply submseteq_length, NoDup_submseteq; [done|]. intros e. rewrite elem_of_map, elem_of_seq.
  intros (x & -> & Hx). eapply Forall_forall in Hlt; [|exact Hx].
  apply (proj1 (div2_lt x size)) in Hlt. split; [apply Nat.le_0_l|exact Hlt].
Qed.

Lemma div2_NoDup_inj l s t x y :
  NoDup (map Nat.div2 l) -> l !! s = Some x -> l !! t = Some y -> Nat.div2 x = Nat.div2 y -> s = t.
Proof.
  intros Hnd Hs Ht E. eapply NoDup_lookup; [exact Hnd| |].
  - change (map Nat.div2 l) with (Nat.div2 <$> l). rewrite list_lookup_fmap, Hs. reflexivity.
  - change (map Nat.div2 l) with (Nat.div2 <$> l). rewrite list_lookup_fmap, Ht. simpl. by rewrite E.
Qed.

(** A step to a slot other than 0 meets a new edge. *)
Lemma trace_fresh l i j :
  trace l i -> partner i j -> Nat.lxor j 1 <> 0%nat -> Nat.div2 (Nat.lxor j 1) ∉ map Nat.div2 l.
Proof.
  intros (H0 & Hl & Hnd & Hlt & Hst) Hp Hne Hin. rewrite lxor1_div2 in Hin.
  apply elem_of_map in Hin as (x & E & Hx). apply list_elem_of_lookup in Hx as [s Hs].
  rewrite last_lookup in Hl.
  assert (Hi : (i < 2 * size)%nat) by (eapply Forall_lookup_1 in Hlt; [|exact Hl]; done).
  assert (Hxlt : (x < 2 * size)%nat) by (eapply Forall_lookup_1 in Hlt; [|exact Hs]; done).
  assert (Hij : adj i j) by (by apply Hp).
  pose proof (lookup_lt_Some _ _ _ Hs) as Hslen.
  apply div2_eq in E as [->|E].
  - (* the partner of the slot is on the trace *)
    pose proof (partner_sym _ _ Hi Hp) as Hp'.
    destruct (decide (S s = length l)) as [Hlast|].
    + assert (x = i) as -> by (replace s with (Nat.pred (length l)) in Hs by lia; congruence).
      by apply adj_neq in Hij.
    + destruct (lookup_lt_is_Some_2 l (S s)) as [y Hy]; [lia|].
      pose proof (Hst _ _ _ Hs Hy) as [Hpx _].
      assert (Ey : i = Nat.lxor y 1) by (apply Hpx, Hp'; done).
      assert (Hsy : S s = Nat.pred (length l)).
      { eapply div2_NoDup_inj; [exact Hnd|exact Hy|exact Hl|]. rewrite Ey. by rewrite lxor1_div2. }
      rewrite <- Hsy, Hy in Hl. injection Hl as ->. by apply (lxor1_neq i).
  - (* the new slot is on the trace *)
    subst j. rewrite lxor1_lxor1 in Hne. destruct s as [|s]; [congruence|].
    destruct (lookup_lt_is_Some_2 l s) as [y Hy]; [lia|].
    pose proof (Hst _ _ _ Hy Hs) as Hpy.
    assert (Hylt : (y < 2 * size)%nat) by (eapply Forall_lookup_1 in Hlt; [|exact Hy]; done).
    apply partner_sym in Hpy; [|done]. apply partner_sym in Hp; [|done].
    assert (y = i) as -> by (apply Hp, Hpy; done).
    assert (s = Nat.pred (length l)) by (eapply div2_NoDup_inj; [exact Hnd|exact Hy|exact Hl|done]).
    lia.
Qed.

Lemma trace_extend l i j :
  trace l i -> partner i j -> Nat.lxor j 1 <> 0%nat -> trace (l ++ [Nat.lxor j 1]) (Nat.lxor j 1).
Proof.
  intros Ht Hp Hne. pose proof (trace_fresh _ _ _ Ht Hp Hne) as Hfresh.
  destruct Ht as (H0 & Hl & Hnd & Hlt & Hst). split_and!.
  - apply lookup_app_l_Some, H0.
  - by rewrite last_snoc.
  - rewrite map_app. apply NoDup_app. split; [done|]. split; [|apply NoDup_singleton].
    intros e He ->%list_elem_of_singleton. done.
  - apply Forall_app. split; [done|]. constructor; [|constructor].
    apply lxor1_lt. eapply adj_lt, Hp. reflexivity.
  - intros t x y Hx Hy. destruct (decide (S t < length l)%nat).
    + rewrite lookup_app_l in Hx, Hy by lia. by eapply Hst.
    + apply lookup_lt_Some in Hy as Hlen. rewrite length_app in Hlen. simpl in Hlen.
      rewrite lookup_app_r in Hy by lia. replace (S t - length l)%nat with 0%nat in Hy by lia.
      injection Hy as <-. rewrite lookup_app_l in Hx by lia.
      rewrite last_lookup in Hl. replace (Nat.pred (length l)) with t in Hl by lia.
      assert (x = i) as -> by congruence. by rewrite lxor1_lxor1.
Qed.

Lemma trace_closes l i :
  trace l i -> length l = size -> partner i 1 -> single_cycle.
Proof.
  intros (H0 & Hl & Hnd & Hlt & Hst) Hlen Hp. exists l. split_and!; [done..|].
  intros t x y Hx Hy. pose proof (lookup_lt_Some _ _ _ Hx).
  destruct (decide (S t = size)) as [E|].
  - rewrite E, Nat.Div0.mod_same in Hy. assert (y = 0%nat) as -> by congruence.
    rewrite last_lookup in Hl. replace (Nat.pred (length l)) with t in Hl by lia.
    assert (x = i) as -> by congruence. exact Hp.
  - rewrite Nat.mod_small in Hy by lia. by eapply Hst.
Qed.

Lemma trace_prefix l i c :
  trace l i -> length c = size -> c !! 0%nat = Some 0%nat ->
  (forall t x y, c !! t = Some x -> c !! (S t mod size)%nat = Some y -> partner x (Nat.lxor y 1)) ->
  forall t, (t < length l)%nat -> l !! t = c !! t.
Proof.
  intros Ht Hlen Hc0 Hc. pose proof (trace_length _ _ Ht) as Hle.
  destruct Ht as (H0 & Hl & Hnd & Hlt & Hst).
  induction t as [|t IH]; intros Htl; [congruence|].
  destruct (lookup_lt_is_Some_2 l t) as [x Hx]; [lia|].
  destruct (lookup_lt_is_Some_2 l (S t)) as [y Hy]; [lia|].
  destruct (lookup_lt_is_Some_2 c (S t)) as [z Hz]; [lia|].
  pose proof (Hst _ _ _ Hx Hy) as [Hp _]. rewrite IH in Hx by lia.
  destruct (Hc t x z Hx) as [Hq _]; [by rewrite Nat.mod_small by lia|].
  assert (E : Nat.lxor y 1 = Nat.lxor z 1) by (apply Hq, Hp; done).
  apply (f_equal (fun a => Nat.lxor a 1)) in E. rewrite !lxor1_lxor1 in E. congruence.
Qed.

(** ** The loop *)

Context (scan : nat -> option (result pow_error nat)).

(** What the inner loop finds: nothing, the only slot, or two slots. *)
Definition scan_result (i : nat) (r : option (result pow_error nat)) : Prop :=
  match r with
  | Some (Ok j) => (j = i /\ forall k, ~ adj i k) \/ (forall k, adj i k <-> k = j)
  | Some (Err e) => e = BranchInCycle /\ exists k k', adj i k /\ adj i k' /\ k <> k'
  | None => False
  end.

Hypothesis scan_spec : forall i, (i < 2 * size)%nat -> scan_result i (scan i).

Lemma follow_spec fuel l i n :
  trace l i -> length l = S n -> (fuel + n = S size)%nat ->
  exists r, follow fuel scan dead i n = Some r /\ (r = Ok size <-> single_cycle).
Proof.
  revert l i n. induction fuel as [|fuel IH]; intros l i n Ht Hlen Hfuel;
    pose proof (trace_length _ _ Ht) as Hle; [lia|].
  assert (Hi : (i < 2 * size)%nat).
  { destruct Ht as (_ & Hl & _ & Hlt & _). rewrite last_lookup in Hl.
    eapply Forall_lookup_1 in Hlt; [|exact Hl]. done. }
  (* on a single cycle the next slot is the next one of the cycle *)
  assert (Hcyc : single_cycle -> exists y, partner i (Nat.lxor y 1) /\ (y = 0%nat <-> S n = size)).
  { intros (c & Hc & Hc0 & Hcnd & _ & Hst).
    pose proof (trace_prefix _ _ c Ht Hc Hc0 Hst n ltac:(lia)) as Hpre.
    destruct Ht as (_ & Hl & _). rewrite last_lookup, Hlen in Hl. simpl in Hl.
    destruct (lookup_lt_is_Some_2 c (S n mod size)) as [y Hy].
    { rewrite Hc. apply Nat.mod_upper_bound. lia. }
    exists y. split; [apply (Hst n); [congruence|done]|]. split.
    - intros ->. destruct (decide (S n = size)) as [|Hn]; [done|]. exfalso.
      rewrite Nat.mod_small in Hy by lia.
      assert (S n = 0)%nat; [|lia]. eapply div2_NoDup_inj; [exact Hcnd|exact Hy|exact Hc0|done].
    - intros E. rewrite E, Nat.Div0.mod_same in Hy. congruence. }
  cbn [follow]. pose proof (scan_spec i Hi) as Hs. destruct (scan i) as [[j|e]|]; [|..|done]; simpl in Hs.
  - destruct ((j =? i)%nat || dead i j) eqn:Hstop; simpl; rewrite Hstop.
    + eexists; split; [done|]. split; [done|]. intros (y & [Hy Hd] & _)%Hcyc. exfalso.
      apply orb_true_iff in Hstop as [Hji|Hdead].
      * apply Nat.eqb_eq in Hji as ->. assert (adj i (Nat.lxor y 1)) as Ha by (by apply Hy).
        destruct Hs as [[_ Hs]|Hs]; [by apply (Hs _ Ha)|]. apply Hs in Ha as E.
        rewrite E in Ha. by apply adj_neq in Ha.
      * destruct Hs as [[-> Hs]|Hs]; [by apply (Hs (Nat.lxor y 1)), Hy|].
        assert (Nat.lxor y 1 = j) by (apply Hs, Hy; done). congruence.
    + apply orb_false_iff in Hstop as [Hji Hdead]. apply Nat.eqb_neq in Hji.
      destruct Hs as [[-> _]|Hs]; [done|]. assert (Hp : partner i j) by (by split).
      destruct (Nat.eqb_spec (Nat.lxor j 1) 0) as [E|Hne].
      * eexists; split; [done|]. split.
        -- intros [= En]. apply (trace_closes l i); [done|lia|].
           apply (f_equal (fun a => Nat.lxor a 1)) in E. rewrite lxor1_lxor1 in E.
           by rewrite E in Hp.
        -- intros (y & [Hy _] & Hn)%Hcyc. do 2 f_equal. apply Hn.
           assert (Ej : Nat.lxor y 1 = j) by (apply Hs, Hy; done).
           apply (f_equal (fun a => Nat.lxor a 1)) in Ej. rewrite lxor1_lxor1 in Ej. congruence.
      * apply (IH (l ++ [Nat.lxor j 1])); [by apply (trace_extend l i j)| |lia].
        rewrite length_app, Hlen. simpl. lia.
  - destruct Hs as [-> (k & k' & Hk & Hk' & Hne)]. eexists. split; [done|]. split; [done|].
    intros (y & [Hy _] & _)%Hcyc. apply Hy in Hk, Hk'. congruence.
Qed.

Lemma follow_single_cycle :
  (0 < size)%nat ->
  exists r, follow (S size) scan dead 0 0 = Some r /\ (r = Ok size <-> single_cycle).
Proof.
  intros Hs. apply (follow_spec _ [0%nat]); [|done|lia].
  split_and!; [done|done|apply NoDup_singleton|repeat constructor; lia|by intros [|t] x y].
Qed.

End walk.

(** * Linked lists in vectors *)

Lemma set_Some {A} (l : list A) i x : (i < length l)%nat -> set l i x = Some (<[i := x]> l).
Proof. intros. unfold set. by rewrite decide_True. Qed.

(** A loop over a range that keeps an invariant; [C n] is what round [n]
    checks. *)
Lemma for_range_spec {T} (step : T -> nat -> option (result pow_error T)) (I : nat -> T -> Prop)
    (C : nat -> Prop) m s :
  (forall n s, (n < m)%nat -> I n s -> exists r, step s n = Some r /\
     match r with Ok s' => C n /\ I (S n) s' | Err _ => ~ C n end) ->
  I 0%nat s ->
  exists r, for_range step (seq 0 m) s = Some r /\
    match r with
    | Ok s' => (forall n, (n < m)%nat -> C n) /\ I m s'
    | Err _ => ~ forall n, (n < m)%nat -> C n
    end.
Proof.
  intros Hstep. enough (H : forall k a s, (a + k = m)%nat -> I a s ->
    exists r, for_range step (seq a k) s = Some r /\
      match r with
      | Ok s' => (forall n, (a <= n < m)%nat -> C n) /\ I m s'
      | Err _ => ~ forall n, (n < m)%nat -> C n
      end).
  { intros HI. destruct (H m 0%nat s eq_refl HI) as (r & E & Hr). exists r. split; [done|].
    destruct r; [|done]. destruct Hr as [Hr ?]. split; [|done]. intros n Hn. apply Hr. lia. }
  clear s. induction k as [|k IH]; intros a s Ha HI; simpl.
  - eexists. split; [done|]. assert (a = m) as -> by lia. split; [|done]. intros. lia.
  - destruct (Hstep a s ltac:(lia) HI) as (r & -> & Hr). simpl. destruct r as [s'|e].
    + destruct Hr as [HC HI']. destruct (IH (S a) s' ltac:(lia) HI') as (r & E & Hr).
      exists r. split; [done|]. destruct r; [|done]. destruct Hr as [Hall ?]. split; [|done].
      intros n Hn. destruct (decide (n = a)) as [->|]; [done|apply Hall; lia].
    + eexists. split; [done|]. intros H. apply Hr, H. lia.
Qed.

Section table.
Context (val : nat -> Z) (bits : Z -> Z) (side : nat -> bool) (nil : nat).

(** The slots below [m] on side [c] that fall into bucket [b], latest first. *)
Definition bucket (c : bool) (b : nat) (m : nat) : list nat :=
  filter (fun k => side k = c /\ Z.to_nat (bits (val k)) = b) (reverse (seq 0 m)).

Lemma bucket_S c b m :
  bucket c b (S m) =
  if decide (side m = c /\ Z.to_nat (bits (val m)) = b) then m :: bucket c b m else bucket c b m.
Proof. unfold bucket. rewrite seq_S, reverse_snoc. by rewrite filter_cons. Qed.

Lemma elem_of_bucket c b m k :
  k ∈ bucket c b m <-> (k < m)%nat /\ side k = c /\ Z.to_nat (bits (val k)) = b.
Proof.
  unfold bucket. rewrite list_elem_of_filter, elem_of_reverse, elem_of_seq.
  intuition lia.
Qed.

Lemma bucket_NoDup c b m : NoDup (bucket c b m).
Proof. apply NoDup_filter. rewrite reverse_Permutation. apply NoDup_seq. Qed.

(** [head] and [prev] hold the buckets of side [c]. *)
Definition table (c : bool) (head prev : list nat) (m : nat) : Prop :=
  forall b, (b < length head)%nat ->
    head !! b = Some (List.hd nil (bucket c b m)) /\
    forall A x B, bucket c b m = A ++ x :: B -> prev !! x = Some (List.hd nil B).

Lemma table_link c head prev m :
  table c head prev m -> side m = c -> (Z.to_nat (bits (val m)) < length head)%nat ->
  (m < length prev)%nat ->
  exists head' prev', link head prev (bits (val m)) m = Some (head', prev') /\
    length head' = length head /\ length prev' = length prev /\ table c head' prev' (S m) /\
    forall c' head2, c' <> c -> table c' head2 prev m -> table c' head2 prev' (S m).
Proof.
  intros Ht Hc Hb Hm. unfold link. set (b0 := Z.to_nat (bits (val m))) in *.
  destruct (Ht b0 Hb) as [Hh _]. rewrite Hh. simpl.
  rewrite !set_Some by done. simpl. do 2 eexists. split; [done|].
  rewrite !length_insert. split_and!; try done.
  - intros b Hbl. rewrite length_insert in Hbl. destruct (Ht b Hbl) as [Hhb Hpb]. rewrite bucket_S.
    destruct (decide (side m = c /\ Z.to_nat (bits (val m)) = b)) as [[_ <-]|Hne].
    + split; [by rewrite list_lookup_insert_eq|]. intros [|y A] x B E; injection E as E1 E2.
      * subst x B. by rewrite list_lookup_insert_eq.
      * rewrite list_lookup_insert_ne; [by eapply Hpb|]. intros <-.
        assert (m ∈ bucket c b0 m) as [? _]%elem_of_bucket; [|lia].
        fold b0 in E2. rewrite E2. apply elem_of_app. right. by left.
    + split.
      * rewrite list_lookup_insert_ne; [done|]. intros E. apply Hne. split; [done|exact E].
      * intros A x B E. rewrite list_lookup_insert_ne; [by eapply Hpb|]. intros <-.
        assert (m ∈ bucket c b m) as [? _]%elem_of_bucket; [|lia].
        rewrite E. apply elem_of_app. right. by left.
  - intros c' head2 Hc' Ht2 b Hbl. destruct (Ht2 b Hbl) as [Hhb Hpb]. rewrite bucket_S.
    rewrite decide_False by (intros [? _]; congruence). split; [done|]. intros A x B E.
    rewrite list_lookup_insert_ne; [by eapply Hpb|]. intros <-.
    assert (m ∈ bucket c' b m) as [? _]%elem_of_bucket; [|lia].
    rewrite E. apply elem_of_app. right. by left.
Qed.

Lemma table_init c n prev : table c (replicate n nil) prev 0.
Proof.
  intros b Hb. rewrite length_replicate in Hb. split; [by apply lookup_replicate_2|].
  by intros [|] ? ?.
Qed.

(** ** Circular lists *)

(** [prev] leads from [k] through [R] to [i]. *)
Fixpoint cpath (prev : list nat) (k : nat) (R : list nat) (i : nat) : Prop :=
  match R with
  | [] => prev !! k = Some i
  | r :: R => prev !! k = Some r /\ cpath prev r R i
  end.

(** The successor of [x] in its circular list. *)
Definition closed (c : bool) (prev : list nat) (m nheads : nat) : Prop :=
  forall b A x B, (b < nheads)%nat -> bucket c b m = A ++ x :: B ->
    prev !! x = Some (List.hd (List.hd nil (bucket c b m)) B).

Lemma cpath_suffix prev L R x :
  (forall A y B, L = A ++ y :: B -> prev !! y = Some (List.hd (List.hd nil L) B)) ->
  forall A B, L = A ++ x :: B -> R = B -> cpath prev x R (List.hd nil L).
Proof.
  intros Hp A B E ->. revert A x E. induction B as [|y B IH]; intros A x E; simpl.
  - by rewrite (Hp _ _ _ E).
  - split; [by rewrite (Hp _ _ _ E)|]. apply (IH (A ++ [x])). by rewrite <- app_assoc.
Qed.

Lemma cpath_prefix prev L i :
  (forall A y B, L = A ++ y :: B -> prev !! y = Some (List.hd (List.hd nil L) B)) ->
  forall C z A B, L = C ++ z :: A ++ i :: B -> cpath prev z A i.
Proof.
  intros Hp C z A. revert C z. induction A as [|y A IH]; intros C z B E; simpl.
  - by rewrite (Hp _ _ _ E).
  - split; [by rewrite (Hp _ _ _ E)|]. apply (IH (C ++ [z]) y B). by rewrite <- app_assoc.
Qed.

Lemma cpath_app prev x R y S i : cpath prev x R y -> cpath prev y S i -> cpath prev x (R ++ y :: S) i.
Proof.
  revert x. induction R as [|r R IH]; intros x; simpl; [by split|].
  intros [? ?] ?. split; [done|]. by apply IH.
Qed.

(** Starting from any slot of a bucket the circular list visits all others. *)
Lemma closed_cpath c prev m nheads b A i B :
  closed c prev m nheads -> (b < nheads)%nat -> bucket c b m = A ++ i :: B ->
  cpath prev i (B ++ A) i.
Proof.
  intros Hc Hb E. assert (Hp : forall A' y B', bucket c b m = A' ++ y :: B' ->
    prev !! y = Some (List.hd (List.hd nil (bucket c b m)) B')) by (intros; by eapply Hc).
  pose proof (cpath_suffix prev _ B i Hp A B E eq_refl) as Hsuf.
  destruct A as [|a A].
  - rewrite app_nil_r. rewrite E in Hsuf. exact Hsuf.
  - apply (cpath_app _ _ _ a).
    + rewrite E in Hsuf. exact Hsuf.
    + apply (cpath_prefix prev _ i Hp [] a A B E).
Qed.

End table.

(** ** The inner loop *)

Section scan_list.
Context (val node : Z -> Z) (v : nat -> Z).

Fixpoint scan_list (i j : nat) (R : list nat) : result pow_error nat :=
  match R with
  | [] => Ok j
  | k :: R =>
      if node (v k) =? node (v i) then
        if negb (j =? i)%nat then Err BranchInCycle else scan_list i k R
      else scan_list i j R
  end.

Lemma scan_circular_list uvs prev fuel i j k R :
  cpath prev k R i -> i ∉ R -> (forall x, x ∈ i :: R -> uvs !! x = Some (v x)) ->
  (length R < fuel)%nat ->
  scan_circular node uvs prev fuel i j k = Some (scan_list i j R).
Proof.
  revert j k fuel. induction R as [|r R IH]; intros j k fuel Hp Hi Hv Hf;
    (destruct fuel as [|fuel]; [simpl in Hf; lia|]); simpl in *.
  - rewrite Hp. simpl. by rewrite Nat.eqb_refl.
  - destruct Hp as [Hr Hp]. apply not_elem_of_cons in Hi as [Hir Hi]. rewrite Hr. simpl.
    destruct (Nat.eqb_spec r i); [congruence|].
    rewrite (Hv r), (Hv i) by (by left || (right; by left)). simpl.
    assert (Hv' : forall x, x ∈ i :: R -> uvs !! x = Some (v x)).
    { intros x Hx. apply Hv. apply elem_of_cons in Hx as [->|Hx]; [by left|]. right. by right. }
    destruct (_ =? _); [destruct (negb _); [done|]|]; apply IH; auto; lia.
Qed.

Lemma scan_list_found i j R :
  j <> i ->
  scan_list i j R = Ok j /\ Forall (fun k => node (v k) <> node (v i)) R \/
  scan_list i j R = Err BranchInCycle /\ exists k, k ∈ R /\ node (v k) = node (v i).
Proof.
  intros Hj. induction R as [|k R IH]; simpl; [left; by split|].
  destruct (Z.eqb_spec (node (v k)) (node (v i))) as [E|E].
  - rewrite (proj2 (Nat.eqb_neq j i) Hj). simpl. right. split; [done|]. exists k. split; [by left|done].
  - destruct IH as [[-> IH]|[-> (k' & ? & ?)]]; [left|right]; split; try done.
    + by constructor.
    + exists k'. split; [by right|done].
Qed.

Lemma scan_list_spec adj i R :
  NoDup R -> i ∉ R -> (forall k, adj i k <-> k ∈ R /\ node (v k) = node (v i)) ->
  scan_result adj i (Some (scan_list i i R)).
Proof.
  intros Hnd Hi Hadj. simpl.
  enough (H : forall R0 R1, R = R0 ++ R1 -> Forall (fun k => node (v k) <> node (v i)) R0 ->
    match scan_list i i R1 with
    | Ok j => j = i /\ (forall k, ~ adj i k) \/ (forall k, adj i k <-> k = j)
    | Err e => e = BranchInCycle /\ exists k k', adj i k /\ adj i k' /\ k <> k'
    end) by (by apply (H [])).
  intros R0 R1. revert R0. induction R1 as [|k R1 IH]; intros R0 ER H0; simpl.
  - left. split; [done|]. intros k [Hk E]%Hadj. rewrite ER, app_nil_r in Hk.
    eapply Forall_forall in H0; [|exact Hk]. done.
  - destruct (Z.eqb_spec (node (v k)) (node (v i))) as [E|E].
    + rewrite Nat.eqb_refl. simpl.
      assert (Hki : k <> i).
      { intros ->. apply Hi. rewrite ER. apply elem_of_app. right. by left. }
      assert (Hk : adj i k).
      { apply Hadj. split; [|done]. rewrite ER. apply elem_of_app. right. by left. }
      destruct (scan_list_found i k R1 Hki) as [[-> Hnone]|[-> (k' & Hk' & E')]].
      * right. intros k'. split; [|by intros ->]. intros [Hin E']%Hadj.
        rewrite ER in Hin. apply elem_of_app in Hin as [Hin|[->|Hin]%elem_of_cons]; [|done|].
        -- eapply Forall_forall in H0; [|exact Hin]. done.
        -- eapply Forall_forall in Hnone; [|exact Hin]. done.
      * split; [done|]. exists k, k'. split_and!; [done| |].
        -- apply Hadj. split; [|done]. rewrite ER. apply elem_of_app. right. by right.
        -- intros <-. rewrite ER in Hnd. apply NoDup_app in Hnd as (_ & _ & Hnd).
           apply NoDup_cons in Hnd as [Hnd _]. done.
    + apply (IH (R0 ++ [k])); [by rewrite <- app_assoc|]. apply Forall_app. split; [done|].
      by constructor.
Qed.

End scan_list.

(** * Bipartite and monopartite graphs *)

(** Exclusive or of a list. *)
Definition xorall (l : list Z) : Z := foldr Z.lxor 0 l.

Lemma xorall_snoc l x : xorall (l ++ [x]) = Z.lxor (xorall l) x.
Proof.
  unfold xorall. induction l as [|y l IH]; simpl; [by rewrite Z.lxor_0_r|].
  by rewrite IH, Z.lxor_assoc.
Qed.

Section matching.
Context (size : nat) (val : nat -> Z) (bits : Z -> Z) (side : nat -> bool) (node : Z -> Z).
Context (heads : bool -> list nat) (nheads : nat).
Hypothesis bits_lt : forall x, (Z.to_nat (bits x) < nheads)%nat.
Hypothesis node_bits : forall x y, node x = node y -> bits x = bits y.

(** Distinct slots at the same node. *)
Definition adjacent (i k : nat) : Prop :=
  (k < 2 * size)%nat /\ k <> i /\ side k = side i /\ node (val k) = node (val i).

Lemma adjacent_sym i k : (i < 2 * size)%nat -> adjacent i k -> adjacent k i.
Proof. intros ? (? & ? & ? & ?). by split_and!. Qed.

Lemma adjacent_trans i k k' :
  (i < 2 * size)%nat -> adjacent i k -> adjacent i k' -> k <> k' -> adjacent k k'.
Proof. intros ? (? & ? & ? & ?) (? & ? & ? & ?) ?. split_and!; [done|done|congruence|congruence]. Qed.

Context (prev : list nat).
Hypothesis prev_length : length prev = (2 * size)%nat.
Hypothesis heads_length : forall c, length (heads c) = nheads.
Hypothesis tables : forall k, table val bits side (2 * size) (side k) (heads (side k)) prev (2 * size).

(** The successor of slot [x] after the lists are closed. *)
Definition close_next (x : nat) : nat :=
  if (prev !!! x =? 2 * size)%nat then heads (side x) !!! Z.to_nat (bits (val x)) else prev !!! x.

Definition closing (n : nat) (prev' : list nat) : Prop :=
  length prev' = (2 * size)%nat /\
  forall x, (x < 2 * size)%nat -> prev' !! x = Some (if decide (x < n)%nat then close_next x else prev !!! x).

Lemma closing_0 : closing 0 prev.
Proof.
  split; [done|]. intros x Hx. rewrite decide_False by lia. apply list_lookup_lookup_total_lt. lia.
Qed.

Lemma close_slot_spec n prev' uvs :
  closing n prev' -> (n < 2 * size)%nat -> uvs !! n = Some (val n) ->
  exists prev'', close_slot size bits (heads (side n)) uvs prev' n = Some prev'' /\ closing (S n) prev''.
Proof.
  intros [Hlen Hp] Hn Hv. unfold close_slot. rewrite (Hp n Hn), decide_False by lia. cbn [mbind option_bind].
  rewrite Hv. cbn [mbind option_bind].
  assert (Hh : heads (side n) !! Z.to_nat (bits (val n)) =
               Some (heads (side n) !!! Z.to_nat (bits (val n)))).
  { apply list_lookup_lookup_total_lt. rewrite heads_length. apply bits_lt. }
  rewrite Hh. cbn [mbind option_bind]. rewrite set_Some by lia.
  assert (Hrest : forall x, (x < 2 * size)%nat -> x <> n ->
    prev' !! x = Some (if decide (x < S n)%nat then close_next x else prev !!! x)).
  { intros x Hx Hne. rewrite (Hp x Hx). f_equal. destruct (decide (x < n)%nat).
    - by rewrite decide_True by lia.
    - by rewrite decide_False by lia. }
  destruct (Nat.eqb_spec (prev !!! n) (2 * size)) as [E|E];
    (eexists; split; [reflexivity|]); (split; [by rewrite ?length_insert|]); intros x Hx;
    (destruct (decide (x = n)) as [->|Hne]; [|rewrite ?list_lookup_insert_ne by done; by apply Hrest]).
  - rewrite list_lookup_insert_eq by lia. rewrite decide_True by lia. unfold close_next.
    by rewrite E, Nat.eqb_refl.
  - rewrite (Hp n Hx), decide_False, decide_True by lia. unfold close_next.
    by rewrite (proj2 (Nat.eqb_neq _ _) E).
Qed.

Lemma closing_closed prev' :
  closing (2 * size) prev' -> forall c, closed val bits side (2 * size) c prev' (2 * size) nheads.
Proof.
  intros [_ Hp] c b A x B Hb E.
  assert (Hx : x ∈ bucket val bits side c b (2 * size)).
  { rewrite E. apply elem_of_app. right. by left. }
  apply elem_of_bucket in Hx as (Hx & Hs & Hbits).
  destruct (tables x b) as [Hh Hn]; [by rewrite heads_length|]. rewrite Hs in Hh, Hn.
  rewrite (Hp x Hx), decide_True by done. f_equal. unfold close_next.
  pose proof (Hn _ _ _ E) as Hpx. apply list_lookup_total_correct in Hpx. rewrite Hpx, Hs, Hbits.
  apply list_lookup_total_correct in Hh. rewrite Hh.
  destruct B as [|y B]; simpl List.hd at 1 2; [by rewrite Nat.eqb_refl|].
  assert (Hy : y ∈ bucket val bits side c b (2 * size)).
  { rewrite E. apply elem_of_app. right. right. by left. }
  apply elem_of_bucket in Hy as (Hy & _).
  destruct (Nat.eqb_spec y (2 * size)); [lia|done].
Qed.

Lemma scan_circular_spec uvs prev' i :
  closing (2 * size) prev' -> (forall k, (k < 2 * size)%nat -> uvs !! k = Some (val k)) ->
  (i < 2 * size)%nat ->
  scan_result adjacent i (scan_circular node uvs prev' (2 * size + 1) i i i).
Proof.
  intros Hc Hv Hi. set (b := Z.to_nat (bits (val i))).
  set (L := bucket val bits side (side i) b (2 * size)).
  assert (HL : forall k, k ∈ L <-> (k < 2 * size)%nat /\ side k = side i /\ Z.to_nat (bits (val k)) = b)
    by (intros k; apply elem_of_bucket).
  assert (Hin : i ∈ L) by (by apply HL).
  apply list_elem_of_split in Hin as (A & B & E).
  pose proof (closed_cpath val bits side (2 * size) (side i) prev' (2 * size) nheads b A i B
    (closing_closed prev' Hc (side i)) (bits_lt _) E) as Hpath.
  assert (Hperm : L ≡ₚ i :: (B ++ A)).
  { rewrite E, (Permutation_app_comm A (i :: B)). done. }
  pose proof (bucket_NoDup val bits side (side i) b (2 * size)) as Hnd. fold L in Hnd.
  rewrite Hperm in Hnd. apply NoDup_cons in Hnd as [Hni Hnd].
  rewrite (scan_circular_list node val uvs prev' _ i i i (B ++ A)).
  - apply scan_list_spec; [done|done|]. intros k. unfold adjacent. split.
    + intros (Hk & Hne & Hs & Hn). split; [|done].
      assert (Hkl : k ∈ L) by (apply HL; split_and!; [done|done|by rewrite (node_bits _ _ Hn)]).
      rewrite Hperm in Hkl. by apply elem_of_cons in Hkl as [?|?].
    + intros [Hk Hn]. assert (Hkl : k ∈ L) by (rewrite Hperm; by right).
      apply HL in Hkl as (? & ? & ?). split_and!; try done. intros ->. done.
  - done.
  - done.
  - intros x Hx. apply Hv. assert (Hxl : x ∈ L) by (by rewrite Hperm).
    by apply HL in Hxl as [? _].
  - assert (Hle : (length L <= length (seq 0 (2 * size)))%nat).
    { apply submseteq_length, NoDup_submseteq; [rewrite Hperm; by constructor|].
      intros k Hk. apply HL in Hk as [Hk _]. apply elem_of_seq. lia. }
    rewrite length_seq, Hperm in Hle. simpl in Hle. lia.
Qed.

End matching.

(** ** Nonces *)

Section nonces.
Context (p : CuckooParams) (nonces : list Z).

Definition nonce_ok (n : nat) : Prop :=
  nonces !!! n <= edge_mask p /\ ((0 < n)%nat -> nonces !!! (n - 1)%nat < nonces !!! n).

(** Edges are within the graph and strictly ascending. *)
Definition nonces_ok : Prop := forall n, (n < length nonces)%nat -> nonce_ok n.

Lemma check_nonce_spec n :
  (n < length nonces)%nat ->
  exists r, check_nonce p nonces n = Some r /\
    match r with Ok x => x = nonces !!! n /\ nonce_ok n | Err _ => ~ nonce_ok n end.
Proof.
  intros Hn. unfold check_nonce, nonce_ok.
  rewrite (list_lookup_lookup_total_lt nonces n) by done. simpl.
  destruct (Z.ltb_spec (edge_mask p) (nonces !!! n)); [eexists; split; [done|]; intros [? _]; lia|].
  destruct n as [|n]; [eexists; split; [done|]; split; [done|]; split; [done|lia]|].
  rewrite (list_lookup_lookup_total_lt nonces n) by lia. simpl. rewrite Nat.sub_0_r.
  destruct (Z.leb_spec (nonces !!! S n) (nonces !!! n)); eexists; (split; [done|]); [|intuition lia].
  intros [_ H1]. specialize (H1 ltac:(lia)). lia.
Qed.

End nonces.

Section endpoints.
Context (nonces : list Z) (endpoints : Z -> Z * Z).

Definition ends (n : nat) : Z * Z := endpoints (nonces !!! n).

(** Slot [2 * n] is the first end of edge [n], slot [2 * n + 1] the second. *)
Definition slot_val (k : nat) : Z :=
  if Nat.even k then (ends (Nat.div2 k)).1 else (ends (Nat.div2 k)).2.

Lemma slot_val_even n : slot_val (2 * n) = (ends n).1.
Proof. unfold slot_val. by rewrite Nat.even_even, Nat.div2_double. Qed.

Lemma slot_val_odd n : slot_val (S (2 * n)) = (ends n).2.
Proof. unfold slot_val. by rewrite <- Nat.add_1_r, Nat.even_odd, Nat.add_1_r, Nat.div2_succ_double. Qed.

Lemma even_2n n : Nat.even (2 * n) = true.
Proof. apply Nat.even_even. Qed.

Lemma even_S2n n : Nat.even (S (2 * n)) = false.
Proof. rewrite <- Nat.add_1_r. apply Nat.even_odd. Qed.

Definition filled (uvs : list Z) (m : nat) : Prop :=
  forall k, (k < m)%nat -> uvs !! k = Some (slot_val k).

Lemma filled_S uvs m : filled uvs m -> (m < length uvs)%nat -> filled (<[m := slot_val m]> uvs) (S m).
Proof.
  intros Hf Hm k Hk. destruct (decide (k = m)) as [->|].
  - by rewrite list_lookup_insert_eq.
  - rewrite list_lookup_insert_ne by done. apply Hf. lia.
Qed.

End endpoints.

(** ** Cuckatoo and Cuckaroo *)

Section bip_spec.
Context (p : CuckooParams) (nonces : list Z) (endpoints : Z -> Z * Z) (bits node : Z -> Z).
Context (xor : Z) (dead : Z -> Z -> bool).
#[local] Abbreviation size := (length nonces).
#[local] Abbreviation val := (slot_val nonces endpoints).
#[local] Abbreviation nheads := (Z.to_nat (1 + size_mask size)).
Hypothesis size_pos : (0 < size)%nat.
Hypothesis bits_lt : forall x, (Z.to_nat (bits x) < nheads)%nat.
Hypothesis node_bits : forall x y, node x = node y -> bits x = bits y.
Hypothesis dead_sym : forall x y, dead x y = dead y x.

Record bip_inv (n : nat) (s : bipartite) : Prop := {
  inv_uvs : length (uvs s) = (2 * size)%nat;
  inv_headu : length (headu s) = nheads;
  inv_headv : length (headv s) = nheads;
  inv_prev : length (prev s) = (2 * size)%nat;
  inv_filled : filled nonces endpoints (uvs s) (2 * n);
  inv_tableu : table val bits Nat.even (2 * size) true (headu s) (prev s) (2 * n);
  inv_tablev : table val bits Nat.even (2 * size) false (headv s) (prev s) (2 * n);
  inv_xor0 : xor0 s = Z.lxor xor (xorall (map (fun n => (ends nonces endpoints n).1) (seq 0 n)));
  inv_xor1 : xor1 s = Z.lxor xor (xorall (map (fun n => (ends nonces endpoints n).2) (seq 0 n)));
}.

Lemma bip_init_inv : bip_inv 0 (bip_init size xor).
Proof.
  unfold bip_init.
  split; cbn [uvs headu headv prev xor0 xor1]; rewrite ?length_replicate; try done;
    try apply table_init; try (intros k Hk; lia); simpl; by rewrite Z.lxor_0_r.
Qed.

Lemma bip_edge_spec n s :
  (n < size)%nat -> bip_inv n s ->
  exists r, bip_edge p nonces endpoints bits s n = Some r /\
    match r with Ok s' => nonce_ok p nonces n /\ bip_inv (S n) s' | Err _ => ~ nonce_ok p nonces n end.
Proof.
  intros Hn [Hu Hhu Hhv Hp Hf Ht1 Ht2 Hx0 Hx1]. unfold bip_edge.
  destruct (check_nonce_spec p nonces n Hn) as (r & -> & Hr). cbn [mbind option_bind].
  destruct r as [nonce|e]; [|by eexists]. destruct Hr as [-> Hok].
  fold (ends nonces endpoints n). destruct (ends nonces endpoints n) as [u v] eqn:Eends.
  assert (Eu : u = val (2 * n)) by (by rewrite slot_val_even, Eends).
  assert (Ev : v = val (S (2 * n))) by (by rewrite slot_val_odd, Eends).
  assert (Hn2 : (2 * n < 2 * size)%nat) by lia. assert (Hn3 : (S (2 * n) < 2 * size)%nat) by lia.
  rewrite Nat.add_1_r. rewrite set_Some by (by rewrite Hu). cbn [mbind option_bind].
  pose proof (even_2n n) as Heven. pose proof (even_S2n n) as Hodd.
  destruct (table_link val bits Nat.even (2 * size) true (headu s) (prev s) (2 * n) Ht1 Heven)
    as (hu & pr & Elink & Hlu & Hlp & Ht1' & Hother); [rewrite Hhu; apply bits_lt|lia|].
  rewrite <- Eu in Elink. rewrite Elink. cbn [mbind option_bind].
  rewrite set_Some by (rewrite length_insert; lia). cbn [mbind option_bind].
  specialize (Hother false (headv s) ltac:(done) Ht2).
  destruct (table_link val bits Nat.even (2 * size) false (headv s) pr (S (2 * n)) Hother Hodd)
    as (hv & pr2 & Elink2 & Hlv & Hlp2 & Ht2' & Hother2); [rewrite Hhv; apply bits_lt|lia|].
  rewrite <- Ev in Elink2. rewrite Elink2. cbn [mbind option_bind].
  eexists. split; [reflexivity|]. split; [done|].
  assert (E2n : (2 * S n)%nat = S (S (2 * n))) by lia.
  split; cbn [uvs headu headv prev xor0 xor1]; rewrite ?length_insert, ?E2n; try congruence.
  - rewrite Ev, Eu. apply filled_S; [apply filled_S; [done|lia]|rewrite length_insert; lia].
  - exact (Hother2 true hu ltac:(done) Ht1').
  - done.
  - rewrite seq_S, map_app. cbn [map Nat.add]. by rewrite xorall_snoc, Hx0, Z.lxor_assoc, Eends.
  - rewrite seq_S, map_app. cbn [map Nat.add]. by rewrite xorall_snoc, Hx1, Z.lxor_assoc, Eends.
Qed.

Definition bip_heads (s : bipartite) (c : bool) : list nat := if c then headu s else headv s.

(** The state while the lists of [s] are being closed. *)
Definition bip_closing (s : bipartite) (n : nat) (s' : bipartite) : Prop :=
  exists prev', s' = mkBip (uvs s) (headu s) (headv s) prev' (xor0 s) (xor1 s) /\
    closing size val bits Nat.even (bip_heads s) (prev s) (2 * n) prev'.

Lemma bip_close_spec s n s' :
  bip_inv size s -> (n < size)%nat -> bip_closing s n s' ->
  exists r, bip_close size bits s' n = Some r /\
    match r with Ok s'' => True /\ bip_closing s (S n) s'' | Err _ => ~ True end.
Proof.
  intros [Hu Hhu Hhv Hp Hf Ht1 Ht2 Hx0 Hx1] Hn (prev' & -> & Hc). unfold bip_close.
  cbn [uvs headu headv prev xor0 xor1].
  assert (Hlen : forall c, length (bip_heads s c) = nheads) by (by intros []).
  assert (Hn2 : (2 * n < 2 * size)%nat) by lia. assert (Hn3 : (S (2 * n) < 2 * size)%nat) by lia.
  destruct (close_slot_spec size val bits Nat.even (bip_heads s) nheads bits_lt (prev s)
    Hp Hlen (2 * n) prev' (uvs s) Hc Hn2 (Hf _ Hn2)) as (pr1 & E1 & Hc1).
  rewrite even_2n in E1. cbn [bip_heads] in E1. rewrite E1. cbn [mbind option_bind].
  destruct (close_slot_spec size val bits Nat.even (bip_heads s) nheads bits_lt (prev s)
    Hp Hlen (S (2 * n)) pr1 (uvs s) Hc1 Hn3 (Hf _ Hn3)) as (pr2 & E2 & Hc2).
  rewrite even_S2n in E2. cbn [bip_heads] in E2. rewrite Nat.add_1_r, E2. cbn [mbind option_bind].
  eexists. split; [reflexivity|]. split; [done|]. exists pr2. split; [done|].
  by replace (2 * S n)%nat with (S (S (2 * n))) by lia.
Qed.

Definition bip_adjacent : nat -> nat -> Prop := adjacent size val Nat.even node.
Definition bip_dead (i j : nat) : bool := dead (val i) (val j).

(** The sums of the ends on each side vanish. *)
Definition bip_balanced : Prop :=
  Z.lxor xor (xorall (map (fun n => (ends nonces endpoints n).1) (seq 0 size))) = 0 /\
  Z.lxor xor (xorall (map (fun n => (ends nonces endpoints n).2) (seq 0 size))) = 0.

Lemma follow_total fuel (scan1 scan2 : nat -> option (result pow_error nat)) dead1 dead2 i n :
  (forall i, (i < 2 * size)%nat -> scan1 i = scan2 i) ->
  (forall i j, (i < 2 * size)%nat -> scan2 i = Some (Ok j) -> (j < 2 * size)%nat) ->
  (forall i j, (i < 2 * size)%nat -> (j < 2 * size)%nat -> dead1 i j = dead2 i j) ->
  (i < 2 * size)%nat -> follow fuel scan1 dead1 i n = follow fuel scan2 dead2 i n.
Proof.
  intros Hs Hb Hd. revert i n. induction fuel as [|fuel IH]; intros i n Hi; [done|]. simpl.
  rewrite Hs by done. destruct (scan2 i) as [[j|]|] eqn:E; [|done..]. cbn [mbind option_bind].
  pose proof (Hb _ _ Hi E) as Hj. rewrite (Hd i j Hi Hj).
  destruct (_ || _); [done|]. destruct (_ =? 0)%nat; [done|]. by apply IH, lxor1_lt.
Qed.

Lemma check_length_Ok r : check_length size r = Ok tt <-> r = Ok size.
Proof.
  unfold check_length. destruct r as [n|]; simpl; [|by split].
  destruct (Nat.eqb_spec n size); split; intros; congruence.
Qed.

(** The verifier returns a verdict, which is positive if and only if the nonces
    are fine, the sums vanish and the edges are a single cycle. *)
Lemma bip_verify_spec :
  exists r, bip_verify p size nonces endpoints bits xor node dead = Some r /\
    (r = Ok tt <-> nonces_ok p nonces /\ bip_balanced /\
                   single_cycle size bip_adjacent bip_dead).
Proof.
  unfold bip_verify.
  destruct (for_range_spec (bip_edge p nonces endpoints bits) bip_inv (nonce_ok p nonces) size
    (bip_init size xor) bip_edge_spec bip_init_inv) as (r & -> & Hr). cbn [mbind option_bind].
  destruct r as [s|e]; [|eexists; split; [done|]; split; [done|]; by intros (? & _)].
  destruct Hr as [Hok Hinv]. pose proof Hinv as [Hu Hhu Hhv Hp Hf Ht1 Ht2 Hx0 Hx1].
  assert (Hbal : (Z.lor (xor0 s) (xor1 s) =? 0) = true <-> bip_balanced).
  { rewrite Z.eqb_eq, Z.lor_eq_0_iff, Hx0, Hx1. done. }
  destruct (Z.lor (xor0 s) (xor1 s) =? 0); cbn [negb];
    [|eexists; split; [done|]; split; [done|]; intros (_ & H & _); by apply Hbal in H].
  destruct (for_range_spec (bip_close size bits) (bip_closing s) (fun _ => True) size s)
    as (r & -> & Hr); [intros; by apply bip_close_spec| |].
  { exists (prev s). split; [by destruct s|]. by apply closing_0. }
  cbn [mbind option_bind]. destruct r as [s'|e]; [|by exfalso; apply Hr].
  destruct Hr as (_ & prev' & -> & Hc). cbn [uvs prev].
  assert (Hscan : forall i, (i < 2 * size)%nat ->
    scan_result bip_adjacent i (scan_circular node (uvs s) prev' (2 * size + 1) i i i)).
  { intros i Hi.
    apply (scan_circular_spec size val bits Nat.even node (bip_heads s) nheads bits_lt node_bits (prev s));
      [done|by intros []|intros k; by destruct (Nat.even k)|done|exact Hf|done]. }
  destruct (follow_single_cycle size bip_adjacent bip_dead (fun i k H => proj1 H)
    (fun i k H => proj1 (proj2 H)) (adjacent_sym size val Nat.even node)
    (adjacent_trans size val Nat.even node) (fun i j => dead_sym _ _) _ Hscan size_pos) as (r & Er & Hr).
  erewrite (follow_total _ _ _ _ bip_dead); [| |..].
  - rewrite Er. cbn [mbind option_bind]. eexists. split; [done|].
      rewrite check_length_Ok, Hr. intuition.
  - done.
  - intros i j Hi E. specialize (Hscan i Hi). rewrite E in Hscan. simpl in Hscan.
      destruct Hscan as [[-> _]|Hj]; [done|]. by destruct (proj2 (Hj j) eq_refl) as [? _].
  - intros i j Hi Hj. unfold bip_dead. 
    by rewrite (list_lookup_total_correct _ _ _ (Hf i Hi)), (list_lookup_total_correct _ _ _ (Hf j Hj)).
  - lia.
Qed.

End bip_spec.

(** ** The sums vanish on every single cycle *)

#[local] Instance xorall_proper : Proper ((≡ₚ) ==> (=)) xorall.
Proof.
  induction 1 as [|x l k _ IH|x y l|l k m _ IH1 _ IH2]; unfold xorall in *; simpl; [done| | |congruence].
  - by rewrite IH.
  - by rewrite <- !Z.lxor_assoc, (Z.lxor_comm y).
Qed.

Lemma xorall_app l k : xorall (l ++ k) = Z.lxor (xorall l) (xorall k).
Proof.
  unfold xorall. induction l as [|x l IH]; simpl; [done|]. by rewrite IH, Z.lxor_assoc.
Qed.

Lemma xorall_zip {A B} (f : A -> Z) (g : B -> Z) l k :
  length l = length k ->
  Z.lxor (xorall (map f l)) (xorall (map g k)) = xorall (zip_with (fun x y => Z.lxor (f x) (g y)) l k).
Proof.
  revert k. induction l as [|x l IH]; intros [|y k] Hl; try done. injection Hl as Hl.
  unfold xorall in *. simpl. rewrite <- IH by done.
  rewrite !Z.lxor_assoc. f_equal. rewrite <- !Z.lxor_assoc. f_equal. apply Z.lxor_comm.
Qed.

Lemma seq_double n : seq 0 (2 * S n) = seq 0 (2 * n) ++ [(2 * n)%nat; S (2 * n)].
Proof.
  replace (2 * S n)%nat with (2 * n + 2)%nat by lia. by rewrite seq_app.
Qed.

(** What each side contributes to the sum over all slots. *)
Definition on_side (val : nat -> Z) (c : bool) (k : nat) : Z :=
  if Bool.eqb (Nat.even k) c then val k else 0.

Lemma xorall_side (val : nat -> Z) c n :
  xorall (map (on_side val c) (seq 0 (2 * n))) =
  xorall (map (fun m => if c then val (2 * m)%nat else val (S (2 * m))) (seq 0 n)).
Proof.
  induction n as [|n IH]; [done|]. rewrite seq_double, seq_S, !map_app, !xorall_app, IH. f_equal.
  cbn [map Nat.add]. unfold on_side. rewrite even_2n, even_S2n. unfold xorall. simpl.
  destruct c; simpl; by rewrite ?Z.lxor_0_r.
Qed.

Lemma xorall_alternating (c : bool) d h :
  xorall (map (fun t => if Bool.eqb (Nat.even t) c then d else 0) (seq 0 (2 * h))) =
  if Nat.even h then 0 else d.
Proof.
  induction h as [|h IH]; [done|]. rewrite seq_double, map_app, xorall_app, IH.
  cbn [map]. rewrite even_2n, even_S2n, Nat.even_succ, <- Nat.negb_even. unfold xorall. simpl.
  destruct c, (Nat.even h); simpl; rewrite ?Z.lxor_0_r; try done; by rewrite Z.lxor_nilpotent.
Qed.

Lemma cycle_slots size c :
  length c = size -> NoDup (map Nat.div2 c) -> Forall (fun x => x < 2 * size)%nat c ->
  c ++ map (fun x => Nat.lxor x 1) c ≡ₚ seq 0 (2 * size).
Proof.
  intros Hlen Hnd Hlt.
  assert (Hc : NoDup c) by (by eapply NoDup_fmap_1 in Hnd).
  assert (Hsub : c ++ map (fun x => Nat.lxor x 1) c ⊆+ seq 0 (2 * size)).
  { apply NoDup_submseteq.
    - apply NoDup_app. split_and!; [done| |].
      + intros x Hx (y & -> & Hy)%elem_of_map.
        apply list_elem_of_lookup in Hx as [s Hs]. apply list_elem_of_lookup in Hy as [t Ht].
        assert (s = t) as -> by (eapply div2_NoDup_inj; [exact Hnd|exact Hs|exact Ht|apply lxor1_div2]).
        rewrite Hs in Ht. injection Ht as E. by apply (lxor1_neq y).
      + apply NoDup_fmap_2; [|done]. intros x y E.
        by rewrite <- (lxor1_lxor1 x), E, lxor1_lxor1.
    - intros x Hx. apply elem_of_seq. split; [lia|]. rewrite Nat.add_0_l. rewrite Forall_forall in Hlt.
      apply elem_of_app in Hx as [Hx|(y & -> & Hy)%elem_of_map]; [by apply Hlt|].
      by apply lxor1_lt, Hlt. }
  apply submseteq_length_Permutation; [done|].
  rewrite length_seq, length_app, length_map. lia.
Qed.

(** The cycle, starting from its second slot. *)
Lemma cycle_rotation size (c : list nat) :
  (0 < size)%nat -> length c = size ->
  exists rot, rot ≡ₚ c /\ length rot = size /\ forall t, (t < size)%nat -> rot !! t = c !! (S t mod size)%nat.
Proof.
  intros Hpos Hlen. destruct c as [|x c]; [simpl in Hlen; lia|]. simpl in Hlen.
  exists (c ++ [x]). split_and!.
  - symmetry. apply Permutation_cons_append.
  - rewrite length_app. simpl. lia.
  - intros t Ht. destruct (decide (S t = size)) as [E|].
    + rewrite E, Nat.Div0.mod_same, lookup_app_r by lia. by replace (t - length c)%nat with 0%nat by lia.
    + by rewrite Nat.mod_small, lookup_app_l by lia.
Qed.

Section balance.
Context (size : nat) (adj : nat -> nat -> Prop) (dead : nat -> nat -> bool) (val : nat -> Z) (d : Z).
Hypothesis size_pos : (0 < size)%nat.
Hypothesis partner_val : forall x k, (x < 2 * size)%nat -> partner adj dead x k ->
  Nat.even k = Nat.even x /\ Z.lxor (val x) (val k) = d.

Lemma single_cycle_balanced c :
  single_cycle size adj dead ->
  xorall (map (on_side val c) (seq 0 (2 * size))) = if Nat.even (size / 2) then 0 else d.
Proof.
  intros (cyc & Hlen & H0 & Hnd & Hlt & Hst).
  rewrite <- (cycle_slots size cyc Hlen Hnd Hlt), map_app, xorall_app, map_map.
  destruct (cycle_rotation size cyc size_pos Hlen) as (rot & Hperm & Hrlen & Hrot).
  rewrite <- Hperm at 2. rewrite xorall_zip by congruence.
  (* slots alternate between the sides *)
  assert (Hnext : forall t x, cyc !! t = Some x -> exists y, rot !! t = Some y /\
            cyc !! (S t mod size)%nat = Some y /\ partner adj dead x (Nat.lxor y 1)).
  { intros t x Hx. pose proof (lookup_lt_Some _ _ _ Hx) as Htl.
    destruct (lookup_lt_is_Some_2 rot t) as [y Hy]; [lia|].
    exists y. rewrite <- Hrot by lia. split_and!; [done..|]. eapply Hst; [exact Hx|].
    by rewrite <- Hrot by lia. }
  assert (Hpar : forall t x, cyc !! t = Some x -> Nat.even x = Nat.even t).
  { induction t as [|t IH]; intros x Hx; [assert (x = 0%nat) as -> by congruence; done|].
    pose proof (lookup_lt_Some _ _ _ Hx) as Htl.
    destruct (lookup_lt_is_Some_2 cyc t) as [z Hz]; [lia|].
    destruct (Hnext t z Hz) as (y & _ & Hy & Hp). rewrite Nat.mod_small in Hy by lia.
    assert (y = x) as -> by congruence.
    apply partner_val in Hp as [Hp _]; [|by eapply Forall_lookup_1 in Hlt].
    rewrite <- (Nat.negb_odd (Nat.lxor x 1)), lxor1_odd, negb_involutive in Hp.
    rewrite <- Nat.negb_odd, Hp, (IH _ Hz), Nat.even_succ. by rewrite Nat.negb_even. }
  assert (Heven : Nat.even size = true).
  { destruct (lookup_lt_is_Some_2 cyc (size - 1)) as [z Hz]; [lia|].
    destruct (Hnext _ z Hz) as (y & _ & Hy & Hp). replace (S (size - 1)) with size in Hy by lia.
    rewrite Nat.Div0.mod_same in Hy. assert (y = 0%nat) as -> by congruence.
    apply partner_val in Hp as [Hp _]; [|by eapply Forall_lookup_1 in Hlt].
    rewrite (Hpar _ _ Hz) in Hp. simpl in Hp. replace size with (S (size - 1)) by lia.
    by rewrite Nat.even_succ, <- Nat.negb_even, <- Hp. }
  apply Nat.even_spec in Heven as [h Hh]. rewrite Hh, Nat.mul_comm, Nat.div_mul by done.
  rewrite <- (xorall_alternating c d h). f_equal. rewrite <- Hh.
  apply list_eq_same_length with size; [by rewrite length_map, length_seq|
    rewrite length_zip_with_l_eq; [done|congruence]|].
  intros t z1 z2 Ht. rewrite lookup_zip_with_Some.
  intros (x & y & -> & Hx & Hy). change (map ?f ?l) with (f <$> l).
  rewrite list_lookup_fmap_Some. intros (t' & -> & [-> _]%lookup_seq). cbn [Nat.add].
  destruct (Hnext t x Hx) as (y' & Hy' & _ & Hp). assert (y' = y) as -> by congruence.
  apply partner_val in Hp as [He Hd]; [|by eapply Forall_lookup_1 in Hlt].
  unfold on_side. rewrite He, (Hpar _ _ Hx). destruct (Bool.eqb _ c); [done|apply Z.lxor_0_r].
Qed.

End balance.

(** ** Cuckarooz *)

Section mono_spec.
Context (p : CuckooParams) (nonces : list Z) (endpoints : Z -> Z * Z) (bits : Z -> Z).
#[local] Abbreviation size := (length nonces).
#[local] Abbreviation val := (slot_val nonces endpoints).
#[local] Abbreviation nheads := (Z.to_nat (1 + size_mask size)).
#[local] Abbreviation one_side := (fun _ : nat => true).
Hypothesis bits_lt : forall x, (Z.to_nat (bits x) < nheads)%nat.

Record mono_inv (n : nat) (s : monopartite) : Prop := {
  minv_uvs : length (m_uvs s) = (2 * size)%nat;
  minv_head : length (m_head s) = nheads;
  minv_prev : length (m_prev s) = (2 * size)%nat;
  minv_filled : filled nonces endpoints (m_uvs s) (2 * n);
  minv_table : table val bits one_side (2 * size) true (m_head s) (m_prev s) (2 * n);
  minv_xor : m_xoruv s = xorall (map (fun n => Z.lxor (ends nonces endpoints n).1 (ends nonces endpoints n).2) (seq 0 n));
}.

Lemma mono_init_inv : mono_inv 0 (mono_init size).
Proof.
  unfold mono_init.
  split; cbn [m_uvs m_head m_prev m_xoruv]; rewrite ?length_replicate; try done;
    try apply table_init; intros k Hk; lia.
Qed.

Lemma mono_edge_spec n s :
  (n < size)%nat -> mono_inv n s ->
  exists r, mono_edge p nonces endpoints bits s n = Some r /\
    match r with Ok s' => nonce_ok p nonces n /\ mono_inv (S n) s' | Err _ => ~ nonce_ok p nonces n end.
Proof.
  intros Hn [Hu Hh Hp Hf Ht Hx]. unfold mono_edge.
  destruct (check_nonce_spec p nonces n Hn) as (r & -> & Hr). cbn [mbind option_bind].
  destruct r as [nonce|e]; [|by eexists]. destruct Hr as [-> Hok].
  fold (ends nonces endpoints n). destruct (ends nonces endpoints n) as [u v] eqn:Eends.
  assert (Eu : u = val (2 * n)) by (by rewrite slot_val_even, Eends).
  assert (Ev : v = val (S (2 * n))) by (by rewrite slot_val_odd, Eends).
  assert (Hn2 : (2 * n < 2 * size)%nat) by lia. assert (Hn3 : (S (2 * n) < 2 * size)%nat) by lia.
  rewrite Nat.add_1_r. rewrite set_Some by (by rewrite Hu). cbn [mbind option_bind].
  destruct (table_link val bits one_side (2 * size) true (m_head s) (m_prev s) (2 * n) Ht eq_refl)
    as (h1 & pr & Elink & Hl1 & Hlp & Ht1 & _); [rewrite Hh; apply bits_lt|lia|].
  rewrite <- Eu in Elink. rewrite Elink. cbn [mbind option_bind].
  rewrite set_Some by (rewrite length_insert; lia). cbn [mbind option_bind].
  destruct (table_link val bits one_side (2 * size) true h1 pr (S (2 * n)) Ht1 eq_refl)
    as (h2 & pr2 & Elink2 & Hl2 & Hlp2 & Ht2 & _); [rewrite Hl1, Hh; apply bits_lt|lia|].
  rewrite <- Ev in Elink2. rewrite Elink2. cbn [mbind option_bind].
  eexists. split; [reflexivity|]. split; [done|].
  assert (E2n : (2 * S n)%nat = S (S (2 * n))) by lia.
  split; cbn [m_uvs m_head m_prev m_xoruv]; rewrite ?length_insert, ?E2n; try congruence.
  - rewrite Ev, Eu. apply filled_S; [apply filled_S; [done|lia]|rewrite length_insert; lia].
  - done.
  - rewrite seq_S, map_app. cbn [map Nat.add]. by rewrite xorall_snoc, Hx, Eends.
Qed.

Definition mono_closing (s : monopartite) (n : nat) (s' : monopartite) : Prop :=
  exists prev', s' = mkMono (m_uvs s) (m_head s) prev' (m_xoruv s) /\
    closing size val bits one_side (fun _ => m_head s) (m_prev s) n prev'.

Lemma mono_close_spec s n s' :
  mono_inv size s -> (n < 2 * size)%nat -> mono_closing s n s' ->
  exists r, mono_close size bits s' n = Some r /\
    match r with Ok s'' => True /\ mono_closing s (S n) s'' | Err _ => ~ True end.
Proof.
  intros [Hu Hh Hp Hf Ht Hx] Hn (prev' & -> & Hc). unfold mono_close.
  cbn [m_uvs m_head m_prev m_xoruv].
  destruct (close_slot_spec size val bits one_side (fun _ => m_head s) nheads bits_lt (m_prev s)
    Hp (fun _ => Hh) n prev' (m_uvs s) Hc Hn (Hf _ Hn)) as (pr1 & E1 & Hc1).
  cbn beta in E1. rewrite E1. cbn [mbind option_bind].
  eexists. split; [reflexivity|]. split; [done|]. by exists pr1.
Qed.

Definition mono_adjacent : nat -> nat -> Prop := adjacent size val one_side (fun u => u).

Lemma xorall_slots n :
  xorall (map val (seq 0 (2 * n))) =
  xorall (map (fun n => Z.lxor (ends nonces endpoints n).1 (ends nonces endpoints n).2) (seq 0 n)).
Proof.
  induction n as [|n IH]; [done|]. rewrite seq_double, seq_S, !map_app, !xorall_app, IH. f_equal.
  cbn [map Nat.add]. rewrite slot_val_even, slot_val_odd. unfold xorall. simpl. by rewrite !Z.lxor_0_r.
Qed.

End mono_spec.

(** The slots of a single cycle on one side cancel pairwise. *)
Lemma single_cycle_sum size adj (val : nat -> Z) :
  (0 < size)%nat ->
  (forall x k, (x < 2 * size)%nat -> partner adj (fun _ _ => false) x k -> val k = val x) ->
  single_cycle size adj (fun _ _ => false) -> xorall (map val (seq 0 (2 * size))) = 0.
Proof.
  intros Hpos Hval (cyc & Hlen & H0 & Hnd & Hlt & Hst).
  rewrite <- (cycle_slots size cyc Hlen Hnd Hlt), map_app, xorall_app, map_map.
  destruct (cycle_rotation size cyc Hpos Hlen) as (rot & Hperm & Hrlen & Hrot).
  rewrite <- Hperm at 2. rewrite xorall_zip by congruence.
  assert (Hz : Forall (fun z => z = 0) (zip_with (fun x y => Z.lxor (val x) (val (Nat.lxor y 1))) cyc rot)).
  { apply Forall_lookup_2. intros t z. rewrite lookup_zip_with_Some. intros (x & y & -> & Hx & Hy).
    pose proof (lookup_lt_Some _ _ _ Hx). rewrite Hrot in Hy by lia.
    rewrite (Hval x (Nat.lxor y 1)); [apply Z.lxor_nilpotent| |by eapply Hst].
    by eapply Forall_lookup_1 in Hlt. }
  unfold xorall. induction Hz as [|z l -> _ IH]; simpl; [done|exact IH].
Qed.

(** ** The size mask *)

Lemma size_mask_ones size : exists k, 0 <= k /\ size_mask size = Z.ones k.
Proof.
  unfold size_mask, shr64, u_max. set (m := leading_zeros _ mod 64).
  assert (Hm : 0 <= m < 64) by (apply Z.mod_pos_bound; lia).
  exists (64 - m). split; [lia|]. rewrite Z.shiftr_div_pow2 by lia.
  replace (2 ^ 64 - 1) with (Z.ones 64) by reflexivity. apply Z.ones_div_pow2. lia.
Qed.

Lemma mask_lt size x : (Z.to_nat (Z.land x (size_mask size)) < Z.to_nat (1 + size_mask size))%nat.
Proof.
  destruct (size_mask_ones size) as (k & Hk & ->). rewrite Z.land_ones, Z.ones_equiv by done.
  pose proof (pow2_pos k Hk). pose proof (Z.mod_pos_bound x (2 ^ k) ltac:(lia)). lia.
Qed.

Lemma proofsize_pos ct size : Z.of_nat size = proofsize ct -> (0 < size)%nat.
Proof. intros E. assert (0 < proofsize ct) by (destruct ct; vm_compute; reflexivity). lia. Qed.

Lemma wrong_length (ct : ChainTypes) size (f : option (result pow_error unit)) (P : Prop) :
  (Z.of_nat size = proofsize ct -> exists r, f = Some r /\ (r = Ok tt <-> P)) ->
  exists r, (if negb (Z.of_nat size =? proofsize ct) then Some (Err WrongCycleLength) else f) = Some r /\
    (r = Ok tt <-> Z.of_nat size = proofsize ct /\ P).
Proof.
  intros Hf. destruct (Z.eqb_spec (Z.of_nat size) (proofsize ct)) as [E|E]; simpl.
  - destruct (Hf E) as (r & -> & Hr). exists r. split; [done|]. rewrite Hr. tauto.
  - eexists. split; [done|]. split; [done|]. by intros [? _].
Qed.

(** Two numbers that differ, but not above the last bit. *)
Lemma lxor_double q : Z.lxor (2 * q) (2 * q + 1) = 1.
Proof.
  apply Z.bits_inj'. intros n Hn. rewrite Z.lxor_spec.
  destruct (Z.eq_dec n 0) as [->|]; [by rewrite Z.testbit_even_0, Z.testbit_odd_0|].
  replace n with (Z.succ (n - 1)) by lia.
  rewrite (Z.testbit_even_succ q (n - 1)), (Z.testbit_odd_succ q (n - 1)), xorb_nilpotent by lia.
  change (Z.testbit 1 (Z.succ (n - 1))) with (Z.testbit (2 * 0 + 1) (Z.succ (n - 1))).
  rewrite (Z.testbit_odd_succ 0 (n - 1)) by lia. by rewrite Z.bits_0.
Qed.

Lemma lxor_neighbours x y : shr64 x 1 = shr64 y 1 -> x <> y -> Z.lxor x y = 1.
Proof.
  unfold shr64. rewrite (Z.mod_small 1 64), !Z.shiftr_div_pow2 by lia. change (2 ^ 1) with 2.
  intros E Hne. pose proof (Z.div_mod x 2 ltac:(lia)). pose proof (Z.div_mod y 2 ltac:(lia)).
  pose proof (Z.mod_pos_bound x 2 ltac:(lia)). pose proof (Z.mod_pos_bound y 2 ltac:(lia)).
  rewrite <- (lxor_double (x / 2)).
  assert (x = 2 * (x / 2) /\ y = 2 * (x / 2) + 1 \/ x = 2 * (x / 2) + 1 /\ y = 2 * (x / 2))
    as [[Hx Hy]|[Hx Hy]] by lia.
  - by rewrite Hx at 1; rewrite Hy at 1.
  - rewrite Hx at 1. rewrite Hy at 1. apply Z.lxor_comm.
Qed.

(** ** Cycles of the four graphs *)

Definition no_condition : Z -> Z -> bool := fun _ _ => false.

(** Slots of a bipartite Cuckaroo graph meet at equal nodes of their side. *)
Definition cuckaroo_cycle (p : CuckooParams) (nonces : list Z) : Prop :=
  let endpoints := edge_endpoints p 21 false in
  single_cycle (length nonces) (bip_adjacent nonces endpoints (fun u => u))
    (bip_dead nonces endpoints no_condition).

(** Slots of a Cuckatoo graph meet at nodes that agree up to the last bit, and
    must differ in it. *)
Definition cuckatoo_cycle (p : CuckooParams) (nonces : list Z) : Prop :=
  let endpoints nonce := (sipnode p nonce 0, sipnode p nonce 1) in
  single_cycle (length nonces) (bip_adjacent nonces endpoints (fun u => shr64 u 1))
    (bip_dead nonces endpoints Z.eqb).

(** Slots of a Cuckarooz graph meet at equal nodes. *)
Definition cuckarooz_cycle (p : CuckooParams) (nonces : list Z) : Prop :=
  single_cycle (length nonces) (mono_adjacent nonces (edge_endpoints p 21 true)) (fun _ _ => false).

Lemma bip_balanced_iff nonces endpoints xor :
  bip_balanced nonces endpoints xor <->
  forall c, xorall (map (on_side (slot_val nonces endpoints) c) (seq 0 (2 * length nonces))) = xor.
Proof.
  unfold bip_balanced.
  assert (Hs : forall c, xorall (map (on_side (slot_val nonces endpoints) c) (seq 0 (2 * length nonces))) =
    xorall (map (fun n => if c : bool then (ends nonces endpoints n).1 else (ends nonces endpoints n).2)
      (seq 0 (length nonces)))).
  { intros c. rewrite xorall_side. f_equal. apply map_ext. intros n.
    by rewrite slot_val_even, slot_val_odd. }
  rewrite !Z.lxor_eq_0_iff. split.
  - intros [H1 H2] [|]; by rewrite Hs.
  - intros H. split; [rewrite <- (H true)|rewrite <- (H false)]; by rewrite Hs.
Qed.

Lemma cuckaroo_verify_spec ct p nonces :
  exists r, cuckaroo_verify ct p nonces = Some r /\
    (r = Ok tt <-> Z.of_nat (length nonces) = proofsize ct /\ nonces_ok p nonces /\ cuckaroo_cycle p nonces).
Proof.
  apply wrong_length. intros E. pose proof (proofsize_pos _ _ E) as Hpos.
  destruct (bip_verify_spec p nonces (edge_endpoints p 21 false) (fun u => Z.land u (size_mask (length nonces)))
    (fun u => u) 0 no_condition Hpos) as (r & Er & Hr); [apply mask_lt|by intros x y ->|done|].
  exists r. split; [exact Er|]. rewrite Hr. split; [by intros (? & _ & ?)|]. intros [Hok Hc].
  split_and!; [done| |done]. apply bip_balanced_iff. intros c.
  rewrite (single_cycle_balanced _ _ _ _ 0 Hpos) with (2 := Hc); [by destruct (Nat.even _)|].
  intros x k _ [Hadj _]. destruct (proj2 (Hadj k) eq_refl) as (_ & _ & -> & ->).
  split; [done|apply Z.lxor_nilpotent].
Qed.

Lemma cuckatoo_verify_spec ct p nonces :
  exists r, cuckatoo_verify ct p nonces = Some r /\
    (r = Ok tt <-> Z.of_nat (length nonces) = proofsize ct /\ nonces_ok p nonces /\ cuckatoo_cycle p nonces).
Proof.
  apply wrong_length. intros E. pose proof (proofsize_pos _ _ E) as Hpos.
  set (xor := Z.land (Z.of_nat (length nonces) / 2) 1).
  destruct (bip_verify_spec p nonces (fun nonce => (sipnode p nonce 0, sipnode p nonce 1))
    (fun u => Z.land (shr64 u 1) (size_mask (length nonces))) (fun u => shr64 u 1) xor Z.eqb Hpos)
    as (r & Er & Hr); [intros; apply mask_lt|by intros x y ->|apply Z.eqb_sym|].
  exists r. split; [exact Er|]. rewrite Hr. split; [by intros (? & _ & ?)|]. intros [Hok Hc].
  split_and!; [done| |done]. apply bip_balanced_iff. intros c.
  rewrite (single_cycle_balanced _ _ _ _ 1 Hpos) with (2 := Hc).
  - unfold xor. change 1 with (Z.ones 1). rewrite Z.land_ones by lia. change (2 ^ 1) with 2.
    change 2 with (Z.of_nat 2). rewrite <- Nat2Z.inj_div, <- Nat2Z.inj_mod.
    change (Z.ones 1) with 1. generalize (length nonces / 2)%nat as h. intros h. rewrite <- Nat.negb_odd.
    destruct (Nat.odd h) eqn:Eh; cbn [negb].
    + apply Nat.odd_spec in Eh as [k ->]. by rewrite Nat.add_comm, Nat.mul_comm, Nat.Div0.mod_add.
    + rewrite <- Nat.negb_even in Eh. apply negb_false_iff, Nat.even_spec in Eh as [k ->].
      by rewrite Nat.mul_comm, Nat.Div0.mod_mul.
  - intros x k _ [Hadj Hdead]. destruct (proj2 (Hadj k) eq_refl) as (_ & _ & -> & Hn).
    split; [done|]. apply lxor_neighbours; [done|]. by apply Z.eqb_neq.
Qed.

Lemma cuckarooz_verify_spec ct p nonces :
  proof_size p = length nonces ->
  exists r, cuckarooz_verify ct p nonces = Some r /\
    (r = Ok tt <-> Z.of_nat (length nonces) = proofsize ct /\
       nonces_ok p nonces /\ cuckarooz_cycle p nonces).
Proof.
  intros Hps. apply wrong_length. intros E. pose proof (proofsize_pos _ _ E) as Hpos. cbv zeta.
  set (bits := fun u => Z.land u (size_mask (length nonces))). set (endpoints := edge_endpoints p 21 true).
  assert (Hbits : forall x, (Z.to_nat (bits x) < Z.to_nat (1 + size_mask (length nonces)))%nat)
    by (intros; apply mask_lt).
  destruct (for_range_spec (mono_edge p nonces endpoints bits) (mono_inv nonces endpoints bits) (nonce_ok p nonces)
    (length nonces) (mono_init (length nonces)) (mono_edge_spec p nonces endpoints bits Hbits)
    (mono_init_inv nonces endpoints bits)) as (r & -> & Hr). cbn [mbind option_bind].
  destruct r as [s|e]; [|eexists; split; [done|]; split; [done|]; by intros (? & _)].
  destruct Hr as [Hok Hinv]. pose proof Hinv as [Hu Hh Hp Hf Ht Hx].
  assert (Hadj_eq : forall x k, (x < 2 * length nonces)%nat ->
    partner (mono_adjacent nonces endpoints) (fun _ _ => false) x k ->
    slot_val nonces endpoints k = slot_val nonces endpoints x).
  { intros x k _ [Hadj _]. by destruct (proj2 (Hadj k) eq_refl) as (_ & _ & _ & ?). }
  assert (Hsum : cuckarooz_cycle p nonces -> m_xoruv s = 0).
  { intros Hc. rewrite Hx, <- xorall_slots. by apply (single_cycle_sum (length nonces) (mono_adjacent nonces endpoints)). }
  destruct (Z.eqb_spec (m_xoruv s) 0) as [Hz|Hz]; cbn [negb];
    [|eexists; split; [done|]; split; [done|]; intros (_ & Hc); by apply Hsum in Hc].
  destruct (for_range_spec (mono_close (length nonces) bits) (mono_closing nonces endpoints bits s)
    (fun _ => True) (2 * length nonces) s) as (r & -> & Hr); [intros; by apply mono_close_spec| |].
  { exists (m_prev s). split; [by destruct s|]. by apply closing_0. }
  cbn [mbind option_bind]. destruct r as [s'|e]; [|by exfalso; apply Hr].
  destruct Hr as (_ & prev' & -> & Hc). cbn [m_uvs m_prev].
  assert (Hscan : forall i, (i < 2 * length nonces)%nat ->
    scan_result (mono_adjacent nonces endpoints) i
      (scan_circular (fun u => u) (m_uvs s) prev' (2 * length nonces + 1) i i i)).
  { intros i Hi. eapply (scan_circular_spec (length nonces) (slot_val nonces endpoints) bits (fun _ => true)
      (fun u => u) (fun _ => m_head s) _ Hbits); try done. by intros x y ->. }
  destruct (follow_single_cycle (length nonces) (mono_adjacent nonces endpoints) (fun _ _ => false)
    (fun i k H => proj1 H) (fun i k H => proj1 (proj2 H)) (adjacent_sym _ _ _ _)
    (adjacent_trans _ _ _ _) (fun i j => eq_refl) _ Hscan Hpos) as (r & Er & Hr).
  rewrite Er. cbn [mbind option_bind]. eexists. split; [done|].
  rewrite Hps, check_length_Ok, Hr. unfold cuckarooz_cycle. tauto.
Qed.

(** ** Cuckaroom *)

(** All edges form one directed cycle: they can be listed in an order in which
    each ends where the next one starts, the last one where the first one
    starts, and no two start at the same node. *)
Definition directed_cycle (size : nat) (from to : nat -> Z) : Prop :=
  exists c : list nat, length c = size /\ c !! 0%nat = Some 0%nat /\ NoDup c /\
    Forall (fun x => x < size)%nat c /\ NoDup (map from c) /\
    forall t x y, c !! t = Some x -> c !! (S t mod size)%nat = Some y -> to x = from y.

Section directed_spec.
Context (p : CuckooParams) (nonces : list Z) (endpoints : Z -> Z * Z) (bits : Z -> Z).
#[local] Abbreviation size := (length nonces).
#[local] Abbreviation nheads := (Z.to_nat (1 + size_mask size)).
#[local] Abbreviation one_side := (fun _ : nat => true).
Definition start (n : nat) : Z := (ends nonces endpoints n).1.
Definition stop (n : nat) : Z := (ends nonces endpoints n).2.
Hypothesis size_pos : (0 < size)%nat.
Hypothesis bits_lt : forall x, (Z.to_nat (bits x) < nheads)%nat.

Record dir_inv (n : nat) (s : directed) : Prop := {
  dinv_from : length (from s) = size /\ forall k, (k < n)%nat -> from s !! k = Some (start k);
  dinv_to : length (to s) = size /\ forall k, (k < n)%nat -> to s !! k = Some (stop k);
  dinv_head : length (d_head s) = nheads;
  dinv_prev : length (d_prev s) = size;
  dinv_table : table start bits one_side size true (d_head s) (d_prev s) n;
  dinv_xor_from : xor_from s = xorall (map start (seq 0 n));
  dinv_xor_to : xor_to s = xorall (map stop (seq 0 n));
}.

Lemma dir_init_inv : dir_inv 0 (dir_init size).
Proof.
  unfold dir_init. split; cbn [from to d_head d_prev xor_from xor_to]; rewrite ?length_replicate; try done;
    try apply table_init; split; try done; intros k Hk; lia.
Qed.

Lemma insert_filled (f : nat -> Z) l n :
  (n < length l)%nat -> (forall k, (k < n)%nat -> l !! k = Some (f k)) ->
  forall k, (k < S n)%nat -> (<[n := f n]> l) !! k = Some (f k).
Proof.
  intros Hn Hf k Hk. destruct (decide (k = n)) as [->|]; [by rewrite list_lookup_insert_eq|].
  rewrite list_lookup_insert_ne by done. apply Hf. lia.
Qed.

Lemma dir_edge_spec n s :
  (n < size)%nat -> dir_inv n s ->
  exists r, dir_edge p nonces endpoints bits s n = Some r /\
    match r with Ok s' => nonce_ok p nonces n /\ dir_inv (S n) s' | Err _ => ~ nonce_ok p nonces n end.
Proof.
  intros Hn [[Hfl Hf] [Htl Ht] Hh Hp Htab Hx0 Hx1]. unfold dir_edge.
  destruct (check_nonce_spec p nonces n Hn) as (r & -> & Hr). cbn [mbind option_bind].
  destruct r as [nonce|e]; [|by eexists]. destruct Hr as [-> Hok].
  fold (ends nonces endpoints n). destruct (ends nonces endpoints n) as [u v] eqn:Eends.
  assert (Eu : u = start n) by (unfold start; by rewrite Eends).
  assert (Ev : v = stop n) by (unfold stop; by rewrite Eends).
  rewrite set_Some by lia. cbn [mbind option_bind].
  destruct (table_link start bits one_side size true (d_head s) (d_prev s) n Htab eq_refl)
    as (h & pr & Elink & Hl1 & Hlp & Ht1 & _); [rewrite Hh; apply bits_lt|lia|].
  rewrite <- Eu in Elink. rewrite Elink. cbn [mbind option_bind].
  rewrite set_Some by lia. cbn [mbind option_bind].
  eexists. split; [reflexivity|]. split; [done|]. rewrite Eu, Ev.
  split; cbn [from to d_head d_prev xor_from xor_to]; rewrite ?length_insert; try congruence.
  - split; [done|]. by apply insert_filled; [lia|].
  - split; [done|]. by apply insert_filled; [lia|].
  - done.
  - rewrite seq_S, map_app. cbn [map Nat.add]. by rewrite xorall_snoc, Hx0.
  - rewrite seq_S, map_app. cbn [map Nat.add]. by rewrite xorall_snoc, Hx1.
Qed.

(** The edge that the inner loop finds. *)
Definition next_from (node : Z) : option nat :=
  List.find (fun k => start k =? node) (bucket start bits one_side true (Z.to_nat (bits node)) size).

Lemma next_from_Some node k : next_from node = Some k -> (k < size)%nat /\ start k = node.
Proof.
  intros [Hk E]%List.find_some. apply list_elem_of_In, elem_of_bucket in Hk as (? & _). lia.
Qed.

Lemma next_from_None node k : next_from node = None -> (k < size)%nat -> start k <> node.
Proof.
  intros H Hk E. eapply List.find_none in H; [|apply list_elem_of_In, elem_of_bucket; split_and!; [done|done|by rewrite E]].
  lia.
Qed.

Lemma scan_from_list s node fuel b A L :
  dir_inv size s -> (b < nheads)%nat -> bucket start bits one_side true b size = A ++ L ->
  (length L < fuel)%nat ->
  scan_from size fuel s node (List.hd size L) =
  Some (match List.find (fun k => start k =? node) L with Some k => Ok k | None => Err CycleDeadEnds end).
Proof.
  intros Hinv Hb. revert A fuel. induction L as [|x L IH]; intros A fuel E Hf;
    (destruct fuel as [|fuel]; [simpl in Hf; lia|]); simpl; [by rewrite Nat.eqb_refl|].
  assert (Hx : x ∈ bucket start bits one_side true b size).
  { rewrite E. apply elem_of_app. right. by left. }
  apply elem_of_bucket in Hx as (Hx & _). destruct (Nat.eqb_spec x size); [lia|].
  destruct (dinv_from _ _ Hinv) as [_ Hfrom]. rewrite (Hfrom x Hx). cbn [mbind option_bind].
  destruct (start x =? node); [done|].
  destruct (dinv_table _ _ Hinv b) as [_ Hn]; [by rewrite (dinv_head _ _ Hinv)|].
  rewrite (Hn _ _ _ E). cbn [mbind option_bind].
  apply (IH (A ++ [x])); [by rewrite <- app_assoc|simpl in Hf; lia].
Qed.

Lemma scan_from_spec s node :
  dir_inv size s ->
  exists k, d_head s !! Z.to_nat (bits node) = Some k /\
    scan_from size (S size) s node k =
    Some (match next_from node with Some k => Ok k | None => Err CycleDeadEnds end).
Proof.
  intros Hinv. destruct (dinv_table _ _ Hinv (Z.to_nat (bits node))) as [Hh _].
  { rewrite (dinv_head _ _ Hinv). apply bits_lt. }
  eexists. split; [exact Hh|]. eapply (scan_from_list s node _ _ []); [done|apply bits_lt|done|].
  set (L := bucket _ _ _ _ _ _). apply Nat.lt_succ_r. rewrite <- (length_seq size 0).
  apply submseteq_length, NoDup_submseteq; [apply bucket_NoDup|].
  intros k (Hk & _)%elem_of_bucket. apply elem_of_seq. lia.
Qed.

(** The edges visited before edge [i]. *)
Definition visits (l : list nat) (i : nat) : Prop :=
  NoDup l /\ Forall (fun x => x < size)%nat l /\ (i < size)%nat /\ (i = 0%nat -> l = []) /\
  (l ++ [i]) !! 0%nat = Some 0%nat /\
  forall t x y, (l ++ [i]) !! t = Some x -> (l ++ [i]) !! S t = Some y -> next_from (stop x) = Some y.

Definition flags (l : list nat) (visited : list bool) : Prop :=
  length visited = size /\ forall x, (x < size)%nat -> visited !! x = Some (bool_decide (x ∈ l)).

Lemma visits_length l i : visits l i -> (length l <= size)%nat.
Proof.
  intros (Hnd & Hlt & _). rewrite <- (length_seq size 0). apply submseteq_length, NoDup_submseteq; [done|].
  intros x Hx. apply elem_of_seq. rewrite Forall_forall in Hlt. specialize (Hlt x Hx). lia.
Qed.

Lemma cycle_next c t x y :
  length c = size -> NoDup (map start c) -> NoDup c -> Forall (fun x => x < size)%nat c ->
  c !! t = Some x -> c !! (S t mod size)%nat = Some y -> stop x = start y ->
  next_from (stop x) = Some y.
Proof.
  intros Hlen Hnds Hnd Hlt Hx Hy E.
  assert (Hall : forall k, (k < size)%nat -> k ∈ c).
  { assert (Hp : c ≡ₚ seq 0 size).
    { apply submseteq_length_Permutation; [|by rewrite length_seq, Hlen].
      apply NoDup_submseteq; [done|]. intros k Hk. apply elem_of_seq.
      rewrite Forall_forall in Hlt. specialize (Hlt k Hk). lia. }
    intros k Hk. rewrite Hp. apply elem_of_seq. lia. }
  destruct (next_from (stop x)) as [k|] eqn:Ek.
  - apply next_from_Some in Ek as [Hk Es]. apply Hall, list_elem_of_lookup in Hk as [t' Ht'].
    assert (t' = (S t mod size)%nat) as ->; [|congruence].
    eapply NoDup_lookup; [exact Hnds| |]; change (map start c) with (start <$> c);
      rewrite list_lookup_fmap; [by rewrite Ht'|]. rewrite Hy. simpl. congruence.
  - exfalso. eapply Forall_lookup_1 in Hlt; [|exact Hy]. by apply (next_from_None _ y Ek).
Qed.

Lemma follow_directed_spec s fuel l visited i :
  dir_inv size s -> visits l i -> flags l visited -> (fuel + length l = S size)%nat ->
  exists r, follow_directed size bits fuel s visited i (length l) = Some r /\
    (r = Ok size <-> directed_cycle size start stop).
Proof.
  intros Hinv. revert l visited i. induction fuel as [|fuel IH]; intros l visited i Hv Hfl Hfuel;
    pose proof (visits_length _ _ Hv) as Hle; [lia|].
  pose proof Hv as (Hnd & Hlt & Hi & Hi0 & H0 & Hst). destruct Hfl as [Hvl Hvis].
  (* a single cycle is followed edge by edge *)
  assert (Hcyc : directed_cycle size start stop -> (i ∉ l) /\
    exists y, next_from (stop i) = Some y /\ (y = 0%nat <-> S (length l) = size)).
  { intros (c & Hc & Hc0 & Hcnd & Hclt & Hcs & Hcst).
    assert (Hcnext : forall t x y, c !! t = Some x -> c !! (S t mod size)%nat = Some y -> next_from (stop x) = Some y).
    { intros t x y Hx Hy. eapply cycle_next; eauto. }
    assert (Hpre : forall t, (t <= length l)%nat -> (t < size)%nat -> (l ++ [i]) !! t = c !! t).
    { induction t as [|t IHt]; intros Ht Hts; [congruence|].
      destruct (lookup_lt_is_Some_2 (l ++ [i]) t) as [x Hx]; [rewrite length_app; simpl; lia|].
      destruct (lookup_lt_is_Some_2 (l ++ [i]) (S t)) as [y Hy]; [rewrite length_app; simpl; lia|].
      destruct (lookup_lt_is_Some_2 c (S t)) as [z Hz]; [lia|].
      pose proof (Hst _ _ _ Hx Hy) as Hxy. rewrite IHt in Hx by lia.
      pose proof (Hcnext t x z Hx) as Hxz. rewrite Nat.mod_small in Hxz by lia.
      specialize (Hxz Hz). congruence. }
    assert (Hlsize : length l <> size).
    { intros E. assert (Hlast : (l ++ [i]) !! length l = Some i) by (by rewrite list_lookup_middle).
      destruct (lookup_lt_is_Some_2 (l ++ [i]) (size - 1)) as [x Hx]; [rewrite length_app; simpl; lia|].
      assert (Ex : S (size - 1) = length l) by lia. rewrite <- Ex in Hlast.
      pose proof (Hst _ _ _ Hx Hlast) as Hxi. rewrite Hpre in Hx by lia.
      pose proof (Hcnext _ _ 0%nat Hx) as Hx0. replace (S (size - 1)) with size in Hx0 by lia.
      rewrite Nat.Div0.mod_same in Hx0. specialize (Hx0 Hc0).
      assert (i = 0%nat) by congruence. rewrite Hi0 in E by done. simpl in E. lia. }
    assert (Hci : c !! length l = Some i).
    { rewrite <- Hpre by lia. by rewrite list_lookup_middle. }
    split.
    - intros Hin. apply list_elem_of_lookup in Hin as [t Ht]. pose proof (lookup_lt_Some _ _ _ Ht).
      assert (Hct : c !! t = Some i) by (rewrite <- Hpre by lia; by rewrite lookup_app_l).
      pose proof (NoDup_lookup _ _ _ _ Hcnd Hct Hci). lia.
    - destruct (lookup_lt_is_Some_2 c (S (length l) mod size)) as [y Hy].
      { rewrite Hc. apply Nat.mod_upper_bound. lia. }
      exists y. split; [by eapply Hcnext|]. split.
      + intros ->. destruct (decide (S (length l) = size)) as [|Hn]; [done|]. exfalso.
        rewrite Nat.mod_small in Hy by lia. pose proof (NoDup_lookup _ _ _ _ Hcnd Hy Hc0). lia.
      + intros E. rewrite E, Nat.Div0.mod_same in Hy. congruence. }
  cbn [follow_directed]. rewrite (Hvis i Hi). cbn [mbind option_bind].
  destruct (bool_decide (i ∈ l)) eqn:Hin.
  { apply bool_decide_eq_true in Hin. eexists. split; [done|]. split; [done|]. by intros [? _]%Hcyc. }
  apply bool_decide_eq_false in Hin. rewrite set_Some by lia. cbn [mbind option_bind].
  destruct (dinv_to _ _ Hinv) as [_ Hto]. rewrite (Hto i Hi). cbn [mbind option_bind].
  destruct (scan_from_spec s (stop i) Hinv) as (k0 & -> & Hscan). cbn [mbind option_bind].
  rewrite Hscan. cbn [mbind option_bind].
  destruct (next_from (stop i)) as [k|] eqn:Ek.
  2:{ eexists. split; [done|]. split; [done|]. by intros [_ (y & ? & _)]%Hcyc. }
  assert (Hchain : forall t x y, (l ++ [i]) !! t = Some x -> ((l ++ [i]) ++ [k]) !! S t = Some y ->
    next_from (stop x) = Some y).
  { intros t x y Hx Hy. pose proof (lookup_lt_Some _ _ _ Hx) as Htl. rewrite length_app in Htl. simpl in Htl.
    destruct (decide (t = length l)) as [->|].
    - rewrite list_lookup_middle in Hx by done. injection Hx as ->.
      rewrite list_lookup_middle in Hy by (rewrite length_app; simpl; lia). congruence.
    - rewrite lookup_app_l in Hy by (rewrite length_app; simpl; lia). by eapply Hst. }
  destruct (Nat.eqb_spec k 0) as [->|Hk0].
  - eexists. split; [done|]. split.
    + intros [= El]. exists (l ++ [i]).
      assert (Hll : length (l ++ [i]) = size) by (rewrite length_app; simpl; lia).
      assert (Hnl : NoDup (l ++ [i])).
      { rewrite <- Permutation_cons_append. by constructor. }
      assert (Hnx : forall t x y, (l ++ [i]) !! t = Some x -> (l ++ [i]) !! (S t mod size)%nat = Some y ->
        next_from (stop x) = Some y).
      { intros t x y Hx Hy. apply (Hchain t x y Hx). pose proof (lookup_lt_Some _ _ _ Hx).
        destruct (decide (S t = size)) as [E|].
        - rewrite E, Nat.Div0.mod_same in Hy. rewrite E, <- Hll, list_lookup_middle by done. congruence.
        - rewrite Nat.mod_small in Hy by lia. by apply lookup_app_l_Some. }
      split_and!; try done.
      * apply Forall_app. split; [done|]. by constructor.
      * change (map start (l ++ [i])) with (start <$> (l ++ [i])). apply NoDup_alt. intros t1 t2 v.
        rewrite !list_lookup_fmap_Some. intros (a & Ea & Ha) (b & Eb & Hb).
        assert (Hpred : forall t a, (l ++ [i]) !! t = Some a -> exists x, next_from (stop x) = Some a).
        { intros t a' Ha'. pose proof (lookup_lt_Some _ _ _ Ha').
          set (t' := if decide (t = 0%nat) then (size - 1)%nat else (t - 1)%nat).
          assert (Ht' : (S t' mod size)%nat = t /\ (t' < size)%nat).
          { unfold t'. destruct (decide (t = 0%nat)) as [->|].
            - replace (S (size - 1)) with size by lia. rewrite Nat.Div0.mod_same. lia.
            - rewrite Nat.mod_small by lia. lia. }
          destruct Ht' as [Ht' Htl]. destruct (lookup_lt_is_Some_2 (l ++ [i]) t') as [x Hx]; [lia|].
          exists x. apply (Hnx t'); [done|by rewrite Ht']. }
        destruct (Hpred _ _ Ha) as [x Hxa]. destruct (Hpred _ _ Hb) as [x' Hxb].
        pose proof (next_from_Some _ _ Hxa) as [_ Sa]. pose proof (next_from_Some _ _ Hxb) as [_ Sb].
        assert (a = b) as -> by congruence. by eapply NoDup_lookup.
      * intros t x y Hx Hy. pose proof (Hnx _ _ _ Hx Hy) as E. by apply next_from_Some in E as [_ ->].
    + intros [_ (y & [= <-] & E)]%Hcyc. do 2 f_equal. by apply E.
  - replace (S (length l)) with (length (l ++ [i])) by (rewrite length_app; simpl; lia).
    pose proof (next_from_Some _ _ Ek) as [Hk _].
    apply IH; [split_and!|split|rewrite length_app; simpl; lia].
    + rewrite <- Permutation_cons_append. by constructor.
    + apply Forall_app. split; [done|]. by constructor.
    + done.
    + done.
    + by apply lookup_app_l_Some.
    + intros t x y Hx Hy. destruct (decide (t < length (l ++ [i]))%nat) as [Ht|Ht].
      * rewrite lookup_app_l in Hx by done. by eapply Hchain.
      * apply lookup_lt_Some in Hy. rewrite length_app in Hy. simpl in Hy. lia.
    + by rewrite length_insert.
    + intros x Hx. destruct (decide (x = i)) as [->|].
      * rewrite list_lookup_insert_eq by lia. f_equal. symmetry. apply bool_decide_eq_true.
        apply elem_of_app. right. by left.
      * rewrite list_lookup_insert_ne by done. rewrite (Hvis x Hx). f_equal. apply bool_decide_ext.
        rewrite elem_of_app, list_elem_of_singleton. split; [by left|by intros [?|?]].
Qed.

End directed_spec.

Definition cuckaroom_cycle (p : CuckooParams) (nonces : list Z) : Prop :=
  let endpoints := edge_endpoints p 21 true in
  directed_cycle (length nonces) (start nonces endpoints) (stop nonces endpoints).

(** The ends of the edges of a directed cycle are the starts. *)
Lemma directed_cycle_sum size from to :
  (0 < size)%nat -> directed_cycle size from to ->
  xorall (map from (seq 0 size)) = xorall (map to (seq 0 size)).
Proof.
  intros Hpos (c & Hlen & H0 & Hnd & Hlt & _ & Hst).
  assert (Hp : c ≡ₚ seq 0 size).
  { apply submseteq_length_Permutation; [|by rewrite length_seq, Hlen].
    apply NoDup_submseteq; [done|]. intros k Hk. apply elem_of_seq.
    rewrite Forall_forall in Hlt. specialize (Hlt k Hk). lia. }
  rewrite <- Hp. destruct (cycle_rotation size c Hpos Hlen) as (rot & Hperm & Hrlen & Hrot).
  rewrite <- Hperm at 1. f_equal. apply list_eq_same_length with size; [by rewrite length_map|by rewrite length_map|].
  intros t v1 v2 Ht. change (map from rot) with (from <$> rot). change (map to c) with (to <$> c).
  rewrite !list_lookup_fmap_Some. intros (y & -> & Hy) (x & -> & Hx). rewrite Hrot in Hy by done.
  symmetry. by eapply Hst.
Qed.

Lemma cuckaroom_verify_spec ct p nonces :
  exists r, cuckaroom_verify ct p nonces = Some r /\
    (r = Ok tt <-> Z.of_nat (length nonces) = proofsize ct /\ nonces_ok p nonces /\ cuckaroom_cycle p nonces).
Proof.
  apply wrong_length. intros E. pose proof (proofsize_pos _ _ E) as Hpos. cbv zeta.
  set (bits := fun u => Z.land u (size_mask (length nonces))). set (endpoints := edge_endpoints p 21 true).
  assert (Hbits : forall x, (Z.to_nat (bits x) < Z.to_nat (1 + size_mask (length nonces)))%nat)
    by (intros; apply mask_lt).
  destruct (for_range_spec (dir_edge p nonces endpoints bits) (dir_inv nonces endpoints bits) (nonce_ok p nonces)
    (length nonces) (dir_init (length nonces)) (dir_edge_spec p nonces endpoints bits Hpos Hbits)
    (dir_init_inv nonces endpoints bits Hpos)) as (r & -> & Hr). cbn [mbind option_bind].
  destruct r as [s|e]; [|eexists; split; [done|]; split; [done|]; by intros (? & _)].
  destruct Hr as [Hok Hinv].
  assert (Hsum : cuckaroom_cycle p nonces -> xor_from s = xor_to s).
  { intros Hc. rewrite (dinv_xor_from _ _ _ _ _ Hinv), (dinv_xor_to _ _ _ _ _ Hinv).
    by apply directed_cycle_sum. }
  destruct (Z.eqb_spec (xor_from s) (xor_to s)) as [Hz|Hz]; cbn [negb];
    [|eexists; split; [done|]; split; [done|]; intros (_ & Hc); by apply Hsum in Hc].
  destruct (follow_directed_spec nonces endpoints bits Hpos Hbits s (S (length nonces)) []
    (replicate (length nonces) false) 0 Hinv) as (r & Er & Hr).
  - split_and!; try done. by apply NoDup_nil_2.
  - split; [apply length_replicate|]. intros x Hx. rewrite lookup_replicate_2 by done.
    by f_equal.
  - simpl. lia.
  - change (length (@nil nat)) with 0%nat in Er. rewrite Er. cbn [mbind option_bind]. eexists. split; [done|].
    rewrite check_length_Ok, Hr. unfold cuckaroom_cycle. tauto.
Qed.

(** ** The endless walk *)

(** A set of slots that the walk does not leave and that leads to no verdict. *)
Definition endless (scan : nat -> option (result pow_error nat)) (S : list nat) : bool :=
  forallb (fun i =>
    match scan i with
    | Some (Ok j) =>
        negb (j =? i)%nat && negb (Nat.lxor j 1 =? 0)%nat && existsb (Nat.eqb (Nat.lxor j 1)) S
    | _ => false
    end) S.

Lemma endless_follow scan S fuel i n :
  endless scan S = true -> i ∈ S -> follow fuel scan (fun _ _ => false) i n = None.
Proof.
  intros He. revert i n. induction fuel as [|fuel IH]; intros i n Hi; [done|]. simpl.
  unfold endless in He. rewrite forallb_forall in He. specialize (He i ltac:(by apply list_elem_of_In)).
  destruct (scan i) as [[j|]|]; [|done..]. cbn [mbind option_bind].
  apply andb_true_iff in He as [[Hj H0]%andb_true_iff Hin]. apply negb_true_iff in Hj, H0.
  rewrite Hj. cbn [orb]. rewrite H0. apply IH.
  apply existsb_exists in Hin as (k & Hk & ->%Nat.eqb_eq). by apply list_elem_of_In.
Qed.

(** Edges of a 29 bit Cuckarood graph whose walk enters a cycle that does not
    contain its start. *)
Definition stuck_keys : keys := (2, 2, 3, 4).
Definition stuck_nonces : list Z :=
  [21708251; 62232276; 100000000; 100000001; 100002000; 100002001; 100004000; 100004001;
   100006000; 100006001; 100008000; 100008001; 100010000; 100010001; 100012000; 100012001;
   100014000; 100014001; 100016000; 100016001; 100018000; 100018001; 100020000; 100020001;
   100022000; 100022001; 100024000; 100024001; 100026000; 100026001; 100028000; 100028001;
   100030000; 100030001; 200275648; 200277440; 215484999; 302293889; 302779777; 330134837;
   370992068; 440634420].

Definition stuck_params : CuckooParams := set_keys (new_params 29 28 42) stuck_keys.

(** The cycle of the test module of [cuckaroo.rs]. *)
Definition cuckaroo19_keys : keys :=
  (2556181549764612842, 17366299671534024517, 15209427059300184187, 9514642448895040594).
Definition cuckaroo19_solution : list Z :=
  [17897; 27225; 61869; 69367; 76264; 81496; 96566; 106367; 133343; 145156; 148836; 163428;
   178216; 179009; 196544; 197829; 204586; 215006; 235142; 240492; 272813; 283220; 299520;
   325880; 354687; 359121; 384327; 395256; 418201; 427719; 447987; 449146; 449503; 456383;
   458683; 481294; 492948; 492972; 494365; 505869; 508188; 514613].

(** What the verifier of a context accepts. *)
Definition params_of (ctx : PoWContext) : CuckooParams :=
  match ctx with
  | Cuckatoo p | Cuckaroo p | Cuckarood p | Cuckaroom p | Cuckarooz p => p
  end.

Definition cycle_of (ctx : PoWContext) (k : keys) (nonces : list Z) : Prop :=
  match ctx with
  | Cuckatoo p => cuckatoo_cycle (set_keys p k) nonces
  | Cuckaroo p => cuckaroo_cycle (set_keys p k) nonces
  | Cuckarood p => False
  | Cuckaroom p => cuckaroom_cycle (set_keys p k) nonces
  | Cuckarooz p => cuckarooz_cycle (set_keys p k) nonces
  end.

Definition is_cuckarood (ctx : PoWContext) : bool :=
  match ctx with Cuckarood _ => true | _ => false end.

Lemma create_pow_context_proof_size ct height edge_bits n ctx :
  create_pow_context ct height edge_bits n = Ok ctx -> proof_size (params_of ctx) = n.
Proof.
  unfold create_pow_context, new_cuckatoo_ctx. intros H.
  destruct ct; split_tests; first [discriminate H|by injection H as <-].
Qed.

Lemma verify_decides ct height edge_bits ctx fuel k nonces :
  create_pow_context ct height edge_bits (length nonces) = Ok ctx -> is_cuckarood ctx = false ->
  exists r, verify fuel ct ctx k nonces = Some r /\
    (r = Ok tt <-> Z.of_nat (length nonces) = proofsize ct /\
                   nonces_ok (set_keys (params_of ctx) k) nonces /\ cycle_of ctx k nonces).
Proof.
  intros Hp%create_pow_context_proof_size Hd. destruct ctx; simpl in *; try done.
  - apply cuckatoo_verify_spec.
  - apply cuckaroo_verify_spec.
  - apply cuckaroom_verify_spec.
  - by apply cuckarooz_verify_spec.
Qed.

(** * Properties *)

(** C34. The verifiers decide whether the edges of a proof form one cycle: for
    Cuckatoo, Cuckaroo, Cuckaroom and Cuckarooz, whatever the chain, the height
    and the header, verification ends without a panic, and it succeeds if and
    only if the proof has the right size, its nonces are in range and strictly
    ascending, and all its edges together form a single cycle. *)
Theorem verify_exact ct height edge_bits ctx fuel k nonces :
  create_pow_context ct height edge_bits (length nonces) = Ok ctx -> is_cuckarood ctx = false ->
  exists r, verify fuel ct ctx k nonces = Some r /\
    (r = Ok tt <-> Z.of_nat (length nonces) = proofsize ct /\
                   nonces_ok (set_keys (params_of ctx) k) nonces /\ cycle_of ctx k nonces).
Proof. apply verify_decides. Qed.

(** The Cuckarood verifier can loop forever: there is a proof for mainnet
    parameters that passes every check before the walk, and whose walk then
    stays in a set of slots that does not lead back to its start, so no number
    of rounds gives a verdict. The context is the one that headers of version 2
    with 29 edge bits select. *)
Theorem cuckarood_verify_diverges :
  create_pow_context Mainnet HARD_FORK_INTERVAL 29 (length stuck_nonces) =
    Ok (Cuckarood (new_params 29 28 42)) /\
  (exists s S,
     for_range (alt_edge stuck_params 42 stuck_nonces (size_mask 42)) (seq 0 42)
       (alt_init 42 (size_mask 42)) = Some (Ok s) /\
     Z.lor (a_xor0 s) (a_xor1 s) = 0 /\ 0%nat ∈ S /\
     endless (alt_scan 42 (size_mask 42) s) S = true) /\
  forall fuel, verify fuel Mainnet (Cuckarood (new_params 29 28 42)) stuck_keys stuck_nonces = None.
Proof.
  split; [reflexivity|].
  assert (H : exists s, for_range (alt_edge stuck_params 42 stuck_nonces (size_mask 42)) (seq 0 42)
      (alt_init 42 (size_mask 42)) = Some (Ok s) /\
    Z.lor (a_xor0 s) (a_xor1 s) = 0 /\
    endless (alt_scan 42 (size_mask 42) s) [0; 83; 80; 71; 76; 3]%nat = true).
  { eexists. split; [vm_compute; reflexivity|]. split; vm_compute; reflexivity. }
  destruct H as (s & Hs & Hx & He). split.
  - exists s, [0; 83; 80; 71; 76; 3]%nat. split_and!; [exact Hs|exact Hx|by left|exact He].
  - intros fuel. unfold verify, cuckarood_verify. fold stuck_params.
    change (length stuck_nonces) with 42%nat. change (Z.of_nat 42 =? proofsize Mainnet) with true.
    cbn [negb]. cbv zeta. rewrite Hs. cbn [mbind option_bind]. rewrite Hx, Z.eqb_refl. cbn [negb].
    erewrite endless_follow; [done|exact He|by left].
Qed.

Lemma verify_exact_witness :
  cuckaroo_cycle (set_keys (new_params 19 19 42) cuckaroo19_keys) cuckaroo19_solution.
Proof.
  destruct (verify_exact Mainnet 1 19 (Cuckaroo (new_params 19 19 42)) 0 cuckaroo19_keys
    cuckaroo19_solution eq_refl eq_refl) as (r & E & Hr).
  assert (Er : verify 0 Mainnet (Cuckaroo (new_params 19 19 42)) cuckaroo19_keys cuckaroo19_solution =
    Some (Ok tt)) by (vm_compute; reflexivity).
  apply Hr. rewrite E in Er. by injection Er.
Defined.
