(* ===== verification/PowTypes.v ===== *)
(** Proofs of work and their encoding.

    Models [Proof], [ProofOfWork] and the parts of [Difficulty] that depend on
    them, of [src/core/src/pow/types.rs]: packing nonces at their exact bit
    width, reading them back, the wire format and the difficulty of a proof.

    [None] stands for a panic (a slice out of range or of the wrong length);
    the chain type is an argument where the code asks the [global] module. *)

From Stdlib Require Import ZArith Lia.
From stdpp Require Import base numbers option list.
From S2P Require Import Prelude Consensus Ser Kernel.
Open Scope Z_scope.

(** ** Little-endian bytes *)

(** [u64::to_le_bytes] is [le 8]; [u64::from_le_bytes] is [le_value]. *)
Fixpoint le (n : nat) (x : Z) : bytes :=
  match n with
  | O => []
  | S n => x mod 256 :: le n (x / 256)
  end.

Definition le_value (l : bytes) : Z := foldr (fun b a => b + 256 * a) 0 l.

(** ** Proofs *)

(** [Proof] of the source. *)
Record PowProof : Type := mkPow { edge_bits : Z; nonces : list Z }.

Definition proof_zero (ct : ChainTypes) (proof_size : nat) : PowProof :=
  mkPow (min_edge_bits ct) (replicate proof_size 0).

Definition proof_size (p : PowProof) : nat := length (nonces p).

Definition pack_len (ct : ChainTypes) (bit_width : Z) : Z := (bit_width * proofsize ct + 7) / 8.

(** The loop of [pack_bits]: [out] is what has been copied to [compressed],
    [room] the length of the rest of it. *)
Fixpoint pack_loop (bit_width : Z) (uncompressed : list Z) (mini_buffer remaining : Z)
    (out : bytes) (room : Z) : option (Z * bytes * Z) :=
  match uncompressed with
  | [] => Some (mini_buffer, out, room)
  | el :: uncompressed =>
      let mini_buffer := Z.lor mini_buffer (shl64 el (64 - remaining)) in
      if bit_width <? remaining then
        pack_loop bit_width uncompressed mini_buffer (remaining - bit_width) out room
      else if room <? 8 then None
      else
        pack_loop bit_width uncompressed (shr64 el remaining) (64 + remaining - bit_width)
          (out ++ le 8 mini_buffer) (room - 8)
  end.

(** [compressed_len] is the length of the zeroed buffer [compressed]. *)
Definition pack_bits (bit_width : Z) (uncompressed : list Z) (compressed_len : Z) : option bytes :=
  let! (mini_buffer, out, room) := pack_loop bit_width uncompressed 0 64 [] compressed_len in
  let remainder := room mod 8 in
  let remainder := if remainder =? 0 then 8 else remainder in
  if 0 <? mini_buffer then
    if room =? remainder then Some (out ++ take (Z.to_nat remainder) (le 8 mini_buffer)) else None
  else Some (out ++ replicate (Z.to_nat room) 0).

Definition pack_nonces (ct : ChainTypes) (p : PowProof) : option bytes :=
  pack_bits (edge_bits p) (nonces p) (pack_len ct (edge_bits p)).

Definition extract_bits (bits : bytes) (bit_start bit_count read_from : Z) : option Z :=
  if Z.of_nat (length bits) <? read_from + 8 then None
  else
    let buf := take 8 (drop (Z.to_nat read_from) bits) in
    if bit_count =? 64 then Some (le_value buf)
    else
      let skip_bits := bit_start - read_from * 8 in
      let bit_mask := sub64 (shl64 1 bit_count) 1 in
      Some (Z.land (shr64 (le_value buf) skip_bits) bit_mask).

Definition read_number (bits : bytes) (bit_start bit_count : Z) : option Z :=
  if bit_count =? 0 then Some 0
  else if Z.of_nat (length bits) <? 8 then None
  else
    let read_from := bit_start / 8 in
    let read_from :=
      if Z.of_nat (length bits) <? read_from + 8 then Z.of_nat (length bits) - 8 else read_from in
    let max_bit_end := (read_from + 8) * 8 in
    let max_pos := bit_start + bit_count in
    if max_pos <=? max_bit_end then extract_bits bits bit_start bit_count read_from
    else
      let! low := extract_bits bits bit_start 8 read_from in
      let! high := extract_bits bits (bit_start + 8) (bit_count - 8) (read_from + 1) in
      Some (add64 (shl64 high 8) low).

(** The loop of [Proof::read]: nonces [n], [n + 1], .. *)
Fixpoint read_nonces (bits : bytes) (nonce_bits : Z) (n : Z) (count : nat) : option (list Z) :=
  match count with
  | O => Some []
  | S count =>
      let! nonce := read_number bits (n * nonce_bits) nonce_bits in
      let! nonces := read_nonces bits nonce_bits (n + 1) count in
      Some (nonce :: nonces)
  end.

Definition read_proof {R} `{Reader R} (ct : ChainTypes) (r : R)
    : option (result ser_error (PowProof * R)) :=
  match read_u8 r with
  | Err e => Some (Err e)
  | Ok (edge_bits, r) =>
      if (edge_bits =? 0) || (63 <? edge_bits) then Some (Err CorruptedData)
      else
        match deserialization_mode r with
        | SkipPow => Some (Ok (mkPow edge_bits [], r))
        | DeFull =>
            let nonce_bits := edge_bits in
            let bytes_len := pack_len ct edge_bits in
            if bytes_len <? 8 then Some (Err CorruptedData)
            else
              match read_fixed_bytes r bytes_len with
              | Err e => Some (Err e)
              | Ok (bits, r) =>
                  let! nonces := read_nonces bits nonce_bits 0 (Z.to_nat (proofsize ct)) in
                  let end_of_data := proofsize ct * nonce_bits in
                  let! rest := read_number bits end_of_data (bytes_len * 8 - end_of_data) in
                  if negb (rest =? 0) then Some (Err CorruptedData)
                  else Some (Ok (mkPow edge_bits nonces, r))
              end
        end
  end.

Definition write_proof (ct : ChainTypes) (w : Writer) (p : PowProof) : option (result ser_error bytes) :=
  let! bits := pack_nonces ct p in
  Some ((if is_hash_mode (serialization_mode w) then Ok [] else write_u8 w (edge_bits p)) +w+
        write_fixed_bytes w bits).

(** ** Difficulty of a proof *)

(** [Hash::to_u64]: the first eight bytes, most significant first. *)
Definition to_u64 (h : Hash) : Z := be_value (take 8 (hash_bytes h)).

(** [Proof::scaled_difficulty], for a proof with hash [h]. *)
Definition scaled_difficulty (h : Hash) (scale : Z) : Z :=
  let diff := wrap 128 (Z.shiftl scale 64) / Z.max 1 (to_u64 h) in
  Z.min diff (u_max 64).

Record ProofOfWork : Type := mkProofOfWork {
  total_difficulty : Difficulty;
  pow_secondary_scaling : Z;
  pow_nonce : Z;
  pow_proof : PowProof;
}.

Section difficulty.
Context {CR : Crypto}.

(** [proof.hash()]: the digest of the packed nonces. *)
Definition proof_hash (ct : ChainTypes) (p : PowProof) : option Hash :=
  let! bits := pack_nonces ct p in Some (blake2b bits).

Definition from_proof_adjusted (ct : ChainTypes) (height : Z) (p : PowProof) : option Difficulty :=
  let! h := proof_hash ct p in
  Some (Diff.from_num (scaled_difficulty h (graph_weight ct height (edge_bits p)))).

Definition from_proof_scaled (ct : ChainTypes) (p : PowProof) (scaling : Z) : option Difficulty :=
  let! h := proof_hash ct p in Some (Diff.from_num (scaled_difficulty h scaling)).

Definition to_difficulty (ct : ChainTypes) (pow : ProofOfWork) (height : Z) : option Difficulty :=
  if edge_bits (pow_proof pow) =? SECOND_POW_EDGE_BITS
  then from_proof_scaled ct (pow_proof pow) (pow_secondary_scaling pow)
  else from_proof_adjusted ct height (pow_proof pow).

Definition to_unscaled_difficulty (ct : ChainTypes) (pow : ProofOfWork) : option Difficulty :=
  from_proof_scaled ct (pow_proof pow) 1.

End difficulty.

Definition is_primary (ct : ChainTypes) (pow : ProofOfWork) : bool :=
  negb (edge_bits (pow_proof pow) =? SECOND_POW_EDGE_BITS) &&
  (min_edge_bits ct <=? edge_bits (pow_proof pow)).

Definition pow_is_secondary (pow : ProofOfWork) : bool :=
  edge_bits (pow_proof pow) =? SECOND_POW_EDGE_BITS.

Definition write_pre_pow (w : Writer) (pow : ProofOfWork) : result ser_error bytes :=
  write_u64 w (Diff.to_num (total_difficulty pow)) +w+ write_u32 w (pow_secondary_scaling pow).

Definition write_pow (ct : ChainTypes) (w : Writer) (pow : ProofOfWork) : option (result ser_error bytes) :=
  let! proof := write_proof ct w (pow_proof pow) in
  Some ((if is_hash_mode (serialization_mode w) then Ok []
         else write_pre_pow w pow +w+ write_u64 w (pow_nonce pow)) +w+ proof).

Definition read_pow {R} `{Reader R} (ct : ChainTypes) (r : R)
    : option (result ser_error (ProofOfWork * R)) :=
  match
    let? (total_difficulty, r) := read_u64 r in
    let? (secondary_scaling, r) := read_u32 r in
    let? (nonce, r) := read_u64 r in
    Ok (total_difficulty, secondary_scaling, nonce, r)
  with
  | Err e => Some (Err e)
  | Ok (total_difficulty, secondary_scaling, nonce, r) =>
      let! p := read_proof ct r in
      Some (let? (proof, r) := p in
            Ok (mkProofOfWork (mkDifficulty total_difficulty) secondary_scaling nonce proof, r))
  end.

(** * Lemmas *)

Ltac bind_some := cbn [mbind option_bind].

(** ** Little-endian numbers *)

Lemma le_length n x : length (le n x) = n.
Proof. revert x. induction n; intros; simpl; auto. Qed.

Lemma le_bytes n x : Forall (in_range 8) (le n x).
Proof.
  revert x. induction n as [|n IH]; intros x; simpl; constructor; [|done].
  unfold in_range. change (2 ^ 8) with 256. apply Z.mod_pos_bound. lia.
Qed.

Lemma pow256_S n : 256 ^ Z.of_nat (S n) = 256 * 256 ^ Z.of_nat n.
Proof. rewrite Nat2Z.inj_succ, Z.pow_succ_r by lia. done. Qed.

Lemma pow256_pos n : 0 < 256 ^ Z.of_nat n.
Proof. apply Z.pow_pos_nonneg; lia. Qed.

Lemma pow256_pow2 n : 256 ^ Z.of_nat n = 2 ^ (8 * Z.of_nat n).
Proof. change 256 with (2 ^ 8). rewrite <- Z.pow_mul_r by lia. done. Qed.

Lemma le_value_le n x : le_value (le n x) = x mod 256 ^ Z.of_nat n.
Proof.
  revert x. induction n as [|n IH]; intros x; [by rewrite Z.mod_1_r|].
  change (le_value (le (S n) x)) with (x mod 256 + 256 * le_value (le n (x / 256))).
  rewrite IH, pow256_S. pose proof (pow256_pos n). by rewrite Z.rem_mul_r by lia.
Qed.

Lemma le_value_app a b : le_value (a ++ b) = le_value a + 256 ^ Z.of_nat (length a) * le_value b.
Proof.
  induction a as [|x a IH]; cbn [app length]; [change (le_value []) with 0; rewrite Z.pow_0_r; lia|].
  change (le_value (x :: a ++ b)) with (x + 256 * le_value (a ++ b)).
  change (le_value (x :: a)) with (x + 256 * le_value a). rewrite IH, pow256_S. lia.
Qed.

Lemma le_value_bound l : Forall (in_range 8) l -> 0 <= le_value l < 256 ^ Z.of_nat (length l).
Proof.
  induction 1 as [|x l Hx _ IH]; [cbn; lia|].
  change (le_value (x :: l)) with (x + 256 * le_value l). cbn [length]. rewrite pow256_S.
  unfold in_range in Hx. change (2 ^ 8) with 256 in Hx. lia.
Qed.

Lemma le_le_value l : Forall (in_range 8) l -> le (length l) (le_value l) = l.
Proof.
  induction 1 as [|x l Hx _ IH]; [done|].
  change (le_value (x :: l)) with (x + 256 * le_value l). cbn [length le].
  unfold in_range in Hx. change (2 ^ 8) with 256 in Hx.
  rewrite (Z.mul_comm 256), Z_mod_plus_full, Z.mod_small, Z.div_add, (Z.div_small x) by lia.
  by rewrite Z.add_0_l, IH.
Qed.

Lemma le_app m n x : le (m + n) x = le m x ++ le n (x / 256 ^ Z.of_nat m).
Proof.
  revert x. induction m as [|m IH]; intros x; [by rewrite Z.pow_0_r, Z.div_1_r|].
  cbn [Nat.add le app]. rewrite IH, pow256_S, Z.div_div by (try apply pow256_pos; lia). done.
Qed.

Lemma le_mod n x : le n (x mod 256 ^ Z.of_nat n) = le n x.
Proof.
  revert x. induction n as [|n IH]; intros x; [done|]. cbn [le]. rewrite pow256_S.
  pose proof (pow256_pos n). rewrite Z.rem_mul_r by lia. f_equal.
  - rewrite (Z.mul_comm 256), Z_mod_plus_full, Z.mod_mod by lia. done.
  - rewrite (Z.mul_comm 256), Z.div_add, Z.div_small by (try apply Z.mod_pos_bound; lia).
    apply IH.
Qed.

Lemma le_take m n x : (m <= n)%nat -> take m (le n x) = le m x.
Proof.
  intros Hm. replace n with (m + (n - m))%nat by lia. rewrite le_app, take_app_length'; [done|].
  by rewrite le_length.
Qed.

Lemma le_drop m n x : (m <= n)%nat -> drop m (le n x) = le (n - m) (x / 256 ^ Z.of_nat m).
Proof.
  intros Hm. replace n with (m + (n - m))%nat at 1 by lia. rewrite le_app, drop_app_length'; [done|].
  by rewrite le_length.
Qed.

Lemma le_0 n : le n 0 = replicate n 0.
Proof. induction n as [|n IH]; [done|]. cbn [le replicate]. by rewrite Z.div_0_l, IH by lia. Qed.

(** A window of a byte list, as a number. *)
Lemma le_value_window l i n :
  Forall (in_range 8) l -> (i + n <= length l)%nat ->
  le_value (take n (drop i l)) = (le_value l / 256 ^ Z.of_nat i) mod 256 ^ Z.of_nat n.
Proof.
  intros Hl Hi. rewrite <- (le_le_value l Hl) at 1.
  rewrite le_drop, le_take, le_value_le by lia. done.
Qed.

(** ** Bits of a number *)

(** [count] bits of [v] from bit [start] on. *)
Definition bits_at (v start count : Z) : Z := (v / 2 ^ start) mod 2 ^ count.

Lemma bits_at_range v s c : 0 <= c -> 0 <= bits_at v s c < 2 ^ c.
Proof. intros. apply Z.mod_pos_bound. by apply pow2_pos. Qed.

Lemma bits_at_inner v s c i j :
  0 <= s -> 0 <= i -> 0 <= j -> i + j <= c -> bits_at (bits_at v s c) i j = bits_at v (s + i) j.
Proof.
  intros. unfold bits_at. apply Z.bits_inj'. intros n Hn.
  destruct (Z.lt_ge_cases n j).
  - rewrite !Z.mod_pow2_bits_low, !Z.div_pow2_bits by lia.
    rewrite Z.mod_pow2_bits_low, Z.div_pow2_bits by lia. f_equal. lia.
  - by rewrite !Z.mod_pow2_bits_high by lia.
Qed.

Lemma bits_at_split v s c d :
  0 <= s -> 0 <= c -> 0 <= d -> bits_at v s (c + d) = bits_at v s c + 2 ^ c * bits_at v (s + c) d.
Proof.
  intros. unfold bits_at. rewrite Z.pow_add_r by lia.
  pose proof (pow2_pos c ltac:(lia)). pose proof (pow2_pos d ltac:(lia)). pose proof (pow2_pos s ltac:(lia)).
  rewrite Z.rem_mul_r by lia. rewrite Z.div_div by lia. by rewrite <- Z.pow_add_r by lia.
Qed.

Lemma extract_bits_spec l s c r :
  Forall (in_range 8) l -> 0 <= r -> r + 8 <= Z.of_nat (length l) -> r * 8 <= s -> 0 < c ->
  s + c <= (r + 8) * 8 -> extract_bits l s c r = Some (bits_at (le_value l) s c).
Proof.
  intros Hl Hr Hlen Hs Hc Hsc. unfold extract_bits.
  destruct (Z.ltb_spec (Z.of_nat (length l)) (r + 8)); [lia|].
  rewrite le_value_window by (try done; lia). rewrite !pow256_pow2, Z2Nat.id by lia.
  change (8 * Z.of_nat 8) with 64. fold (bits_at (le_value l) (8 * r) 64).
  destruct (Z.eqb_spec c 64) as [->|]; [do 2 f_equal; lia|].
  unfold sub64. rewrite shl64_small, Z.mul_1_l by
    (unfold_words; pose proof (Z.pow_lt_mono_r 2 c 64); pose proof (pow2_pos c); lia).
  rewrite wrap_small by (unfold_words; pose proof (Z.pow_lt_mono_r 2 c 64); pose proof (pow2_pos c); lia).
  replace (2 ^ c - 1) with (Z.ones c) by (rewrite Z.ones_equiv; lia). rewrite Z.land_ones by lia.
  unfold shr64. rewrite (Z.mod_small (s - r * 8)), Z.shiftr_div_pow2 by lia.
  fold (bits_at (bits_at (le_value l) (8 * r) 64) (s - r * 8) c).
  rewrite bits_at_inner by lia. do 2 f_equal. lia.
Qed.

Lemma read_number_spec l s c :
  Forall (in_range 8) l -> 8 <= Z.of_nat (length l) -> 0 <= s -> 0 <= c <= 64 ->
  s + c <= 8 * Z.of_nat (length l) -> read_number l s c = Some (bits_at (le_value l) s c).
Proof.
  intros Hl Hlen Hs Hc Hsc. unfold read_number.
  destruct (Z.eqb_spec c 0) as [->|Hc0]; [by unfold bits_at; rewrite Z.mod_1_r|].
  destruct (Z.ltb_spec (Z.of_nat (length l)) 8); [lia|].
  pose proof (Z.div_mod s 8 ltac:(lia)). pose proof (Z.mod_pos_bound s 8 ltac:(lia)).
  assert (0 <= s / 8) by (apply Z.div_pos; lia).
  destruct (Z.ltb_spec (Z.of_nat (length l)) (s / 8 + 8)).
  - destruct (Z.leb_spec (s + c) ((Z.of_nat (length l) - 8 + 8) * 8)); [|lia].
    apply extract_bits_spec; try done; lia.
  - destruct (Z.leb_spec (s + c) ((s / 8 + 8) * 8)).
    + apply extract_bits_spec; try done; lia.
    + rewrite !extract_bits_spec by (try done; lia). bind_some. f_equal.
      pose proof (bits_at_range (le_value l) s 8 ltac:(lia)).
      pose proof (bits_at_range (le_value l) (s + 8) (c - 8) ltac:(lia)) as Hhi.
      assert (Hp : 2 ^ c = 2 ^ 8 * 2 ^ (c - 8)) by (rewrite <- Z.pow_add_r by lia; f_equal; lia).
      assert (2 ^ c <= 2 ^ 64) by (apply Z.pow_le_mono_r; lia). change (2 ^ 8) with 256 in *.
      rewrite shl64_small by (unfold_words; change (2 ^ 8) with 256; lia). change (2 ^ 8) with 256.
      rewrite add64_small by (unfold_words; lia).
      replace c with (8 + (c - 8)) at 2 by lia. rewrite bits_at_split by lia.
      change (2 ^ 8) with 256. lia.
Qed.

(** ** Packing *)

(** The number that a list of [w] bit numbers forms, the first one lowest. *)
Definition pack_value (w : Z) (els : list Z) : Z := foldr (fun e a => e + 2 ^ w * a) 0 els.

Lemma pack_value_bound w els :
  0 <= w -> Forall (in_range w) els -> 0 <= pack_value w els < 2 ^ (w * Z.of_nat (length els)).
Proof.
  intros Hw. induction 1 as [|e els He _ IH]; [rewrite Z.mul_0_r; cbn; lia|].
  change (pack_value w (e :: els)) with (e + 2 ^ w * pack_value w els). cbn [length].
  rewrite Nat2Z.inj_succ, Z.mul_succ_r, Z.add_comm, Z.pow_add_r by lia.
  unfold in_range in He. nia.
Qed.

Lemma lor_disjoint a b s : 0 <= s -> 0 <= a < 2 ^ s -> Z.lor a (b * 2 ^ s) = a + b * 2 ^ s.
Proof. intros. rewrite Z.lor_comm, lor_shift_add by lia. lia. Qed.

(** A word of the buffer: the bits collected before and a new element. *)
Lemma mini_buffer_word m el s :
  0 <= s < 64 -> 0 <= m < 2 ^ s -> 0 <= el ->
  Z.lor m (shl64 el s) = (m + el * 2 ^ s) mod 2 ^ 64.
Proof.
  intros Hs Hm Hel. unfold shl64, wrap. rewrite (Z.mod_small s 64), Z.shiftl_mul_pow2 by lia.
  pose proof (pow2_pos s ltac:(lia)). pose proof (pow2_pos (64 - s) ltac:(lia)).
  assert (Hp : 2 ^ 64 = 2 ^ (64 - s) * 2 ^ s) by (rewrite <- Z.pow_add_r by lia; f_equal; lia).
  rewrite Hp, Z.mul_mod_distr_r, lor_disjoint by lia. symmetry.
  pose proof (Z.mod_pos_bound el (2 ^ (64 - s)) ltac:(lia)).
  rewrite (Z.div_mod el (2 ^ (64 - s))) at 1 by lia.
  replace (m + (2 ^ (64 - s) * (el / 2 ^ (64 - s)) + el mod 2 ^ (64 - s)) * 2 ^ s)
    with (m + el mod 2 ^ (64 - s) * 2 ^ s + (el / 2 ^ (64 - s)) * (2 ^ (64 - s) * 2 ^ s)) by ring.
  rewrite Z_mod_plus_full. apply Z.mod_small. nia.
Qed.

(** The state of the loop after [t] bits with value [v], in a buffer of [len]
    bytes: [k] words have been copied. *)
Definition packing (t v len : Z) (mini_buffer remaining : Z) (out : bytes) (room : Z) : Prop :=
  exists k : nat, 64 * Z.of_nat k <= t < 64 * Z.of_nat k + 64 /\
    out = le (8 * k) v /\ mini_buffer = v / 2 ^ (64 * Z.of_nat k) /\
    remaining = 64 * Z.of_nat k + 64 - t /\ room = len - 8 * Z.of_nat k.

Lemma pow256_words k : 256 ^ Z.of_nat (8 * k) = 2 ^ (64 * Z.of_nat k).
Proof. rewrite pow256_pow2. f_equal. lia. Qed.

Lemma pack_loop_spec w els t v len mini_buffer remaining out room :
  1 <= w <= 63 -> Forall (in_range w) els -> 0 <= v < 2 ^ t -> 0 <= t ->
  packing t v len mini_buffer remaining out room ->
  t + w * Z.of_nat (length els) <= 8 * len ->
  exists mini_buffer' remaining' out' room',
    pack_loop w els mini_buffer remaining out room = Some (mini_buffer', out', room') /\
    packing (t + w * Z.of_nat (length els)) (v + 2 ^ t * pack_value w els) len
      mini_buffer' remaining' out' room'.
Proof.
  intros Hw Hels. revert t v mini_buffer remaining out room.
  induction Hels as [|el els Hel _ IH]; intros t v mini remaining out room Hv Ht Hs Hlen.
  - do 4 eexists. split; [reflexivity|]. cbn [length pack_value foldr].
    rewrite !Z.mul_0_r, !Z.add_0_r. exact Hs.
  - destruct Hs as (k & Hk & -> & -> & -> & ->). cbn [length] in Hlen. rewrite Nat2Z.inj_succ in Hlen.
    set (s := t - 64 * Z.of_nat k). unfold in_range in Hel.
    assert (Hm : 0 <= v / 2 ^ (64 * Z.of_nat k) < 2 ^ s).
    { pose proof (pow2_pos (64 * Z.of_nat k) ltac:(lia)). split; [apply Z.div_pos; lia|].
      apply Z.div_lt_upper_bound; [lia|]. rewrite <- Z.pow_add_r by lia.
      replace (64 * Z.of_nat k + s) with t by lia. apply Hv. }
    set (v' := v + el * 2 ^ t).
    assert (Ht' : 2 ^ t = 2 ^ s * 2 ^ (64 * Z.of_nat k)) by (rewrite <- Z.pow_add_r by lia; f_equal; lia).
    assert (Hv' : v' / 2 ^ (64 * Z.of_nat k) = v / 2 ^ (64 * Z.of_nat k) + el * 2 ^ s).
    { unfold v'. rewrite Ht', Z.mul_assoc, Z.div_add; [done|]. apply Z.pow_nonzero; lia. }
    assert (Hvb : 0 <= v' < 2 ^ (t + w)).
    { unfold v'. rewrite Z.pow_add_r by lia. pose proof (pow2_pos t Ht). nia. }
    assert (Hnext : forall m' r' o' rm',
      packing (t + w) v' len m' r' o' rm' ->
      exists m2 r2 o2 rm2, pack_loop w els m' r' o' rm' = Some (m2, o2, rm2) /\
        packing (t + w * Z.of_nat (length (el :: els))) (v + 2 ^ t * pack_value w (el :: els)) len m2 r2 o2 rm2).
    { intros m' r' o' rm' Hp. destruct (IH (t + w) v' m' r' o' rm' Hvb ltac:(lia) Hp ltac:(lia))
        as (m2 & r2 & o2 & rm2 & E & Hp2). exists m2, r2, o2, rm2. split; [done|].
      cbn [length]. rewrite Nat2Z.inj_succ.
      replace (t + w * Z.succ (Z.of_nat (length els))) with (t + w + w * Z.of_nat (length els)) by lia.
      change (pack_value w (el :: els)) with (el + 2 ^ w * pack_value w els).
      replace (v + 2 ^ t * (el + 2 ^ w * pack_value w els)) with (v' + 2 ^ (t + w) * pack_value w els)
        by (unfold v'; rewrite Z.pow_add_r by lia; ring). exact Hp2. }
    cbn [pack_loop]. replace (64 - (64 * Z.of_nat k + 64 - t)) with s by lia.
    rewrite mini_buffer_word by lia. rewrite <- Hv'.
    assert (Hlow : le (8 * k) v = le (8 * k) v').
    { rewrite <- (le_mod _ v), <- (le_mod _ v'), !pow256_words. f_equal. unfold v'.
      rewrite Ht', Z.mul_assoc, Z_mod_plus_full. done. }
    destruct (Z.ltb_spec w (64 * Z.of_nat k + 64 - t)).
    + apply Hnext. exists k. split_and!; [lia|lia|done| |lia|done]. apply Z.mod_small.
      pose proof (pow2_pos (64 * Z.of_nat k) ltac:(lia)). split; [apply Z.div_pos; lia|].
      apply Z.div_lt_upper_bound; [lia|]. rewrite <- Z.pow_add_r by lia.
      eapply Z.lt_le_trans; [apply Hvb|]. apply Z.pow_le_mono_r; lia.
    + destruct (Z.ltb_spec (len - 8 * Z.of_nat k) 8); [lia|].
      apply Hnext. exists (S k).
      assert (Hpk : 2 ^ (64 * Z.of_nat (S k)) = 2 ^ (64 * Z.of_nat k) * 2 ^ 64)
        by (rewrite <- Z.pow_add_r by lia; f_equal; lia).
      split_and!; [lia|lia| | |lia|lia].
      * replace (8 * S k)%nat with (8 * k + 8)%nat by lia. rewrite le_app, pow256_words. f_equal; [done|].
        change (2 ^ 64) with (256 ^ Z.of_nat 8). apply le_mod.
      * rewrite Hpk, <- Z.div_div, Hv' by (try apply Z.pow_nonzero; try apply pow2_pos; lia).
        unfold shr64. rewrite (Z.mod_small (64 * Z.of_nat k + 64 - t)), Z.shiftr_div_pow2 by lia.
        assert (H64 : 2 ^ 64 = 2 ^ s * 2 ^ (64 * Z.of_nat k + 64 - t))
          by (rewrite <- Z.pow_add_r by lia; f_equal; lia).
        rewrite H64, <- Z.div_div by (try apply Z.pow_nonzero; try apply pow2_pos; lia).
        rewrite Z.div_add, (Z.div_small (v / _)) by (try apply Z.pow_nonzero; lia). done.
Qed.

(** Packed nonces are the little-endian bytes of the number they form. *)
Lemma pack_bits_spec w els :
  1 <= w <= 63 -> Forall (in_range w) els ->
  pack_bits w els ((w * Z.of_nat (length els) + 7) / 8) =
  Some (le (Z.to_nat ((w * Z.of_nat (length els) + 7) / 8)) (pack_value w els)).
Proof.
  intros Hw Hels. set (n := w * Z.of_nat (length els)). set (len := (n + 7) / 8).
  pose proof (Z.div_mod (n + 7) 8 ltac:(lia)) as Hd. pose proof (Z.mod_pos_bound (n + 7) 8 ltac:(lia)).
  fold len in Hd. assert (Hn : 0 <= n) by lia.
  destruct (pack_loop_spec w els 0 0 len 0 64 [] len Hw Hels) as (m & r & out & room & E & Hp);
    [cbn; lia|lia| |lia|].
  { exists 0%nat. split_and!; try done; lia. }
  fold n in Hp. rewrite Z.add_0_l, Z.pow_0_r, Z.mul_1_l, Z.add_0_l in Hp.
  destruct Hp as (k & Hk & -> & -> & _ & ->). unfold pack_bits. rewrite E. bind_some.
  set (v := pack_value w els). pose proof (pack_value_bound w els ltac:(lia) Hels) as Hv. fold n v in Hv.
  set (m := v / 2 ^ (64 * Z.of_nat k)). set (rm := Z.to_nat (len - 8 * Z.of_nat k)).
  assert (Hsplit : le (Z.to_nat len) v = le (8 * k) v ++ le rm m).
  { replace (Z.to_nat len) with (8 * k + rm)%nat by lia. by rewrite le_app, pow256_words. }
  assert (Hm : 0 <= m < 2 ^ (n - 64 * Z.of_nat k)).
  { pose proof (pow2_pos (64 * Z.of_nat k) ltac:(lia)). split; [apply Z.div_pos; lia|].
    apply Z.div_lt_upper_bound; [lia|]. rewrite <- Z.pow_add_r by lia.
    replace (64 * Z.of_nat k + (n - 64 * Z.of_nat k)) with n by lia. apply Hv. }
  rewrite Hsplit. destruct (Z.ltb_spec 0 m) as [Hpos|Hzero].
  - assert (Hroom : 1 <= len - 8 * Z.of_nat k <= 8).
    { split; [|lia]. destruct (Z.le_gt_cases (n - 64 * Z.of_nat k) 0) as [Hle|]; [|lia].
      replace (n - 64 * Z.of_nat k) with 0 in Hm by lia. cbn in Hm. lia. }
    assert (Hrem : (if (len - 8 * Z.of_nat k) mod 8 =? 0 then 8 else (len - 8 * Z.of_nat k) mod 8)
                   = len - 8 * Z.of_nat k).
    { destruct (Z.eq_dec (len - 8 * Z.of_nat k) 8) as [->|]; [done|]. rewrite Z.mod_small by lia.
      destruct (Z.eqb_spec (len - 8 * Z.of_nat k) 0); lia. }
    rewrite Hrem, Z.eqb_refl. by rewrite le_take by lia.
  - assert (m = 0) as -> by lia. by rewrite le_0.
Qed.

(** ** Unpacking *)

(** [count] numbers of [w] bits of [v], from the [n]th on. *)
Fixpoint unpack (v w n : Z) (count : nat) : list Z :=
  match count with
  | O => []
  | S count => bits_at v (n * w) w :: unpack v w (n + 1) count
  end.

Lemma unpack_length v w n count : length (unpack v w n count) = count.
Proof. revert n. induction count; intros; simpl; auto. Qed.

Lemma unpack_range v w n count : 0 <= w -> Forall (in_range w) (unpack v w n count).
Proof.
  intros Hw. revert n. induction count as [|count IH]; intros n; simpl; constructor; [|done].
  by apply bits_at_range.
Qed.

Lemma pack_unpack v w n count :
  0 <= w -> 0 <= n -> pack_value w (unpack v w n count) = bits_at v (n * w) (w * Z.of_nat count).
Proof.
  intros Hw. revert n. induction count as [|count IH]; intros n Hn.
  - unfold bits_at. by rewrite Z.mul_0_r, Z.mod_1_r.
  - change (pack_value w (unpack v w n (S count)))
      with (bits_at v (n * w) w + 2 ^ w * pack_value w (unpack v w (n + 1) count)).
    rewrite IH, Nat2Z.inj_succ by lia.
    replace (w * Z.succ (Z.of_nat count)) with (w + w * Z.of_nat count) by lia.
    rewrite bits_at_split by lia. by replace ((n + 1) * w) with (n * w + w) by lia.
Qed.

Lemma unpack_pack v w n els :
  0 < w -> 0 <= n -> Forall (in_range w) els -> v / 2 ^ (n * w) = pack_value w els ->
  unpack v w n (length els) = els.
Proof.
  intros Hw Hn Hels. revert n Hn. induction Hels as [|e els He _ IH]; intros n Hn Hv; [done|].
  cbn [length unpack]. change (pack_value w (e :: els)) with (e + 2 ^ w * pack_value w els) in Hv.
  unfold in_range in He. pose proof (pow2_pos (n * w) ltac:(lia)). f_equal.
  - unfold bits_at. by rewrite Hv, (Z.mul_comm (2 ^ w)), Z_mod_plus_full, Z.mod_small by lia.
  - apply IH; [lia|]. replace ((n + 1) * w) with (n * w + w) by lia.
    rewrite Z.pow_add_r, <- Z.div_div, Hv, (Z.mul_comm (2 ^ w)), Z.div_add, Z.div_small by lia. done.
Qed.

Lemma read_nonces_spec l w n count :
  Forall (in_range 8) l -> 8 <= Z.of_nat (length l) -> 0 <= n -> 0 <= w <= 64 ->
  (n + Z.of_nat count) * w <= 8 * Z.of_nat (length l) ->
  read_nonces l w n count = Some (unpack (le_value l) w n count).
Proof.
  intros Hl Hlen Hn Hw. revert n Hn. induction count as [|count IH]; intros n Hn Hc; [done|].
  rewrite Nat2Z.inj_succ in Hc. cbn [read_nonces unpack].
  rewrite read_number_spec by (try done; nia). bind_some. rewrite IH by lia. done.
Qed.

(** ** The encoding of proofs *)

(** Proofs with the right number of nonces, each of its width, whose packing
    is not too short to be read. *)
Definition proof_ok (ct : ChainTypes) (p : PowProof) : Prop :=
  1 <= edge_bits p <= 63 /\ 8 <= pack_len ct (edge_bits p) /\
  Z.of_nat (proof_size p) = proofsize ct /\ Forall (in_range (edge_bits p)) (nonces p).

Lemma pack_len_bounds ct w :
  w * proofsize ct <= 8 * pack_len ct w < w * proofsize ct + 8.
Proof.
  unfold pack_len. pose proof (Z.div_mod (w * proofsize ct + 7) 8 ltac:(lia)).
  pose proof (Z.mod_pos_bound (w * proofsize ct + 7) 8 ltac:(lia)). lia.
Qed.

Lemma proofsize_bounds ct : 1 <= proofsize ct <= 42.
Proof. destruct ct; cbv; split; congruence. Qed.

(** The bytes of a valid proof. *)
Lemma write_proof_ok ct v p :
  proof_ok ct p ->
  write_proof ct (mkWriter SerFull v) p =
  Some (Ok (edge_bits p :: le (Z.to_nat (pack_len ct (edge_bits p))) (pack_value (edge_bits p) (nonces p)))).
Proof.
  intros (Hw & _ & Hn & Hr). unfold proof_size in Hn. unfold write_proof, pack_nonces, pack_len.
  rewrite <- Hn, pack_bits_spec by done. reflexivity.
Qed.

(** The last bits of a packing of the right length are zero exactly when it is
    the packing of the numbers it holds. *)
Lemma rest_zero_iff w len count l :
  0 < w -> Z.of_nat (length l) = len -> Forall (in_range 8) l ->
  w * Z.of_nat count <= 8 * len ->
  bits_at (le_value l) (Z.of_nat count * w) (8 * len - Z.of_nat count * w) = 0 <->
  l = le (Z.to_nat len) (pack_value w (unpack (le_value l) w 0 count)).
Proof.
  intros Hw Hlen Hl Hc. pose proof (le_value_bound l Hl) as Hv. rewrite pow256_pow2, Hlen in Hv.
  rewrite pack_unpack by lia. set (v := le_value l) in *.
  assert (Hsplit : v = bits_at v (0 * w) (w * Z.of_nat count) +
    2 ^ (w * Z.of_nat count) * bits_at v (Z.of_nat count * w) (8 * len - Z.of_nat count * w)).
  { assert (Hv0 : v = bits_at v 0 (w * Z.of_nat count + (8 * len - w * Z.of_nat count))).
    { unfold bits_at. rewrite Z.pow_0_r, Z.div_1_r, Z.mod_small; [done|].
      by replace (w * Z.of_nat count + (8 * len - w * Z.of_nat count)) with (8 * len) by lia. }
    rewrite Hv0 at 1. rewrite bits_at_split by lia. rewrite Z.mul_0_l, Z.add_0_l.
    by rewrite (Z.mul_comm (Z.of_nat count)). }
  pose proof (pow2_pos (w * Z.of_nat count) ltac:(lia)).
  pose proof (bits_at_range v (0 * w) (w * Z.of_nat count) ltac:(lia)) as Hlow.
  split; intros H0.
  - rewrite H0, Z.mul_0_r, Z.add_0_r in Hsplit. rewrite <- Hsplit, <- Hlen, Nat2Z.id.
    symmetry. by apply le_le_value.
  - assert (Hv1 : v = bits_at v (0 * w) (w * Z.of_nat count)).
    { unfold v at 1. rewrite H0, le_value_le, pow256_pow2, Z2Nat.id by lia.
      apply Z.mod_small. split; [lia|]. eapply Z.lt_le_trans; [apply Hlow|].
      apply Z.pow_le_mono_r; lia. }
    nia.
Qed.

Section reading.
Context {R : Type} {RD : Reader R} {RL : ReaderLaws R}.

(** What [read_proof] does, by cases on the input. *)
Lemma read_proof_empty ct (r : R) : input r = [] -> read_proof ct r = Some (Err (IOErr UnexpectedEof)).
Proof. intros Hin. unfold read_proof. destruct law_u8 as [_ He]. by rewrite He by (rewrite Hin; simpl; lia). Qed.

Definition bad_width (ct : ChainTypes) (w : Z) : Prop := w = 0 \/ 63 < w \/ pack_len ct w < 8.

Lemma read_proof_bad_width ct (r : R) w rest :
  deserialization_mode r = DeFull -> input r = w :: rest -> bad_width ct w ->
  read_proof ct r = Some (Err CorruptedData).
Proof.
  intros Hm Hin Hw. unfold read_proof. destruct law_u8 as [Hrd _].
  destruct (Hrd r [w] rest Hin eq_refl) as (r1 & -> & (_ & _ & Hm1 & _)).
  change (be_value [w]) with w. rewrite Hm1, Hm.
  destruct (Z.eqb_spec w 0); [done|]. destruct (Z.ltb_spec 63 w); [done|]. cbn [orb].
  destruct (Z.ltb_spec (pack_len ct w) 8); [done|]. unfold bad_width in Hw. lia.
Qed.

Lemma read_proof_short ct (r : R) w rest :
  deserialization_mode r = DeFull -> input r = w :: rest -> 1 <= w -> ~ bad_width ct w ->
  Z.of_nat (length rest) < pack_len ct w ->
  read_proof ct r = Some (Err (IOErr UnexpectedEof)).
Proof.
  intros Hm Hin H1 Hw Hlen. unfold read_proof. destruct law_u8 as [Hrd _].
  destruct (Hrd r [w] rest Hin eq_refl) as (r1 & -> & (Hin1 & _ & Hm1 & _)).
  change (be_value [w]) with w. rewrite Hm1, Hm. unfold bad_width in Hw.
  destruct (Z.eqb_spec w 0); [lia|]. destruct (Z.ltb_spec 63 w); [lia|]. cbn [orb].
  destruct (Z.ltb_spec (pack_len ct w) 8); [lia|].
  rewrite law_fixed_eof; [done| |by rewrite Hin1].
  apply law_limit. pose proof (pack_len_bounds ct w). pose proof (proofsize_bounds ct).
  unfold MAX_READ_SIZE. nia.
Qed.

Lemma read_proof_bits ct (r : R) w l tl :
  deserialization_mode r = DeFull -> input r = w :: l ++ tl -> 1 <= w -> ~ bad_width ct w ->
  Z.of_nat (length l) = pack_len ct w -> Forall (in_range 8) l ->
  let p := mkPow w (unpack (le_value l) w 0 (Z.to_nat (proofsize ct))) in
  exists r', advanced input r r' tl /\
    read_proof ct r =
    Some (if bool_decide (l = le (Z.to_nat (pack_len ct w)) (pack_value w (nonces p)))
          then Ok (p, r') else Err CorruptedData).
Proof.
  intros Hm Hin H1 Hw Hlen Hl p. unfold read_proof. destruct law_u8 as [Hrd _].
  destruct (Hrd r [w] _ Hin eq_refl) as (r1 & -> & Ha1). pose proof Ha1 as (Hin1 & _ & Hm1 & _).
  change (be_value [w]) with w. rewrite Hm1, Hm. unfold bad_width in Hw.
  pose proof (pack_len_bounds ct w) as Hpl. pose proof (proofsize_bounds ct).
  destruct (Z.eqb_spec w 0); [lia|]. destruct (Z.ltb_spec 63 w); [lia|]. cbn [orb].
  destruct (Z.ltb_spec (pack_len ct w) 8); [lia|].
  destruct (law_fixed r1 (pack_len ct w) l tl) as (r2 & -> & Ha2); [|done|done|].
  { apply law_limit. unfold MAX_READ_SIZE. nia. }
  exists r2. split; [by eapply advanced_trans|].
  rewrite read_nonces_spec by (try done; lia). bind_some.
  rewrite read_number_spec by (try done; lia). bind_some.
  pose proof (rest_zero_iff w (pack_len ct w) (Z.to_nat (proofsize ct)) l ltac:(lia) Hlen Hl) as Hz.
  rewrite Z2Nat.id in Hz by lia. specialize (Hz ltac:(lia)).
  replace (pack_len ct w * 8) with (8 * pack_len ct w) by lia.
  destruct (Z.eqb_spec (bits_at (le_value l) (proofsize ct * w) (8 * pack_len ct w - proofsize ct * w)) 0).
  - by rewrite bool_decide_true by by apply Hz.
  - rewrite bool_decide_false; [done|]. intros E. by apply Hz in E.
Qed.

(** Reading what [write_proof] wrote. *)
Lemma read_written_proof ct v (r : R) p bs tl :
  deserialization_mode r = DeFull -> proof_ok ct p ->
  write_proof ct (mkWriter SerFull v) p = Some (Ok bs) -> input r = bs ++ tl ->
  exists r', read_proof ct r = Some (Ok (p, r')) /\ advanced input r r' tl.
Proof.
  intros Hm. destruct p as [w els]. intros Hok Ew Hin. rewrite write_proof_ok in Ew by done. injection Ew as <-.
  destruct Hok as (Hw & Hpl & Hn & Hr). unfold proof_size in Hn. cbn [edge_bits nonces] in *.
  pose proof (pack_len_bounds ct w). pose proof (pack_value_bound w els ltac:(lia) Hr) as Hv.
  rewrite Hn in Hv.
  destruct (read_proof_bits ct r w (le (Z.to_nat (pack_len ct w)) (pack_value w els)) tl) as (r' & Ha & E).
  - done.
  - done.
  - lia.
  - unfold bad_width. lia.
  - rewrite le_length. lia.
  - apply le_bytes.
  - exists r'. split; [|done]. rewrite E. cbn [nonces].
    assert (Eu : unpack (le_value (le (Z.to_nat (pack_len ct w)) (pack_value w els))) w 0 (Z.to_nat (proofsize ct)) = els).
    { replace (Z.to_nat (proofsize ct)) with (length els) by lia. apply unpack_pack; [lia|lia|done|].
      rewrite Z.mul_0_l, Z.pow_0_r, Z.div_1_r, le_value_le, pow256_pow2, Z2Nat.id by lia.
      apply Z.mod_small. split; [lia|]. eapply Z.lt_le_trans; [apply Hv|]. apply Z.pow_le_mono_r; lia. }
    by rewrite Eu, bool_decide_true.
Qed.

End reading.

(** What [read_proof] accepts are the encodings of well-formed proofs. *)
Lemma read_proof_iff ct v R (RD : Reader R) (RL : ReaderLaws R) (r : R) :
  Forall (in_range 8) (input r) -> deserialization_mode r = DeFull ->
  read_proof ct r <> None /\
  (forall p r', read_proof ct r = Some (Ok (p, r')) -> advanced input r r' (input r')) /\
  forall p tl,
    (exists r', read_proof ct r = Some (Ok (p, r')) /\ advanced input r r' tl) <->
    proof_ok ct p /\ exists bs, write_proof ct (mkWriter SerFull v) p = Some (Ok bs) /\ input r = bs ++ tl.
Proof.
  intros Hb Hm.
  pose proof (read_written_proof ct v r) as Hwrite.
  destruct (input r) as [|w rest] eqn:Hin.
  { rewrite read_proof_empty by done. split; [done|]. split; [done|]. intros p tl. split; [by intros (? & ? & _)|].
    intros (Hok & bs & Ew & Hin'). rewrite write_proof_ok in Ew by done. by injection Ew as <-. }
  apply Forall_cons in Hb as [Hwr Hb]. unfold in_range in Hwr. change (2 ^ 8) with 256 in Hwr.
  assert (Hcase : (bad_width ct w \/ Z.of_nat (length rest) < pack_len ct w) \/
    (1 <= w /\ ~ bad_width ct w /\ pack_len ct w <= Z.of_nat (length rest))) by (unfold bad_width; lia).
  destruct Hcase as [Hbad|(H1 & Hnb & Hlen)].
  - assert (Hnok : exists e, read_proof ct r = Some (Err e)).
    { destruct Hbad as [Hbad|Hshort]; [by eexists; eapply read_proof_bad_width|].
      destruct (decide (w = 0 \/ 63 < w \/ pack_len ct w < 8)) as [Hbad|Hnb];
        [by eexists; eapply read_proof_bad_width|].
      eexists. eapply read_proof_short; try done. lia. }
    destruct Hnok as [e He]. split; [by rewrite He|]. split; [by rewrite He|]. intros p tl. split.
    + rewrite He. by intros (? & ? & _).
    + intros (Hok & bs & Ew & Hin'). by eapply Hwrite.
  - pose proof (pack_len_bounds ct w). set (l := take (Z.to_nat (pack_len ct w)) rest).
    assert (Hl : Forall (in_range 8) l) by by apply Forall_take.
    destruct (read_proof_bits ct r w l (drop (Z.to_nat (pack_len ct w)) rest)) as (r1 & Ha1 & E);
      [done|by unfold l; rewrite take_drop|done|done| |done|].
    { unfold l. rewrite length_take. unfold bad_width in Hnb. lia. }
    rewrite E. split; [done|]. split.
    { intros p r' Eq. case_bool_decide; [|done]. injection Eq as <- <-.
      pose proof Ha1 as [Hin1 _]. by rewrite Hin1. }
    intros p tl. split.
    + intros (r' & Eq & Ha). case_bool_decide as Hd; [|done]. injection Eq as <- <-.
      destruct Ha as (Ht & _), Ha1 as (Ht1 & _). rewrite Ht in Ht1.
      assert (Hok : proof_ok ct (mkPow w (unpack (le_value l) w 0 (Z.to_nat (proofsize ct))))).
      { unfold bad_width in Hnb. pose proof (proofsize_bounds ct).
        split_and!; unfold proof_size; cbn [edge_bits nonces]; [lia|lia|lia| |apply unpack_range; lia].
        rewrite unpack_length. lia. }
      split; [done|]. eexists. split; [by apply write_proof_ok|]. cbn [edge_bits nonces app] in *.
      rewrite <- Hd, Ht1. unfold l. by rewrite take_drop.
    + intros (Hok & bs & Ew & Hin'). rewrite <- E. by eapply Hwrite.
Qed.


(** * Properties *)

(** The encoding of proofs is exact and canonical: on any input whatever a
    lawful reader never panics, and it accepts a proof and stops before [tl]
    exactly when the proof has its width in range, the right number of nonces,
    each of that width, and the bytes consumed are the ones that writing it
    produces. So accepted proofs survive a round trip, no proof has two
    encodings, and unused bits cannot be changed. *)
Theorem pow_proof_canonical ct v R (RD : Reader R) (RL : ReaderLaws R) (r : R) :
  Forall (in_range 8) (input r) -> deserialization_mode r = DeFull ->
  read_proof ct r <> None /\
  forall p tl,
    (exists r', read_proof ct r = Some (Ok (p, r')) /\ advanced input r r' tl) <->
    proof_ok ct p /\ exists bs, write_proof ct (mkWriter SerFull v) p = Some (Ok bs) /\ input r = bs ++ tl.
Proof.
  intros Hb Hm. by destruct (read_proof_iff ct v R RD RL r Hb Hm) as (? & _ & ?).
Qed.
(** * Witnesses *)

Definition sample_bytes : bytes := 10 :: le 10 (pack_value 10 [1; 2; 3; 4; 5; 6; 7; 1023]) ++ [7].

Lemma pow_proof_canonical_witness :
  exists r', read_proof AutomatedTesting (BinReader.mk sample_bytes (mkVersion 1) DeFull)
    = Some (Ok (mkPow 10 [1; 2; 3; 4; 5; 6; 7; 1023], r')) /\ BinReader.source r' = [7].
Proof.
  destruct (pow_proof_canonical AutomatedTesting (mkVersion 1) BinReader.t BinReader.reader binreader_laws
    (BinReader.mk sample_bytes (mkVersion 1) DeFull)) as [_ H].
  - vm_compute. repeat constructor; congruence.
  - reflexivity.
  - destruct (proj2 (H (mkPow 10 [1; 2; 3; 4; 5; 6; 7; 1023]) [7])) as (r' & E & Ha & _).
    + split.
      * split_and!; vm_compute; try congruence. repeat constructor; congruence.
      * eexists. split; vm_compute; reflexivity.
    + exists r'. split; [exact E|exact Ha].
Defined.
