(* ===== verification/Block.v ===== *)
(** Blocks and their headers.

    Models [src/core/src/core/block.rs], [block_sums.rs], [compact_block.rs],
    [id.rs] and [verify_size] of [src/core/src/pow.rs]: headers with the encoding
    that the proof of work commits to, the checks on headers and blocks that
    come from the network, block validation, building a block from transactions
    and rebuilding one from its compact form.

    The chain type is an argument. [None] stands for a panic, which packing a
    proof of the wrong shape causes. [Chrono] collects what is used of the
    [chrono] crate; times are seconds, except the clock, which counts
    nanoseconds. [SipHasher] is the hasher of the [siphasher] crate. *)

From Stdlib Require Import ZArith Lia.
From stdpp Require Import base numbers option sorting list.
From S2P Require Import Prelude Consensus PmmrIndex Ser Kernel CutThrough Transaction Siphash Cuckoo PowTypes.
Open Scope Z_scope.

Inductive block_error : Type :=
| BlockKernelSumMismatch
| InvalidTotalKernelSum
| CoinbaseSumMismatch
| BlockTooHeavy
| InvalidHeaderVersion (version : Z)
| InvalidBlockTime
| InvalidPow
| KernelLockHeight (lock_height : Z)
| NRDKernelPreHF3
| NRDKernelNotEnabled
| TransactionError (e : Kernel.Error)
| SecpError
| KeychainError
| BlockMerkleProof
| CommittedError (e : Kernel.Error)
| BlockCutThrough
| BlockSerialization (e : ser_error)
| OtherError.

(** What is used of the [chrono] crate: the times that a [DateTime] can
    represent, [NaiveDate::MIN] and [NaiveDate::MAX] at midnight, and
    [Utc::now()] in nanoseconds. *)
Class Chrono := {
  date_min : Z;
  date_max : Z;
  from_timestamp : Z -> option Z;
  utc_now : Z;
}.

Class ChronoLaws {CH : Chrono} := {
  date_order : - 2 ^ 63 <= date_min /\ date_min <= 0 <= date_max /\ date_max < 2 ^ 63;
  from_timestamp_in t : date_min <= t <= date_max -> from_timestamp t = Some t;
}.

(** [SipHasher24::new_with_keys], [write] and [finish]. *)
Class SipHasher := sip_hasher24 : Z -> Z -> bytes -> Z.

(** ** Headers *)

Record HeaderEntry : Type := mkHeaderEntry {
  entry_hash : Hash;
  entry_timestamp : Z;
  entry_total_difficulty : Difficulty;
  entry_secondary_scaling : Z;
  entry_is_secondary : bool;
}.

#[export] Instance difficulty_writeable : Writeable Difficulty := fun w d => write_u64 w (Diff.to_num d).
#[export] Instance difficulty_readable : Readable Difficulty :=
  fun R _ r => let? (x, r) := read_u64 r in Ok (mkDifficulty x, r).

#[export] Instance header_entry_readable : Readable HeaderEntry := fun R _ r =>
  let? (hash, r) := read (A := Hash) r in
  let? (timestamp, r) := read_u64 r in
  let? (total_difficulty, r) := read (A := Difficulty) r in
  let? (secondary_scaling, r) := read_u32 r in
  let? (b, r) := read_u8 r in
  let is_secondary := negb (b =? 0) in
  Ok (mkHeaderEntry hash timestamp total_difficulty secondary_scaling is_secondary, r).

#[export] Instance header_entry_writeable : Writeable HeaderEntry := fun w e =>
  write w (entry_hash e) +w+ write_u64 w (entry_timestamp e) +w+ write w (entry_total_difficulty e) +w+
  write_u32 w (entry_secondary_scaling e) +w+
  (if entry_is_secondary e then write_u8 w 1 else write_u8 w 0).

(** [version] is the number in a [HeaderVersion]. *)
Record BlockHeader : Type := mkHeader {
  version : Z;
  height : Z;
  prev_hash : Hash;
  prev_root : Hash;
  timestamp : Z;
  output_root : Hash;
  range_proof_root : Hash;
  kernel_root : Hash;
  total_kernel_offset : BlindingFactor;
  output_mmr_size : Z;
  kernel_mmr_size : Z;
  pow : ProofOfWork;
}.

Definition ZERO_HASH : Hash := mkHash (replicate 32 0).

Definition default_pow (ct : ChainTypes) : ProofOfWork :=
  mkProofOfWork Diff.min_dma 1 0 (proof_zero ct (Z.to_nat (proofsize ct))).

Definition default_header (ct : ChainTypes) : BlockHeader :=
  mkHeader 1 0 ZERO_HASH ZERO_HASH 0 ZERO_HASH ZERO_HASH ZERO_HASH blinding_zero 0 0 (default_pow ct).

(** [BlockHeader::write_pre_pow] *)
Definition write_header_pre_pow (w : Writer) (h : BlockHeader) : result ser_error bytes :=
  write_u16 w (version h) +w+ write_u64 w (height h) +w+ write_i64 w (timestamp h) +w+
  write_fixed_bytes w (hash_bytes (prev_hash h)) +w+ write_fixed_bytes w (hash_bytes (prev_root h)) +w+
  write_fixed_bytes w (hash_bytes (output_root h)) +w+
  write_fixed_bytes w (hash_bytes (range_proof_root h)) +w+
  write_fixed_bytes w (hash_bytes (kernel_root h)) +w+
  write_fixed_bytes w (blinding_bytes (total_kernel_offset h)) +w+
  write_u64 w (output_mmr_size h) +w+ write_u64 w (kernel_mmr_size h).

Definition write_header (ct : ChainTypes) (w : Writer) (h : BlockHeader) : option (result ser_error bytes) :=
  let! pow := write_pow ct w (pow h) in
  Some ((if negb (is_hash_mode (serialization_mode w)) then write_header_pre_pow w h else Ok []) +w+ pow).

(** The reads of [read_block_header] before the proof of work. *)
Definition read_header_fields {R} `{Reader R} (r : R)
    : result ser_error ((ProofOfWork -> BlockHeader) * R) :=
  let? (version, r) := read_u16 r in
  let? (height, r) := read_u64 r in
  let? (timestamp, r) := read_i64 r in
  let? (prev_hash, r) := read r in
  let? (prev_root, r) := read r in
  let? (output_root, r) := read r in
  let? (range_proof_root, r) := read r in
  let? (kernel_root, r) := read r in
  let? (total_kernel_offset, r) := read r in
  let? (output_mmr_size, r) := read_u64 r in
  let? (kernel_mmr_size, r) := read_u64 r in
  Ok (mkHeader version height prev_hash prev_root timestamp output_root range_proof_root kernel_root
        total_kernel_offset output_mmr_size kernel_mmr_size, r).

Definition set_timestamp (h : BlockHeader) (t : Z) : BlockHeader :=
  mkHeader (version h) (height h) (prev_hash h) (prev_root h) t (output_root h) (range_proof_root h)
    (kernel_root h) (total_kernel_offset h) (output_mmr_size h) (kernel_mmr_size h) (pow h).

Definition read_block_header `{Chrono} {R} `{Reader R} (ct : ChainTypes) (r : R)
    : option (result ser_error (BlockHeader * R)) :=
  match read_header_fields r with
  | Err e => Some (Err e)
  | Ok (header, r) =>
      let! p := read_pow ct r in
      Some (
        let? (pow, r) := p in
        let h := header pow in
        if (date_max <? timestamp h) || (timestamp h <? date_min) then Err CorruptedData
        else
          match from_timestamp (timestamp h) with
          | None => Err CorruptedData
          | Some ts => Ok (set_timestamp h ts, r)
          end)
  end.

Section header.
Context {CR : Crypto} {CH : Chrono}.

(** [hash], of what is written in hash mode: the packed proof. *)
Definition header_hash (ct : ChainTypes) (h : BlockHeader) : option Hash :=
  let! bs := write_header ct (mkWriter SerHash local) h in
  match bs with Ok bs => Some (blake2b bs) | Err _ => None end.

(** [BlockHeader::as_elmt] *)
Definition header_entry (ct : ChainTypes) (h : BlockHeader) : option HeaderEntry :=
  let! hash := header_hash ct h in
  Some (mkHeaderEntry hash (of_signed 64 (timestamp h)) (total_difficulty (pow h))
    (pow_secondary_scaling (pow h)) (pow_is_secondary (pow h))).

Definition header_elmt_size : option Z := Some (HASH_SIZE + 8 + 8 + 4 + 1).

Definition pre_pow (h : BlockHeader) : result ser_error bytes :=
  let w := mkWriter SerFull local in
  write_header_pre_pow w h +w+ write_pre_pow w (pow h) +w+ write_u64 w (pow_nonce (pow h)).

(** [header_bytes] is the decoded hex string. *)
Definition from_pre_pow_and_proof (ct : ChainTypes) (header_bytes : bytes) (nonce : Z) (proof : PowProof)
    : option (result block_error BlockHeader) :=
  let w := mkWriter SerFull local in
  let! p := write_proof ct w proof in
  match Ok header_bytes +w+ write_u64 w nonce +w+ p with
  | Err e => Some (Err (BlockSerialization e))
  | Ok bs =>
      let! h := read_block_header ct (BinReader.mk bs local DeFull) in
      Some (map_err BlockSerialization (let? (h, _) := h in Ok h))
  end.

Definition output_mmr_count (h : BlockHeader) : Z := n_leaves (output_mmr_size h).
Definition kernel_mmr_count (h : BlockHeader) : Z := n_leaves (kernel_mmr_size h).
Definition header_difficulty (h : BlockHeader) : Difficulty := total_difficulty (pow h).

(** [checked_neg().unwrap_or(0)] of an [i64]. *)
Definition neg_or_zero (x : Z) : Z := if x =? - 2 ^ 63 then 0 else - x.

Definition header_overage : Z := neg_or_zero (to_signed 64 REWARD).

Definition total_overage (h : BlockHeader) (genesis_had_reward : bool) : Z :=
  let reward_count := if genesis_had_reward then add64 (height h) 1 else height h in
  neg_or_zero (to_signed 64 (mul64 reward_count REWARD)).

(** ** [verify_size] of [pow.rs] *)

Definition create_siphash_keys (header : bytes) : keys :=
  let hb := hash_bytes (blake2b header) in
  let word i := le_value (take 8 (drop (8 * i) hb)) in
  (word 0%nat, word 1%nat, word 2%nat, word 3%nat).

(** [fuel] bounds the walk of the Cuckarood verifier. *)
Definition verify_size (fuel : nat) (ct : ChainTypes) (bh : BlockHeader) : option (result pow_error unit) :=
  let proof := pow_proof (pow bh) in
  match create_pow_context ct (height bh) (edge_bits proof) (length (nonces proof)) with
  | Err e => Some (Err e)
  | Ok ctx =>
      match pre_pow bh with
      | Err _ => None
      | Ok header => Cuckoo.verify fuel ct ctx (create_siphash_keys header) (nonces proof)
      end
  end.

(** ** [UntrustedBlockHeader] *)

Definition read_untrusted_header {R} `{Reader R} (fuel : nat) (ct : ChainTypes) (future_time_limit : Z) (r : R)
    : option (result ser_error (BlockHeader * R)) :=
  let! res := read_block_header ct r in
  match res with
  | Err e => Some (Err e)
  | Ok (header, r) =>
      if utc_now + future_time_limit * 10 ^ 9 <? timestamp header * 10 ^ 9 then Some (Err CorruptedData)
      else if negb (valid_header_version ct (height header) (version header))
      then Some (Err InvalidBlockVersion)
      else if negb (is_primary ct (pow header)) && negb (pow_is_secondary (pow header))
      then Some (Err CorruptedData)
      else
        let! ok := verify_size fuel ct header in
        if negb (is_ok ok) then Some (Err CorruptedData)
        else
          let global_weight := weight_by_iok 0 (output_mmr_count header) (kernel_mmr_count header) in
          if mul64 (max_block_weight ct) (add64 (height header) 1) <? global_weight
          then Some (Err CorruptedData)
          else Some (Ok (header, r))
  end.
End header.

(** ** Blocks *)

Record Block : Type := mkBlock { header : BlockHeader; body : TransactionBody }.

Record BlockSums : Type := mkSums { utxo_sum : Commitment; kernel_sum : Commitment }.

#[export] Instance block_sums_writeable : Writeable BlockSums := fun w s =>
  write_fixed_bytes w (commitment_bytes (utxo_sum s)) +w+ write_fixed_bytes w (commitment_bytes (kernel_sum s)).

#[export] Instance block_sums_readable : Readable BlockSums := fun R _ r =>
  let? (utxo_sum, r) := read r in
  let? (kernel_sum, r) := read r in
  Ok (mkSums utxo_sum kernel_sum, r).

Definition default_block (ct : ChainTypes) : Block := mkBlock (default_header ct) body_empty.
Definition with_header (h : BlockHeader) : Block := mkBlock h body_empty.

Definition default_sums : BlockSums := mkSums commit_to_zero_value commit_to_zero_value.

(** ** Short ids and compact blocks *)

Definition SHORT_ID_SIZE : Z := 6.

Record ShortId : Type := mkShortId { short_id_bytes : bytes }.

#[export] Instance short_id_writeable : Writeable ShortId := fun w i => write_fixed_bytes w (short_id_bytes i).
#[export] Instance short_id_readable : Readable ShortId := fun R _ r =>
  let? (a, r) := read_fixed_bytes r SHORT_ID_SIZE in Ok (mkShortId a, r).

Definition short_id_from_bytes (bs : bytes) : ShortId :=
  let copy_size := Nat.min (Z.to_nat SHORT_ID_SIZE) (length bs) in
  mkShortId (take copy_size bs ++ replicate (Z.to_nat SHORT_ID_SIZE - copy_size) 0).

Definition short_id_zero : ShortId := short_id_from_bytes [0].

Record CompactBlockBody : Type := mkCompactBody {
  out_full : list Output;
  kern_full : list TxKernel;
  kern_ids : list ShortId;
}.

Record CompactBlock : Type := mkCompact { cb_header : BlockHeader; cb_nonce : Z; cb_body : CompactBlockBody }.

Section block.
Context {CR : Crypto} {SU : SortUnstable} {NF : NrdFlag} {CH : Chrono} {SH : SipHasher}.

Definition write_block (ct : ChainTypes) (w : Writer) (b : Block) : option (result ser_error bytes) :=
  let! h := write_header ct w (header b) in
  Some (h +w+ (if negb (is_hash_mode (serialization_mode w)) then write_body w (body b) else Ok [])).

Definition read_block {R} `{Reader R} (ct : ChainTypes) (r : R) : option (result ser_error (Block * R)) :=
  let! res := read_block_header ct r in
  Some (
    let? (header, r) := res in
    let? (body, r) := read_body ct r in
    Ok (mkBlock header body, r)).

Definition block_hash (ct : ChainTypes) (b : Block) : option Hash := header_hash ct (header b).

Definition read_untrusted_block {R} `{Reader R} (fuel : nat) (ct : ChainTypes) (future_time_limit : Z) (r : R)
    : option (result ser_error (Block * R)) :=
  let! res := read_untrusted_header fuel ct future_time_limit r in
  Some (
    let? (header, r) := res in
    let? (body, r) := read_body ct r in
    map_err (fun _ => CorruptedData) (body_validate_read ct body AsBlock) ;?
    Ok (mkBlock header body, r)).

(** *** Validation *)

Definition verify_kernel_lock_heights (b : Block) : result block_error unit :=
  for_each (fun k =>
    match features k with
    | HeightLocked _ lock_height =>
        if height (header b) <? lock_height then Err (KernelLockHeight lock_height) else Ok tt
    | _ => Ok tt
    end) (kernels (body b)).

Definition verify_nrd_kernels_for_header_version (b : Block) : result block_error unit :=
  if existsb (fun k => Features.is_nrd (features k)) (kernels (body b)) then
    if negb is_nrd_enabled then Err NRDKernelNotEnabled
    else if version (header b) <? 4 then Err NRDKernelPreHF3
    else Ok tt
  else Ok tt.

Definition total_fees (b : Block) : Z := body_fee (body b).

Definition verify_coinbase (b : Block) : result block_error unit :=
  let cb_outs := filter (fun o => output_is_coinbase o = true) (outputs (body b)) in
  let cb_kerns := filter (fun k => Features.is_coinbase (features k) = true) (kernels (body b)) in
  let over_commit := commit_value (reward (total_fees b)) in
  let? out_adjust_sum := ok_or (commit_sum (map output_commitment cb_outs) [over_commit]) SecpError in
  let? kerns_sum := ok_or (commit_sum (map excess cb_kerns) []) SecpError in
  if decide (kerns_sum = out_adjust_sum) then Ok tt else Err CoinbaseSumMismatch.

Definition block_validate_read (ct : ChainTypes) (b : Block) : result block_error unit :=
  map_err TransactionError (body_validate_read ct (body b) AsBlock) ;?
  verify_kernel_lock_heights b.

Definition block_kernel_offset (b : Block) (prev_kernel_offset : BlindingFactor)
    : result block_error BlindingFactor :=
  if decide (total_kernel_offset (header b) = prev_kernel_offset) then Ok blinding_zero
  else map_err CommittedError (sum_kernel_offsets [total_kernel_offset (header b)] [prev_kernel_offset]).

Definition block_validate (ct : ChainTypes) (b : Block) (prev_kernel_offset : BlindingFactor)
    : result block_error unit :=
  map_err TransactionError (body_validate ct (body b) AsBlock) ;?
  verify_kernel_lock_heights b ;?
  verify_nrd_kernels_for_header_version b ;?
  verify_coinbase b ;?
  let? offset := block_kernel_offset b prev_kernel_offset in
  let? _ := map_err CommittedError
    (verify_kernel_sums (inputs_committed (body b)) (outputs_committed (body b))
       (kernels_committed (body b)) header_overage offset) in
  Ok tt.

(** [Committed] for a block and the sums of the block before it. *)
Definition sums_outputs_committed (s : BlockSums) (b : Block) : list Commitment :=
  utxo_sum s :: outputs_committed (body b).
Definition sums_kernels_committed (s : BlockSums) (b : Block) : list Commitment :=
  kernel_sum s :: kernels_committed (body b).

(** *** Building blocks *)

Definition from_reward (ct : ChainTypes) (prev : BlockHeader) (txs : list Transaction) (reward_out : Output)
    (reward_kern : TxKernel) (difficulty : Difficulty) : option (result block_error Block) :=
  match aggregate txs with
  | Err e => Some (Err (TransactionError e))
  | Ok tx =>
      let agg := with_kernel (with_output (Transaction.body tx) reward_out) reward_kern in
      match sum_kernel_offsets [offset tx; total_kernel_offset prev] [] with
      | Err e => Some (Err (CommittedError e))
      | Ok total_kernel_offset =>
          let height := add64 (height prev) 1 in
          match from_timestamp (utc_now / 10 ^ 9) with
          | None => Some (Err OtherError)
          | Some ts =>
              let! prev_hash := header_hash ct prev in
              let d := default_header ct in
              let p := default_pow ct in
              Some (Ok (mkBlock
                (mkHeader (header_version ct height) height prev_hash (prev_root d) ts (output_root d)
                   (range_proof_root d) (kernel_root d) total_kernel_offset (output_mmr_size d)
                   (kernel_mmr_size d)
                   (mkProofOfWork (Diff.add difficulty (total_difficulty (pow prev)))
                      (pow_secondary_scaling p) (pow_nonce p) (pow_proof p)))
                agg))
          end
      end
  end.

Definition with_reward (b : Block) (reward_out : Output) (reward_kern : TxKernel) : Block :=
  mkBlock (header b) (mkBody (inputs (body b)) [reward_out] [reward_kern]).

(** *** Compact blocks *)

(** [short_id] of something with hash [h], for a block and a nonce. *)
Definition short_id (h block_hash : Hash) (nonce : Z) : ShortId :=
  let hash_with_nonce := blake2b (hash_bytes block_hash ++ be 8 nonce) in
  let k0 := le_value (take 8 (hash_bytes hash_with_nonce)) in
  let k1 := le_value (take 8 (drop 8 (hash_bytes hash_with_nonce))) in
  let res := sip_hasher24 k0 k1 (hash_bytes h) in
  short_id_from_bytes (take 6 (le 8 res)).

Definition compact_sort (b : CompactBlockBody) : CompactBlockBody :=
  mkCompactBody (sort_by_key output_key (out_full b)) (sort_by_key hash_key (kern_full b))
    (sort_by_key hash_key (kern_ids b)).

Definition compact_verify_sorted (b : CompactBlockBody) : result block_error unit :=
  map_err BlockSerialization
    (verify_sorted_and_unique (key_gt output_key) (key_eqb output_key) (out_full b) ;?
     verify_sorted_and_unique (key_gt hash_key) (key_eqb hash_key) (kern_full b) ;?
     verify_sorted_and_unique (key_gt hash_key) (key_eqb hash_key) (kern_ids b)).

Definition compact_init (out_full : list Output) (kern_full : list TxKernel) (kern_ids : list ShortId)
    (verify_sorted : bool) : result block_error CompactBlockBody :=
  let body := mkCompactBody out_full kern_full kern_ids in
  if verify_sorted then compact_verify_sorted body ;? Ok body else Ok (compact_sort body).

Definition compact_validate_read (b : CompactBlockBody) : result block_error unit := compact_verify_sorted b.

#[export] Instance compact_body_readable : Readable CompactBlockBody := fun R _ r =>
  let? (out_full_len, r) := read_u64 r in
  let? (kern_full_len, r) := read_u64 r in
  let? (kern_id_len, r) := read_u64 r in
  let? (out_full, r) := read_multi r out_full_len in
  let? (kern_full, r) := read_multi r kern_full_len in
  let? (kern_ids, r) := read_multi r kern_id_len in
  let? body := map_err (fun _ => CorruptedData) (compact_init out_full kern_full kern_ids true) in
  Ok (body, r).

#[export] Instance compact_body_writeable : Writeable CompactBlockBody := fun w b =>
  write_u64 w (Z.of_nat (length (out_full b))) +w+ write_u64 w (Z.of_nat (length (kern_full b))) +w+
  write_u64 w (Z.of_nat (length (kern_ids b))) +w+
  write_vec w (out_full b) +w+ write_vec w (kern_full b) +w+ write_vec w (kern_ids b).

Definition write_compact (ct : ChainTypes) (w : Writer) (cb : CompactBlock) : option (result ser_error bytes) :=
  let! h := write_header ct w (cb_header cb) in
  Some (h +w+ (if negb (is_hash_mode (serialization_mode w))
               then write_u64 w (cb_nonce cb) +w+ write w (cb_body cb) else Ok [])).

Definition read_compact {R} `{Reader R} (ct : ChainTypes) (r : R) : option (result ser_error (CompactBlock * R)) :=
  let! res := read_block_header ct r in
  Some (
    let? (header, r) := res in
    let? (nonce, r) := read_u64 r in
    let? (body, r) := read r in
    Ok (mkCompact header nonce body, r)).

Definition read_untrusted_compact {R} `{Reader R} (fuel : nat) (ct : ChainTypes) (future_time_limit : Z) (r : R)
    : option (result ser_error (CompactBlock * R)) :=
  let! res := read_untrusted_header fuel ct future_time_limit r in
  Some (
    let? (header, r) := res in
    let? (nonce, r) := read_u64 r in
    let? (body, r) := read r in
    map_err (fun _ => CorruptedData) (compact_validate_read body) ;?
    Ok (mkCompact header nonce body, r)).

(** [From<Block> for CompactBlock], for the nonce that is drawn. *)
Definition compact_of_block (ct : ChainTypes) (nonce : Z) (b : Block) : option CompactBlock :=
  let! block_hash := header_hash ct (header b) in
  let out_full := filter (fun o => output_is_coinbase o = true) (outputs (body b)) in
  let kern_full := filter (fun k => Features.is_coinbase (features k) = true) (kernels (body b)) in
  let kern_ids := map (fun k => short_id (hash k) block_hash nonce)
    (filter (fun k => Features.is_coinbase (features k) = false) (kernels (body b))) in
  Some (mkCompact (header b) nonce (compact_sort (mkCompactBody out_full kern_full kern_ids))).

Definition hydrate_from (cb : CompactBlock) (txs : list Transaction) : result block_error Block :=
  let ins := concat (map (fun tx => inputs_to_wrappers (inputs (Transaction.body tx))) txs) in
  let outs := concat (map (fun tx => outputs (Transaction.body tx)) txs) in
  let kers := concat (map (fun tx => kernels (Transaction.body tx)) txs) in
  let? (ins, outs, _, _) := map_err TransactionError
    (cut_through (fun c => commit_key (cw_commit c)) hash_key
       (fun o => commit_key (output_commitment o)) output_key ins outs) in
  let outs := outs ++ out_full (cb_body cb) in
  let kers := kers ++ kern_full (cb_body cb) in
  let? body := map_err TransactionError (body_init (CommitOnly ins) outs kers false) in
  Ok (mkBlock (cb_header cb) body).

End block.

(** * Lemmas *)

(** ** What a successful read found *)

Lemma be_mod n x : be n (x mod 256 ^ Z.of_nat n) = be n x.
Proof.
  revert x. induction n as [|n IH]; intros x; [done|]. cbn [be].
  pose proof (pow256_pos n). rewrite pow256_S. f_equal.
  - rewrite (Z.mul_comm 256), Z.rem_mul_r by lia.
    rewrite Z.add_comm, Z.mul_comm, Z.div_add_l, (Z.div_small (x mod _)), Z.add_0_r
      by (try apply Z.mod_pos_bound; lia).
    apply Z.mod_mod. lia.
  - rewrite <- IH, <- (IH x). f_equal. apply Z.mod_mod_divide. by exists 256.
Qed.

Lemma be_value_cons b bs : be_value (b :: bs) = b * 256 ^ Z.of_nat (length bs) + be_value bs.
Proof. unfold be_value at 1. cbn [fold_left]. rewrite be_value_app. lia. Qed.

Lemma be_value_bound bs : Forall (in_range 8) bs -> 0 <= be_value bs < 256 ^ Z.of_nat (length bs).
Proof.
  induction 1 as [|b bs Hb _ IH]; [cbn; lia|]. rewrite be_value_cons. cbn [length]. rewrite pow256_S.
  unfold in_range in Hb. change (2 ^ 8) with 256 in Hb. nia.
Qed.

Lemma be_be_value bs : Forall (in_range 8) bs -> be (length bs) (be_value bs) = bs.
Proof.
  induction 1 as [|b bs Hb Hbs IH]; [done|]. pose proof (be_value_bound bs Hbs) as Hv.
  unfold in_range in Hb. change (2 ^ 8) with 256 in Hb. cbn [length be]. rewrite be_value_cons. f_equal.
  - rewrite Z.div_add_l, (Z.div_small (be_value bs)), Z.add_0_r by lia. apply Z.mod_small. lia.
  - rewrite <- be_mod, Z.add_comm, Z_mod_plus_full, be_mod. exact IH.
Qed.

Lemma of_to_signed x : u64 x -> of_signed 64 (to_signed 64 x) = x /\ - 2 ^ 63 <= to_signed 64 x < 2 ^ 63.
Proof.
  unfold of_signed, to_signed, u64, in_range. intros Hx. destruct (Z.ltb_spec x (2 ^ (64 - 1))).
  - split; [by apply Z.mod_small|lia].
  - split; [|lia]. rewrite <- (Z.mod_add _ 1), Z.mod_small by lia. lia.
Qed.

Opaque be.

Section reading.
Context {R : Type} {RD : Reader R} {RL : ReaderLaws R}.
Implicit Types (r : R).

(** The reader has moved over [bs]. *)
Definition consumed (bs : bytes) r r' : Prop :=
  input r = bs ++ input r' /\ advanced input r r' (input r').

Lemma consumed_trans b1 b2 r1 r2 r3 : consumed b1 r1 r2 -> consumed b2 r2 r3 -> consumed (b1 ++ b2) r1 r3.
Proof.
  intros [E1 A1] [E2 A2]. split; [by rewrite E1, E2, app_assoc|]. eapply advanced_trans; [exact A1|exact A2].
Qed.

Lemma consumed_bytes bs r r' : consumed bs r r' -> Forall (in_range 8) (input r) ->
  Forall (in_range 8) bs /\ Forall (in_range 8) (input r').
Proof. intros [-> _]. by rewrite Forall_app. Qed.

Lemma reads_uint_inv k rd dec r x r' :
  reads_uint input k rd dec -> Forall (in_range 8) (input r) -> rd r = Ok (x, r') ->
  exists v, 0 <= v < 256 ^ Z.of_nat k /\ x = dec v /\ consumed (be k v) r r'.
Proof.
  intros [Hrd Heof] Hb E. destruct (decide (length (input r) < k)%nat) as [Hs|Hs].
  { by rewrite (Heof r Hs) in E. }
  assert (Hlen : length (take k (input r)) = k) by (rewrite length_take; lia).
  destruct (Hrd r (take k (input r)) (drop k (input r)) ltac:(by rewrite take_drop) Hlen) as (r1 & E1 & Ha).
  rewrite E1 in E. injection E as <- <-. exists (be_value (take k (input r))).
  pose proof (be_value_bound (take k (input r)) ltac:(by apply Forall_take)) as Hv. rewrite Hlen in Hv.
  split; [done|]. split; [done|]. destruct Ha as (Hin & Ha). split; [|by rewrite Hin].
  rewrite Hin. pose proof (be_be_value (take k (input r)) ltac:(by apply Forall_take)) as Hbe.
  rewrite Hlen in Hbe. by rewrite Hbe, take_drop.
Qed.

Lemma read_u8_inv r x r' : Forall (in_range 8) (input r) -> read_u8 r = Ok (x, r') ->
  in_range 8 x /\ consumed [x] r r'.
Proof.
  intros Hb E. destruct (reads_uint_inv _ _ _ _ _ _ law_u8 Hb E) as (v & Hv & -> & Hc).
  split; [exact Hv|]. destruct (consumed_bytes _ _ _ Hc Hb) as [Hbv _].
  pose proof (be_value_be_small 1 v Hv) as Ev. pose proof (be_length 1 v) as El.
  destruct (be 1 v) as [|b [|]]; try done. unfold be_value in Ev. simpl in Ev. by rewrite <- Ev.
Qed.

Lemma read_u16_inv r x r' : Forall (in_range 8) (input r) -> read_u16 r = Ok (x, r') ->
  in_range 16 x /\ consumed (be 2 x) r r'.
Proof. intros Hb E. destruct (reads_uint_inv _ _ _ _ _ _ law_u16 Hb E) as (v & Hv & -> & Hc). done. Qed.

Lemma read_u32_inv r x r' : Forall (in_range 8) (input r) -> read_u32 r = Ok (x, r') ->
  u32 x /\ consumed (be 4 x) r r'.
Proof. intros Hb E. destruct (reads_uint_inv _ _ _ _ _ _ law_u32 Hb E) as (v & Hv & -> & Hc). done. Qed.

Lemma read_u64_inv r x r' : Forall (in_range 8) (input r) -> read_u64 r = Ok (x, r') ->
  u64 x /\ consumed (be 8 x) r r'.
Proof. intros Hb E. destruct (reads_uint_inv _ _ _ _ _ _ law_u64 Hb E) as (v & Hv & -> & Hc). done. Qed.

Lemma read_i64_inv r x r' : Forall (in_range 8) (input r) -> read_i64 r = Ok (x, r') ->
  - 2 ^ 63 <= x < 2 ^ 63 /\ consumed (be 8 (of_signed 64 x)) r r'.
Proof.
  intros Hb E. destruct (reads_uint_inv _ _ _ _ _ _ law_i64 Hb E) as (v & Hv & -> & Hc).
  destruct (of_to_signed v Hv) as [-> ?]. done.
Qed.

Lemma read_fixed_inv r n bs r' : 0 <= n <= MAX_READ_SIZE -> read_fixed_bytes r n = Ok (bs, r') ->
  Z.of_nat (length bs) = n /\ consumed bs r r'.
Proof.
  intros Hn E. destruct (Z.lt_ge_cases (Z.of_nat (length (input r))) n) as [Hs|Hs].
  { rewrite law_fixed_eof in E by (try done; apply law_limit; lia). done. }
  destruct (law_fixed r n (take (Z.to_nat n) (input r)) (drop (Z.to_nat n) (input r))) as (r1 & E1 & Ha);
    [apply law_limit; lia|by rewrite take_drop|rewrite length_take; lia|].
  rewrite E1 in E. injection E as <- <-. split; [rewrite length_take; lia|].
  destruct Ha as (Hin & Ha). split; [by rewrite Hin, take_drop|by rewrite Hin].
Qed.

Lemma read_hash_inv r (h : Hash) r' : read r = Ok (h, r') ->
  Z.of_nat (length (hash_bytes h)) = HASH_SIZE /\ consumed (hash_bytes h) r r'.
Proof.
  unfold read, hash_readable. intros ([a r1] & E & E')%rbind_Ok. injection E' as <- <-.
  by apply read_fixed_inv in E.
Qed.

Lemma read_blinding_inv r (b : BlindingFactor) r' : read r = Ok (b, r') ->
  Z.of_nat (length (blinding_bytes b)) = SECRET_KEY_SIZE /\ consumed (blinding_bytes b) r r'.
Proof.
  unfold read, blinding_readable. intros ([a r1] & E & E')%rbind_Ok. injection E' as <- <-.
  by apply read_fixed_inv in E.
Qed.

Lemma read_hash_ok r h tl : Z.of_nat (length (hash_bytes h)) = HASH_SIZE -> input r = hash_bytes h ++ tl ->
  exists r', read r = Ok (h, r') /\ advanced input r r' tl.
Proof.
  intros Hl Hin. unfold read, hash_readable. read_step (read_fixed_ok r HASH_SIZE (hash_bytes h) tl Hl); [done|done|].
  destruct h. by eexists.
Qed.

Lemma read_blinding_ok r b tl : Z.of_nat (length (blinding_bytes b)) = SECRET_KEY_SIZE ->
  input r = blinding_bytes b ++ tl -> exists r', read r = Ok (b, r') /\ advanced input r r' tl.
Proof.
  intros Hl Hin. unfold read, blinding_readable.
  read_step (read_fixed_ok r SECRET_KEY_SIZE (blinding_bytes b) tl Hl); [done|done|]. destruct b. by eexists.
Qed.

Lemma read_i64_ok r x tl : - 2 ^ 63 <= x < 2 ^ 63 -> input r = be 8 (of_signed 64 x) ++ tl ->
  exists r', read_i64 r = Ok (x, r') /\ advanced input r r' tl.
Proof. intros Hx. apply (read_signed_ok 64 8); [lia|done|apply law_i64|exact Hx]. Qed.
End reading.

(** ** The encoding of headers *)

Definition proof_bytes (ct : ChainTypes) (p : PowProof) : bytes :=
  edge_bits p :: le (Z.to_nat (pack_len ct (edge_bits p))) (pack_value (edge_bits p) (nonces p)).

Definition pow_prefix (p : ProofOfWork) : bytes :=
  be 8 (num (total_difficulty p)) ++ be 4 (pow_secondary_scaling p) ++ be 8 (pow_nonce p).

Definition header_bytes (h : BlockHeader) : bytes :=
  be 2 (version h) ++ be 8 (height h) ++ be 8 (of_signed 64 (timestamp h)) ++
  hash_bytes (prev_hash h) ++ hash_bytes (prev_root h) ++ hash_bytes (output_root h) ++
  hash_bytes (range_proof_root h) ++ hash_bytes (kernel_root h) ++
  blinding_bytes (total_kernel_offset h) ++ be 8 (output_mmr_size h) ++ be 8 (kernel_mmr_size h).

Definition pow_fields_ok (p : ProofOfWork) : Prop :=
  u64 (num (total_difficulty p)) /\ u32 (pow_secondary_scaling p) /\ u64 (pow_nonce p).

Definition hash_len (h : Hash) : Prop := Z.of_nat (length (hash_bytes h)) = HASH_SIZE.

Definition header_fields_ok (h : BlockHeader) : Prop :=
  in_range 16 (version h) /\ u64 (height h) /\ - 2 ^ 63 <= timestamp h < 2 ^ 63 /\
  hash_len (prev_hash h) /\ hash_len (prev_root h) /\ hash_len (output_root h) /\
  hash_len (range_proof_root h) /\ hash_len (kernel_root h) /\
  Z.of_nat (length (blinding_bytes (total_kernel_offset h))) = SECRET_KEY_SIZE /\
  u64 (output_mmr_size h) /\ u64 (kernel_mmr_size h).

(** The headers that can be written and read. *)
Definition header_ok `{Chrono} (ct : ChainTypes) (h : BlockHeader) : Prop :=
  header_fields_ok h /\ date_min <= timestamp h <= date_max /\
  pow_fields_ok (pow h) /\ proof_ok ct (pow_proof (pow h)).

Definition set_pow (h : BlockHeader) (p : ProofOfWork) : BlockHeader :=
  mkHeader (version h) (height h) (prev_hash h) (prev_root h) (timestamp h) (output_root h)
    (range_proof_root h) (kernel_root h) (total_kernel_offset h) (output_mmr_size h) (kernel_mmr_size h) p.

Lemma write_pow_ok ct v p : proof_ok ct (pow_proof p) ->
  write_pow ct (mkWriter SerFull v) p = Some (Ok (pow_prefix p ++ proof_bytes ct (pow_proof p))).
Proof.
  intros Hok. unfold write_pow. rewrite write_proof_ok by done. bind_some.
  unfold write_pre_pow, write_u64, write_u32, write_fixed_bytes, wseq, pow_prefix, proof_bytes, Diff.to_num.
  cbn [rbind serialization_mode is_hash_mode]. by rewrite <- !app_assoc.
Qed.

Lemma write_header_pre_pow_ok w h : write_header_pre_pow w h = Ok (header_bytes h).
Proof. reflexivity. Qed.

Lemma write_header_ok `{Chrono} ct v h : header_ok ct h ->
  write_header ct (mkWriter SerFull v) h =
  Some (Ok (header_bytes h ++ pow_prefix (pow h) ++ proof_bytes ct (pow_proof (pow h)))).
Proof. intros (_ & _ & _ & Hp). unfold write_header. rewrite write_pow_ok by done. reflexivity. Qed.

Lemma pre_pow_ok h : pre_pow h = Ok (header_bytes h ++ pow_prefix (pow h)).
Proof. reflexivity. Qed.

(** Take a read apart that is known to have succeeded. *)
Ltac inv_next H lem :=
  let x := fresh "x" in let r := fresh "r" in let E := fresh "E" in let Hx := fresh "Hx" in
  let Hc := fresh "Hc" in let Hb := fresh "Hb" in
  apply rbind_Ok in H as ([x r] & E & H);
  apply lem in E as [Hx Hc]; [|eassumption..];
  match goal with B : Forall (in_range 8) (input _) |- _ =>
    pose proof (proj2 (consumed_bytes _ _ _ Hc B)) as Hb; clear B end.

Ltac consumed_chain := first [eassumption | eapply consumed_trans; [eassumption|consumed_chain]].

Section header_reading.
Context {R : Type} {RD : Reader R} {RL : ReaderLaws R}.
Implicit Types (r : R).

Lemma read_header_fields_ok r h tl : header_fields_ok h -> input r = header_bytes h ++ tl ->
  exists r', read_header_fields r = Ok (set_pow h, r') /\ advanced input r r' tl.
Proof.
  intros (? & ? & ? & ? & ? & ? & ? & ? & ? & ? & ?) Hin. unfold header_bytes in Hin.
  rewrite <- !app_assoc in Hin. unfold read_header_fields.
  read_next read_u16_ok; [done|]. read_next read_u64_ok; [done|]. read_next read_i64_ok; [done|].
  do 5 (read_next read_hash_ok; [done|]). read_next read_blinding_ok; [done|].
  do 2 (read_next read_u64_ok; [done|]).
  eexists. split; [reflexivity|adv_chain].
Qed.

Lemma read_header_fields_inv r mk r' :
  Forall (in_range 8) (input r) -> read_header_fields r = Ok (mk, r') ->
  exists h, mk = set_pow h /\ header_fields_ok h /\ consumed (header_bytes h) r r'.
Proof.
  unfold read_header_fields. intros Hb H.
  inv_next H read_u16_inv. inv_next H read_u64_inv. inv_next H read_i64_inv.
  do 5 (inv_next H read_hash_inv). inv_next H read_blinding_inv. do 2 (inv_next H read_u64_inv).
  injection H as <- <-.
  eexists (mkHeader x x0 x2 x3 x1 x4 x5 x6 x7 x8 x9 (mkProofOfWork Diff.zero 0 0 (mkPow 0 []))).
  split; [reflexivity|]. split; [done|]. unfold header_bytes. cbn [version height timestamp prev_hash prev_root
    output_root range_proof_root kernel_root total_kernel_offset output_mmr_size kernel_mmr_size].
  consumed_chain.
Qed.

Lemma read_pow_ok ct r p tl :
  deserialization_mode r = DeFull -> Forall (in_range 8) (input r) ->
  pow_fields_ok p -> proof_ok ct (pow_proof p) ->
  input r = pow_prefix p ++ proof_bytes ct (pow_proof p) ++ tl ->
  exists r', read_pow ct r = Some (Ok (p, r')) /\ advanced input r r' tl.
Proof.
  intros Hm Hb (? & ? & ?) Hok Hin. unfold pow_prefix in Hin. rewrite <- !app_assoc in Hin. unfold read_pow.
  read_next read_u64_ok; [done|]. read_next read_u32_ok; [done|]. read_next read_u64_ok; [done|].
  destruct (read_written_proof ct local r2 (pow_proof p) (proof_bytes ct (pow_proof p)) tl) as (r3 & E & Ha3);
    [adv_done|done|by apply write_proof_ok|done|].
  rewrite E. bind_some. cbn [rbind]. eexists. split; [|adv_chain].
  by destruct p as [[d] s n p].
Qed.

Lemma read_pow_inv ct r p r' :
  deserialization_mode r = DeFull -> Forall (in_range 8) (input r) -> read_pow ct r = Some (Ok (p, r')) ->
  pow_fields_ok p /\ proof_ok ct (pow_proof p) /\ consumed (pow_prefix p ++ proof_bytes ct (pow_proof p)) r r'.
Proof.
  unfold read_pow. intros Hm Hb H.
  destruct (let? (total_difficulty, r) := read_u64 r in _) as [[[[d s] n] r3]|] eqn:H0; [|done].
  inv_next H0 read_u64_inv. inv_next H0 read_u32_inv. inv_next H0 read_u64_inv. injection H0 as <- <- <- <-.
  assert (Hm3 : deserialization_mode r2 = DeFull) by (unfold consumed in *; adv_done).
  match goal with B : Forall (in_range 8) (input r2) |- _ =>
    destruct (read_proof_iff ct local R RD RL r2 B Hm3) as (_ & Hadv & Hiff) end.
  destruct (read_proof ct r2) as [[[q r4]|]|] eqn:E; [|done..]. cbn [mbind option_bind rbind] in H.
  injection H as <- <-. specialize (Hadv _ _ eq_refl).
  destruct (proj1 (Hiff q (input r4)) (ex_intro _ r4 (conj eq_refl Hadv))) as (Hok & bs & Ew & Hin).
  rewrite write_proof_ok in Ew by done. injection Ew as <-.
  split; [done|]. split; [done|]. unfold pow_prefix. rewrite <- !app_assoc.
  eapply consumed_trans; [eassumption|]. eapply consumed_trans; [eassumption|].
  eapply consumed_trans; [eassumption|]. by split.
Qed.

Lemma read_pow_no_panic ct r :
  deserialization_mode r = DeFull -> Forall (in_range 8) (input r) -> read_pow ct r <> None.
Proof.
  unfold read_pow. intros Hm Hb.
  destruct (let? (total_difficulty, r) := read_u64 r in _) as [[[[d s] n] r3]|] eqn:H0; [|done].
  inv_next H0 read_u64_inv. inv_next H0 read_u32_inv. inv_next H0 read_u64_inv. injection H0 as <- <- <- <-.
  match goal with B : Forall (in_range 8) (input ?r3) |- context [read_proof ct ?r3] =>
    destruct (read_proof_iff ct local R RD RL r3 B) as (Hn & _); [unfold consumed in *; adv_done|];
    by destruct (read_proof ct r3) end.
Qed.
End header_reading.

Definition header_encoding (ct : ChainTypes) (h : BlockHeader) : bytes :=
  header_bytes h ++ pow_prefix (pow h) ++ proof_bytes ct (pow_proof (pow h)).

Section header_codec.
Context {CH : Chrono} {CL : ChronoLaws}.
Context {R : Type} {RD : Reader R} {RL : ReaderLaws R}.
Implicit Types (r : R).

Lemma read_header_ok ct r h tl :
  deserialization_mode r = DeFull -> Forall (in_range 8) (input r) -> header_ok ct h ->
  input r = header_encoding ct h ++ tl ->
  exists r', read_block_header ct r = Some (Ok (h, r')) /\ advanced input r r' tl.
Proof.
  intros Hm Hb (Hf & Hd & Hp & Hok) Hin. unfold header_encoding in Hin. rewrite <- !app_assoc in Hin.
  unfold read_block_header. destruct (read_header_fields_ok r h _ Hf Hin) as (r1 & -> & Ha1).
  destruct (read_pow_ok ct r1 (pow h) tl) as (r2 & -> & Ha2); [adv_done| |done|done|by destruct Ha1|].
  { destruct Ha1 as (-> & _). rewrite Hin in Hb. by apply Forall_app in Hb as [_ ?]. }
  bind_some. cbn [rbind]. eexists. split; [|eapply advanced_trans; [exact Ha1|exact Ha2]].
  change (timestamp (set_pow h (pow h))) with (timestamp h).
  destruct (Z.ltb_spec date_max (timestamp h)); [lia|]. destruct (Z.ltb_spec (timestamp h) date_min); [lia|].
  cbn [orb]. rewrite from_timestamp_in by lia. by destruct h.
Qed.

Lemma read_header_inv ct r h r' :
  deserialization_mode r = DeFull -> Forall (in_range 8) (input r) ->
  read_block_header ct r = Some (Ok (h, r')) -> header_ok ct h /\ consumed (header_encoding ct h) r r'.
Proof.
  unfold read_block_header. intros Hm Hb H. destruct (read_header_fields r) as [[mk r1]|] eqn:E1; [|done].
  apply read_header_fields_inv in E1 as (h0 & -> & Hf & Hc1); [|done].
  destruct (read_pow ct r1) as [[[p r2]|]|] eqn:E2; [|done..]. cbn [mbind option_bind rbind] in H.
  destruct (consumed_bytes _ _ _ Hc1 Hb) as [_ Hb1].
  apply read_pow_inv in E2 as (Hp & Hok & Hc2); [|destruct Hc1; adv_done|done].
  cbv zeta in H. destruct (Z.ltb_spec date_max (timestamp (set_pow h0 p))); [done|].
  destruct (Z.ltb_spec (timestamp (set_pow h0 p)) date_min); [done|]. cbn [orb] in H.
  rewrite from_timestamp_in in H by lia. injection H as <- <-.
  split; [by split_and!; try apply Hf|]. unfold header_encoding. eapply consumed_trans; [exact Hc1|exact Hc2].
Qed.

Lemma read_header_no_panic ct r :
  deserialization_mode r = DeFull -> Forall (in_range 8) (input r) -> read_block_header ct r <> None.
Proof.
  unfold read_block_header. intros Hm Hb. destruct (read_header_fields r) as [[mk r1]|] eqn:E1; [|done].
  apply read_header_fields_inv in E1 as (h0 & -> & Hf & Hc1); [|done].
  destruct (consumed_bytes _ _ _ Hc1 Hb) as [_ Hb1].
  destruct (read_pow ct r1) eqn:E2; [done|].
  exfalso. by apply (read_pow_no_panic ct r1); [unfold consumed in *; adv_done|..].
Qed.
End header_codec.

(** * Properties *)

(** The encoding of headers is exact and canonical: on any bytes a lawful
    reader never panics, and it accepts a header and stops before [tl] exactly
    when every field is in its range, the time is one that a date can have, the
    proof is well formed, and the bytes consumed are the ones that writing the
    header produces. *)
Theorem header_canonical {CR : Crypto} {CH : Chrono} {CL : ChronoLaws} ct v R (RD : Reader R) (RL : ReaderLaws R) (r : R) :
  Forall (in_range 8) (input r) -> deserialization_mode r = DeFull ->
  read_block_header ct r <> None /\
  forall h tl,
    (exists r', read_block_header ct r = Some (Ok (h, r')) /\ advanced input r r' tl) <->
    header_ok ct h /\ exists bs, write_header ct (mkWriter SerFull v) h = Some (Ok bs) /\ input r = bs ++ tl.
Proof.
  intros Hb Hm. split; [by apply read_header_no_panic|]. intros h tl. split.
  - intros (r' & E & Ha). apply read_header_inv in E as (Hok & Hin & _); [|done..].
    split; [done|]. eexists. split; [by apply write_header_ok|]. destruct Ha as (Htl & _). by rewrite Hin, Htl.
  - intros (Hok & bs & Ew & Hin). rewrite write_header_ok in Ew by done. injection Ew as <-.
    by apply read_header_ok.
Qed.

(** C29. The bytes that a proof of work signs determine the header: two
    well-formed headers with the same [pre_pow] agree in every field but the
    proof itself. *)
Theorem pre_pow_binding {CR : Crypto} {CH : Chrono} ct h1 h2 :
  header_ok ct h1 -> header_ok ct h2 -> pre_pow h1 = pre_pow h2 ->
  let p := pow h2 in
  h1 = set_pow h2 (mkProofOfWork (total_difficulty p) (pow_secondary_scaling p) (pow_nonce p) (pow_proof (pow h1))).
Proof.
  rewrite !pre_pow_ok. intros (Hf1 & _ & Hp1 & _) (Hf2 & _ & Hp2 & _) E.
  apply (f_equal (fun x => match x with Ok bs => bs | Err _ => [] end)) in E. cbv beta iota in E.
  set (src h := BinReader.mk (header_bytes h ++ pow_prefix (pow h)) local DeFull).
  destruct (read_header_fields_ok (RL := binreader_laws) (src h1) h1 (pow_prefix (pow h1)) Hf1 eq_refl) as (r1 & E1 & Ha1).
  destruct (read_header_fields_ok (RL := binreader_laws) (src h2) h2 (pow_prefix (pow h2)) Hf2 eq_refl) as (r2 & E2 & Ha2).
  assert (Es : src h1 = src h2) by (unfold src; by rewrite E). rewrite Es, E2 in E1. injection E1 as Eh Er.
  assert (Epow : pow_prefix (pow h1) = pow_prefix (pow h2)).
  { destruct Ha1 as (<- & _), Ha2 as (<- & _). by rewrite Er. }
  unfold pow_prefix in Epow.
  apply app_inj_1 in Epow as [Ed Epow]; [|by rewrite !be_length].
  apply app_inj_1 in Epow as [Es' En]; [|by rewrite !be_length].
  destruct Hp1 as (? & ? & ?), Hp2 as (? & ? & ?).
  apply be_inj in Ed, Es', En; try done.
  destruct h1 as [? ? ? ? ? ? ? ? ? ? ? [[d1] s1 n1 p1]], h2 as [? ? ? ? ? ? ? ? ? ? ? [[d2] s2 n2 p2]].
  cbn in *. subst. apply (f_equal (fun f => f (mkProofOfWork (mkDifficulty d2) s2 n2 p1))) in Eh.
  symmetry. exact Eh.
Qed.

(** * Witnesses *)

Definition sample_chrono : Chrono := {|
  date_min := - 8334632937600;
  date_max := 8210266790400;
  from_timestamp := Some;
  utc_now := 1700000000 * 10 ^ 9;
|}.

Lemma sample_chrono_laws : ChronoLaws (CH := sample_chrono).
Proof. constructor; cbn; [lia|done]. Qed.

Definition sample_header (nonces : list Z) : BlockHeader :=
  mkHeader 2 3 (mkHash (repeat 1 32)) (mkHash (repeat 2 32)) 1600000000 (mkHash (repeat 3 32))
    (mkHash (repeat 4 32)) (mkHash (repeat 5 32)) (mkBlinding (repeat 6 32)) 7 4
    (mkProofOfWork (mkDifficulty 1000) 20 15 (mkPow 10 nonces)).

Lemma header_canonical_witness :
  exists r', read_block_header (H := sample_chrono) AutomatedTesting
      (BinReader.mk (header_encoding AutomatedTesting (sample_header [1; 2; 3; 4; 5; 6; 7; 8]) ++ [9]) (mkVersion 1) DeFull)
    = Some (Ok (sample_header [1; 2; 3; 4; 5; 6; 7; 8], r')) /\ BinReader.source r' = [9].
Proof.
  destruct (header_canonical (CR := sample_crypto) (CL := sample_chrono_laws) AutomatedTesting (mkVersion 1)
    BinReader.t BinReader.reader binreader_laws
    (BinReader.mk (header_encoding AutomatedTesting (sample_header [1; 2; 3; 4; 5; 6; 7; 8]) ++ [9]) (mkVersion 1) DeFull))
    as [_ H].
  - vm_compute. repeat constructor; congruence.
  - reflexivity.
  - destruct (proj2 (H (sample_header [1; 2; 3; 4; 5; 6; 7; 8]) [9])) as (r' & E & Ha & _).
    + split; [split_and!; vm_compute; try congruence; repeat constructor; congruence|].
      eexists. split; vm_compute; reflexivity.
    + exists r'. split; [exact E|exact Ha].
Defined.

Lemma pre_pow_binding_witness :
  let h1 := sample_header [1; 2; 3; 4; 5; 6; 7; 8] in
  let h2 := sample_header [1; 2; 3; 4; 5; 6; 7; 9] in
  h1 = set_pow h2 (mkProofOfWork (mkDifficulty 1000) 20 15 (pow_proof (pow h1))).
Proof.
  apply (pre_pow_binding (CR := sample_crypto) (CH := sample_chrono) AutomatedTesting);
    [split_and!; vm_compute; try congruence; repeat constructor; congruence..|reflexivity].
Defined.
