(* ===== verification/Pedersen.v ===== *)
(** What kernel sums mean.

    The points of the curve form a cyclic group, so a commitment stands for a
    number modulo the order of the group, its discrete logarithm; nobody can
    compute it, but it exists, and the documented behaviour of the secp256k1
    library can be stated with it. [Pedersen] collects those laws, and the
    lemmas derive the equation that [verify_kernel_sums] checks. *)

From Stdlib Require Import ZArith Lia Setoid Morphisms.
From stdpp Require Import base numbers option sorting list.
From S2P Require Import Prelude Consensus Ser Kernel Transaction.
Open Scope Z_scope.

(** ** Congruence *)

Definition cong (n a b : Z) : Prop := (n | a - b).

#[export] Instance cong_equiv n : Equivalence (cong n).
Proof.
  unfold cong. split.
  - intros a. exists 0. lia.
  - intros a b [k E]. exists (- k). lia.
  - intros a b c [k E] [l E']. exists (k + l). lia.
Qed.

#[export] Instance cong_add n : Proper (cong n ==> cong n ==> cong n) Z.add.
Proof. unfold cong. intros a a' [k E] b b' [l E']. exists (k + l). lia. Qed.

#[export] Instance cong_sub n : Proper (cong n ==> cong n ==> cong n) Z.sub.
Proof. unfold cong. intros a a' [k E] b b' [l E']. exists (k - l). lia. Qed.

#[export] Instance cong_opp n : Proper (cong n ==> cong n) Z.opp.
Proof. unfold cong. intros a a' [k E]. exists (- k). lia. Qed.

Lemma cong_eq n a b : a = b -> cong n a b.
Proof. intros ->. reflexivity. Qed.

Lemma cong_mod n a : n <> 0 -> cong n (a mod n) a.
Proof. intros Hn. exists (- (a / n)). pose proof (Z.div_mod a n Hn). lia. Qed.

(** ** The library *)

Definition sum_of {A} (f : A -> Z) (l : list A) : Z := sumZ (map f l).

Class Pedersen {CR : Crypto} := {
  (** The order of the group, and the discrete logarithms of a commitment, of
      the generator for values and of the point for a blinding factor. *)
  order : Z;
  dlog : Commitment -> Z;
  value_base : Z;
  scalar : BlindingFactor -> Z;
}.

Infix "==" := (cong order) (at level 70, no associativity) : grin_scope.
Open Scope grin_scope.

Class PedersenLaws {CR : Crypto} {PE : Pedersen} := {
  dlog_zero : dlog commit_to_zero_value == 0;
  scalar_zero : scalar blinding_zero == 0;
  commit_sum_law p n c : commit_sum p n = Some c -> dlog c == sum_of dlog p - sum_of dlog n;
  commit_value_law v : u64 v -> dlog (commit_value v) == v * value_base;
  commit_blind_law b c : commit_blind b = Some c -> dlog c == scalar b;
  secret_key_law b k : secret_key b = Some k -> k == scalar b;
  blind_sum_law p n b : blind_sum p n = Some b -> scalar b == sumZ p - sumZ n;
}.

Section sums.
Context {CR : Crypto} {PE : Pedersen} {PL : PedersenLaws}.

Lemma sum_of_app {A} (f : A -> Z) l k : sum_of f (l ++ k) = sum_of f l + sum_of f k.
Proof. unfold sum_of. by rewrite map_app, sumZ_app. Qed.

Lemma sum_of_cons {A} (f : A -> Z) x l : sum_of f (x :: l) = f x + sum_of f l.
Proof. done. Qed.

Lemma sum_of_perm {A} (f : A -> Z) l k : l ≡ₚ k -> sum_of f l = sum_of f k.
Proof. unfold sum_of. induction 1; unfold sumZ in *; simpl in *; lia. Qed.

Lemma sum_of_keep cs : sum_of dlog (filter (fun x => x <> commit_to_zero_value) cs) == sum_of dlog cs.
Proof.
  induction cs as [|c cs IH]; [reflexivity|]. rewrite sum_of_cons, filter_cons.
  case_decide as Hc; [by rewrite sum_of_cons, IH|]. subst.
  rewrite dlog_zero, IH. by rewrite Z.add_0_l.
Qed.

Lemma sum_commits_law p n c : sum_commits p n = Ok c -> dlog c == sum_of dlog p - sum_of dlog n.
Proof.
  unfold sum_commits. intros H. destruct (commit_sum _ _) as [c'|] eqn:E; [|done]. injection H as ->.
  apply commit_sum_law in E. by rewrite E, !sum_of_keep.
Qed.

Lemma sum_commitments_law ins outs overage c :
  - 2 ^ 63 <= overage < 2 ^ 63 -> sum_commitments ins outs overage = Ok c ->
  dlog c == sum_of dlog outs - sum_of dlog ins + overage * value_base.
Proof.
  unfold sum_commitments. intros Hov Hc. revert Hc. destruct (Z.eqb_spec overage 0) as [->|].
  { intros H. apply sum_commits_law in H. by rewrite H, Z.mul_0_l, Z.add_0_r. }
  destruct (Z.eqb_spec overage (- 2 ^ 63)); [done|].
  destruct (Z.ltb_spec overage 0); intros Hs; apply sum_commits_law in Hs;
    rewrite Hs, sum_of_app, sum_of_cons, commit_value_law by (unfold_words; lia); apply cong_eq;
    unfold sum_of, sumZ; simpl; [rewrite Z.abs_neq by lia|rewrite Z.abs_eq by lia]; lia.
Qed.

Lemma sum_kernel_excesses_law kers o k ko :
  sum_kernel_excesses kers o = Ok (k, ko) ->
  dlog k == sum_of dlog kers /\ dlog ko == sum_of dlog kers + scalar o.
Proof.
  unfold sum_kernel_excesses. intros (k' & Ek & H)%rbind_Ok. apply sum_commits_law in Ek.
  assert (Ek' : dlog k' == sum_of dlog kers).
  { rewrite Ek. apply cong_eq. unfold sum_of, sumZ. simpl. lia. }
  apply rbind_Ok in H as (cs & Ecs & H). apply rbind_Ok in H as (s & Es & H). injection H as <- <-.
  split; [done|]. destruct (commit_sum cs []) as [s'|] eqn:E; [|done]. injection Es as ->.
  apply commit_sum_law in E. rewrite E. case_decide as Ho.
  - injection Ecs as <-. subst o. rewrite scalar_zero. unfold sum_of, sumZ in *. simpl. rewrite Ek'.
    apply cong_eq. lia.
  - apply rbind_Ok in Ecs as (c & Ec & Ecs). injection Ecs as <-.
    destruct (commit_blind o) as [c'|] eqn:Eb; [|done]. injection Ec as ->. apply commit_blind_law in Eb.
    unfold sum_of, sumZ in *. simpl. rewrite Ek', Eb. apply cong_eq. lia.
Qed.

(** The sums that are returned, and the equation that holds then. *)
Lemma verify_kernel_sums_law ins outs kers overage o u k :
  - 2 ^ 63 <= overage < 2 ^ 63 -> verify_kernel_sums ins outs kers overage o = Ok (u, k) ->
  dlog u == sum_of dlog outs - sum_of dlog ins + overage * value_base /\
  dlog k == sum_of dlog kers /\ dlog u == dlog k + scalar o.
Proof.
  unfold verify_kernel_sums. intros Hov (u' & Eu & H)%rbind_Ok.
  apply rbind_Ok in H as ([k' ko] & Ek & H). case_decide as Hu; [|done]. injection H as -> ->.
  apply sum_commitments_law in Eu; [|done]. apply sum_kernel_excesses_law in Ek as [Ek Eko].
  split_and!; [done|done|]. by rewrite Hu, Eko, Ek.
Qed.

(** A blinding factor that [secret_key] accepts, or zero. *)
Definition valid_key (b : BlindingFactor) : Prop := b = blinding_zero \/ is_Some (secret_key b).

Lemma to_secrets_law bs : Forall valid_key bs -> sumZ (to_secrets bs) == sum_of scalar bs.
Proof.
  unfold to_secrets. induction 1 as [|b bs Hb _ IH]; [reflexivity|]. rewrite sum_of_cons, filter_cons.
  case_decide as Hd.
  - destruct Hb as [?|[k Ek]]; [done|]. simpl. rewrite Ek. unfold sumZ in *. simpl.
    by rewrite (secret_key_law _ _ Ek), IH.
  - subst. by rewrite IH, scalar_zero, Z.add_0_l.
Qed.

(** The sum of offsets, unless there is nothing positive to add. *)
Lemma sum_kernel_offsets_law p n b :
  Forall valid_key p -> Forall valid_key n -> sum_kernel_offsets p n = Ok b ->
  (to_secrets p = [] -> to_secrets n = []) ->
  scalar b == sum_of scalar p - sum_of scalar n.
Proof.
  unfold sum_kernel_offsets. intros Hp Hn H Hz. rewrite <- (to_secrets_law p), <- (to_secrets_law n) by done.
  destruct (to_secrets p) as [|k ks] eqn:E.
  - injection H as <-. rewrite Hz by done. by rewrite scalar_zero.
  - destruct (blind_sum _ _) as [b'|] eqn:Eb; [|done]. injection H as ->. by apply blind_sum_law in Eb.
Qed.

(** Without positive keys the negative ones are forgotten. *)
Lemma sum_kernel_offsets_zero n : sum_kernel_offsets [blinding_zero] n = Ok blinding_zero.
Proof. unfold sum_kernel_offsets, to_secrets. rewrite filter_cons. by case_decide. Qed.

End sums.

(** ** A sample group *)

(** Points are numbers modulo 1009, written as 33 bytes. *)
Definition sample_point (x : Z) : Commitment := mkCommitment (be 33 (x mod 1009)).

Definition sample_log (c : Commitment) : Z := be_value (commitment_bytes c).

Definition pedersen_crypto : Crypto := {|
  blake2b := fun bs => mkHash bs;
  verify_batch := fun _ => true;
  verify_bullet_proof_multi := fun _ _ => true;
  commit_sum := fun p n => Some (sample_point (sum_of sample_log p - sum_of sample_log n));
  commit_value := fun v => sample_point (v * 5);
  commit_blind := fun b => Some (sample_point (be_value (blinding_bytes b)));
  secret_key := fun b => Some (be_value (blinding_bytes b));
  blind_sum := fun p n => Some (mkBlinding (be 32 ((sumZ p - sumZ n) mod 1009)));
|}.

Definition sample_pedersen : Pedersen (CR := pedersen_crypto) := {|
  order := 1009;
  dlog := sample_log;
  value_base := 5;
  scalar := fun b => be_value (blinding_bytes b);
|}.

Lemma sample_value n x : (2 <= n)%nat -> cong 1009 (be_value (be n (x mod 1009))) x.
Proof.
  intros Hn. pose proof (Z.mod_pos_bound x 1009 ltac:(lia)).
  rewrite be_value_be_small; [by apply cong_mod|]. split; [lia|].
  apply Z.lt_le_trans with (256 ^ 2); [lia|]. apply Z.pow_le_mono_r; lia.
Qed.

Lemma sample_pedersen_laws : PedersenLaws (CR := pedersen_crypto) (PE := sample_pedersen).
Proof.
  constructor.
  - reflexivity.
  - reflexivity.
  - intros p n c E. injection E as <-. apply (sample_value 33). lia.
  - intros v _. apply (sample_value 33). lia.
  - intros b c E. injection E as <-. apply (sample_value 33). lia.
  - intros b k E. injection E as <-. reflexivity.
  - intros p n b E. injection E as <-. apply (sample_value 32). lia.
Qed.
