(* ===== verification/BlockSpec.v ===== *)
(** What blocks and headers promise.

    The theorems on [Block]: what a header from the network has proved when it
    is accepted, what a valid block balances, in terms of the discrete
    logarithms of [Pedersen], and that a compact block is hydrated to the block
    it was made of. *)

From Stdlib Require Import ZArith Lia.
From stdpp Require Import base numbers option sorting list.
From S2P Require Import Prelude Consensus PmmrIndex Ser Kernel CutThrough Transaction Siphash Cuckoo CuckooSpec.
From S2P Require Import PowTypes Block Pedersen.
Open Scope Z_scope.

(** * Lemmas *)

(** ** Headers from the network *)

Lemma n_leaves_nonneg size : u64 size -> 0 <= n_leaves size.
Proof.
  intros Hs. unfold n_leaves. pose proof (peak_map_height_spec size Hs) as H.
  destruct (peak_map_height size) as [m h]. destruct H as [(? & ? & _) _].
  destruct (h =? 0); [done|]. unfold add64, wrap. apply Z.mod_pos_bound. lia.
Qed.

(** What is known of the proof of work of an accepted header. The walk of
    Cuckarood has a bound of its own. *)
Definition pow_proven `{Crypto} (fuel : nat) (ct : ChainTypes) (h : BlockHeader) : Prop :=
  let k := create_siphash_keys (header_bytes h ++ pow_prefix (pow h)) in
  let p := pow_proof (pow h) in
  exists ctx, create_pow_context ct (height h) (edge_bits p) (length (nonces p)) = Ok ctx /\
    if is_cuckarood ctx then verify fuel ct ctx k (nonces p) = Some (Ok tt)
    else Z.of_nat (length (nonces p)) = proofsize ct /\
         nonces_ok (set_keys (params_of ctx) k) (nonces p) /\ cycle_of ctx k (nonces p).

(** The reader lets 63 edge bits pass, but no graph has so many edges. *)
Lemma graph_too_big ct height n : create_pow_context ct height 63 n = Err GraphTooBig.
Proof. by destruct ct. Qed.

Lemma pow_proven_edge_bits `{Crypto} `{Chrono} fuel ct h : header_ok ct h -> pow_proven fuel ct h ->
  edge_bits (pow_proof (pow h)) <= 62.
Proof.
  intros (_ & _ & _ & Hp & _) (ctx & E & _). destruct (Z.eq_dec (edge_bits (pow_proof (pow h))) 63) as [Eb|]; [|lia].
  rewrite Eb, graph_too_big in E. done.
Qed.

(** The rules for a header that is checked on its own. The last is a bound on
    what the chain can hold, computed with the machine's wrap-around. *)
Definition header_acceptable `{Crypto} `{Chrono} (fuel : nat) (ct : ChainTypes) (ftl : Z) (h : BlockHeader) : Prop :=
  timestamp h * 10 ^ 9 <= utc_now + ftl * 10 ^ 9 /\
  version h = header_version ct (height h) /\
  (is_primary ct (pow h) = true \/ pow_is_secondary (pow h) = true) /\
  pow_proven fuel ct h /\
  Z.min (21 * output_mmr_count h + 3 * kernel_mmr_count h) (u_max 64) <=
    (max_block_weight ct * ((height h + 1) mod 2 ^ 64)) mod 2 ^ 64.

Section untrusted.
Context {CR : Crypto} {CH : Chrono} {CL : ChronoLaws}.

Lemma verify_size_iff fuel ct h : verify_size fuel ct h = Some (Ok tt) <-> pow_proven fuel ct h.
Proof.
  unfold verify_size, pow_proven. cbv zeta. rewrite pre_pow_ok.
  destruct (create_pow_context _ _ _ _) as [ctx|] eqn:Ec.
  - split.
    + intros Hv. exists ctx. split; [done|]. destruct (is_cuckarood ctx) eqn:Ed; [done|].
      destruct (verify_decides _ _ _ _ fuel (create_siphash_keys (header_bytes h ++ pow_prefix (pow h))) _ Ec Ed)
        as (r & Er & Hr). rewrite Er in Hv. injection Hv as ->. by apply Hr.
    + intros (ctx' & E & Hv). injection E as <-. destruct (is_cuckarood ctx) eqn:Ed; [done|].
      destruct (verify_decides _ _ _ _ fuel (create_siphash_keys (header_bytes h ++ pow_prefix (pow h))) _ Ec Ed)
        as (r & Er & Hr). rewrite Er. f_equal. by apply Hr.
  - split; [done|]. by intros (ctx & [=] & _).
Qed.

(** Only the walk of Cuckarood can fail to end. *)
Lemma verify_size_none fuel ct h : verify_size fuel ct h = None ->
  exists p, create_pow_context ct (height h) (edge_bits (pow_proof (pow h))) (length (nonces (pow_proof (pow h))))
    = Ok (Cuckarood p).
Proof.
  unfold verify_size. rewrite pre_pow_ok. destruct (create_pow_context _ _ _ _) as [ctx|] eqn:Ec; [|done].
  intros Hv. destruct (is_cuckarood ctx) eqn:Ed; [destruct ctx; try done; by eexists|].
  destruct (verify_decides _ _ _ _ fuel (create_siphash_keys (header_bytes h ++ pow_prefix (pow h))) _ Ec Ed)
    as (r & Er & _). by rewrite Er in Hv.
Qed.

Lemma header_weight_iff ct h : header_ok ct h ->
  (mul64 (max_block_weight ct) (add64 (height h) 1) <?
     weight_by_iok 0 (output_mmr_count h) (kernel_mmr_count h)) = false <->
  Z.min (21 * output_mmr_count h + 3 * kernel_mmr_count h) (u_max 64) <=
    (max_block_weight ct * ((height h + 1) mod 2 ^ 64)) mod 2 ^ 64.
Proof.
  intros ((_ & _ & _ & _ & _ & _ & _ & _ & _ & Ho & Hk) & _).
  rewrite weight_by_iok_min by (try done; by apply n_leaves_nonneg). rewrite Z.ltb_ge. done.
Qed.

Section reading.
Context {R : Type} {RD : Reader R} {RL : ReaderLaws R}.

Lemma read_untrusted_iff fuel ct ftl (r : R) h r' :
  read_untrusted_header fuel ct ftl r = Some (Ok (h, r')) <->
  read_block_header ct r = Some (Ok (h, r')) /\
  timestamp h * 10 ^ 9 <= utc_now + ftl * 10 ^ 9 /\ version h = header_version ct (height h) /\
  (is_primary ct (pow h) = true \/ pow_is_secondary (pow h) = true) /\
  verify_size fuel ct h = Some (Ok tt) /\
  (mul64 (max_block_weight ct) (add64 (height h) 1) <?
     weight_by_iok 0 (output_mmr_count h) (kernel_mmr_count h)) = false.
Proof.
  unfold read_untrusted_header. destruct (read_block_header ct r) as [[[h0 r0]|]|] eqn:E0; cbn [mbind option_bind];
    [|by split; [|intros [? _]]..].
  split.
  - destruct (Z.ltb_spec (utc_now + ftl * 10 ^ 9) (timestamp h0 * 10 ^ 9)); [done|].
    unfold valid_header_version. destruct (Z.eqb_spec (version h0) (header_version ct (height h0))); [|done].
    cbn [negb]. destruct (is_primary ct (pow h0)) eqn:Ep, (pow_is_secondary (pow h0)) eqn:Es; cbn [negb andb];
      try done; (destruct (verify_size fuel ct h0) as [[[]|]|] eqn:Ev; [|done..]); cbn [mbind option_bind is_ok negb];
      cbv zeta; (destruct (mul64 _ _ <? _) eqn:Ew; [done|]); intros Eq; injection Eq as <- <-; auto 10.
  - intros (Eq & Ht & Hv & Hp & Hs & Hw). injection Eq as -> ->.
    destruct (Z.ltb_spec (utc_now + ftl * 10 ^ 9) (timestamp h * 10 ^ 9)); [lia|].
    unfold valid_header_version. rewrite Hv at 1. rewrite Z.eqb_refl. cbn [negb].
    replace (negb (is_primary ct (pow h)) && negb (pow_is_secondary (pow h))) with false
      by (by destruct Hp as [-> | ->]; [|destruct (is_primary ct (pow h))]).
    rewrite Hs. cbn [mbind option_bind is_ok negb]. cbv zeta. by rewrite Hw.
Qed.
End reading.
End untrusted.

(** ** Validation *)

Definition coinbase_outputs (b : TransactionBody) : list Output :=
  filter (fun o => output_is_coinbase o = true) (outputs b).
Definition coinbase_kernels (b : TransactionBody) : list TxKernel :=
  filter (fun k => Features.is_coinbase (features k) = true) (kernels b).

Lemma map_err_Ok {E F A} (f : E -> F) (r : result E A) x : map_err f r = Ok x <-> r = Ok x.
Proof. destruct r; simpl; [|done]. split; intros H; by injection H as ->. Qed.

Section validation.
Context {CR : Crypto} {SU : SortUnstable} {NF : NrdFlag} {PE : Pedersen} {PL : PedersenLaws}.

Lemma fees_u64 b : u64 (reward (total_fees b)).
Proof.
  unfold total_fees, body_fee, reward.
  assert (H : forall l acc, u64 acc -> u64 (fold_left (fun acc f => sat_add64 acc (Fee.fee f)) l acc)).
  { induction l as [|f l IH]; intros acc Ha; [done|]. apply IH. pose proof (fee_bounds f).
    unfold sat_add64, u_max, u64, in_range in *. lia. }
  specialize (H (map_kernels_fees (body b)) 0 ltac:(unfold_words; lia)).
  change REWARD with 60000000000. unfold sat_add64, u_max, u64, in_range in *. lia.
Qed.

Lemma verify_coinbase_law b : verify_coinbase b = Ok tt ->
  sum_of dlog (map output_commitment (coinbase_outputs (body b))) - reward (total_fees b) * value_base ==
  sum_of dlog (map excess (coinbase_kernels (body b))).
Proof.
  unfold verify_coinbase. cbv zeta. fold (coinbase_outputs (body b)) (coinbase_kernels (body b)).
  destruct (commit_sum _ [commit_value _]) as [s|] eqn:Es; [|done].
  destruct (commit_sum (map excess _) []) as [k|] eqn:Ek; [|done]. cbn [ok_or rbind].
  case_decide as E; [|done]. intros _. subst. apply commit_sum_law in Es, Ek. rewrite Es in Ek.
  assert (E1 : sum_of dlog [commit_value (reward (total_fees b))] == reward (total_fees b) * value_base).
  { unfold sum_of, sumZ. simpl. rewrite Z.add_0_r. apply commit_value_law, fees_u64. }
  rewrite E1 in Ek. rewrite Ek. apply cong_eq. unfold sum_of, sumZ. simpl. lia.
Qed.

Lemma block_kernel_offset_law b prev o :
  valid_key (total_kernel_offset (header b)) -> valid_key prev ->
  (total_kernel_offset (header b) = blinding_zero -> prev = blinding_zero) ->
  block_kernel_offset b prev = Ok o -> scalar o == scalar (total_kernel_offset (header b)) - scalar prev.
Proof.
  unfold block_kernel_offset. intros Ht Hp Hz. case_decide as E.
  - intros Eo. injection Eo as <-. rewrite E, scalar_zero. apply cong_eq. lia.
  - intros Eo%map_err_Ok. apply sum_kernel_offsets_law in Eo; [|by apply Forall_singleton..|].
    + rewrite Eo. unfold sum_of, sumZ. simpl. apply cong_eq. lia.
    + unfold to_secrets. rewrite !filter_cons, !filter_nil. case_decide as Hd.
      * destruct Ht as [?|[k Ek]]; [done|]. simpl. by rewrite Ek.
      * intros _. case_decide as Hd'; [|done]. exfalso. by apply Hd', Hz.
Qed.

(** What [block_validate] checks one after the other. *)
Lemma block_validate_parts ct b prev : block_validate ct b prev = Ok tt ->
  body_valid ct (body b) AsBlock /\
  Forall (fun k => match features k with HeightLocked _ l => l <= height (header b) | _ => True end)
    (kernels (body b)) /\
  (existsb (fun k => Features.is_nrd (features k)) (kernels (body b)) = true ->
     is_nrd_enabled = true /\ 4 <= version (header b)) /\
  verify_coinbase b = Ok tt /\
  exists o u k, block_kernel_offset b prev = Ok o /\
    verify_kernel_sums (inputs_committed (body b)) (outputs_committed (body b)) (kernels_committed (body b))
      header_overage o = Ok (u, k).
Proof.
  unfold block_validate. rewrite !rseq_Ok, map_err_Ok. intros (Hb & Hl & Hn & Hc & H).
  unfold body_validate in Hb. rewrite rseq_Ok, body_validate_read_valid in Hb. destruct Hb as [Hb _].
  split; [done|]. split.
  { apply for_each_Ok in Hl. eapply Forall_impl; [exact Hl|]. intros k. cbv beta.
    destruct (features k); try done. destruct (Z.ltb_spec (height (header b)) lock_height); [done|lia]. }
  split.
  { intros Hx. unfold verify_nrd_kernels_for_header_version in Hn. rewrite Hx in Hn.
    destruct is_nrd_enabled; [|done]. cbn [negb] in Hn. destruct (Z.ltb_spec (version (header b)) 4); [done|].
    by split. }
  split; [done|]. destruct (block_kernel_offset b prev) as [o|]; [|done]. cbn [rbind] in H.
  destruct (verify_kernel_sums _ _ _ _ o) as [[u k]|] eqn:E; [|done]. by exists o, u, k.
Qed.
End validation.

(** ** Hydration *)

Section hydration.
Context {CR : Crypto} {SU : SortUnstable} {NF : NrdFlag}.

(** A list in strict order is the only one with its elements in weak order. *)
Lemma sorted_perm_eq {A} (key : A -> Z) l k :
  sorted_by key l -> StronglySorted (fun a b => key a <= key b) k -> l ≡ₚ k -> l = k.
Proof.
  intros Hl. revert k. induction Hl as [|x l Hl IH Hx]; intros k Hk Hp; [by apply Permutation_nil in Hp|].
  destruct k as [|y k]; [by apply Permutation_sym, Permutation_nil in Hp|].
  apply StronglySorted_inv in Hk as [Hk Hy]. assert (y = x) as ->; [|f_equal; apply IH; [done|by apply Permutation_cons_inv in Hp]].
  assert (Hin : y ∈ x :: l) by (rewrite Hp; by left). apply elem_of_cons in Hin as [?|Hin]; [done|].
  assert (Hin' : x ∈ y :: k) by (rewrite <- Hp; by left). apply elem_of_cons in Hin' as [?|Hin']; [done|].
  eapply Forall_forall in Hx; [|exact Hin]. eapply Forall_forall in Hy; [|exact Hin']. simpl in *. lia.
Qed.

Lemma sort_of_perm {A} (key : A -> Z) l k : sorted_by key l -> l ≡ₚ k -> sort_by_key key k = l.
Proof.
  intros Hl Hp. symmetry. apply (sorted_perm_eq key); [done|apply sort_sorted|by rewrite sort_perm].
Qed.

Lemma sort_nil {A} (key : A -> Z) : sort_by_key key [] = [].
Proof. apply sort_of_perm; [constructor|done]. Qed.

Lemma sort_singleton {A} (key : A -> Z) x : sort_by_key key [x] = [x].
Proof. apply sort_of_perm; [repeat constructor|done]. Qed.

(** Inserting into a list that turns out sorted. *)
Lemma insert_sorted_perm {A} (key : A -> Z) x l : sorted_by key (insert_sorted key x l) ->
  insert_sorted key x l = l \/ insert_sorted key x l ≡ₚ x :: l.
Proof.
  induction l as [|y l IH]; [by right|]. simpl. destruct (key y <? key x).
  - intros [Hs _]%StronglySorted_inv. destruct (IH Hs) as [-> | Hp]; [by left|right; rewrite Hp; apply perm_swap].
  - destruct (key y =? key x); [by left|by right].
Qed.

(** Splitting off the one element that satisfies [f]. *)
Lemma filter_inserted {A} (f : A -> bool) key x l l' : f x = true -> Forall (fun y => f y = false) l ->
  (l' ≡ₚ l \/ l' ≡ₚ x :: l) -> l' ≡ₚ l ++ sort_by_key key (filter (fun y => f y = true) l').
Proof.
  intros Hx Hl H. rewrite sort_perm. assert (Hf : filter (fun y => f y = true) l = []).
  { clear H. induction Hl as [|y l Hy _ IH]; [done|]. rewrite filter_cons, Hy, IH. by case_decide. }
  destruct H as [Hp|Hp].
  - by rewrite Hp, Hf, app_nil_r.
  - rewrite Hp, filter_cons, Hf. case_decide; [|done]. apply Permutation_cons_append.
Qed.

(** Nothing is cut if no input spends an output. *)
Lemma cut_nothing {T U} (ct : T -> Z) (cu : U -> Z) ins outs ki ko ci co :
  is_cut ct cu ins outs ki ko ci co -> (forall x y, x ∈ ins -> y ∈ outs -> ct x <> cu y) -> ci = [] /\ co = [].
Proof.
  intros (Hi & Ho & Hc & _) Hd. assert (ci = []) as ->.
  { destruct ci as [|x ci]; [done|]. exfalso. assert (Hx : ct x ∈ map cu co) by (rewrite <- Hc; by left).
    apply elem_of_map in Hx as (y & E & Hy). apply (Hd x y); [rewrite Hi|rewrite Ho|done];
      apply elem_of_app; right; [by left|done]. }
  split; [done|]. apply Permutation_length in Hc. by destruct co.
Qed.

Lemma strictly_sorted {A} (key : A -> Z) l :
  StronglySorted (fun a b => key a <= key b) l -> NoDup (map key l) -> sorted_by key l.
Proof. intros Hs Hn. pose proof (any_adjacent_equal_sorted key l Hs). by destruct (any_adjacent_equal key l). Qed.

Lemma sorted_NoDup {A} (key : A -> Z) l : sorted_by key l -> NoDup (map key l).
Proof.
  induction 1 as [|x l Hl IH Hx]; simpl; constructor; [|done]. rewrite elem_of_map. intros (y & E & Hy).
  eapply Forall_forall in Hx; [|exact Hy]. simpl in Hx. lia.
Qed.

Lemma wrappers_sorted i : inputs_sorted i -> NoDup (map hash_key (inputs_to_wrappers i)) ->
  sorted_by hash_key (inputs_to_wrappers i).
Proof. destruct i as [l|l]; [done|]. intros _ Hn. apply strictly_sorted; [apply sort_sorted|done]. Qed.

(** Cutting through again what was aggregated gives the aggregate. *)
Lemma cut_again txs tx :
  aggregate txs = Ok tx ->
  sorted_by hash_key (inputs_to_wrappers (inputs (Transaction.body tx))) -> NoDup (map output_key (outputs (Transaction.body tx))) ->
  (forall x y, x ∈ inputs_committed (Transaction.body tx) -> y ∈ outputs_committed (Transaction.body tx) -> commit_key x <> commit_key y) ->
  exists ins outs ic oc,
    cut_through (fun c => commit_key (cw_commit c)) hash_key (fun o => commit_key (output_commitment o)) output_key
      (all_inputs txs) (all_outputs txs) = Ok (ins, outs, ic, oc) /\
    sort_by_key hash_key ins = inputs_to_wrappers (inputs (Transaction.body tx)) /\
    outputs (Transaction.body tx) ≡ₚ outs /\ kernels (Transaction.body tx) ≡ₚ all_kernels txs.
Proof.
  intros Ha Hi Ho Hd.
  assert (H1 : all_inputs txs = inputs_to_wrappers (inputs (Transaction.body tx)) ->
    all_outputs txs = outputs (Transaction.body tx) -> kernels (Transaction.body tx) ≡ₚ all_kernels txs ->
    exists ins outs ic oc,
    cut_through (fun c => commit_key (cw_commit c)) hash_key (fun o => commit_key (output_commitment o)) output_key
      (all_inputs txs) (all_outputs txs) = Ok (ins, outs, ic, oc) /\
    sort_by_key hash_key ins = inputs_to_wrappers (inputs (Transaction.body tx)) /\
    outputs (Transaction.body tx) ≡ₚ outs /\ kernels (Transaction.body tx) ≡ₚ all_kernels txs).
  { intros Ei Eo Ek. pose proof (cut_through_cuts (fun c => commit_key (cw_commit c)) hash_key
      (fun o => commit_key (output_commitment o)) output_key (all_inputs txs) (all_outputs txs)) as Hc.
    assert (Hdis : forall x y, x ∈ all_inputs txs -> y ∈ all_outputs txs ->
      commit_key (cw_commit x) <> commit_key (output_commitment y)).
    { rewrite Ei, Eo. intros x y Hx Hy. apply Hd; by apply list_elem_of_fmap_2. }
    destruct (cut_through _ _ _ _ _ _) as [[[[ins outs] ic] oc]|e].
    - destruct Hc as [Hc _]. pose proof (cut_nothing _ _ _ _ _ _ _ _ Hc Hdis) as [-> ->].
      destruct Hc as (Pi & Po & _). rewrite app_nil_r in Pi, Po. exists ins, outs, [], []. split; [done|].
      split; [|by rewrite <- Po, Eo]. apply sort_of_perm; [done|by rewrite <- Pi, Ei].
    - exfalso. destruct Hc as (_ & ins & outs & ic & oc & Hc & Hn).
      pose proof (cut_nothing _ _ _ _ _ _ _ _ Hc Hdis) as [-> ->]. destruct Hc as (Pi & Po & _).
      rewrite app_nil_r in Pi, Po. rewrite Ei in Pi. rewrite Eo in Po. rewrite <- Po, <- Pi in Hn.
      destruct Hn as [Hn|Hn]; [|done]. by apply Hn, sorted_NoDup. }
  destruct txs as [|tx1 [|tx2 txs]].
  - injection Ha as <-. by apply H1.
  - injection Ha as <-. apply H1; [apply app_nil_r|apply app_nil_r|]. unfold all_kernels. simpl. by rewrite app_nil_r.
  - clear H1. revert Ha. unfold aggregate. fold (all_inputs (tx1 :: tx2 :: txs)) (all_outputs (tx1 :: tx2 :: txs))
      (all_kernels (tx1 :: tx2 :: txs)). cbv zeta.
    destruct (cut_through _ _ _ _ _ _) as [[[[ins outs] ic] oc]|e]; [|done]. cbn [rbind].
    destruct (sum_kernel_offsets _ _) as [o|]; [|done]. cbn [rbind]. intros E. injection E as <-.
    exists ins, outs, ic, oc. split; [done|]. split; [done|]. simpl. by rewrite !sort_perm.
Qed.

Lemma all_Forall {A} (f : Transaction -> list A) (P : A -> Prop) txs :
  Forall (fun tx => Forall P (f tx)) txs -> Forall P (concat (map f txs)).
Proof. intros H. induction H as [|tx txs Htx _ IH]; simpl; [done|]. by apply Forall_app. Qed.

Lemma hydrate_built {SH : SipHasher} txs agg ro rk ct nonce b cb :
  aggregate txs = Ok agg -> Forall (fun tx => no_coinbase (Transaction.body tx)) txs ->
  output_is_coinbase ro = true -> Features.is_coinbase (features rk) = true ->
  body b = with_kernel (with_output (Transaction.body agg) ro) rk ->
  body_valid ct (body b) AsBlock -> NoDup (map hash_key (inputs_to_wrappers (inputs (body b)))) ->
  compact_of_block ct nonce b = Some cb ->
  hydrate_from cb txs =
    Ok (mkBlock (header b) (replace_inputs (body b) (CommitOnly (inputs_to_wrappers (inputs (body b)))))).
Proof.
  intros Ha Hnc Hro Hrk Eb (_ & _ & (Si & So & Sk) & Hnd) Hnw Hcb.
  assert (Ei : inputs (body b) = inputs (Transaction.body agg)) by (by rewrite Eb).
  assert (Po : outputs (body b) = outputs (Transaction.body agg) \/
               outputs (body b) ≡ₚ ro :: outputs (Transaction.body agg)).
  { rewrite Eb in So |- *. by apply insert_sorted_perm in So. }
  assert (Pk : kernels (body b) = kernels (Transaction.body agg) \/
               kernels (body b) ≡ₚ rk :: kernels (Transaction.body agg)).
  { rewrite Eb in Sk |- *. by apply insert_sorted_perm in Sk. }
  assert (Hsub : outputs (Transaction.body agg) ⊆+ outputs (body b)).
  { destruct Po as [-> | ->]; [done|]. by apply submseteq_cons. }
  destruct (cut_again txs agg Ha) as (ins & outs & ic & oc & Hcut & Esi & Eo & Ek).
  { rewrite <- Ei. by apply wrappers_sorted. }
  { apply sorted_NoDup in So. apply submseteq_Permutation in Hsub as [k Hp].
    rewrite Hp, map_app, NoDup_app in So. apply So. }
  { intros x y Hx Hy E. unfold inputs_committed in Hx. rewrite <- Ei in Hx. fold (inputs_committed (body b)) in Hx.
    rewrite map_app, NoDup_app in Hnd. destruct Hnd as (_ & Hnd & _). apply (Hnd (commit_key x)).
    - by apply list_elem_of_fmap_2.
    - rewrite E. apply list_elem_of_fmap_2. eapply elem_of_submseteq; [exact Hy|]. by apply fmap_submseteq. }
  assert (Hno : Forall (fun o => output_is_coinbase o = false) outs).
  { pose proof (cut_through_cuts (fun c => commit_key (cw_commit c)) hash_key
      (fun o => commit_key (output_commitment o)) output_key (all_inputs txs) (all_outputs txs)) as Hc.
    rewrite Hcut in Hc. destruct Hc as ((_ & Hp & _) & _).
    assert (Hall : Forall (fun o => output_is_coinbase o = false) (all_outputs txs))
      by (apply all_Forall; eapply Forall_impl; [exact Hnc|by intros ? []]).
    rewrite Hp in Hall. by apply Forall_app in Hall as [? _]. }
  assert (Hnk : Forall (fun k => Features.is_coinbase (features k) = false) (all_kernels txs))
    by (apply all_Forall; eapply Forall_impl; [exact Hnc|by intros ? []]).
  unfold compact_of_block in Hcb. destruct (header_hash ct (header b)) as [bh|]; [|done].
  cbn [mbind option_bind] in Hcb. injection Hcb as <-. unfold hydrate_from.
  fold (all_inputs txs) (all_outputs txs) (all_kernels txs). rewrite Hcut. cbn.
  unfold body_sort. cbn. rewrite Esi, <- Ei. unfold replace_inputs. do 3 f_equal.
  - apply sort_of_perm; [done|]. apply (filter_inserted output_is_coinbase) with (x := ro); [done..|].
    destruct Po as [Hp|Hp]; [left|right]; by rewrite Hp, Eo.
  - apply sort_of_perm; [done|].
    apply (filter_inserted (fun k => Features.is_coinbase (features k))) with (x := rk); [done..|].
    destruct Pk as [Hp|Hp]; [left|right]; by rewrite Hp, Ek.
Qed.
End hydration.

(** * Properties *)

(** C19. A header from the network is accepted exactly when it deserves it: on
    any bytes, the untrusted reader accepts [h] and stops before [tl] if and
    only if the bytes are the encoding of the well-formed header [h] followed by
    [tl], its time is not too far ahead, it has the version of its height, its
    proof of work counts as primary or secondary, its graph can be built, which one
    of 63 edge bits cannot, the nonces form a single cycle in it, keyed by the
    hash of everything in the header before the proof (in a Cuckarood graph, the
    verifier says that they do), and the weight it claims for the chain is possible. Reading never
    panics, and it can only fail to end in the walk of a Cuckarood proof. *)
Theorem untrusted_header_exact {CR : Crypto} {CH : Chrono} {CL : ChronoLaws} fuel ct ftl R (RD : Reader R)
    (RL : ReaderLaws R) (r : R) :
  Forall (in_range 8) (input r) -> deserialization_mode r = DeFull ->
  (forall h tl,
    (exists r', read_untrusted_header fuel ct ftl r = Some (Ok (h, r')) /\ advanced input r r' tl) <->
    header_ok ct h /\ input r = header_encoding ct h ++ tl /\ header_acceptable fuel ct ftl h) /\
  (read_untrusted_header fuel ct ftl r = None ->
    exists h r' p, read_block_header ct r = Some (Ok (h, r')) /\
      create_pow_context ct (height h) (edge_bits (pow_proof (pow h))) (length (nonces (pow_proof (pow h))))
        = Ok (Cuckarood p)).
Proof.
  intros Hb Hm. split.
  - intros h tl. unfold header_acceptable. split.
    + intros (r' & (E & Ht & Hv & Hp & Hs & Hw)%read_untrusted_iff & Ha).
      destruct (read_header_inv ct r h r' Hm Hb E) as (Hok & Hin & _).
      split; [done|]. split; [destruct Ha as (<- & _); exact Hin|].
      rewrite <- verify_size_iff. by rewrite (header_weight_iff ct h Hok) in Hw.
    + intros (Hok & Hin & Ht & Hv & Hp & Hs%verify_size_iff & Hw%header_weight_iff); [|done].
      destruct (read_header_ok ct r h tl Hm Hb Hok Hin) as (r' & E & Ha). exists r'. split; [|done].
      by rewrite read_untrusted_iff.
  - unfold read_untrusted_header. pose proof (read_header_no_panic ct r Hm Hb) as Hn.
    destruct (read_block_header ct r) as [[[h r']|]|] eqn:E; [|done..]. cbn [mbind option_bind].
    destruct (_ <? _); [done|]. destruct (negb (valid_header_version _ _ _)); [done|].
    destruct (_ && _); [done|]. destruct (verify_size fuel ct h) as [ok|] eqn:Ev; cbn [mbind option_bind].
    + destruct (negb _); [done|]. cbv zeta. by destruct (_ <? _).
    + intros _. apply verify_size_none in Ev as [p Ep]. by exists h, r', p.
Qed.

(** C18. A valid block creates no coins: if the library adds commitments as it
    documents, then in any block that passes validation the outputs less the
    inputs less the block reward are the kernel excesses plus the part of the
    offset that the block adds, and the coinbase outputs hold the reward and
    the fees of the block's kernels and nothing more. The block is also
    within the weight limit, sorted and cut through, no kernel is locked
    beyond its height, and NRD kernels appear only where they are allowed. The
    offsets must be secret keys or zero, and a zero total offset must not
    follow another one: [sum_kernel_offsets] then gives zero. *)
Theorem block_conserves {CR : Crypto} {SU : SortUnstable} {NF : NrdFlag} {PE : Pedersen} {PL : PedersenLaws} ct b prev :
  valid_key (total_kernel_offset (header b)) -> valid_key prev ->
  (total_kernel_offset (header b) = blinding_zero -> prev = blinding_zero) ->
  block_validate ct b prev = Ok tt ->
  sum_of dlog (outputs_committed (body b)) - sum_of dlog (inputs_committed (body b)) - REWARD * value_base ==
    sum_of dlog (kernels_committed (body b)) + (scalar (total_kernel_offset (header b)) - scalar prev) /\
  sum_of dlog (map output_commitment (coinbase_outputs (body b))) - reward (total_fees b) * value_base ==
    sum_of dlog (map excess (coinbase_kernels (body b))) /\
  body_valid ct (body b) AsBlock /\
  Forall (fun k => match features k with HeightLocked _ l => l <= height (header b) | _ => True end)
    (kernels (body b)) /\
  (existsb (fun k => Features.is_nrd (features k)) (kernels (body b)) = true ->
     is_nrd_enabled = true /\ 4 <= version (header b)).
Proof.
  intros Ht Hp Hz (Hb & Hl & Hn & Hc & o & u & k & Ho & Hv)%block_validate_parts.
  apply block_kernel_offset_law in Ho; [|done..].
  apply verify_kernel_sums_law in Hv as (Eu & Ek & E); [|vm_compute; split; congruence].
  split; [|split; [by apply verify_coinbase_law|done]].
  rewrite Eu, Ek, Ho in E. rewrite <- E. apply cong_eq. change header_overage with (- REWARD). lia.
Qed.

(** C28. Compact blocks lose nothing: hydrating the compact form of a block that
    was built from transactions and a reward, with the same transactions,
    gives the block back, whatever the nonce of the short ids: the same header,
    outputs and kernels in the same order, and the same inputs as commitments.
    The block has to be valid by the lightweight rules, its parts and reward
    have coinbase features where they belong, and the hashes of its inputs must
    not collide. *)
Theorem hydrate_rebuilds {CR : Crypto} {SU : SortUnstable} {NF : NrdFlag} {CH : Chrono} {SH : SipHasher}
    ct prev txs reward_out reward_kern difficulty b0 b nonce cb :
  from_reward ct prev txs reward_out reward_kern difficulty = Some (Ok b0) -> body b = body b0 ->
  Forall (fun tx => no_coinbase (Transaction.body tx)) txs ->
  output_is_coinbase reward_out = true -> Features.is_coinbase (features reward_kern) = true ->
  block_validate_read ct b = Ok tt -> NoDup (map hash_key (inputs_to_wrappers (inputs (body b)))) ->
  compact_of_block ct nonce b = Some cb ->
  hydrate_from cb txs =
    Ok (mkBlock (header b) (replace_inputs (body b) (CommitOnly (inputs_to_wrappers (inputs (body b)))))).
Proof.
  intros Hr Eb Hnc Ho Hk Hv Hn Hc. unfold from_reward in Hr.
  destruct (aggregate txs) as [agg|] eqn:Ea; [|done]. cbv zeta in Hr.
  destruct (sum_kernel_offsets _ _); [|done]. destruct (from_timestamp _); [|done].
  destruct (header_hash ct prev); [|done]. cbn [mbind option_bind] in Hr. injection Hr as <-.
  unfold block_validate_read in Hv. rewrite rseq_Ok, map_err_Ok, body_validate_read_valid in Hv. destruct Hv as [Hv _].
  by apply (hydrate_built txs agg reward_out reward_kern ct nonce b cb).
Qed.

(** * Witnesses *)

Section samples.
#[local] Existing Instance sample_chrono.
#[local] Existing Instance sample_chrono_laws.
#[local] Existing Instance merge_sort_unstable.
#[local] Instance nrd_off : NrdFlag := false.
#[local] Instance sample_sip : SipHasher := fun k0 k1 bs => (k0 + 3 * k1 + be_value bs) mod 2 ^ 64.

(** The keys and the proof of the repository's test of Cuckarooz. *)
Definition cuckarooz29_keys : list Z :=
  [0x34bb4c75c929a2f5; 0x21df13263aa81235; 0x37d00939eae4be06; 0x473251cbf6941553].
Definition cuckarooz29_proof : list Z :=
  [0x49733a; 0x1d49107; 0x253d2ca; 0x5ad5e59; 0x5b671bd; 0x5dcae1c; 0x5f9a589; 0x65e9afc;
   0x6a59a45; 0x7d9c6d3; 0x7df96e4; 0x8b26174; 0xa17b430; 0xa1c8c0d; 0xa8a0327; 0xabd7402;
   0xacb7c77; 0xb67524f; 0xc1c15a6; 0xc7e2c26; 0xc7f5d8d; 0xcae478a; 0xdea9229; 0xe1ab49e;
   0xf57c7db; 0xfb4e8c5; 0xff314aa; 0x110ccc12; 0x143e546f; 0x17007af8; 0x17140ea2;
   0x173d7c5d; 0x175cd13f; 0x178b8880; 0x1801edc5; 0x18c8f56b; 0x18c8fe6d; 0x19f1a31a;
   0x1bb028d1; 0x1caaa65a; 0x1cf29bc2; 0x1dbde27d].

(** A hash function that gives those keys for every header. *)
Definition cuckarooz29_crypto : Crypto := {|
  blake2b := fun _ => mkHash (concat (map (le 8) cuckarooz29_keys));
  verify_batch := fun _ => true;
  verify_bullet_proof_multi := fun _ _ => true;
  commit_sum := fun _ _ => None;
  commit_value := fun _ => mkCommitment [];
  commit_blind := fun _ => None;
  secret_key := fun _ => None;
  blind_sum := fun _ _ => None;
|}.

Definition network_header : BlockHeader :=
  mkHeader 4 800000 ZERO_HASH ZERO_HASH 1600000000 ZERO_HASH ZERO_HASH ZERO_HASH blinding_zero 7 4
    (mkProofOfWork (mkDifficulty 1000) 20 15 (mkPow 29 cuckarooz29_proof)).

Lemma untrusted_header_exact_witness :
  (exists r', read_untrusted_header (CR := cuckarooz29_crypto) 0 Mainnet 300
     (BinReader.mk (header_encoding Mainnet network_header ++ [9]) (mkVersion 1) DeFull) = Some (Ok (network_header, r'))) /\
  header_acceptable (H := cuckarooz29_crypto) 0 Mainnet 300 network_header.
Proof.
  destruct (untrusted_header_exact (CR := cuckarooz29_crypto) 0 Mainnet 300 BinReader.t BinReader.reader binreader_laws
    (BinReader.mk (header_encoding Mainnet network_header ++ [9]) (mkVersion 1) DeFull)) as [H _].
  - vm_compute. repeat constructor; congruence.
  - reflexivity.
  - assert (E : exists r', read_untrusted_header (CR := cuckarooz29_crypto) 0 Mainnet 300
      (BinReader.mk (header_encoding Mainnet network_header ++ [9]) (mkVersion 1) DeFull) = Some (Ok (network_header, r')) /\
      advanced input (BinReader.mk (header_encoding Mainnet network_header ++ [9]) (mkVersion 1) DeFull) r' [9]).
    { eexists. split; [vm_compute; reflexivity|]. split_and!; try reflexivity. }
    split; [destruct E as (r' & E & _); by exists r'|]. by apply (H network_header [9]).
Defined.

(** The book-keeping of a block in the sample group: a transaction with one
    kernel, and the reward. *)
#[local] Existing Instance pedersen_crypto.
#[local] Existing Instance sample_pedersen.
#[local] Existing Instance sample_pedersen_laws.

Definition block_tx : Transaction :=
  mkTx (mkBlinding (be 32 4))
    (mkBody (CommitOnly [mkCommitWrapper (sample_point 10)])
       [mkOutput (mkOutputId PlainOutput (sample_point 20)) (mkRangeProof 675 (repeat 0 675))]
       [mkKernel (PlainKernel (mkFeeFields 1)) (sample_point 11) (mkSignature (replicate 64 0))]).
Definition block_reward_out : Output :=
  mkOutput (mkOutputId CoinbaseOutput (sample_point (9 + 5 * 60000000001))) (mkRangeProof 675 (repeat 0 675)).
Definition block_reward_kern : TxKernel :=
  mkKernel CoinbaseKernel (sample_point 9) (mkSignature (replicate 64 0)).
Definition block_prev : BlockHeader :=
  mkHeader 1 0 ZERO_HASH ZERO_HASH 0 ZERO_HASH ZERO_HASH ZERO_HASH (mkBlinding (be 32 3)) 0 0
    (default_pow AutomatedTesting).

Definition built_block : option (result block_error Block) :=
  Eval vm_compute in from_reward AutomatedTesting block_prev [block_tx] block_reward_out block_reward_kern (mkDifficulty 5).
Definition sample_block : Block :=
  match built_block with Some (Ok b) => b | _ => mkBlock block_prev body_empty end.

Lemma block_conserves_witness :
  block_validate AutomatedTesting sample_block (mkBlinding (be 32 3)) = Ok tt /\
  (1009 | (sum_of dlog (outputs_committed (body sample_block)) - 10 - REWARD * 5) - (20 + 4)).
Proof.
  assert (E : block_validate AutomatedTesting sample_block (mkBlinding (be 32 3)) = Ok tt) by (vm_compute; reflexivity).
  split; [exact E|].
  assert (H3 : valid_key (mkBlinding (be 32 3))) by (right; vm_compute; by eexists).
  assert (H7 : valid_key (total_kernel_offset (header sample_block))) by (right; vm_compute; by eexists).
  assert (Hz : total_kernel_offset (header sample_block) = blinding_zero -> mkBlinding (be 32 3) = blinding_zero)
    by (vm_compute; discriminate).
  exact (proj1 (block_conserves AutomatedTesting sample_block _ H7 H3 Hz E)).
Defined.

Lemma hydrate_rebuilds_witness :
  exists cb, compact_of_block AutomatedTesting 77 sample_block = Some cb /\
    hydrate_from cb [block_tx] = Ok sample_block.
Proof.
  assert (E : exists cb, compact_of_block AutomatedTesting 77 sample_block = Some cb)
    by (eexists; vm_compute; reflexivity).
  destruct E as [cb E]. exists cb. split; [exact E|].
  assert (Eb : from_reward AutomatedTesting block_prev [block_tx] block_reward_out block_reward_kern (mkDifficulty 5)
    = Some (Ok sample_block)) by (vm_compute; reflexivity).
  refine (hydrate_rebuilds AutomatedTesting block_prev [block_tx] block_reward_out block_reward_kern (mkDifficulty 5)
    sample_block sample_block 77 cb Eb eq_refl _ eq_refl eq_refl _ _ E).
  - repeat constructor.
  - vm_compute. reflexivity.
  - vm_compute. repeat constructor. by intros ?%elem_of_nil.
Defined.
End samples.
