(* ===== verification/Bitmap.v ===== *)
(** Bitmaps of positions.

    The [croaring] bitmaps that the storage of MMRs uses are a type class: a
    bitmap is an ordered set of integers, and the laws state what the methods
    that the source calls return. Sets of [stdpp] are an instance. *)

From Stdlib Require Import ZArith Lia.
From stdpp Require Import base numbers option sorting gmap list.
From S2P Require Import Prelude.
Open Scope Z_scope.

Class Bitmap (BM : Type) := {
  bm_new : BM;
  bm_contains : BM -> Z -> bool;
  bm_add : BM -> Z -> BM;
  bm_remove : BM -> Z -> BM;
  bm_remove_range : BM -> Z -> Z -> BM;
  bm_rank : BM -> Z -> Z;
  bm_select : BM -> Z -> option Z;
  bm_maximum : BM -> option Z;
  bm_cardinality : BM -> Z;
  bm_range_cardinality : BM -> Z -> Z -> Z;
  bm_or : BM -> BM -> BM;
  bm_and : BM -> BM -> BM;
  bm_flip : BM -> Z -> Z -> BM;
  bm_iter : BM -> list Z;
  bm_collect : list Z -> BM;
}.

(** Membership, as the elements that are iterated over. *)
Definition bm_in {BM} `{Bitmap BM} (x : Z) (b : BM) : Prop := x ∈ bm_iter b.

(** [remove_range] takes an inclusive range, [range_cardinality] and [flip]
    exclude the end. *)
Class BitmapLaws (BM : Type) `{Bitmap BM} := {
  bm_sorted b : StronglySorted Z.lt (bm_iter b);
  bm_in_new x : ~ bm_in x bm_new;
  bm_contains_iff b x : bm_contains b x = true <-> bm_in x b;
  bm_in_add b x y : bm_in y (bm_add b x) <-> y = x \/ bm_in y b;
  bm_in_remove b x y : bm_in y (bm_remove b x) <-> y <> x /\ bm_in y b;
  bm_in_remove_range b lo hi y :
    bm_in y (bm_remove_range b lo hi) <-> bm_in y b /\ ~ lo <= y <= hi;
  bm_rank_length b x :
    bm_rank b x = Z.of_nat (length (filter (fun y => y <= x) (bm_iter b)));
  bm_select_lookup b n : 0 <= n -> bm_select b n = bm_iter b !! Z.to_nat n;
  bm_maximum_last b : bm_maximum b = last (bm_iter b);
  bm_cardinality_length b : bm_cardinality b = Z.of_nat (length (bm_iter b));
  bm_range_cardinality_length b lo hi :
    bm_range_cardinality b lo hi =
    Z.of_nat (length (filter (fun y => lo <= y < hi) (bm_iter b)));
  bm_in_or b c x : bm_in x (bm_or b c) <-> bm_in x b \/ bm_in x c;
  bm_in_and b c x : bm_in x (bm_and b c) <-> bm_in x b /\ bm_in x c;
  bm_in_flip b lo hi x :
    bm_in x (bm_flip b lo hi) <->
    (lo <= x < hi /\ ~ bm_in x b) \/ (~ lo <= x < hi /\ bm_in x b);
  bm_in_collect l x : bm_in x (bm_collect l) <-> x ∈ l;
}.

(** ** Sorted lists *)

Lemma sorted_lt_NoDup (l : list Z) : StronglySorted Z.lt l -> NoDup l.
Proof.
  induction 1 as [|x l _ IH Hx]; constructor; [|done].
  intros Hin. eapply Forall_forall in Hx; [|exact Hin]. lia.
Qed.

Lemma sorted_lt_le (l : list Z) : StronglySorted Z.lt l -> StronglySorted Z.le l.
Proof.
  induction 1 as [|x l _ IH Hx]; constructor; [done|].
  eapply Forall_impl; [exact Hx|]. intros y ?. simpl. lia.
Qed.

(** A strictly ascending list is determined by its elements. *)
Lemma sorted_lt_ext (l k : list Z) :
  StronglySorted Z.lt l -> StronglySorted Z.lt k -> (forall x, x ∈ l <-> x ∈ k) -> l = k.
Proof.
  intros Hl Hk Heq.
  assert (Hp : l ≡ₚ k).
  { apply NoDup_Permutation; [by apply sorted_lt_NoDup..|done]. }
  eapply (StronglySorted_unique Z.le); [by apply sorted_lt_le..|exact Hp].
Qed.

Lemma sorted_lt_app (l k : list Z) :
  StronglySorted Z.lt l -> StronglySorted Z.lt k ->
  (forall x y, x ∈ l -> y ∈ k -> x < y) -> StronglySorted Z.lt (l ++ k).
Proof.
  intros Hl Hk Hlk. induction Hl as [|x l Hl IH Hx]; [done|]. simpl. constructor.
  - apply IH. intros y z Hy Hz. apply Hlk; [by right|done].
  - apply Forall_app. split; [done|]. apply Forall_forall. intros y Hy. apply Hlk; [by left|done].
Qed.

Lemma sorted_lt_filter (P : Z -> Prop) `{forall x, Decision (P x)} (l : list Z) :
  StronglySorted Z.lt l -> StronglySorted Z.lt (filter P l).
Proof.
  induction 1 as [|x l Hl IH Hx]; [constructor|]. rewrite filter_cons.
  case_decide; [|done]. constructor; [done|]. apply Forall_forall. intros y [_ Hy]%list_elem_of_filter.
  eapply Forall_forall in Hx; [|exact Hy]. done.
Qed.

Lemma sorted_lt_length a b (l : list Z) :
  StronglySorted Z.lt l -> Forall (fun x => a <= x < b) l -> a <= b -> Z.of_nat (length l) + a <= b.
Proof.
  intros Hs. revert a. induction Hs as [|x l Hs IH Hx]; intros a Hl Hab; [simpl; lia|].
  apply Forall_cons in Hl as [Hxb Hl]. cbn [length]. rewrite Nat2Z.inj_succ.
  enough (Z.of_nat (length l) + (x + 1) <= b) by lia. apply IH; [|lia].
  apply Forall_forall. intros y Hy. eapply Forall_forall in Hl; [|exact Hy].
  eapply Forall_forall in Hx; [|exact Hy]. lia.
Qed.

Lemma seqZ_sorted m n : StronglySorted Z.lt (seqZ m n).
Proof.
  destruct (Z.le_gt_cases n 0); [by rewrite seqZ_nil; [constructor|]|].
  revert m. pattern n. apply natlike_ind; [intros; constructor| |lia]. clear n H.
  intros n Hn IH m. rewrite seqZ_cons, Z.pred_succ by lia. constructor; [apply IH|].
  apply Forall_forall. intros x Hx%elem_of_seqZ. lia.
Qed.

Section laws.
Context {BM : Type} {HB : Bitmap BM} {HL : BitmapLaws BM}.

Lemma bm_iter_eq (b : BM) (l : list Z) :
  StronglySorted Z.lt l -> (forall x, bm_in x b <-> x ∈ l) -> bm_iter b = l.
Proof. intros Hl Heq. apply sorted_lt_ext; [apply bm_sorted|done|exact Heq]. Qed.

Lemma bm_iter_new : bm_iter bm_new = [].
Proof. apply bm_iter_eq; [constructor|]. intros x. split; [by intros []%bm_in_new|by intros ?%elem_of_nil]. Qed.

Lemma bm_iter_remove_range (b : BM) lo hi :
  bm_iter (bm_remove_range b lo hi) = filter (fun y => ~ lo <= y <= hi) (bm_iter b).
Proof.
  apply bm_iter_eq; [apply sorted_lt_filter, bm_sorted|].
  intros x. rewrite bm_in_remove_range, list_elem_of_filter. unfold bm_in. tauto.
Qed.

(** Adding an element beyond all others appends it. *)
Lemma bm_iter_add_last (b : BM) x :
  (forall y, bm_in y b -> y < x) -> bm_iter (bm_add b x) = bm_iter b ++ [x].
Proof.
  intros Hb. apply bm_iter_eq.
  - apply sorted_lt_app; [apply bm_sorted|repeat constructor|].
    intros y z Hy ->%list_elem_of_singleton. by apply Hb.
  - intros y. rewrite bm_in_add, elem_of_app, list_elem_of_singleton. unfold bm_in. tauto.
Qed.

End laws.

(** ** The instance *)

#[export] Instance gset_bitmap : Bitmap (gset Z) :=
  let sorted (s : gset Z) := merge_sort Z.le (elements s) in {|
  bm_new := ∅;
  bm_contains b x := bool_decide (x ∈ b);
  bm_add b x := {[ x ]} ∪ b;
  bm_remove b x := b ∖ {[ x ]};
  bm_remove_range b lo hi := filter (fun y => ~ lo <= y <= hi) b;
  bm_rank b x := Z.of_nat (length (filter (fun y => y <= x) (sorted b)));
  bm_select b n := sorted b !! Z.to_nat n;
  bm_maximum b := last (sorted b);
  bm_cardinality b := Z.of_nat (length (sorted b));
  bm_range_cardinality b lo hi := Z.of_nat (length (filter (fun y => lo <= y < hi) (sorted b)));
  bm_or b c := b ∪ c;
  bm_and b c := b ∩ c;
  bm_flip b lo hi :=
    filter (fun y => ~ lo <= y < hi) b ∪ (list_to_set (seqZ lo (hi - lo)) ∖ b);
  bm_iter := sorted;
  bm_collect := list_to_set;
|}.

Lemma gset_in (s : gset Z) x : bm_in x s <-> x ∈ s.
Proof. unfold bm_in. cbn. rewrite merge_sort_Permutation. apply elem_of_elements. Qed.

Lemma gset_iter_sorted (s : gset Z) : StronglySorted Z.lt (bm_iter s).
Proof.
  assert (Hs : StronglySorted Z.le (bm_iter s)) by (apply (StronglySorted_merge_sort Z.le); apply _).
  assert (Hn : NoDup (bm_iter s)) by (cbn; rewrite merge_sort_Permutation; apply NoDup_elements).
  induction Hs as [|x l Hs IH Hx]; [constructor|].
  apply NoDup_cons in Hn as [Hxl Hn]. constructor; [by apply IH|].
  apply Forall_forall. intros y Hy. eapply Forall_forall in Hx; [|exact Hy].
  enough (x <> y) by lia. by intros ->.
Qed.

#[export] Instance gset_bitmap_laws : BitmapLaws (gset Z).
Proof.
  split.
  - apply gset_iter_sorted.
  - intros x. rewrite gset_in. apply not_elem_of_empty.
  - intros b x. rewrite gset_in. apply bool_decide_eq_true.
  - intros b x y. rewrite !gset_in. cbn. by rewrite elem_of_union, elem_of_singleton.
  - intros b x y. rewrite !gset_in. cbn. rewrite elem_of_difference, elem_of_singleton. tauto.
  - intros b lo hi y. rewrite !gset_in. cbn. rewrite elem_of_filter. tauto.
  - done.
  - done.
  - done.
  - done.
  - done.
  - intros b c x. rewrite !gset_in. apply elem_of_union.
  - intros b c x. rewrite !gset_in. apply elem_of_intersection.
  - intros b lo hi x. rewrite !gset_in. cbn.
    rewrite elem_of_union, elem_of_filter, elem_of_difference, elem_of_list_to_set, elem_of_seqZ.
    replace (lo + (hi - lo)) with hi by lia. tauto.
  - intros l x. rewrite gset_in. apply elem_of_list_to_set.
Qed.
