(* ===== verification/PruneList.v ===== *)
(** The prune list of an MMR.

    Models [src/store/src/prune_list.rs]: the roots of the pruned subtrees as a
    bitmap of one-based positions, with the cached shifts that translate
    positions of the MMR to positions of the compacted files.

    Main results: the list stores exactly a set of pruned leaves, rolled up to
    the largest subtrees; the shifts count the positions that compaction
    removes; rebuilding a list from its bitmap gives the same list.

    A path on disk is the content that was saved there, [None] for no file;
    serialising bitmaps is the business of the bitmap library. [None] of a
    result stands for a failed assertion or an index out of range. *)

From Stdlib Require Import ZArith Lia.
From stdpp Require Import base numbers option sorting gmap list.
From S2P Require Import Prelude PmmrIndex Bitmap.
Open Scope Z_scope.

Record PruneList (BM : Type) : Type := mkPruneList {
  path : bool;
  bitmap : BM;
  shift_cache : list Z;
  leaf_shift_cache : list Z;
}.
Arguments mkPruneList {BM} path bitmap shift_cache leaf_shift_cache.
Arguments path {BM} p.
Arguments bitmap {BM} p.
Arguments shift_cache {BM} p.
Arguments leaf_shift_cache {BM} p.

Section prune_list.
Context {BM : Type} {HB : Bitmap BM}.
Implicit Types (pl : PruneList BM).

(** [1 + pos0 as u32] *)
Definition pos1_u32 (pos0 : Z) : Z := wrap 32 (1 + wrap 32 pos0).

Definition set_shift_cache pl l := mkPruneList (path pl) (bitmap pl) l (leaf_shift_cache pl).
Definition set_leaf_shift_cache pl l := mkPruneList (path pl) (bitmap pl) (shift_cache pl) l.

(** [cache[min(idx, cache.len()) - 1]] *)
Definition cached (cache : list Z) (idx : Z) : option Z :=
  if idx =? 0 then Some 0
  else cache !! (Nat.min (Z.to_nat idx) (length cache) - 1)%nat.

Definition get_shift pl (pos0 : Z) : option Z :=
  cached (shift_cache pl) (bm_rank (bitmap pl) (pos1_u32 pos0)).

Definition get_leaf_shift pl (pos0 : Z) : option Z :=
  cached (leaf_shift_cache pl) (bm_rank (bitmap pl) (pos1_u32 pos0)).

Definition get_total_shift pl : option Z :=
  get_shift pl (sub64 (default 1 (bm_maximum (bitmap pl))) 1).

Definition get_total_leaf_shift pl : option Z :=
  get_leaf_shift pl (sub64 (default 1 (bm_maximum (bitmap pl))) 1).

Definition is_pruned_root pl (pos0 : Z) : bool := bm_contains (bitmap pl) (pos1_u32 pos0).

(** [range.contains(&pos)] *)
Definition range_contains (range : Z * Z) (pos : Z) : bool :=
  (fst range <=? pos) && (pos <? snd range).

Definition is_pruned pl (pos0 : Z) : bool :=
  if is_pruned_root pl pos0 then true
  else
    let rank := bm_rank (bitmap pl) (pos1_u32 pos0) in
    match bm_select (bitmap pl) (wrap 32 rank) with
    | Some root => range_contains (bintree_range (sub64 root 1)) pos0
    | None => false
    end.

(** The shifts that a subtree adds to the ones before it. *)
Definition curr_shift pl (pos0 : Z) : Z :=
  if is_pruned_root pl pos0
  then mul64 2 (sub64 (shl64 1 (bintree_postorder_height pos0)) 1) else 0.

Definition curr_leaf_shift pl (pos0 : Z) : Z :=
  if is_pruned_root pl pos0 then
    let height := bintree_postorder_height pos0 in
    if height =? 0 then 0 else shl64 1 height
  else 0.

Definition calculate_next_shift pl (pos0 : Z) : option Z :=
  let! prev_shift := if pos0 =? 0 then Some 0 else get_shift pl (sub64 pos0 1) in
  Some (add64 prev_shift (curr_shift pl pos0)).

Definition calculate_next_leaf_shift pl (pos0 : Z) : option Z :=
  let! prev_shift := if pos0 =? 0 then Some 0 else get_leaf_shift pl (sub64 pos0 1) in
  Some (add64 prev_shift (curr_leaf_shift pl pos0)).

(** The loops of [build_shift_cache] and [build_leaf_shift_cache] over the
    entries of the bitmap. *)
Fixpoint build_shifts pl (entries : list Z) : option (PruneList BM) :=
  match entries with
  | [] => Some pl
  | pos1 :: entries =>
      let! shift := calculate_next_shift pl (sub64 pos1 1) in
      build_shifts (set_shift_cache pl (shift_cache pl ++ [shift])) entries
  end.

Fixpoint build_leaf_shifts pl (entries : list Z) : option (PruneList BM) :=
  match entries with
  | [] => Some pl
  | pos1 :: entries =>
      let! shift := calculate_next_leaf_shift pl (sub64 pos1 1) in
      build_leaf_shifts (set_leaf_shift_cache pl (leaf_shift_cache pl ++ [shift])) entries
  end.

Definition build_shift_cache pl : option (PruneList BM) :=
  build_shifts (set_shift_cache pl []) (bm_iter (bitmap pl)).

Definition build_leaf_shift_cache pl : option (PruneList BM) :=
  build_leaf_shifts (set_leaf_shift_cache pl []) (bm_iter (bitmap pl)).

Definition init_caches pl : option (PruneList BM) :=
  let! pl := build_shift_cache pl in build_leaf_shift_cache pl.

Definition cleanup_subtree pl (pos0 : Z) : PruneList BM :=
  let lc0 := wrap 32 (bintree_leftmost pos0) in
  let size := default 0 (bm_maximum (bitmap pl)) in
  if size <=? lc0 then pl
  else
    let idx := Z.to_nat (bm_rank (bitmap pl) lc0) in
    mkPruneList (path pl) (bm_remove_range (bitmap pl) (wrap 32 (lc0 + 1)) size)
      (take idx (shift_cache pl)) (take idx (leaf_shift_cache pl)).

Definition append_single pl (pos0 : Z) : option (PruneList BM) :=
  if pos0 <? default 0 (bm_maximum (bitmap pl)) then None
  else
    let pl := mkPruneList (path pl) (bm_add (bitmap pl) (pos1_u32 pos0)) (shift_cache pl)
                (leaf_shift_cache pl) in
    let! shift := calculate_next_shift pl pos0 in
    let pl := set_shift_cache pl (shift_cache pl ++ [shift]) in
    let! leaf_shift := calculate_next_leaf_shift pl pos0 in
    Some (set_leaf_shift_cache pl (leaf_shift_cache pl ++ [leaf_shift])).

(** The recursion goes up one level each time, so 64 rounds are enough. *)
Fixpoint append_loop (fuel : nat) pl (pos0 : Z) : option (PruneList BM) :=
  match fuel with
  | O => None
  | S fuel =>
      let max := default 0 (bm_maximum (bitmap pl)) in
      if pos0 <? max then None
      else
        let '(parent0, sibling0) := family pos0 in
        if is_pruned pl sibling0 then append_loop fuel pl parent0
        else append_single (cleanup_subtree pl pos0) pos0
  end.

Definition append pl (pos0 : Z) : option (PruneList BM) := append_loop 64 pl pos0.

Fixpoint append_all pl (entries : list Z) : option (PruneList BM) :=
  match entries with
  | [] => Some pl
  | pos1 :: entries => let! pl := append pl (sub64 pos1 1) in append_all pl entries
  end.

Definition new (path : bool) (b : BM) : option (PruneList BM) :=
  if bm_contains b 0 then None
  else append_all (mkPruneList path bm_new [] []) (bm_iter b).

Definition empty : option (PruneList BM) := new false bm_new.

(** [open]: [file] is the saved bitmap, if there is one. *)
Definition open (file : option BM) : option (PruneList BM) :=
  let b := default bm_new file in
  if bm_contains b 0 then None
  else let! pl := new true b in init_caches pl.

(** [flush]: what is on disk afterwards. *)
Definition flush pl (file : option BM) : option BM :=
  if path pl then Some (bitmap pl) else file.

Definition discard pl (file : option BM) : option (PruneList BM) :=
  if path pl then new true (default bm_new file) else empty.

Definition len pl : Z := bm_cardinality (bitmap pl).
Definition is_empty pl : bool := bm_cardinality (bitmap pl) =? 0.
Definition to_vec pl : list Z := bm_iter (bitmap pl).

Definition pruned_bintree_range_iter pl : list (Z * Z) :=
  map (fun x => let rng := bintree_range (sub64 x 1) in (add64 1 (fst rng), add64 1 (snd rng)))
    (to_vec pl).

(** [UnprunedIterator] *)
Record UnprunedIterator : Type := mkUnpruned {
  inner : list (Z * Z);
  current_excl_range : option (Z * Z);
  current_pos : Z;
}.

Definition unpruned_new (ranges : list (Z * Z)) : UnprunedIterator :=
  mkUnpruned (tail ranges) (head ranges) 1.

Fixpoint unpruned_next_loop (inner : list (Z * Z)) (excl : option (Z * Z)) (pos : Z)
    : Z * UnprunedIterator :=
  match excl with
  | Some range =>
      if pos <? fst range then (pos, mkUnpruned inner excl (add64 pos 1))
      else
        match inner with
        | [] => (snd range, mkUnpruned [] None (add64 (snd range) 1))
        | r :: inner => unpruned_next_loop inner (Some r) (snd range)
        end
  | None => (pos, mkUnpruned inner excl (add64 pos 1))
  end.

Definition unpruned_next (it : UnprunedIterator) : Z * UnprunedIterator :=
  unpruned_next_loop (inner it) (current_excl_range it) (current_pos it).

(** [take_while(|x| x <= cutoff_pos)]; positions ascend from 1, so
    [cutoff_pos + 1] rounds are enough. *)
Fixpoint unpruned_upto (fuel : nat) (it : UnprunedIterator) (cutoff_pos : Z) : list Z :=
  match fuel with
  | O => []
  | S fuel =>
      let '(x, it) := unpruned_next it in
      if x <=? cutoff_pos then x :: unpruned_upto fuel it cutoff_pos else []
  end.

Definition unpruned_iter pl (cutoff_pos : Z) : list Z :=
  unpruned_upto (S (Z.to_nat cutoff_pos)) (unpruned_new (pruned_bintree_range_iter pl)) cutoff_pos.

Definition unpruned_leaf_iter pl (cutoff_pos : Z) : list Z :=
  filter (fun x => is_leaf (sub64 x 1) = true) (unpruned_iter pl cutoff_pos).

End prune_list.

(** The prune lists of the source's tests. *)
Definition sample_list (l : list Z) : option (PruneList (gset Z)) :=
  append_all (mkPruneList true bm_new [] []) (map (fun x => x + 1) l).

Lemma append_vectors :
  (to_vec <$> sample_list [0; 1]) = Some [3] /\
  (to_vec <$> sample_list [0; 1; 3; 4]) = Some [7] /\
  ((fun pl => (shift_cache pl, leaf_shift_cache pl)) <$> sample_list [3; 4; 7; 8; 10; 11]) =
    Some ([2; 8], [2; 6]) /\
  ((fun pl => unpruned_iter pl 9) <$> sample_list [0; 1; 4]) = Some [4; 6; 7; 8; 9].
Proof. vm_compute. done. Qed.

(** * Subtrees *)

Definition under (r p : Z) : Prop := fst (bintree_range r) <= p < snd (bintree_range r).

#[export] Instance under_dec r p : Decision (under r p).
Proof. unfold under. apply _. Defined.

Lemma npos_pos h q : 0 <= h -> 0 <= q -> 0 <= npos h q.
Proof. intros. pose proof (npos_bounds h q). lia. Qed.

(** Nodes are in postorder: by last leaf, then by height. *)
Lemma npos_lt_iff h q h' q' :
  0 <= h -> 0 <= q -> 0 <= h' -> 0 <= q' ->
  npos h' q' < npos h q <->
  last_leaf h' q' < last_leaf h q \/ (last_leaf h' q' = last_leaf h q /\ h' < h).
Proof.
  intros. rewrite <- !node_pos_npos by lia.
  pose proof (last_leaf_node h q). pose proof (last_leaf_node h' q').
  assert (Hmono : forall m1 h1 m2 h2, is_node m1 h1 -> is_node m2 h2 -> m1 < m2 -> node_pos m1 h1 < node_pos m2 h2).
  { intros m1 h1 m2 h2 Hn1 Hn2 Hm. pose proof (node_before_next_leaf m1 h1 Hn1).
    destruct Hn1 as (? & ? & _), Hn2 as (? & ? & _).
    assert (node_pos (m1 + 1) 0 <= node_pos m2 0).
    { rewrite <- !npos0. destruct (decide (m1 + 1 = m2)) as [->|]; [lia|].
      pose proof (npos0_mono (m1 + 1) m2). lia. }
    unfold node_pos in *. lia. }
  destruct (Z.lt_trichotomy (last_leaf h' q') (last_leaf h q)) as [Hlt|[Heq|Hgt]].
  - split; [auto|]. intros _. apply Hmono; auto.
  - rewrite Heq. unfold node_pos. lia.
  - split; [|lia]. intros. pose proof (Hmono _ _ _ _ (last_leaf_node h q ltac:(lia) ltac:(lia))
      (last_leaf_node h' q' ltac:(lia) ltac:(lia)) Hgt). lia.
Qed.

(** Two multiples of powers of two: intervals are nested or disjoint. *)
Lemma dyadic_nested a b q q' :
  0 <= a <= b -> 2 ^ b * q < 2 ^ a * (q' + 1) -> 2 ^ b * q <= 2 ^ a * q'.
Proof.
  intros Hab. assert (E : 2 ^ b = 2 ^ a * 2 ^ (b - a)) by (rewrite <- Z.pow_add_r by lia; f_equal; lia).
  rewrite E, <- Z.mul_assoc. intros H%Z.mul_lt_mono_pos_l; [|apply pow2_pos; lia].
  apply Z.mul_le_mono_nonneg_l; [apply Z.pow_nonneg; lia|lia].
Qed.

Lemma under_npos h q h' q' :
  0 <= h -> 0 <= q -> 0 <= h' -> 0 <= q' -> in_bounds (npos h q) ->
  under (npos h q) (npos h' q') <->
  2 ^ h * q <= 2 ^ h' * q' /\ 2 ^ h' * (q' + 1) <= 2 ^ h * (q + 1).
Proof.
  intros Hh Hq Hh' Hq' Hb. unfold under. rewrite range_npos by done. cbn [fst snd].
  assert (Hlo : npos 0 (2 ^ h * q) <= npos h' q' <-> 2 ^ h * q < 2 ^ h' * (q' + 1)).
  { pose proof (npos_lt_leaf h' q' (2 ^ h * q) Hh' Hq' ltac:(pose proof (pow2_pos h); nia)). lia. }
  assert (Hhi : npos h' q' < npos h q + 1 <-> ~ npos h q < npos h' q') by lia.
  rewrite Hlo, Hhi, npos_lt_iff by lia. unfold last_leaf.
  pose proof (pow2_pos h Hh). pose proof (pow2_pos h' Hh').
  split.
  - intros [H1 H2]. assert (2 ^ h' * (q' + 1) <= 2 ^ h * (q + 1)) by lia. split; [|done].
    destruct (Z.le_gt_cases h' h); [by apply (dyadic_nested h' h); lia|].
    exfalso. assert (Heq : 2 ^ h' * (q' + 1) < 2 ^ h * (q + 1)) by lia.
    apply (dyadic_nested h h') in Heq; lia.
  - intros [H1 H2]. split; [lia|]. intros [?|[Heq Hlt]]; [lia|].
    assert (2 ^ h < 2 ^ h') by (apply Z.pow_lt_mono_r; lia). nia.
Qed.

Lemma under_refl r : in_bounds r -> under r r.
Proof.
  intros Hr. destruct (npos_surj r ltac:(unfold in_bounds in Hr; lia)) as (h & q & ? & ? & ->).
  apply under_npos; [done..|lia].
Qed.

(** The position of a node, for a proof by its coordinates. *)
Ltac as_node p h q :=
  let Hh := fresh "Hh" in let Hq := fresh "Hq" in let E := fresh "E" in
  destruct (npos_surj p) as (h & q & Hh & Hq & E); [try (unfold in_bounds in *; lia)|try subst p].

(** Subtrees are nested or disjoint. *)
Lemma under_laminar r s p :
  in_bounds r -> in_bounds s -> under r p -> under s p -> r <= s -> under s r.
Proof.
  intros Hr Hs Hrp Hsp Hrs.
  assert (0 <= p) by (as_node r h q; unfold under in Hrp; rewrite range_npos in Hrp by done; simpl in Hrp;
    pose proof (npos_pos 0 (2 ^ h * q)); pose proof (pow2_pos h); nia).
  as_node r h q. as_node s h' q'. as_node p k x.
  rewrite under_npos in * by done. unfold in_bounds in *.
  assert (Hle : ~ npos h' q' < npos h q) by lia. rewrite npos_lt_iff in Hle by lia. unfold last_leaf in Hle.
  pose proof (pow2_pos h). pose proof (pow2_pos h'). pose proof (pow2_pos k).
  assert (2 ^ h * (q + 1) <= 2 ^ h' * (q' + 1)) by lia. split; [|done].
  destruct (Z.le_gt_cases h h'); [apply (dyadic_nested h h'); nia|].
  exfalso. assert (Hlt : 2 ^ h * (q + 1) < 2 ^ h' * (q' + 1)) by lia.
  apply (dyadic_nested h' h) in Hlt; lia.
Qed.

Lemma under_trans r s p : in_bounds r -> in_bounds s -> in_bounds p -> under r s -> under s p -> under r p.
Proof.
  intros. as_node r h q. as_node s h' q'. as_node p k x. rewrite under_npos in * by done. lia.
Qed.

Lemma under_le r p : under r p -> in_bounds r -> p <= r.
Proof. intros Hu Hr. as_node r h q. unfold under in Hu. rewrite range_npos in Hu by done. simpl in Hu. lia. Qed.

(** * The invariant *)

(** The running sums of a list. *)
Fixpoint psums (acc : Z) (l : list Z) : list Z :=
  match l with
  | [] => []
  | x :: l => (acc + x) :: psums (acc + x) l
  end.

Lemma psums_length acc l : length (psums acc l) = length l.
Proof. revert acc. induction l; intros; simpl; auto. Qed.

Lemma psums_app acc l k : psums acc (l ++ k) = psums acc l ++ psums (acc + sumZ l) k.
Proof.
  revert acc. induction l as [|x l IH]; intros acc; [by rewrite Z.add_0_r|].
  simpl. rewrite IH. unfold sumZ. simpl. by rewrite Z.add_assoc.
Qed.

Lemma psums_take acc l n : take n (psums acc l) = psums acc (take n l).
Proof. revert acc n. induction l as [|x l IH]; intros acc [|n]; simpl; auto. by rewrite IH. Qed.

Lemma psums_lookup acc l n : (n < length l)%nat -> psums acc l !! n = Some (acc + sumZ (take (S n) l)).
Proof.
  revert acc n. induction l as [|x l IH]; intros acc n Hn; simpl in Hn; [lia|].
  destruct n as [|n]; cbn [psums lookup list_lookup take].
  - unfold sumZ. simpl. by rewrite Z.add_0_r.
  - rewrite IH by lia. unfold sumZ. simpl. f_equal. lia.
Qed.

(** Subtrees that follow each other, the first one not before [a]. *)
Fixpoint laminar (a : Z) (rs : list Z) : Prop :=
  match rs with
  | [] => True
  | r :: rs => a <= fst (bintree_range r) /\ laminar (r + 1) rs
  end.

(** What a pruned subtree removes from the files: all but its root. *)
Definition shift_of (r : Z) : Z := 2 ^ (bintree_postorder_height r + 1) - 2.
Definition leaf_shift_of (r : Z) : Z :=
  if bintree_postorder_height r =? 0 then 0 else 2 ^ bintree_postorder_height r.

(** Positions are below [2^31]: the code keeps them in 32 bits and asks for
    siblings to the right, at up to twice the position. *)
Definition root_ok (r : Z) : Prop := 0 <= r < 2 ^ 31.

Definition roots_ok (rs : list Z) : Prop := Forall root_ok rs /\ laminar 0 rs.

Definition pruned (rs : list Z) (p : Z) : Prop := exists r, r ∈ rs /\ under r p.

#[export] Instance pruned_dec rs p : Decision (pruned rs p).
Proof.
  refine (cast_if (decide (Exists (fun r => under r p) rs))); unfold pruned; rewrite Exists_exists in *; done.
Defined.

Lemma root_ok_bounds r : root_ok r -> in_bounds r.
Proof. unfold root_ok, in_bounds. lia. Qed.
#[export] Hint Resolve root_ok_bounds : grin.

Lemma roots_bounds rs r : Forall root_ok rs -> r ∈ rs -> root_ok r /\ in_bounds r.
Proof. rewrite Forall_forall. intros Hb Hr. split; auto with grin. Qed.

Lemma laminar_le a b rs : laminar a rs -> b <= a -> laminar b rs.
Proof. destruct rs; simpl; [done|]. intros [? ?] ?. split; [lia|done]. Qed.

Lemma range_fst_le r : in_bounds r -> fst (bintree_range r) <= r.
Proof. intros Hr. pose proof (under_refl r Hr) as H. apply H. Qed.

Lemma range_snd r : in_bounds r -> snd (bintree_range r) = r + 1.
Proof. intros Hr. as_node r h q. by rewrite range_npos. Qed.

(** The elements of a laminar list start at its bound. *)
Lemma laminar_ge a rs r :
  Forall root_ok rs -> laminar a rs -> r ∈ rs -> a <= fst (bintree_range r).
Proof.
  intros Hb. revert a. induction Hb as [|s rs Hs Hb IH]; intros a Hl Hr; [by apply elem_of_nil in Hr|].
  destruct Hl as [Ha Hl]. apply elem_of_cons in Hr as [->|Hr]; [done|].
  specialize (IH _ Hl Hr). pose proof (range_fst_le s ltac:(auto with grin)). lia.
Qed.

Lemma laminar_sorted a rs : Forall root_ok rs -> laminar a rs -> StronglySorted Z.lt rs.
Proof.
  intros Hb. revert a. induction Hb as [|s rs Hs Hb IH]; intros a Hl; constructor.
  - by eapply IH, Hl.
  - apply Forall_forall. intros r Hr. destruct Hl as [_ Hl].
    pose proof (laminar_ge _ _ _ Hb Hl Hr). eapply Forall_forall in Hb; [|exact Hr].
    pose proof (range_fst_le r ltac:(auto with grin)). lia.
Qed.

Lemma laminar_app a rs r :
  Forall root_ok rs -> laminar a rs -> a <= fst (bintree_range r) ->
  (forall s, s ∈ rs -> s < fst (bintree_range r)) -> laminar a (rs ++ [r]).
Proof.
  intros Hb. revert a. induction Hb as [|s rs Hs Hb IH]; intros a Hl Ha Hr; [done|].
  destruct Hl as [Ha' Hl]. simpl. split; [done|]. apply IH; [done| |].
  - pose proof (Hr s ltac:(by left)). lia.
  - intros t Ht. apply Hr. by right.
Qed.

Lemma laminar_filter (P : Z -> Prop) `{forall x, Decision (P x)} a rs :
  Forall root_ok rs -> laminar a rs -> laminar a (filter P rs).
Proof.
  intros Hb. revert a. induction Hb as [|s rs Hs Hb IH]; intros a Hl; [done|].
  destruct Hl as [Ha Hl]. rewrite filter_cons. case_decide; simpl.
  - split; [done|]. by apply IH.
  - eapply laminar_le; [by apply IH|]. pose proof (range_fst_le s ltac:(auto with grin)). lia.
Qed.

(** Two roots that cover a position are equal. *)
Lemma laminar_unique a rs r s p :
  Forall root_ok rs -> laminar a rs -> r ∈ rs -> s ∈ rs -> under r p -> under s p -> r = s.
Proof.
  intros Hb. revert a. induction Hb as [|t rs Ht Hb IH]; intros a Hl Hr Hs Hrp Hsp;
    [by apply elem_of_nil in Hr|]. destruct Hl as [_ Hl].
  assert (Hone : forall x, x ∈ rs -> under x p -> under t p -> False).
  { intros x Hx Hxp Htp. pose proof (laminar_ge _ _ _ Hb Hl Hx).
    pose proof (under_le t p Htp ltac:(auto with grin)). unfold under in Hxp. lia. }
  apply elem_of_cons in Hr as [->|Hr], Hs as [->|Hs]; [done|exfalso; eauto..|by eapply IH].
Qed.

(** Splitting a sorted list at a position. *)
Lemma sorted_split (rs : list Z) p :
  StronglySorted Z.lt rs -> rs = filter (fun r => r <= p) rs ++ filter (fun r => p < r) rs.
Proof.
  induction 1 as [|r rs Hs IH Hr]; [done|]. rewrite !filter_cons.
  destruct (decide (r <= p)), (decide (p < r)); try lia.
  - simpl. by rewrite <- IH.
  - rewrite (filter_none (fun r => r <= p) rs), (filter_all (fun r => p < r) rs); [done| |].
    + eapply Forall_impl; [exact Hr|]. simpl. lia.
    + eapply Forall_impl; [exact Hr|]. simpl. lia.
Qed.

(** The covering root of a position that is not a root is the next one. *)
Lemma pruned_next a rs p :
  Forall root_ok rs -> laminar a rs -> p ∉ rs ->
  pruned rs p <-> exists r, head (filter (fun r => p < r) rs) = Some r /\ under r p.
Proof.
  intros Hb Hl Hp. pose proof (laminar_sorted a rs Hb Hl) as Hs. split.
  - intros (r & Hr & Hrp). assert (Hlt : p < r).
    { pose proof (under_le r p Hrp (proj2 (roots_bounds rs r Hb Hr))).
      enough (p <> r) by lia. by intros ->. }
    assert (Hin : r ∈ filter (fun r => p < r) rs) by (by apply list_elem_of_filter).
    destruct (filter (fun r => p < r) rs) as [|s rest] eqn:E; [by apply elem_of_nil in Hin|].
    exists s. split; [done|]. assert (Hss : s ∈ rs /\ p < s).
    { assert (s ∈ filter (fun r => p < r) rs) as [? ?]%list_elem_of_filter by (rewrite E; by left). done. }
    destruct (decide (s = r)) as [->|Hne]; [done|]. exfalso.
    assert (Hsr : s < r).
    { apply elem_of_cons in Hin as [->|Hin]; [done|]. assert (StronglySorted Z.lt (s :: rest)) as Hss'
        by (rewrite <- E; by apply sorted_lt_filter). apply StronglySorted_inv in Hss' as [_ Hss'].
      eapply Forall_forall in Hss'; [|exact Hin]. done. }
    assert (under r s).
    { unfold under in *. rewrite range_snd in * by apply (roots_bounds rs r Hb Hr). lia. }
    assert (Hsu : under s s) by (apply under_refl, (roots_bounds rs s Hb), Hss).
    apply Hne. eapply (laminar_unique a rs s r s); try done. apply Hss.
  - intros (r & Hr & Hrp). exists r. split; [|done].
    assert (r ∈ filter (fun r => p < r) rs) as [? ?]%list_elem_of_filter; [|done].
    destruct (filter _ rs); [done|]. injection Hr as ->. by left.
Qed.

(** * The operations *)

Lemma cached_psums l (n : nat) :
  (n <= length l)%nat -> cached (psums 0 l) (Z.of_nat n) = Some (sumZ (take n l)).
Proof.
  intros Hn. unfold cached. destruct (Z.eqb_spec (Z.of_nat n) 0) as [E|E].
  - replace n with 0%nat by lia. done.
  - rewrite Nat2Z.id, psums_length, Nat.min_l, psums_lookup by lia.
    rewrite Z.add_0_l. by replace (S (n - 1)) with n by lia.
Qed.

Lemma pos1_u32_small p : 0 <= p < 2 ^ 32 - 1 -> pos1_u32 p = p + 1.
Proof. intros. unfold pos1_u32. rewrite (wrap_small 32 p), wrap_small by (unfold in_range; lia). lia. Qed.

Lemma filter_pred (l : list Z) p :
  length (filter (fun y => y <= p + 1) l) = length (filter (fun r => r <= p) (map (fun x => x - 1) l)).
Proof.
  induction l as [|x l IH]; [done|]. cbn [map]. rewrite !filter_cons.
  destruct (decide (x <= p + 1)), (decide (x - 1 <= p)); simpl; lia.
Qed.

Section spec.
Context {BM : Type} {HB : Bitmap BM} {HL : BitmapLaws BM}.
Implicit Types (pl : PruneList BM).

Definition roots pl : list Z := map (fun x => x - 1) (bm_iter (bitmap pl)).

Record prune_ok pl : Prop := {
  ok_roots : roots_ok (roots pl);
  ok_rolled : forall r, r ∈ roots pl -> snd (family r) ∉ roots pl;
  ok_shift : shift_cache pl = psums 0 (map shift_of (roots pl));
  ok_leaf_shift : leaf_shift_cache pl = psums 0 (map leaf_shift_of (roots pl));
}.

Lemma elem_of_roots pl p : p ∈ roots pl <-> bm_in (p + 1) (bitmap pl).
Proof.
  unfold roots, bm_in. rewrite elem_of_map. split.
  - intros (x & -> & ?). by replace (x - 1 + 1) with x by lia.
  - intros. exists (p + 1). split; [lia|done].
Qed.

Lemma roots_sorted pl : StronglySorted Z.lt (roots pl).
Proof.
  unfold roots. induction (bm_sorted (bitmap pl)) as [|x l _ IH Hx]; [constructor|].
  simpl. constructor; [done|]. apply Forall_fmap. eapply Forall_impl; [exact Hx|]. simpl. lia.
Qed.

Lemma rank_spec pl p :
  0 <= p < 2 ^ 32 - 1 ->
  bm_rank (bitmap pl) (pos1_u32 p) = Z.of_nat (length (filter (fun r => r <= p) (roots pl))).
Proof. intros. by rewrite pos1_u32_small, bm_rank_length, filter_pred. Qed.

Lemma is_pruned_root_spec pl p :
  0 <= p < 2 ^ 32 - 1 -> is_pruned_root pl p = true <-> p ∈ roots pl.
Proof. intros. unfold is_pruned_root. by rewrite bm_contains_iff, pos1_u32_small, elem_of_roots. Qed.

Lemma roots_count pl p : Forall root_ok (roots pl) -> in_range 32 (Z.of_nat (length (filter (fun r => r <= p) (roots pl)))).
Proof.
  intros Hb. pose proof (roots_sorted pl) as Hs. unfold in_range.
  pose proof (sorted_lt_length 0 (2 ^ 31) _ Hs Hb ltac:(lia)).
  pose proof (length_filter (fun r => r <= p) (roots pl)). lia.
Qed.

Lemma lookup_head_drop {A} (l : list A) n : l !! n = head (drop n l).
Proof. revert n. induction l as [|x l IH]; intros [|n]; simpl; auto. Qed.

Lemma filter_take (rs : list Z) p :
  StronglySorted Z.lt rs -> take (length (filter (fun r => r <= p) rs)) rs = filter (fun r => r <= p) rs.
Proof. intros Hs. rewrite (sorted_split rs p Hs) at 2. by rewrite take_app_length. Qed.

Lemma filter_drop (rs : list Z) p :
  StronglySorted Z.lt rs -> drop (length (filter (fun r => r <= p) rs)) rs = filter (fun r => p < r) rs.
Proof. intros Hs. rewrite (sorted_split rs p Hs) at 2. by rewrite drop_app_length. Qed.

(** [is_pruned] decides whether a position is covered by a root. *)
Lemma is_pruned_spec pl p :
  roots_ok (roots pl) -> 0 <= p < 2 ^ 32 - 1 -> is_pruned pl p = true <-> pruned (roots pl) p.
Proof.
  intros [Hb Hl] Hp. unfold is_pruned. pose proof (is_pruned_root_spec pl p Hp) as Hroot.
  destruct (is_pruned_root pl p).
  { split; [intros _|done]. exists p. assert (p ∈ roots pl) by by apply Hroot.
    split; [done|]. by apply under_refl, (roots_bounds (roots pl)). }
  rewrite (pruned_next 0 (roots pl) p Hb Hl) by (intros ?%Hroot; done).
  pose proof (roots_count pl p Hb) as Hc. rewrite rank_spec by done.
  rewrite wrap_small by done. rewrite bm_select_lookup, Nat2Z.id by lia.
  assert (Hsel : (fun x => x - 1) <$> bm_iter (bitmap pl) !! length (filter (fun r => r <= p) (roots pl)) =
    head (filter (fun r => p < r) (roots pl))).
  { rewrite <- list_lookup_fmap. change ((fun x => x - 1) <$> bm_iter (bitmap pl)) with (roots pl).
    by rewrite lookup_head_drop, filter_drop by apply roots_sorted. }
  rewrite <- Hsel. destruct (bm_iter (bitmap pl) !! _) as [x|] eqn:Ex; simpl.
  - assert (Hx : x - 1 ∈ roots pl) by (apply elem_of_map; exists x; split; [done|by eapply list_elem_of_lookup_2]).
    destruct (roots_bounds _ _ Hb Hx) as [Hok _]. unfold root_ok in Hok.
    rewrite sub64_small by (unfold_words; lia). unfold range_contains, under.
    rewrite andb_true_iff, Z.leb_le, Z.ltb_lt. split; [eauto|by intros (? & [= <-] & ?)].
  - split; [done|by intros (? & ? & _)].
Qed.

(** ** Shifts *)

Lemma get_shift_sum pl p :
  prune_ok pl -> 0 <= p < 2 ^ 32 - 1 ->
  get_shift pl p = Some (sumZ (map shift_of (filter (fun r => r <= p) (roots pl)))) /\
  get_leaf_shift pl p = Some (sumZ (map leaf_shift_of (filter (fun r => r <= p) (roots pl)))).
Proof.
  intros Hok Hp. unfold get_shift, get_leaf_shift. rewrite !rank_spec by done.
  rewrite (ok_shift pl Hok), (ok_leaf_shift pl Hok).
  pose proof (length_filter (fun r => r <= p) (roots pl)).
  rewrite !cached_psums by by rewrite length_map.
  by rewrite !firstn_map, filter_take by apply roots_sorted.
Qed.

(** ** Appending *)

Lemma maximum_le pl b :
  0 <= b -> (forall r, r ∈ roots pl -> r < b) -> default 0 (bm_maximum (bitmap pl)) <= b.
Proof.
  intros Hb Hr. rewrite bm_maximum_last. destruct (last (bm_iter (bitmap pl))) as [m|] eqn:E; [|done].
  apply last_Some_elem_of in E. simpl. pose proof (Hr (m - 1)).
  rewrite elem_of_roots in H. replace (m - 1 + 1) with m in H by lia. specialize (H E). lia.
Qed.

Lemma maximum_ge pl r : r ∈ roots pl -> r + 1 <= default 0 (bm_maximum (bitmap pl)).
Proof.
  intros Hr%elem_of_roots. rewrite bm_maximum_last. unfold bm_in in Hr.
  pose proof (bm_sorted (bitmap pl)) as Hs. induction Hs as [|x l Hs IH Hx]; [by apply elem_of_nil in Hr|].
  rewrite last_cons. apply elem_of_cons in Hr as [Hr|Hr].
  - destruct (last l) as [m|] eqn:E; simpl; [|lia].
    apply last_Some_elem_of in E. eapply Forall_forall in Hx; [|exact E]. lia.
  - specialize (IH Hr). destruct (last l) as [m|] eqn:E; [done|].
    apply last_None in E. subst. by apply elem_of_nil in Hr.
Qed.

Lemma leftmost_range r : in_bounds r -> bintree_leftmost r = fst (bintree_range r).
Proof. intros Hr. as_node r h q. destruct (leftmost_npos h q) as [-> _]; [done..|]. by rewrite range_npos. Qed.

Lemma range_fst_nonneg r : in_bounds r -> 0 <= fst (bintree_range r).
Proof.
  intros Hr. as_node r h q. rewrite range_npos by done. apply npos_pos; [lia|].
  pose proof (pow2_pos h). nia.
Qed.

(** The caches hold the running sums. *)
Definition caches_ok pl : Prop :=
  shift_cache pl = psums 0 (map shift_of (roots pl)) /\
  leaf_shift_cache pl = psums 0 (map leaf_shift_of (roots pl)).

Lemma cleanup_subtree_spec pl p :
  caches_ok pl -> root_ok p ->
  roots (cleanup_subtree pl p) = filter (fun r => r <= fst (bintree_range p) - 1) (roots pl) /\
  caches_ok (cleanup_subtree pl p).
Proof.
  intros [Hs Hls] Hp. assert (Hb : in_bounds p) by auto with grin.
  pose proof (range_fst_le p Hb). pose proof (range_fst_nonneg p Hb). unfold root_ok in Hp.
  unfold cleanup_subtree. rewrite leftmost_range by done. set (lo := fst (bintree_range p)) in *.
  rewrite !wrap_small by (unfold in_range; lia).
  destruct (Z.leb_spec (default 0 (bm_maximum (bitmap pl))) lo) as [Hle|Hgt].
  - split; [|done]. rewrite filter_all; [done|]. apply Forall_forall. intros r Hr.
    pose proof (maximum_ge pl r Hr). lia.
  - assert (Hroots : roots (mkPruneList (path pl) (bm_remove_range (bitmap pl) (lo + 1)
        (default 0 (bm_maximum (bitmap pl)))) (shift_cache pl) (leaf_shift_cache pl)) =
      filter (fun r => r <= lo - 1) (roots pl)).
    { apply sorted_lt_ext; [apply roots_sorted|apply sorted_lt_filter, roots_sorted|]. intros r.
      rewrite elem_of_roots, list_elem_of_filter, elem_of_roots. cbn [bitmap]. rewrite bm_in_remove_range.
      split; [|intros [? ?]; split; [done|lia]]. intros [Hr Hn]. split; [|done].
      apply elem_of_roots, maximum_ge in Hr. lia. }
    assert (Hidx : Z.to_nat (bm_rank (bitmap pl) lo) = length (filter (fun r => r <= lo - 1) (roots pl))).
    { rewrite bm_rank_length, Nat2Z.id. unfold roots. rewrite <- filter_pred. f_equal.
      apply list_filter_iff. intros. lia. }
    split; [exact Hroots|]. unfold caches_ok. cbn [shift_cache leaf_shift_cache].
    match goal with |- context [roots ?x] => change (roots x) with
      (roots (mkPruneList (path pl) (bm_remove_range (bitmap pl) (lo + 1)
        (default 0 (bm_maximum (bitmap pl)))) (shift_cache pl) (leaf_shift_cache pl))) end.
    rewrite Hroots, Hidx, Hs, Hls, !psums_take, !firstn_map.
    by rewrite !filter_take by apply roots_sorted.
Qed.

Lemma shifts_range r : root_ok r -> 0 <= shift_of r <= 2 ^ 32 /\ 0 <= leaf_shift_of r <= 2 ^ 32 /\
  0 <= bintree_postorder_height r <= 31.
Proof.
  intros Hr. unfold shift_of, leaf_shift_of, root_ok in *. as_node r h q.
  rewrite height_npos by lia. destruct (npos_bounds h q) as (_ & Hb & _); [done..|].
  assert (h < 31).
  { destruct (Z.lt_ge_cases h 31); [done|]. assert (2 ^ 32 <= 2 ^ (h + 1)) by (apply Z.pow_le_mono_r; lia). lia. }
  assert (2 ^ (h + 1) <= 2 ^ 32) by (apply Z.pow_le_mono_r; lia).
  assert (0 < 2 ^ h <= 2 ^ 32) by (split; [by apply pow2_pos|apply Z.pow_le_mono_r; lia]).
  assert (2 ^ (h + 1) = 2 * 2 ^ h) by (rewrite Z.pow_add_r by lia; lia).
  destruct (Z.eqb_spec h 0); lia.
Qed.

Lemma curr_shifts pl p :
  root_ok p -> is_pruned_root pl p = true ->
  curr_shift pl p = shift_of p /\ curr_leaf_shift pl p = leaf_shift_of p.
Proof.
  intros Hp Hr. pose proof (shifts_range p Hp) as (Hs & _ & Hh).
  unfold curr_shift, curr_leaf_shift, shift_of, leaf_shift_of in *. rewrite Hr.
  set (h := bintree_postorder_height p) in *. rewrite shl64_1 by lia.
  rewrite Z.pow_add_r, Z.pow_1_r in * by lia. pose proof (pow2_pos h ltac:(lia)).
  rewrite sub64_small by (unfold_words; lia). rewrite mul64_small by (unfold_words; lia).
  split; [lia|done].
Qed.

(** The sums fit a [u64] by far. *)
Lemma shifts_sum_small (f : Z -> Z) rs :
  StronglySorted Z.lt rs -> Forall root_ok rs -> (forall r, root_ok r -> 0 <= f r <= 2 ^ 32) ->
  0 <= sumZ (map f rs) <= 2 ^ 63.
Proof.
  intros Hs Hb Hf. pose proof (sorted_lt_length 0 (2 ^ 31) rs Hs Hb ltac:(lia)).
  split.
  - apply sumZ_nonneg. apply Forall_map. eapply Forall_impl; [exact Hb|]. intros r Hr. by apply Hf.
  - transitivity (Z.of_nat (length (map f rs)) * 2 ^ 32).
    + apply sumZ_bound, Forall_map. eapply Forall_impl; [exact Hb|]. intros r Hr. by apply Hf.
    + rewrite length_map. lia.
Qed.

Lemma append_single_spec pl p :
  caches_ok pl -> Forall root_ok (roots pl) -> root_ok p -> (forall r, r ∈ roots pl -> r < p) ->
  exists pl', append_single pl p = Some pl' /\ roots pl' = roots pl ++ [p] /\ caches_ok pl' /\
    path pl' = path pl.
Proof.
  intros [Hs Hls] Hb Hp Hlt. unfold append_single. pose proof Hp as Hp'. unfold root_ok in Hp'.
  destruct (Z.ltb_spec p (default 0 (bm_maximum (bitmap pl)))) as [Hc|_];
    [pose proof (maximum_le pl p ltac:(lia) Hlt); lia|].
  set (b := bm_add (bitmap pl) (pos1_u32 p)).
  assert (Hroots : forall c lc, roots (mkPruneList (path pl) b c lc) = roots pl ++ [p]).
  { intros c lc. apply sorted_lt_ext; [apply roots_sorted|apply sorted_lt_app; [apply roots_sorted|repeat constructor|]|].
    - intros x y Hx ->%list_elem_of_singleton. by apply Hlt.
    - intros x. rewrite elem_of_app, list_elem_of_singleton, !elem_of_roots. cbn [bitmap]. unfold b.
      rewrite bm_in_add, pos1_u32_small by lia. split; [intros [?|?]; [right; lia|by left]|intros [?| ->]; auto]. }
  assert (Hprev : forall f (l : list Z), l = psums 0 (map f (roots pl)) ->
    (if p =? 0 then Some 0 else cached l (bm_rank b (pos1_u32 (sub64 p 1)))) =
    Some (sumZ (map f (roots pl)))).
  { intros f l ->. change b with (bitmap (mkPruneList (path pl) b [] [])). destruct (Z.eqb_spec p 0) as [->|Hne].
    - destruct (roots pl) as [|r rs]; [done|]. specialize (Hlt r ltac:(by left)).
      apply Forall_cons in Hb as [Hr _]. unfold root_ok in Hr. lia.
    - rewrite sub64_small by (unfold_words; lia). rewrite rank_spec, Hroots by lia.
      rewrite filter_app, filter_all, filter_none, app_nil_r.
      + rewrite cached_psums by by rewrite length_map. by rewrite take_ge by by rewrite length_map.
      + constructor; [lia|constructor].
      + apply Forall_forall. intros r Hr. pose proof (Hlt r Hr). lia. }
  assert (Hr : forall c lc, is_pruned_root (mkPruneList (path pl) b c lc) p = true).
  { intros. apply is_pruned_root_spec; [lia|]. rewrite Hroots. apply elem_of_app. right. by left. }
  unfold calculate_next_shift at 1, get_shift. cbn [shift_cache bitmap].
  rewrite (Hprev shift_of _ Hs). cbn [mbind option_bind].
  rewrite (proj1 (curr_shifts _ p Hp (Hr _ _))).
  unfold calculate_next_leaf_shift, get_leaf_shift, set_shift_cache. cbn [bitmap path shift_cache leaf_shift_cache].
  rewrite (Hprev leaf_shift_of _ Hls). cbn [mbind option_bind].
  rewrite (proj2 (curr_shifts _ p Hp (Hr _ _))).
  pose proof (shifts_range p Hp) as (? & ? & _).
  pose proof (shifts_sum_small shift_of (roots pl) (roots_sorted pl) Hb (fun r Hr => proj1 (shifts_range r Hr))).
  pose proof (shifts_sum_small leaf_shift_of (roots pl) (roots_sorted pl) Hb
    (fun r Hr => proj1 (proj2 (shifts_range r Hr)))).
  rewrite !add64_small by (unfold_words; lia).
  eexists. split; [reflexivity|]. unfold set_leaf_shift_cache, caches_ok.
  cbn [bitmap path shift_cache leaf_shift_cache]. rewrite !Hroots. split; [done|].
  rewrite Hs, Hls, !map_app, !psums_app. done.
Qed.
Lemma prune_ok_caches pl : prune_ok pl -> caches_ok pl.
Proof. intros Hok. split; apply Hok. Qed.

(** The sibling of a node, by coordinates. *)
Lemma sibling_npos h q :
  0 <= h -> 0 <= q -> in_bounds (npos h q) ->
  snd (family (npos h q)) = if Z.even q then npos h (q + 1) else npos h (q - 1).
Proof. intros. by rewrite family_npos. Qed.

Lemma sibling_bounds h q :
  0 <= h -> 0 <= q -> root_ok (npos h q) ->
  0 <= snd (family (npos h q)) < 2 ^ 32 - 1 /\
  (Z.even q = true -> npos h q < snd (family (npos h q))) /\
  (Z.even q = false -> npos (h + 1) (q / 2) = npos h q + 1).
Proof.
  intros Hh Hq Hr. rewrite sibling_npos by auto with grin. unfold root_ok in Hr.
  destruct (npos_bounds h q) as (_ & Hb & _); [done..|].
  destruct (Z.even q) eqn:E; pose proof (Z.div_mod q 2 ltac:(lia)) as Hd; rewrite Zmod_even, E in Hd.
  - assert (Hj : 0 <= q / 2) by (apply Z.div_pos; lia).
    pose proof (npos_right h (q / 2) Hh Hj). pose proof (npos_left h (q / 2) Hh Hj).
    replace (q + 1) with (2 * (q / 2) + 1) by lia. replace (2 * (q / 2)) with q in * by lia.
    pose proof (pow2_pos h Hh). assert (2 ^ (h + 1) = 2 * 2 ^ h) by (rewrite Z.pow_add_r by lia; lia).
    split; [lia|]. split; [lia|done].
  - assert (Hj : 0 <= q / 2) by (apply Z.div_pos; lia).
    pose proof (npos_right h (q / 2) Hh Hj). pose proof (npos_left h (q / 2) Hh Hj).
    replace (q - 1) with (2 * (q / 2)) by lia. replace (2 * (q / 2) + 1) with q in * by lia.
    pose proof (npos_pos h (2 * (q / 2)) ltac:(lia) ltac:(lia)). pose proof (pow2_pos (h + 1) ltac:(lia)).
    split; [lia|]. split; [done|lia].
Qed.

Lemma sibling_involutive p s :
  root_ok p -> root_ok s -> snd (family p) = s -> snd (family s) = p.
Proof.
  intros Hp Hs E. unfold root_ok in *. as_node p h q.
  rewrite sibling_npos in E by (try done; unfold in_bounds; lia).
  destruct (Z.even q) eqn:Ev; subst s.
  - rewrite sibling_npos by (try done; unfold in_bounds; lia).
    rewrite Z.even_add, Ev. cbn. f_equal. lia.
  - assert (0 < q) by (destruct (decide (q = 0)) as [->|]; [done|lia]).
    rewrite sibling_npos by (try done; unfold in_bounds; lia).
    rewrite Z.even_sub, Ev. cbn. f_equal. lia.
Qed.

(** Appending a subtree whose sibling is not pruned. *)
Lemma append_subtree_spec pl p :
  prune_ok pl -> root_ok p -> (forall r, r ∈ roots pl -> r < p) -> snd (family p) ∉ roots pl ->
  exists pl', append_single (cleanup_subtree pl p) p = Some pl' /\ path pl' = path pl /\
    prune_ok pl' /\ roots pl' = filter (fun r => r <= fst (bintree_range p) - 1) (roots pl) ++ [p].
Proof.
  intros Hok Hp Hlt Hsib. destruct (cleanup_subtree_spec pl p (prune_ok_caches pl Hok) Hp) as [Hr Hc].
  pose proof (ok_roots pl Hok) as [Hb Hl]. set (lo := fst (bintree_range p)) in *.
  assert (Hpath : path (cleanup_subtree pl p) = path pl) by (unfold cleanup_subtree; by case_match).
  assert (Hlt' : forall r, r ∈ filter (fun r => r <= lo - 1) (roots pl) -> r < lo /\ r ∈ roots pl)
    by (intros r [? ?]%list_elem_of_filter; split; [lia|done]).
  assert (Hb' : Forall root_ok (filter (fun r => r <= lo - 1) (roots pl))).
  { apply Forall_forall. intros r [_ Hin]%Hlt'. by apply (roots_bounds (roots pl)). }
  destruct (append_single_spec (cleanup_subtree pl p) p Hc) as (pl' & E & Hr' & Hc' & Hp');
    [by rewrite Hr|done| |].
  { intros r. rewrite Hr. intros [_ ?]%Hlt'. by apply Hlt. }
  rewrite Hr in Hr'. exists pl'. split; [done|]. split; [by rewrite Hp'|]. split; [|done].
  destruct Hc' as [Hs Hls]. split; [|rewrite Hr'|done..].
  - rewrite Hr'. split; [by apply Forall_app_2; [|constructor]|].
    apply laminar_app; [done|by apply laminar_filter|apply range_fst_nonneg; auto with grin|].
    intros s Hs'. apply Hlt' in Hs' as [? _]. done.
  - intros r. rewrite !elem_of_app, !list_elem_of_singleton.
    intros [[? Hin]%Hlt'| ->]; intros [[? Hin']%Hlt'|Es].
    + by eapply (ok_rolled pl Hok r).
    + apply Hsib. by rewrite (sibling_involutive r p (proj1 (roots_bounds _ _ Hb Hin)) Hp Es).
    + by apply Hsib.
    + assert (Hne : snd (family p) <> p); [|done]. clear -Hp. unfold root_ok in Hp. as_node p h q.
      rewrite sibling_npos by (try done; unfold in_bounds; lia).
      intros E. destruct (Z.even q) eqn:Ev.
      * apply npos_inj in E as [_ ?]; lia.
      * assert (0 < q) by (destruct (decide (q = 0)) as [->|]; [done|lia]). apply npos_inj in E as [_ ?]; lia.
Qed.

Lemma under_leaf h q n :
  0 <= h -> 0 <= q -> 0 <= n -> in_bounds (npos h q) ->
  under (npos h q) (npos 0 n) <-> 2 ^ h * q <= n < 2 ^ h * (q + 1).
Proof. intros. rewrite under_npos by (try done; lia). rewrite Z.pow_0_r. lia. Qed.

Lemma leaf_bounds h q n :
  0 <= h -> 0 <= q -> 0 <= n < 2 ^ h * (q + 1) -> in_bounds (npos h q) -> in_bounds (npos 0 n).
Proof.
  intros Hh Hq Hn Hb. unfold in_bounds in *. split; [apply npos_pos; lia|].
  destruct (rightmost_npos h q Hh Hq Hb) as [_ E].
  enough (npos 0 n <= npos 0 (last_leaf h q)) by lia. unfold last_leaf.
  destruct (decide (n = 2 ^ h * (q + 1) - 1)) as [->|]; [lia|].
  pose proof (npos0_mono n (2 ^ h * (q + 1) - 1)). lia.
Qed.

Lemma height_small h q : 0 <= h -> 0 <= q -> npos h q + (32 - h) < 2 ^ 31 -> h < 32.
Proof.
  intros Hh Hq Hp. destruct (Z.lt_ge_cases h 32) as [|Hge]; [done|]. exfalso.
  pose proof (npos_bounds h q Hh Hq) as (_ & Hb & _).
  replace (h + 1) with (33 + (h - 32)) in Hb by lia. rewrite Z.pow_add_r in Hb by lia.
  pose proof (Z.pow_gt_lin_r 2 (h - 32) ltac:(lia) ltac:(lia)). lia.
Qed.

(** [append] prunes the leaves below a position. *)
Lemma append_loop_spec fuel pl h q :
  prune_ok pl -> 0 <= h -> 0 <= q -> npos h q + (32 - h) < 2 ^ 31 -> 32 - h < Z.of_nat fuel ->
  (forall r, r ∈ roots pl -> r < npos h q) ->
  exists pl', append_loop fuel pl (npos h q) = Some pl' /\ path pl' = path pl /\ prune_ok pl' /\
    forall n, 0 <= n ->
      pruned (roots pl') (npos 0 n) <-> pruned (roots pl) (npos 0 n) \/ 2 ^ h * q <= n < 2 ^ h * (q + 1).
Proof.
  revert h q. induction fuel as [|fuel IH]; intros h q Hok Hh Hq Hp Hf Hlt.
  { pose proof (height_small h q Hh Hq Hp). lia. }
  pose proof (npos_pos h q Hh Hq). pose proof (npos_bounds h q Hh Hq) as (_ & Hb2 & _).
  pose proof (height_small h q Hh Hq Hp) as Hh32.
  assert (Hroot : root_ok (npos h q)) by (unfold root_ok; lia).
  assert (Hib : in_bounds (npos h q)) by auto with grin.
  cbn [append_loop]. destruct (Z.ltb_spec (npos h q) (default 0 (bm_maximum (bitmap pl)))) as [Hc|_];
    [pose proof (maximum_le pl (npos h q) ltac:(lia) Hlt); lia|].
  destruct (sibling_bounds h q Hh Hq Hroot) as (Hsb & Hev & Hodd).
  rewrite (surjective_pairing (family (npos h q))).
  pose proof (is_pruned_spec pl (snd (family (npos h q))) (ok_roots pl Hok) ltac:(lia)) as Hsp.
  pose proof (ok_roots pl Hok) as [Hbd Hl].
  destruct (is_pruned pl (snd (family (npos h q)))).
  - destruct (proj1 Hsp eq_refl) as (r & Hr & Hrs). pose proof (roots_bounds _ _ Hbd Hr) as [_ Hrb].
    destruct (Z.even q) eqn:Ev.
    { pose proof (under_le _ _ Hrs Hrb). pose proof (Hlt r Hr). specialize (Hev eq_refl). lia. }
    specialize (Hodd eq_refl). rewrite family_npos by done. cbn [fst].
    assert (Hj : 0 <= q / 2) by (apply Z.div_pos; lia).
    destruct (IH (h + 1) (q / 2)) as (pl' & E & Hpa & Hok' & Hn); [done|lia|done|lia|lia| |].
    { intros s Hs. rewrite Hodd. pose proof (Hlt s Hs). lia. }
    exists pl'. split; [done|]. split; [done|]. split; [done|]. intros n Hn0. rewrite (Hn n Hn0).
    rewrite Z.pow_add_r, Z.pow_1_r by lia. pose proof (Z.div_mod q 2 ltac:(lia)) as Hd. rewrite Zmod_even, Ev in Hd.
    rewrite sibling_npos, Ev in Hrs by done.
    assert (Hsibl : 2 ^ h * (q - 1) <= n < 2 ^ h * q -> pruned (roots pl) (npos 0 n)).
    { intros Hnn. exists r. split; [done|]. assert (Hq1 : 0 <= q - 1) by (pose proof (pow2_pos h Hh); nia).
      assert (Hib' : in_bounds (npos h (q - 1))).
      { unfold in_bounds in *. pose proof (npos_pos h (q - 1) Hh Hq1). pose proof (under_le _ _ Hrs Hrb). lia. }
      eapply under_trans; [done|exact Hib'| |exact Hrs|].
      - apply (leaf_bounds h (q - 1)); [done|done|lia|done].
      - apply under_leaf; [done..|]. lia. }
    split; [intros [?|Hnn]|intros [?|Hnn]]; [by left| |by left|right; nia].
    destruct (Z.lt_ge_cases n (2 ^ h * q)); [left; apply Hsibl; nia|right; nia].
  - destruct (append_subtree_spec pl (npos h q) Hok Hroot Hlt) as (pl' & E & Hpa & Hok' & Hr').
    { intros Hin. assert (Hpr : pruned (roots pl) (snd (family (npos h q)))).
      { eexists. split; [exact Hin|]. by apply under_refl, (roots_bounds (roots pl)). }
      by apply Hsp in Hpr. }
    exists pl'. split; [done|]. split; [done|]. split; [done|]. intros n Hn.
    rewrite <- (under_leaf h q n) by done. rewrite Hr'. unfold pruned. split.
    + intros (r & Hr & Hrn). rewrite elem_of_app, list_elem_of_singleton, list_elem_of_filter in Hr.
      destruct Hr as [[_ Hr]| ->]; [left; eauto|by right].
    + intros [(r & Hr & Hrn)|Hu]; [|exists (npos h q); split; [apply elem_of_app; right; by left|done]].
      destruct (decide (r <= fst (bintree_range (npos h q)) - 1)) as [Hle|Hgt].
      * exists r. split; [|done]. apply elem_of_app. left. by apply list_elem_of_filter.
      * exists (npos h q). split; [apply elem_of_app; right; by left|].
        pose proof (roots_bounds _ _ Hbd Hr) as [_ Hrb].
        assert (Hur : under (npos h q) r).
        { unfold under. rewrite range_snd by done. pose proof (Hlt r Hr). lia. }
        eapply under_trans; [exact Hib|exact Hrb| |exact Hur|exact Hrn].
        unfold in_bounds in *. split; [apply npos_pos; lia|]. pose proof (under_le _ _ Hrn Hrb). lia.
Qed.
Lemma append_spec pl p :
  prune_ok pl -> 0 <= p < 2 ^ 31 - 64 -> (forall r, r ∈ roots pl -> r < p) ->
  exists pl', append pl p = Some pl' /\ path pl' = path pl /\ prune_ok pl' /\
    forall n, 0 <= n -> pruned (roots pl') (npos 0 n) <-> pruned (roots pl) (npos 0 n) \/ under p (npos 0 n).
Proof.
  intros Hok Hp Hlt. as_node p h q.
  destruct (append_loop_spec 64 pl h q) as (pl' & E & Hpa & Hok' & Hn); [done|done|done|lia|lia|done|].
  exists pl'. split_and!; [done..|]. intros n Hn0. rewrite Hn by done.
  rewrite under_leaf; [done..|unfold in_bounds; lia].
Qed.

(** ** The pruned leaves determine the list *)

(** A subtree that covers a position, and is not the one of that position,
    covers its parent. *)
Lemma parent_covered r h q :
  in_bounds r -> 0 <= h -> 0 <= q -> under r (npos h q) -> r <> npos h q -> under r (npos (h + 1) (q / 2)).
Proof.
  intros Hr Hh Hq Hu Hne. as_node r k y. assert (0 <= q / 2) by (apply Z.div_pos; lia).
  rewrite under_npos in * by (done || lia).
  pose proof (pow2_pos h Hh). pose proof (pow2_pos k Hh0).
  assert (E2 : 2 ^ (h + 1) = 2 * 2 ^ h) by (rewrite Z.pow_add_r by lia; lia).
  destruct (Z.le_gt_cases k h) as [Hk|Hk].
  - exfalso. apply Hne. assert (2 ^ k <= 2 ^ h) by (apply Z.pow_le_mono_r; lia).
    assert (2 ^ k = 2 ^ h) by nia. assert (k = h) by (apply (Z.pow_inj_r 2); lia). subst. f_equal. nia.
  - assert (E3 : 2 ^ k = 2 ^ (h + 1) * 2 ^ (k - h - 1)) by (rewrite <- Z.pow_add_r by lia; f_equal; lia).
    set (B := 2 ^ (k - h - 1)) in *. rewrite E3, E2 in *. destruct Hu as [Hu1 Hu2].
    assert (Hu3 : 2 * (B * y) <= q) by (apply (Z.mul_le_mono_pos_l _ _ (2 ^ h)); lia).
    assert (Hu4 : q + 1 <= 2 * (B * (y + 1))) by (apply (Z.mul_le_mono_pos_l _ _ (2 ^ h)); lia).
    pose proof (Z.div_mod q 2 ltac:(lia)). pose proof (Z.mod_pos_bound q 2 ltac:(lia)).
    assert (B * y <= q / 2 /\ q / 2 + 1 <= B * (y + 1)) by lia. nia.
Qed.

(** A position is pruned when all leaves below it are. *)
Lemma pruned_iff_leaves pl h q :
  prune_ok pl -> 0 <= h -> 0 <= q -> in_bounds (npos h q) ->
  pruned (roots pl) (npos h q) <->
  forall n, 2 ^ h * q <= n < 2 ^ h * (q + 1) -> pruned (roots pl) (npos 0 n).
Proof.
  intros Hok Hh. pose proof (ok_roots pl Hok) as [Hbd Hl]. revert q.
  pattern h. apply natlike_ind; [| |done]; clear h Hh.
  { intros q Hq Hb. rewrite Z.pow_0_r. split; [|intros H; apply H; lia].
    intros H n Hn. by replace n with q by lia. }
  intros h Hh IH q Hq Hb. rewrite <- Z.add_1_r in *. split.
  - intros (r & Hr & Hru) n Hn. exists r. split; [done|]. pose proof (roots_bounds _ _ Hbd Hr) as [_ Hrb].
    assert (0 <= n) by (pose proof (pow2_pos (h + 1) ltac:(lia)); nia).
    eapply under_trans; [exact Hrb|exact Hb| |exact Hru|].
    + apply (leaf_bounds (h + 1) q); lia || done.
    + apply under_leaf; try done; lia.
  - intros Hall. pose proof (npos_left h q Hh Hq) as HL1. pose proof (npos_right h q Hh Hq) as HR1.
    assert (E2 : 2 ^ (h + 1) = 2 * 2 ^ h) by (rewrite Z.pow_add_r by lia; lia). pose proof (pow2_pos h Hh).
    pose proof (npos_pos h (2 * q) Hh ltac:(lia)). pose proof (npos_pos h (2 * q + 1) Hh ltac:(lia)).
    unfold in_bounds in *.
    destruct (proj2 (IH (2 * q) ltac:(lia) ltac:(lia))) as (r & Hr & Hru); [intros n Hn; apply Hall; nia|].
    destruct (proj2 (IH (2 * q + 1) ltac:(lia) ltac:(lia))) as (s & Hs & Hsu); [intros n Hn; apply Hall; nia|].
    pose proof (roots_bounds _ _ Hbd Hr) as [Hrk Hrb]. pose proof (roots_bounds _ _ Hbd Hs) as [Hsk Hsb].
    destruct (decide (r = npos h (2 * q))) as [->|]; 
      [|exists r; split; [done|]; apply (parent_covered r h (2 * q)) in Hru; auto; [|lia];
        by replace (2 * q / 2) with q in Hru by (rewrite Z.mul_comm, Z.div_mul; lia)].
    destruct (decide (s = npos h (2 * q + 1))) as [->|]; 
      [|exists s; split; [done|]; apply (parent_covered s h (2 * q + 1)) in Hsu; auto; [|lia];
        by replace ((2 * q + 1) / 2) with q in Hsu by (rewrite Z.mul_comm, Z.div_add_l by lia; change (1 / 2) with 0; lia)].
    exfalso. eapply (ok_rolled pl Hok); [exact Hr|]. rewrite sibling_npos by (try lia; unfold in_bounds; lia).
    by rewrite even_double.
Qed.
(** Roots are the pruned positions whose parent is not pruned. *)
Lemma root_iff pl h q :
  prune_ok pl -> 0 <= h -> 0 <= q -> in_bounds (npos h q) ->
  npos h q ∈ roots pl <-> pruned (roots pl) (npos h q) /\ ~ pruned (roots pl) (npos (h + 1) (q / 2)).
Proof.
  intros Hok Hh Hq Hb. pose proof (ok_roots pl Hok) as [Hbd Hl]. pose proof (npos_parent_gt h q Hh Hq) as Hgt.
  split.
  - intros Hin. split; [exists (npos h q); split; [done|by apply under_refl]|].
    intros (r & Hr & Hru). pose proof (roots_bounds _ _ Hbd Hr) as [_ Hrb].
    pose proof (under_le _ _ Hru Hrb) as Hle.
    assert (Hrp : under r (npos h q)).
    { assert (Hib : in_bounds (npos (h + 1) (q / 2))) by (unfold in_bounds in *; lia).
      eapply under_trans; [exact Hrb|exact Hib|exact Hb|exact Hru|].
      assert (0 <= q / 2) by (apply Z.div_pos; lia).
      apply under_npos; try (done || lia). rewrite Z.pow_add_r, Z.pow_1_r by lia. pose proof (pow2_pos h Hh).
      pose proof (Z.div_mod q 2 ltac:(lia)). pose proof (Z.mod_pos_bound q 2 ltac:(lia)). nia. }
    assert (r = npos h q) as -> by (eapply (laminar_unique 0 (roots pl)); eauto using under_refl).
    lia.
  - intros [(r & Hr & Hru) Hn]. pose proof (roots_bounds _ _ Hbd Hr) as [_ Hrb].
    destruct (decide (r = npos h q)) as [->|Hne]; [done|]. exfalso. apply Hn. exists r. split; [done|].
    by apply parent_covered.
Qed.

(** A list is determined by the leaves it prunes. *)
Lemma prune_list_ext pl pl' :
  prune_ok pl -> prune_ok pl' ->
  (forall n, 0 <= n -> pruned (roots pl) (npos 0 n) <-> pruned (roots pl') (npos 0 n)) ->
  roots pl = roots pl'.
Proof.
  intros Hok Hok' Heq. pose proof (ok_roots pl Hok) as [Hbd _]. pose proof (ok_roots pl' Hok') as [Hbd' _].
  assert (Hp : forall h q, 0 <= h -> 0 <= q -> in_bounds (npos h q) ->
    pruned (roots pl) (npos h q) <-> pruned (roots pl') (npos h q)).
  { intros h q Hh Hq Hb. rewrite !pruned_iff_leaves by done. pose proof (pow2_pos h Hh).
    split; intros H' n Hn; apply Heq; try apply H'; nia. }
  apply sorted_lt_ext; [apply roots_sorted..|]. intros p.
  destruct (decide (root_ok p)) as [Hr|Hr].
  - unfold root_ok in Hr. as_node p h q.
    assert (Hb : in_bounds (npos h q)) by (unfold in_bounds; lia).
    assert (Hb' : in_bounds (npos (h + 1) (q / 2))).
    { assert (0 <= q / 2) by (apply Z.div_pos; lia). unfold in_bounds. split; [apply npos_pos; lia|].
      pose proof (npos_bounds h q Hh Hq) as (_ & ? & _). pose proof (npos_left h (q / 2) Hh ltac:(lia)).
      pose proof (pow2_pos h Hh). assert (2 ^ (h + 1) = 2 * 2 ^ h) by (rewrite Z.pow_add_r by lia; lia).
      pose proof (npos_right h (q / 2) Hh ltac:(lia)).
      destruct (Z.even q) eqn:Ev; pose proof (Z.div_mod q 2 ltac:(lia)) as Hd; rewrite Zmod_even, Ev in Hd.
      - replace (2 * (q / 2)) with q in * by lia. lia.
      - replace (2 * (q / 2) + 1) with q in * by lia. lia. }
    rewrite !root_iff by done. assert (0 <= q / 2) by (apply Z.div_pos; lia).
    by rewrite !Hp by (done || lia).
  - split; intros Hin; exfalso; apply Hr; [by apply (roots_bounds (roots pl))|by apply (roots_bounds (roots pl'))].
Qed.

(** ** Rebuilding from a bitmap *)

Lemma new_ok b : prune_ok (mkPruneList b bm_new [] []).
Proof.
  assert (E : roots (mkPruneList b bm_new [] []) = []) by (unfold roots; cbn [bitmap]; by rewrite bm_iter_new).
  split; rewrite ?E; [split; [constructor|done]| |done|done].
  intros r Hr. by apply elem_of_nil in Hr.
Qed.

Lemma pruned_cons r rs p : pruned (r :: rs) p <-> under r p \/ pruned rs p.
Proof.
  unfold pruned. split.
  - intros (s & Hs & Hu). apply elem_of_cons in Hs as [->|Hs]; eauto.
  - intros [Hu|(s & Hs & Hu)]; eexists; (split; [|exact Hu]); [by left|by right].
Qed.

(** Appending subtrees that follow each other. *)
Lemma append_all_spec pl a entries :
  prune_ok pl -> Forall (fun r => 0 <= r < 2 ^ 31 - 64) entries -> laminar a entries ->
  (forall n, 0 <= n -> pruned (roots pl) (npos 0 n) -> npos 0 n < a) ->
  exists pl', append_all pl (map (fun r => r + 1) entries) = Some pl' /\ path pl' = path pl /\ prune_ok pl' /\
    forall n, 0 <= n ->
      pruned (roots pl') (npos 0 n) <-> pruned (roots pl) (npos 0 n) \/ pruned entries (npos 0 n).
Proof.
  intros Hok Hb. revert pl a Hok. induction Hb as [|e entries He Hb IH]; intros pl a Hok Hl Ha.
  { exists pl. split; [done|]. split; [done|]. split; [done|]. intros n Hn. split; [auto|]. intros [?|(r & Hr & _)]; [done|].
    by apply elem_of_nil in Hr. }
  destruct Hl as [Hae Hl]. cbn [map append_all]. rewrite sub64_small by (unfold_words; lia).
  replace (e + 1 - 1) with e by lia. pose proof (ok_roots pl Hok) as [Hbd _].
  assert (Heb : in_bounds e) by (unfold in_bounds; lia).
  destruct (append_spec pl e Hok He) as (pl1 & -> & Hp1 & Hok1 & Hn1).
  { intros r Hr. pose proof (roots_bounds _ _ Hbd Hr) as [Hrk Hrb].
    (* the last leaf of [r] is pruned, so it comes before [e], and so does [r] *)
    destruct (Z.lt_ge_cases r e) as [|Hge]; [done|exfalso]. unfold root_ok in Hrk. as_node r h q.
    pose proof (pow2_pos h Hh). set (n := 2 ^ h * (q + 1) - 1).
    assert (Hn : 0 <= n) by nia.
    assert (Hu : under (npos h q) (npos 0 n)) by (apply under_leaf; [done..|lia]).
    specialize (Ha n Hn ltac:(by eexists)).
    pose proof (range_fst_le e Heb) as Hle.
    as_node e k y. rewrite range_npos in Hae, Hle by done. cbn [fst] in Hae, Hle.
    assert (Hlt : npos 0 n < npos 0 (2 ^ k * y)) by lia.
    pose proof (pow2_pos k Hh0).
    rewrite npos0_lt_iff in Hlt by nia.
    assert (npos h q < npos k y); [|lia]. apply npos_lt_iff; [done..|]. left. unfold last_leaf. lia. }
  cbn [mbind option_bind].
  destruct (IH pl1 (e + 1) Hok1 Hl) as (pl' & E & Hp' & Hok' & Hn').
  { intros n Hn [Hpr|Hu]%(Hn1 n Hn); [pose proof (Ha n Hn Hpr)|].
    - pose proof (range_fst_le e Heb). lia.
    - pose proof (under_le _ _ Hu Heb). lia. }
  exists pl'. split; [done|]. split; [congruence|]. split; [done|]. intros n Hn. rewrite (Hn' n Hn), (Hn1 n Hn).
  rewrite pruned_cons. tauto.
Qed.

Lemma map_pred_succ (l : list Z) : map (fun r => r + 1) (map (fun x => x - 1) l) = l.
Proof. rewrite map_map. rewrite <- (map_id l) at 2. apply map_ext. lia. Qed.

(** Building a list from a bitmap of subtrees that follow each other. *)
Lemma new_spec pth b :
  let entries := map (fun x => x - 1) (bm_iter b) in
  Forall (fun r => 0 <= r < 2 ^ 31 - 64) entries -> laminar 0 entries ->
  exists pl, new pth b = Some pl /\ path pl = pth /\ prune_ok pl /\
    forall n, 0 <= n -> pruned (roots pl) (npos 0 n) <-> pruned entries (npos 0 n).
Proof.
  intros entries Hb Hl. unfold new.
  assert (Hc : bm_contains b 0 = false).
  { destruct (bm_contains b 0) eqn:E; [|done]. apply bm_contains_iff in E. exfalso.
    assert (Hin : 0 - 1 ∈ entries) by (apply elem_of_map; by exists 0).
    eapply Forall_forall in Hb; [|exact Hin]. lia. }
  rewrite Hc. destruct (append_all_spec (mkPruneList pth bm_new [] []) 0 entries (new_ok pth) Hb Hl)
    as (pl & E & Hp & Hok & Hn).
  { intros n _ (r & Hr & _). unfold roots in Hr. cbn [bitmap] in Hr. rewrite bm_iter_new in Hr.
    by apply elem_of_nil in Hr. }
  unfold entries in E. rewrite map_pred_succ in E. exists pl. split; [done|]. split; [done|]. split; [done|].
  intros n Hn0. rewrite (Hn n Hn0). split; [|by right]. intros [(r & Hr & _)|?]; [|done].
  unfold roots in Hr. cbn [bitmap] in Hr. rewrite bm_iter_new in Hr. by apply elem_of_nil in Hr.
Qed.

End spec.

(** ** Counting *)

(** How many numbers from [a] on and before [b] satisfy [P]. *)
Definition count (P : Z -> Prop) {dP : forall x, Decision (P x)} (a b : Z) : Z :=
  Z.of_nat (length (filter P (seqZ a (b - a)))).

Lemma filter_ext_Forall {A} (P Q : A -> Prop) {dP : forall x, Decision (P x)}
    {dQ : forall x, Decision (Q x)} (l : list A) :
  Forall (fun x => P x <-> Q x) l -> filter P l = filter Q l.
Proof.
  induction 1 as [|x l Hx _ IH]; [done|]. rewrite !filter_cons, IH.
  by destruct (decide (P x)), (decide (Q x)); try tauto.
Qed.

Section count.
Context (P Q : Z -> Prop) {dP : forall x, Decision (P x)} {dQ : forall x, Decision (Q x)}.

Lemma count_empty a b : b <= a -> count P a b = 0.
Proof. intros. unfold count. by rewrite seqZ_nil by lia. Qed.

Lemma count_split a b c : a <= b <= c -> count P a c = count P a b + count P b c.
Proof.
  intros. unfold count. replace (c - a) with ((b - a) + (c - b)) by lia.
  rewrite seqZ_app, filter_app, length_app by lia. replace (a + (b - a)) with b by lia. lia.
Qed.

Lemma count_ext a b : (forall x, a <= x < b -> P x <-> Q x) -> count P a b = count Q a b.
Proof.
  intros H. unfold count. do 2 f_equal. apply filter_ext_Forall.
  apply Forall_forall. intros x Hx%elem_of_seqZ. apply H. lia.
Qed.

Lemma count_none a b : (forall x, a <= x < b -> ~ P x) -> count P a b = 0.
Proof.
  intros H. unfold count. rewrite filter_none; [done|]. apply Forall_forall. intros x Hx%elem_of_seqZ.
  apply H. lia.
Qed.

Lemma count_all a b : a <= b -> (forall x, a <= x < b -> P x) -> count P a b = b - a.
Proof.
  intros Hab H. unfold count. rewrite filter_all, length_seqZ; [lia|].
  apply Forall_forall. intros x Hx%elem_of_seqZ. apply H. lia.
Qed.

Lemma count_not a b :
  a <= b -> (forall x, ~ P x <-> Q x) -> count P a b + count Q a b = b - a.
Proof.
  intros Hab Hn. unfold count.
  assert (Hlen : forall l : list Z, (length (filter P l) + length (filter Q l) = length l)%nat).
  { induction l as [|x l IH]; [done|]. rewrite !filter_cons. specialize (Hn x).
    destruct (decide (P x)), (decide (Q x)); simpl; try tauto; lia. }
  pose proof (Hlen (seqZ a (b - a))) as H. rewrite length_seqZ in H. lia.
Qed.
End count.

(** ** Shifts count what compaction removes *)

(** A position that compaction removes from the files: it lies below a root. *)
Definition compacted (rs : list Z) (p : Z) : Prop := pruned rs p /\ p ∉ rs.

#[export] Instance compacted_dec rs p : Decision (compacted rs p).
Proof. unfold compacted. apply _. Defined.

Lemma under_range r p : in_bounds r -> under r p <-> fst (bintree_range r) <= p <= r.
Proof. intros Hr. unfold under. rewrite range_snd by done. lia. Qed.

Section shifts.
Context (Q : Z -> Prop) {dQ : forall x, Decision (Q x)} (f : Z -> Z).
Hypothesis count_subtree : forall r, root_ok r -> count Q (fst (bintree_range r)) r = f r.

(** Before a position that stays, the positions with [Q] that compaction
    removes are as many as [f] says, root by root. *)
Lemma count_compacted rs a p :
  Forall root_ok rs -> laminar a rs -> 0 <= a <= p + 1 -> ~ compacted rs p ->
  count (fun x => compacted rs x /\ Q x) a p = sumZ (map f (filter (fun r => r <= p) rs)).
Proof.
  intros Hb. revert a. induction Hb as [|r rs Hr Hb IH]; intros a Hl Ha Hp.
  { apply count_none. intros x _ [[(r & Hr & _) _] _]. by apply elem_of_nil in Hr. }
  destruct Hl as [Hlo Hl]. assert (Hrb : in_bounds r) by auto with grin.
  pose proof (range_fst_le r Hrb) as Hle. set (lo := fst (bintree_range r)) in *.
  assert (Hbelow : forall x, x <= r -> ~ pruned rs x /\ x ∉ rs).
  { assert (Hge : forall s, s ∈ rs -> r + 1 <= fst (bintree_range s)) by (intros; by eapply laminar_ge).
    intros x Hx. split.
    - intros (s & Hs & Hu). specialize (Hge s Hs). apply under_range in Hu; [lia|].
      by apply (roots_bounds rs).
    - intros Hin. specialize (Hge x Hin). pose proof (range_fst_le x ltac:(by apply (roots_bounds rs))). lia. }
  assert (Hbefore : forall x, x < lo -> ~ compacted (r :: rs) x).
  { intros x Hx [Hpr _]. apply pruned_cons in Hpr as [Hu|Hpr].
    - apply under_range in Hu; [|done]. fold lo in Hu. lia.
    - by destruct (Hbelow x ltac:(lia)). }
  assert (Hself : ~ compacted (r :: rs) r) by (intros [_ Hn]; apply Hn; by left).
  assert (Hinside : forall x, lo <= x < r -> compacted (r :: rs) x).
  { intros x Hx. split; [apply pruned_cons; left; apply under_range; [done|]; fold lo; lia|].
    intros [->|Hin]%elem_of_cons; [lia|]. by destruct (Hbelow x ltac:(lia)). }
  rewrite filter_cons. destruct (decide (r <= p)) as [Hrp|Hrp].
  - rewrite (count_split _ a r p) by lia. rewrite (count_split _ a lo r) by lia.
    rewrite (count_none _ a lo) by (intros x Hx [Hc _]; by apply (Hbefore x); [lia|]).
    rewrite (count_ext _ Q lo r) by (intros x Hx; pose proof (Hinside x Hx); tauto).
    unfold lo. rewrite count_subtree by done. change (sumZ (map f (r :: ?l))) with (f r + sumZ (map f l)).
    cbn [map]. unfold sumZ. cbn [foldr]. fold (sumZ (map f (filter (fun r => r <= p) rs))).
    enough (count (fun x => compacted (r :: rs) x /\ Q x) r p = sumZ (map f (filter (fun r => r <= p) rs))) by lia.
    destruct (decide (r = p)) as [->|Hne].
    + rewrite count_empty, filter_none by lia || (apply Forall_forall; intros s Hs ?; by destruct (Hbelow s ltac:(lia))). done.
    + rewrite (count_split _ r (r + 1) p) by lia.
      rewrite (count_none _ r (r + 1)) by (intros x Hx [Hc _]; replace x with r in Hc by lia; done).
      assert (Heq : forall x, r < x -> compacted (r :: rs) x <-> compacted rs x).
      { intros x Hx. unfold compacted. rewrite pruned_cons, not_elem_of_cons.
        assert (~ under r x) by (rewrite under_range by done; lia).
        split; [intros [[?|?] [? ?]]; tauto|intros [? ?]; split; [by right|split; [lia|done]]]. }
      rewrite (count_ext _ (fun x => compacted rs x /\ Q x) (r + 1) p)
        by (intros x Hx; rewrite Heq by lia; done).
      rewrite IH; [lia|done|unfold root_ok in Hr; lia|]. rewrite <- Heq by lia. done.
  - rewrite filter_none.
    + apply count_none. intros x Hx [Hc _]. apply (Hbefore x); [|done].
      destruct (Z.lt_ge_cases p lo); [lia|]. exfalso. apply Hp, Hinside. lia.
    + apply Forall_forall. intros s Hs Hsp. by destruct (Hbelow s ltac:(lia)).
Qed.
End shifts.

Lemma count_positions r : root_ok r -> count (fun _ => True) (fst (bintree_range r)) r = shift_of r.
Proof.
  intros Hr. pose proof (root_ok_bounds r Hr) as Hb. rewrite count_all by (done || by apply range_fst_le).
  unfold shift_of. as_node r h q. rewrite range_npos, height_npos by (done || unfold in_bounds in *; lia).
  cbn [fst]. destruct (leftmost_npos h q) as [_ ->]; [done..|]. lia.
Qed.

Lemma count_leaves r :
  root_ok r -> count (fun x => is_leaf x = true) (fst (bintree_range r)) r = leaf_shift_of r.
Proof.
  intros Hr. pose proof (root_ok_bounds r Hr) as Hb. unfold leaf_shift_of. as_node r h q.
  rewrite range_npos, height_npos by (done || unfold in_bounds in *; lia). cbn [fst].
  pose proof (pow2_pos h Hh). destruct (Z.eqb_spec h 0) as [->|Hne].
  { rewrite Z.pow_0_r, Z.mul_1_l. apply count_empty. lia. }
  unfold count.
  assert (E : filter (fun x => is_leaf x = true) (seqZ (npos 0 (2 ^ h * q)) (npos h q - npos 0 (2 ^ h * q))) =
    map (npos 0) (seqZ (2 ^ h * q) (2 ^ h))).
  { apply sorted_lt_ext.
    - apply sorted_lt_filter, seqZ_sorted.
    - assert (Hnn : Forall (fun n => 0 <= n) (seqZ (2 ^ h * q) (2 ^ h)))
        by (apply Forall_forall; intros n Hn%elem_of_seqZ; nia).
      pose proof (seqZ_sorted (2 ^ h * q) (2 ^ h)) as Hs.
      induction Hs as [|n l Hs IH Hn]; [constructor|]. apply Forall_cons in Hnn as [Hn0 Hnn].
      simpl. constructor; [by apply IH|]. apply Forall_map. eapply Forall_impl; [exact Hn|].
      intros m ?. apply npos0_mono. lia.
    - intros x. rewrite list_elem_of_filter, elem_of_seqZ, elem_of_map. split.
      + intros [Hl Hx]. assert (0 <= x) by (pose proof (npos_pos 0 (2 ^ h * q)); nia).
        as_node x k n. unfold in_bounds in Hb. rewrite is_leaf_npos in Hl by (done || lia).
        apply Z.eqb_eq in Hl as ->. exists n. split; [done|]. apply elem_of_seqZ.
        enough (2 ^ h * q <= n < 2 ^ h * (q + 1)) by lia. apply under_leaf; [done..|].
        unfold under. rewrite range_npos by done. cbn. lia.
      + intros (n & -> & Hn%elem_of_seqZ). assert (Hn' : 2 ^ h * q <= n < 2 ^ h * (q + 1)) by lia.
        assert (0 <= n) by nia. rewrite <- (under_leaf h q n) in Hn' by done. unfold under in Hn'. rewrite range_npos in Hn' by done.
        cbn [fst snd] in Hn'. unfold in_bounds in Hb. rewrite is_leaf_npos by (try lia; nia).
        split; [done|]. assert (npos 0 n <> npos h q); [|lia]. intros E.
        apply npos_inj in E as [? _]; try lia; nia. }
  rewrite E, length_map, length_seqZ. lia.
Qed.

(** ** Iterating over what is not pruned *)

(** The one-based range of a root. *)
Definition excl_range (r : Z) : Z * Z :=
  (add64 1 (fst (bintree_range r)), add64 1 (snd (bintree_range r))).

Definition unpruned_state (rs : list Z) (pos : Z) : UnprunedIterator :=
  mkUnpruned (tail (map excl_range rs)) (head (map excl_range rs)) pos.

Lemma excl_range_spec r : root_ok r -> excl_range r = (fst (bintree_range r) + 1, r + 2).
Proof.
  intros Hr. pose proof (root_ok_bounds r Hr) as Hb. unfold excl_range, root_ok in *.
  pose proof (range_fst_nonneg r Hb). pose proof (range_fst_le r Hb). rewrite range_snd by done.
  rewrite !add64_small by (unfold_words; lia). f_equal; lia.
Qed.

Lemma not_pruned_before a rs p : Forall root_ok rs -> laminar a rs -> p < a -> ~ pruned rs p.
Proof.
  intros Hb Hl Hp (r & Hr & Hu). pose proof (laminar_ge _ _ _ Hb Hl Hr).
  apply under_range in Hu; [lia|]. by apply (roots_bounds rs).
Qed.

(** The next position is the first one that no root covers. *)
Lemma unpruned_next_spec rs pos :
  Forall root_ok rs -> laminar (pos - 1) rs -> 1 <= pos < 2 ^ 62 ->
  exists x rs', unpruned_next (unpruned_state rs pos) = (x, unpruned_state rs' (x + 1)) /\
    Forall root_ok rs' /\ laminar x rs' /\ pos <= x <= pos + 2 ^ 32 /\ ~ pruned rs (x - 1) /\
    (forall y, pos <= y < x -> pruned rs (y - 1)) /\
    (forall y, x < y -> pruned rs (y - 1) <-> pruned rs' (y - 1)).
Proof.
  unfold unpruned_next, unpruned_state. cbn [inner current_excl_range current_pos].
  intros Hb. revert pos.
  cut (forall pos, laminar (pos - 1) rs -> 1 <= pos < 2 ^ 62 ->
    exists x rs', unpruned_next_loop (tail (map excl_range rs)) (head (map excl_range rs)) pos =
        (x, unpruned_state rs' (x + 1)) /\
      Forall root_ok rs' /\ laminar x rs' /\ (x = pos \/ pos <= x <= 2 ^ 31 + 1) /\ ~ pruned rs (x - 1) /\
      (forall y, pos <= y < x -> pruned rs (y - 1)) /\
      (forall y, x < y -> pruned rs (y - 1) <-> pruned rs' (y - 1))).
  { intros H pos Hl Hpos. destruct (H pos Hl Hpos) as (x & rs' & ? & ? & ? & ? & ? & ? & ?).
    exists x, rs'. split_and!; try done; lia. }
  induction Hb as [|r rs Hr Hb IH]; intros pos Hl Hpos.
  - exists pos, []. cbn. rewrite add64_small by (unfold_words; lia).
    split; [done|]. split; [constructor|]. split; [done|]. split; [by left|].
    split; [intros (r & Hr & _); by apply elem_of_nil in Hr|]. split; [lia|done].
  - destruct Hl as [Hlo Hl]. pose proof (root_ok_bounds r Hr) as Hrb. pose proof (range_fst_le r Hrb).
    cbn [map head tail]. rewrite excl_range_spec by done. pose proof Hr as Hr'. unfold root_ok in Hr'.
    destruct (Z.ltb_spec pos (fst (bintree_range r) + 1)) as [Hlt|Hge].
    + exists pos, (r :: rs). assert (Hl' : laminar pos (r :: rs)) by (split; [lia|done]).
      split_and!; try done.
      * unfold unpruned_state. cbn [map head tail]. rewrite excl_range_spec by done.
        destruct (map excl_range rs) eqn:Em; cbn [unpruned_next_loop fst];
        destruct (Z.ltb_spec pos (fst (bintree_range r) + 1)); try lia;
          by rewrite add64_small by (unfold_words; lia).
      * by constructor.
      * by left.
      * eapply not_pruned_before; [by constructor|exact Hl'|lia].
      * lia.
    + destruct (IH (r + 2)) as (x & rs' & E & Hb' & Hl' & Hx & Hnp & Hall & Heq);
        [by replace (r + 2 - 1) with (r + 1) by lia|lia|].
      assert (Hxr : r + 2 <= x) by lia.
      exists x, rs'. split_and!; try done.
      * rewrite <- E. destruct (map excl_range rs) as [|e es] eqn:Em; cbn [unpruned_next_loop fst snd head tail];
          destruct (Z.ltb_spec pos (fst (bintree_range r) + 1)); try lia; done.
      * lia.
      * rewrite pruned_cons. intros [Hu|?]; [|done]. apply under_range in Hu; [lia|done].
      * intros y Hy. rewrite pruned_cons. destruct (Z.lt_ge_cases y (r + 2)); [left|right; apply Hall; lia].
        apply under_range; [done|lia].
      * intros y Hy. rewrite pruned_cons, (Heq y Hy). rewrite under_range by done.
        split; [intros [?|?]; [lia|done]|by right].
Qed.

Lemma unpruned_upto_spec fuel rs pos cutoff :
  Forall root_ok rs -> laminar (pos - 1) rs -> 1 <= pos <= cutoff + 1 -> cutoff < 2 ^ 62 - 1 ->
  (Z.to_nat (cutoff + 1 - pos) < fuel)%nat ->
  unpruned_upto fuel (unpruned_state rs pos) cutoff =
  filter (fun y => ~ pruned rs (y - 1)) (seqZ pos (cutoff + 1 - pos)).
Proof.
  revert rs pos. induction fuel as [|fuel IH]; intros rs pos Hb Hl Hpos Hc Hf; [lia|].
  destruct (unpruned_next_spec rs pos Hb Hl ltac:(lia)) as (x & rs' & E & Hb' & Hl' & Hx & Hnp & Hall & Heq).
  cbn [unpruned_upto]. rewrite E. destruct (Z.leb_spec x cutoff).
  - replace (cutoff + 1 - pos) with ((x - pos) + (1 + (cutoff - x))) by lia.
    rewrite !seqZ_app, !filter_app by lia. replace (pos + (x - pos)) with x by lia.
    rewrite filter_none by (apply Forall_forall; intros y Hy%elem_of_seqZ Hn; apply Hn, Hall; lia).
    change (seqZ x 1) with [0 + x]. rewrite Z.add_0_l, filter_cons_True by done. cbn [app filter list_filter].
    f_equal. rewrite IH by (done || lia || by replace (x + 1 - 1) with x by lia).
    replace (cutoff + 1 - (x + 1)) with (cutoff - x) by lia. apply filter_ext_Forall, Forall_forall.
    intros y Hy%elem_of_seqZ. rewrite Heq by lia. done.
  - symmetry. apply filter_none, Forall_forall. intros y Hy%elem_of_seqZ Hn. apply Hn, Hall. lia.
Qed.

(** ** The caches of a list are the ones that [init_caches] builds *)

Section init.
Context {BM : Type} {HB : Bitmap BM} {HL : BitmapLaws BM}.
Implicit Types (pl : PruneList BM).

Lemma filter_before (rs : list Z) i r :
  StronglySorted Z.lt rs -> rs !! i = Some r -> filter (fun s => s <= r - 1) rs = take i rs.
Proof.
  intros Hs. revert i. induction Hs as [|s rs Hs IH Hr]; intros [|i] Hi; [done..| |].
  - injection Hi as ->. rewrite filter_cons, decide_False by lia. cbn [take].
    apply filter_none. eapply Forall_impl; [exact Hr|]. simpl. lia.
  - cbn [lookup list_lookup] in Hi. pose proof (list_elem_of_lookup_2 _ _ _ Hi) as Hin.
    eapply Forall_forall in Hr; [|exact Hin]. rewrite filter_cons, decide_True by lia.
    cbn [take]. by rewrite (IH i Hi).
Qed.

(** One step of the loops that rebuild the caches. *)
Lemma next_shift_step (f : Z -> Z) pl (cache : list Z) i r :
  Forall root_ok (roots pl) -> roots pl !! i = Some r ->
  (forall r, root_ok r -> 0 <= f r <= 2 ^ 32) ->
  cache = psums 0 (map f (take i (roots pl))) ->
  (if r =? 0 then Some 0 else cached cache (bm_rank (bitmap pl) (pos1_u32 (sub64 r 1)))) =
    Some (sumZ (map f (take i (roots pl)))) /\
  add64 (sumZ (map f (take i (roots pl)))) (f r) = sumZ (map f (take i (roots pl))) + f r.
Proof.
  intros Hb Hi Hf ->. pose proof (roots_sorted pl) as Hs.
  destruct (roots_bounds _ r Hb (list_elem_of_lookup_2 _ _ _ Hi)) as [Hr _]. pose proof Hr as Hr'.
  unfold root_ok in Hr'. pose proof (filter_before _ _ _ Hs Hi) as Hfi. split.
  - destruct (Z.eqb_spec r 0) as [->|Hne].
    + assert (take i (roots pl) = []) as ->; [|done]. rewrite <- Hfi. apply filter_none.
      eapply Forall_impl; [exact Hb|]. unfold root_ok. intros. lia.
    + rewrite sub64_small by (unfold_words; lia). rewrite rank_spec, Hfi by lia.
      rewrite cached_psums by by rewrite length_map. by rewrite take_ge by by rewrite length_map.
  - pose proof (shifts_sum_small f (take i (roots pl))) as Hsum.
    rewrite <- Hfi in Hsum at 1. specialize (Hsum (sorted_lt_filter _ _ Hs) (Forall_take _ _ _ Hb) Hf).
    pose proof (Hf r Hr). apply add64_small. unfold_words. lia.
Qed.

Lemma psums_snoc (f : Z -> Z) l i r :
  l !! i = Some r -> psums 0 (map f (take i l)) ++ [sumZ (map f (take i l)) + f r] =
  psums 0 (map f (take (S i) l)).
Proof. intros Hi. rewrite (take_S_r _ _ _ Hi), map_app, psums_app. done. Qed.

Lemma build_shifts_spec pl i :
  Forall root_ok (roots pl) -> (i <= length (roots pl))%nat ->
  build_shifts (set_shift_cache pl (psums 0 (map shift_of (take i (roots pl))))) (drop i (bm_iter (bitmap pl))) =
  Some (set_shift_cache pl (psums 0 (map shift_of (roots pl)))).
Proof.
  intros Hb. remember (length (roots pl) - i)%nat as k eqn:Hk. revert i Hk.
  induction k as [|k IH]; intros i Hk Hi.
  { rewrite drop_ge by (unfold roots in *; rewrite length_map in *; lia). cbn [build_shifts].
    by rewrite take_ge by lia. }
  destruct (lookup_lt_is_Some_2 (bm_iter (bitmap pl)) i) as [x Hx]; [unfold roots in *; rewrite length_map in *; lia|].
  rewrite (drop_S _ _ _ Hx). cbn [build_shifts].
  assert (Hr : roots pl !! i = Some (x - 1)) by (unfold roots; rewrite list_lookup_fmap, Hx; done).
  destruct (roots_bounds _ _ Hb (list_elem_of_lookup_2 _ _ _ Hr)) as [Hok _]. pose proof Hok as Hok'. unfold root_ok in Hok'.
  rewrite sub64_small by (unfold_words; lia).
  destruct (next_shift_step shift_of pl _ i _ Hb Hr (fun r Hr => proj1 (shifts_range r Hr)) eq_refl) as [E1 E2].
  unfold calculate_next_shift, get_shift, set_shift_cache. cbn [bitmap shift_cache].
  rewrite E1. cbn [mbind option_bind].
  destruct (curr_shifts (set_shift_cache pl (psums 0 (map shift_of (take i (roots pl))))) (x - 1) Hok) as [E3 _].
  { apply is_pruned_root_spec; [lia|]. change (roots (set_shift_cache pl _)) with (roots pl).
    by eapply list_elem_of_lookup_2. }
  unfold set_shift_cache in E3. rewrite E3, E2. cbn [path leaf_shift_cache].
  rewrite (psums_snoc shift_of _ _ _ Hr). apply (IH (S i)); lia.
Qed.

Lemma build_leaf_shifts_spec pl i :
  Forall root_ok (roots pl) -> (i <= length (roots pl))%nat ->
  build_leaf_shifts (set_leaf_shift_cache pl (psums 0 (map leaf_shift_of (take i (roots pl)))))
    (drop i (bm_iter (bitmap pl))) =
  Some (set_leaf_shift_cache pl (psums 0 (map leaf_shift_of (roots pl)))).
Proof.
  intros Hb. remember (length (roots pl) - i)%nat as k eqn:Hk. revert i Hk.
  induction k as [|k IH]; intros i Hk Hi.
  { rewrite drop_ge by (unfold roots in *; rewrite length_map in *; lia). cbn [build_leaf_shifts].
    by rewrite take_ge by lia. }
  destruct (lookup_lt_is_Some_2 (bm_iter (bitmap pl)) i) as [x Hx]; [unfold roots in *; rewrite length_map in *; lia|].
  rewrite (drop_S _ _ _ Hx). cbn [build_leaf_shifts].
  assert (Hr : roots pl !! i = Some (x - 1)) by (unfold roots; rewrite list_lookup_fmap, Hx; done).
  destruct (roots_bounds _ _ Hb (list_elem_of_lookup_2 _ _ _ Hr)) as [Hok _]. pose proof Hok as Hok'. unfold root_ok in Hok'.
  rewrite sub64_small by (unfold_words; lia).
  destruct (next_shift_step leaf_shift_of pl _ i _ Hb Hr (fun r Hr => proj1 (proj2 (shifts_range r Hr))) eq_refl) as [E1 E2].
  unfold calculate_next_leaf_shift, get_leaf_shift, set_leaf_shift_cache. cbn [bitmap leaf_shift_cache].
  rewrite E1. cbn [mbind option_bind].
  destruct (curr_shifts (set_leaf_shift_cache pl (psums 0 (map leaf_shift_of (take i (roots pl))))) (x - 1) Hok) as [_ E3].
  { apply is_pruned_root_spec; [lia|]. change (roots (set_leaf_shift_cache pl _)) with (roots pl).
    by eapply list_elem_of_lookup_2. }
  unfold set_leaf_shift_cache in E3. rewrite E3, E2. cbn [path shift_cache].
  rewrite (psums_snoc leaf_shift_of _ _ _ Hr). apply (IH (S i)); lia.
Qed.

Lemma init_caches_ok pl : prune_ok pl -> init_caches pl = Some pl.
Proof.
  intros Hok. pose proof (ok_roots pl Hok) as [Hb _]. unfold init_caches, build_shift_cache.
  pose proof (build_shifts_spec pl 0 Hb ltac:(lia)) as E. change (psums 0 (map shift_of (take 0 (roots pl)))) with (@nil Z) in E. rewrite drop_0 in E.
  change (bitmap (set_shift_cache pl [])) with (bitmap pl). rewrite E. cbn [mbind option_bind].
  rewrite <- (ok_shift pl Hok). replace (set_shift_cache pl (shift_cache pl)) with pl by by destruct pl.
  unfold build_leaf_shift_cache.
  pose proof (build_leaf_shifts_spec pl 0 Hb ltac:(lia)) as E2. change (psums 0 (map leaf_shift_of (take 0 (roots pl)))) with (@nil Z) in E2. rewrite drop_0 in E2.
  change (bitmap (set_leaf_shift_cache pl [])) with (bitmap pl). rewrite E2.
  rewrite <- (ok_leaf_shift pl Hok). by destruct pl.
Qed.

(** Lists that are well formed and have the same roots have the same contents. *)
Lemma prune_ok_same pl pl' :
  prune_ok pl -> prune_ok pl' -> roots pl = roots pl' ->
  to_vec pl = to_vec pl' /\ shift_cache pl = shift_cache pl' /\ leaf_shift_cache pl = leaf_shift_cache pl'.
Proof.
  intros Hok Hok' E. rewrite (ok_shift pl Hok), (ok_shift pl' Hok'), (ok_leaf_shift pl Hok), (ok_leaf_shift pl' Hok'), E.
  split; [|done]. unfold to_vec. rewrite <- (map_pred_succ (bm_iter (bitmap pl))), <- (map_pred_succ (bm_iter (bitmap pl'))).
  fold (roots pl) (roots pl'). by rewrite E.
Qed.

Lemma rebuild_same pl :
  prune_ok pl -> Forall (fun r => r < 2 ^ 31 - 64) (roots pl) ->
  forall pth, exists pl', new pth (bitmap pl) = Some pl' /\ prune_ok pl' /\ roots pl' = roots pl /\ path pl' = pth.
Proof.
  intros Hok Hlt pth. pose proof (ok_roots pl Hok) as [Hb Hl].
  destruct (new_spec pth (bitmap pl)) as (pl' & E & Hpth & Hok' & Hn).
  - fold (roots pl). apply Forall_forall. intros r Hr. pose proof (roots_bounds _ _ Hb Hr) as [Hr' _].
    eapply Forall_forall in Hlt; [|exact Hr]. unfold root_ok in Hr'. lia.
  - exact Hl.
  - exists pl'. split; [done|]. split; [done|]. split; [by apply prune_list_ext|done].
Qed.

End init.

(** * Properties *)

Section properties.
Context {BM : Type} {HB : Bitmap BM} {HL : BitmapLaws BM}.
Implicit Types (pl : PruneList BM).

(** Whether compaction has removed a position: it is pruned and not a root. *)
Definition is_compacted pl (p : Z) : bool := negb (is_pruned_root pl p) && is_pruned pl p.

Lemma is_compacted_spec pl p :
  prune_ok pl -> 0 <= p < 2 ^ 31 -> is_compacted pl p = true <-> compacted (roots pl) p.
Proof.
  intros Hok Hp. unfold is_compacted, compacted.
  rewrite andb_true_iff, negb_true_iff, <- not_true_iff_false, is_pruned_root_spec, is_pruned_spec;
    [tauto|apply Hok|lia|lia].
Qed.

(** Appending prunes whole subtrees: from a well-formed list, a position
    at or after the last root is accepted, the result is well formed, and a
    position is pruned afterwards if and only if every leaf below it was
    pruned before or lies below the appended position. So siblings are rolled
    up into their parents, at any number of levels, and nothing else is
    pruned. *)
Theorem append_prunes pl (p : Z) :
  prune_ok pl -> 0 <= p < 2 ^ 31 - 64 -> default 0 (bm_maximum (bitmap pl)) <= p ->
  exists pl', append pl p = Some pl' /\ prune_ok pl' /\
    forall x, 0 <= x < 2 ^ 31 ->
      is_pruned pl' x = true <->
      forall l, under x l -> is_leaf l = true -> is_pruned pl l = true \/ under p l.
Proof.
  intros Hok Hp Hmax. destruct (append_spec pl p Hok Hp) as (pl' & E & _ & Hok' & Hn).
  { intros r Hr. pose proof (maximum_ge pl r Hr). lia. }
  exists pl'. split; [done|]. split; [done|]. intros x Hx.
  rewrite is_pruned_spec by (apply Hok' || lia). as_node x h q.
  assert (Hxb : in_bounds (npos h q)) by (unfold in_bounds; lia).
  rewrite pruned_iff_leaves by done. pose proof (pow2_pos h Hh). split.
  - intros Hall l Hl Hleaf. assert (0 <= l) by (apply under_range in Hl; [|done]; pose proof (range_fst_nonneg _ Hxb); lia).
    pose proof (under_le _ _ Hl Hxb). as_node l k n. rewrite is_leaf_npos in Hleaf by (done || lia).
    apply Z.eqb_eq in Hleaf as ->. apply under_leaf in Hl; [|done..].
    rewrite is_pruned_spec by (apply Hok || lia). by apply Hn, Hall.
  - intros Hall n Hnn. assert (0 <= n) by nia. apply Hn; [done|].
    assert (Hu : under (npos h q) (npos 0 n)) by by apply under_leaf.
    pose proof (under_le _ _ Hu Hxb). pose proof (npos_pos 0 n ltac:(lia) ltac:(lia)).
    rewrite <- is_pruned_spec by (apply Hok || lia). apply Hall; [done|].
    rewrite is_leaf_npos by lia. done.
Qed.

(** Shifts count what compaction removes: for a position that compaction
    keeps, the shift is the number of positions before it that compaction
    removes, and the leaf shift the number of those that are leaves. So the
    position less its shift is its index in the compacted hash file, and the
    same holds for leaves and the data file. *)
Theorem shifts_count pl (p : Z) :
  prune_ok pl -> 0 <= p < 2 ^ 31 -> is_compacted pl p = false ->
  get_shift pl p = Some (count (fun x => is_compacted pl x = true) 0 p) /\
  get_leaf_shift pl p = Some (count (fun x => is_compacted pl x = true /\ is_leaf x = true) 0 p) /\
  p - count (fun x => is_compacted pl x = true) 0 p = count (fun x => is_compacted pl x = false) 0 p.
Proof.
  intros Hok Hp Hc. destruct (get_shift_sum pl p Hok ltac:(lia)) as [-> ->].
  pose proof (ok_roots pl Hok) as [Hb Hl].
  assert (Hnc : ~ compacted (roots pl) p) by (rewrite <- is_compacted_spec by done; by rewrite Hc).
  assert (Heq : forall x, 0 <= x < p -> is_compacted pl x = true <-> compacted (roots pl) x)
    by (intros; apply is_compacted_spec; [done|lia]).
  split; [|split].
  - f_equal. rewrite <- (count_compacted _ shift_of count_positions (roots pl) 0 p) by (done || lia).
    apply count_ext. intros x Hx. rewrite Heq by done. tauto.
  - f_equal. rewrite <- (count_compacted _ leaf_shift_of count_leaves (roots pl) 0 p) by (done || lia).
    apply count_ext. intros x Hx. by rewrite Heq by done.
  - pose proof (count_not (fun x => is_compacted pl x = true) (fun x => is_compacted pl x = false) 0 p
      ltac:(lia) (fun x => not_true_iff_false _)). lia.
Qed.

(** The bitmap is all there is to store: building a list from the bitmap
    of a well-formed one gives the same roots and the same caches, and so do
    rebuilding the caches, reopening the file that [flush] writes and
    discarding changes made after a [flush]. *)
Theorem rebuild_exact pl pl2 file :
  prune_ok pl -> Forall (fun r => r < 2 ^ 31 - 64) (roots pl) -> path pl = true -> path pl2 = true ->
  let same pl' := prune_ok pl' /\ to_vec pl' = to_vec pl /\ shift_cache pl' = shift_cache pl /\
                  leaf_shift_cache pl' = leaf_shift_cache pl in
  init_caches pl = Some pl /\
  (exists pl', open (flush pl file) = Some pl' /\ same pl') /\
  (exists pl', discard pl2 (flush pl file) = Some pl' /\ same pl').
Proof.
  intros Hok Hlt Hp Hp2 same. split; [by apply init_caches_ok|].
  destruct (rebuild_same pl Hok Hlt true) as (pl' & E & Hok' & Hr & _).
  assert (Hs : same pl') by (split; [done|]; by apply prune_ok_same).
  unfold open, discard, flush. rewrite Hp, Hp2.
  change (default bm_new (Some (bitmap pl))) with (bitmap pl). cbv zeta. split; exists pl'; (split; [|done]).
  - rewrite E. cbn [mbind option_bind]. rewrite init_caches_ok by done.
    unfold new in E. by destruct (bm_contains (bitmap pl) 0).
  - done.
Qed.

(** The iterators over unpruned positions are exact: up to a cutoff they
    yield, in ascending order and one-based, the positions and the leaves
    that are not pruned. *)
Theorem unpruned_iter_exact pl cutoff_pos :
  prune_ok pl -> 0 <= cutoff_pos < 2 ^ 31 ->
  unpruned_iter pl cutoff_pos = filter (fun y => is_pruned pl (y - 1) = false) (seqZ 1 cutoff_pos) /\
  unpruned_leaf_iter pl cutoff_pos =
    filter (fun y => is_pruned pl (y - 1) = false /\ is_leaf (y - 1) = true) (seqZ 1 cutoff_pos).
Proof.
  intros Hok Hc. pose proof (ok_roots pl Hok) as [Hb Hl].
  assert (E : unpruned_iter pl cutoff_pos = filter (fun y => is_pruned pl (y - 1) = false) (seqZ 1 cutoff_pos)).
  { unfold unpruned_iter.
    replace (unpruned_new (pruned_bintree_range_iter pl)) with (unpruned_state (roots pl) 1).
    - rewrite unpruned_upto_spec; [|done|by eapply laminar_le|lia..].
      replace (cutoff_pos + 1 - 1) with cutoff_pos by lia. apply filter_ext_Forall, Forall_forall.
      intros y Hy%elem_of_seqZ. rewrite <- is_pruned_spec by (apply Hok || lia). by rewrite not_true_iff_false.
    - unfold unpruned_state, unpruned_new. f_equal; do 2 f_equal;
        unfold pruned_bintree_range_iter, to_vec, roots; rewrite map_map; apply map_ext_in;
        intros x Hx; unfold excl_range;
        assert (Hr : x - 1 ∈ roots pl) by (apply elem_of_map; exists x; split; [done|by apply list_elem_of_In]);
        destruct (roots_bounds _ _ Hb Hr) as [Hok' _]; unfold root_ok in Hok';
        by rewrite sub64_small by (unfold_words; lia). }
  split; [done|]. unfold unpruned_leaf_iter. rewrite E, list_filter_filter.
  apply filter_ext_Forall, Forall_forall. intros y Hy%elem_of_seqZ.
  rewrite sub64_small by (unfold_words; lia). tauto.
Qed.

End properties.

(** * Witnesses *)

Lemma sample_ok (l : list Z) pl :
  sample_list l = Some pl -> Forall (fun r => 0 <= r < 2 ^ 31 - 64) l -> laminar 0 l -> prune_ok pl.
Proof.
  intros E Hb Hl. destruct (append_all_spec (mkPruneList true (bm_new : gset Z) [] []) 0 l (new_ok true) Hb Hl)
    as (pl' & E' & _ & Hok & _).
  - intros n _ (r & Hr & _). unfold roots in Hr. cbn [bitmap] in Hr. rewrite bm_iter_new in Hr.
    by apply elem_of_nil in Hr.
  - unfold sample_list in E. rewrite E in E'. by injection E' as <-.
Qed.

Definition sample : PruneList (gset Z) :=
  default (mkPruneList true bm_new [] []) (sample_list [3; 4; 7; 8; 10]).

Lemma sample_prune_ok : prune_ok sample.
Proof.
  apply (sample_ok [3; 4; 7; 8; 10]); [vm_compute; reflexivity| |].
  - repeat constructor; lia.
  - vm_compute. repeat split; congruence.
Qed.

Lemma append_prunes_witness : exists pl', append sample 11 = Some pl' /\ is_pruned pl' 13 = true.
Proof.
  destruct (append_prunes sample 11 sample_prune_ok) as (pl' & E & _ & H); [lia|vm_compute; congruence|].
  exists pl'. split; [exact E|]. apply H; [lia|]. intros l Hl Hleaf.
  assert (Hl' : l = 7 \/ l = 8 \/ l = 9 \/ l = 10 \/ l = 11 \/ l = 12 \/ l = 13).
  { unfold under in Hl. change (bintree_range 13) with (7, 14) in Hl. simpl in Hl. lia. }
  destruct Hl' as [->|[->|[->|[->|[->|[->| ->]]]]]]; try (left; vm_compute; reflexivity);
    try (right; vm_compute; split; congruence); vm_compute in Hleaf; discriminate Hleaf.
Defined.

Lemma shifts_count_witness : get_shift sample 10 = Some 4 /\ get_leaf_shift sample 10 = Some 4.
Proof.
  destruct (shifts_count sample 10 sample_prune_ok ltac:(lia) ltac:(vm_compute; reflexivity)) as (E & El & _).
  split; [rewrite E|rewrite El]; vm_compute; reflexivity.
Defined.

Lemma rebuild_exact_witness : exists pl', open (flush sample None) = Some pl' /\ to_vec pl' = to_vec sample.
Proof.
  destruct (rebuild_exact sample sample None sample_prune_ok) as (_ & (pl' & E & _ & Hv & _) & _).
  - apply (bool_decide_unpack _). vm_compute. exact I.
  - vm_compute. reflexivity.
  - vm_compute. reflexivity.
  - exists pl'. split; [exact E|exact Hv].
Defined.

Lemma unpruned_iter_exact_witness : unpruned_iter sample 13 = [1; 2; 3; 7; 12; 13].
Proof.
  destruct (unpruned_iter_exact sample 13 sample_prune_ok ltac:(lia)) as [E _].
  rewrite E. vm_compute. reflexivity.
Defined.
