(* ===== verification/AppendOnly.v ===== *)
(** Append-only files.

    Models [src/store/src/types.rs]: [AppendOnlyFile] with elements of fixed or
    variable size, the size file that the latter need, and [DataFile].

    A file is the bytes on disk, the memory map that reads go through, and the
    bytes that are not synced yet. The state is the content of the file system
    at the file's path; opening, removing and renaming files succeed. The handle
    of the file ([file], [release]) holds no state and is left out.

    Main result: both kinds of file implement a journal, a list of synced
    elements of which a prefix is kept, followed by pending ones; appending,
    rewinding, syncing and discarding are its operations, reading looks an
    element up, and pruning filters what is synced. *)

From Stdlib Require Import ZArith Lia.
From stdpp Require Import base numbers option sorting list.
From S2P Require Import Prelude Ser.
Open Scope Z_scope.

(** ** Size entries *)

Record SizeEntry : Type := mkEntry { offset : Z; esize : Z }.

Definition LEN : Z := 8 + 2.

#[export] Instance size_entry_readable : Readable SizeEntry := fun R _ r =>
  let? (offset, r) := read_u64 r in
  let? (size, r) := read_u16 r in
  Ok (mkEntry offset size, r).

#[export] Instance size_entry_writeable : Writeable SizeEntry := fun w e =>
  write_u64 w (offset e) +w+ write_u16 w (esize e).

(** ** The state *)

Inductive SizeInfo (F : Type) : Type :=
| FixedSize (elmt_size : Z)
| VariableSize (size_file : F).
Arguments FixedSize {F} elmt_size.
Arguments VariableSize {F} size_file.

(** [disk] is the content of the file at [path]. *)
#[warnings="-register-all"]
Inductive AppendOnlyFile : Type := mkAof {
  disk : bytes;
  size_info : SizeInfo AppendOnlyFile;
  version : ProtocolVersion;
  mmap : option bytes;
  buffer : bytes;
  buffer_start_pos : Z;
  buffer_start_pos_bak : Z;
}.

Definition size (f : AppendOnlyFile) : Z := Z.of_nat (length (disk f)).

Fixpoint size_in_elmts (f : AppendOnlyFile) : Z :=
  match size_info f with
  | FixedSize elmt_size => size f / elmt_size
  | VariableSize size_file => size_in_elmts size_file
  end.

Fixpoint size_unsync_in_elmts (f : AppendOnlyFile) : Z :=
  match size_info f with
  | FixedSize elmt_size => add64 (buffer_start_pos f) (Z.of_nat (length (buffer f)) / elmt_size)
  | VariableSize size_file => size_unsync_in_elmts size_file
  end.

(** [&bytes[offset..offset + length]], or nothing if there are not that many. *)
Definition slice (bs : bytes) (offset length : Z) : bytes :=
  if Z.of_nat (List.length bs) <? offset + length then []
  else take (Z.to_nat length) (drop (Z.to_nat offset) bs).

Definition read_from_buffer (f : AppendOnlyFile) (offset length : Z) : bytes :=
  slice (buffer f) offset length.

Definition read_from_mmap (f : AppendOnlyFile) (offset length : Z) : bytes :=
  match mmap f with
  | Some mmap => slice mmap offset length
  | None => []
  end.

(** [ser::deserialize] and [ser::ser_vec] *)
Definition deserialize {T} `{Readable T} (v : ProtocolVersion) (data : bytes) : result ser_error T :=
  let? (x, r) := read (BinReader.mk data v DeFull) in Ok x.

Definition ser_vec {T} `{Writeable T} (v : ProtocolVersion) (x : T) : result ser_error bytes :=
  write (mkWriter SerFull v) x.

(** [read] and [offset_and_size], which [read] needs for two positions. *)
Fixpoint read_at (f : AppendOnlyFile) (pos : Z) : result ser_error bytes :=
  let offset_and_size p :=
    match size_info f with
    | FixedSize elmt_size => Ok (mul64 p elmt_size, elmt_size)
    | VariableSize size_file =>
        let? data := read_at size_file p in
        let? entry := deserialize (version size_file) data in
        Ok (offset entry, esize entry)
    end in
  if size_unsync_in_elmts f <=? pos then Ok []
  else
    let? (offset, length) := offset_and_size pos in
    if pos <? buffer_start_pos f then Ok (read_from_mmap f offset length)
    else
      let? (buffer_offset, _) := offset_and_size (buffer_start_pos f) in
      Ok (read_from_buffer f (sat_sub64 offset buffer_offset) length).

Definition read_as_elmt {T} `{Readable T} (f : AppendOnlyFile) (pos : Z) : result ser_error T :=
  let? data := read_at f pos in deserialize (version f) data.

Definition offset_and_size (f : AppendOnlyFile) (pos : Z) : result ser_error (Z * Z) :=
  match size_info f with
  | FixedSize elmt_size => Ok (mul64 pos elmt_size, elmt_size)
  | VariableSize size_file =>
      let? entry := read_as_elmt (T := SizeEntry) size_file pos in Ok (offset entry, esize entry)
  end.

(** ** Operations *)

(** [append], of bytes that are already serialised. *)
Fixpoint append (f : AppendOnlyFile) (bs : bytes) : result ser_error AppendOnlyFile :=
  let? info :=
    match size_info f with
    | FixedSize elmt_size => Ok (FixedSize elmt_size)
    | VariableSize size_file =>
        let next_pos := size_unsync_in_elmts size_file in
        let? offset :=
          if next_pos =? 0 then Ok 0
          else
            let? prev_entry := read_as_elmt (T := SizeEntry) size_file (sub64 next_pos 1) in
            Ok (add64 (offset prev_entry) (esize prev_entry)) in
        let? entry := ser_vec (version size_file) (mkEntry offset (wrap 16 (Z.of_nat (length bs)))) in
        let? size_file := append size_file entry in
        Ok (VariableSize size_file)
    end in
  Ok (mkAof (disk f) info (version f) (mmap f) (buffer f ++ bs) (buffer_start_pos f)
        (buffer_start_pos_bak f)).

Definition append_elmt {T} `{Writeable T} (f : AppendOnlyFile) (data : T)
    : result ser_error AppendOnlyFile :=
  let? bs := ser_vec (version f) data in append f bs.

Fixpoint append_elmts {T} `{Writeable T} (f : AppendOnlyFile) (data : list T)
    : result ser_error AppendOnlyFile :=
  match data with
  | [] => Ok f
  | x :: data => let? f := append_elmt f x in append_elmts f data
  end.

Fixpoint rewind (f : AppendOnlyFile) (pos : Z) : AppendOnlyFile :=
  let info :=
    match size_info f with
    | FixedSize elmt_size => FixedSize elmt_size
    | VariableSize size_file => VariableSize (rewind size_file pos)
    end in
  let bak :=
    if buffer_start_pos_bak f =? 0 then buffer_start_pos f else buffer_start_pos_bak f in
  mkAof (disk f) info (version f) (mmap f) (buffer f) pos bak.

(** [File::set_len] *)
Definition set_len (bs : bytes) (len : Z) : bytes :=
  take (Z.to_nat len) bs ++ replicate (Z.to_nat len - length bs) 0.

Definition set_size_info (f : AppendOnlyFile) (info : SizeInfo AppendOnlyFile) : AppendOnlyFile :=
  mkAof (disk f) info (version f) (mmap f) (buffer f) (buffer_start_pos f) (buffer_start_pos_bak f).

(** [flush] after the size file has been synced: truncate, append the buffer,
    map the file again. *)
Definition flush_data (f : AppendOnlyFile) : result ser_error AppendOnlyFile :=
  let? disk1 :=
    if 0 <? buffer_start_pos_bak f then
      if buffer_start_pos f =? 0 then Ok []
      else
        let? (offset, size) := offset_and_size f (sub64 (buffer_start_pos f) 1) in
        Ok (set_len (disk f) (add64 offset size))
    else Ok (disk f) in
  let disk2 := disk1 ++ buffer f in
  let mmap := match disk2 with [] => None | _ => Some disk2 end in
  let f := mkAof disk2 (size_info f) (version f) mmap [] (buffer_start_pos f) 0 in
  Ok (mkAof disk2 (size_info f) (version f) mmap [] (size_in_elmts f) 0).

Fixpoint flush (f : AppendOnlyFile) : result ser_error AppendOnlyFile :=
  let? info :=
    match size_info f with
    | FixedSize elmt_size => Ok (FixedSize elmt_size)
    | VariableSize size_file => let? size_file := flush size_file in Ok (VariableSize size_file)
    end in
  flush_data (set_size_info f info).

Fixpoint discard (f : AppendOnlyFile) : AppendOnlyFile :=
  let info :=
    match size_info f with
    | FixedSize elmt_size => FixedSize elmt_size
    | VariableSize size_file => VariableSize (discard size_file)
    end in
  let '(start, bak) :=
    if 0 <? buffer_start_pos_bak f then (buffer_start_pos_bak f, 0)
    else (buffer_start_pos f, buffer_start_pos_bak f) in
  mkAof (disk f) info (version f) (mmap f) [] start bak.

Fixpoint init (f : AppendOnlyFile) : AppendOnlyFile :=
  let info :=
    match size_info f with
    | FixedSize elmt_size => FixedSize elmt_size
    | VariableSize size_file => VariableSize (init size_file)
    end in
  let f := set_size_info f info in
  if size f =? 0
  then mkAof (disk f) info (version f) (mmap f) (buffer f) 0 (buffer_start_pos_bak f)
  else mkAof (disk f) info (version f) (Some (disk f)) (buffer f) (size_in_elmts f)
         (buffer_start_pos_bak f).

(** [write_tmp_pruned]: the content of the file at the temporary path. Every
    round reads an element, so as many rounds as bytes are enough for elements
    that are not empty. *)
Fixpoint prune_loop {T} `{Readable T, Writeable T} (fuel : nat) (v : ProtocolVersion)
    (r : StreamingReader.t) (current_pos : Z) (prune_pos : list Z) : result ser_error bytes :=
  match fuel with
  | O => Ok []
  | S fuel =>
      match read (A := T) r with
      | Err _ => Ok []
      | Ok (elmt, r) =>
          if bool_decide (current_pos ∈ prune_pos)
          then prune_loop fuel v r (add64 current_pos 1) (tail prune_pos)
          else write (mkWriter SerFull v) elmt +w+ prune_loop fuel v r (add64 current_pos 1) prune_pos
      end
  end.

Definition write_tmp_pruned {T} `{Readable T, Writeable T} (f : AppendOnlyFile) (prune_pos : list Z)
    : result ser_error bytes :=
  prune_loop (T := T) (S (length (disk f))) (version f) (StreamingReader.new (disk f) (version f)) 0 prune_pos.

(** The loop of [rebuild_size_file] over the elements of the data file. *)
Fixpoint sizes_loop {T} `{Readable T} (fuel : nat) (v : ProtocolVersion) (r : StreamingReader.t)
    (current_offset : Z) : result ser_error bytes :=
  match fuel with
  | O => Ok []
  | S fuel =>
      match read (A := T) r with
      | Err _ => Ok []
      | Ok (_, r) =>
          let size := wrap 16 (sat_sub64 (StreamingReader.total_bytes_read r) current_offset) in
          write (mkWriter SerFull v) (mkEntry current_offset size) +w+
          sizes_loop (T := T) fuel v r (add64 current_offset size)
      end
  end.

(** [replace]: the file takes over the content of another one. *)
Definition replace (f : AppendOnlyFile) (with_ : bytes) : AppendOnlyFile :=
  mkAof with_ (size_info f) (version f) None (buffer f) (buffer_start_pos f) (buffer_start_pos_bak f).

Definition release_size_file (info : SizeInfo AppendOnlyFile) : SizeInfo AppendOnlyFile :=
  match info with
  | FixedSize elmt_size => FixedSize elmt_size
  | VariableSize f => VariableSize (replace f (disk f))
  end.

Definition rebuild_size_file {T} `{Readable T} (f : AppendOnlyFile) : result ser_error AppendOnlyFile :=
  match size_info f with
  | FixedSize _ => Ok f
  | VariableSize size_file =>
      let? tmp := sizes_loop (T := T) (S (length (disk f))) (version f)
                    (StreamingReader.new (disk f) (version f)) 0 in
      Ok (set_size_info f (VariableSize (replace size_file tmp)))
  end.

(** [replace_with_tmp], for the content of the temporary file. *)
Definition replace_with_tmp {T} `{Readable T} (f : AppendOnlyFile) (tmp : bytes)
    : result ser_error AppendOnlyFile :=
  let f := replace (set_size_info f (release_size_file (size_info f))) tmp in
  let? f := rebuild_size_file (T := T) f in
  Ok (init f).

Fixpoint sum_sizes_loop (size_file : AppendOnlyFile) (pos : Z) (count : nat) : result ser_error Z :=
  match count with
  | O => Ok 0
  | S count =>
      let? entry := read_as_elmt (T := SizeEntry) size_file pos in
      let? sum := sum_sizes_loop size_file (pos + 1) count in
      Ok (add64 (esize entry) sum)
  end.

Definition sum_sizes (size_file : AppendOnlyFile) : result ser_error Z :=
  sum_sizes_loop size_file 0 (Z.to_nat (buffer_start_pos size_file)).

(** [open] of a file with the given content on disk. *)
Definition open {T} `{Readable T} (disk : bytes) (info : SizeInfo AppendOnlyFile) (v : ProtocolVersion)
    : result ser_error AppendOnlyFile :=
  let aof := init (mkAof disk info v None [] 0 0) in
  match size_info aof with
  | FixedSize _ => Ok aof
  | VariableSize size_file =>
      let? sum := sum_sizes size_file in
      if negb (sum =? size aof) then
        let? aof := rebuild_size_file (T := T) aof in Ok (init aof)
      else Ok aof
  end.

(** ** [DataFile] *)

Module DataFile.
Section data_file.
Context {T : Type} {RT : Readable T} {WT : Writeable T}.
Implicit Types f : AppendOnlyFile.

Definition open (disk : bytes) (info : SizeInfo AppendOnlyFile) (v : ProtocolVersion)
    : result ser_error AppendOnlyFile := open (T := T) disk info v.

Definition size_unsync f : Z := size_unsync_in_elmts f.
Definition size f : Z := size_in_elmts f.

Definition append f (data : T) : result ser_error (Z * AppendOnlyFile) :=
  let? f := append_elmt f data in Ok (size_unsync f, f).

Definition extend_from_slice f (data : list T) : result ser_error (Z * AppendOnlyFile) :=
  let? f := append_elmts f data in Ok (size_unsync f, f).

Definition read f (position : Z) : option T :=
  match read_as_elmt f (sub64 position 1) with Ok x => Some x | Err _ => None end.

Definition rewind f (position : Z) : AppendOnlyFile := rewind f position.
Definition flush f : result ser_error AppendOnlyFile := flush f.
Definition discard f : AppendOnlyFile := discard f.

Definition write_tmp_pruned f (prune_pos : list Z) : result ser_error bytes :=
  write_tmp_pruned (T := T) f (map (fun x => sub64 x 1) prune_pos).

Definition replace_with_tmp f (tmp : bytes) : result ser_error AppendOnlyFile :=
  replace_with_tmp (T := T) f tmp.
End data_file.
End DataFile.

(** * Journals *)

(** The first [start] of the [synced] elements are kept, [pending] follow. *)
Record journal (T : Type) : Type := mkJournal {
  synced : list T;
  start : nat;
  pending : list T;
}.
Arguments mkJournal {T} synced start pending.
Arguments synced {T} j.
Arguments start {T} j.
Arguments pending {T} j.

Definition content {T} (j : journal T) : list T := take (start j) (synced j) ++ pending j.

Definition j_append {T} (j : journal T) (l : list T) : journal T :=
  mkJournal (synced j) (start j) (pending j ++ l).
Definition j_rewind {T} (j : journal T) (n : nat) : journal T := mkJournal (synced j) n (pending j).
Definition j_flush {T} (j : journal T) : journal T := mkJournal (content j) (length (content j)) [].
Definition j_discard {T} (j : journal T) : journal T := mkJournal (synced j) (length (synced j)) [].

Lemma content_app {T} (j : journal T) l : content (j_append j l) = content j ++ l.
Proof. unfold content. simpl. by rewrite app_assoc. Qed.

Lemma content_flush {T} (j : journal T) : content (j_flush j) = content j.
Proof. unfold content at 1, j_flush. cbn [start synced pending]. by rewrite firstn_all, app_nil_r. Qed.

Lemma content_discard {T} (j : journal T) : content (j_discard j) = synced j.
Proof. unfold content, j_discard. cbn [start synced pending]. by rewrite firstn_all, app_nil_r. Qed.

(** ** Elements as bytes *)

(** Elements for which [enc] gives the bytes that are written, at most [2^16]
    of them and at least one, and read back. *)
Class Codec (T : Type) `{Readable T, Writeable T} (v : ProtocolVersion) (ok : T -> Prop) (enc : T -> bytes) := {
  codec_write x : ok x -> write (mkWriter SerFull v) x = Ok (enc x);
  codec_read x R (RD : Reader R) (RL : ReaderLaws R) (r : R) tl :
    ok x -> protocol_version r = v -> deserialization_mode r = DeFull -> input r = enc x ++ tl ->
    exists r', read r = Ok (x, r') /\ advanced input r r' tl;
  codec_eof R (RD : Reader R) (RL : ReaderLaws R) (r : R) : input r = [] -> exists e, read (A := T) r = Err e;
  codec_length x : ok x -> (0 < length (enc x))%nat /\ Z.of_nat (length (enc x)) < 2 ^ 16;
}.

Definition encs {T} (enc : T -> bytes) (l : list T) : bytes := concat (map enc l).

(** The bytes before element [i]. *)
Definition offset_of {T} (enc : T -> bytes) (l : list T) (i : nat) : Z :=
  Z.of_nat (length (encs enc (take i l))).

Lemma encs_app {T} (enc : T -> bytes) l k : encs enc (l ++ k) = encs enc l ++ encs enc k.
Proof. unfold encs. by rewrite map_app, concat_app. Qed.

Lemma encs_split {T} (enc : T -> bytes) l i x :
  l !! i = Some x -> encs enc l = encs enc (take i l) ++ enc x ++ encs enc (drop (S i) l).
Proof.
  intros Hi. rewrite <- (take_drop_middle l i x Hi) at 1. rewrite encs_app. done.
Qed.

Lemma slice_middle a b c : slice (a ++ b ++ c) (Z.of_nat (length a)) (Z.of_nat (length b)) = b.
Proof.
  unfold slice. rewrite !length_app.
  destruct (Z.ltb_spec (Z.of_nat (length a + (length b + length c))) (Z.of_nat (length a) + Z.of_nat (length b))); [lia|].
  by rewrite !Nat2Z.id, drop_app_length, take_app_length.
Qed.

Lemma slice_encs {T} (enc : T -> bytes) l i x :
  l !! i = Some x -> slice (encs enc l) (offset_of enc l i) (Z.of_nat (length (enc x))) = enc x.
Proof. intros Hi. rewrite (encs_split enc l i x Hi). apply slice_middle. Qed.

Lemma offset_of_app_l {T} (enc : T -> bytes) l k i :
  (i <= length l)%nat -> offset_of enc (l ++ k) i = offset_of enc l i.
Proof. intros. unfold offset_of. by rewrite take_app_le. Qed.

Lemma offset_of_app_r {T} (enc : T -> bytes) l k i :
  offset_of enc (l ++ k) (length l + i) = Z.of_nat (length (encs enc l)) + offset_of enc k i.
Proof. unfold offset_of. rewrite take_app_add, encs_app, length_app. lia. Qed.

Lemma offset_of_succ {T} (enc : T -> bytes) l i x :
  l !! i = Some x -> offset_of enc l (S i) = offset_of enc l i + Z.of_nat (length (enc x)).
Proof.
  intros Hi. unfold offset_of. rewrite (take_S_r _ _ _ Hi), encs_app, length_app. unfold encs at 2. simpl.
  rewrite app_nil_r. lia.
Qed.

Lemma offset_of_le {T} (enc : T -> bytes) l i : offset_of enc l i <= Z.of_nat (length (encs enc l)).
Proof.
  unfold offset_of. rewrite <- (take_drop i l) at 2. rewrite encs_app, length_app. lia.
Qed.

Lemma encs_length {T} (enc : T -> bytes) (n : nat) l :
  Forall (fun x => length (enc x) = n) l -> length (encs enc l) = (length l * n)%nat.
Proof.
  induction 1 as [|x l Hx _ IH]; [done|]. change (encs enc (x :: l)) with (enc x ++ encs enc l).
  rewrite length_app, IH, Hx. simpl. lia.
Qed.

Lemma deserialize_ok {T} `{Readable T, Writeable T} v ok enc {C : Codec T v ok enc} x :
  ok x -> deserialize v (enc x) = Ok x.
Proof.
  intros Hx. unfold deserialize.
  destruct (codec_read x BinReader.t BinReader.reader binreader_laws (BinReader.mk (enc x) v DeFull) [] Hx
    eq_refl eq_refl) as (r' & -> & _);
    [simpl; by rewrite app_nil_r|]. done.
Qed.

(** ** Files that implement a journal *)

Section raw.
Context {T : Type} {RT : Readable T} {WT : Writeable T}.
Context (v : ProtocolVersion) (ok : T -> Prop) (enc : T -> bytes) {C : Codec T v ok enc}.
Implicit Types (j : journal T) (f : AppendOnlyFile).

Definition all_ok j : Prop := Forall ok (synced j) /\ Forall ok (pending j).

(** The bytes of a file. The backup position is used while the file is rewound
    and is zero otherwise. *)
Definition raw j f : Prop :=
  disk f = encs enc (synced j) /\ buffer f = encs enc (pending j) /\
  buffer_start_pos f = Z.of_nat (start j) /\ (start j <= length (synced j))%nat /\
  ((buffer_start_pos_bak f = 0 /\ start j = length (synced j)) \/
   (buffer_start_pos_bak f = Z.of_nat (length (synced j)) /\ (0 < length (synced j))%nat)) /\
  version f = v /\ mmap f = (match disk f with [] => None | _ => Some (disk f) end) /\
  all_ok j /\ Z.of_nat (length (encs enc (synced j)) + length (encs enc (pending j))) < 2 ^ 62.

(** The file knows where its elements are. *)
Definition located j f : Prop :=
  size_unsync_in_elmts f = Z.of_nat (length (content j)) /\
  size_in_elmts f = Z.of_nat (length (synced j)) /\
  forall i x, content j !! i = Some x ->
    offset_and_size f (Z.of_nat i) = Ok (offset_of enc (content j) i, Z.of_nat (length (enc x))).

Lemma content_ok j : all_ok j -> Forall ok (content j).
Proof. intros [Hs Hp]. apply Forall_app. split; [by apply Forall_take|done]. Qed.

Lemma encs_count l : Forall ok l -> (length l <= length (encs enc l))%nat.
Proof.
  induction 1 as [|x l Hx _ IH]; [done|]. change (encs enc (x :: l)) with (enc x ++ encs enc l).
  rewrite length_app. destruct (codec_length x Hx). simpl. lia.
Qed.

Lemma encs_take_le l n : (length (encs enc (take n l)) <= length (encs enc l))%nat.
Proof. rewrite <- (take_drop n l) at 2. rewrite encs_app, length_app. lia. Qed.

Lemma content_length j : (start j <= length (synced j))%nat ->
  length (content j) = (start j + length (pending j))%nat.
Proof. intros. unfold content. rewrite length_app, length_take. lia. Qed.

(** The content fits a file. *)
Lemma content_small j f : raw j f ->
  Z.of_nat (length (encs enc (content j))) < 2 ^ 62 /\ Z.of_nat (length (content j)) < 2 ^ 62.
Proof.
  intros (_ & _ & _ & _ & _ & _ & _ & Hok & Hlen).
  assert (Z.of_nat (length (encs enc (content j))) < 2 ^ 62).
  { unfold content. rewrite encs_app, length_app. pose proof (encs_take_le (synced j) (start j)). lia. }
  pose proof (encs_count (content j) (content_ok j Hok)). lia.
Qed.

Lemma read_at_unfold f pos :
  read_at f pos =
  if size_unsync_in_elmts f <=? pos then Ok []
  else
    let? (offset, length) := offset_and_size f pos in
    if pos <? buffer_start_pos f then Ok (read_from_mmap f offset length)
    else
      let? (buffer_offset, _) := offset_and_size f (buffer_start_pos f) in
      Ok (read_from_buffer f (sat_sub64 offset buffer_offset) length).
Proof.
  destruct f as [d [n|sf] ver m b s k]; [done|]. unfold offset_and_size, read_as_elmt.
  cbn [read_at size_info buffer_start_pos version].
  destruct (_ <=? pos); [done|]. destruct (read_at sf pos); [|done]. cbn [rbind].
  destruct (deserialize _ _); [|done]. cbn [rbind]. destruct (pos <? s); [done|].
  destruct (read_at sf s); [|done]. cbn [rbind]. by destruct (deserialize _ _).
Qed.

(** Reading looks an element up in the content. *)
Lemma read_at_spec j f i :
  raw j f -> located j f ->
  read_at f (Z.of_nat i) = Ok (match content j !! i with Some x => enc x | None => [] end).
Proof.
  intros Hraw Hloc. pose proof (content_small j f Hraw) as [Hsm _].
  destruct Hraw as (Hd & Hb & Hs & Hle & _ & _ & Hm & Hok & _). destruct Hloc as (Hu & _ & Hl).
  rewrite read_at_unfold, Hu. destruct (content j !! i) as [x|] eqn:Hi.
  - pose proof (lookup_lt_Some _ _ _ Hi) as Hlt. destruct (Z.leb_spec (Z.of_nat (length (content j))) (Z.of_nat i)); [lia|].
    rewrite (Hl i x Hi). cbn [rbind]. rewrite Hs. destruct (Z.ltb_spec (Z.of_nat i) (Z.of_nat (start j))).
    + unfold content in Hi. rewrite lookup_app_l, lookup_take in Hi by (rewrite ?length_take; lia).
      rewrite decide_True in Hi by lia. f_equal. unfold read_from_mmap. rewrite Hm.
      assert (Ho : offset_of enc (content j) i = offset_of enc (synced j) i).
      { unfold content. rewrite offset_of_app_l by (rewrite length_take; lia).
        unfold offset_of. by rewrite take_take, Nat.min_l by lia. }
      rewrite Ho. rewrite Hd. pose proof (slice_encs enc _ _ _ Hi) as Hsl.
      destruct (encs enc (synced j)) as [|b0 bs0] eqn:E; [|done].
      pose proof (codec_length x) as Hcl.
      assert (ok x) as Hx by (destruct Hok as [Hok _]; eapply Forall_lookup_1; eauto).
      destruct (Hcl Hx) as [Hpos _]. rewrite <- Hsl in Hpos. unfold slice in Hpos.
      destruct (_ <? _); [simpl in Hpos; lia|]. rewrite drop_nil, take_nil in Hpos. simpl in Hpos. lia.
    + destruct (lookup_lt_is_Some_2 (content j) (start j)) as [y Hy]; [rewrite content_length in *; lia|].
      rewrite (Hl _ y Hy). cbn [rbind]. f_equal. unfold read_from_buffer. rewrite Hb.
      assert (Hi' : pending j !! (i - start j)%nat = Some x).
      { unfold content in Hi. rewrite lookup_app_r, length_take, Nat.min_l in Hi by (rewrite ?length_take; lia). done. }
      assert (Hlt' : length (take (start j) (synced j)) = start j) by (rewrite length_take; lia).
      assert (Ho1 : offset_of enc (content j) i =
        Z.of_nat (length (encs enc (take (start j) (synced j)))) + offset_of enc (pending j) (i - start j)).
      { unfold content. rewrite <- offset_of_app_r, Hlt'. f_equal. lia. }
      assert (Ho2 : offset_of enc (content j) (start j) = Z.of_nat (length (encs enc (take (start j) (synced j))))).
      { unfold content. rewrite offset_of_app_l by lia. unfold offset_of. by rewrite take_take, Nat.min_id. }
      rewrite Ho1, Ho2. unfold sat_sub64. rewrite Z.max_l by (unfold offset_of; lia).
      replace (_ + _ - _) with (offset_of enc (pending j) (i - start j)) by lia. by apply slice_encs.
  - apply lookup_ge_None in Hi. by destruct (Z.leb_spec (Z.of_nat (length (content j))) (Z.of_nat i)); [|lia].
Qed.

Lemma read_as_elmt_spec j f i x :
  raw j f -> located j f -> content j !! i = Some x -> read_as_elmt f (Z.of_nat i) = Ok x.
Proof.
  intros Hraw Hloc Hi. unfold read_as_elmt. rewrite (read_at_spec j f i Hraw Hloc), Hi. cbn [rbind].
  destruct Hraw as (_ & _ & _ & _ & _ & -> & _ & Hok & _).
  apply (deserialize_ok v ok enc). eapply Forall_lookup_1; [by apply content_ok|exact Hi].
Qed.

Lemma read_as_elmt_none j f i :
  raw j f -> located j f -> content j !! i = None -> exists e, read_as_elmt (T := T) f (Z.of_nat i) = Err e.
Proof.
  intros Hraw Hloc Hi. unfold read_as_elmt. rewrite (read_at_spec j f i Hraw Hloc), Hi. cbn [rbind].
  unfold deserialize.
  destruct (codec_eof (v := v) (ok := ok) (enc := enc) BinReader.t BinReader.reader binreader_laws
    (BinReader.mk [] (version f) DeFull) eq_refl) as (e & ->). by exists e.
Qed.

(** *** The operations on the bytes *)

Definition with_info f info : AppendOnlyFile := set_size_info f info.

Lemma raw_info j f info : raw j f -> raw j (set_size_info f info).
Proof. done. Qed.

Lemma raw_append j f x :
  raw j f -> ok x -> Z.of_nat (length (encs enc (synced j)) + length (encs enc (pending j)) + length (enc x)) < 2 ^ 62 ->
  raw (j_append j [x]) (mkAof (disk f) (size_info f) (version f) (mmap f) (buffer f ++ enc x)
    (buffer_start_pos f) (buffer_start_pos_bak f)).
Proof.
  intros (Hd & Hb & Hs & Hle & Hbak & Hv & Hm & [Hok1 Hok2] & Hlen) Hx Hlt.
  unfold raw, all_ok. cbn [disk buffer buffer_start_pos buffer_start_pos_bak mmap version j_append synced start pending].
  assert (E : encs enc (pending j ++ [x]) = encs enc (pending j) ++ enc x)
    by (rewrite encs_app; f_equal; unfold encs; simpl; by rewrite app_nil_r).
  rewrite E, Hb, length_app. split_and!; try done; [apply Forall_app; split; [done|by constructor]|lia].
Qed.

Lemma raw_rewind j f n :
  raw j f -> pending j = [] -> (n <= start j)%nat ->
  raw (j_rewind j n) (mkAof (disk f) (size_info f) (version f) (mmap f) (buffer f) (Z.of_nat n)
    (if buffer_start_pos_bak f =? 0 then buffer_start_pos f else buffer_start_pos_bak f)).
Proof.
  intros (Hd & Hb & Hs & Hle & Hbak & Hv & Hm & Hok & Hlen) Hp Hn.
  unfold raw. cbn [disk buffer buffer_start_pos buffer_start_pos_bak mmap version j_rewind synced start pending].
  split_and!; try done; [lia|].
  destruct Hbak as [[-> Hst]|[Hbk Hpos]].
  - rewrite Z.eqb_refl, Hs. destruct (decide (length (synced j) = 0)%nat); [left; lia|right; lia].
  - destruct (Z.eqb_spec (buffer_start_pos_bak f) 0); [lia|]. right. lia.
Qed.

Lemma raw_discard j f :
  raw j f ->
  raw (j_discard j) (mkAof (disk f) (size_info f) (version f) (mmap f) []
    (if 0 <? buffer_start_pos_bak f then buffer_start_pos_bak f else buffer_start_pos f)
    (if 0 <? buffer_start_pos_bak f then 0 else buffer_start_pos_bak f)).
Proof.
  intros (Hd & Hb & Hs & Hle & Hbak & Hv & Hm & [Hok1 _] & Hlen).
  unfold raw, all_ok. cbn [disk buffer buffer_start_pos buffer_start_pos_bak mmap version j_discard synced start pending].
  split_and!; try done; [|left; split; [|done]|simpl; lia];
    destruct (Z.ltb_spec 0 (buffer_start_pos_bak f)); lia.
Qed.

(** Syncing writes the content. *)
Lemma raw_flush j f info disk1 s :
  raw j f -> disk1 = encs enc (take (start j) (synced j)) -> s = Z.of_nat (length (content j)) ->
  raw (j_flush j) (mkAof (disk1 ++ buffer f) info (version f)
    (match disk1 ++ buffer f with [] => None | _ => Some (disk1 ++ buffer f) end) [] s 0).
Proof.
  intros Hraw -> ->. pose proof (content_small j f Hraw) as [Hsm _].
  destruct Hraw as (Hd & Hb & Hs & Hle & Hbak & Hv & Hm & Hok & Hlen).
  unfold raw, all_ok. cbn [disk buffer buffer_start_pos buffer_start_pos_bak mmap version j_flush synced start pending].
  rewrite Hb, <- encs_app. split_and!; try done.
  - by left.
  - by apply content_ok.
  - unfold encs at 2. simpl. lia.
Qed.

(** The truncation of a rewound file. *)
Lemma truncated j f :
  raw j f ->
  set_len (disk f) (offset_of enc (synced j) (start j)) = encs enc (take (start j) (synced j)).
Proof.
  intros (Hd & _). unfold set_len, offset_of. rewrite Hd, Nat2Z.id.
  pose proof (encs_take_le (synced j) (start j)).
  replace (length (encs enc (take (start j) (synced j))) - length (encs enc (synced j)))%nat with 0%nat by lia.
  rewrite app_nil_r. rewrite <- (take_drop (start j) (synced j)) at 2. by rewrite encs_app, take_app_length.
Qed.

(** *** Elements of fixed size *)

Definition fixed (n : Z) j : Prop :=
  0 < n /\ Forall (fun x => Z.of_nat (length (enc x)) = n) (synced j ++ pending j).

Lemma encs_fixed n l : 0 < n -> Forall (fun x => Z.of_nat (length (enc x)) = n) l ->
  Z.of_nat (length (encs enc l)) = Z.of_nat (length l) * n.
Proof.
  intros Hn Hl. rewrite (encs_length enc (Z.to_nat n)); [lia|].
  eapply Forall_impl; [exact Hl|]. simpl. lia.
Qed.

Lemma fixed_content n j : fixed n j -> Forall (fun x => Z.of_nat (length (enc x)) = n) (content j).
Proof.
  intros [_ Hall]. apply Forall_app in Hall as [Hs Hp]. apply Forall_app. split; [by apply Forall_take|done].
Qed.

Lemma fixed_located n j f : raw j f -> fixed n j -> size_info f = FixedSize n -> located j f.
Proof.
  intros Hraw Hfix Hi. pose proof (content_small j f Hraw) as [Hsm Hsm']. pose proof (fixed_content n j Hfix) as Hc.
  destruct Hraw as (Hd & Hb & Hs & Hle & _ & _ & _ & Hok & Hlen). destruct Hfix as [Hn Hall].
  apply Forall_app in Hall as [Has Hap]. unfold located.
  pose proof (encs_fixed n _ Hn Hc) as Elen. split; [|split].
  - destruct f; cbn in Hi, Hb, Hs |- *. subst. rewrite content_length in * by done.
    rewrite (encs_fixed n), Z.div_mul by (done || lia). rewrite add64_small by (unfold_words; nia). lia.
  - destruct f; cbn in Hi, Hd |- *. subst. unfold size. cbn [disk]. by rewrite (encs_fixed n), Z.div_mul by (done || lia).
  - intros i x Hx. unfold offset_and_size. rewrite Hi. pose proof (lookup_lt_Some _ _ _ Hx).
    assert (Ei : offset_of enc (content j) i = Z.of_nat i * n).
    { unfold offset_of. rewrite (encs_fixed n) by (done || by apply Forall_take). rewrite length_take. lia. }
    rewrite Ei. rewrite mul64_small by (unfold_words; nia).
    eapply Forall_lookup_1 in Hc; [|exact Hx]. simpl in Hc. by rewrite Hc.
Qed.

End raw.

(** ** Size files *)

Definition entry_ok (e : SizeEntry) : Prop := u64 (offset e) /\ in_range 16 (esize e).
Definition enc_entry (e : SizeEntry) : bytes := be 8 (offset e) ++ be 2 (esize e).

#[export] Instance entry_codec v : Codec SizeEntry v entry_ok enc_entry.
Proof.
  split.
  - done.
  - intros [o s] R RD RL r tl [Ho Hs] _ _ Hin. unfold enc_entry in Hin. cbn [offset esize] in *.
    rewrite <- app_assoc in Hin. unfold read, size_entry_readable.
    read_next read_u64_ok; [done|]. read_next read_u16_ok; [done|].
    eexists. split; [done|adv_chain].
  - intros R RD RL r Hin. unfold read, size_entry_readable. destruct law_u64 as [_ He].
    rewrite He by (rewrite Hin; simpl; lia). by eexists.
  - intros e _. unfold enc_entry. rewrite length_app, !be_length. lia.
Qed.

Lemma enc_entry_length e : Z.of_nat (length (enc_entry e)) = LEN.
Proof. unfold enc_entry. by rewrite length_app, !be_length. Qed.

Section files.
Context {T : Type} {RT : Readable T} {WT : Writeable T}.
Context (v : ProtocolVersion) (ok : T -> Prop) (enc : T -> bytes) {C : Codec T v ok enc}.
Implicit Types (j : journal T) (f : AppendOnlyFile).

Fixpoint entries (o : Z) (l : list T) : list SizeEntry :=
  match l with
  | [] => []
  | x :: l => mkEntry o (Z.of_nat (length (enc x))) :: entries (o + Z.of_nat (length (enc x))) l
  end.

Definition encs_len (l : list T) : Z := Z.of_nat (length (encs enc l)).

Lemma encs_len_cons x l : encs_len (x :: l) = Z.of_nat (length (enc x)) + encs_len l.
Proof. unfold encs_len. change (encs enc (x :: l)) with (enc x ++ encs enc l). rewrite length_app. lia. Qed.

Lemma encs_len_app l k : encs_len (l ++ k) = encs_len l + encs_len k.
Proof. unfold encs_len. rewrite encs_app, length_app. lia. Qed.

Lemma entries_length o l : length (entries o l) = length l.
Proof. revert o. induction l; intros; simpl; auto. Qed.

Lemma entries_app o l k : entries o (l ++ k) = entries o l ++ entries (o + encs_len l) k.
Proof.
  revert o. induction l as [|x l IH]; intros o; [by rewrite Z.add_0_r|].
  cbn [app entries]. rewrite IH, encs_len_cons. by rewrite Z.add_assoc.
Qed.

Lemma entries_take o l n : take n (entries o l) = entries o (take n l).
Proof. revert o n. induction l as [|x l IH]; intros o [|n]; simpl; auto. by rewrite IH. Qed.

Lemma entries_lookup o l i x :
  l !! i = Some x -> entries o l !! i = Some (mkEntry (o + offset_of enc l i) (Z.of_nat (length (enc x)))).
Proof.
  revert o i. induction l as [|y l IH]; intros o [|i] Hi; try done.
  - injection Hi as ->. cbn. by rewrite Z.add_0_r.
  - cbn [lookup list_lookup] in Hi. cbn [entries lookup list_lookup].
    etransitivity; [apply (IH _ _ Hi)|]. do 2 f_equal.
    unfold offset_of. cbn [take]. change (encs enc (y :: take i l)) with (enc y ++ encs enc (take i l)).
    rewrite length_app. lia.
Qed.

Lemma entries_ok o l :
  Forall ok l -> 0 <= o -> o + encs_len l < 2 ^ 62 -> Forall entry_ok (entries o l).
Proof.
  intros Hl. revert o. induction Hl as [|x l Hx _ IH]; intros o Ho Hlen; [constructor|].
  rewrite encs_len_cons in Hlen. destruct (codec_length x Hx) as [_ Hs].
  assert (0 <= encs_len l) by (unfold encs_len; lia). cbn [entries]. constructor.
  - unfold entry_ok. cbn [offset esize]. unfold_words. lia.
  - apply IH; lia.
Qed.

(** The journal of the size file. *)
Definition entries_of j : journal SizeEntry :=
  mkJournal (entries 0 (synced j)) (start j) (entries (encs_len (take (start j) (synced j))) (pending j)).

Lemma entries_of_content j : content (entries_of j) = entries 0 (content j).
Proof. unfold content, entries_of. cbn [start synced pending]. by rewrite entries_take, entries_app. Qed.

(** The space that a journal may take, with ten bytes for every size entry. *)
Definition small j : Prop := encs_len (synced j) + encs_len (pending j) < 2 ^ 58.

Definition info_rep j (info : SizeInfo AppendOnlyFile) : Prop :=
  match info with
  | FixedSize n => fixed enc n j
  | VariableSize sf => size_info sf = FixedSize LEN /\ raw v entry_ok enc_entry (entries_of j) sf
  end.

(** The file [f] implements the journal [j]. *)
Definition rep j f : Prop := raw v ok enc j f /\ small j /\ info_rep j (size_info f).

Lemma enc_entries_len l : Z.of_nat (length (encs enc_entry l)) = Z.of_nat (length l) * LEN.
Proof.
  apply (encs_fixed enc_entry LEN); [done|]. apply Forall_forall. intros. apply enc_entry_length.
Qed.

Lemma entries_fixed (je : journal SizeEntry) : fixed enc_entry LEN je.
Proof. split; [done|]. apply Forall_forall. intros. apply enc_entry_length. Qed.

Lemma entries_located je sf :
  size_info sf = FixedSize LEN -> raw v entry_ok enc_entry je sf -> located enc_entry je sf.
Proof. intros Hi Hraw. by apply (fixed_located v entry_ok enc_entry LEN); [|apply entries_fixed|]. Qed.

Lemma rep_located j f : rep j f -> located enc j f.
Proof.
  intros (Hraw & Hsm & Hi). destruct (size_info f) as [n|sf] eqn:E; cbn in Hi.
  - by apply (fixed_located v ok enc n).
  - destruct Hi as [Ei Hr]. pose proof (entries_located _ sf Ei Hr) as Hloc.
    pose proof Hloc as (Hu & Hs & _). split; [|split].
    + destruct f. cbn in E |- *. subst. by rewrite Hu, entries_of_content, entries_length.
    + destruct f. cbn in E |- *. subst. rewrite Hs. unfold entries_of. cbn [synced]. by rewrite entries_length.
    + intros i x Hx. unfold offset_and_size. rewrite E.
      assert (He : content (entries_of j) !! i =
        Some (mkEntry (offset_of enc (content j) i) (Z.of_nat (length (enc x))))).
      { rewrite entries_of_content. rewrite (entries_lookup 0 _ _ _ Hx). by rewrite Z.add_0_l. }
      rewrite (read_as_elmt_spec v entry_ok enc_entry _ _ _ _ Hr Hloc He). done.
Qed.

(** *** Appending *)

(** The size of the elements, if it is fixed. *)
Definition elmt_size (f : AppendOnlyFile) : option Z :=
  match size_info f with FixedSize n => Some n | VariableSize _ => None end.

Definition fits (n : option Z) (x : T) : Prop :=
  match n with Some n => Z.of_nat (length (enc x)) = n | None => True end.

Lemma entries_of_append j x :
  (start j <= length (synced j))%nat ->
  entries_of (j_append j [x]) =
  j_append (entries_of j) [mkEntry (encs_len (content j)) (Z.of_nat (length (enc x)))].
Proof.
  intros Hle. unfold entries_of, j_append. cbn [synced start pending]. f_equal.
  rewrite entries_app. cbn [entries]. do 3 f_equal. unfold content. by rewrite encs_len_app.
Qed.

Lemma append_fixed f bs n :
  size_info f = FixedSize n ->
  append f bs = Ok (mkAof (disk f) (FixedSize n) (version f) (mmap f) (buffer f ++ bs)
    (buffer_start_pos f) (buffer_start_pos_bak f)).
Proof. intros E. destruct f. cbn in E |- *. by subst. Qed.

Lemma raw_le j f : raw v ok enc j f -> (start j <= length (synced j))%nat.
Proof. intros H. apply H. Qed.

Lemma append_elmt_rep j f x :
  rep j f -> ok x -> fits (elmt_size f) x -> small (j_append j [x]) ->
  exists f', append_elmt f x = Ok f' /\ rep (j_append j [x]) f' /\ elmt_size f' = elmt_size f.
Proof.
  intros (Hraw & Hsm & Hi) Hx Hfit Hsm'. unfold append_elmt, ser_vec. unfold elmt_size in *.
  pose proof (raw_le j f Hraw) as Hle. destruct (codec_length x Hx) as [Hx0 Hx16].
  assert (Hv : version f = v) by apply Hraw. rewrite Hv, (codec_write x Hx). cbn [rbind].
  assert (Hraw' : raw v ok enc (j_append j [x]) (mkAof (disk f) (size_info f) (version f) (mmap f)
    (buffer f ++ enc x) (buffer_start_pos f) (buffer_start_pos_bak f))).
  { apply raw_append; [done|done|]. unfold small in Hsm'. unfold j_append in Hsm'. cbn [synced pending] in Hsm'.
    rewrite encs_len_app in Hsm'. unfold encs_len in Hsm'. unfold encs at 3 in Hsm'. cbn [map concat] in Hsm'.
    rewrite app_nil_r in Hsm'. lia. }
  destruct (size_info f) as [n|sf] eqn:E; cbn in Hi, Hfit.
  - rewrite (append_fixed _ _ n E). eexists. split; [done|]. split; [|done]. split; [exact Hraw'|]. split; [done|].
    destruct Hi as [Hn Hall]. split; [done|]. unfold j_append. cbn [synced pending]. rewrite app_assoc.
    apply Forall_app. split; [done|by constructor].
  - destruct Hi as [Ei Hr]. pose proof (entries_located _ sf Ei Hr) as Hloc. pose proof Hloc as (Hu & _ & _).
    pose proof (content_small v ok enc j f Hraw) as [Hcs Hcl]. fold (encs_len (content j)) in Hcs.
    rewrite entries_of_content, entries_length in Hu.
    set (e := mkEntry (encs_len (content j)) (Z.of_nat (length (enc x)))).
    assert (Hoff : (if size_unsync_in_elmts sf =? 0 then Ok 0
      else let? prev := read_as_elmt (T := SizeEntry) sf (sub64 (size_unsync_in_elmts sf) 1) in
           Ok (add64 (offset prev) (esize prev))) = Ok (offset e)).
    { rewrite Hu. destruct (Z.eqb_spec (Z.of_nat (length (content j))) 0) as [E0|E0].
      - destruct (content j); [done|simpl in E0; lia].
      - rewrite sub64_small by (unfold_words; lia).
        replace (Z.of_nat (length (content j)) - 1) with (Z.of_nat (length (content j) - 1)) by lia.
        destruct (lookup_lt_is_Some_2 (content j) (length (content j) - 1)) as [y Hy]; [lia|].
        assert (He : content (entries_of j) !! (length (content j) - 1)%nat =
          Some (mkEntry (offset_of enc (content j) (length (content j) - 1)) (Z.of_nat (length (enc y))))).
        { rewrite entries_of_content, (entries_lookup 0 _ _ _ Hy). by rewrite Z.add_0_l. }
        rewrite (read_as_elmt_spec v entry_ok enc_entry _ _ _ _ Hr Hloc He). cbn [rbind offset esize].
        f_equal. rewrite add64_small.
        + rewrite <- (offset_of_succ enc _ _ _ Hy). unfold e, offset_of. cbn [offset].
          replace (S (length (content j) - 1)) with (length (content j)) by lia. by rewrite firstn_all.
        + rewrite <- (offset_of_succ enc _ _ _ Hy). pose proof (offset_of_le enc (content j) (S (length (content j) - 1))).
          unfold encs_len in Hcs. unfold offset_of in *. unfold_words. lia. }
    assert (He : entry_ok e) by (unfold entry_ok, e; cbn [offset esize]; unfold encs_len in *; unfold_words; lia).
    destruct f as [d inf ver m b s k]. cbn [size_info] in E. subst inf. cbn [append size_info].
    rewrite Hoff. cbn [rbind]. rewrite wrap_small by (unfold in_range; lia).
    assert (Hvs : version sf = v) by apply Hr. rewrite Hvs.
    change (ser_vec v (mkEntry (offset e) (Z.of_nat (length (enc x))))) with (ser_vec v e).
    unfold ser_vec. rewrite (codec_write (v := v) (ok := entry_ok) (enc := enc_entry) e He). cbn [rbind].
    rewrite (append_fixed _ _ LEN Ei). cbn [rbind]. eexists. split; [done|].
    split; [|done]. split; [exact Hraw'|]. split; [done|]. cbn [size_info info_rep]. split; [done|].
    rewrite (entries_of_append j x Hle), <- Ei.
    apply (raw_append v entry_ok enc_entry (entries_of j) sf e Hr He).
    rewrite !Nat2Z.inj_add, enc_entry_length, !enc_entries_len. unfold entries_of. cbn [synced pending].
    rewrite !entries_length. destruct Hraw as (_ & _ & _ & _ & _ & _ & _ & [Ho1 Ho2] & _).
    pose proof (encs_count v ok enc (synced j) Ho1). pose proof (encs_count v ok enc (pending j) Ho2).
    unfold small, encs_len in Hsm. change LEN with 10. lia.
Qed.

Lemma append_elmts_rep j f l :
  rep j f -> Forall ok l -> Forall (fits (elmt_size f)) l -> small (j_append j l) ->
  exists f', append_elmts f l = Ok f' /\ rep (j_append j l) f' /\ elmt_size f' = elmt_size f.
Proof.
  intros Hrep Hl. revert j f Hrep. induction Hl as [|x l Hx _ IH]; intros j f Hrep Hfit Hsm.
  { exists f. split; [done|]. split; [|done]. unfold j_append. rewrite app_nil_r. by destruct j. }
  apply Forall_cons in Hfit as [Hf Hfit].
  assert (Hsm1 : small (j_append j [x])).
  { unfold small, j_append in *. cbn [synced pending] in *. rewrite encs_len_app in *. rewrite encs_len_cons in *.
    unfold encs_len in *. unfold encs at 3. simpl. lia. }
  destruct (append_elmt_rep j f x Hrep Hx Hf Hsm1) as (f1 & E1 & Hrep1 & Hk1).
  assert (Hj : j_append (j_append j [x]) l = j_append j (x :: l)).
  { unfold j_append. cbn [synced start pending]. by rewrite <- app_assoc. }
  destruct (IH _ f1 Hrep1) as (f2 & E2 & Hrep2 & Hk2).
  - by rewrite Hk1.
  - by rewrite Hj.
  - exists f2. cbn [append_elmts]. rewrite E1, <- Hj. cbn [rbind]. split; [done|]. split; [done|congruence].
Qed.

(** *** Rewinding and discarding *)

Lemma rewind_keeps_rep j f n :
  rep j f -> pending j = [] -> (n <= start j)%nat ->
  rep (j_rewind j n) (rewind f (Z.of_nat n)) /\ elmt_size (rewind f (Z.of_nat n)) = elmt_size f.
Proof.
  intros (Hraw & Hsm & Hi) Hp Hn. pose proof (raw_rewind v ok enc j f n Hraw Hp Hn) as Hr.
  destruct f as [d [m|sf] ver mm b s k]; cbn in Hi |- *; (split; [|done]); (split; [exact Hr|]); (split; [done|]).
  - exact Hi.
  - destruct Hi as [Ei Hre]. cbn. split; [by destruct sf; cbn in Ei |- *; subst|].
    assert (Hpe : pending (entries_of j) = []) by (unfold entries_of; cbn [pending]; by rewrite Hp).
    pose proof (raw_rewind v entry_ok enc_entry (entries_of j) sf n Hre Hpe Hn) as Hr'.
    assert (Ej : entries_of (j_rewind j n) = j_rewind (entries_of j) n)
      by (unfold entries_of, j_rewind; cbn [synced start pending]; by rewrite Hp).
    rewrite Ej. destruct sf as [d' inf ver' mm' b' s' k']. cbn in Ei. subst inf. exact Hr'.
Qed.

Lemma discard_rep j f :
  rep j f -> rep (j_discard j) (discard f) /\ elmt_size (discard f) = elmt_size f.
Proof.
  intros (Hraw & Hsm & Hi). pose proof (raw_discard v ok enc j f Hraw) as Hr.
  assert (Hsm' : small (j_discard j)).
  { unfold small, j_discard, encs_len in *. cbn [synced pending]. unfold encs at 2. simpl. lia. }
  destruct f as [d [m|sf] ver mm b s k]; cbn in Hi, Hr |- *.
  - destruct (0 <? k); (split; [|done]); (split; [exact Hr|]); (split; [done|]).
    all: destruct Hi as [Hn Hall]; split; [done|]; cbn [j_discard synced pending]; rewrite app_nil_r;
      by apply Forall_app in Hall as [? _].
  - destruct Hi as [Ei Hre]. pose proof (raw_discard v entry_ok enc_entry (entries_of j) sf Hre) as Hr'.
    assert (Ej : entries_of (j_discard j) = j_discard (entries_of j)).
    { unfold entries_of, j_discard. cbn [synced start pending entries]. by rewrite entries_length. }
    assert (Hin : info_rep (j_discard j) (VariableSize (discard sf))).
    { cbn. rewrite Ej. destruct sf as [d' inf ver' mm' b' s' k']. cbn in Ei. subst inf.
      cbn [discard size_info buffer_start_pos_bak] in Hr' |- *. cbn in Hr'.
      destruct (0 <? k'); (split; [done|exact Hr']). }
    destruct (0 <? k); (split; [|done]); (split; [exact Hr|]); (split; [done|exact Hin]).
Qed.

(** *** Syncing *)

Lemma flush_data_raw {T'} `{RT' : Readable T', WT' : Writeable T'} ok' enc' {C' : Codec T' v ok' enc'}
    (j : journal T') f :
  raw v ok' enc' j f ->
  (forall i x, synced j !! i = Some x -> (i < start j)%nat ->
     offset_and_size f (Z.of_nat i) = Ok (offset_of enc' (synced j) i, Z.of_nat (length (enc' x)))) ->
  (forall m s k, size_in_elmts (mkAof (encs enc' (content j)) (size_info f) (version f) m [] s k) =
     Z.of_nat (length (content j))) ->
  exists f', flush_data f = Ok f' /\ raw v ok' enc' (j_flush j) f' /\ size_info f' = size_info f.
Proof.
  intros Hraw Hloc Hsz. pose proof Hraw as (Hd & Hb & Hs & Hle & Hbak & _ & _ & _ & Hlen).
  unfold flush_data.
  assert (E1 : (if 0 <? buffer_start_pos_bak f then
      if buffer_start_pos f =? 0 then Ok []
      else let? (offset, size) := offset_and_size f (sub64 (buffer_start_pos f) 1) in
           Ok (set_len (disk f) (add64 offset size))
    else Ok (disk f)) = Ok (encs enc' (take (start j) (synced j)))).
  { destruct Hbak as [[-> Hst]|[-> Hpos]].
    - change (0 <? 0) with false. cbv iota. by rewrite Hd, Hst, firstn_all.
    - destruct (Z.ltb_spec 0 (Z.of_nat (length (synced j)))); [|lia]. rewrite Hs.
      destruct (Z.eqb_spec (Z.of_nat (start j)) 0) as [E0|E0]; [by replace (start j) with 0%nat by lia|].
      pose proof (encs_count v ok' enc' (synced j)) as Hcount. destruct Hraw as (_ & _ & _ & _ & _ & _ & _ & [Ho _] & _).
      specialize (Hcount Ho). rewrite sub64_small by (unfold_words; lia).
      replace (Z.of_nat (start j) - 1) with (Z.of_nat (start j - 1)) by lia.
      destruct (lookup_lt_is_Some_2 (synced j) (start j - 1)) as [y Hy]; [lia|].
      rewrite (Hloc _ y Hy) by lia. cbn [rbind].
      pose proof (offset_of_succ enc' _ _ _ Hy) as Hsucc. replace (S (start j - 1)) with (start j) in Hsucc by lia.
      pose proof (offset_of_le enc' (synced j) (start j)) as Hole. unfold offset_of in Hsucc, Hole.
      rewrite add64_small by (unfold offset_of; unfold_words; lia). f_equal.
      replace (offset_of enc' (synced j) (start j - 1) + Z.of_nat (length (enc' y)))
        with (offset_of enc' (synced j) (start j)) by (unfold offset_of; lia).
      unfold set_len, offset_of. rewrite Hd, Nat2Z.id. pose proof (encs_take_le enc' (synced j) (start j)).
      replace (length (encs enc' (take (start j) (synced j))) - length (encs enc' (synced j)))%nat with 0%nat by lia.
      rewrite app_nil_r. rewrite <- (take_drop (start j) (synced j)) at 2. by rewrite encs_app, take_app_length. }
  rewrite E1. cbn [rbind]. eexists. split; [done|]. split; [|done].
  apply (raw_flush v ok' enc' j f _ _ _ Hraw); [done|].
  rewrite Hb, <- encs_app. apply Hsz.
Qed.

Lemma entries_of_flush j : entries_of (j_flush j) = j_flush (entries_of j).
Proof.
  unfold entries_of at 1, j_flush. cbn [synced start pending entries].
  by rewrite entries_of_content, entries_length.
Qed.

(** The size file of a journal, synced. *)
Lemma flush_entries je sf :
  size_info sf = FixedSize LEN -> raw v entry_ok enc_entry je sf ->
  exists sf', flush sf = Ok sf' /\ raw v entry_ok enc_entry (j_flush je) sf' /\ size_info sf' = FixedSize LEN.
Proof.
  intros Ei Hr. pose proof (entries_located je sf Ei Hr) as (_ & _ & Hl).
  destruct (flush_data_raw entry_ok enc_entry je sf Hr) as (sf' & E & Hr' & Ei').
  - intros i x Hx Hlt. rewrite (Hl i x).
    + do 2 f_equal. unfold content. rewrite offset_of_app_l by (rewrite length_take; apply lookup_lt_Some in Hx; lia).
      unfold offset_of. by rewrite take_take, Nat.min_l by lia.
    + unfold content. rewrite lookup_app_l, lookup_take, decide_True by (rewrite ?length_take; apply lookup_lt_Some in Hx; lia).
      done.
  - intros m s k. cbn [size_in_elmts size_info]. rewrite Ei. unfold size. cbn [disk].
    by rewrite enc_entries_len, Z.div_mul.
  - exists sf'. rewrite Ei in Ei'. split; [|done]. rewrite <- E. destruct sf. cbn in Ei |- *. by subst.
Qed.

Lemma flush_rep j f :
  rep j f -> exists f', flush f = Ok f' /\ rep (j_flush j) f' /\ elmt_size f' = elmt_size f.
Proof.
  intros Hrep. pose proof (rep_located j f Hrep) as (_ & _ & Hl). destruct Hrep as (Hraw & Hsm & Hi).
  assert (Hsm' : small (j_flush j)).
  { unfold small, j_flush, encs_len in *. cbn [synced pending]. unfold encs at 2. simpl.
    unfold content. rewrite encs_app, length_app. pose proof (encs_take_le enc (synced j) (start j)). lia. }
  assert (Hlk : forall i x, synced j !! i = Some x -> (i < start j)%nat ->
    content j !! i = Some x /\ offset_of enc (content j) i = offset_of enc (synced j) i).
  { intros i x Hx Hlt. pose proof (lookup_lt_Some _ _ _ Hx). unfold content.
    rewrite lookup_app_l, lookup_take, decide_True by (rewrite ?length_take; lia). split; [done|].
    rewrite offset_of_app_l by (rewrite length_take; lia). unfold offset_of. by rewrite take_take, Nat.min_l by lia. }
  unfold elmt_size. destruct (size_info f) as [n|sf] eqn:E; cbn in Hi.
  - destruct (flush_data_raw ok enc j f Hraw) as (f' & E' & Hr' & Ei').
    + intros i x Hx Hlt. destruct (Hlk i x Hx Hlt) as [Hc Ho]. by rewrite (Hl i x Hc), Ho.
    + intros m s k. cbn [size_in_elmts size_info]. rewrite E. unfold size. cbn [disk].
      rewrite (encs_fixed enc n) by (apply Hi || by apply fixed_content). rewrite Z.div_mul; [done|].
      destruct Hi. lia.
    + exists f'. rewrite Ei', E. split; [rewrite <- E'; destruct f; cbn in E |- *; by subst|].
      split; [|done]. split; [done|]. split; [done|]. rewrite Ei', E. cbn. split; [apply Hi|].
      cbn [j_flush synced pending]. rewrite app_nil_r. by apply fixed_content.
  - destruct Hi as [Ei Hr]. destruct (flush_entries _ sf Ei Hr) as (sf' & E' & Hr' & Ei').
    rewrite <- entries_of_flush in Hr'.
    destruct (flush_data_raw ok enc j (set_size_info f (VariableSize sf')) Hraw) as (f' & Ef & Hrf & Eif).
    + intros i x Hx Hlt. unfold offset_and_size, set_size_info. cbn [size_info].
      destruct (Hlk i x Hx Hlt) as [Hc Ho].
      assert (He : content (entries_of (j_flush j)) !! i =
        Some (mkEntry (offset_of enc (content j) i) (Z.of_nat (length (enc x))))).
      { rewrite entries_of_content, content_flush, (entries_lookup 0 _ _ _ Hc). by rewrite Z.add_0_l. }
      rewrite (read_as_elmt_spec v entry_ok enc_entry _ _ _ _ Hr' (entries_located _ _ Ei' Hr') He).
      cbn [rbind offset esize]. by rewrite Ho.
    + intros m s k. unfold set_size_info. cbn [size_in_elmts size_info].
      pose proof (entries_located _ sf' Ei' Hr') as (_ & -> & _). unfold entries_of. cbn [synced j_flush].
      by rewrite entries_length.
    + exists f'. split.
      { rewrite <- Ef. destruct f as [d inf ver mm b s k]. cbn in E. subst inf. cbn [flush size_info].
        rewrite E'. done. }
      rewrite Eif. cbn. split; [|done]. split; [done|]. split; [done|]. rewrite Eif. cbn. done.
Qed.

(** *** Pruning *)

(** The elements of [l], the first of which has index [i], whose index is not in
    [del]. *)
Fixpoint kept (i : Z) (del : list Z) (l : list T) : list T :=
  match l with
  | [] => []
  | x :: l => if bool_decide (i ∈ del) then kept (i + 1) del l else x :: kept (i + 1) del l
  end.

Lemma kept_sublist i del l : kept i del l `sublist_of` l.
Proof.
  revert i. induction l as [|x l IH]; intros i; [constructor|]. cbn [kept].
  destruct (bool_decide _); by constructor.
Qed.

(** Once an index is passed, it does not matter. *)
Lemma kept_tail i d del l : d < i -> kept i (d :: del) l = kept i del l.
Proof.
  revert i. induction l as [|x l IH]; intros i Hi; [done|]. cbn [kept]. rewrite !IH by lia.
  rewrite (bool_decide_ext (i ∈ d :: del) (i ∈ del)); [done|].
  rewrite elem_of_cons. split; [intros [->|?]; [lia|done]|by right].
Qed.

Lemma kept_forall (P : T -> Prop) i del l : Forall P l -> Forall P (kept i del l).
Proof.
  intros Hl. revert i. induction Hl; intros i; [constructor|]. cbn [kept].
  destruct (bool_decide _); [done|by constructor].
Qed.

Lemma kept_encs_len i del l : encs_len (kept i del l) <= encs_len l.
Proof.
  revert i. induction l as [|x l IH]; intros i; [done|]. cbn [kept]. specialize (IH (i + 1)).
  destruct (bool_decide _); rewrite ?encs_len_cons; lia.
Qed.

Lemma stream_read x (r : StreamingReader.t) tl :
  ok x -> StreamingReader.version r = v -> StreamingReader.deser_mode r = DeFull ->
  StreamingReader.stream r = enc x ++ tl ->
  exists r', read (A := T) r = Ok (x, r') /\ StreamingReader.stream r' = tl /\
    StreamingReader.version r' = v /\ StreamingReader.deser_mode r' = DeFull.
Proof.
  intros Hx Hv Hm Hin.
  destruct (codec_read x StreamingReader.t StreamingReader.reader streaming_laws r tl Hx Hv Hm Hin)
    as (r' & E & Hs & Hv' & Hm' & _). exists r'. cbn in *. split_and!; congruence.
Qed.

Lemma stream_eof (r : StreamingReader.t) :
  StreamingReader.stream r = [] -> exists e, read (A := T) r = Err e.
Proof.
  intros Hin. by apply (codec_eof (v := v) (ok := ok) (enc := enc) StreamingReader.t StreamingReader.reader streaming_laws).
Qed.

Lemma prune_loop_spec fuel l (r : StreamingReader.t) i del :
  Forall ok l -> (length l < fuel)%nat -> 0 <= i -> i + Z.of_nat (length l) < 2 ^ 64 ->
  StronglySorted Z.lt del -> Forall (Z.le i) del ->
  StreamingReader.version r = v -> StreamingReader.deser_mode r = DeFull ->
  StreamingReader.stream r = encs enc l ->
  prune_loop (T := T) fuel v r i del = Ok (encs enc (kept i del l)).
Proof.
  intros Hl. revert fuel r i del. induction Hl as [|x l Hx Hl IH];
    intros [|fuel] r i del Hf Hi Hlen Hdel Hge Hv Hm Hin; cbn [length] in *; try lia; cbn [prune_loop kept].
  { destruct (stream_eof r Hin) as (e & ->). done. }
  change (encs enc (x :: l)) with (enc x ++ encs enc l) in Hin.
  destruct (stream_read x r _ Hx Hv Hm Hin) as (r' & -> & Hs' & Hv' & Hm').
  rewrite add64_small by (unfold_words; lia).
  destruct (bool_decide_reflect (i ∈ del)) as [Hel|Hel].
  - destruct del as [|d del]; [by apply not_elem_of_nil in Hel|]. apply StronglySorted_inv in Hdel as [Hdel Hd].
    apply Forall_cons in Hge as [Hge0 Hge].
    assert (d = i) as ->.
    { apply elem_of_cons in Hel as [->|Hel]; [done|]. rewrite Forall_forall in Hd. specialize (Hd i Hel). lia. }
    cbn [tail]. rewrite (IH fuel r' (i + 1) del); try done; try lia.
    + by rewrite kept_tail by lia.
    + eapply Forall_impl; [exact Hd|]. simpl. lia.
  - rewrite (IH fuel r' (i + 1) del); try done; try lia.
    + rewrite (codec_write x Hx). done.
    + apply Forall_forall. intros d Hd. rewrite Forall_forall in Hge. specialize (Hge d Hd).
      assert (d <> i) by (by intros ->). lia.
Qed.

(** A file that is synced holds the elements of its journal. *)
Definition is_synced j : Prop := start j = length (synced j) /\ pending j = [].

Lemma synced_content j : is_synced j -> content j = synced j.
Proof. intros [Hs Hp]. unfold content. by rewrite Hs, Hp, firstn_all, app_nil_r. Qed.

Lemma write_tmp_pruned_spec j f del :
  raw v ok enc j f -> StronglySorted Z.lt del -> Forall (Z.le 0) del ->
  write_tmp_pruned (T := T) f del = Ok (encs enc (kept 0 del (synced j))).
Proof.
  intros Hraw Hdel Hge. destruct Hraw as (Hd & _ & _ & _ & _ & Hv & _ & [Hok _] & Hlen).
  unfold write_tmp_pruned. rewrite Hv. pose proof (encs_count v ok enc _ Hok).
  apply prune_loop_spec; try done; [rewrite Hd; lia|unfold_words; lia].
Qed.

(** A reader counts the bytes of the elements it reads. *)
Definition counts : Prop :=
  forall x (r r' : StreamingReader.t) tl, ok x ->
    StreamingReader.version r = v -> StreamingReader.deser_mode r = DeFull ->
    StreamingReader.stream r = enc x ++ tl -> read (A := T) r = Ok (x, r') ->
    StreamingReader.total_bytes_read r' =
    add64 (StreamingReader.total_bytes_read r) (Z.of_nat (length (enc x))).

Lemma sizes_loop_spec fuel l (r : StreamingReader.t) o :
  counts -> Forall ok l -> (length l < fuel)%nat -> 0 <= o -> o + encs_len l < 2 ^ 62 ->
  StreamingReader.version r = v -> StreamingReader.deser_mode r = DeFull ->
  StreamingReader.total_bytes_read r = o -> StreamingReader.stream r = encs enc l ->
  sizes_loop (T := T) fuel v r o = Ok (encs enc_entry (entries o l)).
Proof.
  intros Hc Hl. revert fuel r o. induction Hl as [|x l Hx Hl IH];
    intros [|fuel] r o Hf Ho Hlen Hv Hm Ht Hin; cbn [length] in *; try lia; cbn [sizes_loop entries].
  { destruct (stream_eof r Hin) as (e & ->). done. }
  rewrite encs_len_cons in Hlen. assert (0 <= encs_len l) by (unfold encs_len; lia).
  change (encs enc (x :: l)) with (enc x ++ encs enc l) in Hin.
  destruct (stream_read x r _ Hx Hv Hm Hin) as (r' & E & Hs' & Hv' & Hm').
  pose proof (Hc x r r' _ Hx Hv Hm Hin E) as Ht'. rewrite E. destruct (codec_length x Hx) as [_ H16].
  rewrite Ht in Ht'. rewrite add64_small in Ht' by (unfold_words; lia). rewrite Ht'.
  unfold sat_sub64. rewrite Z.max_l by lia. replace (o + _ - o) with (Z.of_nat (length (enc x))) by lia.
  rewrite wrap_small by (unfold in_range; lia). rewrite add64_small by (unfold_words; lia).
  rewrite (IH fuel r' (o + Z.of_nat (length (enc x)))) by (done || lia). done.
Qed.

(** A freshly synced file from its content. *)
Definition synced_file (l : list T) : journal T := mkJournal l (length l) [].

Definition disk_map (d : bytes) : option bytes := match d with [] => None | _ => Some d end.

Lemma raw_synced {T'} `{RT' : Readable T', WT' : Writeable T'} ok' enc' {C' : Codec T' v ok' enc'} (l : list T') info :
  Forall ok' l -> Z.of_nat (length (encs enc' l)) < 2 ^ 62 ->
  raw v ok' enc' (mkJournal l (length l) [])
    (mkAof (encs enc' l) info v (disk_map (encs enc' l)) [] (Z.of_nat (length l)) 0).
Proof.
  intros Hl Hlen. unfold raw, all_ok. cbn. split_and!; try done; [by left|unfold encs in *; simpl in *; lia].
Qed.

Lemma init_synced d info n m s :
  (Z.of_nat (length d) = 0 -> n = 0) -> (d = [] -> m = None) ->
  size_in_elmts (mkAof d (match info with FixedSize k => FixedSize k | VariableSize sf => VariableSize (init sf) end)
    v m [] s 0) = n ->
  init (mkAof d info v m [] s 0) =
  mkAof d (match info with FixedSize k => FixedSize k | VariableSize sf => VariableSize (init sf) end)
    v (disk_map d) [] n 0.
Proof.
  intros H0 Hm Hn. cbn [init size_info]. unfold set_size_info. cbn [disk size_info version mmap buffer buffer_start_pos buffer_start_pos_bak].
  unfold size at 1. cbn [disk]. rewrite Hn. destruct d; [by rewrite (H0 eq_refl), (Hm eq_refl)|]. done.
Qed.

(** No rewind is pending. *)
Definition clean f : Prop :=
  buffer_start_pos_bak f = 0 /\
  match size_info f with FixedSize _ => True | VariableSize sf => buffer_start_pos_bak sf = 0 end.

Lemma flush_data_bak f f' :
  flush_data f = Ok f' -> buffer_start_pos_bak f' = 0 /\ size_info f' = size_info f.
Proof. unfold flush_data. destruct (if 0 <? _ then _ else _); by intros [= <-]. Qed.

Lemma flush_bak f f' : flush f = Ok f' -> buffer_start_pos_bak f' = 0.
Proof.
  destruct f as [d [n|sf] ver m b s k]; cbn [flush size_info rbind].
  - by intros [? _]%flush_data_bak.
  - destruct (flush sf); [|done]. by intros [? _]%flush_data_bak.
Qed.

Lemma flush_clean f f' : flush f = Ok f' -> clean f'.
Proof.
  intros E. split; [by apply (flush_bak f)|]. revert E.
  destruct f as [d [n|sf] ver m b s k]; cbn [flush size_info rbind].
  - by intros [_ ->]%flush_data_bak.
  - destruct (flush sf) as [sf'|] eqn:E; [|done]. intros [_ ->]%flush_data_bak. by apply (flush_bak sf).
Qed.

Lemma clean_synced j f : rep j f -> clean f -> pending j = [] -> is_synced j.
Proof.
  intros ((_ & _ & _ & _ & Hbak & _) & _) [Hb _] Hp. split; [|done]. destruct Hbak as [[_ ?]|[E ?]]; [done|lia].
Qed.

Definition rebuildable f : Prop := match size_info f with FixedSize _ => True | VariableSize _ => counts end.

Lemma replace_rep j f l :
  rep j f -> clean f -> pending j = [] -> Forall ok l -> Forall (fits (elmt_size f)) l ->
  rebuildable f -> small (synced_file l) ->
  exists f', replace_with_tmp (T := T) f (encs enc l) = Ok f' /\ rep (synced_file l) f' /\
    elmt_size f' = elmt_size f /\ clean f'.
Proof.
  intros (Hraw & _ & Hi) [Hbak Hbak'] Hp Hl Hfit Hreb Hsm. destruct Hraw as (_ & Hb & _ & _ & _ & Hv & _).
  assert (Hlen : Z.of_nat (length (encs enc l)) < 2 ^ 58).
  { unfold small, synced_file, encs_len in Hsm. cbn [synced pending] in Hsm. lia. }
  assert (Hlen' : Z.of_nat (length (encs enc l)) < 2 ^ 62) by lia.
  rewrite Hp in Hb. unfold encs in Hb. cbn in Hb.
  destruct f as [d info ver m b s k]. cbn in Hi, Hfit, Hreb, Hb, Hbak, Hbak', Hv. subst.
  unfold replace_with_tmp, elmt_size, rebuildable in *. cbn [size_info] in *. destruct info as [n|sf].
  - cbn. change (if size _ =? 0 then _ else _) with (init (mkAof (encs enc l) (FixedSize n) v None [] s 0)).
    destruct Hi as [Hn _].
    rewrite (init_synced _ _ (Z.of_nat (length l))).
    + eexists. split; [done|]. split; [|done]. split; [by apply raw_synced|]. split; [done|].
      cbn. split; [done|]. by rewrite app_nil_r.
    + rewrite (encs_fixed enc n) by done. nia.
    + done.
    + cbn. unfold size. cbn [disk]. by rewrite (encs_fixed enc n), Z.div_mul by (done || lia).
  - destruct Hi as [Ei Hr]. destruct sf as [sd info sv sm sb ss sk]. cbn in Ei, Hbak'. subst info sk.
    destruct Hr as (_ & Hsb & _ & _ & _ & Hsv & _). cbn in Hsb, Hsv. subst sv.
    unfold entries_of in Hsb. rewrite Hp in Hsb. cbn in Hsb. subst sb.
    unfold rebuild_size_file, replace, release_size_file. unfold set_size_info.
    cbn [size_info disk version mmap buffer buffer_start_pos buffer_start_pos_bak].
    pose proof (encs_count v ok enc l Hl) as Hcount.
    rewrite (sizes_loop_spec _ l) by (done || lia || (unfold encs_len; lia)). cbn [rbind].
    unfold replace. cbn [size_info disk version mmap buffer buffer_start_pos buffer_start_pos_bak].
    assert (Hent : Forall entry_ok (entries 0 l)) by (apply entries_ok; [done|lia|unfold encs_len; lia]).
    pose proof (enc_entries_len (entries 0 l)) as Hel. rewrite entries_length in Hel.
    assert (Hsf : init (mkAof (encs enc_entry (entries 0 l)) (FixedSize LEN) v None [] ss 0) =
      mkAof (encs enc_entry (entries 0 l)) (FixedSize LEN) v (disk_map (encs enc_entry (entries 0 l))) []
        (Z.of_nat (length (entries 0 l))) 0).
    { apply (init_synced _ (FixedSize LEN)).
      - rewrite entries_length, Hel. change LEN with 10. lia.
      - done.
      - rewrite entries_length. cbn. unfold size. cbn [disk]. by rewrite Hel, Z.div_mul. }
    rewrite (init_synced _ _ (Z.of_nat (length l))).
    + rewrite Hsf. eexists. split; [done|]. split; [|done]. split; [by apply raw_synced|]. split; [done|].
      cbn. split; [done|]. unfold entries_of, synced_file. cbn [synced start pending]. cbn [entries].
      rewrite <- (entries_length 0 l) at 1. apply (raw_synced entry_ok enc_entry); [done|]. rewrite Hel. change LEN with 10. lia.
    + intros. lia.
    + done.
    + rewrite Hsf. cbn. unfold size. cbn [disk]. by rewrite Hel, Z.div_mul.
Qed.

(** Pruning keeps the elements whose position, counted from one, is not listed. *)
Lemma prune_keeps_rep j f del :
  rep j f -> clean f -> pending j = [] -> rebuildable f ->
  StronglySorted Z.lt del -> Forall (Z.le 0) del ->
  let l := kept 0 del (synced j) in
  exists tmp f', write_tmp_pruned (T := T) f del = Ok tmp /\ replace_with_tmp (T := T) f tmp = Ok f' /\
    rep (synced_file l) f' /\ elmt_size f' = elmt_size f /\ clean f'.
Proof.
  intros Hrep Hc Hp Hreb Hdel Hge l. pose proof Hrep as (Hraw & Hsm & Hi).
  exists (encs enc l). destruct (replace_rep j f l) as (f' & E & Hr); try done.
  - apply kept_forall. apply Hraw.
  - apply kept_forall. unfold elmt_size. destruct (size_info f) as [n|sf]; cbn in Hi |- *.
    + destruct Hi as [_ Hall]. by apply Forall_app in Hall as [? _].
    + by apply Forall_forall.
  - unfold small, synced_file in *. cbn [synced pending]. pose proof (kept_encs_len 0 del (synced j)).
    rewrite Hp in Hsm. subst l. lia.
  - exists f'. split; [by apply write_tmp_pruned_spec|]. done.
Qed.


(** *** Opening *)

Lemma synced_fixed n l :
  0 < n -> Forall (fun x => Z.of_nat (length (enc x)) = n) l -> fixed enc n (synced_file l).
Proof. intros. split; [done|]. cbn. by rewrite app_nil_r. Qed.

Lemma small_synced l : encs_len l < 2 ^ 58 -> small (synced_file l).
Proof. unfold small, synced_file. cbn [synced pending]. unfold encs_len. unfold encs at 3. simpl. lia. Qed.

(** A file of elements of fixed size is what is on disk. *)
Lemma open_fixed {T'} {RT' : Readable T'} {WT' : Writeable T'} ok' enc' {C' : Codec T' v ok' enc'} (l : list T') n :
  0 < n -> Forall (fun x => Z.of_nat (length (enc' x)) = n) l ->
  open (T := T') (encs enc' l) (FixedSize n) v =
  Ok (mkAof (encs enc' l) (FixedSize n) v (disk_map (encs enc' l)) [] (Z.of_nat (length l)) 0).
Proof.
  intros Hn Hl. unfold open. pose proof (encs_fixed enc' n l Hn Hl) as Hlen.
  rewrite (init_synced _ _ (Z.of_nat (length l))); [done|nia|done|].
  cbn. unfold size. cbn [disk]. by rewrite Hlen, Z.div_mul by lia.
Qed.

(** The size file of a data file. *)
Definition size_file_of (l : list T) : AppendOnlyFile :=
  mkAof (encs enc_entry (entries 0 l)) (FixedSize LEN) v (disk_map (encs enc_entry (entries 0 l))) []
    (Z.of_nat (length l)) 0.

Lemma open_size_file l : open (T := SizeEntry) (encs enc_entry (entries 0 l)) (FixedSize LEN) v = Ok (size_file_of l).
Proof.
  rewrite (open_fixed entry_ok enc_entry _ LEN); [by rewrite entries_length|done|].
  apply Forall_forall. intros. apply enc_entry_length.
Qed.

Lemma size_file_raw l :
  Forall ok l -> encs_len l < 2 ^ 58 -> raw v entry_ok enc_entry (entries_of (synced_file l)) (size_file_of l).
Proof.
  intros Hl Hlen. unfold entries_of, synced_file. cbn [synced start pending]. cbn [entries].
  unfold size_file_of. rewrite <- (entries_length 0 l) at 1 2.
  pose proof (encs_count v ok enc l Hl) as Hc. assert (0 <= encs_len l) by (unfold encs_len; lia).
  apply (raw_synced entry_ok enc_entry); [apply entries_ok; [done|lia|lia]|].
  rewrite enc_entries_len, entries_length. unfold encs_len in Hlen. change LEN with 10. lia.
Qed.

Lemma init_size_file l : init (size_file_of l) = size_file_of l.
Proof.
  pose proof (enc_entries_len (entries 0 l)) as Hel. rewrite entries_length in Hel.
  unfold size_file_of. apply (init_synced _ (FixedSize LEN)).
  - rewrite Hel. change LEN with 10. lia.
  - by intros ->.
  - cbn. unfold size. cbn [disk]. by rewrite Hel, Z.div_mul.
Qed.

Lemma size_file_count l : size_in_elmts (size_file_of l) = Z.of_nat (length l).
Proof.
  cbn. unfold size. cbn [disk]. by rewrite enc_entries_len, entries_length, Z.div_mul.
Qed.

Lemma sum_sizes_spec l : Forall ok l -> encs_len l < 2 ^ 58 -> sum_sizes (size_file_of l) = Ok (encs_len l).
Proof.
  intros Hl Hlen. pose proof (size_file_raw l Hl Hlen) as Hr.
  pose proof (entries_located _ (size_file_of l) eq_refl Hr) as Hloc.
  assert (Hgo : forall k p, (p + k = length l)%nat ->
    sum_sizes_loop (size_file_of l) (Z.of_nat p) k = Ok (encs_len (drop p l))).
  { induction k as [|k IH]; intros p Hp; [by rewrite drop_ge by lia|]. cbn [sum_sizes_loop].
    destruct (lookup_lt_is_Some_2 l p) as [x Hx]; [lia|].
    assert (He : content (entries_of (synced_file l)) !! p =
      Some (mkEntry (offset_of enc l p) (Z.of_nat (length (enc x))))).
    { rewrite entries_of_content. rewrite synced_content by done. cbn [synced synced_file].
      rewrite (entries_lookup 0 _ _ _ Hx). by rewrite Z.add_0_l. }
    rewrite (read_as_elmt_spec v entry_ok enc_entry _ _ _ _ Hr Hloc He). cbn [rbind].
    replace (Z.of_nat p + 1) with (Z.of_nat (S p)) by lia. rewrite IH by lia. cbn [rbind esize].
    rewrite (drop_S _ _ _ Hx), encs_len_cons. f_equal.
    assert (encs_len (x :: drop (S p) l) <= encs_len l).
    { rewrite <- (drop_S _ _ _ Hx). rewrite <- (take_drop p l) at 2. rewrite encs_len_app. unfold encs_len. lia. }
    rewrite encs_len_cons in *. assert (0 <= encs_len (drop (S p) l)) by (unfold encs_len; lia).
    rewrite add64_small by (unfold_words; lia). lia. }
  unfold sum_sizes. cbn [size_file_of buffer_start_pos]. rewrite Nat2Z.id.
  by apply (Hgo (length l) 0%nat).
Qed.

(** Opening the file of a data file that was synced, whose size file is there or,
    after the data file was received from a peer, empty. *)
Lemma open_rep l (info : SizeInfo AppendOnlyFile) :
  Forall ok l -> encs_len l < 2 ^ 58 ->
  match info with
  | FixedSize n => 0 < n /\ Forall (fun x => Z.of_nat (length (enc x)) = n) l
  | VariableSize sf => sf = size_file_of l \/ (sf = size_file_of [] /\ counts)
  end ->
  exists f, open (T := T) (encs enc l) info v = Ok f /\ rep (synced_file l) f /\ clean f /\
    elmt_size f = match info with FixedSize n => Some n | VariableSize _ => None end.
Proof.
  intros Hl Hlen Hi. pose proof (small_synced l Hlen) as Hsm.
  assert (Hlen' : Z.of_nat (length (encs enc l)) < 2 ^ 62) by (unfold encs_len in Hlen; lia).
  assert (Hvar : rep (synced_file l) (mkAof (encs enc l) (VariableSize (size_file_of l)) v
    (disk_map (encs enc l)) [] (Z.of_nat (length l)) 0)).
  { split; [by apply raw_synced|]. split; [done|]. split; [done|]. by apply size_file_raw. }
  pose proof (encs_count v ok enc l Hl) as Hcount.
  destruct info as [n|sf].
  - destruct Hi as [Hn Hf]. rewrite (open_fixed ok enc l n Hn Hf). eexists. split; [done|].
    split; [|done]. split; [by apply raw_synced|]. split; [done|]. by apply synced_fixed.
  - assert (Hinit : forall l', (l' = l \/ l' = []) ->
      init (mkAof (encs enc l) (VariableSize (size_file_of l')) v None [] 0 0) =
      mkAof (encs enc l) (VariableSize (size_file_of l')) v (disk_map (encs enc l)) [] (Z.of_nat (length l')) 0).
    { intros l' Hl'. rewrite (init_synced _ _ (Z.of_nat (length l'))); [by rewrite init_size_file| |done|].
      - intros. destruct Hl' as [->| ->]; simpl; lia.
      - rewrite init_size_file. apply size_file_count. }
    unfold open. destruct Hi as [->|[-> Hc]].
    + rewrite Hinit by (by left). cbn [size_info]. rewrite sum_sizes_spec by done. cbn [rbind].
      unfold size. cbn [disk]. unfold encs_len. rewrite Z.eqb_refl. by eexists.
    + rewrite Hinit by (by right). cbn [size_info]. rewrite (sum_sizes_spec []) by done. cbn [rbind].
      unfold size at 1. cbn [disk]. destruct (Z.eqb_spec (encs_len []) (Z.of_nat (length (encs enc l)))) as [E|E]; cbn [negb].
      * destruct l; [by eexists|]. simpl in *. unfold encs_len in E. simpl in E. lia.
      * unfold rebuild_size_file. cbn [size_info version disk].
        rewrite (sizes_loop_spec _ l) by (done || lia). cbn [rbind]. unfold set_size_info, replace, size_file_of.
        cbn [size_info disk version mmap buffer buffer_start_pos buffer_start_pos_bak].
        assert (Hsf : init (mkAof (encs enc_entry (entries 0 l)) (FixedSize LEN) v None []
          (Z.of_nat (length (@nil T))) 0) = size_file_of l).
        { unfold size_file_of. apply (init_synced _ (FixedSize LEN));
            pose proof (enc_entries_len (entries 0 l)) as Hel; rewrite entries_length in Hel.
          - rewrite Hel. change LEN with 10. lia.
          - done.
          - cbn. unfold size. cbn [disk]. by rewrite Hel, Z.div_mul. }
        rewrite (init_synced _ _ (Z.of_nat (length l))).
        -- rewrite Hsf. by eexists.
        -- intros. lia.
        -- by intros ->.
        -- rewrite Hsf. apply size_file_count.
Qed.

End files.

(** ** Data files *)

Definition hash_ok (h : Hash) : Prop := Z.of_nat (length (hash_bytes h)) = HASH_SIZE.

#[export] Instance hash_codec v : Codec Hash v hash_ok hash_bytes.
Proof.
  split.
  - done.
  - intros h R RD RL r tl Hh Hv Hm Hin. destruct (hash_roundtrips v h Hh) as (bs & Hw & Hrt).
    injection Hw as <-. by apply Hrt.
  - intros R RD RL r Hin. unfold read, hash_readable.
    rewrite law_fixed_eof; [by eexists|by apply law_limit|]. rewrite Hin. done.
  - intros h Hh. unfold hash_ok in Hh. rewrite Hh. change HASH_SIZE with 32 in *. lia.
Qed.

Section data_files.
Context {T : Type} {RT : Readable T} {WT : Writeable T}.
Context (v : ProtocolVersion) (ok : T -> Prop) (enc : T -> bytes) {C : Codec T v ok enc}.
Implicit Types (j : journal T) (f : AppendOnlyFile).

Lemma file_small j f : rep v ok enc j f -> Z.of_nat (length (content j)) < 2 ^ 62.
Proof. intros (Hraw & _). by apply (content_small v ok enc j f). Qed.

Lemma file_size_unsync j f : rep v ok enc j f -> DataFile.size_unsync f = Z.of_nat (length (content j)).
Proof. intros H. apply (rep_located v ok enc j f H). Qed.

Lemma file_size j f : rep v ok enc j f -> DataFile.size f = Z.of_nat (length (synced j)).
Proof. intros H. apply (rep_located v ok enc j f H). Qed.

Lemma file_read j f pos :
  rep v ok enc j f -> 0 < pos < 2 ^ 64 -> DataFile.read f pos = content j !! Z.to_nat (pos - 1).
Proof.
  intros H Hpos. unfold DataFile.read. rewrite sub64_small by (unfold_words; lia).
  rewrite <- (Z2Nat.id (pos - 1)) at 1 by lia. pose proof (rep_located v ok enc j f H) as Hloc.
  destruct (content j !! Z.to_nat (pos - 1)) as [x|] eqn:E.
  - by rewrite (read_as_elmt_spec v ok enc j f _ x (proj1 H) Hloc E).
  - destruct (read_as_elmt_none v ok enc j f _ (proj1 H) Hloc E) as (e & ->). done.
Qed.

Lemma file_extend j f l :
  rep v ok enc j f -> Forall ok l -> Forall (fits enc (elmt_size f)) l -> small enc (j_append j l) ->
  exists f', DataFile.extend_from_slice f l = Ok (Z.of_nat (length (content (j_append j l))), f') /\
    rep v ok enc (j_append j l) f' /\ elmt_size f' = elmt_size f.
Proof.
  intros H Hl Hf Hs. destruct (append_elmts_rep v ok enc j f l H Hl Hf Hs) as (f' & E & H' & Hk).
  exists f'. unfold DataFile.extend_from_slice. rewrite E. cbn [rbind].
  by rewrite (file_size_unsync _ f' H').
Qed.

Lemma file_append j f x :
  rep v ok enc j f -> ok x -> fits enc (elmt_size f) x -> small enc (j_append j [x]) ->
  exists f', DataFile.append f x = Ok (Z.of_nat (length (content (j_append j [x]))), f') /\
    rep v ok enc (j_append j [x]) f' /\ elmt_size f' = elmt_size f.
Proof.
  intros H Hx Hf Hs. destruct (append_elmt_rep v ok enc j f x H Hx Hf Hs) as (f' & E & H' & Hk).
  exists f'. unfold DataFile.append. rewrite E. cbn [rbind]. by rewrite (file_size_unsync _ f' H').
Qed.

Lemma file_rewind j f n :
  rep v ok enc j f -> pending j = [] -> (n <= start j)%nat ->
  rep v ok enc (j_rewind j n) (DataFile.rewind f (Z.of_nat n)) /\
  elmt_size (DataFile.rewind f (Z.of_nat n)) = elmt_size f.
Proof. apply rewind_keeps_rep. Qed.

Lemma file_flush j f :
  rep v ok enc j f -> exists f', DataFile.flush f = Ok f' /\ rep v ok enc (j_flush j) f' /\ elmt_size f' = elmt_size f /\ clean f'.
Proof.
  intros H. destruct (flush_rep v ok enc j f H) as (f' & E & H'). exists f'.
  split; [done|]. split; [apply H'|]. split; [apply H'|]. by apply (flush_clean f).
Qed.

Lemma file_discard j f :
  rep v ok enc j f -> rep v ok enc (j_discard j) (DataFile.discard f) /\ elmt_size (DataFile.discard f) = elmt_size f.
Proof. apply discard_rep. Qed.

Lemma kept_shift i del (l : list T) :
  Forall (fun x => 1 <= x < 2 ^ 64) del -> kept i (map (fun x => sub64 x 1) del) l = kept (i + 1) del l.
Proof.
  intros Hdel. revert i. induction l as [|x l IH]; intros i; [done|]. cbn [kept]. rewrite !IH.
  rewrite (bool_decide_ext (i ∈ map (fun x => sub64 x 1) del) (i + 1 ∈ del)); [done|].
  rewrite list_elem_of_fmap. rewrite Forall_forall in Hdel. split.
  - intros (y & -> & Hy). specialize (Hdel y Hy). rewrite sub64_small by (unfold_words; lia).
    by replace (y - 1 + 1) with y by lia.
  - intros Hy. exists (i + 1). specialize (Hdel _ Hy). rewrite sub64_small by (unfold_words; lia).
    split; [lia|done].
Qed.

Lemma sub64_sorted del :
  Forall (fun x => 1 <= x < 2 ^ 64) del -> StronglySorted Z.lt del ->
  StronglySorted Z.lt (map (fun x => sub64 x 1) del) /\ Forall (Z.le 0) (map (fun x => sub64 x 1) del).
Proof.
  induction 1 as [|x del Hx Hdel IH]; intros Hs; [split; constructor|].
  apply StronglySorted_inv in Hs as [Hs Hlt]. destruct (IH Hs) as [Hs' Hge]. cbn [map].
  rewrite sub64_small by (unfold_words; lia). split; constructor; [done| |lia|done].
  apply Forall_forall. intros y (z & -> & Hz)%list_elem_of_fmap. rewrite Forall_forall in Hlt, Hdel.
  specialize (Hlt z Hz). specialize (Hdel z Hz). rewrite sub64_small by (unfold_words; lia). lia.
Qed.

Lemma file_prune j f del :
  rep v ok enc j f -> clean f -> pending j = [] -> rebuildable v ok enc f ->
  StronglySorted Z.lt del -> Forall (fun x => 1 <= x < 2 ^ 64) del ->
  exists tmp f', DataFile.write_tmp_pruned (T := T) f del = Ok tmp /\
    DataFile.replace_with_tmp (T := T) f tmp = Ok f' /\
    rep v ok enc (synced_file (kept 1 del (synced j))) f' /\ elmt_size f' = elmt_size f /\ clean f'.
Proof.
  intros H Hc Hp Hr Hs Hdel. destruct (sub64_sorted del Hdel Hs) as [Hs' Hge].
  destruct (prune_keeps_rep v ok enc j f _ H Hc Hp Hr Hs' Hge) as (tmp & f' & E & E' & H').
  rewrite kept_shift in H' by done. by exists tmp, f'.
Qed.
End data_files.

(** * Properties *)

(** The size file with which a data file can be opened again: the one that was
    synced with it or, where it can be rebuilt, an empty one. *)
Definition reopened {T} {RT : Readable T} v (ok : T -> Prop) (enc : T -> bytes) (f : AppendOnlyFile) (l : list T)
    (info : SizeInfo AppendOnlyFile) : Prop :=
  match info with
  | FixedSize n => elmt_size f = Some n
  | VariableSize sf =>
      elmt_size f = None /\ (sf = size_file_of v enc l \/ (sf = size_file_of v enc [] /\ counts v ok enc))
  end.

Lemma reopen_settled {T} {RT : Readable T} {WT : Writeable T} v ok enc (C : Codec T v ok enc) (j : journal T) f info :
  rep v ok enc j f -> reopened v ok enc f (synced j) info ->
  exists f', DataFile.open (T := T) (disk f) info v = Ok f' /\ rep v ok enc (synced_file (synced j)) f'.
Proof.
  intros ((Hd & _ & _ & _ & _ & _ & _ & [Hok _] & _) & Hsm & Hi) Hr. unfold DataFile.open. rewrite Hd.
  destruct (open_rep v ok enc (synced j) info) as (f' & E & H & _); [done| | |by exists f'].
  - unfold small, encs_len in *. lia.
  - unfold reopened, elmt_size in Hr. destruct info as [n|sf]; [|exact (proj2 Hr)].
    destruct (size_info f) as [m|] eqn:Ef; [|done]. injection Hr as ->. destruct Hi as [Hn Hf].
    split; [done|]. by apply Forall_app in Hf as [Hf _].
Qed.

(** C38. A data file, of fixed or variable size elements, is a journal. Reading
    position [pos], counted from one, finds the element of that position among
    the synced elements that are kept and the pending ones, and nothing past
    their end; appending one element or several adds pending elements and returns
    the new number of elements; rewinding, while nothing is pending, shortens what is
    kept; [flush] makes the content, and nothing else, what is on disk; [discard] goes back to what was
    synced last. Opening the file again at any time finds what was synced last,
    whether its size file was synced with it or has to be rebuilt. The size file
    of variable size elements stays in step throughout. *)
Theorem data_file_refines {T} {RT : Readable T} {WT : Writeable T} v ok enc (C : Codec T v ok enc)
    (j : journal T) f :
  rep v ok enc j f ->
  (forall pos, 0 < pos < 2 ^ 64 -> DataFile.read f pos = content j !! Z.to_nat (pos - 1)) /\
  DataFile.size_unsync f = Z.of_nat (length (content j)) /\
  DataFile.size f = Z.of_nat (length (synced j)) /\
  (forall x, ok x -> fits enc (elmt_size f) x -> small enc (j_append j [x]) ->
     exists f', DataFile.append f x = Ok (Z.of_nat (length (content j ++ [x])), f') /\
       rep v ok enc (mkJournal (synced j) (start j) (pending j ++ [x])) f') /\
  (forall l, Forall ok l -> Forall (fits enc (elmt_size f)) l -> small enc (j_append j l) ->
     exists f', DataFile.extend_from_slice f l = Ok (Z.of_nat (length (content j ++ l)), f') /\
       rep v ok enc (mkJournal (synced j) (start j) (pending j ++ l)) f') /\
  (forall n, pending j = [] -> (n <= start j)%nat ->
     rep v ok enc (mkJournal (synced j) n []) (DataFile.rewind f (Z.of_nat n))) /\
  (exists f', DataFile.flush f = Ok f' /\
     rep v ok enc (mkJournal (content j) (length (content j)) []) f') /\
  rep v ok enc (mkJournal (synced j) (length (synced j)) []) (DataFile.discard f) /\
  (forall info, reopened v ok enc f (synced j) info ->
     exists f', DataFile.open (T := T) (disk f) info v = Ok f' /\
       rep v ok enc (mkJournal (synced j) (length (synced j)) []) f').
Proof.
  intros H. split_and!.
  - intros. by apply (file_read v ok enc).
  - by apply (file_size_unsync v ok enc).
  - by apply (file_size v ok enc).
  - intros x Hx Hf Hs. destruct (file_append v ok enc j f x H Hx Hf Hs) as (f' & E & H' & _).
    rewrite content_app in E. by exists f'.
  - intros l Hl Hf Hs. destruct (file_extend v ok enc j f l H Hl Hf Hs) as (f' & E & H' & _).
    rewrite content_app in E. by exists f'.
  - intros n Hp Hn. destruct (file_rewind v ok enc j f n H Hp Hn) as [H' _]. unfold j_rewind in H'. by rewrite Hp in H'.
  - destruct (file_flush v ok enc j f H) as (f' & E & H' & _). by exists f'.
  - by apply (file_discard v ok enc).
  - intros info. by apply reopen_settled.
Qed.

(** Opening finds what was synced: a data file of fixed size elements is
    what is on disk, and one of variable size elements is too, whether its size
    file was synced with it or is missing and rebuilt. Pruning an opened file
    keeps exactly the elements whose position is not listed, in order, so that
    it can be read and appended to as a file that held them from the start. *)
Theorem data_file_prunes {T} {RT : Readable T} {WT : Writeable T} v ok enc (C : Codec T v ok enc)
    (l : list T) (info : SizeInfo AppendOnlyFile) del :
  Forall ok l -> encs_len enc l < 2 ^ 58 ->
  match info with
  | FixedSize n => 0 < n /\ Forall (fun x => Z.of_nat (length (enc x)) = n) l
  | VariableSize sf => (sf = size_file_of v enc l \/ sf = size_file_of v enc []) /\ counts v ok enc
  end ->
  StronglySorted Z.lt del -> Forall (fun x => 1 <= x < 2 ^ 64) del ->
  exists f tmp f', open (T := T) (encs enc l) info v = Ok f /\ rep v ok enc (synced_file l) f /\
    DataFile.write_tmp_pruned (T := T) f del = Ok tmp /\
    DataFile.replace_with_tmp (T := T) f tmp = Ok f' /\
    rep v ok enc (synced_file (kept 1 del l)) f'.
Proof.
  intros Hl Hlen Hi Hs Hdel. destruct (open_rep v ok enc l info Hl Hlen) as (f & E & H & Hc & Hk).
  { destruct info as [n|sf]; [done|]. destruct Hi as [[?|?] ?]; [by left|by right]. }
  destruct (file_prune v ok enc (synced_file l) f del H Hc eq_refl) as (tmp & f' & Ew & Er & H' & _); [|done..|].
  - unfold rebuildable, elmt_size in *. destruct info as [n|sf]; destruct (size_info f); try done. by destruct Hi.
  - by exists f, tmp, f'.
Qed.

(** ** Witnesses *)

Definition sample_hash (b : Z) : Hash := mkHash (replicate 32 b).

Lemma hash_file_open l :
  Forall hash_ok l -> encs_len hash_bytes l < 2 ^ 58 ->
  exists f, open (T := Hash) (encs hash_bytes l) (FixedSize HASH_SIZE) local = Ok f /\
    rep local hash_ok hash_bytes (synced_file l) f.
Proof.
  intros Hl Hlen. destruct (open_rep local hash_ok hash_bytes l (FixedSize HASH_SIZE) Hl Hlen) as (f & E & H & _).
  - split; [done|exact Hl].
  - by exists f.
Qed.

Lemma data_file_refines_witness :
  exists f f', open (T := Hash) (replicate 32 1 ++ replicate 32 2) (FixedSize 32) local = Ok f /\
    DataFile.read (T := Hash) f 2 = Some (sample_hash 2) /\
    DataFile.extend_from_slice f [sample_hash 3] = Ok (3, f').
Proof.
  destruct (hash_file_open [sample_hash 1; sample_hash 2]) as (f & E & H); [by repeat constructor|done|].
  destruct (data_file_refines local hash_ok hash_bytes _ _ f H) as (Hr & _ & _ & _ & He & _).
  destruct (He [sample_hash 3]) as (f' & E' & _); [by repeat constructor|..|done|].
  - revert E. vm_compute. intros [= <-]. by repeat constructor.
  - exists f, f'. split; [exact E|]. split; [by rewrite Hr|exact E'].
Defined.

Lemma size_entry_counts v : counts v entry_ok enc_entry.
Proof.
  intros [o s] r r' tl Hx Hv Hm Hin. unfold read, size_entry_readable, read_u64, read_u16.
  cbn [StreamingReader.reader]. unfold StreamingReader.read_u64, StreamingReader.read_u16, StreamingReader.read_uint,
    StreamingReader.read_fixed_bytes. rewrite Hin. unfold enc_entry. cbn [offset esize].
  rewrite <- app_assoc, read_exact_app by (by rewrite be_length). cbn [rbind StreamingReader.stream].
  rewrite read_exact_app by (by rewrite be_length). cbn [rbind]. intros [= _ _ <-].
  cbn [StreamingReader.total_bytes_read]. unfold add64, wrap, enc_entry. rewrite length_app, !be_length.
  by rewrite Zplus_mod_idemp_l, <- Z.add_assoc.
Qed.

Lemma data_file_prunes_witness :
  exists f tmp f',
    open (T := SizeEntry) (encs enc_entry [mkEntry 5 6; mkEntry 7 8; mkEntry 9 10])
      (VariableSize (size_file_of local enc_entry [])) local = Ok f /\
    DataFile.write_tmp_pruned (T := SizeEntry) f [2] = Ok tmp /\
    DataFile.replace_with_tmp (T := SizeEntry) f tmp = Ok f' /\
    rep local entry_ok enc_entry (synced_file [mkEntry 5 6; mkEntry 9 10]) f'.
Proof.
  destruct (data_file_prunes local entry_ok enc_entry _ [mkEntry 5 6; mkEntry 7 8; mkEntry 9 10]
    (VariableSize (size_file_of local enc_entry [])) [2]) as (f & tmp & f' & E & _ & Ew & Er & H).
  - repeat constructor; done.
  - vm_compute. done.
  - split; [by right|apply size_entry_counts].
  - repeat constructor.
  - repeat constructor; done.
  - by exists f, tmp, f'.
Defined.
