(* ===== verification/LeafSet.v ===== *)
(** The leaf set of an MMR.

    Models [src/store/src/leaf_set.rs]: the positions of the leaves that exist
    and are not spent, as a bitmap of one-based positions with the copy that was
    saved last.

    Main results: rewinding undoes the additions and removals since the cutoff;
    the leaves that compaction may remove are those that are spent and not
    pruned yet, up to the cutoff.

    The file is the bitmap that was saved there, [None] for no file; serialising
    bitmaps is the business of the bitmap library. *)

From Stdlib Require Import ZArith Lia.
From stdpp Require Import base numbers option sorting gmap list.
From S2P Require Import Prelude PmmrIndex Bitmap PruneList.
Open Scope Z_scope.

Record LeafSet (BM : Type) : Type := mkLeafSet {
  leaf_bitmap : BM;
  bitmap_bak : BM;
}.
Arguments mkLeafSet {BM} leaf_bitmap bitmap_bak.
Arguments leaf_bitmap {BM} l.
Arguments bitmap_bak {BM} l.

Section leaf_set.
Context {BM : Type} {HB : Bitmap BM}.
Implicit Types (ls : LeafSet BM) (rm : BM).

Definition open (file : option BM) : LeafSet BM :=
  let b := default bm_new file in mkLeafSet b b.

(** [flush]: the leaf set and what is on disk afterwards. *)
Definition flush ls : LeafSet BM * option BM :=
  (mkLeafSet (leaf_bitmap ls) (leaf_bitmap ls), Some (leaf_bitmap ls)).

(** [copy_snapshot]: the file afterwards. *)
Definition copy_snapshot (file cp_file : option BM) : option BM :=
  match cp_file with
  | None => file
  | Some b => snd (flush (mkLeafSet b b))
  end.

Definition unpruned_pre_cutoff (cutoff_pos : Z) (prune_list : PruneList BM) : BM :=
  bm_collect (map (wrap 32)
    (filter (fun x => is_leaf (sub64 x 1) && negb (is_pruned prune_list (sub64 x 1)) = true)
      (seqZ 1 cutoff_pos))).

(** The first steps of [removed_pre_cutoff], which are those of [rewind]. *)
Definition rewound (b : BM) (cutoff_pos : Z) rm : BM :=
  bm_or (bm_remove_range b (wrap 32 (add64 cutoff_pos 1)) (default 0 (bm_maximum b))) rm.

Definition removed_pre_cutoff ls (cutoff_pos : Z) rm (prune_list : PruneList BM) : BM :=
  bm_and (bm_flip (rewound (leaf_bitmap ls) cutoff_pos rm) 1 (wrap 32 (add64 cutoff_pos 1)))
    (unpruned_pre_cutoff cutoff_pos prune_list).

Definition rewind ls (cutoff_pos : Z) rm : LeafSet BM :=
  mkLeafSet (rewound (leaf_bitmap ls) cutoff_pos rm) (bitmap_bak ls).

Definition add ls (pos0 : Z) : LeafSet BM :=
  mkLeafSet (bm_add (leaf_bitmap ls) (pos1_u32 pos0)) (bitmap_bak ls).

Definition remove ls (pos0 : Z) : LeafSet BM :=
  mkLeafSet (bm_remove (leaf_bitmap ls) (pos1_u32 pos0)) (bitmap_bak ls).

(** [snapshot]: what the snapshot file holds. *)
Definition snapshot ls : option BM := Some (leaf_bitmap ls).

Definition discard ls : LeafSet BM := mkLeafSet (bitmap_bak ls) (bitmap_bak ls).

Definition includes ls (pos0 : Z) : bool := bm_contains (leaf_bitmap ls) (pos1_u32 pos0).
Definition len ls : Z := bm_cardinality (leaf_bitmap ls).
Definition n_unpruned_leaves_to_index ls (to_index : Z) : Z :=
  bm_range_cardinality (leaf_bitmap ls) 0 (wrap 32 to_index).
Definition is_empty ls : bool := len ls =? 0.
Definition iter ls : list Z := bm_iter (leaf_bitmap ls).
End leaf_set.

(** * Theory *)

Section theory.
Context {BM : Type} {HB : Bitmap BM} {HL : BitmapLaws BM}.
Implicit Types (ls : LeafSet BM) (rm : BM).

(** Positions fit in 31 bits, as in the prune list. *)
Definition small_set ls : Prop := forall x, bm_in x (leaf_bitmap ls) -> 1 <= x <= 2 ^ 31.

Lemma includes_spec ls p :
  0 <= p < 2 ^ 32 - 1 -> includes ls p = true <-> bm_in (p + 1) (leaf_bitmap ls).
Proof. intros Hp. unfold includes. by rewrite pos1_u32_small, bm_contains_iff. Qed.

Lemma wrap32_small x : 0 <= x < 2 ^ 32 -> wrap 32 x = x.
Proof. intros. apply wrap_small. unfold in_range. lia. Qed.

Lemma add64_1_small x : 0 <= x < 2 ^ 32 -> add64 x 1 = x + 1.
Proof. intros. apply add64_small. unfold_words. lia. Qed.

Lemma rewound_spec b cutoff rm x :
  (forall y, bm_in y b -> 1 <= y) -> 0 <= cutoff < 2 ^ 32 - 1 ->
  bm_in x (rewound b cutoff rm) <-> (bm_in x b /\ x <= cutoff) \/ bm_in x rm.
Proof.
  intros Hb Hc. unfold rewound. rewrite bm_in_or, bm_in_remove_range, add64_1_small, wrap32_small by lia.
  rewrite bm_maximum_last.
  assert (Hmax : bm_in x b -> x <= default 0 (last (bm_iter b))).
  { intros Hx. pose proof (bm_sorted b) as Hs. unfold bm_in in Hx.
    destruct (last (bm_iter b)) as [m|] eqn:E; [|apply last_None in E; rewrite E in Hx; by apply elem_of_nil in Hx].
    apply last_Some in E as [l' E]. rewrite E in Hx, Hs. simpl.
    apply elem_of_app in Hx as [Hx|Hx]; [|apply list_elem_of_singleton in Hx; lia].
    clear -Hs Hx. induction l' as [|y l' IH]; [by apply elem_of_nil in Hx|].
    simpl in Hs. apply StronglySorted_inv in Hs as [Hs Hy]. apply elem_of_cons in Hx as [->|Hx]; [|by apply IH].
    apply Forall_app in Hy as [_ Hy]. apply Forall_cons in Hy as [Hy _]. lia. }
  split; [intros [[Hx Hn]|Hx]; [|by right]|intros [[Hx Hle]|Hx]; [|by right]].
  - left. split; [done|]. specialize (Hmax Hx). lia.
  - left. split; [done|]. lia.
Qed.

Lemma unpruned_pre_cutoff_spec cutoff (pl : PruneList BM) x :
  0 <= cutoff < 2 ^ 32 - 1 ->
  bm_in x (unpruned_pre_cutoff cutoff pl) <->
  1 <= x <= cutoff /\ is_leaf (x - 1) = true /\ is_pruned pl (x - 1) = false.
Proof.
  intros Hc. unfold unpruned_pre_cutoff. rewrite bm_in_collect, list_elem_of_fmap. split.
  - intros (y & -> & [Hy Hin]%list_elem_of_filter). apply elem_of_seqZ in Hin.
    rewrite wrap32_small by lia. rewrite sub64_small in Hy by (unfold_words; lia).
    apply andb_true_iff in Hy as [? ?%negb_true_iff]. split; [lia|done].
  - intros (Hx & Hl & Hp). exists x. rewrite wrap32_small by lia. split; [done|].
    apply list_elem_of_filter. rewrite sub64_small by (unfold_words; lia). rewrite Hl, Hp.
    split; [done|]. apply elem_of_seqZ. lia.
Qed.

(** The leaves that may go: spent at the cutoff and not pruned. *)
Lemma removed_spec ls cutoff rm (pl : PruneList BM) x :
  (forall y, bm_in y (leaf_bitmap ls) -> 1 <= y) -> 0 <= cutoff < 2 ^ 32 - 1 ->
  bm_in x (removed_pre_cutoff ls cutoff rm pl) <->
  1 <= x <= cutoff /\ is_leaf (x - 1) = true /\ is_pruned pl (x - 1) = false /\
  ~ bm_in x (rewound (leaf_bitmap ls) cutoff rm).
Proof.
  intros Hb Hc. unfold removed_pre_cutoff.
  rewrite bm_in_and, bm_in_flip, unpruned_pre_cutoff_spec, add64_1_small, wrap32_small by lia.
  split; [|intros (? & ? & ? & ?); split; [left; split; [lia|done]|done]].
  intros [[[Hx Hn]|[Hx Hn]] (Hx' & Hl & Hp)]; [split_and!; (done || lia)|lia].
Qed.

Lemma in_add ls p x :
  0 <= p < 2 ^ 32 - 1 -> bm_in x (leaf_bitmap (add ls p)) <-> x = p + 1 \/ bm_in x (leaf_bitmap ls).
Proof. intros Hp. unfold add. cbn [leaf_bitmap]. by rewrite pos1_u32_small, bm_in_add. Qed.

Lemma in_remove ls p x :
  0 <= p < 2 ^ 32 - 1 -> bm_in x (leaf_bitmap (remove ls p)) <-> x <> p + 1 /\ bm_in x (leaf_bitmap ls).
Proof. intros Hp. unfold remove. cbn [leaf_bitmap]. rewrite pos1_u32_small by done. apply bm_in_remove. Qed.

(** ** Histories *)

Inductive leaf_op : Type := Add (pos0 : Z) | Remove (pos0 : Z).

Definition step ls (o : leaf_op) : LeafSet BM :=
  match o with Add p => add ls p | Remove p => remove ls p end.

(** Outputs are added after the cutoff; [rm] collects the ones before it that
    are spent. *)
Definition op_since (cutoff : Z) (rm : BM) (o : leaf_op) : Prop :=
  match o with
  | Add p => cutoff <= p < 2 ^ 31
  | Remove p => 0 <= p < 2 ^ 31 /\ (p < cutoff -> bm_in (p + 1) rm)
  end.

Fixpoint ops_since cutoff rm (ops : list leaf_op) : Prop :=
  match ops with
  | [] => True
  | o :: ops => op_since cutoff rm o /\ ops_since cutoff rm ops
  end.

(** Before the cutoff the set only shrinks, by what [rm] collects. *)
Lemma run_before cutoff rm ls ops x :
  ops_since cutoff rm ops -> 0 <= cutoff < 2 ^ 31 -> 1 <= x <= cutoff ->
  (bm_in x (leaf_bitmap (fold_left step ops ls)) -> bm_in x (leaf_bitmap ls)) /\
  (bm_in x (leaf_bitmap ls) -> bm_in x (leaf_bitmap (fold_left step ops ls)) \/ bm_in x rm).
Proof.
  intros Hops Hc Hx. revert ls. induction ops as [|o ops IH]; intros ls; [simpl; tauto|].
  destruct Hops as [Ho Hops]. destruct (IH Hops (step ls o)) as [IH1 IH2]. cbn [fold_left].
  destruct o as [p|p]; cbn [step op_since] in *.
  - rewrite in_add in IH1, IH2 by lia. split; [intros Hin; destruct (IH1 Hin); [lia|done]|].
    intros Hin. apply IH2. by right.
  - destruct Ho as [Hp Ho]. rewrite in_remove in IH1, IH2 by lia. split; [intros Hin; by destruct (IH1 Hin)|].
    intros Hin. destruct (decide (x = p + 1)) as [->|]; [|by apply IH2].
    right. apply Ho. lia.
Qed.

Lemma run_ge1 cutoff rm ls ops :
  ops_since cutoff rm ops -> 0 <= cutoff ->
  (forall y, bm_in y (leaf_bitmap ls) -> 1 <= y) ->
  forall y, bm_in y (leaf_bitmap (fold_left step ops ls)) -> 1 <= y.
Proof.
  intros Hops Hc. revert ls. induction ops as [|o ops IH]; intros ls Hls; [done|].
  destruct Hops as [Ho Hops]. cbn [fold_left]. apply (IH Hops). intros y.
  destruct o as [p|p]; cbn [step op_since] in *.
  - rewrite in_add by lia. intros [->|?]; [lia|auto].
  - rewrite in_remove by lia. intros [_ ?]. auto.
Qed.

(** Rewinding a leaf set undoes a history. When, after a point at which all
    positions were before the cutoff, outputs are added behind the cutoff and any
    outputs are spent, rewinding to the cutoff with the outputs spent in between
    restores exactly the leaf set of that point; and discarding restores the one
    that was saved. *)
Theorem leaf_set_rewind ls (cutoff_pos : Z) rm ops :
  0 <= cutoff_pos < 2 ^ 31 -> (forall x, bm_in x (leaf_bitmap ls) -> 1 <= x <= cutoff_pos) ->
  (forall x, bm_in x rm -> bm_in x (leaf_bitmap ls)) ->
  ops_since cutoff_pos rm ops ->
  iter (rewind (fold_left step ops ls) cutoff_pos rm) = iter ls /\
  iter (discard (fold_left step ops (fst (flush ls)))) = iter ls.
Proof.
  intros Hc Hls Hrm Hops. split.
  - unfold iter. apply bm_iter_eq; [apply bm_sorted|]. intros x. change (x ∈ bm_iter (leaf_bitmap ls)) with (bm_in x (leaf_bitmap ls)).
    unfold rewind. cbn [leaf_bitmap]. rewrite rewound_spec; [|by eapply run_ge1; [done|lia|intros y Hy; apply Hls in Hy; lia]|lia].
    assert (Hb := run_before cutoff_pos rm ls ops x Hops Hc). split.
    + intros [[Hx Hle]|Hx]; [|auto]. apply Hb; [|done]. split; [|done].
      eapply (run_ge1 cutoff_pos rm ls ops Hops); [lia| |exact Hx]. intros y Hy. apply Hls in Hy. lia.
    + intros Hx. pose proof (Hls x Hx). destruct (proj2 (Hb ltac:(lia)) Hx); [left; split; [done|lia]|by right].
  - assert (Hbak : forall l, bitmap_bak (fold_left step ops l) = bitmap_bak l).
    { clear. induction ops as [|o ops IH]; intros l; [done|]. cbn [fold_left]. rewrite IH. by destruct o. }
    unfold iter, discard. cbn [leaf_bitmap]. by rewrite Hbak.
Qed.

Lemma cardinality_ge0 ls : 0 <= len ls.
Proof. unfold len. rewrite bm_cardinality_length. lia. Qed.

End theory.

(** ** Witnesses *)

Definition sample_leaves : LeafSet (gset Z) := mkLeafSet {[ 1; 2; 4; 5 ]} ∅.

Lemma sample_leaves_in x : bm_in x (leaf_bitmap sample_leaves) <-> x = 1 \/ x = 2 \/ x = 4 \/ x = 5.
Proof. rewrite gset_in. unfold sample_leaves. cbn [leaf_bitmap]. rewrite !elem_of_union, !elem_of_singleton. tauto. Qed.

Lemma leaf_set_rewind_witness :
  iter (rewind (fold_left step [Add 7; Remove 1; Remove 7; Add 8] sample_leaves) 7 {[ 2 ]}) = [1; 2; 4; 5].
Proof.
  assert (E : iter sample_leaves = [1; 2; 4; 5]) by (vm_compute; reflexivity).
  rewrite <- E. apply leaf_set_rewind.
  - lia.
  - intros x Hx%sample_leaves_in. lia.
  - intros x Hx%gset_in. apply sample_leaves_in. set_solver.
  - split; [simpl; lia|]. split; [|split; [|split; [simpl; lia|done]]].
    + split; [lia|]. intros _. apply gset_in. set_solver.
    + split; [lia|]. intros. lia.
Defined.

(** The count of leaves "up to the given leaf index" counts positions: of
    the leaves 0 to 3, none of which is spent and whose positions are 1, 2, 4
    and 5, it finds two below index 4 where there are four. *)
Theorem n_unpruned_leaves_counts_positions :
  (forall {BM} {HB : Bitmap BM} {HL : BitmapLaws BM} (ls : LeafSet BM) i, 0 <= i < 2 ^ 32 ->
     n_unpruned_leaves_to_index ls i =
     Z.of_nat (length (filter (fun pos1 => 0 <= pos1 < i) (iter ls)))) /\
  n_unpruned_leaves_to_index sample_leaves 4 = 2 /\
  length (filter (fun n => includes sample_leaves (insertion_to_pmmr_index n) = true) (seqZ 0 4)) = 4%nat.
Proof.
  split_and!; [|vm_compute; reflexivity..].
  intros BM HB HL ls i Hi. unfold n_unpruned_leaves_to_index, iter.
  rewrite wrap32_small by lia. apply bm_range_cardinality_length.
Qed.
