(* ===== verification/PmmrCompact.v ===== *)
(** Which positions compaction removes.

    The theory of [pos_to_rm] of [PmmrStore]: climbing from every leaf that
    goes, the loops collect the nodes whose leaves are all gone and the pruned
    roots next to them; what is left without the new roots are the positions that
    the new prune list removes from the files and the old one did not. *)

From Stdlib Require Import ZArith Lia.
From stdpp Require Import base numbers option sorting gmap list.
From S2P Require Import Prelude PmmrIndex Pmmr Ser Bitmap PruneList LeafSet AppendOnly PmmrStore.
Open Scope Z_scope.

(** The sibling of node [q] of a level, and the halves of its parent. *)
Definition sib (q : Z) : Z := if Z.even q then q + 1 else q - 1.

Lemma sib_bounds q : 0 <= q -> 0 <= sib q /\ sib q <> q /\ sib q / 2 = q / 2.
Proof.
  intros Hq. unfold sib. pose proof (Z.div_mod q 2 ltac:(lia)) as Hd. rewrite Zmod_even in Hd.
  destruct (Z.even q).
  - split; [lia|]. split; [lia|]. replace (q + 1) with (q / 2 * 2 + 1) by lia.
    rewrite Z.div_add_l by lia. change (1 / 2) with 0. lia.
  - assert (0 <= q / 2) by (apply Z.div_pos; lia). split; [lia|]. split; [lia|].
    replace (q - 1) with (q / 2 * 2) by lia. by rewrite Z.div_mul.
Qed.

Lemma div2_halves q n h :
  0 <= h -> 0 <= q ->
  2 ^ (h + 1) * (q / 2) <= n < 2 ^ (h + 1) * (q / 2 + 1) <->
  (2 ^ h * q <= n < 2 ^ h * (q + 1)) \/ (2 ^ h * sib q <= n < 2 ^ h * (sib q + 1)).
Proof.
  intros Hh Hq. rewrite Z.pow_add_r by lia. change (2 ^ 1) with 2. pose proof (pow2_pos h Hh).
  unfold sib. pose proof (Z.div_mod q 2 ltac:(lia)) as Hd. rewrite Zmod_even in Hd.
  set (A := 2 ^ h) in *. destruct (Z.even q); nia.
Qed.

Lemma div_pow2_iff h q n : 0 <= h -> 2 ^ h * q <= n < 2 ^ h * (q + 1) <-> q = n / 2 ^ h.
Proof.
  intros Hh. pose proof (pow2_pos h Hh). split.
  - intros Hn. apply (Z.div_unique_pos n (2 ^ h) q (n - 2 ^ h * q)); lia.
  - intros ->. pose proof (Z.div_mod n (2 ^ h) ltac:(lia)). pose proof (Z.mod_pos_bound n (2 ^ h) ltac:(lia)). lia.
Qed.

Lemma div_pow2_succ h n : 0 <= h -> n / 2 ^ (h + 1) = n / 2 ^ h / 2.
Proof. intros Hh. rewrite Z.pow_add_r by lia. rewrite Z.div_div by (try lia; apply Z.pow_nonzero; lia). done. Qed.

Section expand.
Context {BM : Type} {HB : Bitmap BM} {HL : BitmapLaws BM}.
Variable pl : PruneList BM.
Hypothesis Hok : prune_ok pl.

Definition gone (n : Z) : Prop := pruned (roots pl) (npos 0 n).

(** All leaves of a node are pruned or in [S]. *)
Definition full (S : Z -> Prop) (h q : Z) : Prop :=
  forall n, 2 ^ h * q <= n < 2 ^ h * (q + 1) -> gone n \/ S n.

Definition none (n : Z) : Prop := False.

Lemma full_mono (S S' : Z -> Prop) h q : (forall n, S n -> S' n) -> full S h q -> full S' h q.
Proof. intros Hs Hf n Hn. destruct (Hf n Hn); auto. Qed.

Lemma full_parent S h q : 0 <= h -> 0 <= q -> full S (h + 1) (q / 2) <-> full S h q /\ full S h (sib q).
Proof.
  intros Hh Hq. unfold full. setoid_rewrite (div2_halves q _ h Hh Hq).
  split; [intros Hf; split; intros n Hn; apply Hf; tauto|]. intros [H1 H2] n [Hn|Hn]; auto.
Qed.

Lemma full_none h q : 0 <= h -> 0 <= q -> in_bounds (npos h q) ->
  full none h q <-> pruned (roots pl) (npos h q).
Proof.
  intros. rewrite pruned_iff_leaves by done. unfold full, none, gone.
  split; intros Hf n Hn; specialize (Hf n Hn); tauto.
Qed.

Lemma root_full h q : 0 <= h -> 0 <= q -> in_bounds (npos h q) -> in_bounds (npos (h + 1) (q / 2)) ->
  npos h q ∈ roots pl <-> full none h q /\ ~ full none (h + 1) (q / 2).
Proof.
  intros Hh Hq Hb Hb'. assert (0 <= q / 2) by (apply Z.div_pos; lia).
  rewrite (root_iff pl h q) by done. by rewrite !full_none by (done || lia).
Qed.

Lemma compacted_full h q : 0 <= h -> 0 <= q -> in_bounds (npos h q) -> in_bounds (npos (h + 1) (q / 2)) ->
  compacted (roots pl) (npos h q) <-> full none (h + 1) (q / 2).
Proof.
  intros Hh Hq Hb Hb'. unfold compacted. rewrite root_full, <- full_none by done.
  pose proof (full_parent none h q Hh Hq) as Hp. split.
  - intros [Hf Hn]. destruct (decide (pruned (roots pl) (npos (h + 1) (q / 2)))) as [Hd|Hd];
      rewrite <- full_none in Hd by (try done; try (apply Z.div_pos; lia); lia); tauto.
  - intros Hf. split; [by apply Hp|tauto].
Qed.

(** What the loops collect when the leaves in [S] go. *)
Definition collected (S : Z -> Prop) (h q : Z) : Prop :=
  (full S h q /\ ~ full none h q) \/
  (full none h q /\ ~ full none (h + 1) (q / 2) /\ full S (h + 1) (q / 2)).

(** Leaves that go are before [2^31 - 64]. *)
Definition bounded (S : Z -> Prop) : Prop := forall n, gone n \/ S n -> npos 0 n < 2 ^ 31 - 64.

Lemma full_bounds S h q : bounded S -> 0 <= h -> 0 <= q -> full S h q -> h <= 31 /\ npos h q < 2 ^ 31 - 32.
Proof.
  intros Hb Hh Hq Hf. pose proof (pow2_pos h Hh).
  specialize (Hb (last_leaf h q) ltac:(apply Hf; unfold last_leaf; nia)).
  assert (E : npos h q = npos 0 (last_leaf h q) + h)
    by (rewrite npos0, <- node_pos_npos by done; unfold node_pos; lia).
  pose proof (npos_bounds h q Hh Hq) as (_ & Hb2 & _).
  assert (h <= 31); [|lia]. destruct (Z.le_gt_cases h 31) as [|Hgt]; [done|].
  replace (h + 1) with (33 + (h - 32)) in Hb2 by lia. rewrite Z.pow_add_r in Hb2 by lia.
  pose proof (Z.pow_gt_lin_r 2 (h - 32) ltac:(lia) ltac:(lia)). lia.
Qed.

Lemma parent_in_bounds h q : 0 <= h -> 0 <= q -> npos h q < 2 ^ 32 -> in_bounds (npos (h + 1) (q / 2)).
Proof.
  intros Hh Hq Hp. assert (0 <= q / 2) by (apply Z.div_pos; lia).
  split; [by apply npos_pos; lia|]. pose proof (npos_bounds h q Hh Hq) as (_ & Hb2 & _).
  pose proof (npos_right h (q / 2) Hh ltac:(lia)). pose proof (npos_left h (q / 2) Hh ltac:(lia)).
  pose proof (Z.div_mod q 2 ltac:(lia)) as Hd. rewrite Zmod_even in Hd.
  destruct (Z.even q).
  - replace (2 * (q / 2)) with q in * by lia. lia.
  - replace (2 * (q / 2) + 1) with q in * by lia. lia.
Qed.

(** The nodes that were collected on the way up from leaf [n0] to height [h]:
    the path, and the roots beside it. *)
Definition on_way (S : Z -> Prop) (n0 h h' q' : Z) : Prop :=
  collected S h' q' \/
  (h' <= h /\ q' = n0 / 2 ^ h') \/
  (h' < h /\ q' = sib (n0 / 2 ^ h') /\ npos h' q' ∈ roots pl).

Definition holds (Q : Z -> Z -> Prop) (b : BM) : Prop :=
  (forall h q, 0 <= h -> 0 <= q -> bm_in (npos h q + 1) b <-> Q h q) /\
  (forall x, bm_in x b -> 1 <= x).

Section climb.
Context (S : Z -> Prop) (n0 : Z).
Let S' (n : Z) : Prop := S n \/ n = n0.
Hypothesis Hn0 : 0 <= n0.
Hypothesis Hnew : ~ gone n0 /\ ~ S n0.
Hypothesis Hbd : bounded S'.

Lemma full_path h q h' : 0 <= h' <= h -> q = n0 / 2 ^ h -> full S' h q -> full S' h' (n0 / 2 ^ h').
Proof.
  intros Hh -> Hf n Hn. apply Hf. pose proof (pow2_pos h' ltac:(lia)).
  assert (E : 2 ^ h = 2 ^ h' * 2 ^ (h - h')) by (rewrite <- Z.pow_add_r by lia; f_equal; lia).
  assert (Hd : n0 / 2 ^ h = n0 / 2 ^ h' / 2 ^ (h - h')) by (rewrite E, Z.div_div by (try lia; apply pow2_pos; lia); done).
  rewrite Hd, E. pose proof (pow2_pos (h - h') ltac:(lia)).
  pose proof (Z.div_mod (n0 / 2 ^ h') (2 ^ (h - h')) ltac:(lia)).
  pose proof (Z.mod_pos_bound (n0 / 2 ^ h') (2 ^ (h - h')) ltac:(lia)).
  set (d := n0 / 2 ^ h' / 2 ^ (h - h')) in *. set (B := 2 ^ (h - h')) in *. nia.
Qed.

(** A node that the new leaf is not below is as full as before. *)
Lemma full_other h q : 0 <= h -> q <> n0 / 2 ^ h -> full S' h q <-> full S h q.
Proof.
  intros Hh Hq. split; [|apply full_mono; by left]. intros Hf n Hn.
  destruct (Hf n Hn) as [?|[?| ->]]; [by left|by right|]. by apply div_pow2_iff in Hn.
Qed.

Lemma path_not_gone h : 0 <= h -> ~ full none h (n0 / 2 ^ h).
Proof.
  intros Hh Hf. destruct (Hf n0) as [Hg|[]]; [by apply div_pow2_iff|]. by destruct Hnew.
Qed.

Lemma path_not_S h : 0 <= h -> ~ full S h (n0 / 2 ^ h).
Proof.
  intros Hh Hf. destruct Hnew as [Hg Hs]. destruct (Hf n0) as [?|?]; [by apply div_pow2_iff|done..].
Qed.

Lemma path_nonneg h : 0 <= h -> 0 <= n0 / 2 ^ h.
Proof. intros. apply Z.div_pos; [done|by apply pow2_pos]. Qed.

(** When the way ends because the parent is not full, everything is collected. *)
Lemma climb_end h :
  0 <= h -> full S' h (n0 / 2 ^ h) -> ~ full S' (h + 1) (n0 / 2 ^ (h + 1)) ->
  forall h' q', 0 <= h' -> 0 <= q' -> on_way S n0 h h' q' <-> collected S' h' q'.
Proof.
  intros Hh Hf Hnf h' q' Hh' Hq'. assert (Hm : forall n, S n -> S' n) by (intros; by left).
  assert (Hup : forall k, 0 <= k -> full S' k (n0 / 2 ^ k) -> k <= h).
  { intros k Hk Hfk. destruct (Z.le_gt_cases k h) as [|Hgt]; [done|]. exfalso. apply Hnf.
    apply (full_path k (n0 / 2 ^ k)); [lia|done|done]. }
  pose proof (div_pow2_succ h' n0 Hh') as Hsucc. split.
  - intros [[[H1 H2]|(H1 & H2 & H3)]|[[Hle ->]|(Hlt & -> & Hr)]].
    + left. split; [by eapply full_mono|done].
    + right. split_and!; [done|done|by eapply full_mono].
    + left. split; [by apply (full_path h (n0 / 2 ^ h)); [lia| |]|by apply path_not_gone].
    + pose proof (sib_bounds (n0 / 2 ^ h') (path_nonneg h' Hh')) as (Hs0 & _ & Hs2).
      assert (Hfp : full S' (h' + 1) (n0 / 2 ^ (h' + 1))) by (apply (full_path h (n0 / 2 ^ h)); [lia|done|done]).
      destruct (roots_bounds _ _ (proj1 (ok_roots pl Hok)) Hr) as [Hro Hrb]. unfold root_ok in Hro.
      apply root_full in Hr; [|done|done|done|by apply parent_in_bounds; [| |lia]].
      right. destruct Hr as [H1 H2]. split_and!; [done|done|]. by rewrite Hs2, <- Hsucc.
  - intros [[H1 H2]|(H1 & H2 & H3)].
    + destruct (decide (q' = n0 / 2 ^ h')) as [->|Hne].
      * right. left. split; [by apply Hup|done].
      * left. left. split; [by apply full_other|done].
    + destruct (decide (q' / 2 = n0 / 2 ^ (h' + 1))) as [E|Hne].
      * right. right. rewrite E in H3. apply Hup in H3; [|lia]. split; [lia|].
        assert (Hq : q' <> n0 / 2 ^ h') by (intros ->; exact (path_not_gone h' Hh' H1)).
        split.
        -- rewrite Hsucc in E. unfold sib. pose proof (Z.div_mod q' 2 ltac:(lia)) as Hd.
           pose proof (Z.div_mod (n0 / 2 ^ h') 2 ltac:(lia)) as Hd'. rewrite Zmod_even in Hd, Hd'.
           destruct (Z.even q'), (Z.even (n0 / 2 ^ h')); lia.
        -- assert (Hfq : full S' h' q') by (eapply full_mono; [|exact H1]; intros ? []).
           destruct (full_bounds S' h' q' Hbd Hh' Hq' Hfq). pose proof (npos_pos h' q' Hh' Hq').
           apply root_full; [done|done|unfold in_bounds; lia|by apply parent_in_bounds; [| |lia]|done].
      * left. right. split_and!; [done|done|]. apply full_other; [lia|done|done].
Qed.

Lemma on_way_step h h' q' :
  0 <= h -> 0 <= h' -> 0 <= q' ->
  on_way S n0 (h + 1) h' q' <->
  on_way S n0 h h' q' \/ (h' = h + 1 /\ q' = n0 / 2 ^ (h + 1)) \/
  (h' = h /\ q' = sib (n0 / 2 ^ h) /\ npos h' q' ∈ roots pl).
Proof.
  intros Hh Hh' Hq'. unfold on_way. split.
  - intros [?|[[? ?]|(? & ? & ?)]]; [tauto| |].
    + destruct (decide (h' = h + 1)) as [->|]; [tauto|]. left. right. left. split; [lia|done].
    + destruct (decide (h' = h)) as [->|]; [tauto|]. left. right. right. split; [lia|done].
  - intros [[?|[[? ?]|(? & ? & ?)]]|[[-> ->]|(-> & -> & ?)]]; [tauto|right; left; split; [lia|done]| | |].
    + right. right. split; [lia|done].
    + right. left. split; [lia|done].
    + right. right. split; [lia|done].
Qed.
End climb.

Variable pb : PMMRBackend BM.
Hypothesis Hpb : prune_list pb = pl.

Lemma holds_add (Q Q' : Z -> Z -> Prop) b h q :
  0 <= h -> 0 <= q -> npos h q < 2 ^ 32 ->
  holds Q b -> (forall h' q', 0 <= h' -> 0 <= q' -> Q' h' q' <-> Q h' q' \/ (h' = h /\ q' = q)) ->
  holds Q' (bm_add b (npos h q + 1)).
Proof.
  intros Hh Hq Hp [Hb H1] HQ. pose proof (npos_pos h q Hh Hq). split.
  - intros h' q' Hh' Hq'. rewrite bm_in_add, HQ, Hb by done.
    split; [intros [E|?]; [right|by left]|intros [?|[-> ->]]; [by right|by left]].
    destruct (npos_inj h' q' h q) as [? ?]; [done..|lia|lia|done].
  - intros x [->|Hx]%bm_in_add; [lia|by apply H1].
Qed.

Lemma holds_iff (Q Q' : Z -> Z -> Prop) b :
  (forall h q, 0 <= h -> 0 <= q -> Q h q <-> Q' h q) -> holds Q b -> holds Q' b.
Proof. intros HQ [Hb H1]. split; [|done]. intros h q Hh Hq. by rewrite <- HQ, Hb. Qed.

Lemma npos_pred h q : 0 <= h -> 0 <= q -> npos h q < 2 ^ 62 -> sub64 (npos h q + 1) 1 = npos h q.
Proof. intros. pose proof (npos_pos h q). rewrite sub64_small by (unfold_words; lia). lia. Qed.

(** The inner loop collects the subtrees that a leaf completes. *)
Lemma climb_loop_spec fuel S n0 h b :
  let S' n := S n \/ n = n0 in
  0 <= n0 -> ~ gone n0 /\ ~ S n0 -> bounded S' -> 0 <= h -> 64 - h <= Z.of_nat fuel ->
  full S' h (n0 / 2 ^ h) -> holds (on_way S n0 h) b ->
  holds (collected S') (climb_loop fuel pb b (npos h (n0 / 2 ^ h) + 1)).
Proof.
  intros S' Hn0 Hnew Hbd. revert h b. induction fuel as [|fuel IH]; intros h b Hh Hf Hfull Hb;
    pose proof (path_nonneg n0 Hn0 h Hh) as Hq;
    destruct (full_bounds S' h _ Hbd Hh Hq Hfull) as [Hh31 Hp]; [lia|].
  pose proof (npos_pos h _ Hh Hq) as Hp0. cbn [climb_loop]. rewrite npos_pred by lia.
  pose proof (sib_bounds _ Hq) as (Hs0 & Hsq & Hs2).
  assert (Hroot : root_ok (npos h (n0 / 2 ^ h))) by (unfold root_ok; lia).
  destruct (sibling_bounds h _ Hh Hq Hroot) as (Hsb & _). rewrite sibling_npos in Hsb by auto with grin.
  rewrite family_npos by auto with grin.
  replace (if Z.even (n0 / 2 ^ h) then npos h (n0 / 2 ^ h + 1) else npos h (n0 / 2 ^ h - 1))
    with (npos h (sib (n0 / 2 ^ h))) in * by (unfold sib; by destruct (Z.even _)).
  set (s := sib (n0 / 2 ^ h)) in *. unfold is_pruned_root. rewrite Hpb, !pos1_u32_small by lia.
  pose proof (is_pruned_root_spec pl (npos h s) ltac:(lia)) as Hroot_s.
  assert (Hib : in_bounds (npos h s)) by (unfold in_bounds; lia).
  assert (Hsr : npos h s ∈ roots pl <-> full none h s /\ ~ full none (h + 1) (s / 2)).
  { apply root_full; [done|done|done|by apply parent_in_bounds; [| |lia]]. }
  pose proof (div_pow2_succ h n0 Hh) as Hsucc. rewrite Hs2, <- Hsucc in Hsr. rewrite <- Hsucc.
  assert (Hng : ~ full none (h + 1) (n0 / 2 ^ (h + 1))) by (apply (path_not_gone S n0 Hnew); lia).
  (* whether the sibling is there *)
  assert (Hin : bm_in (npos h s + 1) b <-> collected S h s).
  { rewrite (proj1 Hb) by done. unfold on_way. split; [|tauto].
    intros [?|[[_ ?]|[? _]]]; [done|by destruct Hsq|lia]. }
  assert (Hgo : npos h s ∈ roots pl \/ collected S h s <-> full S' (h + 1) (n0 / 2 ^ (h + 1))).
  { rewrite Hsucc. rewrite full_parent by done. fold s. unfold collected. rewrite Hs2, <- Hsucc, Hsr.
    assert (Hns : full S' h s <-> full S h s) by (apply (full_other S n0); done).
    assert (Hm : full none h s -> full S h s) by (apply full_mono; intros ? []).
    assert (Hps : full S (h + 1) (n0 / 2 ^ (h + 1)) -> full S h s).
    { rewrite Hsucc, full_parent by done. tauto. }
    split; [intros [[? _]|[[? _]|(_ & _ & ?)]]; split; try done; apply Hns; auto|].
    intros [_ Hs]. apply Hns in Hs.
    destruct (decide (pruned (roots pl) (npos h s))) as [Hd|Hd]; rewrite <- full_none in Hd by done; tauto. }
  set (b1 := if PruneList.is_pruned_root pl (npos h s) then bm_add b (npos h s + 1) else b).
  assert (Hb1 : holds (fun h' q' => on_way S n0 h h' q' \/ (h' = h /\ q' = s /\ npos h' q' ∈ roots pl)) b1).
  { subst b1. destruct (PruneList.is_pruned_root pl (npos h s)).
    - apply (holds_add (on_way S n0 h)); [done|done|lia|done|]. intros h' q' _ _.
      split; [intros [?|(? & ? & _)]; tauto|intros [?|[-> ->]]; [tauto|right; tauto]].
    - eapply holds_iff; [|exact Hb]. intros h' q' _ _. split; [tauto|]. intros [?|(-> & -> & Hr)]; [done|].
      apply Hroot_s in Hr. done. }
  assert (Hcond : PruneList.is_pruned_root pl (npos h s) || bm_contains b1 (npos h s + 1) = true <->
    full S' (h + 1) (n0 / 2 ^ (h + 1))).
  { rewrite orb_true_iff, bm_contains_iff, (proj1 Hb1), Hroot_s, <- Hgo by done. unfold on_way.
    split; [|tauto]. intros [?|[[?|[[_ ?]|[? _]]]|?]]; [tauto|tauto|by destruct Hsq|lia|tauto]. }
  assert (Hgoal : forall c : bool, c = (PruneList.is_pruned_root pl (npos h s) || bm_contains b1 (npos h s + 1)) ->
    holds (collected S') (if c then climb_loop fuel pb (bm_add b1 (pos1_u32 (npos (h + 1) (n0 / 2 ^ (h + 1)))))
      (add64 1 (npos (h + 1) (n0 / 2 ^ (h + 1)))) else b1)); [|by apply Hgoal].
  intros c Ec. rewrite <- Ec in Hcond. destruct c.
  - pose proof (proj1 Hcond eq_refl) as Hfull'. pose proof (path_nonneg n0 Hn0 (h + 1) ltac:(lia)) as Hq'.
    destruct (full_bounds S' (h + 1) _ Hbd ltac:(lia) Hq' Hfull') as [_ Hp'].
    pose proof (npos_pos (h + 1) _ ltac:(lia) Hq'). rewrite pos1_u32_small by lia.
    rewrite add64_small, (Z.add_comm 1) by (unfold_words; lia).
    apply IH; [lia|lia|done|]. eapply holds_add; [lia|done|lia|exact Hb1|].
    intros h' q' Hh' Hq''. cbn beta. rewrite (on_way_step S n0) by (try done; lia). fold s. tauto.
  - assert (Hnf : ~ full S' (h + 1) (n0 / 2 ^ (h + 1))) by (intros Hx; by apply Hcond in Hx).
    assert (Hnr : npos h s ∉ roots pl) by (intros Hx; apply Hnf, Hgo; by left).
    eapply holds_iff; [|exact Hb1]. intros h' q' Hh' Hq'. cbn beta.
    etransitivity; [|apply (climb_end S n0 Hn0 Hnew Hbd h Hh Hfull Hnf h' q' Hh' Hq')].
    split; [intros [?|(-> & -> & ?)]; done|by left].
Qed.

Lemma full_ext (S S' : Z -> Prop) h q :
  0 <= h -> 0 <= q -> (forall n, 0 <= n -> S n <-> S' n) -> full S h q <-> full S' h q.
Proof.
  intros Hh Hq Hs. pose proof (pow2_pos h Hh). unfold full.
  split; intros Hf n Hn; specialize (Hf n Hn); rewrite Hs in * by nia; done.
Qed.

Lemma collected_ext (S S' : Z -> Prop) h q :
  0 <= h -> 0 <= q -> (forall n, 0 <= n -> S n <-> S' n) -> collected S h q <-> collected S' h q.
Proof.
  intros Hh Hq Hs. unfold collected.
  assert (0 <= q / 2) by (apply Z.div_pos; lia).
  by rewrite (full_ext S S' h q), (full_ext S S' (h + 1) (q / 2)) by (done || lia).
Qed.

(** The outer loop, over the leaves [xs] that go. *)
Lemma expand_loop_spec fuel xs S b :
  64 <= Z.of_nat fuel -> NoDup xs -> (forall x, x ∈ xs -> exists n, 0 <= n /\ x = npos 0 n + 1 /\ ~ gone n /\ ~ S n) ->
  bounded (fun n => S n \/ (0 <= n /\ npos 0 n + 1 ∈ xs)) -> holds (collected S) b ->
  holds (collected (fun n => S n \/ (0 <= n /\ npos 0 n + 1 ∈ xs))) (expand_loop fuel pb xs b).
Proof.
  intros Hfuel Hnd. revert S b. induction Hnd as [|x xs Hx Hnd IH]; intros S b Hxs Hbd Hb; cbn [expand_loop].
  { eapply holds_iff; [|exact Hb]. intros h q Hh Hq. apply collected_ext; [done..|].
    intros n _. rewrite elem_of_nil. tauto. }
  destruct (Hxs x ltac:(by left)) as (n0 & Hn0 & -> & Hg & HS).
  set (S' := fun n => S n \/ n = n0).
  assert (Hbd' : bounded S').
  { intros n [Hn|[Hn| ->]]; apply Hbd; [by left|by right; left|right; right; split; [done|by left]]. }
  assert (Hf0 : full S' 0 (n0 / 2 ^ 0)).
  { intros n Hn. right. right. rewrite Z.pow_0_r, Z.div_1_r in Hn. lia. }
  assert (Hstart : holds (on_way S n0 0) (bm_add b (npos 0 n0 + 1))).
  { assert (npos 0 n0 < 2 ^ 31 - 64) by (apply Hbd'; right; by right).
    apply (holds_add (collected S)); [lia|done|lia|done|]. intros h' q' Hh' Hq'. unfold on_way.
    split; [intros [?|[[? E]|[? _]]]; [by left| |lia]|intros [?|[-> ->]]; [by left|]].
    - assert (h' = 0) as -> by lia. rewrite Z.pow_0_r, Z.div_1_r in E. by right.
    - right. left. by rewrite Z.pow_0_r, Z.div_1_r. }
  pose proof (climb_loop_spec fuel S n0 0 _ Hn0 (conj Hg HS) Hbd' ltac:(lia) ltac:(lia) Hf0 Hstart) as Hclimb.
  rewrite Z.pow_0_r, Z.div_1_r in Hclimb.
  assert (Heq : forall n, (S' n \/ (0 <= n /\ npos 0 n + 1 ∈ xs)) <->
    (0 <= n -> S n \/ (0 <= n /\ npos 0 n + 1 ∈ npos 0 n0 + 1 :: xs)) /\ (n < 0 -> S n)).
  { intros n. subst S'. cbn beta. rewrite elem_of_cons. split.
    - intros [[?| ->]|[? ?]]; (split; intros; [|try lia]); tauto.
    - intros [H1 H2]. destruct (Z.le_gt_cases 0 n) as [Hn|Hn]; [|left; left; apply H2; lia].
      destruct (H1 Hn) as [?|[_ [E|?]]]; [by left; left| |by right].
      left. right. assert (npos 0 n0 < 2 ^ 31 - 64) by (apply Hbd'; right; by right).
      destruct (npos_inj 0 n 0 n0) as [_ ->]; [done..|lia|lia|done]. }
  destruct (IH S' (climb_loop fuel pb (bm_add b (npos 0 n0 + 1)) (npos 0 n0 + 1))) as [H1 H2].
  - intros x Hx'. destruct (Hxs x ltac:(by right)) as (n & Hn & -> & Hgn & HSn). exists n.
    split_and!; [done..|]. intros [?| ->]; [done|]. done.
  - intros n Hn. apply Hbd. destruct Hn as [Hn|Hn]; [by left|]. apply Heq in Hn as [Hn1 Hn2].
    destruct (Z.le_gt_cases 0 n); [right; by apply Hn1|right; left; apply Hn2; lia].
  - exact Hclimb.
  - split; [|exact H2]. intros h q Hh Hq. rewrite (H1 h q Hh Hq). apply collected_ext; [done..|].
    intros n Hn. rewrite Heq. split; [intros [Hn1 _]; auto|]. intros ?. split; [done|lia].
Qed.

(** What is removed: the positions whose parent is newly full. *)
Lemma removed_excl_roots_spec S b x :
  bounded S -> holds (collected S) b ->
  bm_in x (removed_excl_roots b) <->
  exists h q, 0 <= h /\ 0 <= q /\ x = npos h q + 1 /\ full S (h + 1) (q / 2) /\ ~ full none (h + 1) (q / 2).
Proof.
  intros Hbd [Hb H1]. unfold removed_excl_roots. rewrite bm_in_collect, list_elem_of_filter.
  assert (Hcoll : forall h q, 0 <= h -> 0 <= q -> collected S h q -> npos h q < 2 ^ 31 - 32).
  { intros h q Hh Hq Hc. apply (full_bounds S h q Hbd Hh Hq).
    destruct Hc as [[? _]|(? & _)]; [done|]. eapply full_mono; [|done]. intros ? []. }
  assert (Hpar : forall h q, 0 <= h -> 0 <= q -> npos h q < 2 ^ 31 - 32 ->
    (let '(parent_pos0, _) := family (sub64 (npos h q + 1) 1) in
     bm_contains b (pos1_u32 parent_pos0) = true) <->
    collected S (h + 1) (q / 2)).
  { intros h q Hh Hq Hp. pose proof (npos_pos h q Hh Hq). rewrite npos_pred by lia.
    rewrite family_npos by (try done; unfold in_bounds; lia).
    assert (0 <= q / 2) by (apply Z.div_pos; lia).
    pose proof (sibling_bounds h q Hh Hq ltac:(unfold root_ok; lia)) as (Hsb & _ & Hodd).
    rewrite sibling_npos in Hsb by (try done; unfold in_bounds; lia).
    assert (Hpp : npos (h + 1) (q / 2) < 2 ^ 32 - 1).
    { destruct (Z.even q) eqn:Ev; [|rewrite Hodd by done; lia].
      pose proof (npos_right h (q / 2) Hh ltac:(lia)). pose proof (Z.div_mod q 2 ltac:(lia)) as Hd.
      rewrite Zmod_even, Ev in Hd. replace (2 * (q / 2) + 1) with (q + 1) in * by lia.
      pose proof (npos_bounds (h + 1) (q / 2)). pose proof (npos_left h (q / 2) Hh ltac:(lia)) as Hl.
      replace (2 * (q / 2)) with q in * by lia. pose proof (npos_bounds h q Hh Hq) as (_ & Hb2 & _). lia. }
    pose proof (npos_pos (h + 1) (q / 2) ltac:(lia) ltac:(lia)).
    rewrite pos1_u32_small, bm_contains_iff by lia. by rewrite Hb by lia. }
  assert (Hkey : forall h q, 0 <= h -> 0 <= q ->
    collected S h q /\ collected S (h + 1) (q / 2) <-> full S (h + 1) (q / 2) /\ ~ full none (h + 1) (q / 2)).
  { intros h q Hh Hq. assert (0 <= q / 2) by (apply Z.div_pos; lia).
    pose proof (full_parent S h q Hh Hq) as HpS. pose proof (full_parent none h q Hh Hq) as HpN.
    unfold collected at 1 2. split; [tauto|]. intros [HS HN]. split; [|by left].
    destruct (decide (pruned (roots pl) (npos h q))) as [Hd|Hd].
    - right. split; [|done]. intros n Hn. left.
      assert (Hn' : 2 ^ (h + 1) * (q / 2) <= n < 2 ^ (h + 1) * (q / 2 + 1)) by (apply div2_halves; [done|done|by left]).
      pose proof (pow2_pos h Hh). assert (0 <= n) by nia.
      destruct (full_bounds S (h + 1) (q / 2) Hbd ltac:(lia) ltac:(lia) HS).
      pose proof (npos_parent_gt h q Hh Hq). pose proof (npos_pos h q Hh Hq).
      apply (pruned_iff_leaves pl h q Hok Hh Hq); [unfold in_bounds; lia|done|done].
    - left. split; [tauto|]. destruct (full_bounds S (h + 1) (q / 2) Hbd ltac:(lia) ltac:(lia) HS).
      pose proof (npos_parent_gt h q Hh Hq). pose proof (npos_pos h q Hh Hq).
      rewrite full_none by (try done; unfold in_bounds; lia). done. }
  split.
  - intros [Hx Hin]. pose proof (H1 x Hin) as Hx1. destruct (npos_surj (x - 1) ltac:(lia)) as (h & q & Hh & Hq & E).
    assert (x = npos h q + 1) as -> by lia. exists h, q. split; [done|]. split; [done|]. split; [done|].
    apply Hb in Hin; [|done..]. apply Hkey; [done..|]. split; [done|]. apply Hpar; [done..|by apply Hcoll|done].
  - intros (h & q & Hh & Hq & -> & Hn). apply Hkey in Hn as [Hc Hc']; [|done..].
    split; [apply Hpar; [done..|by apply Hcoll|done]|]. by apply Hb.
Qed.

(** *** The new prune list *)

Hypothesis Hroots : Forall (fun r => r < 2 ^ 31 - 64) (roots pl).
Hypothesis Hge1 : forall y, bm_in y (leaf_bitmap (leaf_set pb)) -> 1 <= y.
Variables (cutoff : Z) (rm : BM).
Hypothesis Hcut : 0 <= cutoff <= 2 ^ 31 - 64.
Let L : BM := removed_pre_cutoff (leaf_set pb) cutoff rm pl.

Lemma L_spec x :
  bm_in x L <-> 1 <= x <= cutoff /\ is_leaf (x - 1) = true /\ ~ pruned (roots pl) (x - 1) /\
    ~ bm_in x (rewound (leaf_bitmap (leaf_set pb)) cutoff rm).
Proof.
  unfold L. rewrite removed_spec by (done || lia). split; intros (Hx & Hl & Hp & Hn); split_and!; try lia; try done.
  - rewrite <- is_pruned_spec by (apply Hok || lia). by rewrite Hp.
  - rewrite <- not_true_iff_false, is_pruned_spec by (apply Hok || lia). done.
Qed.

Lemma leaf_npos p : 0 <= p < 2 ^ 62 -> is_leaf p = true -> exists n, 0 <= n /\ p = npos 0 n.
Proof.
  intros Hp Hl. as_node p h q. rewrite is_leaf_npos in Hl by (done || lia). apply Z.eqb_eq in Hl as ->. by exists q.
Qed.

Lemma gone_bound n : 0 <= n -> gone n -> npos 0 n < 2 ^ 31 - 64.
Proof.
  intros Hn (r & Hr & Hu). pose proof (roots_bounds _ _ (proj1 (ok_roots pl Hok)) Hr) as [_ Hb].
  pose proof (under_le _ _ Hu Hb). rewrite Forall_forall in Hroots. specialize (Hroots r Hr). simpl in Hroots. lia.
Qed.

Definition entries : list Z := map (fun x => x - 1) (bm_iter (bm_or (bitmap pl) L)).

Lemma elem_of_entries r : r ∈ entries <-> r ∈ roots pl \/ bm_in (r + 1) L.
Proof.
  unfold entries. rewrite list_elem_of_fmap, elem_of_roots. rewrite <- (bm_in_or (bitmap pl)). split.
  - intros (x & -> & Hx). by replace (x - 1 + 1) with x by lia.
  - intros Hr. exists (r + 1). split; [lia|done].
Qed.

Lemma entries_bound r : r ∈ entries -> 0 <= r < 2 ^ 31 - 64.
Proof.
  intros [Hr|Hr]%elem_of_entries.
  - destruct (roots_bounds _ _ (proj1 (ok_roots pl Hok)) Hr) as [[? _] _]. rewrite Forall_forall in Hroots.
    specialize (Hroots r Hr). simpl in Hroots. lia.
  - apply L_spec in Hr as (Hr & _). lia.
Qed.

Lemma laminar_lt rs a r s : Forall root_ok rs -> laminar a rs -> r ∈ rs -> s ∈ rs -> r < s -> r < fst (bintree_range s).
Proof.
  intros Hb. revert a. induction Hb as [|t rs Ht Hb IH]; intros a Hl Hr Hs Hlt; [by apply elem_of_nil in Hr|].
  destruct Hl as [_ Hl]. apply elem_of_cons in Hr as [->|Hr], Hs as [->|Hs]; [lia| | |by eapply IH].
  - pose proof (laminar_ge _ _ _ Hb Hl Hs). lia.
  - pose proof (laminar_ge _ _ _ Hb Hl Hr). destruct (roots_bounds _ _ Hb Hr) as [_ Hrb].
    pose proof (range_fst_le r Hrb). lia.
Qed.

Lemma laminar_intro rs a :
  StronglySorted Z.lt rs -> (forall r, r ∈ rs -> a <= fst (bintree_range r)) ->
  (forall r s, r ∈ rs -> s ∈ rs -> r < s -> r < fst (bintree_range s)) -> laminar a rs.
Proof.
  intros Hs. revert a. induction Hs as [|r rs Hs IH Hr]; intros a Ha Hlt; [done|]. simpl. split; [apply Ha; by left|].
  apply IH; [|intros s t ??; apply Hlt; by right].
  intros s Hs'. rewrite Forall_forall in Hr. specialize (Hr s Hs').
  pose proof (Hlt r s ltac:(by left) ltac:(by right) Hr). lia.
Qed.

Lemma leaf_range n : 0 <= n -> in_bounds (npos 0 n) -> fst (bintree_range (npos 0 n)) = npos 0 n.
Proof. intros Hn Hb. rewrite range_npos by (done || lia). cbn [fst]. by rewrite Z.pow_0_r, Z.mul_1_l. Qed.

Lemma L_leaf x : bm_in x L -> exists n, 0 <= n /\ x = npos 0 n + 1 /\ in_bounds (npos 0 n) /\ ~ gone n.
Proof.
  intros (Hx & Hl & Hp & _)%L_spec. destruct (leaf_npos (x - 1) ltac:(lia) Hl) as (n & Hn & E).
  exists n. rewrite E in Hp. split_and!; [done|lia|unfold in_bounds; lia|done].
Qed.

Lemma entries_laminar : laminar 0 entries.
Proof.
  pose proof (ok_roots pl Hok) as [Hb Hl]. apply laminar_intro.
  - unfold entries. pose proof (bm_sorted (bm_or (bitmap pl) L)) as Hs.
    induction Hs as [|x l Hs IH Hx]; constructor; [done|]. apply Forall_fmap.
    eapply Forall_impl; [exact Hx|]. intros y ?. simpl. lia.
  - intros r Hr. apply range_fst_nonneg. apply entries_bound in Hr. unfold in_bounds. lia.
  - intros r s Hr Hs Hlt. apply elem_of_entries in Hs as [Hs|Hs].
    + apply elem_of_entries in Hr as [Hr|Hr]; [by eapply laminar_lt|].
      apply L_spec in Hr as (Hr & _ & Hp & _). replace (r + 1 - 1) with r in Hp by lia.
      destruct (Z.lt_ge_cases r (fst (bintree_range s))) as [|Hge]; [done|]. exfalso. apply Hp. exists s.
      split; [done|]. destruct (roots_bounds _ _ Hb Hs) as [_ Hsb]. apply under_range; [done|]. lia.
    + apply L_leaf in Hs as (n & Hn & E & Hnb & _). assert (s = npos 0 n) as -> by lia. by rewrite leaf_range.
Qed.

Lemma pruned_entries n : 0 <= n -> pruned entries (npos 0 n) <-> gone n \/ bm_in (npos 0 n + 1) L.
Proof.
  intros Hn. split.
  - intros (r & [Hr|Hr]%elem_of_entries & Hu); [left; by exists r|]. right.
    apply L_leaf in Hr as Hr'. destruct Hr' as (m & Hm & E & Hmb & _). assert (r = npos 0 m) as -> by lia.
    apply under_range in Hu; [|done]. rewrite leaf_range in Hu by done.
    by replace (npos 0 n) with (npos 0 m) by lia.
  - intros [(r & Hr & Hu)|HinL]; [exists r; split; [apply elem_of_entries; by left|done]|].
    exists (npos 0 n). split; [apply elem_of_entries; by right|]. apply under_refl.
    apply L_spec in HinL as (? & _). pose proof (npos_pos 0 n ltac:(lia) Hn). unfold in_bounds. lia.
Qed.

Lemma new_list :
  exists pl', PruneList.new true (bm_or (bitmap pl) L) = Some pl' /\ prune_ok pl' /\ path pl' = true /\
    forall n, 0 <= n -> pruned (roots pl') (npos 0 n) <-> gone n \/ bm_in (npos 0 n + 1) L.
Proof.
  destruct (new_spec true (bm_or (bitmap pl) L)) as (pl' & E & Hp & Hok' & Hn).
  - apply Forall_forall. apply entries_bound.
  - apply entries_laminar.
  - exists pl'. split; [done|]. split; [done|]. split; [done|]. intros n H0. rewrite Hn by done. by apply pruned_entries.
Qed.

(** Compaction removes what is newly below a root. *)
Lemma pos_to_rm_spec pl' :
  prune_ok pl' -> (forall n, 0 <= n -> pruned (roots pl') (npos 0 n) <-> gone n \/ bm_in (npos 0 n + 1) L) ->
  fst (pos_to_rm pb cutoff rm) = L /\
  forall x, bm_in x (snd (pos_to_rm pb cutoff rm)) <->
    1 <= x <= 2 ^ 31 /\ compacted (roots pl') (x - 1) /\ ~ compacted (roots pl) (x - 1).
Proof.
  intros Hok' Hn. unfold pos_to_rm. rewrite Hpb. fold L. cbn [fst snd]. split; [done|]. intros x.
  set (S := fun n => 0 <= n /\ bm_in (npos 0 n + 1) L).
  assert (Hbd : bounded S).
  { intros n [Hg|[H0 Hl]]; [|apply L_spec in Hl as (? & _); lia].
    destruct (Z.le_gt_cases 0 n); [by apply gone_bound|].
    pose proof (npos0 n). unfold npos. destruct n; [lia|lia|].
    change (count_ones (Z.neg p)) with 0. lia. }
  assert (Hcol : holds (collected S) (expand_loop 64 pb (bm_iter L) bm_new)).
  { eapply holds_iff; [|apply (expand_loop_spec 64 (bm_iter L) none)].
    - intros h q Hh Hq. cbn beta. apply collected_ext; [done..|]. intros n H0. unfold S, none, bm_in. tauto.
    - done.
    - apply sorted_lt_NoDup, bm_sorted.
    - intros y Hy. apply L_leaf in Hy as (n & H0 & -> & _ & Hg). exists n. split_and!; [done..|]. by intros [].
    - intros n Hn'. apply Hbd. unfold S, none, bm_in in *. tauto.
    - split; [|by intros y ?%bm_in_new]. intros h q Hh Hq. unfold collected.
      split; [by intros ?%bm_in_new|]. tauto. }
  rewrite (removed_excl_roots_spec S) by done.
  assert (Hfull : forall h q, 0 <= h -> 0 <= q -> in_bounds (npos h q) ->
    pruned (roots pl') (npos h q) <-> full S h q).
  { intros h q Hh Hq Hb. rewrite (pruned_iff_leaves pl') by done. unfold full, S. pose proof (pow2_pos h Hh).
    split; intros Hf n Hn'; specialize (Hf n Hn'); rewrite Hn in * by nia; [|tauto].
    destruct Hf as [?|?]; [by left|right; split; [nia|done]]. }
  assert (Hcomp : forall h q, 0 <= h -> 0 <= q -> npos h q < 2 ^ 32 ->
    compacted (roots pl') (npos h q) <-> full S (h + 1) (q / 2)).
  { intros h q Hh Hq Hp. pose proof (npos_pos h q Hh Hq). pose proof (parent_in_bounds h q Hh Hq Hp) as Hpb'.
    assert (0 <= q / 2) by (apply Z.div_pos; lia).
    assert (Hb : in_bounds (npos h q)) by (unfold in_bounds; lia).
    unfold compacted. rewrite (root_iff pl') by done. rewrite !Hfull by (done || lia).
    pose proof (full_parent S h q Hh Hq) as Hfp. split; [|tauto]. intros [Hf Hnr].
    destruct (decide (pruned (roots pl') (npos (h + 1) (q / 2)))) as [Hd|Hd]; rewrite Hfull in Hd by (done || lia); tauto. }
  split.
  - intros (h & q & Hh & Hq & -> & HS & HN). assert (0 <= q / 2) by (apply Z.div_pos; lia).
    destruct (full_bounds S (h + 1) (q / 2) Hbd ltac:(lia) ltac:(lia) HS) as [_ Hp].
    pose proof (npos_parent_gt h q Hh Hq). pose proof (npos_pos h q Hh Hq).
    replace (npos h q + 1 - 1) with (npos h q) by lia. split; [lia|].
    rewrite Hcomp, compacted_full by (try done; try (by apply parent_in_bounds; lia); unfold in_bounds; lia). done.
  - intros (Hx & Hc & Hnc). destruct (npos_surj (x - 1) ltac:(lia)) as (h & q & Hh & Hq & E). rewrite E in Hc, Hnc.
    exists h, q. split_and!; [done|done|lia|by apply Hcomp; [| |lia|]|].
    rewrite <- compacted_full; [done|done|done|unfold in_bounds; lia|by apply parent_in_bounds; lia].
Qed.

End expand.
