(* ===== verification/PmmrStoreSpec.v ===== *)
(** Correctness of the persistent backend.

    What the files of [PmmrStore] hold: the hash file the hashes of the positions
    that compaction keeps, the data file the elements of the leaves among them.
    Every operation of the backend keeps to it, compaction by removing the
    elements that the new prune list does not keep. *)

From Stdlib Require Import ZArith Lia.
From stdpp Require Import base numbers option sorting gmap list.
From S2P Require Import Prelude PmmrIndex Pmmr Ser Bitmap PruneList LeafSet AppendOnly PmmrStore PmmrCompact.
Open Scope Z_scope.

(** * Views of the positions that stay *)

Section view.
Context {A : Type} (P : Z -> Prop) {dP : forall x, Decision (P x)} (f : Z -> A).

(** [f] of the positions before [n] with [P]. *)
Definition view (n : Z) : list A := map f (filter P (seqZ 0 n)).

Lemma seqZ_split a n m : 0 <= n <= m -> seqZ a m = seqZ a n ++ seqZ (a + n) (m - n).
Proof. intros. replace m with (n + (m - n)) at 1 by lia. by rewrite seqZ_app by lia. Qed.

Lemma view_length n : Z.of_nat (length (view n)) = count P 0 n.
Proof. unfold view, count. by rewrite length_map, Z.sub_0_r. Qed.

Lemma view_app n m : 0 <= n <= m -> view m = view n ++ map f (filter P (seqZ n (m - n))).
Proof. intros. unfold view. by rewrite (seqZ_split 0 n m), filter_app, map_app by done. Qed.

Lemma view_take n m : 0 <= n <= m -> take (Z.to_nat (count P 0 n)) (view m) = view n.
Proof.
  intros. rewrite (view_app n m) by done. rewrite <- view_length, Nat2Z.id. by rewrite take_app_length.
Qed.

Lemma count_nonneg a b : 0 <= count P a b.
Proof. unfold count. lia. Qed.

Lemma count_step n : P n -> count P n (n + 1) = 1.
Proof. intros. rewrite count_all; [lia..|]. intros x ?. by replace x with n by lia. Qed.

Lemma view_lookup n p : 0 <= p < n -> P p -> view n !! Z.to_nat (count P 0 p) = Some (f p).
Proof.
  intros Hp HP. rewrite (view_app (p + 1) n), (view_app p (p + 1)) by lia. rewrite <- app_assoc, <- view_length, Nat2Z.id.
  rewrite lookup_app_r, Nat.sub_diag by done. replace (p + 1 - p) with 1 by lia.
  rewrite (seqZ_cons p 1), (seqZ_nil (Z.succ p)) by lia. by rewrite filter_cons_True by done.
Qed.

Lemma count_le a b c : a <= b <= c -> count P a b <= count P a c.
Proof. intros. rewrite (count_split P a b c) by done. pose proof (count_nonneg b c). lia. Qed.

Lemma count_upper a b : a <= b -> count P a b <= b - a.
Proof.
  intros. unfold count. pose proof (length_filter P (seqZ a (b - a))) as Hl. rewrite length_seqZ in Hl. lia.
Qed.

(** Pruning at the indices of some of the positions keeps the others. *)
Lemma kept_view (Q : Z -> Prop) {dQ : forall x, Decision (Q x)} (del : list Z) a m i :
  0 <= m ->
  (forall p, a <= p < a + m -> P p -> (i + count P a p ∈ del <-> ~ Q p)) ->
  kept i del (map f (filter P (seqZ a m))) = map f (filter (fun p => P p /\ Q p) (seqZ a m)).
Proof.
  intros Hm. revert a i. pattern m. apply natlike_ind; [|clear m Hm|done].
  { intros. by rewrite seqZ_nil. }
  intros m Hm IH a i Hdel. rewrite seqZ_cons, Z.pred_succ by lia.
  assert (Hrest : forall j, (forall p, a + 1 <= p < a + 1 + m -> P p -> i + count P a p = j + count P (a + 1) p) ->
    kept j del (map f (filter P (seqZ (Z.succ a) m))) =
    map f (filter (fun p => P p /\ Q p) (seqZ (Z.succ a) m))).
  { intros j Hj. apply IH. intros p Hp HP. rewrite <- Hdel by (done || lia). rewrite Hj by (done || lia). done. }
  assert (Hcount : forall p, a + 1 <= p -> count P a p = count P a (a + 1) + count P (a + 1) p)
    by (intros; apply count_split; lia).
  rewrite !filter_cons. destruct (decide (P a)) as [HP|HP].
  - assert (Ha : i ∈ del <-> ~ Q a).
    { rewrite <- Hdel by (done || lia). rewrite count_empty by lia. by rewrite Z.add_0_r. }
    cbn [map kept]. rewrite (Hrest (i + 1)) by (intros; rewrite Hcount, count_step by (done || lia); lia).
    destruct (bool_decide_reflect (i ∈ del)) as [Hi|Hi].
    + apply Ha in Hi. by rewrite decide_False by tauto.
    + destruct (decide (P a /\ Q a)) as [|Hn]; [done|]. exfalso. apply Hi, Ha. tauto.
  - rewrite (Hrest i); [by rewrite decide_False by tauto|].
    intros. rewrite Hcount by lia. rewrite (count_none P a (a + 1)); [lia|]. intros x ? ?. by replace x with a in * by lia.
Qed.
End view.

Lemma view_ext {A} (P Q : Z -> Prop) {dP : forall x, Decision (P x)} {dQ : forall x, Decision (Q x)} (f g : Z -> A) n :
  (forall p, 0 <= p < n -> P p <-> Q p) -> (forall p, 0 <= p < n -> P p -> f p = g p) -> view P f n = view Q g n.
Proof.
  intros HPQ Hfg. unfold view.
  rewrite (filter_ext_Forall P Q) by (apply Forall_forall; intros p Hp%elem_of_seqZ; apply HPQ; lia).
  apply map_ext_in. intros p Hp. apply list_elem_of_In, list_elem_of_filter in Hp as [HQ Hp%elem_of_seqZ].
  apply Hfg; [lia|]. apply HPQ; [lia|done].
Qed.

(** * Positions in the files *)

(** Before leaf [k] there are [k] leaves. *)
Lemma count_leaf_positions k : 0 <= k < 2 ^ 60 -> count (fun x => is_leaf x = true) 0 (npos 0 k) = k.
Proof.
  intros [Hk Hb]. revert Hb. pattern k. apply natlike_ind; [intros; by apply count_empty| |done]. clear k Hk.
  intros k Hk IH Hb. rewrite <- Z.add_1_r in *. pose proof (npos0_mono k (k + 1) ltac:(lia)).
  pose proof (npos0_ge k Hk). pose proof (npos0_ge (k + 1) ltac:(lia)).
  rewrite (count_split _ 0 (npos 0 k)), IH by lia. rewrite (count_split _ (npos 0 k) (npos 0 k + 1)) by lia.
  rewrite count_step by (rewrite is_leaf_npos by lia; done). rewrite count_none; [lia|].
  intros x Hx Hl. destruct (leaf_npos x ltac:(lia) Hl) as (m & Hm & ->).
  assert (k < m) by (apply npos0_lt_iff; lia). assert (m < k + 1) by (apply npos0_lt_iff; lia). lia.
Qed.

Section positions.
Context {BM : Type} {HB : Bitmap BM} {HL : BitmapLaws BM}.
Implicit Types (pl : PruneList BM).

Definition stays pl (p : Z) : Prop := ~ compacted (roots pl) p.
Definition leaf_stays pl (p : Z) : Prop := is_leaf p = true /\ ~ compacted (roots pl) p.

#[export] Instance stays_dec pl p : Decision (stays pl p).
Proof. unfold stays. apply _. Defined.
#[export] Instance leaf_stays_dec pl p : Decision (leaf_stays pl p).
Proof. unfold leaf_stays. apply _. Defined.

Lemma count_complement (P Q R : Z -> Prop) {dP : forall x, Decision (P x)} {dQ : forall x, Decision (Q x)}
    {dR : forall x, Decision (R x)} a b :
  (forall x, R x <-> P x \/ Q x) -> (forall x, ~ (P x /\ Q x)) -> count P a b + count Q a b = count R a b.
Proof.
  intros Hor Hand. unfold count. rewrite <- Nat2Z.inj_add. f_equal.
  induction (seqZ a (b - a)) as [|x l IH]; [done|]. rewrite !filter_cons. specialize (Hor x). specialize (Hand x).
  destruct (decide (P x)), (decide (Q x)), (decide (R x)); cbn [length]; try tauto; lia.
Qed.

Lemma count_stays pl a b : a <= b ->
  count (fun x => compacted (roots pl) x /\ True) a b + count (stays pl) a b = b - a.
Proof.
  intros. rewrite <- (count_all (fun _ => True) a b) by done. apply count_complement; unfold stays; [|tauto].
  intros x. destruct (decide (compacted (roots pl) x)); tauto.
Qed.

Lemma count_leaf_stays pl a b :
  count (fun x => compacted (roots pl) x /\ is_leaf x = true) a b + count (leaf_stays pl) a b =
  count (fun x => is_leaf x = true) a b.
Proof.
  apply count_complement; unfold leaf_stays; [|tauto]. intros x. destruct (decide (compacted (roots pl) x)); tauto.
Qed.

Lemma hash_shift pl p :
  prune_ok pl -> 0 <= p < 2 ^ 31 -> stays pl p -> get_shift pl p = Some (p - count (stays pl) 0 p).
Proof.
  intros Hok Hp Hs. destruct (get_shift_sum pl p Hok ltac:(lia)) as [-> _]. f_equal.
  pose proof (ok_roots pl Hok) as [Hb Hl].
  rewrite <- (count_compacted (fun _ => True) shift_of count_positions (roots pl) 0 p) by (done || lia).
  pose proof (count_stays pl 0 p ltac:(lia)). lia.
Qed.

(** The position after a leaf that stays adds nothing to the leaf shift. *)
Lemma leaf_shift_next pl p :
  prune_ok pl -> 0 <= p < 2 ^ 31 -> leaf_stays pl p -> get_leaf_shift pl (p + 1) = get_leaf_shift pl p.
Proof.
  intros Hok Hp [Hl Hs]. destruct (get_shift_sum pl p Hok ltac:(lia)) as [_ ->].
  destruct (get_shift_sum pl (p + 1) Hok ltac:(lia)) as [_ ->]. f_equal.
  pose proof (ok_roots pl Hok) as [Hb _].
  assert (Hnext : p + 1 ∈ roots pl -> leaf_shift_of (p + 1) = 0).
  { intros Hr. destruct (roots_bounds _ _ Hb Hr) as [_ Hrb]. destruct (npos_surj (p + 1) ltac:(lia)) as (h & q & Hh & Hq & E).
    unfold leaf_shift_of. rewrite E in *. unfold in_bounds in Hrb. rewrite height_npos by lia.
    destruct (Z.eqb_spec h 0) as [->|Hne]; [done|]. exfalso. apply Hs. split.
    - exists (npos h q). split; [done|]. unfold under. rewrite range_npos by done. cbn [fst snd].
      destruct (leftmost_npos h q Hh Hq Hrb) as [_ ->].
      assert (2 ^ 2 <= 2 ^ (h + 1)) by (apply Z.pow_le_mono_r; lia). lia.
    - intros Hpr. destruct (leaf_npos p ltac:(lia) Hl) as (n & Hn & ->).
      eapply (laminar_unique 0 (roots pl) (npos h q) (npos 0 n) (npos 0 n)) in Hr as Heq;
        [|apply (ok_roots pl Hok)..|done| |apply under_refl; unfold in_bounds; lia]; [lia|].
      unfold under. rewrite range_npos by done. cbn [fst snd].
      destruct (leftmost_npos h q Hh Hq Hrb) as [_ ->].
      assert (2 ^ 2 <= 2 ^ (h + 1)) by (apply Z.pow_le_mono_r; lia). lia. }
  pose proof (roots_sorted pl) as Hsort. clear Hb Hs. induction Hsort as [|r l Hsort IH Hr]; [done|].
  rewrite !filter_cons. destruct (decide (r <= p)) as [Hle|Hle].
  - rewrite decide_True by lia. cbn [map]. unfold sumZ. cbn [foldr]. f_equal. apply IH. intros. apply Hnext. by right.
  - rewrite (filter_none (fun r => r <= p)) by (eapply Forall_impl; [exact Hr|]; simpl; lia).
    destruct (decide (r <= p + 1)) as [Hle'|Hle'].
    + rewrite (filter_none (fun r => r <= p + 1)) by (eapply Forall_impl; [exact Hr|]; simpl; lia).
      assert (r = p + 1) as -> by lia. unfold sumZ. cbn. rewrite Hnext by (by left). done.
    + by rewrite (filter_none (fun r => r <= p + 1)) by (eapply Forall_impl; [exact Hr|]; simpl; lia).
Qed.

Lemma leaf_shift_stays pl k :
  prune_ok pl -> 0 <= k -> npos 0 k < 2 ^ 31 -> stays pl (npos 0 k) ->
  get_leaf_shift pl (npos 0 k + 1) = Some (k - count (leaf_stays pl) 0 (npos 0 k)).
Proof.
  intros Hok Hk Hp Hs. pose proof (npos0_ge k Hk).
  rewrite leaf_shift_next; [|done|lia|split; [rewrite is_leaf_npos by lia; done|done]].
  destruct (get_shift_sum pl (npos 0 k) Hok ltac:(lia)) as [_ ->]. f_equal.
  pose proof (ok_roots pl Hok) as [Hb Hl].
  rewrite <- (count_compacted (fun x => is_leaf x = true) leaf_shift_of count_leaves (roots pl) 0 (npos 0 k)) by (done || lia).
  pose proof (count_leaf_stays pl 0 (npos 0 k)) as Hc. rewrite count_leaf_positions in Hc by lia. lia.
Qed.

(** Behind all roots the shifts are the total ones. *)
Lemma stays_behind pl n : prune_ok pl -> Forall (fun r => r < n) (roots pl) -> stays pl n.
Proof.
  intros Hok Hn [(r & Hr & Hu) _]. destruct (roots_bounds _ _ (proj1 (ok_roots pl Hok)) Hr) as [_ Hb].
  pose proof (under_le _ _ Hu Hb). rewrite Forall_forall in Hn. specialize (Hn r Hr). simpl in Hn. lia.
Qed.

Lemma total_shifts pl n p :
  prune_ok pl -> Forall (fun r => r < n) (roots pl) -> 0 <= n < 2 ^ 31 -> 0 <= p < 2 ^ 31 ->
  Forall (fun r => r <= p) (roots pl) ->
  get_shift pl p = Some (n - count (stays pl) 0 n) /\
  get_leaf_shift pl p = Some (count (fun x => is_leaf x = true) 0 n - count (leaf_stays pl) 0 n).
Proof.
  intros Hok Hlt Hn Hp Hle. destruct (get_shift_sum pl p Hok ltac:(lia)) as [-> ->].
  pose proof (ok_roots pl Hok) as [Hb Hl]. pose proof (stays_behind pl n Hok Hlt) as Hs.
  assert (Hall : filter (fun r => r <= p) (roots pl) = filter (fun r => r <= n) (roots pl)).
  { rewrite !filter_all; [done|eapply Forall_impl; [exact Hlt|]; simpl; lia|done]. }
  rewrite Hall.
  rewrite <- (count_compacted (fun _ => True) shift_of count_positions (roots pl) 0 n) by (done || lia).
  rewrite <- (count_compacted (fun x => is_leaf x = true) leaf_shift_of count_leaves (roots pl) 0 n) by (done || lia).
  pose proof (count_stays pl 0 n ltac:(lia)). pose proof (count_leaf_stays pl 0 n). split; f_equal; lia.
Qed.

Lemma maximum_roots pl : prune_ok pl ->
  0 <= sub64 (default 1 (bm_maximum (bitmap pl))) 1 < 2 ^ 31 /\
  Forall (fun r => r <= sub64 (default 1 (bm_maximum (bitmap pl))) 1) (roots pl).
Proof.
  intros Hok. rewrite bm_maximum_last. unfold roots. pose proof (proj1 (ok_roots pl Hok)) as Hb. unfold roots in Hb.
  pose proof (bm_sorted (bitmap pl)) as Hs. destruct (last (bm_iter (bitmap pl))) as [m|] eqn:E.
  - apply last_Some in E as [l E]. rewrite E in *. cbn [default]. rewrite map_app in *. apply Forall_app in Hb as [_ Hm].
    apply Forall_cons in Hm as [Hm _]. unfold root_ok in Hm. cbn [from_option]. unfold id. rewrite sub64_small by (unfold_words; lia).
    split; [lia|]. apply Forall_app. split; [|constructor; [lia|constructor]]. apply Forall_map, Forall_forall.
    clear -Hs. induction l as [|x l IH]; intros y Hy; [by apply elem_of_nil in Hy|].
    cbn [app] in Hs. apply StronglySorted_inv in Hs as [Hs Hx]. apply elem_of_cons in Hy as [->|Hy]; [|by apply IH].
    apply Forall_app in Hx as [_ Hx]. apply Forall_cons in Hx as [Hx _]. lia.
  - apply last_None in E. rewrite E. cbn. split; [vm_compute; split; congruence|constructor].
Qed.

Lemma get_totals pl n :
  prune_ok pl -> Forall (fun r => r < n) (roots pl) -> 0 <= n < 2 ^ 31 ->
  get_total_shift pl = Some (n - count (stays pl) 0 n) /\
  get_total_leaf_shift pl = Some (count (fun x => is_leaf x = true) 0 n - count (leaf_stays pl) 0 n).
Proof.
  intros Hok Hlt Hn. destruct (maximum_roots pl Hok) as [Hm Hall]. unfold get_total_shift, get_total_leaf_shift.
  by apply total_shifts.
Qed.
End positions.

(** * The state of the backend *)

Section store.
Context {BM : Type} {HB : Bitmap BM} {HL : BitmapLaws BM}.
Context {T E : Type} {RE : Readable E} {WE : Writeable E} (as_elmt : T -> E).
Context (v : ProtocolVersion) (ok : E -> Prop) (enc : E -> bytes) {C : Codec E v ok enc}.
Implicit Types (pb : PMMRBackend BM) (pl : PruneList BM) (jh : journal Hash) (jd : journal E).
Implicit Types (hs : Z -> Hash) (ds : Z -> E).

(** A prune list, a leaf set and the contents of the files show an MMR of size [n]
    with the hashes [hs] and the elements [ds]. *)
Record shows pl (leaves : BM) (lh : list Hash) (ld : list E) hs ds (n : Z) : Prop := {
  sh_prune : prune_ok pl;
  sh_path : path pl = true;
  sh_roots : Forall (fun r => r < n) (roots pl);
  sh_size : 0 <= n <= 2 ^ 31 - 64;
  sh_leaves x : bm_in x leaves -> 1 <= x <= n /\ is_leaf (x - 1) = true /\ ~ pruned (roots pl) (x - 1);
  sh_hashes : lh = view (stays pl) hs n;
  sh_data : ld = view (leaf_stays pl) ds n;
}.

Definition files_ok pb jh jd : Prop :=
  rep v hash_ok hash_bytes jh (hash_file pb) /\ elmt_size (hash_file pb) = Some HASH_SIZE /\
  rep v ok enc jd (data_file pb).

(** The leaf set of an MMR that is not prunable is not used. *)
Definition leaves_used pb : Prop :=
  prunable pb = false -> forall x, ~ bm_in x (leaf_bitmap (leaf_set pb)) /\ ~ bm_in x (bitmap_bak (leaf_set pb)).

Definition store_ok pb jh jd hs ds (n : Z) : Prop :=
  files_ok pb jh jd /\ leaves_used pb /\
  shows (prune_list pb) (leaf_bitmap (leaf_set pb)) (content jh) (content jd) hs ds n.

(** What was synced last, which discarding goes back to. *)
Definition saved_ok pb jh jd hs ds (n : Z) : Prop :=
  path (prune_list pb) = true /\
  exists pl, PruneList.discard (prune_list pb) (prun_disk pb) = Some pl /\
    shows pl (bitmap_bak (leaf_set pb)) (synced jh) (synced jd) hs ds n.

(** No operation is pending in the files. *)
Definition at_rest pb jh jd : Prop :=
  pending jh = [] /\ pending jd = [] /\ clean (hash_file pb) /\ clean (data_file pb).

Section reads.
Context pb jh jd hs ds n (Hst : store_ok pb jh jd hs ds n).

Lemma st_prune : prune_ok (prune_list pb). Proof. apply Hst. Qed.
Lemma st_size : 0 <= n <= 2 ^ 31 - 64. Proof. apply Hst. Qed.
Lemma st_roots : Forall (fun r => r < n) (roots (prune_list pb)). Proof. apply Hst. Qed.

Lemma includes_not_pruned p :
  0 <= p < 2 ^ 31 -> includes (leaf_set pb) p = true -> is_leaf p = true /\ ~ pruned (roots (prune_list pb)) p /\ p < n.
Proof.
  intros Hp Hi. apply includes_spec in Hi; [|lia]. destruct Hst as (_ & _ & Hsh).
  destruct (sh_leaves _ _ _ _ _ _ _ Hsh _ Hi) as (Hx & Hl & Hpr).
  replace (p + 1 - 1) with p in * by lia. split_and!; [done|done|lia].
Qed.

Lemma is_compacted_store p : 0 <= p < 2 ^ 31 -> is_compacted pb p = true <-> compacted (roots (prune_list pb)) p.
Proof.
  intros Hp. unfold is_compacted, is_pruned_root, is_pruned.
  fold (PruneList.is_compacted (prune_list pb) p). pose proof (is_compacted_spec (prune_list pb) p st_prune Hp) as Hc.
  destruct (includes (leaf_set pb) p) eqn:Ei; [|exact Hc].
  destruct (includes_not_pruned p Hp Ei) as (_ & Hnp & _). split; [done|]. by intros [? _].
Qed.

Lemma is_compacted_stays p : 0 <= p < 2 ^ 31 -> is_compacted pb p = false <-> stays (prune_list pb) p.
Proof. intros Hp. rewrite <- not_true_iff_false. by rewrite is_compacted_store. Qed.

Lemma hash_read p : 0 <= p < n -> stays (prune_list pb) p ->
  (let! shift := get_shift (prune_list pb) p in DataFile.read (hash_file pb) (sub64 (add64 1 p) shift)) = Some (hs p).
Proof.
  intros Hp Hs. pose proof st_size. rewrite (hash_shift (prune_list pb) p) by (try done; try apply st_prune; lia).
  cbn [mbind option_bind]. rewrite add64_small by (unfold_words; lia).
  pose proof (count_nonneg (stays (prune_list pb)) 0 p). pose proof (count_upper (stays (prune_list pb)) 0 p ltac:(lia)).
  rewrite sub64_small by (unfold_words; lia). destruct Hst as ((Hh & _) & _ & Hsh).
  rewrite (file_read v hash_ok hash_bytes jh) by (done || lia). rewrite (sh_hashes _ _ _ _ _ _ _ Hsh).
  replace (1 + p - (p - count (stays (prune_list pb)) 0 p) - 1) with (count (stays (prune_list pb)) 0 p) by lia.
  by apply view_lookup.
Qed.

Lemma data_read k : 0 <= k -> npos 0 k < n -> stays (prune_list pb) (npos 0 k) ->
  (let! shift := get_leaf_shift (prune_list pb) (add64 1 (npos 0 k)) in
   DataFile.read (data_file pb) (sub64 (n_leaves (add64 (npos 0 k) 1)) shift)) = Some (ds (npos 0 k)).
Proof.
  intros Hk Hp Hs. pose proof st_size. pose proof (npos0_ge k Hk). pose proof (npos_pos 0 k ltac:(lia) Hk).
  rewrite !add64_small, (Z.add_comm 1) by (unfold_words; lia).
  rewrite leaf_shift_stays by (try done; try apply st_prune; lia). cbn [mbind option_bind].
  rewrite n_leaves_after by lia.
  pose proof (count_nonneg (leaf_stays (prune_list pb)) 0 (npos 0 k)).
  pose proof (count_leaf_stays (prune_list pb) 0 (npos 0 k)) as Hc. rewrite count_leaf_positions in Hc by lia.
  pose proof (count_nonneg (fun x => compacted (roots (prune_list pb)) x /\ is_leaf x = true) 0 (npos 0 k)).
  rewrite sub64_small by (unfold_words; lia). destruct Hst as ((_ & _ & Hd) & _ & Hsh).
  rewrite (file_read v ok enc jd) by (done || lia). rewrite (sh_data _ _ _ _ _ _ _ Hsh).
  replace (k + 1 - _ - 1) with (count (leaf_stays (prune_list pb)) 0 (npos 0 k)) by lia.
  apply view_lookup; [lia|]. split; [|done]. rewrite is_leaf_npos by lia. done.
Qed.

Lemma get_from_file_ok p : 0 <= p < n ->
  get_from_file pb p = if is_compacted pb p then None else Some (hs p).
Proof.
  intros Hp. pose proof st_size. unfold get_from_file. destruct (is_compacted pb p) eqn:Hc; [done|].
  apply hash_read; [done|]. by apply is_compacted_stays; [lia|].
Qed.

Lemma get_peak_ok p : 0 <= p < n -> is_compacted pb p = false -> get_peak_from_file pb p = Some (hs p).
Proof. intros Hp Hc. pose proof st_size. apply hash_read; [done|]. by apply is_compacted_stays; [lia|]. Qed.

Lemma get_data_from_file_ok p : 0 <= p < n ->
  get_data_from_file pb p = if is_leaf p then (if is_compacted pb p then None else Some (ds p)) else None.
Proof.
  intros Hp. pose proof st_size. unfold get_data_from_file. destruct (is_leaf p) eqn:Hl; [|done]. cbn [negb].
  destruct (is_compacted pb p) eqn:Hc; [done|]. destruct (leaf_npos p ltac:(lia) Hl) as (k & Hk & ->).
  apply data_read; [done|lia|]. by apply is_compacted_stays; [lia|].
Qed.
End reads.

Lemma peak_compacted pb jh jd hs ds k p :
  store_ok pb jh jd hs ds (npos 0 k) -> 0 <= k -> p ∈ peaks (npos 0 k) -> 0 <= p < npos 0 k /\ is_compacted pb p = false.
Proof.
  intros Hst Hk Hp. pose proof (st_size _ _ _ _ _ _ Hst) as Hn. pose proof (npos0_ge k Hk).
  assert (Hp0 : 0 <= p < npos 0 k).
  { rewrite peaks_npos in Hp by lia. apply elem_of_map in Hp as (b & -> & Hb).
    destruct (peak_bit_node k b) as (? & ? & ?); [lia|done|]. split; [|lia].
    apply npos_pos; lia. }
  split; [done|]. apply (is_compacted_stays _ _ _ _ _ _ Hst); [lia|]. intros [(r & Hr & Hu) Hnr].
  destruct (npos_surj p ltac:(lia)) as (h & q & Hh & Hq & ->).
  apply peak_iff in Hp as [_ Hle]; [|done|done|lia].
  destruct (roots_bounds _ _ (proj1 (ok_roots _ (st_prune _ _ _ _ _ _ Hst))) Hr) as [Hro Hrb].
  assert (Hpar : under r (npos (h + 1) (q / 2))) by (apply parent_covered; [done..|]; by intros ->).
  pose proof (under_le _ _ Hpar Hrb). pose proof (st_roots _ _ _ _ _ _ Hst) as Hlt. rewrite Forall_forall in Hlt.
  specialize (Hlt r Hr). simpl in Hlt. lia.
Qed.

(** ** Appending *)

Definition extend (hs : Z -> Hash) (n : Z) (l : list Hash) (p : Z) : Hash :=
  if p <? n then hs p else default (hs p) (l !! Z.to_nat (p - n)).

Definition extend_data (ds : Z -> E) (n : Z) (x : E) (p : Z) : E := if p =? n then x else ds p.

Lemma map_extend hs n l : map (extend hs n l) (seqZ n (Z.of_nat (length l))) = l.
Proof.
  apply list_eq. intros i. rewrite list_lookup_fmap. destruct (decide (i < length l)%nat) as [Hi|Hi].
  - rewrite lookup_seqZ_lt by lia. cbn [fmap option_fmap option_map]. unfold extend.
    destruct (Z.ltb_spec (n + Z.of_nat i) n); [lia|]. replace (Z.to_nat (n + Z.of_nat i - n)) with i by lia.
    destruct (lookup_lt_is_Some_2 l i Hi) as [x ->]. done.
  - rewrite lookup_seqZ_ge by lia. cbn. symmetry. apply lookup_ge_None. lia.
Qed.

Lemma view_extend pl hs n l :
  prune_ok pl -> Forall (fun r => r < n) (roots pl) -> 0 <= n ->
  view (stays pl) (extend hs n l) (n + Z.of_nat (length l)) = view (stays pl) hs n ++ l.
Proof.
  intros Hok Hr Hn. rewrite (view_app _ _ n) by lia. f_equal.
  - apply view_ext; [done|]. intros p Hp _. unfold extend. by destruct (Z.ltb_spec p n); [|lia].
  - replace (n + Z.of_nat (length l) - n) with (Z.of_nat (length l)) by lia.
    rewrite filter_all; [apply map_extend|]. apply Forall_forall. intros p Hp%elem_of_seqZ.
    apply stays_behind; [done|]. eapply Forall_impl; [exact Hr|]. simpl. lia.
Qed.

Lemma view_extend_data pl ds k x :
  prune_ok pl -> Forall (fun r => r < npos 0 k) (roots pl) -> 0 <= k < 2 ^ 60 ->
  view (leaf_stays pl) (extend_data ds (npos 0 k) x) (npos 0 (k + 1)) = view (leaf_stays pl) ds (npos 0 k) ++ [x].
Proof.
  intros Hok Hr Hk. pose proof (npos0_mono k (k + 1) ltac:(lia)). pose proof (npos0_ge k ltac:(lia)).
  pose proof (npos0_ge (k + 1) ltac:(lia)).
  rewrite (view_app _ _ (npos 0 k)) by lia. f_equal.
  - apply view_ext; [done|]. intros p Hp _. unfold extend_data. by destruct (Z.eqb_spec p (npos 0 k)); [lia|].
  - replace (npos 0 (k + 1) - npos 0 k) with (Z.succ (npos 0 (k + 1) - npos 0 k - 1)) by lia.
    rewrite seqZ_cons by lia. rewrite filter_cons_True.
    + rewrite filter_none; [cbn; unfold extend_data; by rewrite Z.eqb_refl|].
      apply Forall_forall. intros p Hp%elem_of_seqZ [Hl _]. destruct (leaf_npos p ltac:(lia) Hl) as (m & Hm & ->).
      assert (k < m) by (apply npos0_lt_iff; lia). assert (m < k + 1) by (apply npos0_lt_iff; lia). lia.
    + split; [rewrite is_leaf_npos by lia; done|]. by apply stays_behind.
Qed.

Lemma not_pruned_behind pl n : prune_ok pl -> Forall (fun r => r < n) (roots pl) -> ~ pruned (roots pl) n.
Proof.
  intros Hok Hr (r & Hin & Hu). destruct (roots_bounds _ _ (proj1 (ok_roots pl Hok)) Hin) as [_ Hb].
  pose proof (under_le _ _ Hu Hb). rewrite Forall_forall in Hr. specialize (Hr r Hin). simpl in Hr. lia.
Qed.

Lemma append_ok pb jh jd hs ds k data hashes :
  store_ok pb jh jd hs ds (npos 0 k) -> 0 <= k ->
  npos 0 k + Z.of_nat (length hashes) = npos 0 (k + 1) -> npos 0 (k + 1) <= 2 ^ 31 - 64 ->
  Forall hash_ok hashes -> ok (as_elmt data) -> fits enc (elmt_size (data_file pb)) (as_elmt data) ->
  small hash_bytes (j_append jh hashes) -> small enc (j_append jd [as_elmt data]) ->
  exists pb', append as_elmt pb data hashes = Ok pb' /\
    store_ok pb' (j_append jh hashes) (j_append jd [as_elmt data])
      (extend hs (npos 0 k) hashes) (extend_data ds (npos 0 k) (as_elmt data)) (npos 0 (k + 1)) /\
    prune_list pb' = prune_list pb /\ prunable pb' = prunable pb /\ bitmap_bak (leaf_set pb') = bitmap_bak (leaf_set pb) /\
    prun_disk pb' = prun_disk pb /\
    leaf_set pb' = if prunable pb then LeafSet.add (leaf_set pb) (npos 0 k) else leaf_set pb.
Proof.
  intros Hst Hk Hlen Hmax Hhs Hx Hfit Hsh Hsd. pose proof Hst as ((Hh & Hhk & Hd) & Hu & Hsw).
  pose proof (st_size _ _ _ _ _ _ Hst) as Hn. pose proof (st_prune _ _ _ _ _ _ Hst) as Hok.
  pose proof (st_roots _ _ _ _ _ _ Hst) as Hr. pose proof (npos0_ge k Hk).
  destruct (file_append v ok enc jd _ _ Hd Hx Hfit Hsd) as (df & Ed & Hd' & _).
  destruct (file_extend v hash_ok hash_bytes jh _ hashes Hh Hhs) as (hf & Eh & Hh' & Hhk'); [|done|].
  { rewrite Hhk. eapply Forall_impl; [exact Hhs|]. done. }
  assert (Hfiles : forall ls, files_ok (set_leaf_set (set_files pb hf df) ls) (j_append jh hashes) (j_append jd [as_elmt data]))
    by (intros ls; split; [done|]; split; [by rewrite <- Hhk|done]).
  unfold append. rewrite Ed, Eh. cbn [io rbind]. cbn [set_files prunable prune_list leaf_set].
  destruct (get_totals (prune_list pb) (npos 0 k) Hok Hr ltac:(lia)) as [_ Ht].
  pose proof Hsw as [_ Hpath _ _ Hls Hhash Hdata].
  assert (Hview : forall leaves, (forall x, bm_in x leaves -> 1 <= x <= npos 0 (k + 1) /\ is_leaf (x - 1) = true /\
      ~ pruned (roots (prune_list pb)) (x - 1)) ->
    shows (prune_list pb) leaves (content (j_append jh hashes)) (content (j_append jd [as_elmt data]))
      (extend hs (npos 0 k) hashes) (extend_data ds (npos 0 k) (as_elmt data)) (npos 0 (k + 1))).
  { intros leaves Hleaves. split; [done|done| |lia|done| |].
    - eapply Forall_impl; [exact Hr|]. simpl. lia.
    - rewrite content_app, Hhash, <- Hlen. by rewrite view_extend by (done || lia).
    - rewrite content_app, Hdata. by rewrite view_extend_data by (done || lia). }
  destruct (prunable pb) eqn:Hp.
  - rewrite Ht. cbn [ran ok_or rbind]. rewrite content_app, length_app in Ed |- *.
    assert (Hpos : insertion_to_pmmr_index
      (sub64 (add64 (Z.of_nat (length (content jd) + length [as_elmt data]))
        (count (fun x => is_leaf x = true) 0 (npos 0 k) - count (leaf_stays (prune_list pb)) 0 (npos 0 k))) 1) = npos 0 k).
    { rewrite Hdata. pose proof (view_length (leaf_stays (prune_list pb)) ds (npos 0 k)) as Hl.
      rewrite Nat2Z.inj_add, Hl. cbn [length].
      pose proof (count_leaf_stays (prune_list pb) 0 (npos 0 k)).
      pose proof (count_nonneg (leaf_stays (prune_list pb)) 0 (npos 0 k)).
      pose proof (count_nonneg (fun x => compacted (roots (prune_list pb)) x /\ is_leaf x = true) 0 (npos 0 k)).
      rewrite count_leaf_positions in * by lia.
      rewrite add64_small, sub64_small by (unfold_words; lia). rewrite insertion_index_npos by lia. f_equal. lia. }
    rewrite Hpos. eexists. split; [done|]. split; [|done].
    split; [apply Hfiles|]. split; [intros Hf; cbn in Hf; congruence|].
    cbn [set_leaf_set leaf_set prune_list]. apply Hview. intros x Hin. apply in_add in Hin; [|lia].
    destruct Hin as [->|Hin].
    + replace (npos 0 k + 1 - 1) with (npos 0 k) by lia. pose proof (npos0_mono k (k + 1)).
      split; [lia|]. split; [rewrite is_leaf_npos by lia; done|by apply not_pruned_behind].
    + destruct (Hls x Hin) as (? & ? & ?). pose proof (npos0_mono k (k + 1)). split; [lia|done].
  - eexists. split; [done|]. split; [|done]. split; [apply (Hfiles (leaf_set pb))|]. split; [|].
    + intros _. by apply Hu.
    + apply Hview. intros x Hin. by destruct (Hu Hp x).
Qed.

(** ** Spending, rewinding *)

Lemma remove_ok pb jh jd hs ds n p :
  store_ok pb jh jd hs ds n -> prunable pb = true -> 0 <= p < 2 ^ 31 ->
  exists pb', remove pb p = Ok pb' /\ store_ok pb' jh jd hs ds n /\
    prune_list pb' = prune_list pb /\
    forall x, 0 <= x < 2 ^ 31 -> includes (leaf_set pb') x = true <-> x <> p /\ includes (leaf_set pb) x = true.
Proof.
  intros (Hf & Hu & [? ? ? ? Hl ? ?]) Hp Hr. unfold remove. rewrite Hp. cbn [negb]. eexists. split; [done|].
  split; [|split; [done|]].
  - split; [done|]. split; [intros Hfalse; cbn in Hfalse; congruence|]. cbn [set_leaf_set prune_list leaf_set].
    split; try done. intros x Hx. apply in_remove in Hx; [|lia]. apply Hl, Hx.
  - intros x Hx. cbn [set_leaf_set leaf_set]. rewrite !includes_spec, in_remove by lia. split; intros [? ?]; (split; [lia|done]).
Qed.

Lemma count_mono_stays (P : Z -> Prop) {dP : forall x, Decision (P x)} a b : 0 <= a <= b -> count P 0 a <= count P 0 b.
Proof. intros. by apply count_le. Qed.

Lemma content_rewind {A} (j : journal A) (n : nat) :
  pending j = [] -> (n <= length (content j))%nat -> (n <= start j)%nat /\ content (j_rewind j n) = take n (content j).
Proof.
  intros Hp Hn. unfold content, j_rewind in *. rewrite Hp in *. cbn [start synced pending]. rewrite app_nil_r in *.
  rewrite length_take in Hn. split; [lia|]. rewrite app_nil_r, take_take. f_equal. lia.
Qed.

Lemma rewind_shifts pb jh jd hs ds n k :
  store_ok pb jh jd hs ds n -> 0 <= k -> npos 0 k <= n -> Forall (fun r => r < npos 0 k) (roots (prune_list pb)) ->
  let position := npos 0 k in
  (if position =? 0 then Ok 0 else ran (get_shift (prune_list pb) (sub64 position 1))) =
    Ok (position - count (stays (prune_list pb)) 0 position) /\
  (if position =? 0 then Ok 0 else ran (get_leaf_shift (prune_list pb) position)) =
    Ok (k - count (leaf_stays (prune_list pb)) 0 position).
Proof.
  intros Hst Hk Hle Hr position. pose proof (st_size _ _ _ _ _ _ Hst) as Hn. pose proof (st_prune _ _ _ _ _ _ Hst) as Hok.
  pose proof (npos0_ge k Hk). subst position. destruct (Z.eqb_spec (npos 0 k) 0) as [E0|E0].
  { assert (k = 0) as -> by lia. by rewrite !count_empty by lia. }
  rewrite sub64_small by (unfold_words; lia).
  destruct (total_shifts (prune_list pb) (npos 0 k) (npos 0 k - 1) Hok Hr) as [-> _]; [lia|lia|eapply Forall_impl; [exact Hr|]; simpl; lia|].
  destruct (total_shifts (prune_list pb) (npos 0 k) (npos 0 k) Hok Hr) as [_ ->]; [lia|lia|eapply Forall_impl; [exact Hr|]; simpl; lia|].
  rewrite count_leaf_positions by lia. done.
Qed.

Lemma rewind_ok pb jh jd hs ds n k rm :
  store_ok pb jh jd hs ds n -> 0 <= k -> npos 0 k <= n ->
  pending jh = [] -> pending jd = [] -> Forall (fun r => r < npos 0 k) (roots (prune_list pb)) ->
  (forall x, bm_in x rm -> 1 <= x <= npos 0 k /\ is_leaf (x - 1) = true /\ ~ pruned (roots (prune_list pb)) (x - 1)) ->
  exists pb', rewind pb (npos 0 k) rm = Ok pb' /\
    store_ok pb' (j_rewind jh (Z.to_nat (count (stays (prune_list pb)) 0 (npos 0 k))))
      (j_rewind jd (Z.to_nat (count (leaf_stays (prune_list pb)) 0 (npos 0 k)))) hs ds (npos 0 k) /\
    prune_list pb' = prune_list pb /\ prunable pb' = prunable pb /\ prun_disk pb' = prun_disk pb /\
    bitmap_bak (leaf_set pb') = bitmap_bak (leaf_set pb) /\
    leaf_set pb' = if prunable pb then LeafSet.rewind (leaf_set pb) (npos 0 k) rm else leaf_set pb.
Proof.
  intros Hst Hk Hle Hph Hpd Hr Hrm. pose proof Hst as ((Hh & Hhk & Hd) & Hu & [Hok Hpath _ Hn Hl Hhash Hdata]).
  pose proof (npos0_ge k Hk). destruct (rewind_shifts _ _ _ _ _ _ k Hst Hk Hle Hr) as [Es El].
  unfold rewind. set (pb0 := if prunable pb then _ else _).
  assert (Hpb0 : prune_list pb0 = prune_list pb /\ hash_file pb0 = hash_file pb /\ data_file pb0 = data_file pb /\
    prunable pb0 = prunable pb /\ prun_disk pb0 = prun_disk pb /\
    leaf_set pb0 = if prunable pb then LeafSet.rewind (leaf_set pb) (npos 0 k) rm else leaf_set pb)
    by (subst pb0; destruct (prunable pb) eqn:Ep; cbn; by split_and!).
  destruct Hpb0 as (E1 & E2 & E3 & E4 & E5 & E6). rewrite E1, E2, E3, Es, El. cbn [rbind].
  set (ch := count (stays (prune_list pb)) 0 (npos 0 k)) in *. set (cd := count (leaf_stays (prune_list pb)) 0 (npos 0 k)) in *.
  assert (Hch : 0 <= ch <= npos 0 k) by (split; [apply count_nonneg|pose proof (count_upper (stays (prune_list pb)) 0 (npos 0 k)); lia]).
  assert (Hcd : 0 <= cd <= k).
  { split; [apply count_nonneg|]. pose proof (count_leaf_stays (prune_list pb) 0 (npos 0 k)) as Hc.
    rewrite count_leaf_positions in Hc by lia.
    pose proof (count_nonneg (fun x => compacted (roots (prune_list pb)) x /\ is_leaf x = true) 0 (npos 0 k)). lia. }
  rewrite n_leaves_npos by lia. rewrite !sub64_small by (unfold_words; lia).
  replace (npos 0 k - (npos 0 k - ch)) with (Z.of_nat (Z.to_nat ch)) by lia.
  replace (k - (k - cd)) with (Z.of_nat (Z.to_nat cd)) by lia.
  destruct (content_rewind jh (Z.to_nat ch) Hph) as [Hsh Hch'].
  { rewrite Hhash. pose proof (view_length (stays (prune_list pb)) hs n). pose proof (count_le (stays (prune_list pb)) 0 (npos 0 k) n). lia. }
  destruct (content_rewind jd (Z.to_nat cd) Hpd) as [Hsd Hcd'].
  { rewrite Hdata. pose proof (view_length (leaf_stays (prune_list pb)) ds n). pose proof (count_le (leaf_stays (prune_list pb)) 0 (npos 0 k) n). lia. }
  destruct (file_rewind v hash_ok hash_bytes jh _ _ Hh Hph Hsh) as [Hh' Hhk'].
  destruct (file_rewind v ok enc jd _ _ Hd Hpd Hsd) as [Hd' _].
  eexists. split; [done|]. cbn [set_files prune_list prunable prun_disk leaf_set].
  split; [|split_and!; try done; rewrite E6; by destruct (prunable pb)].
  split; [split; [done|split; [by rewrite <- Hhk|done]]|]. unfold leaves_used. cbn [set_files prune_list prunable leaf_set].
  rewrite E1, E4, E6. split.
  - intros Hp x. rewrite Hp. by apply Hu.
  - split; [done|done|done|lia| |rewrite Hch', Hhash; apply view_take; lia|rewrite Hcd', Hdata; apply view_take; lia].
    intros x. destruct (prunable pb) eqn:Hp; [|intros Hx; by destruct (Hu Hp x)].
    unfold LeafSet.rewind. cbn [leaf_bitmap]. rewrite rewound_spec by (try lia; intros y Hy; apply Hl in Hy; lia).
    intros [[Hx Hxk]|Hx]; [|by apply Hrm]. destruct (Hl x Hx) as (? & ? & ?). split; [lia|done].
Qed.

(** ** Pruned subtrees *)

Lemma append_loop_once fuel pl p :
  default 0 (bm_maximum (bitmap pl)) <= p -> PruneList.is_pruned pl (snd (family p)) = false ->
  append_loop (S fuel) pl p = append_single (cleanup_subtree pl p) p.
Proof.
  intros Hm Hs. cbn [append_loop]. destruct (Z.ltb_spec p (default 0 (bm_maximum (bitmap pl)))); [lia|].
  rewrite (surjective_pairing (family p)). by rewrite Hs.
Qed.

Lemma append_once pl p :
  prune_ok pl -> root_ok p -> Forall (fun r => r < fst (bintree_range p)) (roots pl) ->
  ~ pruned (roots pl) (snd (family p)) ->
  exists pl', PruneList.append pl p = Some pl' /\ path pl' = path pl /\ prune_ok pl' /\ roots pl' = roots pl ++ [p].
Proof.
  intros Hok Hp Hlt Hs. pose proof (root_ok_bounds p Hp) as Hb. pose proof (range_fst_le p Hb).
  assert (Hrs : forall r, r ∈ roots pl -> r < fst (bintree_range p)) by (by apply Forall_forall).
  assert (Hsb : 0 <= snd (family p) < 2 ^ 32 - 1).
  { destruct (npos_surj p) as (h & q & Hh & Hq & ->); [unfold in_bounds in Hb; lia|]. by apply sibling_bounds. }
  unfold PruneList.append. rewrite append_loop_once.
  - destruct (append_subtree_spec pl p Hok Hp) as (pl' & E' & Hpath & Hok' & Hr).
    + intros r Hr. specialize (Hrs r Hr). lia.
    + intros Hin. apply Hs. exists (snd (family p)). split; [done|]. apply under_refl.
      by apply (roots_bounds _ _ (proj1 (ok_roots pl Hok))).
    + exists pl'. split_and!; [done..|]. rewrite Hr, filter_all; [done|].
      eapply Forall_impl; [exact Hlt|]. simpl. lia.
  - apply maximum_le; [unfold root_ok in Hp; lia|]. intros r Hr. specialize (Hrs r Hr). lia.
  - rewrite <- not_true_iff_false, is_pruned_spec by (apply Hok || done). done.
Qed.

Lemma append_hash_file pb jh jd h :
  files_ok pb jh jd -> hash_ok h -> small hash_bytes (j_append jh [h]) ->
  exists hf size, DataFile.append (hash_file pb) h = Ok (size, hf) /\
    files_ok (set_files pb hf (data_file pb)) (j_append jh [h]) jd.
Proof.
  intros (Hh & Hhk & Hd) Hok Hs. destruct (file_append v hash_ok hash_bytes jh _ h Hh Hok) as (hf & E' & Hh' & Hhk').
  - by rewrite Hhk.
  - done.
  - eexists hf, _. split; [exact E'|]. split; [done|]. split; [|done]. cbn [set_files hash_file]. by rewrite Hhk'.
Qed.

(** A parent that follows its subtree. *)
Lemma append_hash_ok pb jh jd hs ds n h :
  store_ok pb jh jd hs ds n -> n + 1 <= 2 ^ 31 - 64 -> is_leaf n = false ->
  hash_ok h -> small hash_bytes (j_append jh [h]) ->
  exists pb', append_hash pb h = Ok pb' /\
    store_ok pb' (j_append jh [h]) jd (extend hs n [h]) ds (n + 1) /\ prune_list pb' = prune_list pb.
Proof.
  intros (Hf & Hu & [Hok Hpath Hr Hn Hl Hhash Hdata]) Hmax Hleaf Hh Hs.
  destruct (append_hash_file pb jh jd h Hf Hh Hs) as (hf & size & E' & Hf'). unfold append_hash. rewrite E'. cbn [io rbind].
  eexists. split; [done|]. split; [|done]. split; [done|]. split; [done|]. cbn [set_files prune_list leaf_set].
  split; [done|done| |lia| | |].
  - eapply Forall_impl; [exact Hr|]. simpl. lia.
  - intros x Hx. destruct (Hl x Hx) as (? & ? & ?). split; [lia|done].
  - rewrite content_app, Hhash. rewrite <- view_extend by (done || lia). done.
  - rewrite Hdata. rewrite (view_app _ _ n (n + 1)) by lia. replace (n + 1 - n) with 1 by lia.
    rewrite (seqZ_cons n 1), (seqZ_nil (Z.succ n)) by lia. rewrite filter_cons_False; [by rewrite app_nil_r|].
    intros [? _]. congruence.
Qed.

(** A subtree that was pruned by the peer it comes from: only its root is stored. *)
Lemma append_pruned_subtree_ok pb jh jd hs ds h p :
  let n := fst (bintree_range p) in
  store_ok pb jh jd hs ds n -> prunable pb = true -> 0 <= p < 2 ^ 31 - 64 -> is_leaf p = false ->
  ~ pruned (roots (prune_list pb)) (snd (family p)) -> hash_ok h -> small hash_bytes (j_append jh [h]) ->
  exists pb', append_pruned_subtree pb h p = Ok pb' /\
    store_ok pb' (j_append jh [h]) jd (fun x => if x =? p then h else hs x) ds (p + 1) /\
    roots (prune_list pb') = roots (prune_list pb) ++ [p].
Proof.
  intros n (Hf & Hu & [Hok Hpath Hr Hn Hl Hhash Hdata]) Hp Hmax Hleaf Hsib Hh Hs.
  destruct (append_hash_file pb jh jd h Hf Hh Hs) as (hf & size & E' & Hf').
  assert (Hro : root_ok p) by (unfold root_ok; lia). pose proof (root_ok_bounds p Hro) as Hb.
  pose proof (range_fst_le p Hb) as Hle. fold n in Hle.
  destruct (append_once (prune_list pb) p Hok Hro Hr Hsib) as (pl' & Ea & Hpath' & Hok' & Hroots).
  unfold append_pruned_subtree. rewrite Hp. cbn [negb]. unfold append_hash. rewrite E'. cbn [io rbind set_files prune_list].
  rewrite Ea. cbn [ran ok_or rbind]. eexists. split; [done|]. split; [|done].
  assert (Hpr : forall x, pruned (roots pl') x <-> pruned (roots (prune_list pb)) x \/ n <= x <= p).
  { intros x. rewrite Hroots. unfold pruned. setoid_rewrite elem_of_app. setoid_rewrite list_elem_of_singleton.
    pose proof (under_range p x Hb). fold n in H. split.
    - intros (r & [Hr'| ->] & Hu'); [left; by exists r|right; tauto].
    - intros [(r & Hr' & Hu')|Hx]; [exists r; tauto|exists p; tauto]. }
  assert (Hbefore : forall x, x < n -> compacted (roots pl') x <-> compacted (roots (prune_list pb)) x).
  { intros x Hx. unfold compacted. rewrite Hpr, Hroots, elem_of_app, list_elem_of_singleton.
    split; [intros [[?|?] ?]; [tauto|lia]|intros [? ?]; split; [tauto|]; intros [?|?]; [done|lia]]. }
  assert (Hin : forall x, n <= x < p -> compacted (roots pl') x).
  { intros x Hx. split; [apply Hpr; right; lia|]. rewrite Hroots, elem_of_app, list_elem_of_singleton.
    intros [Hr'|?]; [|lia]. rewrite Forall_forall in Hr. specialize (Hr x Hr'). simpl in Hr. lia. }
  assert (Hself : stays pl' p) by (intros [_ Hn']; apply Hn'; rewrite Hroots; apply elem_of_app; right; by left).
  assert (Hrange : seqZ n (p + 1 - n) = seqZ n (p - n) ++ [p]).
  { rewrite (seqZ_split n (p - n) (p + 1 - n)) by lia. f_equal. replace (n + (p - n)) with p by lia.
    replace (p + 1 - n - (p - n)) with 1 by lia. by rewrite (seqZ_cons p 1), (seqZ_nil (Z.succ p)) by lia. }
  split; [done|]. split; [intros Hfalse; cbn in Hfalse; congruence|].
  cbn [set_prune_list set_files prune_list leaf_set]. split; [done|congruence| |lia| | |].
  - rewrite Hroots. apply Forall_app. split; [|constructor; [lia|constructor]]. eapply Forall_impl; [exact Hr|]. simpl. lia.
  - intros x Hx. destruct (Hl x Hx) as (? & ? & ?). split; [lia|]. split; [done|]. rewrite Hpr. intros [?|?]; [done|lia].
  - rewrite content_app, Hhash. rewrite (view_app (stays pl') _ n) by lia. f_equal.
    + apply view_ext; [intros x Hx; unfold stays; by rewrite Hbefore by lia|]. intros x Hx _.
      destruct (Z.eqb_spec x p); [lia|done].
    + rewrite Hrange, filter_app, map_app, filter_none.
      * rewrite filter_cons_True by done. cbn. by rewrite Z.eqb_refl.
      * apply Forall_forall. intros x Hx%elem_of_seqZ Hs'. apply Hs', Hin. lia.
  - rewrite Hdata. rewrite (view_app (leaf_stays pl') _ n) by lia.
    rewrite (filter_none (leaf_stays pl')); [rewrite app_nil_r|].
    + apply view_ext; [|done]. intros x Hx. unfold leaf_stays. by rewrite Hbefore by lia.
    + apply Forall_forall. intros x Hx%elem_of_seqZ [Hlx Hs']. destruct (decide (x = p)) as [->|]; [congruence|].
      apply Hs', Hin. lia.
Qed.

(** ** Syncing and discarding *)

Lemma shows_roots pl pl' leaves lh ld hs ds n :
  shows pl leaves lh ld hs ds n -> prune_ok pl' -> path pl' = true -> roots pl' = roots pl ->
  shows pl' leaves lh ld hs ds n.
Proof.
  intros [Hok Hpath Hr Hn Hl Hhash Hdata] Hok' Hpath' E'. split; try done.
  - by rewrite E'.
  - by rewrite E'.
  - rewrite Hhash. apply view_ext; [|done]. intros p _. unfold stays. by rewrite E'.
  - rewrite Hdata. apply view_ext; [|done]. intros p _. unfold leaf_stays. by rewrite E'.
Qed.

Lemma discard_ok pb jh jd hs ds n hs0 ds0 n0 :
  store_ok pb jh jd hs ds n -> saved_ok pb jh jd hs0 ds0 n0 ->
  exists pb', discard pb = Some pb' /\ store_ok pb' (j_discard jh) (j_discard jd) hs0 ds0 n0.
Proof.
  intros ((Hh & Hhk & Hd) & Hu & _) (_ & pl & E' & Hsh). unfold discard. rewrite E'. cbn [mbind option_bind].
  eexists. split; [done|]. destruct (file_discard v hash_ok hash_bytes jh _ Hh) as [Hh' Hhk'].
  destruct (file_discard v ok enc jd _ Hd) as [Hd' _].
  split; [split; [done|split; [cbn [hash_file]; by rewrite Hhk'|done]]|]. split.
  - intros Hp x. cbn. split; by apply Hu.
  - cbn [prune_list leaf_set]. rewrite !content_discard. done.
Qed.

Lemma sync_ok pb jh jd hs ds n :
  store_ok pb jh jd hs ds n ->
  exists pb', sync pb = Ok pb' /\ store_ok pb' (j_flush jh) (j_flush jd) hs ds n /\
    saved_ok pb' (j_flush jh) (j_flush jd) hs ds n /\ at_rest pb' (j_flush jh) (j_flush jd) /\
    unpruned_size pb' = Some n /\ prune_list pb' = prune_list pb /\ prunable pb' = prunable pb /\
    leaf_bitmap (leaf_set pb') = leaf_bitmap (leaf_set pb) /\ elmt_size (data_file pb') = elmt_size (data_file pb) /\
    (prunable pb = true -> leaf_disk pb' = Some (leaf_bitmap (leaf_set pb'))) /\
    prun_disk pb' = Some (bitmap (prune_list pb')).
Proof.
  intros ((Hh & Hhk & Hd) & Hu & Hsh). pose proof Hsh as [Hok Hpath Hr Hn Hl Hhash Hdata].
  destruct (file_flush v hash_ok hash_bytes jh _ Hh) as (hf & Eh & Hh' & Hhk' & Hhc).
  destruct (file_flush v ok enc jd _ Hd) as (df & Ed & Hd' & Hdk & Hdc).
  unfold sync. rewrite Eh, Ed. cbn [io rbind]. eexists. split; [done|].
  set (pb0 := sync_leaf_set (set_files pb hf df)).
  assert (H0 : hash_file pb0 = hf /\ data_file pb0 = df /\ prune_list pb0 = prune_list pb /\ prunable pb0 = prunable pb /\
    leaf_bitmap (leaf_set pb0) = leaf_bitmap (leaf_set pb) /\
    bitmap_bak (leaf_set pb0) = (if prunable pb then leaf_bitmap (leaf_set pb) else bitmap_bak (leaf_set pb)) /\
    (prunable pb = true -> leaf_disk pb0 = Some (leaf_bitmap (leaf_set pb)))).
  { subst pb0. unfold sync_leaf_set. cbn [set_files prunable]. destruct (prunable pb) eqn:Ep; cbn; by split_and!. }
  destruct H0 as (E1 & E2 & E3 & E4 & E5 & E6 & E7). clearbody pb0.
  unfold store_ok, saved_ok, at_rest, files_ok, leaves_used, unpruned_size, hash_size.
  cbn [prunable hash_file data_file leaf_set prune_list leaf_disk prun_disk]. rewrite E1, E2, E3, E4, E5, E6.
  assert (Hbak : forall x, bm_in x (if prunable pb then leaf_bitmap (leaf_set pb) else bitmap_bak (leaf_set pb)) ->
    bm_in x (leaf_bitmap (leaf_set pb))).
  { intros x Hx. destruct (prunable pb) eqn:Ep; [done|]. by destruct (Hu Ep x). }
  split; [split; [split; [done|split; [congruence|done]]|split; [|by rewrite !content_flush]]|].
  - intros Hp x. rewrite Hp. by apply Hu.
  - split; [split; [done|]|split; [done|]].
    + destruct (rebuild_same (prune_list pb) Hok) with (pth := true) as (pl' & En & Hok' & Hroots & Hpth).
      { eapply Forall_impl; [exact Hr|]. simpl. lia. }
      exists pl'. split.
      * unfold PruneList.discard, PruneList.flush. by rewrite Hpath.
      * destruct (shows_roots _ pl' _ _ _ _ _ _ Hsh Hok' Hpth Hroots) as [? ? ? ? Hl' ? ?].
        split; try done. intros x Hx. apply Hl', Hbak, Hx.
    + destruct (get_totals (prune_list pb) n Hok Hr ltac:(lia)) as [Ht _]. rewrite Ht. cbn [mbind option_bind].
      rewrite (file_size v hash_ok hash_bytes _ _ Hh'). cbn [synced j_flush]. rewrite Hhash, view_length.
      pose proof (count_nonneg (stays (prune_list pb)) 0 n). pose proof (count_upper (stays (prune_list pb)) 0 n ltac:(lia)).
      rewrite add64_small by (unfold_words; lia). split; [f_equal; lia|]. split_and!; try done.
      unfold PruneList.flush. by rewrite Hpath.
Qed.

(** ** Compaction *)

Lemma mapM_map {A B} (f : A -> option B) (g : A -> B) l :
  (forall x, x ∈ l -> f x = Some (g x)) -> mapM f l = Some (map g l).
Proof.
  induction l as [|x l IH]; intros Hf; [done|]. cbn [mapM map]. rewrite Hf by (by left).
  rewrite IH by (intros; apply Hf; by right). done.
Qed.

(** The positions in a file of the positions [xs] to remove. *)
Definition file_index (P : Z -> Prop) {dP : forall x, Decision (P x)} (pos1 : Z) : Z := 1 + count P 0 (pos1 - 1).

Lemma file_index_lt (P : Z -> Prop) {dP : forall x, Decision (P x)} x y :
  1 <= x < y -> P (x - 1) -> file_index P x < file_index P y.
Proof.
  intros Hx HP. unfold file_index. rewrite (count_split P 0 (x - 1) (y - 1)) by lia.
  rewrite (count_split P (x - 1) (x - 1 + 1) (y - 1)), count_step by (done || lia).
  pose proof (count_nonneg P (x - 1 + 1) (y - 1)). lia.
Qed.

Lemma file_index_inj (P : Z -> Prop) {dP : forall x, Decision (P x)} x y :
  1 <= x -> 1 <= y -> P (x - 1) -> P (y - 1) -> file_index P x = file_index P y -> x = y.
Proof.
  intros Hx Hy HPx HPy E'. destruct (Z.lt_trichotomy x y) as [Hlt|[?|Hgt]]; [|done|].
  - pose proof (file_index_lt P x y ltac:(lia) HPx). lia.
  - pose proof (file_index_lt P y x ltac:(lia) HPy). lia.
Qed.

Lemma file_indices (P Q : Z -> Prop) {dP : forall x, Decision (P x)} {dQ : forall x, Decision (Q x)}
    {A} (f : Z -> A) xs n :
  StronglySorted Z.lt xs -> 0 <= n < 2 ^ 31 ->
  (forall x, x ∈ xs -> 1 <= x <= 2 ^ 31 /\ P (x - 1)) ->
  (forall p, 0 <= p < n -> P p -> p + 1 ∈ xs <-> ~ Q p) ->
  let del := map (file_index P) xs in
  StronglySorted Z.lt del /\ Forall (fun x => 1 <= x < 2 ^ 64) del /\
  kept 1 del (view P f n) = view (fun p => P p /\ Q p) f n.
Proof.
  intros Hs Hn Hxs Hdel del. split; [|split].
  - clear Hdel. subst del. induction Hs as [|x xs Hs IH Hx]; [constructor|]. cbn [map]. constructor.
    + apply IH. intros y Hy. apply Hxs. by right.
    + apply Forall_map, Forall_forall. intros y Hy. rewrite Forall_forall in Hx. specialize (Hx y Hy).
      destruct (Hxs x ltac:(by left)). apply file_index_lt; [lia|done].
  - apply Forall_map, Forall_forall. intros x Hx. destruct (Hxs x Hx). unfold file_index.
    pose proof (count_nonneg P 0 (x - 1)). pose proof (count_upper P 0 (x - 1) ltac:(lia)). lia.
  - unfold view. apply kept_view; [lia|]. intros p Hp HP. rewrite <- Hdel by (done || lia). subst del.
    rewrite elem_of_map. split.
    + intros (x & Ex & Hx). destruct (Hxs x Hx) as [Hx1 HPx].
      assert (x = p + 1) as <-; [|done].
      apply (file_index_inj P); [lia|lia|done|by replace (p + 1 - 1) with p by lia|].
      unfold file_index at 2. replace (p + 1 - 1) with p by lia. lia.
    + intros Hp1. exists (p + 1). split; [|done]. unfold file_index. by replace (p + 1 - 1) with p by lia.
Qed.

Lemma compacted_parent pl h q :
  prune_ok pl -> 0 <= h -> 0 <= q -> npos h q < 2 ^ 32 ->
  compacted (roots pl) (npos h q) <-> pruned (roots pl) (npos (h + 1) (q / 2)).
Proof.
  intros Hok Hh Hq Hp. pose proof (npos_pos h q Hh Hq). assert (0 <= q / 2) by (apply Z.div_pos; lia).
  pose proof (parent_in_bounds h q Hh Hq Hp).
  rewrite (compacted_full pl Hok h q), full_none; try done; try lia. unfold in_bounds; lia.
Qed.

(** More leaves pruned, more positions compacted. *)
Lemma compacted_mono pl pl' p :
  prune_ok pl -> prune_ok pl' -> 0 <= p < 2 ^ 31 ->
  (forall n, 0 <= n -> pruned (roots pl) (npos 0 n) -> pruned (roots pl') (npos 0 n)) ->
  compacted (roots pl) p -> compacted (roots pl') p.
Proof.
  intros Hok Hok' Hp Hmono. destruct (npos_surj p ltac:(lia)) as (h & q & Hh & Hq & ->).
  assert (0 <= q / 2) by (apply Z.div_pos; lia). pose proof (parent_in_bounds h q Hh Hq ltac:(lia)) as Hb.
  rewrite !compacted_parent by (done || lia). rewrite !pruned_iff_leaves by (done || lia).
  intros Hall m Hm. pose proof (pow2_pos (h + 1) ltac:(lia)). apply Hmono; [nia|]. by apply Hall.
Qed.

(** A list whose pruned leaves are before [npos 0 k] has its roots there. *)
Lemma roots_before pl k :
  prune_ok pl -> 0 <= k -> (forall m, 0 <= m -> pruned (roots pl) (npos 0 m) -> m < k) ->
  Forall (fun r => r < npos 0 k) (roots pl).
Proof.
  intros Hok Hk Hm. apply Forall_forall. intros r Hr.
  destruct (roots_bounds _ _ (proj1 (ok_roots pl Hok)) Hr) as [Hro Hb]. unfold root_ok in Hro.
  destruct (npos_surj r ltac:(lia)) as (h & q & Hh & Hq & ->).
  assert (Hl : 0 <= last_leaf h q < k).
  { unfold last_leaf. pose proof (pow2_pos h Hh). split; [nia|]. apply Hm; [nia|]. exists (npos h q). split; [done|].
    apply under_leaf; [done|done|nia|done|]. lia. }
  apply npos_lt_leaf; [done..|]. unfold last_leaf in Hl. lia.
Qed.

Lemma hash_positions pb xs :
  prune_ok (prune_list pb) -> (forall x, x ∈ xs -> 1 <= x <= 2 ^ 31 /\ stays (prune_list pb) (x - 1)) ->
  mapM (file_pos pb) xs = Some (map (file_index (stays (prune_list pb))) xs).
Proof.
  intros Hok Hxs. apply mapM_map. intros x Hx. destruct (Hxs x Hx) as [Hx1 Hs]. unfold file_pos.
  rewrite sub64_small by (unfold_words; lia). rewrite (hash_shift _ (x - 1)) by (done || lia). cbn [mbind option_bind].
  pose proof (count_nonneg (stays (prune_list pb)) 0 (x - 1)).
  pose proof (count_upper (stays (prune_list pb)) 0 (x - 1) ltac:(lia)).
  rewrite sub64_small by (unfold_words; lia). unfold file_index. f_equal. lia.
Qed.

Lemma leaf_positions pb xs :
  prune_ok (prune_list pb) -> (forall x, x ∈ xs -> 1 <= x <= 2 ^ 31 /\ leaf_stays (prune_list pb) (x - 1)) ->
  mapM (leaf_file_pos pb) xs = Some (map (file_index (leaf_stays (prune_list pb))) xs).
Proof.
  intros Hok Hxs. apply mapM_map. intros x Hx. destruct (Hxs x Hx) as [Hx1 [Hl Hs]]. unfold leaf_file_pos.
  destruct (leaf_npos (x - 1) ltac:(lia) Hl) as (m & Hm & Em). pose proof (npos0_ge m Hm). rewrite Em in Hs.
  replace x with (npos 0 m + 1) by lia.
  rewrite (leaf_shift_stays _ m) by (done || lia). cbn [mbind option_bind]. rewrite n_leaves_after by lia.
  pose proof (count_nonneg (leaf_stays (prune_list pb)) 0 (npos 0 m)).
  pose proof (count_leaf_stays (prune_list pb) 0 (npos 0 m)) as Hc. rewrite count_leaf_positions in Hc by lia.
  pose proof (count_nonneg (fun x => compacted (roots (prune_list pb)) x /\ is_leaf x = true) 0 (npos 0 m)).
  rewrite sub64_small by (unfold_words; lia). unfold file_index. replace (npos 0 m + 1 - 1) with (npos 0 m) by lia.
  f_equal. lia.
Qed.

Definition compact_leaf pb (cutoff : Z) (rm : BM) (l : Z) : bool :=
  (l <? cutoff) && negb (includes (leaf_set pb) l) && negb (bm_contains rm (l + 1)).

Section compaction.
Context pb jh jd hs ds (k cutoff : Z) (rm : BM) pl'.
Hypothesis Hst : store_ok pb jh jd hs ds (npos 0 k).
Hypothesis Hk : 0 <= k.
Hypothesis Hrest : at_rest pb jh jd.
Hypothesis Hcut : 0 <= cutoff <= npos 0 k.
Hypothesis Hok' : prune_ok pl'.
Hypothesis Hpath' : path pl' = true.
Hypothesis Hleaves : forall n, 0 <= n -> pruned (roots pl') (npos 0 n) <->
  gone (prune_list pb) n \/ bm_in (npos 0 n + 1) (removed_pre_cutoff (leaf_set pb) cutoff rm (prune_list pb)).

Lemma st_ge1 y : bm_in y (leaf_bitmap (leaf_set pb)) -> 1 <= y.
Proof. intros Hy. destruct Hst as (_ & _ & Hsh). apply (sh_leaves _ _ _ _ _ _ _ Hsh) in Hy. lia. Qed.

Lemma st_roots31 : Forall (fun r => r < 2 ^ 31 - 64) (roots (prune_list pb)).
Proof.
  pose proof (st_size _ _ _ _ _ _ Hst). eapply Forall_impl; [exact (st_roots _ _ _ _ _ _ Hst)|]. simpl. lia.
Qed.

Lemma cutoff_small : 0 <= cutoff <= 2 ^ 31 - 64.
Proof. pose proof (st_size _ _ _ _ _ _ Hst). lia. Qed.

Lemma st_removed x :
  bm_in x (snd (pos_to_rm pb cutoff rm)) <->
  1 <= x <= 2 ^ 31 /\ compacted (roots pl') (x - 1) /\ stays (prune_list pb) (x - 1).
Proof.
  apply (pos_to_rm_spec (prune_list pb) (st_prune _ _ _ _ _ _ Hst) pb eq_refl st_roots31 st_ge1 cutoff rm
    cutoff_small pl' Hok' Hleaves).
Qed.

Lemma stays_mono p : 0 <= p < 2 ^ 31 -> stays pl' p -> stays (prune_list pb) p.
Proof.
  intros Hp Hs Hc. apply Hs. apply (compacted_mono (prune_list pb) pl' p); [apply (st_prune _ _ _ _ _ _ Hst)|done..| |done].
  intros m Hm Hpr. apply Hleaves; [done|by left].
Qed.

Lemma removed_iff p :
  0 <= p < npos 0 k -> stays (prune_list pb) p -> p + 1 ∈ bm_iter (snd (pos_to_rm pb cutoff rm)) <-> ~ stays pl' p.
Proof.
  intros Hp Hs. pose proof (st_size _ _ _ _ _ _ Hst). etransitivity; [apply (st_removed (p + 1))|].
  replace (p + 1 - 1) with p by lia. unfold stays in *.
  destruct (decide (compacted (roots pl') p)) as [Hc|Hc]; [|tauto].
  split; [tauto|]. intros _. split; [lia|done].
Qed.

(** The leaves that are pruned now. *)
Lemma newly_pruned m :
  0 <= m -> npos 0 m < npos 0 k ->
  pruned (roots pl') (npos 0 m) <->
  pruned (roots (prune_list pb)) (npos 0 m) \/ compact_leaf pb cutoff rm (npos 0 m) = true.
Proof.
  intros Hm Hmk. pose proof (st_size _ _ _ _ _ _ Hst). pose proof (npos0_ge m Hm). pose proof cutoff_small.
  rewrite Hleaves by done. unfold gone.
  rewrite (L_spec (prune_list pb) (st_prune _ _ _ _ _ _ Hst) pb st_ge1 cutoff rm cutoff_small).
  replace (npos 0 m + 1 - 1) with (npos 0 m) by lia. rewrite rewound_spec by (try lia; exact st_ge1).
  unfold compact_leaf.
  rewrite !andb_true_iff, Z.ltb_lt, !negb_true_iff, <- !not_true_iff_false, includes_spec, bm_contains_iff by lia.
  rewrite is_leaf_npos by lia. change (0 =? 0) with true.
  destruct (decide (pruned (roots (prune_list pb)) (npos 0 m))) as [Hd|Hd]; [tauto|].
  split; intros [?|HH]; try tauto; right.
  - destruct HH as (Hx1 & _ & _ & Hx2). split_and!; [lia| |]; intros ?; apply Hx2; [left; split; [done|lia]|by right].
  - destruct HH as [[Hx1 Hx2] Hx3]. split_and!; [lia|lia|done|done|]. intros [[? _]|?]; done.
Qed.

Lemma gone_before m : 0 <= m -> pruned (roots pl') (npos 0 m) -> m < k.
Proof.
  intros Hm Hpr. apply npos0_lt_iff; [done..|]. apply Hleaves in Hpr; [|done]. destruct Hpr as [(r & Hr & Hu)|Hl].
  - destruct (roots_bounds _ _ (proj1 (ok_roots _ (st_prune _ _ _ _ _ _ Hst))) Hr) as [_ Hrb].
    pose proof (under_le _ _ Hu Hrb). pose proof (st_roots _ _ _ _ _ _ Hst) as Hr0.
    rewrite Forall_forall in Hr0. specialize (Hr0 r Hr). simpl in Hr0. lia.
  - apply (L_spec (prune_list pb) (st_prune _ _ _ _ _ _ Hst) pb st_ge1 cutoff rm cutoff_small) in Hl as (? & _). lia.
Qed.

Lemma shows_compacted :
  shows pl' (leaf_bitmap (leaf_set pb)) (view (stays pl') hs (npos 0 k)) (view (leaf_stays pl') ds (npos 0 k))
    hs ds (npos 0 k).
Proof.
  destruct Hst as (_ & _ & [Hok _ Hr Hn Hl _ _]). split; [done|done| |done| |done|done].
  - apply roots_before; [done..|]. apply gone_before.
  - intros x Hx. destruct (Hl x Hx) as (Hx1 & Hxl & Hxp). split; [done|]. split; [done|].
    destruct (leaf_npos (x - 1) ltac:(lia) Hxl) as (m & Hm & Em). rewrite Em in *.
    rewrite newly_pruned by (done || lia). intros [?|Hc]; [done|]. unfold compact_leaf in Hc.
    apply andb_true_iff in Hc as [[_ Hi]%andb_true_iff _]. apply negb_true_iff, not_true_iff_false in Hi.
    apply Hi. pose proof (npos0_ge m Hm). apply includes_spec; [lia|]. by replace (npos 0 m + 1) with x by lia.
Qed.

(** The compacted files. *)
Lemma prune_hash_file :
  let xs := bm_iter (snd (pos_to_rm pb cutoff rm)) in
  exists tmp hf, mapM (file_pos pb) xs = Some (map (file_index (stays (prune_list pb))) xs) /\
    DataFile.write_tmp_pruned (T := Hash) (hash_file pb) (map (file_index (stays (prune_list pb))) xs) = Ok tmp /\
    DataFile.replace_with_tmp (T := Hash) (hash_file pb) tmp = Ok hf /\
    rep v hash_ok hash_bytes (synced_file (view (stays pl') hs (npos 0 k))) hf /\
    elmt_size hf = Some HASH_SIZE /\ clean hf.
Proof.
  intros xs. pose proof Hst as ((Hh & Hhk & _) & _ & Hsh). pose proof (st_size _ _ _ _ _ _ Hst).
  destruct Hrest as (Hph & _ & Hc & _).
  assert (Hxs : forall x, x ∈ xs -> 1 <= x <= 2 ^ 31 /\ stays (prune_list pb) (x - 1)).
  { intros x Hx. apply st_removed in Hx. split; [lia|apply Hx]. }
  destruct (file_indices (stays (prune_list pb)) (stays pl') hs xs (npos 0 k) (bm_sorted _) ltac:(lia) Hxs removed_iff)
    as (Hs1 & Hs2 & Hs3).
  assert (Hreb : rebuildable v hash_ok hash_bytes (hash_file pb)).
  { unfold rebuildable, elmt_size in *. by destruct (size_info (hash_file pb)). }
  destruct (file_prune v hash_ok hash_bytes jh _ _ Hh Hc Hph Hreb Hs1 Hs2) as (tmp & hf & Ew & Er & Hh' & Hk' & Hc').
  pose proof (sh_hashes _ _ _ _ _ _ _ Hsh) as Hv.
  rewrite (synced_content jh (clean_synced v hash_ok hash_bytes jh _ Hh Hc Hph)) in Hv. rewrite Hv, Hs3 in Hh'.
  exists tmp, hf. split; [by apply hash_positions; [apply (st_prune _ _ _ _ _ _ Hst)|]|].
  split; [done|]. split; [done|]. split; [|split; [congruence|done]].
  rewrite (view_ext (stays pl') (fun p => stays (prune_list pb) p /\ stays pl' p) hs hs); [done| |done].
  intros p Hp. split; [|tauto]. intros Hs. split; [apply stays_mono; [lia|done]|done].
Qed.

Lemma prune_data_file :
  rebuildable v ok enc (data_file pb) ->
  let xs := filter (fun x => is_leaf (sub64 x 1) = true) (bm_iter (snd (pos_to_rm pb cutoff rm))) in
  exists tmp df, mapM (leaf_file_pos pb) xs = Some (map (file_index (leaf_stays (prune_list pb))) xs) /\
    DataFile.write_tmp_pruned (T := E) (data_file pb) (map (file_index (leaf_stays (prune_list pb))) xs) = Ok tmp /\
    DataFile.replace_with_tmp (T := E) (data_file pb) tmp = Ok df /\
    rep v ok enc (synced_file (view (leaf_stays pl') ds (npos 0 k))) df /\
    elmt_size df = elmt_size (data_file pb) /\ clean df.
Proof.
  intros Hreb xs. pose proof Hst as ((_ & _ & Hd) & _ & Hsh). pose proof (st_size _ _ _ _ _ _ Hst).
  destruct Hrest as (_ & Hpd & _ & Hc).
  assert (Hxs : forall x, x ∈ xs -> 1 <= x <= 2 ^ 31 /\ leaf_stays (prune_list pb) (x - 1)).
  { intros x Hx. apply list_elem_of_filter in Hx as [Hx1 Hx2]. apply st_removed in Hx2 as (? & _ & ?).
    rewrite sub64_small in Hx1 by (unfold_words; lia). split; [lia|done]. }
  assert (Hdel : forall p, 0 <= p < npos 0 k -> leaf_stays (prune_list pb) p -> p + 1 ∈ xs <-> ~ stays pl' p).
  { intros p Hp [Hl Hs]. rewrite <- removed_iff by done. unfold xs. rewrite list_elem_of_filter.
    rewrite sub64_small by (unfold_words; lia). replace (p + 1 - 1) with p by lia. tauto. }
  destruct (file_indices (leaf_stays (prune_list pb)) (stays pl') ds xs (npos 0 k)) as (Hs1 & Hs2 & Hs3);
    [apply sorted_lt_filter, bm_sorted|lia|done|done|].
  destruct (file_prune v ok enc jd _ _ Hd Hc Hpd Hreb Hs1 Hs2) as (tmp & df & Ew & Er & Hd' & Hk' & Hc').
  pose proof (sh_data _ _ _ _ _ _ _ Hsh) as Hv.
  rewrite (synced_content jd (clean_synced v ok enc jd _ Hd Hc Hpd)) in Hv. rewrite Hv, Hs3 in Hd'.
  exists tmp, df. split; [by apply leaf_positions; [apply (st_prune _ _ _ _ _ _ Hst)|]|].
  split; [done|]. split; [done|]. split; [|done].
  rewrite (view_ext (leaf_stays pl') (fun p => leaf_stays (prune_list pb) p /\ stays pl' p) ds ds); [done| |done].
  intros p Hp. unfold leaf_stays. split; [|unfold stays; tauto].
  intros [Hl Hs]. split; [split; [done|apply stays_mono; [lia|done]]|done].
Qed.
End compaction.

Lemma check_compact_ok pb jh jd hs ds k cutoff rm :
  store_ok pb jh jd hs ds (npos 0 k) -> 0 <= k -> at_rest pb jh jd -> prunable pb = true ->
  rebuildable v ok enc (data_file pb) -> 0 <= cutoff <= npos 0 k ->
  exists pb' jh' jd', check_compact (E := E) pb cutoff rm = Ok (true, pb') /\
    store_ok pb' jh' jd' hs ds (npos 0 k) /\ at_rest pb' jh' jd' /\
    prunable pb' = true /\ leaf_bitmap (leaf_set pb') = leaf_bitmap (leaf_set pb) /\
    forall m, 0 <= m -> npos 0 m < npos 0 k ->
      pruned (roots (prune_list pb')) (npos 0 m) <->
      pruned (roots (prune_list pb)) (npos 0 m) \/ compact_leaf pb cutoff rm (npos 0 m) = true.
Proof.
  intros Hst Hk Hrest Hp Hreb Hcut. pose proof (st_prune _ _ _ _ _ _ Hst) as Hok.
  pose proof (st_roots31 _ _ _ _ _ _ Hst) as Hr31. pose proof (st_ge1 _ _ _ _ _ _ Hst) as Hge1.
  pose proof (cutoff_small _ _ _ _ _ _ _ Hst Hcut) as Hc31.
  destruct (new_list _ Hok pb Hr31 Hge1 cutoff rm Hc31) as (pl' & En & Hok' & Hpath' & Hleaves).
  destruct (prune_hash_file pb jh jd hs ds k cutoff rm pl' Hst Hrest Hcut Hok' Hleaves) as (tmph & hf & Eh & Ewh & Erh & Hh' & Hhk' & Hhc).
  destruct (prune_data_file pb jh jd hs ds k cutoff rm pl' Hst Hrest Hcut Hok' Hleaves Hreb) as (tmpd & df & Ed & Ewd & Erd & Hd' & _ & Hdc).
  pose proof (shows_compacted pb jh jd hs ds k cutoff rm pl' Hst Hk Hcut Hok' Hpath' Hleaves) as Hsh.
  pose proof (newly_pruned pb jh jd hs ds k cutoff rm pl' Hst Hcut Hleaves) as Hnew.
  unfold check_compact. rewrite Hp. cbn [negb].
  assert (EL : fst (pos_to_rm pb cutoff rm) = removed_pre_cutoff (leaf_set pb) cutoff rm (prune_list pb)) by done.
  destruct (pos_to_rm pb cutoff rm) as [L rmv]. cbn [fst snd] in *. subst L.
  rewrite Eh. cbn [ran ok_or rbind]. rewrite Ewh. cbn [io rbind]. rewrite Ed. cbn [ran ok_or rbind]. rewrite Ewd.
  cbn [io rbind]. rewrite Erh. cbn [io rbind]. rewrite Erd. cbn [io rbind].
  unfold new_prune_list. cbn [set_files prune_list prunable hash_file data_file leaf_set leaf_disk prun_disk].
  rewrite En. cbn [mbind option_bind ran ok_or rbind].
  eexists _, (synced_file (view (stays pl') hs (npos 0 k))), (synced_file (view (leaf_stays pl') ds (npos 0 k))).
  split; [reflexivity|]. cbn [flush_leaf_set LeafSet.flush prunable hash_file data_file leaf_set prune_list leaf_disk prun_disk].
  split; [|split_and!; done]. split; [done|]. split; [intros Hfalse; cbn in Hfalse; congruence|].
  cbn [leaf_bitmap leaf_set prune_list]. by rewrite !synced_content by done.
Qed.
End store.

(** * The MMR over the backend *)

Section mmr.
Context {T E : Type} {RE : Readable E} {WE : Writeable E} (as_elmt : T -> E) {PH : PMMRHash T Hash}.
Context (v : ProtocolVersion) (ok : E -> Prop) (enc : E -> bytes) {C : Codec E v ok enc}.
#[local] Instance store_be : Backend T E Hash (PMMRBackend (gset Z)) := store_backend as_elmt.
Implicit Types (pb : PMMRBackend (gset Z)).

Lemma omap_ext_in {A B} (f g : A -> option B) (l : list A) : (forall x, x ∈ l -> f x = g x) -> omap f l = omap g l.
Proof.
  induction l as [|x l IH]; intros H; [done|]. cbn [omap list_omap]. rewrite (H x) by (by left).
  rewrite IH by (intros; apply H; by right). done.
Qed.

Lemma mmr_peak pb jh jd hs ds k p :
  store_ok v ok enc pb jh jd hs ds (npos 0 k) -> 0 <= k -> p ∈ peaks (npos 0 k) ->
  Pmmr.get_from_file (at_ pb (npos 0 k)) p = Some (hs p) /\
  Pmmr.get_peak_from_file (at_ pb (npos 0 k)) p = Some (hs p).
Proof.
  intros Hst Hk Hp. destruct (peak_compacted v ok enc _ _ _ _ _ _ _ Hst Hk Hp) as [Hlt Hc].
  unfold Pmmr.get_from_file, Pmmr.get_peak_from_file. cbn [at_ Pmmr.size backend].
  destruct (Z.leb_spec (npos 0 k) p); [lia|]. cbn [backend_get_from_file backend_get_peak_from_file store_be store_backend].
  rewrite (get_from_file_ok v ok enc _ _ _ _ _ _ Hst) by done. rewrite Hc. split; [done|].
  by apply (get_peak_ok v ok enc _ _ _ _ _ _ Hst).
Qed.

(** Two backends of the same MMR have the same peaks. *)
Lemma same_peaks pb pb' jh jd jh' jd' hs ds k p :
  store_ok v ok enc pb jh jd hs ds (npos 0 k) -> store_ok v ok enc pb' jh' jd' hs ds (npos 0 k) -> 0 <= k -> p ∈ peaks (npos 0 k) ->
  Pmmr.get_from_file (at_ pb (npos 0 k)) p = Pmmr.get_from_file (at_ pb' (npos 0 k)) p /\
  Pmmr.get_peak_from_file (at_ pb (npos 0 k)) p = Pmmr.get_peak_from_file (at_ pb' (npos 0 k)) p.
Proof.
  intros Hst Hst' Hk Hp. destruct (mmr_peak _ _ _ _ _ _ _ Hst Hk Hp) as [-> ->].
  by destruct (mmr_peak _ _ _ _ _ _ _ Hst' Hk Hp) as [-> ->].
Qed.

Lemma same_root pb pb' jh jd jh' jd' hs ds k :
  store_ok v ok enc pb jh jd hs ds (npos 0 k) -> store_ok v ok enc pb' jh' jd' hs ds (npos 0 k) -> 0 <= k ->
  root (at_ pb (npos 0 k)) = root (at_ pb' (npos 0 k)).
Proof.
  intros Hst Hst' Hk. unfold root, Pmmr.is_empty, Pmmr.unpruned_size, peaks_. cbn [at_ Pmmr.size].
  destruct (npos 0 k =? 0); [done|]. unfold Pmmr.unpruned_size. cbn [at_ Pmmr.size].
  rewrite (omap_ext_in _ (Pmmr.get_peak_from_file (at_ pb' (npos 0 k)))); [done|].
  intros p Hp. by eapply same_peaks.
Qed.

Lemma same_peak_path pb pb' jh jd jh' jd' hs ds k p :
  store_ok v ok enc pb jh jd hs ds (npos 0 k) -> store_ok v ok enc pb' jh' jd' hs ds (npos 0 k) -> 0 <= k ->
  peak_path (at_ pb (npos 0 k)) p = peak_path (at_ pb' (npos 0 k)) p.
Proof.
  intros Hst Hst' Hk. unfold peak_path, bag_the_rhs, Pmmr.unpruned_size. cbn [at_ Pmmr.size].
  rewrite (omap_ext_in (Pmmr.get_from_file (at_ pb (npos 0 k))) (Pmmr.get_from_file (at_ pb' (npos 0 k))));
    [|intros x [_ Hx]%list_elem_of_filter; by eapply same_peaks].
  rewrite (omap_ext_in (Pmmr.get_peak_from_file (at_ pb (npos 0 k))) (Pmmr.get_peak_from_file (at_ pb' (npos 0 k))));
    [done|]. intros x [_ Hx]%list_elem_of_filter. by eapply same_peaks.
Qed.

(** The siblings on the branch of a leaf. *)
Lemma climb_siblings fuel h n size :
  0 <= h -> 0 <= n -> npos h (n / 2 ^ h) < size <= 2 ^ 32 ->
  Forall (fun x => exists h', 0 <= h' /\ snd x = npos h' (sib (n / 2 ^ h')) /\ npos h' (n / 2 ^ h') < 2 ^ 32)
    (climb fuel (npos h (n / 2 ^ h)) size).
Proof.
  revert h. induction fuel as [|fuel IH]; intros h Hh Hn Hs; [constructor|]. cbn [climb].
  assert (Hq : 0 <= n / 2 ^ h) by (apply Z.div_pos; [done|by apply pow2_pos]).
  pose proof (npos_pos h _ Hh Hq). rewrite family_npos by (try done; unfold in_bounds; lia).
  destruct (Z.ltb_spec (npos (h + 1) (n / 2 ^ h / 2)) size); [|constructor]. constructor.
  - exists h. split; [done|]. split; [|lia]. cbn [snd]. unfold sib. by destruct (Z.even _).
  - rewrite <- div_pow2_succ in * by done. apply IH; [lia|done|lia].
Qed.

Lemma sibling_not_compacted pb jh jd hs ds N h n :
  store_ok v ok enc pb jh jd hs ds N -> 0 <= h -> 0 <= n -> ~ pruned (roots (prune_list pb)) (npos 0 n) ->
  npos h (n / 2 ^ h) < 2 ^ 32 -> npos h (sib (n / 2 ^ h)) < 2 ^ 32 ->
  ~ compacted (roots (prune_list pb)) (npos h (sib (n / 2 ^ h))).
Proof.
  intros Hst Hh Hn Hnp Hb Hb' Hc. pose proof (st_prune v ok enc _ _ _ _ _ _ Hst) as Hok.
  assert (Hq : 0 <= n / 2 ^ h) by (apply Z.div_pos; [done|by apply pow2_pos]).
  destruct (sib_bounds _ Hq) as (Hs & _ & Hs2). apply compacted_parent in Hc; [|done..].
  rewrite Hs2 in Hc. apply Hnp. assert (0 <= n / 2 ^ h / 2) by (apply Z.div_pos; lia).
  apply (pruned_iff_leaves _ (h + 1) (n / 2 ^ h / 2)); [done|lia|done|by apply parent_in_bounds|done|].
  rewrite <- div_pow2_succ by done. apply div_pow2_iff; [lia|done].
Qed.

Lemma same_sibling pb pb' jh jd jh' jd' hs ds k h n :
  store_ok v ok enc pb jh jd hs ds (npos 0 k) -> store_ok v ok enc pb' jh' jd' hs ds (npos 0 k) ->
  0 <= h -> 0 <= n -> npos h (n / 2 ^ h) < 2 ^ 32 ->
  ~ pruned (roots (prune_list pb)) (npos 0 n) -> ~ pruned (roots (prune_list pb')) (npos 0 n) ->
  Pmmr.get_from_file (at_ pb (npos 0 k)) (npos h (sib (n / 2 ^ h))) =
  Pmmr.get_from_file (at_ pb' (npos 0 k)) (npos h (sib (n / 2 ^ h))).
Proof.
  intros Hst Hst' Hh Hn Hb Hnp Hnp'. unfold Pmmr.get_from_file. cbn [at_ Pmmr.size backend].
  set (s := npos h (sib (n / 2 ^ h))). destruct (Z.leb_spec (npos 0 k) s); [done|].
  assert (Hq : 0 <= n / 2 ^ h) by (apply Z.div_pos; [done|by apply pow2_pos]).
  destruct (sib_bounds _ Hq) as (Hs & _ & _). pose proof (npos_pos h _ Hh Hs) as Hs0. fold s in Hs0.
  pose proof (st_size v ok enc _ _ _ _ _ _ Hst) as Hsz.
  cbn [backend_get_from_file store_be store_backend].
  rewrite (get_from_file_ok v ok enc _ _ _ _ _ _ Hst) by lia. rewrite (get_from_file_ok v ok enc _ _ _ _ _ _ Hst') by lia.
  pose proof (is_compacted_store v ok enc _ _ _ _ _ _ Hst s ltac:(lia)) as Hc.
  pose proof (is_compacted_store v ok enc _ _ _ _ _ _ Hst' s ltac:(lia)) as Hc'.
  pose proof (sibling_not_compacted _ _ _ _ _ _ h n Hst Hh Hn Hnp Hb ltac:(fold s; lia)) as Hn1.
  pose proof (sibling_not_compacted _ _ _ _ _ _ h n Hst' Hh Hn Hnp' Hb ltac:(fold s; lia)) as Hn2. fold s in Hn1, Hn2.
  destruct (is_compacted pb s), (is_compacted pb' s); try done; exfalso; tauto.
Qed.

(** ... and so have the proofs of a leaf that neither has pruned. *)
Lemma same_merkle_proof pb pb' jh jd jh' jd' hs ds k p :
  store_ok v ok enc pb jh jd hs ds (npos 0 k) -> store_ok v ok enc pb' jh' jd' hs ds (npos 0 k) -> 0 <= k -> 0 <= p < npos 0 k ->
  includes (leaf_set pb) p = true -> includes (leaf_set pb') p = true ->
  merkle_proof (at_ pb (npos 0 k)) p = merkle_proof (at_ pb' (npos 0 k)) p.
Proof.
  intros Hst Hst' Hk Hp Hi Hi'. pose proof (st_size v ok enc _ _ _ _ _ _ Hst) as Hsz.
  destruct (includes_not_pruned v ok enc _ _ _ _ _ _ Hst p ltac:(lia) Hi) as (Hl & Hnp & _).
  destruct (includes_not_pruned v ok enc _ _ _ _ _ _ Hst' p ltac:(lia) Hi') as (_ & Hnp' & _).
  destruct (leaf_npos p ltac:(lia) Hl) as (n & Hn & ->). pose proof (npos0_ge n Hn).
  assert (Hget : forall pb jh jd, store_ok v ok enc pb jh jd hs ds (npos 0 k) -> includes (leaf_set pb) (npos 0 n) = true ->
    Pmmr.get_hash (at_ pb (npos 0 k)) (npos 0 n) = Some (hs (npos 0 n))).
  { clear -Hp Hl Hsz. intros pb jh jd Hst Hi. unfold Pmmr.get_hash. cbn [at_ Pmmr.size backend].
    destruct (Z.leb_spec (npos 0 k) (npos 0 n)); [lia|]. rewrite Hl. cbn [backend_get_hash store_be store_backend].
    unfold get_hash. rewrite Hi, andb_false_r. rewrite (get_from_file_ok v ok enc _ _ _ _ _ _ Hst) by done.
    unfold is_compacted. by rewrite Hi. }
  unfold merkle_proof. rewrite Hl. cbn [negb]. rewrite (Hget _ _ _ Hst Hi), (Hget _ _ _ Hst' Hi'). cbn [ok_or rbind].
  unfold Pmmr.unpruned_size. cbn [at_ Pmmr.size].
  assert (Ebr : family_branch (npos 0 n) (npos 0 k) = climb 64 (npos 0 n) (npos 0 k)).
  { unfold family_branch. rewrite peak_map_height_npos, shl64_1 by lia.
    apply family_branch_loop_climb; [lia|unfold last_leaf; lia| |lia].
    rewrite Z.pow_0_r, Z.div_1_r. unfold last_leaf. lia. }
  rewrite Ebr. pose proof (climb_siblings 64 0 n (npos 0 k) ltac:(lia) Hn) as Hsib. rewrite Z.pow_0_r, Z.div_1_r in Hsib.
  specialize (Hsib ltac:(lia)). rewrite Forall_forall in Hsib. generalize dependent (climb 64 (npos 0 n) (npos 0 k)).
  intros br _ Hsib. rewrite (same_peak_path _ _ _ _ _ _ _ _ _ _ Hst Hst' Hk).
  rewrite (omap_ext_in (fun x => Pmmr.get_from_file (at_ pb (npos 0 k)) x.2) (fun x => Pmmr.get_from_file (at_ pb' (npos 0 k)) x.2)); [done|].
  intros x Hx. destruct (Hsib x Hx) as (h & Hh & -> & Hb). by eapply same_sibling.
Qed.
End mmr.

(** * Reopening *)

Section reopen.
Context {BM : Type} {HB : Bitmap BM} {HL : BitmapLaws BM}.
Context {E : Type} {RE : Readable E} {WE : Writeable E}.
Context (v : ProtocolVersion) (ok : E -> Prop) (enc : E -> bytes) {C : Codec E v ok enc}.
Implicit Types (pb : PMMRBackend BM).

(** What is on disk of a size file. *)
Definition size_disk (f : AppendOnlyFile) : bytes :=
  match size_info f with FixedSize _ => [] | VariableSize sf => disk sf end.

Lemma raw_disk {A} {RA : Readable A} {WA : Writeable A} (okA : A -> Prop) encA (j : journal A) f :
  raw v okA encA j f -> disk f = encs encA (synced j) /\ Forall okA (synced j).
Proof. intros (Hd & _ & _ & _ & _ & _ & _ & [Hok _] & _). done. Qed.

Lemma file_reopen {A} {RA : Readable A} {WA : Writeable A} (okA : A -> Prop) encA {CA : Codec A v okA encA}
    (j : journal A) f info :
  rep v okA encA j f ->
  info = match elmt_size f with Some n => FixedSize n | None => VariableSize (size_file_of v encA (synced j)) end ->
  exists f', DataFile.open (T := A) (disk f) info v = Ok f' /\ rep v okA encA (synced_file (synced j)) f' /\
    clean f' /\ elmt_size f' = elmt_size f.
Proof.
  intros (Hraw & Hsm & Hi) ->. destruct (raw_disk okA encA j f Hraw) as [-> Hok].
  assert (Hlen : encs_len encA (synced j) < 2 ^ 58) by (unfold small, encs_len in *; lia).
  unfold elmt_size. destruct (size_info f) as [n|sf]; cbn in Hi.
  - destruct Hi as [Hn Hall]. apply Forall_app in Hall as [Hall _].
    destruct (open_rep v okA encA (synced j) (FixedSize n) Hok Hlen) as (f' & E' & Hr & Hc & Hk); [done|].
    exists f'. split; [done|]. split; [done|]. split; [done|]. exact Hk.
  - destruct (open_rep v okA encA (synced j) (VariableSize (size_file_of v encA (synced j))) Hok Hlen)
      as (f' & E' & Hr & Hc & Hk); [by left|].
    exists f'. split; [done|]. split; [done|]. split; [done|]. exact Hk.
Qed.

Lemma size_disk_entries (j : journal E) f :
  rep v ok enc j f -> elmt_size f = None -> size_disk f = encs enc_entry (AppendOnly.entries enc 0 (synced j)).
Proof.
  intros (_ & _ & Hi). unfold elmt_size, size_disk. destruct (size_info f) as [n|sf]; [done|]. intros _.
  destruct Hi as [_ (Hd & _)]. exact Hd.
Qed.

Lemma copy_no_snapshot (file : option BM) : copy_snapshot file None = file.
Proof. done. Qed.

Lemma open_prune_list (pl : PruneList BM) :
  prune_ok pl -> Forall (fun r => r < 2 ^ 31 - 64) (roots pl) ->
  exists pl', PruneList.open (Some (bitmap pl)) = Some pl' /\ prune_ok pl' /\ roots pl' = roots pl /\ path pl' = true.
Proof.
  intros Hok Hr. destruct (rebuild_same pl Hok Hr true) as (pl' & En & Hok' & Hroots & Hp).
  exists pl'. split; [|done]. unfold PruneList.open. cbn [default from_option]. unfold id.
  assert (Hz : bm_contains (bitmap pl) 0 = false).
  { unfold PruneList.new in En. by destruct (bm_contains (bitmap pl) 0). }
  rewrite Hz, En. cbn [mbind option_bind]. by apply init_caches_ok.
Qed.

(** Opening the files of a synced backend. *)
Lemma reopen_ok pb jh jd hs ds n :
  store_ok v ok enc pb jh jd hs ds n -> at_rest pb jh jd ->
  leaf_disk pb = Some (leaf_bitmap (leaf_set pb)) -> prun_disk pb = Some (bitmap (prune_list pb)) ->
  prunable pb = true ->
  exists pb' jh' jd',
    new (E := E) (disk (hash_file pb)) (disk (data_file pb)) (size_disk (data_file pb)) (leaf_disk pb) None
      (prun_disk pb) true v (elmt_size (data_file pb)) = Ok pb' /\
    store_ok v ok enc pb' jh' jd' hs ds n /\ at_rest pb' jh' jd' /\ prunable pb' = true /\
    leaf_bitmap (leaf_set pb') = leaf_bitmap (leaf_set pb) /\ elmt_size (data_file pb') = elmt_size (data_file pb).
Proof.
  intros Hst (Hph & Hpd & Hch & Hcd) Hld Hpd' Hp. pose proof Hst as ((Hh & Hhk & Hd) & Hu & Hsh).
  pose proof (st_prune v ok enc _ _ _ _ _ _ Hst) as Hok. pose proof (st_size v ok enc _ _ _ _ _ _ Hst) as Hn.
  pose proof (st_roots v ok enc _ _ _ _ _ _ Hst) as Hr.
  destruct (open_prune_list (prune_list pb) Hok) as (pl' & Eo & Hok' & Hroots & Hpath').
  { eapply Forall_impl; [exact Hr|]. simpl. lia. }
  destruct (file_reopen hash_ok hash_bytes jh (hash_file pb) (FixedSize HASH_SIZE) Hh) as (hf & Eh & Hh' & Hhc & Hhk').
  { by rewrite Hhk. }
  destruct (file_reopen ok enc jd (data_file pb) _ Hd eq_refl) as (df & Ed & Hd' & Hdc & Hdk).
  pose proof (clean_synced v hash_ok hash_bytes jh _ Hh Hch Hph) as Hsj.
  pose proof (clean_synced v ok enc jd _ Hd Hcd Hpd) as Hsd.
  exists (mkBackend true hf df (LeafSet.open (leaf_disk pb)) pl' (leaf_disk pb) (prun_disk pb)),
    (synced_file (synced jh)), (synced_file (synced jd)).
  split; [|split].
  - unfold new. destruct (elmt_size (data_file pb)) as [m|] eqn:Ek.
    + cbn [rbind]. rewrite Eh, Ed. cbn [io rbind]. rewrite copy_no_snapshot, Hpd', Eo. done.
    + rewrite (size_disk_entries jd _ Hd Ek), (open_size_file v enc). cbn [io rbind].
      rewrite Eh, Ed. cbn [io rbind]. rewrite copy_no_snapshot, Hpd', Eo. done.
  - split; [split; [done|split; [cbn [hash_file]; congruence|done]]|]. split; [done|].
    cbn [prune_list leaf_set]. rewrite Hld. cbn [LeafSet.open leaf_bitmap default from_option]. unfold id.
    rewrite !synced_content by done. rewrite <- (synced_content jh), <- (synced_content jd) by done.
    by apply (shows_roots (prune_list pb)).
  - split; [done|]. split; [done|]. cbn [leaf_set data_file]. split; [by rewrite Hld|done].
Qed.
End reopen.

(** * Properties *)

Section properties.
Context {T E : Type} {RE : Readable E} {WE : Writeable E} (as_elmt : T -> E).
Context (v : ProtocolVersion) (ok : E -> Prop) (enc : E -> bytes) {C : Codec E v ok enc}.

(** Reading a backend that holds an MMR of size [n]. Every position that
    was not compacted yields its hash, and its data if it is a leaf; a compacted
    one yields nothing. [get_hash] and [get_data] hide the leaves of a prunable
    MMR that are not in the leaf set; a leaf in it is never compacted. *)
Theorem store_reads {BM} {HB : Bitmap BM} {HL : BitmapLaws BM} (pb : PMMRBackend BM) jh jd hs ds n p :
  store_ok v ok enc pb jh jd hs ds n -> 0 <= p < n ->
  let stored {A} (x : A) : option A := if is_compacted pb p then None else Some x in
  let unspent := negb (prunable pb) || includes (leaf_set pb) p in
  get_from_file pb p = stored (hs p) /\
  (is_compacted pb p = false -> get_peak_from_file pb p = Some (hs p)) /\
  get_data_from_file pb p = (if is_leaf p then stored (ds p) else None) /\
  get_hash pb p = (if is_leaf p && negb unspent then None else stored (hs p)) /\
  get_data pb p = (if is_leaf p && unspent then stored (ds p) else None) /\
  (includes (leaf_set pb) p = true -> is_compacted pb p = false /\ is_leaf p = true).
Proof.
  intros Hst Hp stored unspent. pose proof (st_size v ok enc _ _ _ _ _ _ Hst) as Hn.
  pose proof (get_from_file_ok v ok enc _ _ _ _ _ _ Hst p Hp) as Hf.
  pose proof (get_data_from_file_ok v ok enc _ _ _ _ _ _ Hst p Hp) as Hd.
  split_and!; [done|by apply (get_peak_ok v ok enc _ _ _ _ _ _ Hst)|done| | |].
  - unfold get_hash. rewrite Hf. subst unspent. by destruct (prunable pb), (is_leaf p), (includes (leaf_set pb) p).
  - unfold get_data. rewrite Hd. subst unspent. by destruct (prunable pb), (is_leaf p), (includes (leaf_set pb) p).
  - intros Hi. split; [unfold is_compacted; by rewrite Hi|].
    apply (includes_not_pruned v ok enc _ _ _ _ _ _ Hst p ltac:(lia) Hi).
Qed.

(** Appending leaf number [k] with its hashes, the ones up to the next
    leaf, extends the MMR by them and leaves the rest as it was: the data file
    index that the backend computes from the prune list is that of the leaf, the
    leaf joins the leaf set, and what was synced last stays what discarding
    goes back to. *)
Theorem store_append {BM} {HB : Bitmap BM} {HL : BitmapLaws BM} (pb : PMMRBackend BM) jh jd hs ds k data hashes :
  store_ok v ok enc pb jh jd hs ds (insertion_to_pmmr_index k) -> 0 <= k < 2 ^ 31 ->
  insertion_to_pmmr_index k + Z.of_nat (length hashes) = insertion_to_pmmr_index (k + 1) ->
  insertion_to_pmmr_index (k + 1) <= 2 ^ 31 - 64 ->
  Forall hash_ok hashes -> ok (as_elmt data) -> fits enc (elmt_size (data_file pb)) (as_elmt data) ->
  small hash_bytes (j_append jh hashes) -> small enc (j_append jd [as_elmt data]) ->
  let n := insertion_to_pmmr_index k in
  exists pb', append as_elmt pb data hashes = Ok pb' /\
    store_ok v ok enc pb' (j_append jh hashes) (j_append jd [as_elmt data])
      (extend hs n hashes) (extend_data ds n (as_elmt data)) (insertion_to_pmmr_index (k + 1)) /\
    leaf_set pb' = (if prunable pb then LeafSet.add (leaf_set pb) n else leaf_set pb) /\
    (forall hs0 ds0 n0, saved_ok pb jh jd hs0 ds0 n0 ->
       saved_ok pb' (j_append jh hashes) (j_append jd [as_elmt data]) hs0 ds0 n0).
Proof.
  intros Hst Hk Hlen Hmax Hhs Hx Hfit Hsh Hsd n. subst n. rewrite !insertion_index_npos in * by lia.
  destruct (append_ok as_elmt v ok enc pb jh jd hs ds k data hashes Hst) as (pb' & E1 & Hst' & E2 & E3 & E4 & E5 & E6);
    [lia|done..|].
  exists pb'. split; [done|]. split; [done|]. split; [done|]. intros hs0 ds0 n0 (Hp & pl & Hd & Hs).
  unfold saved_ok. rewrite E2, E4, E5. split; [done|]. exists pl. split; [done|exact Hs].
Qed.

(** Rewinding to [k] leaves, when nothing is pending and no pruned subtree
    is behind them, shortens the MMR to its first positions with the same
    hashes and data; the leaf set loses what came later and gets back the
    positions of [rm]. What was synced last stays. *)
Theorem store_rewind {BM} {HB : Bitmap BM} {HL : BitmapLaws BM} (pb : PMMRBackend BM) jh jd hs ds n k rm :
  let position := insertion_to_pmmr_index k in
  store_ok v ok enc pb jh jd hs ds n -> 0 <= k < 2 ^ 31 -> position <= n -> prunable pb = true ->
  pending jh = [] -> pending jd = [] -> Forall (fun r => r < position) (roots (prune_list pb)) ->
  (forall x, bm_in x rm -> 1 <= x <= position /\ is_leaf (x - 1) = true /\ ~ pruned (roots (prune_list pb)) (x - 1)) ->
  exists pb' jh' jd', rewind pb position rm = Ok pb' /\ store_ok v ok enc pb' jh' jd' hs ds position /\
    (forall x, 0 <= x < 2 ^ 31 ->
       includes (leaf_set pb') x = true <->
       (x < position /\ includes (leaf_set pb) x = true) \/ bm_in (x + 1) rm) /\
    (forall hs0 ds0 n0, saved_ok pb jh jd hs0 ds0 n0 -> saved_ok pb' jh' jd' hs0 ds0 n0).
Proof.
  intros position Hst Hk Hle Hp Hph Hpd Hr Hrm. subst position. rewrite insertion_index_npos in * by lia.
  pose proof (st_size v ok enc _ _ _ _ _ _ Hst) as Hn. pose proof (npos0_ge k ltac:(lia)).
  destruct (rewind_ok v ok enc pb jh jd hs ds n k rm Hst) as (pb' & E1 & Hst' & E2 & E3 & E4 & E5 & E6); [lia|done..|].
  eexists pb', _, _. split; [done|]. split; [exact Hst'|]. split.
  - intros x Hx. rewrite E6, Hp, !includes_spec by lia. unfold LeafSet.rewind. cbn [leaf_bitmap].
    rewrite rewound_spec by (try lia; intros y Hy; destruct Hst as (_ & _ & [_ _ _ _ Hl _ _]); apply Hl in Hy; lia).
    split; (intros [[? ?]|?]; [left|by right]).
    + split; [lia|done].
    + split; [done|lia].
  - intros hs0 ds0 n0 (Hpth & pl & Hd & Hs). unfold saved_ok. rewrite E2, E4, E5. split; [done|].
    exists pl. split; [done|exact Hs].
Qed.

(** Syncing makes the state durable. After [sync] the backend shows the
    same MMR and reports its size, opening its files again shows it too, and
    so does discarding whatever was appended, rewound or pruned since. *)
Theorem store_durable {BM} {HB : Bitmap BM} {HL : BitmapLaws BM} (pb : PMMRBackend BM) jh jd hs ds n :
  store_ok v ok enc pb jh jd hs ds n -> prunable pb = true ->
  exists pb1 jh1 jd1, sync pb = Ok pb1 /\ store_ok v ok enc pb1 jh1 jd1 hs ds n /\
    at_rest pb1 jh1 jd1 /\ unpruned_size pb1 = Some n /\
    LeafSet.iter (leaf_set pb1) = LeafSet.iter (leaf_set pb) /\ saved_ok pb1 jh1 jd1 hs ds n /\
    (exists pb2 jh2 jd2,
       new (E := E) (disk (hash_file pb1)) (disk (data_file pb1)) (size_disk (data_file pb1)) (leaf_disk pb1) None
         (prun_disk pb1) true v (elmt_size (data_file pb1)) = Ok pb2 /\
       store_ok v ok enc pb2 jh2 jd2 hs ds n /\
       LeafSet.iter (leaf_set pb2) = LeafSet.iter (leaf_set pb)) /\
    (forall pb2 jh2 jd2 hs' ds' n', store_ok v ok enc pb2 jh2 jd2 hs' ds' n' -> saved_ok pb2 jh2 jd2 hs ds n ->
       exists pb3 jh3 jd3, discard pb2 = Some pb3 /\ store_ok v ok enc pb3 jh3 jd3 hs ds n).
Proof.
  intros Hst Hp. destruct (sync_ok v ok enc pb jh jd hs ds n Hst)
    as (pb1 & E1 & Hst1 & Hsv1 & Hrest & Hsize & E2 & E3 & E4 & E5 & E6 & E7).
  exists pb1, (j_flush jh), (j_flush jd). unfold LeafSet.iter. rewrite E4. split_and!; try done.
  - destruct (reopen_ok v ok enc pb1 _ _ hs ds n Hst1 Hrest) as (pb2 & jh2 & jd2 & En & Hst2 & _ & _ & El & _).
    + apply E6. by rewrite <- Hp.
    + by rewrite E7, E2.
    + by rewrite E3.
    + exists pb2, jh2, jd2. split; [done|]. split; [done|]. by rewrite El, E4.
  - intros pb2 jh2 jd2 hs' ds' n' Hst2 Hsv2.
    destruct (discard_ok v ok enc pb2 jh2 jd2 hs' ds' n' hs ds n Hst2 Hsv2) as (pb3 & Ed & Hst3). eauto.
Qed.

(** C32. Compaction is exact. It succeeds on a synced backend, prunes the
    leaves before the cutoff that are spent (neither in the leaf set nor in
    [rm]) besides those that were pruned already, keeps the leaf set, and the
    files show the same MMR: the hashes and data of all positions that the new
    prune list keeps are read as before. A position is compacted when all
    leaves below its parent are pruned. *)
Theorem check_compact_exact {BM} {HB : Bitmap BM} {HL : BitmapLaws BM} (pb : PMMRBackend BM) jh jd hs ds k cutoff rm :
  let n := insertion_to_pmmr_index k in
  store_ok v ok enc pb jh jd hs ds n -> 0 <= k < 2 ^ 31 -> at_rest pb jh jd -> prunable pb = true ->
  rebuildable v ok enc (data_file pb) -> 0 <= cutoff <= n ->
  exists pb' jh' jd', check_compact (E := E) pb cutoff rm = Ok (true, pb') /\
    store_ok v ok enc pb' jh' jd' hs ds n /\ at_rest pb' jh' jd' /\
    LeafSet.iter (leaf_set pb') = LeafSet.iter (leaf_set pb) /\
    (forall l, 0 <= l < n -> is_leaf l = true ->
       is_pruned pb' l = is_pruned pb l ||
         ((l <? cutoff) && negb (includes (leaf_set pb) l) && negb (bm_contains rm (l + 1)))) /\
    (forall p, 0 <= p < n ->
       is_compacted pb' p = true <->
       forall l, under (fst (family p)) l -> is_leaf l = true -> l < n /\ is_pruned pb' l = true).
Proof.
  intros n Hst Hk Hrest Hp Hreb Hcut. subst n. rewrite insertion_index_npos in * by lia.
  pose proof (st_size v ok enc _ _ _ _ _ _ Hst) as Hn. pose proof (st_prune v ok enc _ _ _ _ _ _ Hst) as Hok.
  destruct (check_compact_ok v ok enc pb jh jd hs ds k cutoff rm Hst) as (pb' & jh' & jd' & E1 & Hst' & Hrest' & _ & El & Hnew);
    [lia|done..|].
  exists pb', jh', jd'. unfold LeafSet.iter. rewrite El. split_and!; try done.
  - intros l Hl Hleaf. destruct (leaf_npos l ltac:(lia) Hleaf) as (m & Hm & ->). specialize (Hnew m Hm ltac:(lia)).
    apply eq_true_iff_eq. rewrite orb_true_iff. unfold is_pruned, compact_leaf in *.
    rewrite !is_pruned_spec; [exact Hnew|apply Hok|lia|apply (st_prune v ok enc _ _ _ _ _ _ Hst')|lia].
  - intros p Hp0. pose proof (st_prune v ok enc _ _ _ _ _ _ Hst') as Hok'.
    rewrite (is_compacted_store v ok enc _ _ _ _ _ _ Hst') by lia.
    destruct (npos_surj p ltac:(lia)) as (h & q & Hh & Hq & ->). assert (0 <= q / 2) by (apply Z.div_pos; lia).
    pose proof (parent_in_bounds h q Hh Hq ltac:(lia)) as Hpb.
    rewrite compacted_parent, pruned_iff_leaves by (done || lia).
    rewrite family_npos by (try done; unfold in_bounds; lia). cbn [fst]. split.
    + intros Hall l Hu Hleaf. assert (0 <= l) by (apply under_range in Hu; [|done]; pose proof (range_fst_nonneg _ Hpb); lia).
      pose proof (under_le _ _ Hu Hpb). destruct (leaf_npos l ltac:(unfold in_bounds in Hpb; lia) Hleaf) as (m & Hm & ->).
      apply under_leaf in Hu; [|lia|done|done|done]. specialize (Hall m Hu).
      assert (Hmn : npos 0 m < npos 0 k).
      { destruct Hall as (r & Hr & Hur). destruct (roots_bounds _ _ (proj1 (ok_roots _ Hok')) Hr) as [_ Hrb].
        pose proof (under_le _ _ Hur Hrb). pose proof (st_roots v ok enc _ _ _ _ _ _ Hst') as Hlt.
        rewrite Forall_forall in Hlt. specialize (Hlt r Hr). simpl in Hlt. lia. }
      split; [done|]. unfold is_pruned. by apply is_pruned_spec; [apply Hok'|lia|].
    + intros Hall m Hm. pose proof (pow2_pos (h + 1) ltac:(lia)). assert (0 <= m) by nia.
      assert (Hu : under (npos (h + 1) (q / 2)) (npos 0 m)) by (apply under_leaf; [lia|done|done|done|done]).
      destruct (leaf_bounds (h + 1) (q / 2) m ltac:(lia) ltac:(lia) ltac:(lia) Hpb) as [Hm0 Hm1].
      destruct (Hall (npos 0 m) Hu) as [Hlt Hpr]; [rewrite is_leaf_npos by lia; done|].
      unfold is_pruned in Hpr. by apply is_pruned_spec in Hpr; [|apply Hok'|lia].
Qed.

(** C33. Compaction does not touch what others rely on: the root of the MMR and,
    for every unspent leaf, its hash, its data and its Merkle proof are
    the same before and after. *)
Theorem compaction_keeps_mmr {PH : PMMRHash T Hash} (pb : PMMRBackend (gset Z)) jh jd hs ds k cutoff rm :
  let BE := store_backend as_elmt in
  let n := insertion_to_pmmr_index k in
  store_ok v ok enc pb jh jd hs ds n -> 0 <= k < 2 ^ 31 -> at_rest pb jh jd -> prunable pb = true ->
  rebuildable v ok enc (data_file pb) -> 0 <= cutoff <= n ->
  exists pb', check_compact (E := E) pb cutoff rm = Ok (true, pb') /\
    root (BE := BE) (at_ pb' n) = root (BE := BE) (at_ pb n) /\
    forall p, 0 <= p < n -> includes (leaf_set pb) p = true ->
      includes (leaf_set pb') p = true /\ get_hash pb' p = get_hash pb p /\ get_data pb' p = get_data pb p /\
      merkle_proof (BE := BE) (at_ pb' n) p = merkle_proof (BE := BE) (at_ pb n) p.
Proof.
  intros BE n Hst Hk Hrest Hp Hreb Hcut. subst n. rewrite insertion_index_npos in * by lia.
  pose proof (st_size v ok enc _ _ _ _ _ _ Hst) as Hn.
  destruct (check_compact_ok v ok enc pb jh jd hs ds k cutoff rm Hst) as (pb' & jh' & jd' & E1 & Hst' & _ & Hp' & El & _);
    [lia|done..|].
  exists pb'. split; [done|]. split; [eapply (same_root as_elmt v ok enc); [done|done|lia]|]. intros p Hp0 Hi.
  assert (Hi' : includes (leaf_set pb') p = true) by (unfold includes in *; by rewrite El).
  assert (Hc : is_compacted pb p = false /\ is_compacted pb' p = false) by (unfold is_compacted; by rewrite Hi, Hi').
  split; [done|]. split; [|split].
  - unfold get_hash. rewrite Hi, Hi', !andb_false_r.
    rewrite (get_from_file_ok v ok enc _ _ _ _ _ _ Hst), (get_from_file_ok v ok enc _ _ _ _ _ _ Hst') by done.
    by destruct Hc as [-> ->].
  - unfold get_data. rewrite Hi, Hi', Hp, Hp'. cbn [andb negb].
    rewrite (get_data_from_file_ok v ok enc _ _ _ _ _ _ Hst), (get_data_from_file_ok v ok enc _ _ _ _ _ _ Hst') by done.
    by destruct Hc as [-> ->].
  - eapply (same_merkle_proof as_elmt v ok enc); [done|done|lia|done|done|done].
Qed.

(** A subtree that a peer has pruned takes one hash: appending its root
    where the subtree would start, when its sibling is not pruned, makes the MMR
    end behind the root, marks everything below as compacted, and keeps all
    other hashes and data. *)
Theorem append_pruned_subtree_exact {BM} {HB : Bitmap BM} {HL : BitmapLaws BM} (pb : PMMRBackend BM) jh jd hs ds hash p :
  store_ok v ok enc pb jh jd hs ds (bintree_leftmost p) -> prunable pb = true -> 0 <= p < 2 ^ 31 - 64 ->
  is_leaf p = false -> is_pruned pb (snd (family p)) = false -> hash_ok hash ->
  small hash_bytes (j_append jh [hash]) ->
  exists pb', append_pruned_subtree pb hash p = Ok pb' /\
    store_ok v ok enc pb' (j_append jh [hash]) jd (fun x => if x =? p then hash else hs x) ds (p + 1) /\
    get_from_file pb' p = Some hash /\
    (forall x, 0 <= x <= p -> is_compacted pb' x = is_compacted pb x || ((bintree_leftmost p <=? x) && (x <? p))).
Proof.
  intros Hst Hp Hp0 Hleaf Hsib Hh Hsm. assert (Hb : in_bounds p) by (unfold in_bounds; lia).
  rewrite (leftmost_range p Hb) in Hst |- *. pose proof (st_prune v ok enc _ _ _ _ _ _ Hst) as Hok.
  assert (Hro : root_ok p) by (unfold root_ok; lia).
  assert (Hsb : 0 <= snd (family p) < 2 ^ 32 - 1).
  { destruct (npos_surj p ltac:(lia)) as (h & q & Hh' & Hq & ->). by apply sibling_bounds. }
  destruct (append_pruned_subtree_ok v ok enc pb jh jd hs ds hash p Hst Hp Hp0 Hleaf) as (pb' & E1 & Hst' & Hr); [|done|done|].
  { rewrite <- is_pruned_spec by (apply Hok || done). unfold is_pruned in Hsib. by rewrite Hsib. }
  pose proof (st_prune v ok enc _ _ _ _ _ _ Hst') as Hok'. pose proof (st_roots v ok enc _ _ _ _ _ _ Hst) as Hlt.
  assert (Hx : forall x, 0 <= x <= p -> is_compacted pb' x = is_compacted pb x || ((fst (bintree_range p) <=? x) && (x <? p))).
  { intros x Hx. apply eq_true_iff_eq. rewrite orb_true_iff, andb_true_iff, Z.leb_le, Z.ltb_lt.
    rewrite (is_compacted_store v ok enc _ _ _ _ _ _ Hst'), (is_compacted_store v ok enc _ _ _ _ _ _ Hst) by lia.
    unfold compacted, pruned. rewrite Hr, elem_of_app, list_elem_of_singleton. setoid_rewrite elem_of_app.
    setoid_rewrite list_elem_of_singleton. pose proof (under_range p x Hb) as Hu.
    rewrite Forall_forall in Hlt. split.
    - intros [(r & [Hin| ->] & Hur) Hnin]; [left; split; [by exists r|tauto]|]. right.
      apply Hu in Hur. split; [lia|]. assert (x <> p) by tauto. lia.
    - intros [[(r & Hin & Hur) Hnin]|[Hge Hlt']].
      + split; [exists r; tauto|]. intros [?| ->]; [done|]. specialize (Hlt r Hin). cbv beta in Hlt.
        destruct (roots_bounds _ _ (proj1 (ok_roots _ Hok)) Hin) as [_ Hrb]. pose proof (under_le _ _ Hur Hrb).
        pose proof (range_fst_le p Hb). lia.
      + split; [exists p; split; [by right|apply Hu; lia]|]. intros [Hin| ->]; [|lia]. specialize (Hlt x Hin). cbv beta in Hlt. lia. }
  exists pb'. split_and!; [done|done| |done].
  rewrite (get_from_file_ok v ok enc _ _ _ _ _ _ Hst') by lia. rewrite Hx by lia.
  assert (Hself : is_compacted pb p = false).
  { apply (is_compacted_stays v ok enc _ _ _ _ _ _ Hst); [lia|]. intros [(r & Hin & Hur) _].
    rewrite Forall_forall in Hlt. specialize (Hlt r Hin). cbv beta in Hlt.
    destruct (roots_bounds _ _ (proj1 (ok_roots _ Hok)) Hin) as [_ Hrb]. pose proof (under_le _ _ Hur Hrb).
    pose proof (range_fst_le p Hb). lia. }
  rewrite Hself. destruct (Z.ltb_spec p p); [lia|]. rewrite andb_false_r. cbn [orb]. by rewrite Z.eqb_refl.
Qed.
End properties.

(** ** Witnesses *)

(** A new backend, of elements that are hashes themselves. *)
Lemma new_empty hs ds :
  exists pb, new (BM := gset Z) (E := Hash) [] [] [] None None None true local (Some HASH_SIZE) = Ok pb /\
    store_ok local hash_ok hash_bytes pb (synced_file []) (synced_file []) hs ds 0 /\ prunable pb = true /\
    elmt_size (data_file pb) = Some HASH_SIZE /\ leaf_bitmap (leaf_set pb) = ∅.
Proof.
  destruct (open_rep local hash_ok hash_bytes [] (FixedSize HASH_SIZE)) as (f & Ef & Hf & _ & Hk);
    [constructor|done|by split|].
  unfold new, DataFile.open. cbn [rbind]. change (encs hash_bytes []) with (@nil Z) in Ef. rewrite Ef. cbn [io rbind].
  assert (Ep : PruneList.open (None : option (gset Z)) = Some (mkPruneList true ∅ [] [])) by (vm_compute; reflexivity).
  rewrite Ep. eexists. split; [reflexivity|]. split; [|by split].
  assert (Hroots : roots (mkPruneList true (∅ : gset Z) [] []) = []) by (vm_compute; reflexivity).
  split; [by split|]. split; [done|]. cbn [prune_list leaf_set]. split; try done.
  - exact (new_ok (BM := gset Z) true).
  - by intros x Hx%gset_in%elem_of_empty.
Qed.

Definition sample_steps : list (Hash * list Hash) :=
  [(sample_hash 1, [sample_hash 1]); (sample_hash 2, [sample_hash 2; sample_hash 12]);
   (sample_hash 3, [sample_hash 3]); (sample_hash 4, [sample_hash 4; sample_hash 34; sample_hash 99])].

Fixpoint append_steps (pb : PMMRBackend (gset Z)) (l : list (Hash * list Hash)) :=
  match l with
  | [] => Ok pb
  | (x, hashes) :: l => let? pb := append (fun x => x) pb x hashes in append_steps pb l
  end.

Fixpoint steps_hs (hs : Z -> Hash) (k : Z) (l : list (Hash * list Hash)) : Z -> Hash :=
  match l with
  | [] => hs
  | (_, hashes) :: l => steps_hs (extend hs (npos 0 k) hashes) (k + 1) l
  end.

Fixpoint steps_ds (ds : Z -> Hash) (k : Z) (l : list (Hash * list Hash)) : Z -> Hash :=
  match l with
  | [] => ds
  | (x, _) :: l => steps_ds (extend_data ds (npos 0 k) x) (k + 1) l
  end.

Fixpoint steps_fit (k : Z) (l : list (Hash * list Hash)) : Prop :=
  match l with
  | [] => True
  | (x, hashes) :: l =>
      npos 0 k + Z.of_nat (length hashes) = npos 0 (k + 1) /\ npos 0 (k + 1) <= 2 ^ 20 /\
      Forall hash_ok hashes /\ hash_ok x /\ steps_fit (k + 1) l
  end.

Lemma hashes_len l : Forall hash_ok l -> encs_len hash_bytes l = 32 * Z.of_nat (length l).
Proof.
  intros Hl. unfold encs_len. rewrite (encs_fixed hash_bytes HASH_SIZE) by done. change HASH_SIZE with 32. lia.
Qed.

Lemma append_steps_ok l pb jh jd hs ds k :
  store_ok local hash_ok hash_bytes pb jh jd hs ds (npos 0 k) -> 0 <= k -> steps_fit k l -> prunable pb = true ->
  elmt_size (data_file pb) = Some HASH_SIZE ->
  synced jh = [] -> synced jd = [] -> all_ok hash_ok jh -> all_ok hash_ok jd ->
  Z.of_nat (length (pending jh)) <= npos 0 k -> Z.of_nat (length (pending jd)) <= k ->
  exists pb' jh' jd', append_steps pb l = Ok pb' /\
    store_ok local hash_ok hash_bytes pb' jh' jd' (steps_hs hs k l) (steps_ds ds k l) (npos 0 (k + Z.of_nat (length l))) /\
    prunable pb' = true.
Proof.
  revert pb jh jd hs ds k. induction l as [|[x hashes] l IH];
    intros pb jh jd hs ds k Hst Hk Hfit Hp Hkd Hsh Hsd Hoh Hod Hlh Hld.
  { exists pb, jh, jd. by rewrite Z.add_0_r. }
  destruct Hfit as (Hn & Hmax & Hhs & Hx & Hfit). pose proof (npos0_ge (k + 1) ltac:(lia)).
  assert (Hoh' : all_ok hash_ok (j_append jh hashes)).
  { destruct Hoh as [? ?]. split; [done|]. unfold j_append. cbn [pending]. by apply Forall_app. }
  assert (Hod' : all_ok hash_ok (j_append jd [x])).
  { destruct Hod as [? ?]. split; [done|]. unfold j_append. cbn [pending]. apply Forall_app. split; [done|by repeat constructor]. }
  assert (Hsmall : forall j : journal Hash, synced j = [] -> all_ok hash_ok j -> Z.of_nat (length (pending j)) <= 2 ^ 20 ->
    small hash_bytes j).
  { intros j Hj [_ Hpj] Hlen. unfold small. rewrite Hj, (hashes_len (pending j)) by done. change (encs_len hash_bytes []) with 0. lia. }
  destruct (append_ok (fun x => x) local hash_ok hash_bytes pb jh jd hs ds k x hashes Hst) as (pb1 & E1 & Hst1 & _ & Hp1 & _);
    [done|done|lia|done|done| | | |].
  { by rewrite Hkd. }
  { apply Hsmall; [done|done|]. unfold j_append. cbn [pending]. rewrite length_app. lia. }
  { apply Hsmall; [done|done|]. unfold j_append. cbn [pending]. rewrite length_app. cbn [length]. lia. }
  cbn [append_steps]. rewrite E1. cbn [rbind].
  destruct (IH pb1 _ _ _ _ _ Hst1) as (pb' & jh' & jd' & E' & Hst' & Hp'); try done; [lia|congruence| | | |].
  - revert E1. unfold append. destruct (io _) as [[? df]|] eqn:Ed; [|done]. cbn [rbind].
    destruct (io (DataFile.extend_from_slice _ _)) as [[? hf]|]; [|done]. cbn [rbind set_files prunable].
    assert (Hdf : elmt_size df = Some HASH_SIZE).
    { destruct Hst as ((_ & _ & Hd) & _). destruct (file_append local hash_ok hash_bytes jd _ x Hd Hx) as (df' & Ed' & _ & Hk').
      - by rewrite Hkd.
      - apply Hsmall; [done|done|]. unfold j_append. cbn [pending]. rewrite length_app. cbn [length]. lia.
      - rewrite Ed' in Ed. injection Ed as _ <-. congruence. }
    rewrite Hp. destruct (ran _); [|done]. cbn [rbind]. intros [= <-]. exact Hdf.
  - unfold j_append. cbn [pending]. rewrite length_app. lia.
  - unfold j_append. cbn [pending]. rewrite length_app. cbn [length]. lia.
  - exists pb', jh', jd'. split; [done|]. split; [|done]. cbn [steps_hs steps_ds length].
    by replace (k + Z.of_nat (S (length l))) with (k + 1 + Z.of_nat (length l)) by lia.
Qed.

(** Four leaves, the first two of which are spent, synced. *)
Definition sample_unsynced : result pmmr_error (PMMRBackend (gset Z)) :=
  let? pb := new (BM := gset Z) (E := Hash) [] [] [] None None None true local (Some HASH_SIZE) in
  append_steps pb sample_steps.

Definition sample_run : result pmmr_error (PMMRBackend (gset Z)) :=
  let? pb := sample_unsynced in
  let? pb := remove pb 0 in
  let? pb := remove pb 1 in
  sync pb.

Definition sample_hs : Z -> Hash := steps_hs (fun _ => sample_hash 0) 0 sample_steps.
Definition sample_ds : Z -> Hash := steps_ds (fun _ => sample_hash 0) 0 sample_steps.

Lemma sample_unsynced_ok :
  exists pb jh jd, sample_unsynced = Ok pb /\
    store_ok local hash_ok hash_bytes pb jh jd sample_hs sample_ds (insertion_to_pmmr_index 4) /\ prunable pb = true.
Proof.
  destruct (new_empty (fun _ => sample_hash 0) (fun _ => sample_hash 0)) as (pb & En & Hst & Hp & Hk & _).
  destruct (append_steps_ok sample_steps pb _ _ _ _ 0 Hst) as (pb' & jh' & jd' & E' & Hst' & Hp').
  - lia.
  - assert (Hh : forall b, hash_ok (sample_hash b)) by done.
    split_and!; cbn [steps_fit sample_steps]; repeat split; try (vm_compute; congruence); repeat constructor; apply Hh.
  - done.
  - done.
  - done.
  - done.
  - by split; constructor.
  - by split; constructor.
  - done.
  - done.
  - exists pb', jh', jd'. unfold sample_unsynced. rewrite En. cbn [rbind]. rewrite E'. split; [done|]. split; [|done].
    replace (insertion_to_pmmr_index 4) with (npos 0 (0 + Z.of_nat (length sample_steps))) by (vm_compute; reflexivity).
    exact Hst'.
Qed.

Lemma sample_run_ok :
  exists pb jh jd, sample_run = Ok pb /\
    store_ok local hash_ok hash_bytes pb jh jd sample_hs sample_ds (insertion_to_pmmr_index 4) /\
    at_rest pb jh jd /\ prunable pb = true /\ rebuildable local hash_ok hash_bytes (data_file pb).
Proof.
  destruct sample_unsynced_ok as (pb & jh & jd & E & Hst & Hp).
  destruct (remove_ok local hash_ok hash_bytes pb jh jd _ _ _ 0 Hst Hp ltac:(lia)) as (pb1 & E1 & Hst1 & _).
  assert (Hp1 : prunable pb1 = true) by (unfold remove in E1; rewrite Hp in E1; by injection E1 as <-).
  destruct (remove_ok local hash_ok hash_bytes pb1 jh jd _ _ _ 1 Hst1 Hp1 ltac:(lia)) as (pb2 & E2 & Hst2 & _).
  assert (Hp2 : prunable pb2 = true) by (unfold remove in E2; rewrite Hp1 in E2; by injection E2 as <-).
  destruct (sync_ok local hash_ok hash_bytes pb2 jh jd _ _ _ Hst2) as (pb3 & E3 & Hst3 & _ & Hrest & _ & _ & Hp3 & _ & Hk & _).
  exists pb3, (j_flush jh), (j_flush jd). unfold sample_run. rewrite E. cbn [rbind]. rewrite E1. cbn [rbind].
  rewrite E2. cbn [rbind]. rewrite E3. split; [done|]. split; [done|]. split; [done|]. split; [congruence|].
  assert (Hk3 : match sample_run with Ok pb => match elmt_size (data_file pb) with Some _ => true | None => false end | Err _ => false end = true)
    by (vm_compute; reflexivity).
  unfold sample_run in Hk3. rewrite E in Hk3. cbn [rbind] in Hk3. rewrite E1 in Hk3. cbn [rbind] in Hk3.
  rewrite E2 in Hk3. cbn [rbind] in Hk3. rewrite E3 in Hk3. unfold rebuildable, elmt_size in *.
  by destruct (size_info (data_file pb3)).
Qed.

(** A computed fact about a run, for the backend it returns. *)
Lemma run_fact {A} (r : result pmmr_error A) (P : A -> bool) pb :
  match r with Ok pb => P pb | Err _ => false end = true -> r = Ok pb -> P pb = true.
Proof. by intros ? ->. Qed.

Lemma store_reads_witness :
  exists pb, sample_run = Ok pb /\ get_from_file pb 2 = Some (sample_hash 12) /\
    get_hash pb 0 = None /\ get_data (E := Hash) pb 4 = Some (sample_hash 4).
Proof.
  destruct sample_run_ok as (pb & jh & jd & E & Hst & _ & Hp & _). exists pb. split; [done|].
  assert (Hn : insertion_to_pmmr_index 4 = 7) by (vm_compute; reflexivity).
  assert (Hc2 : negb (is_compacted pb 2) = true) by (apply (run_fact sample_run (fun pb => negb (is_compacted pb 2)) pb); [vm_compute; reflexivity|done]).
  assert (Hi0 : negb (includes (leaf_set pb) 0) = true) by (apply (run_fact sample_run (fun pb => negb (includes (leaf_set pb) 0)) pb); [vm_compute; reflexivity|done]).
  assert (Hi4 : includes (leaf_set pb) 4 = true) by (apply (run_fact sample_run (fun pb => includes (leaf_set pb) 4) pb); [vm_compute; reflexivity|done]).
  apply negb_true_iff in Hc2, Hi0. split_and!.
  - destruct (store_reads local hash_ok hash_bytes pb jh jd _ _ _ 2 Hst ltac:(lia)) as (H2 & _).
    rewrite H2, Hc2. vm_compute. reflexivity.
  - destruct (store_reads local hash_ok hash_bytes pb jh jd _ _ _ 0 Hst ltac:(lia)) as (_ & _ & _ & H0 & _).
    rewrite H0, Hp, Hi0. vm_compute. reflexivity.
  - destruct (store_reads local hash_ok hash_bytes pb jh jd _ _ _ 4 Hst ltac:(lia)) as (_ & _ & _ & _ & H4 & Hnc).
    rewrite H4, Hp, Hi4. destruct (Hnc Hi4) as [-> _]. vm_compute. reflexivity.
Defined.

Lemma store_durable_witness :
  exists pb pb1 pb2, sample_unsynced = Ok pb /\ sync pb = Ok pb1 /\
    new (E := Hash) (disk (hash_file pb1)) (disk (data_file pb1)) (size_disk (data_file pb1)) (leaf_disk pb1) None
      (prun_disk pb1) true local (elmt_size (data_file pb1)) = Ok pb2 /\
    unpruned_size pb1 = Some (insertion_to_pmmr_index 4) /\
    LeafSet.iter (leaf_set pb2) = LeafSet.iter (leaf_set pb).
Proof.
  destruct sample_unsynced_ok as (pb & jh & jd & E & Hst & Hp).
  destruct (store_durable local hash_ok hash_bytes pb jh jd _ _ _ Hst Hp)
    as (pb1 & jh1 & jd1 & E1 & _ & _ & Hs & _ & _ & (pb2 & jh2 & jd2 & E2 & _ & Hl) & _).
  exists pb, pb1, pb2. split; [exact E|]. split; [exact E1|]. split; [exact E2|]. split; [exact Hs|exact Hl].
Defined.

Lemma check_compact_exact_witness :
  exists pb pb', sample_run = Ok pb /\ check_compact (E := Hash) pb 7 ∅ = Ok (true, pb') /\
    is_pruned pb' 1 = true /\ is_pruned pb' 3 = false.
Proof.
  destruct sample_run_ok as (pb & jh & jd & E & Hst & Hrest & Hp & Hreb).
  assert (Hn : insertion_to_pmmr_index 4 = 7) by (vm_compute; reflexivity).
  destruct (check_compact_exact local hash_ok hash_bytes pb jh jd _ _ 4 7 ∅ Hst ltac:(lia) Hrest Hp Hreb ltac:(lia))
    as (pb' & jh' & jd' & E' & _ & _ & _ & Hpr & _).
  exists pb, pb'. split; [exact E|]. split; [exact E'|]. rewrite !Hpr by (try lia; vm_compute; reflexivity).
  split.
  - apply (run_fact sample_run (fun pb => is_pruned pb 1 || ((1 <? 7) && negb (includes (leaf_set pb) 1) && negb (bm_contains (∅ : gset Z) (1 + 1)))) pb);
      [vm_compute; reflexivity|exact E].
  - apply negb_true_iff.
    apply (run_fact sample_run (fun pb => negb (is_pruned pb 3 || ((3 <? 7) && negb (includes (leaf_set pb) 3) && negb (bm_contains (∅ : gset Z) (3 + 1))))) pb);
      [vm_compute; reflexivity|exact E].
Defined.

(** Hashes of leaves and of pairs, for the computation. *)
Definition sample_mmr_hash : PMMRHash Hash Hash := {|
  leaf_hash x _ := x;
  pair_hash x _ := sample_hash (match hash_bytes (fst x), hash_bytes (snd x) with a :: _, b :: _ => a + 10 * b | _, _ => 0 end);
  ZERO_HASH := sample_hash 0;
|}.

Lemma compaction_keeps_mmr_witness :
  exists pb pb', sample_run = Ok pb /\ check_compact (E := Hash) pb 7 ∅ = Ok (true, pb') /\
    get_data (E := Hash) pb' 3 = get_data (E := Hash) pb 3 /\
    root (PH := sample_mmr_hash) (BE := store_backend (fun x : Hash => x)) (at_ pb' (insertion_to_pmmr_index 4)) =
    root (PH := sample_mmr_hash) (BE := store_backend (fun x : Hash => x)) (at_ pb (insertion_to_pmmr_index 4)).
Proof.
  destruct sample_run_ok as (pb & jh & jd & E & Hst & Hrest & Hp & Hreb).
  assert (Hn : insertion_to_pmmr_index 4 = 7) by (vm_compute; reflexivity).
  destruct (compaction_keeps_mmr (fun x : Hash => x) local hash_ok hash_bytes (PH := sample_mmr_hash) pb jh jd _ _ 4 7 ∅
    Hst ltac:(lia) Hrest Hp Hreb ltac:(lia)) as (pb' & E' & Hroot & Hleaf).
  exists pb, pb'. split; [exact E|]. split; [exact E'|].
  destruct (Hleaf 3) as (_ & _ & Hd & _); [lia| |split; [exact Hd|exact Hroot]].
  apply (run_fact sample_run (fun pb => includes (leaf_set pb) 3) pb); [vm_compute; reflexivity|exact E].
Defined.

Lemma store_append_witness :
  exists pb pb', new (BM := gset Z) (E := Hash) [] [] [] None None None true local (Some HASH_SIZE) = Ok pb /\
    append (fun x : Hash => x) pb (sample_hash 1) [sample_hash 1] = Ok pb' /\
    leaf_set pb' = LeafSet.add (leaf_set pb) (insertion_to_pmmr_index 0).
Proof.
  destruct (new_empty (fun _ => sample_hash 0) (fun _ => sample_hash 0)) as (pb & En & Hst & Hp & Hk & _).
  destruct (store_append (fun x : Hash => x) local hash_ok hash_bytes pb _ _ _ _ 0 (sample_hash 1) [sample_hash 1] Hst)
    as (pb' & E' & _ & Hls & _).
  - lia.
  - vm_compute. reflexivity.
  - vm_compute. congruence.
  - by repeat constructor.
  - done.
  - by rewrite Hk.
  - vm_compute. reflexivity.
  - vm_compute. reflexivity.
  - exists pb, pb'. split; [exact En|]. split; [exact E'|]. by rewrite Hls, Hp.
Defined.

Lemma store_rewind_witness :
  exists pb pb', sample_run = Ok pb /\ rewind pb (insertion_to_pmmr_index 3) {[ 1; 2 ]} = Ok pb' /\
    includes (leaf_set pb') 0 = true /\ includes (leaf_set pb') 1 = true.
Proof.
  destruct sample_run_ok as (pb & jh & jd & E & Hst & (Hph & Hpd & _) & Hp & _).
  assert (Hr : bool_decide (roots (prune_list pb) = []) = true)
    by (apply (run_fact sample_run (fun pb => bool_decide (roots (prune_list pb) = [])) pb); [vm_compute; reflexivity|done]).
  apply bool_decide_eq_true in Hr.
  assert (Hrm : forall x, bm_in x ({[ 1; 2 ]} : gset Z) -> x = 1 \/ x = 2)
    by (intros x [Hx|Hx]%gset_in%elem_of_union; apply elem_of_singleton in Hx; auto).
  assert (Hrm' : forall x, x = 1 \/ x = 2 -> bm_in x ({[ 1; 2 ]} : gset Z))
    by (intros x Hx; apply gset_in, elem_of_union; rewrite !elem_of_singleton; done).
  assert (Hn4 : insertion_to_pmmr_index 4 = 7) by (vm_compute; reflexivity).
  assert (Hn3 : insertion_to_pmmr_index 3 = 4) by (vm_compute; reflexivity).
  destruct (store_rewind local hash_ok hash_bytes pb jh jd _ _ _ 3 {[ 1; 2 ]} Hst) as (pb' & jh' & jd' & E' & _ & Hi & _).
  - lia.
  - lia.
  - done.
  - done.
  - done.
  - rewrite Hr. constructor.
  - intros x Hx. apply Hrm in Hx. rewrite Hr. split; [lia|]. split; [by destruct Hx as [->| ->]|].
    by intros (r & ?%elem_of_nil & _).
  - exists pb, pb'. split; [exact E|]. split; [exact E'|]. rewrite !Hi by lia.
    split; right; apply Hrm'; [by left|by right].
Defined.

Lemma append_pruned_subtree_exact_witness :
  exists pb pb', new (BM := gset Z) (E := Hash) [] [] [] None None None true local (Some HASH_SIZE) = Ok pb /\
    append_pruned_subtree pb (sample_hash 7) 2 = Ok pb' /\ get_from_file pb' 2 = Some (sample_hash 7).
Proof.
  destruct (new_empty (fun _ => sample_hash 0) (fun _ => sample_hash 0)) as (pb & En & Hst & Hp & _).
  destruct (append_pruned_subtree_exact local hash_ok hash_bytes pb _ _ _ _ (sample_hash 7) 2 Hst Hp)
    as (pb' & E' & _ & Hg & _).
  - lia.
  - vm_compute. reflexivity.
  - apply negb_true_iff.
    apply (run_fact (new (BM := gset Z) (E := Hash) [] [] [] None None None true local (Some HASH_SIZE))
      (fun pb => negb (is_pruned pb (snd (family 2)))) pb); [vm_compute; reflexivity|exact En].
  - done.
  - vm_compute. reflexivity.
  - exists pb, pb'. split; [exact En|]. split; [exact E'|exact Hg].
Defined.
