(* ===== verification/Segments.v ===== *)
(** Segments of a Merkle mountain range.

    Models [src/core/src/core/pmmr/segment.rs]: the identifiers of segments and
    the leaves and positions they stand for, the segments themselves with their
    binary encoding, how a segment is cut from a range, how its root is
    computed with or without the bitmap of unspent leaves, and the proofs that
    tie a segment to the root of the range.

    The hash of a leaf that a segment carries is the parameter [elmt_hash]. An
    operation ends with a [SegmentError] or, where the source unwraps an empty
    option, with [Panic]. Shifts by a height mask it, as release builds do. *)

From Stdlib Require Import ZArith Lia.
From stdpp Require Import base numbers option sorting gmap list.
From S2P Require Import Prelude PmmrIndex Pmmr Ser Bitmap.
Open Scope Z_scope.

Definition MAX_SEGMENT_READ_ITEMS : Z := 1000000.

Inductive SegmentType : Type := SegBitmap | SegOutput | SegRangeProof | SegKernel.
#[export] Instance segment_type_eq_dec : EqDecision SegmentType.
Proof. solve_decision. Defined.

Inductive SegmentError : Type :=
| MissingLeaf (pos : Z)
| MissingHash (pos : Z)
| NonExistent
| Mismatch.

(** How an operation on a segment ends when it does not return. *)
Inductive seg_stop : Type := Panic | Seg (e : SegmentError).

Definition unwrap {A} (o : option A) : result seg_stop A := ok_or o Panic.
Definition expect_or {A} (o : option A) (e : SegmentError) : result seg_stop A := ok_or o (Seg e).

(** The height is a [u8], the index a [u64]. *)
Record SegmentIdentifier : Type := mkId { height : Z; idx : Z }.
#[export] Instance segment_identifier_eq_dec : EqDecision SegmentIdentifier.
Proof. solve_decision. Defined.

Record SegmentTypeIdentifier : Type := mkTypeId {
  segment_type : SegmentType;
  identifier_ : SegmentIdentifier;
}.
#[export] Instance segment_type_identifier_eq_dec : EqDecision SegmentTypeIdentifier.
Proof. solve_decision. Defined.

#[export] Instance segment_identifier_readable : Readable SegmentIdentifier :=
  fun R _ r =>
    let? (height, r) := read_u8 r in
    let? (idx, r) := read_u64 r in
    Ok (mkId height idx, r).
#[export] Instance segment_identifier_writeable : Writeable SegmentIdentifier :=
  fun w id => write_u8 w (height id) +w+ write_u64 w (idx id).

(** [u64::div_ceil] *)
Definition div_ceil (a b : Z) : Z := (a + b - 1) / b.

Definition count_segments_required (target_mmr_size segment_height : Z) : Z :=
  let d := shl64 1 segment_height in div_ceil (n_leaves target_mmr_size) d.

Definition traversal_iter (target_mmr_size segment_height : Z) : list SegmentIdentifier :=
  map (mkId segment_height) (seqZ 0 (count_segments_required target_mmr_size segment_height)).

Definition pmmr_size (num_segments height : Z) : Z :=
  insertion_to_pmmr_index (mul64 num_segments (shl64 1 height)).

Definition segment_capacity (id : SegmentIdentifier) : Z := shl64 1 (height id).

Definition leaf_offset (id : SegmentIdentifier) : Z := mul64 (idx id) (segment_capacity id).

Definition segment_unpruned_size (id : SegmentIdentifier) (mmr_size : Z) : Z :=
  Z.min (segment_capacity id) (sat_sub64 (n_leaves mmr_size) (leaf_offset id)).

Definition full_segment (id : SegmentIdentifier) (mmr_size : Z) : bool :=
  segment_unpruned_size id mmr_size =? segment_capacity id.

Definition segment_pos_range (id : SegmentIdentifier) (mmr_size : Z) : Z * Z :=
  let segment_size := segment_unpruned_size id mmr_size in
  let leaf_offset := leaf_offset id in
  let first := insertion_to_pmmr_index leaf_offset in
  let last :=
    if full_segment id mmr_size then
      add64 (insertion_to_pmmr_index (sub64 (add64 leaf_offset segment_size) 1)) (height id)
    else sub64 mmr_size 1 in
  (first, last).

(** ** Proofs *)

Section proof.
Context {T E Hash B : Type} {PH : PMMRHash T Hash} {BE : Backend T E Hash B}.

Record SegmentProof : Type := mkSegProof { proof_hashes : list Hash }.

Definition empty_proof_ : SegmentProof := mkSegProof [].

(** [collect] of results: the first failure, or all the values. *)
Fixpoint collect {X A Y} (f : A -> result X Y) (l : list A) : result X (list Y) :=
  match l with
  | [] => Ok []
  | a :: l => let? y := f a in let? ys := collect f l in Ok (y :: ys)
  end.

Definition hash_or_missing (p : PMMR B) (pos0 : Z) : result seg_stop Hash :=
  expect_or (get_hash (T := T) p pos0) (MissingHash pos0).

(** [last_pos] is the size of the range; the bounds are 1-based. *)
Definition generate (p : PMMR B) (last_pos segment_first_pos segment_last_pos : Z)
    (start_pos : option Z) : result seg_stop SegmentProof :=
  let branch := family_branch (sub64 segment_last_pos 1) last_pos in
  let? siblings := collect (fun x => hash_or_missing p (snd x))
    (filter (fun x => is_true (match start_pos with Some s => s <=? fst x | None => true end)) branch) in
  let peak_pos := match last branch with Some (p0, _) => p0 | None => sub64 segment_last_pos 1 end in
  let rhs := match bag_the_rhs (T := T) p peak_pos with Some h => [h] | None => [] end in
  let? peaks := collect (hash_or_missing p)
    (rev (filter (fun x => add64 1 x < segment_first_pos) (peaks last_pos))) in
  Ok (mkSegProof (siblings ++ rhs ++ peaks)).

Definition proof_size (s : SegmentProof) : Z := Z.of_nat (length (proof_hashes s)).

(** [iter.next().ok_or_else(..)?] *)
Definition next_hash (iter : list Hash) (missing : Z) : result seg_stop (Hash * list Hash) :=
  match iter with
  | h :: iter => Ok (h, iter)
  | [] => Err (Seg (MissingHash (add64 1 missing)))
  end.

(** The siblings on the way to the peak. *)
Fixpoint climb_root (branch : list (Z * Z)) (segment_unpruned_pos : Z) (root : Hash)
    (iter : list Hash) : result seg_stop (Hash * list Hash) :=
  match branch with
  | [] => Ok (root, iter)
  | (p0, s0) :: branch =>
      if segment_unpruned_pos <=? p0 then
        let? (sibling_hash, iter) := next_hash iter s0 in
        let root := if is_left_sibling s0 then pair_hash (sibling_hash, root) p0
                    else pair_hash (root, sibling_hash) p0 in
        climb_root branch segment_unpruned_pos root iter
      else climb_root branch segment_unpruned_pos root iter
  end.

(** The peaks on the left. *)
Fixpoint left_root (peaks : list Z) (last_pos : Z) (root : Hash) (iter : list Hash)
    : result seg_stop Hash :=
  match peaks with
  | [] => Ok root
  | pos0 :: peaks =>
      let? (h, iter) := next_hash iter pos0 in
      left_root peaks last_pos (pair_hash (h, root) last_pos) iter
  end.

Definition reconstruct_root (s : SegmentProof)
    (last_pos segment_first_pos0 segment_last_pos0 : Z) (segment_root : Hash)
    (segment_unpruned_pos : Z) : result seg_stop Hash :=
  let branch := family_branch segment_last_pos0 last_pos in
  let? (root, iter) := climb_root branch segment_unpruned_pos segment_root (proof_hashes s) in
  let peak_pos0 := match last branch with Some (p0, _) => p0 | None => segment_last_pos0 end in
  let? (root, iter) :=
    match find (fun x => peak_pos0 <? x) (peaks last_pos) with
    | Some pos0 =>
        let? (h, iter) := next_hash iter pos0 in
        Ok (pair_hash (root, h) last_pos, iter)
    | None => Ok (root, iter)
    end in
  left_root (rev (filter (fun x => x < segment_first_pos0) (peaks last_pos))) last_pos root iter.

Definition check_root (root mmr_root : Hash) : result seg_stop unit :=
  if decide (root = mmr_root) then Ok tt else Err (Seg Mismatch).

Definition proof_validate (s : SegmentProof) (last_pos : Z) (mmr_root : Hash)
    (segment_first_pos segment_last_pos : Z) (segment_root : Hash) (segment_unpruned_pos : Z)
    : result seg_stop unit :=
  let? root := reconstruct_root s last_pos segment_first_pos segment_last_pos segment_root
    segment_unpruned_pos in
  check_root root mmr_root.

Definition proof_validate_with (s : SegmentProof) (last_pos : Z) (mmr_root : Hash)
    (segment_first_pos segment_last_pos : Z) (segment_root : Hash) (segment_unpruned_pos : Z)
    (hash_last_pos : Z) (other_root : Hash) (other_is_left : bool) : result seg_stop unit :=
  let? root := reconstruct_root s last_pos segment_first_pos segment_last_pos segment_root
    segment_unpruned_pos in
  let root := if other_is_left then pair_hash (other_root, root) hash_last_pos
              else pair_hash (root, other_root) hash_last_pos in
  check_root root mmr_root.

(** ** Segments *)

Record Segment : Type := mkSegment {
  identifier : SegmentIdentifier;
  hash_pos : list Z;
  hashes : list Hash;
  leaf_pos : list Z;
  leaf_data : list E;
  seg_proof : SegmentProof;
}.

Definition empty (identifier : SegmentIdentifier) : Segment :=
  mkSegment identifier [] [] [] [] empty_proof_.

Definition get_hash (s : Segment) (pos0 : Z) : result seg_stop Hash :=
  expect_or (snd <$> find (fun x => fst x =? pos0) (zip (hash_pos s) (hashes s)))
    (MissingHash pos0).

Definition leaf_iter (s : Segment) : list (Z * E) := zip (leaf_pos s) (leaf_data s).
Definition hash_iter (s : Segment) : list (Z * Hash) := zip (hash_pos s) (hashes s).

(** The loops of assertions of [from_parts]. *)
Fixpoint increasing_from (last : Z) (l : list Z) : bool :=
  match l with
  | [] => true
  | pos :: l => ((last =? 0) || (last <? pos)) && increasing_from pos l
  end.

Definition from_parts (identifier : SegmentIdentifier) (hash_pos : list Z) (hashes : list Hash)
    (leaf_pos : list Z) (leaf_data : list E) (proof : SegmentProof) : option Segment :=
  if (length hash_pos =? length hashes)%nat && increasing_from 0 hash_pos &&
     (length leaf_pos =? length leaf_data)%nat && increasing_from 0 leaf_pos
  then Some (mkSegment identifier hash_pos hashes leaf_pos leaf_data proof)
  else None.

(** *** Cutting a segment from a range *)

Definition push_leaf (s : Segment) (pos0 : Z) (data : E) : Segment :=
  mkSegment (identifier s) (hash_pos s) (hashes s) (leaf_pos s ++ [pos0]) (leaf_data s ++ [data])
    (seg_proof s).
Definition push_hash (s : Segment) (pos0 : Z) (h : Hash) : Segment :=
  mkSegment (identifier s) (hash_pos s ++ [pos0]) (hashes s ++ [h]) (leaf_pos s) (leaf_data s)
    (seg_proof s).

(** One position of the range. *)
Definition fill_step (p : PMMR B) (prunable : bool) (s : Segment) (pos0 : Z)
    : result seg_stop Segment :=
  let hash_only :=
    if prunable then
      match get_from_file (T := T) p pos0 with Some h => Ok (push_hash s pos0 h) | None => Ok s end
    else Ok s in
  if is_leaf pos0 then
    match get_data_from_file (T := T) p pos0 with
    | Some data => Ok (push_leaf s pos0 data)
    | None => if negb prunable then Err (Seg (MissingLeaf pos0)) else hash_only
    end
  else hash_only.

Fixpoint fill (p : PMMR B) (prunable : bool) (s : Segment) (l : list Z) : result seg_stop Segment :=
  match l with
  | [] => Ok s
  | pos0 :: l => let? s := fill_step p prunable s pos0 in fill p prunable s l
  end.

(** The first parent that is still stored, of a segment with nothing left. *)
Fixpoint first_stored (p : PMMR B) (branch : list (Z * Z)) : option (Z * Hash) :=
  match branch with
  | [] => None
  | (pos0, _) :: branch =>
      match get_from_file (T := T) p pos0 with
      | Some h => Some (pos0, h)
      | None => first_stored p branch
      end
  end.

Definition from_pmmr (segment_id : SegmentIdentifier) (p : PMMR B) (prunable : bool)
    : result seg_stop Segment :=
  let mmr_size := unpruned_size p in
  if segment_unpruned_size segment_id mmr_size =? 0 then Err (Seg NonExistent)
  else
    let '(first, last) := segment_pos_range segment_id mmr_size in
    let? s := fill p prunable (empty segment_id) (range_incl first last) in
    let '(s, start_pos) :=
      match leaf_data s, hashes s with
      | [], [] =>
          match first_stored p (family_branch last mmr_size) with
          | Some (pos0, h) => (push_hash s pos0 h, Some (add64 1 pos0))
          | None => (s, None)
          end
      | _, _ => (s, None)
      end in
    let? proof := generate p mmr_size (add64 1 first) (add64 1 last) start_pos in
    Ok (mkSegment (identifier s) (hash_pos s) (hashes s) (leaf_pos s) (leaf_data s) proof).

(** *** The root of a segment *)

Context {BM : Type} {HB : Bitmap BM} (elmt_hash : E -> Z -> Hash).

(** [leaves0.find(..)] consumes the leaves up to the one it finds. *)
Fixpoint find_leaf (pos0 : Z) (leaves0 : list (Z * E)) : option E * list (Z * E) :=
  match leaves0 with
  | [] => (None, [])
  | (p, x) :: leaves0 => if p =? pos0 then (Some x, leaves0) else find_leaf pos0 leaves0
  end.

(** Whether the data of the leaf has to be there. *)
Definition leaf_required (bitmap : option BM) (mmr_size pos0 : Z) : bool :=
  match bitmap with
  | None => true
  | Some b =>
      let idx_1 := sub64 (n_leaves (add64 pos0 1)) 1 in
      let idx_2 := if is_left_sibling pos0 then add64 idx_1 1 else sub64 idx_1 1 in
      bm_contains b (wrap 32 idx_1) || bm_contains b (wrap 32 idx_2) || (pos0 =? sub64 mmr_size 1)
  end.

Definition is_some {A} (o : option A) : bool := match o with Some _ => true | None => false end.

(** The hash of an inner node from what is known of its children. *)
Definition parent_hash (s : Segment) (prunable : bool) (pos0 height : Z)
    (left_child right_child : option Hash) : result seg_stop (option Hash) :=
  let left_child_pos := sub64 (add64 1 pos0) (shl64 1 height) in
  let right_child_pos := pos0 in
  if prunable then
    match left_child, right_child with
    | None, None => Ok None
    | Some l, Some r => Ok (Some (pair_hash (l, r) pos0))
    | None, Some r =>
        let? l := get_hash s (sub64 left_child_pos 1) in Ok (Some (pair_hash (l, r) pos0))
    | Some l, None =>
        let? r := get_hash s (sub64 right_child_pos 1) in Ok (Some (pair_hash (l, r) pos0))
    end
  else
    let? l := expect_or left_child (MissingHash left_child_pos) in
    let? r := expect_or right_child (MissingHash right_child_pos) in
    Ok (Some (pair_hash (l, r) pos0)).

(** One position of the loop of [root]: the leaves that are left and the stack
    of hashes, the last pushed first. *)
Definition root_step (s : Segment) (mmr_size : Z) (bitmap : option BM)
    (st : list (Z * E) * list (option Hash)) (pos0 : Z)
    : result seg_stop (list (Z * E) * list (option Hash)) :=
  let '(leaves0, stack) := st in
  let height := bintree_postorder_height pos0 in
  if height =? 0 then
    if leaf_required bitmap mmr_size pos0 then
      let '(data, leaves0) := find_leaf pos0 leaves0 in
      let? data := expect_or data (MissingLeaf pos0) in
      Ok (leaves0, Some (elmt_hash data pos0) :: stack)
    else Ok (leaves0, None :: stack)
  else
    match stack with
    | right_child :: left_child :: stack =>
        let? h := parent_hash s (is_some bitmap) pos0 height left_child right_child in
        Ok (leaves0, h :: stack)
    | _ => Err Panic
    end.

Fixpoint root_loop (s : Segment) (mmr_size : Z) (bitmap : option BM)
    (st : list (Z * E) * list (option Hash)) (l : list Z)
    : result seg_stop (list (Z * E) * list (option Hash)) :=
  match l with
  | [] => Ok st
  | pos0 :: l => let? st := root_step s mmr_size bitmap st pos0 in root_loop s mmr_size bitmap st l
  end.

(** Bagging the peaks of the last segment, from the right. *)
Fixpoint bag_loop (s : Segment) (mmr_size : Z) (bitmap : option BM) (peaks : list Z)
    (stack : list (option Hash)) (hash : option Hash) : result seg_stop (option Hash) :=
  match peaks with
  | [] => Ok hash
  | pos0 :: peaks =>
      match stack with
      | [] => Err (Seg (MissingHash (add64 1 pos0)))
      | lhash :: stack =>
          let? lhash :=
            if negb (is_some lhash) && is_some bitmap then
              let? h := get_hash s pos0 in Ok (Some h)
            else Ok lhash in
          let? lhash := expect_or lhash (MissingHash (add64 1 pos0)) in
          bag_loop s mmr_size bitmap peaks stack (bag_step (T := T) mmr_size hash lhash)
      end
  end.

Definition seg_root (s : Segment) (mmr_size : Z) (bitmap : option BM)
    : result seg_stop (option Hash) :=
  let '(first, last) := segment_pos_range (identifier s) mmr_size in
  let? (_, stack) := root_loop s mmr_size bitmap (leaf_iter s, []) (range_incl first last) in
  if full_segment (identifier s) mmr_size then unwrap (head stack)
  else
    let peaks := rev (filter (fun pos0 => first <= pos0 <= last) (peaks mmr_size)) in
    let? hash := bag_loop s mmr_size bitmap peaks stack None in
    let? hash := unwrap hash in
    Ok (Some hash).

(** The loop of [first_unpruned_parent], from [pos0] upwards. *)
Fixpoint unpruned_loop (s : Segment) (bitmap : BM) (n_leaves_ pos0 : Z) (branch : list (Z * Z))
    : result seg_stop (Hash * Z) :=
  match get_hash s pos0 with
  | Ok h => Ok (h, add64 1 pos0)
  | Err e =>
      match branch with
      | [] => Err e
      | (p0, _) :: branch =>
          let lo := wrap 32 (sub64 (n_leaves (add64 1 (bintree_leftmost p0))) 1) in
          let hi := wrap 32 (Z.min (n_leaves (add64 1 (bintree_rightmost p0))) n_leaves_) in
          if bm_range_cardinality bitmap lo hi =? 0
          then unpruned_loop s bitmap n_leaves_ p0 branch
          else Err e
      end
  end.

Definition first_unpruned_parent (s : Segment) (mmr_size : Z) (bitmap : option BM)
    : result seg_stop (Hash * Z) :=
  let? root := seg_root s mmr_size bitmap in
  let '(_, last) := segment_pos_range (identifier s) mmr_size in
  match root with
  | Some root => Ok (root, add64 1 last)
  | None =>
      let? bitmap := unwrap bitmap in
      unpruned_loop s bitmap (n_leaves mmr_size) last (family_branch last mmr_size)
  end.

Definition validate (s : Segment) (mmr_size : Z) (bitmap : option BM) (mmr_root : Hash)
    : result seg_stop unit :=
  let '(first, last) := segment_pos_range (identifier s) mmr_size in
  let? (segment_root, segment_unpruned_pos) := first_unpruned_parent s mmr_size bitmap in
  proof_validate (seg_proof s) mmr_size mmr_root first last segment_root segment_unpruned_pos.

Definition validate_with (s : Segment) (mmr_size : Z) (bitmap : option BM) (mmr_root : Hash)
    (hash_last_pos : Z) (other_root : Hash) (other_is_left : bool) : result seg_stop unit :=
  let '(first, last) := segment_pos_range (identifier s) mmr_size in
  let? (segment_root, segment_unpruned_pos) := first_unpruned_parent s mmr_size bitmap in
  proof_validate_with (seg_proof s) mmr_size mmr_root first last segment_root
    segment_unpruned_pos hash_last_pos other_root other_is_left.

End proof.

Arguments SegmentProof : clear implicits.
Arguments Segment : clear implicits.

(** ** The binary encoding *)

Section codec.
Context {E Hash : Type} {WH : Writeable Hash} {RH : Readable Hash}
  {WE : Writeable E} {RE : Readable E}.

Definition read_segment_item_count {R} `{Reader R} (r : R) : result ser_error (Z * R) :=
  let? (count, r) := read_u64 r in
  if MAX_SEGMENT_READ_ITEMS <? count then Err TooLargeReadErr else Ok (count, r).

(** The loop of [read_segment_positions]; positions are 1-based on the wire. *)
Fixpoint read_positions {R} `{Reader R} (r : R) (count : nat) (last_pos : Z)
    : result ser_error (list Z * R) :=
  match count with
  | O => Ok ([], r)
  | S count =>
      let? (pos, r) := read_u64 r in
      if pos <=? last_pos then Err SortError
      else
        let? (l, r) := read_positions r count pos in
        Ok (sub64 pos 1 :: l, r)
  end.

Definition read_segment_positions {R} `{Reader R} (r : R) (count : Z)
    : result ser_error (list Z * R) := read_positions r (Z.to_nat count) 0.

Fixpoint read_items {A R} `{Readable A} `{Reader R} (r : R) (count : nat)
    : result ser_error (list A * R) :=
  match count with
  | O => Ok ([], r)
  | S count =>
      let? (x, r) := read r in
      let? (l, r) := read_items r count in
      Ok (x :: l, r)
  end.

Definition read_segment_items {A R} `{Readable A} `{Reader R} (r : R) (count : Z)
    : result ser_error (list A * R) := read_items r (Z.to_nat count).

#[export] Instance segment_proof_readable : Readable (SegmentProof Hash) :=
  fun R _ r =>
    let? (n_hashes, r) := read_segment_item_count r in
    let? (hashes, r) := read_segment_items r n_hashes in
    Ok (mkSegProof hashes, r).
#[export] Instance segment_proof_writeable : Writeable (SegmentProof Hash) :=
  fun w s =>
    write_u64 w (Z.of_nat (length (proof_hashes s))) +w+ write_vec w (proof_hashes s).

(** The loop that writes the positions. *)
Fixpoint write_positions (w : Writer) (l : list Z) : result ser_error bytes :=
  match l with
  | [] => Ok []
  | pos :: l => write_u64 w (add64 1 pos) +w+ write_positions w l
  end.

#[export] Instance segment_readable : Readable (Segment E Hash) :=
  fun R _ r =>
    let? (identifier, r) := read r in
    let? (n_hashes, r) := read_segment_item_count r in
    let? (hash_pos, r) := read_segment_positions r n_hashes in
    let? (hashes, r) := read_segment_items r n_hashes in
    let? (n_leaves, r) := read_segment_item_count r in
    let? (leaf_pos, r) := read_segment_positions r n_leaves in
    let? (leaf_data, r) := read_segment_items r n_leaves in
    let? (proof, r) := read r in
    Ok (mkSegment identifier hash_pos hashes leaf_pos leaf_data proof, r).
#[export] Instance segment_writeable : Writeable (Segment E Hash) :=
  fun w s =>
    write w (identifier s) +w+
    write_u64 w (Z.of_nat (length (hashes s))) +w+
    write_positions w (hash_pos s) +w+
    write_vec w (hashes s) +w+
    write_u64 w (Z.of_nat (length (leaf_data s))) +w+
    write_positions w (leaf_pos s) +w+
    write_vec w (leaf_data s) +w+
    write w (seg_proof s).

End codec.

(** ** Round trips *)

(** [enc] writes what [dec] reads back as [x]; [roundtrips] is the case of
    [write] and [read]. *)
Definition decodes v {X} (enc : result ser_error bytes)
    (dec : forall R, Reader R -> R -> result ser_error (X * R)) (x : X) : Prop :=
  exists bs, enc = Ok bs /\
    forall R (RD : Reader R) (RL : ReaderLaws R) (r : R) tl,
      protocol_version r = v -> deserialization_mode r = DeFull -> input r = bs ++ tl ->
      exists r', dec R RD r = Ok (x, r') /\ advanced input r r' tl.

Lemma decodes_bind v {X Y} e1 e2 d1 (k : X -> forall R, Reader R -> R -> result ser_error (Y * R)) x y :
  decodes v e1 d1 x -> decodes v e2 (k x) y ->
  decodes v (e1 +w+ e2) (fun R RD r => let? (x, r) := d1 R RD r in k x R RD r) y.
Proof.
  intros (b1 & -> & H1) (b2 & -> & H2). exists (b1 ++ b2). split; [done|].
  intros R RD RL r tl Hv Hm Hin. rewrite <- app_assoc in Hin.
  destruct (H1 R RD RL r _ Hv Hm Hin) as (r1 & -> & A1). pose proof A1 as (Hin1 & Hv1 & Hm1 & _).
  destruct (H2 R RD RL r1 tl) as (r2 & E2 & A2); [congruence..|].
  exists r2. split; [exact E2|]. by eapply advanced_trans.
Qed.

Lemma decodes_map v {X Y} e d (f : X -> Y) x :
  decodes v e d x -> decodes v e (fun R RD r => let? (x, r) := d R RD r in Ok (f x, r)) (f x).
Proof.
  intros (b & -> & H). exists b. split; [done|]. intros R RD RL r tl Hv Hm Hin.
  destruct (H R RD RL r _ Hv Hm Hin) as (r1 & -> & A1). by exists r1.
Qed.

(** Positions that can be on the wire: increasing and below [u64::MAX]. *)
Definition wire_positions (l : list Z) : Prop :=
  StronglySorted Z.lt l /\ Forall (fun p => 0 <= p < 2 ^ 64 - 1) l.

Lemma decodes_count v n :
  0 <= n <= MAX_SEGMENT_READ_ITEMS ->
  decodes v (write_u64 (mkWriter SerFull v) n) (fun R RD r => read_segment_item_count r) n.
Proof.
  intros Hn. eexists. split; [reflexivity|]. intros R RD RL r tl _ _ Hin.
  unfold read_segment_item_count, MAX_SEGMENT_READ_ITEMS in *.
  read_step (read_u64_ok r n tl); [unfold_words; lia|done|].
  destruct (Z.ltb_spec 1000000 n); [lia|]. eauto.
Qed.

Lemma decodes_positions_from v (l : list Z) last :
  wire_positions l -> Forall (fun p => last <= p) l ->
  decodes v (write_positions (mkWriter SerFull v) l) (fun R RD r => read_positions r (length l) last) l.
Proof.
  intros [Hs Hr]. revert last. induction Hs as [|p l Hs IH Hp]; intros last Hlast.
  - exists []. split; [done|]. intros R RD RL r tl Hv Hm Hin. exists r. split; [done|]. by split.
  - apply Forall_cons in Hr as [Hp0 Hr]. apply Forall_cons in Hlast as [Hl _].
    destruct (IH Hr (1 + p)) as (bs & Ew & Hrd).
    { eapply Forall_impl; [exact Hp|]. simpl. lia. }
    exists (be 8 (1 + p) ++ bs). split.
    { cbn [write_positions]. rewrite (add64_small 1) by (unfold_words; lia). by apply wseq_Ok. }
    intros R RD RL r tl Hv Hm Hin. rewrite <- app_assoc in Hin. cbn [read_positions length].
    read_step (read_u64_ok r (1 + p) (bs ++ tl)); [unfold_words; lia|done|].
    destruct (Z.leb_spec (1 + p) last); [lia|]. pose proof Ha as (Hin1 & Hv1 & Hm1 & _).
    destruct (Hrd R RD RL r0 tl) as (r2 & E2 & Ha2); [congruence..|]. rewrite E2. cbn [rbind].
    rewrite sub64_small by (unfold_words; lia). replace (1 + p - 1) with p by lia.
    eexists. split; [reflexivity|]. by eapply advanced_trans.
Qed.

Lemma decodes_positions v (l : list Z) n :
  wire_positions l -> n = Z.of_nat (length l) ->
  decodes v (write_positions (mkWriter SerFull v) l) (fun R RD r => read_segment_positions r n) l.
Proof.
  intros Hl ->. unfold read_segment_positions. rewrite Nat2Z.id.
  apply decodes_positions_from; [done|]. destruct Hl as [_ Hr].
  eapply Forall_impl; [exact Hr|]. simpl. lia.
Qed.

Lemma decodes_items v {A} {WA : Writeable A} {RA : Readable A} (l : list A) n :
  Forall (roundtrips v) l -> n = Z.of_nat (length l) ->
  decodes v (write_vec (mkWriter SerFull v) l) (fun R RD r => read_segment_items r n) l.
Proof.
  intros Hl ->. unfold read_segment_items. rewrite Nat2Z.id.
  induction Hl as [|x l (bx & Ex & Hx) _ (bl & El & IH)].
  - exists []. split; [done|]. intros R RD RL r tl _ _ Hin. exists r. by split.
  - exists (bx ++ bl). split; [by apply write_vec_cons|]. intros R RD RL r tl Hv Hm Hin.
    rewrite <- app_assoc in Hin. destruct (Hx R RD RL r _ Hv Hm Hin) as (r1 & E1 & Ha1).
    pose proof Ha1 as (Hin1 & Hv1 & Hm1 & _).
    destruct (IH R RD RL r1 tl) as (r2 & E2 & Ha2); [congruence..|].
    exists r2. cbn [read_items length]. rewrite E1. cbn [rbind]. rewrite E2. cbn [rbind].
    split; [done|]. by eapply advanced_trans.
Qed.

Definition wire_id (id : SegmentIdentifier) : Prop := in_range 8 (height id) /\ u64 (idx id).

Lemma segment_identifier_roundtrips v id : wire_id id -> roundtrips v id.
Proof.
  intros [Hh Hi]. eexists. split; [reflexivity|]. intros R RD RL r tl _ _ Hin.
  unfold read, segment_identifier_readable.
  read_step (read_u8_ok r (height id) (be 8 (idx id) ++ tl)); [done|exact Hin|].
  pose proof Ha as [Hin0 _].
  read_step (read_u64_ok r0 (idx id) tl); [done|done|].
  destruct id. eexists. split; [reflexivity|]. by eapply advanced_trans.
Qed.

Section roundtrip.
Context {E Hash : Type} {WH : Writeable Hash} {RH : Readable Hash}
  {WE : Writeable E} {RE : Readable E}.

Definition wire_proof v (s : SegmentProof Hash) : Prop :=
  Forall (roundtrips v) (proof_hashes s) /\
  Z.of_nat (length (proof_hashes s)) <= MAX_SEGMENT_READ_ITEMS.

Lemma segment_proof_roundtrips v s : wire_proof v s -> roundtrips v s.
Proof.
  intros [Hs Hl]. destruct s as [hs]. cbn [proof_hashes] in *.
  change (decodes v (write_u64 (mkWriter SerFull v) (Z.of_nat (length hs)) +w+
      write_vec (mkWriter SerFull v) hs)
    (fun R RD r => let? (n, r) := read_segment_item_count r in
                   let? (l, r) := read_segment_items r n in Ok (mkSegProof l, r)) (mkSegProof hs)).
  eapply (decodes_bind v _ _ _ (fun n R RD r => _) (Z.of_nat (length hs))); [apply decodes_count; lia|].
  eapply (decodes_map v _ _ (fun l => mkSegProof l)). by apply decodes_items.
Qed.

(** What a segment has to satisfy to be sent. *)
Record wire_segment v (s : Segment E Hash) : Prop := {
  ws_id : wire_id (identifier s);
  ws_hash_pos : wire_positions (hash_pos s);
  ws_hash_len : length (hash_pos s) = length (hashes s);
  ws_hash_max : Z.of_nat (length (hashes s)) <= MAX_SEGMENT_READ_ITEMS;
  ws_hashes : Forall (roundtrips v) (hashes s);
  ws_leaf_pos : wire_positions (leaf_pos s);
  ws_leaf_len : length (leaf_pos s) = length (leaf_data s);
  ws_leaf_max : Z.of_nat (length (leaf_data s)) <= MAX_SEGMENT_READ_ITEMS;
  ws_leaves : Forall (roundtrips v) (leaf_data s);
  ws_proof : wire_proof v (seg_proof s);
}.

(** Segments survive the wire: a segment whose positions increase, with as
    many hashes and leaves as positions and at most a million of each, is read
    back equal by every reader, which consumes exactly the bytes written. *)
Theorem segment_roundtrip v (s : Segment E Hash) : wire_segment v s -> roundtrips v s.
Proof.
  intros [Hid Hhp Hhl Hhm Hh Hlp Hll Hlm Hl Hp]. destruct s as [id hp hs lp ld pr].
  cbn [identifier hash_pos hashes leaf_pos leaf_data seg_proof] in *.
  change (decodes v (write (mkWriter SerFull v) (mkSegment id hp hs lp ld pr))
    (fun R RD r => read r) (mkSegment id hp hs lp ld pr)).
  unfold write at 1, segment_writeable, read at 1, segment_readable.
  cbn [identifier hash_pos hashes leaf_pos leaf_data seg_proof].
  eapply (decodes_bind v _ _ _ (fun _ R RD r => _) id); [by apply segment_identifier_roundtrips|].
  eapply (decodes_bind v _ _ _ (fun _ R RD r => _) (Z.of_nat (length hs))); [apply decodes_count; lia|].
  eapply (decodes_bind v _ _ _ (fun _ R RD r => _) hp); [apply decodes_positions; [done|lia]|].
  eapply (decodes_bind v _ _ _ (fun _ R RD r => _) hs); [by apply decodes_items|].
  eapply (decodes_bind v _ _ _ (fun _ R RD r => _) (Z.of_nat (length ld))); [apply decodes_count; lia|].
  eapply (decodes_bind v _ _ _ (fun _ R RD r => _) lp); [apply decodes_positions; [done|lia]|].
  eapply (decodes_bind v _ _ _ (fun _ R RD r => _) ld); [by apply decodes_items|].
  eapply (decodes_map v _ _ (mkSegment id hp hs lp ld)). by apply segment_proof_roundtrips.
Qed.

End roundtrip.

Definition sample_segment : Segment Commitment Hash :=
  mkSegment (mkId 1 1) [5; 6] [mkHash (replicate 32 1); mkHash (replicate 32 2)]
    [3; 4] [mkCommitment (replicate 33 3); mkCommitment (replicate 33 4)]
    (mkSegProof [mkHash (replicate 32 5)]).

Lemma sample_segment_wire v : wire_segment v sample_segment.
Proof.
  split; cbn [sample_segment identifier hash_pos hashes leaf_pos leaf_data seg_proof];
    unfold wire_id, wire_positions, wire_proof, MAX_SEGMENT_READ_ITEMS; simpl; try done.
  - split; [repeat constructor; lia|repeat constructor; lia].
  - repeat constructor; by apply hash_roundtrips.
  - split; [repeat constructor; lia|repeat constructor; lia].
  - repeat constructor; by apply commitment_roundtrips.
  - split; [|lia]. repeat constructor. by apply hash_roundtrips.
Qed.

Lemma segment_roundtrip_witness : roundtrips PROTOCOL_VERSION sample_segment.
Proof. apply segment_roundtrip, sample_segment_wire. Defined.
