(* ===== verification/SegmentSpec.v ===== *)
(** What segments promise.

    Proves, for the segments of [Segments.v], that the stack machine of [root]
    computes a recursive definition over the tree of the segment, that a
    segment cut from a range validates against the root of the range, and that
    validation binds the leaves a segment carries. *)

From Stdlib Require Import ZArith Lia.
From stdpp Require Import base numbers option sorting gmap list.
From S2P Require Import Prelude PmmrIndex Pmmr Ser Bitmap Segments.
Open Scope Z_scope.

#[local] Arguments peak_bits : simpl never.

(** ** Looking up positions *)

Definition lookup_pos {A} (l : list (Z * A)) (pos : Z) : option A :=
  snd <$> find (fun x => fst x =? pos) l.

Lemma lookup_pos_None {A} (l : list (Z * A)) pos :
  Forall (fun x => fst x <> pos) l -> lookup_pos l pos = None.
Proof.
  unfold lookup_pos. induction 1 as [|x l Hx _ IH]; [done|]. simpl.
  destruct (Z.eqb_spec (fst x) pos); done.
Qed.

Lemma find_leaf_lookup {A} (l : list (Z * A)) pos :
  StronglySorted Z.lt l.*1 ->
  fst (find_leaf pos l) = lookup_pos l pos /\
  StronglySorted Z.lt (snd (find_leaf pos l)).*1 /\
  forall x, pos < x -> lookup_pos l pos <> None -> lookup_pos (snd (find_leaf pos l)) x = lookup_pos l x.
Proof.
  unfold lookup_pos. induction l as [|[p a] l IH]; intros Hs; [done|].
  cbn [fmap list_fmap fst] in Hs. apply StronglySorted_cons in Hs as [Hp Hs].
  cbn [find_leaf find fst]. destruct (Z.eqb_spec p pos) as [->|Hne]; simpl.
  - split_and!; [done|done|]. intros x Hx _. destruct (Z.eqb_spec pos x); [lia|done].
  - destruct (IH Hs) as (E & Hs' & Hl). split_and!; [done|done|].
    intros x Hx Hsome. rewrite (Hl x Hx Hsome). destruct (Z.eqb_spec p x) as [->|]; [|done].
    exfalso. apply Hsome, lookup_pos_None. apply Forall_forall. intros y Hy.
    eapply Forall_forall in Hp; [|apply list_elem_of_fmap_2, Hy]. lia.
Qed.

(** ** The positions of a segment *)

Record seg_ok (id : SegmentIdentifier) (n : Z) : Prop := {
  so_height : 0 <= height id <= 60;
  so_idx : 0 <= idx id;
  so_in : 2 ^ height id * idx id < n;
  so_n : n < 2 ^ 60;
}.

Definition is_full (id : SegmentIdentifier) (n : Z) : bool := 2 ^ height id * (idx id + 1) <=? n.

Lemma segment_geometry id n :
  seg_ok id n ->
  segment_unpruned_size id (npos 0 n) = Z.min (2 ^ height id) (n - 2 ^ height id * idx id) /\
  full_segment id (npos 0 n) = is_full id n /\
  segment_pos_range id (npos 0 n) =
    (npos 0 (2 ^ height id * idx id),
     if is_full id n then npos (height id) (idx id) else npos 0 n - 1).
Proof.
  intros [[Hh Hh60] Hi Hin Hn]. set (H := height id) in *. set (i := idx id) in *.
  pose proof (pow2_pos H Hh). assert (2 ^ H <= 2 ^ 60) by (apply Z.pow_le_mono_r; lia).
  assert (0 <= 2 ^ H * i) by nia. unfold is_full. fold H i.
  assert (Ecap : segment_capacity id = 2 ^ H) by (unfold segment_capacity; apply shl64_1; lia).
  assert (Eoff : leaf_offset id = 2 ^ H * i).
  { unfold leaf_offset. rewrite Ecap. fold i. rewrite mul64_small by (unfold_words; lia). lia. }
  assert (Eun : segment_unpruned_size id (npos 0 n) = Z.min (2 ^ H) (n - 2 ^ H * i)).
  { unfold segment_unpruned_size. rewrite Ecap, Eoff, n_leaves_npos by lia. unfold sat_sub64. lia. }
  assert (Efull : full_segment id (npos 0 n) = (2 ^ H * (i + 1) <=? n)).
  { unfold full_segment. rewrite Eun, Ecap.
    destruct (Z.leb_spec (2 ^ H * (i + 1)) n); [apply Z.eqb_eq|apply Z.eqb_neq]; lia. }
  split; [done|]. split; [done|]. unfold segment_pos_range. rewrite Efull, Eun, Eoff. fold H.
  rewrite insertion_index_npos by lia. f_equal. pose proof (npos0_ge n ltac:(lia)).
  destruct (Z.leb_spec (2 ^ H * (i + 1)) n).
  - rewrite Z.min_l by lia. rewrite (add64_small (2 ^ H * i)) by (unfold_words; lia).
    rewrite sub64_small by (unfold_words; lia). rewrite insertion_index_npos by lia.
    replace (2 ^ H * i + 2 ^ H - 1) with (last_leaf H i) by (unfold last_leaf; lia).
    pose proof (npos0_ge (last_leaf H i) ltac:(unfold last_leaf; lia)) as Hg.
    assert (last_leaf H i < n) by (unfold last_leaf; lia).
    rewrite add64_small by (unfold_words; lia).
    rewrite <- (node_pos_npos H i), npos0 by done. unfold node_pos. lia.
  - rewrite sub64_small by (unfold_words; lia). done.
Qed.

Lemma div_of_last H i n : 0 <= H -> 2 ^ H * i <= n < 2 ^ H * (i + 1) -> n / 2 ^ H = i.
Proof. intros HH Hn. symmetry. apply Z.div_unique with (n - 2 ^ H * i); lia. Qed.

Lemma peak_bits_high k j n :
  exists hi, peak_bits (k + j) n = hi ++ peak_bits k n /\ Forall (fun b => Z.of_nat k <= b) hi.
Proof.
  induction j as [|j (hi & E & Hhi)].
  - exists []. by rewrite Nat.add_0_r.
  - rewrite Nat.add_succ_r. unfold peak_bits; fold peak_bits. rewrite E.
    destruct (Z.testbit n (Z.of_nat (k + j))); [|by exists hi].
    eexists (_ :: hi). split; [done|]. constructor; [lia|done].
Qed.

(** The peaks of a range around its last [m] leaves. *)
Lemma peaks_last H i m :
  0 <= H <= 60 -> 0 <= i -> 0 <= m < 2 ^ H -> 2 ^ H * i + m < 2 ^ 60 ->
  let n := 2 ^ H * i + m in
  exists hi, peak_bits 62 n = hi ++ peak_bits (Z.to_nat H) m /\
    Forall (fun b => peak_pos n b < npos 0 (2 ^ H * i)) hi /\
    Forall (fun b => npos 0 (2 ^ H * i) <= peak_pos n b <= npos 0 n - 1) (peak_bits (Z.to_nat H) m).
Proof.
  intros HH Hi Hm Hn n. assert (0 <= 2 ^ H * i) by (pose proof (pow2_pos H); nia).
  destruct (peak_bits_high (Z.to_nat H) (62 - Z.to_nat H) n) as (hi & E & Hhi).
  replace (Z.to_nat H + (62 - Z.to_nat H))%nat with 62%nat in E by lia.
  assert (El : peak_bits (Z.to_nat H) n = peak_bits (Z.to_nat H) m).
  { unfold n. replace H with (Z.of_nat (Z.to_nat H)) at 2 by lia. by apply peak_bits_low. }
  rewrite El in E. exists hi. split; [done|].
  assert (Hnode : forall b, b ∈ peak_bits 62 n ->
     0 <= b /\ 0 <= n / 2 ^ b - 1 /\ peak_pos n b < npos 0 n).
  { intros b Hb. destruct (peak_bit_node n b ltac:(unfold n; lia) Hb) as (? & ? & ? & _). lia. }
  assert (Ediv : n / 2 ^ H = i) by (apply div_of_last; [lia|unfold n; lia]).
  split; apply Forall_forall; intros b Hb.
  - destruct (Hnode b) as (Hb0 & Hq & _); [rewrite E, elem_of_app; by auto|].
    eapply Forall_forall in Hhi; [|exact Hb]. apply npos_lt_leaf; [lia..|].
    replace (n / 2 ^ b - 1 + 1) with (n / 2 ^ b) by lia.
    pose proof (Z.mul_div_le n (2 ^ b) ltac:(by apply pow2_pos)) as Hle.
    assert (Eb : 2 ^ b = 2 ^ H * 2 ^ (b - H)) by (rewrite <- Z.pow_add_r by lia; f_equal; lia).
    pose proof (pow2_pos (b - H) ltac:(lia)). pose proof (pow2_pos H ltac:(lia)).
    rewrite Eb, <- Z.div_div, Ediv, <- Z.mul_assoc by lia. apply Z.mul_le_mono_nonneg_l; [lia|].
    apply Z.mul_div_le. lia.
  - destruct (Hnode b) as (Hb0 & Hq & Hlt); [rewrite E, elem_of_app; by auto|]. split; [|lia].
    apply elem_of_peak_bits in Hb as [Hb Hbit]. apply Z.nlt_ge. intros Hno.
    apply npos_lt_leaf in Hno; [|lia..].
    replace (n / 2 ^ b - 1 + 1) with (n / 2 ^ b) in Hno by lia.
    pose proof (pow2_pos b Hb0). pose proof (pow2_pos (H - b) ltac:(lia)).
    assert (Eb : 2 ^ H = 2 ^ (H - b) * 2 ^ b) by (rewrite <- Z.pow_add_r by lia; f_equal; lia).
    assert (En : n / 2 ^ b = 2 ^ (H - b) * i + m / 2 ^ b).
    { unfold n. rewrite Eb, <- Z.mul_assoc, (Z.mul_comm (2 ^ b)), Z.mul_assoc.
      rewrite Z.div_add_l by lia. lia. }
    assert (m / 2 ^ b <> 0).
    { intros E0. rewrite Z.testbit_odd, Z.shiftr_div_pow2, E0 in Hbit by lia. done. }
    assert (0 <= m / 2 ^ b) by (apply Z.div_pos; lia). rewrite En, Eb in Hno. nia.
Qed.

Lemma filter_peaks_last H i m :
  0 <= H <= 60 -> 0 <= i -> 0 <= m < 2 ^ H -> 2 ^ H * i + m < 2 ^ 60 ->
  let n := 2 ^ H * i + m in
  filter (fun x => npos 0 (2 ^ H * i) <= x <= npos 0 n - 1) (peaks (npos 0 n)) =
    map (peak_pos n) (peak_bits (Z.to_nat H) m).
Proof.
  intros HH Hi Hm Hn n. assert (0 <= 2 ^ H * i) by (pose proof (pow2_pos H); nia).
  destruct (peaks_last H i m HH Hi Hm Hn) as (hi & E & Hhi & Hlo). fold n in E, Hhi, Hlo.
  rewrite peaks_npos, E, map_app, filter_app by lia.
  rewrite filter_none, filter_all; [done| |].
  - apply Forall_forall. intros x (b & -> & Hb)%elem_of_map.
    eapply Forall_forall in Hlo; [|exact Hb]. done.
  - apply Forall_forall. intros x (b & -> & Hb)%elem_of_map.
    eapply Forall_forall in Hhi; [|exact Hb]. simpl. lia.
Qed.

(** The leaves below node [q] of height [h]. *)
Definition below (h : nat) (q j : Z) : Prop := 2 ^ Z.of_nat h * q <= j < 2 ^ Z.of_nat h * (q + 1).

Lemma below_S h q j : 0 <= q -> below (S h) q j <-> below h (2 * q) j \/ below h (2 * q + 1) j.
Proof.
  intros Hq. unfold below. rewrite Nat2Z.inj_succ, Z.pow_succ_r by lia.
  pose proof (pow2_pos (Z.of_nat h)). split; intros; [|nia].
  destruct (Z.lt_ge_cases j (2 ^ Z.of_nat h * (2 * q + 1))); [left|right]; lia.
Qed.

(** The last leaves of a range are below its last peaks. *)
Lemma peaks_cover k a m j :
  0 <= a -> 0 <= m < 2 ^ Z.of_nat k ->
  let n := 2 ^ Z.of_nat k * a + m in
  2 ^ Z.of_nat k * a <= j < n ->
  exists b, b ∈ peak_bits k m /\ below (Z.to_nat b) (n / 2 ^ b - 1) j.
Proof.
  cbn zeta. revert a m. induction k as [|k IH]; intros a m Ha Hm Hj.
  - change (2 ^ Z.of_nat 0) with 1 in *. lia.
  - rewrite Nat2Z.inj_succ in *. set (z := Z.of_nat k) in *. unfold peak_bits; fold peak_bits. fold z.
    assert (E2 : 2 ^ Z.succ z = 2 * 2 ^ z) by (rewrite Z.pow_succ_r; lia).
    pose proof (pow2_pos z ltac:(lia)).
    destruct (Z.lt_ge_cases m (2 ^ z)) as [Hlt|Hge].
    + rewrite (proj2 (testbit_top z m ltac:(lia) ltac:(lia))).
      replace (2 ^ Z.succ z * a) with (2 ^ z * (2 * a)) in * by lia. apply IH; lia.
    + remember (m - 2 ^ z) as m' eqn:Em. assert (m = 2 ^ z + m') as -> by lia.
      rewrite (proj1 (testbit_top z m' ltac:(lia) ltac:(lia))).
      replace (peak_bits k (2 ^ z + m')) with (peak_bits k m')
        by (rewrite <- (Z.mul_1_r (2 ^ z)); symmetry; apply (peak_bits_low k k m' 1); lia).
      replace (2 ^ Z.succ z * a + (2 ^ z + m')) with (2 ^ z * (2 * a + 1) + m') in * by lia.
      destruct (Z.lt_ge_cases j (2 ^ z * (2 * a + 1))).
      * exists z. split; [by left|]. rewrite (div_of_last z (2 * a + 1)) by lia.
        unfold below. rewrite Z2Nat.id by lia. lia.
      * destruct (IH (2 * a + 1) m') as (b & Hb & Hbel); [lia..|]. exists b. split; [by right|done].
Qed.

Lemma Forall2_rev_inv {A B} (P : A -> B -> Prop) l k : Forall2 P (rev l) (rev k) -> Forall2 P l k.
Proof.
  intros H%Forall2_reverse. unfold reverse in H. rewrite <- !rev_alt, !rev_involutive in H. done.
Qed.

(** ** The recursive root of a segment *)

Section reference.
Context {T E Hash : Type} {PH : PMMRHash T Hash} {BM : Type} {HB : Bitmap BM}
  (elmt_hash : E -> Z -> Hash).
Implicit Types (s : Segment E Hash) (bitmap : option BM).

Definition leaf_at s (pos0 : Z) : option E := lookup_pos (leaf_iter s) pos0.

Section node.
Context (s : Segment E Hash) (mmr_size : Z) (bitmap : option BM).

(** The hash of node [q] of height [h], [None] when nothing below is needed. *)
Fixpoint node_root (h : nat) (q : Z) : result seg_stop (option Hash) :=
  match h with
  | O =>
      if leaf_required bitmap mmr_size (npos 0 q) then
        let? data := expect_or (leaf_at s (npos 0 q)) (MissingLeaf (npos 0 q)) in
        Ok (Some (elmt_hash data (npos 0 q)))
      else Ok None
  | S h' =>
      let? l := node_root h' (2 * q) in
      let? r := node_root h' (2 * q + 1) in
      parent_hash (T := T) s (is_some bitmap) (npos (Z.of_nat h) q) (Z.of_nat h) l r
  end.

Definition peak_root (n b : Z) : result seg_stop (option Hash) :=
  node_root (Z.to_nat b) (n / 2 ^ b - 1).

End node.

(** Over a range of [n] leaves: a full segment is one tree, the last segment
    is the peaks of the leaves it has, bagged from the right. *)
Definition root_spec s (n : Z) bitmap : result seg_stop (option Hash) :=
  let id := identifier s in
  let mmr_size := npos 0 n in
  if 2 ^ height id * (idx id + 1) <=? n
  then node_root s mmr_size bitmap (Z.to_nat (height id)) (idx id)
  else
    let bits := peak_bits (Z.to_nat (height id)) (n - 2 ^ height id * idx id) in
    let? hs := collect (peak_root s mmr_size bitmap n) bits in
    let? hash := bag_loop (T := T) s mmr_size bitmap (rev (map (peak_pos n) bits)) (rev hs) None in
    let? hash := unwrap hash in
    Ok (Some hash).

(** *** Loops *)

Abbreviation loop s sz bm := (root_loop (T := T) elmt_hash s sz bm).

Lemma root_loop_app s sz bitmap st l1 l2 :
  loop s sz bitmap st (l1 ++ l2) = (let? st := loop s sz bitmap st l1 in loop s sz bitmap st l2).
Proof.
  revert st. induction l1 as [|x l1 IH]; intros st; [done|]. cbn [app root_loop].
  destruct (root_step elmt_hash s sz bitmap st x); simpl; [apply IH|done].
Qed.

Lemma range_split a b c : a <= b <= c + 1 -> range_incl a c = range_incl a (b - 1) ++ range_incl b c.
Proof.
  intros. unfold range_incl. rewrite <- (Z.sub_add 1 (c - a)).
  replace (c - a - 1 + 1 + 1) with ((b - a) + (c - b + 1)) by lia.
  rewrite seqZ_app by lia. f_equal; f_equal; lia.
Qed.

Lemma range_single a : range_incl a a = [a].
Proof. unfold range_incl. replace (a - a + 1) with (Z.succ 0) by lia. by rewrite seqZ_cons. Qed.

(** The leaves that are left serve the positions from [pos] on. *)
Definition serves s (lv : list (Z * E)) (pos : Z) : Prop :=
  StronglySorted Z.lt lv.*1 /\ forall x, pos <= x -> lookup_pos lv x = leaf_at s x.

Definition pushes s (r : result seg_stop (list (Z * E) * list (option Hash)))
    (v : result seg_stop (option Hash)) (st : list (option Hash)) (pos : Z) : Prop :=
  match v with
  | Ok h => exists lv, r = Ok (lv, h :: st) /\ serves s lv pos
  | Err e => r = Err e
  end.

Lemma loop_node_pushes s sz bitmap h q lv st :
  0 <= q -> npos (Z.of_nat h) q < 2 ^ 62 -> serves s lv (npos 0 (2 ^ Z.of_nat h * q)) ->
  pushes s (loop s sz bitmap (lv, st) (range_incl (npos 0 (2 ^ Z.of_nat h * q)) (npos (Z.of_nat h) q)))
    (node_root s sz bitmap h q) st (npos (Z.of_nat h) q + 1).
Proof.
  revert q lv st. induction h as [|h IH]; intros q lv st Hq Hb Hlv.
  - change (2 ^ Z.of_nat 0) with 1 in *. rewrite Z.mul_1_l in *. change (Z.of_nat 0) with 0 in *.
    rewrite range_single. cbn [root_loop node_root]. unfold root_step.
    rewrite height_npos by lia. cbn [Z.eqb]. destruct Hlv as [Hs Hl].
    destruct (leaf_required bitmap sz (npos 0 q)); simpl.
    + destruct (find_leaf_lookup lv (npos 0 q) Hs) as (E1 & E2 & E3).
      destruct (find_leaf (npos 0 q) lv) as [d lv']. cbn [fst snd] in *. subst d.
      rewrite Hl in * by lia. destruct (leaf_at s (npos 0 q)) as [d|] eqn:Ed; simpl; [|done].
      exists lv'. split; [done|]. split; [done|]. intros x Hx. rewrite E3 by (done || lia). apply Hl. lia.
    + exists lv. split; [done|]. split; [done|]. intros x Hx. apply Hl. lia.
  - set (z := Z.of_nat h) in *. assert (Hz : 0 <= z) by lia.
    pose proof (npos_left z q Hz Hq) as El. pose proof (npos_right z q Hz Hq) as Er.
    replace (Z.of_nat (S h)) with (z + 1) in * by lia.
    pose proof (pow2_pos z Hz). assert (E2 : 2 ^ (z + 1) = 2 * 2 ^ z) by (rewrite Z.pow_add_r; lia).
    pose proof (npos_of_prefix z q Hz Hq) as [P1 P2].
    assert (Ea : 2 ^ (z + 1) * q = 2 ^ z * (2 * q)) by lia.
    assert (Eb : npos 0 (2 ^ z * (2 * q + 1)) = npos z (2 * q) + 1).
    { replace (2 ^ z * (2 * q + 1)) with (2 ^ (z + 1) * q + 2 ^ z) by lia. lia. }
    rewrite Ea in *. assert (2 ^ z * (2 * q) >= 0) by nia.
    pose proof (npos0_mono (2 ^ z * (2 * q)) (2 ^ z * (2 * q + 1)) ltac:(lia)).
    rewrite (range_split _ (npos z (2 * q) + 1) (npos (z + 1) q)) by lia.
    rewrite (range_split (npos z (2 * q) + 1) (npos (z + 1) q)) by lia.
    replace (npos z (2 * q) + 1 - 1) with (npos z (2 * q)) by lia.
    replace (npos (z + 1) q - 1) with (npos z (2 * q + 1)) by lia.
    rewrite range_single, !root_loop_app. cbn [node_root].
    specialize (IH (2 * q) lv st ltac:(lia) ltac:(lia) Hlv) as Hleft. fold z in Hleft.
    unfold pushes in Hleft at 1.
    destruct (node_root s sz bitmap h (2 * q)) as [l|e]; cbn [rbind]; [|by rewrite Hleft].
    destruct Hleft as (lv1 & -> & Hlv1). cbn [rbind]. rewrite <- Eb in Hlv1 |- *.
    rewrite root_loop_app. specialize (IH (2 * q + 1) lv1 (l :: st) ltac:(lia) ltac:(lia) Hlv1) as Hright. fold z in Hright.
    unfold pushes in Hright at 1.
    destruct (node_root s sz bitmap h (2 * q + 1)) as [r|e]; cbn [rbind]; [|by rewrite Hright].
    destruct Hright as (lv2 & -> & Hlv2). cbn [rbind root_loop]. unfold root_step.
    rewrite height_npos by lia. destruct (Z.eqb_spec (z + 1) 0); [lia|].
    replace (Z.of_nat (S h)) with (z + 1) by lia.
    unfold pushes. destruct (parent_hash s (is_some bitmap) (npos (z + 1) q) (z + 1) l r); simpl; [|done].
    exists lv2. split; [done|]. destruct Hlv2 as [Hs2 Hl2]. split; [done|]. intros x Hx. apply Hl2. lia.
Qed.

Lemma serves_all s : StronglySorted Z.lt (leaf_iter s).*1 -> forall pos, serves s (leaf_iter s) pos.
Proof. intros Hs pos. split; [done|]. intros x _. done. Qed.

(** A tree per peak. *)
Lemma loop_peaks s sz bitmap n bits a b lv st :
  0 <= n < 2 ^ 61 -> Forall (fun c => c ∈ peak_bits 62 n) bits ->
  tiles a (map (bintree_range ∘ peak_pos n) bits) b -> serves s lv a ->
  match collect (peak_root s sz bitmap n) bits with
  | Ok hs => exists lv', loop s sz bitmap (lv, st) (range_incl a (b - 1)) = Ok (lv', rev hs ++ st)
               /\ serves s lv' b
  | Err e => loop s sz bitmap (lv, st) (range_incl a (b - 1)) = Err e
  end.
Proof.
  intros Hn Hbits. revert a lv st. induction Hbits as [|c bits Hc Hbits IH]; intros a lv st Ht Hlv.
  - simpl in Ht. subst b. exists lv. split; [|done]. unfold range_incl.
    by rewrite seqZ_nil by lia.
  - cbn [map tiles compose] in Ht. destruct (peak_bit_node n c Hn Hc) as (Hc62 & Hq & Hlt & _).
    pose proof (npos0_ge n ltac:(lia)). unfold peak_pos in Ht, Hlt.
    assert (0 <= npos c (n / 2 ^ c - 1)) by (destruct (npos_bounds c (n / 2 ^ c - 1)); lia).
    rewrite range_npos in Ht by (unfold in_bounds; lia). destruct Ht as (<- & Hlt2 & Ht).
    set (q := n / 2 ^ c - 1) in *.
    assert (Hle : npos c q + 1 <= b).
    { clear -Ht. remember (npos c q + 1) as x. clear Heqx. revert x Ht.
      induction bits as [|d bits IHb]; intros x Ht; cbn [map tiles compose] in Ht; [lia|].
      destruct (bintree_range (peak_pos n d)) as [u w]. destruct Ht as (-> & ? & ?%IHb). lia. }
    rewrite (range_split _ (npos c q + 1)) by lia. rewrite root_loop_app.
    replace (npos c q + 1 - 1) with (npos c q) by lia.
    pose proof (loop_node_pushes s sz bitmap (Z.to_nat c) q lv st Hq) as Hnode.
    rewrite !Z2Nat.id in Hnode by lia. specialize (Hnode ltac:(lia) Hlv).
    cbn [collect]. unfold peak_root at 1. fold q. unfold pushes in Hnode.
    destruct (node_root s sz bitmap (Z.to_nat c) q) as [h|e]; cbn [rbind]; [|by rewrite Hnode].
    destruct Hnode as (lv1 & -> & Hlv1). cbn [rbind]. specialize (IH _ lv1 (h :: st) Ht Hlv1).
    destruct (collect _ bits) as [hs|e]; cbn [rbind]; [|exact IH].
    destruct IH as (lv2 & -> & Hlv2). exists lv2. split; [|done]. cbn [rev]. by rewrite <- app_assoc.
Qed.

(** The stack machine of [root] computes the recursive definition. *)
Lemma seg_root_spec s n bitmap :
  seg_ok (identifier s) n -> StronglySorted Z.lt (leaf_iter s).*1 ->
  seg_root (T := T) elmt_hash s (npos 0 n) bitmap = root_spec s n bitmap.
Proof.
  intros Hok Hs. destruct (segment_geometry _ n Hok) as (_ & Ef & Er).
  destruct Hok as [[Hh Hh60] Hi Hin Hn]. unfold seg_root, root_spec. rewrite Er, Ef. unfold is_full.
  set (H := height (identifier s)) in *. set (i := idx (identifier s)) in *.
  pose proof (pow2_pos H Hh) as Hp. assert (0 <= 2 ^ H * i) by nia. pose proof (npos0_ge n ltac:(lia)).
  destruct (Z.leb_spec (2 ^ H * (i + 1)) n) as [Hfull|Hlast].
  - pose proof (loop_node_pushes s (npos 0 n) bitmap (Z.to_nat H) i (leaf_iter s) [] Hi) as Hnode.
    rewrite !Z2Nat.id in Hnode by lia.
    assert (npos H i < npos 0 n) by (apply npos_lt_leaf; lia).
    specialize (Hnode ltac:(lia) (serves_all s Hs _)). unfold pushes in Hnode.
    destruct (node_root _ _ _ _ _) as [h|e]; [|by rewrite Hnode]. by destruct Hnode as (lv & -> & _).
  - set (m := n - 2 ^ H * i). assert (En : n = 2 ^ H * i + m) by lia.
    destruct (peak_ranges_tile (Z.to_nat H) i m) as [Ht _];
      [lia|rewrite Z2Nat.id by lia; lia|rewrite Z2Nat.id by lia; lia|].
    rewrite !Z2Nat.id, <- En in Ht by lia.
    destruct (peaks_last H i m) as (hi & Ebits & _); [lia..|]. rewrite <- En in Ebits.
    assert (Hin62 : Forall (fun c => c ∈ peak_bits 62 n) (peak_bits (Z.to_nat H) m)).
    { apply Forall_forall. intros c Hc. rewrite Ebits, elem_of_app. by auto. }
    pose proof (loop_peaks s (npos 0 n) bitmap n (peak_bits (Z.to_nat H) m) _ _ (leaf_iter s) []
      ltac:(lia) Hin62 Ht (serves_all s Hs _)) as Hloop.
    destruct (collect _ _) as [hs|e]; cbn [rbind]; [|by rewrite Hloop].
    destruct Hloop as (lv & -> & _). cbn [rbind]. rewrite app_nil_r.
    pose proof (filter_peaks_last H i m ltac:(lia) Hi ltac:(lia) ltac:(lia)) as Efl.
    cbn zeta in Efl. rewrite <- En in Efl. by rewrite Efl.
Qed.

(** *** Binding *)

Lemma parent_hash_Ok s prunable pos0 hh l r o :
  parent_hash (T := T) s prunable pos0 hh l r = Ok o ->
  (o = None /\ l = None /\ r = None) \/
  (exists a b, o = Some (pair_hash (a, b) pos0) /\ (l = None \/ l = Some a) /\ (r = None \/ r = Some b) /\
     (l <> None \/ r <> None)).
Proof.
  unfold parent_hash. destruct prunable, l as [l|], r as [r|]; simpl; intros Ho; inv_res; simplify_eq;
    (by left) || (right; do 2 eexists; split_and!; [reflexivity|by auto..]) || done.
Qed.

(** A node has no hash just when no leaf below it is needed. *)
Lemma node_root_None s sz bitmap h q o :
  0 <= q -> node_root s sz bitmap h q = Ok o ->
  o = None <-> forall j, below h q j -> leaf_required bitmap sz (npos 0 j) = false.
Proof.
  revert q o. induction h as [|h IH]; intros q o Hq Eo; cbn [node_root] in Eo.
  - assert (Hb : forall j, below 0 q j <-> j = q).
    { intros j. unfold below. change (2 ^ Z.of_nat 0) with 1. lia. }
    setoid_rewrite Hb. destruct (leaf_required bitmap sz (npos 0 q)) eqn:El; inv_res; simplify_eq.
    + split; [done|]. intros Hf. by rewrite (Hf q eq_refl) in El.
    + split; [|done]. by intros _ j ->.
  - destruct (node_root s sz bitmap h (2 * q)) as [l|] eqn:El; [|done]. cbn [rbind] in Eo.
    destruct (node_root s sz bitmap h (2 * q + 1)) as [r|] eqn:Er; [|done]. cbn [rbind] in Eo.
    apply (IH (2 * q)) in El; [|lia]. apply (IH (2 * q + 1)) in Er; [|lia].
    assert (Hb : (forall j, below (S h) q j -> leaf_required bitmap sz (npos 0 j) = false) <->
      l = None /\ r = None).
    { rewrite El, Er. split.
      - intros Hall. split; intros j Hj; apply Hall, below_S; auto.
      - intros [Hl Hr] j [Hj|Hj]%below_S; auto. }
    rewrite Hb. apply parent_hash_Ok in Eo as [(-> & -> & ->)|(x & y & -> & _ & _ & Hne)]; [done|].
    split; [done|]. intros [-> ->]. destruct Hne; done.
Qed.

Definition agree s1 s2 (pos0 : Z) : Prop :=
  exists x1 x2, leaf_at s1 pos0 = Some x1 /\ leaf_at s2 pos0 = Some x2 /\
    elmt_hash x1 pos0 = elmt_hash x2 pos0.

Hypothesis pair_inj : forall (a b : Hash * Hash) i, pair_hash (T := T) a i = pair_hash b i -> a = b.

Lemma node_root_binds s1 s2 sz bitmap h q a :
  0 <= q -> node_root s1 sz bitmap h q = Ok (Some a) -> node_root s2 sz bitmap h q = Ok (Some a) ->
  forall j, below h q j -> leaf_required bitmap sz (npos 0 j) = true -> agree s1 s2 (npos 0 j).
Proof.
  revert q a. induction h as [|h IH]; intros q a Hq E1 E2 j Hj Hreq.
  - unfold below in Hj. change (2 ^ Z.of_nat 0) with 1 in Hj. assert (j = q) as -> by lia.
    cbn [node_root] in E1, E2. rewrite Hreq in E1, E2. inv_res. unfold expect_or, agree in *.
    destruct (leaf_at s1 (npos 0 q)), (leaf_at s2 (npos 0 q)); simpl in *; simplify_eq. eauto.
  - cbn [node_root] in E1, E2. apply below_S in Hj; [|done].
    destruct (node_root s1 sz bitmap h (2 * q)) as [l1|] eqn:El1; [|done]. cbn [rbind] in E1.
    destruct (node_root s1 sz bitmap h (2 * q + 1)) as [r1|] eqn:Er1; [|done]. cbn [rbind] in E1.
    destruct (node_root s2 sz bitmap h (2 * q)) as [l2|] eqn:El2; [|done]. cbn [rbind] in E2.
    destruct (node_root s2 sz bitmap h (2 * q + 1)) as [r2|] eqn:Er2; [|done]. cbn [rbind] in E2.
    apply parent_hash_Ok in E1 as [(? & _)|(x & y & Ex & Hl & Hr & _)]; [done|].
    apply parent_hash_Ok in E2 as [(? & _)|(x' & y' & Ex' & Hl' & Hr' & _)]; [done|].
    rewrite Ex in Ex'. injection Ex' as Epair%pair_inj. injection Epair as <- <-.
    assert (Hgo : forall q' o1 o2 v, 0 <= q' -> node_root s1 sz bitmap h q' = Ok o1 ->
      node_root s2 sz bitmap h q' = Ok o2 -> (o1 = None \/ o1 = Some v) -> (o2 = None \/ o2 = Some v) ->
      below h q' j -> agree s1 s2 (npos 0 j)).
    { intros q' o1 o2 v Hq' F1 F2 Hv1 Hv2 Hb.
      pose proof (node_root_None _ _ _ _ _ _ Hq' F1) as N1.
      pose proof (node_root_None _ _ _ _ _ _ Hq' F2) as N2.
      assert (Hn : forall o, o = None <-> (forall j, below h q' j -> leaf_required bitmap sz (npos 0 j) = false)
                             -> (o : option Hash) <> None).
      { intros o Ho Hnone. rewrite (proj1 Ho Hnone j Hb) in Hreq. done. }
      apply Hn in N1, N2. destruct Hv1 as [?| ->]; [done|]. destruct Hv2 as [?| ->]; [done|].
      by apply (IH q' v). }
    destruct Hj as [Hj|Hj]; [eapply (Hgo (2 * q))|eapply (Hgo (2 * q + 1))]; eauto; lia.
Qed.

Lemma bag_loop_binds s1 s2 sz bitmap ps st1 st2 acc1 acc2 o :
  bag_loop (T := T) s1 sz bitmap ps st1 acc1 = Ok o -> bag_loop (T := T) s2 sz bitmap ps st2 acc2 = Ok o ->
  length st1 = length ps -> length st2 = length ps -> (acc1 = None <-> acc2 = None) ->
  acc1 = acc2 /\ Forall2 (fun o1 o2 => forall v1 v2, o1 = Some v1 -> o2 = Some v2 -> v1 = v2) st1 st2.
Proof.
  revert st1 st2 acc1 acc2. induction ps as [|p ps IH]; intros st1 st2 acc1 acc2 E1 E2 L1 L2 Hacc.
  - destruct st1, st2; try done. simpl in *. simplify_eq. split; [done|constructor].
  - destruct st1 as [|o1 st1], st2 as [|o2 st2]; try done. cbn [bag_loop] in E1, E2.
    apply rbind_Ok in E1 as (h1 & F1 & E1). apply rbind_Ok in E1 as (v1 & G1 & E1).
    apply rbind_Ok in E2 as (h2 & F2 & E2). apply rbind_Ok in E2 as (v2 & G2 & E2).
    unfold expect_or in G1, G2. destruct h1 as [w1|]; [|done]. destruct h2 as [w2|]; [|done].
    simpl in G1, G2. simplify_eq.
    assert (Hstep : bag_step (T := T) sz acc1 v1 = None <-> bag_step (T := T) sz acc2 v2 = None)
      by (unfold bag_step; by destruct acc1, acc2).
    cbn [length] in L1, L2. destruct (IH _ _ _ _ E1 E2) as [Ebag Hf]; [lia|lia|done|].
    assert (Heq : acc1 = acc2 /\ v1 = v2).
    { unfold bag_step in Ebag. destruct acc1 as [a1|], acc2 as [a2|].
      - injection Ebag as Ebag%pair_inj. by injection Ebag as -> ->.
      - by discriminate (proj2 Hacc eq_refl).
      - by discriminate (proj1 Hacc eq_refl).
      - by injection Ebag as ->. }
    destruct Heq as [-> ->]. split; [done|]. constructor; [|done].
    intros u1 u2 -> ->. simpl in F1, F2. by simplify_eq.
Qed.

Lemma collect_Ok {X A Y} (f : A -> result X Y) l ys :
  collect f l = Ok ys <-> Forall2 (fun a y => f a = Ok y) l ys.
Proof.
  revert ys. induction l as [|a l IH]; intros ys; cbn [collect].
  - split; [by intros [= <-]|by intros ->%Forall2_nil_inv_l].
  - split.
    + intros (y & Ey & (ys' & Eys & [= <-])%rbind_Ok)%rbind_Ok. constructor; [done|by apply IH].
    + intros (y & ys' & Ey & Hys & ->)%Forall2_cons_inv_l. rewrite Ey. simpl.
      apply IH in Hys. by rewrite Hys.
Qed.

(** The leaves of a segment over [n] leaves. *)
Definition in_segment (id : SegmentIdentifier) (n j : Z) : Prop :=
  2 ^ height id * idx id <= j < Z.min n (2 ^ height id * (idx id + 1)).

Lemma root_binds s1 s2 n bitmap a :
  identifier s1 = identifier s2 -> seg_ok (identifier s1) n ->
  root_spec s1 n bitmap = Ok (Some a) -> root_spec s2 n bitmap = Ok (Some a) ->
  forall j, in_segment (identifier s1) n j -> leaf_required bitmap (npos 0 n) (npos 0 j) = true ->
  agree s1 s2 (npos 0 j).
Proof.
  intros Eid [[Hh Hh60] Hi Hin Hn] E1 E2 j Hj Hreq. unfold root_spec, in_segment in *.
  rewrite <- Eid in E2. set (H := height (identifier s1)) in *. set (i := idx (identifier s1)) in *.
  destruct (Z.leb_spec (2 ^ H * (i + 1)) n).
  - eapply node_root_binds; [exact Hi|exact E1|exact E2| |done].
    unfold below. rewrite Z2Nat.id by lia. lia.
  - set (m := n - 2 ^ H * i) in *. assert (En : n = 2 ^ H * i + m) by (unfold m; lia).
    apply rbind_Ok in E1 as (hs1 & C1 & E1). apply rbind_Ok in E1 as (b1 & B1 & E1).
    apply rbind_Ok in E2 as (hs2 & C2 & E2). apply rbind_Ok in E2 as (b2 & B2 & E2).
    destruct b1 as [b1|]; [|done]. destruct b2 as [b2|]; [|done]. simpl in E1, E2. simplify_eq.
    apply collect_Ok in C1, C2. pose proof (Forall2_length _ _ _ C1) as L1.
    pose proof (Forall2_length _ _ _ C2) as L2.
    eapply bag_loop_binds in B1 as [_ Hf]; [|exact B2| | |done];
      [|rewrite !length_rev, length_map; lia..].
    apply Forall2_rev_inv in Hf.
    destruct (peaks_cover (Z.to_nat H) i m j) as (b & Hb & Hbel);
      [lia|rewrite Z2Nat.id by lia; lia|rewrite Z2Nat.id by lia; lia|].
    rewrite Z2Nat.id in Hbel by lia. rewrite <- En in Hbel.
    apply list_elem_of_lookup in Hb as [k Hk].
    destruct (Forall2_lookup_l _ _ _ _ _ C1 Hk) as (o1 & K1 & N1).
    destruct (Forall2_lookup_l _ _ _ _ _ C2 Hk) as (o2 & K2 & N2).
    unfold peak_root in N1, N2.
    assert (Hq : 0 <= n / 2 ^ b - 1).
    { unfold below in Hbel. pose proof (pow2_pos (Z.of_nat (Z.to_nat b)) ltac:(lia)). nia. }
    assert (Hs : forall s o, node_root s (npos 0 n) bitmap (Z.to_nat b) (n / 2 ^ b - 1) = Ok o -> o <> None).
    { intros s o No Hnone. apply node_root_None in No; [|done].
      rewrite (proj1 No Hnone j Hbel) in Hreq. done. }
    destruct o1 as [v1|]; [|by destruct (Hs _ _ N1)]. destruct o2 as [v2|]; [|by destruct (Hs _ _ N2)].
    destruct (Forall2_lookup_lr _ _ _ _ _ _ Hf K2 K1 v2 v1 eq_refl eq_refl).
    eapply node_root_binds; eauto.
Qed.

Lemma climb_root_binds branch u r1 r2 it1 it2 top it1' it2' :
  climb_root (T := T) branch u r1 it1 = Ok (top, it1') ->
  climb_root (T := T) branch u r2 it2 = Ok (top, it2') -> r1 = r2.
Proof.
  revert r1 r2 it1 it2. induction branch as [|[p0 s0] branch IH]; intros r1 r2 it1 it2 E1 E2;
    cbn [climb_root] in *; [by simplify_eq|].
  destruct (u <=? p0); [|by eapply IH].
  destruct it1 as [|h1 it1], it2 as [|h2 it2]; simpl in E1, E2; try done.
  specialize (IH _ _ _ _ E1 E2). destruct (is_left_sibling s0);
    apply pair_inj in IH; by injection IH.
Qed.

Lemma left_root_binds ps sz r1 r2 it1 it2 top :
  left_root (T := T) ps sz r1 it1 = Ok top -> left_root (T := T) ps sz r2 it2 = Ok top -> r1 = r2.
Proof.
  revert r1 r2 it1 it2. induction ps as [|p ps IH]; intros r1 r2 it1 it2 E1 E2;
    cbn [left_root] in *; [by simplify_eq|].
  destruct it1 as [|h1 it1], it2 as [|h2 it2]; simpl in E1, E2; try done.
  specialize (IH _ _ _ _ E1 E2). apply pair_inj in IH. by injection IH.
Qed.

Lemma reconstruct_binds (p1 p2 : SegmentProof Hash) sz first last r1 r2 u top :
  reconstruct_root (T := T) p1 sz first last r1 u = Ok top ->
  reconstruct_root (T := T) p2 sz first last r2 u = Ok top -> r1 = r2.
Proof.
  unfold reconstruct_root. intros E1 E2.
  apply rbind_Ok in E1 as ([c1 i1] & C1 & E1). apply rbind_Ok in E1 as ([d1 k1] & D1 & E1).
  apply rbind_Ok in E2 as ([c2 i2] & C2 & E2). apply rbind_Ok in E2 as ([d2 k2] & D2 & E2).
  rewrite (left_root_binds _ _ _ _ _ _ _ E1 E2) in D1. clear E1 E2.
  assert (c1 = c2) as ->; [|eapply climb_root_binds; eauto].
  destruct (find _ _) as [pos0|]; [|by simplify_eq].
  destruct i1 as [|h1 i1], i2 as [|h2 i2]; simpl in D1, D2; try done.
  injection D1 as D1 _. injection D2 as D2 _. rewrite <- D2 in D1. apply pair_inj in D1. by injection D1.
Qed.

Lemma first_unpruned_Some s n bitmap a :
  seg_ok (identifier s) n -> StronglySorted Z.lt (leaf_iter s).*1 ->
  root_spec s n bitmap = Ok (Some a) ->
  first_unpruned_parent (T := T) elmt_hash s (npos 0 n) bitmap =
    Ok (a, add64 1 (snd (segment_pos_range (identifier s) (npos 0 n)))).
Proof.
  intros Hok Hs Er. unfold first_unpruned_parent. rewrite seg_root_spec, Er by done. cbn [rbind].
  by destruct (segment_pos_range _ _).
Qed.

(** A segment some of whose leaves are needed has a root. *)
Lemma root_spec_Some s n bitmap o j :
  seg_ok (identifier s) n -> root_spec s n bitmap = Ok o -> in_segment (identifier s) n j ->
  leaf_required bitmap (npos 0 n) (npos 0 j) = true -> is_Some o.
Proof.
  intros [[Hh Hh60] Hi Hin Hn] Er Hj Hreq. unfold root_spec, in_segment in *.
  destruct (Z.leb_spec (2 ^ height (identifier s) * (idx (identifier s) + 1)) n).
  - destruct o; [by eexists|]. apply node_root_None in Er; [|done].
    rewrite (proj1 Er eq_refl j) in Hreq; [done|]. unfold below. rewrite Z2Nat.id by lia. lia.
  - apply rbind_Ok in Er as (hs & C & Er). apply rbind_Ok in Er as (b & B & Er).
    apply rbind_Ok in Er as (c & _ & [= <-]). by eexists.
Qed.

End reference.

(** Two segments that validate agree on the leaves. *)
Lemma segment_binds {T E Hash : Type} {PH : PMMRHash T Hash} {BM : Type} {HB : Bitmap BM}
    (elmt_hash : E -> Z -> Hash) (s1 s2 : Segment E Hash) n (bitmap : option BM) rt :
  (forall (a b : Hash * Hash) i, pair_hash (T := T) a i = pair_hash b i -> a = b) ->
  identifier s1 = identifier s2 -> seg_ok (identifier s1) n ->
  StronglySorted Z.lt (leaf_iter s1).*1 -> StronglySorted Z.lt (leaf_iter s2).*1 ->
  validate (T := T) elmt_hash s1 (npos 0 n) bitmap rt = Ok tt ->
  validate (T := T) elmt_hash s2 (npos 0 n) bitmap rt = Ok tt ->
  forall j, in_segment (identifier s1) n j -> leaf_required bitmap (npos 0 n) (npos 0 j) = true ->
  exists x1 x2, leaf_at s1 (npos 0 j) = Some x1 /\ leaf_at s2 (npos 0 j) = Some x2 /\
    elmt_hash x1 (npos 0 j) = elmt_hash x2 (npos 0 j).
Proof.
  intros Hinj Eid Hok Hs1 Hs2 V1 V2 j Hj Hreq. pose proof Hok as Hok2. rewrite Eid in Hok2.
  assert (Hroot : forall s, seg_ok (identifier s) n -> StronglySorted Z.lt (leaf_iter s).*1 ->
    identifier s1 = identifier s -> validate (T := T) elmt_hash s (npos 0 n) bitmap rt = Ok tt ->
    exists a, root_spec (T := T) elmt_hash s n bitmap = Ok (Some a) /\
      let '(first, last) := segment_pos_range (identifier s1) (npos 0 n) in
      reconstruct_root (T := T) (seg_proof s) (npos 0 n) first last a (add64 1 last) = Ok rt).
  { intros s Hk Hs Es V. unfold validate in V. rewrite Es in *.
    destruct (root_spec (T := T) elmt_hash s n bitmap) as [o|e] eqn:Er.
    2:{ unfold first_unpruned_parent in V. rewrite seg_root_spec, Er in V by done.
        by destruct (segment_pos_range _ _). }
    destruct (root_spec_Some _ _ _ _ _ _ Hk Er Hj Hreq) as [a ->]. exists a. split; [done|].
    rewrite (first_unpruned_Some _ _ _ _ _ Hk Hs Er) in V.
    destruct (segment_pos_range (identifier s) (npos 0 n)) as [first last]. cbn [rbind snd] in V.
    unfold proof_validate, check_root in V. apply rbind_Ok in V as (top & Etop & V).
    case_decide; [|done]. by subst. }
  destruct (Hroot s1 Hok Hs1 eq_refl V1) as (a1 & R1 & P1).
  destruct (Hroot s2 Hok2 Hs2 Eid V2) as (a2 & R2 & P2).
  destruct (segment_pos_range (identifier s1) (npos 0 n)) as [first last].
  rewrite (reconstruct_binds Hinj _ _ _ _ _ _ _ _ _ P1 P2) in R1.
  exact (root_binds elmt_hash Hinj s1 s2 n bitmap a2 Eid Hok R1 R2 j Hj Hreq).
Qed.

(** ** Panics *)

Section panics.
Context {T E Hash : Type} {PH : PMMRHash T Hash} {BM : Type} {HB : Bitmap BM}
  (elmt_hash : E -> Z -> Hash).
Implicit Types (s : Segment E Hash) (bitmap : option BM).

Definition no_panic {A} (r : result seg_stop A) : Prop := r <> Err Panic.

Lemma no_panic_bind {A A'} (r : result seg_stop A) (f : A -> result seg_stop A') :
  no_panic r -> (forall a, r = Ok a -> no_panic (f a)) -> no_panic (rbind r f).
Proof. unfold no_panic. intros Hr Hf. destruct r as [a|e]; simpl; [by apply Hf|]. congruence. Qed.

Lemma no_panic_Ok {A} (a : A) : no_panic (Ok a).
Proof. done. Qed.

Lemma no_panic_expect {A} (o : option A) e : no_panic (expect_or o e).
Proof. unfold expect_or. by destruct o. Qed.

Lemma no_panic_unwrap {A} (o : option A) : is_Some o -> no_panic (unwrap o).
Proof. by intros [a ->]. Qed.

Lemma no_panic_get_hash s pos : no_panic (get_hash s pos).
Proof. apply no_panic_expect. Qed.

#[local] Hint Resolve no_panic_Ok no_panic_expect no_panic_get_hash : core.

Lemma parent_hash_no_panic s prunable pos0 hh l r :
  no_panic (parent_hash (T := T) s prunable pos0 hh l r).
Proof.
  unfold parent_hash. destruct prunable, l, r; try done;
    repeat (apply no_panic_bind; [auto|intros ? _]); done.
Qed.

Lemma node_root_no_panic s sz bitmap h q : no_panic (node_root (T := T) elmt_hash s sz bitmap h q).
Proof.
  revert q. induction h as [|h IH]; intros q; cbn [node_root].
  - destruct (leaf_required _ _ _); [|done]. apply no_panic_bind; [auto|done].
  - apply no_panic_bind; [auto|intros l _]. apply no_panic_bind; [auto|intros r _].
    apply parent_hash_no_panic.
Qed.

Lemma collect_no_panic {A Y} (f : A -> result seg_stop Y) l :
  (forall a, no_panic (f a)) -> no_panic (collect f l).
Proof.
  intros Hf. induction l as [|a l IH]; cbn [collect]; [done|].
  apply no_panic_bind; [done|intros y _]. by apply no_panic_bind.
Qed.

Lemma bag_loop_no_panic s sz bitmap ps st acc :
  no_panic (bag_loop (T := T) s sz bitmap ps st acc) /\
  forall o, ps <> [] \/ is_Some acc -> bag_loop (T := T) s sz bitmap ps st acc = Ok o -> is_Some o.
Proof.
  revert st acc. induction ps as [|p ps IH]; intros st acc.
  - split; [done|]. cbn [bag_loop]. by intros o [Hne|Hs] [= <-].
  - destruct st as [|o st]; [done|]. cbn [bag_loop]. split.
    + apply no_panic_bind.
      { destruct (_ && _); [|done]. by apply no_panic_bind. }
      intros h _. apply no_panic_bind; [auto|intros v _]. apply IH.
    + intros o' _ E'. apply rbind_Ok in E' as (h & _ & E'). apply rbind_Ok in E' as (v & _ & E').
      eapply (proj2 (IH _ _)); [|exact E']. right. unfold bag_step. by destruct acc; eexists.
Qed.

Lemma seg_root_no_panic s n bitmap :
  seg_ok (identifier s) n -> no_panic (root_spec (T := T) elmt_hash s n bitmap).
Proof.
  intros [[Hh Hh60] Hi Hin Hn]. unfold root_spec.
  destruct (Z.leb_spec (2 ^ height (identifier s) * (idx (identifier s) + 1)) n);
    [apply node_root_no_panic|].
  set (H' := height (identifier s)) in *. set (i := idx (identifier s)) in *.
  apply no_panic_bind; [apply collect_no_panic; intros b; apply node_root_no_panic|intros hs _].
  apply no_panic_bind; [apply bag_loop_no_panic|]. intros o Eo.
  apply no_panic_bind; [|done]. apply no_panic_unwrap.
  eapply (proj2 (bag_loop_no_panic _ _ _ _ _ _)); [|exact Eo]. left. intros Hnil.
  assert (Hb : peak_bits (Z.to_nat H') (n - 2 ^ H' * i) = []).
  { apply (f_equal (@length _)) in Hnil. rewrite length_rev, length_map in Hnil. by destruct (peak_bits _ _). }
  destruct (peaks_cover (Z.to_nat H') i (n - 2 ^ H' * i) (2 ^ H' * i)) as (b & Hbin & _);
    [lia|rewrite Z2Nat.id by lia; lia..|]. rewrite Hb in Hbin. by apply elem_of_nil in Hbin.
Qed.

Lemma unpruned_loop_no_panic s (bm : BM) n pos0 branch : no_panic (unpruned_loop s bm n pos0 branch).
Proof.
  revert pos0. induction branch as [|[p0 s0] branch IH]; intros pos0; cbn [unpruned_loop];
    destruct (get_hash s pos0) as [h|e] eqn:Eh; try done;
    pose proof (no_panic_get_hash s pos0) as Hg; rewrite Eh in Hg.
  - unfold no_panic in *. congruence.
  - destruct (_ =? 0); [apply IH|]. unfold no_panic in *. congruence.
Qed.

Lemma climb_root_no_panic branch u r (it : list Hash) : no_panic (climb_root (T := T) branch u r it).
Proof.
  revert r it. induction branch as [|[p0 s0] branch IH]; intros r it; cbn [climb_root]; [done|].
  destruct (u <=? p0); [|apply IH]. apply no_panic_bind; [by destruct it|]. intros [h it'] _. apply IH.
Qed.

Lemma left_root_no_panic ps sz r (it : list Hash) : no_panic (left_root (T := T) ps sz r it).
Proof.
  revert r it. induction ps as [|p ps IH]; intros r it; cbn [left_root]; [done|].
  apply no_panic_bind; [by destruct it|]. intros [h it'] _. apply IH.
Qed.

Lemma reconstruct_no_panic (pf : SegmentProof Hash) sz first last r u :
  no_panic (reconstruct_root (T := T) pf sz first last r u).
Proof.
  unfold reconstruct_root. apply no_panic_bind; [apply climb_root_no_panic|]. intros [c it] _.
  apply no_panic_bind; [|intros [d it'] _; apply left_root_no_panic].
  destruct (find _ _); [|done]. by destruct it.
Qed.

(** Where nothing is pruned no leaf is optional. *)
Lemma root_without_bitmap s n :
  seg_ok (identifier s) n -> root_spec (T := T) elmt_hash s n (None : option BM) <> Ok None.
Proof.
  intros Hok Er. destruct Hok as [[Hh Hh60] Hi Hin Hn] eqn:EO. clear EO.
  pose proof (pow2_pos (height (identifier s)) Hh).
  eapply root_spec_Some in Er as [? ?]; [done|by split| |].
  - instantiate (1 := 2 ^ height (identifier s) * idx (identifier s)). unfold in_segment. lia.
  - done.
Qed.

Lemma first_unpruned_no_panic s n bitmap :
  seg_ok (identifier s) n -> StronglySorted Z.lt (leaf_iter s).*1 ->
  no_panic (first_unpruned_parent (T := T) elmt_hash s (npos 0 n) bitmap).
Proof.
  intros Hok Hs. unfold first_unpruned_parent. rewrite seg_root_spec by done.
  apply no_panic_bind; [by apply seg_root_no_panic|]. intros o Eo.
  destruct (segment_pos_range _ _) as [first last]. destruct o as [h|]; [done|].
  destruct bitmap as [bm|]; [|by destruct (root_without_bitmap _ _ Hok)]. apply unpruned_loop_no_panic.
Qed.

(** Validation is total on the segments that exist: for an identifier whose
    first leaf is in the range, no content of the segment, of its proof or of
    the bitmap makes [validate] or [validate_with] panic; for one that starts
    past the end of the range both always panic. *)
Theorem segment_validate_panics s n bitmap rt pos other is_left :
  0 <= height (identifier s) <= 60 -> 0 <= idx (identifier s) -> 0 < n < 2 ^ 60 ->
  2 ^ height (identifier s) * idx (identifier s) < 2 ^ 62 ->
  StronglySorted Z.lt (leaf_iter s).*1 ->
  let panics := n <= 2 ^ height (identifier s) * idx (identifier s) in
  (validate (T := T) elmt_hash s (npos 0 n) bitmap rt = Err Panic <-> panics) /\
  (validate_with (T := T) elmt_hash s (npos 0 n) bitmap rt pos other is_left = Err Panic <-> panics).
Proof.
  intros Hh Hi Hn Hoff Hs panics. destruct (Z.lt_ge_cases (2 ^ height (identifier s) * idx (identifier s)) n)
    as [Hlt|Hge]; unfold panics; clear panics.
  - assert (Hok : seg_ok (identifier s) n) by (split; lia).
    pose proof (first_unpruned_no_panic s n bitmap Hok Hs) as Hf.
    unfold validate, validate_with. destruct (segment_pos_range _ _) as [first last].
    split; (split; [intros Hp; exfalso|lia]); revert Hp.
    + change (no_panic (let? (segment_root, segment_unpruned_pos) :=
        first_unpruned_parent (T := T) elmt_hash s (npos 0 n) bitmap in
        proof_validate (T := T) (seg_proof s) (npos 0 n) rt first last segment_root segment_unpruned_pos)).
      apply no_panic_bind; [done|intros [r u] _]. unfold proof_validate.
      apply no_panic_bind; [apply reconstruct_no_panic|]. intros top _. unfold check_root. by case_decide.
    + change (no_panic (let? (segment_root, segment_unpruned_pos) :=
        first_unpruned_parent (T := T) elmt_hash s (npos 0 n) bitmap in
        proof_validate_with (T := T) (seg_proof s) (npos 0 n) rt first last segment_root segment_unpruned_pos
          pos other is_left)).
      apply no_panic_bind; [done|intros [r u] _]. unfold proof_validate_with.
      apply no_panic_bind; [apply reconstruct_no_panic|]. intros top _. unfold check_root. by case_decide.
  - assert (Hroot : first_unpruned_parent (T := T) elmt_hash s (npos 0 n) bitmap = Err Panic).
    { set (H' := height (identifier s)) in *. set (i := idx (identifier s)) in *.
      pose proof (pow2_pos H' ltac:(lia)). assert (2 ^ H' <= 2 ^ 60) by (apply Z.pow_le_mono_r; lia).
      assert (Ecap : segment_capacity (identifier s) = 2 ^ H') by (unfold segment_capacity; apply shl64_1; lia).
      assert (Eoff : leaf_offset (identifier s) = 2 ^ H' * i).
      { unfold leaf_offset. rewrite Ecap. fold i. rewrite mul64_small by (unfold_words; nia). lia. }
      assert (Eun : segment_unpruned_size (identifier s) (npos 0 n) = 0).
      { unfold segment_unpruned_size. rewrite Ecap, Eoff, n_leaves_npos by lia. unfold sat_sub64. lia. }
      assert (Ef : full_segment (identifier s) (npos 0 n) = false).
      { unfold full_segment. rewrite Eun, Ecap. apply Z.eqb_neq. lia. }
      pose proof (npos0_ge n ltac:(lia)).
      unfold first_unpruned_parent, seg_root, segment_pos_range. rewrite Ef, Eoff.
      rewrite insertion_index_npos by (split; [nia|lia]). rewrite sub64_small by (unfold_words; lia).
      assert (Hle : npos 0 n <= npos 0 (2 ^ H' * i)).
      { destruct (Z.eq_dec n (2 ^ H' * i)) as [<-|]; [lia|]. pose proof (npos0_mono n (2 ^ H' * i)). lia. }
      assert (Er : range_incl (npos 0 (2 ^ H' * i)) (npos 0 n - 1) = [])
        by (unfold range_incl; apply seqZ_nil; lia).
      rewrite Er. cbn [root_loop rbind].
      assert (Efl : filter (fun x => npos 0 (2 ^ H' * i) <= x <= npos 0 n - 1) (peaks (npos 0 n)) = [])
        by (apply filter_none, Forall_forall; intros x _; lia).
      by rewrite Efl. }
    unfold validate, validate_with. rewrite Hroot. by destruct (segment_pos_range _ _).
Qed.

End panics.

(** A segment with one leaf, of a range of two leaves and of a range of one. *)
Lemma segment_validate_panics_witness :
  let s := mkSegment (mkId 0 1) [] [] [1] [11] (mkSegProof []) in
  validate (T := Z) (Hash := term) (BM := gset Z) (fun x i => leaf_hash x i) s (npos 0 1) None ZERO_HASH
    = Err Panic /\
  validate (T := Z) (Hash := term) (BM := gset Z) (fun x i => leaf_hash x i) s (npos 0 2) None ZERO_HASH
    <> Err Panic.
Proof.
  set (s := mkSegment (mkId 0 1) [] [] [1] [11] (mkSegProof [])). cbn zeta.
  pose proof (fun n (Hn : 0 < n < 2 ^ 60) => segment_validate_panics (T := Z) (BM := gset Z) (fun x i => leaf_hash x i) s n None
    ZERO_HASH 0 ZERO_HASH true ltac:(done) ltac:(done) Hn ltac:(done) ltac:(repeat constructor)) as H.
  pose proof (H 1 ltac:(done)) as [H1 _]. pose proof (H 2 ltac:(done)) as [H2 _]. clear H. split.
  - apply H1. done.
  - intros Hp. exact (proj1 H2 Hp eq_refl).
Defined.
