(* ===== verification/SegmentServe.v ===== *)
(** Segments that a node serves.

    Proves that a segment which [from_pmmr] cuts from a range that still has
    its hashes validates against the root of the range: without a bitmap when it
    carries leaves only, under any bitmap when it carries the hashes of the
    inner nodes too. *)

From Stdlib Require Import ZArith Lia.
From stdpp Require Import base numbers option sorting gmap list.
From S2P Require Import Prelude PmmrIndex Pmmr Ser Bitmap Segments SegmentSpec.
Open Scope Z_scope.

#[local] Arguments peak_bits : simpl never.

(** ** Positions *)

(** A subtree below another one comes before its root. *)
Lemma npos_within h q H i :
  0 <= h -> 0 <= q -> 0 <= H -> 0 <= i ->
  2 ^ H * i <= 2 ^ h * q -> 2 ^ h * (q + 1) <= 2 ^ H * (i + 1) -> npos h q <= npos H i.
Proof.
  intros Hh Hq HH Hi Hlo Hhi. pose proof (pow2_pos h Hh). pose proof (pow2_pos H HH).
  destruct (Z.eq_dec (2 ^ h * (q + 1)) (2 ^ H * (i + 1))) as [E|E].
  - assert (Hle : 2 ^ h <= 2 ^ H) by nia. apply Z.pow_le_mono_r_iff in Hle; [|lia..].
    rewrite <- (node_pos_npos h q), <- (node_pos_npos H i) by done. unfold node_pos, last_leaf.
    rewrite E. lia.
  - assert (Hlt : npos h q < npos 0 (2 ^ H * (i + 1) - 1)) by (apply npos_lt_leaf; nia).
    rewrite <- (node_pos_npos H i) by done. rewrite npos0 in Hlt. unfold node_pos, last_leaf in *. lia.
Qed.

Lemma leaf_required_pair {BM} `{Bitmap BM} (bitmap : option BM) sz q :
  0 <= q -> 2 * q + 1 < 2 ^ 60 -> npos 1 q < sz < 2 ^ 61 ->
  leaf_required bitmap sz (npos 0 (2 * q)) = leaf_required bitmap sz (npos 0 (2 * q + 1)).
Proof.
  intros Hq Hq60 Hsz. unfold leaf_required. destruct bitmap as [b|]; [|done].
  pose proof (npos_left 0 q ltac:(lia) Hq) as El. pose proof (npos_right 0 q ltac:(lia) Hq) as Er.
  change (0 + 1) with 1 in *. change (2 ^ 1) with 2 in *.
  destruct (npos_bounds 0 (2 * q)) as (_ & _ & Hb); [lia..|].
  pose proof (npos0_ge (2 * q) ltac:(lia)). pose proof (npos0_ge (2 * q + 1) ltac:(lia)).
  rewrite (add64_small (npos 0 (2 * q))), (add64_small (npos 0 (2 * q + 1))) by (unfold_words; lia).
  rewrite !n_leaves_after by lia. rewrite !is_left_sibling_npos by (unfold in_bounds; lia).
  rewrite even_double, even_double1, (sub64_small sz) by (unfold_words; lia).
  rewrite (sub64_small (2 * q + 1)), (sub64_small (2 * q + 1 + 1)) by (unfold_words; lia).
  rewrite add64_small, sub64_small by (unfold_words; lia).
  destruct (Z.eqb_spec (npos 0 (2 * q)) (sz - 1)); [lia|].
  destruct (Z.eqb_spec (npos 0 (2 * q + 1)) (sz - 1)); [lia|].
  replace (2 * q + 1 + 1 - 1) with (2 * q + 1) by lia.
  replace (2 * q + 1 - 1) with (2 * q) by lia.
  rewrite (orb_comm (bm_contains b (wrap 32 (2 * q + 1)))). done.
Qed.

(** Without its last parents, a last leaf alone is always needed. *)
Lemma leaf_required_last {BM} `{Bitmap BM} (bitmap : option BM) n :
  0 <= n < 2 ^ 60 -> Z.even n = true -> leaf_required bitmap (npos 0 (n + 1)) (npos 0 n) = true.
Proof.
  intros Hn Hev. unfold leaf_required. destruct bitmap as [b|]; [|done].
  pose proof (npos0_ge (n + 1) ltac:(lia)).
  rewrite (sub64_small (npos 0 (n + 1))) by (unfold_words; lia).
  rewrite (next_leaf_pos n 0 n) by (done || lia).
  destruct (Z.eqb_spec (npos 0 n) (npos 0 n + 1 - 1)); [|lia]. by rewrite orb_true_r.
Qed.

(** ** Filling a segment *)

Lemma lookup_pos_zip {A} (f : Z -> option A) (lp : list Z) (ld : list A) pos :
  Forall2 (fun x d => f x = Some d) lp ld -> pos ∈ lp -> lookup_pos (zip lp ld) pos = f pos.
Proof.
  unfold lookup_pos. induction 1 as [|x d lp ld Hx _ IH]; intros Hin; [by apply elem_of_nil in Hin|].
  cbn [zip zip_with find fst]. destruct (Z.eqb_spec x pos) as [->|]; [by rewrite Hx|].
  apply IH. apply elem_of_cons in Hin as [->|]; done.
Qed.

Section serve.
Context {T E Hash B : Type} {PH : PMMRHash T Hash} {BE : Backend T E Hash B}
  {BL : BackendLaws T E Hash B} {BM : Type} {HB : Bitmap BM}.
Context (as_elmt : T -> E) (elmt_hash : E -> Z -> Hash).
Hypothesis hash_as : forall x i, elmt_hash (as_elmt x) i = leaf_hash x i.
Implicit Types (p : PMMR B) (l : list T) (s : Segment E Hash).

Lemma fill_all p prunable ps s :
  Forall (fun pos => if is_leaf pos then is_Some (get_data_from_file (T := T) p pos)
                     else is_Some (get_from_file (T := T) p pos)) ps ->
  exists s' ld hs, fill (T := T) p prunable s ps = Ok s' /\ identifier s' = identifier s /\
    leaf_pos s' = leaf_pos s ++ filter (fun x => is_true (is_leaf x)) ps /\ leaf_data s' = leaf_data s ++ ld /\
    Forall2 (fun x d => get_data_from_file (T := T) p x = Some d) (filter (fun x => is_true (is_leaf x)) ps) ld /\
    hash_pos s' = hash_pos s ++
      (if prunable then filter (fun x => ~ is_true (is_leaf x)) ps else []) /\
    hashes s' = hashes s ++ (if prunable then hs else []) /\
    Forall2 (fun x h => get_from_file (T := T) p x = Some h) (filter (fun x => ~ is_true (is_leaf x)) ps) hs.
Proof.
  intros Hps. revert s. induction Hps as [|x ps Hx _ IH]; intros s.
  - exists s, [], []. rewrite !app_nil_r. destruct prunable; rewrite ?app_nil_r; split_and!; done || constructor.
  - cbn [fill]. unfold fill_step. rewrite !filter_cons. destruct (is_leaf x) eqn:Ex.
    + destruct Hx as [d Ed]. rewrite Ed. cbn [rbind].
      destruct (IH (push_leaf s x d)) as (s' & ld & hs & E1 & E2 & E3 & E4 & E5 & E6 & E7 & E8).
      exists s', (d :: ld), hs. rewrite decide_True, decide_False by (unfold is_true; naive_solver).
      cbn [push_leaf identifier leaf_pos leaf_data hash_pos hashes] in *.
      rewrite <- app_assoc in E3, E4. split_and!; try done. by constructor.
    + destruct Hx as [h Eh]. rewrite Eh.
      rewrite (decide_False (P := is_true false)), (decide_True (P := ~ is_true false)) by (unfold is_true; naive_solver).
      destruct prunable; cbn [rbind].
      * destruct (IH (push_hash s x h)) as (s' & ld & hs & E1 & E2 & E3 & E4 & E5 & E6 & E7 & E8).
        exists s', ld, (h :: hs). cbn [push_hash identifier leaf_pos leaf_data hash_pos hashes] in *.
        rewrite <- app_assoc in E6, E7. split_and!; try done. by constructor.
      * destruct (IH s) as (s' & ld & hs & E1 & E2 & E3 & E4 & E5 & E6 & E7 & E8).
        exists s', ld, (h :: hs). split_and!; try done. by constructor.
Qed.

(** *** Segments with the data of the range *)

Section honest.
Context (l : list T) (id : SegmentIdentifier).
Abbreviation n := (Z.of_nat (length l)).
Abbreviation first := (npos 0 (2 ^ height id * idx id)).
Abbreviation last_ := (if is_full id n then npos (height id) (idx id) else npos 0 n - 1).
Hypothesis Hok : seg_ok id n.
Hypothesis Hheight : 1 <= height id.

(** The subtree of a node lies in the segment. *)
Definition inside (h : nat) (q : Z) : Prop :=
  2 ^ height id * idx id <= 2 ^ Z.of_nat h * q /\
  2 ^ Z.of_nat h * (q + 1) <= Z.min n (2 ^ height id * (idx id + 1)).

Record honest s (prunable : bool) : Prop := {
  hon_id : identifier s = id;
  hon_sorted : StronglySorted Z.lt (leaf_iter s).*1;
  hon_leaf j : in_segment id n j -> leaf_at s (npos 0 j) = as_elmt <$> l !! Z.to_nat j;
  hon_hash h q hh : prunable = true -> 0 <= q -> inside (S h) q -> tree_hash l (S h) q = Some hh ->
    get_hash s (npos (Z.of_nat (S h)) q) = Ok hh;
  hon_pos : leaf_pos s = filter (fun x => is_true (is_leaf x)) (range_incl first last_);
  hon_length : length (leaf_pos s) = length (leaf_data s);
}.

Lemma inside_split h q : 0 <= q -> inside (S h) q -> inside h (2 * q) /\ inside h (2 * q + 1).
Proof.
  unfold inside. rewrite Nat2Z.inj_succ, Z.pow_succ_r by lia. intros.
  pose proof (pow2_pos (Z.of_nat h)). split; split; nia.
Qed.

Lemma inside_bounds h q :
  0 <= q -> inside h q -> npos (Z.of_nat h) q < npos 0 n /\ first <= npos (Z.of_nat h) q <= last_.
Proof.
  intros Hq [Hlo Hhi]. destruct Hok as [[Hh _] Hi Hin _]. pose proof (pow2_pos (height id) Hh).
  assert (Hlt : npos (Z.of_nat h) q < npos 0 n) by (apply npos_lt_leaf; lia).
  assert (0 <= 2 ^ height id * idx id) by nia.
  split; [done|]. split.
  - apply Z.nlt_ge. intros Hno. apply npos_lt_leaf in Hno; [|lia..].
    pose proof (pow2_pos (Z.of_nat h)). nia.
  - unfold is_full. destruct (Z.leb_spec (2 ^ height id * (idx id + 1)) n); [|lia].
    apply npos_within; lia.
Qed.

Lemma size_bound : 0 <= npos 0 n < 2 ^ 61.
Proof. destruct Hok as [_ _ _ Hn]. pose proof (npos0_ge n). lia. Qed.

Lemma tree_hash_inside h q : 0 <= q -> inside h q -> is_Some (tree_hash l h q).
Proof. intros Hq [_ Hhi]. apply tree_hash_is_Some; lia. Qed.

Lemma parent_children h q :
  0 <= q -> npos (Z.of_nat (S h)) q < 2 ^ 61 ->
  sub64 (sub64 (add64 1 (npos (Z.of_nat (S h)) q)) (shl64 1 (Z.of_nat (S h)))) 1 = npos (Z.of_nat h) (2 * q)
  /\ sub64 (npos (Z.of_nat (S h)) q) 1 = npos (Z.of_nat h) (2 * q + 1).
Proof.
  intros Hq Hb. pose proof (npos_left (Z.of_nat h) q ltac:(lia) Hq) as El.
  pose proof (npos_right (Z.of_nat h) q ltac:(lia) Hq) as Er.
  replace (Z.of_nat h + 1) with (Z.of_nat (S h)) in El, Er by lia.
  destruct (npos_bounds (Z.of_nat h) (2 * q)) as (_ & _ & Hl); [lia..|].
  pose proof (height_bound (Z.of_nat (S h)) q ltac:(lia) Hq ltac:(lia)).
  pose proof (pow2_pos (Z.of_nat (S h))).
  rewrite shl64_1, add64_small by (unfold_words; lia).
  rewrite (sub64_small (1 + _)) by (unfold_words; lia).
  rewrite !sub64_small by (unfold_words; lia). lia.
Qed.

Context (s : Segment E Hash) (bitmap : option BM).
Hypothesis Hs : honest s (is_some bitmap).
Abbreviation root_of := (node_root (T := T) elmt_hash s (npos 0 n) bitmap).

(** Where a node has a hash, it is the one of the range. *)
Lemma node_root_honest h q :
  0 <= q -> inside h q ->
  exists o, root_of h q = Ok o /\ (o = None \/ o = tree_hash l h q) /\
    (is_some bitmap = false -> o <> None).
Proof.
  destruct Hok as [[Hh _] Hi _ Hn]. revert q. induction h as [|h IH]; intros q Hq Hin.
  - cbn [node_root]. destruct (leaf_required bitmap (npos 0 n) (npos 0 q)) eqn:Er.
    + assert (Hj : in_segment id n q).
      { unfold inside in Hin. change (2 ^ Z.of_nat 0) with 1 in Hin. unfold in_segment. lia. }
      rewrite (hon_leaf _ _ Hs q Hj). unfold in_segment in Hj.
      destruct (lookup_lt_is_Some_2 l (Z.to_nat q)) as [x Ex]; [lia|]. rewrite Ex. simpl.
      eexists. split; [done|]. split; [|done]. right. by rewrite hash_as, Ex.
    + exists None. split; [done|]. split; [by left|]. intros Hb. unfold leaf_required in Er.
      by destruct bitmap.
  - destruct (inside_split h q Hq Hin) as [Hl Hr].
    destruct (IH (2 * q) ltac:(lia) Hl) as (o1 & E1 & V1 & N1).
    destruct (IH (2 * q + 1) ltac:(lia) Hr) as (o2 & E2 & V2 & N2).
    destruct (inside_bounds (S h) q Hq Hin) as [Hlt _]. pose proof size_bound.
    destruct (parent_children h q Hq ltac:(lia)) as [Pl Pr].
    destruct (tree_hash_inside h (2 * q) ltac:(lia) Hl) as [a Ea].
    destruct (tree_hash_inside h (2 * q + 1) ltac:(lia) Hr) as [b Eb].
    assert (Etree : tree_hash l (S h) q = Some (pair_hash (a, b) (npos (Z.of_nat (S h)) q)))
      by (cbn [tree_hash]; by rewrite Ea, Eb).
    (* children of the lowest inner nodes are needed together *)
    assert (Hsib : h = 0%nat -> o1 = None <-> o2 = None).
    { intros ->. cbn [node_root] in E1, E2. change (Z.of_nat 1) with 1 in Hlt.
      assert (2 * q + 1 < 2 ^ 60).
      { destruct Hr as [_ Hr]. change (2 ^ Z.of_nat 0) with 1 in Hr. lia. }
      rewrite (leaf_required_pair bitmap (npos 0 n) q) in E1 by (done || lia).
      destruct (leaf_required bitmap (npos 0 n) (npos 0 (2 * q + 1))); inv_res; by simplify_eq. }
    assert (Hget : forall q' hh, is_some bitmap = true -> 0 <= q' -> inside h q' -> h <> 0%nat ->
      tree_hash l h q' = Some hh -> get_hash s (npos (Z.of_nat h) q') = Ok hh).
    { intros q' hh Hp Hq' Hin' Hne Et. destruct h as [|h']; [done|]. by apply (hon_hash _ _ Hs). }
    cbn [node_root]. rewrite E1, E2. cbn [rbind]. unfold parent_hash. rewrite Pl, Pr, Etree.
    destruct (is_some bitmap) eqn:Ebm.
    + destruct o1 as [x|], o2 as [y|].
      * destruct V1 as [?|V1], V2 as [?|V2]; try done. rewrite Ea in V1. rewrite Eb in V2. simplify_eq.
        eexists. split; [done|]. by auto.
      * destruct V1 as [?|V1]; [done|]. rewrite Ea in V1. simplify_eq.
        rewrite (Hget (2 * q + 1) b) by (done || lia || (intros Hz; discriminate (proj2 (Hsib Hz) eq_refl))).
        eexists. split; [done|]. by auto.
      * destruct V2 as [?|V2]; [done|]. rewrite Eb in V2. simplify_eq.
        rewrite (Hget (2 * q) a) by (done || lia || (intros Hz; discriminate (proj1 (Hsib Hz) eq_refl))).
        eexists. split; [done|]. by auto.
      * exists None. by auto.
    + destruct o1 as [x|]; [|by destruct (N1 eq_refl)]. destruct o2 as [y|]; [|by destruct (N2 eq_refl)].
      destruct V1 as [?|V1], V2 as [?|V2]; try done. rewrite Ea in V1. rewrite Eb in V2. simplify_eq.
      eexists. split; [done|]. by auto.
Qed.

(** The bits of the peaks of the last segment. *)
Abbreviation last_bits := (peak_bits (Z.to_nat (height id)) (n - 2 ^ height id * idx id)).

(** What a proof ties to the root of the range. *)
Definition seg_hash : option Hash :=
  if is_full id n then tree_hash l (Z.to_nat (height id)) (idx id)
  else bag (T := T) (npos 0 n) (mmr_peaks l last_bits).

Lemma last_split :
  is_full id n = false ->
  exists hi, peak_bits 62 n = hi ++ last_bits /\ last_bits <> [] /\
    Forall (fun b => peak_pos n b < first) hi /\
    Forall (fun b => 0 <= b < height id /\ 0 <= n / 2 ^ b - 1 /\ inside (Z.to_nat b) (n / 2 ^ b - 1) /\
                     (b = 0 -> Z.odd n = true)) last_bits.
Proof.
  unfold is_full. intros Hlast%Z.leb_gt. destruct Hok as [[Hh Hh60] Hi Hin Hn].
  set (H := height id) in *. set (i := idx id) in *. set (m := n - 2 ^ H * i).
  assert (En : n = 2 ^ H * i + m) by (unfold m; lia). pose proof (pow2_pos H Hh).
  destruct (peaks_last H i m) as (hi & Eb & Hhi & Hlo); [lia..|]. rewrite <- En in *.
  exists hi. split; [done|]. split; [|split; [done|]].
  - intros Hnil. destruct (peaks_cover (Z.to_nat H) i m (2 ^ H * i)) as (b & Hb & _);
      [lia|rewrite Z2Nat.id by lia; lia..|]. rewrite Hnil in Hb. by apply elem_of_nil in Hb.
  - apply Forall_forall. intros b Hb. pose proof Hb as [Hbr Hbit]%elem_of_peak_bits.
    rewrite Z2Nat.id in Hbr by lia. split; [done|].
    assert (Hb62 : b ∈ peak_bits 62 n) by (rewrite Eb, elem_of_app; by auto).
    destruct (peak_bit_node n b ltac:(lia) Hb62) as (_ & Hq & _).
    assert (E2 : 2 ^ H = 2 ^ (H - b) * 2 ^ b) by (rewrite <- Z.pow_add_r by lia; f_equal; lia).
    pose proof (pow2_pos b ltac:(lia)). pose proof (pow2_pos (H - b) ltac:(lia)).
    assert (Ediv : n / 2 ^ b = 2 ^ (H - b) * i + m / 2 ^ b).
    { rewrite En, E2, <- Z.mul_assoc, (Z.mul_comm (2 ^ b)), Z.mul_assoc.
      rewrite Z.div_add_l by lia. done. }
    assert (m / 2 ^ b <> 0).
    { intros E0. rewrite Z.testbit_odd, Z.shiftr_div_pow2, E0 in Hbit by lia. done. }
    assert (0 <= m / 2 ^ b) by (apply Z.div_pos; lia).
    pose proof (Z.mul_div_le n (2 ^ b) ltac:(lia)).
    split; [done|]. split.
    + unfold inside. fold H i. rewrite Z2Nat.id by lia.
      replace (n / 2 ^ b - 1 + 1) with (n / 2 ^ b) by lia. split; [|lia].
      rewrite Ediv, E2. nia.
    + intros ->. rewrite <- Z.bit0_odd. apply elem_of_peak_bits in Hb62 as [_ Hb62]. done.
Qed.

(** Loading the peaks that are pruned gives all the peaks. *)
Lemma bag_honest bits hs acc :
  Forall (fun b => 0 <= b < height id /\ 0 <= n / 2 ^ b - 1 /\ inside (Z.to_nat b) (n / 2 ^ b - 1) /\
                   (b = 0 -> Z.odd n = true)) bits ->
  Forall2 (fun b o => peak_root (T := T) elmt_hash s (npos 0 n) bitmap n b = Ok o) bits hs ->
  bag_loop (T := T) s (npos 0 n) bitmap (map (peak_pos n) bits) hs acc =
    Ok (fold_left (bag_step (T := T) (npos 0 n)) (mmr_peaks l bits) acc).
Proof.
  intros Hbits Hhs. revert acc. induction Hhs as [|b o bits hs Eo Hhs IH]; intros acc; [done|].
  apply Forall_cons in Hbits as [(Hb & Hq & Hin & H0) Hbits]. cbn [map bag_loop].
  destruct (tree_hash_inside _ _ Hq Hin) as [v Ev].
  assert (Em : mmr_peaks l (b :: bits) = v :: mmr_peaks l bits)
    by (unfold mmr_peaks; cbn [omap list_omap]; by rewrite Ev).
  rewrite Em. cbn [fold_left]. unfold peak_root in Eo.
  destruct (node_root_honest _ _ Hq Hin) as (o' & Eo' & Hv & Hsome). rewrite Eo in Eo'. simplify_eq.
  assert (Hstep : (let? lhash := (if negb (is_some o') && is_some bitmap
      then let? h := get_hash s (peak_pos n b) in Ok (Some h) else Ok o') in
      expect_or lhash (MissingHash (add64 1 (peak_pos n b)))) = Ok v).
  { destruct Hv as [-> | ->]; [|rewrite Ev; simpl; done]. simpl.
    destruct (is_some bitmap) eqn:Ebm; [|by destruct (Hsome eq_refl)].
    unfold peak_pos. destruct (Z.to_nat b) as [|b'] eqn:Eb.
    - assert (b = 0) as -> by lia. specialize (H0 eq_refl). exfalso.
      rewrite Z.pow_0_r, Z.div_1_r in Eo, Hq. change (Z.to_nat 0) with 0%nat in Eo.
      cbn [node_root] in Eo. destruct Hok as [_ _ _ Hn60].
      replace (npos 0 n) with (npos 0 (n - 1 + 1)) in Eo at 1 by (f_equal; lia).
      rewrite leaf_required_last in Eo; [by inv_res|lia|].
      rewrite Z.even_sub, <- Z.negb_odd, H0. done.
    - replace (npos b (n / 2 ^ b - 1)) with (npos (Z.of_nat (S b')) (n / 2 ^ b - 1)) by (f_equal; lia).
      by rewrite (hon_hash _ _ Hs b' _ v). }
  apply rbind_Ok in Hstep as (lh & -> & Elh). cbn [rbind]. rewrite Elh. cbn [rbind]. by apply IH.
Qed.

Lemma mmr_peaks_rev bits : mmr_peaks l (rev bits) = rev (mmr_peaks l bits).
Proof.
  unfold mmr_peaks. induction bits as [|b bits IH]; [done|]. cbn [rev].
  rewrite omap_app, IH. cbn [omap list_omap]. destruct (tree_hash _ _ _); simpl; [done|].
  by rewrite app_nil_r.
Qed.

(** The root of the segment is what the range has there; a segment that is
    not needed at all offers the hash of its tree. *)
Lemma first_unpruned_honest :
  exists hh, seg_hash = Some hh /\
    first_unpruned_parent (T := T) elmt_hash s (npos 0 n) bitmap = Ok (hh, add64 1 last_).
Proof.
  pose proof (hon_id _ _ Hs) as Eid. destruct (segment_geometry id n Hok) as (_ & _ & Er).
  unfold first_unpruned_parent. rewrite Eid, Er.
  rewrite seg_root_spec by (rewrite ?Eid; apply Hok || apply (hon_sorted _ _ Hs)).
  unfold root_spec, seg_hash. rewrite Eid. fold (is_full id n).
  destruct (is_full id n) eqn:Ef.
  - assert (Hin : inside (Z.to_nat (height id)) (idx id)).
    { unfold is_full in Ef. apply Z.leb_le in Ef. unfold inside. rewrite Z2Nat.id by lia. lia. }
    destruct Hok as [[Hh Hh60] Hi _ Hn]. destruct (tree_hash_inside _ _ Hi Hin) as [hh Ehh].
    destruct (node_root_honest _ _ Hi Hin) as (o & -> & Hv & Hsome). rewrite Ehh in Hv |- *.
    exists hh. split; [done|]. cbn [rbind]. destruct Hv as [-> | ->]; [|done].
    destruct bitmap as [bm|] eqn:Ebm; [|by destruct (Hsome eq_refl)]. cbn [unwrap ok_or rbind].
    destruct (Z.to_nat (height id)) as [|h'] eqn:Eh; [lia|].
    assert (Eget : get_hash s (npos (height id) (idx id)) = Ok hh).
    { replace (height id) with (Z.of_nat (S h')) by lia. by apply (hon_hash _ _ Hs). }
    by destruct (family_branch _ _) as [|[? ?] ?]; cbn [unpruned_loop]; rewrite Eget.
  - destruct (last_split Ef) as (hi & Eb & Hne & _ & Hlo).
    assert (Hcol : exists hs, collect (peak_root (T := T) elmt_hash s (npos 0 n) bitmap n) last_bits = Ok hs).
    { clear Hne Eb. induction Hlo as [|b bits (_ & Hq & Hin & _) _ [hs IH]]; [by exists []|].
      destruct (node_root_honest _ _ Hq Hin) as (o & Eo & _). exists (o :: hs).
      cbn [collect]. unfold peak_root at 1. by rewrite Eo, IH. }
    destruct Hcol as [hs Hcol]. rewrite Hcol. cbn [rbind]. apply collect_Ok in Hcol.
    rewrite <- map_rev, bag_honest; [|by apply Forall_rev|].
    2:{ apply Forall2_rev_inv. by rewrite !rev_involutive. }
    rewrite mmr_peaks_rev, bag_rev. cbn [rbind].
    destruct (mmr_peaks l last_bits) as [|v vs] eqn:Em.
    { exfalso. destruct last_bits as [|b bits]; [done|]. apply Forall_cons in Hlo as [(_ & Hq & Hin & _) _].
      destruct (tree_hash_inside _ _ Hq Hin) as [v Ev]. unfold mmr_peaks in Em.
      cbn [omap list_omap] in Em. by rewrite Ev in Em. }
    destruct (bag_is_Some (T := T) (npos 0 n) v vs) as [hh ->]. by exists hh.
Qed.

End honest.
(** ** Proofs *)

Lemma view_get_hash p l h q :
  view p l -> 1 <= Z.of_nat h -> 0 <= q -> npos (Z.of_nat h) q < size p ->
  exists hs, tree_hash l h q = Some hs /\ Pmmr.get_hash (T := T) p (npos (Z.of_nat h) q) = Some hs /\
    hash_or_missing (T := T) p (npos (Z.of_nat h) q) = Ok hs.
Proof.
  intros Hview Hh Hq Hlt. destruct (view_node p l h q Hview Hq Hlt) as (hs & E1 & E2 & _).
  exists hs. split; [done|]. pose proof (view_bounds p l Hview).
  assert (E3 : Pmmr.get_hash (T := T) p (npos (Z.of_nat h) q) = Some hs).
  { unfold Pmmr.get_hash. unfold get_from_file in E2. rewrite is_leaf_npos by lia.
    destruct (size p <=? npos (Z.of_nat h) q); [done|].
    destruct (Z.eqb_spec (Z.of_nat h) 0); [lia|done]. }
  split; [done|]. unfold hash_or_missing. by rewrite E3.
Qed.

(** Climbing to the peak with the siblings. *)
Lemma climb_serve p l fuel h q hh :
  view p l -> 1 <= Z.of_nat h -> 0 <= q -> npos (Z.of_nat h) q < size p ->
  62 - Z.of_nat h <= Z.of_nat fuel -> tree_hash l h q = Some hh ->
  let branch := climb fuel (npos (Z.of_nat h) q) (size p) in
  exists h' q' sibs top, 0 <= q' /\ (h <= h')%nat /\ 2 ^ Z.of_nat h' * q' <= 2 ^ Z.of_nat h * q /\
    npos (Z.of_nat h') q' < size p <= npos (Z.of_nat h' + 1) (q' / 2) /\
    default (npos (Z.of_nat h) q) (fst <$> last branch) = npos (Z.of_nat h') q' /\
    npos (Z.of_nat h) q <= npos (Z.of_nat h') q' /\
    tree_hash l h' q' = Some top /\
    collect (fun x => hash_or_missing (T := T) p (snd x)) branch = Ok sibs /\
    forall u rest, u <= npos (Z.of_nat h) q + 1 ->
      climb_root (T := T) branch u hh (sibs ++ rest) = Ok (top, rest).
Proof.
  intros Hview Hh1. pose proof (view_bounds p l Hview) as Hsz.
  revert h q hh Hh1. induction fuel as [|fuel IH]; intros h q hh Hh1 Hq Hlt Hf Eh;
    pose proof (height_bound (Z.of_nat h) q ltac:(lia) Hq ltac:(lia)) as Hh61; [lia|].
  cbn [climb]. pose proof (npos_parent_gt (Z.of_nat h) q ltac:(lia) Hq) as Hpar.
  assert (0 <= npos (Z.of_nat h) q) by (destruct (npos_bounds (Z.of_nat h) q); lia).
  rewrite family_npos by (unfold in_bounds; lia).
  destruct (Z.ltb_spec (npos (Z.of_nat h + 1) (q / 2)) (size p)) as [Hin|Hout].
  2:{ exists h, q, [], hh. cbn [last fmap option_fmap option_map default collect climb_root app].
      split_and!; auto; lia. }
  pose proof (Z.div_mod q 2 ltac:(lia)) as Hdm. pose proof (Z.mod_pos_bound q 2 ltac:(lia)).
  set (j := q / 2) in *. assert (Hj : 0 <= j) by lia.
  pose proof (npos_left (Z.of_nat h) j ltac:(lia) Hj) as El.
  pose proof (npos_right (Z.of_nat h) j ltac:(lia) Hj) as Er.
  pose proof (pow2_pos (Z.of_nat h + 1)). pose proof (pow2_pos (Z.of_nat h)).
  destruct (view_get_hash p l h (2 * j) Hview) as (hl & T1 & _ & F1); [lia..|].
  destruct (view_get_hash p l h (2 * j + 1) Hview) as (hr & T2 & _ & F2); [lia..|].
  assert (Tp : tree_hash l (S h) j = Some (pair_hash (hl, hr) (npos (Z.of_nat h + 1) j))).
  { cbn [tree_hash]. rewrite T1, T2. repeat f_equal. lia. }
  replace (Z.of_nat h + 1) with (Z.of_nat (S h)) in * by lia.
  destruct (IH (S h) j (pair_hash (hl, hr) (npos (Z.of_nat (S h)) j)))
    as (h' & q' & sibs & top & Hq' & Hhh & Hlo & Hpk & Elast & Hge & Etop & Ecol & Hclimb); [lia..|done|].
  assert (Hcase : q = 2 * j /\ Z.even q = true \/ q = 2 * j + 1 /\ Z.even q = false).
  { clearbody j. assert (q = 2 * j \/ q = 2 * j + 1) as [-> | ->] by lia;
      rewrite ?even_double, ?even_double1; auto. }
  exists h', q', ((if Z.even q then hr else hl) :: sibs), top. split_and!; auto.
  - lia.
  - rewrite Nat2Z.inj_succ, Z.pow_succ_r in Hlo by lia. nia.
  - lia.
  - lia.
  - rewrite last_cons. by destruct (last _).
  - lia.
  - cbn [collect snd].
    assert (Esib : hash_or_missing (T := T) p (npos (Z.of_nat h) (if Z.even q then q + 1 else q - 1))
                   = Ok (if Z.even q then hr else hl)).
    { destruct Hcase as [[Eq ->]|[Eq ->]].
      - by replace (q + 1) with (2 * j + 1) by lia.
      - by replace (q - 1) with (2 * j) by lia. }
    replace (if Z.even q then npos (Z.of_nat h) (q + 1) else npos (Z.of_nat h) (q - 1))
      with (npos (Z.of_nat h) (if Z.even q then q + 1 else q - 1)) by (by destruct (Z.even q)).
    rewrite Esib. cbn [rbind]. by rewrite Ecol.
  - intros u rest Hu. cbn [app climb_root].
    destruct (Z.leb_spec u (npos (Z.of_nat (S h)) j)); [|lia]. cbn [next_hash rbind].
    assert (0 <= npos (Z.of_nat h) (2 * j)) by (destruct (npos_bounds (Z.of_nat h) (2 * j)); lia).
    destruct Hcase as [[Eq Eev]|[Eq Eev]]; rewrite Eev.
    + replace (q + 1) with (2 * j + 1) by lia. rewrite is_left_sibling_npos by (unfold in_bounds; lia).
      rewrite even_double1. rewrite Eq in Eh. rewrite T1 in Eh. simplify_eq. apply Hclimb. lia.
    + replace (q - 1) with (2 * j) by lia. rewrite is_left_sibling_npos by (unfold in_bounds; lia).
      rewrite even_double. rewrite Eq in Eh. rewrite T2 in Eh. simplify_eq. apply Hclimb. lia.
Qed.

(** The hashes of peaks. *)
Lemma collect_peaks p l bits :
  view p l -> (forall b, b ∈ bits -> b ∈ peak_bits 62 (Z.of_nat (length l)) /\ 1 <= b) ->
  collect (hash_or_missing (T := T) p) (map (peak_pos (Z.of_nat (length l))) bits)
    = Ok (mmr_peaks l bits).
Proof.
  intros Hview. pose proof Hview as (Es & Hl & _). induction bits as [|b bits IH]; intros Hbits; [done|].
  destruct (Hbits b) as [Hb Hb1]; [by left|].
  destruct (peak_bit_node (Z.of_nat (length l)) b) as (Hb62 & Hq & Hlt & _); [lia|done|].
  set (n := Z.of_nat (length l)) in *.
  destruct (view_get_hash p l (Z.to_nat b) (n / 2 ^ b - 1) Hview) as (v & Ev & _ & Eh);
    [lia|done|rewrite Z2Nat.id, Es by lia; exact Hlt|]. rewrite Z2Nat.id in Eh by lia.
  cbn [map collect]. unfold peak_pos at 1. rewrite Eh. cbn [rbind].
  rewrite IH by (intros c Hc; apply Hbits; by right). cbn [rbind]. unfold mmr_peaks.
  cbn [omap list_omap]. fold n. by rewrite Ev.
Qed.

Lemma left_root_bag sz ps hs c :
  length ps = length hs -> left_root (T := T) ps sz c hs = Ok (bag_left (T := T) sz hs c).
Proof.
  revert hs c. induction ps as [|x ps IH]; intros [|h hs] c Hlen; try done.
  cbn [left_root next_hash rbind bag_left fold_left]. apply IH. simpl in Hlen. lia.
Qed.

Lemma find_filter (P : Z -> bool) ps : find P ps = head (filter (fun x => is_true (P x)) ps).
Proof.
  induction ps as [|x ps IH]; [done|]. cbn [find]. rewrite filter_cons. unfold is_true.
  destruct (P x); case_decide; try done.
Qed.

Lemma filter_ext_in {A} (P Q : A -> Prop) `{forall x, Decision (P x), forall x, Decision (Q x)} (ps : list A) :
  (forall x, x ∈ ps -> P x <-> Q x) -> filter P ps = filter Q ps.
Proof.
  induction ps as [|x ps IH]; intros Heq; [done|]. rewrite !filter_cons.
  rewrite (IH ltac:(intros y Hy; apply Heq; by right)).
  pose proof (Heq x ltac:(by left)) as Hx. clear Heq. repeat case_decide; try done; tauto.
Qed.

(** The peaks on the left of a peak end before the leaves of that peak. *)
Lemma left_peak_end n b c :
  0 <= n < 2 ^ 60 -> b ∈ peak_bits 62 n -> c ∈ peak_bits 62 n -> b < c ->
  peak_pos n c < npos 0 (2 ^ b * (n / 2 ^ b - 1)).
Proof.
  intros Hn [Hb Hbit]%elem_of_peak_bits Hc Hlt.
  destruct (peak_bit_node n c ltac:(lia) Hc) as (Hc62 & Hq & _).
  rewrite Z.testbit_odd, Z.shiftr_div_pow2 in Hbit by lia. apply Z.odd_spec in Hbit as [a Ha].
  assert (0 <= n / 2 ^ b) by (apply Z.div_pos; lia). pose proof (pow2_pos b ltac:(lia)).
  apply npos_lt_leaf; [lia|done|apply Z.mul_nonneg_nonneg; lia|]. replace (n / 2 ^ c - 1 + 1) with (n / 2 ^ c) by lia.
  assert (Ec : 2 ^ c = 2 ^ b * (2 * 2 ^ (c - b - 1))).
  { rewrite <- Z.pow_succ_r, <- Z.pow_add_r by lia. f_equal. lia. }
  pose proof (pow2_pos (c - b - 1) ltac:(lia)).
  set (e := 2 ^ (c - b - 1)) in *.
  assert (Edc : n / 2 ^ c = a / e).
  { rewrite Ec, <- !Z.div_div, Ha by lia. f_equal. replace (2 * a + 1) with (1 + a * 2) by lia.
    rewrite Z.div_add by lia. done. }
  pose proof (Z.mul_div_le a e ltac:(lia)). rewrite Edc, Ec, Ha. nia.
Qed.

(** What [generate] makes, [reconstruct_root] takes, for a segment that ends
    below the peak [top]: [L] and [R] are the peaks around it. *)
Lemma generate_reconstruct_at p l first last_ L top R branch sibs hh :
  view p l ->
  let n := Z.of_nat (length l) in
  0 <= first <= last_ -> last_ < npos 0 n -> 
  family_branch last_ (npos 0 n) = branch ->
  let peak_pos0 := match last branch with Some (p0, _) => p0 | None => last_ end in
  collect (fun x => hash_or_missing (T := T) p (snd x)) branch = Ok sibs ->
  (forall rest, climb_root (T := T) branch (add64 1 last_) hh (sibs ++ rest) = Ok (top, rest)) ->
  filter (fun x => peak_pos0 < x) (peaks (npos 0 n)) = map (peak_pos n) R ->
  filter (fun x => x < first) (peaks (npos 0 n)) = map (peak_pos n) L ->
  (forall b, b ∈ R -> b ∈ peak_bits 62 n) -> (forall b, b ∈ L -> b ∈ peak_bits 62 n /\ 1 <= b) ->
  bag (T := T) (npos 0 n) (mmr_peaks l L ++
      (match bag (T := T) (npos 0 n) (mmr_peaks l R) with
       | Some r => [pair_hash (top, r) (npos 0 n)] | None => [top] end)) = Some (mmr_root l) ->
  exists proof, generate (T := T) p (npos 0 n) (add64 1 first) (add64 1 last_) None = Ok proof /\
    reconstruct_root (T := T) proof (npos 0 n) first last_ hh (add64 1 last_) = Ok (mmr_root l).
Proof.
  intros Hview n Hfl Hlast Ebr peak_pos0 Ecol Hclimb ER EL HR HL Hroot.
  pose proof Hview as (Es & Hl & _). fold n in Es, Hl. pose proof (npos0_ge n ltac:(lia)).
  unfold generate, reconstruct_root. rewrite Ebr.
  rewrite (add64_small 1 first), (add64_small 1 last_), sub64_small by (unfold_words; lia).
  replace (1 + last_ - 1) with last_ by lia. rewrite Ebr. fold peak_pos0.
  rewrite filter_all by (apply Forall_forall; done). rewrite Ecol. cbn [rbind].
  rewrite (filter_ext_in (fun x => add64 1 x < 1 + first) (fun x => x < first)).
  2:{ intros x Hx. rewrite peaks_npos in Hx by lia. apply elem_of_map in Hx as (b & -> & Hb).
      destruct (peak_bit_node n b ltac:(lia) Hb) as (? & ? & ? & _). unfold peak_pos in *.
      destruct (npos_bounds b (n / 2 ^ b - 1)) as (_ & _ & ?); [lia..|].
      rewrite add64_small by (unfold_words; lia). lia. }
  rewrite EL, <- map_rev.
  rewrite (collect_peaks p l) by (done || (intros b Hb%list_elem_of_In%in_rev%list_elem_of_In; auto)). cbn [rbind].
  unfold bag_the_rhs, unpruned_size. rewrite Es, ER, bag_rev.
  destruct (view_peaks p l R get_from_file Hview) as [EpR ElR]; [by left|done|]. fold n in EpR.
  rewrite EpR. eexists. split; [done|]. cbn [proof_hashes].
  specialize (Hclimb (match bag (T := T) (npos 0 n) (mmr_peaks l R) with Some h => [h] | None => [] end
                      ++ mmr_peaks l (rev L))).
  rewrite add64_small in Hclimb by (unfold_words; lia). rewrite Hclimb. cbn [rbind].
  rewrite find_filter. rewrite (filter_ext_in _ (fun x => peak_pos0 < x)).
  2:{ intros x _. unfold is_true. rewrite Z.ltb_lt. done. }
  rewrite ER, mmr_peaks_rev.
  assert (EmL : length (mmr_peaks l L) = length L).
  { destruct (view_peaks p l L get_from_file Hview) as [_ EmL]; [by left| |done].
    intros b Hb. by apply HL. }
  assert (Hend : forall c, left_root (T := T) (map (peak_pos n) (rev L)) (npos 0 n) c (rev (mmr_peaks l L))
                  = Ok (bag_left (T := T) (npos 0 n) (rev (mmr_peaks l L)) c)).
  { intros c. apply left_root_bag. by rewrite length_map, !length_rev. }
  destruct (bag (T := T) (npos 0 n) (mmr_peaks l R)) as [r|] eqn:Er.
  - destruct R as [|c R']; [done|]. cbn [map head app next_hash rbind]. rewrite Hend. f_equal.
    rewrite (bag_app _ _ _ (pair_hash (top, r) (npos 0 n))) in Hroot by done. by simplify_eq.
  - destruct R as [|c R'].
    2:{ destruct (mmr_peaks l (c :: R')) as [|y ys]; [done|].
        destruct (bag_is_Some (T := T) (npos 0 n) y ys). congruence. }
    cbn [map head app next_hash rbind]. rewrite Hend. f_equal.
    rewrite (bag_app _ _ _ top) in Hroot by done. by simplify_eq.
Qed.

Lemma bag_around sz (ls rs : list Hash) (top : Hash) :
  bag (T := T) sz (ls ++ match bag (T := T) sz rs with
                         | Some r => [pair_hash (top, r) sz] | None => [top] end)
    = Some (default ZERO_HASH (bag (T := T) sz (ls ++ top :: rs))).
Proof.
  destruct (bag (T := T) sz rs) as [r|] eqn:Er.
  - rewrite (bag_app sz ls (top :: rs) (pair_hash (top, r) sz)) by (simpl; by rewrite Er).
    by rewrite (bag_app sz ls _ (pair_hash (top, r) sz)).
  - rewrite (bag_app sz ls (top :: rs) top) by (simpl; by rewrite Er).
    by rewrite (bag_app sz ls _ top).
Qed.

Definition seg_first (id : SegmentIdentifier) : Z := npos 0 (2 ^ height id * idx id).
Definition seg_last (id : SegmentIdentifier) (n : Z) : Z :=
  if is_full id n then npos (height id) (idx id) else npos 0 n - 1.

Lemma family_branch_top sz : 0 < sz < 2 ^ 61 -> family_branch (sz - 1) sz = [].
Proof.
  intros Hsz. unfold family_branch. destruct (peak_map_height (sz - 1)) as [pm h].
  cbn [family_branch_loop]. rewrite add64_small by (unfold_words; lia).
  destruct (Z.ltb_spec (sz - 1 + 1) sz); [lia|done].
Qed.

Lemma serve_full p l id hh :
  let n := Z.of_nat (length l) in
  view p l -> seg_ok id n -> 1 <= height id -> is_full id n = true ->
  tree_hash l (Z.to_nat (height id)) (idx id) = Some hh ->
  exists proof, generate (T := T) p (npos 0 n) (add64 1 (seg_first id)) (add64 1 (seg_last id n)) None = Ok proof /\
    reconstruct_root (T := T) proof (npos 0 n) (seg_first id) (seg_last id n) hh (add64 1 (seg_last id n))
      = Ok (mmr_root l).
Proof.
  intros n Hview [[Hh Hh60] Hi Hin Hn] Hh1 Ef Ehh. unfold seg_last. rewrite Ef. pose proof Hview as (Es & Hl & _).
  unfold is_full in Ef. apply Z.leb_le in Ef. fold n in Es, Hl. unfold seg_first.
  set (H := height id) in *. set (i := idx id) in *. pose proof (pow2_pos H Hh).
  pose proof (npos0_ge n ltac:(lia)). assert (0 <= 2 ^ H * i) by nia.
  assert (Hlt : npos H i < npos 0 n) by (apply npos_lt_leaf; lia).
  destruct (npos_bounds H i Hh Hi) as (_ & _ & Hpos).
  assert (Hfl : npos 0 (2 ^ H * i) <= npos H i) by (apply npos_within; lia).
  pose proof (npos0_ge (2 ^ H * i) ltac:(lia)).
  assert (Ebr : family_branch (npos H i) (npos 0 n) = climb 64 (npos H i) (npos 0 n)).
  { unfold family_branch. rewrite peak_map_height_npos, shl64_1 by lia.
    apply family_branch_loop_climb; [lia|unfold last_leaf; nia| |lia].
    symmetry. apply Z.div_unique with (2 ^ H - 1); unfold last_leaf; lia. }
  destruct (climb_serve p l 64 (Z.to_nat H) i hh Hview)
    as (h' & q' & sibs & top & Hq' & Hhh & Hlo & Hpk & Elast & Hge & Etop & Ecol & Hclimb);
    rewrite ?Z2Nat.id, ?Es by lia; [lia..|done|].
  rewrite Z2Nat.id, Es in Elast, Ecol, Hclimb by lia. rewrite Z2Nat.id in Hlo, Hge by lia.
  rewrite Es in Hpk. apply peak_iff in Hpk; [|lia..].
  rewrite peaks_npos in Hpk by lia. apply elem_of_map in Hpk as (b & Eb & Hb).
  destruct (peak_bit_node n b ltac:(lia) Hb) as (Hb62 & Hqb & Hltb).
  unfold peak_pos in Eb, Hltb. apply npos_inj in Eb as [Eh Eq]; [|lia..]. subst b q'.
  set (b := Z.of_nat h') in *.
  destruct (peaks_split n b 60) as (L & R & Ebits & EL & ER & _ & _ & _); [lia|lia|done|].
  assert (Epk : match last (climb 64 (npos H i) (npos 0 n)) with Some (p0, _) => p0 | None => npos H i end
                = peak_pos n b).
  { unfold peak_pos. rewrite <- Elast. by destruct (last _) as [[? ?]|]. }
  assert (HL : forall c, c ∈ L -> c ∈ peak_bits 62 n /\ b < c).
  { intros c Hc. split; [rewrite Ebits, elem_of_app; by left|].
    pose proof (peak_bits_sorted 62 n) as Hsort. rewrite Ebits in Hsort.
    by apply (StronglySorted_app_1_elem_of _ L (b :: R) c b Hsort); [|left]. }
  apply (generate_reconstruct_at p l _ _ L top R (climb 64 (npos H i) (npos 0 n)) sibs hh Hview);
    fold n; rewrite ?Epk; auto; [lia| | | | |].
  - intros rest. apply Hclimb. rewrite add64_small by (unfold_words; lia). lia.
  - rewrite (filter_ext_in _ (fun x => x < peak_pos n b)); [done|].
    intros x Hx. split; [unfold peak_pos; lia|]. intros Hxp.
    assert (Hxin : x ∈ filter (fun x => x < peak_pos n b) (peaks (npos 0 n)))
      by (by apply list_elem_of_filter).
    rewrite EL in Hxin. apply elem_of_map in Hxin as (c & -> & Hc). destruct (HL c Hc) as [Hc62 Hbc].
    pose proof (left_peak_end n b c ltac:(lia) Hb Hc62 Hbc).
    assert (npos 0 (2 ^ b * (n / 2 ^ b - 1)) <= npos 0 (2 ^ H * i)); [|lia].
    destruct (Z.eq_dec (2 ^ b * (n / 2 ^ b - 1)) (2 ^ H * i)) as [->|]; [lia|].
    apply Z.lt_le_incl, npos0_mono. pose proof (pow2_pos b ltac:(lia)). nia.
  - intros c Hc. rewrite Ebits, elem_of_app, elem_of_cons. auto.
  - intros c Hc. destruct (HL c Hc). split; [done|]. lia.
  - assert (Emm : mmr_peaks l (peak_bits 62 n) = mmr_peaks l L ++ top :: mmr_peaks l R).
    { unfold mmr_peaks. rewrite Ebits, omap_app. cbn [omap list_omap].
      replace (Z.to_nat b) with h' by (unfold b; lia). fold n b. by rewrite Etop. }
    unfold mmr_root. fold n. rewrite Emm. by apply bag_around.
Qed.

Lemma serve_last p l id hh :
  let n := Z.of_nat (length l) in
  view p l -> seg_ok id n -> 1 <= height id -> is_full id n = false ->
  bag (T := T) (npos 0 n) (mmr_peaks l (peak_bits (Z.to_nat (height id)) (n - 2 ^ height id * idx id))) = Some hh ->
  exists proof, generate (T := T) p (npos 0 n) (add64 1 (seg_first id)) (add64 1 (seg_last id n)) None = Ok proof /\
    reconstruct_root (T := T) proof (npos 0 n) (seg_first id) (seg_last id n) hh (add64 1 (seg_last id n))
      = Ok (mmr_root l).
Proof.
  intros n Hview Hok Hh1 Ef Ehh. pose proof Hok as [[Hh Hh60] Hi Hin Hn].
  unfold seg_last. rewrite Ef. unfold seg_first. unfold is_full in Ef. apply Z.leb_gt in Ef.
  set (H := height id) in *. set (i := idx id) in *. set (m := n - 2 ^ H * i) in *.
  assert (En : n = 2 ^ H * i + m) by (unfold m; lia). pose proof (pow2_pos H Hh).
  assert (0 <= 2 ^ H * i) by nia.
  destruct (peaks_last H i m) as (hi & Ebits & Hhi & Hlo); [lia..|]. rewrite <- En in *.
  destruct (peak_bits_high (Z.to_nat H) (62 - Z.to_nat H) n) as (hi' & Ehi' & Hbits).
  replace (Z.to_nat H + (62 - Z.to_nat H))%nat with 62%nat in Ehi' by lia.
  assert (hi' = hi) as ->.
  { assert (El : peak_bits (Z.to_nat H) n = peak_bits (Z.to_nat H) m).
    { rewrite En. replace H with (Z.of_nat (Z.to_nat H)) at 2 by lia. by apply peak_bits_low. }
    rewrite El, Ebits in Ehi'. by apply app_inv_tail in Ehi'. }
  pose proof (npos0_ge n ltac:(lia)). pose proof (npos0_mono (2 ^ H * i) n ltac:(lia)).
  pose proof (npos0_ge (2 ^ H * i) ltac:(lia)).
  assert (Hpk : forall x, x ∈ peaks (npos 0 n) -> x < npos 0 n).
  { intros x Hx. rewrite peaks_npos in Hx by lia. apply elem_of_map in Hx as (b & -> & Hb).
    destruct (peak_bit_node n b ltac:(lia) Hb) as (_ & _ & ? & _). done. }
  apply (generate_reconstruct_at p l _ _ hi hh [] [] [] hh Hview); fold n; cbn [last map];
    auto; [lia|lia|apply family_branch_top; lia| | | | |].
  - apply filter_none, Forall_forall. intros x Hx%Hpk. lia.
  - rewrite peaks_npos, Ebits, map_app, filter_app by lia.
    rewrite filter_all, filter_none, app_nil_r; [done| |].
    + apply Forall_forall. intros x (b & -> & Hb)%elem_of_map.
      eapply Forall_forall in Hlo; [|exact Hb]. simpl in *. lia.
    + apply Forall_forall. intros x (b & -> & Hb)%elem_of_map.
      eapply Forall_forall in Hhi; [|exact Hb]. done.
  - intros b Hb. by apply elem_of_nil in Hb.
  - intros b Hb. split; [rewrite Ebits, elem_of_app; by left|].
    eapply Forall_forall in Hbits; [|exact Hb]. simpl in Hbits. lia.
  - assert (Emm : mmr_peaks l (peak_bits 62 n) = mmr_peaks l hi ++ mmr_peaks l (peak_bits (Z.to_nat H) m)).
    { unfold mmr_peaks at 1. by rewrite Ebits, omap_app. }
    unfold mmr_root. fold n. rewrite Emm, (bag_app _ _ _ hh) by done.
    cbn [mmr_peaks omap list_omap bag foldr]. by rewrite (bag_app _ _ _ hh) by done.
Qed.

Definition has_data p l : Prop :=
  forall j x, l !! j = Some x -> get_data_from_file (T := T) p (npos 0 (Z.of_nat j)) = Some (as_elmt x).

(** Everything [from_pmmr] reads in the segment is there. *)
Lemma range_readable p l id :
  let n := Z.of_nat (length l) in
  view p l -> has_data p l -> seg_ok id n ->
  Forall (fun pos => if is_leaf pos then is_Some (get_data_from_file (T := T) p pos)
                     else is_Some (get_from_file (T := T) p pos))
    (range_incl (seg_first id) (seg_last id n)).
Proof.
  intros n Hview Hdata Hok. pose proof Hview as (Es & Hl & _). fold n in Es, Hl.
  apply Forall_forall. intros x Hx%elem_of_seqZ. pose proof (npos0_ge n ltac:(lia)).
  destruct Hok as [[Hh Hh60] Hi Hin Hn]. pose proof (pow2_pos (height id) Hh).
  assert (0 <= 2 ^ height id * idx id) by nia. pose proof (npos0_ge (2 ^ height id * idx id) ltac:(lia)).
  assert (Hlast : seg_last id n < npos 0 n).
  { unfold seg_last, is_full. destruct (Z.leb_spec (2 ^ height id * (idx id + 1)) n); [|lia].
    apply npos_lt_leaf; lia. }
  unfold seg_first in Hx. destruct (npos_surj x ltac:(lia)) as (h & q & Hh' & Hq & ->).
  rewrite is_leaf_npos by lia. destruct (Z.eqb_spec h 0) as [->|Hne].
  - assert (q < n) by (apply npos0_lt_iff; lia).
    destruct (lookup_lt_is_Some_2 l (Z.to_nat q)) as [d Hd]; [lia|].
    apply Hdata in Hd. rewrite Z2Nat.id in Hd by lia. eauto.
  - destruct (view_node p l (Z.to_nat h) q Hview Hq) as (hs & _ & E2 & _);
      rewrite ?Z2Nat.id in * by lia; [lia|]. eauto.
Qed.

Lemma range_sorted a b : StronglySorted Z.lt (range_incl a b).
Proof. apply seqZ_sorted. Qed.

Lemma get_hash_lookup (s : Segment E Hash) pos hh :
  lookup_pos (zip (hash_pos s) (hashes s)) pos = Some hh -> get_hash s pos = Ok hh.
Proof. unfold get_hash, lookup_pos, expect_or. intros ->. done. Qed.

(** The segment that is cut carries the data of the range. *)
Lemma filled_honest p l id (prunable : bool) (s : Segment E Hash) ld hs proof :
  let n := Z.of_nat (length l) in
  let ps := range_incl (seg_first id) (seg_last id n) in
  view p l -> has_data p l -> seg_ok id n -> 1 <= height id ->
  identifier s = id ->
  leaf_pos s = filter (fun x => is_true (is_leaf x)) ps -> leaf_data s = ld ->
  Forall2 (fun x d => get_data_from_file (T := T) p x = Some d) (filter (fun x => is_true (is_leaf x)) ps) ld ->
  hash_pos s = (if prunable then filter (fun x => ~ is_true (is_leaf x)) ps else []) ->
  hashes s = (if prunable then hs else []) ->
  Forall2 (fun x h => get_from_file (T := T) p x = Some h) (filter (fun x => ~ is_true (is_leaf x)) ps) hs ->
  honest l id (mkSegment (identifier s) (hash_pos s) (hashes s) (leaf_pos s) (leaf_data s) proof) prunable.
Proof.
  intros n ps Hview Hdata Hok Hh1 Eid Elp Eld Hld Ehp Ehs Hhs. pose proof Hview as (Es & Hl & _).
  fold n in Es, Hl. pose proof (npos0_ge n ltac:(lia)).
  assert (Hin : forall h q, 0 <= q -> inside l id h q -> npos (Z.of_nat h) q ∈ ps /\
                  0 <= npos (Z.of_nat h) q < npos 0 n).
  { intros h q Hq Hi. destruct (inside_bounds l id Hok Hh1 h q Hq Hi) as [Hlt Hr].
    destruct (npos_bounds (Z.of_nat h) q) as (_ & _ & ?); [lia..|].
    split; [|fold n in Hlt; lia]. apply elem_of_seqZ. fold n in Hr. unfold seg_first, seg_last. lia. }
  assert (Hzip : (zip (leaf_pos s) (leaf_data s)).*1 = filter (fun x => is_true (is_leaf x)) ps).
  { rewrite Elp, Eld. apply fst_zip. rewrite (Forall2_length _ _ _ Hld). lia. }
  split; cbn [identifier]; [done| | | | |].
  - unfold leaf_iter. cbn [leaf_pos leaf_data]. rewrite Hzip. apply sorted_lt_filter, range_sorted.
  - intros j Hj. unfold in_segment in Hj. fold n in Hj.
    destruct Hok as [[Hh Hh60] Hi _ _]. pose proof (pow2_pos (height id) Hh). assert (0 <= j) by nia.
    assert (Hij : inside l id 0 j).
    { unfold inside. change (2 ^ Z.of_nat 0) with 1. fold n. lia. }
    destruct (Hin 0%nat j ltac:(lia) Hij) as [Hps Hb]. change (Z.of_nat 0) with 0 in Hps, Hb.
    unfold leaf_at, leaf_iter. cbn [leaf_pos leaf_data]. rewrite Elp, Eld.
    rewrite (lookup_pos_zip _ _ _ _ Hld).
    2:{ apply list_elem_of_filter. split; [|done]. unfold is_true. by rewrite is_leaf_npos by lia. }
    destruct (lookup_lt_is_Some_2 l (Z.to_nat j)) as [x Hx]; [lia|]. rewrite Hx.
    apply Hdata in Hx. by rewrite Z2Nat.id in Hx by lia.
  - intros h q hh -> Hq Hi Ehh. apply get_hash_lookup. cbn [hash_pos hashes]. rewrite Ehp, Ehs.
    destruct (Hin (S h) q Hq Hi) as [Hps Hb].
    destruct (view_node p l (S h) q Hview Hq ltac:(lia)) as (hh' & E1 & E2 & _).
    rewrite E1 in Ehh. simplify_eq. rewrite (lookup_pos_zip _ _ _ _ Hhs); [done|].
    apply list_elem_of_filter. split; [|done]. unfold is_true. rewrite is_leaf_npos by lia.
    destruct (Z.eqb_spec (Z.of_nat (S h)) 0); [lia|done].
  - exact Elp.
  - cbn [leaf_pos leaf_data]. rewrite Elp, Eld. by apply Forall2_length in Hld.
Qed.

(** The leaves of the segment, one by one. *)
Lemma leaves_of_range id n : seg_ok id n -> 1 <= height id ->
  filter (fun x => is_true (is_leaf x)) (range_incl (seg_first id) (seg_last id n)) =
    map (npos 0) (seqZ (2 ^ height id * idx id) (Z.min n (2 ^ height id * (idx id + 1)) - 2 ^ height id * idx id)).
Proof.
  intros [[Hh Hh60] Hi Hin Hn] Hh1. set (H := height id) in *. set (i := idx id) in *. pose proof (pow2_pos H Hh).
  apply (StronglySorted_unique_strong Z.lt); [intros x y _ _ ? ?; lia|apply sorted_lt_filter, range_sorted| |].
  { assert (Hs : forall a k, 0 <= a -> StronglySorted Z.lt (map (npos 0) (seqZ a (Z.of_nat k)))).
    { intros a k. revert a. induction k as [|k IH]; intros a Ha; [constructor|].
      rewrite Nat2Z.inj_succ, seqZ_cons, Z.pred_succ by lia. cbn [map]. constructor; [apply IH; lia|].
      apply Forall_forall. intros x (y & -> & Hy%elem_of_seqZ)%elem_of_map. apply npos0_mono. lia. }
    rewrite <- (Z2Nat.id (Z.min n _ - _)) by nia. apply Hs. nia. }
  apply NoDup_Permutation.
  { apply NoDup_filter, NoDup_seqZ. }
  { apply (NoDup_fmap_2_strong (npos 0)); [|apply NoDup_seqZ]. intros x y Hx%elem_of_seqZ Hy%elem_of_seqZ Exy.
    destruct (Z.lt_trichotomy x y) as [Hlt|[?|Hlt]]; [|done|];
      [pose proof (npos0_mono x y ltac:(nia))|pose proof (npos0_mono y x ltac:(nia))]; lia. }
  assert (Elast : forall j, 0 <= j -> npos 0 j <= seg_last id n <-> j < Z.min n (2 ^ H * (i + 1))).
  { intros j Hj. unfold seg_last, is_full. fold H i. destruct (Z.leb_spec (2 ^ H * (i + 1)) n).
    - pose proof (leaf_before H i j ltac:(lia) Hi Hj) as Hb. destruct (Z.eqb_spec H 0); [lia|]. unfold last_leaf in Hb.
      assert (npos 0 j <> npos H i).
      { intros E0. assert (npos H i < npos 0 n) by (apply npos_lt_leaf; lia). pose proof (npos0_ge n ltac:(lia)).
        destruct (npos_inj 0 j H i) as [? _]; lia. }
      lia.
    - pose proof (npos0_lt_iff j n ltac:(lia) ltac:(lia)). lia. }
  assert (Efirst : forall j, 0 <= j -> seg_first id <= npos 0 j <-> 2 ^ H * i <= j).
  { intros j Hj. unfold seg_first. fold H i. pose proof (npos0_lt_iff j (2 ^ H * i) ltac:(lia) ltac:(nia)). lia. }
  intros x. rewrite list_elem_of_filter, elem_of_map. unfold range_incl. split.
  - intros [Hlf Hx%elem_of_seqZ].
    assert (Ha : 0 <= 2 ^ H * i) by nia.
    assert (0 <= seg_first id) by (unfold seg_first; fold H i; pose proof (npos0_ge (2 ^ H * i) Ha); lia).
    destruct (npos_surj x ltac:(lia)) as (h & q & Hh' & Hq & ->).
    assert (Hb : npos h q < 2 ^ 61).
    { assert (seg_last id n < npos 0 n).
      { unfold seg_last, is_full. fold H i. destruct (Z.leb_spec (2 ^ H * (i + 1)) n); [apply npos_lt_leaf; lia|lia]. }
      pose proof (npos0_ge n ltac:(lia)). lia. }
    unfold is_true in Hlf. rewrite is_leaf_npos in Hlf by lia. apply Z.eqb_eq in Hlf as ->.
    exists q. split; [done|]. apply elem_of_seqZ. pose proof (Elast q Hq). pose proof (Efirst q Hq). lia.
  - intros (j & -> & Hj%elem_of_seqZ). assert (0 <= j) by nia. pose proof (Elast j ltac:(lia)). pose proof (Efirst j ltac:(lia)).
    split; [|apply elem_of_seqZ; lia]. pose proof (npos0_ge j ltac:(lia)). unfold is_true. by rewrite is_leaf_npos by lia.
Qed.

Lemma lookup_pos_sorted {A} (lp : list Z) (ld : list A) k x d :
  StronglySorted Z.lt (zip lp ld).*1 -> lp !! k = Some x -> ld !! k = Some d -> lookup_pos (zip lp ld) x = Some d.
Proof.
  unfold lookup_pos. revert ld k. induction lp as [|y lp IH]; intros [|e ld] [|k] Hs; try done; cbn [zip zip_with find fst].
  - intros [= ->] [= ->]. by rewrite Z.eqb_refl.
  - intros Hx Hd. change (lp !! k = Some x) in Hx. change (ld !! k = Some d) in Hd. cbn [zip zip_with fmap list_fmap fst] in Hs.
    apply StronglySorted_cons in Hs as [Hy Hs].
    assert (Hin : x ∈ (zip lp ld).*1).
    { apply list_elem_of_fmap. exists (x, d). split; [done|]. apply list_elem_of_lookup. exists k.
      by rewrite lookup_zip_with, Hx, Hd. }
    eapply Forall_forall in Hy; [|exact Hin]. destruct (Z.eqb_spec y x); [lia|]. by apply IH with k.
Qed.

Lemma honest_leaves l id s prunable : let n := Z.of_nat (length l) in
  seg_ok id n -> 1 <= height id -> honest l id s prunable ->
  let a := 2 ^ height id * idx id in let c := Z.min n (2 ^ height id * (idx id + 1)) - a in
  leaf_pos s = map (npos 0) (seqZ a c) /\ leaf_data s = as_elmt <$> take (Z.to_nat c) (drop (Z.to_nat a) l).
Proof.
  intros n Hok Hh1 Hon a c. pose proof Hok as [[Hh Hh60] Hi Hin Hn]. pose proof (pow2_pos (height id) Hh).
  pose proof (hon_pos _ _ _ _ Hon) as Ep. fold n in Ep. change (npos 0 (2 ^ height id * idx id)) with (seg_first id) in Ep.
  change (if is_full id n then _ else _) with (seg_last id n) in Ep. rewrite leaves_of_range in Ep by done. fold a c in Ep.
  split; [done|]. pose proof (hon_length _ _ _ _ Hon) as El. rewrite Ep, length_map, length_seqZ in El.
  assert (0 <= a /\ 0 < c) by (unfold c, a; nia).
  apply list_eq. intros k. destruct (decide (k < Z.to_nat c)%nat) as [Hk|Hk].
  2:{ rewrite (proj2 (lookup_ge_None (leaf_data s) k)) by lia. symmetry. apply lookup_ge_None. rewrite length_fmap, length_take. lia. }
  rewrite list_lookup_fmap, lookup_take_lt, lookup_drop by lia.
  destruct (lookup_lt_is_Some_2 (leaf_data s) k) as [d Hd]; [lia|]. rewrite Hd.
  assert (Hp : leaf_pos s !! k = Some (npos 0 (a + Z.of_nat k))).
  { rewrite Ep. change (map (npos 0)) with (fmap (M := list) (npos 0)). rewrite list_lookup_fmap, lookup_seqZ_lt by lia. done. }
  assert (Hj : in_segment id n (a + Z.of_nat k)) by (unfold in_segment; fold a; unfold c in Hk; lia).
  pose proof (hon_leaf _ _ _ _ Hon _ Hj) as Hlf. unfold leaf_at, leaf_iter in Hlf.
  rewrite (lookup_pos_sorted _ _ k _ d) in Hlf; [|apply (hon_sorted _ _ _ _ Hon)|done|done].
  rewrite Hlf. f_equal. f_equal. lia.
Qed.

Lemma served p l id (bitmap : option BM) :
  let n := Z.of_nat (length l) in
  view p l -> has_data p l -> seg_ok id n -> 1 <= height id ->
  exists s, from_pmmr id p (is_some bitmap) = Ok s /\ honest l id s (is_some bitmap) /\
    validate (T := T) elmt_hash s (size p) bitmap (mmr_root l) = Ok tt.
Proof.
  intros n Hview Hdata Hok Hh1. pose proof Hview as (Es & Hl & _). fold n in Es, Hl.
  destruct (segment_geometry id n Hok) as (Eun & Ef & Er). fold (seg_first id) (seg_last id n) in Er.
  unfold from_pmmr, unpruned_size. rewrite Es, Eun, Er. pose proof Hok as [[Hh Hh60] Hi Hin Hn].
  pose proof (pow2_pos (height id) Hh).
  destruct (Z.eqb_spec (Z.min (2 ^ height id) (n - 2 ^ height id * idx id)) 0); [lia|].
  pose proof (fill_all p (is_some bitmap) _ (empty id) (range_readable p l id Hview Hdata Hok)) as Hfill.
  fold n in Hfill. destruct Hfill as (s & ld & hs & -> & Eid & Elp & Eld & Hld & Ehp & Ehs & Hhs). cbn [rbind].
  cbn [empty identifier leaf_pos leaf_data hash_pos hashes app] in *.
  assert (Hhon : forall proof, honest l id
    (mkSegment (identifier s) (hash_pos s) (hashes s) (leaf_pos s) (leaf_data s) proof) (is_some bitmap)).
  { intros proof. eapply filled_honest; eauto. }
  assert (Hne : leaf_data s <> []).
  { assert (Hj : in_segment id n (2 ^ height id * idx id)) by (unfold in_segment; lia).
    pose proof (hon_leaf _ _ _ _ (Hhon empty_proof_) _ Hj) as Hlf. intros Hnil.
    unfold leaf_at, leaf_iter in Hlf. cbn [leaf_pos leaf_data] in Hlf.
    destruct (lookup_lt_is_Some_2 l (Z.to_nat (2 ^ height id * idx id))) as [x Hx]; [nia|].
    rewrite Hx, Hnil in Hlf. by destruct (leaf_pos s). }
  assert (Estart : (match leaf_data s, hashes s return Segment E Hash * option Z with
      | [], [] => match first_stored (T := T) p (family_branch (seg_last id n) (npos 0 n)) with
                  | Some (pos0, h) => (push_hash s pos0 h, Some (add64 1 pos0))
                  | None => (s, None) end
      | _, _ => (s, None) end) = (s, None)) by (by destruct (leaf_data s)).
  rewrite Estart.
  destruct (first_unpruned_honest l id Hok Hh1 _ bitmap (Hhon empty_proof_)) as (hh & Ehh & _).
  assert (Hproof : exists proof,
    generate (T := T) p (npos 0 n) (add64 1 (seg_first id)) (add64 1 (seg_last id n)) None = Ok proof /\
    reconstruct_root (T := T) proof (npos 0 n) (seg_first id) (seg_last id n) hh (add64 1 (seg_last id n))
      = Ok (mmr_root l)).
  { unfold seg_hash in Ehh. fold n in Ehh. destruct (is_full id n) eqn:Efull;
      [by apply serve_full|by apply serve_last]. }
  destruct Hproof as (proof & -> & Hrec). cbn [rbind]. eexists. split; [done|]. split; [apply Hhon|].
  destruct (first_unpruned_honest l id Hok Hh1 _ bitmap (Hhon proof)) as (hh' & Ehh' & Efp).
  rewrite Ehh in Ehh'. injection Ehh' as <-. unfold validate. fold n in Efp. fold (seg_last id n) in Efp.
  cbn [identifier seg_proof] in *. rewrite Eid, Er in *. rewrite Efp. cbn [rbind]. unfold proof_validate.
  rewrite Hrec. cbn [rbind]. unfold check_root. by rewrite decide_True.
Qed.

(** C16. A segment that a node serves is accepted: of a range whose hashes and
    leaves are stored, [from_pmmr] makes every segment that has a leaf, it
    carries the leaves of the range, and it validates against the root of the
    range, without a bitmap when it is made of leaves only and under every
    bitmap when it carries the inner hashes. *)
Theorem segment_served p l id (bitmap : option BM) :
  let n := Z.of_nat (length l) in
  view p l -> has_data p l -> seg_ok id n -> 1 <= height id ->
  exists s, from_pmmr id p (is_some bitmap) = Ok s /\
    (forall j, in_segment id n j -> leaf_at s (npos 0 j) = as_elmt <$> l !! Z.to_nat j) /\
    root p = Ok (mmr_root l) /\
    validate (T := T) elmt_hash s (size p) bitmap (mmr_root l) = Ok tt.
Proof.
  intros n Hview Hdata Hok Hh1. destruct (served p l id bitmap Hview Hdata Hok Hh1) as (s & E1 & H1 & H2).
  exists s. split; [done|]. split; [apply (hon_leaf _ _ _ _ H1)|]. split; [by apply root_view|done].
Qed.

(** C15. Whatever peer a segment comes from, a segment that validates against
    the root of a range carries the leaves of the range wherever the bitmap
    asks for them. *)
Theorem segment_authentic p l (s : Segment E Hash) (bitmap : option BM) :
  (forall (a b : Hash * Hash) i, pair_hash (T := T) a i = pair_hash b i -> a = b) ->
  let n := Z.of_nat (length l) in
  view p l -> has_data p l -> seg_ok (identifier s) n -> 1 <= height (identifier s) ->
  StronglySorted Z.lt (leaf_iter s).*1 ->
  validate (T := T) elmt_hash s (size p) bitmap (mmr_root l) = Ok tt ->
  forall j, in_segment (identifier s) n j -> leaf_required bitmap (size p) (npos 0 j) = true ->
  exists x y, leaf_at s (npos 0 j) = Some x /\ l !! Z.to_nat j = Some y /\
    elmt_hash x (npos 0 j) = leaf_hash y (npos 0 j).
Proof.
  intros Hinj n Hview Hdata Hok Hh1 Hs V j Hj Hreq. pose proof Hview as (Es & Hl & _). fold n in Es, Hl.
  destruct (served p l _ bitmap Hview Hdata Hok Hh1) as (s' & _ & H1 & V').
  rewrite Es in *.
  destruct (segment_binds elmt_hash s s' n bitmap (mmr_root l) Hinj) with (j := j)
    as (x1 & x2 & L1 & L2 & Eh); auto; [by rewrite (hon_id _ _ _ _ H1)|apply (hon_sorted _ _ _ _ H1)|].
  rewrite (hon_leaf _ _ _ _ H1 j Hj) in L2. destruct (l !! Z.to_nat j) as [y|]; [|done].
  exists x1, y. simplify_eq/=. rewrite hash_as in Eh. auto.
Qed.

End serve.

(** ** Samples *)

#[local] Instance vec_Z_backend : Backend Z Z term (Vec.VecBackend Z term) := vec_backend (fun x => x).
#[local] Instance vec_Z_back_laws : BackendLaws Z Z term (Vec.VecBackend Z term) := vec_laws (fun x => x).

Definition sample_leaves : list Z := [10; 11; 20; 21].

Lemma sample_view : view sample sample_leaves.
Proof. apply sample_rep. Qed.

Lemma sample_data : has_data (fun x : Z => x) sample sample_leaves.
Proof. intros [|[|[|[|j]]]] x Hx; simpl in Hx; simplify_eq; vm_compute; reflexivity. Qed.

Lemma sample_segment_ok : seg_ok (mkId 1 1) 4.
Proof. split; simpl; lia. Qed.

Definition sample_served : Segment Z term :=
  match from_pmmr (mkId 1 1) sample true with Ok s => s | Err _ => empty (mkId 1 1) end.

Lemma segment_served_witness :
  exists s, from_pmmr (mkId 1 1) sample true = Ok s /\
    leaf_at s (npos 0 3) = Some 21 /\
    validate (T := Z) (fun x i => leaf_hash x i) s (size sample) (Some ({[0]} : gset Z))
      (mmr_root sample_leaves) = Ok tt.
Proof.
  destruct (segment_served (fun x : Z => x) (fun x i => leaf_hash x i) (fun _ _ => eq_refl) sample
    sample_leaves (mkId 1 1) (Some ({[0]} : gset Z)) sample_view sample_data sample_segment_ok ltac:(simpl; lia))
    as (s & E1 & E2 & _ & E3).
  exists s. split; [exact E1|]. split; [|exact E3]. apply E2. unfold in_segment. simpl. lia.
Defined.

Lemma segment_authentic_witness :
  exists x y, leaf_at sample_served (npos 0 2) = Some x /\ sample_leaves !! 2%nat = Some y /\
    leaf_hash x (npos 0 2) = (leaf_hash y (npos 0 2) : term).
Proof.
  eapply (segment_authentic (fun x : Z => x) (fun x i => leaf_hash x i) (fun _ _ => eq_refl) sample
    sample_leaves sample_served (Some ({[2]} : gset Z))).
  - intros [a b] [c d] i Heq. simpl in Heq. by simplify_eq.
  - exact sample_view.
  - exact sample_data.
  - exact sample_segment_ok.
  - vm_compute. discriminate.
  - vm_compute. repeat constructor.
  - vm_compute. reflexivity.
  - unfold in_segment. vm_compute. split; [discriminate|reflexivity].
  - vm_compute. reflexivity.
Defined.
