(* ===== verification/ChainTypes.v ===== *)
(** Errors, tips and effects of the chain.

    Models [Error] of [src/chain/src/error.rs], [Tip], [Options] and the roots
    of [src/chain/src/types.rs]. The chain code mutates the state it is given and
    returns early on errors, and its callers clean up after an error, so an
    operation is a function from the state to an outcome and the state it leaves
    behind, whether it succeeds or fails; [None] is a panic. The [Mmr] class
    gathers what the chain uses of the backend of an MMR. *)

From Stdlib Require Import ZArith Lia.
From stdpp Require Import base numbers option sorting gmap list.
From S2P Require Import Prelude Segments Consensus PmmrIndex Pmmr Ser LinkedList Kernel CutThrough Transaction PowTypes Block.
Open Scope Z_scope.

(** ** Keys of the database *)

#[export] Instance hash_countable : Countable Ser.Hash.
Proof. apply (inj_countable' hash_bytes mkHash). by intros []. Defined.

#[export] Instance commitment_countable : Countable Commitment.
Proof. apply (inj_countable' commitment_bytes mkCommitment). by intros []. Defined.

(** ** Errors *)

Module CE.
Inductive Error : Type :=
| Unfit
| Orphan
| DifficultyTooLow
| WrongTotalDifficulty
| LowEdgebits
| InvalidScaling
| InvalidPow
| OldBlock
| InvalidBlockProof (source : block_error)
| InvalidBlockTime
| InvalidBlockHeight
| InvalidRoot
| InvalidMMRSize
| AlreadySpent (c : Commitment)
| DuplicateCommitment (c : Commitment)
| ImmatureCoinbase
| MerkleProof
| OutputNotFound
| RangeproofNotFound
| TxKernelNotFound
| InvalidBlockVersion (version : Z)
| InvalidTxHashSet (e : pmmr_error)
| StoreErr
| TxHashSetErr (e : pmmr_error)
| NRDRelativeHeight
| Transaction (source : Kernel.Error)
| Block (source : block_error)
| InvalidHeaderHeight (height : Z)
| Other
| Committed (source : Kernel.Error)
| Index (e : index_error)
| Stopped
| SegmentErr (source : Segments.SegmentError)
| SegmenterHeaderMismatch
| InvalidSegmentHeight
| InvalidSegment
| SyncError.
End CE.

(** ** Effects *)

Definition M (S A : Type) : Type := S -> option (result CE.Error A * S).

Definition ret {S A} (a : A) : M S A := fun s => Some (Ok a, s).
Definition throw {S A} (e : CE.Error) : M S A := fun s => Some (Err e, s).
Definition lift {S A} (r : result CE.Error A) : M S A := fun s => Some (r, s).
Definition must {S A} (o : option A) : M S A := fun s =>
  match o with Some a => Some (Ok a, s) | None => None end.

Definition bind {S A B} (m : M S A) (k : A -> M S B) : M S B := fun s =>
  match m s with
  | None => None
  | Some (Err e, s) => Some (Err e, s)
  | Some (Ok a, s) => k a s
  end.

Notation "'let*' p := c1 'in' c2" :=
  (bind c1 (fun p => c2))
  (at level 10, p pattern, c1 at level 200, c2 at level 200) : grin_scope.
Notation "c1 ;* c2" := (bind c1 (fun _ => c2)) (at level 199, right associativity) : grin_scope.

(** Reading the state, with and without an error, and changing it. *)
Definition asks {S A} (f : S -> A) : M S A := fun s => Some (Ok (f s), s).
Definition gets {S A} (f : S -> result CE.Error A) : M S A := fun s => Some (f s, s).
Definition modify {S} (f : S -> S) : M S unit := fun s => Some (Ok tt, f s).

(** The outcome as a value, for a caller that looks at it. *)
Definition try {S A} (m : M S A) : M S (result CE.Error A) := fun s =>
  match m s with None => None | Some (r, s) => Some (Ok r, s) end.

(** An operation on a part of the state. *)
Definition focus {S T A} (get : S -> T) (set : T -> S -> S) (m : M T A) : M S A := fun s =>
  match m (get s) with None => None | Some (r, t) => Some (r, set t s) end.

(** [if c { return Err(e) }] *)
Definition guard {S} (b : bool) (e : CE.Error) : M S unit := if b then ret tt else throw e.

(** [for x in l { f(x)? }] *)
Fixpoint each {S A} (f : A -> M S unit) (l : list A) : M S unit :=
  match l with [] => ret tt | x :: l => f x ;* each f l end.

(** [l.iter().map(f).collect::<Result<Vec<_>, _>>()?] *)
Fixpoint collect {S A B} (f : A -> M S B) (l : list A) : M S (list B) :=
  match l with
  | [] => ret []
  | x :: l => let* y := f x in let* ys := collect f l in ret (y :: ys)
  end.

(** ** Reasoning about effects *)

Section effects.
Context {S : Type}.
Implicit Types (s : S).

Lemma bind_Ok {A B} (m : M S A) (k : A -> M S B) s b s2 :
  bind m k s = Some (Ok b, s2) <-> exists a s1, m s = Some (Ok a, s1) /\ k a s1 = Some (Ok b, s2).
Proof.
  unfold bind. destruct (m s) as [[[a|e] s1]|]; split; try done.
  - intros H. by exists a, s1.
  - intros (a' & s1' & E & H). injection E as <- <-. done.
  - by intros (a' & s1' & E & H).
  - by intros (a' & s1' & E & H).
Qed.

Lemma bind_assoc {A B C} (m : M S A) (k : A -> M S B) (k' : B -> M S C) s :
  bind (bind m k) k' s = bind m (fun a => bind (k a) k') s.
Proof. unfold bind. by destruct (m s) as [[[a|e] s1]|]. Qed.

(** A property of the state that an operation keeps, whatever its outcome. *)
Definition keeps {A} (P : S -> Prop) (m : M S A) : Prop :=
  forall s r s', P s -> m s = Some (r, s') -> P s'.

Section keeping.
Context (P : S -> Prop).

Lemma keeps_ret {A} (a : A) : keeps P (ret a).
Proof. intros s r s' H E. by injection E as <- <-. Qed.
Lemma keeps_throw {A} e : keeps P (throw (A := A) e).
Proof. intros s r s' H E. by injection E as <- <-. Qed.
Lemma keeps_lift {A} (x : result CE.Error A) : keeps P (lift x).
Proof. intros s r s' H E. by injection E as <- <-. Qed.
Lemma keeps_must {A} (o : option A) : keeps P (must o).
Proof. intros s r s' H E. destruct o; [|done]. by injection E as <- <-. Qed.
Lemma keeps_asks {A} (f : S -> A) : keeps P (asks f).
Proof. intros s r s' H E. by injection E as <- <-. Qed.
Lemma keeps_gets {A} (f : S -> result CE.Error A) : keeps P (gets f).
Proof. intros s r s' H E. by injection E as <- <-. Qed.
Lemma keeps_modify (f : S -> S) : (forall s, P s -> P (f s)) -> keeps P (modify f).
Proof. intros Hf s r s' H E. injection E as <- <-. auto. Qed.
Lemma keeps_bind {A B} (m : M S A) (k : A -> M S B) :
  keeps P m -> (forall a, keeps P (k a)) -> keeps P (bind m k).
Proof.
  intros Hm Hk s r s' H. unfold bind. destruct (m s) as [[[a|e] s1]|] eqn:E; [|intros E'; injection E' as <- <-|done].
  - apply Hk. by eapply Hm.
  - by eapply Hm.
Qed.
Lemma keeps_try {A} (m : M S A) : keeps P m -> keeps P (try m).
Proof.
  intros Hm s r s' H. unfold try. destruct (m s) as [[r1 s1]|] eqn:E; [|done]. intros E'. injection E' as <- <-.
  by eapply Hm.
Qed.
Lemma keeps_guard b e : keeps P (guard b e).
Proof. destruct b; [apply keeps_ret|apply keeps_throw]. Qed.
Lemma keeps_each {A} (f : A -> M S unit) l : (forall x, keeps P (f x)) -> keeps P (each f l).
Proof. intros Hf. induction l as [|x l IH]; [apply keeps_ret|]. by apply keeps_bind. Qed.
Lemma keeps_collect {A B} (f : A -> M S B) l : (forall x, keeps P (f x)) -> keeps P (collect f l).
Proof.
  intros Hf. induction l as [|x l IH]; [apply keeps_ret|]. apply keeps_bind; [done|]. intros y.
  apply keeps_bind; [done|]. intros ys. apply keeps_ret.
Qed.
End keeping.
End effects.

Lemma keeps_focus {S T A} (P : S -> Prop) (get : S -> T) (set : T -> S -> S) (m : M T A) :
  (forall s, P s -> keeps (fun t => P (set t s)) m /\ P (set (get s) s)) -> keeps P (focus get set m).
Proof.
  intros Hm s r s' H. unfold focus. destruct (m (get s)) as [[r1 t]|] eqn:E; [|done]. intros E'.
  injection E' as <- <-. destruct (Hm s H) as [Hk Hs]. by eapply Hk.
Qed.

#[export] Hint Resolve keeps_ret keeps_throw keeps_lift keeps_must keeps_asks keeps_gets keeps_bind keeps_try
  keeps_guard keeps_each keeps_collect : grin.

(** ** The backends of the MMRs *)

(** What the chain needs of the persistent backend of an MMR, besides what
    [PMMR] uses. *)
Class Mmr (T E : Type) := {
  mmr : Type;
  mmr_backend : Backend T E Ser.Hash mmr;
  mmr_sync : mmr -> result pmmr_error mmr;
  mmr_discard : mmr -> option mmr;
  mmr_unpruned_size : mmr -> option Z;
  mmr_remove_from_leaf_set : mmr -> Z -> mmr;
  mmr_reset_prune_list : mmr -> result pmmr_error mmr;
  mmr_check_compact : mmr -> Z -> gset Z -> result pmmr_error (bool * mmr);
}.
Arguments mmr T E {_}.
#[export] Existing Instance mmr_backend.

(** *** Backends that can undo *)

(** What can happen to a backend between two syncs. *)
Inductive unsynced {T E} {M : Mmr T E} (b0 : mmr T E) : mmr T E -> Prop :=
| unsynced_none : unsynced b0 b0
| unsynced_append b b' x hs : unsynced b0 b -> append b x hs = Ok b' -> unsynced b0 b'
| unsynced_rewind b b' pos rm : unsynced b0 b -> backend_rewind b pos rm = Ok b' -> unsynced b0 b'
| unsynced_remove b b' pos : unsynced b0 b -> backend_remove b pos = Ok b' -> unsynced b0 b'
| unsynced_subtree b b' h pos : unsynced b0 b -> append_pruned_subtree b h pos = Some (Ok b') -> unsynced b0 b'
| unsynced_hash b b' h : unsynced b0 b -> append_hash b h = Some (Ok b') -> unsynced b0 b'
| unsynced_leaf b pos : unsynced b0 b -> unsynced b0 (mmr_remove_from_leaf_set b pos).

(** [mmr_clean]: synced, and with something in it. *)
Class MmrLaws {T E} (M : Mmr T E) := {
  mmr_clean : mmr T E -> Prop;
  discard_law b0 b : mmr_clean b0 -> unsynced b0 b -> mmr_discard b = Some b0;
}.

(** [hash_with_index] *)
#[export] Instance pmmr_hash {T} `{Crypto} `{Writeable T} : PMMRHash T Ser.Hash := {|
  Pmmr.hash_eq_dec := Ser.hash_eq_dec;
  leaf_hash := fun x index =>
    match write (mkWriter SerHash local) x with
    | Ok bs => blake2b (be 8 index ++ bs)
    | Err _ => blake2b []
    end;
  pair_hash := fun '(l, r) index => blake2b (be 8 index ++ hash_bytes l ++ hash_bytes r);
  Pmmr.ZERO_HASH := Block.ZERO_HASH;
|}.

(** The hash of a header in the header MMR; a proof that cannot be packed is
    caught when the header is hashed. *)
#[export] Instance header_pmmr_hash `{Crypto} (ct : ChainTypes) : PMMRHash BlockHeader Ser.Hash := {|
  Pmmr.hash_eq_dec := Ser.hash_eq_dec;
  leaf_hash := fun h index =>
    match write_header ct (mkWriter SerHash local) h with
    | Some (Ok bs) => blake2b (be 8 index ++ bs)
    | _ => blake2b []
    end;
  pair_hash := fun '(l, r) index => blake2b (be 8 index ++ hash_bytes l ++ hash_bytes r);
  Pmmr.ZERO_HASH := Block.ZERO_HASH;
|}.

(** ** Tips and options *)

Record Tip : Type := mkTip {
  tip_height : Z;
  last_block_h : Ser.Hash;
  prev_block_h : Ser.Hash;
  tip_difficulty : Difficulty;
}.

Definition default_tip : Tip := mkTip 0 Block.ZERO_HASH Block.ZERO_HASH Diff.min_dma.

#[export] Instance tip_writeable : Writeable Tip := fun w t =>
  write_u64 w (tip_height t) +w+ write_fixed_bytes w (hash_bytes (last_block_h t)) +w+
  write_fixed_bytes w (hash_bytes (prev_block_h t)) +w+ write w (tip_difficulty t).

#[export] Instance tip_readable : Readable Tip := fun R _ r =>
  let? (height, r) := read_u64 r in
  let? (last, r) := read r in
  let? (prev, r) := read r in
  let? (diff, r) := read r in
  Ok (mkTip height last prev diff, r).

Section tips.
Context {CR : Crypto}.

(** [Tip::from_header] *)
Definition tip_from_header (ct : ChainTypes) (h : BlockHeader) : option Tip :=
  let! hash := header_hash ct h in
  Some (mkTip (height h) hash (prev_hash h) (total_difficulty (pow h))).

(** [bitflags] *)
Definition SKIP_POW : Z := 1.
Definition SYNC : Z := 2.
Definition MINE : Z := 4.
Definition contains_option (opts flag : Z) : bool := Z.land opts flag =? flag.

(** *** Roots *)

Record OutputRoots : Type := mkOutputRoots { pmmr_root : Ser.Hash; bitmap_root : Ser.Hash }.
Record TxHashSetRoots : Type := mkRoots { output_roots : OutputRoots; rproof_root : Ser.Hash; kernel_root_ : Ser.Hash }.

Definition merged_root (r : OutputRoots) (h : BlockHeader) : Ser.Hash :=
  blake2b (be 8 (output_mmr_size h) ++ hash_bytes (pmmr_root r) ++ hash_bytes (bitmap_root r)).

Definition output_roots_root (r : OutputRoots) (h : BlockHeader) : Ser.Hash :=
  if version h <? 3 then pmmr_root r else merged_root r h.

Definition roots_validate (r : TxHashSetRoots) (h : BlockHeader) : result CE.Error unit :=
  if decide (output_root h = output_roots_root (output_roots r) h) then
    if decide (range_proof_root h = rproof_root r) then
      if decide (kernel_root h = kernel_root_ r) then Ok tt else Err CE.InvalidRoot
    else Err CE.InvalidRoot
  else Err CE.InvalidRoot.

End tips.
