(* ===== verification/Pool.v ===== *)
(** The transaction pool: entries, pools and buckets.

    Models [src/pool/src/pool.rs] and [src/pool/src/types.rs]: a pool keeps its
    entries in the order of insertion and only takes an entry if it is valid
    together with all others, on top of the state of the chain. Blocks are built
    from buckets of transactions that depend on each other.

    The chain is an interface, [BlockChain]. [None] is a panic: the fee rate of a
    transaction of weight zero, and the hash of a header whose proof cannot be
    packed. *)

From Stdlib Require Import ZArith Lia.
From stdpp Require Import base numbers option sorting gmap list.
From S2P Require Import Prelude Ser Consensus Kernel CutThrough Transaction PowTypes Block ChainTypes.
Open Scope Z_scope.

(** ** Configuration *)

Definition DANDELION_EPOCH_SECS : Z := 600.
Definition DANDELION_EMBARGO_SECS : Z := 180.
Definition DANDELION_AGGREGATION_SECS : Z := 30.
Definition DANDELION_STEM_PROBABILITY : Z := 90.
Definition DANDELION_ALWAYS_STEM_OUR_TXS : bool := true.

Record DandelionConfig : Type := mkDandelion {
  epoch_secs : Z;
  embargo_secs : Z;
  aggregation_secs : Z;
  stem_probability : Z;
  always_stem_our_txs : bool;
}.

Definition default_dandelion : DandelionConfig :=
  mkDandelion DANDELION_EPOCH_SECS DANDELION_EMBARGO_SECS DANDELION_AGGREGATION_SECS
    DANDELION_STEM_PROBABILITY DANDELION_ALWAYS_STEM_OUR_TXS.

Record PoolConfig : Type := mkPoolConfig {
  accept_fee_base : Z;
  reorg_cache_period : Z;
  max_pool_size : Z;
  max_stempool_size : Z;
  mineable_max_weight : Z;
}.

Definition default_pool_config : PoolConfig :=
  mkPoolConfig DEFAULT_ACCEPT_FEE_BASE 30 50000 50000 MAX_BLOCK_WEIGHT.

(** ** Entries and errors *)

Inductive TxSource : Type := PushApi | Broadcast | Fluff | EmbargoExpired | Deaggregate.

Definition is_pushed (s : TxSource) : bool := match s with PushApi => true | _ => false end.

(** [pe_at] is the clock, in nanoseconds. *)
Record PoolEntry : Type := mkEntry { pe_src : TxSource; pe_at : Z; pe_tx : Transaction }.

Inductive PoolError : Type :=
| InvalidTx (e : Error)
| InvalidBlock (e : block_error)
| Keychain
| PoolCommitted (e : Error)
| ImmatureTransaction
| ImmatureCoinbase
| DandelionError
| OverCapacity
| LowFeeTransaction (fee : Z)
| DuplicateCommitment
| DuplicateTx
| NRDKernelPreHF3
| NRDKernelNotEnabled
| NRDKernelRelativeHeight
| PoolOther.

(** [From<transaction::Error> for PoolError] *)
Definition pool_error (e : Error) : PoolError :=
  match e with
  | InvalidNRDRelativeHeight => NRDKernelRelativeHeight
  | e => InvalidTx e
  end.

(** The result of an operation that can panic. *)
Abbreviation PR A := (option (result PoolError A)).

Definition pbind {A B} (m : PR A) (k : A -> PR B) : PR B :=
  match m with
  | None => None
  | Some (Err e) => Some (Err e)
  | Some (Ok a) => k a
  end.
Notation "'let+' p := c1 'in' c2" :=
  (pbind c1 (fun p => c2))
  (at level 10, p pattern, c1 at level 200, c2 at level 200) : grin_scope.
Notation "c1 ;+ c2" := (pbind c1 (fun _ => c2)) (at level 199, right associativity) : grin_scope.

(** What the pool asks the chain. *)
Class BlockChain : Type := {
  bc_verify_coinbase_maturity : Inputs -> PR unit;
  bc_verify_tx_lock_height : Transaction -> PR unit;
  bc_validate_tx : Transaction -> PR unit;
  bc_validate_inputs : Inputs -> PR (list OutputIdentifier);
  bc_chain_head : PR BlockHeader;
  bc_get_block_header : Hash -> PR BlockHeader;
  bc_get_block_sums : Hash -> PR BlockSums;
}.

(** ** Pools *)

Record Pool : Type := mkPool { entries : list PoolEntry }.

Section pool.
Context {CR : Crypto} {SU : SortUnstable} {NF : NrdFlag} {SH : SipHasher} (ct : ChainTypes).

(** Equality of what is compared by its hash. *)
Definition keys_eqb {A} (key : A -> Z) (l l' : list A) : bool := bool_decide (map key l = map key l').

Definition inputs_eqb (i j : Inputs) : bool :=
  match i, j with
  | CommitOnly l, CommitOnly l' => keys_eqb hash_key l l'
  | FeaturesAndCommit l, FeaturesAndCommit l' => keys_eqb hash_key l l'
  | _, _ => false
  end.

Definition body_eqb (a b : TransactionBody) : bool :=
  inputs_eqb (inputs a) (inputs b) && keys_eqb output_key (outputs a) (outputs b) &&
  keys_eqb hash_key (kernels a) (kernels b).

(** [PartialEq for Transaction] *)
Definition tx_eqb (a b : Transaction) : bool :=
  body_eqb (Transaction.body a) (Transaction.body b) && bool_decide (offset a = offset b).

Definition pool_size (p : Pool) : Z := Z.of_nat (length (entries p)).

Definition contains_tx (p : Pool) (tx : Transaction) : bool :=
  existsb (fun x => keys_eqb hash_key (kernels (Transaction.body (pe_tx x))) (kernels (Transaction.body tx))) (entries p).

Definition kernel_count (p : Pool) : Z :=
  sumZ (map (fun x => Z.of_nat (length (kernels (Transaction.body (pe_tx x))))) (entries p)).

Definition all_transactions (p : Pool) : list Transaction := map pe_tx (entries p).

Definition retrieve_tx_by_kernel_hash (p : Pool) (h : Hash) : option Transaction :=
  find (fun tx => existsb (fun k => bool_decide (hash k = h)) (kernels (Transaction.body tx))) (all_transactions p).

(** The loop over the kernels of one entry of [retrieve_transactions]; the flag
    tells that everything was found. *)
Fixpoint retrieve_kernels (block_hash : Hash) (nonce : Z) (kern_ids : list ShortId) (tx : Transaction)
    (ks : list TxKernel) (txs : list Transaction) (found_ids : list ShortId)
    : list Transaction * list ShortId * bool :=
  match ks with
  | [] => (txs, found_ids, false)
  | k :: ks =>
      let id := short_id (hash k) block_hash nonce in
      let '(txs, found_ids) :=
        if contains hash_key kern_ids id then (txs ++ [tx], found_ids ++ [id]) else (txs, found_ids) in
      if (length found_ids =? length kern_ids)%nat then (txs, found_ids, true)
      else retrieve_kernels block_hash nonce kern_ids tx ks txs found_ids
  end.

Fixpoint retrieve_loop (block_hash : Hash) (nonce : Z) (kern_ids : list ShortId) (l : list Transaction)
    (txs : list Transaction) (found_ids : list ShortId) : list Transaction * list ShortId :=
  match l with
  | [] => (txs, found_ids)
  | tx :: l =>
      let '(txs, found_ids, stop) :=
        retrieve_kernels block_hash nonce kern_ids tx (kernels (Transaction.body tx)) txs found_ids in
      if stop then (txs, found_ids) else retrieve_loop block_hash nonce kern_ids l txs found_ids
  end.

(** [dedup] keeps the first of a run. *)
Fixpoint dedup_by {A} (eqb : A -> A -> bool) (l : list A) : list A :=
  match l with
  | [] => []
  | x :: l => x :: match dedup_by eqb l with y :: l' => if eqb x y then l' else y :: l' | [] => [] end
  end.

Definition retrieve_transactions (p : Pool) (block_hash : Hash) (nonce : Z) (kern_ids : list ShortId)
    : list Transaction * list ShortId :=
  let '(txs, found_ids) := retrieve_loop block_hash nonce kern_ids (all_transactions p) [] [] in
  (dedup_by tx_eqb txs, filter (fun id => contains hash_key found_ids id = false) kern_ids).

Definition all_transactions_aggregate (p : Pool) (extra_tx : option Transaction)
    : result PoolError (option Transaction) :=
  match all_transactions p with
  | [] => Ok extra_tx
  | txs =>
      let? tx := map_err pool_error (aggregate (txs ++ option_list extra_tx)) in
      map_err pool_error (tx_validate ct tx NoLimit) ;?
      Ok (Some tx)
  end.

(** *** Against the chain *)

Context {BC : BlockChain}.

(** [BlindingFactor::add] *)
Definition blinding_add (a b : BlindingFactor) : result PoolError BlindingFactor :=
  match to_secrets [a; b] with
  | [] => Ok blinding_zero
  | keys => ok_or (blind_sum keys []) Keychain
  end.

Definition apply_tx_to_block_sums (tx : Transaction) (h : BlockHeader) : PR BlockSums :=
  let overage := body_overage (Transaction.body tx) in
  let+ offset := Some (blinding_add (total_kernel_offset h) (offset tx)) in
  let! block_hash := header_hash ct h in
  let+ block_sums := bc_get_block_sums block_hash in
  let b := Transaction.body tx in
  let+ (utxo_sum, kernel_sum) := Some (map_err PoolCommitted
    (verify_kernel_sums (inputs_committed b) (utxo_sum block_sums :: outputs_committed b)
       (kernel_sum block_sums :: kernels_committed b) overage offset)) in
  Some (Ok (mkSums utxo_sum kernel_sum)).

Definition validate_raw_tx (tx : Transaction) (h : BlockHeader) (weighting : Weighting) : PR BlockSums :=
  Some (map_err pool_error (tx_validate ct tx weighting)) ;+
  bc_validate_tx tx ;+
  apply_tx_to_block_sums tx h.

(** What is validated when an entry is added. *)
Definition candidate (txs : list Transaction) (extra_tx : option Transaction) (tx : Transaction)
    : result PoolError Transaction :=
  match txs ++ option_list extra_tx with
  | [] => Ok tx
  | txs => map_err pool_error (aggregate (txs ++ [tx]))
  end.

Definition add_to_pool (p : Pool) (entry : PoolEntry) (extra_tx : option Transaction) (h : BlockHeader) : PR Pool :=
  let txs := all_transactions p in
  if existsb (tx_eqb (pe_tx entry)) txs then Some (Err DuplicateTx)
  else
    let+ agg_tx := Some (candidate txs extra_tx (pe_tx entry)) in
    let+ _ := validate_raw_tx agg_tx h NoLimit in
    Some (Ok (mkPool (entries p ++ [entry]))).

Fixpoint validate_raw_txs (txs : list Transaction) (extra_tx : option Transaction) (h : BlockHeader)
    (weighting : Weighting) (valid_txs : list Transaction) : PR (list Transaction) :=
  match txs with
  | [] => Some (Ok valid_txs)
  | tx :: txs =>
      let+ agg_tx := Some (map_err pool_error (aggregate (option_list extra_tx ++ valid_txs ++ [tx]))) in
      let! r := validate_raw_tx agg_tx h weighting in
      validate_raw_txs txs extra_tx h weighting (match r with Ok _ => valid_txs ++ [tx] | Err _ => valid_txs end)
  end.

(** The outputs that are spent, in the pool and on the chain. *)
Definition locate_spends (p : Pool) (tx : Transaction) (extra_tx : option Transaction)
    : PR (list OutputIdentifier * list OutputIdentifier) :=
  let ins := inputs_to_wrappers (inputs (Transaction.body tx)) in
  let+ agg_tx := Some (all_transactions_aggregate p extra_tx) in
  let outs := map identifier (outputs (Transaction.body (default tx_empty agg_tx))) in
  let+ (spent_utxo, _, _, spent_pool) := Some (map_err pool_error
    (cut_through (fun c => commit_key (cw_commit c)) hash_key (fun o => commit_key (id_commit o)) hash_key ins outs)) in
  let+ spent_utxo := bc_validate_inputs (CommitOnly spent_utxo) in
  Some (Ok (spent_pool, spent_utxo)).

(** Every entry that can still be added is, in turn. *)
Fixpoint reconcile_loop (l : list PoolEntry) (extra_tx : option Transaction) (h : BlockHeader) (p : Pool) : option Pool :=
  match l with
  | [] => Some p
  | x :: l =>
      let! r := add_to_pool p x extra_tx h in
      reconcile_loop l extra_tx h (match r with Ok p => p | Err _ => p end)
  end.

Definition reconcile (p : Pool) (extra_tx : option Transaction) (h : BlockHeader) : option Pool :=
  reconcile_loop (entries p) extra_tx h (mkPool []).

(** The entries that have nothing in common with the block. *)
Definition pool_reconcile_block (p : Pool) (b : Block) : Pool :=
  let block_inputs := inputs_to_wrappers (inputs (Block.body b)) in
  mkPool (filter (fun x =>
    let tx := Transaction.body (pe_tx x) in
    negb (existsb (fun y => contains hash_key (kernels (Block.body b)) y) (kernels tx)) &&
    negb (existsb (fun y => contains hash_key block_inputs y) (inputs_to_wrappers (inputs tx))) = true) (entries p)).

Definition find_matching_transactions (p : Pool) (ks : list TxKernel) : list Transaction :=
  filter (fun tx => forallb (contains hash_key ks) (kernels (Transaction.body tx)) = true) (all_transactions p).

(** *** Buckets *)

Record Bucket : Type := mkBucket { raw_txs : list Transaction; bk_fee_rate : Z; age_idx : Z }.

Definition new_bucket (tx : Transaction) (age_idx : Z) : option Bucket :=
  let! r := fee_rate tx in Some (mkBucket [tx] r age_idx).

Definition aggregate_with_tx (b : Bucket) (new_tx : Transaction) (weighting : Weighting) : PR Bucket :=
  let raw_txs := raw_txs b ++ [new_tx] in
  let+ agg_tx := Some (map_err pool_error (aggregate raw_txs)) in
  Some (map_err pool_error (tx_validate ct agg_tx weighting)) ;+
  let! r := fee_rate agg_tx in
  Some (Ok (mkBucket raw_txs r (age_idx b))).

(** The buckets so far, the bucket that is noted for each output, and the
    outputs of transactions that were rejected. *)
Record Sorting : Type := mkSorting {
  tx_buckets : list Bucket;
  output_commits : gmap Commitment nat;
  rejected : gset Commitment;
}.

(** The loop over the inputs: the bucket of a parent, and whether the
    transaction is rejected. *)
Definition parent_step (s : Sorting) (st : option nat * bool) (c : Commitment) : option nat * bool :=
  let '(insert_pos, is_rejected) := st in
  if bool_decide (c ∈ rejected s) then (insert_pos, true)
  else
    match output_commits s !! c with
    | Some pos => match insert_pos with Some _ => (insert_pos, true) | None => (Some pos, is_rejected) end
    | None => st
    end.

Definition reject (s : Sorting) (tx : Transaction) : Sorting :=
  mkSorting (tx_buckets s) (output_commits s) (list_to_set (outputs_committed (Transaction.body tx)) ∪ rejected s).

(** The outputs of a transaction belong to a bucket. *)
Definition note_outputs (pos : nat) (tx : Transaction) (s : Sorting) : Sorting :=
  mkSorting (tx_buckets s)
    (fold_left (fun m c => <[c := pos]> m) (outputs_committed (Transaction.body tx)) (output_commits s)) (rejected s).

Definition push_bucket (s : Sorting) (b : Bucket) : Sorting :=
  mkSorting (tx_buckets s ++ [b]) (output_commits s) (rejected s).

Definition bucket_step (weighting : Weighting) (s : Sorting) (tx : Transaction) : option Sorting :=
  let '(insert_pos, is_rejected) :=
    fold_left (parent_step s)
      (map cw_commit (inputs_to_wrappers (inputs (Transaction.body tx)))) (None, false) in
  if is_rejected then Some (reject s tx)
  else
    let len := length (tx_buckets s) in
    match insert_pos with
    | None =>
        let! b := new_bucket tx (Z.of_nat len) in
        Some (note_outputs len tx (push_bucket s b))
    | Some pos =>
        let! bucket := tx_buckets s !! pos in
        let! r := aggregate_with_tx bucket tx weighting in
        match r with
        | Ok new =>
            if bk_fee_rate bucket <=? bk_fee_rate new then
              Some (note_outputs pos tx (mkSorting (<[pos := new]> (tx_buckets s)) (output_commits s) (rejected s)))
            else
              let! b := new_bucket tx (Z.of_nat len) in
              Some (note_outputs pos tx (push_bucket s b))
        | Err _ => Some (reject s tx)
        end
    end.

Fixpoint bucket_loop (weighting : Weighting) (s : Sorting) (l : list Transaction) : option Sorting :=
  match l with
  | [] => Some s
  | tx :: l => let! s := bucket_step weighting s tx in bucket_loop weighting s l
  end.

(** [(Reverse(fee_rate), age_idx)], both of 64 bits. *)
Definition bucket_key (b : Bucket) : Z := age_idx b - 2 ^ 64 * bk_fee_rate b.

Definition bucket_transactions (p : Pool) (weighting : Weighting) : option (list Transaction) :=
  let! s := bucket_loop weighting (mkSorting [] ∅ ∅) (all_transactions p) in
  Some (concat (map raw_txs (sort_by_key bucket_key (tx_buckets s)))).

Definition prepare_mineable (p : Pool) (max_weight : Z) : PR (list Transaction) :=
  let weighting := AsLimitedTransaction max_weight in
  let! txs := bucket_transactions p weighting in
  let+ h := bc_chain_head in
  validate_raw_txs txs None h weighting [].

Definition evict_transaction (p : Pool) : option Pool :=
  let! txs := bucket_transactions p NoLimit in
  match last txs with
  | Some tx => Some (mkPool (filter (fun x => tx_eqb (pe_tx x) tx = false) (entries p)))
  | None => Some p
  end.
End pool.
