(* ===== verification/PoolSpec.v ===== *)
(** What the pool promises.

    [Joint] is the state of a pool in which every entry was valid together with
    those before it. The pools after [reconcile] are of this kind, and what a
    miner gets is. [ChainLaws] is what the pool relies on the chain for. *)

From Stdlib Require Import ZArith Lia.
From stdpp Require Import base numbers option sorting gmap list.
From S2P Require Import Prelude Ser Consensus Kernel CutThrough Transaction PowTypes Block BlockSpec ChainTypes Pool.
Open Scope Z_scope.

(** ** Results *)

Lemma pbind_Ok {A B} (m : PR A) (k : A -> PR B) b :
  pbind m k = Some (Ok b) <-> exists a, m = Some (Ok a) /\ k a = Some (Ok b).
Proof.
  destruct m as [[a|e]|]; simpl; split; try done.
  - by exists a.
  - intros (a' & E & H). by injection E as <-.
  - by intros (? & [=] & _).
  - by intros (? & [=] & _).
Qed.

Lemma mbind_Some {A B} (m : option A) (k : A -> option B) b :
  (m ≫= k) = Some b <-> exists a, m = Some a /\ k a = Some b.
Proof. apply bind_Some. Qed.

#[local] Arguments pbind : simpl never.

(** Take the first step of a computation that succeeded. *)
Ltac step_in H x E :=
  first [apply pbind_Ok in H as (x & E & H) | apply mbind_Some in H as (x & E & H)].

(** What the chain answers for, given which commitments are unspent in it. *)
Class ChainLaws {CR : Crypto} {SU : SortUnstable} {BC : BlockChain} : Type := {
  unspent : Commitment -> Prop;
  bc_inputs_unspent tx : bc_validate_tx tx = Some (Ok tt) ->
    forall c, c ∈ inputs_committed (Transaction.body tx) -> unspent c;
  bc_outputs_fresh tx : bc_validate_tx tx = Some (Ok tt) ->
    forall c, c ∈ outputs_committed (Transaction.body tx) -> ~ unspent c;
}.

Section pool.
Context {CR : Crypto} {SU : SortUnstable} {NF : NrdFlag} {SH : SipHasher} (ct : ChainTypes) {BC : BlockChain}.

(** ** Equality of transactions *)

Lemma keys_eqb_refl {A} (key : A -> Z) l : keys_eqb key l l = true.
Proof. unfold keys_eqb. by apply bool_decide_eq_true. Qed.

Lemma tx_eqb_refl tx : tx_eqb tx tx = true.
Proof.
  unfold tx_eqb, body_eqb, inputs_eqb. destruct (inputs (Transaction.body tx)); rewrite !keys_eqb_refl;
    simpl; by apply bool_decide_eq_true.
Qed.

Lemma tx_eqb_kernels a b : tx_eqb a b = true ->
  map hash_key (kernels (Transaction.body a)) = map hash_key (kernels (Transaction.body b)).
Proof.
  unfold tx_eqb, body_eqb. rewrite !andb_true_iff. intros [[_ H] _]. by apply bool_decide_eq_true in H.
Qed.

(** ** Adding *)

(** The aggregate of some transactions is valid on top of the chain at a header. *)
Definition joint (w : Weighting) (h : BlockHeader) (txs : list Transaction) : Prop :=
  exists agg sums, aggregate txs = Ok agg /\ validate_raw_tx ct agg h w = Some (Ok sums).

Lemma candidate_aggregate txs extra tx agg :
  candidate txs extra tx = Ok agg <-> aggregate (txs ++ option_list extra ++ [tx]) = Ok agg.
Proof.
  unfold candidate. rewrite (app_assoc txs). destruct (txs ++ option_list extra) as [|x l]; [|apply map_err_Ok].
  simpl. split; intros H; by injection H as ->.
Qed.

Lemma add_to_pool_Ok p e extra h p' :
  add_to_pool ct p e extra h = Some (Ok p') <->
  existsb (tx_eqb (pe_tx e)) (all_transactions p) = false /\ p' = mkPool (entries p ++ [e]) /\
  joint NoLimit h (all_transactions p ++ option_list extra ++ [pe_tx e]).
Proof.
  unfold add_to_pool, joint. cbv zeta. destruct (existsb _ _); [by split; [|intros [? _]]|]. split.
  - intros H. step_in H agg Ea. injection Ea as Ea. step_in H sums Es. injection H as <-.
    split; [done|]. split; [done|]. exists agg, sums. by rewrite <- candidate_aggregate.
  - intros (_ & -> & agg & sums & Ea & Es). apply candidate_aggregate in Ea.
    apply pbind_Ok. exists agg. rewrite Ea. split; [done|]. apply pbind_Ok. exists sums. by rewrite Es.
Qed.

(** Every entry was valid together with those before it, and differs from them. *)
Inductive Joint (extra : option Transaction) (h : BlockHeader) : list PoolEntry -> Prop :=
| Joint_nil : Joint extra h []
| Joint_snoc l e : Joint extra h l -> existsb (tx_eqb (pe_tx e)) (map pe_tx l) = false ->
    joint NoLimit h (map pe_tx l ++ option_list extra ++ [pe_tx e]) -> Joint extra h (l ++ [e]).

Lemma reconcile_loop_spec extra h l p p' :
  reconcile_loop ct l extra h p = Some p' -> Joint extra h (entries p) ->
  Joint extra h (entries p') /\ exists k, entries p' = entries p ++ k /\ k `sublist_of` l.
Proof.
  revert p. induction l as [|x l IH]; intros p; simpl.
  { intros [= <-] H. split; [done|]. exists []. by rewrite app_nil_r. }
  intros H Hp. step_in H r Er. destruct r as [q|].
  - apply add_to_pool_Ok in Er as (Hd & -> & Hj). destruct (IH _ H) as (Hq & k & Ek & Hk).
    { by constructor. }
    split; [done|]. exists (x :: k). cbn [entries] in Ek. rewrite Ek, <- app_assoc. split; [done|].
    by constructor.
  - destruct (IH _ H Hp) as (Hq & k & Ek & Hk). split; [done|]. exists k. split; [done|]. by constructor.
Qed.

Lemma reconcile_spec p extra h p' :
  reconcile ct p extra h = Some p' -> Joint extra h (entries p') /\ entries p' `sublist_of` entries p.
Proof.
  intros H. apply reconcile_loop_spec in H as (Hj & k & Ek & Hk); [|constructor].
  cbn [entries app] in Ek. subst k. done.
Qed.

(** A pool in which nothing has become invalid is left as it is. *)
Lemma Joint_at extra h k e l : Joint extra h (k ++ e :: l) ->
  existsb (tx_eqb (pe_tx e)) (map pe_tx k) = false /\ joint NoLimit h (map pe_tx k ++ option_list extra ++ [pe_tx e]).
Proof.
  induction l as [|x l IH] using rev_ind; intros H.
  - inversion H as [E|l' e' _ Hd Hj E]; [by destruct k|]. by apply app_inj_tail in E as [-> ->].
  - rewrite app_comm_cons, app_assoc in H. inversion H as [E|l' e' Hl _ _ E]; [by destruct k|].
    apply app_inj_tail in E as [-> _]. by apply IH.
Qed.

Lemma reconcile_loop_same extra h l p :
  Joint extra h (entries p ++ l) -> reconcile_loop ct l extra h p = Some (mkPool (entries p ++ l)).
Proof.
  revert p. induction l as [|x l IH]; intros p H; simpl; [rewrite app_nil_r; by destruct p|].
  destruct (Joint_at _ _ _ _ _ H) as [Hd Hj].
  rewrite (proj2 (add_to_pool_Ok p x extra h (mkPool (entries p ++ [x])))); [|by split_and!]. simpl.
  rewrite IH; cbn [entries]; by rewrite <- app_assoc.
Qed.

(** ** What joint validity means *)

Definition count (c : Commitment) (cs : list Commitment) : Z :=
  value_of (fun k => if decide (k = commit_key c) then 1 else 0) cs.

Definition pool_inputs (txs : list Transaction) : list Commitment :=
  concat (map (fun tx => inputs_committed (Transaction.body tx)) txs).
Definition pool_outputs (txs : list Transaction) : list Commitment :=
  concat (map (fun tx => outputs_committed (Transaction.body tx)) txs).

Lemma tx_validate_parts tx w : tx_validate ct tx w = Ok tt ->
  no_coinbase (Transaction.body tx) /\ body_valid ct (Transaction.body tx) w.
Proof.
  unfold tx_validate, body_validate. rewrite !rseq_Ok, verify_features_iff, body_validate_read_valid.
  intros (Hf & (Hb & _) & _). done.
Qed.

Lemma validate_raw_tx_parts tx h w sums : validate_raw_tx ct tx h w = Some (Ok sums) ->
  tx_validate ct tx w = Ok tt /\ bc_validate_tx tx = Some (Ok tt).
Proof.
  unfold validate_raw_tx. intros H. step_in H u1 E1. step_in H u2 E2. destruct u1, u2.
  injection E1 as E1. by apply map_err_Ok in E1.
Qed.

Lemma count_app c cs cs' : count c (cs ++ cs') = count c cs + count c cs'.
Proof. apply value_of_app. Qed.

Lemma count_unique c cs : NoDup (map commit_key cs) ->
  0 <= count c cs <= 1 /\ (count c cs = 1 <-> commit_key c ∈ map commit_key cs).
Proof.
  unfold count, value_of. induction cs as [|x cs IH]; unfold sumZ in *; simpl.
  { intros _. split; [lia|]. split; [lia|]. by intros ?%elem_of_nil. }
  intros [Hx Hn]%NoDup_cons. destruct (IH Hn) as [Hb Hi]. rewrite elem_of_cons.
  case_decide as E; simpl.
  - rewrite E in Hx. assert (foldr Z.add 0 (map (fun c0 => if decide (commit_key c0 = commit_key c) then 1 else 0) cs) = 0)
      as -> by (destruct (Z.eq_dec (foldr Z.add 0 (map (fun c0 => if decide (commit_key c0 = commit_key c) then 1 else 0) cs)) 1);
        [by apply Hi in e|lia]). split; [lia|]. split; [by left|lia].
  - rewrite <- Hi. split; [lia|]. split; [by right|]. intros [?|?]; [done|lia].
Qed.

Lemma count_balance c b :
  balance (fun k => if decide (k = commit_key c) then 1 else 0) b =
  count c (outputs_committed b) - count c (inputs_committed b).
Proof. done. Qed.

Lemma sum_balance c txs :
  sumZ (map (fun t => balance (fun k => if decide (k = commit_key c) then 1 else 0) (Transaction.body t)) txs) =
  count c (pool_outputs txs) - count c (pool_inputs txs).
Proof.
  unfold pool_outputs, pool_inputs. induction txs as [|tx txs IH]; [done|]. unfold sumZ in *. simpl.
  rewrite IH, !count_app, count_balance. lia.
Qed.

(** An element with a key that is in the list of keys. *)
Lemma key_in c cs : commit_key c ∈ map commit_key cs -> exists c', commit_key c' = commit_key c /\ c' ∈ cs.
Proof. rewrite elem_of_map. intros (c' & E & H). eauto. Qed.

(** Nothing is spent twice, nothing is spent that is not there, and nothing is
    created that is there: for each commitment, what is created less what is
    spent. *)
Definition net_sound {CL : ChainLaws} (txs : list Transaction) (c : Commitment) : Prop :=
  let net := count c (pool_outputs txs) - count c (pool_inputs txs) in
  net = 0 \/
  (net = -1 /\ exists c', commit_key c' = commit_key c /\ unspent c') \/
  (net = 1 /\ exists c', commit_key c' = commit_key c /\ ~ unspent c').

(** No kernel twice, no coinbase, nothing spent twice. *)
Definition Sound {CL : ChainLaws} (txs : list Transaction) : Prop :=
  NoDup (map hash_key (all_kernels txs)) /\
  Forall (fun k => Features.is_coinbase (features k) = false) (all_kernels txs) /\
  forall c, net_sound txs c.

Lemma joint_sound {CL : ChainLaws} w h txs : joint w h txs -> Sound txs.
Proof.
  unfold Sound. intros (agg & sums & Ea & Hv). apply validate_raw_tx_parts in Hv as [Hv Hc].
  apply tx_validate_parts in Hv as [[_ Hnc] (_ & _ & (_ & _ & Hk) & Hn)].
  destruct (aggregate_balance _ _ Ea) as (Hb & Hp & _).
  split; [rewrite <- Hp; by apply sorted_NoDup|]. split; [by rewrite <- Hp|].
  intros c. unfold net_sound. cbv zeta. rewrite <- sum_balance, <- Hb, count_balance.
  rewrite map_app in Hn. pose proof Hn as (Hi & _ & Ho)%NoDup_app.
  rewrite <- map_app in Hn. destruct (count_unique c _ Hn) as [Hs _]. rewrite count_app in Hs.
  destruct (count_unique c _ Hi) as [Hi1 Hi2], (count_unique c _ Ho) as [Ho1 Ho2].
  destruct (decide (count c (inputs_committed (Transaction.body agg)) = 1)) as [E|E].
  - right; left. split; [lia|]. apply Hi2, key_in in E as (c' & E & H). exists c'. split; [done|].
    by eapply bc_inputs_unspent.
  - destruct (decide (count c (outputs_committed (Transaction.body agg)) = 1)) as [E'|E']; [|left; lia].
    right; right. split; [lia|]. apply Ho2, key_in in E' as (c' & E' & H). exists c'. split; [done|].
    by eapply bc_outputs_fresh.
Qed.

(** ** Taking transactions for a block *)

Lemma validate_raw_txs_spec txs extra h w acc r : validate_raw_txs ct txs extra h w acc = Some (Ok r) ->
  (exists k, r = acc ++ k /\ k `sublist_of` txs) /\
  (acc = [] \/ joint w h (option_list extra ++ acc) -> r = [] \/ joint w h (option_list extra ++ r)).
Proof.
  revert acc. induction txs as [|tx txs IH]; intros acc; simpl.
  { intros [= <-]. split; [exists []; by rewrite app_nil_r|done]. }
  intros H. step_in H agg Ea. injection Ea as Ea. apply map_err_Ok in Ea. step_in H v Ev.
  destruct (IH _ H) as [(k & -> & Hk) Hj]. destruct v as [sums|e].
  - split.
    + exists (tx :: k). rewrite <- app_assoc. split; [done|]. by constructor.
    + intros _. apply Hj. right. by exists agg, sums.
  - split; [|done]. exists k. split; [done|]. by constructor.
Qed.

(** ** Buckets *)

(** A bucket holds some of the transactions, in their order, and its fee rate is
    that of the aggregate. *)
Definition bucket_ok (txs : list Transaction) (b : Bucket) : Prop :=
  raw_txs b <> [] /\ raw_txs b `sublist_of` txs /\
  exists agg, aggregate (raw_txs b) = Ok agg /\ fee_rate agg = Some (bk_fee_rate b).

(** The transaction that a bucket was made for. *)
Definition first_tx (b : Bucket) : Transaction := hd tx_empty (raw_txs b).

(** A transaction that spends nothing that is created in the pool. *)
Definition independent (txs : list Transaction) (tx : Transaction) : Prop :=
  forall c, c ∈ inputs_committed (Transaction.body tx) -> ~ c ∈ pool_outputs txs.

(** The buckets of the first transactions. *)
Record SortInv (txs : list Transaction) (s : Sorting) : Prop := {
  si_taken : concat (map raw_txs (tx_buckets s)) ⊆+ txs;
  si_ok : Forall (bucket_ok txs) (tx_buckets s);
  si_age : map age_idx (tx_buckets s) = seqZ 0 (Z.of_nat (length (tx_buckets s)));
  si_pos : forall c pos, output_commits s !! c = Some pos -> (pos < length (tx_buckets s))%nat;
  si_first : map first_tx (tx_buckets s) `sublist_of` txs;
  si_known : forall c, is_Some (output_commits s !! c) \/ c ∈ rejected s -> c ∈ pool_outputs txs;
  si_free : forall tx, tx ∈ txs -> independent txs tx -> tx ∈ concat (map raw_txs (tx_buckets s));
}.

(** The bucket found for the inputs was noted for one of them. *)
Lemma parents_found s cs st pos : (forall p, fst st = Some p -> exists c, output_commits s !! c = Some p) ->
  fst (fold_left (parent_step s) cs st) = Some pos -> exists c, output_commits s !! c = Some pos.
Proof.
  revert st. induction cs as [|c cs IH]; intros st Hst; simpl; [apply Hst|]. apply IH.
  destruct st as [ip rej]. unfold parent_step. case_bool_decide; [exact Hst|].
  destruct (output_commits s !! c) eqn:E; [|exact Hst]. destruct ip; [exact Hst|].
  intros p [= <-]. eauto.
Qed.

(** The three things that can become of a transaction. *)
Inductive stepped (w : Weighting) (s : Sorting) (tx : Transaction) : Sorting -> Prop :=
| stepped_rejected : stepped w s tx (reject s tx)
| stepped_new pos b : new_bucket tx (Z.of_nat (length (tx_buckets s))) = Some b ->
    (pos <= length (tx_buckets s))%nat -> stepped w s tx (note_outputs pos tx (push_bucket s b))
| stepped_joined pos b b' : tx_buckets s !! pos = Some b -> aggregate_with_tx ct b tx w = Some (Ok b') ->
    bk_fee_rate b <= bk_fee_rate b' ->
    stepped w s tx (note_outputs pos tx (mkSorting (<[pos := b']> (tx_buckets s)) (output_commits s) (rejected s))).

Lemma bucket_step_stepped w s tx s' : bucket_step ct w s tx = Some s' -> stepped w s tx s'.
Proof.
  unfold bucket_step. destruct (fold_left _ _ _) as [ip rej]. destruct rej; [intros [= <-]; constructor|]. cbv zeta.
  destruct ip as [pos|].
  - intros H. step_in H b Eb. step_in H r Er. destruct r as [b'|]; [|injection H as <-; constructor].
    destruct (Z.leb_spec (bk_fee_rate b) (bk_fee_rate b')).
    + injection H as <-. by econstructor.
    + step_in H n En. injection H as <-. constructor; [done|]. apply lookup_lt_Some in Eb. lia.
  - intros H. step_in H n En. injection H as <-. by constructor.
Qed.

Lemma noted_pos pos tx s n : (forall c p, output_commits s !! c = Some p -> (p < n)%nat) -> (pos < n)%nat ->
  forall c p, output_commits (note_outputs pos tx s) !! c = Some p -> (p < n)%nat.
Proof.
  intros Hs Hp. unfold note_outputs. cbn [output_commits]. generalize (output_commits s) Hs.
  induction (outputs_committed (Transaction.body tx)) as [|o os IH]; intros m Hm; simpl; [exact Hm|].
  apply IH. intros c p. destruct (decide (o = c)) as [->|E].
  - rewrite lookup_insert_eq. by intros [= <-].
  - rewrite lookup_insert_ne by done. apply Hm.
Qed.

Lemma bucket_ok_more txs tx b : bucket_ok txs b -> bucket_ok (txs ++ [tx]) b.
Proof. intros (Hn & Hs & Ha). split_and!; [done| |done]. by apply sublist_inserts_r. Qed.

Lemma aggregate_with_tx_Ok b tx w b' : aggregate_with_tx ct b tx w = Some (Ok b') ->
  raw_txs b' = raw_txs b ++ [tx] /\ age_idx b' = age_idx b /\
  exists agg, aggregate (raw_txs b') = Ok agg /\ fee_rate agg = Some (bk_fee_rate b') /\ tx_validate ct agg w = Ok tt.
Proof.
  unfold aggregate_with_tx. cbv zeta. intros H. step_in H agg Ea. step_in H u Eu. step_in H r Er. injection H as <-.
  injection Ea as Ea. injection Eu as Eu. destruct u. apply map_err_Ok in Ea, Eu. split; [done|]. split; [done|]. by exists agg.
Qed.

Lemma new_bucket_Some tx i b : new_bucket tx i = Some b ->
  raw_txs b = [tx] /\ age_idx b = i /\ fee_rate tx = Some (bk_fee_rate b).
Proof. unfold new_bucket. intros H. step_in H r Er. by injection H as <-. Qed.

Lemma concat_insert bs pos b b' tx : bs !! pos = Some b -> raw_txs b' = raw_txs b ++ [tx] ->
  concat (map raw_txs (<[pos := b']> bs)) ≡ₚ concat (map raw_txs bs) ++ [tx].
Proof.
  intros Hb E. rewrite insert_take_drop by (by eapply lookup_lt_Some).
  rewrite <- (take_drop_middle bs pos b Hb) at 3. rewrite !map_app, !concat_app. simpl. rewrite E.
  rewrite <- !app_assoc. apply Permutation_app_head, Permutation_app_head. apply Permutation_app_comm.
Qed.

Lemma map_insert_same {B} (f : Bucket -> B) bs pos b b' : bs !! pos = Some b -> f b' = f b ->
  map f (<[pos := b']> bs) = map f bs.
Proof.
  intros Hb E. change (f <$> <[pos := b']> bs = f <$> bs).
  rewrite list_fmap_insert, E. apply list_insert_id. by rewrite list_lookup_fmap, Hb.
Qed.

(** What is in a bucket stays in one. *)
Lemma stepped_keeps w s tx s' x : stepped w s tx s' -> x ∈ concat (map raw_txs (tx_buckets s)) ->
  x ∈ concat (map raw_txs (tx_buckets s')).
Proof.
  intros [|pos b Hb Hpos|pos b b' Hb Hb' _] Hx; cbn [tx_buckets note_outputs push_bucket reject]; [done| |].
  - rewrite map_app, concat_app. apply elem_of_app. by left.
  - apply aggregate_with_tx_Ok in Hb' as (Er & _). rewrite (concat_insert _ _ _ _ _ Hb Er). apply elem_of_app. by left.
Qed.

(** The outputs that a step notes are those of the transaction. *)
Lemma noted_outputs pos tx s c : is_Some (output_commits (note_outputs pos tx s) !! c) ->
  is_Some (output_commits s !! c) \/ c ∈ outputs_committed (Transaction.body tx).
Proof.
  unfold note_outputs. cbn [output_commits]. generalize (output_commits s).
  induction (outputs_committed (Transaction.body tx)) as [|o os IH]; intros m; simpl; [by left|].
  intros [H|H]%IH; [|right; by right]. destruct (decide (o = c)) as [->|E]; [right; by left|].
  rewrite lookup_insert_ne in H by done. by left.
Qed.

Lemma pool_outputs_snoc txs tx : pool_outputs (txs ++ [tx]) = pool_outputs txs ++ outputs_committed (Transaction.body tx).
Proof. unfold pool_outputs. rewrite map_app, concat_app. simpl. by rewrite app_nil_r. Qed.

Lemma stepped_known w txs s tx s' : stepped w s tx s' ->
  (forall c, is_Some (output_commits s !! c) \/ c ∈ rejected s -> c ∈ pool_outputs txs) ->
  forall c, is_Some (output_commits s' !! c) \/ c ∈ rejected s' -> c ∈ pool_outputs (txs ++ [tx]).
Proof.
  intros Hs Hk c. rewrite pool_outputs_snoc, elem_of_app.
  destruct Hs as [|pos b _ _|pos b b' _ _ _].
  - cbn [output_commits rejected reject]. rewrite elem_of_union, elem_of_list_to_set.
    intros [H|[H|H]]; [left; apply Hk; by left|by right|left; apply Hk; by right].
  - intros [[H|H]%noted_outputs|H]; auto.
  - intros [[H|H]%noted_outputs|H]; auto.
Qed.

Lemma SortInv_step txs s tx s' w : SortInv txs s -> stepped w s tx s' ->
  (independent txs tx -> tx ∈ concat (map raw_txs (tx_buckets s'))) -> SortInv (txs ++ [tx]) s'.
Proof.
  intros Hinv Hstep Hfree.
  assert (Hfree' : forall x, x ∈ txs ++ [tx] -> independent (txs ++ [tx]) x -> x ∈ concat (map raw_txs (tx_buckets s'))).
  { intros x Hx Hi. assert (Hi' : independent txs x).
    { intros c Hc Hin. apply (Hi c Hc). rewrite pool_outputs_snoc. apply elem_of_app. by left. }
    apply elem_of_app in Hx as [Hx| ->%list_elem_of_singleton]; [|by apply Hfree].
    eapply stepped_keeps; [exact Hstep|]. by eapply si_free. }
  pose proof (stepped_known _ _ _ _ _ Hstep (si_known _ _ Hinv)) as Hknown.
  destruct Hinv as [Ht Hok Ha Hp Hf _ _]. destruct Hstep as [|pos b Hb Hpos|pos b b' Hb Hb' Hr].
  - split; [|eapply Forall_impl; [exact Hok|apply bucket_ok_more]|done|done| |done|done].
    + simpl. etransitivity; [exact Ht|]. by apply submseteq_inserts_r.
    + simpl. by apply sublist_inserts_r.
  - apply new_bucket_Some in Hb as (Er & Ea & Ef). split; cbn [tx_buckets note_outputs push_bucket]; [| | | | |exact Hknown|exact Hfree'].
    + rewrite map_app, concat_app. simpl. rewrite Er, app_nil_r. by apply submseteq_app.
    + apply Forall_app. split; [eapply Forall_impl; [exact Hok|apply bucket_ok_more]|].
      apply Forall_singleton. unfold bucket_ok. rewrite Er. split_and!; [done| |].
      * by apply sublist_inserts_l.
      * by exists tx.
    + rewrite map_app, Ha, length_app. simpl. rewrite Ea.
      by rewrite Nat.add_1_r, seqZ_S.
    + apply noted_pos; cbn [output_commits push_bucket tx_buckets]; rewrite length_app; simpl; [|lia].
      intros c p E. apply Hp in E. lia.
    + rewrite map_app. apply sublist_app; [done|]. unfold first_tx. simpl. by rewrite Er.
  - apply aggregate_with_tx_Ok in Hb' as (Er & Ea & agg & Eagg & Ef & _).
    pose proof (Forall_lookup_1 _ _ _ _ Hok Hb) as (Hn & Hs & _).
    split; cbn [tx_buckets note_outputs]; [| | | | |exact Hknown|exact Hfree'].
    + rewrite (concat_insert _ _ _ _ _ Hb Er). by apply submseteq_app.
    + apply Forall_insert; [eapply Forall_impl; [exact Hok|apply bucket_ok_more]|]. unfold bucket_ok. split_and!.
      * rewrite Er. by destruct (raw_txs b).
      * rewrite Er. by apply sublist_app.
      * by exists agg.
    + rewrite length_insert, <- Ha. by apply (map_insert_same age_idx _ _ b).
    + apply noted_pos; cbn [output_commits]; rewrite length_insert; [exact Hp|]. by eapply lookup_lt_Some.
    + rewrite (map_insert_same first_tx _ _ b); [by apply sublist_inserts_r|done|].
      unfold first_tx. rewrite Er. by destruct (raw_txs b).
Qed.

(** *** A transaction without parents gets a bucket *)

Lemma parents_none s cs : Forall (fun c => output_commits s !! c = None /\ ~ c ∈ rejected s) cs ->
  fold_left (parent_step s) cs (None, false) = (None, false).
Proof.
  induction 1 as [|c cs [Ho Hr] _ IH]; [done|]. simpl. rewrite Ho, bool_decide_eq_false_2 by done. exact IH.
Qed.

Lemma independent_bucket w txs s tx s' : SortInv txs s -> bucket_step ct w s tx = Some s' -> independent txs tx ->
  tx ∈ concat (map raw_txs (tx_buckets s')).
Proof.
  intros Hinv H Hi. unfold bucket_step in H. rewrite parents_none in H.
  - cbv zeta in H. step_in H b Eb. injection H as <-. apply new_bucket_Some in Eb as (Er & _).
    cbn [tx_buckets note_outputs push_bucket]. rewrite map_app, concat_app. simpl. rewrite Er.
    apply elem_of_app. right. by left.
  - apply Forall_forall. intros c Hc. specialize (Hi c Hc).
    pose proof (si_known _ _ Hinv c) as Hk. split.
    + destruct (output_commits s !! c) eqn:E; [|done]. exfalso. apply Hi, Hk. by left.
    + intros Hr. apply Hi, Hk. by right.
Qed.

Lemma bucket_loop_inv w l txs s s' : bucket_loop ct w s l = Some s' -> SortInv txs s -> SortInv (txs ++ l) s'.
Proof.
  revert txs s. induction l as [|tx l IH]; intros txs s; simpl; [intros [= <-]; by rewrite app_nil_r|].
  intros H Hi. step_in H s1 E1. rewrite cons_middle, app_assoc. eapply IH; [exact H|].
  eapply SortInv_step; [exact Hi|by eapply bucket_step_stepped|by eapply independent_bucket].
Qed.

Lemma SortInv_empty : SortInv [] (mkSorting [] ∅ ∅).
Proof.
  split; [done|constructor|done| |done| |].
  - intros c p. simpl. by rewrite lookup_empty.
  - intros c. simpl. rewrite lookup_empty. intros [[? ?]|?]; [done|set_solver].
  - by intros tx ?%elem_of_nil.
Qed.

(** *** The first transaction always gets a bucket *)

Lemma stepped_nonempty w s tx s' : stepped w s tx s' -> tx_buckets s <> [] -> tx_buckets s' <> [].
Proof.
  intros [|pos b|pos b b'] Hn; simpl; [done|by destruct (tx_buckets s)|].
  intros E. apply (f_equal length) in E. rewrite length_insert in E. by destruct (tx_buckets s).
Qed.

Lemma bucket_loop_nonempty w l s s' : bucket_loop ct w s l = Some s' -> tx_buckets s <> [] -> tx_buckets s' <> [].
Proof.
  revert s. induction l as [|tx l IH]; intros s; simpl; [by intros [= <-]|].
  intros H Hn. step_in H s1 E1. apply bucket_step_stepped in E1. eapply IH; [exact H|]. by eapply stepped_nonempty.
Qed.

Lemma bucket_first w tx l s' : bucket_loop ct w (mkSorting [] ∅ ∅) (tx :: l) = Some s' -> tx_buckets s' <> [].
Proof.
  simpl. intros H. step_in H s1 E1. eapply bucket_loop_nonempty; [exact H|].
  unfold bucket_step in E1. rewrite parents_none in E1
    by (apply Forall_forall; intros c _; cbn; rewrite lookup_empty; split; [done|set_solver]). cbv zeta in E1. step_in E1 b Eb.
  by injection E1 as <-.
Qed.

(** *** No panic *)

Definition has_kernel (tx : Transaction) : Prop := kernels (Transaction.body tx) <> [].

Lemma fee_rate_defined tx : has_kernel tx -> exists r, fee_rate tx = Some r.
Proof.
  unfold has_kernel, fee_rate. intros Hk.
  assert (body_weight (Transaction.body tx) <> 0).
  { unfold body_weight. pose proof (inputs_len_nonneg (inputs (Transaction.body tx))).
    rewrite weight_by_iok_min by lia. unfold u_max.
    destruct (kernels (Transaction.body tx)); [done|]. simpl length. lia. }
  destruct (Z.eqb_spec (body_weight (Transaction.body tx)) 0); [done|]. eauto.
Qed.

Lemma aggregate_has_kernel txs tx agg : aggregate (txs ++ [tx]) = Ok agg -> has_kernel tx -> has_kernel agg.
Proof.
  intros (_ & Hp & _)%aggregate_balance Hk E. rewrite E in Hp. apply Permutation_nil in Hp.
  unfold all_kernels in Hp. rewrite map_app, concat_app in Hp. apply app_eq_nil in Hp as [_ Hp].
  simpl in Hp. rewrite app_nil_r in Hp. done.
Qed.

Lemma aggregate_with_tx_total b tx w : has_kernel tx -> exists r, aggregate_with_tx ct b tx w = Some r.
Proof.
  intros Hk. unfold aggregate_with_tx, pbind. cbv zeta.
  destruct (aggregate (raw_txs b ++ [tx])) as [agg|] eqn:Ea; cbn [map_err]; [|eauto].
  destruct (tx_validate ct agg w) as [[]|]; cbn [map_err]; [|eauto].
  destruct (fee_rate_defined agg) as [r ->]; [by eapply aggregate_has_kernel|]. simpl. eauto.
Qed.

Lemma bucket_step_total w txs s tx : SortInv txs s -> has_kernel tx -> exists s', bucket_step ct w s tx = Some s'.
Proof.
  intros Hi Hk. unfold bucket_step. destruct (fold_left _ _ _) as [ip rej] eqn:Ef. destruct rej; [eauto|]. cbv zeta.
  assert (Hn : forall i, exists b, new_bucket tx i = Some b).
  { intros i. unfold new_bucket. destruct (fee_rate_defined tx Hk) as [r ->]. simpl. eauto. }
  destruct ip as [pos|].
  - destruct (parents_found s (map cw_commit (inputs_to_wrappers (inputs (Transaction.body tx)))) (None, false) pos)
      as [c Ec]; [done|by rewrite Ef|].
    destruct (lookup_lt_is_Some_2 (tx_buckets s) pos) as [b ->]; [by eapply si_pos|]. cbn [mbind option_bind].
    destruct (aggregate_with_tx_total b tx w Hk) as [r ->]. cbn [mbind option_bind].
    destruct r; [|eauto]. destruct (_ <=? _); [eauto|]. destruct (Hn (Z.of_nat (length (tx_buckets s)))) as [n ->].
    simpl. eauto.
  - destruct (Hn (Z.of_nat (length (tx_buckets s)))) as [n ->]. simpl. eauto.
Qed.

Lemma bucket_loop_total w l txs s : SortInv txs s -> Forall has_kernel l -> exists s', bucket_loop ct w s l = Some s'.
Proof.
  revert txs s. induction l as [|tx l IH]; intros txs s Hi Hl; simpl; [eauto|].
  apply Forall_cons in Hl as [Hk Hl]. destruct (bucket_step_total w txs s tx Hi Hk) as [s1 E1]. rewrite E1. simpl.
  eapply IH; [|done]. eapply SortInv_step; [exact Hi|by eapply bucket_step_stepped|by eapply independent_bucket].
Qed.

(** *** The order *)

Definition bucket_before (a b : Bucket) : Prop :=
  bk_fee_rate b < bk_fee_rate a \/ (bk_fee_rate a = bk_fee_rate b /\ age_idx a <= age_idx b).

Lemma StronglySorted_weaken {A} (P : A -> Prop) (R S : A -> A -> Prop) l :
  (forall x y, P x -> P y -> R x y -> S x y) -> Forall P l -> StronglySorted R l -> StronglySorted S l.
Proof.
  intros H Hl Hs. induction Hs as [|x l Hs IH Hx]; [constructor|]. apply Forall_cons in Hl as [Hp Hl].
  constructor; [by apply IH|]. rewrite Forall_forall in Hx, Hl |- *. auto.
Qed.

Lemma sort_buckets bs : map age_idx bs = seqZ 0 (Z.of_nat (length bs)) -> Z.of_nat (length bs) < 2 ^ 64 ->
  StronglySorted bucket_before (sort_by_key bucket_key bs).
Proof.
  intros Ha Hl. eapply (StronglySorted_weaken (fun b => 0 <= age_idx b < 2 ^ 64)); [| |apply sort_sorted].
  - unfold bucket_key, bucket_before. intros x y. lia.
  - rewrite sort_perm. apply Forall_forall. intros b Hb.
    assert (Hi : age_idx b ∈ map age_idx bs) by (apply elem_of_map; eauto).
    rewrite Ha in Hi. apply elem_of_seqZ in Hi. lia.
Qed.

Lemma concat_nonempty {A} (ls : list (list A)) : Forall (fun l => l <> []) ls -> (length ls <= length (concat ls))%nat.
Proof. induction 1 as [|l ls Hl _ IH]; simpl; [lia|]. rewrite length_app. destruct l; [done|simpl; lia]. Qed.

#[local] Instance concat_perm {A} : Proper ((≡ₚ) ==> (≡ₚ)) (@concat A).
Proof.
  induction 1; simpl; [done|by f_equiv|rewrite !app_assoc; f_equiv; apply Permutation_app_comm|by etransitivity].
Qed.

(** The transactions of the buckets, sorted, for the buckets that the loop makes. *)
Lemma bucket_transactions_made p w txs : bucket_transactions ct p w = Some txs ->
  exists s, bucket_loop ct w (mkSorting [] ∅ ∅) (all_transactions p) = Some s /\
    txs = concat (map raw_txs (sort_by_key bucket_key (tx_buckets s))) /\
    txs ≡ₚ concat (map raw_txs (tx_buckets s)) /\ SortInv (all_transactions p) s.
Proof.
  unfold bucket_transactions. intros H. step_in H s Es. injection H as <-. exists s. split; [done|]. split; [done|].
  split; [apply concat_perm, Permutation_map, sort_perm|]. apply (bucket_loop_inv _ _ _ _ _ Es SortInv_empty).
Qed.

Lemma bucket_transactions_spec p w txs : bucket_transactions ct p w = Some txs ->
  txs ⊆+ all_transactions p /\ (entries p <> [] -> txs <> []).
Proof.
  intros (s & Es & _ & Ep & [Ht Hok _ _ _ _ _])%bucket_transactions_made. split; [by rewrite Ep|].
  intros He E. subst. apply Permutation_nil in Ep. unfold all_transactions in Es.
  destruct (entries p) as [|e l]; [done|]. apply bucket_first in Es.
  assert (Hn : (length (tx_buckets s) <= length (concat (map raw_txs (tx_buckets s))))%nat).
  { rewrite <- (length_map raw_txs) at 1. apply concat_nonempty, Forall_map.
    eapply Forall_impl; [exact Hok|]. by intros b (? & _). }
  rewrite Ep in Hn. destruct (tx_buckets s); [done|simpl in Hn; lia].
Qed.

Lemma bucket_transactions_total p w : Forall has_kernel (all_transactions p) ->
  exists txs, bucket_transactions ct p w = Some txs.
Proof.
  intros Hk. destruct (bucket_loop_total w _ _ _ SortInv_empty Hk) as [s Es].
  unfold bucket_transactions. rewrite Es. simpl. eauto.
Qed.

(** ** Eviction *)

Lemma evict_spec p p' : evict_transaction ct p = Some p' ->
  entries p' `sublist_of` entries p /\ (entries p <> [] -> (length (entries p') < length (entries p))%nat).
Proof.
  unfold evict_transaction. intros H. step_in H txs Et.
  destruct (bucket_transactions_spec _ _ _ Et) as [Ht Hn].
  destruct (last txs) as [tx|] eqn:El.
  - injection H as <-. split; [apply sublist_filter|]. intros _. cbn [entries].
    assert (Hin : tx ∈ all_transactions p).
    { eapply elem_of_submseteq; [|exact Ht]. apply last_Some_elem_of in El. done. }
    unfold all_transactions in Hin. apply elem_of_map in Hin as (e & -> & He).
    apply length_filter_lt with e; [done|]. by rewrite tx_eqb_refl.
  - injection H as <-. split; [done|]. intros He. apply Hn in He. apply last_None in El. done.
Qed.

(** ** The two pools together *)

Section laws.
Context {CL : ChainLaws}.

Lemma net_sound_same txs txs' c :
  count c (pool_outputs txs) - count c (pool_inputs txs) = count c (pool_outputs txs') - count c (pool_inputs txs') ->
  net_sound txs c -> net_sound txs' c.
Proof. unfold net_sound. cbv zeta. by intros <-. Qed.

Lemma Sound_expand k a l : aggregate l = Ok a -> Sound (k ++ [a]) -> Sound (k ++ l).
Proof.
  intros (Hb & Hp & _)%aggregate_balance (Hk & Hc & Hn).
  assert (Ek : all_kernels (k ++ l) ≡ₚ all_kernels (k ++ [a])).
  { unfold all_kernels. rewrite !map_app, !concat_app. simpl. by rewrite app_nil_r, Hp. }
  split; [by rewrite Ek|]. split; [by rewrite Ek|]. intros c. eapply net_sound_same; [|apply (Hn c)].
  rewrite <- !sum_balance, !map_app, !sumZ_app. unfold sumZ at 2. simpl. rewrite Hb. lia.
Qed.

Lemma Sound_perm txs txs' : txs ≡ₚ txs' -> Sound txs -> Sound txs'.
Proof.
  intros E (Hk & Hc & Hn). assert (Ek : all_kernels txs' ≡ₚ all_kernels txs) by (unfold all_kernels; by rewrite E).
  split; [by rewrite Ek|]. split; [by rewrite Ek|]. intros c. eapply net_sound_same; [|apply (Hn c)].
  unfold pool_outputs, pool_inputs, count, value_of.
  assert (EZ : forall l l', l ≡ₚ l' -> sumZ l = sumZ l') by (induction 1; unfold sumZ in *; simpl; lia).
  f_equal; apply EZ; by rewrite E.
Qed.

Lemma Sound_nil : Sound [].
Proof. split; [constructor|]. split; [constructor|]. intros c. by left. Qed.

Lemma Joint_sound extra h l : Joint extra h l ->
  l = [] \/ Sound (map pe_tx l ++ option_list extra).
Proof.
  intros [|l' e _ _ Hj]; [by left|]. right. apply joint_sound in Hj. eapply Sound_perm; [|exact Hj].
  rewrite map_app, <- !app_assoc. apply Permutation_app_head, Permutation_app_comm.
Qed.

Lemma all_aggregate_Ok p r : all_transactions_aggregate ct p None = Ok r ->
  match r with Some a => aggregate (all_transactions p) = Ok a /\ entries p <> [] | None => entries p = [] end.
Proof.
  unfold all_transactions_aggregate, all_transactions. destruct (entries p) as [|e l]; cbn [map]; [by intros [= <-]|].
  destruct (aggregate _) as [a|] eqn:Ea; cbn [map_err rbind]; [|done].
  destruct (tx_validate ct a NoLimit) as [[]|]; cbn [map_err rbind]; [|done]. intros [= <-].
  cbn [option_list] in Ea. by rewrite app_nil_r in Ea.
Qed.

(** A private pool that was reconciled on top of the public one. *)
Lemma stem_sound h p s agg : entries p = [] \/ Sound (all_transactions p) ->
  all_transactions_aggregate ct p None = Ok agg -> Joint agg h (entries s) ->
  Sound (all_transactions s ++ all_transactions p).
Proof.
  intros Hp Ha Hs. apply all_aggregate_Ok in Ha. apply Joint_sound in Hs. unfold all_transactions in *. destruct agg as [a|].
  - destruct Ha as [Ha Hne]. destruct Hs as [Es|Hs].
    + rewrite Es. simpl. by destruct Hp.
    + eapply Sound_expand; done.
  - rewrite Ha. simpl. rewrite app_nil_r. destruct Hs as [->|Hs]; [apply Sound_nil|].
    simpl in Hs. by rewrite app_nil_r in Hs.
Qed.

Lemma Joint_None_sound h p : Joint None h (entries p) -> entries p = [] \/ Sound (all_transactions p).
Proof.
  intros [?|H]%Joint_sound; [by left|right]. simpl in H. by rewrite app_nil_r in H.
Qed.

(** An entry added on top of a private pool and the public one. *)
Lemma added_sound h p s e agg : all_transactions_aggregate ct p None = Ok agg ->
  joint NoLimit h (all_transactions s ++ option_list agg ++ [pe_tx e]) ->
  Sound (map pe_tx (entries s ++ [e]) ++ all_transactions p).
Proof.
  intros Ha Hj. apply all_aggregate_Ok in Ha. apply joint_sound in Hj.
  assert (Hs : Sound (map pe_tx (entries s ++ [e]) ++ option_list agg)).
  { eapply Sound_perm; [|exact Hj]. rewrite map_app, <- !app_assoc. apply Permutation_app_head, Permutation_app_comm. }
  destruct agg as [a|]; [destruct Ha as [Ha _]; by eapply Sound_expand|].
  unfold all_transactions. by rewrite Ha.
Qed.
End laws.

(** ** Looking for the kernels of a compact block *)

Section retrieve.
Context (block_hash : Hash) (nonce : Z) (kern_ids : list ShortId).

(** The transactions of the pool, once for each of their short ids. *)
Definition tx_ids (tx : Transaction) : list (Transaction * ShortId) :=
  map (fun k => (tx, short_id (hash k) block_hash nonce)) (kernels (Transaction.body tx)).
Definition pool_ids (l : list Transaction) : list (Transaction * ShortId) := concat (map tx_ids l).

Definition wanted (x : Transaction * ShortId) : bool := contains hash_key kern_ids x.2.
Definition hits (l : list (Transaction * ShortId)) : list (Transaction * ShortId) := filter (fun x => wanted x = true) l.

Lemma sublist_map {A B} (f : A -> B) l k : l `sublist_of` k -> map f l `sublist_of` map f k.
Proof. induction 1; simpl; by constructor. Qed.

(** Both loops stop at a prefix: at the end, or when enough was found. *)
Lemma retrieve_kernels_spec tx ks txs found txs' found' stop :
  retrieve_kernels block_hash nonce kern_ids tx ks txs found = (txs', found', stop) ->
  exists l r, map (fun k => (tx, short_id (hash k) block_hash nonce)) ks = l ++ r /\
    txs' = txs ++ map fst (hits l) /\ found' = found ++ map snd (hits l) /\
    if stop then length found' = length kern_ids else r = [].
Proof.
  revert txs found. induction ks as [|k ks IH]; intros txs found; cbn [retrieve_kernels].
  { intros [= <- <- <-]. exists [], []. by rewrite !app_nil_r. }
  cbv zeta. set (x := (tx, short_id (hash k) block_hash nonce)).
  assert (Hx : forall l, hits (x :: l) = (if wanted x then [x] else []) ++ hits l).
  { intros l. unfold hits. rewrite filter_cons. by destruct (wanted x). }
  assert (Ew : wanted x = contains hash_key kern_ids (short_id (hash k) block_hash nonce)) by done.
  rewrite <- Ew. set (st := if wanted x then (txs ++ [tx], found ++ [short_id (hash k) block_hash nonce]) else (txs, found)).
  assert (Est : st = (txs ++ map fst (if wanted x then [x] else []), found ++ map snd (if wanted x then [x] else []))).
  { unfold st. destruct (wanted x); [done|by rewrite !app_nil_r]. }
  rewrite Est. destruct (Nat.eqb_spec (length (found ++ map snd (if wanted x then [x] else []))) (length kern_ids)) as [El|El].
  - intros [= <- <- <-]. exists [x], (map (fun k => (tx, short_id (hash k) block_hash nonce)) ks).
    split; [done|]. by rewrite Hx, !app_nil_r.
  - intros (l & r & Ek & -> & -> & Hs)%IH. exists (x :: l), r. split; [by rewrite <- app_comm_cons, <- Ek|].
    rewrite Hx, !map_app, !app_assoc. split; [done|]. split; [done|]. by rewrite <- !app_assoc in *.
Qed.

Lemma hits_app l k : hits (l ++ k) = hits l ++ hits k.
Proof. apply filter_app. Qed.

Lemma retrieve_loop_spec l txs found txs' found' :
  retrieve_loop block_hash nonce kern_ids l txs found = (txs', found') ->
  exists k r, pool_ids l = k ++ r /\ txs' = txs ++ map fst (hits k) /\ found' = found ++ map snd (hits k) /\
    (r = [] \/ length found' = length kern_ids).
Proof.
  revert txs found. induction l as [|tx l IH]; intros txs found; cbn [retrieve_loop].
  { intros [= <- <-]. exists [], []. rewrite !app_nil_r. auto. }
  destruct (retrieve_kernels _ _ _ _ _ _ _) as [[t1 f1] stop] eqn:Ek.
  apply retrieve_kernels_spec in Ek as (k1 & r1 & E1 & -> & -> & Hs).
  assert (Ep : pool_ids (tx :: l) = (k1 ++ r1) ++ pool_ids l) by (rewrite <- E1; done). destruct stop.
  - intros [= <- <-]. exists k1, (r1 ++ pool_ids l). rewrite Ep, <- app_assoc. auto.
  - subst r1. rewrite app_nil_r in Ep. intros (k & r & E & -> & -> & Hr)%IH. exists (k1 ++ k), r.
    rewrite Ep, E, hits_app, !map_app, !app_assoc in *. auto.
Qed.

Lemma contains_in {A} (key : A -> Z) (l : list A) x : contains key l x = true <-> key x ∈ map key l.
Proof.
  unfold contains. rewrite existsb_exists, elem_of_map. split; intros (y & H1 & H2); exists y.
  - rewrite <- list_elem_of_In in H1. apply Z.eqb_eq in H2. done.
  - rewrite <- list_elem_of_In, Z.eqb_eq. done.
Qed.

(** If short ids do not collide, all that is wanted is found. *)
Lemma hits_all l txs found : NoDup (map hash_key (map snd (pool_ids l))) -> NoDup (map hash_key kern_ids) ->
  retrieve_loop block_hash nonce kern_ids l [] [] = (txs, found) ->
  txs = map fst (hits (pool_ids l)) /\ found = map snd (hits (pool_ids l)).
Proof.
  intros Hp Hk (k & r & E & -> & -> & Hr)%retrieve_loop_spec. simpl in *.
  assert (Hz : hits r = []).
  { destruct Hr as [-> |Hl]; [done|]. destruct (hits r) as [|x h] eqn:Ex; [done|]. exfalso.
    assert (Hx : x ∈ hits r) by (rewrite Ex; by left). apply list_elem_of_filter in Hx as [Hw Hx].
    unfold wanted in Hw. apply contains_in in Hw. rewrite E, !map_app in Hp. apply NoDup_app in Hp as (Hp & Hd & _).
    assert (Hin : hash_key x.2 ∈ map hash_key (map snd (hits k))).
    { assert (Hs : map hash_key (map snd (hits k)) ≡ₚ map hash_key kern_ids).
      { apply submseteq_length_Permutation; [|rewrite !length_map in *; lia]. apply NoDup_submseteq.
        - eapply sublist_NoDup; [exact Hp|]. apply sublist_map, sublist_map, sublist_filter.
        - intros y. rewrite map_map, elem_of_map. intros (z & -> & Hz). apply list_elem_of_filter in Hz as [Hz _].
          unfold wanted in Hz. by apply contains_in in Hz. }
      by rewrite Hs. }
    apply (Hd (hash_key x.2)); [|rewrite map_map; apply elem_of_map; eauto].
    rewrite map_map, elem_of_map in Hin |- *. destruct Hin as (z & Ez & Hz). apply list_elem_of_filter in Hz as [_ Hz]. eauto. }
  by rewrite E, hits_app, Hz, app_nil_r.
Qed.
End retrieve.
End pool.
