(* ===== verification/TransactionPool.v ===== *)
(** The two pools of a node and their maintenance.

    Models [src/pool/src/transaction_pool.rs]. The public [txpool], the private
    [stempool] of transactions that are still relayed to a single peer, and the
    cache that brings transactions back after a reorganisation. The adapter is a
    parameter: [stem_tx_accepted] tells whether it relays a transaction of the
    stem phase; the calls of [tx_accepted], which have no result, are kept as a
    list, the latest last. The clock does not move during one operation.

    Operations that fail in the middle keep what they changed before. *)

From Stdlib Require Import ZArith Lia.
From stdpp Require Import base numbers option sorting gmap list.
From S2P Require Import Prelude Ser Consensus Kernel CutThrough Transaction PowTypes Block ChainTypes Pool.
Open Scope Z_scope.

(** What the pool asks its adapter. *)
Class PoolAdapter : Type := stem_tx_accepted : PoolEntry -> bool.

Record TransactionPool : Type := mkTxPool {
  config : PoolConfig;
  txpool : Pool;
  stempool : Pool;
  reorg_cache : list PoolEntry;
  tx_accepted : list PoolEntry;
}.

Definition set_txpool p t := mkTxPool (config t) p (stempool t) (reorg_cache t) (tx_accepted t).
Definition set_stempool p t := mkTxPool (config t) (txpool t) p (reorg_cache t) (tx_accepted t).
Definition set_reorg_cache c t := mkTxPool (config t) (txpool t) (stempool t) c (tx_accepted t).
Definition set_tx_accepted l t := mkTxPool (config t) (txpool t) (stempool t) (reorg_cache t) l.

Definition tp_new (config : PoolConfig) : TransactionPool := mkTxPool config (mkPool []) (mkPool []) [] [].

(** An operation with an error, on the pools; [None] is a panic. *)
Abbreviation TP := (option (result PoolError unit * TransactionPool)).

Section transaction_pool.
Context {CR : Crypto} {SU : SortUnstable} {NF : NrdFlag} {SH : SipHasher} (ct : ChainTypes).
Context {BC : BlockChain} {PA : PoolAdapter}.
(** [global::get_accept_fee_base], which the node sets from its configuration. *)
Context (fee_base : Z).

Definition tp_chain_head : PR BlockHeader := bc_chain_head.

Definition total_size (t : TransactionPool) : Z := pool_size (txpool t).

Definition add_to_stempool (t : TransactionPool) (entry : PoolEntry) (h : BlockHeader) (extra_tx : option Transaction) : TP :=
  let! r := add_to_pool ct (stempool t) entry extra_tx h in
  match r with
  | Ok p => Some (Ok tt, set_stempool p t)
  | Err e => Some (Err e, t)
  end.

Definition add_to_reorg_cache (entry : PoolEntry) (t : TransactionPool) : TransactionPool :=
  let cache := reorg_cache t ++ [entry] in
  set_reorg_cache (if max_pool_size (config t) <? Z.of_nat (length cache) then tail cache else cache) t.

Definition deaggregate_tx (t : TransactionPool) (now : Z) (entry : PoolEntry) : result PoolError PoolEntry :=
  let tx := pe_tx entry in
  if (1 <? length (kernels (Transaction.body tx)))%nat then
    match find_matching_transactions (txpool t) (kernels (Transaction.body tx)) with
    | [] => Ok entry
    | txs =>
        let? tx := map_err pool_error (deaggregate tx txs) in
        Ok (mkEntry Deaggregate now tx)
    end
  else Ok entry.

Definition add_to_txpool (t : TransactionPool) (entry : PoolEntry) (h : BlockHeader) : TP :=
  let! r := add_to_pool ct (txpool t) entry None h in
  match r with
  | Err e => Some (Err e, t)
  | Ok p =>
      let t := set_txpool p t in
      match all_transactions_aggregate ct (txpool t) None with
      | Err e => Some (Err e, t)
      | Ok txpool_agg =>
          let! s := reconcile ct (stempool t) txpool_agg h in
          Some (Ok tt, set_stempool s t)
      end
  end.

Definition verify_kernel_variants (tx : Transaction) (h : BlockHeader) : result PoolError unit :=
  if existsb (fun k => Features.is_nrd (features k)) (kernels (Transaction.body tx)) then
    if negb is_nrd_enabled then Err NRDKernelNotEnabled
    else if version h <? 4 then Err NRDKernelPreHF3
    else Ok tt
  else Ok tt.

Definition is_acceptable (t : TransactionPool) (tx : Transaction) (stem : bool) : result PoolError unit :=
  if max_pool_size (config t) <? total_size t then Err OverCapacity
  else if stem && (max_stempool_size (config t) <? pool_size (stempool t)) || (max_pool_size (config t) <? total_size t)
  then Err OverCapacity
  else
    let fee := shifted_fee (Transaction.body tx) in
    if fee <? accept_fee fee_base tx then Err (LowFeeTransaction fee) else Ok tt.

Definition convert_tx_v2 (now : Z) (entry : PoolEntry) (spent_pool spent_utxo : list OutputIdentifier)
    : result PoolError PoolEntry :=
  let tx := pe_tx entry in
  let inputs := sort_by_key hash_key (spent_utxo ++ spent_pool) in
  let tx := mkTx (offset tx) (replace_inputs (Transaction.body tx) (inputs_of_identifiers inputs)) in
  map_err pool_error (tx_validate ct tx AsTransaction) ;?
  Ok (mkEntry (pe_src entry) now tx).

(** [add_to_pool] up to the conversion, which does not change the pools: the
    entry, what it is validated with, and whether to make space for it. *)
Definition check_tx (t : TransactionPool) (now : Z) (src : TxSource) (tx : Transaction) (stem : bool)
    (h : BlockHeader) : PR (PoolEntry * option Transaction * bool) :=
  let+ entry := Some (if stem then Ok (mkEntry src now tx) else deaggregate_tx t now (mkEntry src now tx)) in
  let tx := pe_tx entry in
  Some (verify_kernel_variants tx h) ;+
  let acceptability := is_acceptable t tx stem in
  let+ evict := Some (match acceptability with
    | Ok _ => Ok false
    | Err OverCapacity => if negb stem then Ok true else Err OverCapacity
    | Err e => Err e
    end) in
  Some (map_err InvalidTx (tx_validate ct tx AsTransaction)) ;+
  bc_verify_tx_lock_height tx ;+
  let+ extra_tx := Some (if stem then all_transactions_aggregate ct (txpool t) None else Ok None) in
  let+ (spent_pool, spent_utxo) :=
    if stem then locate_spends ct (stempool t) tx extra_tx else locate_spends ct (txpool t) tx None in
  let coinbase_inputs := filter (fun x => is_coinbase_output (id_features x) = true) spent_utxo in
  bc_verify_coinbase_maturity (inputs_of_identifiers coinbase_inputs) ;+
  let+ entry := Some (convert_tx_v2 now entry spent_pool spent_utxo) in
  Some (Ok (entry, extra_tx, evict)).

Definition evict_from_txpool (t : TransactionPool) : option TransactionPool :=
  let! p := evict_transaction ct (txpool t) in Some (set_txpool p t).

(** The end of [add_to_pool]: into the public pool. *)
Definition fluff (t : TransactionPool) (entry : PoolEntry) (evict : bool) (h : BlockHeader) : TP :=
  let! (r, t) := add_to_txpool t entry h in
  match r with
  | Err e => Some (Err e, t)
  | Ok _ =>
      let t := add_to_reorg_cache entry t in
      let t := set_tx_accepted (tx_accepted t ++ [entry]) t in
      if evict then let! t := evict_from_txpool t in Some (Ok tt, t) else Some (Ok tt, t)
  end.

(** [add_to_pool] after the check for duplicates. *)
Definition add_checked (t : TransactionPool) (now : Z) (src : TxSource) (tx : Transaction) (stem : bool)
    (h : BlockHeader) : TP :=
  let! r := check_tx t now src tx stem h in
  match r with
  | Err e => Some (Err e, t)
  | Ok (entry, extra_tx, evict) =>
      if stem then
        let! (r, t) := add_to_stempool t entry h extra_tx in
        match r with
        | Err e => Some (Err e, t)
        | Ok _ => if stem_tx_accepted entry then Some (Ok tt, t) else fluff t entry evict h
        end
      else fluff t entry evict h
  end.

Definition tp_add_to_pool (t : TransactionPool) (now : Z) (src : TxSource) (tx : Transaction) (stem : bool)
    (h : BlockHeader) : TP :=
  let stem := stem && negb (contains_tx (stempool t) tx) in
  if contains_tx (txpool t) tx then Some (Err DuplicateTx, t)
  else add_checked t now src tx stem h.


(** [while cache.front().map(|x| x.tx_at < cutoff)] *)
Fixpoint drop_before (cutoff : Z) (l : list PoolEntry) : list PoolEntry :=
  match l with
  | x :: tl => if pe_at x <? cutoff then drop_before cutoff tl else l
  | [] => []
  end.

Definition truncate_reorg_cache (cutoff : Z) (t : TransactionPool) : TransactionPool :=
  set_reorg_cache (drop_before cutoff (reorg_cache t)) t.

Fixpoint reconcile_entries (l : list PoolEntry) (t : TransactionPool) (h : BlockHeader) : TP :=
  match l with
  | [] => Some (Ok tt, t)
  | x :: l => let! (_, t) := add_to_txpool t x h in reconcile_entries l t h
  end.

Definition reconcile_reorg_cache (t : TransactionPool) (h : BlockHeader) : TP :=
  reconcile_entries (reorg_cache t) t h.

Definition tp_reconcile_block (t : TransactionPool) (b : Block) : TP :=
  let t := set_txpool (pool_reconcile_block (txpool t) b) t in
  let! p := reconcile ct (txpool t) None (header b) in
  let t := set_txpool p t in
  let t := set_stempool (pool_reconcile_block (stempool t) b) t in
  match all_transactions_aggregate ct (txpool t) None with
  | Err e => Some (Err e, t)
  | Ok txpool_tx =>
      let! s := reconcile ct (stempool t) txpool_tx (header b) in
      Some (Ok tt, set_stempool s t)
  end.

Definition tp_retrieve_tx_by_kernel_hash (t : TransactionPool) (h : Hash) : option Transaction :=
  retrieve_tx_by_kernel_hash (txpool t) h.

Definition tp_retrieve_transactions (t : TransactionPool) (block_hash : Hash) (nonce : Z) (kern_ids : list ShortId)
    : list Transaction * list ShortId :=
  retrieve_transactions (txpool t) block_hash nonce kern_ids.

Definition prepare_mineable_transactions (t : TransactionPool) : PR (list Transaction) :=
  prepare_mineable ct (txpool t) (mineable_max_weight (config t)).

End transaction_pool.
