(* ===== verification/Dandelion.v ===== *)
(** Dandelion: who relays a private transaction, and when it is made public.

    Models [DandelionEpoch] of [src/servers/src/common/types.rs],
    [PoolToNetAdapter] of [src/servers/src/common/adapters.rs] and
    [src/servers/src/grin/dandelion_monitor.rs]. The peers are a parameter: which
    are connected, which one is chosen at random and whether sending to it works;
    so are the clock, in nanoseconds, and the numbers drawn at random. *)

From Stdlib Require Import ZArith Lia.
From stdpp Require Import base numbers option sorting gmap list.
From S2P Require Import Prelude Ser Consensus Kernel CutThrough Transaction PowTypes Block ChainTypes Pool TransactionPool.
Open Scope Z_scope.

(** A peer is known by a number. *)
Class Peers : Type := {
  is_connected : Z -> bool;
  choose_random : option Z;
  send_stem_transaction : Z -> Transaction -> bool;
}.

(** ** Epochs *)

Record DandelionEpoch : Type := mkEpoch {
  dandelion_config : DandelionConfig;
  start_time : option Z;
  is_stem : bool;
  relay : option Z;
}.

Definition epoch_new (config : DandelionConfig) : DandelionEpoch := mkEpoch config None true None.

(** [timestamp] *)
Definition seconds (t : Z) : Z := t / 10 ^ 9.

(** [i64::saturating_sub] *)
Definition sat_sub_i64 (a b : Z) : Z := Z.max (- 2 ^ 63) (Z.min (2 ^ 63 - 1) (a - b)).

Definition is_expired (now : Z) (e : DandelionEpoch) : bool :=
  match start_time e with
  | None => true
  | Some start_time => epoch_secs (dandelion_config e) <? sat_sub_i64 (seconds now) start_time
  end.

Section dandelion.
Context {CR : Crypto} {SU : SortUnstable} {NF : NrdFlag} {SH : SipHasher} (ct : ChainTypes).
Context {BC : BlockChain} {PS : Peers} (fee_base : Z).

(** [dice] is drawn from the numbers below 100. *)
Definition next_epoch (now dice : Z) (e : DandelionEpoch) : DandelionEpoch :=
  mkEpoch (dandelion_config e) (Some (seconds now)) (dice <? stem_probability (dandelion_config e)) choose_random.

(** The relay, and the epoch with it: a new one is chosen if it is gone. *)
Definition relay_peer (e : DandelionEpoch) : option Z * DandelionEpoch :=
  let update_relay := match relay e with Some peer => negb (is_connected peer) | None => true end in
  let e := if update_relay then mkEpoch (dandelion_config e) (start_time e) (is_stem e) choose_random else e in
  (relay e, e).

(** [PoolToNetAdapter::stem_tx_accepted] *)
Definition relay_stem_tx (e : DandelionEpoch) (entry : PoolEntry) : bool * DandelionEpoch :=
  if is_stem e || (is_pushed (pe_src entry) && always_stem_our_txs (dandelion_config e)) then
    let '(peer, e) := relay_peer e in
    match peer with
    | Some peer => (send_stem_transaction peer (pe_tx entry), e)
    | None => (false, e)
    end
  else (true, e).

(** The adapter of the pool in an epoch. *)
Definition PoolToNetAdapter (e : DandelionEpoch) : PoolAdapter := fun entry => fst (relay_stem_tx e entry).

(** ** The monitor *)

Definition select_txs_cutoff (now : Z) (p : Pool) (cutoff_secs : Z) : list PoolEntry :=
  let cutoff := seconds now - cutoff_secs in
  filter (fun x => seconds (pe_at x) < cutoff) (entries p).

(** An error of the monitor, and the pools. *)
Abbreviation MP := (option (result PoolError unit * TransactionPool)).

Definition process_fluff_phase (e : DandelionEpoch) (now : Z) (t : TransactionPool) : MP :=
  let all_entries := entries (stempool t) in
  match all_entries with
  | [] => Some (Ok tt, t)
  | _ =>
      let cutoff_entries := select_txs_cutoff now (stempool t) (aggregation_secs (dandelion_config e)) in
      if negb (is_expired now e) && bool_decide (cutoff_entries = []) then Some (Ok tt, t)
      else
        let! h := tp_chain_head in
        match h with
        | Err x => Some (Err x, t)
        | Ok header =>
            match all_transactions_aggregate ct (txpool t) None with
            | Err x => Some (Err x, t)
            | Ok txpool_tx =>
                let! r := validate_raw_txs ct (map pe_tx all_entries) txpool_tx header NoLimit [] in
                match r with
                | Err x => Some (Err x, t)
                | Ok fluffable_txs =>
                    match (let? agg_tx := map_err pool_error (aggregate fluffable_txs) in
                           map_err pool_error (tx_validate ct agg_tx AsTransaction) ;? Ok agg_tx) with
                    | Err x => Some (Err x, t)
                    | Ok agg_tx => tp_add_to_pool ct (PA := PoolToNetAdapter e) fee_base t now Fluff agg_tx false header
                    end
                end
            end
        end
  end.

(** Every expired entry is tried; what comes of it is only logged. *)
Fixpoint fluff_expired (e : DandelionEpoch) (now : Z) (header : BlockHeader) (l : list PoolEntry) (t : TransactionPool)
    : option TransactionPool :=
  match l with
  | [] => Some t
  | entry :: l =>
      let! (_, t) := tp_add_to_pool ct (PA := PoolToNetAdapter e) fee_base t now EmbargoExpired (pe_tx entry) false header in
      fluff_expired e now header l t
  end.

(** [jitter] is drawn from the numbers below 31. *)
Definition process_expired_entries (e : DandelionEpoch) (now jitter : Z) (t : TransactionPool) : MP :=
  let embargo_secs := wrap 16 (embargo_secs (dandelion_config e) + jitter) in
  let expired_entries := select_txs_cutoff now (stempool t) embargo_secs in
  match expired_entries with
  | [] => Some (Ok tt, t)
  | _ =>
      let! h := tp_chain_head in
      match h with
      | Err x => Some (Err x, t)
      | Ok header => let! t := fluff_expired e now header expired_entries t in Some (Ok tt, t)
      end
  end.

(** One round of the monitor. *)
Definition monitor_transactions (now jitter dice : Z) (e : DandelionEpoch) (t : TransactionPool)
    : option (DandelionEpoch * TransactionPool) :=
  let! t := (if negb (is_stem e) then let! (_, t) := process_fluff_phase e now t in Some t else Some t) in
  let! (_, t) := process_expired_entries e now jitter t in
  Some (if is_expired now e then next_epoch now dice e else e, t).
End dandelion.
