(* ===== verification/TransactionPoolSpec.v ===== *)
(** What the two pools of a node promise.

    The frame of every operation, the size of the pools, and the soundness of the
    public and the private pool together. [pool_steps] is the life of a pool. *)

From Stdlib Require Import ZArith Lia.
From stdpp Require Import base numbers option sorting gmap list.
From S2P Require Import Prelude Ser Consensus Kernel CutThrough Transaction PowTypes Block BlockSpec ChainTypes Pool PoolSpec TransactionPool.
Open Scope Z_scope.

#[local] Arguments pbind : simpl never.

(** Everything but the private pool is the same. *)
Definition public_same (t t' : TransactionPool) : Prop :=
  config t' = config t /\ txpool t' = txpool t /\ reorg_cache t' = reorg_cache t /\ tx_accepted t' = tx_accepted t.

Section transaction_pool.
Context {CR : Crypto} {SU : SortUnstable} {NF : NrdFlag} {SH : SipHasher} (ct : ChainTypes).
Context {BC : BlockChain} {PA : PoolAdapter} (fee_base : Z).

(** ** Into the public pool *)

(** The aggregate of a pool that was just extended is valid. *)
Lemma extended_aggregate p e h : joint ct NoLimit h (all_transactions p ++ [pe_tx e]) ->
  exists agg, all_transactions_aggregate ct (mkPool (entries p ++ [e])) None = Ok (Some agg).
Proof.
  intros (agg & sums & Ea & Hv). apply validate_raw_tx_parts in Hv as [Hv _]. exists agg.
  unfold all_transactions_aggregate, all_transactions. cbn [entries]. rewrite map_app. simpl (map pe_tx [e]).
  destruct (map pe_tx (entries p) ++ [pe_tx e]) as [|x l] eqn:E; [by destruct (map pe_tx (entries p))|].
  rewrite <- E. cbn [option_list]. rewrite app_nil_r. unfold all_transactions in Ea. rewrite Ea. cbn [map_err rbind].
  by rewrite Hv.
Qed.

Lemma add_to_txpool_spec t e h r t' : add_to_txpool ct t e h = Some (r, t') ->
  match r with
  | Err _ => t' = t
  | Ok _ =>
      config t' = config t /\ reorg_cache t' = reorg_cache t /\ tx_accepted t' = tx_accepted t /\
      add_to_pool ct (txpool t) e None h = Some (Ok (txpool t')) /\
      entries (txpool t') = entries (txpool t) ++ [e] /\
      exists agg, all_transactions_aggregate ct (txpool t') None = Ok (Some agg) /\
        reconcile ct (stempool t) (Some agg) h = Some (stempool t')
  end.
Proof.
  unfold add_to_txpool. intros H. step_in H a Ea. destruct a as [p|]; [|by injection H as <- <-].
  pose proof Ea as (_ & -> & Hj)%add_to_pool_Ok. cbn [option_list app] in Hj.
  apply extended_aggregate in Hj as [agg Eg]. cbn [txpool set_txpool] in H. rewrite Eg in H.
  step_in H s Es. injection H as <- <-. split_and!; eauto.
Qed.

Lemma evict_from_txpool_spec t t' : evict_from_txpool ct t = Some t' ->
  t' = set_txpool (txpool t') t /\ evict_transaction ct (txpool t) = Some (txpool t').
Proof. unfold evict_from_txpool. intros H. step_in H p Ep. by injection H as <-. Qed.

Lemma fluff_spec t e evict h r t' : fluff ct t e evict h = Some (r, t') ->
  match r with
  | Err _ => t' = t
  | Ok _ => exists t1, add_to_txpool ct t e h = Some (Ok tt, t1) /\
      config t' = config t /\ reorg_cache t' = reorg_cache (add_to_reorg_cache e t) /\
      tx_accepted t' = tx_accepted t ++ [e] /\ stempool t' = stempool t1 /\
      if evict then evict_transaction ct (txpool t1) = Some (txpool t') else txpool t' = txpool t1
  end.
Proof.
  unfold fluff. intros H. step_in H a Ea. destruct a as [a t1]. pose proof Ea as Hs%add_to_txpool_spec.
  destruct a as [[]|]; [|by injection H as <- <-]. destruct Hs as (Hc & Hr & Hl & _). destruct evict.
  - step_in H t2 E2. injection H as <- <-. apply evict_from_txpool_spec in E2 as [E2 Ee]. rewrite E2.
    exists t1. unfold add_to_reorg_cache. simpl. by rewrite Hc, Hr, Hl.
  - injection H as <- <-. exists t1. unfold add_to_reorg_cache. simpl. by rewrite Hc, Hr, Hl.
Qed.

(** ** Checks *)

(** What is known of a transaction that passed the checks. *)
Lemma check_tx_spec t now src tx stem h e extra evict :
  check_tx ct fee_base t now src tx stem h = Some (Ok (e, extra, evict)) ->
  exists tx0, (stem = true -> tx0 = tx) /\ kernels (Transaction.body (pe_tx e)) = kernels (Transaction.body tx0) /\
    evict = negb stem && (max_pool_size (config t) <? total_size t) /\
    (evict = false -> is_acceptable fee_base t tx0 stem = Ok tt) /\
    (if stem then all_transactions_aggregate ct (txpool t) None = Ok extra
     else extra = None /\ exists e0, deaggregate_tx t now (mkEntry src now tx) = Ok e0 /\ tx0 = pe_tx e0).
Proof.
  unfold check_tx. intros H. step_in H e0 E0. cbv zeta in H. step_in H u1 E1. step_in H ev Eev. step_in H u2 E2.
  step_in H u3 E3. step_in H xt Ext. step_in H sp Esp. destruct sp as [spent_pool spent_utxo]. step_in H u4 E4.
  step_in H e1 Ee. injection H as -> -> ->. exists (pe_tx e0).
  split. { intros ->. injection E0 as <-. done. }
  split. { injection Ee as Ee. unfold convert_tx_v2 in Ee. cbv zeta in Ee. apply rbind_Ok in Ee as ([] & _ & Ee). by injection Ee as <-. }
  assert (Ha : is_acceptable fee_base t (pe_tx e0) stem = Err OverCapacity /\ negb stem = true /\ evict = true \/
               is_acceptable fee_base t (pe_tx e0) stem = Ok tt /\ evict = false).
  { destruct (is_acceptable _ _ _ _) as [[]|x]; [right; by injection Eev as <-|left].
    destruct x; try done. destruct stem; [done|]. by injection Eev as <-. }
  split_and!.
  - unfold is_acceptable in Ha. destruct (Z.ltb_spec (max_pool_size (config t)) (total_size t)) as [Hl|Hl].
    + destruct Ha as [(_ & -> & ->)|[? _]]; done.
    + rewrite andb_false_r. destruct Ha as [(Ha & Hs & ->)|[_ ->]]; [|done]. destruct stem; [done|].
      simpl in Ha. destruct (_ <? _); done.
  - destruct Ha as [(_ & _ & ->)|[Ha _]]; done.
  - destruct stem; injection Ext as Ext; [done|]. split; [done|]. injection E0 as E0. by exists e0.
Qed.

(** ** Adding a transaction *)

Definition full (t : TransactionPool) : bool := max_pool_size (config t) <? total_size t.

(** What can come of a transaction: refused, kept private, made public, or made
    public because it could not be relayed. *)
Inductive added (t : TransactionPool) (tx : Transaction) (stem : bool) (h : BlockHeader)
    : result PoolError unit -> TransactionPool -> Prop :=
| added_refused e : added t tx stem h (Err e) t
| added_stem e agg p : stem = true -> contains_tx (stempool t) tx = false ->
    kernels (Transaction.body (pe_tx e)) = kernels (Transaction.body tx) ->
    is_acceptable fee_base t tx true = Ok tt -> all_transactions_aggregate ct (txpool t) None = Ok agg ->
    add_to_pool ct (stempool t) e agg h = Some (Ok p) -> stem_tx_accepted e = true ->
    added t tx stem h (Ok tt) (set_stempool p t)
| added_fluff e r t' : (stem = true -> contains_tx (stempool t) tx = true) ->
    (exists now src e0, deaggregate_tx t now (mkEntry src now tx) = Ok e0 /\
       kernels (Transaction.body (pe_tx e)) = kernels (Transaction.body (pe_tx e0))) ->
    fluff ct t e (full t) h = Some (r, t') -> added t tx stem h r t'
| added_fallback e agg p r t' : stem = true -> contains_tx (stempool t) tx = false ->
    kernels (Transaction.body (pe_tx e)) = kernels (Transaction.body tx) ->
    is_acceptable fee_base t tx true = Ok tt -> all_transactions_aggregate ct (txpool t) None = Ok agg ->
    add_to_pool ct (stempool t) e agg h = Some (Ok p) -> stem_tx_accepted e = false ->
    fluff ct (set_stempool p t) e false h = Some (r, t') -> added t tx stem h r t'.

Lemma tp_add_spec t now src tx stem h r t' :
  tp_add_to_pool ct fee_base t now src tx stem h = Some (r, t') -> added t tx stem h r t'.
Proof.
  unfold tp_add_to_pool. cbv zeta. destruct (contains_tx (txpool t) tx); [intros [= <- <-]; constructor|].
  destruct (stem && negb (contains_tx (stempool t) tx)) eqn:Es; unfold add_checked; intros H; step_in H c Ec;
    (destruct c as [[[e extra] evict]|]; [|injection H as <- <-; constructor]);
    apply check_tx_spec in Ec as (tx0 & E0 & Ek & -> & Ha & Hx).
  - apply andb_true_iff in Es as [-> Hc]. apply negb_true_iff in Hc. rewrite E0 in Ek, Ha by done.
    cbn [negb andb] in H, Ha. specialize (Ha eq_refl). unfold add_to_stempool in H.
    step_in H b Eb. destruct b as [b t1]. step_in Eb q Eadd. destruct q as [p|].
    + injection Eb as <- <-. destruct (stem_tx_accepted e) eqn:Eacc.
      * injection H as <- <-. by eapply added_stem.
      * by eapply added_fallback.
    + injection Eb as <- <-. injection H as <- <-. constructor.
  - cbn [negb andb] in H. destruct Hx as (_ & e0 & Ed & ->).
    apply (added_fluff _ _ _ _ e); [|by exists now, src, e0|done]. intros ->. simpl in Es. by apply negb_false_iff in Es.
Qed.

Lemma acceptable_room t tx : is_acceptable fee_base t tx true = Ok tt ->
  total_size t <= max_pool_size (config t) /\ pool_size (stempool t) <= max_stempool_size (config t).
Proof.
  unfold is_acceptable. destruct (Z.ltb_spec (max_pool_size (config t)) (total_size t)); [done|].
  destruct (Z.ltb_spec (max_stempool_size (config t)) (pool_size (stempool t))); [done|]. intros _. lia.
Qed.

(** ** Sizes *)

Lemma add_size p e extra h p' : add_to_pool ct p e extra h = Some (Ok p') -> pool_size p' = pool_size p + 1.
Proof. intros (_ & -> & _)%add_to_pool_Ok. unfold pool_size. cbn [entries]. rewrite length_app. simpl. lia. Qed.

Lemma reconcile_size p extra h p' : reconcile ct p extra h = Some p' -> pool_size p' <= pool_size p.
Proof. intros [_ Hs]%reconcile_spec. apply sublist_length in Hs. unfold pool_size. lia. Qed.

Lemma reconcile_block_size p b : pool_size (pool_reconcile_block p b) <= pool_size p.
Proof. unfold pool_size, pool_reconcile_block. cbn [entries]. pose proof (length_filter (fun x =>
    negb (existsb (fun y => contains hash_key (kernels (Block.body b)) y) (kernels (Transaction.body (pe_tx x)))) &&
    negb (existsb (fun y => contains hash_key (inputs_to_wrappers (inputs (Block.body b))) y) (inputs_to_wrappers (inputs (Transaction.body (pe_tx x))))) = true) (entries p)). lia. Qed.

Lemma evict_size p p' : evict_transaction ct p = Some p' ->
  pool_size p' <= pool_size p /\ (0 < pool_size p -> pool_size p' < pool_size p).
Proof.
  intros [Hs Hl]%evict_spec. apply sublist_length in Hs. unfold pool_size. split; [lia|]. intros Hp.
  assert (entries p <> []) by (intros E; rewrite E in Hp; simpl in Hp; lia). apply Hl in H. lia.
Qed.

Lemma cache_size e t : 0 <= max_pool_size (config t) -> Z.of_nat (length (reorg_cache t)) <= max_pool_size (config t) ->
  Z.of_nat (length (reorg_cache (add_to_reorg_cache e t))) <= max_pool_size (config t).
Proof.
  unfold add_to_reorg_cache. cbv zeta. cbn [reorg_cache set_reorg_cache]. intros H0 Hl.
  destruct (Z.ltb_spec (max_pool_size (config t)) (Z.of_nat (length (reorg_cache t ++ [e])))); [|lia].
  rewrite length_app in *. simpl in *. destruct (reorg_cache t ++ [e]) as [|x l] eqn:E; [by destruct (reorg_cache t)|].
  apply (f_equal length) in E. rewrite length_app in E. simpl in *. lia.
Qed.

(** How one operation changes the sizes: [n] entries at most are added to a
    public pool that has room, the private pool and the cache stay within theirs. *)
Definition within (n : Z) (t t' : TransactionPool) : Prop :=
  config t' = config t /\ total_size t' <= Z.max (total_size t + n) (max_pool_size (config t) + 1) /\
  pool_size (stempool t') <= Z.max (pool_size (stempool t)) (max_stempool_size (config t) + 1) /\
  (0 <= max_pool_size (config t) -> Z.of_nat (length (reorg_cache t)) <= max_pool_size (config t) ->
   Z.of_nat (length (reorg_cache t')) <= max_pool_size (config t)).

Lemma within_refl n t : 0 <= n -> within n t t.
Proof. intros. split_and!; [done|lia|lia|done]. Qed.

Lemma fluff_within t e evict h r t' : fluff ct t e evict h = Some (r, t') ->
  (evict = false -> total_size t <= max_pool_size (config t)) -> within 0 t t'.
Proof.
  intros Hs%fluff_spec Hr. destruct r as [[]|]; [|subst; by apply within_refl].
  destruct Hs as (t1 & Ha & Hc & Hch & _ & Hst & He).
  apply add_to_txpool_spec in Ha as (_ & _ & _ & Ha & _ & agg & _ & Hrec). apply add_size in Ha.
  apply reconcile_size in Hrec. split; [done|]. split; [|split].
  - unfold total_size in *. destruct evict.
    + apply evict_size in He as [_ He]. unfold pool_size in *. lia.
    + rewrite He. specialize (Hr eq_refl). lia.
  - rewrite Hst. lia.
  - rewrite Hch. intros. by apply cache_size.
Qed.

Lemma add_within t now src tx stem h r t' :
  tp_add_to_pool ct fee_base t now src tx stem h = Some (r, t') -> within 0 t t'.
Proof.
  intros H. apply tp_add_spec in H. destruct H as [e|e agg p _ _ _ Hr _ Ha _|e r t' _ _ Hf|e agg p r t' _ _ _ Hr _ Ha _ Hf].
  - by apply within_refl.
  - apply acceptable_room in Hr as [Hr1 Hr2]. apply add_size in Ha. unfold within, total_size in *. cbn [config txpool stempool reorg_cache set_stempool]. split_and!; [done|lia|lia|done].
  - eapply fluff_within; [exact Hf|]. unfold full. intros E. apply Z.ltb_ge in E. done.
  - apply acceptable_room in Hr as [Hr1 Hr2]. apply add_size in Ha. apply fluff_within in Hf; [|done].
    destruct Hf as (Hc & Ht & Hs & Hch). simpl in *. split_and!; [done|done|lia|done].
Qed.

Lemma reconcile_block_within t b r t' : tp_reconcile_block ct t b = Some (r, t') ->
  within 0 t t' /\ reorg_cache t' = reorg_cache t.
Proof.
  unfold tp_reconcile_block. cbv zeta. intros H. step_in H p Ep. apply reconcile_size in Ep. cbn [txpool set_txpool] in Ep.
  pose proof (reconcile_block_size (txpool t) b) as H1. pose proof (reconcile_block_size (stempool t) b) as H2.
  unfold within, total_size. destruct (all_transactions_aggregate _ _ _) as [agg|].
  - step_in H s Es. apply reconcile_size in Es. injection H as <- <-. simpl in *. split_and!; [done|lia|lia|done|done].
  - injection H as <- <-. simpl in *. split_and!; [done|lia|lia|done|done].
Qed.

Lemma reconcile_entries_within l t h r t' : reconcile_entries ct l t h = Some (r, t') ->
  within (Z.of_nat (length l)) t t' /\ reorg_cache t' = reorg_cache t.
Proof.
  revert t. induction l as [|x l IH]; intros t; cbn [reconcile_entries].
  { intros [= <- <-]. split; [by apply within_refl|done]. }
  intros H. step_in H a Ea. destruct a as [a t1]. apply add_to_txpool_spec in Ea.
  apply IH in H as [(Hc & Ht & Hs & Hch) Er]. cbn [length].
  destruct a as [[]|]; [|subst; unfold within; split_and!; [done|lia|done|done|done]].
  destruct Ea as (Ec & Ech & _ & Ha & _ & agg & _ & Hrec). apply add_size in Ha. apply reconcile_size in Hrec.
  rewrite Ec, Ech in *. unfold within, total_size in *. split_and!; [done|lia|lia|done|done].
Qed.

(** The life of a pool; the number counts the reorganisations. *)
Inductive pool_step : nat -> TransactionPool -> TransactionPool -> Prop :=
| step_add t now src tx stem h r t' :
    tp_add_to_pool ct fee_base t now src tx stem h = Some (r, t') -> pool_step 0 t t'
| step_block t b r t' : tp_reconcile_block ct t b = Some (r, t') -> pool_step 0 t t'
| step_truncate t cutoff : pool_step 0 t (truncate_reorg_cache cutoff t)
| step_reorg t h r t' : reconcile_reorg_cache ct t h = Some (r, t') -> pool_step 1 t t'.

Inductive reaches (c : PoolConfig) : nat -> TransactionPool -> Prop :=
| reaches_new : reaches c 0 (tp_new c)
| reaches_step n k t t' : reaches c n t -> pool_step k t t' -> reaches c (n + k) t'.

Lemma drop_before_length cutoff l : (length (drop_before cutoff l) <= length l)%nat.
Proof. induction l as [|x l IH]; simpl; [lia|]. destruct (_ <? _); simpl; lia. Qed.

Lemma step_within k t t' : pool_step k t t' ->
  within (Z.of_nat k * Z.of_nat (length (reorg_cache t))) t t'.
Proof.
  intros [t0 now src tx stem h r t1 H|t0 b r t1 H|t0 cutoff|t0 h r t1 H].
  - by apply add_within in H.
  - by apply reconcile_block_within in H as [H _].
  - unfold within, total_size. cbn [truncate_reorg_cache config txpool stempool reorg_cache set_reorg_cache]. pose proof (drop_before_length cutoff (reorg_cache t0)). split_and!; [done|lia|lia|lia].
  - apply reconcile_entries_within in H as [H _]. by rewrite Z.mul_1_l.
Qed.

(** After the public pool was reconciled, its aggregate is valid. *)
Lemma reconciled_aggregate h p : Joint ct None h (entries p) ->
  exists agg, all_transactions_aggregate ct p None = Ok agg.
Proof.
  intros H. inversion H as [E|l e Hl Hd Hj E].
  - exists None. unfold all_transactions_aggregate, all_transactions. by rewrite <- E.
  - destruct (extended_aggregate (mkPool l) e h) as [agg Ea]; [exact Hj|].
    exists (Some agg). rewrite <- Ea. cbn [entries]. rewrite E. by destruct p.
Qed.

Lemma reconcile_block_ok t b r t' : tp_reconcile_block ct t b = Some (r, t') -> r = Ok tt.
Proof.
  unfold tp_reconcile_block. cbv zeta. intros H. step_in H p Ep. cbn [txpool set_txpool stempool set_stempool] in H.
  apply reconcile_spec in Ep as [Hp _]. apply reconciled_aggregate in Hp as [agg Ea]. rewrite Ea in H.
  step_in H s Es. by injection H as <- _.
Qed.

(** ** Soundness *)

Section laws.
Context {CL : ChainLaws}.

Definition both_sound (t : TransactionPool) : Prop :=
  Sound (all_transactions (stempool t) ++ all_transactions (txpool t)).

Lemma add_to_txpool_sound t e h t' : add_to_txpool ct t e h = Some (Ok tt, t') -> both_sound t'.
Proof.
  intros (_ & _ & _ & Ha & Ee & agg & Eg & Hr)%add_to_txpool_spec. apply reconcile_spec in Hr as [Hr _].
  eapply stem_sound; [|exact Eg|exact Hr]. right. apply add_to_pool_Ok in Ha as (_ & _ & Hj).
  unfold all_transactions in *. rewrite Ee, map_app. by eapply joint_sound.
Qed.

Lemma fluff_sound t e h t' : fluff ct t e false h = Some (Ok tt, t') -> both_sound t'.
Proof.
  intros (t1 & Ha & _ & _ & _ & Hs & Ht)%fluff_spec. apply add_to_txpool_sound in Ha.
  unfold both_sound. by rewrite Hs, Ht.
Qed.

Lemma add_sound t now src tx stem h t' : tp_add_to_pool ct fee_base t now src tx stem h = Some (Ok tt, t') ->
  full t = false -> both_sound t'.
Proof.
  intros H Hf. apply tp_add_spec in H.
  inversion H as [|e agg p _ _ _ _ Ha Hadd _ E1 E2|e r t1 _ _ Hfl E1 E2|e agg p r t1 _ _ _ _ _ _ _ Hfl E1 E2]; subst.
  - apply add_to_pool_Ok in Hadd as (_ & -> & Hj). unfold both_sound. simpl. by eapply added_sound.
  - rewrite Hf in Hfl. by eapply fluff_sound.
  - by eapply fluff_sound.
Qed.

Lemma reconcile_block_sound t b t' : tp_reconcile_block ct t b = Some (Ok tt, t') ->
  both_sound t' /\ entries (txpool t') `sublist_of` entries (pool_reconcile_block (txpool t) b) /\
  entries (stempool t') `sublist_of` entries (pool_reconcile_block (stempool t) b).
Proof.
  unfold tp_reconcile_block. cbv zeta. intros H. step_in H p Ep. cbn [txpool set_txpool stempool set_stempool] in H.
  destruct (all_transactions_aggregate ct p None) as [agg|] eqn:Ea; [|done]. step_in H s Es. injection H as <-.
  cbn [txpool set_txpool stempool set_stempool] in *. apply reconcile_spec in Ep as [Hp Hps], Es as [Hs Hss].
  split; [|done]. eapply stem_sound; [by eapply Joint_None_sound|exact Ea|exact Hs].
Qed.
Lemma reconcile_entries_sound l t h r t' :
  reconcile_entries ct l t h = Some (r, t') -> both_sound t -> both_sound t'.
Proof.
  revert t. induction l as [|x l IH]; intros t; cbn [reconcile_entries]; [by intros [= _ <-]|].
  intros H Ht. step_in H a Ea. destruct a as [a t1]. apply IH in H; [done|].
  destruct a as [[]|e]; [by eapply add_to_txpool_sound|]. by apply add_to_txpool_spec in Ea as ->.
Qed.

(** Whatever comes of an addition, unless it was accepted by a full pool. *)
Lemma add_keeps_sound t now src tx stem h r t' : tp_add_to_pool ct fee_base t now src tx stem h = Some (r, t') ->
  r <> Ok tt \/ full t = false -> both_sound t -> both_sound t'.
Proof.
  intros H Hr Ht. destruct r as [[]|e]; [destruct Hr as [?|Hr]; [done|]; by eapply add_sound|].
  apply tp_add_spec in H.
  inversion H as [e0 E1 E2|e0 agg p _ _ _ _ _ _ _ E1 E2|e0 r t1 _ _ Hf E1 E2|e0 agg p r t1 _ _ _ _ Hg Ha _ Hf E1 E2]; subst; [done| |].
  - by apply fluff_spec in Hf as ->.
  - apply fluff_spec in Hf as ->. apply add_to_pool_Ok in Ha as (_ & -> & Hj). unfold both_sound. simpl. by eapply added_sound.
Qed.

End laws.

(** ** Making public *)

Lemma difference_spec {A} (key : A -> Z) mk l x :
  x ∈ mk -> key x ∈ map key l \/ key x ∈ map key (difference key mk l).
Proof.
  unfold difference. set (f := fun acc x => if negb (contains key l x) && negb (contains key acc x) then acc ++ [x] else acc).
  assert (Hacc : forall (mk acc : list A) y, key y ∈ map key acc -> key y ∈ map key (fold_left f mk acc)).
  { induction mk0 as [|z mk0 IH]; intros acc y Hy; simpl; [done|]. apply IH. unfold f.
    destruct (_ && _); [|done]. rewrite map_app. apply elem_of_app. by left. }
  assert (G : forall acc, x ∈ mk -> key x ∈ map key l \/ key x ∈ map key (fold_left f mk acc)); [|exact (G [])].
  induction mk as [|z mk IH]; intros acc Hx; [by apply elem_of_nil in Hx|]. simpl.
  apply elem_of_cons in Hx as [->|Hx]; [|by apply IH].
  destruct (contains key l z) eqn:El; [left; by apply contains_in|]. right. apply Hacc. unfold f. rewrite El.
  destruct (contains key acc z) eqn:Ea; simpl; [by apply contains_in|].
  rewrite map_app. apply elem_of_app. right. by left.
Qed.

(** No kernel is lost in taking apart a transaction. *)
Lemma deaggregate_kernels mk txs tx k : deaggregate mk txs = Ok tx -> k ∈ kernels (Transaction.body mk) ->
  hash_key k ∈ map hash_key (all_kernels txs) \/ hash_key k ∈ map hash_key (kernels (Transaction.body tx)).
Proof.
  unfold deaggregate. cbv zeta. intros H Hk. apply rbind_Ok in H as (agg & (_ & Hp & _)%aggregate_balance & H).
  apply rbind_Ok in H as (o & _ & H). injection H as <-.
  destruct (difference_spec hash_key _ (kernels (Transaction.body agg)) k Hk) as [Hin|Hin]; [left; by rewrite <- Hp|right].
  unfold tx_new, with_offset. cbn [Transaction.body body_sort kernels]. by rewrite !sort_perm.
Qed.

Lemma deaggregate_tx_kernels t now e e' k : deaggregate_tx t now e = Ok e' -> k ∈ kernels (Transaction.body (pe_tx e)) ->
  hash_key k ∈ map hash_key (all_kernels (all_transactions (txpool t))) \/
  hash_key k ∈ map hash_key (kernels (Transaction.body (pe_tx e'))).
Proof.
  unfold deaggregate_tx. cbv zeta. intros H Hk. destruct (1 <? _)%nat; [|injection H as <-; right; apply elem_of_map; eauto].
  destruct (find_matching_transactions _ _) as [|x l] eqn:Ef; [injection H as <-; right; apply elem_of_map; eauto|].
  apply rbind_Ok in H as (tx & Ed & H). injection H as <-. apply map_err_Ok in Ed.
  eapply deaggregate_kernels in Ed as [Hin|Hin]; [left|by right|exact Hk].
  rewrite <- Ef in Hin. unfold all_kernels, find_matching_transactions in *. apply elem_of_map in Hin as (y & Ey & Hy).
  apply elem_of_map. exists y. split; [done|]. apply elem_of_concat in Hy as (ks & Hy & Hks).
  apply elem_of_concat. exists ks. split; [done|]. apply elem_of_map in Hks as (z & -> & Hz).
  apply list_elem_of_filter in Hz as [_ Hz]. apply elem_of_map; eauto.
Qed.

(** A transaction that was accepted by a pool with room is public, and no longer
    private. *)
Lemma add_publishes {CL : ChainLaws} t now src tx h t' :
  tp_add_to_pool ct fee_base t now src tx false h = Some (Ok tt, t') -> full t = false ->
  forall k, k ∈ kernels (Transaction.body tx) ->
    hash_key k ∈ map hash_key (all_kernels (all_transactions (txpool t'))) /\
    ~ hash_key k ∈ map hash_key (all_kernels (all_transactions (stempool t'))).
Proof.
  intros H Hf k Hk. pose proof (add_sound _ _ _ _ _ _ _ H Hf) as (Hnd & _ & _).
  assert (Hp : hash_key k ∈ map hash_key (all_kernels (all_transactions (txpool t')))).
  { apply tp_add_spec in H.
    inversion H as [|e agg p Hst|e r t1 _ (now' & src' & e0 & Ed & Ek) Hfl E1 E2|e agg p r t1 Hst]; subst; [done| |done].
    rewrite Hf in Hfl. apply fluff_spec in Hfl as (t1 & Ha & _ & _ & _ & _ & Et).
    apply add_to_txpool_spec in Ha as (_ & _ & _ & _ & Ee & _).
    assert (Epool : all_kernels (all_transactions (txpool t')) =
      all_kernels (all_transactions (txpool t)) ++ kernels (Transaction.body (pe_tx e))).
    { unfold all_transactions, all_kernels. rewrite Et, Ee, !map_app, concat_app. simpl. by rewrite app_nil_r. }
    rewrite Epool, map_app, elem_of_app, Ek. by eapply deaggregate_tx_kernels in Ed. }
  split; [done|]. unfold all_kernels in *. rewrite !map_app, concat_app, map_app in Hnd.
  apply NoDup_app in Hnd as (_ & Hd & _). intros Hs. by apply (Hd _ Hs).
Qed.

(** ** A block arrives *)

Lemma block_disjoint p b : Forall (fun x =>
    (forall k, k ∈ kernels (Transaction.body (pe_tx x)) -> ~ hash_key k ∈ map hash_key (kernels (Block.body b))) /\
    (forall i, i ∈ inputs_to_wrappers (inputs (Transaction.body (pe_tx x))) ->
       ~ hash_key i ∈ map hash_key (inputs_to_wrappers (inputs (Block.body b)))))
  (entries (pool_reconcile_block p b)).
Proof.
  apply Forall_forall. intros x [Hf _]%list_elem_of_filter. apply andb_true_iff in Hf as [Hk Hi].
  apply negb_true_iff, existsb_Forall in Hk, Hi. rewrite Forall_forall in Hk. rewrite Forall_forall in Hi.
  split; intros y Hy; rewrite <- contains_in; [specialize (Hk y Hy)|specialize (Hi y Hy)]; congruence.
Qed.

Lemma Forall_sublist {A} (P : A -> Prop) l k : l `sublist_of` k -> Forall P k -> Forall P l.
Proof. rewrite !Forall_forall. intros Hs H x Hx. apply H. by eapply elem_of_sublist. Qed.

(** * Properties *)

(** C8. The two pools are sound together: no kernel occurs twice in the private
    and the public pool, no kernel is a coinbase, and for every commitment what
    their transactions create and spend differs by one at most, by one spend only
    if the commitment is unspent in the chain and by one creation only if it is
    not. The empty pools are sound. An addition keeps the pools sound, whatever
    comes of it, unless a full pool accepts it, which evicts without looking at the
    rest; if it is accepted while there is room they are sound even if they were
    not before. A block never fails to be taken in, makes the pools sound whatever
    they were, and no transaction left in a pool shares a kernel or an input with
    it. What comes back after a reorganisation, and forgetting what is too old to
    come back, keep them sound. *)
Theorem pools_sound {CL : ChainLaws} t t' :
  (forall c, both_sound (tp_new c)) /\
  (forall now src tx stem h r, tp_add_to_pool ct fee_base t now src tx stem h = Some (r, t') ->
     (r <> Ok tt \/ full t = false -> both_sound t -> both_sound t') /\
     (r = Ok tt -> full t = false -> both_sound t')) /\
  (forall b r, tp_reconcile_block ct t b = Some (r, t') ->
     r = Ok tt /\ both_sound t' /\
     Forall (fun x =>
       (forall k, k ∈ kernels (Transaction.body (pe_tx x)) -> ~ hash_key k ∈ map hash_key (kernels (Block.body b))) /\
       (forall i, i ∈ inputs_to_wrappers (inputs (Transaction.body (pe_tx x))) ->
          ~ hash_key i ∈ map hash_key (inputs_to_wrappers (inputs (Block.body b)))))
       (entries (stempool t') ++ entries (txpool t'))) /\
  (forall h r, reconcile_reorg_cache ct t h = Some (r, t') -> both_sound t -> both_sound t') /\
  (forall cutoff, both_sound t -> both_sound (truncate_reorg_cache cutoff t)).
Proof.
  split_and!.
  - intros c. apply Sound_nil.
  - intros now src tx stem h r H. split; [by eapply add_keeps_sound|]. intros ->. by eapply add_sound.
  - intros b r H. pose proof (reconcile_block_ok _ _ _ _ H) as ->. apply reconcile_block_sound in H as (Hs & Ht & Hst).
    split; [done|]. split; [done|]. apply Forall_app. split; eapply Forall_sublist; [exact Hst| |exact Ht|]; apply block_disjoint.
  - intros h r. apply reconcile_entries_sound.
  - done.
Qed.

(** C9. What a miner gets can be mined: the transactions are some of those in
    the public pool, none more often than there; if there are any, their aggregate
    has no coinbase, obeys all rules of a body within the weight that is
    configured less that of a coinbase, and they are sound on top of the chain:
    no kernel twice, nothing spent twice or out of nothing. *)
Theorem mineable_sound {CL : ChainLaws} t txs : prepare_mineable_transactions ct t = Some (Ok txs) ->
  txs ⊆+ all_transactions (txpool t) /\ Sound txs /\
  (txs = [] \/ exists agg, aggregate txs = Ok agg /\ no_coinbase (Transaction.body agg) /\
     body_valid ct (Transaction.body agg) (AsLimitedTransaction (mineable_max_weight (config t)))).
Proof.
  unfold prepare_mineable_transactions, prepare_mineable. cbv zeta. intros H. step_in H l El. step_in H h Eh.
  apply bucket_transactions_spec in El as [El _]. apply validate_raw_txs_spec in H as [(k & -> & Hk) Hj].
  cbn [app option_list] in *. split; [etransitivity; [by apply sublist_submseteq|done]|].
  destruct (Hj (or_introl eq_refl)) as [-> |Hv]; [split; [apply Sound_nil|by left]|].
  split; [by eapply joint_sound|]. right. destruct Hv as (agg & sums & Ea & Hv). exists agg.
  apply validate_raw_tx_parts in Hv as [Hv _]. by apply tx_validate_parts in Hv.
Qed.

(** C11. A transaction that is stemmed stays private. If the private pool does not
    hold it yet and the adapter does not fail to relay it, then whatever comes of
    it the public pool, the cache for reorganisations and what was broadcast are the
    same; it enters the private pool if it is accepted, and changes nothing if it
    is refused. If the private pool holds it already, it has come back to the node
    and is treated as one that is to be made public. *)
Theorem stem_stays_private t now src tx h r t' :
  tp_add_to_pool ct fee_base t now src tx true h = Some (r, t') ->
  (contains_tx (stempool t) tx = true -> tp_add_to_pool ct fee_base t now src tx false h = Some (r, t')) /\
  (contains_tx (stempool t) tx = false ->
   (forall e, kernels (Transaction.body (pe_tx e)) = kernels (Transaction.body tx) -> stem_tx_accepted e = true) ->
   match r with
   | Ok _ => public_same t t' /\ exists e, entries (stempool t') = entries (stempool t) ++ [e] /\
       kernels (Transaction.body (pe_tx e)) = kernels (Transaction.body tx)
   | Err _ => t' = t
   end).
Proof.
  intros H. split; [intros Hc; revert H; unfold tp_add_to_pool; by rewrite Hc|]. intros Hc Hs. apply tp_add_spec in H.
  destruct H as [e|e agg p _ _ Hk _ _ Ha _|e r t' Hf _ _|e agg p r t' _ _ Hk _ _ _ Hf _].
  - done.
  - apply add_to_pool_Ok in Ha as (_ & -> & _). split; [done|]. by exists e.
  - specialize (Hf eq_refl). congruence.
  - rewrite Hs in Hf by done. done.
Qed.

(** An error leaves what others see alone: a transaction that is refused is
    not broadcast, not cached for a reorganisation, and the public pool is the
    same, although the last step is taken after it was extended; the private pool
    is the same too unless the transaction could not be relayed. *)
Theorem refused_leaves_public t now src tx stem h e t' :
  tp_add_to_pool ct fee_base t now src tx stem h = Some (Err e, t') ->
  public_same t t' /\
  (stempool t' = stempool t \/
   stem = true /\ exists x, stem_tx_accepted x = false /\ entries (stempool t') = entries (stempool t) ++ [x]).
Proof.
  intros H. apply tp_add_spec in H.
  inversion H as [e0 E1 E2|e0 agg p _ _ _ _ _ _ _ E1 E2|e0 r t1 _ _ Hf E1 E2|e0 agg p r t1 Hst _ _ _ _ Ha Hno Hf E1 E2]; subst.
  - split; [done|by left].
  - apply fluff_spec in Hf as ->. split; [done|by left].
  - apply fluff_spec in Hf as ->. apply add_to_pool_Ok in Ha as (_ & -> & _). split; [done|].
    right. split; [done|]. by exists e0.
Qed.

(** C13. The pools are bounded: in every state a node can bring them to, the
    private pool has at most one entry more than configured, the cache for
    reorganisations not more than configured, and the public pool one entry more
    than configured plus, for every reorganisation, the size of the cache, since
    transactions that come back are not subject to the limit. *)
Theorem pool_bounded c n t :
  0 <= max_pool_size c -> 0 <= max_stempool_size c -> reaches c n t ->
  config t = c /\ pool_size (stempool t) <= max_stempool_size c + 1 /\
  Z.of_nat (length (reorg_cache t)) <= max_pool_size c /\
  total_size t <= max_pool_size c + 1 + Z.of_nat n * max_pool_size c.
Proof.
  intros H0 H1. induction 1 as [|n k t t' _ (Hc & Hs & Hch & Ht) Hst].
  { unfold total_size, pool_size. simpl. split_and!; [done|lia|lia|lia]. }
  pose proof (step_within _ _ _ Hst) as (Hc' & Ht' & Hs' & Hch'). rewrite Hc in *.
  split; [done|]. split; [lia|]. split; [auto|].
  assert (Hk : (k <= 1)%nat) by (destruct Hst; lia). rewrite Nat2Z.inj_add. nia.
Qed.

(** C23. The order in which transactions are offered to a miner. If every
    transaction of the pool has a kernel, sorting them never panics. The buckets that
    the loop makes are numbered in the order in which the transactions they were
    made for arrived; each holds transactions of the pool in the order in which
    they arrived, with the fee rate of their aggregate. All of these buckets, and
    nothing else, are offered: higher rates first, and of equal rates the one whose
    first transaction arrived first. Nothing is offered more often than it is in the
    pool, and a transaction that spends nothing created in the pool is always
    offered. *)
Theorem mining_order p w :
  Forall has_kernel (all_transactions p) -> Z.of_nat (length (entries p)) < 2 ^ 64 ->
  exists s bs, bucket_loop ct w (mkSorting [] ∅ ∅) (all_transactions p) = Some s /\
    map age_idx (tx_buckets s) = seqZ 0 (Z.of_nat (length (tx_buckets s))) /\
    map first_tx (tx_buckets s) `sublist_of` all_transactions p /\
    Forall (bucket_ok (all_transactions p)) (tx_buckets s) /\
    bs ≡ₚ tx_buckets s /\ StronglySorted bucket_before bs /\
    bucket_transactions ct p w = Some (concat (map raw_txs bs)) /\
    concat (map raw_txs bs) ⊆+ all_transactions p /\
    (forall tx, tx ∈ all_transactions p -> independent (all_transactions p) tx -> tx ∈ concat (map raw_txs bs)) /\
    (entries p <> [] -> concat (map raw_txs bs) <> []).
Proof.
  intros Hk Hl. destruct (bucket_transactions_total ct p w Hk) as [txs Et].
  pose proof (bucket_transactions_spec _ _ _ _ Et) as [Hsub Hne].
  pose proof (bucket_transactions_made _ _ _ _ Et) as (s & Es & -> & Hp & [Ht Hok Ha _ Hf _ Hfree]).
  exists s, (sort_by_key bucket_key (tx_buckets s)). split_and!; try done; [apply sort_perm| |].
  - apply sort_buckets; [done|]. apply sublist_length in Hf. unfold all_transactions in Hf. rewrite !length_map in Hf. lia.
  - intros tx Hin Hi. rewrite Hp. by apply Hfree.
Qed.

(** Compact blocks find their transactions: if no two kernels of the pool
    have the same short id and the block does not list one twice, the pool reports
    as missing exactly the ids of which it has no kernel, and returns exactly the
    transactions that have a kernel with one of the ids, equal neighbours once. *)
Theorem compact_block_txs_found t block_hash nonce kern_ids txs missing :
  NoDup (map hash_key (map snd (pool_ids block_hash nonce (all_transactions (txpool t))))) ->
  NoDup (map hash_key kern_ids) ->
  tp_retrieve_transactions t block_hash nonce kern_ids = (txs, missing) ->
  let pool := pool_ids block_hash nonce (all_transactions (txpool t)) in
  txs = dedup_by tx_eqb (map fst (filter (fun x => contains hash_key kern_ids x.2 = true) pool)) /\
  forall id, id ∈ missing <-> id ∈ kern_ids /\ ~ hash_key id ∈ map hash_key (map snd pool).
Proof.
  unfold tp_retrieve_transactions, retrieve_transactions. intros Hp Hk.
  destruct (retrieve_loop _ _ _ _ _ _) as [l found] eqn:El.
  apply hits_all in El as [-> ->]; [|done..]. intros [= <- <-]. cbv zeta. split; [done|].
  intros id. rewrite list_elem_of_filter, <- not_true_iff_false, contains_in. unfold hits.
  rewrite !map_map, !elem_of_map. split; intros [H1 H2]; split; try done.
  - intros (x & E & Hx). apply H1. exists x. split; [done|]. apply list_elem_of_filter. split; [|done].
    unfold wanted. apply contains_in. rewrite <- E. apply elem_of_map. eauto.
  - intros (x & E & [_ Hx]%list_elem_of_filter). apply H2. eauto.
Qed.
End transaction_pool.
