(* ===== verification/DandelionSpec.v ===== *)
(** What Dandelion promises: a private transaction is held back during its
    embargo, and made public after it. *)

From Stdlib Require Import ZArith Lia.
From stdpp Require Import base numbers option sorting gmap list.
From S2P Require Import Prelude Ser Consensus Kernel CutThrough Transaction PowTypes Block BlockSpec ChainTypes Pool PoolSpec TransactionPool TransactionPoolSpec Dandelion.
Open Scope Z_scope.

Section dandelion.
Context {CR : Crypto} {SU : SortUnstable} {NF : NrdFlag} {SH : SipHasher} (ct : ChainTypes).
Context {BC : BlockChain} {PS : Peers} (fee_base : Z).

(** No entry of the pool is older. *)
Definition younger (now secs : Z) (p : Pool) : Prop :=
  Forall (fun x => seconds now - secs <= seconds (pe_at x)) (entries p).

Lemma younger_cutoff now secs p : younger now secs p -> select_txs_cutoff now p secs = [].
Proof.
  unfold younger, select_txs_cutoff. cbv zeta. induction 1 as [|x l Hx _ IH]; [done|].
  rewrite filter_cons_False by lia. done.
Qed.

Lemma younger_mono now a b p : a <= b -> younger now a p -> younger now b p.
Proof. intros Hab H. eapply Forall_impl; [exact H|]. intros x. cbv beta. lia. Qed.

(** The seconds that an entry is held back. *)
Lemma embargo_range e jitter : 0 <= jitter < 31 -> 0 <= embargo_secs (dandelion_config e) -> embargo_secs (dandelion_config e) + 30 < 2 ^ 16 ->
  wrap 16 (embargo_secs (dandelion_config e) + jitter) = embargo_secs (dandelion_config e) + jitter.
Proof. intros Hj H0 H1. unfold wrap. apply Z.mod_small. lia. Qed.

(** ** A round of additions *)

(** The public pool only grows, the private pool only shrinks. *)
Record grows (t t' : TransactionPool) : Prop := {
  gr_config : config t' = config t;
  gr_public : entries (txpool t) `prefix_of` entries (txpool t');
  gr_private : entries (stempool t') `sublist_of` entries (stempool t);
}.

#[local] Instance grows_preorder : PreOrder grows.
Proof.
  split; [by intros t|]. intros t1 t2 t3 [C1 P1 S1] [C2 P2 S2]. split; [congruence|by etransitivity|by etransitivity].
Qed.








(** * Properties *)

(** Private transactions are held back. While none of them is older than the
    embargo, whatever the random numbers, the monitor changes neither pool: in a
    stem epoch always, in a fluff epoch while it has not expired and none is older
    than the time to aggregate. Only the epoch may change, and only when it has
    expired. *)
Theorem stem_held_back now jitter dice e t :
  0 <= jitter < 31 -> 0 <= embargo_secs (dandelion_config e) -> embargo_secs (dandelion_config e) + 30 < 2 ^ 16 ->
  younger now (embargo_secs (dandelion_config e)) (stempool t) ->
  (is_stem e = true \/ is_expired now e = false /\ younger now (aggregation_secs (dandelion_config e)) (stempool t)) ->
  monitor_transactions ct fee_base now jitter dice e t = Some (if is_expired now e then next_epoch now dice e else e, t).
Proof.
  intros Hj H0 H1 Hy He. unfold monitor_transactions.
  assert (Hf : (if negb (is_stem e) then let! (_, t) := process_fluff_phase ct fee_base e now t in Some t else Some t) = Some t).
  { destruct (is_stem e); [done|]. destruct He as [?|[Hx Ha]]; [done|]. unfold process_fluff_phase. cbn [negb]. cbv zeta.
    destruct (entries (stempool t)); [done|]. rewrite Hx, (younger_cutoff _ _ _ Ha). done. }
  rewrite Hf. cbn [mbind option_bind]. unfold process_expired_entries. cbv zeta. rewrite (embargo_range e jitter Hj H0 H1).
  rewrite (younger_cutoff now _ (stempool t)) by (eapply younger_mono; [|exact Hy]; lia). done.
Qed.

End dandelion.
