(* ===== verification/PoolSample.v ===== *)
(** A sample pool: witnesses, and what the pools do not keep. *)

From Stdlib Require Import ZArith Lia.
From stdpp Require Import base numbers option sorting gmap list.
From S2P Require Import Prelude Ser Consensus Kernel CutThrough Transaction PowTypes Block BlockSpec Pedersen ChainTypes.
From S2P Require Import Pool PoolSpec TransactionPool TransactionPoolSpec Dandelion DandelionSpec.
Open Scope Z_scope.

Module PoolSample.
#[local] Existing Instance merge_sort_unstable.
#[local] Instance nrd_off : NrdFlag := false.
#[local] Instance sample_sip : SipHasher := fun k0 k1 bs => (k0 + 3 * k1 + be_value bs) mod 2 ^ 64.

(** The group of [Pedersen], with hashes of 32 bytes. *)
#[local] Instance pool_crypto : Crypto := {|
  blake2b := fun bs => mkHash (be 32 (be_value (1 :: bs) mod (2 ^ 255 - 19)));
  verify_batch := fun _ => true;
  verify_bullet_proof_multi := fun _ _ => true;
  commit_sum := @commit_sum pedersen_crypto;
  commit_value := @commit_value pedersen_crypto;
  commit_blind := @commit_blind pedersen_crypto;
  secret_key := @secret_key pedersen_crypto;
  blind_sum := @blind_sum pedersen_crypto;
|}.

(** A chain with two outputs. *)
Definition utxo : list Commitment := [sample_point 10; sample_point 20].

Definition sample_header : BlockHeader := mkHeader 1 5 ZERO_HASH ZERO_HASH 1000 ZERO_HASH ZERO_HASH ZERO_HASH blinding_zero 0 0
  (mkProofOfWork (mkDifficulty 3) 1 7 (mkPow 10 [1; 2; 3; 4; 5; 6; 7; 8])).

#[local] Instance sample_chain : BlockChain := {|
  bc_verify_coinbase_maturity := fun _ => Some (Ok tt);
  bc_verify_tx_lock_height := fun _ => Some (Ok tt);
  bc_validate_tx := fun tx =>
    if forallb (fun c => bool_decide (c ∈ utxo)) (inputs_committed (Transaction.body tx)) &&
       forallb (fun c => negb (bool_decide (c ∈ utxo))) (outputs_committed (Transaction.body tx))
    then Some (Ok tt) else Some (Err PoolOther);
  bc_validate_inputs := fun i =>
    if forallb (fun w => bool_decide (cw_commit w ∈ utxo)) (inputs_to_wrappers i)
    then Some (Ok (map (fun w => mkOutputId PlainOutput (cw_commit w)) (inputs_to_wrappers i))) else Some (Err PoolOther);
  bc_chain_head := Some (Ok sample_header);
  bc_get_block_header := fun _ => Some (Ok sample_header);
  bc_get_block_sums := fun _ => Some (Ok (mkSums (sample_point 0) (sample_point 0)));
|}.

#[local] Instance sample_laws : ChainLaws.
Proof.
  refine {| unspent := fun c => c ∈ utxo |}; intros tx; simpl;
    (destruct (forallb _ (inputs_committed _)) eqn:Ei; [|done]); simpl;
    (destruct (forallb _ (outputs_committed _)) eqn:Eo; [|done]); intros _ c Hc.
  - rewrite forallb_forall in Ei. apply list_elem_of_In, Ei, bool_decide_eq_true in Hc. done.
  - rewrite forallb_forall in Eo. apply list_elem_of_In, Eo, negb_true_iff, bool_decide_eq_false in Hc. done.
Defined.

#[local] Instance relays : PoolAdapter := fun _ => true.

(** A balanced transaction that spends and creates points, with a fee and the excess of its kernel. *)
Definition tx_of (ins outs : list Z) (fee excess : Z) : Transaction :=
  with_offset
    (tx_new (CommitOnly (map (fun i => mkCommitWrapper (sample_point i)) ins))
       (map (fun o => mkOutput (mkOutputId PlainOutput (sample_point o)) (mkRangeProof 675 (repeat 0 675))) outs)
       [mkKernel (PlainKernel (mkFeeFields fee)) (sample_point excess) (mkSignature (replicate 64 0))])
    (mkBlinding (be 32 ((sumZ outs + 5 * fee - sumZ ins - excess) mod 1009))).

Definition ct : ChainTypes := AutomatedTesting.

Definition sample_config : PoolConfig := mkPoolConfig 1 30 2 2 40000.

(** Transactions that come from the network. *)
Abbreviation receive t tx stem := (tp_add_to_pool ct 1 t 0 Broadcast tx stem sample_header).
Definition receive_all (l : list Transaction) (t : TransactionPool) : option TransactionPool :=
  fold_left (fun t tx =>
    let! t := t in
    let! (r, t) := receive t tx false in
    match r with Ok _ => Some t | Err _ => None end) l (Some t).

(** A chain of three: the second pays little, the third pays for it. *)
Definition tx1 : Transaction := tx_of [10] [30] 250 3.
Definition tx2 : Transaction := tx_of [30] [40] 25 4.
Definition tx3 : Transaction := tx_of [40] [50] 2500 6.
Definition pool1 : TransactionPool := Eval vm_compute in
  default (tp_new sample_config) (receive_all [tx1] (tp_new sample_config)).
Definition pool123 : TransactionPool := Eval vm_compute in
  default (tp_new sample_config) (receive_all [tx1; tx2; tx3] (tp_new sample_config)).

(** Two parents, and a child that pays next to nothing. *)
Definition small_config : PoolConfig := mkPoolConfig 1 30 1 1 40000.
Definition parent1 : Transaction := tx_of [10] [30] 250 3.
Definition parent2 : Transaction := tx_of [20] [31] 100 4.
Definition child : Transaction := tx_of [30; 31] [40] 1 6.
Definition parents : TransactionPool := Eval vm_compute in
  default (tp_new small_config) (receive_all [parent1; parent2] (tp_new small_config)).
Definition with_child : TransactionPool := Eval vm_compute in
  default parents (receive_all [child] parents).

Definition spends_of (b a : Transaction) : Prop :=
  Exists (fun c => c ∈ inputs_committed (Transaction.body b)) (outputs_committed (Transaction.body a)).

(** ** Witnesses *)

Lemma pools_sound_witness :
  receive (tp_new sample_config) tx1 false = Some (Ok tt, pool1) /\ both_sound pool1.
Proof.
  assert (E : receive (tp_new sample_config) tx1 false = Some (Ok tt, pool1)) by (vm_compute; reflexivity).
  split; [exact E|].
  exact (proj2 (proj1 (proj2 (pools_sound ct 1 (tp_new sample_config) pool1)) 0 Broadcast tx1 false sample_header (Ok tt) E) eq_refl eq_refl).
Defined.

Definition mined : list Transaction := Eval vm_compute in
  match prepare_mineable_transactions ct pool1 with Some (Ok l) => l | _ => [] end.
Lemma mineable_sound_witness : prepare_mineable_transactions ct pool1 = Some (Ok mined) /\ Sound mined /\ length mined = 1%nat.
Proof.
  assert (E : prepare_mineable_transactions ct pool1 = Some (Ok mined)) by (vm_compute; reflexivity).
  split; [exact E|]. split; [exact (proj1 (proj2 (mineable_sound ct pool1 mined E)))|reflexivity].
Defined.

Definition stemmed : TransactionPool := Eval vm_compute in
  default pool1 (let! (_, t) := receive pool1 tx2 true in Some t).
Lemma stem_stays_private_witness : receive pool1 tx2 true = Some (Ok tt, stemmed) /\ public_same pool1 stemmed.
Proof.
  assert (E : receive pool1 tx2 true = Some (Ok tt, stemmed)) by (vm_compute; reflexivity).
  assert (Ec : contains_tx (stempool pool1) tx2 = false) by (vm_compute; reflexivity).
  split; [exact E|].
  exact (proj1 (proj2 (stem_stays_private ct 1 pool1 0 Broadcast tx2 sample_header (Ok tt) stemmed E) Ec (fun _ _ => eq_refl))).
Defined.

(** A peer that always takes the transaction, in a stem epoch. *)
#[local] Instance one_peer : Peers := {|
  is_connected := fun _ => true; choose_random := Some 1; send_stem_transaction := fun _ _ => true;
|}.
Definition stem_epoch : DandelionEpoch := mkEpoch default_dandelion (Some 0) true (Some 1).
Definition at_second (n : Z) : Z := n * 10 ^ 9.

Lemma stem_held_back_witness : length (entries (stempool stemmed)) = 1%nat /\
  monitor_transactions ct 1 (at_second 100) 0 50 stem_epoch stemmed = Some (stem_epoch, stemmed).
Proof.
  split; [reflexivity|].
  apply (stem_held_back ct 1 (at_second 100) 0 50 stem_epoch stemmed);
    [lia|vm_compute; discriminate|vm_compute; reflexivity| |left; reflexivity].
  unfold younger. apply (bool_decide_unpack _). vm_compute. exact I.
Defined.


Lemma refused_leaves_public_witness : receive pool1 tx1 false = Some (Err DuplicateTx, pool1) /\ public_same pool1 pool1.
Proof.
  assert (E : receive pool1 tx1 false = Some (Err DuplicateTx, pool1)) by (vm_compute; reflexivity).
  split; [exact E|].
  exact (proj1 (refused_leaves_public ct 1 pool1 0 Broadcast tx1 false sample_header DuplicateTx pool1 E)).
Defined.

Lemma pool_bounded_witness : reaches ct 1 sample_config 0 pool1 /\ total_size pool1 <= 3.
Proof.
  assert (E : receive (tp_new sample_config) tx1 false = Some (Ok tt, pool1)) by (vm_compute; reflexivity).
  assert (R : reaches ct 1 sample_config 0 pool1).
  { exact (reaches_step ct 1 sample_config 0 0 _ _ (reaches_new ct 1 sample_config) (step_add ct 1 _ _ _ _ _ _ _ _ E)). }
  split; [exact R|]. apply (pool_bounded ct 1 sample_config 0 pool1); [vm_compute; congruence|vm_compute; congruence|exact R].
Defined.

Lemma mining_order_witness : exists bs, bucket_transactions ct (txpool pool123) NoLimit = Some (concat (map raw_txs bs)) /\
  length bs = 2%nat /\ StronglySorted bucket_before bs.
Proof.
  destruct (mining_order ct (txpool pool123) NoLimit) as (s & bs & Es & _ & _ & _ & Hp & Hs & E & _).
  - repeat constructor; vm_compute; congruence.
  - vm_compute. reflexivity.
  - exists bs. split; [exact E|]. split; [|exact Hs]. rewrite (Permutation_length Hp).
    assert (H : option_map (fun s => length (tx_buckets s)) (bucket_loop ct NoLimit (mkSorting [] ∅ ∅) (all_transactions (txpool pool123)))
      = Some 2%nat) by (vm_compute; reflexivity). rewrite Es in H. by injection H.
Defined.

(** A block with the kernels of the first and of an unknown transaction. *)
Definition id_of (tx : Transaction) : list ShortId := map (fun k => short_id (hash k) ZERO_HASH 7) (kernels (Transaction.body tx)).
Definition wanted_ids : list ShortId := Eval vm_compute in id_of tx1 ++ id_of tx3.
Lemma compact_block_txs_found_witness :
  snd (tp_retrieve_transactions pool1 ZERO_HASH 7 wanted_ids) = id_of tx3 /\
  forall id, id ∈ snd (tp_retrieve_transactions pool1 ZERO_HASH 7 wanted_ids) ->
    ~ hash_key id ∈ map hash_key (map snd (pool_ids ZERO_HASH 7 (all_transactions (txpool pool1)))).
Proof.
  split; [vm_compute; reflexivity|]. intros id H.
  refine (proj2 (proj1 (proj2 (compact_block_txs_found pool1 ZERO_HASH 7 wanted_ids _ _ _ _ (surjective_pairing _)) id) H)).
  - apply (bool_decide_unpack _). vm_compute. exact I.
  - apply (bool_decide_unpack _). vm_compute. exact I.
Defined.

(** * What the pools do not keep *)

(** The order in which transactions are offered to a miner does not keep
    dependencies. Of three transactions in a chain the second lowers the fee rate
    of its parent's bucket and gets a bucket of its own, but its outputs are noted
    under the bucket of its parent; the third, which spends them and pays well,
    joins that bucket and is offered before the transaction it depends on. When
    it is its turn what it spends is not there, and it is left out of the block. *)
Theorem child_offered_before_parent :
  receive_all [tx1; tx2; tx3] (tp_new sample_config) = Some pool123 /\
  exists a b c, all_transactions (txpool pool123) = [a; b; c] /\ spends_of b a /\ spends_of c b /\
    bucket_transactions ct (txpool pool123) NoLimit = Some [a; c; b] /\
    prepare_mineable_transactions ct pool123 = Some (Ok [a; b]).
Proof.
  split; [vm_compute; reflexivity|]. do 3 eexists. split; [reflexivity|].
  split; [apply (bool_decide_unpack _); vm_compute; exact I|].
  split; [apply (bool_decide_unpack _); vm_compute; exact I|].
  split; vm_compute; reflexivity.
Qed.

(** A full pool takes a transaction whose fee is too low, and evicts one on
    which it depends. The check for room comes before that of the fee, and a
    transaction that found no room is let in; it has two parents in the pool, so it
    is in no bucket and the transaction with the lowest fee rate, which is the one
    to go, is one of them. Afterwards the pool holds a transaction that spends an
    output that neither the chain nor the pool has, and it has been broadcast. *)
Theorem full_pool_evicts_parent :
  receive_all [parent1; parent2] (tp_new small_config) = Some parents /\ full parents = true /\
  receive parents child false = Some (Ok tt, with_child) /\
  is_acceptable 1 pool1 child false = Err (LowFeeTransaction 1) /\
  length (tx_accepted with_child) = 3%nat /\
  exists a b, all_transactions (txpool with_child) = [a; b] /\ kernels (Transaction.body b) = kernels (Transaction.body child) /\
    Exists (fun c => ~ c ∈ utxo /\ ~ c ∈ outputs_committed (Transaction.body a)) (inputs_committed (Transaction.body b)).
Proof.
  split; [vm_compute; reflexivity|]. split; [reflexivity|]. split; [vm_compute; reflexivity|].
  split; [vm_compute; reflexivity|]. split; [reflexivity|].
  do 2 eexists. split; [reflexivity|]. split; [vm_compute; reflexivity|].
  apply (bool_decide_unpack _). vm_compute. exact I.
Qed.
End PoolSample.
