(* ===== verification/ChainStore.v ===== *)
(** The chain database.

    Models [src/chain/src/store.rs]: the heads, the headers and blocks by hash,
    the sums and the spent index of each block, the index of output positions
    and the index of recent NRD kernels, and [DifficultyIter], which walks the
    stored headers back from a hash.

    A batch is a record of typed maps: one per key prefix. An entry is what
    reading the written bytes gives back, which for a block means inputs without
    features, since the database writes with protocol version 3. A child batch
    is a copy of its parent, and committing it replaces the parent. *)

From Stdlib Require Import ZArith Lia.
From stdpp Require Import base numbers option sorting gmap list.
From S2P Require Import Prelude Consensus PmmrIndex Pmmr Ser LinkedList Kernel CutThrough Transaction PowTypes Block ChainTypes.
Open Scope Z_scope.

(** [DEFAULT_DB_VERSION] *)
Definition DB_VERSION : ProtocolVersion := mkVersion 3.

Record Batch : Type := mkBatch {
  db_head : option Tip;
  db_tail : option Tip;
  db_header_head : option Tip;
  db_pibd_head : option Tip;
  db_headers : gmap Ser.Hash BlockHeader;
  db_blocks : gmap Ser.Hash Block;
  db_sums : gmap Ser.Hash BlockSums;
  db_spent : gmap Ser.Hash (list CommitPos);
  db_output_pos : gmap Commitment CommitPos;
  db_nrd : LinkedList.Store Commitment CommitPos;
}.

Definition empty_batch : Batch := mkBatch None None None None ∅ ∅ ∅ ∅ ∅ empty_store.

Definition set_heads (b : Batch) (head tail header_head pibd_head : option Tip) : Batch :=
  mkBatch head tail header_head pibd_head (db_headers b) (db_blocks b) (db_sums b) (db_spent b) (db_output_pos b)
    (db_nrd b).
Definition set_headers (b : Batch) m : Batch :=
  mkBatch (db_head b) (db_tail b) (db_header_head b) (db_pibd_head b) m (db_blocks b) (db_sums b) (db_spent b)
    (db_output_pos b) (db_nrd b).
Definition set_blocks (b : Batch) m : Batch :=
  mkBatch (db_head b) (db_tail b) (db_header_head b) (db_pibd_head b) (db_headers b) m (db_sums b) (db_spent b)
    (db_output_pos b) (db_nrd b).
Definition set_sums (b : Batch) m : Batch :=
  mkBatch (db_head b) (db_tail b) (db_header_head b) (db_pibd_head b) (db_headers b) (db_blocks b) m (db_spent b)
    (db_output_pos b) (db_nrd b).
Definition set_spent (b : Batch) m : Batch :=
  mkBatch (db_head b) (db_tail b) (db_header_head b) (db_pibd_head b) (db_headers b) (db_blocks b) (db_sums b) m
    (db_output_pos b) (db_nrd b).
Definition set_output_pos (b : Batch) m : Batch :=
  mkBatch (db_head b) (db_tail b) (db_header_head b) (db_pibd_head b) (db_headers b) (db_blocks b) (db_sums b)
    (db_spent b) m (db_nrd b).
Definition set_nrd (b : Batch) m : Batch :=
  mkBatch (db_head b) (db_tail b) (db_header_head b) (db_pibd_head b) (db_headers b) (db_blocks b) (db_sums b)
    (db_spent b) (db_output_pos b) m.

(** [option_to_not_found] *)
Definition found {A} (o : option A) : result CE.Error A := ok_or o CE.StoreErr.

(** ** Heads *)

Definition head (b : Batch) : result CE.Error Tip := found (db_head b).
Definition tail (b : Batch) : result CE.Error Tip := found (db_tail b).
Definition header_head (b : Batch) : result CE.Error Tip := found (db_header_head b).

(** [genesis] is the tip of the genesis block. *)
Definition pibd_head (genesis : Tip) (b : Batch) : result CE.Error Tip :=
  match found (db_pibd_head b) with Ok r => Ok r | Err _ => Ok genesis end.

Definition save_body_head (t : Tip) (b : Batch) : Batch :=
  set_heads b (Some t) (db_tail b) (db_header_head b) (db_pibd_head b).
Definition save_body_tail (t : Tip) (b : Batch) : Batch :=
  set_heads b (db_head b) (Some t) (db_header_head b) (db_pibd_head b).
Definition save_header_head (t : Tip) (b : Batch) : Batch :=
  set_heads b (db_head b) (db_tail b) (Some t) (db_pibd_head b).
Definition save_pibd_head (t : Tip) (b : Batch) : Batch :=
  set_heads b (db_head b) (db_tail b) (db_header_head b) (Some t).

(** ** Headers *)

Definition get_block_header (h : Ser.Hash) (b : Batch) : result CE.Error BlockHeader := found (db_headers b !! h).

Definition get_previous_header (h : BlockHeader) (b : Batch) : result CE.Error BlockHeader :=
  get_block_header (prev_hash h) b.

Definition head_header (b : Batch) : result CE.Error BlockHeader :=
  let? t := head b in get_block_header (last_block_h t) b.

(** A header read with [DeserializationMode::SkipPow]: the proof has no nonces. *)
Definition skip_proof (h : BlockHeader) : BlockHeader :=
  let p := pow h in
  set_pow h (mkProofOfWork (total_difficulty p) (pow_secondary_scaling p) (pow_nonce p)
    (mkPow (edge_bits (pow_proof p)) [])).

Definition get_block_header_skip_proof (h : Ser.Hash) (b : Batch) : result CE.Error BlockHeader :=
  let? h := get_block_header h b in Ok (skip_proof h).

Definition get_previous_header_skip_proof (h : BlockHeader) (b : Batch) : result CE.Error BlockHeader :=
  get_block_header_skip_proof (prev_hash h) b.

(** ** Blocks and what is kept with them *)

Definition get_block (h : Ser.Hash) (b : Batch) : result CE.Error Block := found (db_blocks b !! h).
Definition block_exists (h : Ser.Hash) (b : Batch) : bool := bool_decide (is_Some (db_blocks b !! h)).

Definition save_spent_index (h : Ser.Hash) (spent : list CommitPos) (b : Batch) : Batch :=
  set_spent b (<[h := spent]> (db_spent b)).
Definition delete_spent_index (h : Ser.Hash) (b : Batch) : Batch := set_spent b (delete h (db_spent b)).
Definition get_spent_index (h : Ser.Hash) (b : Batch) : result CE.Error (list CommitPos) := found (db_spent b !! h).

Definition save_block_sums (h : Ser.Hash) (sums : BlockSums) (b : Batch) : Batch :=
  set_sums b (<[h := sums]> (db_sums b)).
Definition get_block_sums (h : Ser.Hash) (b : Batch) : result CE.Error BlockSums := found (db_sums b !! h).
Definition delete_block_sums (h : Ser.Hash) (b : Batch) : Batch := set_sums b (delete h (db_sums b)).

Definition delete_block (h : Ser.Hash) (b : Batch) : Batch :=
  delete_spent_index h (delete_block_sums h (set_blocks b (delete h (db_blocks b)))).

(** [None] is the panic on a position that is no [u32]. *)
Definition get_block_input_bitmap (h : Ser.Hash) (b : Batch) : option (result CE.Error (gset Z)) :=
  match get_spent_index h b with
  | Err e => Some (Err e)
  | Ok spent =>
      let pos := map cp_pos spent in
      if forallb (fun x => x <? 2 ^ 32) pos then Some (Ok (list_to_set pos)) else None
  end.

Section saving.
Context {CR : Crypto} (ct : ChainTypes).

Definition block_as_read (b : Block) : Block := mkBlock (header b) (body_as_read DB_VERSION (body b)).

Definition save_block (blk : Block) (b : Batch) : option Batch :=
  let! h := block_hash ct blk in Some (set_blocks b (<[h := block_as_read blk]> (db_blocks b))).

Definition save_block_header (h : BlockHeader) (b : Batch) : option Batch :=
  let! hash := header_hash ct h in Some (set_headers b (<[hash := h]> (db_headers b))).
End saving.

(** ** The index of output positions *)

Definition get_output_pos_height (c : Commitment) (b : Batch) : option CommitPos := db_output_pos b !! c.
Definition get_output_pos (c : Commitment) (b : Batch) : result CE.Error Z :=
  match get_output_pos_height c b with
  | Some p => Ok (sub64 (cp_pos p) 1)
  | None => Err CE.StoreErr
  end.
Definition save_output_pos_height (c : Commitment) (p : CommitPos) (b : Batch) : Batch :=
  set_output_pos b (<[c := p]> (db_output_pos b)).
Definition delete_output_pos_height (c : Commitment) (b : Batch) : Batch :=
  set_output_pos b (delete c (db_output_pos b)).
Definition is_match_output_pos_key (key c : Commitment) : bool := bool_decide (c = key).
Definition output_pos_iter (b : Batch) : list (Commitment * CommitPos) := map_to_list (db_output_pos b).

(** ** [DifficultyIter] *)

Record DifficultyIter : Type := mkIter {
  di_start : Ser.Hash;
  di_header : option BlockHeader;
  di_prev_header : option BlockHeader;
  di_prev_header_hash : option Ser.Hash;
}.

Definition from_batch (start : Ser.Hash) : DifficultyIter := mkIter start None None None.

Definition to_ok {A} (r : result CE.Error A) : option A := match r with Ok x => Some x | Err _ => None end.

(** [next] *)
Definition di_next (b : Batch) (i : DifficultyIter) : option HeaderDifficultyInfo * DifficultyIter :=
  let '(cur_header, cur_header_hash) :=
    match di_header i with
    | None => (to_ok (get_block_header_skip_proof (di_start i) b), Some (di_start i))
    | Some _ => (di_prev_header i, di_prev_header_hash i)
    end in
  match cur_header with
  | Some h =>
      let prev_header := to_ok (get_previous_header_skip_proof h b) in
      let prev_difficulty :=
        match prev_header with Some x => total_difficulty (pow x) | None => Diff.zero end in
      let difficulty := Diff.sub (total_difficulty (pow h)) prev_difficulty in
      let scaling := pow_secondary_scaling (pow h) in
      (Some (mkHDI ((fun x => be_value (hash_bytes x)) <$> cur_header_hash) (of_signed 64 (timestamp h))
         difficulty scaling (pow_is_secondary (pow h))),
       mkIter (di_start i) (Some h) prev_header (Some (prev_hash h)))
  | None => (None, mkIter (di_start i) None (di_prev_header i) (di_prev_header_hash i))
  end.

(** The first [n] items. *)
Fixpoint di_take (n : nat) (b : Batch) (i : DifficultyIter) : list HeaderDifficultyInfo :=
  match n with
  | O => []
  | S n => match di_next b i with (Some x, i) => x :: di_take n b i | (None, _) => [] end
  end.

(** What [next_difficulty] looks at: it stops after [DMA_WINDOW + 1] items. *)
Definition difficulty_items (b : Batch) (start : Ser.Hash) : list HeaderDifficultyInfo :=
  di_take (Z.to_nat DMA_WINDOW + 1) b (from_batch start).

(** * The chain of stored headers *)

Section chain.
Context {CR : Crypto} (ct : ChainTypes).
Implicit Types (b : Batch) (h : BlockHeader) (m : gmap Ser.Hash BlockHeader).

(** [n] steps back from a header. *)
Fixpoint ancestor m h (n : nat) : option BlockHeader :=
  match n with O => Some h | S n => p ← m !! prev_hash h; ancestor m p n end.

(** Headers are stored under their hash. *)
Definition keyed m : Prop := forall k h, m !! k = Some h -> header_hash ct h = Some k.

Lemma ancestor_succ m h n : ancestor m h (S n) = (a ← ancestor m h n; m !! prev_hash a).
Proof.
  revert h. induction n as [|n IH]; intros h; cbn [ancestor mbind option_bind].
  { by destruct (m !! prev_hash h). }
  destruct (m !! prev_hash h) as [p|]; [|done]. cbn [mbind option_bind]. apply IH.
Qed.

Lemma ancestor_add m h n k : ancestor m h (n + k) = (a ← ancestor m h n; ancestor m a k).
Proof.
  revert h. induction n as [|n IH]; intros h; [done|]. cbn [ancestor Nat.add].
  destruct (m !! prev_hash h) as [p|]; [|done]. cbn [mbind option_bind]. apply IH.
Qed.

Lemma ancestor_mono m m' h n a : m ⊆ m' -> ancestor m h n = Some a -> ancestor m' h n = Some a.
Proof.
  intros Hm. revert h. induction n as [|n IH]; intros h; [done|]. cbn [ancestor].
  destruct (m !! prev_hash h) as [p|] eqn:E; [|done]. rewrite (lookup_weaken _ _ _ _ E Hm). apply IH.
Qed.

End chain.

(** The difficulty information of a header, given the one before it. *)
Definition header_info (k : Ser.Hash) (h : BlockHeader) (prev : option BlockHeader) : HeaderDifficultyInfo :=
  mkHDI (Some (be_value (hash_bytes k))) (of_signed 64 (timestamp h))
    (Diff.sub (total_difficulty (pow h))
       (match prev with Some x => total_difficulty (pow x) | None => Diff.zero end))
    (pow_secondary_scaling (pow h)) (pow_is_secondary (pow h)).

(** The specification of [DifficultyIter]: the headers that a hash leads to. *)
Fixpoint walk_back (n : nat) (m : gmap Ser.Hash BlockHeader) (k : Ser.Hash) : list HeaderDifficultyInfo :=
  match n with
  | O => []
  | S n =>
      match m !! k with
      | Some h => header_info k h (m !! prev_hash h) :: walk_back n m (prev_hash h)
      | None => []
      end
  end.

Lemma skip_info k h prev : header_info k (skip_proof h) (skip_proof <$> prev) = header_info k h prev.
Proof. destruct h as [? ? ? ? ? ? ? ? ? ? ? []]. by destruct prev. Qed.

Lemma di_take_walk n b start :
  di_take n b (from_batch start) = walk_back n (db_headers b) start.
Proof.
  assert (Hget : forall k, to_ok (get_block_header_skip_proof k b) = skip_proof <$> db_headers b !! k).
  { intros k. unfold get_block_header_skip_proof, get_block_header, found. by destruct (_ !! k). }
  assert (Hin : forall n (h : BlockHeader) k st, di_take n b (mkIter st (Some h) (skip_proof <$> db_headers b !! k) (Some k))
                = walk_back n (db_headers b) k).
  { clear n. induction n as [|n IH]; intros h k st; [done|]. cbn [di_take walk_back]. unfold di_next. cbn [di_header di_prev_header di_prev_header_hash di_start].
    destruct (db_headers b !! k) as [x|]; [|done]. cbn [fmap option_fmap option_map].
    unfold get_previous_header_skip_proof. rewrite Hget. f_equal.
    - rewrite <- skip_info. reflexivity.
    - apply IH. }
  destruct n as [|n]; [done|]. cbn [di_take walk_back from_batch]. unfold di_next, from_batch. cbn [di_header di_start].
  rewrite Hget. destruct (db_headers b !! start) as [x|]; [|done]. cbn [fmap option_fmap option_map].
  unfold get_previous_header_skip_proof. rewrite Hget. f_equal; [|apply Hin]. rewrite <- skip_info. reflexivity.
Qed.

(** A longer store gives the same items, if every header the walk needs was
    already there. *)
Lemma walk_back_mono n m m' k :
  m ⊆ m' ->
  (forall k' h, m !! k' = Some h -> m !! prev_hash h = m' !! prev_hash h) -> m !! k = m' !! k ->
  walk_back n m' k = walk_back n m k.
Proof.
  intros Hm Hp. revert k. induction n as [|n IH]; intros k Hk; [done|]. cbn [walk_back]. rewrite <- Hk.
  destruct (m !! k) as [h|] eqn:E; [|done]. rewrite <- (Hp k h E). f_equal. apply IH. by apply (Hp k).
Qed.
