(* ===== verification/BitmapAccumulator.v ===== *)
(** The bitmap accumulator.

    Models [BitmapAccumulator], [BitmapChunk] and [BitmapBlock] of
    [src/chain/src/txhashset/bitmap_accumulator.rs]: an MMR over the chunks of
    1024 bits of the bitmap of unspent outputs, kept up to date chunk by chunk,
    and the compact encoding of a block of chunks.

    A chunk is the list of its bits. [None] is a panic, or a loop that has run out
    of fuel, which [apply] never does. *)

From Stdlib Require Import ZArith Lia.
From stdpp Require Import base numbers option sorting gmap list.
From S2P Require Import Prelude Consensus PmmrIndex Pmmr Ser LinkedList Kernel CutThrough Transaction PowTypes Block ChainTypes Bitmap.
Open Scope Z_scope.

Definition LEN_BITS : Z := 1024.
Definition LEN_BYTES : Z := LEN_BITS / 8.

Record BitmapChunk : Type := mkChunk { bits : list bool }.

(** [BitVec::to_bytes]: the first bit of a byte is its highest. *)
Definition byte_of_bits (l : list bool) : Z := fold_left (fun acc (b : bool) => 2 * acc + (if b then 1 else 0)) l 0.
Definition bits_of_byte (x : Z) : list bool := map (fun i => Z.testbit x (7 - i)) (seqZ 0 8).

Fixpoint to_bytes (n : nat) (l : list bool) : bytes :=
  match n with O => [] | S n => byte_of_bits (take 8 l) :: to_bytes n (drop 8 l) end.
Definition bitvec_to_bytes (l : list bool) : bytes := to_bytes (length l / 8) l.
Definition bitvec_from_bytes (bs : bytes) : list bool := concat (map bits_of_byte bs).

Module Chunk.
Definition new : BitmapChunk := mkChunk (replicate (Z.to_nat LEN_BITS) false).

(** The assertion holds for every index that the accumulator sets. *)
Definition set (c : BitmapChunk) (idx : Z) (value : bool) : option BitmapChunk :=
  if idx <? LEN_BITS then Some (mkChunk (<[Z.to_nat idx := value]> (bits c))) else None.

Definition any (c : BitmapChunk) : bool := existsb id (bits c).

Definition set_iter (c : BitmapChunk) (idx_offset : Z) : list Z :=
  omap (fun '(idx, val) => if (val : bool) then Some (wrap 32 (wrap 32 (Z.of_nat idx) + wrap 32 idx_offset)) else None)
    (zip (seq 0 (length (bits c))) (bits c)).
End Chunk.

#[export] Instance chunk_writeable : Writeable BitmapChunk := fun w c => Ok (bitvec_to_bytes (bits c)).

(** ** The accumulator *)

Section accumulator.
Context {CR : Crypto}.

(** The backend. *)
Definition BitmapAccumulator : Type := Vec.VecBackend BitmapChunk Ser.Hash.
#[local] Instance chunk_backend : Backend BitmapChunk BitmapChunk Ser.Hash BitmapAccumulator := vec_backend id.

Definition acc_new : BitmapAccumulator := Vec.new.

Definition chunk_start_idx (idx : Z) : Z := Z.land idx (Z.lxor (u_max 64) (LEN_BITS - 1)).
Definition chunk_idx (idx : Z) : Z := idx / LEN_BITS.

Definition append_chunk (a : BitmapAccumulator) (c : BitmapChunk) : result CE.Error BitmapAccumulator :=
  let last_pos := Vec.size a in
  match push (at_ a last_pos) c with Ok (_, p) => Ok (backend p) | Err _ => Err CE.Other end.

(** The loop of [apply_from]. *)
Fixpoint apply_loop (fuel : nat) (a : BitmapAccumulator) (idx : list Z) (ci : Z) (chunk : BitmapChunk)
    : option (result CE.Error BitmapAccumulator) :=
  match idx with
  | [] => Some (if Chunk.any chunk then append_chunk a chunk else Ok a)
  | x :: rest =>
      match fuel with
      | O => None
      | S fuel =>
          if x <? mul64 ci LEN_BITS then apply_loop fuel a rest ci chunk
          else if x <? mul64 (add64 ci 1) LEN_BITS then
            let! chunk := Chunk.set chunk (x mod LEN_BITS) true in
            apply_loop fuel a rest ci chunk
          else
            match append_chunk a chunk with
            | Err e => Some (Err e)
            | Ok a => apply_loop fuel a idx (add64 ci 1) Chunk.new
            end
      end
  end.

Definition apply_from (a : BitmapAccumulator) (idx : list Z) (from_idx size : Z)
    : option (result CE.Error BitmapAccumulator) :=
  let from_chunk_idx := chunk_idx from_idx in
  let idx := filter (fun x => x < size) idx in
  apply_loop (length idx + Z.to_nat (chunk_idx size + 1)) a idx from_chunk_idx Chunk.new.

Definition acc_init (a : BitmapAccumulator) (idx : list Z) (size : Z) : option (result CE.Error BitmapAccumulator) :=
  apply_from a idx 0 size.

Definition rewind_prior (a : BitmapAccumulator) (from_idx : Z) : result CE.Error BitmapAccumulator :=
  let chunk_idx := chunk_idx from_idx in
  let last_pos := Vec.size a in
  let rewind_pos := insertion_to_pmmr_index chunk_idx in
  match Pmmr.rewind (at_ a last_pos) rewind_pos ∅ with Ok p => Ok (backend p) | Err _ => Err CE.Other end.

Fixpoint append_empty (n : nat) (a : BitmapAccumulator) : result CE.Error BitmapAccumulator :=
  match n with
  | O => Ok a
  | S n => let? a := append_chunk a Chunk.new in append_empty n a
  end.

Definition pad_left (a : BitmapAccumulator) (from_idx : Z) : result CE.Error BitmapAccumulator :=
  let chunk_idx := chunk_idx from_idx in
  let current_chunk_idx := n_leaves (Vec.size a) in
  append_empty (Z.to_nat (chunk_idx - current_chunk_idx)) a.

Definition acc_apply (a : BitmapAccumulator) (invalidated_idx idx : list Z) (size : Z)
    : option (result CE.Error BitmapAccumulator) :=
  match invalidated_idx with
  | [] => Some (Ok a)
  | from_idx :: _ =>
      match rewind_prior a from_idx with
      | Err e => Some (Err e)
      | Ok a =>
          match pad_left a from_idx with
          | Err e => Some (Err e)
          | Ok a => apply_from a idx from_idx size
          end
      end
  end.

Definition acc_readonly_pmmr (a : BitmapAccumulator) : PMMR BitmapAccumulator := at_ a (Vec.size a).

(** The root; [None] is the panic of an invalid tree. *)
Definition acc_root (a : BitmapAccumulator) : option Ser.Hash :=
  match root (acc_readonly_pmmr a) with Ok r => Some r | Err _ => None end.

Definition as_bitmap (a : BitmapAccumulator) : option (gset Z) :=
  let! ls := mapM (fun '(chunk_index, chunk_pos) =>
      let! chunk := Vec.get_data id a chunk_pos in
      Some (Chunk.set_iter chunk (Z.of_nat chunk_index * 1024)))
    (zip (seq 0 (length (Vec.leaf_pos_iter a))) (Vec.leaf_pos_iter a)) in
  Some (list_to_set (concat ls)).

End accumulator.

(** ** Blocks of chunks *)

Record BitmapBlock : Type := mkBitmapBlock { block_bits : list bool }.

Definition BLOCK_NBITS : Z := Z.shiftl 1 16.
Definition BLOCK_NCHUNKS : Z := BLOCK_NBITS / LEN_BITS.

Definition bitmap_block_new (n_chunks : Z) : option BitmapBlock :=
  if n_chunks <=? BLOCK_NCHUNKS then Some (mkBitmapBlock (replicate (Z.to_nat (n_chunks * LEN_BITS)) false)) else None.

Definition try_n_chunks (b : BitmapBlock) : result ser_error Z :=
  let length := Z.of_nat (length (block_bits b)) in
  if negb (length mod LEN_BITS =? 0) then Err CorruptedData
  else
    let n_chunks := length / LEN_BITS in
    if BLOCK_NCHUNKS <? n_chunks then Err TooLargeReadErr else Ok n_chunks.

(** The indices of the bits with a value. *)
Definition bit_indices (v : bool) (l : list bool) : list Z :=
  omap (fun '(i, b) => if Bool.eqb b v then Some (Z.of_nat i) else None) (zip (seq 0 (length l)) l).

Fixpoint write_u16s (w : Writer) (l : list Z) : result ser_error bytes :=
  match l with [] => Ok [] | x :: l => write_u16 w (wrap 16 x) +w+ write_u16s w l end.

(** [None] is a failed assertion. *)
Definition write_bitmap_block (w : Writer) (b : BitmapBlock) : option (result ser_error bytes) :=
  let length := Z.of_nat (length (block_bits b)) in
  if BLOCK_NBITS <? length then None
  else if negb (length mod LEN_BITS =? 0) then None
  else
    let pos := bit_indices true (block_bits b) in
    let neg := bit_indices false (block_bits b) in
    let count_pos := wrap 32 (Z.of_nat (List.length pos)) in
    let count_neg := wrap 32 (wrap 32 length - count_pos) in
    let threshold := BLOCK_NBITS / 16 in
    Some (write_u8 w (wrap 8 (length / LEN_BITS)) +w+
      (if count_pos <? threshold then write_u8 w 1 +w+ write_u16 w (wrap 16 count_pos) +w+ write_u16s w pos
       else if count_neg <? threshold then write_u8 w 2 +w+ write_u16 w (wrap 16 count_neg) +w+ write_u16s w neg
       else write_u8 w 0 +w+ write_fixed_bytes w (bitvec_to_bytes (block_bits b)))).

(** The loop that reads [n] indices. *)
Fixpoint read_indices {R} `{Reader R} (n : nat) (n_bits : Z) (v : bool) (inner : list bool) (r : R)
    : result ser_error (list bool * R) :=
  match n with
  | O => Ok (inner, r)
  | S n =>
      let? (pos, r) := read_u16 r in
      if n_bits <=? pos then Err CorruptedData
      else read_indices n n_bits v (<[Z.to_nat pos := v]> inner) r
  end.

#[export] Instance bitmap_block_readable : Readable BitmapBlock := fun R _ r =>
  let? (n_chunks, r) := read_u8 r in
  if BLOCK_NCHUNKS <? n_chunks then Err TooLargeReadErr
  else
    let n_bits := n_chunks * LEN_BITS in
    let? (mode, r) := read_u8 r in
    if mode =? 0 then
      let? (bs, r) := read_fixed_bytes r (n_bits / 8) in
      Ok (mkBitmapBlock (bitvec_from_bytes bs), r)
    else if mode =? 1 then
      let? (n, r) := read_u16 r in
      let? (inner, r) := read_indices (Z.to_nat n) n_bits true (replicate (Z.to_nat n_bits) false) r in
      Ok (mkBitmapBlock inner, r)
    else if mode =? 2 then
      let? (n, r) := read_u16 r in
      let? (inner, r) := read_indices (Z.to_nat n) n_bits false (replicate (Z.to_nat n_bits) true) r in
      Ok (mkBitmapBlock inner, r)
    else Err CorruptedData.

(** * The accumulator against the bitmap *)

(** The set of bits as an increasing list; the chunk [k] of it and the number of
    chunks up to its last bit. *)
Definition chunk_of (idx : list Z) (k : Z) : BitmapChunk :=
  mkChunk (map (fun j => bool_decide (1024 * k + j ∈ idx)) (seqZ 0 1024)).

Definition chunk_count (idx : list Z) : Z := match last idx with Some x => x / 1024 + 1 | None => 0 end.

(** The chunks from [k] on. *)
Definition chunks_from (k : Z) (idx : list Z) : list BitmapChunk :=
  map (chunk_of idx) (seqZ k (chunk_count idx - k)).

Definition bitmap_chunks (idx : list Z) : list BitmapChunk := chunks_from 0 idx.

Lemma chunk_of_nil k : chunk_of [] k = Chunk.new.
Proof. unfold chunk_of, Chunk.new. by f_equal. Qed.

Lemma chunk_of_ext idx idx' k :
  (forall j, 0 <= j < 1024 -> 1024 * k + j ∈ idx <-> 1024 * k + j ∈ idx') -> chunk_of idx k = chunk_of idx' k.
Proof.
  intros Hext. unfold chunk_of. f_equal. apply map_ext_in. intros j [Hj ?]%list_elem_of_In%elem_of_seqZ.
  apply bool_decide_ext. apply Hext. lia.
Qed.

Lemma chunk_of_set idx k x : 0 <= x mod 1024 -> x / 1024 = k ->
  Chunk.set (chunk_of idx k) (x mod LEN_BITS) true = Some (chunk_of (idx ++ [x]) k).
Proof.
  intros Hx Hk. unfold Chunk.set. change LEN_BITS with 1024. pose proof (Z.mod_pos_bound x 1024 ltac:(lia)) as Hm.
  pose proof (Z.div_mod x 1024 ltac:(lia)) as Hd. destruct (Z.ltb_spec (x mod 1024) 1024); [|lia].
  f_equal. unfold chunk_of. cbn [bits]. f_equal.
  apply (list_eq_same_length _ _ 1024); [by rewrite length_map, length_seqZ|by rewrite length_insert, length_map, length_seqZ|].
  intros i a b Hi Ha Hb. rewrite list_lookup_fmap in Hb.
  destruct (seqZ 0 1024 !! i) as [j|] eqn:Ej; [|done]. cbn in Hb. injection Hb as <-.
  apply lookup_seqZ in Ej as [-> _].
  destruct (decide (i = Z.to_nat (x mod 1024))) as [->|Hne].
  - rewrite list_lookup_insert_eq in Ha by (rewrite length_map, length_seqZ; lia). injection Ha as <-.
    symmetry. apply bool_decide_eq_true. apply elem_of_app. right. apply list_elem_of_singleton. lia.
  - rewrite list_lookup_insert_ne in Ha by done. rewrite list_lookup_fmap in Ha.
    rewrite lookup_seqZ_lt in Ha by lia. cbn in Ha. injection Ha as <-.
    apply bool_decide_ext. rewrite elem_of_app, list_elem_of_singleton. split; [by left|].
    intros [?|Ex]; [done|]. exfalso. apply Hne. rewrite <- Ex.
    rewrite (Z.add_comm (1024 * k)), Z.mul_comm, Z_mod_plus_full, Z.mod_small by lia. lia.
Qed.

Lemma chunk_any idx k x : x ∈ idx -> x / 1024 = k -> Chunk.any (chunk_of idx k) = true.
Proof.
  intros Hx Hk. unfold Chunk.any. apply existsb_exists. exists true. split; [|done].
  pose proof (Z.mod_pos_bound x 1024 ltac:(lia)). pose proof (Z.div_mod x 1024 ltac:(lia)).
  unfold chunk_of. cbn [bits]. apply in_map_iff. exists (x mod 1024). split.
  - apply bool_decide_eq_true. by replace (1024 * k + x mod 1024) with x by lia.
  - apply list_elem_of_In, elem_of_seqZ. lia.
Qed.

Section accumulator_spec.
Context {CR : Crypto}.
#[local] Existing Instance chunk_backend.
#[local] Instance chunk_laws : BackendLaws BitmapChunk BitmapChunk Ser.Hash BitmapAccumulator := vec_laws id.
Implicit Types (a : BitmapAccumulator) (l : list BitmapChunk).

(** The accumulator stores the chunks [l]. *)
Definition holds a l : Prop :=
  Pmmr.rep (at_ a (Vec.size a)) l /\ Vec.data a = Some l.

Lemma new_holds : holds acc_new [].
Proof. split; [|done]. by apply (new_rep (B := BitmapAccumulator)). Qed.

Lemma holds_step a l o : holds a l -> op_ok l o ->
  exists p, step (at_ a (Vec.size a)) o = Ok p /\ holds (backend p) (abs_step l o).
Proof.
  intros [Hr Hd] Hok. destruct (step_rep _ l o Hr Hok) as (p & E & Hr'). exists p. split; [done|].
  split; [|by eapply (vec_step_data id); [exact Hr|exact Hok|exact E|]].
  destruct Hr' as [Hv Hlen]. unfold Vec.size. change (Vec.hashes (backend p)) with (file (backend p)).
  rewrite Hlen. destruct p. by split.
Qed.

Lemma append_chunk_holds a l c : holds a l -> Z.of_nat (length l) + 1 < 2 ^ 60 ->
  exists a', append_chunk a c = Ok a' /\ holds a' (l ++ [c]).
Proof.
  intros H Hl. destruct (holds_step a l (Push c) H Hl) as (p & E & H'). exists (backend p). split; [|done].
  unfold append_chunk. cbn [step] in E. destruct (push _ c) as [[x q]|]; [|done]. cbn in E. by injection E as ->.
Qed.

Lemma append_empty_holds n a l : holds a l -> Z.of_nat (length l + n) < 2 ^ 60 ->
  exists a', append_empty n a = Ok a' /\ holds a' (l ++ replicate n Chunk.new).
Proof.
  revert a l. induction n as [|n IH]; intros a l H Hl; cbn [append_empty replicate].
  { exists a. by rewrite app_nil_r. }
  destruct (append_chunk_holds a l Chunk.new H ltac:(lia)) as (a1 & -> & H1). cbn [rbind].
  destruct (IH a1 _ H1) as (a2 & -> & H2); [rewrite length_app; simpl; lia|].
  exists a2. split; [done|]. by rewrite <- app_assoc in H2.
Qed.

Lemma rewind_prior_holds a l k from : holds a l -> 0 <= from < 2 ^ 60 -> from / 1024 = k -> k <= Z.of_nat (length l) ->
  exists a', rewind_prior a from = Ok a' /\ holds a' (take (Z.to_nat k) l).
Proof.
  intros H Hf Hk Hkl. assert (Hl : Z.of_nat (length l) < 2 ^ 60) by (by destruct H as [[(_ & ? & _) _] _]).
  assert (0 <= k) by (subst; apply Z.div_pos; lia).
  destruct (holds_step a l (Rewind (insertion_to_pmmr_index k) ∅) H) as (p & E & H').
  { cbn [op_ok]. rewrite !insertion_index_npos by lia. pose proof (npos0_ge k ltac:(lia)). split; [lia|].
    destruct (Z.eq_dec k (Z.of_nat (length l))) as [->|]; [lia|]. pose proof (npos0_mono k (Z.of_nat (length l))). lia. }
  exists (backend p). cbn [step abs_step] in *. rewrite insertion_index_npos, n_leaves_npos in H' by lia. split; [|done].
  unfold rewind_prior, chunk_idx. change LEN_BITS with 1024. rewrite Hk, E. done.
Qed.

(** Rewinding to a chunk that is not there yet leaves the accumulator alone. *)
Lemma rewind_past a l k : holds a l -> Z.of_nat (length l) <= k < 2 ^ 60 ->
  exists p, Pmmr.rewind (at_ a (Vec.size a)) (insertion_to_pmmr_index k) ∅ = Ok p /\ holds (backend p) l.
Proof.
  intros [[(Es & Hl & Hv) Hlen] Hd] Hk. pose proof (npos0_ge k ltac:(lia)).
  pose proof (npos0_ge (Z.of_nat (length l)) ltac:(lia)).
  unfold Pmmr.rewind. rewrite insertion_index_npos by lia.
  assert (Hb : in_bounds (npos 0 k)) by (unfold in_bounds; lia).
  destruct (round_up_n_leaves (npos 0 k) Hb) as (Er & _ & _). rewrite Er, n_leaves_npos by lia.
  cbn. eexists. split; [done|]. cbn. cbn in Es, Hlen.
  assert (Hle : npos 0 (Z.of_nat (length l)) <= npos 0 k).
  { destruct (Z.eq_dec k (Z.of_nat (length l))) as [->|]; [lia|]. pose proof (npos0_mono (Z.of_nat (length l)) k). lia. }
  rewrite Hd, !take_ge; [|unfold file in Hlen; cbn in Hlen; lia|rewrite n_leaves_npos by lia; lia].
  split; [|done]. cbn. by split.
Qed.

Lemma chunks_prior a l from : holds a l -> 0 <= from < 2 ^ 60 ->
  exists a1 a2, rewind_prior a from = Ok a1 /\ pad_left a1 from = Ok a2 /\
    holds a2 (take (Z.to_nat (from / 1024)) l ++
      replicate (Z.to_nat (from / 1024) - length l) Chunk.new).
Proof.
  intros H Hf. set (k := from / 1024). assert (Hk0 : 0 <= k) by (apply Z.div_pos; lia).
  assert (Hk1 : k < 2 ^ 60) by (apply Z.div_lt_upper_bound; lia).
  assert (exists a1, rewind_prior a from = Ok a1 /\ holds a1 (take (Z.to_nat k) l)) as (a1 & E1 & H1).
  { destruct (Z.le_gt_cases k (Z.of_nat (length l))).
    - by apply (rewind_prior_holds a l k from).
    - destruct (rewind_past a l k H ltac:(lia)) as (p & E & H1). exists (backend p).
      unfold rewind_prior, chunk_idx. change LEN_BITS with 1024. fold k. rewrite E. split; [done|].
      by rewrite take_ge by lia. }
  destruct (append_empty_holds (Z.to_nat k - length l) a1 _ H1) as (a2 & E2 & H2); [rewrite length_take; lia|].
  exists a1, a2. split; [done|]. split; [|done]. unfold pad_left, chunk_idx. change LEN_BITS with 1024. fold k.
  destruct H1 as [[(Es & Hl & _) _] _]. cbn in Es. rewrite Es, n_leaves_npos by lia. rewrite length_take.
  rewrite <- E2. f_equal. lia.
Qed.

(** Chunks of the two halves of a list that is cut at a chunk boundary. *)
Lemma chunk_of_low d idx k : Forall (fun x => 1024 * (k + 1) <= x) idx -> chunk_of (d ++ idx) k = chunk_of d k.
Proof.
  intros Hi. apply chunk_of_ext. intros j Hj. rewrite elem_of_app. split; [|by left].
  intros [?|Hx]; [done|]. rewrite Forall_forall in Hi. specialize (Hi _ Hx). lia.
Qed.

Lemma chunks_high d idx k n : Forall (fun x => x < 1024 * k) d ->
  map (chunk_of (d ++ idx)) (seqZ k n) = map (chunk_of idx) (seqZ k n).
Proof.
  intros Hd. apply map_ext_in. intros q [Hq _]%list_elem_of_In%elem_of_seqZ. apply chunk_of_ext. intros j Hj.
  rewrite elem_of_app. split; [|by right]. intros [Hx|?]; [|done]. rewrite Forall_forall in Hd. specialize (Hd _ Hx). nia.
Qed.

Lemma chunk_count_app d x idx : chunk_count (d ++ x :: idx) = chunk_count (x :: idx).
Proof. unfold chunk_count. by rewrite last_app_cons. Qed.

Lemma sorted_last (idx : list Z) x y : StronglySorted Z.lt idx -> x ∈ idx -> last idx = Some y -> x <= y.
Proof.
  intros Hs Hx Hy. apply last_Some in Hy as [l ->]. apply elem_of_app in Hx as [Hx|Hx].
  - apply StronglySorted_app in Hs as (Hxy & _). specialize (Hxy x y Hx). rewrite list_elem_of_singleton in Hxy.
    specialize (Hxy eq_refl). lia.
  - apply list_elem_of_singleton in Hx. lia.
Qed.

Lemma chunk_count_ge (idx : list Z) k : StronglySorted Z.lt idx -> 0 <= k -> forall x, x ∈ idx -> 1024 * k <= x -> k + 1 <= chunk_count idx.
Proof.
  intros Hs Hk x Hx Hle. unfold chunk_count. destruct (last idx) as [y|] eqn:E.
  - pose proof (sorted_last idx x y Hs Hx E). assert (k <= y / 1024) by (apply Z.div_le_lower_bound; lia). lia.
  - apply last_None in E. subst. by apply not_elem_of_nil in Hx.
Qed.

Definition below (n : Z) (idx : list Z) : Prop := StronglySorted Z.lt idx /\ Forall (fun x => 0 <= x < n) idx.

Lemma below_cons n x idx : below n (x :: idx) -> 0 <= x < n /\ below n idx /\ Forall (Z.lt x) idx.
Proof. intros [Hs Hf]. apply StronglySorted_inv in Hs as [? ?]. apply Forall_cons in Hf as [? ?]. done. Qed.

Lemma chunk_count_bound n idx : 0 <= n -> below n idx -> chunk_count idx <= n / 1024 + 1.
Proof.
  intros Hn [_ Hf]. unfold chunk_count. destruct (last idx) as [y|] eqn:E; [|pose proof (Z.div_pos n 1024); lia].
  apply last_Some_elem_of in E. rewrite Forall_forall in Hf. specialize (Hf _ E).
  pose proof (Z.div_le_mono y n 1024). lia.
Qed.

Lemma apply_loop_nil n fuel a l d k :
  0 <= n < 2 ^ 60 -> holds a l -> Z.of_nat (length l) = k -> k <= n / 1024 + 1 -> Forall (fun x => x / 1024 = k) d ->
  exists a', apply_loop fuel a [] k (chunk_of d k) = Some (Ok a') /\ holds a' (l ++ chunks_from k d).
Proof.
  intros Hn Hh Hlen Hk Hd. assert (Hn' : n / 1024 < 2 ^ 50) by (apply Z.div_lt_upper_bound; lia).
  replace (apply_loop fuel a [] k (chunk_of d k)) with
    (Some (if Chunk.any (chunk_of d k) then append_chunk a (chunk_of d k) else Ok a)) by (by destruct fuel).
  destruct d as [|x d].
  - rewrite chunk_of_nil. change (Chunk.any Chunk.new) with false. exists a. split; [done|].
    unfold chunks_from, chunk_count. cbn. rewrite seqZ_nil by lia. by rewrite app_nil_r.
  - pose proof Hd as [Hx _]%Forall_cons. rewrite (chunk_any (x :: d) k x) by (done || by left).
    destruct (append_chunk_holds a l (chunk_of (x :: d) k) Hh ltac:(lia)) as (a' & E & H'). exists a'. rewrite E.
    split; [done|]. unfold chunks_from. replace (chunk_count (x :: d) - k) with 1; [done|].
    unfold chunk_count. destruct (last (x :: d)) as [y|] eqn:El; [|by apply last_None in El].
    apply last_Some_elem_of in El. rewrite Forall_forall in Hd. rewrite (Hd _ El). lia.
Qed.

Lemma chunks_from_step d x idx k n :
  below n (d ++ x :: idx) -> Forall (fun y => y / 1024 = k) d -> 1024 * (k + 1) <= x -> 0 <= k ->
  chunks_from k (d ++ x :: idx) = chunk_of d k :: chunks_from (k + 1) (x :: idx).
Proof.
  intros Hb Hd Hx Hk. unfold chunks_from. rewrite chunk_count_app.
  assert (Hs : below n (x :: idx)).
  { destruct Hb as [Hs Hf]. apply StronglySorted_app in Hs as (_ & _ & Hs). apply Forall_app in Hf as [_ Hf]. done. }
  assert (Hc : k + 2 <= chunk_count (x :: idx)).
  { pose proof (chunk_count_ge (x :: idx) (k + 1) (proj1 Hs) ltac:(lia) x (list_elem_of_here _ _) Hx). lia. }
  rewrite (seqZ_cons k) by lia. cbn [map]. replace (Z.succ k) with (k + 1) by lia.
  replace (Z.pred (chunk_count (x :: idx) - k)) with (chunk_count (x :: idx) - (k + 1)) by lia. f_equal.
  - apply chunk_of_low. apply below_cons in Hs as (_ & _ & Hlt). constructor; [done|].
    eapply Forall_impl; [exact Hlt|]. intros y ?. cbv beta in *. lia.
  - apply chunks_high. eapply Forall_impl; [exact Hd|]. intros y <-.
    pose proof (Z.mod_pos_bound y 1024). pose proof (Z.div_mod y 1024). lia.
Qed.

Lemma apply_loop_spec n fuel a l d idx k :
  0 <= n < 2 ^ 60 -> holds a l -> Z.of_nat (length l) = k -> k <= n / 1024 + 1 ->
  (length idx + Z.to_nat (n / 1024 + 1 - k) <= fuel)%nat ->
  below n (d ++ idx) -> Forall (fun x => x / 1024 = k) d -> Forall (fun x => 1024 * k <= x) idx ->
  exists a', apply_loop fuel a idx k (chunk_of d k) = Some (Ok a') /\ holds a' (l ++ chunks_from k (d ++ idx)).
Proof.
  intros Hn. assert (Hn' : n / 1024 < 2 ^ 50) by (apply Z.div_lt_upper_bound; lia).
  revert a l d idx k. induction fuel as [|fuel IH]; intros a l d idx k Hh Hlen Hk Hf Hb Hd Hi.
  { assert (idx = []) as -> by (destruct idx; [done|simpl in Hf; lia]). rewrite app_nil_r. by apply (apply_loop_nil n). }
  destruct idx as [|x idx]; [rewrite app_nil_r; by apply (apply_loop_nil n)|].
  apply Forall_cons in Hi as [Hx Hi]. cbn [length] in Hf. cbn [apply_loop].
  assert (Hxn : 0 <= x < n).
  { destruct Hb as [_ Hf']. apply Forall_app in Hf' as [_ Hf']. by apply Forall_cons in Hf' as [? _]. }
  pose proof (Z.div_le_mono x n 1024 ltac:(lia) ltac:(lia)).
  change LEN_BITS with 1024. rewrite add64_small by (unfold_words; lia).
  rewrite !mul64_small by (unfold_words; lia). destruct (Z.ltb_spec x (k * 1024)); [lia|].
  destruct (Z.ltb_spec x ((k + 1) * 1024)).
  - assert (Hxk : x / 1024 = k) by (symmetry; apply Z.div_unique with (x - 1024 * k); lia).
    change 1024 with LEN_BITS at 1. rewrite chunk_of_set; [|apply Z.mod_pos_bound; lia|done]. bind_some.
    destruct (IH a l (d ++ [x]) idx k) as (a' & E & H'); [done|done|done|lia|by rewrite <- app_assoc| |done|].
    + apply Forall_app. by split; [|apply Forall_singleton].
    + exists a'. rewrite <- app_assoc in H'. done.
  - destruct (append_chunk_holds a l (chunk_of d k) Hh ltac:(lia)) as (a1 & -> & Ha1).
    assert (k + 1 <= x / 1024) by (apply Z.div_le_lower_bound; lia).
    rewrite <- (chunk_of_nil (k + 1)).
    destruct (IH a1 (l ++ [chunk_of d k]) [] (x :: idx) (k + 1)) as (a' & E & H');
      [done|rewrite length_app; simpl; lia|lia|simpl; lia| |done| |].
    + destruct Hb as [Hs Hf']. apply StronglySorted_app in Hs as (_ & _ & Hs). by apply Forall_app in Hf' as [_ Hf'].
    + assert (Hs : below n (x :: idx)).
      { destruct Hb as [Hs Hf']. apply StronglySorted_app in Hs as (_ & _ & Hs). by apply Forall_app in Hf' as [_ ?]. }
      apply below_cons in Hs as (_ & _ & Hlt). constructor; [lia|]. eapply Forall_impl; [exact Hlt|]. intros y ?. cbv beta in *. lia.
    + exists a'. split; [done|]. erewrite (chunks_from_step d x idx k n) by (done || lia).
      rewrite <- app_assoc in H'. exact H'.
Qed.

(** The chunks after an update: those before the chunk of [from], padding, and
    the chunks of the new bits. *)
Definition updated (l : list BitmapChunk) (k : Z) (idx : list Z) : list BitmapChunk :=
  (take (Z.to_nat k) l ++ replicate (Z.to_nat k - length l) Chunk.new) ++ chunks_from k idx.

Lemma acc_apply_spec a l from rest idx n :
  0 <= from < 2 ^ 60 -> 0 <= n < 2 ^ 60 -> from / 1024 <= n / 1024 + 1 -> holds a l ->
  StronglySorted Z.lt idx -> Forall (fun x => 1024 * (from / 1024) <= x) idx ->
  exists a', acc_apply a (from :: rest) idx n = Some (Ok a') /\
    holds a' (updated l (from / 1024) (filter (fun x => x < n) idx)).
Proof.
  intros Hfrom Hn Hfn Hh Hs Hi. destruct (chunks_prior a l from Hh Hfrom) as (a1 & a2 & E1 & E2 & H2).
  unfold acc_apply. rewrite E1, E2. unfold apply_from, chunk_idx. change LEN_BITS with 1024.
  set (k := from / 1024) in *. assert (0 <= k) by (apply Z.div_pos; lia).
  rewrite <- (chunk_of_nil k). apply (apply_loop_spec n _ a2 _ [] (filter (fun x => x < n) idx) k);
    [done|done| |done|lia| |done|].
  - rewrite length_app, length_take, length_replicate. lia.
  - simpl. split; [by apply sorted_lt_filter|].
    apply Forall_forall. intros x [Hx Hx']%list_elem_of_filter. rewrite Forall_forall in Hi. specialize (Hi _ Hx'). nia.
  - apply Forall_forall. intros x [Hx Hx']%list_elem_of_filter. rewrite Forall_forall in Hi. by apply Hi.
Qed.

Lemma chunk_of_high idx k : Forall (fun x => x < 1024 * k) idx -> chunk_of idx k = Chunk.new.
Proof.
  intros Hi. rewrite <- (chunk_of_nil k). apply chunk_of_ext. intros j Hj. split; [|by intros ?%not_elem_of_nil].
  intros Hx. rewrite Forall_forall in Hi. specialize (Hi _ Hx). lia.
Qed.

Lemma chunk_count_above (idx : list Z) n : below n idx -> Forall (fun x => x < 1024 * chunk_count idx) idx.
Proof.
  intros [Hs Hf]. apply Forall_forall. intros x Hx. unfold chunk_count.
  destruct (last idx) as [y|] eqn:E; [|apply last_None in E; subst; by apply not_elem_of_nil in Hx].
  pose proof (sorted_last idx x y Hs Hx E). pose proof (Z.mod_pos_bound y 1024). pose proof (Z.div_mod y 1024). lia.
Qed.

(** The chunks below chunk [k] are kept, and padded when there are fewer. *)
Lemma low_chunks n old k :
  below n old -> 0 <= k ->
  take (Z.to_nat k) (bitmap_chunks old) ++ replicate (Z.to_nat k - length (bitmap_chunks old)) Chunk.new =
  map (chunk_of (filter (fun x => x < 1024 * k) old)) (seqZ 0 k).
Proof.
  intros Hb Hk. unfold bitmap_chunks, chunks_from. rewrite Z.sub_0_r. set (c := chunk_count old).
  rewrite length_map, length_seqZ.
  assert (Hc : 0 <= c).
  { unfold c, chunk_count. destruct (last old) as [y|] eqn:E; [|lia]. apply last_Some_elem_of in E.
    destruct Hb as [_ Hf]. rewrite Forall_forall in Hf. specialize (Hf _ E). pose proof (Z.div_pos y 1024). lia. }
  assert (Hlow : forall j, 0 <= j < k -> chunk_of (filter (fun x => x < 1024 * k) old) j = chunk_of old j).
  { intros j Hj. apply chunk_of_ext. intros i Hi. rewrite list_elem_of_filter. split; [by intros [_ ?]|].
    intros ?. split; [nia|done]. }
  transitivity (map (chunk_of old) (seqZ 0 k)).
  2:{ apply map_ext_in. intros j [Hj Hj']%list_elem_of_In%elem_of_seqZ. symmetry. apply Hlow. lia. }
  destruct (Z.le_gt_cases k c).
  - replace (Z.to_nat k - Z.to_nat c)%nat with 0%nat by lia. rewrite app_nil_r.
    replace c with (k + (c - k)) at 1 by lia. rewrite seqZ_app, map_app by lia.
    rewrite take_app_le by (rewrite length_map, length_seqZ; lia). rewrite take_ge by (rewrite length_map, length_seqZ; lia). done.
  - rewrite take_ge by (rewrite length_map, length_seqZ; lia).
    replace k with (c + (k - c)) at 2 by lia. rewrite seqZ_app, map_app by lia. f_equal.
    replace (Z.to_nat k - Z.to_nat c)%nat with (Z.to_nat (k - c)) by lia.
    pose proof (chunk_count_above old n Hb) as Ha. fold c in Ha.
    apply list_eq. intros i. destruct (decide (i < Z.to_nat (k - c))%nat).
    + rewrite lookup_replicate_2 by done. rewrite list_lookup_fmap, lookup_seqZ_lt by lia. cbn. f_equal. symmetry.
      apply chunk_of_high. eapply Forall_impl; [exact Ha|]. intros x ?. cbv beta in *. lia.
    + rewrite !lookup_ge_None_2; [done|rewrite length_map, length_seqZ; lia|rewrite length_replicate; lia].
Qed.

Lemma updated_bitmap n old k idx :
  below n old -> 0 <= k -> StronglySorted Z.lt idx -> Forall (fun x => 1024 * k <= x) idx -> idx <> [] ->
  updated (bitmap_chunks old) k idx = bitmap_chunks (filter (fun x => x < 1024 * k) old ++ idx).
Proof.
  intros Hb Hk Hs Hi Hne. unfold updated. rewrite (low_chunks n) by done.
  destruct idx as [|x idx]; [done|]. unfold bitmap_chunks at 1, chunks_from. rewrite chunk_count_app, Z.sub_0_r.
  apply Forall_cons in Hi as [Hx Hi].
  pose proof (chunk_count_ge (x :: idx) k Hs Hk x (list_elem_of_here _ _) Hx) as Hc.
  replace (chunk_count (x :: idx)) with (k + (chunk_count (x :: idx) - k)) at 2 by lia.
  rewrite seqZ_app, map_app by lia. f_equal.
  - apply map_ext_in. intros j [Hj Hj']%list_elem_of_In%elem_of_seqZ. symmetry. apply chunk_of_low.
    apply Forall_cons. split; [nia|]. eapply Forall_impl; [exact Hi|]. intros y ?. cbv beta in *. nia.
  - change (0 + k) with k. symmetry. apply chunks_high. apply Forall_forall. by intros y [? _]%list_elem_of_filter.
Qed.

Lemma holds_root a l : holds a l -> acc_root a = Some (mmr_root l).
Proof. intros [[Hv _] _]. unfold acc_root, acc_readonly_pmmr. by rewrite (root_view _ l Hv). Qed.

Lemma acc_init_spec idx n : 0 <= n < 2 ^ 60 -> StronglySorted Z.lt idx -> Forall (Z.le 0) idx ->
  exists a, acc_init acc_new idx n = Some (Ok a) /\ holds a (bitmap_chunks (filter (fun x => x < n) idx)).
Proof.
  intros Hn Hs Hf. unfold acc_init, apply_from. change (chunk_idx 0) with 0. unfold chunk_idx. change LEN_BITS with 1024.
  pose proof (Z.div_pos n 1024). rewrite <- (chunk_of_nil 0).
  apply (apply_loop_spec n _ acc_new [] [] (filter (fun x => x < n) idx) 0);
    [done|apply new_holds|done|lia|lia| |done|].
  - split; [by apply sorted_lt_filter|]. apply Forall_forall. intros x [Hx Hx']%list_elem_of_filter.
    rewrite Forall_forall in Hf. specialize (Hf _ Hx'). lia.
  - apply Forall_forall. intros x [Hx Hx']%list_elem_of_filter. rewrite Forall_forall in Hf. specialize (Hf _ Hx'). lia.
Qed.

Lemma chunk_start_eq x : u64 x -> chunk_start_idx x = 1024 * (x / 1024).
Proof.
  intros Hx. unfold chunk_start_idx. change (LEN_BITS - 1) with (Z.ones 10). change (u_max 64) with (Z.ones 64).
  rewrite Z.mul_comm. change 1024 with (2 ^ 10).
  rewrite <- Z.shiftr_div_pow2, <- Z.shiftl_mul_pow2 by lia. apply Z.bits_inj'. intros i Hi.
  rewrite Z.land_spec, Z.lxor_spec, Z.shiftl_spec by done. destruct (Z.ltb_spec i 10).
  - rewrite !Z.ones_spec_low by lia. rewrite (Z.testbit_neg_r _ (i - 10)) by lia. by rewrite andb_false_r.
  - rewrite (Z.ones_spec_high 10) by lia. rewrite Z.shiftr_spec by lia. replace (i - 10 + 10) with i by lia.
    destruct (Z.ltb_spec i 64).
    + rewrite Z.ones_spec_low by lia. by rewrite andb_true_r.
    + rewrite Z.ones_spec_high by lia. rewrite andb_false_r. symmetry. destruct (Z.eq_dec x 0) as [->|]; [apply Z.testbit_0_l|].
      apply Z.bits_above_log2; [unfold_words; lia|]. unfold_words. apply Z.log2_lt_pow2; [lia|].
      apply Z.lt_le_trans with (2 ^ 64); [lia|]. apply Z.pow_le_mono_r; lia.
Qed.

(** Keeping the accumulator up to date is the same as rebuilding it: take
    the accumulator of a bitmap, invalidate bits of which the first is [from],
    and hand it the set bits from the start of the chunk of [from] on. Both the
    update and a rebuild from the whole new bitmap succeed, in every case
    where a bit is left from that chunk on, and they have the same chunks and
    the same root. *)
Theorem accumulator_incremental old n0 n from rest idx :
  0 <= n0 < 2 ^ 60 -> 0 <= n < 2 ^ 60 -> 0 <= from <= n ->
  StronglySorted Z.lt old -> Forall (fun x => 0 <= x < n0) old ->
  StronglySorted Z.lt idx -> Forall (fun x => chunk_start_idx from <= x < n) idx -> idx <> [] ->
  let new := filter (fun x => x < chunk_start_idx from) old ++ idx in
  exists a a1 a2 r, acc_init acc_new old n0 = Some (Ok a) /\
    acc_apply a (from :: rest) idx n = Some (Ok a1) /\ acc_init acc_new new n = Some (Ok a2) /\
    Vec.data a1 = Some (bitmap_chunks new) /\ Vec.data a2 = Vec.data a1 /\
    acc_root a1 = Some r /\ acc_root a2 = Some r.
Proof.
  intros Hn0 Hn Hfrom Hs0 Hf0 Hs Hf Hne. rewrite chunk_start_eq in * by (unfold_words; lia).
  set (k := from / 1024) in *. assert (Hk : 0 <= k) by (apply Z.div_pos; lia). intros new.
  pose proof (Z.div_le_mono from n 1024 ltac:(lia) ltac:(lia)) as Hkn. fold k in Hkn.
  assert (Hkf : 1024 * k <= from) by (apply Z.mul_div_le; lia).
  assert (Hold : filter (fun x => x < n0) old = old).
  { apply filter_all. eapply Forall_impl; [exact Hf0|]. intros x ?. cbv beta in *. lia. }
  destruct (acc_init_spec old n0 Hn0 Hs0) as (a & Ea & Ha).
  { eapply Forall_impl; [exact Hf0|]. intros x ?. cbv beta in *. lia. }
  rewrite Hold in Ha.
  assert (Hidx : filter (fun x => x < n) idx = idx).
  { apply filter_all. eapply Forall_impl; [exact Hf|]. intros x ?. cbv beta in *. lia. }
  destruct (acc_apply_spec a _ from rest idx n ltac:(lia) Hn ltac:(lia) Ha Hs) as (a1 & E1 & H1).
  { eapply Forall_impl; [exact Hf|]. intros x ?. cbv beta in *. fold k. lia. }
  fold k in H1. rewrite Hidx, (updated_bitmap n0) in H1;
    [|by split|done|done|eapply Forall_impl; [exact Hf|]; intros x ?; cbv beta in *; lia|done].
  destruct (acc_init_spec new n Hn) as (a2 & E2 & H2).
  { apply StronglySorted_app_2; [|by apply sorted_lt_filter|done].
    intros x y [Hx _]%list_elem_of_filter Hy. rewrite Forall_forall in Hf. specialize (Hf _ Hy). cbv beta in *. lia. }
  { apply Forall_app. split.
    - apply Forall_forall. intros x [_ Hx]%list_elem_of_filter. rewrite Forall_forall in Hf0. specialize (Hf0 _ Hx). cbv beta in *. lia.
    - eapply Forall_impl; [exact Hf|]. intros x ?. cbv beta in *. lia. }
  rewrite (filter_all (fun x => x < n) new) in H2.
  2:{ apply Forall_app. split; [|eapply Forall_impl; [exact Hf|]; intros x ?; cbv beta in *; lia].
      apply Forall_forall. intros x [Hx _]%list_elem_of_filter. lia. }
  exists a, a1, a2, (mmr_root (bitmap_chunks new)).
  split_and!; [done|done|done|apply H1| |by apply holds_root|by apply holds_root].
  destruct H1 as [_ ->], H2 as [_ ->]. done.
Qed.

(** When no bit is left from that chunk on, the update keeps an empty chunk
    that a rebuild does not have, whatever [size] says: the accumulator of one
    set of bits then has two forms. *)
Theorem accumulator_trailing_chunk :
  exists a a1 a2, acc_init acc_new [0; 2048] 2049 = Some (Ok a) /\
    acc_apply a [2048] [] 2049 = Some (Ok a1) /\ acc_init acc_new [0] 2049 = Some (Ok a2) /\
    acc_readonly_pmmr a1 = at_ a1 3 /\ acc_readonly_pmmr a2 = at_ a2 1.
Proof.
  destruct (acc_init_spec [0; 2048] 2049) as (a & E & H); [lia|repeat constructor; lia|repeat constructor; lia|].
  destruct (acc_apply_spec a _ 2048 [] [] 2049 ltac:(lia) ltac:(lia) ltac:(vm_compute; congruence) H) as (a1 & E1 & H1);
    [constructor|constructor|].
  destruct (acc_init_spec [0] 2049) as (a2 & E2 & H2); [lia|repeat constructor; lia|repeat constructor; lia|].
  exists a, a1, a2. split_and!; [done..| |]; unfold acc_readonly_pmmr; f_equal.
  - destruct H1 as [[(Es & _) _] _]. cbn [size at_] in Es. rewrite Es. vm_compute. reflexivity.
  - destruct H2 as [[(Es & _) _] _]. cbn [size at_] in Es. rewrite Es. vm_compute. reflexivity.
Qed.
End accumulator_spec.

(** * The encoding of blocks *)

Lemma byte_bits_roundtrip l : length l = 8%nat -> bits_of_byte (byte_of_bits l) = l /\ in_range 8 (byte_of_bits l).
Proof.
  intros Hl. do 8 (destruct l as [|? l]; [done|]). destruct l; [|done].
  repeat match goal with b : bool |- _ => destruct b end; split; reflexivity || (vm_compute; split; congruence).
Qed.

Lemma bitvec_roundtrip n l : length l = (8 * n)%nat ->
  bitvec_from_bytes (bitvec_to_bytes l) = l /\ length (bitvec_to_bytes l) = n /\
  Forall (in_range 8) (bitvec_to_bytes l).
Proof.
  unfold bitvec_to_bytes. intros Hl.
  replace (length l / 8)%nat with n by (rewrite Hl, Nat.mul_comm; symmetry; by apply Nat.div_mul).
  revert l Hl. induction n as [|n IH]; intros l Hl; cbn [to_bytes].
  { destruct l; [|done]. done. }
  destruct (byte_bits_roundtrip (take 8 l)) as [E Hr]; [rewrite length_take; lia|].
  destruct (IH (drop 8 l)) as (E' & Hlen & Hf); [rewrite length_drop; lia|].
  split_and!; [|cbn [length]; lia|by constructor].
  unfold bitvec_from_bytes in *. cbn [map concat]. rewrite E, E'. apply take_drop.
Qed.

Lemma elem_of_bit_indices v l i : i ∈ bit_indices v l <-> 0 <= i /\ l !! Z.to_nat i = Some v.
Proof.
  unfold bit_indices. rewrite list_elem_of_omap. split.
  - intros ([j b] & Hj & E). destruct (Bool.eqb b v) eqn:Eb; [|done]. apply Bool.eqb_prop in Eb as ->. injection E as <-.
    apply list_elem_of_lookup in Hj as [n Hn]. apply lookup_zip_with_Some in Hn as (? & ? & [= <- <-] & Hn & Hl).
    apply lookup_seq in Hn as [-> _]. rewrite Nat2Z.id. split; [lia|done].
  - intros [Hi Hl]. exists (Z.to_nat i, v). rewrite Bool.eqb_reflx, Z2Nat.id by done. split; [|done].
    apply list_elem_of_lookup. exists (Z.to_nat i). apply lookup_zip_with_Some. exists (Z.to_nat i), v.
    split_and!; [done| |done]. apply lookup_seq. split; [done|]. by eapply lookup_lt_Some.
Qed.

Lemma bit_indices_length v l : length (bit_indices true l) = (length l - length (bit_indices false l))%nat /\
  (length (bit_indices v l) <= length l)%nat.
Proof.
  assert (H : forall k, let f v := omap (fun '(i, b) => if Bool.eqb b v then Some (Z.of_nat i) else None) (zip (seq k (length l)) l) in
              (length (f true) + length (f false) = length l)%nat).
  { induction l as [|b l IH]; intros k; [done|]. specialize (IH (S k)). unfold omap in *. destruct b; simpl in *; lia. }
  specialize (H 0%nat). cbv beta zeta in H. unfold bit_indices. destruct v; lia.
Qed.

Lemma write_u16s_ok w l : Forall (in_range 16) l -> write_u16s w l = Ok (concat (map (be 2) l)).
Proof.
  induction 1 as [|x l Hx Hl IH]; [done|]. cbn [write_u16s map concat]. rewrite IH, wrap_small by done. reflexivity.
Qed.

Definition set_all (v : bool) (ps : list Z) (l : list bool) : list bool :=
  fold_left (fun l p => <[Z.to_nat p := v]> l) ps l.

Lemma set_all_lookup v ps l i : Forall (Z.le 0) ps -> (i < length l)%nat ->
  set_all v ps l !! i = if decide (Z.of_nat i ∈ ps) then Some v else l !! i.
Proof.
  intros Hp Hi. revert l Hi. induction Hp as [|p ps Hp0 Hp IH]; intros l Hi; [done|]. cbn [set_all fold_left].
  change (fold_left _ ps ?x) with (set_all v ps x). rewrite IH by (by rewrite length_insert).
  destruct (decide (Z.of_nat i ∈ ps)) as [Hin|Hin].
  - rewrite decide_True by (by right). done.
  - destruct (decide (i = Z.to_nat p)) as [->|Hne].
    + rewrite list_lookup_insert_eq by done. rewrite decide_True; [done|]. apply elem_of_cons. left. lia.
    + rewrite list_lookup_insert_ne by done. rewrite decide_False; [done|].
      intros [?|?]%elem_of_cons; [lia|done].
Qed.

Lemma set_all_indices v l : set_all v (bit_indices v l) (replicate (length l) (negb v)) = l.
Proof.
  assert (Hf : Forall (Z.le 0) (bit_indices v l)).
  { apply Forall_forall. intros x Hx. by apply elem_of_bit_indices in Hx as [? _]. }
  assert (Hlen : forall ps k, length (set_all v ps k) = length k).
  { induction ps as [|p ps IH]; intros k; [done|]. change (length (set_all v ps (<[Z.to_nat p := v]> k)) = length k). rewrite IH. apply length_insert. }
  apply (list_eq_same_length _ _ (length l)); [done|by rewrite Hlen, length_replicate|].
  intros i x y Hi. rewrite set_all_lookup by (rewrite ?length_replicate; done).
  intros Hx Hy. destruct (decide _) as [Hin|Hin].
  - apply elem_of_bit_indices in Hin as [_ Hin]. rewrite Nat2Z.id in Hin. congruence.
  - rewrite lookup_replicate_2 in Hx by done. injection Hx as <-. rewrite elem_of_bit_indices, Nat2Z.id in Hin.
    destruct (decide (y = v)) as [->|]; [exfalso; apply Hin; split; [lia|done]|]. by destruct y, v.
Qed.

Section block_reading.
Context {R : Type} {RD : Reader R} {RL : ReaderLaws R}.

Lemma read_indices_ok n_bits v ps inner r tl :
  Forall (fun x => in_range 16 x /\ x < n_bits) ps -> input r = concat (map (be 2) ps) ++ tl ->
  exists r', read_indices (length ps) n_bits v inner r = Ok (set_all v ps inner, r') /\ advanced input r r' tl.
Proof.
  intros Hp. revert inner r. induction Hp as [|p ps [Hp Hpn] Hps IH]; intros inner r Hin.
  { exists r. by split. }
  cbn [map concat] in Hin. rewrite <- app_assoc in Hin. cbn [length read_indices].
  destruct (read_u16_ok r p _ Hp Hin) as (r1 & -> & Ha). cbn [rbind].
  destruct (Z.leb_spec n_bits p); [lia|]. destruct (IH (<[Z.to_nat p := v]> inner) r1) as (r2 & E & Ha2); [apply Ha|].
  exists r2. split; [done|]. by eapply advanced_trans.
Qed.
End block_reading.

(** The list of the indices of the bits with value [v], as written and read. *)
Lemma indices_roundtrip w v l nc :
  Z.of_nat (length l) = nc * 1024 -> nc <= 64 -> Z.of_nat (length (bit_indices v l)) < 4096 ->
  exists bs, write_u16 w (Z.of_nat (length (bit_indices v l))) +w+ write_u16s w (bit_indices v l) = Ok bs /\
    Z.of_nat (length bs) <= 8192 /\
    forall R (RD : Reader R) (RL : ReaderLaws R) (r : R) tl, input r = bs ++ tl ->
      exists r', (let? (n, r) := read_u16 r in
                  let? (inner, r) := read_indices (Z.to_nat n) (nc * 1024) v (replicate (Z.to_nat (nc * 1024)) (negb v)) r in
                  Ok (mkBitmapBlock inner, r)) = Ok (mkBitmapBlock l, r') /\ advanced input r r' tl.
Proof.
  intros Hlen Hnc Hc.
  assert (Hidx : Forall (fun x => in_range 16 x /\ x < nc * 1024) (bit_indices v l)).
  { apply Forall_forall. intros x [Hx Hl]%elem_of_bit_indices. apply lookup_lt_Some in Hl. unfold_words. lia. }
  rewrite write_u16s_ok by (eapply Forall_impl; [exact Hidx|]; by intros x [? _]).
  assert (Hflat : forall ps, length (concat (map (be 2) ps)) = (2 * length ps)%nat).
  { induction ps as [|p ps IH]; [done|]. cbn [map concat]. rewrite length_app, be_length, IH. simpl. lia. }
  eexists. split; [reflexivity|]. split; [rewrite length_app, Hflat, be_length; lia|].
  intros R RD RL r tl Hin. rewrite <- app_assoc in Hin. read_next read_u16_ok; [unfold_words; lia|]. rewrite Nat2Z.id.
  destruct (read_indices_ok (nc * 1024) v (bit_indices v l) (replicate (Z.to_nat (nc * 1024)) (negb v)) r0 tl Hidx)
    as (r3 & E & Ha3); [done|].
  rewrite E. cbn [rbind]. exists r3. split; [|adv_chain]. replace (Z.to_nat (nc * 1024)) with (length l) by lia.
  by rewrite set_all_indices.
Qed.

(** Blocks of the bitmap survive their three encodings (set bits, cleared
    bits, raw bits): every block of whole chunks within the limit can be
    written, no assertion fails, the encoding is no longer than the raw one plus
    its header, and every lawful reader reads the block back and stops after it. *)
Theorem bitmap_block_roundtrip w b n :
  try_n_chunks b = Ok n ->
  exists bs, write_bitmap_block w b = Some (Ok bs) /\ Z.of_nat (length bs) <= 2 + BLOCK_NBITS / 8 /\
    forall R (RD : Reader R) (RL : ReaderLaws R) (r : R) tl,
      input r = bs ++ tl -> exists r', read r = Ok (b, r') /\ advanced input r r' tl.
Proof.
  destruct b as [l]. unfold try_n_chunks, write_bitmap_block. cbn [block_bits].
  change BLOCK_NCHUNKS with 64. change BLOCK_NBITS with 65536. change LEN_BITS with 1024.
  destruct (Z.eqb_spec (Z.of_nat (length l) mod 1024) 0) as [Hm|]; [|done]. cbn [negb].
  destruct (Z.ltb_spec 64 (Z.of_nat (length l) / 1024)) as [|Hle]; [done|]. intros _.
  set (nc := Z.of_nat (length l) / 1024) in *.
  assert (Hlen : Z.of_nat (length l) = nc * 1024) by (unfold nc; rewrite (Z.div_mod (Z.of_nat (length l)) 1024) at 1; lia).
  assert (Hnc : 0 <= nc) by (apply Z.div_pos; lia).
  destruct (Z.ltb_spec 65536 (Z.of_nat (length l))); [lia|].
  destruct (bit_indices_length true l) as [Hcount Hpos]. destruct (bit_indices_length false l) as [_ Hneg].
  rewrite (wrap_small 32 (Z.of_nat (length (bit_indices true l)))) by (unfold_words; lia).
  rewrite (wrap_small 32 (Z.of_nat (length l))), (wrap_small 32 (_ - _)), (wrap_small 8 nc) by (unfold_words; lia).
  change (65536 / 16) with 4096. change (65536 / 8) with 8192.
  destruct (Z.ltb_spec (Z.of_nat (length (bit_indices true l))) 4096) as [Hp|Hp];
    [|destruct (Z.ltb_spec (Z.of_nat (length l) - Z.of_nat (length (bit_indices true l))) 4096) as [Hn|Hn]].
  - rewrite wrap_small by (unfold_words; lia). destruct (indices_roundtrip w true l nc) as (bs & E & Hb & Hr); [done|lia|lia|].
    rewrite E. eexists. split; [reflexivity|]. split; [cbn [length app]; lia|]. intros R RD RL r tl Hin.
    unfold read, bitmap_block_readable. change BLOCK_NCHUNKS with 64. change LEN_BITS with 1024.
    read_next read_u8_ok; [unfold_words; lia|]. destruct (Z.ltb_spec 64 nc); [lia|].
    read_next read_u8_ok; [unfold_words; lia|]. destruct (Hr R RD RL _ tl ltac:(eassumption)) as (r2 & E2 & Ha2).
    change (1 =? 0) with false. change (1 =? 1) with true. cbv iota. cbn [negb] in E2. rewrite E2. cbn [rbind]. eexists. split; [done|adv_chain].
  - replace (Z.of_nat (length l) - _) with (Z.of_nat (length (bit_indices false l))) in * by lia.
    rewrite wrap_small by (unfold_words; lia). destruct (indices_roundtrip w false l nc) as (bs & E & Hb & Hr); [done|lia|lia|].
    rewrite E. eexists. split; [reflexivity|]. split; [cbn [length app]; lia|]. intros R RD RL r tl Hin.
    unfold read, bitmap_block_readable. change BLOCK_NCHUNKS with 64. change LEN_BITS with 1024.
    read_next read_u8_ok; [unfold_words; lia|]. destruct (Z.ltb_spec 64 nc); [lia|].
    read_next read_u8_ok; [unfold_words; lia|]. destruct (Hr R RD RL _ tl ltac:(eassumption)) as (r2 & E2 & Ha2).
    change (2 =? 0) with false. change (2 =? 1) with false. change (2 =? 2) with true. cbv iota. cbn [negb] in E2. rewrite E2. cbn [rbind].
    eexists. split; [done|adv_chain].
  - destruct (bitvec_roundtrip (Z.to_nat (nc * 128)) l) as (Eb & Hb & _); [lia|]. eexists. split; [reflexivity|].
    split; [cbn [length app]; rewrite Hb; lia|]. intros R RD RL r tl Hin.
    unfold read, bitmap_block_readable. change BLOCK_NCHUNKS with 64. change LEN_BITS with 1024.
    read_next read_u8_ok; [unfold_words; lia|]. destruct (Z.ltb_spec 64 nc); [lia|].
    read_next read_u8_ok; [unfold_words; lia|]. change (0 =? 0) with true. cbv iota.
    replace (nc * 1024 / 8) with (nc * 128) by (apply Z.div_unique with 0; lia).
    destruct (read_fixed_ok r1 (nc * 128) (bitvec_to_bytes l) tl) as (r2 & E2 & Ha2);
      [lia|unfold MAX_READ_SIZE; lia|done|].
    rewrite E2. cbn [rbind]. rewrite Eb. eexists. split; [done|adv_chain].
Qed.

(** * Witnesses *)

Lemma accumulator_incremental_witness :
  exists a a1 a2 r, acc_init (CR := sample_crypto) acc_new [0; 5; 1030] 1031 = Some (Ok a) /\
    acc_apply (CR := sample_crypto) a [1030] [1024; 3000] 3001 = Some (Ok a1) /\
    acc_init (CR := sample_crypto) acc_new [0; 5; 1024; 3000] 3001 = Some (Ok a2) /\
    acc_root (CR := sample_crypto) a1 = Some r /\ acc_root (CR := sample_crypto) a2 = Some r.
Proof.
  destruct (accumulator_incremental (CR := sample_crypto) [0; 5; 1030] 1031 3001 1030 [] [1024; 3000])
    as (a & a1 & a2 & r & E & E1 & E2 & _ & _ & R1 & R2);
    [lia|lia|lia|repeat constructor; lia|repeat constructor; lia|repeat constructor; lia
    |repeat constructor; vm_compute; congruence|done|].
  exists a, a1, a2, r. split_and!; assumption.
Defined.

Lemma bitmap_block_roundtrip_witness :
  let b := mkBitmapBlock (replicate 1023 false ++ [true]) in
  write_bitmap_block (mkWriter SerFull local_db) b = Some (Ok [1; 1; 0; 1; 3; 255]) /\
  exists r', read (A := BitmapBlock) (BinReader.mk [1; 1; 0; 1; 3; 255; 7] local_db DeFull) = Ok (b, r') /\ BinReader.source r' = [7].
Proof.
  intros b. destruct (bitmap_block_roundtrip (mkWriter SerFull local_db) b 1 eq_refl) as (bs & E & _ & H).
  assert (Ebs : write_bitmap_block (mkWriter SerFull local_db) b = Some (Ok [1; 1; 0; 1; 3; 255])) by (vm_compute; reflexivity).
  split; [exact Ebs|]. rewrite E in Ebs. injection Ebs as ->.
  destruct (H BinReader.t BinReader.reader binreader_laws (BinReader.mk [1; 1; 0; 1; 3; 255; 7] local_db DeFull) [7] eq_refl)
    as (r' & E' & Ha & _). exists r'. split; [exact E'|exact Ha].
Defined.
