(* ===== verification/BitmapSegment.v ===== *)
(** Segments of the bitmap on the wire.

    Models [BitmapSegment] of [src/chain/src/txhashset/bitmap_accumulator.rs]: the
    form in which a segment of the accumulator is sent, in blocks of up to 64
    chunks, its encoding, and the conversions from and to a segment of chunks.
    [None] is a failed assertion. *)

From Stdlib Require Import ZArith Lia.
From stdpp Require Import base numbers option sorting gmap list.
From S2P Require Import Prelude Consensus PmmrIndex Pmmr Ser LinkedList Kernel CutThrough Transaction PowTypes Block ChainTypes Bitmap BitmapAccumulator Segments.
Open Scope Z_scope.

Record BitmapSegment : Type := mkBitmapSegment {
  bs_identifier : SegmentIdentifier;
  bs_blocks : list BitmapBlock;
  bs_proof : SegmentProof Ser.Hash;
}.

Definition MAX_SEGMENT_HEIGHT : Z := 13.

Definition bs_max_chunks (id : SegmentIdentifier) : result ser_error Z :=
  if MAX_SEGMENT_HEIGHT <? Segments.height id then Err TooLargeReadErr
  else if 64 <=? Segments.height id then Err TooLargeReadErr else Ok (Z.shiftl 1 (Segments.height id)).

Definition bs_leaf_offset (id : SegmentIdentifier) : result ser_error Z :=
  if 64 <=? Segments.height id then Err TooLargeReadErr
  else
    let segment_capacity := Z.shiftl 1 (Segments.height id) in
    if segment_capacity * idx id <? 2 ^ 64 then Ok (segment_capacity * idx id) else Err TooLargeReadErr.

Definition bs_n_chunks (blocks : list BitmapBlock) : result ser_error Z :=
  match last blocks with
  | None => Err CorruptedData
  | Some last_block =>
      let full_blocks := take (length blocks - 1) blocks in
      for_each (fun block =>
        let? n := try_n_chunks block in if n =? BLOCK_NCHUNKS then Ok tt else Err CorruptedData) full_blocks ;?
      let? last_chunks := try_n_chunks last_block in
      if last_chunks =? 0 then Err CorruptedData
      else if Z.of_nat (length full_blocks) * BLOCK_NCHUNKS + last_chunks <? 2 ^ 64
      then Ok (Z.of_nat (length full_blocks) * BLOCK_NCHUNKS + last_chunks) else Err TooLargeReadErr
  end.

Definition validate_blocks (id : SegmentIdentifier) (blocks : list BitmapBlock) : result ser_error Z :=
  let? offset := bs_leaf_offset id in
  let? n_chunks := bs_n_chunks blocks in
  let? max := bs_max_chunks id in
  if max <? n_chunks then Err TooLargeReadErr
  else if offset + (n_chunks - 1) <? 2 ^ 64 then Ok n_chunks else Err TooLargeReadErr.

(** The loop over the set bits of one block; [get_mut] outside the chunks is an
    error. *)
Fixpoint set_bits (positions : list Z) (offset : Z) (chunks : list BitmapChunk) : result ser_error (list BitmapChunk) :=
  match positions with
  | [] => Ok chunks
  | i :: positions =>
      let k := Z.to_nat (offset + i / LEN_BITS) in
      match chunks !! k with
      | None => Err CorruptedData
      | Some c =>
          set_bits positions offset (<[k := mkChunk (<[Z.to_nat (i mod LEN_BITS) := true]> (bits c))]> chunks)
      end
  end.

Fixpoint fill_chunks (blocks : list BitmapBlock) (block_idx : Z) (chunks : list BitmapChunk) : result ser_error (list BitmapChunk) :=
  match blocks with
  | [] => Ok chunks
  | block :: blocks =>
      let? _ := try_n_chunks block in
      let? chunks := set_bits (bit_indices true (block_bits block)) (block_idx * BLOCK_NCHUNKS) chunks in
      fill_chunks blocks (block_idx + 1) chunks
  end.

Definition into_segment (s : BitmapSegment) : option (result ser_error (Segment BitmapChunk Ser.Hash)) :=
  match validate_blocks (bs_identifier s) (bs_blocks s), bs_leaf_offset (bs_identifier s) with
  | Err e, _ | _, Err e => Some (Err e)
  | Ok n_chunks, Ok offset =>
      let leaf_pos := map (fun i => insertion_to_pmmr_index (offset + i)) (seqZ 0 n_chunks) in
      match fill_chunks (bs_blocks s) 0 (replicate (Z.to_nat n_chunks) Chunk.new) with
      | Err e => Some (Err e)
      | Ok chunks =>
          let! segment := from_parts (bs_identifier s) [] [] leaf_pos chunks (bs_proof s) in Some (Ok segment)
      end
  end.

(** [From<Segment<BitmapChunk>>]: the number of chunks of each block, then the bits
    of the chunks. *)
Fixpoint block_sizes (fuel : nat) (chunks_left : Z) : list Z :=
  match fuel with
  | O => []
  | S fuel =>
      if 0 <? chunks_left then
        let n_chunks := Z.min BLOCK_NCHUNKS chunks_left in n_chunks :: block_sizes fuel (sat_sub64 chunks_left n_chunks)
      else []
  end.

Fixpoint set_block_bits (positions : list Z) (offset : Z) (b : BitmapBlock) : BitmapBlock :=
  match positions with
  | [] => b
  | i :: positions => set_block_bits positions offset (mkBitmapBlock (<[Z.to_nat (offset + i) := true]> (block_bits b)))
  end.

Fixpoint copy_chunks (leaf_data : list BitmapChunk) (chunk_idx : Z) (blocks : list BitmapBlock) : option (list BitmapBlock) :=
  match leaf_data with
  | [] => Some blocks
  | chunk :: leaf_data =>
      if negb (Z.of_nat (length (bits chunk)) =? LEN_BITS) then None
      else
        let k := Z.to_nat (chunk_idx / BLOCK_NCHUNKS) in
        let! block := blocks !! k in
        let offset := (chunk_idx mod BLOCK_NCHUNKS) * LEN_BITS in
        copy_chunks leaf_data (chunk_idx + 1) (<[k := set_block_bits (bit_indices true (bits chunk)) offset block]> blocks)
  end.

Definition from_segment (s : Segment BitmapChunk Ser.Hash) : option BitmapSegment :=
  let n := Z.of_nat (length (leaf_data s)) in
  let! blocks := mapM bitmap_block_new (block_sizes (length (leaf_data s)) n) in
  let! blocks := copy_chunks (leaf_data s) 0 blocks in
  Some (mkBitmapSegment (Segments.identifier s) blocks (seg_proof s)).

Fixpoint write_blocks (w : Writer) (l : list BitmapBlock) : option (result ser_error bytes) :=
  match l with
  | [] => Some (Ok [])
  | b :: l => let! x := write_bitmap_block w b in let! y := write_blocks w l in Some (x +w+ y)
  end.

Definition write_bitmap_segment (w : Writer) (s : BitmapSegment) : option (result ser_error bytes) :=
  let! blocks := write_blocks w (bs_blocks s) in
  Some (write w (bs_identifier s) +w+ write_u16 w (wrap 16 (Z.of_nat (length (bs_blocks s)))) +w+ blocks +w+ write w (bs_proof s)).

#[export] Instance bitmap_segment_readable : Readable BitmapSegment := fun R _ r =>
  let? (identifier, r) := read (A := SegmentIdentifier) r in
  let? (n_blocks, r) := read_u16 r in
  if n_blocks =? 0 then Err CorruptedData
  else
    let? max_chunks := bs_max_chunks identifier in
    let max_blocks := div_ceil max_chunks BLOCK_NCHUNKS in
    if max_blocks <? n_blocks then Err TooLargeReadErr
    else
      let? _ := bs_leaf_offset identifier in
      let? (blocks, r) := read_items r (Z.to_nat n_blocks) in
      let? _ := validate_blocks identifier blocks in
      let? (proof, r) := read r in
      Ok (mkBitmapSegment identifier blocks proof, r).

(** * Bits *)

(** The bit at a place of the sequence of all blocks, and of all chunks. *)
Definition block_bit (bl : list BitmapBlock) (p : Z) : option bool :=
  let! b := bl !! Z.to_nat (p / 65536) in block_bits b !! Z.to_nat (p mod 65536).
Definition chunk_bit (cs : list BitmapChunk) (p : Z) : option bool :=
  let! c := cs !! Z.to_nat (p / 1024) in bits c !! Z.to_nat (p mod 1024).

Definition chunks_shaped (cs : list BitmapChunk) : Prop := Forall (fun c => length (bits c) = 1024%nat) cs.
Definition same_shape (a b : list BitmapBlock) : Prop := map (fun x => length (block_bits x)) a = map (fun x => length (block_bits x)) b.

Lemma set_block_bits_all ps off b :
  block_bits (set_block_bits ps off b) = set_all true (map (Z.add off) ps) (block_bits b).
Proof. revert b. induction ps as [|p ps IH]; intros b; [done|]. cbn [set_block_bits map]. by rewrite IH. Qed.

Lemma set_all_length v ps l : length (set_all v ps l) = length l.
Proof. revert l. induction ps as [|p ps IH]; intros l; [done|]. cbn [set_all fold_left]. change (fold_left _ ps ?x) with (set_all v ps x). by rewrite IH, length_insert. Qed.

Lemma elem_of_shifted off ps x : x ∈ map (Z.add off) ps <-> x - off ∈ ps.
Proof.
  rewrite list_elem_of_fmap. split.
  - intros (y & -> & Hy). by replace (off + y - off) with y by lia.
  - intros Hx. exists (x - off). split; [lia|done].
Qed.

Lemma set_bits_spec ps off cs :
  chunks_shaped cs -> 0 <= off ->
  Forall (fun i => 0 <= i /\ off + i / 1024 < Z.of_nat (length cs)) ps ->
  exists cs', set_bits ps off cs = Ok cs' /\ chunks_shaped cs' /\ length cs' = length cs /\
    forall p, 0 <= p < 1024 * Z.of_nat (length cs) ->
      chunk_bit cs' p = if decide (p - off * 1024 ∈ ps) then Some true else chunk_bit cs p.
Proof.
  intros Hs Ho Hp. revert cs Hs Hp. induction ps as [|i ps IH]; intros cs Hs Hp.
  { exists cs. split_and!; [done..|]. intros p _. rewrite decide_False; [done|]. apply not_elem_of_nil. }
  apply Forall_cons in Hp as [[Hi0 Hi] Hp]. cbn [set_bits]. change LEN_BITS with 1024.
  assert (0 <= i / 1024) by (apply Z.div_pos; lia).
  destruct (lookup_lt_is_Some_2 cs (Z.to_nat (off + i / 1024))) as [c Ec]; [lia|]. rewrite Ec.
  assert (Hc : length (bits c) = 1024%nat) by (by eapply Forall_lookup_1 in Hs).
  set (c' := mkChunk (<[Z.to_nat (i mod 1024) := true]> (bits c))).
  destruct (IH (<[Z.to_nat (off + i / 1024) := c']> cs)) as (cs' & -> & Hs' & Hl & Hb).
  - apply Forall_insert; [done|]. unfold c'. cbn [bits]. by rewrite length_insert.
  - eapply Forall_impl; [exact Hp|]. intros x. by rewrite length_insert.
  - exists cs'. rewrite length_insert in Hl, Hb. split_and!; [done..|]. intros p Hpr. rewrite Hb by done.
    destruct (decide (p - off * 1024 ∈ ps)) as [Hin|Hin].
    { rewrite decide_True; [done|]. by right. }
    pose proof (Z.div_mod p 1024 ltac:(lia)). pose proof (Z.mod_pos_bound p 1024 ltac:(lia)).
    pose proof (Z.div_mod i 1024 ltac:(lia)). pose proof (Z.mod_pos_bound i 1024 ltac:(lia)).
    assert (0 <= p / 1024) by (apply Z.div_pos; lia).
    unfold chunk_bit. destruct (decide (p / 1024 = off + i / 1024)) as [Ek|Ek].
    + rewrite Ek, list_lookup_insert_eq by lia. rewrite Ec. cbn [mbind option_bind]. unfold c'. cbn [bits].
      destruct (decide (p mod 1024 = i mod 1024)) as [Em|Em].
      * rewrite Em, list_lookup_insert_eq by lia. rewrite decide_True; [done|]. apply elem_of_cons. left. lia.
      * rewrite list_lookup_insert_ne by lia. rewrite decide_False; [done|].
        intros [Hx|Hx]%elem_of_cons; [|done]. apply Em. symmetry. apply Z.mod_unique with (off + i / 1024); lia.
    + rewrite list_lookup_insert_ne by lia. rewrite decide_False; [done|].
      intros [Hx|Hx]%elem_of_cons; [|done]. apply Ek. symmetry. apply Z.div_unique with (i mod 1024); lia.
Qed.

Lemma block_bit_set bl k b ps off p :
  bl !! k = Some b -> Forall (Z.le 0) ps -> 0 <= off -> 0 <= p ->
  Forall (fun i => off + i < Z.of_nat (length (block_bits b))) ps -> Z.of_nat (length (block_bits b)) <= 65536 ->
  block_bit (<[k := set_block_bits ps off b]> bl) p =
    if decide (p - (Z.of_nat k * 65536 + off) ∈ ps) then Some true else block_bit bl p.
Proof.
  intros Ek Hp Ho Hp0 Hlt Hb. unfold block_bit.
  pose proof (Z.div_mod p 65536 ltac:(lia)). pose proof (Z.mod_pos_bound p 65536 ltac:(lia)).
  assert (0 <= p / 65536) by (apply Z.div_pos; lia). pose proof (lookup_lt_Some _ _ _ Ek) as Hk.
  assert (Hps : forall x, x ∈ ps -> 0 <= x /\ off + x < Z.of_nat (length (block_bits b))).
  { intros x Hx. rewrite Forall_forall in Hp, Hlt. split; [by apply Hp|by apply Hlt]. }
  destruct (decide (p / 65536 = Z.of_nat k)) as [E|E].
  - rewrite E, Nat2Z.id, list_lookup_insert_eq by done. rewrite Ek. cbn [mbind option_bind].
    rewrite set_block_bits_all.
    replace (p - (Z.of_nat k * 65536 + off)) with (p mod 65536 - off) by lia.
    destruct (decide (p mod 65536 < Z.of_nat (length (block_bits b)))) as [Hin|Hin].
    + rewrite set_all_lookup; [|apply Forall_forall; intros x Hx%elem_of_shifted; specialize (Hps _ Hx); lia|lia].
      rewrite Z2Nat.id by lia. destruct (decide (p mod 65536 - off ∈ ps)) as [Hx|Hx].
      * rewrite decide_True; [done|]. by apply elem_of_shifted.
      * rewrite decide_False; [done|]. by rewrite elem_of_shifted.
    + rewrite decide_False by (intros Hx; specialize (Hps _ Hx); lia).
      rewrite !lookup_ge_None_2; [done|lia|rewrite set_all_length; lia].
  - rewrite list_lookup_insert_ne by lia. rewrite decide_False; [done|]. intros Hx. specialize (Hps _ Hx). apply E.
    symmetry. apply Z.div_unique with (p - 65536 * Z.of_nat k); lia.
Qed.

Lemma map_insert_shape bl k b b' :
  bl !! k = Some b -> length (block_bits b') = length (block_bits b) -> same_shape (<[k := b']> bl) bl.
Proof.
  intros Ek Hl. unfold same_shape. change (@map BitmapBlock nat) with (@fmap list _ BitmapBlock nat).
  rewrite list_fmap_insert, Hl. apply list_insert_id. by rewrite list_lookup_fmap, Ek.
Qed.

Lemma set_block_bits_length ps off b : length (block_bits (set_block_bits ps off b)) = length (block_bits b).
Proof. by rewrite set_block_bits_all, set_all_length. Qed.

(** The blocks hold at least the first [n] chunks. *)
Definition holds_chunks (bl : list BitmapBlock) (n : Z) : Prop :=
  forall c, 0 <= c < n -> exists b, bl !! Z.to_nat (c / 64) = Some b /\
    (c mod 64 + 1) * 1024 <= Z.of_nat (length (block_bits b)) <= 65536.

Lemma holds_same_shape a b n : same_shape a b -> holds_chunks b n -> holds_chunks a n.
Proof.
  intros Hs Hh c Hc. destruct (Hh c Hc) as (x & Ex & Hx).
  assert (E : ((fun x => length (block_bits x)) <$> a) !! Z.to_nat (c / 64) = Some (length (block_bits x))).
  { change (@fmap list _ BitmapBlock nat) with (@map BitmapBlock nat). rewrite Hs.
    change (@map BitmapBlock nat) with (@fmap list _ BitmapBlock nat). by rewrite list_lookup_fmap, Ex. }
  rewrite list_lookup_fmap in E. destruct (a !! Z.to_nat (c / 64)) as [y|]; [|done]. exists y. split; [done|].
  cbn in E. injection E as ->. done.
Qed.

Lemma copy_chunks_spec cs c0 bl :
  chunks_shaped cs -> 0 <= c0 -> holds_chunks bl (c0 + Z.of_nat (length cs)) ->
  exists bl', copy_chunks cs c0 bl = Some bl' /\ same_shape bl' bl /\
    forall p, 0 <= p -> block_bit bl' p =
      if decide (c0 * 1024 <= p /\ chunk_bit cs (p - c0 * 1024) = Some true) then Some true else block_bit bl p.
Proof.
  intros Hs. revert c0 bl. induction Hs as [|c cs Hc Hs IH]; intros c0 bl H0 Hh.
  { exists bl. split_and!; [done..|]. intros p Hp. rewrite decide_False; [done|]. intros [_ E]. unfold chunk_bit in E. by rewrite lookup_nil in E. }
  cbn [copy_chunks]. rewrite Hc. change LEN_BITS with 1024. change (Z.of_nat 1024 =? 1024) with true. cbn [negb].
  change BLOCK_NCHUNKS with 64. cbn [length] in Hh.
  destruct (Hh c0) as (b & Eb & Hb1 & Hb2); [lia|]. rewrite Eb. cbn [mbind option_bind].
  pose proof (Z.div_mod c0 64 ltac:(lia)) as Hd. pose proof (Z.mod_pos_bound c0 64 ltac:(lia)) as Hm.
  assert (0 <= c0 / 64) by (apply Z.div_pos; lia).
  set (ps := bit_indices true (bits c)). set (off := c0 mod 64 * 1024).
  assert (Hps : Forall (fun i => 0 <= i < 1024) ps).
  { apply Forall_forall. intros x [Hx Ex]%elem_of_bit_indices. apply lookup_lt_Some in Ex. rewrite Hc in Ex.
    change 1024%nat with (Z.to_nat 1024) in Ex. lia. }
  assert (Hp1 : Forall (Z.le 0) ps) by (eapply Forall_impl; [exact Hps|]; intros x ?; cbn beta in *; lia).
  assert (Hp2 : Forall (fun i => off + i < Z.of_nat (length (block_bits b))) ps)
    by (eapply Forall_impl; [exact Hps|]; intros x ?; cbn beta in *; unfold off; lia).
  destruct (IH (c0 + 1) (<[Z.to_nat (c0 / 64) := set_block_bits ps off b]> bl)) as (bl' & -> & Hsh & Hbit); [lia| |].
  { eapply holds_same_shape; [eapply map_insert_shape; [exact Eb|apply set_block_bits_length]|].
    by replace (c0 + 1 + Z.of_nat (length cs)) with (c0 + Z.of_nat (S (length cs))) by lia. }
  exists bl'. split_and!; [done| |].
  { unfold same_shape in *. rewrite Hsh. eapply map_insert_shape; [exact Eb|apply set_block_bits_length]. }
  intros p Hp. rewrite Hbit by done. rewrite (block_bit_set bl (Z.to_nat (c0 / 64)) b ps off p Eb Hp1 ltac:(unfold off; lia) Hp Hp2 Hb2).
  rewrite Z2Nat.id by done. replace (c0 / 64 * 65536 + off) with (c0 * 1024) by (unfold off; lia).
  assert (Ehead : c0 * 1024 <= p < (c0 + 1) * 1024 -> chunk_bit (c :: cs) (p - c0 * 1024) = bits c !! Z.to_nat (p - c0 * 1024)).
  { intros Hr. unfold chunk_bit. rewrite Z.div_small, Z.mod_small by lia. done. }
  assert (Etail : (c0 + 1) * 1024 <= p -> chunk_bit (c :: cs) (p - c0 * 1024) = chunk_bit cs (p - (c0 + 1) * 1024)).
  { intros Hr. unfold chunk_bit. replace (p - c0 * 1024) with (p - (c0 + 1) * 1024 + 1 * 1024) by lia.
    rewrite Z.div_add, Z.mod_add by lia. assert (0 <= (p - (c0 + 1) * 1024) / 1024) by (apply Z.div_pos; lia).
    rewrite Z2Nat.inj_add by lia. change (Z.to_nat 1) with 1%nat. by rewrite Nat.add_1_r. }
  destruct (decide ((c0 + 1) * 1024 <= p)) as [Hge|Hlt].
  - rewrite Etail by done. destruct (decide (chunk_bit cs (p - (c0 + 1) * 1024) = Some true)) as [Eb1|Eb1].
    + rewrite decide_True by done. rewrite decide_True by (split; [lia|done]). done.
    + rewrite decide_False by (by intros [_ ?]). rewrite (decide_False (P := _ /\ _)) by (by intros [_ ?]).
      rewrite decide_False; [done|]. intros Hx. rewrite Forall_forall in Hps. specialize (Hps _ Hx). cbn beta in Hps. lia.
  - rewrite decide_False by (intros [? _]; lia).
    destruct (decide (p - c0 * 1024 ∈ ps)) as [Hx|Hx].
    + pose proof Hx as [Hx0 Ex]%elem_of_bit_indices. rewrite decide_True; [done|]. split; [lia|]. by rewrite Ehead by lia.
    + rewrite decide_False; [done|]. intros [Hge Ex]. apply Hx. apply elem_of_bit_indices. split; [lia|].
      by rewrite <- Ehead by lia.
Qed.

Lemma fill_chunks_spec bl b0 cs :
  chunks_shaped cs -> 0 <= b0 -> Forall (fun b => exists n, try_n_chunks b = Ok n) bl ->
  (forall k b, bl !! k = Some b -> (b0 + Z.of_nat k) * 65536 + Z.of_nat (length (block_bits b)) <= 1024 * Z.of_nat (length cs)) ->
  exists cs', fill_chunks bl b0 cs = Ok cs' /\ chunks_shaped cs' /\ length cs' = length cs /\
    forall p, 0 <= p < 1024 * Z.of_nat (length cs) ->
      chunk_bit cs' p = if decide (b0 * 65536 <= p /\ block_bit bl (p - b0 * 65536) = Some true) then Some true else chunk_bit cs p.
Proof.
  intros Hs H0 Ht. revert b0 cs Hs H0. induction Ht as [|b bl [n Hn] Ht IH]; intros b0 cs Hs H0 Hfit.
  { exists cs. split_and!; [done..|]. intros p Hp. rewrite decide_False; [done|]. intros [_ E]. unfold block_bit in E. by rewrite lookup_nil in E. }
  cbn [fill_chunks]. rewrite Hn. cbn [rbind]. change BLOCK_NCHUNKS with 64.
  pose proof (Hfit 0%nat b eq_refl) as Hb.
  assert (Hb2 : Z.of_nat (length (block_bits b)) <= 65536).
  { unfold try_n_chunks in Hn. change LEN_BITS with 1024 in Hn. change BLOCK_NCHUNKS with 64 in Hn.
    destruct (Z.eqb_spec (Z.of_nat (length (block_bits b)) mod 1024) 0); [|done]. cbn [negb] in Hn.
    destruct (Z.ltb_spec 64 (Z.of_nat (length (block_bits b)) / 1024)); [done|].
    pose proof (Z.div_mod (Z.of_nat (length (block_bits b))) 1024 ltac:(lia)). lia. }
  assert (Hps : Forall (fun i => 0 <= i < Z.of_nat (length (block_bits b))) (bit_indices true (block_bits b))).
  { apply Forall_forall. intros x [Hx Ex]%elem_of_bit_indices. apply lookup_lt_Some in Ex. lia. }
  destruct (set_bits_spec (bit_indices true (block_bits b)) (b0 * 64) cs) as (cs1 & -> & Hs1 & Hl1 & Hb1); [done|lia| |].
  { eapply Forall_impl; [exact Hps|]. cbn beta. intros x Hx. split; [lia|].
    enough (x / 1024 < Z.of_nat (length cs) - b0 * 64) by lia. apply Z.div_lt_upper_bound; lia. }
  cbn [rbind]. destruct (IH (b0 + 1) cs1) as (cs2 & -> & Hs2 & Hl2 & Hbit); [done|lia| |].
  { intros k b' Ek. rewrite Hl1. specialize (Hfit (S k) b' Ek). lia. }
  exists cs2. split_and!; [done..|lia|]. intros p Hp. rewrite Hbit by (rewrite Hl1; lia). rewrite Hb1 by done.
  assert (Etail : (b0 + 1) * 65536 <= p -> block_bit (b :: bl) (p - b0 * 65536) = block_bit bl (p - (b0 + 1) * 65536)).
  { intros Hr. unfold block_bit. replace (p - b0 * 65536) with (p - (b0 + 1) * 65536 + 1 * 65536) by lia.
    rewrite Z.div_add, Z.mod_add by lia. assert (0 <= (p - (b0 + 1) * 65536) / 65536) by (apply Z.div_pos; lia).
    rewrite Z2Nat.inj_add by lia. change (Z.to_nat 1) with 1%nat. by rewrite Nat.add_1_r. }
  assert (Ehead : b0 * 65536 <= p < (b0 + 1) * 65536 -> block_bit (b :: bl) (p - b0 * 65536) = block_bits b !! Z.to_nat (p - b0 * 65536)).
  { intros Hr. unfold block_bit. rewrite Z.div_small, Z.mod_small by lia. done. }
  replace (b0 * 64 * 1024) with (b0 * 65536) by lia.
  destruct (decide ((b0 + 1) * 65536 <= p)) as [Hge|Hlt].
  - rewrite Etail by done. destruct (decide (block_bit bl (p - (b0 + 1) * 65536) = Some true)) as [E|E].
    + rewrite decide_True by done. rewrite decide_True by (split; [lia|done]). done.
    + rewrite decide_False by (by intros [_ ?]). rewrite (decide_False (P := _ /\ _)) by (by intros [_ ?]).
      rewrite decide_False; [done|]. intros Hx. rewrite Forall_forall in Hps. specialize (Hps _ Hx). cbn beta in Hps. lia.
  - rewrite decide_False by (intros [? _]; lia).
    destruct (decide (p - b0 * 65536 ∈ bit_indices true (block_bits b))) as [Hx|Hx].
    + pose proof Hx as [Hx0 Ex]%elem_of_bit_indices. rewrite decide_True; [done|]. split; [lia|]. by rewrite Ehead by lia.
    + rewrite decide_False; [done|]. intros [Hge Ex]. apply Hx. apply elem_of_bit_indices. split; [lia|].
      by rewrite <- Ehead by lia.
Qed.

(** * Shapes *)

Definition sizes_of (bl : list BitmapBlock) : list Z := map (fun b => Z.of_nat (length (block_bits b))) bl.

Lemma same_shape_sizes a b : same_shape a b -> sizes_of a = sizes_of b.
Proof.
  unfold same_shape, sizes_of. intros H. apply (f_equal (map Z.of_nat)) in H. by rewrite !map_map in H.
Qed.

(** [m] full blocks and a last one of [r] chunks. *)
Definition block_shape (m r : Z) : list Z := replicate (Z.to_nat m) 65536 ++ [r * 1024].

Lemma block_sizes_spec fuel n :
  0 < n <= Z.of_nat fuel ->
  map (fun k => k * 1024) (block_sizes fuel n) = block_shape ((n - 1) / 64) (n - 64 * ((n - 1) / 64)) /\
  Forall (fun k => 0 < k <= 64) (block_sizes fuel n).
Proof.
  revert n. induction fuel as [|fuel IH]; intros n Hn; [lia|]. cbn [block_sizes].
  destruct (Z.ltb_spec 0 n); [|lia]. cbv zeta. change BLOCK_NCHUNKS with 64. cbn [map].
  destruct (Z.le_gt_cases n 64) as [Hle|Hgt].
  - rewrite Z.min_r by lia. replace (sat_sub64 n n) with 0 by (unfold sat_sub64; lia).
    assert (E0 : block_sizes fuel 0 = []) by (by destruct fuel).
    rewrite E0. cbn [map]. rewrite Z.div_small by lia. unfold block_shape. cbn [Z.to_nat replicate app].
    split; [apply (f_equal (fun x => [x])); lia|]. constructor; [lia|constructor].
  - rewrite Z.min_l by lia. replace (sat_sub64 n 64) with (n - 64) by (unfold sat_sub64; lia).
    destruct (IH (n - 64)) as [-> Hf]; [lia|]. split; [|constructor; [lia|done]].
    replace (n - 64 - 1) with (n - 1 + (-1) * 64) by lia. rewrite Z.div_add by lia.
    assert (1 <= (n - 1) / 64) by (apply Z.div_le_lower_bound; lia).
    unfold block_shape. replace (Z.to_nat ((n - 1) / 64)) with (S (Z.to_nat ((n - 1) / 64 + -1))) by lia.
    cbn [replicate app]. f_equal. f_equal. f_equal. lia.
Qed.

Lemma new_blocks l :
  Forall (fun k => 0 < k <= 64) l ->
  mapM bitmap_block_new l = Some (map (fun k => mkBitmapBlock (replicate (Z.to_nat (k * 1024)) false)) l).
Proof.
  intros Hl. apply mapM_Some. induction Hl as [|k l Hk Hl IH]; cbn [map]; constructor; [|done].
  unfold bitmap_block_new. change BLOCK_NCHUNKS with 64. destruct (Z.leb_spec k 64); [done|lia].
Qed.

Lemma try_n_chunks_size b n :
  Z.of_nat (length (block_bits b)) = n * 1024 -> 0 <= n <= 64 -> try_n_chunks b = Ok n.
Proof.
  intros Hl Hn. unfold try_n_chunks. change LEN_BITS with 1024. change BLOCK_NCHUNKS with 64. cbv zeta.
  rewrite Hl, Z.mod_mul, Z.div_mul by lia. cbn [Z.eqb negb]. destruct (Z.ltb_spec 64 n); [lia|done].
Qed.

Lemma shape_blocks bl m r :
  0 <= m -> sizes_of bl = block_shape m r ->
  exists full b, bl = full ++ [b] /\ Z.of_nat (length full) = m /\
    Forall (fun b => Z.of_nat (length (block_bits b)) = 65536) full /\ Z.of_nat (length (block_bits b)) = r * 1024.
Proof.
  intros Hm Hs. unfold sizes_of, block_shape in Hs. apply map_eq_app in Hs as (full & lst & -> & Hf & Hl).
  destruct lst as [|b [|? ?]]; [done| |done]. injection Hl as Hl. exists full, b. split_and!; [done| | |done].
  - apply (f_equal length) in Hf. rewrite length_map, length_replicate in Hf. lia.
  - apply Forall_forall. intros x Hx. apply list_elem_of_In in Hx.
    apply (in_map (fun b => Z.of_nat (length (block_bits b)))) in Hx. rewrite Hf in Hx.
    by apply list_elem_of_In, elem_of_replicate in Hx as [-> _].
Qed.

Lemma bs_n_chunks_shape bl m r :
  0 <= m < 2 ^ 50 -> 1 <= r <= 64 -> sizes_of bl = block_shape m r -> bs_n_chunks bl = Ok (64 * m + r).
Proof.
  intros Hm Hr (full & b & -> & Hlen & Hf & Hb)%shape_blocks; [|lia]. unfold bs_n_chunks.
  rewrite last_snoc, length_app. cbn [length]. replace (length full + 1 - 1)%nat with (length full) by lia.
  rewrite take_app_length. rewrite (proj2 (for_each_Ok _ full)).
  - cbn [rbind]. rewrite (try_n_chunks_size b r) by (done || lia). cbn [rbind]. change BLOCK_NCHUNKS with 64.
    destruct (Z.eqb_spec r 0); [lia|]. rewrite Hlen. destruct (Z.ltb_spec (m * 64 + r) (2 ^ 64)); [f_equal; lia|lia].
  - eapply Forall_impl; [exact Hf|]. cbn beta. intros x Hx. rewrite (try_n_chunks_size x 64) by lia.
    cbn [rbind]. by change BLOCK_NCHUNKS with 64.
Qed.

Lemma shape_tries bl m r : 0 <= m -> 1 <= r <= 64 -> sizes_of bl = block_shape m r ->
  Forall (fun b => exists n, try_n_chunks b = Ok n) bl.
Proof.
  intros Hm Hr (full & b & -> & _ & Hf & Hb)%shape_blocks; [|done]. apply Forall_app. split.
  - eapply Forall_impl; [exact Hf|]. cbn beta. intros x Hx. exists 64. by apply try_n_chunks_size; [|lia].
  - constructor; [|constructor]. exists r. by apply try_n_chunks_size; [|lia].
Qed.

Lemma shape_lookup bl m r k b : 0 <= m -> 1 <= r <= 64 -> sizes_of bl = block_shape m r -> bl !! k = Some b ->
  Z.of_nat k <= m /\ Z.of_nat (length (block_bits b)) = if decide (Z.of_nat k = m) then r * 1024 else 65536.
Proof.
  intros Hm Hr (full & b' & -> & Hlen & Hf & Hb)%shape_blocks Hk; [|done].
  apply lookup_app_Some in Hk as [Hk|[Hk1 Hk2]].
  - pose proof (lookup_lt_Some _ _ _ Hk). split; [lia|]. rewrite decide_False by lia. by eapply Forall_lookup_1 in Hf.
  - destruct (k - length full)%nat eqn:E; [|done]. injection Hk2 as <-. split; [lia|]. by rewrite decide_True by lia.
Qed.

Lemma shape_holds bl n :
  0 < n -> sizes_of bl = block_shape ((n - 1) / 64) (n - 64 * ((n - 1) / 64)) -> holds_chunks bl n.
Proof.
  intros Hn Hs c Hc. set (m := (n - 1) / 64) in *.
  pose proof (Z.div_mod (n - 1) 64 ltac:(lia)) as Hd. pose proof (Z.mod_pos_bound (n - 1) 64 ltac:(lia)). fold m in Hd.
  assert (0 <= m) by (apply Z.div_pos; lia).
  pose proof (Z.div_mod c 64 ltac:(lia)) as Hd'. pose proof (Z.mod_pos_bound c 64 ltac:(lia)).
  assert (0 <= c / 64 <= m) by (split; [apply Z.div_pos; lia|apply Z.div_le_mono; lia]).
  destruct (lookup_lt_is_Some_2 bl (Z.to_nat (c / 64))) as [b Eb].
  { apply (f_equal length) in Hs. unfold sizes_of, block_shape in Hs. rewrite length_map, length_app, length_replicate in Hs.
    cbn [length] in Hs. lia. }
  exists b. split; [done|]. destruct (shape_lookup bl m (n - 64 * m) _ b ltac:(done) ltac:(lia) Hs Eb) as [_ ->].
  rewrite Z2Nat.id by lia. destruct (decide (c / 64 = m)); lia.
Qed.

(** * The round trip *)

(** A segment of the accumulator as the segmenter cuts it: nothing is pruned, the
    leaves are consecutive, and the proof can be sent. *)
Record bitmap_cut (v : ProtocolVersion) (s : Segment BitmapChunk Ser.Hash) : Prop := {
  bc_height : 0 <= Segments.height (Segments.identifier s) <= MAX_SEGMENT_HEIGHT;
  bc_idx : 0 <= idx (Segments.identifier s) < 2 ^ 48;
  bc_count : 0 < Z.of_nat (length (leaf_data s)) <= 2 ^ Segments.height (Segments.identifier s);
  bc_chunks : chunks_shaped (leaf_data s);
  bc_hashes : hash_pos s = [] /\ hashes s = [];
  bc_pos : leaf_pos s = map (fun i => npos 0 (2 ^ Segments.height (Segments.identifier s) * idx (Segments.identifier s) + i))
    (seqZ 0 (Z.of_nat (length (leaf_data s))));
  bc_proof : wire_proof v (seg_proof s);
}.

Lemma chunk_bit_ext a b :
  chunks_shaped a -> chunks_shaped b -> length a = length b ->
  (forall p, 0 <= p < 1024 * Z.of_nat (length a) -> chunk_bit a p = chunk_bit b p) -> a = b.
Proof.
  intros Ha Hb Hl He. apply (list_eq_same_length _ _ (length a)); [done|done|].
  intros i x y Hi Hx Hy. destruct x as [x], y as [y]. f_equal.
  pose proof (Forall_lookup_1 _ _ _ _ Ha Hx) as Lx. pose proof (Forall_lookup_1 _ _ _ _ Hb Hy) as Ly. cbn [bits] in Lx, Ly.
  apply list_eq. intros j. destruct (decide (j < 1024)%nat) as [Hj|Hj].
  - specialize (He (Z.of_nat i * 1024 + Z.of_nat j)). unfold chunk_bit in He.
    assert (Z.of_nat j < 1024) by lia.
    rewrite Z.div_add_l, Z.div_small, Z.add_0_r in He by lia.
    rewrite Z.add_comm, Z.mod_add, Z.mod_small in He by lia. rewrite !Nat2Z.id, Hx, Hy in He. apply He. lia.
  - rewrite !lookup_ge_None_2; [done|lia|lia].
Qed.

Lemma chunk_bit_new n p : 0 <= p < 1024 * n -> chunk_bit (replicate (Z.to_nat n) Chunk.new) p = Some false.
Proof.
  intros Hp. unfold chunk_bit. pose proof (Z.mod_pos_bound p 1024 ltac:(lia)).
  assert (0 <= p / 1024 < n) by (split; [apply Z.div_pos; lia|apply Z.div_lt_upper_bound; lia]).
  rewrite lookup_replicate_2 by lia. cbn [mbind option_bind]. unfold Chunk.new. cbn [bits]. change LEN_BITS with 1024.
  apply lookup_replicate_2. lia.
Qed.

Lemma chunk_bit_some cs p : chunks_shaped cs -> 0 <= p < 1024 * Z.of_nat (length cs) -> exists b, chunk_bit cs p = Some b.
Proof.
  intros Hs Hp. unfold chunk_bit. pose proof (Z.mod_pos_bound p 1024 ltac:(lia)).
  assert (0 <= p / 1024 < Z.of_nat (length cs)) by (split; [apply Z.div_pos; lia|apply Z.div_lt_upper_bound; lia]).
  destruct (lookup_lt_is_Some_2 cs (Z.to_nat (p / 1024))) as [c Ec]; [lia|]. rewrite Ec. cbn [mbind option_bind].
  apply lookup_lt_is_Some_2. assert (length (bits c) = 1024%nat) by (by eapply Forall_lookup_1 in Hs). lia.
Qed.

Lemma block_bit_new l p : block_bit (map (fun k => mkBitmapBlock (replicate (Z.to_nat (k * 1024)) false)) l) p <> Some true.
Proof.
  unfold block_bit. change (@map Z BitmapBlock) with (@fmap list _ Z BitmapBlock). rewrite list_lookup_fmap.
  destruct (l !! _) as [k|]; [|done]. cbn. intros [E _]%lookup_replicate. done.
Qed.

Lemma sizes_of_new l : Forall (fun k => 0 < k <= 64) l ->
  sizes_of (map (fun k => mkBitmapBlock (replicate (Z.to_nat (k * 1024)) false)) l) = map (fun k => k * 1024) l.
Proof.
  intros Hl. unfold sizes_of. rewrite map_map. cbn [block_bits].
  induction Hl as [|k l Hk Hl IH]; [done|]. cbn [map]. rewrite IH, length_replicate. f_equal. lia.
Qed.

Lemma increasing_sorted last l : StronglySorted Z.lt l -> Forall (fun x => last < x) l \/ last = 0 -> increasing_from last l = true.
Proof.
  intros Hs. revert last. induction Hs as [|x l Hs IH Hx]; intros last Hl; [done|]. cbn [increasing_from].
  rewrite IH by (by left). rewrite andb_true_r. apply orb_true_iff. destruct Hl as [Hl| ->]; [right|by left].
  apply Forall_cons in Hl as [? _]. lia.
Qed.

Lemma npos_run_sorted o a n : 0 <= o + a -> StronglySorted Z.lt (map (fun i => npos 0 (o + i)) (seqZ a n)).
Proof.
  intros Ho. destruct (decide (0 <= n)) as [Hn|Hn]; [|rewrite seqZ_nil by lia; constructor].
  revert a Ho. pattern n. apply natlike_ind; [|intros m Hm IH a Ho|done].
  { intros a _. rewrite seqZ_nil by lia. constructor. }
  rewrite seqZ_cons by lia. cbn [map]. replace (Z.pred (Z.succ m)) with m by lia.
  constructor; [apply IH; lia|]. apply Forall_forall. intros x Hx. apply list_elem_of_fmap in Hx as (i & -> & Hi%elem_of_seqZ).
  apply npos0_mono; lia.
Qed.

Lemma write_blocks_reads w bl :
  Forall (fun b => exists n, try_n_chunks b = Ok n) bl ->
  exists bs, write_blocks w bl = Some (Ok bs) /\
    forall R (RD : Reader R) (RL : ReaderLaws R) (r : R) tl, input r = bs ++ tl ->
      exists r', read_items r (length bl) = Ok (bl, r') /\ advanced input r r' tl.
Proof.
  induction 1 as [|b bl [n Hn] Hb (bs & Ew & Hr)].
  - exists []. split; [done|]. intros R RD RL r tl Hin. by exists r.
  - destruct (bitmap_block_roundtrip w b n Hn) as (bs0 & E0 & _ & Hr0). cbn [write_blocks]. rewrite E0. cbn [mbind option_bind].
    rewrite Ew. cbn [mbind option_bind]. exists (bs0 ++ bs). split; [done|]. intros R RD RL r tl Hin.
    rewrite <- app_assoc in Hin. cbn [length read_items].
    destruct (Hr0 R RD RL r _ Hin) as (r1 & -> & Ha). cbn [rbind].
    destruct (Hr R RD RL r1 tl) as (r2 & -> & Hb2); [apply Ha|]. cbn [rbind]. exists r2. split; [done|].
    by eapply advanced_trans.
Qed.

(** The blocks of a segment, and the way back. *)
Lemma from_segment_spec v s :
  bitmap_cut v s ->
  exists bl, from_segment s = Some (mkBitmapSegment (Segments.identifier s) bl (seg_proof s)) /\
    (let n := Z.of_nat (length (leaf_data s)) in sizes_of bl = block_shape ((n - 1) / 64) (n - 64 * ((n - 1) / 64))) /\
    forall p, 0 <= p -> block_bit bl p = Some true <-> chunk_bit (leaf_data s) p = Some true.
Proof.
  intros [_ _ Hn Hs _ _ _]. set (cs := leaf_data s) in *. set (n := Z.of_nat (length cs)) in *. cbv zeta.
  destruct (block_sizes_spec (length cs) n) as [Hsz Hf]; [lia|].
  unfold from_segment. fold cs. fold n. rewrite new_blocks by done. cbn [mbind option_bind].
  set (bl0 := map _ (block_sizes (length cs) n)).
  assert (E0 : sizes_of bl0 = block_shape ((n - 1) / 64) (n - 64 * ((n - 1) / 64))) by (unfold bl0; by rewrite sizes_of_new).
  destruct (copy_chunks_spec cs 0 bl0 Hs ltac:(lia)) as (bl & -> & Hsh & Hbit); [apply shape_holds; [lia|exact E0]|].
  cbn [mbind option_bind]. exists bl. split_and!; [done|by rewrite (same_shape_sizes _ _ Hsh)|].
  intros p Hp. rewrite Hbit by done. rewrite Z.mul_0_l, Z.sub_0_r.
  destruct (decide _) as [[_ E]|E]; [done|]. split; [intros Hb; by apply block_bit_new in Hb|].
  intros Hc. exfalso. by apply E.
Qed.

Lemma max_chunks_ok id : 0 <= Segments.height id <= MAX_SEGMENT_HEIGHT -> bs_max_chunks id = Ok (2 ^ Segments.height id).
Proof.
  intros Hh. unfold bs_max_chunks, MAX_SEGMENT_HEIGHT in *. destruct (Z.ltb_spec 13 (Segments.height id)); [lia|].
  destruct (Z.leb_spec 64 (Segments.height id)); [lia|]. by rewrite Z.shiftl_1_l.
Qed.

Lemma small_capacity h : 0 <= h <= 13 -> 1 <= 2 ^ h <= 8192.
Proof.
  intros Hh. split; [pose proof (Z.pow_pos_nonneg 2 h ltac:(lia) ltac:(lia)); lia|].
  change 8192 with (2 ^ 13). apply Z.pow_le_mono_r; lia.
Qed.

Lemma leaf_offset_ok id : 0 <= Segments.height id <= MAX_SEGMENT_HEIGHT -> 0 <= idx id < 2 ^ 48 ->
  bs_leaf_offset id = Ok (2 ^ Segments.height id * idx id) /\ 0 <= 2 ^ Segments.height id * idx id < 2 ^ 61.
Proof.
  intros Hh Hi. unfold bs_leaf_offset, MAX_SEGMENT_HEIGHT in *. pose proof (small_capacity _ Hh).
  destruct (Z.leb_spec 64 (Segments.height id)); [lia|]. rewrite Z.shiftl_1_l.
  assert (0 <= 2 ^ Segments.height id * idx id < 2 ^ 61) by nia.
  destruct (Z.ltb_spec (2 ^ Segments.height id * idx id) (2 ^ 64)); [done|lia].
Qed.

Lemma validate_shape id bl n :
  0 <= Segments.height id <= MAX_SEGMENT_HEIGHT -> 0 <= idx id < 2 ^ 48 -> 0 < n <= 2 ^ Segments.height id ->
  sizes_of bl = block_shape ((n - 1) / 64) (n - 64 * ((n - 1) / 64)) ->
  validate_blocks id bl = Ok n.
Proof.
  intros Hh Hi Hn Hs. unfold validate_blocks. destruct (leaf_offset_ok id Hh Hi) as [-> Ho]. cbn [rbind].
  pose proof (small_capacity _ Hh) as Hc. pose proof (Z.div_mod (n - 1) 64 ltac:(lia)).
  pose proof (Z.mod_pos_bound (n - 1) 64 ltac:(lia)). assert (0 <= (n - 1) / 64) by (apply Z.div_pos; lia).
  rewrite (bs_n_chunks_shape bl ((n - 1) / 64) (n - 64 * ((n - 1) / 64)) ltac:(lia) ltac:(lia) Hs). cbn [rbind]. rewrite max_chunks_ok by done. cbn [rbind].
  replace (64 * ((n - 1) / 64) + (n - 64 * ((n - 1) / 64))) with n by lia.
  destruct (Z.ltb_spec (2 ^ Segments.height id) n); [lia|].
  destruct (Z.ltb_spec (2 ^ Segments.height id * idx id + (n - 1)) (2 ^ 64)); [done|lia].
Qed.

Lemma into_segment_spec v s bl :
  bitmap_cut v s ->
  (let n := Z.of_nat (length (leaf_data s)) in sizes_of bl = block_shape ((n - 1) / 64) (n - 64 * ((n - 1) / 64))) ->
  (forall p, 0 <= p -> block_bit bl p = Some true <-> chunk_bit (leaf_data s) p = Some true) ->
  into_segment (mkBitmapSegment (Segments.identifier s) bl (seg_proof s)) = Some (Ok s).
Proof.
  intros [Hh Hi Hn Hs [E1 E2] Epos _] Hsz Hbit. cbv zeta in Hsz. unfold into_segment. cbn [bs_identifier bs_blocks bs_proof].
  destruct s as [id hp hs lp ld pr]. cbn [Segments.identifier hash_pos hashes leaf_pos leaf_data seg_proof] in *. subst hp hs.
  rewrite (validate_shape id bl (Z.of_nat (length ld)) Hh Hi Hn Hsz). destruct (leaf_offset_ok id Hh Hi) as [-> Ho].
  cbv zeta. set (n := Z.of_nat (length ld)) in *. pose proof (small_capacity _ Hh) as Hc.
  pose proof (Z.div_mod (n - 1) 64 ltac:(lia)) as Hd. pose proof (Z.mod_pos_bound (n - 1) 64 ltac:(lia)) as Hm.
  assert (H0 : 0 <= (n - 1) / 64) by (apply Z.div_pos; lia).
  assert (Hlen : length (replicate (Z.to_nat n) Chunk.new) = length ld) by (rewrite length_replicate; lia).
  destruct (fill_chunks_spec bl 0 (replicate (Z.to_nat n) Chunk.new)) as (cs & -> & Hcs & Hl & Hb).
  - apply Forall_replicate. unfold Chunk.new. cbn [bits]. rewrite length_replicate. by change LEN_BITS with 1024.
  - lia.
  - eapply (shape_tries bl ((n - 1) / 64)); [| |exact Hsz]; lia.
  - intros k b Ek. rewrite Hlen. fold n. destruct (shape_lookup bl _ (n - 64 * ((n - 1) / 64)) _ _ H0 ltac:(lia) Hsz Ek) as [Hk ->].
    destruct (decide _) as [->|]; lia.
  - rewrite Hlen in Hl, Hb. fold n in Hb.
    assert (Ecs : cs = ld).
    { apply chunk_bit_ext; [done..|]. intros p Hp. rewrite Hl in Hp. rewrite Hb by done.
      rewrite Z.mul_0_l, Z.sub_0_r. destruct (chunk_bit_some ld p Hs Hp) as [b Eb].
      destruct (decide _) as [[_ E]|E]; [by apply Hbit in E; [|lia]; rewrite E|].
      rewrite chunk_bit_new by (unfold n; lia). rewrite Eb. destruct b; [|done]. exfalso. apply E. split; [lia|]. apply Hbit; [lia|done]. }
    assert (Epos' : map (fun i => insertion_to_pmmr_index (2 ^ Segments.height id * idx id + i)) (seqZ 0 n) = lp).
    { rewrite Epos. apply map_ext_in. intros i [Hi0 Hi1]%list_elem_of_In%elem_of_seqZ. apply insertion_index_npos. lia. }
    rewrite Epos', Ecs. unfold from_parts. cbn [length Nat.eqb increasing_from andb].
    assert (Hll : length lp = length ld) by (rewrite Epos, length_map, length_seqZ; unfold n; lia).
    rewrite Hll, Nat.eqb_refl. cbn [andb].
    rewrite increasing_sorted; [done| |by right]. rewrite Epos. apply npos_run_sorted. lia.
Qed.

(** The bytes of the blocks of a segment, and their reading. *)
Lemma bitmap_segment_wire v s bl :
  bitmap_cut v s ->
  (let n := Z.of_nat (length (leaf_data s)) in sizes_of bl = block_shape ((n - 1) / 64) (n - 64 * ((n - 1) / 64))) ->
  let b := mkBitmapSegment (Segments.identifier s) bl (seg_proof s) in
  exists bs, write_bitmap_segment (mkWriter SerFull v) b = Some (Ok bs) /\
    forall R (RD : Reader R) (RL : ReaderLaws R) (r : R) tl,
      protocol_version r = v -> deserialization_mode r = DeFull -> input r = bs ++ tl ->
      exists r', read r = Ok (b, r') /\ advanced input r r' tl.
Proof.
  intros [Hh Hi Hn _ _ _ Hp] Hsz b.
  pose proof (small_capacity _ Hh) as Hcap. set (n := Z.of_nat (length (leaf_data s))) in *. cbv zeta in Hsz.
  pose proof (Z.div_mod (n - 1) 64 ltac:(lia)) as Hd. pose proof (Z.mod_pos_bound (n - 1) 64 ltac:(lia)) as Hm.
  assert (H0 : 0 <= (n - 1) / 64) by (apply Z.div_pos; lia).
  destruct (write_blocks_reads (mkWriter SerFull v) bl) as (bb & Eb & Hb);
    [eapply (shape_tries bl ((n - 1) / 64)); [| |exact Hsz]; lia|].
  assert (Hlen : Z.of_nat (length bl) = (n - 1) / 64 + 1).
  { apply (f_equal length) in Hsz. unfold sizes_of, block_shape in Hsz. rewrite length_map, length_app, length_replicate in Hsz.
    cbn [length] in Hsz. lia. }
  destruct (segment_proof_roundtrips v (seg_proof s) Hp) as (bp & Ep & Hpr).
  set (id := Segments.identifier s) in *.
  assert (Hid : wire_id id) by (unfold wire_id, MAX_SEGMENT_HEIGHT in *; unfold_words; lia).
  destruct (segment_identifier_roundtrips v id Hid) as (bi & Ei & Hir).
  unfold b, write_bitmap_segment. cbn [bs_identifier bs_blocks bs_proof]. rewrite Eb. cbn [mbind option_bind]. rewrite Ei, Ep.
  rewrite wrap_small by (unfold_words; lia). eexists. split; [cbn [wseq rbind write_u16 write_fixed_bytes]; reflexivity|].
  intros R RD RL r tl Hv Hmd Hin. rewrite <- !app_assoc in Hin. unfold read, bitmap_segment_readable.
  destruct (Hir R RD RL r _ Hv Hmd Hin) as (r1 & E1 & A1). rewrite E1. cbn [rbind]. pose proof A1 as (Hin1 & Hv1 & Hm1 & _).
  destruct (read_u16_ok r1 (Z.of_nat (length bl)) _ ltac:(unfold_words; lia) Hin1) as (r2 & -> & A2). cbn [rbind].
  pose proof A2 as (Hin2 & Hv2 & Hm2 & _). destruct (Z.eqb_spec (Z.of_nat (length bl)) 0); [lia|].
  rewrite max_chunks_ok by done. cbn [rbind]. change BLOCK_NCHUNKS with 64.
  destruct (Z.ltb_spec (div_ceil (2 ^ Segments.height id) 64) (Z.of_nat (length bl))) as [Hbad|_].
  { exfalso. unfold div_ceil in Hbad. rewrite Hlen in Hbad.
    assert ((n - 1) / 64 + 1 <= (2 ^ Segments.height id + 64 - 1) / 64); [|lia].
    replace (2 ^ Segments.height id + 64 - 1) with (2 ^ Segments.height id - 1 + 1 * 64) by lia.
    rewrite Z.div_add by lia. pose proof (Z.div_le_mono (n - 1) (2 ^ Segments.height id - 1) 64). lia. }
  destruct (leaf_offset_ok id Hh Hi) as [-> _]. cbn [rbind]. rewrite Nat2Z.id.
  destruct (Hb R RD RL r2 _ Hin2) as (r3 & -> & A3). cbn [rbind]. pose proof A3 as (Hin3 & Hv3 & Hm3 & _).
  rewrite (validate_shape id bl n Hh Hi Hn Hsz). cbn [rbind].
  destruct (Hpr R RD RL r3 tl) as (r4 & E4 & A4); [congruence..|]. rewrite E4. cbn [rbind].
  exists r4. split; [done|]. do 3 (eapply advanced_trans; [eassumption|]). done.
Qed.

(** C40. The bitmap segments that a node serves survive the wire: a segment of the
    accumulator as the segmenter cuts it, of height at most 13 with at least one
    chunk and an index below 2^48, is turned into blocks without a failed
    assertion, the blocks are written, every lawful reader of the version reads the
    same blocks back and stops after them, and they turn into the same segment:
    positions, chunks and proof. *)
Theorem bitmap_segment_survives v s :
  bitmap_cut v s ->
  exists b, from_segment s = Some b /\ into_segment b = Some (Ok s) /\
    exists bs, write_bitmap_segment (mkWriter SerFull v) b = Some (Ok bs) /\
      forall R (RD : Reader R) (RL : ReaderLaws R) (r : R) tl,
        protocol_version r = v -> deserialization_mode r = DeFull -> input r = bs ++ tl ->
        exists r', read r = Ok (b, r') /\ advanced input r r' tl.
Proof.
  intros Hc. destruct (from_segment_spec v s Hc) as (bl & -> & Hsz & Hbit).
  eexists. split; [done|]. split; [by eapply into_segment_spec|]. by apply bitmap_segment_wire.
Qed.

(** ** A segment that is read and fails an assertion *)

Definition far_segment : BitmapSegment :=
  mkBitmapSegment (mkId 13 (2 ^ 50)) [mkBitmapBlock (replicate 2048 false)] (mkSegProof []).

Lemma into_segment_panics :
  (exists bs r', write_bitmap_segment (mkWriter SerFull local) far_segment = Some (Ok bs) /\
    read (BinReader.mk bs local DeFull) = Ok (far_segment, r')) /\
  into_segment far_segment = None.
Proof.
  split; [|vm_compute; reflexivity].
  eexists ([13; 0; 4; 0; 0; 0; 0; 0; 0; 0; 1; 2; 1; 0; 0; 0; 0; 0; 0; 0; 0; 0; 0]), _. split; vm_compute; reflexivity.
Qed.

(** ** A witness: a segment of 65 chunks. *)

Definition wire_chunk (k : Z) : BitmapChunk := mkChunk (map (fun i => i =? k) (seqZ 0 1024)).
Definition wire_cut : Segment BitmapChunk Ser.Hash :=
  mkSegment (mkId 7 1) [] [] (map (fun i => npos 0 (128 + i)) (seqZ 0 65)) (map wire_chunk (seqZ 0 65)) (mkSegProof []).

Lemma wire_cut_ok : bitmap_cut (mkVersion 3) wire_cut.
Proof.
  split; cbn [wire_cut Segments.identifier Segments.height idx leaf_data leaf_pos hash_pos hashes seg_proof];
    rewrite ?length_map, ?length_seqZ; unfold MAX_SEGMENT_HEIGHT; try lia; try done.
  - apply Forall_forall. intros c (k & -> & _)%list_elem_of_fmap. unfold wire_chunk. cbn [bits]. by rewrite length_map, length_seqZ.
Qed.

Lemma bitmap_segment_survives_witness :
  exists b, from_segment wire_cut = Some b /\ into_segment b = Some (Ok wire_cut) /\ length (bs_blocks b) = 2%nat.
Proof.
  destruct (bitmap_segment_survives (mkVersion 3) wire_cut wire_cut_ok) as (b & E & E' & _).
  exists b. split; [exact E|]. split; [exact E'|].
  assert (H : option_map (fun b => length (bs_blocks b)) (from_segment wire_cut) = Some 2%nat) by (vm_compute; reflexivity).
  rewrite E in H. by injection H.
Defined.
