(* ===== verification/Msg.v ===== *)
(** Messages on the wire.

    Models [src/p2p/src/msg.rs]: the types of messages and their greatest lengths,
    the header of a message, and the encoding of every message body. A string is
    its bytes in UTF-8. Files that are attached to a message, and the delay that
    keeps messages apart, are left out.

    Reading a header of a block is the untrusted reader of [Block], so [None] is
    its panic or its walk of a Cuckarood proof that does not end. *)

From Stdlib Require Import ZArith Lia.
From stdpp Require Import base numbers option sorting gmap list.
From S2P Require Import Prelude Consensus PmmrIndex Pmmr Ser LinkedList Kernel CutThrough Transaction PowTypes Block ChainTypes Bitmap BitmapAccumulator Segments BitmapSegment PeerAddr.
Open Scope Z_scope.

(** ** Errors

    [TimedOut] is a [Connection] whose error is of the kind [TimedOut] or
    [WouldBlock]. *)

Inductive P2PError : Type :=
| Serialization (e : ser_error)
| Connection (kind : io_error_kind)
| TimedOut
| BadMessage
| UnexpectedMessage
| MsgLen
| Banned
| ConnectionClose
| TimeoutErr
| StoreError
| ChainError (e : CE.Error)
| PeerWithSelf
| NoDandelionRelay
| GenesisMismatch (us peer : Ser.Hash)
| SendError
| PeerNotFound
| PeerNotBanned
| PeerException
| Internal.

(** ** Types of messages *)

Inductive MsgType : Type :=
| TError | THand | TShake | TPing | TPong | TGetPeerAddrs | TPeerAddrs | TGetHeaders | THeader | THeaders
| TGetBlock | TBlock | TGetCompactBlock | TCompactBlock | TStemTransaction | TTransaction
| TTxHashSetRequest | TTxHashSetArchive | TBanReason | TGetTransaction | TTransactionKernel
| TGetOutputBitmapSegment | TOutputBitmapSegment | TGetOutputSegment | TOutputSegment
| TGetRangeProofSegment | TRangeProofSegment | TGetKernelSegment | TKernelSegment
| TGetHeaderSegment | THeaderSegment.

#[export] Instance msg_type_eq_dec : EqDecision MsgType.
Proof. solve_decision. Defined.

Definition msg_types : list MsgType :=
  [TError; THand; TShake; TPing; TPong; TGetPeerAddrs; TPeerAddrs; TGetHeaders; THeader; THeaders;
   TGetBlock; TBlock; TGetCompactBlock; TCompactBlock; TStemTransaction; TTransaction;
   TTxHashSetRequest; TTxHashSetArchive; TBanReason; TGetTransaction; TTransactionKernel;
   TGetOutputBitmapSegment; TOutputBitmapSegment; TGetOutputSegment; TOutputSegment;
   TGetRangeProofSegment; TRangeProofSegment; TGetKernelSegment; TKernelSegment;
   TGetHeaderSegment; THeaderSegment].

(** The numbers of the types are their places in the list. *)
Definition type_from_u8 (x : Z) : option MsgType := if x <? 0 then None else msg_types !! Z.to_nat x.
Definition type_code (t : MsgType) : Z :=
  match list_find (eq t) msg_types with Some (i, _) => Z.of_nat i | None => 0 end.

Definition MAX_LOCATORS : Z := 20.
Definition MAX_HEADERS : Z := 512.

Definition OTHER_MAGIC : Z * Z := (73, 43).
Definition TESTNET_MAGIC : Z * Z := (83, 59).
Definition MAINNET_MAGIC : Z * Z := (97, 61).

Definition magic (ct : ChainTypes) : Z * Z :=
  match ct with Testnet => TESTNET_MAGIC | Mainnet => MAINNET_MAGIC | _ => OTHER_MAGIC end.

Definition max_block_size (ct : ChainTypes) : Z := max_block_weight ct / OUTPUT_WEIGHT * 708.
Definition default_max_msg_size (ct : ChainTypes) : Z := max_block_size ct.

Definition max_header_size : Z :=
  let header_bytes := 2 + 2 * 8 + 5 * 32 + 32 + 2 * 8 in
  let pow_bytes := 8 + 4 + 8 + 1 in
  let proof_bytes := div_ceil (63 * PROOFSIZE) 8 in
  header_bytes + pow_bytes + proof_bytes.

Definition max_msg_size (ct : ChainTypes) (t : MsgType) : Z :=
  match t with
  | TError => 0
  | THand => 128
  | TShake => 88
  | TPing => 16
  | TPong => 16
  | TGetPeerAddrs => 4
  | TPeerAddrs => 4 + (1 + 16 + 2) * MAX_PEER_ADDRS
  | TGetHeaders => 1 + 32 * MAX_LOCATORS
  | THeader => max_header_size
  | THeaders => 2 + max_header_size * MAX_HEADERS
  | TGetBlock => 32
  | TBlock => max_block_size ct
  | TGetCompactBlock => 32
  | TCompactBlock => max_block_size ct / 10
  | TStemTransaction => max_block_size ct
  | TTransaction => max_block_size ct
  | TTxHashSetRequest => 40
  | TTxHashSetArchive => 64
  | TBanReason => 64
  | TGetTransaction => 32
  | TTransactionKernel => 32
  | TGetOutputBitmapSegment => 41
  | TOutputBitmapSegment => 2 * max_block_size ct
  | TGetOutputSegment => 41
  | TOutputSegment => 2 * max_block_size ct
  | TGetRangeProofSegment => 41
  | TRangeProofSegment => 2 * max_block_size ct
  | TGetKernelSegment => 41
  | TKernelSegment => 2 * max_block_size ct
  | TGetHeaderSegment => 9
  | THeaderSegment => 11 + max_header_size * MAX_HEADERS
  end.

(** ** The header of a message *)

Record MsgHeader : Type := mkMsgHeader { mh_magic : Z * Z; msg_type : MsgType; msg_len : Z }.

Inductive MsgHeaderWrapper : Type := Known (h : MsgHeader) | Unknown (msg_len type_byte : Z).

Definition HEADER_LEN : Z := 2 + 1 + 8.

Definition msg_header_new (ct : ChainTypes) (t : MsgType) (len : Z) : MsgHeader := mkMsgHeader (magic ct) t len.

#[export] Instance msg_header_writeable : Writeable MsgHeader := fun w h =>
  write_u8 w (fst (mh_magic h)) +w+ write_u8 w (snd (mh_magic h)) +w+ write_u8 w (type_code (msg_type h)) +w+ write_u64 w (msg_len h).

Definition read_msg_header {R} `{Reader R} (ct : ChainTypes) (r : R) : result ser_error (MsgHeaderWrapper * R) :=
  let m := magic ct in
  let? (_, r) := expect_u8 r (fst m) in
  let? (_, r) := expect_u8 r (snd m) in
  let? (t, r) := read_u8 r in
  let? (len, r) := read_u64 r in
  match type_from_u8 t with
  | Some ty =>
      let max_len := max_msg_size ct ty * 4 in
      if max_len <? len then Err TooLargeReadErr else Ok (Known (mkMsgHeader m ty len), r)
  | None =>
      let max_len := default_max_msg_size ct * 4 in
      if max_len <? len then Err TooLargeReadErr else Ok (Unknown len t, r)
  end.

(** ** [String::from_utf8] *)

Definition is_cont (b : Z) : bool := (0x80 <=? b) && (b <=? 0xbf).

Fixpoint utf8_valid (l : bytes) : bool :=
  match l with
  | [] => true
  | a :: l =>
      if a <? 0x80 then utf8_valid l
      else if (0xc2 <=? a) && (a <=? 0xdf) then
        match l with b :: l => is_cont b && utf8_valid l | [] => false end
      else if (0xe0 <=? a) && (a <=? 0xef) then
        match l with
        | b :: c :: l =>
            is_cont b && is_cont c && negb ((a =? 0xe0) && (b <? 0xa0)) && negb ((a =? 0xed) && (0xa0 <=? b)) && utf8_valid l
        | _ => false
        end
      else if (0xf0 <=? a) && (a <=? 0xf4) then
        match l with
        | b :: c :: d :: l =>
            is_cont b && is_cont c && is_cont d && negb ((a =? 0xf0) && (b <? 0x90)) && negb ((a =? 0xf4) && (0x90 <=? b)) && utf8_valid l
        | _ => false
        end
      else false
  end.

Definition read_string {R} `{Reader R} (r : R) : result ser_error (bytes * R) :=
  let? (bs, r) := read_bytes_len_prefix r in
  if utf8_valid bs then Ok (bs, r) else Err CorruptedData.

#[export] Instance version_writeable : Writeable ProtocolVersion := fun w v => write_u32 w (Ser.value v).
#[export] Instance version_readable : Readable ProtocolVersion := fun R _ r =>
  let? (x, r) := read_u32 r in Ok (mkVersion x, r).

Definition read_capabilities {R} `{Reader R} (r : R) : result ser_error (Z * R) :=
  let? (capab, r) := read_u32 r in Ok (Capabilities.from_bits_truncate capab, r).

(** ** Bodies *)

Record Hand : Type := mkHand {
  hand_version : ProtocolVersion;
  hand_capabilities : Z;
  hand_nonce : Z;
  hand_genesis : Ser.Hash;
  hand_total_difficulty : Difficulty;
  sender_addr : PeerAddr;
  receiver_addr : PeerAddr;
  hand_user_agent : bytes;
}.

#[export] Instance hand_writeable : Writeable Hand := fun w h =>
  write w (hand_version h) +w+ write_u32 w (hand_capabilities h) +w+ write_u64 w (hand_nonce h) +w+
  write w (hand_total_difficulty h) +w+ write w (sender_addr h) +w+ write w (receiver_addr h) +w+
  write_bytes w (hand_user_agent h) +w+ write w (hand_genesis h).

#[export] Instance hand_readable : Readable Hand := fun R _ r =>
  let? (version, r) := read (A := ProtocolVersion) r in
  let? (capab, r) := read_u32 r in
  let? (nonce, r) := read_u64 r in
  let capabilities := Capabilities.from_bits_truncate capab in
  let? (total_difficulty, r) := read (A := Difficulty) r in
  let? (sender_addr, r) := read (A := PeerAddr) r in
  let? (receiver_addr, r) := read (A := PeerAddr) r in
  let? (user_agent, r) := read_string r in
  let? (genesis, r) := read (A := Ser.Hash) r in
  Ok (mkHand version capabilities nonce genesis total_difficulty sender_addr receiver_addr user_agent, r).

Record Shake : Type := mkShake {
  shake_version : ProtocolVersion;
  shake_capabilities : Z;
  shake_genesis : Ser.Hash;
  shake_total_difficulty : Difficulty;
  shake_user_agent : bytes;
}.

#[export] Instance shake_writeable : Writeable Shake := fun w s =>
  write w (shake_version s) +w+ write_u32 w (shake_capabilities s) +w+ write w (shake_total_difficulty s) +w+
  write_bytes w (shake_user_agent s) +w+ write w (shake_genesis s).

#[export] Instance shake_readable : Readable Shake := fun R _ r =>
  let? (version, r) := read (A := ProtocolVersion) r in
  let? (capabilities, r) := read_capabilities r in
  let? (total_difficulty, r) := read (A := Difficulty) r in
  let? (user_agent, r) := read_string r in
  let? (genesis, r) := read (A := Ser.Hash) r in
  Ok (mkShake version capabilities genesis total_difficulty user_agent, r).

Record GetPeerAddrs : Type := mkGetPeerAddrs { gp_capabilities : Z }.

#[export] Instance get_peer_addrs_writeable : Writeable GetPeerAddrs := fun w g => write_u32 w (gp_capabilities g).
#[export] Instance get_peer_addrs_readable : Readable GetPeerAddrs := fun R _ r =>
  let? (capabilities, r) := read_capabilities r in Ok (mkGetPeerAddrs capabilities, r).

Record PeerError : Type := mkPeerError { pe_code : Z; pe_message : bytes }.

#[export] Instance peer_error_writeable : Writeable PeerError := fun w e => write_u32 w (pe_code e) +w+ write_bytes w (pe_message e).
#[export] Instance peer_error_readable : Readable PeerError := fun R _ r =>
  let? (code, r) := read_u32 r in
  let? (message, r) := read_string r in
  Ok (mkPeerError code message, r).

Record Locator : Type := mkLocator { loc_hashes : list Ser.Hash }.

#[export] Instance locator_writeable : Writeable Locator := fun w l =>
  write_u8 w (wrap 8 (Z.of_nat (length (loc_hashes l)))) +w+ write_vec w (loc_hashes l).
#[export] Instance locator_readable : Readable Locator := fun R _ r =>
  let? (len, r) := read_u8 r in
  if MAX_LOCATORS <? len then Err TooLargeReadErr
  else
    let? (hashes, r) := read_items r (Z.to_nat len) in
    Ok (mkLocator hashes, r).

Record Ping : Type := mkPing { ping_total_difficulty : Difficulty; ping_height : Z }.

#[export] Instance ping_writeable : Writeable Ping := fun w p => write w (ping_total_difficulty p) +w+ write_u64 w (ping_height p).
#[export] Instance ping_readable : Readable Ping := fun R _ r =>
  let? (total_difficulty, r) := read (A := Difficulty) r in
  let? (height, r) := read_u64 r in
  Ok (mkPing total_difficulty height, r).

Record Pong : Type := mkPong { pong_total_difficulty : Difficulty; pong_height : Z }.

#[export] Instance pong_writeable : Writeable Pong := fun w p => write w (pong_total_difficulty p) +w+ write_u64 w (pong_height p).
#[export] Instance pong_readable : Readable Pong := fun R _ r =>
  let? (total_difficulty, r) := read (A := Difficulty) r in
  let? (height, r) := read_u64 r in
  Ok (mkPong total_difficulty height, r).

Record BanReason : Type := mkBanReason { ban_reason : ReasonForBan }.

#[export] Instance ban_reason_writeable : Writeable BanReason := fun w b => write_i32 w (reason_code (ban_reason b)).

(** A number that cannot be read counts as 0. *)
#[export] Instance ban_reason_readable : Readable BanReason := fun R _ r =>
  let '(code, r) := match read_i32 r with Ok (x, r) => (x, r) | Err _ => (0, r) end in
  match reason_from_i32 code with
  | Some reason => Ok (mkBanReason reason, r)
  | None => Err CorruptedData
  end.

Record TxHashSetRequest : Type := mkTxHashSetRequest { tr_hash : Ser.Hash; tr_height : Z }.

#[export] Instance txhashset_request_writeable : Writeable TxHashSetRequest := fun w t => write w (tr_hash t) +w+ write_u64 w (tr_height t).
#[export] Instance txhashset_request_readable : Readable TxHashSetRequest := fun R _ r =>
  let? (hash, r) := read (A := Ser.Hash) r in
  let? (height, r) := read_u64 r in
  Ok (mkTxHashSetRequest hash height, r).

Record TxHashSetArchive : Type := mkTxHashSetArchive { ta_hash : Ser.Hash; ta_height : Z; ta_bytes : Z }.

#[export] Instance txhashset_archive_writeable : Writeable TxHashSetArchive := fun w t =>
  write w (ta_hash t) +w+ write_u64 w (ta_height t) +w+ write_u64 w (ta_bytes t).
#[export] Instance txhashset_archive_readable : Readable TxHashSetArchive := fun R _ r =>
  let? (hash, r) := read (A := Ser.Hash) r in
  let? (height, r) := read_u64 r in
  let? (bytes, r) := read_u64 r in
  Ok (mkTxHashSetArchive hash height bytes, r).

Record SegmentRequest : Type := mkSegmentRequest { sr_block_hash : Ser.Hash; sr_identifier : SegmentIdentifier }.

#[export] Instance segment_request_writeable : Writeable SegmentRequest := fun w s => write w (sr_block_hash s) +w+ write w (sr_identifier s).
#[export] Instance segment_request_readable : Readable SegmentRequest := fun R _ r =>
  let? (block_hash, r) := read (A := Ser.Hash) r in
  let? (identifier, r) := read (A := SegmentIdentifier) r in
  Ok (mkSegmentRequest block_hash identifier, r).

Record SegmentResponse (T : Type) : Type := mkSegmentResponse { sp_block_hash : Ser.Hash; sp_segment : Segment T Ser.Hash }.
Arguments mkSegmentResponse {T}.
Arguments sp_block_hash {T}.
Arguments sp_segment {T}.

#[export] Instance segment_response_writeable {T} `{Writeable T} : Writeable (SegmentResponse T) := fun w s =>
  write w (sp_block_hash s) +w+ write w (sp_segment s).
#[export] Instance segment_response_readable {T} `{Readable T} : Readable (SegmentResponse T) := fun R _ r =>
  let? (block_hash, r) := read (A := Ser.Hash) r in
  let? (segment, r) := read (A := Segment T Ser.Hash) r in
  Ok (mkSegmentResponse block_hash segment, r).

Record OutputSegmentResponse : Type := mkOutputSegmentResponse {
  os_response : SegmentResponse OutputIdentifier;
  output_bitmap_root : Ser.Hash;
}.

#[export] Instance output_segment_response_writeable : Writeable OutputSegmentResponse := fun w s =>
  write w (os_response s) +w+ write w (output_bitmap_root s).
#[export] Instance output_segment_response_readable : Readable OutputSegmentResponse := fun R _ r =>
  let? (response, r) := read (A := SegmentResponse OutputIdentifier) r in
  let? (root, r) := read (A := Ser.Hash) r in
  Ok (mkOutputSegmentResponse response root, r).

Record OutputBitmapSegmentResponse : Type := mkOutputBitmapSegmentResponse {
  ob_block_hash : Ser.Hash;
  ob_segment : BitmapSegment;
  ob_output_root : Ser.Hash;
}.

Definition write_bitmap_response (w : Writer) (s : OutputBitmapSegmentResponse) : option (result ser_error bytes) :=
  let! segment := write_bitmap_segment w (ob_segment s) in
  Some (write w (ob_block_hash s) +w+ segment +w+ write w (ob_output_root s)).
#[export] Instance bitmap_response_readable : Readable OutputBitmapSegmentResponse := fun R _ r =>
  let? (block_hash, r) := read (A := Ser.Hash) r in
  let? (segment, r) := read (A := BitmapSegment) r in
  let? (output_root, r) := read (A := Ser.Hash) r in
  Ok (mkOutputBitmapSegmentResponse block_hash segment output_root, r).

(** ** Headers of blocks *)

Record Headers : Type := mkHeaders { hs_headers : list BlockHeader }.
Record HeaderSegment : Type := mkHeaderSegment { seg_id : SegmentIdentifier; seg_headers : list BlockHeader }.

(** A batch of headers, and how many are still to come. *)
Record HeadersData : Type := mkHeadersData { hd_headers : list BlockHeader; hd_remaining : Z }.

Fixpoint write_headers (ct : ChainTypes) (w : Writer) (l : list BlockHeader) : option (result ser_error bytes) :=
  match l with
  | [] => Some (Ok [])
  | h :: l => let! x := write_header ct w h in let! y := write_headers ct w l in Some (x +w+ y)
  end.

Definition write_headers_msg (ct : ChainTypes) (w : Writer) (m : Headers) : option (result ser_error bytes) :=
  let! headers := write_headers ct w (hs_headers m) in
  Some (write_u16 w (wrap 16 (Z.of_nat (length (hs_headers m)))) +w+ headers).

Definition write_header_segment (ct : ChainTypes) (w : Writer) (m : HeaderSegment) : option (result ser_error bytes) :=
  if MAX_HEADERS <? Z.of_nat (length (seg_headers m)) then Some (Err TooLargeReadErr)
  else
    let! headers := write_headers ct w (seg_headers m) in
    Some (write w (seg_id m) +w+ write_u16 w (wrap 16 (Z.of_nat (length (seg_headers m)))) +w+ headers).

(** What a connection knows of the file that is attached to a message. *)
Record AttachmentMeta : Type := mkAttachmentMeta { am_size : Z; am_hash : Ser.Hash; am_height : Z; am_start_time : Z }.
Record AttachmentUpdate : Type := mkAttachmentUpdate { au_read : Z; au_left : Z; au_meta : AttachmentMeta }.

Inductive Message : Type :=
| MUnknown (type_byte : Z)
| MPing (p : Ping)
| MPong (p : Pong)
| MBanReason (b : BanReason)
| MTransactionKernel (h : Ser.Hash)
| MGetTransaction (h : Ser.Hash)
| MTransaction (tx : Transaction)
| MStemTransaction (tx : Transaction)
| MGetBlock (h : Ser.Hash)
| MBlock (b : Block)
| MGetCompactBlock (h : Ser.Hash)
| MCompactBlock (b : CompactBlock)
| MGetHeaders (l : Locator)
| MHeader (h : BlockHeader)
| MHeaders (d : HeadersData)
| MGetPeerAddrs (g : GetPeerAddrs)
| MPeerAddrs (l : PeerAddrs)
| MTxHashSetRequest (t : TxHashSetRequest)
| MTxHashSetArchive (t : TxHashSetArchive)
| MAttachment (update : AttachmentUpdate) (chunk : option bytes)
| MGetOutputBitmapSegment (s : SegmentRequest)
| MOutputBitmapSegment (s : OutputBitmapSegmentResponse)
| MGetOutputSegment (s : SegmentRequest)
| MOutputSegment (s : OutputSegmentResponse)
| MGetRangeProofSegment (s : SegmentRequest)
| MRangeProofSegment (s : SegmentResponse RangeProof)
| MGetKernelSegment (s : SegmentRequest)
| MKernelSegment (s : SegmentResponse TxKernel)
| MGetHeaderSegment (id : SegmentIdentifier)
| MHeaderSegment (s : HeaderSegment).

Section messages.
Context {CR : Crypto} {SU : SortUnstable} {NF : NrdFlag} {CH : Chrono} (ct : ChainTypes) (fuel : nat) (ftl : Z).

Fixpoint read_headers {R} `{Reader R} (n : nat) (r : R) : option (result ser_error (list BlockHeader * R)) :=
  match n with
  | O => Some (Ok ([], r))
  | S n =>
      let! res := read_untrusted_header fuel ct ftl r in
      match res with
      | Err e => Some (Err e)
      | Ok (header, r) =>
          let! rest := read_headers n r in
          Some (let? (headers, r) := rest in Ok (header :: headers, r))
      end
  end.

Definition read_header_segment {R} `{Reader R} (r : R) : option (result ser_error (HeaderSegment * R)) :=
  match (let? (identifier, r) := read (A := SegmentIdentifier) r in
         let? (len, r) := read_u16 r in
         if MAX_HEADERS <? len then Err TooLargeReadErr else Ok (identifier, len, r)) with
  | Err e => Some (Err e)
  | Ok (identifier, len, r) =>
      let! res := read_headers (Z.to_nat len) r in
      Some (let? (headers, r) := res in Ok (mkHeaderSegment identifier headers, r))
  end.

(** [BufReader::body], for a message that is built from the body. *)
Definition as_message {A R} (f : A -> Message) (res : result ser_error (A * R)) : result P2PError Message :=
  match res with Ok (x, _) => Ok (f x) | Err e => Err (Serialization e) end.
Definition simple {A R} `{Readable A} `{Reader R} (f : A -> Message) (r : R) : option (result P2PError Message) :=
  Some (as_message f (read r)).

(** [decode_message] of [src/p2p/src/codec.rs] *)
Definition decode_message (t : MsgType) (body : bytes) (v : ProtocolVersion) : option (result P2PError Message) :=
  let msg := BufReader.new body v in
  match t with
  | TPing => simple MPing msg
  | TPong => simple MPong msg
  | TBanReason => simple MBanReason msg
  | TTransactionKernel => simple MTransactionKernel msg
  | TGetTransaction => simple MGetTransaction msg
  | TTransaction => Some (as_message MTransaction (read_tx ct msg))
  | TStemTransaction => Some (as_message MStemTransaction (read_tx ct msg))
  | TGetBlock => simple MGetBlock msg
  | TBlock => option_map (as_message MBlock) (read_untrusted_block fuel ct ftl msg)
  | TGetCompactBlock => simple MGetCompactBlock msg
  | TCompactBlock => option_map (as_message MCompactBlock) (read_untrusted_compact fuel ct ftl msg)
  | TGetHeaders => simple MGetHeaders msg
  | THeader => option_map (as_message MHeader) (read_untrusted_header fuel ct ftl msg)
  | TGetPeerAddrs => simple MGetPeerAddrs msg
  | TPeerAddrs => simple MPeerAddrs msg
  | TTxHashSetRequest => simple MTxHashSetRequest msg
  | TTxHashSetArchive => simple MTxHashSetArchive msg
  | TGetOutputBitmapSegment => simple MGetOutputBitmapSegment msg
  | TOutputBitmapSegment => simple MOutputBitmapSegment msg
  | TGetOutputSegment => simple MGetOutputSegment msg
  | TOutputSegment => simple MOutputSegment msg
  | TGetRangeProofSegment => simple MGetRangeProofSegment msg
  | TRangeProofSegment => simple MRangeProofSegment msg
  | TGetKernelSegment => simple MGetKernelSegment msg
  | TKernelSegment => simple MKernelSegment msg
  | TGetHeaderSegment => simple MGetHeaderSegment msg
  | THeaderSegment => option_map (as_message MHeaderSegment) (read_header_segment msg)
  | TError | THand | TShake | THeaders => Some (Err UnexpectedMessage)
  end.

(** ** Messages that are sent *)

Record Msg : Type := mkMsg { m_header : MsgHeader; m_body : bytes }.

(** [Msg::new], of the bytes that the body is written as. *)
Definition msg_new (t : MsgType) (body : result ser_error bytes) : result P2PError Msg :=
  match body with
  | Ok body => Ok (mkMsg (msg_header_new ct t (Z.of_nat (length body))) body)
  | Err e => Err (Serialization e)
  end.

(** [write_message]: what goes through the socket. *)
Definition message_bytes (v : ProtocolVersion) (m : Msg) : result ser_error bytes :=
  write (mkWriter SerFull v) (m_header m) +w+ Ok (m_body m).

(** The type and the body with which a message is sent: the [send_...] functions of
    [src/p2p/src/peer.rs] and the answers of [src/p2p/src/protocol.rs]. A list of
    headers is sent whole. *)
Definition message_body (v : ProtocolVersion) (m : Message) : option (MsgType * result ser_error bytes) :=
  let w := mkWriter SerFull v in
  match m with
  | MUnknown _ | MAttachment _ _ => None
  | MPing p => Some (TPing, write w p)
  | MPong p => Some (TPong, write w p)
  | MBanReason b => Some (TBanReason, write w b)
  | MTransactionKernel h => Some (TTransactionKernel, write w h)
  | MGetTransaction h => Some (TGetTransaction, write w h)
  | MTransaction tx => Some (TTransaction, write_tx w tx)
  | MStemTransaction tx => Some (TStemTransaction, write_tx w tx)
  | MGetBlock h => Some (TGetBlock, write w h)
  | MBlock b => let! x := write_block ct w b in Some (TBlock, x)
  | MGetCompactBlock h => Some (TGetCompactBlock, write w h)
  | MCompactBlock b => let! x := write_compact ct w b in Some (TCompactBlock, x)
  | MGetHeaders l => Some (TGetHeaders, write w l)
  | MHeader h => let! x := write_header ct w h in Some (THeader, x)
  | MHeaders d => let! x := write_headers_msg ct w (mkHeaders (hd_headers d)) in Some (THeaders, x)
  | MGetPeerAddrs g => Some (TGetPeerAddrs, write w g)
  | MPeerAddrs l => Some (TPeerAddrs, write w l)
  | MTxHashSetRequest t => Some (TTxHashSetRequest, write w t)
  | MTxHashSetArchive t => Some (TTxHashSetArchive, write w t)
  | MGetOutputBitmapSegment s => Some (TGetOutputBitmapSegment, write w s)
  | MOutputBitmapSegment s => let! x := write_bitmap_response w s in Some (TOutputBitmapSegment, x)
  | MGetOutputSegment s => Some (TGetOutputSegment, write w s)
  | MOutputSegment s => Some (TOutputSegment, write w s)
  | MGetRangeProofSegment s => Some (TGetRangeProofSegment, write w s)
  | MRangeProofSegment s => Some (TRangeProofSegment, write w s)
  | MGetKernelSegment s => Some (TGetKernelSegment, write w s)
  | MKernelSegment s => Some (TKernelSegment, write w s)
  | MGetHeaderSegment id => Some (TGetHeaderSegment, write w id)
  | MHeaderSegment s => let! x := write_header_segment ct w s in Some (THeaderSegment, x)
  end.

(** *** Reading one message of a known type *)

Definition read_body {A} `{Readable A} (len : Z) (stream : bytes) (v : ProtocolVersion) : result P2PError (A * bytes) :=
  match read_exact stream len with
  | Err _ => Err (Connection UnexpectedEof)
  | Ok (body, stream) =>
      match read (BinReader.mk body v DeFull) with
      | Ok (x, _) => Ok (x, stream)
      | Err e => Err (Serialization e)
      end
  end.

Definition read_header (stream : bytes) (v : ProtocolVersion) : result P2PError (MsgHeaderWrapper * bytes) :=
  match read_exact stream HEADER_LEN with
  | Err _ => Err (Connection UnexpectedEof)
  | Ok (head, stream) =>
      match read_msg_header ct (BinReader.mk head v DeFull) with
      | Ok (h, _) => Ok (h, stream)
      | Err e => Err (Serialization e)
      end
  end.

Definition read_discard (len : Z) (stream : bytes) : result P2PError bytes :=
  match read_exact stream len with Ok (_, stream) => Ok stream | Err _ => Err (Connection UnexpectedEof) end.

(** With the stream after an error: what was read is gone. *)
Definition read_message {A} `{Readable A} (stream : bytes) (v : ProtocolVersion) (t : MsgType) : result P2PError (A * bytes) :=
  let? (h, stream) := read_header stream v in
  match h with
  | Known header =>
      if decide (msg_type header = t) then read_body (msg_len header) stream v else Err BadMessage
  | Unknown len _ => let? _ := read_discard len stream in Err BadMessage
  end.
End messages.
