(* ===== verification/MsgSpec.v ===== *)
(** What is proved of messages on the wire.

    A message body that is written is decoded to the same message, for every type
    of message, and fits the limit of its type. *)

From Stdlib Require Import ZArith Lia.
From stdpp Require Import base numbers option sorting gmap list.
From S2P Require Import Prelude Consensus PmmrIndex Pmmr Ser LinkedList Kernel CutThrough Transaction PowTypes Block Pedersen BlockSpec ChainTypes Bitmap BitmapAccumulator Segments BitmapSegment PeerAddr Msg.
Open Scope Z_scope.

Opaque be.

(** ** Primitive bodies *)

Lemma decodes_uint v (k : nat) (wr : Writer -> Z -> result ser_error bytes) x
    (rd : forall R, Reader R -> R -> result ser_error (Z * R)) :
  0 <= x < 256 ^ Z.of_nat k -> wr (mkWriter SerFull v) x = Ok (be k x) ->
  (forall R (RD : Reader R) (RL : ReaderLaws R), reads_uint input k (rd R RD) (fun x => x)) ->
  decodes v (wr (mkWriter SerFull v) x) rd x.
Proof.
  intros Hx Hw Hr. exists (be k x). split; [done|]. intros R RD RL r tl _ _ Hin.
  by apply (read_uint_be k).
Qed.

Lemma decodes_u8 v x : in_range 8 x -> decodes v (write_u8 (mkWriter SerFull v) x) (fun R RD r => read_u8 r) x.
Proof. intros Hx. exists [x]. split; [done|]. intros R RD RL r tl _ _ Hin. by apply read_u8_ok. Qed.
Lemma decodes_u16 v x : in_range 16 x -> decodes v (write_u16 (mkWriter SerFull v) x) (fun R RD r => read_u16 r) x.
Proof. intros Hx. apply (decodes_uint v 2 write_u16 x); [exact Hx|done|intros; apply law_u16]. Qed.
Lemma decodes_u32 v x : u32 x -> decodes v (write_u32 (mkWriter SerFull v) x) (fun R RD r => read_u32 r) x.
Proof. intros Hx. apply (decodes_uint v 4 write_u32 x); [exact Hx|done|intros; apply law_u32]. Qed.
Lemma decodes_u64 v x : u64 x -> decodes v (write_u64 (mkWriter SerFull v) x) (fun R RD r => read_u64 r) x.
Proof. intros Hx. apply (decodes_uint v 8 write_u64 x); [exact Hx|done|intros; apply law_u64]. Qed.

Lemma decodes_hash v h : hash_len h -> decodes v (write (mkWriter SerFull v) h) (fun R RD r => read r) h.
Proof. apply hash_roundtrips. Qed.
Lemma decodes_id v id : wire_id id -> decodes v (write (mkWriter SerFull v) id) (fun R RD r => read r) id.
Proof. apply segment_identifier_roundtrips. Qed.

Lemma decodes_difficulty v d : u64 (num d) -> decodes v (write (mkWriter SerFull v) d) (fun R RD r => read r) d.
Proof.
  intros Hd. destruct d as [x]. apply (decodes_map v _ (fun R RD r => read_u64 r) mkDifficulty x). by apply decodes_u64.
Qed.

Lemma decodes_version v x : u32 (Ser.value x) -> decodes v (write (mkWriter SerFull v) x) (fun R RD r => read r) x.
Proof. intros Hx. destruct x as [x]. apply (decodes_map v _ (fun R RD r => read_u32 r) mkVersion x). by apply decodes_u32. Qed.

Lemma truncate_id x : 0 <= x <= 255 -> Capabilities.from_bits_truncate x = x.
Proof.
  intros Hx. unfold Capabilities.from_bits_truncate, Capabilities.all. change 255 with (Z.ones 8).
  rewrite Z.land_ones by lia. apply Z.mod_small. lia.
Qed.

Lemma decodes_capabilities v x : 0 <= x <= 255 ->
  decodes v (write_u32 (mkWriter SerFull v) x) (fun R RD r => read_capabilities r) x.
Proof.
  intros Hx. destruct (decodes_u32 v x) as (bs & E & H); [unfold_words; lia|]. exists bs. split; [done|].
  intros R RD RL r tl Hv Hm Hin. unfold read_capabilities. destruct (H R RD RL r tl Hv Hm Hin) as (r' & -> & Ha).
  cbn [rbind]. rewrite truncate_id by done. by exists r'.
Qed.

Definition string_ok (s : bytes) : Prop := utf8_valid s = true /\ Z.of_nat (length s) <= MAX_READ_SIZE.

Lemma decodes_string v s : string_ok s -> decodes v (write_bytes (mkWriter SerFull v) s) (fun R RD r => read_string r) s.
Proof.
  intros [Hu Hl]. eexists. split; [reflexivity|]. intros R RD RL r tl _ _ Hin. rewrite <- app_assoc in Hin.
  unfold read_string. destruct (law_prefix r s tl) as (r' & -> & Ha); [by apply law_limit|unfold MAX_READ_SIZE in *; lia|done|].
  cbn [rbind]. rewrite Hu. by exists r'.
Qed.

Lemma decodes_addr v a : valid_addr a -> decodes v (write (mkWriter SerFull v) a) (fun R RD r => read r) (addr_as_read a).
Proof. intros Ha. destruct (peer_addr_reads a v Ha) as (bs & E & H). exists bs. split; [done|]. intros R RD RL r tl _ _. apply H. Qed.

(** Read what is written next, by the lemma for it. *)
Ltac decode_step x := cbv beta;
  match goal with |- decodes ?v (?e1 +w+ ?e2) (fun R RD r => rbind (@?d1 R RD r) (@?k R RD r)) _ =>
    refine (decodes_bind v e1 e2 d1 (fun _ R RD r => _) x _ _ _)
  end.
Ltac decode_next lem x := decode_step x; [by apply lem|].
Ltac decode_last lem f x := cbv beta;
  match goal with |- decodes ?v ?e (fun R RD r => rbind (@?d R RD r) (@?k R RD r)) _ =>
    refine (decodes_map v e d f x _); by apply lem
  end.

(** ** Bodies *)

Section bodies.
Context (v : ProtocolVersion).
Let w := mkWriter SerFull v.

Record hand_ok (h : Hand) : Prop := {
  ho_version : u32 (Ser.value (hand_version h));
  ho_capabilities : 0 <= hand_capabilities h <= 255;
  ho_nonce : u64 (hand_nonce h);
  ho_genesis : hash_len (hand_genesis h);
  ho_difficulty : u64 (num (hand_total_difficulty h));
  ho_sender : valid_addr (sender_addr h);
  ho_receiver : valid_addr (receiver_addr h);
  ho_agent : string_ok (hand_user_agent h);
}.

Definition hand_as_read (h : Hand) : Hand :=
  mkHand (hand_version h) (hand_capabilities h) (hand_nonce h) (hand_genesis h) (hand_total_difficulty h)
    (addr_as_read (sender_addr h)) (addr_as_read (receiver_addr h)) (hand_user_agent h).

Lemma decodes_hand h : hand_ok h -> decodes v (write w h) (fun R RD r => read r) (hand_as_read h).
Proof.
  intros [H1 H2 H3 H4 H5 H6 H7 H8]. destruct h as [ver cap nonce gen diff snd rcv ua]. cbn in * |-.
  unfold write at 1, hand_writeable, read at 1, hand_readable, hand_as_read. cbn [hand_version hand_capabilities hand_nonce hand_genesis hand_total_difficulty sender_addr receiver_addr hand_user_agent].
  decode_next decodes_version ver.
  decode_step cap; [apply decodes_u32; unfold_words; lia|].
  decode_next decodes_u64 nonce. rewrite truncate_id by done. decode_next decodes_difficulty diff.
  decode_next decodes_addr (addr_as_read snd). decode_next decodes_addr (addr_as_read rcv).
  decode_next decodes_string ua.
  decode_last decodes_hash (fun g => mkHand ver cap nonce g diff (addr_as_read snd) (addr_as_read rcv) ua) gen.
Qed.

Record shake_ok (s : Shake) : Prop := {
  so_version : u32 (Ser.value (shake_version s));
  so_capabilities : 0 <= shake_capabilities s <= 255;
  so_genesis : hash_len (shake_genesis s);
  so_difficulty : u64 (num (shake_total_difficulty s));
  so_agent : string_ok (shake_user_agent s);
}.

Lemma shake_roundtrips s : shake_ok s -> roundtrips v s.
Proof.
  intros [H1 H2 H3 H4 H5]. destruct s as [ver cap gen diff ua]. cbn in * |-.
  change (decodes v (write w (mkShake ver cap gen diff ua)) (fun R RD r => read r) (mkShake ver cap gen diff ua)).
  unfold write at 1, shake_writeable, read at 1, shake_readable. cbn [shake_version shake_capabilities shake_genesis shake_total_difficulty shake_user_agent].
  decode_next decodes_version ver. decode_next decodes_capabilities cap. decode_next decodes_difficulty diff.
  decode_next decodes_string ua. decode_last decodes_hash (fun g => mkShake ver cap g diff ua) gen.
Qed.

Lemma get_peer_addrs_roundtrips g : 0 <= gp_capabilities g <= 255 -> roundtrips v g.
Proof. intros Hg. destruct g as [x]. apply (decodes_map v _ (fun R RD r => read_capabilities r) mkGetPeerAddrs x). by apply decodes_capabilities. Qed.

Lemma peer_error_roundtrips e : u32 (pe_code e) -> string_ok (pe_message e) -> roundtrips v e.
Proof.
  intros Hc Hm. destruct e as [c m]. cbn in * |-.
  change (decodes v (write w (mkPeerError c m)) (fun R RD r => read r) (mkPeerError c m)).
  unfold write at 1, peer_error_writeable, read at 1, peer_error_readable. cbn [pe_code pe_message].
  decode_next decodes_u32 c. decode_last decodes_string (mkPeerError c) m.
Qed.

Lemma ping_roundtrips p : u64 (num (ping_total_difficulty p)) -> u64 (ping_height p) -> roundtrips v p.
Proof.
  intros Hd Hh. destruct p as [d h]. cbn in * |-. change (decodes v (write w (mkPing d h)) (fun R RD r => read r) (mkPing d h)).
  unfold write at 1, ping_writeable, read at 1, ping_readable. cbn [ping_total_difficulty ping_height].
  decode_next decodes_difficulty d. decode_last decodes_u64 (mkPing d) h.
Qed.

Lemma pong_roundtrips p : u64 (num (pong_total_difficulty p)) -> u64 (pong_height p) -> roundtrips v p.
Proof.
  intros Hd Hh. destruct p as [d h]. cbn in * |-. change (decodes v (write w (mkPong d h)) (fun R RD r => read r) (mkPong d h)).
  unfold write at 1, pong_writeable, read at 1, pong_readable. cbn [pong_total_difficulty pong_height].
  decode_next decodes_difficulty d. decode_last decodes_u64 (mkPong d) h.
Qed.

Lemma ban_reason_roundtrips (b : BanReason) : roundtrips v b.
Proof.
  destruct b as [b]. eexists. split; [reflexivity|]. intros R RD RL r tl _ _ Hin. cbn [ban_reason] in Hin.
  unfold read, ban_reason_readable.
  destruct (read_signed_ok 32 4 read_i32 r (reason_code b) tl ltac:(lia) eq_refl law_i32) as (r' & -> & Ha);
    [destruct b; cbn; lia|done|]. exists r'. split; [by destruct b|done].
Qed.

Lemma txhashset_request_roundtrips t : hash_len (tr_hash t) -> u64 (tr_height t) -> roundtrips v t.
Proof.
  intros Hd Hh. destruct t as [d h]. cbn in * |-.
  change (decodes v (write w (mkTxHashSetRequest d h)) (fun R RD r => read r) (mkTxHashSetRequest d h)).
  unfold write at 1, txhashset_request_writeable, read at 1, txhashset_request_readable. cbn [tr_hash tr_height].
  decode_next decodes_hash d. decode_last decodes_u64 (mkTxHashSetRequest d) h.
Qed.

Lemma txhashset_archive_roundtrips t : hash_len (ta_hash t) -> u64 (ta_height t) -> u64 (ta_bytes t) -> roundtrips v t.
Proof.
  intros Hd Hh Hb. destruct t as [d h b]. cbn in * |-.
  change (decodes v (write w (mkTxHashSetArchive d h b)) (fun R RD r => read r) (mkTxHashSetArchive d h b)).
  unfold write at 1, txhashset_archive_writeable, read at 1, txhashset_archive_readable. cbn [ta_hash ta_height ta_bytes].
  decode_next decodes_hash d. decode_next decodes_u64 h. decode_last decodes_u64 (mkTxHashSetArchive d h) b.
Qed.

Lemma segment_request_roundtrips s : hash_len (sr_block_hash s) -> wire_id (sr_identifier s) -> roundtrips v s.
Proof.
  intros Hd Hh. destruct s as [d h]. cbn in * |-.
  change (decodes v (write w (mkSegmentRequest d h)) (fun R RD r => read r) (mkSegmentRequest d h)).
  unfold write at 1, segment_request_writeable, read at 1, segment_request_readable. cbn [sr_block_hash sr_identifier].
  decode_next decodes_hash d. decode_last decodes_id (mkSegmentRequest d) h.
Qed.

Lemma segment_response_roundtrips {T} `{Writeable T, Readable T} (s : SegmentResponse T) :
  hash_len (sp_block_hash s) -> wire_segment v (sp_segment s) -> roundtrips v s.
Proof.
  intros Hd Hh. destruct s as [d h]. cbn in * |-.
  change (decodes v (write w (mkSegmentResponse d h)) (fun R RD r => read r) (mkSegmentResponse d h)).
  unfold write at 1, segment_response_writeable, read at 1, segment_response_readable. cbn [sp_block_hash sp_segment].
  decode_next decodes_hash d. eapply (decodes_map _ _ _ (mkSegmentResponse d) h). by apply segment_roundtrip.
Qed.

Lemma output_segment_response_roundtrips s :
  hash_len (sp_block_hash (os_response s)) -> wire_segment v (sp_segment (os_response s)) -> hash_len (Msg.output_bitmap_root s) ->
  roundtrips v s.
Proof.
  intros Hd Hh Hr. destruct s as [d h]. cbn in * |-.
  change (decodes v (write w (mkOutputSegmentResponse d h)) (fun R RD r => read r) (mkOutputSegmentResponse d h)).
  unfold write at 1, output_segment_response_writeable, read at 1, output_segment_response_readable. cbn [os_response Msg.output_bitmap_root].
  decode_step d; [by apply segment_response_roundtrips|].
  decode_last decodes_hash (mkOutputSegmentResponse d) h.
Qed.

Lemma locator_roundtrips l : Forall hash_len (loc_hashes l) -> Z.of_nat (length (loc_hashes l)) <= MAX_LOCATORS -> roundtrips v l.
Proof.
  intros Hf Hl. unfold MAX_LOCATORS in Hl. destruct l as [hs]. cbn [loc_hashes] in *.
  change (decodes v (write w (mkLocator hs)) (fun R RD r => read r) (mkLocator hs)).
  unfold write at 1, locator_writeable, read at 1, locator_readable. cbn [loc_hashes].
  rewrite wrap_small by (unfold_words; lia).
  decode_step (Z.of_nat (length hs)); [apply decodes_u8; unfold_words; lia|].
  cbv beta. unfold MAX_LOCATORS. destruct (Z.ltb_spec 20 (Z.of_nat (length hs))); [lia|].
  eapply (decodes_map v _ (fun R RD r => read_items r (Z.to_nat (Z.of_nat (length hs)))) mkLocator hs).
  apply (decodes_items v hs); [|done]. eapply Forall_impl; [exact Hf|]. intros h Hh. by apply hash_roundtrips.
Qed.

Lemma decodes_addrs l : Forall valid_addr l ->
  decodes v (write_vec w l) (fun R RD r => read_addrs (length l) r) (map addr_as_read l).
Proof.
  induction 1 as [|a l Ha Hl IH].
  - exists []. split; [done|]. intros R RD RL r tl _ _ Hin. by exists r.
  - eapply (decodes_bind v _ _ _ (fun a R RD r => _) (addr_as_read a)); [by apply decodes_addr|].
    by eapply (decodes_map v _ _ (cons (addr_as_read a))).
Qed.

Lemma decodes_peer_addrs l : Forall valid_addr (addrs l) -> Z.of_nat (length (addrs l)) <= MAX_PEER_ADDRS ->
  decodes v (write w l) (fun R RD r => read r) (mkPeerAddrs (map addr_as_read (addrs l))).
Proof.
  intros Hf Hl. unfold MAX_PEER_ADDRS in Hl. destruct l as [l]. cbn [addrs] in *.
  unfold write at 1, peer_addrs_writeable, read at 1, peer_addrs_readable. cbn [addrs].
  rewrite wrap_small by (unfold_words; lia).
  decode_step (Z.of_nat (length l)); [apply decodes_u32; unfold_words; lia|].
  cbv beta. unfold MAX_PEER_ADDRS. destruct (Z.ltb_spec 256 (Z.of_nat (length l))); [lia|].
  destruct (Z.eqb_spec (Z.of_nat (length l)) 0) as [E|E].
  - destruct l; [|done]. exists []. split; [done|]. intros R RD RL r tl _ _ Hin. by exists r.
  - rewrite Nat2Z.id. eapply (decodes_map v _ (fun R RD r => read_addrs (length l) r) mkPeerAddrs). by apply decodes_addrs.
Qed.
End bodies.

(** ** Headers, blocks and transactions *)

Section messages.
Context {CR : Crypto} {SU : SortUnstable} {NF : NrdFlag} {CH : Chrono} {CL : ChronoLaws}.
Context (ct : ChainTypes) (walk : nat) (ftl : Z) (v : ProtocolVersion).
Let w := mkWriter SerFull v.

Definition acceptable (h : BlockHeader) : Prop := header_ok ct h /\ header_acceptable walk ct ftl h.

Section reading.
Context {R : Type} {RD : Reader R} {RL : ReaderLaws R}.
Implicit Types (r : R).

Lemma read_untrusted_ok r h tl :
  deserialization_mode r = DeFull -> Forall (in_range 8) (input r) -> acceptable h ->
  input r = header_encoding ct h ++ tl ->
  exists r', read_untrusted_header walk ct ftl r = Some (Ok (h, r')) /\ advanced input r r' tl.
Proof.
  intros Hm Hb [Hok (Ht & Hv & Hp & Hs%verify_size_iff & Hw%header_weight_iff)] Hin; [|done].
  destruct (read_header_ok ct r h tl Hm Hb Hok Hin) as (r' & E & Ha). exists r'. split; [|done].
  by rewrite read_untrusted_iff.
Qed.

Lemma read_untrusted_acceptable r h r' :
  deserialization_mode r = DeFull -> Forall (in_range 8) (input r) ->
  read_untrusted_header walk ct ftl r = Some (Ok (h, r')) -> acceptable h.
Proof.
  intros Hm Hb (E & Ht & Hv & Hp & Hs & Hw)%read_untrusted_iff.
  destruct (read_header_inv ct r h r' Hm Hb E) as (Hok & _). split; [done|].
  rewrite verify_size_iff in Hs. rewrite (header_weight_iff ct h Hok) in Hw. done.
Qed.

Lemma write_headers_ok hs : Forall acceptable hs ->
  write_headers ct w hs = Some (Ok (concat (map (header_encoding ct) hs))).
Proof.
  unfold w. induction 1 as [|h hs [Hh _] _ IH]; [done|]. cbn [write_headers]. rewrite write_header_ok by done.
  cbn [mbind option_bind]. by rewrite IH.
Qed.

Lemma read_headers_ok hs : Forall acceptable hs -> forall r tl,
  deserialization_mode r = DeFull -> Forall (in_range 8) (input r) ->
  input r = concat (map (header_encoding ct) hs) ++ tl ->
  exists r', read_headers ct walk ftl (length hs) r = Some (Ok (hs, r')) /\ advanced input r r' tl.
Proof.
  induction 1 as [|h hs Hh _ IH]; intros r tl Hm Hb Hin; [by exists r|]. cbn [map concat length read_headers] in *.
  rewrite <- app_assoc in Hin. destruct (read_untrusted_ok r h _ Hm Hb Hh Hin) as (r1 & -> & A1). cbn [mbind option_bind].
  pose proof A1 as (Hin1 & _ & Hm1 & _).
  destruct (IH r1 tl) as (r2 & -> & A2); [congruence|rewrite Hin1; rewrite Hin in Hb; by apply Forall_app in Hb as [_ ?]|done|].
  cbn [mbind option_bind rbind]. exists r2. split; [done|]. by eapply advanced_trans.
Qed.
End reading.

Lemma short_id_roundtrips (i : ShortId) : length (short_id_bytes i) = 6%nat -> roundtrips v i.
Proof.
  intros Hl. destruct i as [bs]. cbn [short_id_bytes] in Hl. exists bs. split; [done|].
  intros R RD RL r tl _ _ Hin. unfold read, short_id_readable.
  destruct (read_fixed_ok r SHORT_ID_SIZE bs tl) as (r' & -> & Ha); [unfold SHORT_ID_SIZE, MAX_READ_SIZE in *; lia..|done|].
  by exists r'.
Qed.

(** A transaction that is read back: [tx_ok] of what the version keeps of it. *)
Definition tx_as_read (tx : Transaction) : Transaction := mkTx (offset tx) (body_as_read v (Transaction.body tx)).

Record body_wire (weighting : Weighting) (b : TransactionBody) : Prop := {
  bw_fields : body_ok b;
  bw_inputs : inputs_writable v (inputs b);
  bw_weight : true_weight b <= max_block_weight ct;
  bw_sorted : body_sorted (body_as_read v b);
  bw_valid : body_validate_read ct (body_as_read v b) weighting = Ok tt;
}.

Record tx_ok (tx : Transaction) : Prop := {
  to_offset : Z.of_nat (length (blinding_bytes (offset tx))) = SECRET_KEY_SIZE;
  to_body : body_wire AsTransaction (Transaction.body tx);
  to_features : verify_features (body_as_read v (Transaction.body tx)) = Ok tt;
}.

Lemma decodes_tx tx : tx_ok tx -> decodes v (write_tx w tx) (fun R RD r => read_tx ct r) (tx_as_read tx).
Proof.
  intros [Ho [Hf Hi Hw Hs Hv] Hk]. destruct (blinding_roundtrips v (offset tx) Ho) as (b1 & E1 & R1).
  destruct (body_roundtrips v ct _ Hf Hi Hw Hs) as (b2 & E2 & R2).
  exists (b1 ++ b2). split; [unfold w; by apply wseq_Ok|]. intros R RD RL r tl Hvr Hm Hin. rewrite <- app_assoc in Hin.
  unfold read_tx. destruct (R1 R RD RL r _ Hvr Hm Hin) as (r1 & -> & A1). cbn [rbind]. pose proof A1 as (Hin1 & Hv1 & Hm1 & _).
  destruct (R2 R RD RL r1 tl) as (r2 & -> & A2); [congruence..|]. cbn [rbind]. cbv zeta.
  unfold tx_validate_read. cbn [Transaction.body]. rewrite Hv, Hk. cbn [rbind map_err]. exists r2. split; [done|].
  by eapply advanced_trans.
Qed.

Record block_wire (b : Block) : Prop := {
  kw_header : acceptable (header b);
  kw_body : body_wire AsBlock (Block.body b);
}.

Record compact_wire (b : CompactBlock) : Prop := {
  cw_header : acceptable (cb_header b);
  cw_nonce : u64 (cb_nonce b);
  cw_outputs : Forall output_ok (out_full (cb_body b));
  cw_kernels : Forall (kernel_ok is_nrd_enabled) (kern_full (cb_body b));
  cw_ids : Forall (fun i => length (short_id_bytes i) = 6%nat) (kern_ids (cb_body b));
  cw_out_count : Z.of_nat (length (out_full (cb_body b))) <= 1000000;
  cw_kern_count : Z.of_nat (length (kern_full (cb_body b))) <= 1000000;
  cw_id_count : Z.of_nat (length (kern_ids (cb_body b))) <= 1000000;
  cw_sorted : compact_verify_sorted (cb_body b) = Ok tt;
}.

Lemma decodes_multi {A} {WA : Writeable A} {RA : Readable A} (l : list A) n :
  Forall (roundtrips v) l -> n = Z.of_nat (length l) -> n <= 1000000 ->
  decodes v (write_vec w l) (fun R RD r => read_multi r n) l.
Proof. intros Hl -> Hn. by apply read_multi_ok. Qed.

Lemma compact_body_roundtrips (b : CompactBlock) : compact_wire b -> roundtrips v (cb_body b).
Proof.
  intros [_ _ Ho Hk Hi Lo Lk Li Hs]. destruct (cb_body b) as [os ks ids]. cbn [out_full kern_full kern_ids] in *.
  change (decodes v (write w (mkCompactBody os ks ids)) (fun R RD r => read r) (mkCompactBody os ks ids)).
  unfold write at 1, compact_body_writeable, read at 1, compact_body_readable. cbn [out_full kern_full kern_ids].
  decode_step (Z.of_nat (length os)); [apply decodes_u64; unfold_words; lia|].
  decode_step (Z.of_nat (length ks)); [apply decodes_u64; unfold_words; lia|].
  decode_step (Z.of_nat (length ids)); [apply decodes_u64; unfold_words; lia|].
  decode_step os; [apply decodes_multi; [by eapply Forall_impl; [|apply output_roundtrips]|done..]|].
  decode_step ks; [apply decodes_multi; [by eapply Forall_impl; [|apply kernel_roundtrips]|done..]|].
  destruct (decodes_multi ids (Z.of_nat (length ids))) as (bs & E & H);
    [by eapply Forall_impl; [|apply short_id_roundtrips]|done..|].
  exists bs. split; [done|]. intros R RD RL r tl Hv Hm Hin. destruct (H R RD RL r tl Hv Hm Hin) as (r' & -> & Ha).
  cbn [rbind]. unfold compact_init. rewrite Hs. cbn [rbind map_err]. by exists r'.
Qed.

(** ** Messages *)

(** What can be sent: fields in their ranges, and blocks and headers that the
    receiver finds acceptable. Lists of headers are cut up by the codec. *)
Definition message_ok (m : Message) : Prop :=
  match m with
  | MUnknown _ | MAttachment _ _ | MHeaders _ => False
  | MPing p => u64 (num (ping_total_difficulty p)) /\ u64 (ping_height p)
  | MPong p => u64 (num (pong_total_difficulty p)) /\ u64 (pong_height p)
  | MBanReason _ => True
  | MTransactionKernel h | MGetTransaction h | MGetBlock h | MGetCompactBlock h => hash_len h
  | MTransaction tx | MStemTransaction tx => tx_ok tx
  | MBlock b => block_wire b
  | MCompactBlock b => compact_wire b
  | MGetHeaders l => Forall hash_len (loc_hashes l) /\ Z.of_nat (length (loc_hashes l)) <= MAX_LOCATORS
  | MHeader h => acceptable h
  | MGetPeerAddrs g => 0 <= gp_capabilities g <= 255
  | MPeerAddrs l => Forall valid_addr (addrs l) /\ Z.of_nat (length (addrs l)) <= MAX_PEER_ADDRS
  | MTxHashSetRequest t => hash_len (tr_hash t) /\ u64 (tr_height t)
  | MTxHashSetArchive t => hash_len (ta_hash t) /\ u64 (ta_height t) /\ u64 (ta_bytes t)
  | MGetOutputBitmapSegment s | MGetOutputSegment s | MGetRangeProofSegment s | MGetKernelSegment s =>
      hash_len (sr_block_hash s) /\ wire_id (sr_identifier s)
  | MOutputBitmapSegment s =>
      hash_len (ob_block_hash s) /\ hash_len (ob_output_root s) /\
      exists cut, bitmap_cut v cut /\ from_segment cut = Some (ob_segment s)
  | MOutputSegment s =>
      hash_len (sp_block_hash (os_response s)) /\ wire_segment v (sp_segment (os_response s)) /\
      hash_len (Msg.output_bitmap_root s)
  | MRangeProofSegment s => hash_len (sp_block_hash s) /\ wire_segment v (sp_segment s)
  | MKernelSegment s => hash_len (sp_block_hash s) /\ wire_segment v (sp_segment s)
  | MGetHeaderSegment id => wire_id id
  | MHeaderSegment s =>
      wire_id (seg_id s) /\ Forall acceptable (seg_headers s) /\ Z.of_nat (length (seg_headers s)) <= MAX_HEADERS
  end.

(** What the receiver gets: inputs as the version has them, and addresses
    without what their family does not have. *)
Definition as_read (m : Message) : Message :=
  match m with
  | MTransaction tx => MTransaction (tx_as_read tx)
  | MStemTransaction tx => MStemTransaction (tx_as_read tx)
  | MBlock b => MBlock (mkBlock (header b) (body_as_read v (Block.body b)))
  | MPeerAddrs l => MPeerAddrs (mkPeerAddrs (map addr_as_read (addrs l)))
  | _ => m
  end.

(** [m] is sent as [t] with bytes that decode to [m']. *)
Definition sent_as (m : Message) (t : MsgType) (m' : Message) : Prop :=
  exists body, message_body ct v m = Some (t, Ok body) /\
    (Forall (in_range 8) body -> decode_message ct walk ftl t body v = Some (Ok m')).

Lemma simple_sent {A} {RA : Readable A} (f : A -> Message) m t e x :
  message_body ct v m = Some (t, e) ->
  (forall body, decode_message ct walk ftl t body v = simple f (BufReader.new body v)) ->
  decodes v e (fun R RD r => read r) x -> sent_as m t (f x).
Proof.
  intros Hm Hd (bs & -> & H). exists bs. split; [done|]. intros _. rewrite Hd.
  destruct (H BufReader.t _ _ (BufReader.new bs v) []) as (r' & E & _); [done..|by rewrite app_nil_r|].
  unfold simple. by rewrite E.
Qed.

Lemma tx_sent m t (f : Transaction -> Message) tx :
  message_body ct v m = Some (t, write_tx w tx) ->
  (forall body, decode_message ct walk ftl t body v = Some (as_message f (read_tx ct (BufReader.new body v)))) ->
  tx_ok tx -> sent_as m t (f (tx_as_read tx)).
Proof.
  intros Hm Hd Hok. destruct (decodes_tx tx Hok) as (bs & E & H). rewrite E in Hm. exists bs. split; [done|]. intros _. rewrite Hd.
  destruct (H BufReader.t _ _ (BufReader.new bs v) []) as (r' & E' & _); [done..|by rewrite app_nil_r|]. by rewrite E'.
Qed.

(** A header, and the reader after it. *)
Lemma header_sent h tl : acceptable h -> Forall (in_range 8) (header_encoding ct h ++ tl) ->
  exists r', read_untrusted_header walk ct ftl (BufReader.new (header_encoding ct h ++ tl) v) = Some (Ok (h, r')) /\
    input r' = tl /\ protocol_version r' = v /\ deserialization_mode r' = DeFull.
Proof.
  intros Hh Hb. destruct (read_untrusted_ok (BufReader.new (header_encoding ct h ++ tl) v) h tl) as (r' & E & H1 & H2 & H3 & _);
    [done..|]. by exists r'.
Qed.

Lemma block_sent b : block_wire b -> sent_as (MBlock b) TBlock (as_read (MBlock b)).
Proof.
  intros [Hh [Hf Hi Hw Hs Hv]]. destruct (body_roundtrips v ct _ Hf Hi Hw Hs) as (bs & E & H).
  exists (header_encoding ct (header b) ++ bs). split.
  - cbn [message_body]. unfold write_block. rewrite write_header_ok by apply Hh. cbn [mbind option_bind serialization_mode is_hash_mode negb].
    rewrite E. cbn [wseq rbind mbind option_bind]. unfold header_encoding. by rewrite <- !app_assoc.
  - intros Hb. cbn [decode_message]. unfold read_untrusted_block.
    destruct (header_sent _ _ Hh Hb) as (r1 & -> & Hin & Hv1 & Hm). cbn [mbind option_bind rbind].
    destruct (H BufReader.t _ _ r1 []) as (r2 & -> & _); [done..|by rewrite app_nil_r|]. cbn [rbind]. by rewrite Hv.
Qed.

Lemma compact_sent b : compact_wire b -> sent_as (MCompactBlock b) TCompactBlock (MCompactBlock b).
Proof.
  intros Hc. pose proof (compact_body_roundtrips b Hc) as (bs & E & H). pose proof (decodes_u64 v _ (cw_nonce b Hc)) as (bn & En & Hn).
  exists (header_encoding ct (cb_header b) ++ bn ++ bs). split.
  - cbn [message_body]. unfold write_compact. rewrite write_header_ok by apply Hc. cbn [mbind option_bind serialization_mode is_hash_mode negb].
    rewrite E, En. cbn [wseq rbind mbind option_bind]. unfold header_encoding. by rewrite <- !app_assoc.
  - intros Hb. cbn [decode_message]. unfold read_untrusted_compact.
    destruct (header_sent _ _ (cw_header b Hc) Hb) as (r1 & -> & Hin & Hv1 & Hm). cbn [mbind option_bind rbind].
    destruct (Hn BufReader.t _ _ r1 bs) as (r2 & -> & Hin2 & Hv2 & Hm2 & _); [done..|]. cbn [rbind].
    destruct (H BufReader.t _ _ r2 []) as (r3 & -> & _); [by etransitivity..|by rewrite app_nil_r|]. cbn [rbind].
    unfold compact_validate_read. rewrite (cw_sorted b Hc). cbn [map_err rbind option_map as_message]. by destruct b.
Qed.

Lemma header_message_sent h : acceptable h -> sent_as (MHeader h) THeader (MHeader h).
Proof.
  intros Hh. exists (header_encoding ct h). split.
  - cbn [message_body]. by rewrite write_header_ok by apply Hh.
  - intros Hb. rewrite <- (app_nil_r (header_encoding ct h)) in Hb |- *. cbn [decode_message].
    by destruct (header_sent _ _ Hh Hb) as (r1 & -> & _).
Qed.

Lemma header_segment_sent s : message_ok (MHeaderSegment s) -> sent_as (MHeaderSegment s) THeaderSegment (MHeaderSegment s).
Proof.
  intros (Hid & Hh & Hl). destruct s as [id hs]. cbn [seg_id seg_headers] in *. unfold MAX_HEADERS in Hl.
  destruct (decodes_id v id Hid) as (bi & Ei & Hi). assert (Hlen : in_range 16 (Z.of_nat (length hs))) by (unfold_words; lia).
  destruct (decodes_u16 v _ Hlen) as (bl & El & Hr).
  exists (bi ++ bl ++ concat (map (header_encoding ct) hs)). split.
  - cbn [message_body]. unfold write_header_segment. cbn [seg_id seg_headers]. unfold MAX_HEADERS.
    destruct (Z.ltb_spec 512 (Z.of_nat (length hs))); [lia|]. rewrite wrap_small by exact Hlen. fold w in Ei, El |- *. rewrite Ei, El.
    fold w. rewrite write_headers_ok by done. done.
  - intros Hb. cbn [decode_message]. unfold read_header_segment.
    destruct (Hi BufReader.t _ _ (BufReader.new (bi ++ bl ++ concat (map (header_encoding ct) hs)) v) (bl ++ concat (map (header_encoding ct) hs)))
      as (r1 & -> & Hin1 & Hv1 & Hm1 & _); [done..|]. cbn [rbind].
    destruct (Hr BufReader.t _ _ r1 (concat (map (header_encoding ct) hs))) as (r2 & -> & Hin2 & Hv2 & Hm2 & _); [done..|]. cbn [rbind].
    unfold MAX_HEADERS. destruct (Z.ltb_spec 512 (Z.of_nat (length hs))); [lia|]. rewrite Nat2Z.id.
    destruct (read_headers_ok hs Hh r2 []) as (r3 & -> & _); [by etransitivity| |by rewrite app_nil_r|done].
    rewrite Hin2. by do 2 apply Forall_app in Hb as [_ Hb].
Qed.

Lemma bitmap_segment_sent s : message_ok (MOutputBitmapSegment s) ->
  sent_as (MOutputBitmapSegment s) TOutputBitmapSegment (MOutputBitmapSegment s).
Proof.
  intros (Hh & Hr & cut & Hc & E). destruct s as [h b r]. cbn [ob_block_hash ob_output_root ob_segment] in *.
  destruct (from_segment_spec v cut Hc) as (bl & E' & Hsz & _). rewrite E in E'. injection E' as ->.
  destruct (bitmap_segment_wire v cut bl Hc Hsz) as (bs & Ew & Hb). fold w in Ew.
  destruct (decodes_hash v h Hh) as (b1 & E1 & H1). destruct (decodes_hash v r Hr) as (b2 & E2 & H2). fold w in E1, E2.
  exists (b1 ++ bs ++ b2). split.
  - cbn [message_body]. unfold write_bitmap_response. cbn [ob_block_hash ob_output_root ob_segment]. fold w. rewrite Ew.
    cbn [mbind option_bind]. by rewrite E1, E2.
  - intros _. cbn [decode_message]. unfold simple, read at 1, bitmap_response_readable.
    destruct (H1 BufReader.t _ _ (BufReader.new (b1 ++ bs ++ b2) v) (bs ++ b2)) as (r1 & -> & Hin1 & Hv1 & Hm1 & _); [done..|]. cbn [rbind].
    destruct (Hb BufReader.t _ _ r1 b2) as (r2 & -> & Hin2 & Hv2 & Hm2 & _); [done..|]. cbn [rbind].
    destruct (H2 BufReader.t _ _ r2 []) as (r3 & -> & _); [by etransitivity..|by rewrite app_nil_r|]. done.
Qed.

(** *** Lengths *)

(** What is written takes at most [n] bytes. *)
Definition fits (e : result ser_error bytes) (n : Z) : Prop := exists bs, e = Ok bs /\ Z.of_nat (length bs) <= n.

Lemma fits_be k x n : Z.of_nat k <= n -> fits (Ok (be k x)) n.
Proof. intros Hn. exists (be k x). by rewrite be_length. Qed.
Lemma fits_bytes bs n : Z.of_nat (length bs) <= n -> fits (Ok bs) n.
Proof. intros Hn. by exists bs. Qed.
Lemma fits_seq e1 e2 a n : fits e1 a -> fits e2 (n - a) -> fits (e1 +w+ e2) n.
Proof. intros (b1 & -> & H1) (b2 & -> & H2). exists (b1 ++ b2). split; [done|]. rewrite length_app. lia. Qed.
Lemma fits_vec {A} `{Writeable A} (l : list A) k : Forall (fun x => fits (write w x) k) l ->
  fits (write_vec w l) (k * Z.of_nat (length l)).
Proof.
  induction 1 as [|x l Hx _ IH]; [apply fits_bytes; cbn [length]; lia|]. cbn [write_vec]. eapply fits_seq; [exact Hx|].
  destruct IH as (bs & E & Hl). exists bs. split; [done|]. cbn [length]. lia.
Qed.
Lemma fits_weaken e a n : fits e a -> a <= n -> fits e n.
Proof. intros (bs & E & H) Hn. exists bs. split; [done|lia]. Qed.

Lemma fits_hash h : hash_len h -> fits (write w h) 32.
Proof. intros Hh. apply fits_bytes. unfold hash_len, HASH_SIZE in Hh. lia. Qed.

Ltac fit := first [apply fits_hash; done | apply (fits_be 8); lia | apply (fits_be 4); lia | apply (fits_be 2); lia
  | apply fits_bytes; cbn [length]; lia].
Ltac fit_seq k := apply (fits_seq _ _ k); [fit|].

Lemma fits_addr (a : PeerAddr) : fits (write w a) 19.
Proof.
  unfold write, peer_addr_writeable. destruct (ip_of a) as [x|x]; fit_seq 1.
  - fit_seq 4. fit.
  - rewrite fold_segments. apply (fits_seq _ _ 16); [|fit].
    apply fits_bytes. unfold segments. cbn [map concat]. rewrite !length_app, !be_length. cbn. lia.
Qed.

Lemma header_encoding_fits h : header_ok ct h -> Z.of_nat (length (header_encoding ct h)) <= max_header_size.
Proof.
  intros ((_ & _ & _ & H1 & H2 & H3 & H4 & H5 & H6 & _) & _ & _ & He & _).
  unfold header_encoding, header_bytes, pow_prefix, proof_bytes. rewrite !length_app, !be_length. cbn [length].
  rewrite le_length. unfold hash_len, HASH_SIZE, SECRET_KEY_SIZE in *.
  assert (Hp : 0 <= pack_len ct (edge_bits (pow_proof (pow h))) <= 331).
  { pose proof (proofsize_bounds ct). unfold pack_len. split; [apply Z.div_pos; nia|]. apply Zlt_succ_le, Z.div_lt_upper_bound; [lia|]. nia. }
  change max_header_size with 578. lia.
Qed.

Lemma headers_encoding_fits hs : Forall acceptable hs ->
  Z.of_nat (length (concat (map (header_encoding ct) hs))) <= max_header_size * Z.of_nat (length hs).
Proof.
  induction 1 as [|h hs [Hh _] _ IH]; [done|]. cbn [map concat length]. rewrite length_app.
  pose proof (header_encoding_fits h Hh). lia.
Qed.

(** Types with a limit of their own; the others are bounded by the weight of a block. *)
Definition small_type (t : MsgType) : bool :=
  match t with
  | TStemTransaction | TTransaction | TBlock | TCompactBlock | TOutputBitmapSegment | TOutputSegment
  | TRangeProofSegment | TKernelSegment => false
  | _ => true
  end.

Lemma fits_locator l : message_ok (MGetHeaders l) -> fits (write w l) (1 + 32 * MAX_LOCATORS).
Proof.
  intros [Hh Hl]. destruct l as [hs]. unfold write, locator_writeable. cbn [loc_hashes] in *. fit_seq 1.
  eapply fits_weaken; [apply (fits_vec hs 32)|lia]. eapply Forall_impl; [exact Hh|apply fits_hash].
Qed.

Lemma fits_peer_addrs l : message_ok (MPeerAddrs l) -> fits (write w l) (4 + (1 + 16 + 2) * MAX_PEER_ADDRS).
Proof.
  intros [Hh Hl]. destruct l as [l]. unfold write, peer_addrs_writeable. cbn [addrs] in *. fit_seq 4.
  eapply fits_weaken; [apply (fits_vec l 19)|lia]. eapply Forall_impl; [exact Hh|]. intros a _. apply fits_addr.
Qed.

Lemma fits_id (id : SegmentIdentifier) : fits (write w id) 9.
Proof. unfold write, segment_identifier_writeable. fit_seq 1. fit. Qed.

Lemma fits_segment_request s : hash_len (sr_block_hash s) -> fits (write w s) 41.
Proof. intros Hs. unfold write at 1, segment_request_writeable. fit_seq 32. apply fits_id. Qed.


Lemma fits_use e t t0 body : Some (t0, e) = Some (t, Ok body) -> fits e (max_msg_size ct t0) ->
  Z.of_nat (length body) <= max_msg_size ct t.
Proof. intros E (bs & -> & H). injection E as <- <-. exact H. Qed.

Lemma fits_header_segment s : message_ok (MHeaderSegment s) ->
  exists e, write_header_segment ct w s = Some e /\ fits e (11 + max_header_size * MAX_HEADERS).
Proof.
  intros (_ & Hh & Hl). unfold write_header_segment. destruct (Z.ltb_spec MAX_HEADERS (Z.of_nat (length (seg_headers s)))); [lia|].
  rewrite write_headers_ok by done. eexists. split; [reflexivity|].
  apply (fits_seq _ _ 9); [apply fits_id|]. fit_seq 2. apply fits_bytes.
  pose proof (headers_encoding_fits _ Hh). change max_header_size with 578 in *. lia.
Qed.

Lemma small_messages_fit m t body :
  message_ok m -> message_body ct v m = Some (t, Ok body) -> small_type t = true ->
  Z.of_nat (length body) <= max_msg_size ct t.
Proof.
  intros Hok E Ht. destruct m; cbn [message_body] in E; try (exfalso; exact Hok);
    try (exfalso; injection E as <- _; discriminate Ht);
    try (apply (fits_use _ _ _ _ E); cbn [max_msg_size]; cbn [message_ok] in Hok);
    try (apply fits_hash; exact Hok);
    try (apply fits_segment_request, Hok).
  - fit_seq 8. fit.
  - fit_seq 8. fit.
  - apply fits_weaken with 4; [fit|lia].
  - exfalso. destruct (write_block ct _ b); [|done]. injection E as <- _. discriminate Ht.
  - exfalso. destruct (write_compact ct _ b); [|done]. injection E as <- _. discriminate Ht.
  - by apply fits_locator.
  - rewrite write_header_ok in E by apply Hok. apply (fits_use _ _ _ _ E). apply fits_bytes, header_encoding_fits, Hok.
  - fit.
  - by apply fits_peer_addrs.
  - destruct Hok as [Hh _]. fit_seq 32. fit.
  - destruct Hok as [Hh _]. apply fits_weaken with 48; [fit_seq 32; fit_seq 8; fit|lia].
  - exfalso. destruct (write_bitmap_response _ s); [|done]. injection E as <- _. discriminate Ht.
  - apply fits_id.
  - destruct (fits_header_segment s Hok) as (e & Ew & Hf). fold w in E. rewrite Ew in E. by apply (fits_use _ _ _ _ E).
Qed.

(** ** Every message *)

(** Messages survive the wire. Every message that is sent whole, which is all
    but lists of headers, is written at whatever protocol version without a panic
    or an error, and the receiver decodes what is written to the same message: but
    for transactions and blocks, whose inputs arrive as the version has them, and
    for IPv6 addresses that stand for IPv4 ones. Headers are accepted by the untrusted
    reader, and transactions and blocks by the lightweight rules, if they obey
    these. A message whose type has a limit of its own fits it; those are all but
    transactions, blocks and segments of the state. *)
Lemma messages_survive m :
  message_ok m ->
  exists t body, message_body ct v m = Some (t, Ok body) /\
    (Forall (in_range 8) body -> decode_message ct walk ftl t body v = Some (Ok (as_read m))) /\
    (small_type t = true -> Z.of_nat (length body) <= max_msg_size ct t).
Proof.
  intros Hok.
  assert (H : exists t, sent_as m t (as_read m)).
  { destruct m; try (exfalso; exact Hok); cbn [message_ok as_read] in *; eexists;
      lazymatch goal with
      | |- sent_as (MTransaction _) _ _ => eapply tx_sent; [reflexivity|reflexivity|exact Hok]
      | |- sent_as (MStemTransaction _) _ _ => eapply tx_sent; [reflexivity|reflexivity|exact Hok]
      | |- sent_as (MBlock _) _ _ => by apply block_sent
      | |- sent_as (MCompactBlock _) _ _ => by apply compact_sent
      | |- sent_as (MHeader _) _ _ => by apply header_message_sent
      | |- sent_as (MHeaderSegment _) _ _ => by apply header_segment_sent
      | |- sent_as (MOutputBitmapSegment _) _ _ => by apply bitmap_segment_sent
      | |- _ => eapply simple_sent; [reflexivity|reflexivity|]
      end.
    - destruct Hok. by apply ping_roundtrips.
    - destruct Hok. by apply pong_roundtrips.
    - apply ban_reason_roundtrips.
    - by apply decodes_hash.
    - by apply decodes_hash.
    - by apply decodes_hash.
    - by apply decodes_hash.
    - destruct Hok. by apply locator_roundtrips.
    - by apply get_peer_addrs_roundtrips.
    - destruct Hok. by apply decodes_peer_addrs.
    - destruct Hok. by apply txhashset_request_roundtrips.
    - destruct Hok as (? & ? & ?). by apply txhashset_archive_roundtrips.
    - destruct Hok. by apply segment_request_roundtrips.
    - destruct Hok. by apply segment_request_roundtrips.
    - destruct Hok as (? & ? & ?). by apply output_segment_response_roundtrips.
    - destruct Hok. by apply segment_request_roundtrips.
    - destruct Hok. by apply segment_response_roundtrips.
    - destruct Hok. by apply segment_request_roundtrips.
    - destruct Hok. by apply segment_response_roundtrips.
    - by apply decodes_id. }
  destruct H as (t & body & E & Hd). exists t, body. split; [done|]. split; [done|]. by apply small_messages_fit with m.
Qed.
End messages.

(** ** Addresses and a header, for examples *)

Section sample.
#[local] Existing Instance cuckarooz29_crypto.
#[local] Existing Instance merge_sort_unstable.
#[local] Existing Instance sample_chrono.
#[local] Existing Instance sample_chrono_laws.
#[local] Instance nrd_off : NrdFlag := false.

Lemma network_header_acceptable : acceptable Mainnet 0 300 network_header.
Proof.
  eapply (read_untrusted_acceptable Mainnet 0 300 (BufReader.new (header_encoding Mainnet network_header) local));
    [reflexivity|vm_compute; repeat constructor; congruence|vm_compute; reflexivity].
Qed.

(** Addresses of the three kinds. *)
Definition some_addrs : PeerAddrs :=
  mkPeerAddrs [mkPeerAddr (socket_new (V4 0x01020304) 3414); mkPeerAddr (socket_new (V6 (0xffff * 2 ^ 32 + 0x01020304)) 3414);
               mkPeerAddr (socket_new (V6 (2 ^ 125 + 1)) 13414)].
End sample.
