(* ===== verification/Codec.v ===== *)
(** The codec of a connection.

    Models [src/p2p/src/codec.rs]: how a stream of bytes is cut into messages. A
    list of block headers is handed over in batches of 32 while it arrives, an
    attached file in chunks.

    The stream of the socket is a list of bytes, with [None] where a read times out.
    Arithmetic on lengths wraps, as in release builds. After a header of a block
    that cannot be read the connection is closed, so what is left in the buffer then
    does not matter. [None] as an outcome is that of the reader of block headers, or
    fuel that has run out. *)

From Stdlib Require Import ZArith Lia.
From stdpp Require Import base numbers option sorting gmap list.
From S2P Require Import Prelude Consensus PmmrIndex Pmmr Ser LinkedList Kernel CutThrough Transaction PowTypes Block ChainTypes Bitmap BitmapAccumulator Segments BitmapSegment PeerAddr Msg.
Open Scope Z_scope.

Definition HEADER_BATCH_SIZE : Z := 32.
Definition ATTACHMENT_CHUNK : Z := 48000.

(** [header_size_bytes] of [src/core/src/global.rs] *)
Definition header_size_bytes (ct : ChainTypes) (edge_bits : Z) : Z :=
  let size := 2 + 2 * 8 + 5 * 32 + 32 + 2 * 8 in
  let proof_size := 8 + 4 + 8 + 1 + pack_len ct edge_bits in
  size + proof_size.

Inductive State : Type :=
| SNone
| SHeader (h : MsgHeaderWrapper)
| SBlockHeaders (bytes_left items_left : Z) (headers : list BlockHeader)
| SAttachment (left_ : Z) (meta : AttachmentMeta).

Definition Stream : Type := list (option Z).

(** [read_exact]: the bytes that are read before an end or a pause are gone. *)
Fixpoint sock_read (n : nat) (s : Stream) : result P2PError bytes * Stream :=
  match n with
  | O => (Ok [], s)
  | S n =>
      match s with
      | [] => (Err (Connection UnexpectedEof), [])
      | None :: s => (Err TimedOut, s)
      | Some b :: s =>
          let '(res, s) := sock_read n s in
          (let? bs := res in Ok (b :: bs), s)
      end
  end.

Record Codec : Type := mkCodec {
  c_version : ProtocolVersion;
  c_stream : Stream;
  c_buffer : bytes;
  c_state : State;
  c_bytes_read : Z;
}.

Definition codec_new (v : ProtocolVersion) (s : Stream) : Codec := mkCodec v s [] SNone 0.
Definition set_c_stream x c := mkCodec (c_version c) x (c_buffer c) (c_state c) (c_bytes_read c).
Definition set_c_buffer x c := mkCodec (c_version c) (c_stream c) x (c_state c) (c_bytes_read c).
Definition set_c_state x c := mkCodec (c_version c) (c_stream c) (c_buffer c) x (c_bytes_read c).
Definition set_c_bytes_read x c := mkCodec (c_version c) (c_stream c) (c_buffer c) (c_state c) x.

(** The assertion of [expect_attachment]. *)
Definition expect_attachment (meta : AttachmentMeta) (c : Codec) : option Codec :=
  match c_state c with SNone => Some (set_c_state (SAttachment (am_size meta) meta) c) | _ => None end.

Section codec.
Context {CR : Crypto} {SU : SortUnstable} {NF : NrdFlag} {CH : Chrono} (ct : ChainTypes) (walk : nat) (ftl : Z).

Definition next_len (c : Codec) : Z :=
  match c_state c with
  | SNone => HEADER_LEN
  | SHeader (Known h) => if decide (msg_type h = THeaders) then Z.min (msg_len h) 2 else msg_len h
  | SHeader (Unknown len _) => len
  | SBlockHeaders bytes_left _ _ => Z.min bytes_left (header_size_bytes ct 63)
  | SAttachment left_ _ => Z.min left_ ATTACHMENT_CHUNK
  end.

(** The buffer is filled up to [next_len]; a read that fails leaves it as it was. *)
Definition fill (c : Codec) : result P2PError unit * Codec :=
  let to_read := sat_sub64 (next_len c) (Z.of_nat (length (c_buffer c))) in
  if 0 <? to_read then
    match sock_read (Z.to_nat to_read) (c_stream c) with
    | (Err e, s) => (Err e, set_c_stream s c)
    | (Ok bs, s) => (Ok tt, set_c_bytes_read (c_bytes_read c + to_read) (set_c_buffer (c_buffer c ++ bs) (set_c_stream s c)))
    end
  else (Ok tt, c).

(** What one turn of the loop ends with: a result, or another turn. *)
Inductive Turn : Type := Done (res : result P2PError Message) (c : Codec) | Again (c : Codec).

(** One turn after the buffer is filled. *)
Definition turn (c : Codec) : option Turn :=
  let n := Z.to_nat (next_len c) in
  let raw := take n (c_buffer c) in
  let rest := set_c_buffer (drop n (c_buffer c)) c in
  match c_state c with
  | SNone =>
      match read_msg_header ct (BufReader.new raw (c_version c)) with
      | Err e => Some (Done (Err (Serialization e)) rest)
      | Ok (h, _) => Some (Again (set_c_state (SHeader h) rest))
      end
  | SHeader (Known h) =>
      if decide (msg_type h = THeaders) then
        match read_u16 (BufReader.new raw (c_version c)) with
        | Err e => Some (Done (Err (Serialization e)) rest)
        | Ok (items_left, _) => Some (Again (set_c_state (SBlockHeaders (sub64 (msg_len h) 2) items_left []) rest))
        end
      else
        let! msg := decode_message ct walk ftl (msg_type h) raw (c_version c) in
        Some (Done msg (set_c_state SNone rest))
  | SHeader (Unknown _ type_byte) => Some (Done (Ok (MUnknown type_byte)) (set_c_state SNone rest))
  | SBlockHeaders bytes_left items_left headers =>
      if bytes_left =? 0 then Some (Done (Err BadMessage) (set_c_state SNone c))
      else
        let! res := read_untrusted_header walk ct ftl (BufReader.new (c_buffer c) (c_version c)) in
        match res with
        | Err e => Some (Done (Err (Serialization e)) c)
        | Ok (header, reader) =>
            let c := set_c_buffer (BufReader.inner reader) c in
            let headers := headers ++ [header] in
            let bytes_left := sat_sub64 bytes_left (BufReader.bytes_read reader) in
            let items_left := sub64 items_left 1 in
            let remaining := items_left in
            if (Z.of_nat (length headers) =? HEADER_BATCH_SIZE) || (remaining =? 0) then
              let msg := Ok (MHeaders (mkHeadersData headers remaining)) in
              if remaining =? 0 then
                Some (Done (if 0 <? bytes_left then Err BadMessage else msg) (set_c_state SNone c))
              else Some (Done msg (set_c_state (SBlockHeaders bytes_left items_left []) c))
            else Some (Again (set_c_state (SBlockHeaders bytes_left items_left headers) c))
        end
  | SAttachment left_ meta =>
      let left_ := sub64 left_ (next_len c) in
      let update := mkAttachmentUpdate (next_len c) left_ meta in
      Some (Done (Ok (MAttachment update (Some raw)))
        (set_c_state (if left_ =? 0 then SNone else SAttachment left_ meta) rest))
  end.

Fixpoint read_loop (fuel : nat) (c : Codec) : option (result P2PError Message * Codec) :=
  match fill c with
  | (Err e, c) => Some (Err e, c)
  | (Ok _, c) =>
      let! t := turn c in
      match t with
      | Done res c => Some (res, c)
      | Again c => match fuel with O => None | S fuel => read_loop fuel c end
      end
  end.

(** A batch has at most 32 headers, after the header of the message and the count. *)
Definition READ_FUEL : nat := 34.

Definition read_inner (c : Codec) : option (result P2PError Message * Codec) := read_loop READ_FUEL (set_c_bytes_read 0 c).

Definition codec_read (c : Codec) : option (result P2PError Message * Z * Codec) :=
  let! (msg, c) := read_inner c in Some (msg, c_bytes_read c, c).

(** The loop of the thread that reads: errors of the socket that are pauses, and
    errors that are not the peer's fault, do not end it. *)
Definition continues_after (e : P2PError) : bool :=
  match e with
  | TimedOut | StoreError | ChainError _ | Internal | NoDandelionRelay => true
  | _ => false
  end.
End codec.
