(* ===== verification/CodecSpec.v ===== *)
(** What is proved of the codec of a connection.

    The messages that are written one after the other to a connection come out of
    the codec in order, with lists of block headers in batches. *)

From Stdlib Require Import ZArith Lia.
From stdpp Require Import base numbers option sorting gmap list.
From S2P Require Import Prelude Consensus PmmrIndex Pmmr Ser LinkedList Kernel CutThrough Transaction PowTypes Block Pedersen BlockSpec ChainTypes Bitmap BitmapAccumulator Segments BitmapSegment PeerAddr Msg MsgSpec Codec.
Open Scope Z_scope.

Opaque be.

(** ** The bytes a reader has counted *)

(** [n] bytes are counted or still to be read. *)
Definition counted (n : Z) (r : BufReader.t) : Prop :=
  0 <= BufReader.bytes_read r /\ BufReader.bytes_read r + Z.of_nat (length (BufReader.inner r)) = n /\ n < 2 ^ 64.

Definition counts_bytes {A} (f : BufReader.t -> result ser_error (A * BufReader.t)) : Prop :=
  forall n r x r', counted n r -> f r = Ok (x, r') -> counted n r'.

Lemma counts_ret {A} (x : A) : counts_bytes (fun r => Ok (x, r)).
Proof. intros n r y r' Hn [= _ <-]. done. Qed.

Lemma counts_bind {A B} (f : BufReader.t -> result ser_error (A * BufReader.t)) (g : A -> BufReader.t -> result ser_error (B * BufReader.t)) :
  counts_bytes f -> (forall x, counts_bytes (g x)) -> counts_bytes (fun r => let? (x, r) := f r in g x r).
Proof.
  intros Hf Hg n r y r' Hn E. destruct (f r) as [[x r1]|e] eqn:Ef; [|done]. cbn [rbind] in E.
  eapply Hg; [|exact E]. by eapply Hf.
Qed.

Lemma has_remaining_counted n r len r' :
  0 <= len -> counted n r -> BufReader.has_remaining r len = Ok r' ->
  BufReader.inner r' = BufReader.inner r /\ BufReader.bytes_read r' = BufReader.bytes_read r + len /\
  len <= Z.of_nat (length (BufReader.inner r)).
Proof.
  intros Hl (H0 & Hn & Hlt). unfold BufReader.has_remaining. destruct (Z.leb_spec len (Z.of_nat (length (BufReader.inner r)))); [|done].
  intros [= <-]. cbn [BufReader.inner BufReader.bytes_read]. unfold add64. rewrite wrap_small by (unfold in_range; lia). done.
Qed.

Lemma advance_counted n r len r1 x r' :
  0 <= len -> counted n r -> BufReader.has_remaining r len = Ok r1 -> BufReader.advance r1 len = (x, r') -> counted n r'.
Proof.
  intros Hl Hc E. destruct (has_remaining_counted n r len r1 Hl Hc E) as (Ei & Eb & Hle). intros [= _ <-].
  destruct Hc as (H0 & Hn & Hlt). unfold counted. cbn [BufReader.inner BufReader.bytes_read].
  rewrite length_drop, Ei, Eb. lia.
Qed.

Lemma counts_uint k : 0 <= k -> counts_bytes (fun r => BufReader.read_uint r k).
Proof.
  intros Hk n r x r' Hn. unfold BufReader.read_uint. destruct (BufReader.has_remaining r k) as [r1|] eqn:E; [|done]. cbn [rbind].
  destruct (BufReader.advance r1 k) as [bs r2] eqn:Ea. intros [= _ <-]. by eapply advance_counted.
Qed.

Lemma counts_fixed k : 0 <= k -> counts_bytes (fun r => BufReader.read_fixed_bytes r k).
Proof.
  intros Hk n r x r' Hn. unfold BufReader.read_fixed_bytes. destruct (MAX_READ_SIZE <? k); [done|].
  destruct (BufReader.has_remaining r k) as [r1|] eqn:E; [|done]. cbn [rbind].
  destruct (BufReader.advance r1 k) as [bs r2] eqn:Ea. intros [= _ <-]. by eapply advance_counted.
Qed.

Lemma counts_signed k b : 0 <= k -> counts_bytes (fun r => let? (x, r) := BufReader.read_uint r k in Ok (to_signed b x, r)).
Proof. intros Hk. apply counts_bind; [by apply counts_uint|intros x; apply counts_ret]. Qed.

Ltac count_step := first [apply counts_ret | apply counts_bind; [|intros ?]
  | apply (counts_uint 1); lia | apply (counts_uint 2); lia | apply (counts_uint 4); lia | apply (counts_uint 8); lia
  | apply (counts_signed 8 64); lia | apply (counts_fixed HASH_SIZE); done | apply (counts_fixed SECRET_KEY_SIZE); done].

Lemma counts_header_fields : counts_bytes (fun r => read_header_fields r).
Proof. unfold read_header_fields. repeat count_step. Qed.

(** The same of a reader that may fail to return. *)
Definition counts_some {A} (f : BufReader.t -> option (result ser_error (A * BufReader.t))) : Prop :=
  forall n r x r', counted n r -> f r = Some (Ok (x, r')) -> counted n r'.

Lemma counts_proof ct : counts_some (fun r => read_proof ct r).
Proof.
  intros n r x r' Hn E. unfold read_proof in E. destruct (read_u8 r) as [[eb r1]|] eqn:E1; [|done].
  assert (H1 : counted n r1) by (eapply (counts_uint 1); [lia|exact Hn|exact E1]).
  destruct ((eb =? 0) || (63 <? eb)); [done|]. destruct (deserialization_mode r1); [|by injection E as <- <-].
  destruct (Z.ltb_spec (pack_len ct eb) 8); [done|].
  destruct (read_fixed_bytes r1 (pack_len ct eb)) as [[bits r2]|] eqn:E2; [|done].
  assert (H2 : counted n r2) by (eapply (counts_fixed (pack_len ct eb)); [lia|exact H1|exact E2]).
  destruct (read_nonces _ _ _ _) as [ns|]; [|done]. cbn [mbind option_bind] in E.
  destruct (read_number _ _ _) as [rest|]; [|done]. cbn [mbind option_bind] in E.
  destruct (negb (rest =? 0)); [done|]. by injection E as <- <-.
Qed.

Lemma counts_pow ct : counts_some (fun r => read_pow ct r).
Proof.
  assert (Hc : counts_bytes (fun r : BufReader.t =>
    let? (total_difficulty, r) := read_u64 r in
    let? (secondary_scaling, r) := read_u32 r in
    let? (nonce, r) := read_u64 r in
    Ok (total_difficulty, secondary_scaling, nonce, r))) by (repeat count_step).
  intros n r x r' Hn E. unfold read_pow in E.
  match type of E with match ?m with _ => _ end = _ => destruct m as [[[[td sc] nonce] r1]|] eqn:E1; [|done] end.
  assert (H1 : counted n r1) by (eapply Hc; [exact Hn|exact E1]).
  destruct (read_proof ct r1) as [[[p r2]|]|] eqn:E2; cbn [mbind option_bind rbind] in E; [|done..].
  injection E as _ <-. by eapply counts_proof.
Qed.

Lemma counts_untrusted `{Crypto, Chrono} walk ct ftl : counts_some (fun r => read_untrusted_header walk ct ftl r).
Proof.
  intros n r h r' Hn E. unfold read_untrusted_header, read_block_header in E.
  destruct (read_header_fields r) as [[mk r1]|] eqn:E1; [|done].
  assert (H1 : counted n r1) by (eapply counts_header_fields; [exact Hn|exact E1]).
  destruct (read_pow ct r1) as [[[p r2]|]|] eqn:E2; cbn [mbind option_bind rbind] in E; [|done..].
  assert (H2 : counted n r2) by (by eapply counts_pow).
  destruct ((date_max <? _) || _); cbn [mbind option_bind] in E; [done|].
  destruct (from_timestamp _) as [ts|]; cbn [mbind option_bind] in E; [|done].
  set (hd := set_timestamp _ _) in E.
  destruct (_ <? timestamp hd * 10 ^ 9); [done|]. destruct (negb (valid_header_version _ _ _)); [done|].
  destruct (negb (is_primary _ _) && _); [done|]. destruct (verify_size _ _ _) as [ok|]; cbn [mbind option_bind] in E; [|done].
  destruct (negb (is_ok ok)); [done|]. destruct (_ <? weight_by_iok _ _ _); [done|]. by injection E as _ <-.
Qed.

(** ** The buffer and the socket *)

Lemma sock_read_app bs s : sock_read (length bs) (map Some bs ++ s) = (Ok bs, s).
Proof. induction bs as [|b bs IH]; [done|]. cbn [length map app sock_read]. by rewrite IH. Qed.

(** A codec to which [bs], and then [s], arrives, with the first [k] bytes in the
    buffer. *)
Definition holding (v : ProtocolVersion) (bs : bytes) (k : nat) (s : Stream) (st : State) (rd : Z) : Codec :=
  mkCodec v (map Some (drop k bs) ++ s) (take k bs) st rd.

Lemma holding_drop v bs k n s st rd :
  (n <= k)%nat -> set_c_buffer (drop n (take k bs)) (holding v bs k s st rd) = holding v (drop n bs) (k - n) s st rd.
Proof.
  intros Hn. unfold holding, set_c_buffer. cbn [c_version c_stream c_state c_bytes_read].
  rewrite drop_drop, take_drop_commute. by replace (n + (k - n))%nat with k by lia.
Qed.

Lemma holding_nil v k s st rd : holding v [] k s st rd = mkCodec v s [] st rd.
Proof. unfold holding. by rewrite drop_nil, take_nil. Qed.

Lemma holding_raw v bs n s st rd : take n (c_buffer (holding v bs n s st rd)) = take n bs.
Proof. cbn [holding c_buffer]. by rewrite take_take, Nat.min_id. Qed.

Lemma holding_rest v bs n s st rd :
  set_c_buffer (drop n (c_buffer (holding v bs n s st rd))) (holding v bs n s st rd) = holding v (drop n bs) 0 s st rd.
Proof. cbn [c_buffer holding]. rewrite <- (Nat.sub_diag n). by apply (holding_drop v bs n n). Qed.

Section stream.
Context {CR : Crypto} {SU : SortUnstable} {NF : NrdFlag} {CH : Chrono} {CL : ChronoLaws}.
Context (ct : ChainTypes) (walk : nat) (ftl : Z) (v : ProtocolVersion).
Let w := mkWriter SerFull v.

Lemma fill_holding bs k s st rd (n : nat) :
  next_len ct (holding v bs k s st rd) = Z.of_nat n -> (k <= n <= length bs)%nat ->
  fill ct (holding v bs k s st rd) = (Ok tt, holding v bs n s st (rd + Z.of_nat (n - k))).
Proof.
  intros Hn Hk. unfold fill. rewrite Hn. cbn [holding c_buffer c_stream c_bytes_read].
  rewrite length_take, Nat.min_l by lia. unfold sat_sub64.
  destruct (Z.ltb_spec 0 (Z.max (Z.of_nat n - Z.of_nat k) 0)).
  - replace (Z.to_nat (Z.max (Z.of_nat n - Z.of_nat k) 0)) with (length (take (n - k) (drop k bs)))
      by (rewrite length_take, length_drop; lia).
    assert (E : map Some (drop k bs) ++ s = map Some (take (n - k) (drop k bs)) ++ map Some (drop n bs) ++ s).
    { rewrite app_assoc, <- map_app. f_equal. f_equal. rewrite <- (take_drop (n - k) (drop k bs)) at 1.
      by rewrite drop_drop, Nat.add_comm, Nat.sub_add by lia. }
    rewrite E, sock_read_app. unfold holding, set_c_buffer, set_c_stream, set_c_bytes_read. cbn [c_version c_stream c_buffer c_state c_bytes_read].
    repeat f_equal; [|lia].
    rewrite take_take_drop. by replace (k + (n - k))%nat with n by lia.
  - assert (n = k) as -> by lia. by rewrite Nat.sub_diag, Z.add_0_r.
Qed.

(** One turn of the loop, when what it needs arrives. *)
Lemma loop_again f bs k s st rd (n : nat) c :
  next_len ct (holding v bs k s st rd) = Z.of_nat n -> (k <= n <= length bs)%nat ->
  turn ct walk ftl (holding v bs n s st (rd + Z.of_nat (n - k))) = Some (Again c) ->
  read_loop ct walk ftl (S f) (holding v bs k s st rd) = read_loop ct walk ftl f c.
Proof. intros Hn Hk Ht. cbn [read_loop]. rewrite (fill_holding bs k s st rd n Hn Hk), Ht. done. Qed.

Lemma loop_done f bs k s st rd (n : nat) res c :
  next_len ct (holding v bs k s st rd) = Z.of_nat n -> (k <= n <= length bs)%nat ->
  turn ct walk ftl (holding v bs n s st (rd + Z.of_nat (n - k))) = Some (Done res c) ->
  read_loop ct walk ftl f (holding v bs k s st rd) = Some (res, c).
Proof. intros Hn Hk Ht. destruct f; cbn [read_loop]; rewrite (fill_holding bs k s st rd n Hn Hk), Ht; done. Qed.

(** *** The header of a message *)

Definition head_bytes (code len : Z) : bytes := fst (magic ct) :: snd (magic ct) :: code :: be 8 len.

Lemma head_length code len : length (head_bytes code len) = 11%nat.
Proof. cbn [head_bytes length]. by rewrite be_length. Qed.

Lemma expect_buf (r : BufReader.t) x tl : input r = x :: tl ->
  exists r', expect_u8 r x = Ok (x, r') /\ advanced input r r' tl.
Proof.
  intros Hin. destruct (law_u8 (R := BufReader.t)) as [Hr _]. destruct (Hr r [x] tl Hin eq_refl) as (r' & E & Ha).
  change (be_value [x]) with x in E. exists r'. split; [|done].
  change (expect_byte (read_u8 (R := BufReader.t)) r x = Ok (x, r')). unfold expect_byte. rewrite E. cbn [rbind]. by rewrite Z.eqb_refl.
Qed.

Definition wrapper (code len : Z) : MsgHeaderWrapper :=
  match type_from_u8 code with Some t => Known (mkMsgHeader (magic ct) t len) | None => Unknown len code end.
Definition max_len (code : Z) : Z :=
  match type_from_u8 code with Some t => max_msg_size ct t * 4 | None => default_max_msg_size ct * 4 end.

Lemma read_head code len : u64 len -> len <= max_len code ->
  exists r', read_msg_header ct (BufReader.new (head_bytes code len) v) = Ok (wrapper code len, r').
Proof.
  intros Hu Hl. unfold read_msg_header, head_bytes.
  destruct (expect_buf (BufReader.new (fst (magic ct) :: snd (magic ct) :: code :: be 8 len) v) _ _ eq_refl) as (r1 & -> & Hin1 & _).
  cbn [rbind]. destruct (expect_buf r1 _ _ Hin1) as (r2 & -> & Hin2 & _). cbn [rbind].
  destruct (law_u8 (R := BufReader.t)) as [Hr8 _]. destruct (Hr8 r2 [code] _ Hin2 eq_refl) as (r3 & -> & Hin3 & _).
  change (be_value [code]) with code. cbn [rbind].
  destruct (read_uint_be 8 read_u64 r3 len [] law_u64 ltac:(done) ltac:(by rewrite app_nil_r)) as (r4 & -> & _).
  cbn [rbind]. unfold wrapper, max_len in *. destruct (type_from_u8 code) as [t|].
  - destruct (Z.ltb_spec (max_msg_size ct t * 4) len); [lia|]. by exists r4.
  - destruct (Z.ltb_spec (default_max_msg_size ct * 4) len); [lia|]. by exists r4.
Qed.

Lemma loop_head f code len bs s rd : u64 len -> len <= max_len code ->
  read_loop ct walk ftl (S f) (holding v (head_bytes code len ++ bs) 0 s SNone rd) =
  read_loop ct walk ftl f (holding v bs 0 s (SHeader (wrapper code len)) (rd + 11)).
Proof.
  intros Hu Hl. apply (loop_again f _ 0 s SNone rd 11); [done|rewrite length_app, head_length; lia|].
  unfold turn. rewrite holding_raw, holding_rest. cbn [holding c_state c_version].
  change (Z.to_nat HEADER_LEN) with 11%nat. rewrite <- (head_length code len), take_app_length, drop_app_length.
  destruct (read_head code len Hu Hl) as (r' & ->).
  by rewrite head_length.
Qed.

(** *** Messages that are read whole *)

Definition is_headers (code : Z) : bool := bool_decide (type_from_u8 code = Some THeaders).

(** What a body of this type is handed over as. *)
Definition handed (code : Z) (body : bytes) : option (result P2PError Message) :=
  match type_from_u8 code with
  | Some t => decode_message ct walk ftl t body v
  | None => Some (Ok (MUnknown code))
  end.

Lemma loop_body f code body bs s rd msg :
  is_headers code = false -> handed code body = Some msg ->
  read_loop ct walk ftl f (holding v (body ++ bs) 0 s (SHeader (wrapper code (Z.of_nat (length body)))) rd) =
    Some (msg, holding v bs 0 s SNone (rd + Z.of_nat (length body))).
Proof.
  intros Hh Hm. unfold is_headers, handed, wrapper in *. apply (loop_done f _ 0 s _ rd (length body)).
  - unfold next_len. cbn [holding c_state]. destruct (type_from_u8 code) as [t|]; [|done]. cbn [msg_type msg_len].
    apply bool_decide_eq_false in Hh. rewrite decide_False by congruence. done.
  - rewrite length_app. lia.
  - unfold turn. rewrite Nat.sub_0_r. set (c := holding v _ _ _ _ _).
    assert (En : Z.to_nat (next_len ct c) = length body).
    { unfold next_len, c. cbn [holding c_state]. destruct (type_from_u8 code) as [t|]; [|apply Nat2Z.id]. cbn [msg_type msg_len].
      apply bool_decide_eq_false in Hh. rewrite decide_False by congruence. apply Nat2Z.id. }
    rewrite En. unfold c. rewrite holding_raw, holding_rest, take_app_length, drop_app_length. cbn [holding c_state c_version].
    destruct (type_from_u8 code) as [t|].
    + cbn [msg_type]. apply bool_decide_eq_false in Hh. rewrite decide_False by congruence. rewrite Hm. done.
    + injection Hm as <-. done.
Qed.

(** A message from its first byte. *)
Lemma codec_read_whole code body bs s rd msg :
  is_headers code = false -> handed code body = Some msg ->
  Z.of_nat (length body) <= max_len code -> u64 (Z.of_nat (length body)) ->
  codec_read ct walk ftl (holding v (head_bytes code (Z.of_nat (length body)) ++ body ++ bs) 0 s SNone rd) =
    Some (msg, 11 + Z.of_nat (length body), holding v bs 0 s SNone (11 + Z.of_nat (length body))).
Proof.
  intros Hh Hm Hl Hu. unfold codec_read, read_inner.
  change (set_c_bytes_read 0 (holding v ?b ?k s SNone rd)) with (holding v b k s SNone 0).
  unfold READ_FUEL. rewrite loop_head by done. rewrite (loop_body _ code body bs s _ msg Hh Hm). done.
Qed.

(** *** Lists of headers *)

Let enc := header_encoding ct.
Definition encs (hs : list BlockHeader) : bytes := concat (map enc hs).

(** The most that is taken from the socket for a header. *)
Definition ahead (rest : bytes) : nat := Z.to_nat (Z.min (Z.of_nat (length rest)) (header_size_bytes ct 63)).

Lemma enc_length h : acceptable ct walk ftl h -> 0 < Z.of_nat (length (enc h)) <= header_size_bytes ct 63.
Proof.
  intros [((_ & _ & _ & H1 & H2 & H3 & H4 & H5 & H6 & _) & _ & _ & He & _) _].
  unfold enc, header_encoding, header_bytes, pow_prefix, proof_bytes. rewrite !length_app, !be_length. cbn [length].
  rewrite le_length. unfold hash_len, HASH_SIZE, SECRET_KEY_SIZE in *. unfold header_size_bytes.
  pose proof (pack_len_bounds ct (edge_bits (pow_proof (pow h)))). pose proof (pack_len_bounds ct 63). pose proof (proofsize_bounds ct).
  assert (edge_bits (pow_proof (pow h)) * proofsize ct <= 63 * proofsize ct) by nia. lia.
Qed.

Lemma next_len_headers rest k s n batch rd :
  next_len ct (holding v rest k s (SBlockHeaders (Z.of_nat (length rest)) n batch) rd) = Z.of_nat (ahead rest).
Proof. unfold next_len, ahead. cbn [holding c_state]. rewrite Z2Nat.id; [done|]. unfold header_size_bytes. pose proof (pack_len_bounds ct 63). pose proof (proofsize_bounds ct). nia. Qed.

(** Reading one header off the buffer. *)
Lemma read_one h rest n : acceptable ct walk ftl h -> Forall (in_range 8) (enc h ++ rest) ->
  (length (enc h) <= n)%nat -> Z.of_nat (length (enc h ++ rest)) < 2 ^ 64 ->
  exists r, read_untrusted_header walk ct ftl (BufReader.new (take n (enc h ++ rest)) v) = Some (Ok (h, r)) /\
    BufReader.inner r = take (n - length (enc h)) rest /\ BufReader.bytes_read r = Z.of_nat (length (enc h)).
Proof.
  intros Hh Hb Hn Hlt. rewrite take_app_ge by done.
  destruct (read_untrusted_ok ct walk ftl (BufReader.new (enc h ++ take (n - length (enc h)) rest) v) h (take (n - length (enc h)) rest))
    as (r & E & Hin & _); [done| |done|done|].
  { apply Forall_app in Hb as [? ?]. apply Forall_app. split; [done|]. by apply Forall_take. }
  exists r. split_and!; [done..|]. change (BufReader.inner r = take (n - length (enc h)) rest) in Hin.
  assert (H0 : counted (Z.of_nat (length (enc h ++ take (n - length (enc h)) rest))) (BufReader.new (enc h ++ take (n - length (enc h)) rest) v)).
  { unfold counted, BufReader.new. cbn [BufReader.bytes_read BufReader.inner]. rewrite length_app in *. rewrite length_take. lia. }
  destruct (counts_untrusted walk ct ftl _ _ _ _ H0 E) as (_ & Hc & _).
  rewrite Hin, length_app in Hc. lia.
Qed.

Definition batch_message (batch : list BlockHeader) (left_ : nat) : Message := MHeaders (mkHeadersData batch (Z.of_nat left_)).

(** What is left when a batch is handed over: nothing, or the state in which the next batch begins. *)
Definition after_batch (hs : list BlockHeader) (k : nat) (s : Stream) (rd : Z) : Codec :=
  match hs with
  | [] => holding v [] 0 s SNone rd
  | _ :: _ => holding v (encs hs) k s (SBlockHeaders (Z.of_nat (length (encs hs))) (Z.of_nat (length hs)) []) rd
  end.

(** One header of a batch. *)
Lemma loop_header f h hs k s batch rd :
  acceptable ct walk ftl h -> Forall (in_range 8) (encs (h :: hs)) -> Z.of_nat (length (encs (h :: hs))) < 2 ^ 64 ->
  u64 (Z.of_nat (S (length hs))) -> (length batch < 32)%nat -> (k <= ahead (encs (h :: hs)))%nat ->
  exists k' rd', (k' <= ahead (encs hs))%nat /\
    rd' + Z.of_nat (length (drop k' (encs hs))) = rd + Z.of_nat (length (drop k (encs (h :: hs)))) /\
    read_loop ct walk ftl (S f)
      (holding v (encs (h :: hs)) k s (SBlockHeaders (Z.of_nat (length (encs (h :: hs)))) (Z.of_nat (S (length hs))) batch) rd) =
    if decide (S (length batch) = 32%nat \/ hs = []) then
      Some (Ok (batch_message (batch ++ [h]) (length hs)), after_batch hs k' s rd')
    else
      read_loop ct walk ftl f (holding v (encs hs) k' s (SBlockHeaders (Z.of_nat (length (encs hs))) (Z.of_nat (length hs)) (batch ++ [h])) rd').
Proof.
  intros Hh Hb Hlt Hu Hbatch Hk. pose proof (enc_length h Hh) as He.
  assert (El : length (encs (h :: hs)) = (length (enc h) + length (encs hs))%nat) by (unfold encs; cbn [map concat]; by rewrite length_app).
  set (n := ahead (encs (h :: hs))) in *.
  assert (Hn : (length (enc h) <= n <= length (encs (h :: hs)))%nat) by (unfold n, ahead; lia).
  assert (Hn' : (n - length (enc h) <= ahead (encs hs))%nat) by (unfold n, ahead; lia).
  set (rd' := rd + Z.of_nat (n - k)).
  exists (n - length (enc h))%nat, rd'. split_and!; [done|unfold rd'; rewrite !length_drop; lia|].
  destruct (read_one h (encs hs) n Hh Hb (proj1 Hn) ltac:(exact Hlt)) as (r & E & Ei & Ec).
  assert (Et : turn ct walk ftl (holding v (encs (h :: hs)) n s (SBlockHeaders (Z.of_nat (length (encs (h :: hs)))) (Z.of_nat (S (length hs))) batch) rd') =
    Some (if decide (S (length batch) = 32%nat \/ hs = [])
          then Done (Ok (batch_message (batch ++ [h]) (length hs))) (after_batch hs (n - length (enc h)) s rd')
          else Again (holding v (encs hs) (n - length (enc h)) s (SBlockHeaders (Z.of_nat (length (encs hs))) (Z.of_nat (length hs)) (batch ++ [h])) rd'))).
  { change (enc h ++ encs hs) with (encs (h :: hs)) in E.
    assert (Ed : drop n (encs (h :: hs)) = drop (n - length (enc h)) (encs hs)) by (apply (drop_app_ge (enc h)); lia).
    unfold turn. cbn [holding c_state c_buffer c_version]. destruct (Z.eqb_spec (Z.of_nat (length (encs (h :: hs)))) 0); [lia|].
    rewrite E. cbn [mbind option_bind]. rewrite Ei, Ec.
    assert (Eb : sat_sub64 (Z.of_nat (length (encs (h :: hs)))) (Z.of_nat (length (enc h))) = Z.of_nat (length (encs hs))) by (unfold sat_sub64; lia).
    assert (Er : sub64 (Z.of_nat (S (length hs))) 1 = Z.of_nat (length hs)) by (unfold sub64; rewrite wrap_small; unfold_words; lia).
    rewrite Eb, Er, length_app. cbn [length]. change HEADER_BATCH_SIZE with 32.
    unfold set_c_buffer, holding. cbn [c_version c_stream c_state c_bytes_read]. rewrite Ed.
    destruct hs as [|h' hs].
    - rewrite decide_True by auto. rewrite orb_true_r. cbn [length encs map concat]. cbn. by rewrite drop_nil, take_nil.
    - destruct (decide _) as [[Hd|Hd]|Hd]; [|done|].
      + destruct (Z.eqb_spec (Z.of_nat (length batch + 1)) 32); [|lia]. cbn [orb].
        destruct (Z.eqb_spec (Z.of_nat (length (h' :: hs))) 0); [done|]. done.
      + destruct (Z.eqb_spec (Z.of_nat (length batch + 1)) 32); [exfalso; apply Hd; lia|]. cbn [orb].
        destruct (Z.eqb_spec (Z.of_nat (length (h' :: hs))) 0); [done|]. done. }
  pose proof (next_len_headers (encs (h :: hs)) k s (Z.of_nat (S (length hs))) batch rd) as En. fold n in En.
  revert Et. destruct (decide _); intros Et.
  - apply (loop_done _ _ _ _ _ _ n); [done|lia|exact Et].
  - apply (loop_again _ _ _ _ _ _ n); [done|lia|exact Et].
Qed.

(** A batch: 32 headers, or those that are left. *)
Lemma loop_batch hs : Forall (acceptable ct walk ftl) hs -> forall f k s batch rd,
  hs <> [] -> Forall (in_range 8) (encs hs) -> Z.of_nat (length (encs hs)) < 2 ^ 64 -> u64 (Z.of_nat (length hs)) ->
  (length batch < 32)%nat -> (32 <= f + length batch)%nat -> (k <= ahead (encs hs))%nat ->
  exists k' rd', let rest := drop (32 - length batch) hs in (k' <= ahead (encs rest))%nat /\
    rd' + Z.of_nat (length (drop k' (encs rest))) = rd + Z.of_nat (length (drop k (encs hs))) /\
    read_loop ct walk ftl f (holding v (encs hs) k s (SBlockHeaders (Z.of_nat (length (encs hs))) (Z.of_nat (length hs)) batch) rd) =
      Some (Ok (batch_message (batch ++ take (32 - length batch) hs) (length rest)), after_batch rest k' s rd').
Proof.
  induction 1 as [|h hs Hh Hhs IH]; intros f k s batch rd Hne Hb Hlt Hu Hbatch Hf Hk; [done|].
  destruct f as [|f]; [lia|].
  destruct (loop_header f h hs k s batch rd Hh Hb Hlt Hu Hbatch Hk) as (k1 & rd1 & Hk1 & Hrd1 & E).
  cbn [length] in E |- *. rewrite E. destruct (decide _) as [Hd|Hd].
  - exists k1, rd1. destruct Hd as [Hd|Hd].
    + replace (32 - length batch)%nat with 1%nat by lia. cbn [drop take]. rewrite drop_0, take_0. by split_and!.
    + subst hs. rewrite take_ge, drop_ge by (cbn [length]; lia). by split_and!.
  - assert (Hlen : length (encs (h :: hs)) = (length (enc h) + length (encs hs))%nat) by (unfold encs; cbn [map concat]; by rewrite length_app).
    destruct (IH f k1 s (batch ++ [h]) rd1) as (k2 & rd2 & Hk2 & Hrd2 & E2).
    + intros ->. apply Hd. by right.
    + by apply Forall_app in Hb as [_ Hb].
    + lia.
    + unfold_words. cbn [length] in Hu. lia.
    + rewrite length_app. cbn [length]. assert (S (length batch) <> 32%nat) by (intros ?; apply Hd; by left). lia.
    + rewrite length_app. cbn [length]. lia.
    + done.
    + rewrite length_app in *. cbn [length] in *.
      replace (32 - length batch)%nat with (S (32 - (length batch + 1))) by (assert (S (length batch) <> 32%nat) by (intros ?; apply Hd; by left); lia).
      cbn [drop take]. exists k2, rd2. split_and!; [done|lia|]. rewrite E2. by rewrite <- app_assoc.
Qed.

Lemma type_from_code t : type_from_u8 (type_code t) = Some t.
Proof. by destruct t. Qed.

Lemma loop_count f rest n s rd : in_range 16 n ->
  read_loop ct walk ftl (S f)
    (holding v (be 2 n ++ rest) 0 s (SHeader (wrapper (type_code THeaders) (2 + Z.of_nat (length rest)))) rd) =
  read_loop ct walk ftl f (holding v rest 0 s (SBlockHeaders (sub64 (2 + Z.of_nat (length rest)) 2) n []) (rd + 2)).
Proof.
  intros Hn. unfold wrapper. rewrite type_from_code. pose proof (be_length 2 n) as Hl.
  apply (loop_again f _ 0 s _ rd 2).
  - unfold next_len. cbn [holding c_state msg_type msg_len]. rewrite decide_True by done. lia.
  - rewrite length_app. lia.
  - unfold turn. set (c := holding v _ 2 s _ _).
    assert (En : Z.to_nat (next_len ct c) = 2%nat).
    { unfold next_len, c. cbn [holding c_state msg_type msg_len]. rewrite decide_True by done. lia. }
    rewrite En. unfold c. rewrite holding_raw, holding_rest. cbn [holding c_state c_version msg_type msg_len].
    rewrite decide_True by done. rewrite (take_app_length' (be 2 n) rest 2), (drop_app_length' (be 2 n) rest 2) by done.
    destruct (read_uint_be 2 read_u16 (BufReader.new (be 2 n) v) n [] law_u16 ltac:(done) ltac:(by rewrite app_nil_r)) as (r & E & _).
    rewrite E. done.
Qed.

(** *** What the codec does not keep *)

(** A list of no headers, with which [locate_headers] can answer, is refused. *)
Lemma empty_list_refused s rd :
  codec_read ct walk ftl (holding v (head_bytes (type_code THeaders) 2 ++ be 2 0) 0 s SNone rd) =
    Some (Err BadMessage, 13, holding v [] 0 s SNone 13).
Proof.
  unfold codec_read, read_inner. change (set_c_bytes_read 0 (holding v ?b 0 s SNone rd)) with (holding v b 0 s SNone 0).
  change READ_FUEL with 34%nat. rewrite loop_head; [|done|by destruct ct]. rewrite <- (app_nil_r (be 2 0)).
  rewrite (loop_count 32 [] 0) by done. change (sub64 (2 + Z.of_nat (length [])) 2) with 0. change (0 + 11 + 2) with 13.
  rewrite (loop_done 32 [] 0 s (SBlockHeaders 0 0 []) 13 0 (Err BadMessage) (holding v [] 0 s SNone 13)); [done| |cbn; lia|done].
  by destruct ct.
Qed.

(** When the socket pauses in the middle of what is asked for, the bytes before the
    pause are gone, and reading goes on behind it. *)
Lemma pause_loses_bytes bs s rd : (0 < length bs < 11)%nat ->
  codec_read ct walk ftl (mkCodec v (map Some bs ++ None :: s) [] SNone rd) = Some (Err TimedOut, 0, mkCodec v s [] SNone 0).
Proof.
  intros Hl. assert (E : forall bs n, (length bs < n)%nat -> sock_read n (map Some bs ++ None :: s) = (Err TimedOut, s)).
  { clear. induction bs as [|b bs IH]; intros n Hn; (destruct n as [|n]; [cbn in Hn; lia|]); [done|].
    cbn [map app sock_read]. rewrite IH by (cbn in Hn; lia). done. }
  unfold codec_read, read_inner, READ_FUEL, set_c_bytes_read. cbn [read_loop c_version c_stream c_buffer c_state].
  unfold fill, next_len. cbn [c_state c_buffer c_stream length]. change (0 <? sat_sub64 HEADER_LEN (Z.of_nat 0)) with true. cbv iota.
  change (Z.to_nat (sat_sub64 HEADER_LEN (Z.of_nat 0))) with 11%nat. by rewrite E by lia.
Qed.

(** ** Reading on *)

(** What [n] readings of the codec give, and how many bytes they count. *)
Fixpoint read_many (n : nat) (c : Codec) : option (list (result P2PError Message) * Z * Codec) :=
  match n with
  | O => Some ([], 0, c)
  | S n =>
      let! (msg, k, c) := codec_read ct walk ftl c in
      let! (msgs, total, c) := read_many n c in
      Some (msg :: msgs, k + total, c)
  end.

Lemma read_many_app n m c l1 k1 c1 l2 k2 c2 :
  read_many n c = Some (l1, k1, c1) -> read_many m c1 = Some (l2, k2, c2) -> read_many (n + m) c = Some (l1 ++ l2, k1 + k2, c2).
Proof.
  revert c l1 k1. induction n as [|n IH]; intros c l1 k1; cbn [read_many Nat.add].
  { intros [= <- <- <-] E. by rewrite E. }
  destruct (codec_read ct walk ftl c) as [[[msg k] c']|]; [|done]. cbn [mbind option_bind].
  destruct (read_many n c') as [[[l k'] c'']|] eqn:E1; [|done]. cbn [mbind option_bind]. intros [= <- <- <-] E2.
  rewrite (IH c' l k' E1 E2). cbn [mbind option_bind]. by rewrite Z.add_assoc.
Qed.

(** The batches in which headers are handed over, with how many are still to come. *)
Fixpoint batches (fuel : nat) (hs : list BlockHeader) : list Message :=
  match fuel, hs with
  | S fuel, _ :: _ => batch_message (take 32 hs) (length (drop 32 hs)) :: batches fuel (drop 32 hs)
  | _, _ => []
  end.

(** What is left of a list of headers, between two readings. *)
Lemma read_batches fuel : forall hs k s rd,
  Forall (acceptable ct walk ftl) hs -> Forall (in_range 8) (encs hs) -> Z.of_nat (length (encs hs)) < 2 ^ 64 -> u64 (Z.of_nat (length hs)) ->
  (length hs <= fuel)%nat -> (k <= ahead (encs hs))%nat ->
  exists rd', read_many (length (batches fuel hs)) (after_batch hs k s rd) =
    Some (map Ok (batches fuel hs), Z.of_nat (length (drop k (encs hs))), holding v [] 0 s SNone rd').
Proof.
  induction fuel as [|fuel IH]; intros hs k s rd Hh Hb Hlt Hu Hl Hk.
  { destruct hs; [|cbn [length] in Hl; lia]. exists rd. cbn. by rewrite drop_nil. }
  destruct hs as [|h hs]; [exists rd; cbn; by rewrite drop_nil|].
  destruct (loop_batch (h :: hs) Hh 34 k s [] 0) as (k' & rd' & Hk' & Hrd & E); [done|done|done|done|cbn; lia|cbn; lia|done|].
  cbn [length Nat.sub] in Hk', Hrd, E. set (rest := drop 32 (h :: hs)) in *.
  assert (Hsplit : encs (h :: hs) = encs (take 32 (h :: hs)) ++ encs rest).
  { unfold encs, rest. rewrite <- concat_app, <- map_app. by rewrite take_drop. }
  destruct (IH rest k' s rd') as (rd2 & E2).
  - by apply Forall_drop.
  - rewrite Hsplit in Hb. by apply Forall_app in Hb as [_ Hb].
  - rewrite Hsplit, length_app in Hlt. lia.
  - unfold rest. rewrite length_drop. unfold_words. lia.
  - unfold rest. rewrite length_drop. cbn [length] in *. lia.
  - done.
  - cbn [batches length read_many map]. fold rest. unfold codec_read at 1, read_inner.
    change (set_c_bytes_read 0 (after_batch (h :: hs) k s rd)) with
      (holding v (encs (h :: hs)) k s (SBlockHeaders (Z.of_nat (length (encs (h :: hs)))) (Z.of_nat (length (h :: hs))) []) 0).
    change READ_FUEL with 34%nat. cbn [length] in E |- *. rewrite E. cbn [mbind option_bind].
    assert (Ec : forall k rd, c_bytes_read (after_batch rest k s rd) = rd) by (intros; unfold after_batch; by destruct rest).
    rewrite Ec, E2. cbn [mbind option_bind]. exists rd2. do 3 f_equal. lia.
Qed.

(** A list of headers from its first byte. *)
Lemma read_header_list hs s rd :
  Forall (acceptable ct walk ftl) hs -> Forall (in_range 8) (encs hs) -> 1 <= Z.of_nat (length hs) <= MAX_HEADERS ->
  let body := be 2 (Z.of_nat (length hs)) ++ encs hs in
  exists rd', read_many (length (batches (length hs) hs)) (holding v (head_bytes (type_code THeaders) (Z.of_nat (length body)) ++ body) 0 s SNone rd) =
    Some (map Ok (batches (length hs) hs), 11 + Z.of_nat (length body), holding v [] 0 s SNone rd').
Proof.
  intros Hh Hb Hn body. unfold MAX_HEADERS in Hn.
  pose proof (headers_encoding_fits ct walk ftl hs Hh) as Hfit. change max_header_size with 578 in Hfit. fold enc in Hfit. fold (encs hs) in Hfit.
  assert (Hlen : Z.of_nat (length body) = 2 + Z.of_nat (length (encs hs))) by (unfold body; rewrite length_app, be_length; lia).
  destruct hs as [|h hs]; [cbn [length] in Hn; lia|].
  destruct (loop_batch (h :: hs) Hh 32 0 s [] 13) as (k' & rd' & Hk' & Hrd & E);
    [done|done|lia|unfold_words; lia|cbn; lia|cbn; lia|lia|].
  cbn [length Nat.sub app] in Hk', Hrd, E. rewrite drop_0 in Hrd. set (rest := drop 32 (h :: hs)) in *.
  assert (Hsplit : encs (h :: hs) = encs (take 32 (h :: hs)) ++ encs rest).
  { unfold encs, rest. rewrite <- concat_app, <- map_app. by rewrite take_drop. }
  pose proof (f_equal length Hsplit) as Hls. rewrite length_app in Hls.
  destruct (read_batches (length hs) rest k' s rd') as (rd2 & E2).
  - by apply Forall_drop.
  - rewrite Hsplit in Hb. by apply Forall_app in Hb as [_ Hb].
  - lia.
  - unfold rest. rewrite length_drop. unfold_words. lia.
  - unfold rest. rewrite length_drop. cbn [length]. lia.
  - done.
  - exists rd2. cbn [batches length read_many map]. fold rest. unfold codec_read at 1, read_inner.
    change (set_c_bytes_read 0 (holding v ?b 0 s SNone rd)) with (holding v b 0 s SNone 0). change READ_FUEL with 34%nat.
    rewrite loop_head; [|unfold_words; lia|unfold max_len; rewrite type_from_code; cbn [max_msg_size]; change max_header_size with 578; unfold MAX_HEADERS; lia].
    rewrite Hlen. unfold body. rewrite loop_count by (unfold_words; lia). cbn [length] in E |- *.
    replace (sub64 (2 + Z.of_nat (length (encs (h :: hs)))) 2) with (Z.of_nat (length (encs (h :: hs))))
      by (unfold sub64; rewrite wrap_small; unfold_words; lia).
    replace (0 + 11 + 2) with 13 by lia. rewrite E. cbn [mbind option_bind].
    assert (Ec : forall k rd, c_bytes_read (after_batch rest k s rd) = rd) by (intros; unfold after_batch; by destruct rest).
    rewrite Ec, E2. cbn [mbind option_bind]. do 3 f_equal. lia.
Qed.

(** ** What is sent *)

(** A message of this node's, or one of a type it does not know. *)
Inductive Item : Type := Ours (m : Message) | Foreign (type_byte : Z) (body : bytes).

(** The bytes that go through the socket, by [Msg::new] and [write_message]. *)
Definition item_bytes (i : Item) : option (result P2PError bytes) :=
  match i with
  | Ours m =>
      let! (t, body) := message_body ct v m in
      Some (let? msg := msg_new ct t body in map_err Serialization (message_bytes v msg))
  | Foreign t body => Some (Ok (head_bytes t (Z.of_nat (length body)) ++ body))
  end.

Fixpoint stream_bytes (l : list Item) : option (result P2PError bytes) :=
  match l with
  | [] => Some (Ok [])
  | i :: l => let! x := item_bytes i in let! y := stream_bytes l in Some (let? x := x in let? y := y in Ok (x ++ y))
  end.

(** Lists of headers are not empty and not longer than the limit; a body whose
    type has no limit of its own fits the one by the weight of a block. *)
Definition item_ok (i : Item) : Prop :=
  match i with
  | Ours (MHeaders d) => Forall (acceptable ct walk ftl) (hd_headers d) /\ 1 <= Z.of_nat (length (hd_headers d)) <= MAX_HEADERS
  | Ours m => message_ok ct walk ftl v m /\
      forall t body, message_body ct v m = Some (t, Ok body) -> small_type t = false ->
        Z.of_nat (length body) <= max_msg_size ct t * 4
  | Foreign t body => type_from_u8 t = None /\ Z.of_nat (length body) <= default_max_msg_size ct * 4
  end.

Definition delivered (i : Item) : list Message :=
  match i with
  | Ours (MHeaders d) => batches (length (hd_headers d)) (hd_headers d)
  | Ours m => [as_read v m]
  | Foreign t _ => [MUnknown t]
  end.

Lemma max_len_bound code : max_len code < 2 ^ 64.
Proof.
  assert (H : forall t, max_msg_size ct t * 4 < 2 ^ 64) by (intros t; destruct ct, t; vm_compute; reflexivity).
  unfold max_len. destruct (type_from_u8 code); [apply H|]. destruct ct; vm_compute; reflexivity.
Qed.

Lemma max_size_nonneg t : 0 <= max_msg_size ct t.
Proof. destruct ct, t; vm_compute; congruence. Qed.

(** The item is sent as [bs] and comes out of the codec whatever follows. *)
Definition passes (i : Item) (bs : bytes) : Prop :=
  item_bytes i = Some (Ok bs) /\
  (Forall (in_range 8) bs -> forall s rd, exists rd',
     read_many (length (delivered i)) (holding v bs 0 s SNone rd) =
       Some (map Ok (delivered i), Z.of_nat (length bs), holding v [] 0 s SNone rd')).

Lemma whole_passes i code body msg :
  item_bytes i = Some (Ok (head_bytes code (Z.of_nat (length body)) ++ body)) -> delivered i = [msg] ->
  is_headers code = false -> (Forall (in_range 8) body -> handed code body = Some (Ok msg)) -> Z.of_nat (length body) <= max_len code ->
  passes i (head_bytes code (Z.of_nat (length body)) ++ body).
Proof.
  intros Ei Ed Hh Hm Hl. split; [done|]. intros [_ Hb]%Forall_app s rd. rewrite Ed. eexists. cbn [length read_many map].
  pose proof (max_len_bound code). pose proof (codec_read_whole code body [] s rd (Ok msg) Hh (Hm Hb) Hl ltac:(unfold_words; lia)) as E.
  rewrite app_nil_r in E. rewrite E. cbn [mbind option_bind]. rewrite length_app, head_length. do 3 f_equal. lia.
Qed.

Lemma ours_bytes m t body : message_body ct v m = Some (t, Ok body) ->
  item_bytes (Ours m) = Some (Ok (head_bytes (type_code t) (Z.of_nat (length body)) ++ body)).
Proof. intros E. cbn [item_bytes]. by rewrite E. Qed.

Lemma headers_pass d : item_ok (Ours (MHeaders d)) -> exists bs, passes (Ours (MHeaders d)) bs.
Proof.
  intros [Hh Hn]. destruct d as [hs left_]. cbn [hd_headers] in *.
  set (body := be 2 (Z.of_nat (length hs)) ++ encs hs).
  exists (head_bytes (type_code THeaders) (Z.of_nat (length body)) ++ body). split.
  - apply ours_bytes. cbn [message_body hd_headers]. unfold write_headers_msg. cbn [hs_headers].
    rewrite (write_headers_ok ct walk ftl v hs Hh). cbn [mbind option_bind]. unfold MAX_HEADERS in Hn.
    rewrite wrap_small by (unfold in_range; lia). done.
  - intros [_ [_ Hb]%Forall_app]%Forall_app s rd. destruct (read_header_list hs s rd Hh Hb Hn) as (rd' & E). fold body in E.
    exists rd'. cbn [delivered hd_headers]. rewrite E. rewrite length_app, head_length. do 3 f_equal. lia.
Qed.

Definition is_list (m : Message) : bool := match m with MHeaders _ => true | _ => false end.

Lemma list_type m x : message_body ct v m = Some (THeaders, x) -> is_list m = true.
Proof.
  destruct m; cbn [message_body]; try done.
  - by destruct (write_block _ _ _).
  - by destruct (write_compact _ _ _).
  - by destruct (write_header _ _ _).
  - by destruct (write_bitmap_response _ _).
  - by destruct (write_header_segment _ _ _).
Qed.

Lemma item_passes i : item_ok i -> exists bs, passes i bs.
Proof.
  destruct i as [m|t body].
  - destruct (is_list m) eqn:Hd; [destruct m; try done; apply headers_pass|]. intros Hi.
    assert (Hok : message_ok ct walk ftl v m /\ forall t body, message_body ct v m = Some (t, Ok body) -> small_type t = false ->
      Z.of_nat (length body) <= max_msg_size ct t * 4) by (destruct m; try exact Hi; done).
    assert (Ed : delivered (Ours m) = [as_read v m]) by (by destruct m).
    destruct Hok as [Hok Hl]. destruct (messages_survive ct walk ftl v m Hok) as (t & body & E & Hm & Hs).
    exists (head_bytes (type_code t) (Z.of_nat (length body)) ++ body).
    apply whole_passes with (as_read v m); [by apply ours_bytes|done| | |].
    + unfold is_headers. rewrite type_from_code. apply bool_decide_eq_false. intros [= ->]. by rewrite (list_type m _ E) in Hd.
    + intros Hb. unfold handed. rewrite type_from_code. by apply Hm.
    + unfold max_len. rewrite type_from_code. pose proof (max_size_nonneg t).
      destruct (small_type t) eqn:Et; [specialize (Hs eq_refl); lia|by apply Hl].
  - intros [Ht Hl]. exists (head_bytes t (Z.of_nat (length body)) ++ body). apply whole_passes with (MUnknown t); [done..| | |].
    + unfold is_headers. by rewrite Ht.
    + intros _. unfold handed. by rewrite Ht.
    + unfold max_len. by rewrite Ht.
Qed.

(** * Properties *)

(** C39. What is sent down a connection arrives. Take messages that the codec is
    there for, which are all but those of the handshake, errors and attached files,
    in any number and order, with messages of types that the receiver does not know
    among them. If their fields are in range, their headers, blocks and transactions
    are ones the receiver finds acceptable, their lists of headers hold from one
    to 512, and their bodies fit the limit where the type has only the one by the
    weight of a block, then they are written without a panic or an error, and
    reading the codec at the other end gives those messages in that order and
    nothing else: transactions, blocks and addresses as the version and the family
    have them, lists of headers in batches of 32 that say how many are still to come,
    and of what is unknown only its type. All that was sent is counted, and
    nothing of what follows on the socket is touched, be it more bytes, a pause or
    the end. *)
Theorem stream_delivered items :
  Forall item_ok items ->
  exists bs, stream_bytes items = Some (Ok bs) /\
    (Forall (in_range 8) bs -> forall s,
       let messages := concat (map delivered items) in
       exists c, read_many (length messages) (codec_new v (map Some bs ++ s)) = Some (map Ok messages, Z.of_nat (length bs), c) /\
         c_version c = v /\ c_stream c = s /\ c_buffer c = [] /\ c_state c = SNone).
Proof.
  intros Hok.
  enough (H : exists bs, stream_bytes items = Some (Ok bs) /\ (Forall (in_range 8) bs -> forall s rd, exists rd',
    read_many (length (concat (map delivered items))) (holding v bs 0 s SNone rd) =
      Some (map Ok (concat (map delivered items)), Z.of_nat (length bs), holding v [] 0 s SNone rd'))).
  { destruct H as (bs & E & H). exists bs. split; [done|]. intros Hb s messages. destruct (H Hb s 0) as (rd' & Er). by eexists. }
  induction Hok as [|i items Hi _ (bs & E & IH)].
  { exists []. split; [done|]. intros _ s rd. by exists rd. }
  destruct (item_passes i Hi) as (b1 & E1 & H1). exists (b1 ++ bs). split.
  - cbn [stream_bytes]. rewrite E1. cbn [mbind option_bind]. rewrite E. done.
  - intros [Hb1 Hb]%Forall_app s rd. destruct (H1 Hb1 (map Some bs ++ s) rd) as (rd1 & Er1). destruct (IH Hb s rd1) as (rd2 & Er2).
    exists rd2. cbn [map concat]. rewrite length_app, map_app, length_app, Nat2Z.inj_add.
    eapply read_many_app; [|exact Er2]. etransitivity; [|exact Er1]. unfold holding. by rewrite !take_0, !drop_0, map_app, app_assoc.
Qed.
End stream.

(** ** A witness: addresses, an unknown type and 33 headers *)

Section sample.
#[local] Existing Instance cuckarooz29_crypto.
#[local] Existing Instance merge_sort_unstable.
#[local] Existing Instance sample_chrono.
#[local] Existing Instance sample_chrono_laws.
#[local] Instance nrd_off : NrdFlag := false.

Definition some_items : list Item :=
  [Ours (MPeerAddrs some_addrs); Foreign 77 [1; 2; 3]; Ours (MHeaders (mkHeadersData (replicate 33 network_header) 0))].

Definition bytes_ok (x : option (result P2PError bytes)) : bool :=
  match x with Some (Ok bs) => forallb (fun y => (0 <=? y) && (y <? 2 ^ 8)) bs | _ => false end.

Lemma bytes_ok_Forall bs : bytes_ok (Some (Ok bs)) = true -> Forall (in_range 8) bs.
Proof.
  intros H. apply Forall_forall. intros y Hy%list_elem_of_In. cbn [bytes_ok] in H. rewrite forallb_forall in H.
  apply H, andb_true_iff in Hy as [?%Z.leb_le ?%Z.ltb_lt]. done.
Qed.

Lemma some_addrs_valid : Forall valid_addr (addrs some_addrs).
Proof. repeat constructor; eexists _, _; (split; [|split; [|reflexivity]]); vm_compute; split; congruence. Qed.

Lemma some_items_ok : Forall (item_ok Mainnet 0 300 local) some_items.
Proof.
  apply Forall_cons. split; [|apply Forall_cons; split; [|apply Forall_cons; split; [|by apply Forall_nil]]].
  - cbn [item_ok]. split; [cbn [message_ok]; split; [exact some_addrs_valid|vm_compute; congruence]|].
    intros t body E%(f_equal (option_map fst)). cbn [message_body option_map fst] in E. injection E as <-. discriminate.
  - cbn [item_ok]. split; [reflexivity|vm_compute; congruence].
  - cbn [item_ok hd_headers]. split; [apply Forall_replicate, network_header_acceptable|vm_compute; split; congruence].
Qed.

Lemma stream_delivered_witness :
  exists bs c, stream_bytes Mainnet local some_items = Some (Ok bs) /\
    read_many Mainnet 0 300 4 (codec_new local (map Some bs ++ [None; Some 1])) =
      Some ([Ok (MPeerAddrs (mkPeerAddrs (map addr_as_read (addrs some_addrs)))); Ok (MUnknown 77);
             Ok (MHeaders (mkHeadersData (replicate 32 network_header) 1)); Ok (MHeaders (mkHeadersData [network_header] 0))],
            Z.of_nat (length bs), c) /\
    c_stream c = [None; Some 1] /\ c_state c = SNone.
Proof.
  assert (Eb : bytes_ok (stream_bytes Mainnet local some_items) = true) by (vm_compute; reflexivity).
  destruct (stream_delivered Mainnet 0 300 local some_items) as (bs & E & H).
  - exact some_items_ok.
  - rewrite E in Eb. destruct (H (bytes_ok_Forall bs Eb) [None; Some 1]) as (c & Er & _ & Es & _ & Ec).
    exists bs, c. split_and!; [exact E|exact Er|exact Es|exact Ec].
Defined.
End sample.
