(* ===== verification/TxHashSet.v ===== *)
(** The transaction hash set.

    Models [src/chain/src/txhashset/txhashset.rs], [utxo_view.rs] and
    [rewindable_kernel_view.rs]: the handles of the header, output, range proof
    and kernel MMRs, the views of the unspent outputs, the extensions that apply
    and rewind headers and blocks, and the units of work that commit or discard
    them.

    An extension changes the backends of the handles in place, so an
    extension carries the backends, and [extending] puts back what [discard] or
    [sync] makes of them. Copying the data directory, the status callbacks and
    the stop flag are left out. [None] is a panic; the loops that follow headers
    back have the height of the header as fuel, since the heights of stored
    headers decrease. *)

From Stdlib Require Import ZArith Lia.
From stdpp Require Import base numbers option sorting gmap list.
From S2P Require Import Prelude Consensus PmmrIndex Pmmr Ser LinkedList Kernel CutThrough Transaction PowTypes Block ChainTypes.
From S2P Require Import ChainStore BitmapAccumulator.
Open Scope Z_scope.

#[export] Instance output_features_eq_dec : EqDecision OutputFeatures.
Proof. solve_decision. Defined.
#[export] Instance output_identifier_eq_dec : EqDecision OutputIdentifier.
Proof. solve_decision. Defined.

(** Errors of the MMRs. *)
Definition tx_err {A} (r : result pmmr_error A) : result CE.Error A := map_err CE.TxHashSetErr r.
Definition root_err {A} (r : result pmmr_error A) : result CE.Error A := map_err (fun _ => CE.InvalidRoot) r.

Section txhashset.
Context {CR : Crypto} {SU : SortUnstable} {NF : NrdFlag} (ct : ChainTypes).
Context {MH : Mmr BlockHeader HeaderEntry} {MO : Mmr OutputIdentifier OutputIdentifier}.
Context {MR : Mmr RangeProof RangeProof} {MK : Mmr TxKernel TxKernel}.
#[local] Existing Instance header_pmmr_hash.
#[local] Instance header_hashes : PMMRHash BlockHeader Ser.Hash := header_pmmr_hash ct.

Abbreviation HeaderMmr := (PMMR (mmr BlockHeader HeaderEntry)).
Abbreviation OutputMmr := (PMMR (mmr OutputIdentifier OutputIdentifier)).
Abbreviation RproofMmr := (PMMR (mmr RangeProof RangeProof)).
Abbreviation KernelMmr := (PMMR (mmr TxKernel TxKernel)).

(** ** Handles

    A handle is a backend with the size of the MMR in it, as [PMMR] is. *)

Definition init_head (hd : Tip) (h : HeaderMmr) : result CE.Error HeaderMmr :=
  let original_size := size h in
  let size := insertion_to_pmmr_index (add64 (tip_height hd) 1) in
  if original_size <? size then Err CE.Other
  else
    let h' := mkPMMR size (backend h) in
    let? expected_hash :=
      if size <=? tip_height hd then Err (CE.InvalidHeaderHeight (tip_height hd))
      else
        match get_data h' (insertion_to_pmmr_index (tip_height hd)) with
        | Some entry => Ok (entry_hash entry)
        | None => Err CE.Other
        end in
    if decide (last_block_h hd = expected_hash) then Ok h' else Err CE.Other.

Definition get_header_hash_by_height (height : Z) (h : HeaderMmr) : result CE.Error Ser.Hash :=
  if size h <=? height then Err (CE.InvalidHeaderHeight height)
  else
    match get_data h (insertion_to_pmmr_index height) with
    | Some entry => Ok (entry_hash entry)
    | None => Err CE.Other
    end.

Definition head_hash (h : HeaderMmr) : result CE.Error Ser.Hash :=
  if size h =? 0 then Err CE.Other
  else
    match get_data h (bintree_rightmost (sub64 (size h) 1)) with
    | Some entry => Ok (entry_hash entry)
    | None => Err CE.Other
    end.

(** The search ends at the end of the MMR, where there is no data. *)
Fixpoint first_header_loop (fuel : nat) (h : HeaderMmr) (output_pos kernel_pos cur_height : Z)
    (candidate : option BlockHeader) (store : Batch) : option (option BlockHeader) :=
  match fuel with
  | O => None
  | S fuel =>
      match get_data h cur_height with
      | None => Some None
      | Some entry =>
          let next := round_up_to_leaf_pos (add64 cur_height 1) in
          match get_block_header (entry_hash entry) store with
          | Ok bh =>
              if (output_mmr_size bh <=? output_pos) && (kernel_mmr_size bh <=? kernel_pos)
              then first_header_loop fuel h output_pos kernel_pos next (Some bh) store
              else Some candidate
          | Err _ => first_header_loop fuel h output_pos kernel_pos next candidate store
          end
      end
  end.

Definition get_first_header_with (output_pos kernel_pos from_height : Z) (store : Batch) (h : HeaderMmr)
    : option (option BlockHeader) :=
  first_header_loop (S (Z.to_nat (n_leaves (size h)))) h output_pos kernel_pos
    (round_up_to_leaf_pos from_height) None store.

(** ** [HeaderExtension]

    The state of a header extension with the batch that goes with it. *)

Record HeaderExtension : Type := mkHeaderExt {
  hx_head : Tip;
  hx_pmmr : HeaderMmr;
  hx_rollback : bool;
}.

Record HX : Type := mkHX { hx_ext : HeaderExtension; hx_batch : Batch }.

Definition new_header_extension (pmmr : HeaderMmr) (head : Tip) : HeaderExtension := mkHeaderExt head pmmr false.

Definition hx_get_header_hash (e : HeaderExtension) (pos0 : Z) : option Ser.Hash :=
  entry_hash <$> get_data (hx_pmmr e) pos0.

Definition hx_get_header_hash_by_height (height : Z) (e : HeaderExtension) : option Ser.Hash :=
  hx_get_header_hash e (insertion_to_pmmr_index height).

Definition hx_get_header_by_height (height : Z) : M HX BlockHeader :=
  let* o := asks (fun s => hx_get_header_hash_by_height height (hx_ext s)) in
  match o with
  | Some hash => gets (fun s => get_block_header hash (hx_batch s))
  | None => throw CE.Other
  end.

Definition is_on_current_chain (t : Tip) : M HX bool :=
  let* hd := asks (fun s => hx_head (hx_ext s)) in
  if tip_height hd <? tip_height t then ret false
  else
    let* chain_header := hx_get_header_by_height (tip_height t) in
    let* hash := must (header_hash ct chain_header) in
    ret (bool_decide (hash = last_block_h t)).

Definition hx_force_rollback : M HX unit :=
  modify (fun s => mkHX (mkHeaderExt (hx_head (hx_ext s)) (hx_pmmr (hx_ext s)) true) (hx_batch s)).

Definition set_hx (p : HeaderMmr) (hd : Tip) (s : HX) : HX :=
  mkHX (mkHeaderExt hd p (hx_rollback (hx_ext s))) (hx_batch s).

Definition apply_header (h : BlockHeader) : M HX unit :=
  let* p := asks (fun s => hx_pmmr (hx_ext s)) in
  let* (_, p) := lift (tx_err (push p h)) in
  let* t := must (tip_from_header ct h) in
  modify (set_hx p t).

Definition hx_rewind (h : BlockHeader) : M HX unit :=
  let header_pos := add64 1 (insertion_to_pmmr_index (height h)) in
  let* p := asks (fun s => hx_pmmr (hx_ext s)) in
  let* p := lift (tx_err (Pmmr.rewind p header_pos ∅)) in
  let* t := must (tip_from_header ct h) in
  modify (set_hx p t).

Definition hx_size (e : HeaderExtension) : Z := unpruned_size (hx_pmmr e).
Definition hx_root (e : HeaderExtension) : result CE.Error Ser.Hash := root_err (root (hx_pmmr e)).

Definition hx_validate_root (h : BlockHeader) : M HX unit :=
  if height h =? 0 then ret tt
  else
    let* root := gets (fun s => hx_root (hx_ext s)) in
    guard (bool_decide (root = prev_root h)) CE.InvalidRoot.

(** ** [UTXOView]

    The view reads the output MMR and the index of the batch. *)

Definition validate_input (input : Commitment) (b : Batch) (output_pmmr : OutputMmr)
    : result CE.Error (OutputIdentifier * CommitPos) :=
  match get_output_pos_height input b with
  | Some pos1 =>
      match get_data output_pmmr (sub64 (cp_pos pos1) 1) with
      | Some out => if decide (id_commit out = input) then Ok (out, pos1) else Err CE.Other
      | None => Err (CE.AlreadySpent input)
      end
  | None => Err (CE.AlreadySpent input)
  end.

(** Is this commitment in the MMR where the index says it is? *)
Definition is_unspent (c : Commitment) (b : Batch) (output_pmmr : OutputMmr) : bool :=
  match get_output_pos c b with
  | Ok pos0 =>
      match get_data output_pmmr pos0 with
      | Some out_mmr => bool_decide (id_commit out_mmr = c)
      | None => false
      end
  | Err _ => false
  end.

Definition validate_output (o : Output) (b : Batch) (output_pmmr : OutputMmr) : result CE.Error unit :=
  if is_unspent (output_commitment o) b output_pmmr then Err (CE.DuplicateCommitment (output_commitment o)) else Ok tt.

(** [map] and [collect] of a fallible function. *)
Fixpoint try_map {A B} (f : A -> result CE.Error B) (l : list A) : result CE.Error (list B) :=
  match l with
  | [] => Ok []
  | x :: l => let? y := f x in let? ys := try_map f l in Ok (y :: ys)
  end.

Definition validate_inputs (i : Inputs) (b : Batch) (output_pmmr : OutputMmr)
    : result CE.Error (list (OutputIdentifier * CommitPos)) :=
  match i with
  | CommitOnly l => try_map (fun input => validate_input (cw_commit input) b output_pmmr) l
  | FeaturesAndCommit l =>
      try_map (fun input =>
        let? (out, pos) := validate_input (in_commit input) b output_pmmr in
        if decide (out = identifier_of_input input) then Ok (out, pos) else Err CE.Other) l
  end.

(** [validate_block], and [validate_tx], which does the same. *)
Definition view_validate_body (body : TransactionBody) (b : Batch) (output_pmmr : OutputMmr)
    : result CE.Error (list (OutputIdentifier * CommitPos)) :=
  for_each (fun o => validate_output o b output_pmmr) (outputs body) ;?
  validate_inputs (inputs body) b output_pmmr.

Definition get_unspent_output_at (pos0 : Z) (output_pmmr : OutputMmr) (rproof_pmmr : RproofMmr)
    : result CE.Error Output :=
  match get_data output_pmmr pos0 with
  | Some output_id =>
      match get_data rproof_pmmr pos0 with
      | Some rproof => Ok (into_output output_id rproof)
      | None => Err CE.RangeproofNotFound
      end
  | None => Err CE.OutputNotFound
  end.

Definition view_get_header_by_height (height : Z) (b : Batch) (header_pmmr : HeaderMmr) : result CE.Error BlockHeader :=
  let pos1 := add64 1 (insertion_to_pmmr_index height) in
  match entry_hash <$> get_data header_pmmr (sub64 pos1 1) with
  | Some hash => get_block_header hash b
  | None => Err CE.Other
  end.

Definition max_opt (l : list Z) : option Z :=
  match l with [] => None | x :: l => Some (fold_left Z.max l x) end.

Definition view_verify_coinbase_maturity (i : Inputs) (height : Z) (b : Batch)
    (header_pmmr : HeaderMmr) (output_pmmr : OutputMmr) : result CE.Error unit :=
  let inputs := inputs_to_wrappers i in
  let? spent := try_map (fun x => validate_input (cw_commit x) b output_pmmr) inputs in
  match max_opt (omap (fun '(out, pos) =>
      if is_coinbase_output (id_features out) then Some (cp_pos pos) else None) spent) with
  | None => Ok tt
  | Some pos =>
      if height <? coinbase_maturity ct then Err CE.ImmatureCoinbase
      else
        let cutoff_height := sat_sub64 height (coinbase_maturity ct) in
        let? cutoff_header := view_get_header_by_height cutoff_height b header_pmmr in
        if output_mmr_size cutoff_header <? pos then Err CE.ImmatureCoinbase else Ok tt
  end.

(** ** [Extension] *)

Record Extension : Type := mkExt {
  ex_head : Tip;
  output_pmmr : OutputMmr;
  rproof_pmmr : RproofMmr;
  kernel_pmmr : KernelMmr;
  ex_accumulator : BitmapAccumulator;
  bitmap_cache : gset Z;
  ex_rollback : bool;
}.

Record TxHashSet : Type := mkTxHashSet {
  output_pmmr_h : OutputMmr;
  rproof_pmmr_h : RproofMmr;
  kernel_pmmr_h : KernelMmr;
  bitmap_accumulator : BitmapAccumulator;
}.

(** An [ExtensionPair] with the batch that goes with it. *)
Record EX : Type := mkEX { x_header : HeaderExtension; x_ext : Extension; x_batch : Batch }.

Definition new_extension (trees : TxHashSet) (head : Tip) : Extension :=
  mkExt head (output_pmmr_h trees) (rproof_pmmr_h trees) (kernel_pmmr_h trees) (bitmap_accumulator trees)
    (default ∅ (as_bitmap (bitmap_accumulator trees))) false.

Definition on_ext (f : Extension -> Extension) : M EX unit :=
  modify (fun s => mkEX (x_header s) (f (x_ext s)) (x_batch s)).
Definition on_batch (f : Batch -> Batch) : M EX unit :=
  modify (fun s => mkEX (x_header s) (x_ext s) (f (x_batch s))).

(** A header extension operation inside a pair. *)
Definition in_header {A} (m : M HX A) : M EX A :=
  focus (fun s => mkHX (x_header s) (x_batch s)) (fun t s => mkEX (hx_ext t) (x_ext s) (hx_batch t)) m.

Definition set_output_pmmr p e := mkExt (ex_head e) p (rproof_pmmr e) (kernel_pmmr e) (ex_accumulator e) (bitmap_cache e) (ex_rollback e).
Definition set_rproof_pmmr p e := mkExt (ex_head e) (output_pmmr e) p (kernel_pmmr e) (ex_accumulator e) (bitmap_cache e) (ex_rollback e).
Definition set_kernel_pmmr p e := mkExt (ex_head e) (output_pmmr e) (rproof_pmmr e) p (ex_accumulator e) (bitmap_cache e) (ex_rollback e).
Definition set_accumulator a e := mkExt (ex_head e) (output_pmmr e) (rproof_pmmr e) (kernel_pmmr e) a (bitmap_cache e) (ex_rollback e).
Definition set_ex_head t e := mkExt t (output_pmmr e) (rproof_pmmr e) (kernel_pmmr e) (ex_accumulator e) (bitmap_cache e) (ex_rollback e).

(** [impl Committed for Extension]; there are no inputs. *)
Definition ex_outputs_committed (e : Extension) : list Commitment :=
  omap (fun pos0 => id_commit <$> get_data (output_pmmr e) pos0) (backend_leaf_pos_iter (backend (output_pmmr e))).

Definition ex_kernels_committed (e : Extension) : list Commitment :=
  omap (fun n => if is_leaf n then excess <$> get_data (kernel_pmmr e) n else None)
    (seqZ 0 (unpruned_size (kernel_pmmr e))).

(** *** Applying blocks *)

Definition apply_output (out : Output) : M EX Z :=
  let commit := output_commitment out in
  let* dup := asks (fun s => is_unspent commit (x_batch s) (output_pmmr (x_ext s))) in
  guard (negb dup) (CE.DuplicateCommitment commit) ;*
  let* op := asks (fun s => output_pmmr (x_ext s)) in
  let* (output_pos, op) := lift (tx_err (push op (identifier out))) in
  on_ext (set_output_pmmr op) ;*
  let* rp := asks (fun s => rproof_pmmr (x_ext s)) in
  let* (rproof_pos, rp) := lift (tx_err (push rp (out_proof out))) in
  on_ext (set_rproof_pmmr rp) ;*
  guard (unpruned_size op =? unpruned_size rp) CE.Other ;*
  guard (output_pos =? rproof_pos) CE.Other ;*
  ret (add64 1 output_pos).

Definition apply_input (commit : Commitment) (pos : CommitPos) : M EX unit :=
  let pos0 := sub64 (cp_pos pos) 1 in
  let* op := asks (fun s => output_pmmr (x_ext s)) in
  let* (found, op) := lift (tx_err (prune op pos0)) in
  guard found (CE.AlreadySpent commit) ;*
  on_ext (set_output_pmmr op) ;*
  let* rp := asks (fun s => rproof_pmmr (x_ext s)) in
  let* (_, rp) := lift (tx_err (prune rp pos0)) in
  on_ext (set_rproof_pmmr rp).

Definition apply_kernel (k : TxKernel) : M EX Z :=
  let* kp := asks (fun s => kernel_pmmr (x_ext s)) in
  let* (pos, kp) := lift (tx_err (push kp k)) in
  on_ext (set_kernel_pmmr kp) ;*
  ret (add64 1 pos).

Definition idx_err {A} (r : result index_error A) : result CE.Error A := map_err CE.Index r.

Definition apply_kernel_rules (k : TxKernel) (pos : CommitPos) (b : Batch) : result CE.Error Batch :=
  if negb is_nrd_enabled then Ok b
  else
    match features k with
    | NoRecentDuplicate _ relative_height =>
        let? prev := idx_err (peek_pos (db_nrd b) (excess k)) in
        match prev with
        | Some prev =>
            let diff := sat_sub64 (cp_height pos) (cp_height prev) in
            if diff <? nrd_height relative_height then Err CE.NRDRelativeHeight else Ok tt
        | None => Ok tt
        end ;?
        let? st := idx_err (push_pos (db_nrd b) (excess k) pos) in
        Ok (set_nrd b st)
    | _ => Ok b
    end.

Definition apply_kernels (kernels : list TxKernel) (height : Z) : M EX unit :=
  each (fun k =>
    let* pos := apply_kernel k in
    let commit_pos := mkCommitPos pos height in
    let* b := asks x_batch in
    let* b := lift (apply_kernel_rules k commit_pos b) in
    on_batch (fun _ => b)) kernels.

Definition apply_to_bitmap_accumulator (output_pos : list Z) : M EX unit :=
  let output_idx := merge_sort Z.le (map (fun x => sat_sub64 (n_leaves x) 1) output_pos) in
  let min_idx := default 0 (hd_error output_idx) in
  let* e := asks x_ext in
  let size := n_leaves (size (output_pmmr e)) in
  let* r := must (acc_apply (ex_accumulator e) output_idx
    (backend_leaf_idx_iter (backend (output_pmmr e)) (chunk_start_idx min_idx)) size) in
  let* a := lift r in
  on_ext (set_accumulator a).

Definition apply_block (b : Block) : M EX unit :=
  let* created := collect (fun out =>
    let* pos := apply_output out in
    on_batch (save_output_pos_height (output_commitment out) (mkCommitPos pos (height (header b)))) ;*
    ret pos) (outputs (body b)) in
  let* spent := gets (fun s => validate_inputs (inputs (body b)) (x_batch s) (output_pmmr (x_ext s))) in
  each (fun '(out, pos) =>
    apply_input (id_commit out) pos ;*
    on_batch (delete_output_pos_height (id_commit out))) spent ;*
  let* hash := must (block_hash ct b) in
  on_batch (save_spent_index hash (map snd spent)) ;*
  apply_kernels (kernels (body b)) (height (header b)) ;*
  apply_to_bitmap_accumulator (created ++ map (fun '(_, pos) => cp_pos pos) spent) ;*
  let* t := must (tip_from_header ct (header b)) in
  on_ext (set_ex_head t).

(** *** Rewinding *)

Definition rewind_mmrs_to_pos (output_pos kernel_pos : Z) (spent_pos : list Z) : M EX unit :=
  let bitmap : gset Z := list_to_set (map (wrap 32) spent_pos) in
  let* p := asks (fun s => output_pmmr (x_ext s)) in
  let* p := lift (tx_err (Pmmr.rewind p output_pos bitmap)) in
  on_ext (set_output_pmmr p) ;*
  let* p := asks (fun s => rproof_pmmr (x_ext s)) in
  let* p := lift (tx_err (Pmmr.rewind p output_pos bitmap)) in
  on_ext (set_rproof_pmmr p) ;*
  let* p := asks (fun s => kernel_pmmr (x_ext s)) in
  let* p := lift (tx_err (Pmmr.rewind p kernel_pos ∅)) in
  on_ext (set_kernel_pmmr p).

(** The index of a list of NRD kernels has one entry more than rounds are needed. *)
Definition nrd_rewind (excess : Commitment) (pos : Z) (b : Batch) : option (result CE.Error Batch) :=
  let st := db_nrd b in
  let! r := LinkedList.rewind (S (S (base.size (entries st)))) st excess pos in
  Some (let? st := idx_err r in Ok (set_nrd b st)).

Definition unspend (pos1 : CommitPos) : M EX unit :=
  let* o := asks (fun s => get_data (output_pmmr (x_ext s)) (sub64 (cp_pos pos1) 1)) in
  match o with
  | Some out => on_batch (save_output_pos_height (id_commit out) pos1)
  | None => ret tt
  end.

Definition rewind_single_block (b : Block) : M EX (list Z) :=
  let h := header b in
  let* prev_header := gets (fun s => get_previous_header h (x_batch s)) in
  let* hash := must (header_hash ct h) in
  let* spent := asks (fun s => get_spent_index hash (x_batch s)) in
  let* spent_pos :=
    match spent with
    | Ok spent => ret (map cp_pos spent)
    | Err _ =>
        let* batch := asks x_batch in
        let* r := must (get_block_input_bitmap hash batch) in
        let* bitmap := lift r in
        ret (elements bitmap)
    end in
  (if height h =? 0 then rewind_mmrs_to_pos 0 0 spent_pos
   else rewind_mmrs_to_pos (output_mmr_size prev_header) (kernel_mmr_size prev_header) spent_pos) ;*
  let* size := asks (fun s => size (output_pmmr (x_ext s))) in
  let affected_pos := spent_pos ++ [size] in
  each (fun out => on_batch (delete_output_pos_height (output_commitment out))) (outputs (body b)) ;*
  (if is_nrd_enabled then
     each (fun k =>
       match features k with
       | NoRecentDuplicate _ _ =>
           let* batch := asks x_batch in
           let* r := must (nrd_rewind (excess k) (kernel_mmr_size prev_header) batch) in
           let* batch := lift r in
           on_batch (fun _ => batch)
       | _ => ret tt
       end) (kernels (body b))
   else ret tt) ;*
  match spent with
  | Ok spent => each unspend spent
  | Err _ => ret tt
  end ;*
  ret affected_pos.

Fixpoint rewind_loop (fuel : nat) (target : Z) (current : BlockHeader) (affected_pos : list Z) : M EX (list Z) :=
  if target <? height current then
    match fuel with
    | O => must None
    | S fuel =>
        let* hash := must (header_hash ct current) in
        let* block := gets (fun s => get_block hash (x_batch s)) in
        let* affected_pos_single_block := rewind_single_block block in
        let* current := gets (fun s => get_previous_header current (x_batch s)) in
        rewind_loop fuel target current (affected_pos ++ affected_pos_single_block)
    end
  else ret affected_pos.

Definition ex_rewind (h : BlockHeader) : M EX unit :=
  let* hd := asks (fun s => ex_head (x_ext s)) in
  let* head_header := gets (fun s => get_block_header (last_block_h hd) (x_batch s)) in
  (if height head_header <=? height h then
     rewind_mmrs_to_pos (output_mmr_size h) (kernel_mmr_size h) [] ;*
     apply_to_bitmap_accumulator [output_mmr_size h]
   else
     let* affected_pos := rewind_loop (Z.to_nat (height head_header)) (height h) head_header [] in
     apply_to_bitmap_accumulator affected_pos) ;*
  let* t := must (tip_from_header ct h) in
  on_ext (set_ex_head t).

(** *** Validation *)

Definition ex_sizes (e : Extension) : Z * Z * Z :=
  (unpruned_size (output_pmmr e), unpruned_size (rproof_pmmr e), unpruned_size (kernel_pmmr e)).

(** [None] is the panic of an invalid accumulator. *)
Definition roots_of (o : OutputMmr) (r : RproofMmr) (k : KernelMmr) (a : BitmapAccumulator)
    : option (result CE.Error TxHashSetRoots) :=
  match root_err (root o) with
  | Err e => Some (Err e)
  | Ok pmmr_root =>
      let! bitmap_root := acc_root a in
      Some (
        let? rproof_root := root_err (root r) in
        let? kernel_root := root_err (root k) in
        Ok (mkRoots (mkOutputRoots pmmr_root bitmap_root) rproof_root kernel_root))
  end.

Definition ex_roots (e : Extension) : option (result CE.Error TxHashSetRoots) :=
  roots_of (output_pmmr e) (rproof_pmmr e) (kernel_pmmr e) (ex_accumulator e).

Definition validate_roots (h : BlockHeader) : M EX unit :=
  if height h =? 0 then ret tt
  else
    let* e := asks x_ext in
    let* r := must (ex_roots e) in
    let* r := lift r in
    lift (roots_validate r h).

Definition validate_sizes (h : BlockHeader) : M EX unit :=
  if height h =? 0 then ret tt
  else
    let* e := asks x_ext in
    guard (bool_decide ((output_mmr_size h, output_mmr_size h, kernel_mmr_size h) = ex_sizes e)) CE.InvalidMMRSize.

Definition validate_mmrs (e : Extension) : result CE.Error unit :=
  map_err CE.InvalidTxHashSet (Pmmr.validate (output_pmmr e)) ;?
  map_err CE.InvalidTxHashSet (Pmmr.validate (rproof_pmmr e)) ;?
  map_err CE.InvalidTxHashSet (Pmmr.validate (kernel_pmmr e)).

Definition validate_kernel_sums (genesis h : BlockHeader) (e : Extension) : result CE.Error (Commitment * Commitment) :=
  map_err CE.Committed
    (verify_kernel_sums [] (ex_outputs_committed e) (ex_kernels_committed e)
       (total_overage h (0 <? kernel_mmr_size genesis)) (total_kernel_offset h)).

(** [proofs] and [commits] are the lists of the loop; the value is the position
    at which the loop stopped early, or 0. *)
Fixpoint verify_rangeproofs_loop (e : Extension) (batch_size : Z) (single_iter : bool) (start_pos : option Z)
    (positions : list Z) (commits : list Commitment) (proofs : list RangeProof) : result CE.Error Z :=
  let verify commits proofs := map_err CE.Transaction (batch_verify_proofs commits proofs) in
  match positions with
  | [] => match proofs with [] => Ok 0 | _ => verify commits proofs ;? Ok 0 end
  | pos0 :: rest =>
      if match start_pos with Some p => pos0 <? p | None => false end
      then verify_rangeproofs_loop e batch_size single_iter start_pos rest commits proofs
      else
        match get_data (output_pmmr e) pos0, get_data (rproof_pmmr e) pos0 with
        | None, _ => Err CE.OutputNotFound
        | _, None => Err CE.RangeproofNotFound
        | Some output, Some proof =>
            let commits := commits ++ [id_commit output] in
            let proofs := proofs ++ [proof] in
            if batch_size <=? Z.of_nat (length proofs) then
              verify commits proofs ;?
              if single_iter then Ok pos0
              else verify_rangeproofs_loop e batch_size single_iter start_pos rest [] []
            else verify_rangeproofs_loop e batch_size single_iter start_pos rest commits proofs
        end
  end.

Definition verify_rangeproofs (start_pos batch_size : option Z) (single_iter : bool) (e : Extension)
    : result CE.Error Z :=
  verify_rangeproofs_loop e (default 1000 batch_size) single_iter start_pos
    (backend_leaf_pos_iter (backend (output_pmmr e))) [] [].

Definition KERNEL_BATCH_SIZE : Z := 5000.

Fixpoint verify_kernels_loop (e : Extension) (size : Z) (positions : list Z) (tx_kernels : list TxKernel)
    : result CE.Error unit :=
  match positions with
  | [] => Ok tt
  | n :: rest =>
      let? tx_kernels :=
        if is_leaf n then
          let? k := ok_or (get_data (kernel_pmmr e) n) CE.TxKernelNotFound in Ok (tx_kernels ++ [k])
        else Ok tx_kernels in
      if (KERNEL_BATCH_SIZE <=? Z.of_nat (length tx_kernels)) || (size <=? add64 n 1) then
        map_err CE.Transaction (batch_sig_verify tx_kernels) ;?
        verify_kernels_loop e size rest []
      else verify_kernels_loop e size rest tx_kernels
  end.

Definition verify_kernel_signatures (e : Extension) : result CE.Error unit :=
  let size := unpruned_size (kernel_pmmr e) in
  verify_kernels_loop e size (seqZ 0 size) [].

Definition ex_validate (genesis : BlockHeader) (fast_validation : bool) (output_start_pos : option Z)
    (h : BlockHeader) : M EX (Commitment * Commitment) :=
  let* e := asks x_ext in
  lift (validate_mmrs e) ;*
  validate_roots h ;*
  validate_sizes h ;*
  if tip_height (ex_head e) =? 0 then ret (commit_to_zero_value, commit_to_zero_value)
  else
    let* sums := lift (validate_kernel_sums genesis h e) in
    (if fast_validation then ret tt
     else
       let* _ := lift (verify_rangeproofs output_start_pos None false e) in
       lift (verify_kernel_signatures e)) ;*
    ret sums.

Definition ex_force_rollback : M EX unit :=
  on_ext (fun e => mkExt (ex_head e) (output_pmmr e) (rproof_pmmr e) (kernel_pmmr e) (ex_accumulator e)
    (bitmap_cache e) true).

Definition ex_merkle_proof (out_id : OutputIdentifier) (b : Batch) (e : Extension) : result CE.Error (Pmmr.MerkleProof Ser.Hash) :=
  let? pos0 := get_output_pos (id_commit out_id) b in
  tx_err (Pmmr.merkle_proof (output_pmmr e) pos0).

(** [bitmap.maximum().unwrap()] panics on an empty bitmap. *)
Definition update_leaf_sets (bitmap : gset Z) (e : Extension) : option Extension :=
  let! m := max_opt (elements bitmap) in
  let flipped := filter (fun i => i ∉ bitmap) (seqZ 0 (m + 1)) in
  let rm {T E} `{Mmr T E} (p : PMMR (mmr T E)) :=
    mkPMMR (size p)
      (fold_left (fun b i => mmr_remove_from_leaf_set b (insertion_to_pmmr_index i)) flipped (backend p)) in
  Some (set_rproof_pmmr (rm (rproof_pmmr e)) (set_output_pmmr (rm (output_pmmr e)) e)).

Definition ex_set_bitmap_accumulator (a : BitmapAccumulator) (e : Extension) : Extension :=
  mkExt (ex_head e) (output_pmmr e) (rproof_pmmr e) (kernel_pmmr e) a (default ∅ (as_bitmap a)) (ex_rollback e).

(** *** Segments

    The positions are those of the segment; leaves come before hashes in the
    list that is sorted, and the sort is stable. *)

Inductive OrderedHashLeafNode : Type :=
| HashNode (data_index : nat) (pos0 : Z)
| LeafNode (data_index : nat) (pos0 : Z).

Definition node_pos0 (n : OrderedHashLeafNode) : Z :=
  match n with HashNode _ pos0 => pos0 | LeafNode _ pos0 => pos0 end.

Definition node_le (a b : OrderedHashLeafNode) : Prop := node_pos0 a <= node_pos0 b.
#[local] Instance node_le_dec : RelDecision node_le.
Proof. unfold RelDecision, node_le, Decision. intros. apply Z_le_dec. Defined.

Definition sort_pmmr_hashes_and_leaves (hash_pos leaf_pos : list Z) (skip_leaf_position : option Z)
    : list OrderedHashLeafNode :=
  let leaves := omap (fun '(data_index, pos0) =>
      if bool_decide (skip_leaf_position = Some pos0) then None else Some (LeafNode data_index pos0))
    (zip (seq 0 (length leaf_pos)) leaf_pos) in
  let hashes := map (fun '(data_index, pos0) => HashNode data_index pos0) (zip (seq 0 (length hash_pos)) hash_pos) in
  merge_sort node_le (leaves ++ hashes).

(** One round of the loops of [apply_output_segment] and [apply_rangeproof_segment]. *)
Definition segment_insert {T} {MT : Mmr T T} {PH : PMMRHash T Ser.Hash} (cache : gset Z) (hashes : list Ser.Hash)
    (leaf_data : list T) (p : PMMR (mmr T T)) (insert : OrderedHashLeafNode)
    : option (result CE.Error (PMMR (mmr T T))) :=
  match insert with
  | HashNode idx pos0 =>
      if size p <=? pos0 then
        let subtree_start := bintree_leftmost pos0 in
        match (if subtree_start <? size p then tx_err (Pmmr.rewind p subtree_start ∅) else Ok p) with
        | Err e => Some (Err e)
        | Ok p =>
            let! hash := hashes !! idx in
            let! r := push_pruned_subtree p hash pos0 in
            Some (tx_err r)
        end
      else Some (Ok p)
  | LeafNode idx pos0 =>
      let! r :=
        if pos0 =? size p then
          let! x := leaf_data !! idx in Some (let? (_, p) := tx_err (push p x) in Ok p)
        else Some (Ok p) in
      Some (
        let? p := r in
        match pmmr_leaf_to_insertion_index pos0 with
        | Some i =>
            if bool_decide (wrap 32 i ∈ cache) then Ok p
            else Ok (mkPMMR (size p) (mmr_remove_from_leaf_set (backend p) pos0))
        | None => Ok p
        end)
  end.

Fixpoint segment_loop {T} {MT : Mmr T T} {PH : PMMRHash T Ser.Hash} (cache : gset Z) (hashes : list Ser.Hash)
    (leaf_data : list T) (inserts : list OrderedHashLeafNode) (p : PMMR (mmr T T))
    : option (result CE.Error (PMMR (mmr T T))) :=
  match inserts with
  | [] => Some (Ok p)
  | i :: inserts =>
      let! r := segment_insert cache hashes leaf_data p i in
      match r with Err e => Some (Err e) | Ok p => segment_loop cache hashes leaf_data inserts p end
  end.

Definition apply_output_segment (hash_pos : list Z) (hashes : list Ser.Hash) (leaf_pos : list Z)
    (leaf_data : list OutputIdentifier) : M EX unit :=
  let* e := asks x_ext in
  let* r := must (segment_loop (bitmap_cache e) hashes leaf_data
    (sort_pmmr_hashes_and_leaves hash_pos leaf_pos (Some 0)) (output_pmmr e)) in
  let* p := lift r in
  on_ext (set_output_pmmr p).

Definition apply_rangeproof_segment (hash_pos : list Z) (hashes : list Ser.Hash) (leaf_pos : list Z)
    (leaf_data : list RangeProof) : M EX unit :=
  let* e := asks x_ext in
  let* r := must (segment_loop (bitmap_cache e) hashes leaf_data
    (sort_pmmr_hashes_and_leaves hash_pos leaf_pos (Some 0)) (rproof_pmmr e)) in
  let* p := lift r in
  on_ext (set_rproof_pmmr p).

Fixpoint kernel_segment_loop (leaf_data : list TxKernel) (inserts : list OrderedHashLeafNode) : M EX unit :=
  match inserts with
  | [] => ret tt
  | HashNode _ _ :: _ => throw CE.InvalidSegment
  | LeafNode idx pos0 :: inserts =>
      let* p := asks (fun s => kernel_pmmr (x_ext s)) in
      (if pos0 =? size p then
         let* x := must (leaf_data !! idx) in
         let* (_, p) := lift (tx_err (push p x)) in
         on_ext (set_kernel_pmmr p)
       else ret tt) ;*
      kernel_segment_loop leaf_data inserts
  end.

Definition apply_kernel_segment (leaf_pos : list Z) (leaf_data : list TxKernel) : M EX unit :=
  kernel_segment_loop leaf_data (sort_pmmr_hashes_and_leaves [] leaf_pos (Some 0)).

(** ** [TxHashSet] *)

(** The accumulator of an output MMR. *)
Definition build_bitmap_accumulator (pmmr : OutputMmr) : option (result CE.Error BitmapAccumulator) :=
  acc_init acc_new (backend_leaf_idx_iter (backend pmmr) 0) (n_leaves (size pmmr)).

Definition get_unspent (c : Commitment) (store : Batch) (t : TxHashSet) : option (OutputIdentifier * CommitPos) :=
  match get_output_pos_height c store with
  | Some pos1 =>
      match get_data (output_pmmr_h t) (sub64 (cp_pos pos1) 1) with
      | Some out => if decide (id_commit out = c) then Some (out, pos1) else None
      | None => None
      end
  | None => None
  end.

Definition txhashset_roots (t : TxHashSet) : option (result CE.Error TxHashSetRoots) :=
  roots_of (output_pmmr_h t) (rproof_pmmr_h t) (kernel_pmmr_h t) (bitmap_accumulator t).

Definition txhashset_merkle_proof (c : Commitment) (store : Batch) (t : TxHashSet)
    : result CE.Error (Pmmr.MerkleProof Ser.Hash) :=
  let? pos0 := get_output_pos c store in
  map_err (fun _ => CE.MerkleProof) (Pmmr.merkle_proof (output_pmmr_h t) pos0).

(** The loop counts down from [max_index]; indices count from one. *)
Fixpoint find_kernel_loop (fuel : nat) (t : TxHashSet) (excess_ : Commitment) (min_index index : Z)
    : option (TxKernel * Z) :=
  match fuel with
  | O => None
  | S fuel =>
      if min_index <? index then
        let index := sub64 index 1 in
        match get_data (kernel_pmmr_h t) (sub64 index 1) with
        | Some k => if decide (excess k = excess_) then Some (k, index) else find_kernel_loop fuel t excess_ min_index index
        | None => find_kernel_loop fuel t excess_ min_index index
        end
      else None
  end.

Definition find_kernel (excess_ : Commitment) (min_index max_index : option Z) (t : TxHashSet) : option (TxKernel * Z) :=
  let min_index := default 1 min_index in
  let max_index := default (size (kernel_pmmr_h t)) max_index in
  find_kernel_loop (Z.to_nat (add64 max_index 1)) t excess_ min_index (add64 max_index 1).

Fixpoint input_pos_loop (fuel : nat) (target : Z) (current : BlockHeader) (b : Batch) (bitmap : gset Z)
    : option (result CE.Error (gset Z)) :=
  if target <? height current then
    match fuel with
    | O => None
    | S fuel =>
        let! hash := header_hash ct current in
        let! r := get_block_input_bitmap hash b in
        let bitmap := match r with Ok block_bitmap => bitmap ∪ block_bitmap | Err _ => bitmap end in
        match get_previous_header current b with
        | Ok current => input_pos_loop fuel target current b bitmap
        | Err e => Some (Err e)
        end
    end
  else Some (Ok bitmap).

Definition input_pos_to_rewind (block_header head_header : BlockHeader) (b : Batch) : option (result CE.Error (gset Z)) :=
  input_pos_loop (Z.to_nat (height head_header)) (height block_header) head_header b ∅.

Definition compact_handle {T E} `{Mmr T E} (cutoff : Z) (rm : gset Z) (p : PMMR (mmr T E)) : result CE.Error (PMMR (mmr T E)) :=
  let? (_, b) := tx_err (mmr_check_compact (backend p) cutoff rm) in Ok (mkPMMR (size p) b).

Definition compact (horizon_header : BlockHeader) (b : Batch) : M TxHashSet unit :=
  let* head_header := lift (head_header b) in
  let* r := must (input_pos_to_rewind horizon_header head_header b) in
  let* rewind_rm_pos := lift r in
  let cutoff := output_mmr_size horizon_header in
  let* t := asks id in
  let* p := lift (compact_handle cutoff rewind_rm_pos (output_pmmr_h t)) in
  modify (fun t => mkTxHashSet p (rproof_pmmr_h t) (kernel_pmmr_h t) (bitmap_accumulator t)) ;*
  let* p := lift (compact_handle cutoff rewind_rm_pos (rproof_pmmr_h t)) in
  modify (fun t => mkTxHashSet (output_pmmr_h t) p (kernel_pmmr_h t) (bitmap_accumulator t)).

(** *** Rebuilding the index of NRD kernels *)

(** Move on to the header whose block has the kernel at [pos]. *)
Fixpoint advance_header (fuel : nat) (pos : Z) (current : BlockHeader) (header_pmmr : HeaderMmr) (b : Batch)
    : option (result CE.Error BlockHeader) :=
  if kernel_mmr_size current <? pos then
    match fuel with
    | O => None
    | S fuel =>
        match (let? hash := get_header_hash_by_height (add64 (height current) 1) header_pmmr in get_block_header hash b) with
        | Ok h => advance_header fuel pos h header_pmmr b
        | Err e => Some (Err e)
        end
    end
  else Some (Ok current).

Fixpoint kernel_pos_loop (positions : list Z) (t : TxHashSet) (header_pmmr : HeaderMmr) (current : BlockHeader) (b : Batch)
    : option (result CE.Error Batch) :=
  match positions with
  | [] => Some (Ok b)
  | current_pos :: rest =>
      if is_leaf (sub64 current_pos 1) then
        match get_data (kernel_pmmr_h t) (sub64 current_pos 1) with
        | Some k =>
            match features k with
            | NoRecentDuplicate _ _ =>
                let! r := advance_header (Z.to_nat (n_leaves (size header_pmmr))) current_pos current header_pmmr b in
                match r with
                | Err e => Some (Err e)
                | Ok current =>
                    match apply_kernel_rules k (mkCommitPos current_pos (height current)) b with
                    | Err e => Some (Err e)
                    | Ok b => kernel_pos_loop rest t header_pmmr current b
                    end
                end
            | _ => kernel_pos_loop rest t header_pmmr current b
            end
        | None => kernel_pos_loop rest t header_pmmr current b
        end
      else kernel_pos_loop rest t header_pmmr current b
  end.

Definition verify_kernel_pos_index (from_header : BlockHeader) (header_pmmr : HeaderMmr) (t : TxHashSet) (b : Batch)
    : option (result CE.Error Batch) :=
  if negb is_nrd_enabled then Some (Ok b)
  else
    let b := set_nrd b (clear (db_nrd b)) in
    match (if height from_header =? 0 then Ok 0
           else let? prev_header := get_previous_header from_header b in Ok (kernel_mmr_size prev_header)) with
    | Err e => Some (Err e)
    | Ok prev_size =>
        kernel_pos_loop (seqZ (add64 prev_size 1) (size (kernel_pmmr_h t) - prev_size)) t header_pmmr from_header b
    end.

Definition init_recent_kernel_pos_index (header_pmmr : HeaderMmr) (t : TxHashSet) (b : Batch)
    : option (result CE.Error Batch) :=
  match (let? hd := head b in
         let cutoff := sat_sub64 (tip_height hd) (WEEK_HEIGHT * 2) in
         let? cutoff_hash := get_header_hash_by_height cutoff header_pmmr in
         get_block_header cutoff_hash b) with
  | Err e => Some (Err e)
  | Ok cutoff_header => verify_kernel_pos_index cutoff_header header_pmmr t b
  end.

(** *** Rebuilding the index of output positions *)

(** Does the output MMR have, at the position of the entry, the output of the key? *)
Definition entry_is_current (t : TxHashSet) (b : Batch) (entry : Commitment * CommitPos) : bool :=
  let '(key, pos1) := entry in
  let pos0 := sub64 (cp_pos pos1) 1 in
  match get_data (output_pmmr_h t) pos0 with
  | Some out =>
      match get_output_pos (id_commit out) b with
      | Ok pos0_via_mmr => (pos0 =? pos0_via_mmr) && is_match_output_pos_key key (id_commit out)
      | Err _ => false
      end
  | None => false
  end.

(** The inner loop: the outputs up to the size of the MMR at a header. *)
Fixpoint index_outputs (h : BlockHeader) (outputs_pos : list (Commitment * Z)) (b : Batch)
    : list (Commitment * Z) * Batch :=
  match outputs_pos with
  | [] => ([], b)
  | (commit, pos1) :: rest =>
      if output_mmr_size h <? pos1 then (outputs_pos, b)
      else index_outputs h rest (save_output_pos_height commit (mkCommitPos pos1 (height h)) b)
  end.

Fixpoint index_heights (heights : list Z) (header_pmmr : HeaderMmr) (outputs_pos : list (Commitment * Z)) (b : Batch)
    : result CE.Error Batch :=
  match heights with
  | [] => Ok b
  | search_height :: heights =>
      let? hash := get_header_hash_by_height (add64 search_height 1) header_pmmr in
      let? h := get_block_header hash b in
      let '(outputs_pos, b) := index_outputs h outputs_pos b in
      index_heights heights header_pmmr outputs_pos b
  end.

Definition init_output_pos_index (header_pmmr : HeaderMmr) (t : TxHashSet) (b : Batch) : result CE.Error Batch :=
  let pos_to_delete := map fst (filter (fun e => entry_is_current t b e = false) (output_pos_iter b)) in
  let b := fold_left (fun b p => delete_output_pos_height p b) pos_to_delete b in
  let outputs_pos := omap (fun pos0 =>
      out ← get_data (output_pmmr_h t) pos0; Some (id_commit out, add64 1 pos0))
    (backend_leaf_pos_iter (backend (output_pmmr_h t))) in
  let outputs_pos := filter (fun x => get_output_pos_height (fst x) b = None) outputs_pos in
  match outputs_pos with
  | [] => Ok b
  | _ =>
      let? hd := head b in
      index_heights (seqZ 0 (tip_height hd)) header_pmmr outputs_pos b
  end.

(** ** Units of work *)

Definition discard_handle {T E} `{Mmr T E} (size : Z) (b : mmr T E) : option (PMMR (mmr T E)) :=
  let! b := mmr_discard b in Some (mkPMMR size b).

(** [sync] keeps the size of the handle, which is set after all syncs. *)
Definition sync_handle {T E} `{Mmr T E} (p : PMMR (mmr T E)) (size : Z) : result CE.Error (PMMR (mmr T E)) :=
  let? b := tx_err (mmr_sync (backend p)) in Ok (mkPMMR size b).

(** The handles after the changes of an extension have been thrown away. *)
Definition discard_trees (t : TxHashSet) (e : Extension) : option TxHashSet :=
  let! o := discard_handle (size (output_pmmr_h t)) (backend (output_pmmr e)) in
  let! r := discard_handle (size (rproof_pmmr_h t)) (backend (rproof_pmmr e)) in
  let! k := discard_handle (size (kernel_pmmr_h t)) (backend (kernel_pmmr e)) in
  Some (mkTxHashSet o r k (bitmap_accumulator t)).

(** The handles, the header MMR and the batch that a unit of work is given. *)
Record US : Type := mkUS { u_header : HeaderMmr; u_trees : TxHashSet; u_batch : Batch }.

Section units.
Context {A : Type}.

(** The child batch is a copy. If a file cannot be synced, the handles are left
    with their old sizes and the changes they had; this model puts the handles
    back as they are with the changes. *)
Definition extending (inner : M EX A) : M US A := fun u =>
  match head (u_batch u), header_head (u_batch u) with
  | Err e, _ => Some (Err e, u)
  | _, Err e => Some (Err e, u)
  | Ok hd, Ok hhd =>
      let t := u_trees u in
      let s := mkEX (new_header_extension (u_header u) hhd) (new_extension t hd) (u_batch u) in
      match inner s with
      | None => None
      | Some (res, s) =>
          let! h := discard_handle (size (u_header u)) (backend (hx_pmmr (x_header s))) in
          let e := x_ext s in
          match res with
          | Err err => let! t := discard_trees t e in Some (Err err, mkUS h t (u_batch u))
          | Ok r =>
              if ex_rollback e then let! t := discard_trees t e in Some (Ok r, mkUS h t (u_batch u))
              else
                let unsynced := mkTxHashSet (mkPMMR (size (output_pmmr_h t)) (backend (output_pmmr e)))
                  (mkPMMR (size (rproof_pmmr_h t)) (backend (rproof_pmmr e)))
                  (mkPMMR (size (kernel_pmmr_h t)) (backend (kernel_pmmr e))) (bitmap_accumulator t) in
                let synced :=
                  let '(so, sr, sk) := ex_sizes e in
                  let? o := sync_handle (output_pmmr e) so in
                  let? r := sync_handle (rproof_pmmr e) sr in
                  let? k := sync_handle (kernel_pmmr e) sk in
                  Ok (mkTxHashSet o r k (ex_accumulator e)) in
                match synced with
                | Ok t => Some (Ok r, mkUS h t (x_batch s))
                | Err err => Some (Err err, mkUS h unsynced (x_batch s))
                end
          end
      end
  end.

(** [store] is the committed database, of which a new batch is a copy. *)
Definition extending_readonly (store : Batch) (inner : M EX A) : M US A := fun u =>
  match head store, header_head store with
  | Err e, _ => Some (Err e, u)
  | _, Err e => Some (Err e, u)
  | Ok hd, Ok hhd =>
      let t := u_trees u in
      let! (res, s) := inner (mkEX (new_header_extension (u_header u) hhd) (new_extension t hd) store) in
      let! h := discard_handle (size (u_header u)) (backend (hx_pmmr (x_header s))) in
      let! t := discard_trees t (x_ext s) in
      Some (res, mkUS h t (u_batch u))
  end.

(** The head of the header MMR, or the default tip if it has none. *)
Definition header_mmr_tip (h : HeaderMmr) (b : Batch) : option (result CE.Error Tip) :=
  match head_hash h with
  | Ok hash =>
      match get_block_header hash b with
      | Ok header => let! t := tip_from_header ct header in Some (Ok t)
      | Err e => Some (Err e)
      end
  | Err _ => Some (Ok default_tip)
  end.

(** The state is the handle with the batch. *)
Definition header_extending (inner : M HX A) : M (HeaderMmr * Batch) A := fun '(handle, batch) =>
  let! hd := header_mmr_tip handle batch in
  match hd with
  | Err e => Some (Err e, (handle, batch))
  | Ok hd =>
      let! (res, s) := inner (mkHX (new_header_extension handle hd) batch) in
      let p := hx_pmmr (hx_ext s) in
      let discarded := discard_handle (size handle) (backend p) in
      match res with
      | Err e => let! h := discarded in Some (Err e, (h, batch))
      | Ok r =>
          if hx_rollback (hx_ext s) then let! h := discarded in Some (Ok r, (h, batch))
          else
            match sync_handle p (hx_size (hx_ext s)) with
            | Ok h => Some (Ok r, (h, hx_batch s))
            | Err e => Some (Err e, (mkPMMR (size handle) (backend p), hx_batch s))
            end
      end
  end.

Definition header_extending_readonly (store : Batch) (inner : M HX A) : M HeaderMmr A := fun handle =>
  let! hd := header_mmr_tip handle store in
  match hd with
  | Err e => Some (Err e, handle)
  | Ok hd =>
      let! (res, s) := inner (mkHX (new_header_extension handle hd) store) in
      let! h := discard_handle (size handle) (backend (hx_pmmr (hx_ext s))) in
      Some (res, h)
  end.

(** [utxo_view]: [inner] is given the three MMRs and a copy of the database. *)
Definition utxo_view (store : Batch) (u : US)
    (inner : HeaderMmr -> OutputMmr -> RproofMmr -> Batch -> result CE.Error A) : result CE.Error A :=
  inner (readonly_pmmr (u_header u)) (readonly_pmmr (output_pmmr_h (u_trees u)))
    (readonly_pmmr (rproof_pmmr_h (u_trees u))) store.
End units.

(** ** [RewindableKernelView] *)

Record RewindableKernelView : Type := mkKernelView { kv_pmmr : KernelMmr; kv_header : BlockHeader }.

Definition rewindable_kernel_view (store : Batch) (t : TxHashSet) : result CE.Error RewindableKernelView :=
  let? h := head_header store in Ok (mkKernelView (kernel_pmmr_h t) h).

Definition kv_rewind (h : BlockHeader) (v : RewindableKernelView) : RewindableKernelView :=
  mkKernelView (rewindable_rewind (kv_pmmr v) (kernel_mmr_size h)) h.

Definition kv_validate_root (v : RewindableKernelView) : result CE.Error unit :=
  let? r := root_err (root (readonly_pmmr (kv_pmmr v))) in
  if decide (r = kernel_root (kv_header v)) then Ok tt else Err (CE.InvalidTxHashSet NoRoot).

End txhashset.
