(* ===== verification/Pipe.v ===== *)
(** The block acceptance pipeline.

    Models [src/chain/src/pipe.rs]: the checks on a header and a block, the
    handling of forks, and what the pipeline does to the database and the MMRs.

    [Env] holds the parts of a [BlockContext] that do not change, the state is
    that of [extending]: the header MMR, the transaction hash set and the batch.
    The two function pointers of the context are arguments. [None] is a panic. *)

From Stdlib Require Import ZArith Lia.
From stdpp Require Import base numbers option sorting gmap list.
From S2P Require Import Prelude Consensus PmmrIndex Pmmr Ser LinkedList Kernel CutThrough Transaction PowTypes Block ChainTypes.
From S2P Require Import ChainStore BitmapAccumulator TxHashSet.
Open Scope Z_scope.

Record Env : Type := mkEnv {
  opts : Z;
  pow_verifier : BlockHeader -> bool;
  header_allowed : BlockHeader -> option (result CE.Error unit);
}.

Definition has_more_work (h : BlockHeader) (t : Tip) : bool :=
  num (tip_difficulty t) <? num (header_difficulty h).

(** [validate_header_denylist] *)
Definition validate_header_denylist {CR : Crypto} (ct : ChainTypes) (h : BlockHeader) (denylist : list Ser.Hash)
    : option (result CE.Error unit) :=
  match denylist with
  | [] => Some (Ok tt)
  | _ =>
      let! hash := header_hash ct h in
      Some (if decide (hash ∈ denylist) then Err (CE.Block OtherError) else Ok tt)
  end.

Section pipe.
Context {CR : Crypto} {SU : SortUnstable} {NF : NrdFlag} (ct : ChainTypes).
Context {MH : Mmr BlockHeader HeaderEntry} {MO : Mmr OutputIdentifier OutputIdentifier}.
Context {MR : Mmr RangeProof RangeProof} {MK : Mmr TxKernel TxKernel}.
Context (ctx : Env).

(** ** The batch of the context *)

Definition with_batch {A} (f : Batch -> result CE.Error A) : M US A := gets (fun u => f (u_batch u)).
Definition put_batch (f : Batch -> Batch) : M US unit :=
  modify (fun u => mkUS (u_header u) (u_trees u) (f (u_batch u))).
Definition put_batch_opt (f : Batch -> option Batch) : M US unit :=
  let* b := asks u_batch in let* b := must (f b) in put_batch (fun _ => b).

(** A header unit of work on the context. *)
Definition on_header {A} (m : M (PMMR (mmr BlockHeader HeaderEntry) * Batch) A) : M US A :=
  focus (fun u => (u_header u, u_batch u)) (fun '(h, b) u => mkUS h (u_trees u) b) m.

(** ** Checks *)

Definition check_known_head (h : BlockHeader) (hd : Tip) : M US unit :=
  let* bh := must (header_hash ct h) in
  guard (negb (bool_decide (bh = last_block_h hd) || bool_decide (bh = prev_block_h hd))) CE.Unfit.

Definition check_known_store (h : BlockHeader) (hd : Tip) : M US unit :=
  let* bh := must (header_hash ct h) in
  let* known := asks (fun u => block_exists bh (u_batch u)) in
  if known then
    if height h <? sat_sub64 (tip_height hd) 50 then throw CE.OldBlock else throw CE.Unfit
  else ret tt.

Definition check_known (h : BlockHeader) (hd : Tip) : M US unit :=
  if num (header_difficulty h) <=? num (tip_difficulty hd) then
    check_known_head h hd ;* check_known_store h hd
  else ret tt.

Definition validate_pow_only (h : BlockHeader) : result CE.Error unit :=
  if contains_option (opts ctx) SKIP_POW then Ok tt
  else if negb (is_primary ct (pow h)) && negb (pow_is_secondary (pow h)) then Err CE.LowEdgebits
  else if negb (pow_verifier ctx h) then Err CE.InvalidPow
  else Ok tt.

Definition prev_header_store (h : BlockHeader) (b : Batch) : result CE.Error BlockHeader := get_previous_header h b.

Definition validate_header_ctx {S} (h : BlockHeader) : M S unit :=
  let* r := must (header_allowed ctx h) in lift r.

(** The part of [validate_header] that looks at the proof of work. [None] is
    the panic of the difficulty adjustment. *)
Definition validate_header_pow (h prev : BlockHeader) (b : Batch) : option (result CE.Error unit) :=
  match validate_pow_only h with
  | Err e => Some (Err e)
  | Ok _ =>
      if num (header_difficulty h) <=? num (header_difficulty prev) then Some (Err CE.DifficultyTooLow)
      else
        let target_difficulty := Diff.sub (header_difficulty h) (header_difficulty prev) in
        let! d := to_difficulty ct (pow h) (height h) in
        if num d <? num target_difficulty then Some (Err CE.DifficultyTooLow)
        else
          let! prev_hash := header_hash ct prev in
          let! next_header_info := next_difficulty ct (height h) (difficulty_items b prev_hash) in
          if negb (num target_difficulty =? num (difficulty next_header_info)) then Some (Err CE.WrongTotalDifficulty)
          else if (version h <? 5) && negb (pow_secondary_scaling (pow h) =? secondary_scaling next_header_info)
          then Some (Err CE.InvalidScaling)
          else Some (Ok tt)
  end.

Definition validate_header (h : BlockHeader) : M US unit :=
  validate_header_ctx h ;*
  let* prev := with_batch (prev_header_store h) in
  guard (height h =? add64 (height prev) 1) CE.InvalidBlockHeight ;*
  guard (valid_header_version ct (height h) (version h)) (CE.InvalidBlockVersion (version h)) ;*
  guard (timestamp prev <? timestamp h) CE.InvalidBlockTime ;*
  let num_outputs := sat_sub64 (output_mmr_count h) (output_mmr_count prev) in
  let num_kernels := sat_sub64 (kernel_mmr_count h) (kernel_mmr_count prev) in
  guard (negb ((num_outputs =? 0) || (num_kernels =? 0))) CE.InvalidMMRSize ;*
  guard (weight_by_iok 0 num_outputs num_kernels <=? max_block_weight ct) (CE.Block BlockTooHeavy) ;*
  if contains_option (opts ctx) SKIP_POW then ret tt
  else
    let* b := asks u_batch in
    let* r := must (validate_header_pow h prev b) in
    lift r.

Definition validate_block (b : Block) : M US unit :=
  let* prev := with_batch (get_previous_header (header b)) in
  lift (map_err CE.InvalidBlockProof (block_validate ct b (total_kernel_offset prev))).

(** ** Saving *)

Definition add_block (b : Block) : M US unit := put_batch_opt (save_block ct b).
Definition update_body_tail (h : BlockHeader) : M US unit :=
  let* t := must (tip_from_header ct h) in put_batch (save_body_tail t).
Definition add_block_header (h : BlockHeader) : M US unit := put_batch_opt (save_block_header ct h).
Definition update_header_head (t : Tip) : M US unit := put_batch (save_header_head t).
Definition update_head (t : Tip) : M US unit := put_batch (save_body_head t).

(** ** Forks *)

(** Walk back to the current chain; [fork_hashes] is in the order of the chain. *)
Fixpoint fork_loop (fuel : nat) (current : BlockHeader) (fork_hashes : list Ser.Hash)
    : M HX (BlockHeader * list Ser.Hash) :=
  if 0 <? height current then
    let* t := must (tip_from_header ct current) in
    let* on_chain := is_on_current_chain ct t in
    if on_chain then ret (current, fork_hashes)
    else
      match fuel with
      | O => must None
      | S fuel =>
          let* hash := must (header_hash ct current) in
          let* prev := gets (fun s => get_previous_header current (hx_batch s)) in
          fork_loop fuel prev (hash :: fork_hashes)
      end
  else ret (current, fork_hashes).

Definition rewind_and_apply_header_fork (h : BlockHeader) : M HX unit :=
  let* (forked_header, fork_hashes) := fork_loop (Z.to_nat (height h)) h [] in
  hx_rewind ct forked_header ;*
  each (fun hash =>
    let* h := gets (fun s => get_block_header hash (hx_batch s)) in
    validate_header_ctx h ;*
    hx_validate_root ct h ;*
    apply_header ct h) fork_hashes.

Definition verify_coinbase_maturity (b : Block) : M EX unit :=
  gets (fun s => view_verify_coinbase_maturity ct (inputs (body b)) (height (header b)) (x_batch s)
    (readonly_pmmr (hx_pmmr (x_header s))) (readonly_pmmr (output_pmmr (x_ext s)))).

Definition validate_utxo (b : Block) : M EX (list (OutputIdentifier * CommitPos)) :=
  gets (fun s => view_validate_body (body b) (x_batch s) (readonly_pmmr (output_pmmr (x_ext s)))).

Definition verify_block_sums (b : Block) : M EX unit :=
  let* block_sums := gets (fun s => get_block_sums (prev_hash (header b)) (x_batch s)) in
  let overage := header_overage in
  let offset := total_kernel_offset (header b) in
  let* (utxo_sum, kernel_sum) := lift (map_err CE.Committed
    (verify_kernel_sums (inputs_committed (body b)) (sums_outputs_committed block_sums b)
       (sums_kernels_committed block_sums b) overage offset)) in
  let* hash := must (block_hash ct b) in
  on_batch (save_block_sums hash (mkSums utxo_sum kernel_sum)).

Definition apply_block_to_txhashset (b : Block) : M EX unit :=
  apply_block ct b ;* validate_roots (header b) ;* validate_sizes (header b).

(** Walk back from the head to the chain of the header extension. *)
Fixpoint common_loop (fuel : nat) (current : BlockHeader) : M EX BlockHeader :=
  if 0 <? height current then
    let* t := must (tip_from_header ct current) in
    let* on_chain := in_header (is_on_current_chain ct t) in
    if on_chain then ret current
    else
      match fuel with
      | O => must None
      | S fuel =>
          let* prev := gets (fun s => get_previous_header current (x_batch s)) in
          common_loop fuel prev
      end
  else ret current.

(** The hashes after the fork point, in the order of the chain. *)
Fixpoint since_loop (fuel : nat) (fork_height : Z) (current : BlockHeader) (fork_hashes : list Ser.Hash)
    : M EX (list Ser.Hash) :=
  if fork_height <? height current then
    match fuel with
    | O => must None
    | S fuel =>
        let* hash := must (header_hash ct current) in
        let* prev := gets (fun s => get_previous_header current (x_batch s)) in
        since_loop fuel fork_height prev (hash :: fork_hashes)
    end
  else ret fork_hashes.

Definition reapply_block (fb : Block) : M EX unit :=
  verify_coinbase_maturity fb ;*
  let* _ := validate_utxo fb in
  verify_block_sums fb ;*
  apply_block_to_txhashset fb.

Definition rewind_and_apply_fork (h : BlockHeader) : M EX BlockHeader :=
  in_header (rewind_and_apply_header_fork h) ;*
  let* current := gets (fun s => head_header (x_batch s)) in
  let* fork_point := common_loop (Z.to_nat (height current)) current in
  ex_rewind ct fork_point ;*
  let* fork_hashes := since_loop (Z.to_nat (height h)) (height fork_point) h [] in
  each (fun hash =>
    let* fb := gets (fun s => get_block hash (x_batch s)) in
    reapply_block fb) fork_hashes ;*
  ret fork_point.

(** ** Processing *)

Definition process_block_header (h : BlockHeader) : M US unit :=
  let* hd := with_batch head in
  let* known := try (check_known h hd) in
  if negb (is_ok known) then ret tt
  else
    let* prev_header := with_batch (get_previous_header h) in
    let* hhd := with_batch header_head in
    let* hash := must (header_hash ct h) in
    let* existing := asks (fun u => get_block_header hash (u_batch u)) in
    if match existing with Ok existing => negb (has_more_work existing hhd) | Err _ => false end then ret tt
    else
      validate_header h ;*
      on_header (header_extending ct (
        rewind_and_apply_header_fork prev_header ;*
        hx_validate_root ct h ;*
        apply_header ct h ;*
        if negb (has_more_work h hhd) then hx_force_rollback else ret tt)) ;*
      add_block_header h ;*
      if has_more_work h hhd then
        let* t := must (tip_from_header ct h) in update_header_head t
      else ret tt.

(** What [process_block] does inside the unit of work. *)
Definition process_block_ext (b : Block) (prev : BlockHeader) : M EX BlockHeader :=
  let* fork_point := rewind_and_apply_fork prev in
  verify_coinbase_maturity b ;*
  let* _ := validate_utxo b in
  verify_block_sums b ;*
  apply_block_to_txhashset b ;*
  let* hd := gets (fun s => head (x_batch s)) in
  (if negb (has_more_work (header b) hd) then ex_force_rollback else ret tt) ;*
  ret fork_point.

Definition process_block (b : Block) : M US (option Tip * BlockHeader) :=
  let h := header b in
  let* hd := with_batch head in
  check_known h hd ;*
  lift (validate_pow_only h) ;*
  let* prev := with_batch (prev_header_store h) in
  process_block_header h ;*
  validate_block b ;*
  let* fork_point := extending (process_block_ext b prev) in
  add_block b ;*
  let* tl := asks (fun u => tail (u_batch u)) in
  (if is_ok tl then ret tt else update_body_tail h) ;*
  if has_more_work h hd then
    let* hd := must (tip_from_header ct h) in
    update_head hd ;*
    ret (Some hd, fork_point)
  else ret (None, fork_point).

(** [sync_head] need not be on the chain of the headers. *)
Definition process_block_headers (headers : list BlockHeader) (sync_head : Tip) : M US (option Tip) :=
  match last headers with
  | None => ret None
  | Some last_header =>
      let* hd := with_batch header_head in
      each (fun h => validate_header h ;* add_block_header h) headers ;*
      on_header (header_extending ct (
        rewind_and_apply_header_fork last_header ;*
        let* on_chain := is_on_current_chain ct sync_head in
        let alt_fork := negb on_chain in
        let* t := must (tip_from_header ct last_header) in
        (if has_more_work last_header hd then
           modify (fun s => mkHX (hx_ext s) (save_header_head t (hx_batch s)))
         else hx_force_rollback) ;*
        ret (if alt_fork || has_more_work last_header sync_head then Some t else None)))
  end.

End pipe.
