(* ===== verification/Chain.v ===== *)
(** The chain.

    Models [src/chain/src/chain.rs]: the pool of orphan blocks and the facade
    over the pipeline, the store and the MMRs: processing blocks and headers,
    orphans, resetting the head, the checks of transactions, mining support,
    compaction and the start from the genesis block.

    The state is the header MMR, the transaction hash set and the committed
    database ([c_us]), the orphans, the denied hashes, and the calls made to the
    adapter so far. Operations on a new batch commit it or drop it.
    Left out: the locks and the zip files of the state sync; the functions that
    make segmenters are in [Desegmenter]. *)

From Stdlib Require Import ZArith Lia.
From stdpp Require Import base numbers option sorting gmap list.
From S2P Require Import Prelude Consensus PmmrIndex Pmmr Ser LinkedList Kernel CutThrough Transaction PowTypes Block ChainTypes.
From S2P Require Import ChainStore BitmapAccumulator TxHashSet Pipe.
Open Scope Z_scope.

(** ** Orphan blocks *)

Definition MAX_ORPHAN_SIZE : Z := 200.
Definition MAX_ORPHAN_AGE_SECS : Z := 300.

(** [added] is the clock when the orphan was made, in seconds. *)
Record Orphan : Type := mkOrphan { or_block : Block; or_opts : Z; or_added : Z }.

Record OrphanBlockPool : Type := mkOrphans {
  orphans : gmap Ser.Hash Orphan;
  height_idx : gmap Z (list Ser.Hash);
  evicted : Z;
}.

Definition no_orphans : OrphanBlockPool := mkOrphans ∅ ∅ 0.

Definition orphans_len (p : OrphanBlockPool) : Z := Z.of_nat (base.size (orphans p)).

(** The loop over the heights, highest first. *)
Fixpoint evict_loop (heights : list Z) (os : gmap Ser.Hash Orphan) (idx : gmap Z (list Ser.Hash))
    : gmap Ser.Hash Orphan * gmap Z (list Ser.Hash) :=
  match heights with
  | [] => (os, idx)
  | h :: heights =>
      let '(os, idx) :=
        match idx !! h with
        | Some hs => (fold_left (fun os h => delete h os) hs os, delete h idx)
        | None => (os, idx)
        end in
      if Z.of_nat (base.size os) <? MAX_ORPHAN_SIZE then (os, idx) else evict_loop heights os idx
  end.

Definition evict (now : Z) (p : OrphanBlockPool) : OrphanBlockPool :=
  let old_len := orphans_len p in
  let os := filter (fun '(_, x) => now - or_added x < MAX_ORPHAN_AGE_SECS) (orphans p) in
  let heights := merge_sort Z.le (map fst (map_to_list (height_idx p))) in
  let '(os, idx) := evict_loop (rev heights) os (height_idx p) in
  let idx := filter (fun '(_, xs) => existsb (fun x => bool_decide (is_Some (os !! x))) xs = true) idx in
  mkOrphans os idx (add64 (evicted p) (old_len - Z.of_nat (base.size os))).

(** [hash] is that of the block. *)
Definition orphan_add (now : Z) (hash : Ser.Hash) (o : Orphan) (p : OrphanBlockPool) : OrphanBlockPool :=
  let h := height (header (or_block o)) in
  let hs := default [] (height_idx p !! h) in
  let p := mkOrphans (<[hash := o]> (orphans p)) (<[h := hs ++ [hash]]> (height_idx p)) (evicted p) in
  if MAX_ORPHAN_SIZE <? orphans_len p then evict now p else p.

(** [hs.iter().filter_map(|h| orphans.remove(h))] *)
Fixpoint take_orphans (hs : list Ser.Hash) (os : gmap Ser.Hash Orphan) : list Orphan * gmap Ser.Hash Orphan :=
  match hs with
  | [] => ([], os)
  | h :: hs =>
      match os !! h with
      | Some o => let '(l, os) := take_orphans hs (delete h os) in (o :: l, os)
      | None => take_orphans hs os
      end
  end.

Definition remove_by_height (h : Z) (p : OrphanBlockPool) : option (list Orphan) * OrphanBlockPool :=
  match height_idx p !! h with
  | Some hs =>
      let '(l, os) := take_orphans hs (orphans p) in
      (Some l, mkOrphans os (delete h (height_idx p)) (evicted p))
  | None => (None, p)
  end.

Definition orphans_contains (hash : Ser.Hash) (p : OrphanBlockPool) : bool := bool_decide (is_Some (orphans p !! hash)).

(** ** The chain *)

Inductive BlockStatus : Type :=
| Next (prev : Tip)
| Fork (prev head fork_point : Tip)
| Reorg (prev prev_head fork_point : Tip).

Section chain.
Context {CR : Crypto} {SU : SortUnstable} {NF : NrdFlag} (ct : ChainTypes).
Context {MH : Mmr BlockHeader HeaderEntry} {MO : Mmr OutputIdentifier OutputIdentifier}.
Context {MR : Mmr RangeProof RangeProof} {MK : Mmr TxKernel TxKernel}.
(** The proof of work verifier, the mode, the genesis block and the clock. *)
Context (pow_verifier : BlockHeader -> bool) (archive_mode : bool) (genesis : Block) (now : Z).

Record Chain : Type := mkChain {
  c_us : US;
  c_orphans : OrphanBlockPool;
  c_denylist : list Ser.Hash;
  c_accepted : list (Block * BlockStatus * Z);
}.

Definition db (c : Chain) : Batch := u_batch (c_us c).

Definition set_us (u : US) (c : Chain) : Chain := mkChain u (c_orphans c) (c_denylist c) (c_accepted c).
Definition set_orphans (p : OrphanBlockPool) (c : Chain) : Chain := mkChain (c_us c) p (c_denylist c) (c_accepted c).
Definition set_denylist (l : list Ser.Hash) (c : Chain) : Chain := mkChain (c_us c) (c_orphans c) l (c_accepted c).
Definition notify (e : Block * BlockStatus * Z) : M Chain unit :=
  modify (fun c => mkChain (c_us c) (c_orphans c) (c_denylist c) (c_accepted c ++ [e])).

(** A new batch for [m], committed if [m] succeeds and dropped otherwise. *)
Definition committing {A} (m : M US A) : M US A := fun u =>
  match m u with
  | None => None
  | Some (Ok r, u') => Some (Ok r, u')
  | Some (Err e, u') => Some (Err e, mkUS (u_header u') (u_trees u') (u_batch u))
  end.

(** A new batch that is never committed. *)
Definition dropping {A} (m : M US A) : M US A := fun u =>
  match m u with
  | None => None
  | Some (r, u') => Some (r, mkUS (u_header u') (u_trees u') (u_batch u))
  end.

Definition on_us {A} (m : M US A) : M Chain A := focus c_us set_us m.

(** *** Reading *)

Definition from_db {A} (f : Batch -> result CE.Error A) : M Chain A := gets (fun c => f (db c)).

Definition chain_header_hash_by_height (height : Z) : M Chain Ser.Hash :=
  gets (fun c => get_header_hash_by_height height (u_header (c_us c))).

Definition get_header_by_height (height : Z) : M Chain BlockHeader :=
  let* hash := chain_header_hash_by_height height in from_db (get_block_header hash).

Definition chain_is_on_current_chain (x head : Tip) : M Chain unit :=
  guard (tip_height x <=? tip_height head) CE.Other ;*
  let* hash := chain_header_hash_by_height (tip_height x) in
  guard (bool_decide (last_block_h x = hash)) CE.Other.

Definition next_block_height : M Chain Z :=
  let* bh := from_db head_header in ret (add64 (height bh) 1).

Definition chain_get_unspent (c : Commitment) : M Chain (option (OutputIdentifier * CommitPos)) :=
  asks (fun ch => get_unspent c (db ch) (u_trees (c_us ch))).

Definition get_header_for_output (c : Commitment) : M Chain BlockHeader :=
  let* o := chain_get_unspent c in
  match o with
  | Some (_, pos) => get_header_by_height (cp_height pos)
  | None => throw CE.OutputNotFound
  end.

(** The context of the pipeline, [new_ctx]. *)
Definition new_ctx (opts : Z) (denylist : list Ser.Hash) : Env :=
  mkEnv opts pow_verifier (fun h => validate_header_denylist ct h denylist).

(** The context of an operation that only moves the MMRs. *)
Definition move_ctx : M Chain Env := let* d := asks c_denylist in ret (new_ctx 0 d).

(** *** Headers *)

Definition invalidate_header (hash : Ser.Hash) : M Chain unit :=
  modify (fun c => set_denylist (c_denylist c ++ [hash]) c).

Definition chain_process_block_header (h : BlockHeader) (opts : Z) : M Chain unit :=
  let* d := asks c_denylist in
  on_us (committing (process_block_header ct (new_ctx opts d) h)).

Definition sync_block_headers (headers : list BlockHeader) (sync_head : Tip) (opts : Z) : M Chain (option Tip) :=
  let* d := asks c_denylist in
  on_us (committing (process_block_headers ct (new_ctx opts d) headers sync_head)).

(** *** Blocks *)

Definition is_known (h : BlockHeader) : M Chain unit :=
  let* hd := from_db head in
  let* hash := must (header_hash ct h) in
  guard (negb (bool_decide (last_block_h hd = hash))) CE.Unfit ;*
  let* exists_ := asks (fun c => block_exists hash (db c)) in
  guard (negb ((num (header_difficulty h) <=? num (tip_difficulty hd)) && exists_)) CE.Unfit.

Definition check_orphan (b : Block) (opts : Z) : M Chain unit :=
  let* hd := from_db head in
  let is_next := bool_decide (prev_hash (header b) = last_block_h hd) in
  let* exists_ := asks (fun c => block_exists (prev_hash (header b)) (db c)) in
  if is_next || exists_ then ret tt
  else
    let* block_hash := must (block_hash ct b) in
    modify (fun c => set_orphans (orphan_add now block_hash (mkOrphan b opts now) (c_orphans c)) c) ;*
    throw CE.Orphan.

Definition determine_status (hd : option Tip) (prev prev_head fork_point : Tip) : M Chain BlockStatus :=
  match hd with
  | Some hd =>
      let* r := try (chain_is_on_current_chain prev_head hd) in
      if is_ok r then ret (Next prev) else ret (Reorg prev prev_head fork_point)
  | None => ret (Fork prev prev_head fork_point)
  end.

Definition process_block_single (b : Block) (opts : Z) : M Chain (option Tip) :=
  chain_process_block_header (header b) opts ;*
  is_known (header b) ;*
  check_orphan b opts ;*
  let* prev_head := from_db head in
  let* d := asks c_denylist in
  let* (hd, fork_point) := on_us (committing (process_block ct (new_ctx opts d) b)) in
  let* prev := from_db (get_previous_header (header b)) in
  let* prev_tip := must (tip_from_header ct prev) in
  let* fork_tip := must (tip_from_header ct fork_point) in
  let* status := determine_status hd prev_tip prev_head fork_tip in
  notify (b, status, opts) ;*
  ret hd.

(** The orphans of one height; the height of the last one that was accepted. *)
Fixpoint process_orphans (os : list Orphan) (height_accepted : option Z) : M Chain (option Z) :=
  match os with
  | [] => ret height_accepted
  | o :: os =>
      let* res := try (process_block_single (or_block o) (or_opts o)) in
      process_orphans os (if is_ok res then Some (height (header (or_block o))) else height_accepted)
  end.

(** Every round but the last takes an orphan out of the pool, and puts none back at
    the heights to come. *)
Fixpoint check_orphans (fuel : nat) (height : Z) : M Chain unit :=
  match fuel with
  | O => must None
  | S fuel =>
      let* (os, pool) := asks (fun c => remove_by_height height (c_orphans c)) in
      modify (set_orphans pool) ;*
      match os with
      | None => ret tt
      | Some os =>
          let* accepted := process_orphans os None in
          match accepted with
          | Some height_accepted => check_orphans fuel (add64 height_accepted 1)
          | None => ret tt
          end
      end
  end.

Definition chain_process_block (b : Block) (opts : Z) : M Chain (option Tip) :=
  let* res := try (process_block_single b opts) in
  (if is_ok res then
     let* fuel := asks (fun c => S (base.size (orphans (c_orphans c)))) in
     check_orphans fuel (add64 (height (header b)) 1)
   else ret tt) ;*
  lift res.

(** *** Resetting *)

Definition reset_chain_head (hd : Tip) (rewind_headers : bool) : M Chain unit :=
  let* ctx := move_ctx in
  on_us (committing (
    let* h := with_batch (get_block_header (last_block_h hd)) in
    extending (rewind_and_apply_fork ct ctx h ;* on_batch (save_body_head hd)) ;*
    if rewind_headers then
      on_header (header_extending ct (
        rewind_and_apply_header_fork ct ctx h ;*
        modify (fun s => mkHX (hx_ext s) (save_header_head hd (hx_batch s)))))
    else ret tt)).

(** The batch is not committed. *)
Definition reset_pibd_head : M Chain unit :=
  on_us (dropping (
    let* t := must (tip_from_header ct (header genesis)) in
    put_batch (save_pibd_head t))).

(** A file that cannot be reset is ignored. *)
Definition reset_prune_list {T E} `{Mmr T E} (p : PMMR (mmr T E)) : PMMR (mmr T E) :=
  match mmr_reset_prune_list (backend p) with Ok b => mkPMMR (size p) b | Err _ => p end.

Definition ex_reset_prune_lists (e : Extension) : Extension :=
  set_rproof_pmmr (reset_prune_list (rproof_pmmr e)) (set_output_pmmr (reset_prune_list (output_pmmr e)) e).

Definition reset_prune_lists : M Chain unit := on_us (dropping (extending (on_ext ex_reset_prune_lists))).

(** *** Transactions *)

Definition view {A} (f : Batch -> PMMR (mmr BlockHeader HeaderEntry) -> PMMR (mmr OutputIdentifier OutputIdentifier) ->
    PMMR (mmr RangeProof RangeProof) -> result CE.Error A) : M Chain A :=
  gets (fun c => utxo_view (db c) (c_us c) (fun h o r b => f b h o r)).

Definition get_unspent_output_at_ (pos0 : Z) : M Chain Output := view (fun _ _ o r => get_unspent_output_at pos0 o r).

Definition validate_inputs_ (i : Inputs) : M Chain (list (OutputIdentifier * CommitPos)) :=
  view (fun b _ o _ => validate_inputs i b o).

Definition validate_tx_against_utxo (tx : Transaction) : M Chain (list (OutputIdentifier * CommitPos)) :=
  view (fun b _ o _ => view_validate_body (Transaction.body tx) b o).

Definition chain_verify_coinbase_maturity (i : Inputs) : M Chain unit :=
  let* height := next_block_height in
  view (fun b h o _ => view_verify_coinbase_maturity ct i height b h o).

Definition readonly {A} (m : M EX A) : M Chain A :=
  let* b := asks db in on_us (extending_readonly b m).

Definition validate_tx_kernels (tx : Transaction) : M Chain unit :=
  if negb (existsb (fun k => Features.is_nrd (features k)) (kernels (Transaction.body tx))) then ret tt
  else
    let* height := asks (fun c => let? bh := head_header (db c) in Ok (add64 (Block.height bh) 1)) in
    readonly (let* height := lift height in apply_kernels (kernels (Transaction.body tx)) height).

Definition chain_validate_tx (tx : Transaction) : M Chain unit :=
  let* _ := validate_tx_against_utxo tx in validate_tx_kernels tx.

(** [Error::TxLockHeight] is one of the errors without a constructor here. *)
Definition verify_tx_lock_height (tx : Transaction) : M Chain unit :=
  let* height := next_block_height in
  guard (lock_height (Transaction.body tx) <=? height) CE.Other.

(** *** Validation and mining *)

Definition chain_validate (fast_validation : bool) : M Chain unit :=
  let* h := from_db head_header in
  if height h =? 0 then ret tt
  else
    let* ctx := move_ctx in
    readonly (
      let* _ := rewind_and_apply_fork ct ctx h in
      let* _ := ex_validate (header genesis) fast_validation None h in
      ret tt).

Definition set_prev_root_only (h : BlockHeader) : M Chain BlockHeader :=
  let* ctx := move_ctx in
  let* b := asks db in
  let* prev_root := on_us (focus u_header (fun p u => mkUS p (u_trees u) (u_batch u))
    (header_extending_readonly ct b (
      let* prev_header := gets (fun s => get_previous_header h (hx_batch s)) in
      rewind_and_apply_header_fork ct ctx prev_header ;*
      gets (fun s => hx_root ct (hx_ext s))))) in
  ret (mkHeader (version h) (height h) (prev_hash h) prev_root (timestamp h) (output_root h) (range_proof_root h)
    (kernel_root h) (total_kernel_offset h) (output_mmr_size h) (kernel_mmr_size h) (pow h)).

Definition set_roots (h : BlockHeader) (prev_root : Ser.Hash) (roots : TxHashSetRoots) (sizes : Z * Z * Z) : BlockHeader :=
  let '(output_mmr_size, _, kernel_mmr_size) := sizes in
  let sized := mkHeader (version h) (height h) (prev_hash h) prev_root (timestamp h) (output_root h) (range_proof_root h)
    (kernel_root h) (total_kernel_offset h) output_mmr_size kernel_mmr_size (pow h) in
  mkHeader (version h) (height h) (prev_hash h) prev_root (timestamp h) (output_roots_root (output_roots roots) sized)
    (rproof_root roots) (kernel_root_ roots) (total_kernel_offset h) output_mmr_size kernel_mmr_size (pow h).

Definition set_txhashset_roots (b : Block) : M Chain Block :=
  let* ctx := move_ctx in
  let* (prev_root, roots, sizes) := readonly (
    let* previous_header := gets (fun s => get_previous_header (header b) (x_batch s)) in
    let* _ := rewind_and_apply_fork ct ctx previous_header in
    let* prev_root := gets (fun s => hx_root ct (x_header s)) in
    apply_block ct b ;*
    let* e := asks x_ext in
    let* roots := must (ex_roots e) in
    let* roots := lift roots in
    ret (prev_root, roots, ex_sizes e)) in
  ret (mkBlock (set_roots (header b) prev_root roots sizes) (body b)).

Definition get_merkle_proof (out_id : OutputIdentifier) (h : BlockHeader) : M Chain (Pmmr.MerkleProof Ser.Hash) :=
  let* ctx := move_ctx in
  readonly (
    let* _ := rewind_and_apply_fork ct ctx h in
    gets (fun s => ex_merkle_proof out_id (x_batch s) (x_ext s))).

Definition get_merkle_proof_for_pos (c : Commitment) : M Chain (Pmmr.MerkleProof Ser.Hash) :=
  gets (fun ch => txhashset_merkle_proof c (db ch) (u_trees (c_us ch))).

Definition get_locator_hashes (sync_head : Tip) (heights : list Z) : M Chain (list Ser.Hash) :=
  let* ctx := move_ctx in
  let* b := asks db in
  on_us (focus u_header (fun p u => mkUS p (u_trees u) (u_batch u))
    (header_extending_readonly ct b (
      let* h := gets (fun s => get_block_header (last_block_h sync_head) (hx_batch s)) in
      rewind_and_apply_header_fork ct ctx h ;*
      asks (fun s => omap (fun height => hx_get_header_hash_by_height height (hx_ext s)) heights)))).

(** *** State sync *)

Definition archive_height (tip_height : Z) : Z :=
  let txhashset_height := sat_sub64 tip_height (state_sync_threshold ct) in
  sat_sub64 txhashset_height (txhashset_height mod txhashset_archive_interval ct).

Definition txhashset_archive_header : M Chain BlockHeader :=
  let* body_head := from_db head in get_header_by_height (archive_height (tip_height body_head)).

Definition txhashset_archive_header_header_only : M Chain BlockHeader :=
  let* hhd := from_db header_head in get_header_by_height (archive_height (tip_height hhd)).

Fixpoint kernel_history_loop (fuel : nat) (b : Batch) (view : RewindableKernelView) (current : BlockHeader)
    : option (result CE.Error unit) :=
  if 0 <? height current then
    match fuel with
    | O => None
    | S fuel =>
        let view := kv_rewind current view in
        match kv_validate_root view with
        | Err e => Some (Err e)
        | Ok _ =>
            match get_previous_header current b with
            | Ok current => kernel_history_loop fuel b view current
            | Err e => Some (Err e)
            end
        end
    end
  else Some (Ok tt).

Definition validate_kernel_history (h : BlockHeader) (t : TxHashSet) : M Chain unit :=
  let* b := asks db in
  let* view := lift (rewindable_kernel_view b t) in
  let* r := must (kernel_history_loop (Z.to_nat (height h)) b view h) in
  lift r.

Fixpoint fork_point_loop (fuel : nat) (body_head : Tip) (current : BlockHeader) : M Chain BlockHeader :=
  let* t := must (tip_from_header ct current) in
  let* r := try (chain_is_on_current_chain t body_head) in
  if is_ok r then ret current
  else
    match fuel with
    | O => must None
    | S fuel =>
        let* prev := from_db (get_previous_header current) in
        fork_point_loop fuel body_head prev
    end.

Definition fork_point : M Chain BlockHeader :=
  let* body_head := from_db head in
  let* current := from_db (get_block_header (last_block_h body_head)) in
  fork_point_loop (S (Z.to_nat (height current))) body_head current.

Definition check_txhashset_needed (fork_point : BlockHeader) : M Chain bool :=
  if archive_mode then ret false
  else
    let* hhd := from_db header_head in
    ret (height fork_point <? sat_sub64 (tip_height hhd) (cut_through_horizon ct)).

(** *** Compaction *)

Definition remove_historical_blocks (header_pmmr : PMMR (mmr BlockHeader HeaderEntry)) (archive_header : BlockHeader)
    (b : Batch) : option (result CE.Error Batch) :=
  if archive_mode then Some (Ok b)
  else
    match head b with
    | Err e => Some (Err e)
    | Ok hd =>
        let horizon := cut_through_horizon ct in
        let cutoff := sat_sub64 (tip_height hd) horizon in
        let '(horizon, cutoff) :=
          if height archive_header <? cutoff
          then (sub64 (tip_height hd) (height archive_header), height archive_header)
          else (horizon, cutoff) in
        if cutoff =? 0 then Some (Ok b)
        else
          match (let? tail_hash := get_header_hash_by_height (sub64 (tip_height hd) horizon) header_pmmr in
                 get_block_header tail_hash b) with
          | Err e => Some (Err e)
          | Ok tail =>
              let blocks := filter (fun '(_, blk) => height (header blk) < height tail) (map_to_list (db_blocks b)) in
              let! hashes := mapM (fun '(_, blk) => block_hash ct blk) blocks in
              let! t := tip_from_header ct tail in
              Some (Ok (save_body_tail t (fold_left (fun b h => delete_block h b) hashes b)))
          end
    end.

Definition compact_due (b : Batch) : bool :=
  match tail b, head b with
  | Ok tl, Ok hd =>
      let horizon := cut_through_horizon ct in
      let threshold := sat_add64 horizon 60 in
      let next_compact := sat_add64 (tip_height tl) threshold in
      negb (tip_height hd <? next_compact)
  | _, _ => true
  end.

Definition update_batch (f : Batch -> option (result CE.Error Batch)) : M US unit :=
  let* b := asks u_batch in
  let* r := must (f b) in
  let* b := lift r in
  put_batch (fun _ => b).

Definition chain_compact : M Chain unit :=
  let* due := asks (fun c => compact_due (db c)) in
  if negb due then ret tt
  else
    let* archive_header := txhashset_archive_header in
    on_us (committing (
      let* head_header := with_batch head_header in
      let horizon_height := sat_sub64 (height head_header) (cut_through_horizon ct) in
      let* horizon_hash := gets (fun u => get_header_hash_by_height horizon_height (u_header u)) in
      let* horizon_header := with_batch (get_block_header horizon_hash) in
      let* b := asks u_batch in
      focus u_trees (fun t u => mkUS (u_header u) t (u_batch u)) (compact ct horizon_header b) ;*
      let* u := asks id in
      (if archive_mode then ret tt
       else update_batch (remove_historical_blocks (u_header u) archive_header)) ;*
      update_batch (fun b => Some (init_output_pos_index (u_header u) (u_trees u) b)) ;*
      update_batch (init_recent_kernel_pos_index (u_header u) (u_trees u)))).

(** *** Kernels *)

(** The search; [None] is a loop that does not end within the fuel. *)
Fixpoint kernel_height_loop (fuel : nat) (kernel_mmr_index min max : Z) : M Chain BlockHeader :=
  match fuel with
  | O => must None
  | S fuel =>
      let search_height := sub64 max (sub64 max min / 2) in
      let* h := get_header_by_height search_height in
      if search_height =? 0 then ret h
      else
        let* h_prev := get_header_by_height (sub64 search_height 1) in
        if kernel_mmr_size h <? kernel_mmr_index then kernel_height_loop fuel kernel_mmr_index search_height max
        else if kernel_mmr_index <? kernel_mmr_size h_prev then kernel_height_loop fuel kernel_mmr_index min search_height
        else if kernel_mmr_index =? kernel_mmr_size h_prev then ret h_prev
        else ret h
  end.

Definition get_header_for_kernel_index (kernel_mmr_index : Z) (min_height max_height : option Z) : M Chain BlockHeader :=
  let min := sat_sub64 (default 0 min_height) 1 in
  let* max :=
    match max_height with
    | Some h => ret h
    | None => let* hd := from_db head in ret (tip_height hd)
    end in
  kernel_height_loop 65 kernel_mmr_index min max.

Definition get_kernel_height (excess : Commitment) (min_height max_height : option Z)
    : M Chain (option (TxKernel * Z * Z)) :=
  let* hd := from_db head in
  if match min_height, max_height with Some min, Some max => max <? min | _, _ => false end then ret None
  else if match min_height with Some h => negb (h =? 0) && (tip_height hd <? h) | None => false end then ret None
  else
    let* min_index :=
      match min_height with
      | Some h =>
          if h =? 0 then ret None
          else
            let* header := get_header_by_height h in
            let* prev_header := from_db (get_previous_header header) in
            ret (Some (add64 (kernel_mmr_size prev_header) 1))
      | None => ret None
      end in
    let* max_index :=
      match max_height with
      | Some h =>
          if tip_height hd <? h then ret None
          else let* header := get_header_by_height h in ret (Some (kernel_mmr_size header))
      | None => ret None
      end in
    let* k := asks (fun c => find_kernel excess min_index max_index (u_trees (c_us c))) in
    match k with
    | None => ret None
    | Some (kernel, mmr_index) =>
        let* header := get_header_for_kernel_index mmr_index min_height max_height in
        ret (Some (kernel, height header, mmr_index))
    end.

(** *** Outputs by position *)

Definition unspent_outputs_by_pmmr_index (start_index max_count : Z) (max_pmmr_index : option Z)
    : M Chain (Z * Z * list Output) :=
  let* t := asks (fun c => u_trees (c_us c)) in
  let last_index := default (size (output_pmmr_h t)) max_pmmr_index in
  let '(oi, os) := elements_from_pmmr_index (output_pmmr_h t) start_index max_count max_pmmr_index in
  let '(ri, rs) := elements_from_pmmr_index (rproof_pmmr_h t) start_index max_count max_pmmr_index in
  guard ((oi =? ri) && (length os =? length rs)%nat) (CE.TxHashSetErr BackendFailure) ;*
  ret (oi, last_index, map (fun '(o, r) => into_output o r) (zip os rs)).

Definition block_height_range_to_pmmr_indices (start_block_height : Z) (end_block_height : option Z) : M Chain (Z * Z) :=
  let* end_block_height :=
    match end_block_height with
    | Some h => ret h
    | None => let* h := from_db head_header in ret (height h)
    end in
  let* start_mmr_size :=
    if start_block_height =? 0 then ret 0
    else let* h := get_header_by_height (sub64 start_block_height 1) in ret (add64 (output_mmr_size h) 1) in
  let* h := get_header_by_height end_block_height in
  ret (start_mmr_size, output_mmr_size h).

(** *** Starting *)

(** Any header is allowed. *)
Definition any_header : Env := mkEnv 0 pow_verifier (fun _ => Some (Ok tt)).

Definition save_genesis_header : M US unit :=
  let* hash := must (block_hash ct genesis) in
  let* stored := asks (fun u => get_block_header hash (u_batch u)) in
  (if is_ok stored then ret tt else put_batch_opt (save_block_header ct (header genesis))) ;*
  let* p := asks u_header in
  if size p =? 0 then on_header (header_extending ct (apply_header ct (header genesis))) else ret tt.

Definition setup_header_head : M US unit :=
  let* hhd := asks (fun u => header_head (u_batch u)) in
  match hhd with
  | Ok hd =>
      let* p := gets (fun u => init_head hd (u_header u)) in
      modify (fun u => mkUS p (u_trees u) (u_batch u)) ;*
      on_header (header_extending ct (
        let* h := gets (fun s => get_block_header (last_block_h hd) (hx_batch s)) in
        hx_rewind ct h))
  | Err _ =>
      let* hash := gets (fun u => head_hash (u_header u)) in
      let* h := with_batch (get_block_header hash) in
      let* t := must (tip_from_header ct h) in
      put_batch (save_header_head t)
  end.

(** The header to start from, and whether a PIBD download is going on.
    [store] is the committed database. *)
Definition start_header (store : Batch) (hd : Tip) (resetting_pibd : bool) : M US (BlockHeader * bool) :=
  let* h := with_batch (get_block_header (last_block_h hd)) in
  let* genesis_tip := must (tip_from_header ct (header genesis)) in
  let* pibd_tip := lift (pibd_head genesis_tip store) in
  let* pibd_head := with_batch (get_block_header (last_block_h pibd_tip)) in
  let* t := asks u_trees in
  let pibd_mmr_in_progress :=
    negb resetting_pibd && (height h <=? height pibd_head) &&
    ((output_mmr_size h <? size (output_pmmr_h t)) || (output_mmr_size h <? size (rproof_pmmr_h t)) ||
     (kernel_mmr_size h <? size (kernel_pmmr_h t))) in
  if (height h <? height pibd_head) && negb resetting_pibd then ret (pibd_head, true)
  else ret (h, pibd_mmr_in_progress).

Definition check_start (h : BlockHeader) (pibd_in_progress : bool) : M EX unit :=
  if pibd_in_progress then ret tt
  else
    let* _ := rewind_and_apply_fork ct any_header h in
    validate_roots h ;*
    let* hash := must (header_hash ct h) in
    let* sums := asks (fun s => get_block_sums hash (x_batch s)) in
    if (0 <? height h) && negb (is_ok sums) then
      let* e := asks x_ext in
      let* (utxo_sum, kernel_sum) := lift (validate_kernel_sums (header genesis) h e) in
      on_batch (save_block_sums hash (mkSums utxo_sum kernel_sum))
    else ret tt.

(** Step back from blocks that do not check, to the genesis block at the
    furthest. *)
Fixpoint start_loop (fuel : nat) (store : Batch) (hd : Tip) (resetting_pibd : bool) : M US unit :=
  match fuel with
  | O => must None
  | S fuel =>
      let* (h, pibd_in_progress) := start_header store hd resetting_pibd in
      let* res := try (extending (check_start h pibd_in_progress)) in
      if is_ok res then ret tt
      else
        let* prev_header := with_batch (get_block_header (prev_block_h hd)) in
        let* _ := extending (rewind_and_apply_fork ct any_header prev_header) in
        let* hash := must (header_hash ct h) in
        put_batch (delete_block hash) ;*
        let* hd := must (tip_from_header ct prev_header) in
        put_batch (save_body_head hd) ;*
        start_loop fuel store hd resetting_pibd
  end.

Definition start_from_genesis : M US unit :=
  let h := header genesis in
  put_batch_opt (save_block ct genesis) ;*
  let* hash := must (header_hash ct h) in
  put_batch (save_spent_index hash []) ;*
  let* t := must (tip_from_header ct h) in
  put_batch (save_body_head t) ;*
  let* sums :=
    match kernels (body genesis) with
    | [] => ret default_sums
    | _ =>
        let* (utxo_sum, kernel_sum) := lift (map_err CE.Committed
          (verify_kernel_sums (inputs_committed (body genesis)) (sums_outputs_committed default_sums genesis)
             (sums_kernels_committed default_sums genesis) header_overage (total_kernel_offset h))) in
        ret (mkSums utxo_sum kernel_sum)
    end in
  extending (apply_block ct genesis) ;*
  put_batch (save_block_sums hash sums).

Definition setup_head (resetting_pibd : bool) : M US unit :=
  let* store := asks u_batch in
  committing (
    save_genesis_header ;*
    setup_header_head ;*
    let* hd := asks (fun u => head (u_batch u)) in
    match hd with
    | Ok hd => start_loop (S (Z.to_nat (tip_height hd))) store hd resetting_pibd
    | Err _ => start_from_genesis
    end).

Definition reset_chain_head_to_genesis : M Chain unit :=
  on_us (
    committing (let* t := must (tip_from_header ct (header genesis)) in put_batch (save_body_head t)) ;*
    setup_head true).

(** [Chain::init] of MMRs that are open. *)
Definition init (u : US) : option (result CE.Error Chain) :=
  let! (r, u) := (setup_head false ;*
    committing (
      let* v := asks id in
      update_batch (fun b => Some (init_output_pos_index (u_header v) (u_trees v) b)) ;*
      update_batch (init_recent_kernel_pos_index (u_header v) (u_trees v)))) u in
  Some (let? _ := r in Ok (mkChain u no_orphans [] [])).

End chain.
