(* ===== verification/PoolChain.v ===== *)
(** The chain as the transaction pool sees it.

    Models [PoolToChainAdapter] of [src/servers/src/common/adapters.rs]: every
    question is put to the chain, and its errors are replaced. The chain of a node
    is an instance of [BlockChain], and keeps what the pool relies on. *)

From Stdlib Require Import ZArith Lia.
From stdpp Require Import base numbers option sorting gmap list.
From S2P Require Import Prelude Consensus PmmrIndex Pmmr Ser LinkedList Kernel CutThrough Transaction PowTypes Block ChainTypes.
From S2P Require Import ChainStore BitmapAccumulator TxHashSet Pipe Chain Pool PoolSpec.
Open Scope Z_scope.

Section adapter.
Context {CR : Crypto} {SU : SortUnstable} {NF : NrdFlag} (ct : ChainTypes).
Context {MH : Mmr BlockHeader HeaderEntry} {MO : Mmr OutputIdentifier OutputIdentifier}.
Context {MR : Mmr RangeProof RangeProof} {MK : Mmr TxKernel TxKernel}.
(** The chain while the pool is used. *)
Context (c : Chain).

(** Ask the chain; whatever the error, the pool has its own. *)
Definition ask {A} (m : M Chain A) (e : PoolError) : PR A :=
  match m c with
  | None => None
  | Some (Ok a, _) => Some (Ok a)
  | Some (Err _, _) => Some (Err e)
  end.

Definition PoolToChainAdapter : BlockChain := {|
  bc_verify_coinbase_maturity := fun i => ask (chain_verify_coinbase_maturity ct i) ImmatureCoinbase;
  bc_verify_tx_lock_height := fun tx => ask (verify_tx_lock_height tx) ImmatureTransaction;
  bc_validate_tx := fun tx => ask (chain_validate_tx tx) PoolOther;
  bc_validate_inputs := fun i =>
    let+ outputs := ask (validate_inputs_ i) PoolOther in Some (Ok (map fst outputs));
  bc_chain_head := ask (from_db head_header) PoolOther;
  bc_get_block_header := fun h => ask (from_db (get_block_header h)) PoolOther;
  bc_get_block_sums := fun h => ask (from_db (get_block_sums h)) PoolOther;
|}.

(** The commitments that are unspent in the chain. *)
Definition chain_unspent (x : Commitment) : Prop :=
  is_unspent x (db c) (readonly_pmmr (output_pmmr_h (u_trees (c_us c)))) = true.

Lemma validate_input_unspent x b o r : validate_input x b o = Ok r -> is_unspent x b o = true.
Proof.
  unfold validate_input, is_unspent, get_output_pos. destruct (get_output_pos_height x b) as [p|]; [|done]. simpl.
  destruct (get_data o _) as [out|]; [|done]. case_decide; [|done]. intros _. by apply bool_decide_eq_true.
Qed.

Lemma try_map_Ok {A B} (f : A -> result CE.Error B) l r : try_map f l = Ok r ->
  Forall (fun x => exists y, f x = Ok y) l.
Proof.
  revert r. induction l as [|x l IH]; intros r; cbn [try_map]; [constructor|].
  intros H. apply rbind_Ok in H as (y & Ey & H). apply rbind_Ok in H as (ys & Eys & _).
  constructor; [by exists y|]. by eapply IH.
Qed.

Lemma validate_inputs_unspent i b o r : validate_inputs i b o = Ok r ->
  Forall (fun w => is_unspent (cw_commit w) b o = true) (inputs_to_wrappers i).
Proof.
  destruct i as [l|l]; cbn [validate_inputs inputs_to_wrappers]; intros H%try_map_Ok.
  - eapply Forall_impl; [exact H|]. intros w [y Ey]. by eapply validate_input_unspent.
  - rewrite sort_perm. apply Forall_map. eapply Forall_impl; [exact H|]. cbv beta. intros x [y Ey].
    apply rbind_Ok in Ey as ([out pos] & Ev & _). by eapply validate_input_unspent.
Qed.

Lemma chain_validate_tx_view tx : ask (chain_validate_tx tx) PoolOther = Some (Ok tt) ->
  exists r, view_validate_body (Transaction.body tx) (db c)
    (readonly_pmmr (output_pmmr_h (u_trees (c_us c)))) = Ok r.
Proof.
  unfold ask, chain_validate_tx, bind, validate_tx_against_utxo, view, gets, utxo_view.
  destruct (view_validate_body _ _ _) as [r|]; [eauto|done].
Qed.

#[local] Existing Instance PoolToChainAdapter.

Lemma chain_laws_inputs tx : bc_validate_tx tx = Some (Ok tt) ->
  forall x, x ∈ inputs_committed (Transaction.body tx) -> chain_unspent x.
Proof.
  intros [r H]%chain_validate_tx_view x. unfold view_validate_body in H. apply rbind_Ok in H as (u & _ & H).
  apply validate_inputs_unspent in H. unfold inputs_committed. rewrite elem_of_map. intros (w & -> & Hw).
  rewrite Forall_forall in H. by apply H.
Qed.

Lemma chain_laws_outputs tx : bc_validate_tx tx = Some (Ok tt) ->
  forall x, x ∈ outputs_committed (Transaction.body tx) -> ~ chain_unspent x.
Proof.
  intros [r H]%chain_validate_tx_view x. unfold view_validate_body in H. apply rbind_Ok in H as ([] & H & _).
  apply for_each_Ok in H. unfold outputs_committed. rewrite elem_of_map. intros (o & -> & Ho).
  rewrite Forall_forall in H. specialize (H o Ho). unfold validate_output in H. unfold chain_unspent.
  by destruct (is_unspent _ _ _).
Qed.

(** The chain keeps what the pool relies on. *)
Definition chain_laws : ChainLaws := {|
  unspent := chain_unspent;
  bc_inputs_unspent := chain_laws_inputs;
  bc_outputs_fresh := chain_laws_outputs;
|}.
End adapter.
