(* ===== verification/Desegmenter.v ===== *)
(** State sync by segments.

    Models [src/chain/src/txhashset/segmenter.rs], which cuts the segments a node
    serves from its MMRs, [src/chain/src/txhashset/desegmenter.rs], which asks
    for the segments of an archive header, checks them, keeps them until their
    turn and applies them, and the functions of [src/chain/src/chain.rs] that
    set both up. The constants are those of [src/chain/src/pibd_params.rs].

    The state of the desegmenter goes with the handles and the committed
    database, which it shares with the chain. The status callbacks are left out
    and the node is taken not to be stopping. [None] is a panic. *)

From Stdlib Require Import ZArith Lia.
From stdpp Require Import base numbers option sorting gmap list.
From S2P Require Import Prelude Segments SegmentSpec Consensus PmmrIndex Pmmr Ser LinkedList Kernel CutThrough Transaction PowTypes Block Bitmap ChainTypes.
From S2P Require Import ChainStore BitmapAccumulator TxHashSet Pipe Chain.
Open Scope Z_scope.

Definition BITMAP_SEGMENT_HEIGHT : Z := 9.
Definition OUTPUT_SEGMENT_HEIGHT : Z := 11.
Definition RANGEPROOF_SEGMENT_HEIGHT : Z := 11.
Definition KERNEL_SEGMENT_HEIGHT : Z := 11.
Definition MAX_CACHED_SEGMENTS : Z := 30.
Definition SEGMENT_APPLY_BATCH_SIZE : Z := 12.

(** [From<SegmentError> for Error], with [?]. *)
Definition lift_seg {S A} (r : result seg_stop A) : M S A := fun s =>
  match r with
  | Ok a => Some (Ok a, s)
  | Err Panic => None
  | Err (Seg e) => Some (Err (CE.SegmentErr e), s)
  end.

(** ** Choosing segments *)

(** [local_segment_count]: an MMR of size 1 has the genesis block only. *)
Definition local_segment_count (local_mmr_size segment_height : Z) : Z :=
  if local_mmr_size =? 1 then 0 else count_segments_required local_mmr_size segment_height.

Definition next_required_segment_index (local_mmr_size target_mmr_size segment_height : Z) : option Z :=
  let current := local_segment_count local_mmr_size segment_height in
  let total := count_segments_required target_mmr_size segment_height in
  let theoretical_pmmr_size := pmmr_size current segment_height in
  let current :=
    if (local_mmr_size <? target_mmr_size) && (local_mmr_size <? theoretical_pmmr_size)
    then sub64 current 1 else current in
  if current =? total then None else Some current.

(** The loop over the segments of one MMR from [idx] on, until [quota] are
    asked for; [has] tells the segments that are in the cache. *)
Fixpoint request_loop (fuel : nat) (ty : SegmentType) (segment_height mmr_size local_mmr_size : Z)
    (has : SegmentIdentifier -> bool) (quota idx added : Z) : list SegmentTypeIdentifier :=
  match fuel with
  | O => []
  | S fuel =>
      if added =? quota then []
      else
        let id := mkId segment_height idx in
        if (local_mmr_size <? snd (segment_pos_range id mmr_size)) && negb (has id)
        then mkTypeId ty id ::
               request_loop fuel ty segment_height mmr_size local_mmr_size has quota (add64 idx 1) (added + 1)
        else request_loop fuel ty segment_height mmr_size local_mmr_size has quota (add64 idx 1) added
  end.

Definition request (ty : SegmentType) (segment_height mmr_size local_mmr_size : Z)
    (has : SegmentIdentifier -> bool) (max_elements : Z) : list SegmentTypeIdentifier :=
  match next_required_segment_index local_mmr_size mmr_size segment_height with
  | Some idx =>
      request_loop (Z.to_nat (count_segments_required mmr_size segment_height - idx)) ty segment_height
        mmr_size local_mmr_size has (max_elements / 3) idx 0
  | None => []
  end.

(** Asking for the very next segment, in place of the last one when there is no
    room. *)
Definition force_next (ty : SegmentType) (segment_height mmr_size local_mmr_size : Z)
    (has : SegmentIdentifier -> bool) (max_elements : Z) (return_vec : list SegmentTypeIdentifier)
    : list SegmentTypeIdentifier :=
  match next_required_segment_index local_mmr_size mmr_size segment_height with
  | Some idx =>
      let seg_id := mkId segment_height idx in
      let next := mkTypeId ty seg_id in
      if negb (has seg_id) && negb (bool_decide (next ∈ return_vec)) then
        (if max_elements <=? Z.of_nat (length return_vec) then removelast return_vec else return_vec) ++ [next]
      else return_vec
  | None => return_vec
  end.

(** The loop over the segments of the bitmap. *)
Fixpoint bitmap_request_loop (ids : list SegmentIdentifier) (mmr_size local_mmr_size : Z)
    (has : SegmentIdentifier -> bool) (max_elements : Z) (return_vec : list SegmentTypeIdentifier)
    : list SegmentTypeIdentifier :=
  match ids with
  | [] => return_vec
  | id :: ids =>
      if (local_mmr_size <? snd (segment_pos_range id mmr_size)) && negb (has id) then
        let return_vec := return_vec ++ [mkTypeId SegBitmap id] in
        if max_elements <=? Z.of_nat (length return_vec) then return_vec
        else bitmap_request_loop ids mmr_size local_mmr_size has max_elements return_vec
      else bitmap_request_loop ids mmr_size local_mmr_size has max_elements return_vec
  end.

(** ** Caches of segments *)

Section caches.
Context {E : Type}.
Abbreviation Seg := (Segment E Ser.Hash).

Definition has_segment_with_id (cache : list Seg) (seg_id : SegmentIdentifier) : bool :=
  existsb (fun i => bool_decide (Segments.identifier i = seg_id)) cache.

Definition cache_segment (cache : list Seg) (in_seg : Seg) : list Seg :=
  if has_segment_with_id cache (Segments.identifier in_seg) then cache else cache ++ [in_seg].

(** The first segment with an index, and the cache without it. *)
Fixpoint remove_idx (cache : list Seg) (i : Z) : option (Seg * list Seg) :=
  match cache with
  | [] => None
  | s :: cache =>
      if idx (Segments.identifier s) =? i then Some (s, cache)
      else match remove_idx cache i with Some (x, cache) => Some (x, s :: cache) | None => None end
  end.

Fixpoint take_segment_batch (max_segments : nat) (cache : list Seg) (next_idx : Z) : list Seg * list Seg :=
  match max_segments with
  | O => ([], cache)
  | S n =>
      match remove_idx cache next_idx with
      | Some (s, cache) =>
          let '(batch, cache) := take_segment_batch n cache (add64 next_idx 1) in (s :: batch, cache)
      | None => ([], cache)
      end
  end.

End caches.

(** [calc_bitmap_mmr_sizes]: the number of chunks, and the size of their MMR.
    The alternative of [unwrap_or] is evaluated in any case. *)
Definition bitmap_mmr_sizes (output_mmr_size : Z) : option (Z * Z) :=
  let leaf_count := div_ceil (n_leaves output_mmr_size) 1024 in
  let! fallback := last (peaks (insertion_to_pmmr_index (sub64 leaf_count 1))) in
  Some (leaf_count, add64 1 (default fallback (last (peaks (insertion_to_pmmr_index leaf_count))))).

(** ** The segmenter *)

Section segments.
Context {CR : Crypto} {SU : SortUnstable} {NF : NrdFlag} (ct : ChainTypes).
Context {MH : Mmr BlockHeader HeaderEntry} {MO : Mmr OutputIdentifier OutputIdentifier}.
Context {MR : Mmr RangeProof RangeProof} {MK : Mmr TxKernel TxKernel}.
#[local] Existing Instance header_pmmr_hash.
#[local] Instance header_hashes_ : PMMRHash BlockHeader Ser.Hash := header_pmmr_hash ct.
#[local] Instance chunk_backend_ : Backend BitmapChunk BitmapChunk Ser.Hash BitmapAccumulator := vec_backend id.

Record Segmenter : Type := mkSegmenter { bitmap_snapshot : BitmapAccumulator; sg_header : BlockHeader }.

Definition kernel_segment (g : Segmenter) (id : SegmentIdentifier) (t : TxHashSet)
    : result seg_stop (Segment TxKernel Ser.Hash) :=
  from_pmmr (T := TxKernel) id (at_ (backend (kernel_pmmr_h t)) (kernel_mmr_size (sg_header g))) false.

Definition sg_output_root (g : Segmenter) (t : TxHashSet) : result CE.Error Ser.Hash :=
  tx_err (root (T := OutputIdentifier) (at_ (backend (output_pmmr_h t)) (output_mmr_size (sg_header g)))).

Definition sg_bitmap_root (g : Segmenter) : result CE.Error Ser.Hash :=
  tx_err (root (T := BitmapChunk) (acc_readonly_pmmr (bitmap_snapshot g))).

Definition bitmap_segment (g : Segmenter) (id : SegmentIdentifier) : M TxHashSet (Segment BitmapChunk Ser.Hash * Ser.Hash) :=
  let* segment := lift_seg (from_pmmr (T := BitmapChunk) id (acc_readonly_pmmr (bitmap_snapshot g)) false) in
  let* output_root := gets (sg_output_root g) in
  ret (segment, output_root).

Definition output_segment (g : Segmenter) (id : SegmentIdentifier) : M TxHashSet (Segment OutputIdentifier Ser.Hash * Ser.Hash) :=
  let* t := asks (fun t => t) in
  let* segment := lift_seg (from_pmmr (T := OutputIdentifier) id
    (at_ (backend (output_pmmr_h t)) (output_mmr_size (sg_header g))) true) in
  let* bitmap_root := lift (sg_bitmap_root g) in
  ret (segment, bitmap_root).

Definition rangeproof_segment (g : Segmenter) (id : SegmentIdentifier) (t : TxHashSet)
    : result seg_stop (Segment RangeProof Ser.Hash) :=
  from_pmmr (T := RangeProof) id (at_ (backend (rproof_pmmr_h t)) (output_mmr_size (sg_header g))) true.

(** [Chain::init_segmenter] *)
Definition init_segmenter (h : BlockHeader) : M Chain Segmenter :=
  let* snapshot := readonly (
    ex_rewind ct h ;*
    asks (fun s => ex_accumulator (x_ext s))) in
  ret (mkSegmenter snapshot h).

(** [Chain::segmenter]; [eqb] is the equality of headers that is derived. The
    cache is the second component. *)
Definition segmenter (eqb : BlockHeader -> BlockHeader -> bool) (cached : option Segmenter)
    : M Chain (Segmenter * option Segmenter) :=
  let* archive_header := txhashset_archive_header ct in
  match cached with
  | Some x =>
      if eqb (sg_header x) archive_header then ret (x, cached)
      else let* g := init_segmenter archive_header in ret (g, Some g)
  | None => let* g := init_segmenter archive_header in ret (g, Some g)
  end.

(** ** The desegmenter *)

Record Desegmenter : Type := mkDesegmenter {
  archive_header : BlockHeader;
  d_genesis : BlockHeader;
  d_accumulator : BitmapAccumulator;
  bitmap_segment_cache : list (Segment BitmapChunk Ser.Hash);
  output_segment_cache : list (Segment OutputIdentifier Ser.Hash);
  rangeproof_segment_cache : list (Segment RangeProof Ser.Hash);
  kernel_segment_cache : list (Segment TxKernel Ser.Hash);
  bitmap_mmr_leaf_count : Z;
  bitmap_mmr_size : Z;
  d_bitmap_cache : option (gset Z);
  all_segments_complete : bool;
  latest_block_height : Z;
}.

Definition new_desegmenter (archive_header genesis : BlockHeader) : option Desegmenter :=
  let! (leaf_count, mmr_size) := bitmap_mmr_sizes (output_mmr_size archive_header) in
  Some (mkDesegmenter archive_header genesis acc_new [] [] [] [] leaf_count mmr_size None false 0).

Definition reset (d : Desegmenter) : option Desegmenter := new_desegmenter (archive_header d) (d_genesis d).

Definition set_bitmap_segments c d := mkDesegmenter (archive_header d) (d_genesis d) (d_accumulator d) c (output_segment_cache d) (rangeproof_segment_cache d) (kernel_segment_cache d) (bitmap_mmr_leaf_count d) (bitmap_mmr_size d) (d_bitmap_cache d) (all_segments_complete d) (latest_block_height d).
Definition set_output_segments c d := mkDesegmenter (archive_header d) (d_genesis d) (d_accumulator d) (bitmap_segment_cache d) c (rangeproof_segment_cache d) (kernel_segment_cache d) (bitmap_mmr_leaf_count d) (bitmap_mmr_size d) (d_bitmap_cache d) (all_segments_complete d) (latest_block_height d).
Definition set_rangeproof_segments c d := mkDesegmenter (archive_header d) (d_genesis d) (d_accumulator d) (bitmap_segment_cache d) (output_segment_cache d) c (kernel_segment_cache d) (bitmap_mmr_leaf_count d) (bitmap_mmr_size d) (d_bitmap_cache d) (all_segments_complete d) (latest_block_height d).
Definition set_kernel_segments c d := mkDesegmenter (archive_header d) (d_genesis d) (d_accumulator d) (bitmap_segment_cache d) (output_segment_cache d) (rangeproof_segment_cache d) c (bitmap_mmr_leaf_count d) (bitmap_mmr_size d) (d_bitmap_cache d) (all_segments_complete d) (latest_block_height d).
Definition set_d_accumulator a d := mkDesegmenter (archive_header d) (d_genesis d) a (bitmap_segment_cache d) (output_segment_cache d) (rangeproof_segment_cache d) (kernel_segment_cache d) (bitmap_mmr_leaf_count d) (bitmap_mmr_size d) (d_bitmap_cache d) (all_segments_complete d) (latest_block_height d).
Definition set_d_bitmap b d := mkDesegmenter (archive_header d) (d_genesis d) (d_accumulator d) (bitmap_segment_cache d) (output_segment_cache d) (rangeproof_segment_cache d) (kernel_segment_cache d) (bitmap_mmr_leaf_count d) (bitmap_mmr_size d) b (all_segments_complete d) (latest_block_height d).
Definition set_complete b d := mkDesegmenter (archive_header d) (d_genesis d) (d_accumulator d) (bitmap_segment_cache d) (output_segment_cache d) (rangeproof_segment_cache d) (kernel_segment_cache d) (bitmap_mmr_leaf_count d) (bitmap_mmr_size d) (d_bitmap_cache d) b (latest_block_height d).
Definition set_latest h d := mkDesegmenter (archive_header d) (d_genesis d) (d_accumulator d) (bitmap_segment_cache d) (output_segment_cache d) (rangeproof_segment_cache d) (kernel_segment_cache d) (bitmap_mmr_leaf_count d) (bitmap_mmr_size d) (d_bitmap_cache d) (all_segments_complete d) h.

(** The desegmenter with what it shares with the chain. *)
Record DS : Type := mkDS { s_deseg : Desegmenter; s_us : US }.

Definition on_deseg (f : Desegmenter -> Desegmenter) : M DS unit :=
  modify (fun s => mkDS (f (s_deseg s)) (s_us s)).
Definition on_chain {A} (m : M US A) : M DS A := focus s_us (fun u s => mkDS (s_deseg s) u) m.

Definition local_output_mmr_size (s : DS) : Z := size (output_pmmr_h (u_trees (s_us s))).
Definition local_rangeproof_mmr_size (s : DS) : Z := size (rproof_pmmr_h (u_trees (s_us s))).
Definition local_kernel_mmr_size (s : DS) : Z := size (kernel_pmmr_h (u_trees (s_us s))).
Definition local_bitmap_mmr_size (d : Desegmenter) : Z := unpruned_size (acc_readonly_pmmr (d_accumulator d)).

Definition applied_leaf_count (s : DS) : Z :=
  add64 (add64 (n_leaves (local_output_mmr_size s)) (n_leaves (local_rangeproof_mmr_size s)))
    (n_leaves (local_kernel_mmr_size s)).

(** [Chain::desegmenter], which keeps the desegmenter it returns; [eqb] is the
    equality of headers. *)
Definition desegmenter (eqb : BlockHeader -> BlockHeader -> bool) (cached : option Desegmenter)
    (genesis h : BlockHeader) : option Desegmenter :=
  match cached with
  | Some d => if eqb (archive_header d) h then Some d else new_desegmenter h genesis
  | None => new_desegmenter h genesis
  end.

(** *** What is needed next *)

Definition next_required_bitmap_segment_index (d : Desegmenter) : option Z :=
  let cur := count_segments_required (local_bitmap_mmr_size d) BITMAP_SEGMENT_HEIGHT in
  let total := count_segments_required (bitmap_mmr_size d) BITMAP_SEGMENT_HEIGHT in
  if cur =? total then None else Some cur.

Definition next_required_output_segment_index (s : DS) : option Z :=
  next_required_segment_index (local_output_mmr_size s) (output_mmr_size (archive_header (s_deseg s))) OUTPUT_SEGMENT_HEIGHT.
Definition next_required_rangeproof_segment_index (s : DS) : option Z :=
  next_required_segment_index (local_rangeproof_mmr_size s) (output_mmr_size (archive_header (s_deseg s))) RANGEPROOF_SEGMENT_HEIGHT.
Definition next_required_kernel_segment_index (s : DS) : option Z :=
  next_required_segment_index (local_kernel_mmr_size s) (kernel_mmr_size (archive_header (s_deseg s))) KERNEL_SEGMENT_HEIGHT.

Definition desired_bitmap_segments (max_elements : Z) (d : Desegmenter) : list SegmentTypeIdentifier :=
  bitmap_request_loop (traversal_iter (bitmap_mmr_size d) BITMAP_SEGMENT_HEIGHT) (bitmap_mmr_size d)
    (local_bitmap_mmr_size d) (has_segment_with_id (bitmap_segment_cache d)) max_elements [].

Definition desired_segments (max_elements : Z) (s : DS) : list SegmentTypeIdentifier :=
  let d := s_deseg s in
  let h := archive_header d in
  let outputs {A} (f : SegmentType -> Z -> Z -> Z -> (SegmentIdentifier -> bool) -> A) : A :=
    f SegOutput OUTPUT_SEGMENT_HEIGHT (output_mmr_size h) (local_output_mmr_size s)
      (has_segment_with_id (output_segment_cache d)) in
  let rangeproofs {A} (f : SegmentType -> Z -> Z -> Z -> (SegmentIdentifier -> bool) -> A) : A :=
    f SegRangeProof RANGEPROOF_SEGMENT_HEIGHT (output_mmr_size h) (local_rangeproof_mmr_size s)
      (has_segment_with_id (rangeproof_segment_cache d)) in
  let kernels {A} (f : SegmentType -> Z -> Z -> Z -> (SegmentIdentifier -> bool) -> A) : A :=
    f SegKernel KERNEL_SEGMENT_HEIGHT (kernel_mmr_size h) (local_kernel_mmr_size s)
      (has_segment_with_id (kernel_segment_cache d)) in
  let return_vec := outputs request max_elements ++ rangeproofs request max_elements ++
                    kernels request max_elements in
  let return_vec := outputs force_next max_elements return_vec in
  let return_vec := rangeproofs force_next max_elements return_vec in
  kernels force_next max_elements return_vec.

Definition next_desired_segments (max_elements : Z) : M DS (list SegmentTypeIdentifier) :=
  let* s := asks (fun s => s) in
  match d_bitmap_cache (s_deseg s) with
  | None => ret (desired_bitmap_segments max_elements (s_deseg s))
  | Some _ =>
      let return_vec := desired_segments max_elements s in
      (match return_vec with [] => on_deseg (set_complete true) | _ => ret tt end) ;*
      ret return_vec
  end.

(** *** Receiving *)

Definition add_bitmap_segment (segment : Segment BitmapChunk Ser.Hash) (output_root_hash : Ser.Hash) : M DS unit :=
  let* d := asks s_deseg in
  let h := archive_header d in
  lift_seg (validate_with (T := BitmapChunk) (BM := gset Z) (fun x i => leaf_hash x i) segment (bitmap_mmr_size d) None
    (output_root h) (output_mmr_size h) output_root_hash true) ;*
  on_deseg (fun d => set_bitmap_segments (cache_segment (bitmap_segment_cache d) segment) d).

Definition add_output_segment (segment : Segment OutputIdentifier Ser.Hash) : M DS unit :=
  let* d := asks s_deseg in
  let h := archive_header d in
  let* bitmap_root := must (acc_root (d_accumulator d)) in
  lift_seg (validate_with (T := OutputIdentifier) (fun x i => leaf_hash x i) segment (output_mmr_size h) (d_bitmap_cache d)
    (output_root h) (output_mmr_size h) bitmap_root false) ;*
  on_deseg (fun d => set_output_segments (cache_segment (output_segment_cache d) segment) d).

Definition add_rangeproof_segment (segment : Segment RangeProof Ser.Hash) : M DS unit :=
  let* d := asks s_deseg in
  let h := archive_header d in
  lift_seg (Segments.validate (T := RangeProof) (fun x i => leaf_hash x i) segment (output_mmr_size h) (d_bitmap_cache d)
    (range_proof_root h)) ;*
  on_deseg (fun d => set_rangeproof_segments (cache_segment (rangeproof_segment_cache d) segment) d).

Definition add_kernel_segment (segment : Segment TxKernel Ser.Hash) : M DS unit :=
  let* d := asks s_deseg in
  let h := archive_header d in
  lift_seg (Segments.validate (T := TxKernel) (BM := gset Z) (fun x i => leaf_hash x i) segment (kernel_mmr_size h) None
    (kernel_root h)) ;*
  on_deseg (fun d => set_kernel_segments (cache_segment (kernel_segment_cache d) segment) d).

(** *** Applying *)

Definition append_chunks (chunks : list BitmapChunk) : M DS unit :=
  each (fun chunk =>
    let* d := asks s_deseg in
    let* a := lift (append_chunk (d_accumulator d) chunk) in
    on_deseg (set_d_accumulator a)) chunks.

(** [apply_bitmap_segment] of the segment that was found, with the cache
    without it. *)
Definition apply_bitmap_segment (segment : Segment BitmapChunk Ser.Hash)
    (cache : list (Segment BitmapChunk Ser.Hash)) : M DS unit :=
  on_deseg (set_bitmap_segments cache) ;*
  append_chunks (leaf_data segment).

Definition finalize_bitmap : M DS unit :=
  let* d := asks s_deseg in
  let* bitmap := must (as_bitmap (d_accumulator d)) in
  on_deseg (set_d_bitmap (Some bitmap)) ;*
  on_chain (dropping (extending (on_ext (ex_set_bitmap_accumulator (d_accumulator d))))).

Definition apply_output_segments (segments : list (Segment OutputIdentifier Ser.Hash)) : M DS unit :=
  match segments with
  | [] => ret tt
  | _ => on_chain (dropping (extending (each (fun s =>
           apply_output_segment (hash_pos s) (hashes s) (leaf_pos s) (leaf_data s)) segments)))
  end.

Definition apply_rangeproof_segments (segments : list (Segment RangeProof Ser.Hash)) : M DS unit :=
  match segments with
  | [] => ret tt
  | _ => on_chain (dropping (extending (each (fun s =>
           apply_rangeproof_segment (hash_pos s) (hashes s) (leaf_pos s) (leaf_data s)) segments)))
  end.

Definition apply_kernel_segments (segments : list (Segment TxKernel Ser.Hash)) : M DS unit :=
  match segments with
  | [] => ret tt
  | _ => on_chain (dropping (extending (each (fun s => apply_kernel_segment (leaf_pos s) (leaf_data s)) segments)))
  end.

(** One of the three steps: the batch that is ready, or a full cache that nobody
    needs. *)
Definition apply_ready {E} (next : DS -> option Z) (get : Desegmenter -> list (Segment E Ser.Hash))
    (set : list (Segment E Ser.Hash) -> Desegmenter -> Desegmenter)
    (apply : list (Segment E Ser.Hash) -> M DS unit) : M DS unit :=
  let* s := asks (fun s => s) in
  match next s with
  | Some next_idx =>
      let '(segments, cache) :=
        take_segment_batch (Z.to_nat SEGMENT_APPLY_BATCH_SIZE) (get (s_deseg s)) next_idx in
      on_deseg (set cache) ;*
      apply segments
  | None =>
      if MAX_CACHED_SEGMENTS <=? Z.of_nat (length (get (s_deseg s))) then on_deseg (set []) else ret tt
  end.

Definition apply_next_segments : M DS unit :=
  let* d := asks s_deseg in
  match next_required_bitmap_segment_index d with
  | Some bmp_idx =>
      match remove_idx (bitmap_segment_cache d) bmp_idx with
      | Some (segment, cache) => apply_bitmap_segment segment cache
      | None => ret tt
      end
  | None =>
      (match d_bitmap_cache d with None => finalize_bitmap | Some _ => ret tt end) ;*
      apply_ready next_required_output_segment_index output_segment_cache set_output_segments apply_output_segments ;*
      apply_ready next_required_rangeproof_segment_index rangeproof_segment_cache set_rangeproof_segments apply_rangeproof_segments ;*
      apply_ready next_required_kernel_segment_index kernel_segment_cache set_kernel_segments apply_kernel_segments
  end.

(** *** Progress and completion *)

Definition check_progress : M DS bool :=
  let* s := asks (fun s => s) in
  let d := s_deseg s in
  let latest_output_size := Z.min (local_output_mmr_size s) (local_rangeproof_mmr_size s) in
  let* res := must (get_first_header_with latest_output_size (local_kernel_mmr_size s) (latest_block_height d)
    (u_batch (s_us s)) (u_header (s_us s))) in
  match res with
  | Some h =>
      on_deseg (set_latest (height h)) ;*
      let* tip := must (tip_from_header ct h) in
      on_chain (put_batch (save_pibd_head tip)) ;*
      ret ((local_kernel_mmr_size s =? kernel_mmr_size (archive_header d)) &&
           (local_output_mmr_size s =? output_mmr_size (archive_header d)) &&
           (local_rangeproof_mmr_size s =? output_mmr_size (archive_header d)) &&
           is_some (d_bitmap_cache d))
  | None => ret false
  end.

Definition check_update_leaf_set_state : M DS unit :=
  let* d := asks s_deseg in
  on_chain (dropping (extending (
    match d_bitmap_cache d with
    | Some b =>
        let* e := asks x_ext in
        let* e := must (update_leaf_sets b e) in
        on_ext (fun _ => e)
    | None => ret tt
    end))).

(** The last part, on a new batch that is committed. *)
Definition save_complete_state (archive_header genesis : BlockHeader) : M US unit :=
  extending (
    ex_rewind ct archive_header ;*
    let* (utxo_sum, kernel_sum) := ex_validate genesis false (Some 0) archive_header in
    let* hash := must (header_hash ct archive_header) in
    on_batch (save_block_sums hash (mkSums utxo_sum kernel_sum))) ;*
  let* tip := must (tip_from_header ct archive_header) in
  put_batch (save_body_head tip) ;*
  put_batch (save_body_tail tip) ;*
  let* u := asks (fun u => u) in
  update_batch (fun b => Some (init_output_pos_index (u_header u) (u_trees u) b)) ;*
  update_batch (init_recent_kernel_pos_index (u_header u) (u_trees u)).

Definition validate_complete_state : M DS unit :=
  let* d := asks s_deseg in
  let* u := asks s_us in
  let h := archive_header d in
  let* roots := must (txhashset_roots (u_trees u)) in
  let* roots := lift roots in
  lift (roots_validate roots h) ;*
  let* view := lift (rewindable_kernel_view (u_batch u) (u_trees u)) in
  let* r := must (kernel_history_loop (Z.to_nat (height h)) (u_batch u) view h) in
  lift r ;*
  let* r := must (verify_kernel_pos_index (d_genesis d) (u_header u) (u_trees u) (u_batch u)) in
  let* _ := lift r in
  on_chain (committing (save_complete_state h (d_genesis d))).

End segments.
