(* ===== verification/SyncState.v ===== *)
(** The state of synchronisation, and the requests that are under way.

    Models [SyncStatus], [SyncState] and the pending and rejected segment requests
    of [src/chain/src/types.rs]. Peers are numbers, times are nanoseconds. The
    locks are taken one after the other, so an operation is a function of the whole
    state. Durations are far from the bounds of the clock. *)

From Stdlib Require Import ZArith Lia.
From stdpp Require Import base numbers option list gmap.
From S2P Require Import Prelude Consensus PmmrIndex Pmmr Ser LinkedList Kernel CutThrough Transaction PowTypes Block Segments ChainTypes.
From S2P Require Import ChainStore BitmapAccumulator TxHashSet Pipe Chain Desegmenter.
Open Scope Z_scope.

(** ** Status *)

Inductive HeaderSyncMode : Type := Legacy | Pihd.

Record TxHashsetDownloadStats : Type := mkStats {
  dl_start_time : Z;
  prev_update_time : Z;
  update_time : Z;
  prev_downloaded_size : Z;
  downloaded_size : Z;
  total_size_ : Z;
}.

Inductive SyncStatus : Type :=
| Initial
| NoSync
| AwaitingPeers (wait : bool)
| HeaderSync (sync_head : Tip) (sync_mode : HeaderSyncMode) (highest_height : Z) (highest_diff : Difficulty)
| TxHashsetPibd (aborted errored : bool) (completed_leaves leaves_required completed_to_height required_height : Z)
| TxHashsetDownload (stats : TxHashsetDownloadStats)
| TxHashsetSetup (headers headers_total kernel_pos kernel_pos_total : option Z)
| TxHashsetKernelsValidation (kernels kernels_total : Z)
| TxHashsetRangeProofsValidation (rproofs rproofs_total : Z)
| TxHashsetSave
| TxHashsetDone
| BodySync (current_height highest_height : Z)
| Shutdown.

#[export] Instance header_sync_mode_eq_dec : EqDecision HeaderSyncMode.
Proof. solve_decision. Defined.
#[export] Instance download_stats_eq_dec : EqDecision TxHashsetDownloadStats.
Proof. solve_decision. Defined.
#[export] Instance difficulty_eq_dec : EqDecision Difficulty.
Proof. solve_decision. Defined.
#[export] Instance tip_eq_dec : EqDecision Tip.
Proof. solve_decision. Defined.
#[export] Instance sync_status_eq_dec : EqDecision SyncStatus.
Proof. solve_decision. Defined.

(** ** Segments and requests *)

Inductive PIBDSegment : Type :=
| PBitmap (block_hash output_root : Ser.Hash) (segment : Segment BitmapChunk Ser.Hash)
| POutput (block_hash bitmap_root : Ser.Hash) (segment : Segment OutputIdentifier Ser.Hash)
| PRangeProof (block_hash : Ser.Hash) (segment : Segment RangeProof Ser.Hash)
| PKernel (block_hash : Ser.Hash) (segment : Segment TxKernel Ser.Hash).

Definition segment_id (s : PIBDSegment) : SegmentTypeIdentifier :=
  match s with
  | PBitmap _ _ segment => mkTypeId SegBitmap (Segments.identifier segment)
  | POutput _ _ segment => mkTypeId SegOutput (Segments.identifier segment)
  | PRangeProof _ segment => mkTypeId SegRangeProof (Segments.identifier segment)
  | PKernel _ segment => mkTypeId SegKernel (Segments.identifier segment)
  end.

Record QueuedPIBDSegment : Type := mkQueued { q_peer_addr : Z; q_archive_hash : Ser.Hash; q_segment : PIBDSegment }.

Record PIBDSegmentContainer : Type := mkRequest {
  rq_identifier : SegmentTypeIdentifier;
  rq_time : Z;
  rq_last_peer : option Z;
  rq_archive_hash : Ser.Hash;
}.

Record RejectedPIBDSegment : Type := mkRejected {
  rj_identifier : SegmentTypeIdentifier;
  rj_peer_addr : Z;
  rj_time : Z;
}.

Record RejectedPIBDPeer : Type := mkRejectedPeer { rp_peer_addr : Z; rp_time : Z; rp_count : Z }.

Definition MAX_REJECTED_PIBD_SEGMENTS : nat := 1024.
Definition MAX_REJECTED_PIBD_PEERS : nat := 1024.
Definition MAX_REJECTED_PIHD_PEERS : nat := 1024.
Definition REJECTED_PIBD_PEER_THRESHOLD : Z := 3.
Definition REJECTED_SEGMENT_RETRY_SECS : Z := 600.

Record PIHDHeaderSegmentContainer : Type := mkHeaderRequest {
  hr_identifier : SegmentIdentifier;
  hr_time : Z;
  hr_responded : bool;
  hr_peer_addr : Z;
  hr_target_height : Z;
}.

Record SyncState : Type := mkSync {
  current : SyncStatus;
  sync_error : option CE.Error;
  requested_pibd_segments : list PIBDSegmentContainer;
  rejected_pibd_segments : list RejectedPIBDSegment;
  rejected_pibd_peers : list RejectedPIBDPeer;
  requested_pihd_header_segments : list PIHDHeaderSegmentContainer;
  rejected_pihd_peers : list Z;
  pihd_header_cache_generation : Z;
}.

Definition set_current x s := mkSync x (sync_error s) (requested_pibd_segments s) (rejected_pibd_segments s) (rejected_pibd_peers s) (requested_pihd_header_segments s) (rejected_pihd_peers s) (pihd_header_cache_generation s).
Definition put_sync_error x s := mkSync (current s) x (requested_pibd_segments s) (rejected_pibd_segments s) (rejected_pibd_peers s) (requested_pihd_header_segments s) (rejected_pihd_peers s) (pihd_header_cache_generation s).
Definition set_requested x s := mkSync (current s) (sync_error s) x (rejected_pibd_segments s) (rejected_pibd_peers s) (requested_pihd_header_segments s) (rejected_pihd_peers s) (pihd_header_cache_generation s).
Definition set_rejected x y s := mkSync (current s) (sync_error s) (requested_pibd_segments s) x y (requested_pihd_header_segments s) (rejected_pihd_peers s) (pihd_header_cache_generation s).
Definition set_header_requests x s := mkSync (current s) (sync_error s) (requested_pibd_segments s) (rejected_pibd_segments s) (rejected_pibd_peers s) x (rejected_pihd_peers s) (pihd_header_cache_generation s).
Definition set_rejected_pihd x s := mkSync (current s) (sync_error s) (requested_pibd_segments s) (rejected_pibd_segments s) (rejected_pibd_peers s) (requested_pihd_header_segments s) x (pihd_header_cache_generation s).
Definition set_generation x s := mkSync (current s) (sync_error s) (requested_pibd_segments s) (rejected_pibd_segments s) (rejected_pibd_peers s) (requested_pihd_header_segments s) (rejected_pihd_peers s) x.

Definition sync_new : SyncState := mkSync Initial None [] [] [] [] [] 0.

(** *** Status *)

Definition is_syncing (s : SyncState) : bool := negb (bool_decide (current s = NoSync)).

Definition update_with_guard (new_status : SyncStatus) (s : SyncState) : bool * SyncState :=
  if decide (current s = new_status) then (false, s) else (true, set_current new_status s).

Definition sync_update (new_status : SyncStatus) (s : SyncState) : bool * SyncState := update_with_guard new_status s.

Definition update_if (new_status : SyncStatus) (f : SyncStatus -> bool) (s : SyncState) : bool * SyncState :=
  if f (current s) then update_with_guard new_status s else (false, s).

Definition set_sync_error (e : CE.Error) (s : SyncState) : SyncState := put_sync_error (Some e) s.
Definition clear_sync_error (s : SyncState) : SyncState := put_sync_error None s.

Definition sync_reset (s : SyncState) : SyncState := snd (sync_update NoSync (clear_sync_error s)).

(** What [TxHashsetWriteStatus] reports. *)
Definition on_setup (headers headers_total kernel_pos kernel_pos_total : option Z) (s : SyncState) : SyncState :=
  snd (sync_update (TxHashsetSetup headers headers_total kernel_pos kernel_pos_total) s).
Definition on_validation_kernels (kernels kernels_total : Z) (s : SyncState) : SyncState :=
  snd (sync_update (TxHashsetKernelsValidation kernels kernels_total) s).
Definition on_validation_rproofs (rproofs rproofs_total : Z) (s : SyncState) : SyncState :=
  snd (sync_update (TxHashsetRangeProofsValidation rproofs rproofs_total) s).
Definition on_save (s : SyncState) : SyncState := snd (sync_update TxHashsetSave s).
Definition on_done (s : SyncState) : SyncState := snd (sync_update TxHashsetDone s).

Definition update_header_sync (new_sync_head : Tip) (s : SyncState) : SyncState :=
  match current s with
  | HeaderSync _ mode h d => set_current (HeaderSync new_sync_head mode h d) s
  | _ => s
  end.

Definition update_txhashset_download (stats : TxHashsetDownloadStats) (s : SyncState) : SyncState :=
  set_current (TxHashsetDownload stats) s.

(** The number of leaves that the archive header asks for. *)
Definition leaves_required_of (h : BlockHeader) : Z :=
  add64 (mul64 (n_leaves (output_mmr_size h)) 2) (n_leaves (kernel_mmr_size h)).

Definition update_pibd_progress (aborted errored : bool) (completed_leaves completed_to_height : Z) (h : BlockHeader)
    (s : SyncState) : SyncState :=
  set_current (TxHashsetPibd aborted errored completed_leaves (leaves_required_of h) completed_to_height (Block.height h)) s.

Definition update_pibd_leaf_progress (completed_leaves : Z) (h : BlockHeader) (s : SyncState) : SyncState :=
  match current s with
  | TxHashsetPibd aborted errored _ _ completed_to_height _ =>
      set_current (TxHashsetPibd aborted errored completed_leaves (leaves_required_of h) completed_to_height (Block.height h)) s
  | _ => set_current (TxHashsetPibd false false completed_leaves (leaves_required_of h) 0 (Block.height h)) s
  end.

(** *** Segment requests *)

(** [iter_mut().find(p)], with [f] applied to the element that is found. *)
Fixpoint update_first {A} (p : A -> bool) (f : A -> A) (l : list A) : option (list A) :=
  match l with
  | [] => None
  | x :: l => if p x then Some (f x :: l) else option_map (cons x) (update_first p f l)
  end.

(** [retain] *)
Definition retain {A} (f : A -> bool) (l : list A) : list A := filter (fun x => f x = true) l.

Definition add_pibd_segment (now : Z) (id : SegmentTypeIdentifier) (peer_addr : Z) (archive_hash : Ser.Hash) (s : SyncState) : SyncState :=
  let fresh := mkRequest id now (Some peer_addr) archive_hash in
  set_requested
    match update_first (fun i => bool_decide (rq_identifier i = id)) (fun i => fresh) (requested_pibd_segments s) with
    | Some l => l
    | None => requested_pibd_segments s ++ [fresh]
    end s.

Definition remove_pibd_segment (id : SegmentTypeIdentifier) (s : SyncState) : SyncState :=
  set_requested (retain (fun i => negb (bool_decide (rq_identifier i = id))) (requested_pibd_segments s)) s.

Definition remove_pibd_segment_from (id : SegmentTypeIdentifier) (peer_addr : Z) (s : SyncState) : SyncState :=
  set_requested (retain (fun i => negb (bool_decide (rq_identifier i = id)) || negb (bool_decide (rq_last_peer i = Some peer_addr)))
    (requested_pibd_segments s)) s.

Definition remove_pibd_segment_for_archive (id : SegmentTypeIdentifier) (peer_addr : Z) (archive_hash : Ser.Hash) (s : SyncState) : SyncState :=
  set_requested (retain (fun i => negb (bool_decide (rq_identifier i = id)) || negb (bool_decide (rq_last_peer i = Some peer_addr)) ||
      negb (bool_decide (rq_archive_hash i = archive_hash)))
    (requested_pibd_segments s)) s.

Definition get_pibd_segment_archive_hash (id : SegmentTypeIdentifier) (peer_addr : Z) (s : SyncState) : option Ser.Hash :=
  option_map rq_archive_hash
    (find (fun i => bool_decide (rq_identifier i = id) && bool_decide (rq_last_peer i = Some peer_addr)) (requested_pibd_segments s)).

Definition NANOS : Z := 10 ^ 9.

Definition remove_stale_pibd_requests (now timeout_seconds : Z) (s : SyncState)
    : list (SegmentTypeIdentifier * option Z) * SyncState :=
  let cutoff_time := now - timeout_seconds * NANOS in
  (map (fun i => (rq_identifier i, rq_last_peer i)) (retain (fun i => rq_time i <=? cutoff_time) (requested_pibd_segments s)),
   set_requested (retain (fun i => negb (rq_time i <=? cutoff_time)) (requested_pibd_segments s)) s).

Definition contains_pibd_segment (id : SegmentTypeIdentifier) (s : SyncState) : bool :=
  existsb (fun i => bool_decide (rq_identifier i = id)) (requested_pibd_segments s).

(** [if v.len() > max { v.remove(0) }] *)
Definition drop_oldest {A} (max : nat) (l : list A) : list A := if (max <? length l)%nat then List.tail l else l.

(** [u32::saturating_add] *)
Definition sat_add32 (a b : Z) : Z := Z.min (a + b) (2 ^ 32 - 1).

Definition reject_pibd_segment_from (now : Z) (id : SegmentTypeIdentifier) (peer_addr : Z) (s : SyncState) : SyncState :=
  let s := remove_pibd_segment_from id peer_addr s in
  let rejected := retain (fun i => negb (bool_decide (rj_identifier i = id)) || negb (bool_decide (rj_peer_addr i = peer_addr)))
    (rejected_pibd_segments s) ++ [mkRejected id peer_addr now] in
  let peers :=
    match update_first (fun i => bool_decide (rp_peer_addr i = peer_addr))
      (fun i => mkRejectedPeer (rp_peer_addr i) now (sat_add32 (rp_count i) 1)) (rejected_pibd_peers s) with
    | Some l => l
    | None => rejected_pibd_peers s ++ [mkRejectedPeer peer_addr now 1]
    end in
  set_rejected (drop_oldest MAX_REJECTED_PIBD_SEGMENTS rejected) (drop_oldest MAX_REJECTED_PIBD_PEERS peers) s.

Definition rejected_pibd_segment_from_peer (now : Z) (id : SegmentTypeIdentifier) (peer_addr : Z) (s : SyncState) : bool :=
  let cutoff_time := now - REJECTED_SEGMENT_RETRY_SECS * NANOS in
  existsb (fun i => bool_decide (rj_identifier i = id) && bool_decide (rj_peer_addr i = peer_addr) && (cutoff_time <? rj_time i))
    (rejected_pibd_segments s) ||
  existsb (fun i => bool_decide (rp_peer_addr i = peer_addr) && (cutoff_time <? rp_time i) &&
      (REJECTED_PIBD_PEER_THRESHOLD <=? rp_count i)) (rejected_pibd_peers s).

Definition prune_rejected_pibd_segments (now reject_seconds : Z) (s : SyncState) : SyncState :=
  let cutoff_time := now - reject_seconds * NANOS in
  set_rejected (retain (fun i => cutoff_time <? rj_time i) (rejected_pibd_segments s))
    (retain (fun i => cutoff_time <? rp_time i) (rejected_pibd_peers s)) s.

Definition pending_pibd_segment_count (s : SyncState) : Z := Z.of_nat (length (requested_pibd_segments s)).

(** *** Header segment requests *)

Definition is_header_request (id : SegmentIdentifier) (peer_addr : Z) (i : PIHDHeaderSegmentContainer) : bool :=
  bool_decide (hr_identifier i = id) && bool_decide (hr_peer_addr i = peer_addr).

Definition pending_pihd_segments_count (s : SyncState) : Z := Z.of_nat (length (requested_pihd_header_segments s)).

Definition add_pihd_header_segment (now : Z) (id : SegmentIdentifier) (peer_addr target_height : Z) (s : SyncState) : SyncState :=
  let fresh := mkHeaderRequest id now false peer_addr target_height in
  set_header_requests
    match update_first (is_header_request id peer_addr) (fun _ => fresh) (requested_pihd_header_segments s) with
    | Some l => l
    | None => requested_pihd_header_segments s ++ [fresh]
    end s.

Definition mark_pihd_header_segment_responded (id : SegmentIdentifier) (peer_addr : Z) (s : SyncState) : SyncState :=
  set_header_requests
    (default (requested_pihd_header_segments s)
       (update_first (is_header_request id peer_addr)
          (fun i => mkHeaderRequest (hr_identifier i) (hr_time i) true (hr_peer_addr i) (hr_target_height i))
          (requested_pihd_header_segments s))) s.

Definition remove_pihd_header_segment (id : SegmentIdentifier) (peer_addr : Z) (s : SyncState) : SyncState :=
  set_header_requests (retain (fun i => negb (bool_decide (hr_identifier i = id)) || negb (bool_decide (hr_peer_addr i = peer_addr)))
    (requested_pihd_header_segments s)) s.

Definition reject_pihd_header_segment_from (id : SegmentIdentifier) (peer_addr : Z) (s : SyncState) : SyncState :=
  let s := remove_pihd_header_segment id peer_addr s in
  set_rejected_pihd (drop_oldest MAX_REJECTED_PIHD_PEERS (rejected_pihd_peers s ++ [peer_addr])) s.

Definition take_rejected_pihd_peers (s : SyncState) : list Z * SyncState := (rejected_pihd_peers s, set_rejected_pihd [] s).

Definition contains_pihd_header_segment (id : SegmentIdentifier) (s : SyncState) : bool :=
  existsb (fun i => bool_decide (hr_identifier i = id)) (requested_pihd_header_segments s).

Definition pending_pihd_segments_count_from (peer_addr : Z) (s : SyncState) : Z :=
  Z.of_nat (length (retain (fun req => bool_decide (hr_peer_addr req = peer_addr)) (requested_pihd_header_segments s))).

Definition pihd_header_segment_target_height (id : SegmentIdentifier) (peer_addr : Z) (s : SyncState) : option Z :=
  option_map hr_target_height (find (is_header_request id peer_addr) (requested_pihd_header_segments s)).

Definition retain_pihd_header_segments (keep : PIHDHeaderSegmentContainer -> bool) (s : SyncState) : SyncState :=
  set_header_requests (retain keep (requested_pihd_header_segments s)) s.

Definition clear_pihd_header_segments (s : SyncState) : SyncState :=
  set_generation (add64 (pihd_header_cache_generation s) 1) (set_header_requests [] s).

(** *** Received segments *)

Section segments.
Context {CR : Crypto} {SU : SortUnstable} {NF : NrdFlag} (ct : ChainTypes).
Context {MH : Mmr BlockHeader HeaderEntry} {MO : Mmr OutputIdentifier OutputIdentifier}.
Context {MR : Mmr RangeProof RangeProof} {MK : Mmr TxKernel TxKernel}.
Context (eqb : BlockHeader -> BlockHeader -> bool) (genesis : BlockHeader) (now : Z).

(** What processing a segment touches. *)
Record SyncNode : Type := mkSyncNode {
  sn_sync : SyncState;
  sn_us : US;
  sn_deseg : option Desegmenter;
}.

Definition add_segment (segment : PIBDSegment) : M DS unit :=
  match segment with
  | PBitmap _ output_root segment => add_bitmap_segment segment output_root
  | POutput _ _ segment => add_output_segment segment
  | PRangeProof _ segment => add_rangeproof_segment segment
  | PKernel _ segment => add_kernel_segment segment
  end.

Definition on_sync (f : SyncState -> SyncState) : M SyncNode unit :=
  modify (fun n => mkSyncNode (f (sn_sync n)) (sn_us n) (sn_deseg n)).

(** Given the archive header of the chain. *)
Definition process_queued_pibd_segment (archive_header : BlockHeader) (q : QueuedPIBDSegment) : M SyncNode unit :=
  let id := segment_id (q_segment q) in
  let* current_hash := must (header_hash ct archive_header) in
  if negb (bool_decide (q_archive_hash q = current_hash)) then
    on_sync (remove_pibd_segment_for_archive id (q_peer_addr q) (q_archive_hash q))
  else
    let* d := asks sn_deseg in
    let* d := must (desegmenter eqb d genesis archive_header) in
    let* res := fun n =>
      match add_segment (q_segment q) (mkDS d (sn_us n)) with
      | None => None
      | Some (r, s) => Some (Ok r, mkSyncNode (sn_sync n) (s_us s) (Some (s_deseg s)))
      end in
    (if is_ok res then on_sync (remove_pibd_segment_for_archive id (q_peer_addr q) (q_archive_hash q))
     else on_sync (reject_pibd_segment_from now id (q_peer_addr q))) ;*
    lift res.
End segments.
