(* ===== verification/SyncSpec.v ===== *)
(** What the state of synchronisation keeps.

    Every list of requests and rejections has one entry per key and a bounded
    length, whatever is called; a peer that sent a bad segment is refused. *)

From Stdlib Require Import ZArith Lia.
From stdpp Require Import base numbers option list gmap.
From S2P Require Import Prelude Consensus PmmrIndex Pmmr Ser LinkedList Kernel CutThrough Transaction PowTypes Block Segments ChainTypes.
From S2P Require Import ChainStore BitmapAccumulator TxHashSet Pipe Chain Desegmenter SyncState.
Open Scope Z_scope.

(** ** Lists with one entry per key *)

Lemma retain_sublist {A} (f : A -> bool) l : retain f l `sublist_of` l.
Proof. apply sublist_filter. Qed.

Lemma sublist_map_ {A B} (f : A -> B) l k : l `sublist_of` k -> map f l `sublist_of` map f k.
Proof. induction 1; simpl; by constructor. Qed.

Lemma retain_NoDup {A B} (key : A -> B) (f : A -> bool) l : NoDup (map key l) -> NoDup (map key (retain f l)).
Proof. intros H. eapply sublist_NoDup; [exact H|]. apply sublist_map_, retain_sublist. Qed.

Lemma retain_Forall {A} (P : A -> Prop) (f : A -> bool) l : Forall P l -> Forall P (retain f l).
Proof. rewrite !Forall_forall. intros H x Hx. apply H. eapply elem_of_sublist; [exact Hx|apply retain_sublist]. Qed.

Lemma Forall_sublist_ {A} (P : A -> Prop) l k : l `sublist_of` k -> Forall P k -> Forall P l.
Proof. rewrite !Forall_forall. intros Hs H x Hx. apply H. by eapply elem_of_sublist. Qed.

Lemma retain_length {A} (f : A -> bool) l : (length (retain f l) <= length l)%nat.
Proof. apply sublist_length, retain_sublist. Qed.

Lemma update_first_Some {A} (p : A -> bool) f l l' : update_first p f l = Some l' ->
  exists k x r, l = k ++ x :: r /\ p x = true /\ Forall (fun y => p y = false) k /\ l' = k ++ f x :: r.
Proof.
  revert l'. induction l as [|x l IH]; intros l'; simpl; [done|]. destruct (p x) eqn:E.
  - intros [= <-]. exists [], x, l. split_and!; auto.
  - destruct (update_first p f l) as [m|]; simpl; [|done]. intros [= <-].
    destruct (IH m eq_refl) as (k & y & r & -> & Hy & Hk & ->). exists (x :: k), y, r. split_and!; auto.
Qed.

Lemma update_first_None {A} (p : A -> bool) f l : update_first p f l = None -> Forall (fun x => p x = false) l.
Proof.
  induction l as [|x l IH]; simpl; [constructor|]. destruct (p x) eqn:E; [done|].
  destruct (update_first p f l); [done|]. intros _. constructor; auto.
Qed.

(** Updating an entry in place or adding one at the end, under the key [a]. *)
Lemma upsert_NoDup {A B} `{EqDecision B} (key : A -> B) (p : A -> bool) f fresh a l :
  (forall x, p x = true <-> key x = a) -> (forall x, p x = true -> key (f x) = a) -> key fresh = a ->
  NoDup (map key l) -> NoDup (map key (match update_first p f l with Some l' => l' | None => l ++ [fresh] end)).
Proof.
  intros Hp Hf Ha Hn. destruct (update_first p f l) as [l'|] eqn:E.
  - apply update_first_Some in E as (k & x & r & -> & Hx & _ & ->). rewrite map_app in *. simpl in *.
    by rewrite (Hf x Hx), <- (proj1 (Hp x) Hx).
  - apply update_first_None in E. rewrite map_app. apply NoDup_app. split; [done|]. split; [|apply NoDup_singleton].
    intros b Hb ->%list_elem_of_singleton. apply elem_of_map in Hb as (x & E' & Hx).
    rewrite Forall_forall in E. specialize (E x Hx). assert (p x = true) by (apply Hp; congruence). congruence.
Qed.

Lemma drop_oldest_sublist {A} n (l : list A) : drop_oldest n l `sublist_of` l.
Proof. unfold drop_oldest. destruct (_ <? _)%nat; [|done]. destruct l; simpl; [done|]. by constructor. Qed.

Lemma drop_oldest_length {A} n (l : list A) : (length l <= S n)%nat -> (length (drop_oldest n l) <= n)%nat.
Proof.
  unfold drop_oldest. destruct (Nat.ltb_spec n (length l)); [|lia]. destruct l; simpl in *; lia.
Qed.

Lemma upsert_length {A} (p : A -> bool) f fresh l :
  (length (match update_first p f l with Some l' => l' | None => l ++ [fresh] end) <= S (length l))%nat.
Proof.
  destruct (update_first p f l) as [l'|] eqn:E; [|rewrite length_app; simpl; lia].
  apply update_first_Some in E as (k & x & r & -> & _ & _ & ->). rewrite !length_app. simpl. lia.
Qed.

(** ** The invariant *)

Record sync_ok (s : SyncState) : Prop := {
  so_requests : NoDup (map rq_identifier (requested_pibd_segments s));
  so_headers : NoDup (map (fun i => (hr_identifier i, hr_peer_addr i)) (requested_pihd_header_segments s));
  so_rejected : NoDup (map (fun i => (rj_identifier i, rj_peer_addr i)) (rejected_pibd_segments s));
  so_rejected_len : (length (rejected_pibd_segments s) <= MAX_REJECTED_PIBD_SEGMENTS)%nat;
  so_peers : NoDup (map rp_peer_addr (rejected_pibd_peers s));
  so_peers_len : (length (rejected_pibd_peers s) <= MAX_REJECTED_PIBD_PEERS)%nat;
  so_counts : Forall (fun i => 1 <= rp_count i < 2 ^ 32) (rejected_pibd_peers s);
  so_pihd_len : (length (rejected_pihd_peers s) <= MAX_REJECTED_PIHD_PEERS)%nat;
  so_generation : u64 (pihd_header_cache_generation s);
}.

(** The calls that change it. *)
Inductive SyncOp : Type :=
| OReset
| OUpdate (x : SyncStatus)
| OUpdateIf (x : SyncStatus) (f : SyncStatus -> bool)
| OHeaderSync (t : Tip)
| ODownload (d : TxHashsetDownloadStats)
| OPibdProgress (aborted errored : bool) (leaves to_height : Z) (h : BlockHeader)
| OPibdLeaves (leaves : Z) (h : BlockHeader)
| OAddSegment (now : Z) (id : SegmentTypeIdentifier) (peer : Z) (archive : Ser.Hash)
| ORemoveSegment (id : SegmentTypeIdentifier)
| ORemoveFrom (id : SegmentTypeIdentifier) (peer : Z)
| ORemoveForArchive (id : SegmentTypeIdentifier) (peer : Z) (archive : Ser.Hash)
| ORemoveStale (now timeout : Z)
| OReject (now : Z) (id : SegmentTypeIdentifier) (peer : Z)
| OPrune (now secs : Z)
| OAddHeader (now : Z) (id : SegmentIdentifier) (peer target : Z)
| OMarkHeader (id : SegmentIdentifier) (peer : Z)
| ORemoveHeader (id : SegmentIdentifier) (peer : Z)
| ORejectHeader (id : SegmentIdentifier) (peer : Z)
| OTakeRejected
| ORetainHeaders (keep : PIHDHeaderSegmentContainer -> bool)
| OClearHeaders
| OSetError (e : CE.Error)
| OClearError.

Definition run_op (o : SyncOp) (s : SyncState) : SyncState :=
  match o with
  | OReset => sync_reset s
  | OUpdate x => snd (sync_update x s)
  | OUpdateIf x f => snd (update_if x f s)
  | OHeaderSync t => update_header_sync t s
  | ODownload d => update_txhashset_download d s
  | OPibdProgress a e l t h => update_pibd_progress a e l t h s
  | OPibdLeaves l h => update_pibd_leaf_progress l h s
  | OAddSegment now id peer a => add_pibd_segment now id peer a s
  | ORemoveSegment id => remove_pibd_segment id s
  | ORemoveFrom id peer => remove_pibd_segment_from id peer s
  | ORemoveForArchive id peer a => remove_pibd_segment_for_archive id peer a s
  | ORemoveStale now t => snd (remove_stale_pibd_requests now t s)
  | OReject now id peer => reject_pibd_segment_from now id peer s
  | OPrune now t => prune_rejected_pibd_segments now t s
  | OAddHeader now id peer t => add_pihd_header_segment now id peer t s
  | OMarkHeader id peer => mark_pihd_header_segment_responded id peer s
  | ORemoveHeader id peer => remove_pihd_header_segment id peer s
  | ORejectHeader id peer => reject_pihd_header_segment_from id peer s
  | OTakeRejected => snd (take_rejected_pihd_peers s)
  | ORetainHeaders keep => retain_pihd_header_segments keep s
  | OClearHeaders => clear_pihd_header_segments s
  | OSetError e => set_sync_error e s
  | OClearError => clear_sync_error s
  end.

Definition run_ops (l : list SyncOp) (s : SyncState) : SyncState := fold_left (fun s o => run_op o s) l s.

Lemma sync_new_ok : sync_ok sync_new.
Proof. split; simpl; try constructor; try lia; unfold u64, in_range; lia. Qed.

(** An operation that leaves the lists alone. *)
Lemma sync_ok_same s s' : sync_ok s -> requested_pibd_segments s' = requested_pibd_segments s ->
  requested_pihd_header_segments s' = requested_pihd_header_segments s ->
  rejected_pibd_segments s' = rejected_pibd_segments s -> rejected_pibd_peers s' = rejected_pibd_peers s ->
  rejected_pihd_peers s' = rejected_pihd_peers s -> pihd_header_cache_generation s' = pihd_header_cache_generation s ->
  sync_ok s'.
Proof. intros [] E1 E2 E3 E4 E5 E6. split; congruence. Qed.

Lemma requests_ok s l : sync_ok s -> NoDup (map rq_identifier l) -> sync_ok (set_requested l s).
Proof. intros [? ? ? ? ? ? ? ? ?] ?. by split. Qed.

Lemma headers_ok s l : sync_ok s -> NoDup (map (fun i => (hr_identifier i, hr_peer_addr i)) l) -> sync_ok (set_header_requests l s).
Proof. intros [? ? ? ? ? ? ? ? ?] ?. by split. Qed.

Lemma is_header_request_iff id peer i : is_header_request id peer i = true <-> (hr_identifier i, hr_peer_addr i) = (id, peer).
Proof. unfold is_header_request. rewrite andb_true_iff, !bool_decide_eq_true. split; [by intros [-> ->]|by intros [= -> ->]]. Qed.

Lemma status_ok x s : sync_ok s -> sync_ok (snd (update_with_guard x s)).
Proof. intros H. unfold update_with_guard. case_decide; [done|]. by eapply sync_ok_same. Qed.

Lemma reject_ok now id peer s : sync_ok s -> sync_ok (reject_pibd_segment_from now id peer s).
Proof.
  intros [H1 H2 H3 H4 H5 H6 H7 H8 H9]. unfold reject_pibd_segment_from. cbv zeta. split; cbn [requested_pibd_segments
    requested_pihd_header_segments rejected_pibd_segments rejected_pibd_peers rejected_pihd_peers
    pihd_header_cache_generation set_rejected set_requested remove_pibd_segment_from]; try done.
  - by apply retain_NoDup.
  - eapply sublist_NoDup; [|apply sublist_map_, drop_oldest_sublist]. rewrite map_app. apply NoDup_app.
    split; [by apply retain_NoDup|]. split; [|apply NoDup_singleton].
    intros b Hb ->%list_elem_of_singleton. apply elem_of_map in Hb as (x & E & Hx).
    apply list_elem_of_filter in Hx as [Hx _]. simpl in E. injection E as -> ->.
    by rewrite !bool_decide_eq_true_2 in Hx by done.
  - apply drop_oldest_length. rewrite length_app. simpl.
    pose proof (retain_length (fun i => negb (bool_decide (rj_identifier i = id)) || negb (bool_decide (rj_peer_addr i = peer)))
      (rejected_pibd_segments s)). lia.
  - eapply sublist_NoDup; [|apply sublist_map_, drop_oldest_sublist].
    apply (upsert_NoDup _ _ _ _ peer); [intros x; apply bool_decide_eq_true|intros x; cbn; by rewrite bool_decide_eq_true|done|done].
  - apply drop_oldest_length. etransitivity; [apply upsert_length|]. lia.
  - eapply Forall_sublist_; [apply drop_oldest_sublist|]. destruct (update_first _ _ _) as [l|] eqn:E.
    + apply update_first_Some in E as (k & x & r & E & _ & _ & ->). rewrite E in H7.
      apply Forall_app in H7 as [Hk Hr]. apply Forall_cons in Hr as [Hx Hr]. apply Forall_app. split; [done|].
      constructor; [|done]. cbn. unfold sat_add32. lia.
    + apply Forall_app. split; [done|]. apply Forall_singleton. cbn. lia.
Qed.

Lemma run_op_ok o s : sync_ok s -> sync_ok (run_op o s).
Proof.
  intros H. pose proof H as [H1 H2 H3 H4 H5 H6 H7 H8 H9].
  destruct o; cbn [run_op]; try (by eapply sync_ok_same); try (by apply status_ok).
  - unfold update_if. destruct (f _); [by apply status_ok|done].
  - unfold update_header_sync. by destruct (current s).
  - unfold update_pibd_leaf_progress. destruct (current s); by eapply sync_ok_same.
  - apply requests_ok; [done|].
    apply (upsert_NoDup _ _ _ _ id); [intros x; apply bool_decide_eq_true|done|done|done].
  - apply requests_ok; [done|]. by apply retain_NoDup.
  - apply requests_ok; [done|]. by apply retain_NoDup.
  - apply requests_ok; [done|]. by apply retain_NoDup.
  - apply requests_ok; [done|]. by apply retain_NoDup.
  - by apply reject_ok.
  - split; try done; cbn.
    + by apply retain_NoDup.
    + etransitivity; [apply retain_length|done].
    + by apply retain_NoDup.
    + etransitivity; [apply retain_length|done].
    + by apply retain_Forall.
  - apply headers_ok; [done|]. apply (upsert_NoDup _ _ _ _ (id, peer)); [intros x; apply is_header_request_iff|done|done|done].
  - apply headers_ok; [done|]. destruct (update_first _ _ _) as [l|] eqn:E; [|done]. cbn [default].
    apply update_first_Some in E as (k & x & r & E & _ & _ & ->). rewrite E in H2.
    unfold Datatypes.id. rewrite map_app in *. exact H2.
  - apply headers_ok; [done|]. by apply retain_NoDup.
  - unfold reject_pihd_header_segment_from, remove_pihd_header_segment. cbv zeta.
    split; cbn [requested_pibd_segments requested_pihd_header_segments rejected_pibd_segments rejected_pibd_peers
      rejected_pihd_peers pihd_header_cache_generation set_rejected_pihd set_header_requests]; try done.
    + by apply retain_NoDup.
    + apply drop_oldest_length. rewrite length_app. simpl. lia.
  - split; try done. cbn. lia.
  - apply headers_ok; [done|]. by apply retain_NoDup.
  - split; try done; cbn.
    + constructor.
    + unfold add64, wrap, u64, in_range. apply Z.mod_pos_bound. lia.
Qed.

Lemma run_ops_ok l s : sync_ok s -> sync_ok (run_ops l s).
Proof. revert s. induction l as [|o l IH]; intros s H; [done|]. apply IH, run_op_ok, H. Qed.

(** ** Rejections *)

Definition strikes (n : Z) (now peer : Z) (s : SyncState) : Prop :=
  exists x, x ∈ rejected_pibd_peers s /\ rp_peer_addr x = peer /\ rp_time x = now /\ n <= rp_count x.

(** The last entry is not the one that is dropped. *)
Lemma drop_oldest_last {A} n (l : list A) x : (0 < n)%nat -> x ∈ drop_oldest n (l ++ [x]).
Proof.
  intros Hn. unfold drop_oldest. destruct (Nat.ltb_spec n (length (l ++ [x]))) as [H|H].
  - rewrite length_app in H. simpl in H. destruct l as [|y l]; simpl in *; [lia|]. apply elem_of_app. right. by left.
  - apply elem_of_app. right. by left.
Qed.

Lemma drop_oldest_fits {A} n (l : list A) : (length l <= n)%nat -> drop_oldest n l = l.
Proof. intros H. unfold drop_oldest. destruct (Nat.ltb_spec n (length l)); [lia|done]. Qed.

Lemma reject_strike now id peer s : strikes 1 now peer (reject_pibd_segment_from now id peer s) \/ 
  exists l, update_first (fun i => bool_decide (rp_peer_addr i = peer))
    (fun i => mkRejectedPeer (rp_peer_addr i) now (sat_add32 (rp_count i) 1)) (rejected_pibd_peers s) = Some l.
Proof.
  unfold reject_pibd_segment_from. cbv zeta.
  cbn [rejected_pibd_peers remove_pibd_segment_from set_requested set_rejected]. unfold strikes. cbn [rejected_pibd_peers set_rejected].
  destruct (update_first _ _ _) as [l|]; [right; eauto|left].
  eexists. split; [apply drop_oldest_last; unfold MAX_REJECTED_PIBD_PEERS; lia|]. split_and!; [done|done|simpl; lia].
Qed.

(** One rejection more. *)
Lemma reject_again n t now id peer s : sync_ok s -> n < 2 ^ 32 - 1 -> strikes n t peer s ->
  strikes (n + 1) now peer (reject_pibd_segment_from now id peer s).
Proof.
  intros Hs Hn (x & Hx & Hp & _ & Hc). destruct Hs as [_ _ _ _ Hnd Hl _ _ _].
  unfold reject_pibd_segment_from. cbv zeta.
  cbn [rejected_pibd_peers remove_pibd_segment_from set_requested set_rejected]. unfold strikes. cbn [rejected_pibd_peers set_rejected].
  destruct (update_first _ _ _) as [l|] eqn:E.
  - apply update_first_Some in E as (k & y & r & E & Hy & Hk & ->). apply bool_decide_eq_true in Hy.
    assert (y = x) as ->.
    { rewrite E in Hx, Hnd. apply elem_of_app in Hx as [Hx|[->|Hx]%elem_of_cons]; [|done|].
      - rewrite Forall_forall in Hk. specialize (Hk x Hx). cbv beta in Hk. by rewrite bool_decide_eq_true_2 in Hk.
      - rewrite map_app in Hnd. apply NoDup_app in Hnd as (_ & _ & Hnd). simpl in Hnd. apply NoDup_cons in Hnd as [Hnd _].
        exfalso. apply Hnd. apply elem_of_map. exists x. split; [congruence|done]. }
    rewrite drop_oldest_fits by (rewrite E in Hl; rewrite !length_app in *; simpl in *; lia).
    exists (mkRejectedPeer (rp_peer_addr x) now (sat_add32 (rp_count x) 1)).
    split; [apply elem_of_app; right; by left|]. cbn. split_and!; [done|done|]. unfold sat_add32. lia.
  - apply update_first_None in E. rewrite Forall_forall in E. specialize (E x Hx). cbv beta in E.
    by rewrite bool_decide_eq_true_2 in E.
Qed.

Lemma first_strike now id peer s : sync_ok s -> strikes 1 now peer (reject_pibd_segment_from now id peer s).
Proof.
  intros Hs. destruct (reject_strike now id peer s) as [H|[l E]]; [done|].
  apply update_first_Some in E as (k & x & r & E & Hx & _). apply bool_decide_eq_true in Hx.
  change 1 with (0 + 1). apply (reject_again 0 (rp_time x)); [done|lia|]. exists x. split.
  - rewrite E. apply elem_of_app. right. by left.
  - split_and!; [done|done|]. destruct Hs as [_ _ _ _ _ _ Hc _ _]. rewrite E in Hc.
    apply Forall_app in Hc as [_ Hc]. apply Forall_cons in Hc as [Hc _]. lia.
Qed.

Lemma strikes_refused n t now peer id s : strikes n t peer s -> REJECTED_PIBD_PEER_THRESHOLD <= n ->
  now < t + REJECTED_SEGMENT_RETRY_SECS * NANOS -> rejected_pibd_segment_from_peer now id peer s = true.
Proof.
  intros (x & Hx & Hp & Ht & Hc) Hn Hlt. unfold rejected_pibd_segment_from_peer. cbv zeta. apply orb_true_iff. right.
  apply existsb_exists. exists x. split; [by apply list_elem_of_In|].
  rewrite bool_decide_eq_true_2 by done. simpl. apply andb_true_iff. split; [apply Z.ltb_lt|apply Z.leb_le]; lia.
Qed.

Lemma segment_refused t now peer id s : now < t + REJECTED_SEGMENT_RETRY_SECS * NANOS ->
  rejected_pibd_segment_from_peer now id peer (reject_pibd_segment_from t id peer s) = true.
Proof.
  intros Hlt. unfold rejected_pibd_segment_from_peer. cbv zeta. apply orb_true_iff. left.
  apply existsb_exists. exists (mkRejected id peer t). split.
  - apply list_elem_of_In. unfold reject_pibd_segment_from. cbv zeta. cbn [rejected_pibd_segments set_rejected].
    apply drop_oldest_last. unfold MAX_REJECTED_PIBD_SEGMENTS. lia.
  - cbn. rewrite !bool_decide_eq_true_2 by done. simpl. apply Z.ltb_lt. lia.
Qed.

(** ** Received segments *)

Section segments.
Context {CR : Crypto} {SU : SortUnstable} {NF : NrdFlag} (ct : ChainTypes).
Context {MH : Mmr BlockHeader HeaderEntry} {MO : Mmr OutputIdentifier OutputIdentifier}.
Context {MR : Mmr RangeProof RangeProof} {MK : Mmr TxKernel TxKernel}.
Context (eqb : BlockHeader -> BlockHeader -> bool) (genesis : BlockHeader) (now : Z).

(** Whatever comes of a segment, at most one thing happens to the requests. *)
Lemma process_queued_spec h q n r n' : process_queued_pibd_segment ct eqb genesis now h q n = Some (r, n') ->
  let id := segment_id (q_segment q) in
  match r with
  | Ok _ => sn_sync n' = remove_pibd_segment_for_archive id (q_peer_addr q) (q_archive_hash q) (sn_sync n)
  | Err _ => sn_sync n' = reject_pibd_segment_from now id (q_peer_addr q) (sn_sync n)
  end.
Proof.
  unfold process_queued_pibd_segment, bind, must, asks, on_sync, modify, lift. cbv zeta.
  destruct (header_hash ct h) as [hh|]; [|done]. destruct (bool_decide _); cbn [negb].
  - destruct (desegmenter eqb _ genesis h) as [d|]; [|done].
    destruct (add_segment _ _) as [[[[]|e] s]|]; [| |done]; cbn [is_ok]; intros [= <- <-]; done.
  - intros [= <- <-]. done.
Qed.

Lemma removed_not_pending id peer s : get_pibd_segment_archive_hash id peer (remove_pibd_segment_from id peer s) = None.
Proof.
  unfold get_pibd_segment_archive_hash, remove_pibd_segment_from. cbn [requested_pibd_segments set_requested].
  destruct (find _ _) as [x|] eqn:E; [|done]. exfalso. apply find_some in E as [Hx Hp].
  apply list_elem_of_In, list_elem_of_filter in Hx as [Hx _]. apply andb_true_iff in Hp as [H1 H2].
  by rewrite H1, H2 in Hx.
Qed.
End segments.

(** * Properties *)

(** The state of synchronisation is well formed after any sequence of calls:
    each segment is requested at most once, each header segment at most once of a
    peer; rejections are kept once for a segment and peer, 1024 of them at most,
    and once for a peer, for 1024 peers at most, with a count that does not
    overflow; at most 1024 failures of header segments are kept. Processing a
    received segment is such a call. *)
Theorem sync_state_sound l : sync_ok (run_ops l sync_new) /\
  forall (CR : Crypto) (SU : SortUnstable) (NF : NrdFlag) ct (MH : Mmr BlockHeader HeaderEntry)
    (MO : Mmr OutputIdentifier OutputIdentifier) (MR : Mmr RangeProof RangeProof) (MK : Mmr TxKernel TxKernel)
    eqb genesis now h q n r n', process_queued_pibd_segment ct eqb genesis now h q n = Some (r, n') ->
    sn_sync n = run_ops l sync_new -> exists o, sn_sync n' = run_ops (l ++ [o]) sync_new.
Proof.
  split; [apply run_ops_ok, sync_new_ok|]. intros CR SU NF ct MH MO MR MK eqb genesis now h q n r n' Hq E.
  apply process_queued_spec in Hq. unfold run_ops in *. setoid_rewrite fold_left_app. cbn [fold_left]. rewrite <- E. destruct r as [[]|e].
  - exists (ORemoveForArchive (segment_id (q_segment q)) (q_peer_addr q) (q_archive_hash q)). done.
  - exists (OReject now (segment_id (q_segment q)) (q_peer_addr q)). done.
Qed.

(** A peer that sent a bad segment is refused. A segment that does not
    validate is no longer pending from the peer that sent it, which is refused for
    this segment for the next ten minutes; after the third time it is refused for
    every segment, whatever happened before. *)
Theorem bad_segments_refused {CR : Crypto} {SU : SortUnstable} {NF : NrdFlag} ct
    {MH : Mmr BlockHeader HeaderEntry} {MO : Mmr OutputIdentifier OutputIdentifier}
    {MR : Mmr RangeProof RangeProof} {MK : Mmr TxKernel TxKernel} eqb genesis t h q n e n' :
  process_queued_pibd_segment ct eqb genesis t h q n = Some (Err e, n') -> sync_ok (sn_sync n) ->
  let id := segment_id (q_segment q) in
  let peer := q_peer_addr q in
  get_pibd_segment_archive_hash id peer (sn_sync n') = None /\
  (forall now, now < t + 600 * NANOS -> rejected_pibd_segment_from_peer now id peer (sn_sync n') = true) /\
  (forall t1 t2 id1 id2 s, sync_ok s ->
     sn_sync n = reject_pibd_segment_from t2 id2 peer (reject_pibd_segment_from t1 id1 peer s) ->
     forall any now, now < t + 600 * NANOS -> rejected_pibd_segment_from_peer now any peer (sn_sync n') = true).
Proof.
  intros H Hs. apply process_queued_spec in H. cbv zeta in H |- *. rewrite H. split; [|split].
  - apply removed_not_pending.
  - intros now Hnow. by apply segment_refused.
  - intros t1 t2 id1 id2 s Hok -> any now Hnow. eapply (strikes_refused 3 t); [|apply Z.le_refl|exact Hnow].
    apply (reject_again 2 t2); [by repeat apply reject_ok|lia|]. apply (reject_again 1 t1); [by apply reject_ok|lia|].
    by apply first_strike.
Qed.
