(* ===== verification/Node.v ===== *)
(** The node: what it does with messages, and how chain and pool work together.

    Models the adapters of [src/servers/src/common/adapters.rs]: what happens to a
    block, a header, a transaction or a segment that comes from a peer
    ([NetToChainAdapter]), and what happens to the pool when the chain accepts a
    block ([ChainToPoolAndNetAdapter]). The chain and the pool are those of [Chain]
    and [TransactionPool]; the pool sees the chain through [PoolToChainAdapter].

    Messages to peers are kept in a list, the latest last. The hooks, which only
    log, and the thread that compacts the chain from time to time are left out; so
    is the zip archive of the transaction hash set. The queue of received
    segments is a list, which the worker takes from the front. *)

From Stdlib Require Import ZArith Lia.
From stdpp Require Import base numbers option sorting list gmap.
From S2P Require Import Prelude Consensus PmmrIndex Pmmr Ser LinkedList Kernel CutThrough Transaction PowTypes Block Segments ChainTypes.
From S2P Require Import ChainStore BitmapAccumulator TxHashSet Pipe Chain Desegmenter SyncState Pool PoolSpec TransactionPool PoolChain.
Open Scope Z_scope.

(** ** Messages and peers *)

Inductive Message : Type :=
| MCompactBlock (b : CompactBlock)
| MHeader (h : BlockHeader)
| MBlockRequest (peer : Z) (hash : Ser.Hash) (opts : Z)
| MCompactBlockRequest (peer : Z) (hash : Ser.Hash)
| MTxRequest (peer : Z) (kernel_hash : Ser.Hash)
| MBan (peer : Z).

(** What is used of [PeerInfo]: the address, the height that the peer announced
    last, the capability to serve header segments, the protocol version. *)
Record PeerInfo : Type := mkPeerInfo { pi_addr : Z; pi_height : Z; pi_pihd_hist : bool; pi_version : Z }.

Inductive HeaderSegmentAcceptance : Type := Accepted | Ban.

Record PihdHeaderSegmentCacheEntry : Type := mkEntry_ {
  pc_id : SegmentIdentifier;
  pc_headers : list BlockHeader;
  pc_peer : PeerInfo;
}.

Record PihdHeaderCacheAnchor : Type := mkAnchor { an_height : Z; an_hash : Ser.Hash; an_generation : Z }.

(** ** Bounds *)

Definition KERNEL_SEGMENT_HEIGHT_RANGE : Z * Z := (9, 14).
Definition BITMAP_SEGMENT_HEIGHT_RANGE : Z * Z := (9, 14).
Definition OUTPUT_SEGMENT_HEIGHT_RANGE : Z * Z := (11, 16).
Definition RANGEPROOF_SEGMENT_HEIGHT_RANGE : Z * Z := (7, 12).
Definition WORKER_CHANNEL_BUFFER_SIZE : Z := 64.
Definition MAX_CACHED_PIHD_HEADER_SEGMENTS : Z := 16.
Definition MAX_IN_FLIGHT_SEGMENTS : Z := 8.
Definition PIHD_HEADER_CACHE_LOOKAHEAD_SEGMENTS : Z := MAX_IN_FLIGHT_SEGMENTS.
Definition HEADER_SEGMENT_REQUEST_WINDOW_SECS : Z := 60.
Definition MAX_HEADER_SEGMENT_REQUESTS_PER_WINDOW : Z := 500.
Definition MAX_BLOCK_HEADERS : Z := 512.
Definition PIHD_HEADER_SEGMENT_HEIGHT : Z := 9.

(** [Range::contains] *)
Definition in_span (r : Z * Z) (x : Z) : bool := (fst r <=? x) && (x <? snd r).

(** [checked_mul] and [checked_add] *)
Definition checked_mul64 (a b : Z) : option Z := if a * b <? 2 ^ 64 then Some (a * b) else None.
Definition checked_add64 (a b : Z) : option Z := if a + b <? 2 ^ 64 then Some (a + b) else None.

Definition pihd_header_segment_capacity : Z := segment_capacity (mkId PIHD_HEADER_SEGMENT_HEIGHT 0).
Definition next_pihd_header_segment_idx (height : Z) : Z := height / pihd_header_segment_capacity.
Definition pihd_header_segment_start_height (id : SegmentIdentifier) : option Z :=
  let! height := checked_mul64 (idx id) (segment_capacity id) in checked_add64 height 1.
Definition pihd_header_segment_end_height (id : SegmentIdentifier) : option Z :=
  let! height := checked_mul64 (idx id) (segment_capacity id) in checked_add64 height (segment_capacity id).

(** [Error::is_bad_data]. Errors of the index are errors of the store. *)
Definition is_bad_data (e : CE.Error) : bool :=
  match e with
  | CE.Unfit | CE.Orphan | CE.StoreErr | CE.TxHashSetErr _ | CE.Index _ | CE.Other => false
  | _ => true
  end.

Definition is_next (s : BlockStatus) : bool := match s with Next _ => true | _ => false end.
Definition is_reorg (s : BlockStatus) : bool := match s with Reorg _ _ _ => true | _ => false end.

Section node.
Context {CR : Crypto} {SU : SortUnstable} {NF : NrdFlag} {SH : SipHasher} (ct : ChainTypes).
Context {MH : Mmr BlockHeader HeaderEntry} {MO : Mmr OutputIdentifier OutputIdentifier}.
Context {MR : Mmr RangeProof RangeProof} {MK : Mmr TxKernel TxKernel}.
(** The proof of work verifier, the genesis block, the clock and the fee base. *)
Context (pv : BlockHeader -> bool) (genesis : Block) (now : Z) (fee_base : Z).
(** Which peers are connected, the adapter of the pool, the nonce of compact
    blocks, the equality of headers, and whether every block is to be validated. *)
Context (connected : Z -> bool) {PA : PoolAdapter} (nonce : Z) (eqb : BlockHeader -> BlockHeader -> bool) (every_block : bool).
(** Whether the thread that takes segments from the queue still runs. *)
Context (worker_runs : bool).

Record Node : Type := mkNode {
  n_chain : Chain;
  n_pool : TransactionPool;
  n_sync : SyncState;
  n_segmenter : option Segmenter;
  n_desegmenter : option Desegmenter;
  n_queue : list QueuedPIBDSegment;
  n_header_cache : list PihdHeaderSegmentCacheEntry;
  n_anchor : option PihdHeaderCacheAnchor;
  n_header_requests : gmap Z (Z * Z);
  n_sent : list Message;
}.

Definition set_n_chain x n := mkNode x (n_pool n) (n_sync n) (n_segmenter n) (n_desegmenter n) (n_queue n) (n_header_cache n) (n_anchor n) (n_header_requests n) (n_sent n).
Definition set_n_pool x n := mkNode (n_chain n) x (n_sync n) (n_segmenter n) (n_desegmenter n) (n_queue n) (n_header_cache n) (n_anchor n) (n_header_requests n) (n_sent n).
Definition set_n_sync x n := mkNode (n_chain n) (n_pool n) x (n_segmenter n) (n_desegmenter n) (n_queue n) (n_header_cache n) (n_anchor n) (n_header_requests n) (n_sent n).
Definition set_n_segmenter x n := mkNode (n_chain n) (n_pool n) (n_sync n) x (n_desegmenter n) (n_queue n) (n_header_cache n) (n_anchor n) (n_header_requests n) (n_sent n).
Definition set_n_desegmenter x n := mkNode (n_chain n) (n_pool n) (n_sync n) (n_segmenter n) x (n_queue n) (n_header_cache n) (n_anchor n) (n_header_requests n) (n_sent n).
Definition set_n_queue x n := mkNode (n_chain n) (n_pool n) (n_sync n) (n_segmenter n) (n_desegmenter n) x (n_header_cache n) (n_anchor n) (n_header_requests n) (n_sent n).
Definition set_n_cache x n := mkNode (n_chain n) (n_pool n) (n_sync n) (n_segmenter n) (n_desegmenter n) (n_queue n) x (n_anchor n) (n_header_requests n) (n_sent n).
Definition set_n_anchor x n := mkNode (n_chain n) (n_pool n) (n_sync n) (n_segmenter n) (n_desegmenter n) (n_queue n) (n_header_cache n) x (n_header_requests n) (n_sent n).
Definition set_n_requests x n := mkNode (n_chain n) (n_pool n) (n_sync n) (n_segmenter n) (n_desegmenter n) (n_queue n) (n_header_cache n) (n_anchor n) x (n_sent n).
Definition set_n_sent x n := mkNode (n_chain n) (n_pool n) (n_sync n) (n_segmenter n) (n_desegmenter n) (n_queue n) (n_header_cache n) (n_anchor n) (n_header_requests n) x.

Definition on_n_chain {A} (m : M Chain A) : M Node A := focus n_chain set_n_chain m.
Definition on_n_sync (f : SyncState -> SyncState) : M Node unit := modify (fun n => set_n_sync (f (n_sync n)) n).
Definition send (x : Message) : M Node unit := modify (fun n => set_n_sent (n_sent n ++ [x]) n).
Definition syncing : M Node bool := asks (fun n => is_syncing (n_sync n)).

(** An operation on the pool, on top of the chain as it is; its outcome is a
    value. *)
Definition on_pool (f : BlockChain -> TransactionPool -> option (result PoolError unit * TransactionPool))
    : M Node (result PoolError unit) := fun n =>
  match f (PoolToChainAdapter ct (n_chain n)) (n_pool n) with
  | None => None
  | Some (r, t) => Some (Ok r, set_n_pool t n)
  end.

(** ** The chain accepts a block *)

Definition block_accepted (e : Block * BlockStatus * Z) : M Node unit :=
  let '(b, status, opts) := e in
  (if negb (contains_option opts SYNC) then
     if contains_option opts MINE then let* cb := must (compact_of_block ct nonce b) in send (MCompactBlock cb)
     else send (MHeader (header b))
   else ret tt) ;*
  (if is_next status || is_reorg status then
     let* _ := on_pool (fun bc t => tp_reconcile_block ct (BC := bc) t b) in
     modify (fun n =>
       let cutoff := now - reorg_cache_period (config (n_pool n)) * 60 * NANOS in
       set_n_pool (truncate_reorg_cache cutoff (n_pool n)) n)
   else ret tt) ;*
  (if is_reorg status then
     let* _ := on_pool (fun bc t => reconcile_reorg_cache ct (BC := bc) t (header b)) in ret tt
   else ret tt).

(** An operation of the chain that may accept a block, and what follows. *)
Definition notified {A} (m : M Chain A) : M Node A :=
  let* k := asks (fun n => length (c_accepted (n_chain n))) in
  let* r := try (on_n_chain m) in
  let* new := asks (fun n => drop k (c_accepted (n_chain n))) in
  each block_accepted new ;*
  lift r.

(** [Chain::process_block]: the pool hears of each block before the next is tried. *)
Definition node_process_block_single (b : Block) (opts : Z) : M Node (option Tip) :=
  notified (process_block_single ct pv now b opts).

Fixpoint node_process_orphans (os : list Orphan) (height_accepted : option Z) : M Node (option Z) :=
  match os with
  | [] => ret height_accepted
  | o :: os =>
      let* res := try (node_process_block_single (or_block o) (or_opts o)) in
      node_process_orphans os (if is_ok res then Some (Block.height (header (or_block o))) else height_accepted)
  end.

Fixpoint node_check_orphans (fuel : nat) (height : Z) : M Node unit :=
  match fuel with
  | O => must None
  | S fuel =>
      let* (os, pool) := asks (fun n => remove_by_height height (c_orphans (n_chain n))) in
      on_n_chain (modify (set_orphans pool)) ;*
      match os with
      | None => ret tt
      | Some os =>
          let* accepted := node_process_orphans os None in
          match accepted with
          | Some height_accepted => node_check_orphans fuel (add64 height_accepted 1)
          | None => ret tt
          end
      end
  end.

Definition node_chain_process_block (b : Block) (opts : Z) : M Node (option Tip) :=
  let* res := try (node_process_block_single b opts) in
  (if is_ok res then
     let* fuel := asks (fun n => S (base.size (orphans (c_orphans (n_chain n))))) in
     node_check_orphans fuel (add64 (Block.height (header b)) 1)
   else ret tt) ;*
  lift res.

(** ** Requests *)

Definition send_tx_request_to_peer (h : Ser.Hash) (peer : PeerInfo) : M Node unit :=
  if connected (pi_addr peer) then send (MTxRequest (pi_addr peer) h) else ret tt.

Definition send_block_request_to_peer (h : Ser.Hash) (peer : PeerInfo) (msg : Message) : M Node unit :=
  let* exists_ := asks (fun n => block_exists h (db (n_chain n))) in
  if exists_ then ret tt
  else if connected (pi_addr peer) then send msg else ret tt.

Definition request_transaction (h : Ser.Hash) (peer : PeerInfo) : M Node unit := send_tx_request_to_peer h peer.

Definition request_block (bh : BlockHeader) (peer : PeerInfo) (opts : Z) : M Node unit :=
  let* h := must (header_hash ct bh) in send_block_request_to_peer h peer (MBlockRequest (pi_addr peer) h opts).

Definition request_compact_block (bh : BlockHeader) (peer : PeerInfo) : M Node unit :=
  let* h := must (header_hash ct bh) in send_block_request_to_peer h peer (MCompactBlockRequest (pi_addr peer) h).

(** ** Blocks *)

Definition validate_chain : M Node unit :=
  if every_block then
    let* hd := try (on_n_chain (from_db head)) in
    match hd with
    | Err _ => must None
    | Ok hd =>
        let* s := syncing in
        if (0 <? tip_height hd) && negb s then
          let* v := try (on_n_chain (chain_validate ct pv genesis true)) in
          if is_ok v then ret tt else must None
        else ret tt
    end
  else ret tt.

Definition node_process_block (b : Block) (peer : PeerInfo) (opts : Z) : M Node bool :=
  let* hd := on_n_chain (from_db head) in
  let horizon := sat_sub64 (tip_height hd) (cut_through_horizon ct) in
  if Block.height (header b) <? horizon then ret true
  else
    let* previous := try (on_n_chain (from_db (get_previous_header (header b)))) in
    let* res := try (node_chain_process_block b opts) in
    match res with
    | Ok _ => validate_chain ;* ret true
    | Err e =>
        if is_bad_data e then validate_chain ;* ret false
        else
          match e, previous with
          | CE.Orphan, Ok previous =>
              let* h := must (header_hash ct previous) in
              let* orphan := asks (fun n => orphans_contains h (c_orphans (n_chain n))) in
              let* s := syncing in
              (if negb orphan && negb s then request_block previous peer 0 else ret tt) ;* ret true
          | _, _ => ret true
          end
    end.

Definition block_received (b : Block) (peer : PeerInfo) (opts : Z) : M Node bool :=
  let* known := try (on_n_chain (is_known ct (header b))) in
  if is_ok known then node_process_block b peer opts else ret true.

Definition sync_status_is (x : SyncStatus) : M Node bool := asks (fun n => bool_decide (current (n_sync n) = x)).

Definition compact_block_received (cb : CompactBlock) (peer : PeerInfo) : M Node bool :=
  let* known := try (on_n_chain (is_known ct (cb_header cb))) in
  if negb (is_ok known) then ret true
  else if bool_decide (kern_ids (cb_body cb) = []) then
    match hydrate_from cb [] with
    | Ok block => node_process_block block peer 0
    | Err _ => ret false
    end
  else
    let* r := try (on_n_chain (chain_process_block_header ct pv (cb_header cb) 0)) in
    match r with
    | Err e => ret (negb (is_bad_data e))
    | Ok _ =>
        let* hash := must (header_hash ct (cb_header cb)) in
        let* (txs, missing_short_ids) := asks (fun n =>
          tp_retrieve_transactions (n_pool n) hash (cb_nonce cb) (kern_ids (cb_body cb))) in
        match missing_short_ids with
        | _ :: _ => request_block (cb_header cb) peer 0 ;* ret true
        | [] =>
            match hydrate_from cb txs with
            | Err _ => ret false
            | Ok block =>
                let* prev := try (on_n_chain (from_db (get_previous_header (cb_header cb)))) in
                match prev with
                | Err _ => ret true
                | Ok prev =>
                    if is_ok (block_validate ct block (total_kernel_offset prev)) then node_process_block block peer 0
                    else
                      let* no_sync := sync_status_is NoSync in
                      if no_sync then request_block (cb_header cb) peer 0 ;* ret true else ret true
                end
            end
        end
    end.

(** ** Transactions *)

Definition transaction_received (tx : Transaction) (stem : bool) : M Node bool :=
  let* s := syncing in
  if s then ret true
  else
    let* h := on_n_chain (from_db head_header) in
    let* r := on_pool (fun bc t => tp_add_to_pool ct (BC := bc) fee_base t now Broadcast tx stem h) in
    ret (is_ok r).

Definition get_transaction (kernel_hash : Ser.Hash) : M Node (option Transaction) :=
  asks (fun n => tp_retrieve_tx_by_kernel_hash (n_pool n) kernel_hash).

Definition tx_kernel_received (kernel_hash : Ser.Hash) (peer : PeerInfo) : M Node bool :=
  let* s := syncing in
  if s then ret true
  else
    let* tx := get_transaction kernel_hash in
    match tx with
    | None => request_transaction kernel_hash peer ;* ret true
    | Some _ => ret true
    end.

(** ** Headers *)

Definition header_received (bh : BlockHeader) (peer : PeerInfo) : M Node bool :=
  let* hash := must (header_hash ct bh) in
  let* exists_ := asks (fun n => block_exists hash (db (n_chain n))) in
  if exists_ then ret true
  else
    let* r := try (on_n_chain (chain_process_block_header ct pv bh 0)) in
    match r with
    | Err e => if is_bad_data e then ret false else throw e
    | Ok _ => request_compact_block bh peer ;* ret true
    end.

Definition process_header_batch (headers : list BlockHeader) (sync_head : Tip) : M Node bool :=
  let* r := try (on_n_chain (sync_block_headers ct pv headers sync_head SYNC)) in
  match r with
  | Ok (Some t) => on_n_sync (update_header_sync t) ;* ret true
  | Ok None => ret true
  | Err e => if is_bad_data e then ret false else throw e
  end.

Definition headers_received (bhs : list BlockHeader) (peer : PeerInfo) : M Node bool :=
  match bhs with
  | [] => ret false
  | _ =>
      let* status := asks (fun n => current (n_sync n)) in
      match status with
      | HeaderSync sync_head _ _ _ => process_header_batch bhs sync_head
      | _ => ret true
      end
  end.

(** The first hash of the locator that is on the chain of headers. *)
Fixpoint find_common_header (c : Chain) (locator : list Ser.Hash) : option BlockHeader :=
  match locator with
  | [] => None
  | hash :: locator =>
      match get_block_header hash (db c) with
      | Err _ => find_common_header c locator
      | Ok header =>
          match get_header_hash_by_height (Block.height header) (u_header (c_us c)) with
          | Err _ => find_common_header c locator
          | Ok hash_at_height =>
              match get_block_header hash_at_height (db c) with
              | Err _ => find_common_header c locator
              | Ok header_at_height =>
                  if bool_decide (header_hash ct header = header_hash ct header_at_height) then Some header
                  else find_common_header c locator
              end
          end
      end
  end.

(** The headers of consecutive heights, as far as they are known. *)
Fixpoint headers_from (c : Chain) (count : nat) (h max_height : Z) : result CE.Error (list BlockHeader) :=
  match count with
  | O => Ok []
  | S count =>
      if max_height <? h then Ok []
      else
        match get_header_hash_by_height h (u_header (c_us c)) with
        | Err _ => Ok []
        | Ok hash =>
            let? header := get_block_header hash (db c) in
            let? headers := headers_from c count (h + 1) max_height in
            Ok (header :: headers)
        end
  end.

Definition locate_headers (locator : list Ser.Hash) : M Node (list BlockHeader) :=
  let* c := asks n_chain in
  match find_common_header c locator with
  | None => ret []
  | Some header =>
      let* hd := on_n_chain (from_db header_head) in
      lift (headers_from c (Z.to_nat MAX_BLOCK_HEADERS) (Block.height header + 1) (tip_height hd))
  end.
(** ** Answers to requests *)

(** The window of a peer, and whether it may ask once more. *)
Definition header_segment_request_allowed (peer_addr : Z) : M Node bool := fun n =>
  let window := HEADER_SEGMENT_REQUEST_WINDOW_SECS * NANOS in
  let cutoff := now - window in
  let requests := filter (fun x => cutoff < fst (snd x)) (n_header_requests n) in
  let entry := default (now, 0) (requests !! peer_addr) in
  let entry := if fst entry + window <? now then (now, 0) else entry in
  if MAX_HEADER_SEGMENT_REQUESTS_PER_WINDOW <=? snd entry then
    Some (Ok false, set_n_requests (<[peer_addr := entry]> requests) n)
  else Some (Ok true, set_n_requests (<[peer_addr := (fst entry, snd entry + 1)]> requests) n).

Definition locate_header_segment (id : SegmentIdentifier) (peer : PeerInfo) : M Node (option (list BlockHeader)) :=
  if negb (pi_pihd_hist peer) || negb (Segments.height id =? PIHD_HEADER_SEGMENT_HEIGHT) then ret None
  else
    let* allowed := header_segment_request_allowed (pi_addr peer) in
    if negb allowed then ret None
    else
      match pihd_header_segment_start_height id with
      | None => ret None
      | Some start_height =>
          let* hd := on_n_chain (from_db header_head) in
          let max_height := tip_height hd in
          let end_height :=
            match checked_add64 start_height (segment_capacity id) with
            | Some height => Z.min (height - 1) max_height
            | None => max_height
            end in
          if end_height <? start_height then ret (Some [])
          else
            let* c := asks n_chain in
            let* headers := lift (headers_from c (Z.to_nat (end_height + 1 - start_height)) start_height end_height) in
            ret (Some headers)
      end.

(** Peers that only know version 2 of the protocol get no blocks. *)
Definition node_get_block (h : Ser.Hash) (peer : PeerInfo) : M Node (option Block) :=
  let* r := try (on_n_chain (from_db (get_block h))) in
  match r with
  | Ok b => ret (if pi_version peer <=? 2 then None else Some b)
  | Err _ => ret None
  end.

Definition txhashset_receive_ready : M Node bool :=
  asks (fun n => match current (n_sync n) with TxHashsetDownload _ => true | _ => false end).

Definition txhashset_download_update (start_time downloaded_size total_size : Z) : M Node bool :=
  let* status := asks (fun n => current (n_sync n)) in
  match status with
  | TxHashsetDownload prev =>
      on_n_sync (update_txhashset_download
        (mkStats start_time (update_time prev) now (SyncState.downloaded_size prev) downloaded_size total_size)) ;*
      ret true
  | _ => ret false
  end.

(** What the four requests for a segment have in common: the range of heights,
    the segmenter, and the header it is for. *)
Definition with_segmenter {A} (range : Z * Z) (hash : Ser.Hash) (id : SegmentIdentifier)
    (f : Segmenter -> M TxHashSet A) : M Node A :=
  if negb (in_span range (Segments.height id)) then throw CE.InvalidSegmentHeight
  else
    let* cached := asks n_segmenter in
    let* (g, cached) := on_n_chain (segmenter ct eqb cached) in
    modify (set_n_segmenter cached) ;*
    let* h := must (header_hash ct (sg_header g)) in
    if negb (bool_decide (h = hash)) then throw CE.SegmenterHeaderMismatch
    else on_n_chain (focus c_us set_us (focus u_trees (fun t u => mkUS (u_header u) t (u_batch u)) (f g))).

Definition get_kernel_segment (hash : Ser.Hash) (id : SegmentIdentifier) : M Node (Segment TxKernel Ser.Hash) :=
  with_segmenter KERNEL_SEGMENT_HEIGHT_RANGE hash id (fun g =>
    let* t := asks (fun t => t) in lift_seg (kernel_segment g id t)).

Definition get_bitmap_segment (hash : Ser.Hash) (id : SegmentIdentifier)
    : M Node (Segment BitmapChunk Ser.Hash * Ser.Hash) :=
  with_segmenter BITMAP_SEGMENT_HEIGHT_RANGE hash id (fun g => bitmap_segment g id).

Definition get_output_segment (hash : Ser.Hash) (id : SegmentIdentifier)
    : M Node (Segment OutputIdentifier Ser.Hash * Ser.Hash) :=
  with_segmenter OUTPUT_SEGMENT_HEIGHT_RANGE hash id (fun g => output_segment g id).

Definition get_rangeproof_segment (hash : Ser.Hash) (id : SegmentIdentifier) : M Node (Segment RangeProof Ser.Hash) :=
  with_segmenter RANGEPROOF_SEGMENT_HEIGHT_RANGE hash id (fun g =>
    let* t := asks (fun t => t) in lift_seg (rangeproof_segment g id t)).

(** ** Segments of the state that arrive *)

(** The queue of the worker has a bound; a segment that finds it full is dropped,
    and its request with it. *)
Definition queue_pibd_segment (segment : PIBDSegment) (peer : PeerInfo) : M Node bool :=
  let id := segment_id segment in
  let* rejected := asks (fun n => rejected_pibd_segment_from_peer now id (pi_addr peer) (n_sync n)) in
  if rejected then ret false
  else
    let* archive_hash := asks (fun n => get_pibd_segment_archive_hash id (pi_addr peer) (n_sync n)) in
    match archive_hash with
    | None => ret true
    | Some archive_hash =>
        let forget := on_n_sync (remove_pibd_segment_for_archive id (pi_addr peer) archive_hash) in
        if negb worker_runs then forget ;* on_n_sync (set_sync_error CE.SyncError) ;* ret true
        else
          let* full := asks (fun n => WORKER_CHANNEL_BUFFER_SIZE <=? Z.of_nat (length (n_queue n))) in
          if full then forget ;* ret true
          else
            modify (fun n => set_n_queue (n_queue n ++ [mkQueued (pi_addr peer) archive_hash segment]) n) ;*
            forget ;* ret true
    end.

Definition receive_bitmap_segment (block_hash output_root : Ser.Hash) (segment : Segment BitmapChunk Ser.Hash) (peer : PeerInfo) : M Node bool :=
  queue_pibd_segment (PBitmap block_hash output_root segment) peer.
Definition receive_output_segment (block_hash bitmap_root : Ser.Hash) (segment : Segment OutputIdentifier Ser.Hash) (peer : PeerInfo) : M Node bool :=
  queue_pibd_segment (POutput block_hash bitmap_root segment) peer.
Definition receive_rangeproof_segment (block_hash : Ser.Hash) (segment : Segment RangeProof Ser.Hash) (peer : PeerInfo) : M Node bool :=
  queue_pibd_segment (PRangeProof block_hash segment) peer.
Definition receive_kernel_segment (block_hash : Ser.Hash) (segment : Segment TxKernel Ser.Hash) (peer : PeerInfo) : M Node bool :=
  queue_pibd_segment (PKernel block_hash segment) peer.

(** [process_queued_pibd_segment] on the state of the node. *)
Definition node_process_queued (q : QueuedPIBDSegment) : M Node unit :=
  let* archive_header := on_n_chain (txhashset_archive_header_header_only ct) in
  focus (fun n => mkSyncNode (n_sync n) (c_us (n_chain n)) (n_desegmenter n))
    (fun s n => set_n_sync (sn_sync s) (set_n_desegmenter (sn_deseg s) (set_n_chain (set_us (sn_us s) (n_chain n)) n)))
    (process_queued_pibd_segment ct eqb (header genesis) now archive_header q).

(** One turn of the worker. A segment that makes it panic is rejected; the segment
    was not added then, and that a desegmenter may have been made is left out. *)
Definition net_adapter_worker : M Node unit := fun n =>
  match n_queue n with
  | [] => Some (Ok tt, n)
  | q :: rest =>
      let n := set_n_queue rest n in
      match node_process_queued q n with
      | Some (_, n) => Some (Ok tt, n)
      | None => Some (Ok tt, set_n_sync (reject_pibd_segment_from now (segment_id (q_segment q)) (q_peer_addr q) (n_sync n)) n)
      end
  end.

(** ** Header segments *)

Definition clear_pihd_header_cache : M Node unit := modify (fun n => set_n_cache [] (set_n_anchor None n)).

Definition clear_stale_pihd_header_cache : M Node unit :=
  let* reset := asks (fun n =>
    match n_anchor n with
    | Some prev => negb (an_generation prev =? pihd_header_cache_generation (n_sync n))
    | None => false
    end) in
  if reset then clear_pihd_header_cache else ret tt.

Definition forget_entries (l : list PihdHeaderSegmentCacheEntry) (s : SyncState) : SyncState :=
  fold_left (fun s e => remove_pihd_header_segment (pc_id e) (pi_addr (pc_peer e)) s) l s.

Definition cache_is_stale (a : option PihdHeaderCacheAnchor) (generation : Z) (sync_head : Tip) : bool :=
  match a with
  | None => false
  | Some prev =>
      negb (an_generation prev =? generation) || (tip_height sync_head <? an_height prev) ||
      ((tip_height sync_head =? an_height prev) && negb (bool_decide (last_block_h sync_head = an_hash prev)))
  end.

(** [u64::saturating_add] *)
Definition sat_add64 (a b : Z) : Z := Z.min (a + b) (2 ^ 64 - 1).

Definition prune_pihd_header_cache (sync_head : Tip) : M Node unit := modify (fun n =>
  let next_idx := next_pihd_header_segment_idx (tip_height sync_head) in
  let max_idx := sat_add64 next_idx PIHD_HEADER_CACHE_LOOKAHEAD_SEGMENTS in
  let generation := pihd_header_cache_generation (n_sync n) in
  let keep e := negb (cache_is_stale (n_anchor n) generation sync_head) &&
    (next_idx <=? idx (pc_id e)) && (idx (pc_id e) <=? max_idx) in
  set_n_sync (forget_entries (retain (fun e => negb (keep e)) (n_header_cache n)) (n_sync n))
    (set_n_cache (retain keep (n_header_cache n))
       (set_n_anchor (Some (mkAnchor (tip_height sync_head) (last_block_h sync_head) generation)) n))).

(** The position of the last element with a property, and the rest. *)
Fixpoint take_last {A} (p : A -> bool) (l : list A) : option (A * list A) :=
  match l with
  | [] => None
  | x :: l =>
      match take_last p l with
      | Some (y, l) => Some (y, x :: l)
      | None => if p x then Some (x, l) else None
      end
  end.

Fixpoint take_first {A} (p : A -> bool) (l : list A) : option (A * list A) :=
  match l with
  | [] => None
  | x :: l => if p x then Some (x, l) else match take_first p l with Some (y, l) => Some (y, x :: l) | None => None end
  end.

Definition cache_pihd_header_segment (id : SegmentIdentifier) (headers : list BlockHeader) (peer : PeerInfo) (sync_head : Tip)
    : M Node unit :=
  prune_pihd_header_cache sync_head ;*
  let next_idx := next_pihd_header_segment_idx (tip_height sync_head) in
  let forget := on_n_sync (remove_pihd_header_segment id (pi_addr peer)) in
  let responded := on_n_sync (mark_pihd_header_segment_responded id (pi_addr peer)) in
  let push cache := modify (set_n_cache (cache ++ [mkEntry_ id headers peer])) ;* responded in
  if idx id <? next_idx then forget
  else if sat_add64 next_idx PIHD_HEADER_CACHE_LOOKAHEAD_SEGMENTS <? idx id then forget
  else
    let* cache := asks n_header_cache in
    if existsb (fun e => bool_decide (pc_id e = id)) cache then responded
    else if MAX_CACHED_PIHD_HEADER_SEGMENTS <=? Z.of_nat (length cache) then
      let cache := merge_sort (fun a b => idx (pc_id a) <= idx (pc_id b)) cache in
      modify (set_n_cache cache) ;*
      match take_last (fun e => negb (idx (pc_id e) =? next_idx)) cache with
      | Some (evicted, cache) =>
          on_n_sync (remove_pihd_header_segment (pc_id evicted) (pi_addr (pc_peer evicted))) ;* push cache
      | None => forget
      end
    else push cache.

(** Each turn takes an entry out of the cache, so the fuel is its length. *)
Fixpoint process_ready_loop (fuel : nat) : M Node (option PeerInfo) :=
  let* status := asks (fun n => current (n_sync n)) in
  match status with
  | HeaderSync sync_head Pihd _ _ =>
      prune_pihd_header_cache sync_head ;*
      let next_id := mkId PIHD_HEADER_SEGMENT_HEIGHT (next_pihd_header_segment_idx (tip_height sync_head)) in
      let* cache := asks n_header_cache in
      match take_first (fun e => bool_decide (pc_id e = next_id)) cache with
      | None => ret None
      | Some (entry, cache) =>
          match fuel with
          | O => must None
          | S fuel =>
              modify (set_n_cache cache) ;*
              let reject := on_n_sync (reject_pihd_header_segment_from (pc_id entry) (pi_addr (pc_peer entry))) in
              let* accepted := try (process_header_batch (pc_headers entry) sync_head) in
              match accepted with
              | Err e => reject ;* throw e
              | Ok false => reject ;* ret (Some (pc_peer entry))
              | Ok true =>
                  on_n_sync (remove_pihd_header_segment (pc_id entry) (pi_addr (pc_peer entry))) ;*
                  process_ready_loop fuel
              end
          end
      end
  | _ => clear_pihd_header_cache ;* ret None
  end.

Definition process_ready_pihd_header_segments : M Node (option PeerInfo) :=
  let* fuel := asks (fun n => length (n_header_cache n)) in process_ready_loop fuel.

(** [headers.windows(2)]: heights go up by one, and every header names the one
    before it. *)
Fixpoint connected_headers (headers : list BlockHeader) : option bool :=
  match headers with
  | a :: (b :: _) as rest =>
      if negb (Block.height b =? add64 (Block.height a) 1) then Some false
      else
        let! hash := header_hash ct a in
        if bool_decide (prev_hash b = hash) then connected_headers rest else Some false
  | _ => Some true
  end.

Definition receive_header_segment (id : SegmentIdentifier) (headers : list BlockHeader) (peer : PeerInfo)
    : M Node HeaderSegmentAcceptance :=
  if negb (Segments.height id =? PIHD_HEADER_SEGMENT_HEIGHT) then ret Ban
  else
    let* target_height := asks (fun n => pihd_header_segment_target_height id (pi_addr peer) (n_sync n)) in
    match target_height with
    | None => clear_stale_pihd_header_cache ;* ret Accepted
    | Some target_height =>
        let reject := on_n_sync (reject_pihd_header_segment_from id (pi_addr peer)) ;* ret Accepted in
        match pihd_header_segment_start_height id, headers with
        | None, _ => ret Ban
        | Some _, [] => reject
        | Some expected_first_height, first :: _ =>
            if negb (Block.height first =? expected_first_height) then ret Ban
            else
              let* ok := must (connected_headers headers) in
              if negb ok then ret Ban
              else
                match pihd_header_segment_end_height id with
                | None => ret Ban
                | Some expected_last_height =>
                    let expected_last_height := Z.min expected_last_height (Z.min target_height (pi_height peer)) in
                    if (expected_first_height <=? target_height) &&
                       (Block.height (List.last headers first) <? expected_last_height) then reject
                    else
                      let* status := asks (fun n => current (n_sync n)) in
                      match status with
                      | HeaderSync sync_head _ _ _ =>
                          cache_pihd_header_segment id headers peer sync_head ;*
                          let* bad := process_ready_pihd_header_segments in
                          match bad with
                          | Some bad_peer =>
                              if pi_addr bad_peer =? pi_addr peer then ret Ban
                              else send (MBan (pi_addr bad_peer)) ;* ret Accepted
                          | None => ret Accepted
                          end
                      | _ => ret Accepted
                      end
                end
        end
    end.
End node.
