(* ===== verification/PipeSpec.v ===== *)
(** What the pipeline keeps.

    The frames of the operations of the chain: which parts of the state an
    operation can change at all, whatever its outcome. *)

From Stdlib Require Import ZArith Lia.
From stdpp Require Import base numbers option sorting gmap list.
From S2P Require Import Prelude Consensus PmmrIndex Pmmr Ser LinkedList Kernel CutThrough Transaction PowTypes Block ChainTypes.
From S2P Require Import ChainStore BitmapAccumulator TxHashSet Pipe Chain.
Open Scope Z_scope.

(** ** Runs *)

Lemma bind_Some {S A B} (m : M S A) (k : A -> M S B) s r s2 :
  bind m k s = Some (r, s2) <->
  (exists e, m s = Some (Err e, s2) /\ r = Err e) \/
  (exists a s1, m s = Some (Ok a, s1) /\ k a s1 = Some (r, s2)).
Proof.
  unfold bind. destruct (m s) as [[[a|e] s1]|]; split.
  - intros H. right. eauto.
  - intros [(e & E & _)|(a' & s1' & E & H)]; [done|]. by injection E as <- <-.
  - intros H. injection H as <- <-. left. eauto.
  - intros [(e' & E & ->)|(a' & s1' & E & _)]; [|done]. by injection E as <- <-.
  - done.
  - intros [(e' & E & _)|(a' & s1' & E & _)]; done.
Qed.

Lemma guard_Ok {S} b e (s : S) x s' : guard b e s = Some (Ok x, s') <-> b = true /\ s' = s.
Proof.
  unfold guard. destruct b; cbn; split.
  - unfold ret. intros H. by injection H.
  - intros [_ ->]. unfold ret. by destruct x.
  - done.
  - by intros [? _].
Qed.

Lemma lift_Ok {S A} (r : result CE.Error A) (s : S) a s' : lift r s = Some (Ok a, s') <-> r = Ok a /\ s' = s.
Proof. unfold lift. split; [intros H; by injection H as -> ->|by intros [-> ->]]. Qed.

Lemma gets_Ok {S A} (f : S -> result CE.Error A) (s : S) a s' : gets f s = Some (Ok a, s') <-> f s = Ok a /\ s' = s.
Proof. unfold gets. split; [intros H; by injection H as -> ->|by intros [-> ->]]. Qed.

Lemma must_Ok {S A} (o : option A) (s : S) a s' : must o s = Some (Ok a, s') <-> o = Some a /\ s' = s.
Proof.
  unfold must. destruct o as [x|]; split; try done.
  - intros H. injection H as -> ->. done.
  - intros [E ->]. by injection E as ->.
  - by intros [? _].
Qed.

Lemma asks_Some {S A} (f : S -> A) (s : S) r s' : asks f s = Some (r, s') <-> r = Ok (f s) /\ s' = s.
Proof. unfold asks. split; [intros H; by injection H as <- <-|by intros [-> ->]]. Qed.

Lemma try_Some {S A} (m : M S A) s r s' : try m s = Some (r, s') <-> exists x, r = Ok x /\ m s = Some (x, s').
Proof.
  unfold try. destruct (m s) as [[x s1]|]; split; try done.
  - intros H. injection H as <- <-. eauto.
  - intros (y & -> & E). by injection E as -> ->.
  - by intros (y & _ & ?).
Qed.

(** A part that must be there, with what is known of it. *)
Lemma keeps_must_in {S A B} (P : S -> Prop) (o : option A) (k : A -> M S B) :
  (forall a, o = Some a -> keeps P (k a)) -> keeps P (bind (must o) k).
Proof. intros Hk s r s' Hs H. destruct o as [a|]; [|done]. by apply (Hk a eq_refl s r s' Hs). Qed.

Lemma keeps_gets_in {S A B} (P : S -> Prop) (f : S -> result CE.Error A) (k : A -> M S B) :
  (forall s a, P s -> f s = Ok a -> keeps P (k a)) -> keeps P (bind (gets f) k).
Proof.
  intros Hk s r s' Hs H. unfold bind, gets in H. destruct (f s) as [a|e] eqn:E; [by eapply (Hk s a)|by injection H as _ <-].
Qed.

(** Take a successful run apart. *)
Ltac run_inv H :=
  repeat first
    [ apply bind_Ok in H as (? & ? & ?H & H)
    | match type of H with context [let '(_, _) := ?x in _] => destruct x end ].

(** ** Frames *)

Create HintDb keeps.
#[export] Hint Resolve keeps_ret keeps_throw keeps_lift keeps_must keeps_asks keeps_gets keeps_guard : keeps.

Ltac keeps_auto :=
  repeat match goal with
  | |- _ => solve [eauto 2 with keeps]
  | |- keeps _ (bind _ _) => apply keeps_bind; [|intros ?]
  | |- keeps _ (try _) => apply keeps_try
  | |- keeps _ (each _ _) => apply keeps_each; intros ?
  | |- keeps _ (collect _ _) => apply keeps_collect; intros ?
  | |- keeps _ (let '(_, _) := ?x in _) => destruct x
  | |- keeps _ (match ?x with _ => _ end) => destruct x
  end.

(** What a batch says of the chain: heads, headers and blocks. *)
Record chain_part : Type := mkPart {
  pt_head : option Tip; pt_tail : option Tip; pt_header_head : option Tip; pt_pibd : option Tip;
  pt_headers : gmap Ser.Hash BlockHeader; pt_blocks : gmap Ser.Hash Block;
}.
Definition part_of (b : Batch) : chain_part :=
  mkPart (db_head b) (db_tail b) (db_header_head b) (db_pibd_head b) (db_headers b) (db_blocks b).

(** All but the indices. *)
Definition frame_of (b : Batch) : chain_part * gmap Ser.Hash BlockSums := (part_of b, db_sums b).

Lemma frame_part b b' : frame_of b = frame_of b' -> part_of b = part_of b'.
Proof. intros E. exact (f_equal fst E). Qed.

Section frames.
Context {CR : Crypto} {SU : SortUnstable} {NF : NrdFlag} (ct : ChainTypes).
Context {MH : Mmr BlockHeader HeaderEntry} {MO : Mmr OutputIdentifier OutputIdentifier}.
Context {MR : Mmr RangeProof RangeProof} {MK : Mmr TxKernel TxKernel}.

(** *** Header extensions only change the header MMR *)

Definition same_batch (b : Batch) (s : HX) : Prop := hx_batch s = b.

Lemma on_current_keeps b t : keeps (same_batch b) (is_on_current_chain ct t).
Proof. unfold is_on_current_chain, hx_get_header_by_height. keeps_auto. Qed.
#[local] Hint Resolve on_current_keeps : keeps.

Lemma apply_header_keeps b h : keeps (same_batch b) (apply_header ct h).
Proof. unfold apply_header. keeps_auto. apply keeps_modify. by intros s. Qed.
#[local] Hint Resolve apply_header_keeps : keeps.

Lemma hx_rewind_keeps b h : keeps (same_batch b) (hx_rewind ct h).
Proof. unfold hx_rewind. keeps_auto. apply keeps_modify. by intros s. Qed.
#[local] Hint Resolve hx_rewind_keeps : keeps.

Lemma hx_validate_root_keeps b h : keeps (same_batch b) (hx_validate_root ct h).
Proof. unfold hx_validate_root. keeps_auto. Qed.
#[local] Hint Resolve hx_validate_root_keeps : keeps.

Lemma hx_force_rollback_keeps b : keeps (same_batch b) hx_force_rollback.
Proof. apply keeps_modify. by intros s. Qed.
#[local] Hint Resolve hx_force_rollback_keeps : keeps.

Lemma fork_loop_keeps b fuel h l : keeps (same_batch b) (fork_loop ct fuel h l).
Proof. revert h l. induction fuel as [|fuel IH]; intros h l; cbn [fork_loop]; keeps_auto. Qed.
#[local] Hint Resolve fork_loop_keeps : keeps.

Lemma allowed_keeps {S} (P : S -> Prop) ctx h : keeps P (validate_header_ctx ctx h).
Proof. unfold validate_header_ctx. keeps_auto. Qed.
#[local] Hint Resolve allowed_keeps : keeps.

Lemma header_fork_keeps ctx b h : keeps (same_batch b) (rewind_and_apply_header_fork ct ctx h).
Proof. unfold rewind_and_apply_header_fork. keeps_auto. Qed.

(** *** Extensions keep what the batch says of the chain

    Only the sums of blocks are changed besides the indices. *)

Definition same_frame (p : chain_part * gmap Ser.Hash BlockSums) (s : EX) : Prop := frame_of (x_batch s) = p.

Lemma on_ext_keeps p f : keeps (same_frame p) (on_ext f).
Proof. apply keeps_modify. by intros s. Qed.
#[local] Hint Resolve on_ext_keeps : keeps.

Lemma on_batch_keeps p f : (forall b, frame_of (f b) = frame_of b) -> keeps (same_frame p) (on_batch f).
Proof. intros Hf. apply keeps_modify. intros s Hs. unfold same_frame. cbn. by rewrite Hf. Qed.
#[local] Hint Extern 1 (keeps (same_frame _) (on_batch _)) => (apply on_batch_keeps; reflexivity) : keeps.

Lemma apply_output_keeps p o : keeps (same_frame p) (apply_output o).
Proof. unfold apply_output. keeps_auto. Qed.
#[local] Hint Resolve apply_output_keeps : keeps.

Lemma apply_input_keeps p c cp : keeps (same_frame p) (apply_input c cp).
Proof. unfold apply_input. keeps_auto. Qed.
#[local] Hint Resolve apply_input_keeps : keeps.

Lemma kernel_rules_frame k cp b b' : apply_kernel_rules k cp b = Ok b' -> frame_of b' = frame_of b.
Proof.
  unfold apply_kernel_rules. intros H. destruct (negb is_nrd_enabled); [by injection H as <-|].
  destruct (features k); try by injection H as <-.
  apply rbind_Ok in H as (prev & _ & H). apply rbind_Ok in H as ([] & _ & H).
  apply rbind_Ok in H as (st & _ & H). by injection H as <-.
Qed.

(** Replace the batch by one computed from it. *)
Lemma update_keeps p (f : Batch -> result CE.Error Batch) :
  (forall b b', f b = Ok b' -> frame_of b' = frame_of b) ->
  keeps (same_frame p) (let* b := asks x_batch in let* b := lift (f b) in on_batch (fun _ => b)).
Proof.
  intros Hf s r s' Hs H. unfold bind, asks, lift, on_batch, modify in H.
  destruct (f (x_batch s)) as [b'|] eqn:E; injection H as <- <-; [|done].
  unfold same_frame. cbn. by rewrite (Hf _ _ E).
Qed.

Lemma apply_kernels_keeps p ks h : keeps (same_frame p) (apply_kernels ks h).
Proof.
  unfold apply_kernels, apply_kernel. apply keeps_each. intros k. apply keeps_bind; [keeps_auto|intros pos].
  apply update_keeps. apply kernel_rules_frame.
Qed.
#[local] Hint Resolve apply_kernels_keeps : keeps.

Lemma accumulator_keeps p l : keeps (same_frame p) (apply_to_bitmap_accumulator l).
Proof. unfold apply_to_bitmap_accumulator. keeps_auto. Qed.
#[local] Hint Resolve accumulator_keeps : keeps.

Lemma apply_block_keeps p b : keeps (same_frame p) (apply_block ct b).
Proof. unfold apply_block. keeps_auto. Qed.
#[local] Hint Resolve apply_block_keeps : keeps.

Lemma rewind_mmrs_keeps p o k l : keeps (same_frame p) (rewind_mmrs_to_pos o k l).
Proof. unfold rewind_mmrs_to_pos. keeps_auto. Qed.
#[local] Hint Resolve rewind_mmrs_keeps : keeps.

Lemma nrd_rewind_keeps p c pos :
  keeps (same_frame p) (let* batch := asks x_batch in let* r := must (nrd_rewind c pos batch) in
    let* batch := lift r in on_batch (fun _ => batch)).
Proof.
  intros s r s' Hs H. unfold bind, asks, must, lift, on_batch, modify, nrd_rewind in H.
  destruct (LinkedList.rewind _ _ _ _) as [x|]; [|done]. cbn [mbind option_bind] in H.
  destruct (idx_err x) as [st|]; cbn in H; injection H as <- <-; done.
Qed.
#[local] Hint Resolve nrd_rewind_keeps : keeps.

Lemma unspend_keeps p cp : keeps (same_frame p) (unspend cp).
Proof. unfold unspend. keeps_auto. Qed.
#[local] Hint Resolve unspend_keeps : keeps.

Lemma rewind_single_keeps p b : keeps (same_frame p) (rewind_single_block ct b).
Proof.
  unfold rewind_single_block. keeps_auto.
Qed.
#[local] Hint Resolve rewind_single_keeps : keeps.

Lemma rewind_loop_keeps p fuel target h l : keeps (same_frame p) (rewind_loop ct fuel target h l).
Proof. revert h l. induction fuel as [|fuel IH]; intros h l; cbn [rewind_loop]; keeps_auto. Qed.
#[local] Hint Resolve rewind_loop_keeps : keeps.

Lemma ex_rewind_keeps p h : keeps (same_frame p) (ex_rewind ct h).
Proof. unfold ex_rewind. keeps_auto. Qed.
#[local] Hint Resolve ex_rewind_keeps : keeps.

(** A header operation that leaves the batch alone does so in a pair. *)
Lemma in_header_keeps {A} p (m : M HX A) : (forall b, keeps (same_batch b) m) -> keeps (same_frame p) (in_header m).
Proof.
  intros Hm. apply keeps_focus. intros s Hs. split; [|done].
  intros t r t' Ht E. unfold same_frame in *. cbn in *. rewrite <- Ht. f_equal. by apply (Hm (hx_batch t) t r t').
Qed.

Lemma common_loop_keeps p fuel h : keeps (same_frame p) (common_loop ct fuel h).
Proof.
  revert h. induction fuel as [|fuel IH]; intros h; cbn [common_loop]; keeps_auto;
    apply in_header_keeps; intros b; apply on_current_keeps.
Qed.
#[local] Hint Resolve common_loop_keeps : keeps.

Lemma since_loop_keeps p fuel fh h l : keeps (same_frame p) (since_loop ct fuel fh h l).
Proof. revert h l. induction fuel as [|fuel IH]; intros h l; cbn [since_loop]; keeps_auto. Qed.
#[local] Hint Resolve since_loop_keeps : keeps.

Lemma to_txhashset_keeps p b : keeps (same_frame p) (apply_block_to_txhashset ct b).
Proof. unfold apply_block_to_txhashset, validate_roots, validate_sizes. keeps_auto. Qed.

Lemma maturity_keeps p b : keeps (same_frame p) (verify_coinbase_maturity ct b).
Proof. unfold verify_coinbase_maturity. keeps_auto. Qed.

Lemma utxo_keeps p b : keeps (same_frame p) (validate_utxo b).
Proof. unfold validate_utxo. keeps_auto. Qed.


(** *** Blocks on top of a fork, for any property of the batch *)

Section forks.
Context (Q : Batch -> Prop) (HQ : forall b b', frame_of b = frame_of b' -> Q b -> Q b').

(** A property of the batch of an extension. *)
Definition ext_batch_is (s : EX) : Prop := Q (x_batch s).

Lemma keeps_same_frame {A} (m : M EX A) : (forall f, keeps (same_frame f) m) -> keeps ext_batch_is m.
Proof.
  intros Hm s r s' Hs E. unfold ext_batch_is in *. eapply HQ; [|exact Hs].
  symmetry. exact (Hm (frame_of (x_batch s)) s r s' eq_refl E).
Qed.

Context (Hsums : forall b, keeps ext_batch_is (verify_block_sums ct b)).

Lemma reapply_keeps b : keeps ext_batch_is (reapply_block ct b).
Proof.
  unfold reapply_block. apply keeps_bind; [apply keeps_same_frame; intros f; apply maturity_keeps|intros []].
  apply keeps_bind; [apply keeps_same_frame; intros f; apply utxo_keeps|intros _].
  apply keeps_bind; [apply Hsums|intros []]. apply keeps_same_frame. intros f. apply to_txhashset_keeps.
Qed.

Lemma fork_keeps_any ctx h : keeps ext_batch_is (rewind_and_apply_fork ct ctx h).
Proof.
  unfold rewind_and_apply_fork.
  apply keeps_bind; [apply keeps_same_frame; intros f; apply in_header_keeps; intros b; apply header_fork_keeps|intros []].
  apply keeps_bind; [apply keeps_gets|intros cur].
  apply keeps_bind; [apply keeps_same_frame; intros f; apply common_loop_keeps|intros fp].
  apply keeps_bind; [apply keeps_same_frame; intros f; apply ex_rewind_keeps|intros []].
  apply keeps_bind; [apply keeps_same_frame; intros f; apply since_loop_keeps|intros hs].
  apply keeps_bind; [|intros []; apply keeps_ret]. apply keeps_each. intros k.
  apply keeps_bind; [apply keeps_gets|intros fb]. apply reapply_keeps.
Qed.

Lemma process_ext_keeps_any ctx b prev : keeps ext_batch_is (process_block_ext ct ctx b prev).
Proof.
  unfold process_block_ext. apply keeps_bind; [apply fork_keeps_any|intros fp].
  apply keeps_bind; [apply keeps_same_frame; intros f; apply maturity_keeps|intros []].
  apply keeps_bind; [apply keeps_same_frame; intros f; apply utxo_keeps|intros _].
  apply keeps_bind; [apply Hsums|intros []].
  apply keeps_bind; [apply keeps_same_frame; intros f; apply to_txhashset_keeps|intros []].
  apply keeps_bind; [apply keeps_gets|intros hd].
  apply keeps_bind; [destruct (negb _); [unfold ex_force_rollback; by apply keeps_modify|apply keeps_ret]|intros []]. apply keeps_ret.
Qed.
End forks.

(** The heads, headers and blocks are the same throughout. *)
Definition same_part (p : chain_part) (s : EX) : Prop := part_of (x_batch s) = p.

Lemma keeps_frame_part {A} p (m : M EX A) : (forall f, keeps (same_frame f) m) -> keeps (same_part p) m.
Proof.
  apply (keeps_same_frame (fun b => part_of b = p)). intros b b' E%frame_part. by rewrite E.
Qed.

Lemma block_sums_keeps p b : keeps (same_part p) (verify_block_sums ct b).
Proof.
  unfold verify_block_sums. apply keeps_bind; [apply keeps_gets|intros s]. apply keeps_bind; [apply keeps_lift|intros [us ks]].
  apply keeps_bind; [apply keeps_must|intros k]. by apply keeps_modify.
Qed.

Lemma fork_keeps p ctx h : keeps (same_part p) (rewind_and_apply_fork ct ctx h).
Proof.
  apply (fork_keeps_any (fun b => part_of b = p)); [|intros b; apply block_sums_keeps].
  intros b b' E%frame_part. by rewrite E.
Qed.

Lemma process_ext_keeps p ctx b prev : keeps (same_part p) (process_block_ext ct ctx b prev).
Proof.
  apply (process_ext_keeps_any (fun b => part_of b = p)); [|intros b'; apply block_sums_keeps].
  intros b1 b' E%frame_part. by rewrite E.
Qed.

End frames.

(** *** Units of work and batches *)

Section units.
Context {CR : Crypto} {SU : SortUnstable} {NF : NrdFlag} (ct : ChainTypes).
Context {MH : Mmr BlockHeader HeaderEntry} {MO : Mmr OutputIdentifier OutputIdentifier}.
Context {MR : Mmr RangeProof RangeProof} {MK : Mmr TxKernel TxKernel}.
Context (Q : Batch -> Prop).

(** A property of the batch, of each state that has one. *)
Definition batch_is (u : US) : Prop := Q (u_batch u).
Abbreviation ext_batch_is := (ext_batch_is Q).
Definition hx_batch_is (s : HX) : Prop := Q (hx_batch s).

(** What holds of everything that keeps a batch as it is. *)
Lemma keeps_same_batch {A} (m : M HX A) : (forall b, keeps (same_batch b) m) -> keeps hx_batch_is m.
Proof.
  intros Hm s r s' Hs E. unfold hx_batch_is in *.
  assert (hx_batch s' = hx_batch s) as -> by exact (Hm (hx_batch s) s r s' eq_refl E). done.
Qed.

Lemma keeps_same_part {A} (m : M EX A) :
  (forall b b', part_of b = part_of b' -> Q b -> Q b') -> (forall p, keeps (same_part p) m) -> keeps ext_batch_is m.
Proof.
  intros HQ Hm s r s' Hs E. unfold ext_batch_is in *. eapply HQ; [|exact Hs].
  symmetry. exact (Hm (part_of (x_batch s)) s r s' eq_refl E).
Qed.

Lemma extending_keeps {A} (inner : M EX A) : keeps ext_batch_is inner -> keeps batch_is (extending inner).
Proof.
  intros Hi u r u' Hu H. unfold batch_is in *. unfold extending in H.
  destruct (head (u_batch u)) as [hd|]; [|by injection H as _ <-].
  destruct (header_head (u_batch u)) as [hhd|]; [|by injection H as _ <-].
  destruct (inner _) as [[res s]|] eqn:E; [|done]. apply Hi in E; [|exact Hu]. unfold ext_batch_is in E.
  destruct (discard_handle _ _) as [h|]; [|done]. cbn [mbind option_bind] in H.
  destruct res as [a|e].
  - destruct (ex_rollback (x_ext s)).
    + destruct (discard_trees _ _); [|done]. by injection H as _ <-.
    + destruct (ex_sizes (x_ext s)) as [[so sr] sk].
      destruct (sync_handle (output_pmmr (x_ext s)) so) as [?|]; cbn [rbind] in H; [|by injection H as _ <-].
      destruct (sync_handle (rproof_pmmr (x_ext s)) sr) as [?|]; cbn [rbind] in H; [|by injection H as _ <-].
      destruct (sync_handle (kernel_pmmr (x_ext s)) sk) as [?|]; cbn [rbind] in H; by injection H as _ <-.
  - destruct (discard_trees _ _); [|done]. by injection H as _ <-.
Qed.

Lemma extending_readonly_keeps {A} store (inner : M EX A) : keeps batch_is (extending_readonly store inner).
Proof.
  intros u r u' Hu H. unfold batch_is in *. unfold extending_readonly in H.
  destruct (head store) as [hd|]; [|by injection H as _ <-].
  destruct (header_head store) as [hhd|]; [|by injection H as _ <-].
  destruct (inner _) as [[res s]|] eqn:E; [|done]. cbn [mbind option_bind] in H.
  destruct (discard_handle _ _) as [h|]; [|done]. cbn [mbind option_bind] in H.
  destruct (discard_trees _ _); [|done]. by injection H as _ <-.
Qed.

Lemma header_extending_keeps {A} (inner : M HX A) :
  keeps hx_batch_is inner -> keeps (fun '(_, b) => Q b) (header_extending ct inner).
Proof.
  intros Hi [h b] r [h' b'] Hb H. unfold header_extending in H.
  destruct (header_mmr_tip ct h b) as [[hd|e]|]; [..|done]; cbn [mbind option_bind] in H; [|by injection H as _ _ <-].
  destruct (inner _) as [[res s]|] eqn:E; [|done]. apply Hi in E; [|exact Hb]. unfold hx_batch_is in E.
  cbn [mbind option_bind] in H. destruct res as [a|e].
  - destruct (hx_rollback (hx_ext s)).
    + destruct (discard_handle _ _); [|done]. by injection H as _ _ <-.
    + destruct (sync_handle _ _); by injection H as _ _ <-.
  - destruct (discard_handle _ _); [|done]. by injection H as _ _ <-.
Qed.

Lemma on_header_keeps {A} (m : M (PMMR (mmr BlockHeader HeaderEntry) * Batch) A) :
  keeps (fun '(_, b) => Q b) m -> keeps batch_is (on_header m).
Proof.
  intros Hm. apply keeps_focus. intros u Hu. split; [|exact Hu]. intros [h b] r [h' b'] Hb E. exact (Hm (h, b) r (h', b') Hb E).
Qed.

(** A header unit of work whose inside keeps the batch. *)
Lemma header_unit_keeps {A} (inner : M HX A) :
  keeps hx_batch_is inner -> keeps batch_is (on_header (header_extending ct inner)).
Proof. intros Hi. by apply on_header_keeps, header_extending_keeps. Qed.

Lemma put_batch_keeps f : (forall b, Q b -> Q (f b)) -> keeps batch_is (put_batch f).
Proof. intros Hf. apply keeps_modify. intros u Hu. by apply Hf. Qed.

Lemma put_batch_opt_keeps f : (forall b b', f b = Some b' -> Q b -> Q b') -> keeps batch_is (put_batch_opt f).
Proof.
  intros Hf u r u' Hu H. unfold put_batch_opt, bind, asks, must, put_batch, modify in H.
  destruct (f (u_batch u)) as [b|] eqn:E; [|done]. injection H as <- <-. by eapply Hf.
Qed.

Lemma committing_keeps {A} (m : M US A) : keeps batch_is m -> keeps batch_is (committing m).
Proof.
  intros Hm u r u' Hu H. unfold committing in H. destruct (m u) as [[[a|e] u1]|] eqn:E; [..|done].
  - injection H as <- <-. by eapply Hm.
  - by injection H as <- <-.
Qed.

Lemma dropping_keeps {A} (m : M US A) : keeps batch_is (dropping m).
Proof.
  intros u r u' Hu H. unfold dropping in H. destruct (m u) as [[r1 u1]|] eqn:E; [|done]. by injection H as <- <-.
Qed.

End units.
