(* ===== verification/NodeSpec.v ===== *)
(** What a node promises.

    The chain does not notice the pool, the pool follows the chain, and what peers
    can make a node keep is bounded. *)

From Stdlib Require Import ZArith Lia.
From stdpp Require Import base numbers option sorting list gmap relations.
From S2P Require Import Prelude Consensus PmmrIndex Pmmr Ser LinkedList Kernel CutThrough Transaction PowTypes Block Segments ChainTypes.
From S2P Require Import ChainStore BitmapAccumulator TxHashSet Pipe Chain Desegmenter SyncState SyncSpec Pool PoolSpec TransactionPool TransactionPoolSpec PoolChain Node PipeSpec.
Open Scope Z_scope.

Section node.
Context {CR : Crypto} {SU : SortUnstable} {NF : NrdFlag} {SH : SipHasher} (ct : ChainTypes).
Context {MH : Mmr BlockHeader HeaderEntry} {MO : Mmr OutputIdentifier OutputIdentifier}.
Context {MR : Mmr RangeProof RangeProof} {MK : Mmr TxKernel TxKernel}.
Context (pv : BlockHeader -> bool) (genesis : Block) (now : Z).
Context {PA : PoolAdapter} (nonce : Z).

(** ** The pool *)

(** The pools are sound on top of the chain of the node. *)
Definition pool_sound (n : Node) : Prop :=
  both_sound (BC := PoolToChainAdapter ct (n_chain n)) (CL := chain_laws ct (n_chain n)) (n_pool n).

Lemma on_pool_Some f n r n' : on_pool ct f n = Some (r, n') ->
  exists x t, f (PoolToChainAdapter ct (n_chain n)) (n_pool n) = Some (x, t) /\ r = Ok x /\ n' = set_n_pool t n.
Proof. unfold on_pool. destruct (f _ _) as [[x t]|]; [|done]. intros H. injection H as <- <-. eauto. Qed.

(** ** A block was accepted *)

Abbreviation accepted := (block_accepted ct now nonce).

Lemma block_accepted_spec b st opts n r n' : accepted (b, st, opts) n = Some (r, n') ->
  r = Ok tt /\ n_chain n' = n_chain n /\
  if is_next st || is_reorg st then pool_sound n' else n_pool n' = n_pool n.
Proof.
  unfold block_accepted. intros H. apply bind_Some in H as [(e & H & _)|([] & n1 & H1 & H)].
  { exfalso. destruct (contains_option opts SYNC); cbn [negb] in H; [done|].
    destruct (contains_option opts MINE); [|done]. apply bind_Some in H as [(e' & H & _)|(cb & n1 & _ & H)]; [|done].
    unfold must in H. by destruct (compact_of_block _ _ _). }
  assert (n_chain n1 = n_chain n /\ n_pool n1 = n_pool n) as [Ec Ep].
  { destruct (contains_option opts SYNC); cbn [negb] in H1; [by injection H1 as <-|].
    destruct (contains_option opts MINE); [|by injection H1 as <-].
    apply bind_Some in H1 as [(e' & _ & ?)|(cb & n2 & H2 & H1)]; [done|].
    apply must_Ok in H2 as [_ ->]. by injection H1 as <-. }
  destruct (is_next st || is_reorg st) eqn:Est.
  2: { apply bind_Some in H as [(e & H & _)|([] & n2 & H2 & H)]; [done|]. injection H2 as <-.
    apply orb_false_iff in Est as [_ Er]. rewrite Er in H. injection H as <- <-. by rewrite Ec, Ep. }
  apply bind_Some in H as [(e & H & _)|([] & n2 & H2 & H)].
  { apply bind_Some in H as [(e' & H & _)|(x & n2 & _ & H)]; [|done]. by apply on_pool_Some in H as (? & ? & _ & ? & _). }
  apply bind_Some in H2 as [(e & H2 & ?)|(x & n3 & H2 & H3)]; [done|].
  apply on_pool_Some in H2 as (y & t & H2 & [= ->] & ->). injection H3 as <-.
  pose proof (reconcile_block_ok ct _ _ _ _ H2) as ->.
  apply (reconcile_block_sound ct (CL := chain_laws ct (n_chain n1))) in H2 as [Hs _].
  destruct (is_reorg st).
  - apply bind_Some in H as [(e & H & _)|(x & n3 & H3 & H)]; [by apply on_pool_Some in H as (? & ? & _ & ? & _)|].
    apply on_pool_Some in H3 as (z & t3 & H3 & [= ->] & ->). injection H as <- <-.
    split; [done|]. split; [by rewrite <- Ec|]. unfold pool_sound. cbn [n_chain n_pool set_n_pool] in *.
    eapply (reconcile_entries_sound ct (CL := chain_laws ct (n_chain n1))); [exact H3|exact Hs].
  - injection H as <- <-. split; [done|]. split; [by rewrite <- Ec|]. exact Hs.
Qed.

Lemma each_accepted l n r n' : each accepted l n = Some (r, n') -> r = Ok tt /\ n_chain n' = n_chain n.
Proof.
  revert n. induction l as [|[[b st] o] l IH]; intros n; cbn [each]; [by intros [= <- <-]|].
  intros H. apply bind_Some in H as [(e & H & _)|([] & n1 & H1 & H)]; [by apply block_accepted_spec in H as [? _]|].
  apply block_accepted_spec in H1 as (_ & E & _). apply IH in H as [-> ->]. done.
Qed.

(** ** The chain of a node *)

(** An operation of the node that does to the chain what an operation of the
    chain does. *)
Definition mirrors {A} (m : M Node A) (mc : M Chain A) : Prop :=
  forall n r n', m n = Some (r, n') -> mc (n_chain n) = Some (r, n_chain n').

Lemma mirrors_ret {A} (a : A) : mirrors (ret a) (ret a).
Proof. intros n r n' H. by injection H as <- <-. Qed.

Lemma mirrors_lift {A} (a : result CE.Error A) : mirrors (lift a) (lift a).
Proof. intros n r n' H. by injection H as <- <-. Qed.

Lemma mirrors_must {A} (o : option A) : mirrors (must o) (must o).
Proof. intros n r n'. unfold must. destruct o; [|done]. intros H. by injection H as <- <-. Qed.

Lemma mirrors_asks {A} (f : Chain -> A) : mirrors (asks (fun n => f (n_chain n))) (asks f).
Proof. intros n r n' H. by injection H as <- <-. Qed.

Lemma mirrors_bind {A B} (m : M Node A) mc (k : A -> M Node B) kc : mirrors m mc -> (forall a, mirrors (k a) (kc a)) ->
  mirrors (bind m k) (bind mc kc).
Proof.
  intros Hm Hk n r n' H. apply bind_Some. apply bind_Some in H as [(e & H & ->)|(a & n1 & H1 & H)].
  - left. exists e. split; [|done]. by apply Hm.
  - right. exists a, (n_chain n1). split; [by apply Hm|by apply Hk].
Qed.

Lemma mirrors_try {A} (m : M Node A) mc : mirrors m mc -> mirrors (try m) (try mc).
Proof. intros Hm n r n' H. apply try_Some in H as (x & -> & H). apply try_Some. exists x. split; [done|by apply Hm]. Qed.

Lemma mirrors_on_chain {A} (m : M Chain A) : mirrors (on_n_chain m) m.
Proof.
  intros n r n'. unfold on_n_chain, focus. destruct (m (n_chain n)) as [[x c]|]; [|done]. intros H. by injection H as <- <-.
Qed.

Lemma mirrors_notified {A} (m : M Chain A) : mirrors (notified ct now nonce m) m.
Proof.
  intros n r n' H. unfold notified in H. apply bind_Some in H as [(e & H & _)|(k & n1 & H1 & H)]; [done|].
  injection H1 as _ <-. apply bind_Some in H as [(e & H & _)|(x & n2 & H2 & H)].
  { by apply try_Some in H as (? & ? & _). }
  apply try_Some in H2 as (y & [= ->] & H2). apply mirrors_on_chain in H2.
  apply bind_Some in H as [(e & H & _)|(l & n3 & H3 & H)]; [done|]. injection H3 as _ <-.
  apply bind_Some in H as [(e & H & _)|([] & n4 & H4 & H)]; [by apply each_accepted in H as [? _]|].
  apply each_accepted in H4 as [_ E]. injection H as <- <-. by rewrite E.
Qed.

Lemma mirrors_orphans os acc :
  mirrors (node_process_orphans ct pv now nonce os acc) (process_orphans ct pv now os acc).
Proof.
  revert acc. induction os as [|o os IH]; intros acc; cbn [node_process_orphans process_orphans]; [apply mirrors_ret|].
  apply mirrors_bind; [apply mirrors_try, mirrors_notified|intros res; apply IH].
Qed.

Lemma mirrors_check_orphans fuel h :
  mirrors (node_check_orphans ct pv now nonce fuel h) (check_orphans ct pv now fuel h).
Proof.
  revert h. induction fuel as [|fuel IH]; intros h; cbn [node_check_orphans check_orphans]; [apply mirrors_must|].
  apply mirrors_bind; [apply (mirrors_asks (fun c => remove_by_height h (c_orphans c)))|intros [os pool]].
  apply mirrors_bind; [apply mirrors_on_chain|intros []].
  destruct os as [os|]; [|apply mirrors_ret].
  apply mirrors_bind; [apply mirrors_orphans|intros [a|]; [apply IH|apply mirrors_ret]].
Qed.

Lemma mirrors_process_block b opts :
  mirrors (node_chain_process_block ct pv now nonce b opts) (chain_process_block ct pv now b opts).
Proof.
  apply mirrors_bind; [apply mirrors_try, mirrors_notified|intros res].
  apply mirrors_bind; [|intros []; apply mirrors_lift]. destruct (is_ok res); [|apply mirrors_ret].
  apply mirrors_bind; [apply (mirrors_asks (fun c => S (base.size (orphans (c_orphans c)))))|intros fuel].
  apply mirrors_check_orphans.
Qed.

Lemma on_us_accepted {A} l (m : M US A) : keeps (fun c => c_accepted c = l) (on_us m).
Proof. apply keeps_focus. intros c Hc. split; [by intros u r u' _ _|done]. Qed.

Lemma check_orphan_accepted l b opts : keeps (fun c => c_accepted c = l) (check_orphan ct now b opts).
Proof.
  unfold check_orphan, from_db. keeps_auto. apply keeps_modify. done.
Qed.

(** One step of an operation that does not announce anything. *)
Ltac skip Step H := let E := fresh "E" in
  apply Step in H as [(? & -> & ?)|(? & ? & E & H)]; [congruence| |intros ?].

(** A block is announced when it was accepted, as the next or a reorganisation
    exactly if it becomes the head. *)
Lemma single_accepted b opts c r c' : process_block_single ct pv now b opts c = Some (r, c') ->
  match r with
  | Ok hd => exists st, c_accepted c' = c_accepted c ++ [(b, st, opts)] /\
      is_next st || is_reorg st = match hd with Some _ => true | None => false end
  | Err _ => c_accepted c' = c_accepted c
  end.
Proof.
  unfold process_block_single. intros H.
  assert (G : forall A (m : M Chain A) c0 x c1, (forall l, keeps (fun c => c_accepted c = l) m) -> m c0 = Some (x, c1) ->
    c_accepted c1 = c_accepted c0).
  { intros A m c0 x c1 Hk Hm. exact (Hk _ _ _ _ eq_refl Hm). }
  assert (Hd : forall hd pt ph ft l, keeps (fun c => c_accepted c = l) (determine_status hd pt ph ft)).
  { intros. unfold determine_status, chain_is_on_current_chain, chain_header_hash_by_height. keeps_auto. }
  assert (Step : forall A B (m : M Chain A) (k : A -> M Chain B) c0 x c1, (forall l, keeps (fun c => c_accepted c = l) m) ->
    bind m k c0 = Some (x, c1) ->
    (exists e, x = Err e /\ c_accepted c1 = c_accepted c0) \/
    exists a c2, c_accepted c2 = c_accepted c0 /\ k a c2 = Some (x, c1)).
  { intros A B m k c0 x c1 Hk [(e & He & ->)|(a & c2 & Ha & Hb)]%bind_Some; [left; exists e|right; exists a, c2];
      (split; [done|]) || (split; [|done]); by eapply G. }
  skip Step H; [|apply keeps_bind; [apply keeps_asks|intros ?; apply on_us_accepted]].
  skip Step H; [|unfold is_known, from_db; keeps_auto].
  skip Step H; [|apply check_orphan_accepted].
  skip Step H; [|apply keeps_gets].
  skip Step H; [|apply keeps_asks].
  apply Step in H as [(? & -> & ?)|([hd fp] & ? & ? & H)]; [congruence| |intros ?; apply on_us_accepted].
  skip Step H; [|apply keeps_gets].
  skip Step H; [|apply keeps_must].
  skip Step H; [|apply keeps_must].
  apply bind_Some in H as [(e & H & ->)|(st & c1 & H1 & H)]; [apply G in H; [congruence|apply Hd]|].
  pose proof H1 as E'%G; [|apply Hd]. injection H as <- <-. exists st. cbn [c_accepted]. split; [congruence|].
  unfold determine_status in H1. destruct hd as [hd|]; [|by injection H1 as <- <-].
  apply bind_Ok in H1 as (y & c2 & _ & H1). destruct (is_ok y); by injection H1 as <- <-.
Qed.

(** ** Header segments *)

Lemma take_first_spec {A} (p : A -> bool) l x l' : take_first p l = Some (x, l') ->
  p x = true /\ l' `sublist_of` l /\ length l = S (length l') /\ x ∈ l.
Proof.
  revert l'. induction l as [|y l IH]; intros l'; simpl; [done|]. destruct (p y) eqn:E.
  - intros [= -> ->]. split_and!; [done|by apply sublist_cons|done|by left].
  - destruct (take_first p l) as [[z k]|]; [|done]. intros [= <- <-].
    destruct (IH k eq_refl) as (H1 & H2 & H3 & H4). split_and!; [done|by apply sublist_skip|simpl; lia|by right].
Qed.

Lemma take_last_spec {A} (p : A -> bool) l x l' : take_last p l = Some (x, l') ->
  p x = true /\ l' `sublist_of` l /\ length l = S (length l') /\ x ∈ l.
Proof.
  revert l'. induction l as [|y l IH]; intros l'; simpl; [done|].
  destruct (take_last p l) as [[z k]|].
  - intros [= <- <-].
    destruct (IH k eq_refl) as (H1 & H2 & H3 & H4). split_and!; [done|by apply sublist_skip|simpl; lia|by right].
  - destruct (p y) eqn:E; [|done]. intros [= -> ->]. split_and!; [done|by apply sublist_cons|done|by left].
Qed.

(** A segment that was checked before it was kept. *)
Definition entry_ok (e : PihdHeaderSegmentCacheEntry) : Prop :=
  Segments.height (pc_id e) = PIHD_HEADER_SEGMENT_HEIGHT /\ connected_headers ct (pc_headers e) = Some true /\
  exists first, hd_error (pc_headers e) = Some first /\ pihd_header_segment_start_height (pc_id e) = Some (Block.height first).

Record cache_ok (n : Node) : Prop := {
  co_ids : NoDup (map pc_id (n_header_cache n));
  co_bound : (length (n_header_cache n) <= Z.to_nat MAX_CACHED_PIHD_HEADER_SEGMENTS)%nat;
  co_entries : Forall entry_ok (n_header_cache n);
}.

Lemma header_cache_sublist l n : l `sublist_of` n_header_cache n -> cache_ok n -> cache_ok (set_n_cache l n).
Proof.
  intros Hl [H1 H2 H3]. split; cbn.
  - eapply sublist_NoDup; [exact H1|]. by apply sublist_map_.
  - apply sublist_length in Hl. lia.
  - by eapply Forall_sublist.
Qed.

(** Operations that leave the cache alone. *)
Definition quiet {A} (m : M Node A) : Prop := forall n r n', m n = Some (r, n') -> n_header_cache n' = n_header_cache n.

Lemma quiet_keeps_cache {A} (m : M Node A) : quiet m -> keeps cache_ok m.
Proof. intros Hm n r n' [H1 H2 H3] H. apply Hm in H. split; by rewrite H. Qed.

Lemma quiet_on_chain {A} (m : M Chain A) : quiet (on_n_chain m).
Proof. intros n r n'. unfold on_n_chain, focus. destruct (m _) as [[x c]|]; [|done]. intros H. by injection H as _ <-. Qed.

Lemma quiet_on_sync f : quiet (on_n_sync f).
Proof. intros n r n' H. by injection H as _ <-. Qed.

Lemma quiet_bind {A B} (m : M Node A) (k : A -> M Node B) : quiet m -> (forall a, quiet (k a)) -> quiet (bind m k).
Proof.
  intros Hm Hk n r n' H. apply bind_Some in H as [(e & H & _)|(a & n1 & H1 & H)]; [by apply Hm in H|].
  apply Hk in H. apply Hm in H1. congruence.
Qed.

Lemma quiet_try {A} (m : M Node A) : quiet m -> quiet (try m).
Proof. intros Hm n r n' H. apply try_Some in H as (x & _ & H). by apply Hm in H. Qed.

Lemma quiet_ret {A} (a : A) : quiet (ret a).
Proof. intros n r n' H. by injection H as _ <-. Qed.

Lemma quiet_batch l t : quiet (process_header_batch ct pv l t).
Proof.
  apply quiet_bind; [apply quiet_try, quiet_on_chain|]. intros [[x|]|e].
  - apply quiet_bind; [apply quiet_on_sync|intros []; apply quiet_ret].
  - apply quiet_ret.
  - destruct (is_bad_data e); [apply quiet_ret|]. intros n r n' H. by injection H as _ <-.
Qed.

Lemma prune_shrinks t n r n' : prune_pihd_header_cache t n = Some (r, n') ->
  r = Ok tt /\ n_header_cache n' `sublist_of` n_header_cache n.
Proof. intros H. injection H as <- <-. split; [done|]. cbn. apply retain_sublist. Qed.

Lemma prune_keeps t : keeps cache_ok (prune_pihd_header_cache t).
Proof.
  intros n r n' Hn H. apply prune_shrinks in H as [_ H]. destruct (header_cache_sublist _ _ H Hn) as [H1 H2 H3]. by split.
Qed.

Lemma clear_keeps : keeps cache_ok clear_pihd_header_cache.
Proof. apply keeps_modify. intros n _. split; cbn; [constructor|lia|constructor]. Qed.

Lemma ready_keeps fuel : keeps cache_ok (process_ready_loop ct pv fuel).
Proof.
  induction fuel as [|fuel IH]; cbn [process_ready_loop];
    (apply keeps_bind; [apply keeps_asks|]; intros status; destruct status;
     try (apply keeps_bind; [apply clear_keeps|intros []; apply keeps_ret]); destruct sync_mode;
     try (apply keeps_bind; [apply clear_keeps|intros []; apply keeps_ret]);
     (apply keeps_bind; [apply prune_keeps|intros []]); cbv zeta; intros n r n' Hn H;
     apply bind_Some in H as [(e & H & _)|(cache & n1 & H1 & H)]; [done|]; injection H1 as <- <-;
     (destruct (take_first _ _) as [[entry rest]|] eqn:Et; [|by injection H as _ <-])); [done|].
  apply take_first_spec in Et as (_ & Hs & _).
  apply bind_Some in H as [(e & H & _)|([] & n1 & H1 & H)]; [done|]. injection H1 as <-.
  pose proof (header_cache_sublist _ _ Hs Hn) as Hn1. revert H. apply keeps_bind; [| |exact Hn1].
  { apply keeps_try, quiet_keeps_cache, quiet_batch. }
  intros [[]|e]; (apply keeps_bind; [apply quiet_keeps_cache, quiet_on_sync|intros []]); [apply IH|apply keeps_ret|apply keeps_throw].
Qed.

Lemma push_keeps id headers peer l n : cache_ok n -> l `sublist_of` merge_sort (fun a b => idx (pc_id a) <= idx (pc_id b)) (n_header_cache n) \/ l `sublist_of` n_header_cache n ->
  (length l < Z.to_nat MAX_CACHED_PIHD_HEADER_SEGMENTS)%nat -> ~ id ∈ map pc_id (n_header_cache n) -> entry_ok (mkEntry_ id headers peer) ->
  cache_ok (set_n_cache (l ++ [mkEntry_ id headers peer]) n).
Proof.
  intros [H1 H2 H3] Hl Hlen Hid He.
  assert (Hp : exists k, l `sublist_of` k /\ k ≡ₚ n_header_cache n).
  { destruct Hl as [Hl|Hl]; eexists; (split; [exact Hl|]); [apply merge_sort_Permutation|done]. }
  destruct Hp as (k & Hk & Hp). split; cbn.
  - rewrite map_app. apply NoDup_app. split; [|split; [|apply NoDup_singleton]].
    + eapply sublist_NoDup; [|by apply sublist_map_]. by rewrite Hp.
    + intros x Hx ->%list_elem_of_singleton. apply Hid. cbn. rewrite <- Hp.
      eapply elem_of_sublist; [exact Hx|]. by apply sublist_map_.
  - rewrite length_app. simpl. lia.
  - apply Forall_app. split; [|by apply Forall_singleton]. eapply Forall_sublist; [exact Hk|]. by rewrite Hp.
Qed.

Lemma cache_segment_keeps id headers peer t : entry_ok (mkEntry_ id headers peer) ->
  keeps cache_ok (cache_pihd_header_segment id headers peer t).
Proof.
  intros He. unfold cache_pihd_header_segment. apply keeps_bind; [apply prune_keeps|intros []]. cbv zeta.
  assert (Hf : forall f, keeps cache_ok (on_n_sync f)) by (intros f; apply quiet_keeps_cache, quiet_on_sync).
  destruct (_ <? _); [apply Hf|]. destruct (_ <? _); [apply Hf|].
  intros n r n' Hn H. apply bind_Some in H as [(e & H & _)|(cache & n1 & H1 & H)]; [done|]. injection H1 as <- <-.
  destruct (existsb _ _) eqn:Ex; [by eapply Hf|].
  assert (Hid : ~ id ∈ map pc_id (n_header_cache n)).
  { intros (e & -> & Hin)%elem_of_map. apply existsb_Forall in Ex. rewrite Forall_forall in Ex. specialize (Ex e Hin).
    cbv beta in Ex. by rewrite bool_decide_eq_true_2 in Ex. }
  destruct (Z.leb_spec MAX_CACHED_PIHD_HEADER_SEGMENTS (Z.of_nat (length (n_header_cache n)))) as [Hl|Hl].
  - set (sorted := merge_sort _ (n_header_cache n)) in H.
    assert (Hp : sorted ≡ₚ n_header_cache n) by apply merge_sort_Permutation.
    assert (Hs : cache_ok (set_n_cache sorted n)).
    { destruct Hn as [H1 H2 H3]. split; cbn; rewrite Hp; done. }
    apply bind_Some in H as [(e & H & _)|([] & n1 & H1 & H)]; [done|]. injection H1 as <-.
    destruct (take_last _ _) as [[evicted rest]|] eqn:Et; [|by eapply Hf].
    apply take_last_spec in Et as (_ & Hr & Hlen & _).
    apply bind_Some in H as [(e & H & _)|([] & n2 & H2 & H)]; [by eapply (Hf _ _ _ _ Hs)|]. injection H2 as <-.
    apply bind_Some in H as [(e & H & _)|([] & n3 & H3 & H)]; [done|]. injection H3 as <-.
    eapply Hf; [|exact H]. destruct (push_keeps id headers peer rest n Hn) as [G1 G2 G3]; [by left| |done|done|by split].
    destruct Hs as [_ Hb _]. cbn in Hb. lia.
  - apply bind_Some in H as [(e & H & _)|([] & n1 & H1 & H)]; [done|]. injection H1 as <-.
    eapply Hf; [|exact H]. apply push_keeps; try done; [by right|]. lia.
Qed.

Lemma receive_keeps id headers peer : keeps cache_ok (receive_header_segment ct pv id headers peer).
Proof.
  assert (Hf : forall f, keeps cache_ok (on_n_sync f)) by (intros f; apply quiet_keeps_cache, quiet_on_sync).
  assert (Hs : forall x, keeps cache_ok (send x)) by (intros x; apply quiet_keeps_cache; intros n r n' H; by injection H as _ <-).
  unfold receive_header_segment. destruct (Z.eqb_spec (Segments.height id) PIHD_HEADER_SEGMENT_HEIGHT) as [Eh|]; cbn [negb]; [|apply keeps_ret].
  apply keeps_bind; [apply keeps_asks|intros [target|]].
  2: { apply keeps_bind; [|intros []; apply keeps_ret]. unfold clear_stale_pihd_header_cache.
    apply keeps_bind; [apply keeps_asks|intros []; [apply clear_keeps|apply keeps_ret]]. }
  destruct (pihd_header_segment_start_height id) as [start|] eqn:Es; [|apply keeps_ret]. cbv zeta.
  destruct headers as [|first rest]; [apply keeps_bind; [apply Hf|intros []; apply keeps_ret]|].
  destruct (Z.eqb_spec (Block.height first) start) as [Ef|]; cbn [negb]; [|apply keeps_ret].
  apply keeps_must_in. intros [] Ec; cbn [negb]; [|apply keeps_ret].
  destruct (pihd_header_segment_end_height id) as [last_|]; [|apply keeps_ret].
  destruct (_ && _); [apply keeps_bind; [apply Hf|intros []; apply keeps_ret]|].
  apply keeps_bind; [apply keeps_asks|intros status]. destruct status; try apply keeps_ret.
  apply keeps_bind; [apply cache_segment_keeps|intros []].
  { split; [done|]. split; [exact Ec|]. exists first. split; [done|]. simpl. by rewrite Es, Ef. }
  apply keeps_bind; [apply keeps_bind; [apply keeps_asks|intros fuel; apply ready_keeps]|].
  intros [bad|]; [|apply keeps_ret]. destruct (_ =? _); [apply keeps_ret|].
  apply keeps_bind; [apply Hs|intros []; apply keeps_ret].
Qed.

(** *** Joining cached segments *)

(** The tip that headers are asked for after, while header segments are. *)
Definition joining (n : Node) : option Tip :=
  match current (n_sync n) with HeaderSync t Pihd _ _ => Some t | _ => None end.

(** The segment that comes after a tip. *)
Definition next_segment (t : Tip) : SegmentIdentifier :=
  mkId PIHD_HEADER_SEGMENT_HEIGHT (next_pihd_header_segment_idx (tip_height t)).

(** The node [n1] is [n] without what is stale in its cache, and without the entry
    [e] of the next segment. *)
Definition takes_next (t : Tip) (n : Node) (e : PihdHeaderSegmentCacheEntry) (n1 : Node) : Prop :=
  exists m a b, prune_pihd_header_cache t n = Some (Ok tt, m) /\ n_header_cache m = a ++ e :: b /\
    pc_id e = next_segment t /\ n1 = set_n_cache (a ++ b) m.

(** One segment is added to the chain of headers. *)
Inductive joins (n : Node) : Node -> Prop :=
| joins_one t e n1 n2 : joining n = Some t -> takes_next t n e n1 ->
    process_header_batch ct pv (pc_headers e) t n1 = Some (Ok true, n2) ->
    joins n (set_n_sync (remove_pihd_header_segment (pc_id e) (pi_addr (pc_peer e)) (n_sync n2)) n2).

(** Why joining stops: headers are no longer asked for, the next segment is not
    there, or the headers of it are refused; then the segment is asked for again
    from someone else, and its peer is named if it is to blame. *)
Inductive joined (n : Node) : result CE.Error (option PeerInfo) -> Node -> Prop :=
| joined_other n' : joining n = None -> clear_pihd_header_cache n = Some (Ok tt, n') -> joined n (Ok None) n'
| joined_all t n' : joining n = Some t -> prune_pihd_header_cache t n = Some (Ok tt, n') ->
    Forall (fun e => pc_id e <> next_segment t) (n_header_cache n') -> joined n (Ok None) n'
| joined_refused t e n1 n2 : joining n = Some t -> takes_next t n e n1 ->
    process_header_batch ct pv (pc_headers e) t n1 = Some (Ok false, n2) ->
    joined n (Ok (Some (pc_peer e)))
      (set_n_sync (reject_pihd_header_segment_from (pc_id e) (pi_addr (pc_peer e)) (n_sync n2)) n2)
| joined_failed t e n1 n2 x : joining n = Some t -> takes_next t n e n1 ->
    process_header_batch ct pv (pc_headers e) t n1 = Some (Err x, n2) ->
    joined n (Err x) (set_n_sync (reject_pihd_header_segment_from (pc_id e) (pi_addr (pc_peer e)) (n_sync n2)) n2).

(** The chain panics over the headers of the next segment. *)
Definition join_panics (n : Node) : Prop :=
  exists t e n1, joining n = Some t /\ takes_next t n e n1 /\ process_header_batch ct pv (pc_headers e) t n1 = None.

Lemma take_first_split {A} (p : A -> bool) l :
  match take_first p l with
  | Some (x, k) => p x = true /\ exists a b, l = a ++ x :: b /\ k = a ++ b
  | None => Forall (fun x => p x = false) l
  end.
Proof.
  induction l as [|y l IH]; simpl; [constructor|]. destruct (p y) eqn:E; [split; [done|]; by exists [], l|].
  destruct (take_first p l) as [[x k]|]; [|by constructor].
  destruct IH as (Hx & a & b & -> & ->). split; [done|]. by exists (y :: a), b.
Qed.

Lemma joins_shrinks n n' : joins n n' -> (length (n_header_cache n') < length (n_header_cache n))%nat.
Proof.
  intros [t e n1 n2 _ (m & a & b & Ep & Em & _ & ->) Eb]. apply quiet_batch in Eb. cbn in Eb |- *. rewrite Eb.
  apply prune_shrinks in Ep as [_ Hs]. apply sublist_length in Hs. rewrite Em, !length_app in *. simpl in Hs. lia.
Qed.

(** One turn of the loop: with fuel for every entry it never runs out. *)
Lemma ready_turn fuel n : (length (n_header_cache n) <= fuel)%nat ->
  (exists r n', joined n r n' /\ process_ready_loop ct pv fuel n = Some (r, n')) \/
  (join_panics n /\ process_ready_loop ct pv fuel n = None) \/
  (exists fuel' n', fuel = S fuel' /\ joins n n' /\ process_ready_loop ct pv fuel n = process_ready_loop ct pv fuel' n').
Proof.
  intros Hl. destruct (joining n) as [t|] eqn:Ej.
  2: { left. exists (Ok None), (set_n_cache [] (set_n_anchor None n)). split; [by apply joined_other|].
    unfold joining in Ej. destruct fuel; cbn [process_ready_loop]; unfold bind at 1, asks at 1;
      by destruct (current (n_sync n)) as [| | |t [] ? ?| | | | | | | | | ]. }
  assert (Es : exists a b, current (n_sync n) = HeaderSync t Pihd a b).
  { unfold joining in Ej. destruct (current (n_sync n)) as [| | |t' [] ? ?| | | | | | | | | ]; try done.
    injection Ej as ->. by eexists _, _. }
  destruct Es as (x & y & Es). destruct (prune_pihd_header_cache t n) as [[[[]|] m]|] eqn:Ep; [|done..].
  pose proof (take_first_split (fun e => bool_decide (pc_id e = next_segment t)) (n_header_cache m)) as Ht.
  pose proof (prune_shrinks _ _ _ _ Ep) as [_ Hs]. apply sublist_length in Hs.
  assert (Eloop : forall fuel, process_ready_loop ct pv fuel n =
    match take_first (fun e => bool_decide (pc_id e = next_segment t)) (n_header_cache m) with
    | None => Some (Ok None, m)
    | Some (entry, cache) =>
        match fuel with
        | O => None
        | S fuel =>
            bind (try (process_header_batch ct pv (pc_headers entry) t)) (fun accepted =>
              let reject := on_n_sync (reject_pihd_header_segment_from (pc_id entry) (pi_addr (pc_peer entry))) in
              match accepted with
              | Err e => reject ;* throw e
              | Ok false => reject ;* ret (Some (pc_peer entry))
              | Ok true => on_n_sync (remove_pihd_header_segment (pc_id entry) (pi_addr (pc_peer entry))) ;*
                  process_ready_loop ct pv fuel
              end) (set_n_cache cache m)
        end
    end).
  { intros []; cbn [process_ready_loop]; unfold bind at 1, asks at 1; rewrite Es; unfold bind at 1; rewrite Ep; cbv zeta;
      unfold bind at 1, asks at 1; unfold next_segment; by destruct (take_first _ _) as [[entry rest]|]. }
  rewrite Eloop. destruct (take_first _ _) as [[e rest]|].
  2: { left. exists (Ok None), m. split; [|done]. apply (joined_all _ t); [done|done|].
    eapply Forall_impl; [exact Ht|]. intros e He. by apply bool_decide_eq_false in He. }
  destruct Ht as (He & a & b & Em & ->). apply bool_decide_eq_true in He.
  assert (Hn : takes_next t n e (set_n_cache (a ++ b) m)) by (by exists m, a, b).
  destruct fuel as [|fuel]; [rewrite Em, length_app in Hs; simpl in Hs; lia|].
  destruct (process_header_batch ct pv (pc_headers e) t (set_n_cache (a ++ b) m)) as [[[[]|x0] n2]|] eqn:Eb;
    (assert (Et : try (process_header_batch ct pv (pc_headers e) t) (set_n_cache (a ++ b) m) = _)
      by (unfold try; rewrite Eb; reflexivity)); unfold bind; rewrite !Et.
  - right; right. eexists fuel, _. split; [done|]. split; [by eapply joins_one|reflexivity].
  - left. eexists _, _. split; [by eapply joined_refused|reflexivity].
  - left. eexists _, _. split; [by eapply joined_failed|reflexivity].
  - right; left. split; [by exists t, e, (set_n_cache (a ++ b) m)|done].
Qed.

Lemma ready_runs fuel n : (length (n_header_cache n) <= fuel)%nat ->
  exists k m, nsteps joins k n m /\ (k <= length (n_header_cache n))%nat /\
    ((exists r n', joined m r n' /\ process_ready_loop ct pv fuel n = Some (r, n')) \/
     (join_panics m /\ process_ready_loop ct pv fuel n = None)).
Proof.
  revert n. induction fuel as [|fuel IH]; intros n Hl;
    (destruct (ready_turn _ n Hl) as [H|[H|(fuel' & n' & E & Hj & Eq)]];
      [exists 0%nat, n; split; [constructor|split; [lia|by left]]|exists 0%nat, n; split; [constructor|split; [lia|by right]]|]); [done|].
  injection E as <-. pose proof (joins_shrinks _ _ Hj) as Hlt. destruct (IH n') as (k & m & Hk & Hle & H); [lia|].
  exists (S k), m. split; [by econstructor|]. split; [lia|]. by rewrite Eq.
Qed.

(** ** What peers can make a node keep *)

Record bounded (n : Node) : Prop := {
  bo_sync : sync_ok (n_sync n);
  bo_queue : (length (n_queue n) <= Z.to_nat WORKER_CHANNEL_BUFFER_SIZE)%nat;
  bo_cache : cache_ok n;
  bo_requests : map_Forall (fun _ x => 0 <= snd x <= MAX_HEADER_SEGMENT_REQUESTS_PER_WINDOW) (n_header_requests n);
}.

(** A change of the other parts. *)
Lemma bounded_frame n n' : n_sync n' = n_sync n -> n_queue n' = n_queue n -> n_header_cache n' = n_header_cache n ->
  n_header_requests n' = n_header_requests n -> bounded n -> bounded n'.
Proof.
  intros E1 E2 E3 E4 [H1 H2 [H3 H4 H5] H6].
  split; [by rewrite E1|by rewrite E2|split; by rewrite E3|by rewrite E4].
Qed.

Lemma kb_chain {A} (m : M Chain A) : keeps bounded (on_n_chain m).
Proof. intros n r n' Hn. unfold on_n_chain, focus. destruct (m _) as [[x c]|]; [|done]. intros H. injection H as _ <-. by apply (bounded_frame n). Qed.

Lemma kb_pool f : keeps bounded (on_pool ct f).
Proof. intros n r n' Hn H. apply on_pool_Some in H as (x & t & _ & _ & ->). by apply (bounded_frame n). Qed.

Lemma kb_modify f : (forall n, n_sync (f n) = n_sync n /\ n_queue (f n) = n_queue n /\ n_header_cache (f n) = n_header_cache n /\
  n_header_requests (f n) = n_header_requests n) -> keeps bounded (modify f).
Proof. intros Hf. apply keeps_modify. intros n Hn. destruct (Hf n) as (E1 & E2 & E3 & E4). by apply (bounded_frame n). Qed.

Lemma kb_send x : keeps bounded (send x).
Proof. by apply kb_modify. Qed.

Lemma kb_sync f : (forall s, sync_ok s -> sync_ok (f s)) -> keeps bounded (on_n_sync f).
Proof. intros Hf. apply keeps_modify. intros n [H1 H2 [H3 H4 H5] H6]. split; [by apply Hf|done|by split|done]. Qed.

Lemma kb_op o : keeps bounded (on_n_sync (run_op o)).
Proof. apply kb_sync. intros s. apply run_op_ok. Qed.

(** Frames by composition. *)
#[local] Hint Resolve kb_chain kb_pool kb_send keeps_ret keeps_throw keeps_lift keeps_must keeps_asks : keeps.

Lemma kb_accepted e : keeps bounded (accepted e).
Proof. destruct e as [[b st] o]. unfold block_accepted. keeps_auto; by apply kb_modify. Qed.
#[local] Hint Resolve kb_accepted : keeps.

Lemma kb_notified {A} (m : M Chain A) : keeps bounded (notified ct now nonce m).
Proof. unfold notified. keeps_auto. Qed.
#[local] Hint Resolve kb_notified : keeps.

Lemma kb_orphans os acc : keeps bounded (node_process_orphans ct pv now nonce os acc).
Proof.
  revert acc. induction os as [|o os IH]; intros acc; cbn [node_process_orphans]; [apply keeps_ret|].
  apply keeps_bind; [apply keeps_try, kb_notified|intros res; apply IH].
Qed.

Lemma kb_check_orphans fuel h : keeps bounded (node_check_orphans ct pv now nonce fuel h).
Proof.
  revert h. induction fuel as [|fuel IH]; intros h; cbn [node_check_orphans]; [apply keeps_must|].
  apply keeps_bind; [apply keeps_asks|intros [os pool]]. apply keeps_bind; [apply kb_chain|intros []].
  destruct os as [os|]; [|apply keeps_ret].
  apply keeps_bind; [apply kb_orphans|intros [a|]; [apply IH|apply keeps_ret]].
Qed.

Lemma kb_chain_block b opts : keeps bounded (node_chain_process_block ct pv now nonce b opts).
Proof.
  unfold node_chain_process_block. apply keeps_bind; [apply keeps_try, kb_notified|intros res].
  apply keeps_bind; [|intros []; apply keeps_lift]. destruct (is_ok res); [|apply keeps_ret].
  apply keeps_bind; [apply keeps_asks|intros fuel; apply kb_check_orphans].
Qed.
#[local] Hint Resolve kb_chain_block : keeps.

(** ** Single blocks *)

Lemma block_alone_pool b opts n r n' : node_process_block_single ct pv now nonce b opts n = Some (r, n') ->
  match r with Ok (Some _) => pool_sound n' | _ => n_pool n' = n_pool n end.
Proof.
  intros H. unfold node_process_block_single, notified in H.
  apply bind_Some in H as [(e & H & _)|(k & n1 & H1 & H)]; [done|]. injection H1 as <- <-.
  apply bind_Some in H as [(e & H & _)|(x & n2 & H2 & H)]; [by apply try_Some in H as (? & ? & _)|].
  apply try_Some in H2 as (y & [= ->] & H2).
  assert (Ep : n_pool n2 = n_pool n).
  { unfold on_n_chain, focus in H2. destruct (process_block_single _ _ _ _ _ _) as [[z c]|]; [|done]. by injection H2 as _ <-. }
  apply mirrors_on_chain, single_accepted in H2.
  apply bind_Some in H as [(e & H & _)|(l & n3 & H3 & H)]; [done|]. injection H3 as <- <-.
  destruct y as [hd|e].
  - destruct H2 as (st & Ea & Est). rewrite Ea, drop_app_length in H.
    apply bind_Some in H as [(e & H & _)|([] & n4 & H4 & H)]; [by apply each_accepted in H as [? _]|].
    injection H as <- <-. cbn [each] in H4. apply bind_Some in H4 as [(e & _ & H4)|([] & n5 & H5 & H4)]; [done|].
    injection H4 as <-. apply block_accepted_spec in H5 as (_ & _ & H5). rewrite Est in H5.
    destruct hd; [done|congruence].
  - rewrite H2, drop_all in H. cbn [each] in H. injection H as <- <-. done.
Qed.

Section handlers.
Context (fee_base : Z) (connected : Z -> bool) (eqb : BlockHeader -> BlockHeader -> bool) (every_block worker_runs : bool).

Lemma kb_request_block h peer opts : keeps bounded (request_block ct connected h peer opts).
Proof. unfold request_block, send_block_request_to_peer. keeps_auto. Qed.
#[local] Hint Resolve kb_request_block : keeps.

Lemma kb_validate_chain : keeps bounded (validate_chain ct pv genesis every_block).
Proof. unfold validate_chain, syncing. keeps_auto. Qed.
#[local] Hint Resolve kb_validate_chain : keeps.

Lemma kb_process_block b peer opts : keeps bounded (node_process_block ct pv genesis now connected nonce every_block b peer opts).
Proof. unfold node_process_block, syncing. cbv zeta. keeps_auto. Qed.
#[local] Hint Resolve kb_process_block : keeps.

Lemma kb_block_received b peer opts : keeps bounded (block_received ct pv genesis now connected nonce every_block b peer opts).
Proof. unfold block_received. keeps_auto. Qed.

Lemma kb_compact_block_received cb peer : keeps bounded (compact_block_received ct pv genesis now connected nonce every_block cb peer).
Proof. unfold compact_block_received, sync_status_is. keeps_auto. Qed.

Lemma kb_transaction_received tx stem : keeps bounded (transaction_received ct now fee_base tx stem).
Proof. unfold transaction_received, syncing. keeps_auto. Qed.

Lemma kb_tx_kernel_received h peer : keeps bounded (tx_kernel_received connected h peer).
Proof. unfold tx_kernel_received, get_transaction, request_transaction, send_tx_request_to_peer, syncing. keeps_auto. Qed.

Lemma kb_header_received h peer : keeps bounded (header_received ct pv connected h peer).
Proof. unfold header_received, request_compact_block, send_block_request_to_peer. keeps_auto. Qed.

Lemma kb_batch l t : keeps bounded (process_header_batch ct pv l t).
Proof. unfold process_header_batch. keeps_auto. apply (kb_op (OHeaderSync _)). Qed.

Lemma kb_headers_received l peer : keeps bounded (headers_received ct pv l peer).
Proof. unfold headers_received. destruct l; [apply keeps_ret|]. apply keeps_bind; [apply keeps_asks|]. intros []; try apply keeps_ret. apply kb_batch. Qed.

(** *** Segments *)

Lemma kb_queue seg peer : keeps bounded (queue_pibd_segment now worker_runs seg peer).
Proof.
  unfold queue_pibd_segment. cbv zeta. apply keeps_bind; [apply keeps_asks|intros []; [apply keeps_ret|]].
  apply keeps_bind; [apply keeps_asks|intros [archive|]; [|apply keeps_ret]].
  assert (Hf : keeps bounded (on_n_sync (remove_pibd_segment_for_archive (segment_id seg) (pi_addr peer) archive)))
    by apply (kb_op (ORemoveForArchive (segment_id seg) (pi_addr peer) archive)).
  destruct worker_runs; cbn [negb].
  2: { apply keeps_bind; [done|intros []]. apply keeps_bind; [apply (kb_op (OSetError CE.SyncError))|intros []; apply keeps_ret]. }
  intros n r n' Hn H. apply bind_Some in H as [(e & H & _)|(full & n1 & H1 & H)]; [done|]. injection H1 as <- <-.
  destruct (Z.leb_spec WORKER_CHANNEL_BUFFER_SIZE (Z.of_nat (length (n_queue n)))) as [Hl|Hl].
  - revert H. apply keeps_bind; [done| |done]. intros []; apply keeps_ret.
  - apply bind_Some in H as [(e & H & _)|([] & n1 & H1 & H)]; [done|]. injection H1 as <-.
    revert H. apply keeps_bind; [done|intros []; apply keeps_ret|]. destruct Hn as [H1 H2 [H3 H4 H5] H6].
    split; [done| |by split|done]. cbn. rewrite length_app. simpl. unfold WORKER_CHANNEL_BUFFER_SIZE in *. lia.
Qed.

Lemma kb_worker : keeps bounded (net_adapter_worker ct genesis now eqb).
Proof.
  intros n r n' Hn H. unfold net_adapter_worker in H. destruct (n_queue n) as [|q rest] eqn:Eq; [by injection H as _ <-|].
  assert (Hq : bounded (set_n_queue rest n)).
  { destruct Hn as [H1 H2 [H3 H4 H5] H6]. split; [done| |by split|done]. cbn. rewrite Eq in H2. simpl in H2. lia. }
  destruct (node_process_queued ct genesis now eqb q (set_n_queue rest n)) as [[x n1]|] eqn:Ep.
  2: { injection H as _ <-.
    exact (kb_op (OReject now (segment_id (q_segment q)) (q_peer_addr q)) _ (Ok tt) _ Hq eq_refl). }
  injection H as _ <-. revert Hq Ep. apply (keeps_bind bounded); [apply kb_chain|intros h].
  intros m y m' [H1 H2 [H3 H4 H5] H6] Hm. unfold focus in Hm.
  destruct (process_queued_pibd_segment _ _ _ _ _ _ _) as [[z sn]|] eqn:Es; [|done]. injection Hm as _ <-.
  apply process_queued_spec in Es. split; [|done|by split|done]. cbn.
  destruct z; rewrite Es; cbn [sn_sync].
  - apply (run_op_ok (ORemoveForArchive _ _ _)), H1.
  - apply (run_op_ok (OReject _ _ _)), H1.
Qed.

(** The parts other than the cache. *)
Definition rest_ok (n : Node) : Prop :=
  sync_ok (n_sync n) /\ (length (n_queue n) <= Z.to_nat WORKER_CHANNEL_BUFFER_SIZE)%nat /\
  map_Forall (fun _ x => 0 <= snd x <= MAX_HEADER_SEGMENT_REQUESTS_PER_WINDOW) (n_header_requests n).

Lemma bounded_iff n : bounded n <-> rest_ok n /\ cache_ok n.
Proof. split; [intros []; by split_and!|intros [(?&?&?) ?]; by split]. Qed.

Lemma rest_op o : keeps rest_ok (on_n_sync (run_op o)).
Proof. apply keeps_modify. intros n (H1 & H2 & H3). split_and!; [by apply run_op_ok|done|done]. Qed.

Lemma rest_cache l : keeps rest_ok (modify (set_n_cache l)).
Proof. by apply keeps_modify. Qed.

Lemma forget_ok l s : sync_ok s -> sync_ok (forget_entries l s).
Proof.
  revert s. induction l as [|e l IH]; intros s H; [done|]. apply IH.
  apply (run_op_ok (ORemoveHeader (pc_id e) (pi_addr (pc_peer e)))), H.
Qed.

Lemma rest_prune t : keeps rest_ok (prune_pihd_header_cache t).
Proof. apply keeps_modify. intros n (H1 & H2 & H3). split_and!; [by apply forget_ok|done|done]. Qed.

Lemma rest_clear : keeps rest_ok clear_pihd_header_cache.
Proof. by apply keeps_modify. Qed.

Lemma rest_batch l t : keeps rest_ok (process_header_batch ct pv l t).
Proof.
  unfold process_header_batch. apply keeps_bind.
  { apply keeps_try. intros n r n' Hn. unfold on_n_chain, focus. destruct (sync_block_headers _ _ _ _ _ _) as [[x c]|]; [|done].
    intros H. by injection H as _ <-. }
  intros a. keeps_auto. apply (rest_op (OHeaderSync _)).
Qed.

Lemma rest_cache_segment id headers peer t : keeps rest_ok (cache_pihd_header_segment id headers peer t).
Proof.
  unfold cache_pihd_header_segment. cbv zeta. keeps_auto; try apply rest_cache; try apply rest_prune;
    first [apply (rest_op (OMarkHeader _ _)) | apply (rest_op (ORemoveHeader _ _))].
Qed.

Lemma rest_ready fuel : keeps rest_ok (process_ready_loop ct pv fuel).
Proof.
  induction fuel as [|fuel IH]; cbn [process_ready_loop]; cbv zeta; keeps_auto; try apply rest_clear; try apply rest_prune;
    try apply rest_cache; try apply rest_batch; try exact IH;
    first [apply (rest_op (ORejectHeader _ _)) | apply (rest_op (ORemoveHeader _ _))].
Qed.

Lemma rest_receive id headers peer : keeps rest_ok (receive_header_segment ct pv id headers peer).
Proof.
  unfold receive_header_segment, clear_stale_pihd_header_cache, process_ready_pihd_header_segments. cbv zeta.
  keeps_auto; try apply rest_clear; try apply rest_cache_segment; try apply rest_ready;
    try (apply (rest_op (ORejectHeader _ _))). by apply keeps_modify.
Qed.

Lemma kb_header_segment id headers peer : keeps bounded (receive_header_segment ct pv id headers peer).
Proof.
  intros n r n' [Hr Hc]%bounded_iff H. apply bounded_iff. split; [by eapply rest_receive|by eapply receive_keeps].
Qed.

(** *** Requests *)

Lemma kb_allowed peer : keeps bounded (header_segment_request_allowed now peer).
Proof.
  intros n r n' [H1 H2 [H3 H4 H5] H6] H. unfold header_segment_request_allowed in H. cbv zeta in H.
  set (requests := filter _ (n_header_requests n)) in H.
  assert (Hr : map_Forall (fun _ x => 0 <= snd x <= MAX_HEADER_SEGMENT_REQUESTS_PER_WINDOW) requests).
  { intros k x Hx. apply map_lookup_filter_Some in Hx as [Hx _]. by apply H6 in Hx. }
  set (entry := if _ <? now then _ else _) in H.
  assert (He : 0 <= snd entry <= MAX_HEADER_SEGMENT_REQUESTS_PER_WINDOW).
  { subst entry. unfold MAX_HEADER_SEGMENT_REQUESTS_PER_WINDOW in *. destruct (_ <? now); [simpl; lia|].
    destruct (requests !! peer) as [x|] eqn:E; simpl; [by apply Hr in E|lia]. }
  destruct (Z.leb_spec MAX_HEADER_SEGMENT_REQUESTS_PER_WINDOW (snd entry)); injection H as _ <-;
    (split; [done|done|by split|]); cbn; apply map_Forall_insert_2; try done. simpl. lia.
Qed.

Lemma kb_locate_segment id peer : keeps bounded (locate_header_segment now id peer).
Proof. unfold locate_header_segment. cbv zeta. keeps_auto. apply kb_allowed. Qed.

Lemma kb_locate locator : keeps bounded (locate_headers ct locator).
Proof. unfold locate_headers. keeps_auto. Qed.

Lemma kb_get_block h peer : keeps bounded (node_get_block h peer).
Proof. unfold node_get_block. keeps_auto. Qed.

Lemma kb_with_segmenter {A} range hash id (f : Segmenter -> M TxHashSet A) : keeps bounded (with_segmenter ct eqb range hash id f).
Proof. unfold with_segmenter. keeps_auto. by apply kb_modify. Qed.

Lemma kb_download a b c : keeps bounded (txhashset_download_update now a b c).
Proof.
  unfold txhashset_download_update. apply keeps_bind; [apply keeps_asks|]. intros []; try apply keeps_ret.
  apply keeps_bind; [|intros []; apply keeps_ret]. eapply (kb_op (ODownload _)).
Qed.
End handlers.
End node.

(** ** The life of a node *)

(** What peers, and the threads that synchronise, do to a node. *)
Inductive NetEvent : Type :=
| EBlock (b : Block) (peer : PeerInfo) (opts : Z)
| ECompactBlock (cb : CompactBlock) (peer : PeerInfo)
| ETransaction (tx : Transaction) (stem : bool)
| EKernel (hash : Ser.Hash) (peer : PeerInfo)
| EHeader (h : BlockHeader) (peer : PeerInfo)
| EHeaders (l : list BlockHeader) (peer : PeerInfo)
| ELocate (locator : list Ser.Hash)
| EGetBlock (hash : Ser.Hash) (peer : PeerInfo)
| EGetHeaderSegment (id : SegmentIdentifier) (peer : PeerInfo)
| EGetSegment (kind : SegmentType) (hash : Ser.Hash) (id : SegmentIdentifier)
| EDownloaded (start_time downloaded_size total_size : Z)
| ESegment (s : PIBDSegment) (peer : PeerInfo)
| EHeaderSegment (id : SegmentIdentifier) (headers : list BlockHeader) (peer : PeerInfo)
| EWorker
| ESync (o : SyncOp).

Section life.
Context {CR : Crypto} {SU : SortUnstable} {NF : NrdFlag} {SH : SipHasher} (ct : ChainTypes).
Context {MH : Mmr BlockHeader HeaderEntry} {MO : Mmr OutputIdentifier OutputIdentifier}.
Context {MR : Mmr RangeProof RangeProof} {MK : Mmr TxKernel TxKernel}.
Context (pv : BlockHeader -> bool) (genesis : Block) {PA : PoolAdapter} (nonce : Z) (fee_base : Z).
Context (connected : Z -> bool) (eqb : BlockHeader -> BlockHeader -> bool) (every_block worker_runs : bool).

Definition unit_of {A} (m : M Node A) : M Node unit := let* _ := m in ret tt.

Definition handle_event (now : Z) (e : NetEvent) : M Node unit :=
  match e with
  | EBlock b peer opts => unit_of (block_received ct pv genesis now connected nonce every_block b peer opts)
  | ECompactBlock cb peer => unit_of (compact_block_received ct pv genesis now connected nonce every_block cb peer)
  | ETransaction tx stem => unit_of (transaction_received ct now fee_base tx stem)
  | EKernel hash peer => unit_of (tx_kernel_received connected hash peer)
  | EHeader h peer => unit_of (header_received ct pv connected h peer)
  | EHeaders l peer => unit_of (headers_received ct pv l peer)
  | ELocate locator => unit_of (locate_headers ct locator)
  | EGetBlock hash peer => unit_of (node_get_block hash peer)
  | EGetHeaderSegment id peer => unit_of (locate_header_segment now id peer)
  | EGetSegment SegKernel hash id => unit_of (get_kernel_segment ct eqb hash id)
  | EGetSegment SegBitmap hash id => unit_of (get_bitmap_segment ct eqb hash id)
  | EGetSegment SegOutput hash id => unit_of (get_output_segment ct eqb hash id)
  | EGetSegment SegRangeProof hash id => unit_of (get_rangeproof_segment ct eqb hash id)
  | EDownloaded a b c => unit_of (txhashset_download_update now a b c)
  | ESegment s peer => unit_of (queue_pibd_segment now worker_runs s peer)
  | EHeaderSegment id headers peer => unit_of (receive_header_segment ct pv id headers peer)
  | EWorker => net_adapter_worker ct genesis now eqb
  | ESync o => on_n_sync (run_op o)
  end.

(** The events with their times; an error ends the one it comes from. *)
Definition run_node (l : list (Z * NetEvent)) : M Node unit :=
  each (fun e => let* _ := try (handle_event (fst e) (snd e)) in ret tt) l.

Lemma handle_bounded now e : keeps (bounded ct) (handle_event now e).
Proof.
  destruct e as [| | | | | | | | |[]| | | | |]; cbn [handle_event]; try (apply keeps_bind; [|intros ?; apply keeps_ret]).
  - apply kb_block_received.
  - apply kb_compact_block_received.
  - apply kb_transaction_received.
  - apply kb_tx_kernel_received.
  - apply kb_header_received.
  - apply kb_headers_received.
  - apply kb_locate.
  - apply kb_get_block.
  - apply kb_locate_segment.
  - apply kb_with_segmenter.
  - apply kb_with_segmenter.
  - apply kb_with_segmenter.
  - apply kb_with_segmenter.
  - apply kb_download.
  - apply kb_queue.
  - apply kb_header_segment.
  - apply kb_worker.
  - apply kb_op.
Qed.

Lemma run_bounded l : keeps (bounded ct) (run_node l).
Proof.
  apply keeps_each. intros e. apply keeps_bind; [|intros ?; apply keeps_ret]. apply keeps_try, handle_bounded.
Qed.

(** A node that was just started. *)
Definition node_start (c : Chain) (p : PoolConfig) : Node :=
  mkNode c (tp_new p) sync_new None None [] [] None ∅ [].

Lemma node_start_bounded c p : bounded ct (node_start c p).
Proof. split; cbn; [apply sync_new_ok|lia|split; cbn; [constructor|lia|constructor]|apply map_Forall_empty]. Qed.

(** A request that was answered is gone. *)
Lemma answered_once id peer s a : sync_ok s -> get_pibd_segment_archive_hash id peer s = Some a ->
  get_pibd_segment_archive_hash id peer (remove_pibd_segment_for_archive id peer a s) = None.
Proof.
  intros [Hn _ _ _ _ _ _ _ _] H. unfold get_pibd_segment_archive_hash, remove_pibd_segment_for_archive in *.
  cbn [requested_pibd_segments set_requested]. destruct (find _ (requested_pibd_segments s)) as [x|] eqn:E; [|done].
  simpl in H. injection H as <-. apply find_some in E as [Hx Hp]. apply list_elem_of_In in Hx.
  apply andb_true_iff in Hp as [Ei Ep]. apply bool_decide_eq_true in Ei, Ep.
  destruct (find _ (retain _ _)) as [y|] eqn:E; [|done]. exfalso.
  apply find_some in E as [Hy Hp]. apply list_elem_of_In, list_elem_of_filter in Hy as [Hf Hy].
  apply andb_true_iff in Hp as [Ei' Ep']. apply bool_decide_eq_true in Ei', Ep'.
  assert (y = x) as ->.
  { apply list_elem_of_lookup in Hx as [i Hi], Hy as [j Hj].
    assert (i = j) as ->; [|congruence]. eapply NoDup_lookup; [exact Hn| |].
    - apply list_lookup_fmap_Some. exists x. split; [reflexivity|exact Hi].
    - apply list_lookup_fmap_Some. exists y. split; [congruence|exact Hj]. }
  by rewrite !bool_decide_eq_true_2 in Hf by done.
Qed.

(** How many of the requests of [peer] for header segments are answered. *)
Fixpoint answered (peer : Z) (l : list (Z * Z)) (n : Node) : Z :=
  match l with
  | [] => 0
  | (now, p) :: l =>
      match header_segment_request_allowed now p n with
      | Some (Ok b, n) => (if b && (p =? peer) then 1 else 0) + answered peer l n
      | _ => 0
      end
  end.

(** What a peer may still ask from [t1] until a window later. *)
Definition budget (t1 peer : Z) (requests : gmap Z (Z * Z)) : Z :=
  match requests !! peer with
  | Some (start, count) => MAX_HEADER_SEGMENT_REQUESTS_PER_WINDOW * (if t1 <=? start then 1 else 2) - count
  | None => MAX_HEADER_SEGMENT_REQUESTS_PER_WINDOW
  end.

Abbreviation window := (HEADER_SEGMENT_REQUEST_WINDOW_SECS * NANOS).

Lemma allowed_budget t1 peer now p n : bounded ct n -> t1 <= now < t1 + window ->
  exists b n', header_segment_request_allowed now p n = Some (Ok b, n') /\
    (if b && (p =? peer) then 1 else 0) + budget t1 peer (n_header_requests n') <= budget t1 peer (n_header_requests n).
Proof.
  intros [_ _ _ H] Ht. unfold header_segment_request_allowed. cbv zeta.
  set (requests := filter _ (n_header_requests n)).
  assert (Hr : requests !! peer = n_header_requests n !! peer /\
      (forall w c, n_header_requests n !! peer = Some (w, c) -> now - window < w) \/
    requests !! peer = None /\ exists w c, n_header_requests n !! peer = Some (w, c) /\ w <= now - window).
  { subst requests. destruct (n_header_requests n !! peer) as [[w c]|] eqn:E.
    - destruct (decide (now - window < w)) as [Hw|Hw].
      + left. split; [|by intros ? ? [= <- <-]]. by apply map_lookup_filter_Some.
      + right. split; [|exists w, c; split; [done|lia]]. apply map_lookup_filter_None. right. intros x Hx. by simplify_eq.
    - left. split; [|done]. apply map_lookup_filter_None. by left. }
  assert (Hb : budget t1 peer requests <= budget t1 peer (n_header_requests n)).
  { unfold budget. destruct Hr as [[-> _]|[-> (w & c & E & Hw)]]; [lia|]. rewrite E. apply H in E. simpl in E.
    destruct (Z.leb_spec t1 w); lia. }
  assert (Hin : 0 <= MAX_HEADER_SEGMENT_REQUESTS_PER_WINDOW) by (unfold MAX_HEADER_SEGMENT_REQUESTS_PER_WINDOW; lia).
  destruct (Z.eqb_spec p peer) as [->|Hne].
  2: { destruct (_ <=? _); eexists _, _; (split; [reflexivity|]); rewrite andb_false_r; cbn [n_header_requests set_n_requests];
    unfold budget at 1; rewrite lookup_insert_ne by done; fold (budget t1 peer requests); lia. }
  destruct Hr as [[Er Hw]|[Er _]].
  - rewrite Er. destruct (n_header_requests n !! peer) as [[w c]|] eqn:E.
    + change (default (now, 0) (Some (w, c))) with (w, c). cbn [fst snd]. specialize (Hw w c eq_refl). destruct (Z.ltb_spec (w + window) now); [lia|]. cbn [fst snd].
      destruct (Z.leb_spec MAX_HEADER_SEGMENT_REQUESTS_PER_WINDOW c); eexists _, _; (split; [reflexivity|]);
        cbn [n_header_requests set_n_requests andb]; unfold budget; rewrite lookup_insert_eq, E; lia.
    + change (default (now, 0) None) with (now, 0). cbn [fst snd]. destruct (Z.ltb_spec (now + window) now); [lia|].
      cbn [fst snd]. eexists _, _. split; [reflexivity|].
      cbn [n_header_requests set_n_requests andb]. unfold budget. rewrite lookup_insert_eq, E.
      destruct (Z.leb_spec t1 now); lia.
  - rewrite Er. change (default (now, 0) None) with (now, 0). cbn [fst snd]. destruct (Z.ltb_spec (now + window) now); [lia|]. cbn [fst snd].
    eexists _, _. split; [reflexivity|]. cbn [n_header_requests set_n_requests andb].
    assert (E : budget t1 peer requests = MAX_HEADER_SEGMENT_REQUESTS_PER_WINDOW) by (unfold budget; by rewrite Er).
    unfold budget at 1. rewrite lookup_insert_eq. destruct (Z.leb_spec t1 now); lia.
Qed.

Lemma answered_budget t1 peer l n : bounded ct n -> Forall (fun x => t1 <= fst x < t1 + window) l ->
  answered peer l n <= budget t1 peer (n_header_requests n).
Proof.
  intros Hn Hl. revert n Hn. induction Hl as [|[now p] l Ht Hl IH]; intros n Hn; cbn [answered].
  - destruct Hn as [_ _ _ H]. unfold budget. destruct (_ !! peer) as [[w c]|] eqn:E; [|unfold MAX_HEADER_SEGMENT_REQUESTS_PER_WINDOW; lia].
    apply H in E. simpl in E. destruct (_ <=? _); lia.
  - destruct (allowed_budget t1 peer now p n Hn Ht) as (b & n' & E & Hb). rewrite E.
    assert (Hn' : bounded ct n') by (eapply kb_allowed; [exact Hn|exact E]). specialize (IH n' Hn'). lia.
Qed.

(** * Properties *)

(** The chain does not notice the pool. What a node does with a block, and with
    the orphans that can be added after it, telling peers and pool of each before
    the next is tried, has the outcome that the chain alone gives, and leaves the
    chain as it would. *)
Theorem node_refines_chain now b opts n r n' :
  node_chain_process_block ct pv now nonce b opts n = Some (r, n') ->
  chain_process_block ct pv now b opts (n_chain n) = Some (r, n_chain n').
Proof. apply mirrors_process_block. Qed.

(** C7. The pool follows the chain. Whatever the pools held, when a block has
    become the head of the chain, be it the next or a reorganisation after which
    cached transactions come back, the pools of the node are sound on top of the
    new chain: no kernel twice, no coinbase, nothing spent twice or out of
    nothing. A block that does not become the head leaves them alone. *)
Theorem pool_follows_chain now b opts n r n' :
  node_process_block_single ct pv now nonce b opts n = Some (r, n') ->
  match r with
  | Ok (Some _) => pool_sound ct n'
  | _ => n_pool n' = n_pool n
  end.
Proof. apply block_alone_pool. Qed.

(** C10. Peers cannot flood a node. Whatever it is sent, asked and told to do,
    in whatever order and at whatever times, a node keeps one request for a segment
    of each kind and at most 1024 rejections of segments and of peers; at most 64
    segments wait for the worker; at most 16 segments of headers are kept, not two
    of the same place, each of which starts where it should and whose headers are
    linked. *)
Theorem peers_cannot_flood l c p r n' : run_node l (node_start c p) = Some (r, n') -> bounded ct n'.
Proof. intros H. eapply run_bounded; [apply node_start_bounded|exact H]. Qed.

(** Header segments are rationed. Within a minute no peer gets more than a
    thousand answers, two full windows, whoever else asks in between. *)
Theorem header_segments_rationed l0 c p r n t1 peer l : run_node l0 (node_start c p) = Some (r, n) ->
  Forall (fun x => t1 <= fst x < t1 + window) l ->
  answered peer l n <= 2 * MAX_HEADER_SEGMENT_REQUESTS_PER_WINDOW.
Proof.
  intros H Hl. assert (Hn : bounded ct n) by (eapply run_bounded; [apply node_start_bounded|exact H]).
  etransitivity; [by apply answered_budget|]. destruct Hn as [_ _ _ Hc]. unfold budget.
  destruct (_ !! peer) as [[w k]|] eqn:E; [apply Hc in E; simpl in E; destruct (_ <=? _)|]; unfold MAX_HEADER_SEGMENT_REQUESTS_PER_WINDOW in *; lia.
Qed.

(** A request for a segment admits one answer. Unless the segment is refused
    because the peer was caught with a bad one, it is queued only if it was asked
    for from this peer; and whatever comes of it, what the peer sends next for the
    same place is ignored, until it is asked for again. *)
Theorem segment_admitted_once now now' seg seg' peer n r n' : bounded ct n ->
  rejected_pibd_segment_from_peer now (segment_id seg) (pi_addr peer) (n_sync n) = false ->
  queue_pibd_segment now worker_runs seg peer n = Some (r, n') -> segment_id seg' = segment_id seg ->
  (n_queue n' = n_queue n \/
   exists a, get_pibd_segment_archive_hash (segment_id seg) (pi_addr peer) (n_sync n) = Some a /\
     n_queue n' = n_queue n ++ [mkQueued (pi_addr peer) a seg]) /\
  exists b, queue_pibd_segment now' worker_runs seg' peer n' = Some (Ok b, n').
Proof.
  intros [Hs _ _ _] Hrej H Eid.
  assert (Hi : get_pibd_segment_archive_hash (segment_id seg) (pi_addr peer) (n_sync n') = None ->
    exists b, queue_pibd_segment now' worker_runs seg' peer n' = Some (Ok b, n')).
  { intros E. unfold queue_pibd_segment, bind, asks, ret. cbv beta zeta iota. rewrite Eid.
    destruct (rejected_pibd_segment_from_peer now' _ _ (n_sync n')); [by exists false|]. rewrite E. by exists true. }
  unfold queue_pibd_segment in H. cbv zeta in H. unfold bind at 1, asks at 1 in H. rewrite Hrej in H.
  unfold bind at 1, asks at 1 in H.
  destruct (get_pibd_segment_archive_hash _ _ (n_sync n)) as [a|] eqn:Ea.
  2: { injection H as <- <-. split; [by left|]. by apply Hi. }
  pose proof (answered_once _ _ _ _ Hs Ea) as Hn.
  destruct worker_runs; cbn [negb] in H.
  - unfold bind at 1, asks at 1 in H. destruct (_ <=? _).
    + injection H as <- <-. split; [by left|]. by apply Hi.
    + injection H as <- <-. split; [right; by exists a|]. by apply Hi.
  - injection H as <- <-. split; [by left|]. by apply Hi.
Qed.

(** C24. Joining header segments ends. After at most as many turns as there are
    segments in the cache, each of which adds the headers of the next segment to
    the chain and takes it out of the cache, it stops with a result: because headers
    are no longer asked for, because no segment in the cache is the next one, or
    because the headers of the next one are refused, which names the peer that sent
    them. If the chain panics over the headers of the next segment, so does it. *)
Theorem header_joining_ends n :
  exists k m, nsteps (joins ct pv) k n m /\ (k <= length (n_header_cache n))%nat /\
    ((exists r n', joined ct pv m r n' /\ process_ready_pihd_header_segments ct pv n = Some (r, n')) \/
     (join_panics ct pv m /\ process_ready_pihd_header_segments ct pv n = None)).
Proof. apply ready_runs. done. Qed.
End life.
