(* ===== verification/HeaderChain.v ===== *)
(** The chain of headers.

    What [validate_header] asks of a header, and what the stored headers are
    because of it: a tree that grows from the genesis header, in which heights
    count the steps, times and work increase, and every header has the
    difficulty that the difficulty adjustment gives for the headers before it. *)

From Stdlib Require Import ZArith Lia.
From stdpp Require Import base numbers option sorting gmap list.
From S2P Require Import Prelude Consensus PmmrIndex Pmmr Ser LinkedList Kernel CutThrough Transaction PowTypes Block ChainTypes.
From S2P Require Import ChainStore BitmapAccumulator TxHashSet Pipe Chain PipeSpec.
Open Scope Z_scope.

(** ** What happens to a chain

    The calls that the rest of the node makes, and the chains they lead to. *)

Inductive Event : Type :=
| BlockReceived (b : Block) (opts now : Z)
| HeaderReceived (h : BlockHeader) (opts : Z)
| HeadersReceived (headers : list BlockHeader) (sync_head : Tip) (opts : Z)
| HeaderInvalidated (hash : Ser.Hash)
| HeadReset (t : Tip) (rewind_headers : bool)
| HeadResetToGenesis
| PibdHeadReset
| PruneListsReset
| Compacted
| Validated (fast : bool)
| TxValidated (tx : Transaction)
| BlockPrepared (b : Block).

Section node.
Context {CR : Crypto} {SU : SortUnstable} {NF : NrdFlag} (ct : ChainTypes).
Context {MH : Mmr BlockHeader HeaderEntry} {MO : Mmr OutputIdentifier OutputIdentifier}.
Context {MR : Mmr RangeProof RangeProof} {MK : Mmr TxKernel TxKernel}.
Context (pv : BlockHeader -> bool) (archive_mode : bool) (genesis : Block).

Definition handle (e : Event) : M Chain unit :=
  match e with
  | BlockReceived b opts now => let* _ := chain_process_block ct pv now b opts in ret tt
  | HeaderReceived h opts => chain_process_block_header ct pv h opts
  | HeadersReceived l sync_head opts => let* _ := sync_block_headers ct pv l sync_head opts in ret tt
  | HeaderInvalidated hash => invalidate_header hash
  | HeadReset t rewind_headers => reset_chain_head ct pv t rewind_headers
  | HeadResetToGenesis => reset_chain_head_to_genesis ct pv genesis
  | PibdHeadReset => reset_pibd_head ct genesis
  | PruneListsReset => reset_prune_lists
  | Compacted => chain_compact ct archive_mode
  | Validated fast => chain_validate ct pv genesis fast
  | TxValidated tx => chain_validate_tx tx
  | BlockPrepared b => let* _ := set_txhashset_roots ct pv b in ret tt
  end.

(** Chains that a node gets to: started on an empty database, after events that
    satisfy [ok], and restarted. *)
Inductive reaches (ok : Event -> Prop) : Chain -> Prop :=
| reaches_start u c : db_headers (u_batch u) = ∅ -> init ct pv genesis u = Some (Ok c) -> reaches ok c
| reaches_restart c c' : reaches ok c -> init ct pv genesis (c_us c) = Some (Ok c') -> reaches ok c'
| reaches_step c e r c' : reaches ok c -> ok e -> handle e c = Some (r, c') -> reaches ok c'.
End node.

Section header_chain.
Context {CR : Crypto} {SU : SortUnstable} {NF : NrdFlag} (ct : ChainTypes).
Context {MH : Mmr BlockHeader HeaderEntry} {MO : Mmr OutputIdentifier OutputIdentifier}.
Context {MR : Mmr RangeProof RangeProof} {MK : Mmr TxKernel TxKernel}.
Implicit Types (h prev : BlockHeader) (m : gmap Ser.Hash BlockHeader).

(** The fields of a header that are machine integers. *)
Definition typed h : Prop := u64 (height h) /\ u64 (num (header_difficulty h)).

(** The proof of work is of an allowed size and the verifier accepts it. *)
Definition proven (pv : BlockHeader -> bool) h : Prop :=
  is_primary ct (pow h) || pow_is_secondary (pow h) = true /\ pv h = true.

(** The difficulty adjustment over the stored headers up to [prev]. *)
Definition next_info m (height : Z) prev : option HeaderDifficultyInfo :=
  let! k := header_hash ct prev in next_difficulty ct height (walk_back (Z.to_nat DMA_WINDOW + 1) m k).

(** What a header must be to come after [prev] in a store of headers. *)
Record follows (pv : BlockHeader -> bool) m h prev : Prop := mkFollows {
  follows_stored : m !! prev_hash h = Some prev;
  follows_height : height h = add64 (height prev) 1;
  follows_version : valid_header_version ct (height h) (version h) = true;
  follows_time : timestamp prev < timestamp h;
  follows_outputs : sat_sub64 (output_mmr_count h) (output_mmr_count prev) <> 0;
  follows_kernels : sat_sub64 (kernel_mmr_count h) (kernel_mmr_count prev) <> 0;
  follows_weight : weight_by_iok 0 (sat_sub64 (output_mmr_count h) (output_mmr_count prev))
                     (sat_sub64 (kernel_mmr_count h) (kernel_mmr_count prev)) <= max_block_weight ct;
  follows_proven : proven pv h;
  follows_work : exists info d,
    next_info m (height h) prev = Some info /\
    num (header_difficulty h) = num (header_difficulty prev) + num (difficulty info) /\ 0 < num (difficulty info) /\
    to_difficulty ct (pow h) (height h) = Some d /\ num (difficulty info) <= num d /\
    (version h < 5 -> pow_secondary_scaling (pow h) = secondary_scaling info);
}.

Lemma validate_pow_only_Ok ctx h : contains_option (opts ctx) SKIP_POW = false ->
  validate_pow_only ct ctx h = Ok tt <-> proven (pow_verifier ctx) h.
Proof.
  intros Ho. unfold validate_pow_only, proven. rewrite Ho.
  destruct (is_primary ct (pow h)), (pow_is_secondary (pow h)), (pow_verifier ctx h); cbn; split; try done; by intros [? ?].
Qed.

Lemma header_pow_Ok ctx h prev b : contains_option (opts ctx) SKIP_POW = false -> typed h -> typed prev ->
  validate_header_pow ct ctx h prev b = Some (Ok tt) <->
  proven (pow_verifier ctx) h /\ exists info d,
    next_info (db_headers b) (height h) prev = Some info /\
    num (header_difficulty h) = num (header_difficulty prev) + num (difficulty info) /\ 0 < num (difficulty info) /\
    to_difficulty ct (pow h) (height h) = Some d /\ num (difficulty info) <= num d /\
    (version h < 5 -> pow_secondary_scaling (pow h) = secondary_scaling info).
Proof.
  intros Ho [_ Hh] [_ Hp]. unfold validate_header_pow, next_info. rewrite <- (validate_pow_only_Ok ctx h Ho).
  destruct (validate_pow_only ct ctx h) as [[]|e]; [|split; [done|by intros [? _]]].
  destruct (Z.leb_spec (num (header_difficulty h)) (num (header_difficulty prev))) as [Hle|Hlt].
  { split; [done|]. intros (_ & info & d & _ & ? & ? & _). lia. }
  destruct (to_difficulty ct (pow h) (height h)) as [d|]; cbn [mbind option_bind]; [|split; [done|by intros (_ & ? & ? & _ & _ & _ & ? & _)]].
  assert (num (Diff.sub (header_difficulty h) (header_difficulty prev)) = num (header_difficulty h) - num (header_difficulty prev)) as ->.
  { cbn. apply sub64_small. unfold u64, in_range in *. lia. }
  unfold difficulty_items. destruct (header_hash ct prev) as [k|]; cbn [mbind option_bind].
  2: { destruct (Z.ltb_spec (num d) (num (header_difficulty h) - num (header_difficulty prev))); split; try done; by intros (_ & ? & ? & ? & _). }
  rewrite di_take_walk.
  destruct (next_difficulty ct (height h) _) as [info|]; cbn [mbind option_bind].
  2: { destruct (Z.ltb_spec (num d) (num (header_difficulty h) - num (header_difficulty prev))); split; try done; by intros (_ & ? & ? & ? & _). }
  destruct (Z.ltb_spec (num d) (num (header_difficulty h) - num (header_difficulty prev))) as [Hd|Hd].
  { split; [done|]. intros (_ & i' & d' & Ei & ? & ? & Ed & ? & _). injection Ei as <-. injection Ed as <-. lia. }
  destruct (Z.eqb_spec (num (header_difficulty h) - num (header_difficulty prev)) (num (difficulty info))) as [Ht|Ht]; cbn [negb].
  2: { split; [done|]. intros (_ & i' & d' & Ei & ? & ? & _). injection Ei as <-. lia. }
  destruct (Z.ltb_spec (version h) 5) as [Hv|Hv]; cbn [andb].
  - destruct (Z.eqb_spec (pow_secondary_scaling (pow h)) (secondary_scaling info)) as [Hs|Hs]; cbn [negb].
    + split; [|done]. intros _. split; [done|]. exists info, d. repeat split; try done; lia.
    + split; [done|]. intros (_ & i' & d' & Ei & _ & _ & _ & _ & Hs'). injection Ei as <-. by apply Hs' in Hv.
  - split; [|done]. intros _. split; [done|]. exists info, d. repeat split; try done; lia.
Qed.

Lemma validate_header_Ok ctx h u u' : contains_option (opts ctx) SKIP_POW = false -> typed h ->
  (forall prev, db_headers (u_batch u) !! prev_hash h = Some prev -> typed prev) ->
  validate_header ct ctx h u = Some (Ok tt, u') <->
  u' = u /\ header_allowed ctx h = Some (Ok tt) /\
  exists prev, follows (pow_verifier ctx) (db_headers (u_batch u)) h prev.
Proof.
  intros Ho Hh Hp. unfold validate_header, validate_header_ctx, with_batch, prev_header_store, get_previous_header,
    get_block_header, found.
  split.
  - intros H.
    apply bind_Ok in H as ([] & u1 & H1 & H). apply bind_Ok in H1 as (r & u0 & Hr & H1).
    apply must_Ok in Hr as [Hr ->]. apply lift_Ok in H1 as [-> ->].
    apply bind_Ok in H as (prev & u2 & Hg & H). apply gets_Ok in Hg as [Hg ->].
    destruct (_ !! _) as [prev'|] eqn:Es; [|done]. injection Hg as ->.
    apply bind_Ok in H as ([] & ? & H1 & H). apply guard_Ok in H1 as [H1 ->].
    apply bind_Ok in H as ([] & ? & H2 & H). apply guard_Ok in H2 as [H2 ->].
    apply bind_Ok in H as ([] & ? & H3 & H). apply guard_Ok in H3 as [H3 ->].
    apply bind_Ok in H as ([] & ? & H4 & H). apply guard_Ok in H4 as [H4 ->].
    apply bind_Ok in H as ([] & ? & H5 & H). apply guard_Ok in H5 as [H5 ->].
    rewrite Ho in H. apply bind_Ok in H as (b & ? & H6 & H). apply asks_Some in H6 as [[= ->] ->].
    apply bind_Ok in H as (r' & ? & H6 & H). apply must_Ok in H6 as [H6 ->]. apply lift_Ok in H as [-> ->].
    apply (header_pow_Ok ctx h prev) in H6 as [Hpv Hw]; [|done|done|by apply Hp].
    split; [done|]. split; [done|]. exists prev.
    apply negb_true_iff, orb_false_iff in H4 as [H4a H4b].
    apply Z.eqb_neq in H4a, H4b. apply Z.leb_le in H5. apply Z.eqb_eq in H1. apply Z.ltb_lt in H3.
    exact (mkFollows _ _ _ _ Es H1 H2 H3 H4a H4b H5 Hpv Hw).
  - intros (-> & Ha & prev & [Es Hhe Hve Hti Hou Hke Hwe Hpr Hwo]).
    unfold bind, must, lift, gets, asks, guard, ret. rewrite Ha, Es, Ho. cbn [ok_or].
    rewrite (proj2 (Z.eqb_eq _ _) Hhe), Hve, (proj2 (Z.ltb_lt _ _) Hti), (proj2 (Z.eqb_neq _ _) Hou),
      (proj2 (Z.eqb_neq _ _) Hke), (proj2 (Z.leb_le _ _) Hwe).
    cbn [orb negb].
    assert (validate_header_pow ct ctx h prev (u_batch u) = Some (Ok tt)) as ->; [|reflexivity].
    apply (header_pow_Ok ctx h prev); [done|done|by apply Hp|by split].
Qed.

(** *** The tree of stored headers *)

Section tree.
Context (pv : BlockHeader -> bool) (genesis : BlockHeader).

Definition admissible h : Prop := h = genesis \/ proven pv h.

(** The hash of a header is that of its proof of work, which is bound to the rest
    of the header by the verifier; and nobody finds a header with the hash that
    the genesis header gives for its predecessor. *)
Definition binding : Prop := forall h1 h2 k, admissible h1 -> admissible h2 ->
  header_hash ct h1 = Some k -> header_hash ct h2 = Some k -> h1 = h2.
Definition rootless : Prop := forall h, admissible h -> header_hash ct h <> Some (prev_hash genesis).

Record header_tree m : Prop := mkTree {
  tree_keyed : keyed ct m;
  tree_typed : forall k h, m !! k = Some h -> typed h;
  tree_linked : forall k h, m !! k = Some h -> h = genesis \/ exists prev, follows pv m h prev;
}.

Context (Hbind : binding) (Hroot : rootless).

Lemma tree_admissible m k h : header_tree m -> m !! k = Some h -> admissible h.
Proof. intros [_ _ Hl] Hk. destruct (Hl k h Hk) as [->|(prev & [])]; [by left|by right]. Qed.

Lemma tree_root m : header_tree m -> m !! prev_hash genesis = None.
Proof.
  intros Ht. destruct (m !! prev_hash genesis) as [h|] eqn:E; [|done]. exfalso.
  apply (Hroot h); [by eapply tree_admissible|]. by apply (tree_keyed m Ht).
Qed.

(** The predecessors of what is stored are the same in a larger tree. *)
Lemma tree_prev m m' k h : header_tree m -> header_tree m' -> m ⊆ m' -> m !! k = Some h ->
  m !! prev_hash h = m' !! prev_hash h.
Proof.
  intros Ht Ht' Hs Hk. destruct (tree_linked m Ht k h Hk) as [->|(prev & Hf)].
  - by rewrite !tree_root.
  - pose proof (follows_stored _ _ _ _ Hf) as Hp. rewrite Hp. symmetry. by eapply lookup_weaken.
Qed.

Lemma next_info_mono m m' height prev :
  m ⊆ m' -> (forall k h, m !! k = Some h -> m !! prev_hash h = m' !! prev_hash h) ->
  (forall k, header_hash ct prev = Some k -> m !! k = Some prev) ->
  next_info m' height prev = next_info m height prev.
Proof.
  intros Hs Hp Hk. unfold next_info. destruct (header_hash ct prev) as [k|]; [|done]. cbn [mbind option_bind].
  f_equal. apply walk_back_mono; [done|done|]. rewrite (Hk k eq_refl). symmetry. eapply lookup_weaken; [|exact Hs]. by apply Hk.
Qed.

Lemma follows_mono m m' h prev :
  keyed ct m -> m ⊆ m' -> (forall k x, m !! k = Some x -> m !! prev_hash x = m' !! prev_hash x) ->
  follows pv m h prev -> follows pv m' h prev.
Proof.
  intros Hk Hs Hp [Es Hhe Hve Hti Hou Hke Hwe Hpr Hw].
  apply mkFollows; [by eapply lookup_weaken|exact Hhe|exact Hve|exact Hti|exact Hou|exact Hke|exact Hwe|exact Hpr|].
  destruct Hw as (info & d & Hi & Hw). exists info, d. rewrite (next_info_mono m m'); [done|done|done|].
  intros k Ek. pose proof (Hk _ _ Es) as E. rewrite Ek in E. injection E as ->. done.
Qed.

Lemma insert_tree m k h prev : header_tree m -> typed h -> header_hash ct h = Some k -> follows pv m h prev ->
  m ⊆ <[k := h]> m /\ header_tree (<[k := h]> m).
Proof.
  intros Ht Hty Hk Hf.
  assert (Hadm : admissible h) by (right; by destruct Hf).
  assert (Hs : m ⊆ <[k := h]> m).
  { destruct (m !! k) as [h0|] eqn:E; [|by apply insert_subseteq].
    rewrite (Hbind h h0 k); [by rewrite insert_id|done|by eapply tree_admissible|done|by apply (tree_keyed m Ht)]. }
  assert (Hkey : keyed ct (<[k := h]> m)).
  { intros k' h' [[<- <-]|[_ E]]%lookup_insert_Some; [done|by apply (tree_keyed m Ht)]. }
  assert (Hroot' : <[k := h]> m !! prev_hash genesis = None).
  { rewrite lookup_insert_ne; [by apply tree_root|]. intros ->. by apply (Hroot h Hadm). }
  assert (Hprev : forall k' x, m !! k' = Some x -> m !! prev_hash x = <[k := h]> m !! prev_hash x).
  { intros k' x Hx. destruct (tree_linked m Ht k' x Hx) as [->|(p & Hp)].
    - by rewrite (tree_root m Ht), Hroot'.
    - rewrite (follows_stored _ _ _ _ Hp). symmetry. eapply lookup_weaken; [apply Hp|done]. }
  split; [done|]. split; [done|..].
  - intros k' h' [[<- <-]|[_ E]]%lookup_insert_Some; [done|by eapply tree_typed].
  - intros k' h' [[<- <-]|[_ E]]%lookup_insert_Some.
    + right. exists prev. eapply follows_mono; [apply Ht|done|done|done].
    + destruct (tree_linked m Ht k' h' E) as [?|(p & Hp)]; [by left|]. right. exists p.
      eapply follows_mono; [apply Ht|done|done|done].
Qed.

Lemma genesis_tree k : typed genesis -> header_hash ct genesis = Some k -> header_tree {[k := genesis]}.
Proof.
  intros Hty Hk. split.
  - by intros k' h' [<- <-]%lookup_singleton_Some.
  - by intros k' h' [<- <-]%lookup_singleton_Some.
  - intros k' h' [_ <-]%lookup_singleton_Some. by left.
Qed.

(** *** What the tree gives *)

(** The work since the genesis block bounds the number of steps from it, so
    heights do not wrap around. *)
Lemma tree_path m k h : header_tree m -> typed genesis -> height genesis = 0 -> m !! k = Some h ->
  ancestor m h (Z.to_nat (height h)) = Some genesis /\
  height h + num (header_difficulty genesis) <= num (header_difficulty h).
Proof.
  intros Ht [_ Hgd] Hg. remember (Z.to_nat (num (header_difficulty h))) as n eqn:En.
  revert k h En. induction n as [n IH] using (well_founded_induction lt_wf). intros k h -> Hk.
  destruct (tree_linked m Ht k h Hk) as [->|(prev & Hf)].
  { rewrite Hg. cbn. split; [done|lia]. }
  pose proof (tree_typed m Ht _ _ (follows_stored _ _ _ _ Hf)) as [Hph Hpd].
  destruct (tree_typed m Ht _ _ Hk) as [Hhh Hhd].
  destruct (follows_work _ _ _ _ Hf) as (info & d & _ & Hw & Hpos & _).
  destruct (IH (Z.to_nat (num (header_difficulty prev)))) with (k := prev_hash h) (h := prev) as [Hanc Hle];
    [unfold u64, in_range in *; lia|done|apply Hf|].
  assert (height h = height prev + 1) as Hheight.
  { rewrite (follows_height _ _ _ _ Hf). apply add64_small. unfold u64, in_range in *. lia. }
  split; [|lia].
  rewrite Hheight, Z2Nat.inj_add, Nat.add_1_r by (unfold u64, in_range in *; lia). cbn [ancestor Z.to_nat].
  by rewrite (follows_stored _ _ _ _ Hf).
Qed.

Lemma follows_height_exact m h prev : header_tree m -> typed genesis -> height genesis = 0 -> u64 (num (header_difficulty h)) ->
  follows pv m h prev -> height h = height prev + 1.
Proof.
  intros Ht Htg Hg Hty Hf. rewrite (follows_height _ _ _ _ Hf). apply add64_small.
  pose proof (tree_typed m Ht _ _ (follows_stored _ _ _ _ Hf)) as [Hph Hpd].
  destruct (tree_path m _ _ Ht Htg Hg (follows_stored _ _ _ _ Hf)) as [_ Hle].
  destruct (follows_work _ _ _ _ Hf) as (info & d & _ & Hw & Hpos & _).
  destruct Htg as [_ Hgd]. unfold u64, in_range in *. lia.
Qed.
End tree.

(** *** The pipeline keeps the tree *)

Section pipeline.
Context (pv : BlockHeader -> bool) (genesis : BlockHeader).
Context (Hbind : binding pv genesis) (Hroot : rootless pv genesis).

(** The stored headers of a batch. *)
Definition headers_are m (b : Batch) : Prop := db_headers b = m.
Definition in_tree (b : Batch) : Prop := header_tree pv genesis (db_headers b).

Lemma in_tree_part b b' : part_of b = part_of b' -> in_tree b -> in_tree b'.
Proof. unfold in_tree, part_of. intros H. by injection H as _ _ _ _ -> _. Qed.

Lemma headers_part m b b' : part_of b = part_of b' -> headers_are m b -> headers_are m b'.
Proof. unfold headers_are, part_of. intros H. by injection H as _ _ _ _ -> _. Qed.

Lemma validate_header_keeps (P : US -> Prop) ctx h : keeps P (validate_header ct ctx h).
Proof. unfold validate_header, validate_header_ctx, with_batch. keeps_auto. Qed.

Lemma check_known_keeps (P : US -> Prop) h hd : keeps P (check_known ct h hd).
Proof. unfold check_known, check_known_head, check_known_store. keeps_auto. Qed.

(** The header unit of work of [process_block_header]. *)
Lemma header_work_keeps (Q : Batch -> Prop) ctx h prev hhd :
  keeps (batch_is Q) (on_header (header_extending ct (
    rewind_and_apply_header_fork ct ctx prev ;*
    hx_validate_root ct h ;*
    apply_header ct h ;*
    if negb (has_more_work h hhd) then hx_force_rollback else ret tt))).
Proof.
  apply header_unit_keeps, keeps_same_batch. intros b.
  apply keeps_bind; [apply header_fork_keeps|intros []]. apply keeps_bind; [apply hx_validate_root_keeps|intros []].
  apply keeps_bind; [apply apply_header_keeps|intros []]. destruct (negb _); [apply hx_force_rollback_keeps|apply keeps_ret].
Qed.

(** Saving a header that follows from the tree. *)
Lemma add_header_tree h prev m : header_tree pv genesis m -> typed h -> follows pv m h prev ->
  forall u r u', batch_is (headers_are m) u -> add_block_header ct h u = Some (r, u') -> batch_is in_tree u'.
Proof.
  intros Ht Hty Hf u r u' Hu H. unfold add_block_header, put_batch_opt, bind, asks, must, save_block_header, put_batch, modify in H.
  destruct (header_hash ct h) as [k|] eqn:Ek; cbn [mbind option_bind] in H; [|done]. injection H as <- <-.
  unfold batch_is, in_tree, headers_are in *. cbn. rewrite Hu. by apply (insert_tree pv genesis Hbind Hroot m k h prev).
Qed.

Lemma accept_keeps ctx h (mid rest : M US unit) : contains_option (opts ctx) SKIP_POW = false ->
  pow_verifier ctx = pv -> typed h ->
  (forall m, keeps (batch_is (headers_are m)) mid) -> keeps (batch_is in_tree) rest ->
  keeps (batch_is in_tree) (validate_header ct ctx h ;* mid ;* add_block_header ct h ;* rest).
Proof.
  intros Ho Hpv Hty Hmid Hrest u r u' Hu H.
  apply bind_Some in H as [(e & H & ->)|([] & u1 & Hv & H)]; [by eapply (validate_header_keeps (batch_is in_tree))|].
  assert (Htyp : forall prev, db_headers (u_batch u) !! prev_hash h = Some prev -> typed prev).
  { intros prev. apply (tree_typed pv genesis _ Hu). }
  apply (validate_header_Ok ctx h u u1 Ho Hty Htyp) in Hv as (-> & _ & prev & Hf). rewrite Hpv in Hf.
  set (m := db_headers (u_batch u)) in *.
  apply bind_Some in H as [(e & H & ->)|([] & u2 & H2 & H)].
  { eapply Hmid in H; [|reflexivity]. unfold batch_is, in_tree, headers_are in *. by rewrite H. }
  assert (E2 : batch_is (headers_are m) u2) by (by eapply Hmid).
  apply bind_Some in H as [(e & H & ->)|([] & u3 & H3 & H)].
  - by eapply (add_header_tree h prev m).
  - eapply Hrest; [|exact H]. by eapply (add_header_tree h prev m).
Qed.

Lemma process_header_tree ctx h : contains_option (opts ctx) SKIP_POW = false -> pow_verifier ctx = pv -> typed h ->
  keeps (batch_is in_tree) (process_block_header ct ctx h).
Proof.
  intros Ho Hpv Hty. unfold process_block_header, with_batch.
  apply keeps_bind; [apply keeps_gets|intros hd]. apply keeps_bind; [apply keeps_try, check_known_keeps|intros known].
  destruct (negb (is_ok known)); [apply keeps_ret|].
  apply keeps_bind; [apply keeps_gets|intros prev]. apply keeps_bind; [apply keeps_gets|intros hhd].
  apply keeps_bind; [apply keeps_must|intros k]. apply keeps_bind; [apply keeps_asks|intros existing].
  destruct (match existing with Ok _ => _ | Err _ => _ end); [apply keeps_ret|].
  apply accept_keeps; [done|done|done|intros m; apply header_work_keeps|].
  destruct (has_more_work h hhd); [|apply keeps_ret].
  apply keeps_bind; [apply keeps_must|intros t]. by apply put_batch_keeps.
Qed.

Lemma process_block_tree ctx b : contains_option (opts ctx) SKIP_POW = false -> pow_verifier ctx = pv ->
  typed (header b) -> keeps (batch_is in_tree) (process_block ct ctx b).
Proof.
  intros Ho Hpv Hty. unfold process_block, validate_block, with_batch.
  apply keeps_bind; [apply keeps_gets|intros hd]. apply keeps_bind; [apply check_known_keeps|intros []].
  apply keeps_bind; [apply keeps_lift|intros []]. apply keeps_bind; [apply keeps_gets|intros prev].
  apply keeps_bind; [by apply process_header_tree|intros []].
  apply keeps_bind; [keeps_auto|intros []].
  apply keeps_bind; [|intros fp].
  { apply extending_keeps, keeps_same_part; [apply in_tree_part|]. intros p. apply process_ext_keeps. }
  apply keeps_bind; [|intros []].
  { apply put_batch_opt_keeps. intros b0 b' E. unfold save_block in E. destruct (block_hash ct b); [|done]. by injection E as <-. }
  apply keeps_bind; [apply keeps_asks|intros tl].
  apply keeps_bind; [|intros []].
  { destruct (is_ok tl); [apply keeps_ret|]. apply keeps_bind; [apply keeps_must|intros t]. by apply put_batch_keeps. }
  destruct (has_more_work (header b) hd); [|apply keeps_ret].
  apply keeps_bind; [apply keeps_must|intros t]. apply keeps_bind; [by apply put_batch_keeps|intros []]. apply keeps_ret.
Qed.

Lemma accept_all_tree ctx l : contains_option (opts ctx) SKIP_POW = false -> pow_verifier ctx = pv -> Forall typed l ->
  keeps (batch_is in_tree) (each (fun h => validate_header ct ctx h ;* add_block_header ct h) l).
Proof.
  intros Ho Hpv Hl. induction Hl as [|h l Hh Hl IH]; cbn [each]; [apply keeps_ret|].
  apply keeps_bind; [|by intros []]. intros u r u' Hu H.
  eapply (accept_keeps ctx h (ret tt) (ret tt) Ho Hpv Hh); [intros m; apply keeps_ret|apply keeps_ret|exact Hu|].
  instantiate (1 := r). rewrite <- H. unfold bind, ret. destruct (validate_header ct ctx h u) as [[[[]|e] u1]|]; [|done|done].
  by destruct (add_block_header ct h u1) as [[[[]|e] u2]|].
Qed.

Lemma process_headers_tree ctx l sync_head : contains_option (opts ctx) SKIP_POW = false -> pow_verifier ctx = pv ->
  Forall typed l -> keeps (batch_is in_tree) (process_block_headers ct ctx l sync_head).
Proof.
  intros Ho Hpv Hl. unfold process_block_headers. destruct (last l) as [h|]; [|apply keeps_ret].
  apply keeps_bind; [apply keeps_gets|intros hd]. apply keeps_bind; [by apply accept_all_tree|intros []].
  apply header_unit_keeps.
  apply keeps_bind; [apply keeps_same_batch; intros b; apply header_fork_keeps|intros []].
  apply keeps_bind; [apply keeps_same_batch; intros b; apply on_current_keeps|intros on].
  apply keeps_bind; [apply keeps_must|intros t]. apply keeps_bind; [|intros []; apply keeps_ret].
  destruct (has_more_work h hd).
  - apply keeps_modify. intros s Hs. exact Hs.
  - apply keeps_same_batch. intros b. apply hx_force_rollback_keeps.
Qed.

(** *** The chain keeps the tree *)

(** A property of the database and of the orphans. *)
Definition chain_is (Q : Batch -> Prop) (R : OrphanBlockPool -> Prop) (c : Chain) : Prop := Q (db c) /\ R (c_orphans c).

(** Orphans wait with a header as it was received. *)
Definition received (b : Block) (o : Z) : Prop := typed (header b) /\ contains_option o SKIP_POW = false.
Definition orphans_received (p : OrphanBlockPool) : Prop :=
  map_Forall (fun _ o => received (or_block o) (or_opts o)) (orphans p).

Lemma on_us_keeps {A} Q R (m : M US A) : keeps (batch_is Q) m -> keeps (chain_is Q R) (on_us m).
Proof. intros Hm. apply keeps_focus. intros c [Hq Hr]. split; [|by split]. intros u r u' [Hu _] H. split; [by eapply Hm|done]. Qed.

Lemma modify_chain_keeps Q R f : (forall c, db (f c) = db c /\ c_orphans (f c) = c_orphans c) ->
  keeps (chain_is Q R) (modify f).
Proof. intros Hf. apply keeps_modify. intros c [Hq Hr]. destruct (Hf c) as [E1 E2]. split; by rewrite ?E1, ?E2. Qed.

(** Eviction only removes orphans. *)
Lemma fold_delete_subseteq (hs : list Ser.Hash) (os : gmap Ser.Hash Orphan) : fold_left (fun os k => delete k os) hs os ⊆ os.
Proof.
  revert os. induction hs as [|k hs IH]; intros os; [done|]. cbn. etrans; [apply IH|]. apply delete_subseteq.
Qed.

Lemma evict_loop_subseteq hs os idx : fst (evict_loop hs os idx) ⊆ os.
Proof.
  revert os idx. induction hs as [|k hs IH]; intros os idx; [done|]. cbn [evict_loop].
  destruct (idx !! k) as [xs|].
  - destruct (Z.ltb _ _); [apply fold_delete_subseteq|]. etrans; [apply IH|apply fold_delete_subseteq].
  - destruct (Z.ltb _ _); [done|]. apply IH.
Qed.

Lemma evict_subseteq now p : orphans (evict now p) ⊆ orphans p.
Proof.
  unfold evict. destruct (evict_loop _ _ _) as [os idx] eqn:E. cbn [orphans].
  replace os with (fst (os, idx)) by done. rewrite <- E. etrans; [apply evict_loop_subseteq|]. apply map_filter_subseteq.
Qed.

Lemma orphan_add_received now k o p : received (or_block o) (or_opts o) -> orphans_received p ->
  orphans_received (orphan_add now k o p).
Proof.
  intros Ho Hp. unfold orphan_add.
  set (p' := mkOrphans _ _ _). assert (H : orphans_received p') by (by apply map_Forall_insert_2).
  destruct (_ <? _); [|done]. intros k' o' E. eapply H, lookup_weaken; [exact E|apply evict_subseteq].
Qed.

Lemma take_orphans_received hs os : map_Forall (fun _ o => received (or_block o) (or_opts o)) os ->
  Forall (fun o => received (or_block o) (or_opts o)) (fst (take_orphans hs os)) /\ snd (take_orphans hs os) ⊆ os.
Proof.
  revert os. induction hs as [|k hs IH]; intros os Hos; cbn [take_orphans]; [split; [cbn; constructor|done]|].
  destruct (os !! k) as [o|] eqn:E; [|by apply IH].
  destruct (IH (delete k os)) as [Hl Hs]; [by apply map_Forall_delete|]. destruct (take_orphans hs (delete k os)) as [l os'].
  cbn in *. split; [constructor; [by apply (Hos k)|done]|]. etrans; [done|]. apply delete_subseteq.
Qed.

Lemma remove_by_height_received n p : orphans_received p ->
  orphans_received (snd (remove_by_height n p)) /\
  forall l, fst (remove_by_height n p) = Some l -> Forall (fun o => received (or_block o) (or_opts o)) l.
Proof.
  intros Hp. unfold remove_by_height. destruct (height_idx p !! n) as [hs|]; [|by split].
  destruct (take_orphans_received hs (orphans p) Hp) as [Hl Hs]. destruct (take_orphans hs (orphans p)) as [l os].
  cbn in *. split; [|by intros ? [= <-]]. intros k o E. cbn in E. eapply Hp, lookup_weaken; [exact E|done].
Qed.

End pipeline.

(** *** From the pipeline to the chain *)

Section facade.
Context (pv : BlockHeader -> bool) (Q : Batch -> Prop).
Context (Hblock : forall d b o, received b o -> keeps (batch_is Q) (process_block ct (new_ctx ct pv o d) b)).
Context (Hheader : forall d b o, received b o ->
  keeps (batch_is Q) (process_block_header ct (new_ctx ct pv o d) (header b))).

Abbreviation kept := (chain_is Q orphans_received).

Lemma from_db_keeps {A} P (f : Batch -> result CE.Error A) : keeps P (from_db f).
Proof. apply keeps_gets. Qed.
#[local] Hint Resolve from_db_keeps : keeps.

Lemma is_known_keeps P h : keeps P (is_known ct h).
Proof. unfold is_known. keeps_auto. Qed.

Lemma check_orphan_keeps now b o : received b o -> keeps kept (check_orphan ct now b o).
Proof.
  intros Hr. unfold check_orphan. apply keeps_bind; [apply from_db_keeps|intros hd].
  apply keeps_bind; [apply keeps_asks|intros ex]. destruct (_ || _); [apply keeps_ret|].
  apply keeps_bind; [apply keeps_must|intros k]. apply keeps_bind; [|intros []; apply keeps_throw].
  apply keeps_modify. intros c [Hq Ho]. split; [done|]. by apply orphan_add_received.
Qed.

Lemma determine_status_keeps P t p ph fp : keeps P (determine_status t p ph fp).
Proof. unfold determine_status, chain_is_on_current_chain, chain_header_hash_by_height. keeps_auto. Qed.

Lemma process_single_keeps now b o : received b o -> keeps kept (process_block_single ct pv now b o).
Proof.
  intros Hr. unfold process_block_single, chain_process_block_header.
  apply keeps_bind; [|intros []].
  { apply keeps_bind; [apply keeps_asks|intros d]. by apply on_us_keeps, committing_keeps, Hheader. }
  apply keeps_bind; [apply is_known_keeps|intros []]. apply keeps_bind; [by apply check_orphan_keeps|intros []].
  apply keeps_bind; [apply from_db_keeps|intros ph]. apply keeps_bind; [apply keeps_asks|intros d].
  apply keeps_bind; [by apply on_us_keeps, committing_keeps, Hblock|intros [hd fp]].
  apply keeps_bind; [apply from_db_keeps|intros prev]. apply keeps_bind; [apply keeps_must|intros t].
  apply keeps_bind; [apply keeps_must|intros t']. apply keeps_bind; [apply determine_status_keeps|intros st].
  apply keeps_bind; [by apply modify_chain_keeps|intros []]. apply keeps_ret.
Qed.

Lemma process_orphans_keeps now os acc : Forall (fun o => received (or_block o) (or_opts o)) os ->
  keeps kept (process_orphans ct pv now os acc).
Proof.
  intros Hos. revert acc. induction Hos as [|o os Ho Hos IH]; intros acc; cbn [process_orphans]; [apply keeps_ret|].
  apply keeps_bind; [by apply keeps_try, process_single_keeps|intros r]. apply IH.
Qed.

Lemma check_orphans_keeps now fuel n : keeps kept (check_orphans ct pv now fuel n).
Proof.
  revert n. induction fuel as [|fuel IH]; intros n c r c' Hc H; cbn [check_orphans] in H; [done|].
  apply bind_Some in H as [(e & H & ->)|([os pool] & c1 & H1 & H)]; [done|].
  apply asks_Some in H1 as [H1 ->]. injection H1 as H1. destruct Hc as [Hq Ho].
  destruct (remove_by_height_received n _ Ho) as [Hp Hl]. rewrite <- H1 in Hp, Hl. cbn in Hp, Hl.
  apply bind_Some in H as [(e & H & ->)|([] & c2 & H2 & H)]; [done|]. unfold modify in H2. injection H2 as <-.
  assert (Hc2 : kept (set_orphans pool c)) by (by split).
  destruct os as [l|]; [|by injection H as _ <-].
  eapply keeps_bind; [apply process_orphans_keeps, Hl; done| |exact Hc2|exact H].
  intros acc. destruct acc as [n'|]; [apply IH|apply keeps_ret].
Qed.

Lemma chain_process_block_keeps now b o : received b o -> keeps kept (chain_process_block ct pv now b o).
Proof.
  intros Hr. unfold chain_process_block. apply keeps_bind; [by apply keeps_try, process_single_keeps|intros res].
  apply keeps_bind; [|intros []; apply keeps_lift]. destruct (is_ok res); [|apply keeps_ret].
  apply keeps_bind; [apply keeps_asks|intros fuel]. apply check_orphans_keeps.
Qed.

Lemma readonly_keeps {A} (m : M EX A) : keeps kept (readonly m).
Proof. unfold readonly. apply keeps_bind; [apply keeps_asks|intros b]. by apply on_us_keeps, extending_readonly_keeps. Qed.

Lemma move_ctx_keeps P : keeps P (move_ctx ct pv).
Proof. unfold move_ctx. keeps_auto. Qed.

(** The events that leave the database alone. *)
Lemma quiet_keeps archive_mode genesis e :
  match e with
  | HeaderInvalidated _ | PibdHeadReset | PruneListsReset | Validated _ | TxValidated _ | BlockPrepared _ => True
  | _ => False
  end -> keeps kept (handle ct pv archive_mode genesis e).
Proof.
  intros He. destruct e; try done; cbn [handle].
  - by apply modify_chain_keeps.
  - by apply on_us_keeps, dropping_keeps.
  - by apply on_us_keeps, dropping_keeps.
  - unfold chain_validate. apply keeps_bind; [apply from_db_keeps|intros h]. destruct (_ =? _); [apply keeps_ret|].
    apply keeps_bind; [apply move_ctx_keeps|intros ctx]. apply readonly_keeps.
  - unfold chain_validate_tx, validate_tx_against_utxo, view, validate_tx_kernels.
    apply keeps_bind; [apply keeps_gets|intros _]. destruct (negb _); [apply keeps_ret|].
    apply keeps_bind; [apply keeps_asks|intros h]. apply readonly_keeps.
  - unfold set_txhashset_roots. apply keeps_bind; [|intros x; apply keeps_ret].
    apply keeps_bind; [apply move_ctx_keeps|intros ctx]. apply keeps_bind; [apply readonly_keeps|intros [[? ?] ?]]. apply keeps_ret.
Qed.
End facade.

(** *** Indices and old blocks do not touch the heads and the headers *)

Definition core_of (b : Batch) : option Tip * option Tip * gmap Ser.Hash BlockHeader :=
  (db_head b, db_header_head b, db_headers b).

(** Maintenance: the core is the same, and no sums are added. *)
Definition settled (b b' : Batch) : Prop := core_of b' = core_of b /\ db_sums b' ⊆ db_sums b.

Lemma settled_refl b : settled b b.
Proof. done. Qed.

Lemma settled_trans b1 b2 b3 : settled b1 b2 -> settled b2 b3 -> settled b1 b3.
Proof. intros [E1 S1] [E2 S2]. split; [congruence|by etrans]. Qed.

Lemma settled_frame b b' : frame_of b' = frame_of b -> settled b b'.
Proof. unfold frame_of, part_of, settled, core_of. intros E. injection E as -> _ -> _ -> _ ->. done. Qed.

Section indices.
Context (archive_mode : bool).

Lemma fold_settled {X} (f : Batch -> X -> Batch) l b : (forall b x, settled b (f b x)) -> settled b (fold_left f l b).
Proof.
  intros Hf. revert b. induction l as [|x l IH]; intros b; [apply settled_refl|]. cbn. eapply settled_trans; [apply Hf|apply IH].
Qed.

Lemma remove_historical_settled hp a b b' :
  remove_historical_blocks ct archive_mode hp a b = Some (Ok b') -> settled b b'.
Proof.
  unfold remove_historical_blocks. destruct archive_mode; [intros E; injection E as ->; apply settled_refl|].
  destruct (head b) as [hd|]; [|done]. destruct (if _ <? _ then _ else _) as [horizon cutoff].
  destruct (_ =? 0); [intros E; injection E as ->; apply settled_refl|]. destruct (let? _ := _ in _) as [tl|]; [|done].
  destruct (mapM _ _) as [hashes|]; [|done]. cbn [mbind option_bind].
  destruct (tip_from_header ct tl) as [t|]; [|done]. cbn [mbind option_bind]. intros [= <-].
  eapply settled_trans; [|by apply settled_frame]. unfold settled. cbn. apply fold_settled. intros b0 k.
  split; [done|apply delete_subseteq].
Qed.

Lemma index_heights_settled heights hp l b b' : index_heights heights hp l b = Ok b' -> settled b b'.
Proof.
  revert l b. induction heights as [|n heights IH]; intros l b; cbn [index_heights]; [intros E; injection E as ->; apply settled_refl|].
  intros H. apply rbind_Ok in H as (hash & _ & H). apply rbind_Ok in H as (h & _ & H).
  destruct (index_outputs h l b) as [l' b1] eqn:E. apply IH in H. eapply settled_trans; [|exact H].
  replace b1 with (snd (index_outputs h l b)) by (by rewrite E). clear.
  revert b. induction l as [|[c p] l IH]; intros b; cbn [index_outputs]; [done|].
  destruct (_ <? _); [done|]. eapply settled_trans; [|apply IH]. by apply settled_frame.
Qed.

Lemma output_index_settled hp t b b' : init_output_pos_index hp t b = Ok b' -> settled b b'.
Proof.
  unfold init_output_pos_index. cbv zeta. set (b1 := fold_left _ _ _).
  assert (E : settled b b1) by (apply fold_settled; intros b0 k; by apply settled_frame). clearbody b1.
  destruct (filter _ _) as [|x l]; [intros E0; by injection E0 as <-|]. intros H. apply rbind_Ok in H as (hd & _ & H).
  apply index_heights_settled in H. by eapply settled_trans.
Qed.

Lemma kernel_pos_settled l t hp cur b b' : kernel_pos_loop l t hp cur b = Some (Ok b') -> settled b b'.
Proof.
  revert cur b. induction l as [|p l IH]; intros cur b; cbn [kernel_pos_loop]; [intros E; injection E as ->; apply settled_refl|].
  destruct (is_leaf _); [|apply IH]. destruct (get_data _ _) as [k|]; [|apply IH].
  destruct (features k) eqn:Ef; try apply IH. destruct (advance_header _ _ _ _ _) as [[cur'|e]|]; [|done..].
  cbn [mbind option_bind]. destruct (apply_kernel_rules _ _ _) as [b1|] eqn:E; [|done]. intros H. apply IH in H.
  apply kernel_rules_frame in E. eapply settled_trans; [by apply settled_frame|done].
Qed.

Lemma kernel_index_settled hp t b b' :
  init_recent_kernel_pos_index hp t b = Some (Ok b') -> settled b b'.
Proof.
  unfold init_recent_kernel_pos_index. destruct (let? _ := _ in _) as [h|]; [|done].
  unfold verify_kernel_pos_index. destruct (negb is_nrd_enabled); [intros E; injection E as ->; apply settled_refl|].
  destruct (if _ =? 0 then _ else _) as [n|]; [|done]. intros H. apply kernel_pos_settled in H.
  eapply settled_trans; [|exact H]. by apply settled_frame.
Qed.
End indices.

Section compaction.
Context (archive_mode : bool) (Q : Batch -> Prop).
Context (Hcore : forall b b', settled b b' -> Q b -> Q b').

Lemma update_batch_keeps f : (forall b b', f b = Some (Ok b') -> settled b b') ->
  keeps (batch_is Q) (update_batch f).
Proof.
  intros Hf u r u' Hu H. unfold update_batch, bind, asks, must, lift, put_batch, modify in H.
  destruct (f (u_batch u)) as [[b'|e]|] eqn:E; [..|done].
  - injection H as <- <-. unfold batch_is in *. cbn. eapply Hcore; [|exact Hu]. by apply Hf.
  - by injection H as <- <-.
Qed.

Lemma reindex_keeps : keeps (batch_is Q) (let* v := asks id in
  update_batch (fun b => Some (init_output_pos_index (u_header v) (u_trees v) b)) ;*
  update_batch (init_recent_kernel_pos_index (u_header v) (u_trees v))).
Proof.
  apply keeps_bind; [apply keeps_asks|intros v]. apply keeps_bind; [|intros []].
  - apply update_batch_keeps. intros b b' [= E]. by eapply output_index_settled.
  - apply update_batch_keeps. intros b b'. apply kernel_index_settled.
Qed.

Lemma compact_keeps : keeps (chain_is Q orphans_received) (chain_compact ct archive_mode).
Proof.
  unfold chain_compact. apply keeps_bind; [apply keeps_asks|intros due]. destruct (negb due); [apply keeps_ret|].
  apply keeps_bind; [unfold txhashset_archive_header, get_header_by_height, chain_header_hash_by_height, from_db; keeps_auto|intros ah].
  apply on_us_keeps, committing_keeps.
  apply keeps_bind; [apply keeps_gets|intros hh]. apply keeps_bind; [apply keeps_gets|intros k].
  apply keeps_bind; [apply keeps_gets|intros h]. apply keeps_bind; [apply keeps_asks|intros b].
  apply keeps_bind; [|intros []].
  { apply keeps_focus. intros u Hu. split; [|exact Hu]. intros t r t' _ _. exact Hu. }
  apply keeps_bind; [apply keeps_asks|intros v]. apply keeps_bind; [|intros []].
  { destruct archive_mode eqn:Ea; [apply keeps_ret|]. apply update_batch_keeps. intros b0 b'.
    rewrite <- Ea. apply remove_historical_settled. }
  apply keeps_bind; [|intros []].
  - apply update_batch_keeps. intros b0 b' [= E]. by eapply output_index_settled.
  - apply update_batch_keeps. intros b0 b'. apply kernel_index_settled.
Qed.

End compaction.

(** *** Start and resets leave the headers alone *)

Section upkeep.
Context (pv : BlockHeader -> bool) (genesis : Block) (Q : Batch -> Prop).
Context (Hq : forall b b', db_headers b' = db_headers b -> Q b -> Q b').
Context (Hgen : keeps (batch_is Q) (put_batch_opt (save_block_header ct (header genesis)))).

Lemma Q_part b b' : part_of b = part_of b' -> Q b -> Q b'.
Proof. intros E. apply Hq. unfold part_of in E. by injection E as _ _ _ _ -> _. Qed.

Lemma put_keeps f : (forall b, db_headers (f b) = db_headers b) -> keeps (batch_is Q) (put_batch f).
Proof. intros Hf. apply put_batch_keeps. intros b. by apply Hq. Qed.

Lemma save_opt_keeps b : keeps (batch_is Q) (put_batch_opt (save_block ct b)).
Proof.
  apply put_batch_opt_keeps. intros b0 b' E. apply Hq. unfold save_block in E. destruct (block_hash ct b); [|done].
  by injection E as <-.
Qed.

Lemma unit_keeps {A} (m : M EX A) : (forall p, keeps (same_part p) m) -> keeps (batch_is Q) (extending m).
Proof. intros Hm. apply extending_keeps, keeps_same_part; [apply Q_part|done]. Qed.

Lemma Q_core b b' : settled b b' -> Q b -> Q b'.
Proof. intros [E _]. apply Hq. unfold core_of in E. by injection E. Qed.

Lemma fork_Q ctx h : keeps (ext_batch_is Q) (rewind_and_apply_fork ct ctx h).
Proof. apply keeps_same_part; [apply Q_part|]. intros p. apply fork_keeps. Qed.

Lemma header_fork_Q ctx h : keeps (hx_batch_is Q) (rewind_and_apply_header_fork ct ctx h).
Proof. apply keeps_same_batch. intros b. apply header_fork_keeps. Qed.

Lemma reset_head_keeps t rewind : keeps (chain_is Q orphans_received) (reset_chain_head ct pv t rewind).
Proof.
  unfold reset_chain_head. apply keeps_bind; [apply move_ctx_keeps|intros ctx].
  apply on_us_keeps, committing_keeps. apply keeps_bind; [apply keeps_gets|intros h].
  apply keeps_bind; [|intros []].
  { apply extending_keeps, keeps_bind; [apply fork_Q|intros fp]. apply keeps_modify. intros s. by apply Hq. }
  destruct rewind; [|apply keeps_ret]. apply header_unit_keeps, keeps_bind; [apply header_fork_Q|intros []].
  apply keeps_modify. intros s. by apply Hq.
Qed.

Lemma check_start_keeps p h pibd : keeps (same_part p) (check_start ct pv genesis h pibd).
Proof.
  unfold check_start. destruct pibd; [apply keeps_ret|]. apply keeps_bind; [apply fork_keeps|intros fp].
  apply keeps_bind; [unfold validate_roots; keeps_auto|intros []]. apply keeps_bind; [apply keeps_must|intros k].
  apply keeps_bind; [apply keeps_asks|intros sums]. destruct (_ && _); [|apply keeps_ret].
  apply keeps_bind; [apply keeps_asks|intros e]. apply keeps_bind; [apply keeps_lift|intros [us ks]].
  by apply keeps_modify.
Qed.

Lemma start_header_keeps P store hd rst : keeps P (start_header ct genesis store hd rst).
Proof. unfold start_header, with_batch. keeps_auto. Qed.

Lemma start_loop_keeps fuel store hd rst : keeps (batch_is Q) (start_loop ct pv genesis fuel store hd rst).
Proof.
  revert hd. induction fuel as [|fuel IH]; intros hd; cbn [start_loop]; [apply keeps_must|].
  apply keeps_bind; [apply start_header_keeps|intros [h pibd]].
  apply keeps_bind; [apply keeps_try, unit_keeps; intros p; apply check_start_keeps|intros res].
  destruct (is_ok res); [apply keeps_ret|]. apply keeps_bind; [apply keeps_gets|intros prev].
  apply keeps_bind; [apply unit_keeps; intros p; apply fork_keeps|intros fp]. apply keeps_bind; [apply keeps_must|intros k].
  apply keeps_bind; [by apply put_keeps|intros []]. apply keeps_bind; [apply keeps_must|intros t].
  apply keeps_bind; [by apply put_keeps|intros []]. apply IH.
Qed.

Lemma setup_header_keeps : keeps (batch_is Q) (setup_header_head ct).
Proof.
  unfold setup_header_head. apply keeps_bind; [apply keeps_asks|intros hhd]. destruct hhd as [hd|e].
  - apply keeps_bind; [apply keeps_gets|intros p]. apply keeps_bind; [by apply keeps_modify|intros []].
    apply header_unit_keeps, keeps_same_batch. intros b. apply keeps_bind; [apply keeps_gets|intros h]. apply hx_rewind_keeps.
  - apply keeps_bind; [apply keeps_gets|intros k]. apply keeps_bind; [apply keeps_gets|intros h].
    apply keeps_bind; [apply keeps_must|intros t]. by apply put_keeps.
Qed.

Lemma start_genesis_keeps : keeps (batch_is Q) (start_from_genesis ct genesis).
Proof.
  unfold start_from_genesis. apply keeps_bind; [apply save_opt_keeps|intros []].
  apply keeps_bind; [apply keeps_must|intros k]. apply keeps_bind; [by apply put_keeps|intros []].
  apply keeps_bind; [apply keeps_must|intros t]. apply keeps_bind; [by apply put_keeps|intros []].
  apply keeps_bind; [|intros sums].
  { destruct (kernels _); [apply keeps_ret|]. apply keeps_bind; [apply keeps_lift|intros [us ks]]. apply keeps_ret. }
  apply keeps_bind; [apply unit_keeps; intros p; apply keeps_frame_part; intros f; apply apply_block_keeps|intros []].
  by apply put_keeps.
Qed.

Lemma save_genesis_keeps : keeps (batch_is Q) (save_genesis_header ct genesis).
Proof.
  unfold save_genesis_header. apply keeps_bind; [apply keeps_must|intros k]. apply keeps_bind; [apply keeps_asks|intros st].
  apply keeps_bind; [destruct (is_ok st); [apply keeps_ret|apply Hgen]|intros []].
  apply keeps_bind; [apply keeps_asks|intros p]. destruct (_ =? 0); [|apply keeps_ret].
  apply header_unit_keeps, keeps_same_batch. intros b. apply apply_header_keeps.
Qed.

Lemma setup_keeps rst : keeps (batch_is Q) (setup_head ct pv genesis rst).
Proof.
  unfold setup_head. apply keeps_bind; [apply keeps_asks|intros store]. apply committing_keeps.
  apply keeps_bind; [apply save_genesis_keeps|intros []]. apply keeps_bind; [apply setup_header_keeps|intros []].
  apply keeps_bind; [apply keeps_asks|intros hd]. destruct hd; [apply start_loop_keeps|apply start_genesis_keeps].
Qed.

Lemma reset_genesis_keeps : keeps (chain_is Q orphans_received) (reset_chain_head_to_genesis ct pv genesis).
Proof.
  unfold reset_chain_head_to_genesis. apply on_us_keeps, keeps_bind; [|intros []; apply setup_keeps].
  apply committing_keeps, keeps_bind; [apply keeps_must|intros t]. by apply put_keeps.
Qed.

Lemma init_keeps u c : Q (u_batch u) -> init ct pv genesis u = Some (Ok c) -> chain_is Q orphans_received c.
Proof.
  intros Hu H. unfold init in H.
  assert (Hk : keeps (batch_is Q) (setup_head ct pv genesis false ;* committing (let* v := asks id in
      update_batch (fun b => Some (init_output_pos_index (u_header v) (u_trees v) b)) ;*
      update_batch (init_recent_kernel_pos_index (u_header v) (u_trees v))))).
  { apply keeps_bind; [apply setup_keeps|intros []]. apply committing_keeps, reindex_keeps, Q_core. }
  match type of Hk with keeps _ ?m => destruct (m u) as [[r u']|] eqn:E end; [|done]. cbn [mbind option_bind] in H. apply Hk in E; [|exact Hu].
  destruct r; [|done]. cbn in H. injection H as <-. split; [exact E|]. apply map_Forall_empty.
Qed.
End upkeep.

(** ** The headers a node stores *)

(** What a node is given: headers with machine integers, and no call to skip the
    proof of work. *)
Definition event_ok (e : Event) : Prop :=
  match e with
  | BlockReceived b o _ => received b o
  | HeaderReceived h o => typed h /\ contains_option o SKIP_POW = false
  | HeadersReceived l _ o => Forall typed l /\ contains_option o SKIP_POW = false
  | _ => True
  end.

Section reached.
Context (pv : BlockHeader -> bool) (archive_mode : bool) (genesis : Block).
Context (Hbind : binding pv (header genesis)) (Hroot : rootless pv (header genesis)) (Hty : typed (header genesis)).
Abbreviation tree := (in_tree pv (header genesis)).

Lemma empty_tree : header_tree pv (header genesis) ∅.
Proof. split; intros k h H; by rewrite lookup_empty in H. Qed.

Lemma save_genesis_tree : keeps (batch_is tree) (put_batch_opt (save_block_header ct (header genesis))).
Proof.
  apply put_batch_opt_keeps. intros b b' E Ht. unfold save_block_header in E.
  destruct (header_hash ct (header genesis)) as [k|] eqn:Ek; [|done]. injection E as <-. unfold in_tree in *. cbn.
  destruct (db_headers b !! k) as [h|] eqn:Eh.
  { rewrite insert_id; [done|]. rewrite Eh. f_equal. apply (Hbind h (header genesis) k); [by eapply tree_admissible|by left| |done].
    by apply (tree_keyed _ _ _ Ht). }
  assert (Hs : db_headers b ⊆ <[k := header genesis]> (db_headers b)) by (by apply insert_subseteq).
  split; [|intros k' h'..].
  - intros k' h' [[<- <-]|[_ E]]%lookup_insert_Some; [done|by apply (tree_keyed _ _ _ Ht)].
  - intros [[<- <-]|[_ E]]%lookup_insert_Some; [done|by eapply tree_typed].
  - intros [[<- <-]|[_ E]]%lookup_insert_Some; [by left|].
    destruct (tree_linked _ _ _ Ht k' h' E) as [?|(p & Hp)]; [by left|]. right. exists p.
    eapply follows_mono; [apply Ht|exact Hs| |exact Hp]. intros k1 x Hx.
    destruct (tree_linked _ _ _ Ht k1 x Hx) as [->|(q & Hf)].
    + rewrite (tree_root _ _ Hroot _ Ht). symmetry. rewrite lookup_insert_ne; [by apply (tree_root _ _ Hroot)|].
      intros ->. by apply (Hroot (header genesis)); [left|].
    + rewrite (follows_stored _ _ _ _ Hf). symmetry. eapply lookup_weaken; [apply Hf|done].
Qed.

Lemma tree_headers b b' : db_headers b' = db_headers b -> tree b -> tree b'.
Proof. unfold in_tree. by intros ->. Qed.

Lemma handle_keeps_tree e : event_ok e ->
  keeps (chain_is tree orphans_received) (handle ct pv archive_mode genesis e).
Proof.
  intros He.
  assert (Hb : forall d b o, received b o -> keeps (batch_is tree) (process_block ct (new_ctx ct pv o d) b)).
  { intros d b o [H1 H2]. by apply process_block_tree. }
  assert (Hh : forall d b o, received b o -> keeps (batch_is tree) (process_block_header ct (new_ctx ct pv o d) (header b))).
  { intros d b o [H1 H2]. by apply process_header_tree. }
  destruct e; try (apply quiet_keeps; exact I); cbn [handle event_ok] in *.
  - apply keeps_bind; [by apply chain_process_block_keeps|intros x; apply keeps_ret].
  - destruct He. unfold chain_process_block_header. apply keeps_bind; [apply keeps_asks|intros d].
    by apply on_us_keeps, committing_keeps, process_header_tree.
  - destruct He. apply keeps_bind; [|intros x; apply keeps_ret]. unfold sync_block_headers.
    apply keeps_bind; [apply keeps_asks|intros d]. by apply on_us_keeps, committing_keeps, process_headers_tree.
  - apply reset_head_keeps, tree_headers.
  - apply reset_genesis_keeps; [apply tree_headers|apply save_genesis_tree].
  - apply compact_keeps, Q_core, tree_headers.
Qed.

Lemma reaches_tree c : reaches ct pv archive_mode genesis event_ok c -> chain_is tree orphans_received c.
Proof.
  induction 1 as [u c Hu H|c c' _ [IH _] H|c e r c' _ IH He H].
  - eapply init_keeps; [apply tree_headers|apply save_genesis_tree| |exact H]. unfold in_tree. rewrite Hu. apply empty_tree.
  - eapply init_keeps; [apply tree_headers|apply save_genesis_tree|exact IH|exact H].
  - by eapply (handle_keeps_tree e He).
Qed.
End reached.
End header_chain.
