(* ===== verification/ForkChoice.v ===== *)
(** The choice between forks.

    What accepting a block does to the heads: the block becomes the head exactly
    if it has more work than the head, so the work of the head never decreases
    while blocks and headers arrive, the heads are tips of stored headers, and the
    head of the headers has at least the work of the head of the blocks. *)

From Stdlib Require Import ZArith Lia.
From stdpp Require Import base numbers option sorting gmap list.
From S2P Require Import Prelude Consensus PmmrIndex Pmmr Ser LinkedList Kernel CutThrough Transaction PowTypes Block ChainTypes.
From S2P Require Import ChainStore BitmapAccumulator TxHashSet Pipe Chain PipeSpec HeaderChain.
Open Scope Z_scope.

Section fork_choice.
Context {CR : Crypto} {SU : SortUnstable} {NF : NrdFlag} (ct : ChainTypes).
Context {MH : Mmr BlockHeader HeaderEntry} {MO : Mmr OutputIdentifier OutputIdentifier}.
Context {MR : Mmr RangeProof RangeProof} {MK : Mmr TxKernel TxKernel}.
Implicit Types (h prev : BlockHeader) (m : gmap Ser.Hash BlockHeader).

Lemma tip_of_header h t : tip_from_header ct h = Some t ->
  header_hash ct h = Some (last_block_h t) /\ tip_difficulty t = header_difficulty h /\ tip_height t = height h /\
  prev_block_h t = prev_hash h.
Proof.
  unfold tip_from_header. destruct (header_hash ct h) as [k|]; [|done]. cbn. by intros [= <-].
Qed.

(** ** Headers leave the blocks and their head alone *)

Definition body_of (b : Batch) : option Tip * gmap Ser.Hash Block := (db_head b, db_blocks b).

Definition bodies_of (b : Batch) : option Tip * gmap Ser.Hash Block * gmap Ser.Hash BlockSums := (body_of b, db_sums b).

Lemma bodies_body b b' : bodies_of b' = bodies_of b -> body_of b' = body_of b.
Proof. intros E. exact (f_equal fst E). Qed.

Section body.
Context (Q : Batch -> Prop) (HQ : forall b b', bodies_of b' = bodies_of b -> Q b -> Q b').

Lemma add_header_keeps h : keeps (batch_is Q) (add_block_header ct h).
Proof.
  apply put_batch_opt_keeps. intros b b' E. apply HQ. unfold save_block_header in E. destruct (header_hash ct h); [|done].
  by injection E as <-.
Qed.

Lemma process_header_keeps ctx h : keeps (batch_is Q) (process_block_header ct ctx h).
Proof.
  unfold process_block_header, with_batch.
  apply keeps_bind; [apply keeps_gets|intros hd]. apply keeps_bind; [apply keeps_try, check_known_keeps|intros known].
  destruct (negb (is_ok known)); [apply keeps_ret|].
  apply keeps_bind; [apply keeps_gets|intros prev]. apply keeps_bind; [apply keeps_gets|intros hhd].
  apply keeps_bind; [apply keeps_must|intros k]. apply keeps_bind; [apply keeps_asks|intros existing].
  destruct (match existing with Ok _ => _ | Err _ => _ end); [apply keeps_ret|].
  apply keeps_bind; [apply validate_header_keeps|intros []]. apply keeps_bind; [apply header_work_keeps|intros []].
  apply keeps_bind; [apply add_header_keeps|intros []]. destruct (has_more_work h hhd); [|apply keeps_ret].
  apply keeps_bind; [apply keeps_must|intros t]. apply put_batch_keeps. intros b. by apply HQ.
Qed.

Lemma process_headers_keeps ctx l sync_head : keeps (batch_is Q) (process_block_headers ct ctx l sync_head).
Proof.
  unfold process_block_headers. destruct (last l) as [h|]; [|apply keeps_ret].
  apply keeps_bind; [apply keeps_gets|intros hd]. apply keeps_bind; [|intros []].
  { apply keeps_each. intros x. apply keeps_bind; [apply validate_header_keeps|intros []]. apply add_header_keeps. }
  apply header_unit_keeps.
  apply keeps_bind; [apply keeps_same_batch; intros b; apply header_fork_keeps|intros []].
  apply keeps_bind; [apply keeps_same_batch; intros b; apply on_current_keeps|intros on].
  apply keeps_bind; [apply keeps_must|intros t]. apply keeps_bind; [|intros []; apply keeps_ret].
  destruct (has_more_work h hd).
  - apply keeps_modify. intros s. by apply HQ.
  - apply keeps_same_batch. intros b. apply hx_force_rollback_keeps.
Qed.
End body.

Lemma part_body b b' : part_of b = part_of b' -> body_of b' = body_of b.
Proof. unfold part_of, body_of. intros E. by injection E as -> _ _ _ _ ->. Qed.

(** ** Accepting a block *)

Lemma keeps_run {S A} (P : S -> Prop) (m : M S A) s r s' : keeps P m -> P s -> m s = Some (r, s') -> P s'.
Proof. intros Hm. apply Hm. Qed.

Lemma process_block_Ok ctx b u o fp u' hd : head (u_batch u) = Ok hd ->
  process_block ct ctx b u = Some (Ok (o, fp), u') ->
  exists t, tip_from_header ct (header b) = Some t /\
    db_blocks (u_batch u') = <[last_block_h t := block_as_read b]> (db_blocks (u_batch u)) /\
    (if has_more_work (header b) hd then db_head (u_batch u') = Some t /\ o = Some t
     else db_head (u_batch u') = Some hd /\ o = None).
Proof.
  intros Hhd H. set (body0 := body_of (u_batch u)).
  assert (HQ : forall b b', body_of b' = body_of b -> body_of b = body0 -> body_of b' = body0) by congruence.
  unfold process_block, validate_block, with_batch in H.
  apply bind_Ok in H as (hd' & u1 & H1 & H). apply gets_Ok in H1 as [H1 ->]. rewrite Hhd in H1. injection H1 as <-.
  apply bind_Ok in H as ([] & u1 & H1 & H). eapply (keeps_run (batch_is (fun b => body_of b = body0))) in H1; [|apply check_known_keeps|done].
  apply bind_Ok in H as ([] & u2 & H2 & H). apply lift_Ok in H2 as [_ ->].
  apply bind_Ok in H as (prev & u2 & H2 & H). apply gets_Ok in H2 as [_ ->].
  apply bind_Ok in H as ([] & u2 & H2 & H). eapply (keeps_run (batch_is (fun b => body_of b = body0))) in H2; [|apply process_header_keeps; intros ? ? E%bodies_body; by apply HQ|done].
  apply bind_Ok in H as ([] & u3 & H3 & H). apply bind_Ok in H3 as (pv & ? & H4 & H3). apply gets_Ok in H4 as [_ ->]. apply lift_Ok in H3 as [_ ->].
  apply bind_Ok in H as (fp' & u3 & H3 & H).
  eapply (keeps_run (batch_is (fun b => body_of b = body0))) in H3; [|apply extending_keeps, keeps_same_part; [|intros p; apply process_ext_keeps]|done].
  2: { intros b1 b2 E. by apply HQ, part_body. }
  apply bind_Ok in H as ([] & u4 & H4 & H). unfold add_block, put_batch_opt in H4.
  apply bind_Ok in H4 as (b3 & ? & H5 & H4). apply asks_Some in H5 as [[= ->] ->].
  apply bind_Ok in H4 as (b4 & ? & H5 & H4). apply must_Ok in H5 as [H5 ->]. injection H4 as <-.
  unfold save_block in H5. destruct (block_hash ct b) as [k|] eqn:Ek; [|done]. injection H5 as <-. unfold block_hash in Ek.
  assert (Et : tip_from_header ct (header b) = Some (mkTip (height (header b)) k (prev_hash (header b)) (header_difficulty (header b)))).
  { unfold tip_from_header. by rewrite Ek. }
  eexists. split; [exact Et|]. cbn [last_block_h].
  unfold batch_is, body_of, body0 in H3. injection H3 as H3h H3b.
  unfold head, found in Hhd. destruct (db_head (u_batch u)) as [t0|] eqn:E0; [|done]. injection Hhd as ->.
  apply bind_Ok in H as (tl & ? & H5 & H). apply asks_Some in H5 as [_ ->].
  apply bind_Ok in H as ([] & u5 & H5 & H).
  set (body1 := (Some hd, <[k := block_as_read b]> (db_blocks (u_batch u)))).
  assert (H5' : batch_is (fun b => body_of b = body1) u5).
  { eapply (keeps_run (batch_is (fun b => body_of b = body1))); [| |exact H5].
    - destruct (is_ok tl); [apply keeps_ret|]. unfold update_body_tail. apply keeps_bind; [apply keeps_must|intros t]. by apply put_batch_keeps.
    - unfold batch_is, body_of, body1. cbn. by rewrite H3h, H3b. }
  unfold batch_is, body_of, body1 in H5'. injection H5' as H5h H5b.
  destruct (has_more_work (header b) hd).
  - rewrite Et in H. apply bind_Ok in H as (t & ? & H6 & H). apply must_Ok in H6 as [H6 ->]. injection H6 as <-.
    apply bind_Ok in H as ([] & u6 & H6 & H). injection H6 as <-. injection H as <- <- <-. cbn. by rewrite H5b.
  - injection H as <- <- <-. by rewrite H5b, H5h.
Qed.

(** ** The work of the head *)

Definition work_at_least (d : Z) (b : Batch) : Prop := exists t, db_head b = Some t /\ d <= num (tip_difficulty t).

Lemma work_head d b b' : db_head b' = db_head b -> work_at_least d b -> work_at_least d b'.
Proof. intros E (t & ? & ?). exists t. by rewrite E. Qed.

Lemma process_block_work d ctx b : keeps (batch_is (work_at_least d)) (process_block ct ctx b).
Proof.
  intros u r u' (t0 & E0 & Hd) H. unfold process_block, validate_block, with_batch in H.
  apply bind_Some in H as [(e & H & ->)|(hd & u1 & H1 & H)]; [by injection H as _ <-; exists t0|].
  apply gets_Ok in H1 as [H1 ->]. unfold head, found in H1. rewrite E0 in H1. injection H1 as <-.
  revert u r u' E0 H.
  assert (Hk : forall m : M US (option Tip * BlockHeader), keeps (batch_is (work_at_least d)) m -> forall u r u', db_head (u_batch u) = Some t0 -> m u = Some (r, u') ->
     batch_is (work_at_least d) u') by (intros m Hm u r u' E; apply Hm; by exists t0).
  apply Hk. apply keeps_bind; [apply check_known_keeps|intros []].
  apply keeps_bind; [apply keeps_lift|intros []]. apply keeps_bind; [apply keeps_gets|intros prev].
  apply keeps_bind; [|intros []].
  { apply process_header_keeps. intros b0 b1 E%bodies_body. apply work_head. by injection E. }
  apply keeps_bind; [keeps_auto|intros []].
  apply keeps_bind; [|intros fp].
  { apply extending_keeps, keeps_same_part; [|intros p; apply process_ext_keeps].
    intros b0 b1 E. apply work_head. apply part_body in E. by injection E. }
  apply keeps_bind; [|intros []].
  { apply put_batch_opt_keeps. intros b0 b1 E. apply work_head. unfold save_block in E. destruct (block_hash ct b); [|done]. by injection E as <-. }
  apply keeps_bind; [apply keeps_asks|intros tl].
  apply keeps_bind; [|intros []].
  { destruct (is_ok tl); [apply keeps_ret|]. apply keeps_bind; [apply keeps_must|intros t]. by apply put_batch_keeps. }
  destruct (has_more_work (header b) t0) eqn:Ew; [|apply keeps_ret]. unfold has_more_work in Ew.
  apply keeps_must_in. intros t (_ & Et & _)%tip_of_header.
  apply keeps_bind; [|intros []; apply keeps_ret].
  apply put_batch_keeps. intros b0 _. exists t. split; [done|]. rewrite Et. lia.
Qed.

(** Events that do not reset the head. *)
Definition not_reset (e : Event) : Prop :=
  match e with HeadReset _ _ | HeadResetToGenesis => False | _ => True end.

Lemma handle_work d pv archive_mode genesis e : not_reset e -> event_ok e ->
  keeps (chain_is (work_at_least d) orphans_received) (handle ct pv archive_mode genesis e).
Proof.
  intros Hn He.
  assert (Hcore : forall b b', settled b b' -> work_at_least d b -> work_at_least d b').
  { intros b b' [E _]. apply work_head. by injection E. }
  assert (Hbody : forall b b', bodies_of b' = bodies_of b -> work_at_least d b -> work_at_least d b').
  { intros b b' E%bodies_body. apply work_head. by injection E. }
  assert (Hb : forall d' b o, received b o -> keeps (batch_is (work_at_least d)) (process_block ct (new_ctx ct pv o d') b)).
  { intros. apply process_block_work. }
  assert (Hh : forall d' b o, received b o -> keeps (batch_is (work_at_least d)) (process_block_header ct (new_ctx ct pv o d') (header b))).
  { intros. by apply process_header_keeps. }
  destruct e; try (apply quiet_keeps; exact I); cbn [handle event_ok not_reset] in *; try done.
  - apply keeps_bind; [by apply chain_process_block_keeps|intros x; apply keeps_ret].
  - unfold chain_process_block_header. apply keeps_bind; [apply keeps_asks|intros d'].
    by apply on_us_keeps, committing_keeps, process_header_keeps.
  - apply keeps_bind; [|intros x; apply keeps_ret]. unfold sync_block_headers.
    apply keeps_bind; [apply keeps_asks|intros d']. by apply on_us_keeps, committing_keeps, process_headers_keeps.
  - by apply compact_keeps.
Qed.

(** ** The heads are tips of stored headers *)

Section heads.
Context (pv : BlockHeader -> bool) (genesis : BlockHeader).
Context (Hbind : binding ct pv genesis) (Hroot : rootless ct pv genesis).

Definition tip_stored m (t : Tip) : Prop := exists h, m !! last_block_h t = Some h /\ tip_from_header ct h = Some t.

Record heads_ok (b : Batch) : Prop := mkHeads {
  heads_tree : in_tree ct pv genesis b;
  heads_body : exists t, db_head b = Some t /\ tip_stored (db_headers b) t;
  heads_header : exists t, db_header_head b = Some t /\ tip_stored (db_headers b) t;
  heads_ahead : forall t t', db_head b = Some t -> db_header_head b = Some t' ->
    num (tip_difficulty t) <= num (tip_difficulty t');
}.

Lemma tip_stored_mono m m' t : m ⊆ m' -> tip_stored m t -> tip_stored m' t.
Proof. intros Hs (h & Hh & Ht). exists h. split; [by eapply lookup_weaken|done]. Qed.

Lemma heads_core b b' : core_of b' = core_of b -> heads_ok b -> heads_ok b'.
Proof.
  unfold core_of. intros E. injection E as E1 E2 E3. intros [H1 H2 H3 H4].
  split; unfold in_tree in *; by rewrite ?E1, ?E2, ?E3.
Qed.

(** More headers. *)
Lemma heads_grow b m : db_headers b ⊆ m -> header_tree ct pv genesis m -> heads_ok b -> heads_ok (set_headers b m).
Proof.
  intros Hs Hm [H1 (t & H2 & H2') (t' & H3 & H3') H4]. split; cbn; [done|..|done].
  - exists t. split; [done|by eapply tip_stored_mono].
  - exists t'. split; [done|by eapply tip_stored_mono].
Qed.

(** A new head of the headers. *)
Lemma heads_set_header b t t0 : tip_stored (db_headers b) t -> db_header_head b = Some t0 ->
  num (tip_difficulty t0) <= num (tip_difficulty t) -> heads_ok b -> heads_ok (save_header_head t b).
Proof.
  intros Ht E0 Hle [H1 (t1 & H2 & H2') _ H4]. split; cbn; [done|by exists t1|by exists t|].
  intros t2 t3 E2 [= <-]. specialize (H4 t2 t0 E2 E0). lia.
Qed.

Lemma heads_set_body b t t0 : tip_stored (db_headers b) t -> db_header_head b = Some t0 ->
  num (tip_difficulty t) <= num (tip_difficulty t0) -> heads_ok b -> heads_ok (save_body_head t b).
Proof.
  intros Ht E0 Hle [H1 _ H3 H4]. split; cbn; [done|by exists t|done|].
  intros t2 t3 [= <-] E3. rewrite E0 in E3. by injection E3 as <-.
Qed.

Definition same_as (b : Batch) (b' : Batch) : Prop := b' = b.

(** What accepting a header does to the batch. *)
Lemma accept_cases ctx h (mid : M US unit) u r u' : contains_option (opts ctx) SKIP_POW = false ->
  pow_verifier ctx = pv -> typed h -> in_tree ct pv genesis (u_batch u) ->
  (forall b, keeps (batch_is (same_as b)) mid) ->
  (validate_header ct ctx h ;* mid ;* add_block_header ct h) u = Some (r, u') ->
  (u_batch u' = u_batch u /\ exists e, r = Err e) \/
  (r = Ok tt /\ admissible ct pv genesis h /\ exists k, header_hash ct h = Some k /\
    u_batch u' = set_headers (u_batch u) (<[k := h]> (db_headers (u_batch u))) /\
    db_headers (u_batch u) ⊆ <[k := h]> (db_headers (u_batch u)) /\
    header_tree ct pv genesis (<[k := h]> (db_headers (u_batch u)))).
Proof.
  intros Ho Hpv Hty Ht Hmid H.
  apply bind_Some in H as [(e & H & ->)|([] & u1 & Hv & H)].
  { left. split; [|by exists e]. by eapply (validate_header_keeps ct (batch_is (same_as (u_batch u)))). }
  apply validate_header_Ok in Hv as (-> & _ & prev & Hf); [|done|done|intros prev; apply (tree_typed _ _ _ _ Ht)].
  rewrite Hpv in Hf.
  apply bind_Some in H as [(e & H & ->)|([] & u2 & H2 & H)].
  { left. split; [|by exists e]. by eapply (Hmid (u_batch u)). }
  assert (E2 : u_batch u2 = u_batch u) by (by eapply (Hmid (u_batch u))).
  unfold add_block_header, put_batch_opt, bind, asks, must, save_block_header, put_batch, modify in H.
  destruct (header_hash ct h) as [k|] eqn:Ek; cbn [mbind option_bind] in H; [|done]. injection H as <- <-.
  right. split; [done|]. split; [right; by destruct Hf|]. exists k. split; [done|]. rewrite <- E2. split; [done|].
  rewrite E2. by apply (insert_tree ct pv genesis Hbind Hroot _ k h prev).
Qed.

(** A header that was accepted. *)
Definition accepted h (b : Batch) : Prop :=
  exists k, header_hash ct h = Some k /\ db_headers b !! k = Some h.

Lemma accepted_tip h t b : accepted h b -> tip_from_header ct h = Some t -> tip_stored (db_headers b) t.
Proof.
  intros (k & Ek & Eh) Et. exists h. split; [|done]. apply tip_of_header in Et as (E & _). congruence.
Qed.

Lemma accept_heads ctx h (mid : M US unit) u r u' : contains_option (opts ctx) SKIP_POW = false ->
  pow_verifier ctx = pv -> typed h -> heads_ok (u_batch u) ->
  (forall b, keeps (batch_is (same_as b)) mid) ->
  (validate_header ct ctx h ;* mid ;* add_block_header ct h) u = Some (r, u') ->
  heads_ok (u_batch u') /\ db_header_head (u_batch u') = db_header_head (u_batch u) /\
  db_headers (u_batch u) ⊆ db_headers (u_batch u') /\ (r = Ok tt -> accepted h (u_batch u')).
Proof.
  intros Ho Hpv Hty Hok Hmid H.
  apply accept_cases in H as [[E [e ->]]|(-> & _ & k & Ek & E & Hs & Ht)]; try done; [..|apply Hok].
  - rewrite E. done.
  - rewrite E. cbn. split; [by apply heads_grow|]. split; [done|]. split; [done|]. intros _. exists k.
    cbn. by rewrite lookup_insert_eq.
Qed.

Lemma bind_regroup {S A} (m1 m2 m3 : M S unit) (k : M S A) s :
  (m1 ;* m2 ;* m3 ;* k) s = ((m1 ;* m2 ;* m3) ;* k) s.
Proof. rewrite bind_assoc. unfold bind. destruct (m1 s) as [[[[]|e] s1]|]; [|done..]. by destruct (m2 s1) as [[[[]|e] s2]|]. Qed.

Lemma header_heads ctx h u r u' : contains_option (opts ctx) SKIP_POW = false -> pow_verifier ctx = pv -> typed h ->
  heads_ok (u_batch u) -> process_block_header ct ctx h u = Some (r, u') ->
  heads_ok (u_batch u') /\
  (forall hd, head (u_batch u) = Ok hd -> check_known ct h hd u = Some (Ok tt, u) -> admissible ct pv genesis h ->
     r = Ok tt -> accepted h (u_batch u') /\
     exists t, db_header_head (u_batch u') = Some t /\ num (header_difficulty h) <= num (tip_difficulty t)).
Proof.
  intros Ho Hpv Hty Hok H. unfold process_block_header, with_batch in H.
  apply bind_Some in H as [(e & H & ->)|(hd & u1 & H1 & H)]; [injection H as _ <-; by split|].
  apply gets_Ok in H1 as [Hhd ->].
  apply bind_Some in H as [(e & H & ->)|(known & u1 & H1 & H)]; [by apply try_Some in H as (? & ? & _)|].
  apply try_Some in H1 as (? & [= <-] & H1).
  assert (E1 : u_batch u1 = u_batch u) by (by eapply (check_known_keeps ct (batch_is (same_as (u_batch u))))).
  destruct (negb (is_ok known)) eqn:Ekn.
  { injection H as <- <-. rewrite E1. split; [done|]. intros hd' Hhd' Hck. rewrite Hhd in Hhd'. injection Hhd' as <-.
    rewrite Hck in H1. by injection H1 as <- _. }
  rewrite <- E1 in Hok.
  apply bind_Some in H as [(e & H & ->)|(prev & u2 & H2 & H)]; [injection H as _ <-; by split|]. apply gets_Ok in H2 as [_ ->].
  apply bind_Some in H as [(e & H & ->)|(hhd & u2 & H2 & H)]; [injection H as _ <-; by split|]. apply gets_Ok in H2 as [Hhh ->].
  unfold header_head, found in Hhh. destruct (db_header_head (u_batch u1)) as [t0|] eqn:Et0; [|done]. injection Hhh as ->.
  apply bind_Some in H as [(e & H & ->)|(k & u2 & H2 & H)]; [unfold must in H; by destruct (header_hash ct h)|].
  apply must_Ok in H2 as [Ek ->].
  apply bind_Some in H as [(e & H & ->)|(ex & u2 & H2 & H)]; [done|]. apply asks_Some in H2 as [[= ->] ->].
  unfold get_block_header, found in H.
  destruct (match ok_or _ _ with Ok _ => _ | Err _ => _ end) eqn:Ex.
  { injection H as <- <-. split; [done|]. intros hd' _ _ Hadm _. destruct (db_headers (u_batch u1) !! k) as [h0|] eqn:E0; [|done].
    cbn in Ex. assert (h0 = h) as ->.
    { apply (Hbind h0 h k); [by eapply tree_admissible; [apply Hok|]|done| |done]. by apply (tree_keyed _ _ _ _ (heads_tree _ Hok)). }
    split; [by exists k|]. exists hhd. split; [done|]. unfold has_more_work in Ex. lia. }
  rewrite bind_regroup in H.
  apply bind_Some in H as [(e & H & ->)|([] & u2 & H2 & H)].
  { apply accept_heads in H as (Hok' & _); [|done..|intros b; apply header_work_keeps]. by split. }
  apply accept_heads in H2 as (Hok' & Ehh & _ & Hacc); [|done..|intros b; apply header_work_keeps].
  specialize (Hacc eq_refl). destruct (has_more_work h hhd) eqn:Ew; unfold has_more_work in Ew.
  - unfold bind, must in H. destruct (tip_from_header ct h) as [t|] eqn:Et; [|done].
    unfold update_header_head, put_batch, modify in H. injection H as <- <-. cbn.
    pose proof (tip_of_header h t Et) as (_ & Ed & _). split.
    + eapply heads_set_header; [by eapply accepted_tip|by rewrite Ehh| |done]. rewrite Ed. lia.
    + intros _ _ _ _ _. split; [done|]. exists t. split; [done|]. rewrite Ed. lia.
  - injection H as <- <-. split; [done|]. intros _ _ _ _ _. split; [done|]. exists hhd. split; [by rewrite Ehh|]. lia.
Qed.

Lemma same_part_heads {A} (m : M EX A) : (forall p, keeps (same_part p) m) -> keeps (batch_is heads_ok) (extending m).
Proof.
  intros Hm. apply extending_keeps, keeps_same_part; [|done]. intros b b' E. apply heads_core.
  unfold part_of in E. unfold core_of. by injection E as -> _ -> _ -> _.
Qed.

(** What comes after the header in [process_block]. *)
Lemma block_rest_heads h (Q : Batch -> Prop) b prev ctx :
  Q = (fun x => heads_ok x /\ accepted h x /\
       exists t, db_header_head x = Some t /\ num (header_difficulty h) <= num (tip_difficulty t)) ->
  header b = h ->
  forall hd, keeps (batch_is Q) (
    validate_block ct b ;*
    let* fork_point := extending (process_block_ext ct ctx b prev) in
    add_block ct b ;*
    let* tl := asks (fun u => tail (u_batch u)) in
    (if is_ok tl then ret tt else update_body_tail ct h) ;*
    if has_more_work h hd then
      let* hd := must (tip_from_header ct h) in update_head hd ;* ret (Some hd, fork_point)
    else ret (None, fork_point)).
Proof.
  intros EQ Eh hd.
  assert (Hcore : forall b b', core_of b' = core_of b -> Q b -> Q b').
  { intros b0 b1 E. subst Q. intros (H1 & (k & Hk & Hh) & t & Ht & Hle). split; [by eapply heads_core|].
    unfold core_of in E. injection E as _ E2 E3. split; [exists k; by rewrite E3|]. exists t. by rewrite E2. }
  unfold validate_block. apply keeps_bind; [keeps_auto|intros []].
  apply keeps_bind; [|intros fp].
  { apply extending_keeps, keeps_same_part; [|intros p; apply process_ext_keeps]. intros b0 b1 E. apply Hcore.
    unfold part_of in E. unfold core_of. by injection E as -> _ -> _ -> _. }
  apply keeps_bind; [|intros []].
  { apply put_batch_opt_keeps. intros b0 b1 E. apply Hcore. unfold save_block in E. destruct (block_hash ct b); [|done]. by injection E as <-. }
  apply keeps_bind; [apply keeps_asks|intros tl].
  apply keeps_bind; [|intros []].
  { destruct (is_ok tl); [apply keeps_ret|]. unfold update_body_tail. apply keeps_bind; [apply keeps_must|intros t].
    apply put_batch_keeps. intros b0. by apply Hcore. }
  destruct (has_more_work h hd); [|apply keeps_ret]. apply keeps_must_in. intros t Et.
  apply keeps_bind; [|intros []; apply keeps_ret]. apply put_batch_keeps. subst Q. intros b0 (H1 & H2 & t0 & E0 & Hle).
  pose proof (tip_of_header h t Et) as (_ & Ed & _).
  split; [|split; [done|by exists t0]]. eapply heads_set_body; [by eapply accepted_tip|done| |done]. by rewrite Ed.
Qed.

Lemma process_block_heads ctx b : contains_option (opts ctx) SKIP_POW = false -> pow_verifier ctx = pv -> typed (header b) ->
  keeps (batch_is heads_ok) (process_block ct ctx b).
Proof.
  intros Ho Hpv Hty u r u' Hok H. unfold process_block, with_batch, prev_header_store in H.
  apply bind_Some in H as [(e & H & ->)|(hd & u1 & H1 & H)]; [by injection H as _ <-|]. apply gets_Ok in H1 as [Hhd ->].
  apply bind_Some in H as [(e & H & ->)|([] & u1 & Hck & H)]; [by eapply (check_known_keeps ct (batch_is heads_ok))|].
  assert (u1 = u) as -> by (by eapply (check_known_keeps ct (fun x => x = u)) in Hck).
  apply bind_Some in H as [(e & H & ->)|([] & u1 & H1 & H)]; [by injection H as _ <-|]. apply lift_Ok in H1 as [Hpow ->].
  apply (validate_pow_only_Ok ct ctx _ Ho) in Hpow. rewrite Hpv in Hpow.
  apply bind_Some in H as [(e & H & ->)|(prev & u1 & H1 & H)]; [by injection H as _ <-|]. apply gets_Ok in H1 as [_ ->].
  apply bind_Some in H as [(e & H & ->)|([] & u1 & H1 & H)]; [by eapply header_heads in H as [? _]|].
  apply header_heads in H1 as (Hok' & Hacc); [|done..].
  eapply (block_rest_heads (header b) _ b prev ctx eq_refl eq_refl) in H; [apply H|].
  split; [done|]. apply (Hacc hd Hhd Hck); [by right|done].
Qed.

Lemma accept_all_heads ctx l u r u' : contains_option (opts ctx) SKIP_POW = false -> pow_verifier ctx = pv ->
  Forall typed l -> heads_ok (u_batch u) ->
  each (fun h => validate_header ct ctx h ;* add_block_header ct h) l u = Some (r, u') ->
  heads_ok (u_batch u') /\ db_header_head (u_batch u') = db_header_head (u_batch u) /\
  db_headers (u_batch u) ⊆ db_headers (u_batch u') /\
  (r = Ok tt -> Forall (fun h => accepted h (u_batch u')) l).
Proof.
  intros Ho Hpv Hl. revert u. induction Hl as [|h l Hh Hl IH]; intros u Hok H; cbn [each] in H.
  { injection H as <- <-. done. }
  assert (Hone : forall r1 u1, (validate_header ct ctx h ;* add_block_header ct h) u = Some (r1, u1) ->
    heads_ok (u_batch u1) /\ db_header_head (u_batch u1) = db_header_head (u_batch u) /\
    db_headers (u_batch u) ⊆ db_headers (u_batch u1) /\ (r1 = Ok tt -> accepted h (u_batch u1))).
  { intros r1 u1 H1. apply (accept_heads ctx h (ret tt) u r1 u1); [done..|intros b; apply keeps_ret|].
    rewrite <- H1. unfold bind, ret. by destruct (validate_header ct ctx h u) as [[[[]|e] u2]|]. }
  apply bind_Some in H as [(e & H & ->)|([] & u1 & H1 & H)].
  - destruct (Hone _ _ H) as (? & ? & ? & _). done.
  - destruct (Hone _ _ H1) as (Hok1 & E1 & Hs1 & Ha1). destruct (IH u1 Hok1 H) as (Hok2 & E2 & Hs2 & Ha2).
    split; [done|]. split; [congruence|]. split; [by etrans|]. intros Er. constructor; [|by apply Ha2].
    destruct (Ha1 eq_refl) as (k & Ek & Em). exists k. split; [done|]. by eapply lookup_weaken.
Qed.

Lemma process_headers_heads ctx l sync_head : contains_option (opts ctx) SKIP_POW = false -> pow_verifier ctx = pv ->
  Forall typed l -> keeps (batch_is heads_ok) (process_block_headers ct ctx l sync_head).
Proof.
  intros Ho Hpv Hl u r u' Hok H. unfold process_block_headers in H.
  destruct (last l) as [h|] eqn:El; [|by injection H as _ <-]. unfold with_batch in H.
  apply bind_Some in H as [(e & H & ->)|(hhd & u1 & H1 & H)]; [by injection H as _ <-|]. apply gets_Ok in H1 as [Hhh ->].
  unfold header_head, found in Hhh. destruct (db_header_head (u_batch u)) as [t0|] eqn:Et0; [|done]. injection Hhh as ->.
  apply bind_Some in H as [(e & H & ->)|([] & u1 & H1 & H)]; [by eapply accept_all_heads in H as [? _]|].
  apply accept_all_heads in H1 as (Hok1 & E1 & _ & Ha); [|done..].
  specialize (Ha eq_refl). apply last_Some_elem_of in El. eapply Forall_forall in Ha; [|exact El].
  set (Q := fun b => heads_ok b /\ accepted h b /\
    exists t, db_header_head b = Some t /\ num (tip_difficulty t) <= Z.max (num (tip_difficulty hhd)) (num (header_difficulty h))).
  apply (keeps_run (batch_is Q)) in H; [apply H| |].
  2: { split; [exact Hok1|]. split; [exact Ha|]. exists hhd. split; [congruence|lia]. }
  apply header_unit_keeps. apply keeps_bind; [apply keeps_same_batch; intros b; apply header_fork_keeps|intros []].
  apply keeps_bind; [apply keeps_same_batch; intros b; apply on_current_keeps|intros on].
  apply keeps_must_in. intros t Et. apply keeps_bind; [|intros []; apply keeps_ret].
  destruct (has_more_work h hhd) eqn:Ew; [|apply keeps_same_batch; intros b; apply hx_force_rollback_keeps].
  unfold has_more_work in Ew. pose proof (tip_of_header h t Et) as (_ & Ed & _).
  apply keeps_modify. intros s (H1 & H2 & t1 & E2 & Hle). split; cbn; [|split; [done|]].
  - eapply heads_set_header; [by eapply accepted_tip|exact E2| |done]. rewrite Ed. lia.
  - exists t. split; [done|]. rewrite Ed. lia.
Qed.

Lemma handle_heads archive_mode gb e : not_reset e -> event_ok e -> keeps (chain_is heads_ok orphans_received) (handle ct pv archive_mode gb e).
Proof.
  intros Hn He.
  assert (Hb : forall d b o, received b o -> keeps (batch_is heads_ok) (process_block ct (new_ctx ct pv o d) b)).
  { intros d b o [H1 H2]. by apply process_block_heads. }
  assert (Hh : forall d h o, typed h -> contains_option o SKIP_POW = false ->
    keeps (batch_is heads_ok) (process_block_header ct (new_ctx ct pv o d) h)).
  { intros d h o H1 H2 u r u' Hok H. by eapply header_heads in H as [? _]. }
  destruct e; try (apply quiet_keeps; exact I); cbn [handle event_ok not_reset] in *; try done.
  - apply keeps_bind; [|intros x; apply keeps_ret]. apply chain_process_block_keeps; [done| |done].
    intros d b' o [H1 H2]. by apply Hh.
  - destruct He. unfold chain_process_block_header. apply keeps_bind; [apply keeps_asks|intros d].
    by apply on_us_keeps, committing_keeps, Hh.
  - destruct He. apply keeps_bind; [|intros x; apply keeps_ret]. unfold sync_block_headers.
    apply keeps_bind; [apply keeps_asks|intros d]. by apply on_us_keeps, committing_keeps, process_headers_heads.
  - apply compact_keeps. intros b b' [E _]. by apply heads_core.
Qed.
End heads.
End fork_choice.
