(* ===== verification/Supply.v ===== *)
(** The supply of coins.

    The sums that the chain keeps for a block are those of its whole history, and
    they balance: with what the secp256k1 library does ([Pedersen]), the unspent
    outputs are worth one reward for each block since genesis. *)

From Stdlib Require Import ZArith Lia Setoid Morphisms.
From stdpp Require Import base numbers option sorting gmap list.
From S2P Require Import Prelude Consensus PmmrIndex Pmmr Ser LinkedList Kernel CutThrough Transaction PowTypes Block Pedersen ChainTypes.
From S2P Require Import ChainStore BitmapAccumulator TxHashSet Pipe Chain PipeSpec HeaderChain ForkChoice.
Open Scope Z_scope.

Section supply.
Context {CR : Crypto} {SU : SortUnstable} {NF : NrdFlag} (ct : ChainTypes).
Context {MH : Mmr BlockHeader HeaderEntry} {MO : Mmr OutputIdentifier OutputIdentifier}.
Context {MR : Mmr RangeProof RangeProof} {MK : Mmr TxKernel TxKernel}.
Context (pv : BlockHeader -> bool) (genesis : Block).

(** The sums after a block, as [verify_block_sums] and [setup_head] compute them. *)
Definition next_sums (s : BlockSums) (b : Block) : result Kernel.Error (Commitment * Commitment) :=
  verify_kernel_sums (inputs_committed (body b)) (sums_outputs_committed s b) (sums_kernels_committed s b)
    header_overage (total_kernel_offset (header b)).

(** The blocks up to the one with a hash, the last one first, with their sums. A
    genesis block without kernels does not count. *)
Inductive history : Ser.Hash -> list Block -> BlockSums -> Prop :=
| history_bare k : kernels (body genesis) = [] -> block_hash ct genesis = Some k -> history k [] default_sums
| history_genesis k us ks : kernels (body genesis) <> [] -> block_hash ct genesis = Some k ->
    next_sums default_sums genesis = Ok (us, ks) -> history k [genesis] (mkSums us ks)
| history_block k b bs s us ks : history (prev_hash (header b)) bs s -> next_sums s b = Ok (us, ks) ->
    block_hash ct b = Some k -> history k (b :: bs) (mkSums us ks).

Definition sums_ok (b : Batch) : Prop := forall k s, db_sums b !! k = Some s -> exists bs, history k bs s.

Lemma sums_subseteq b b' : db_sums b' ⊆ db_sums b -> sums_ok b -> sums_ok b'.
Proof. intros Hs Hb k s Hk. apply Hb. by eapply lookup_weaken. Qed.

Lemma sums_settled b b' : settled b b' -> sums_ok b -> sums_ok b'.
Proof. intros [_ Hs]. by apply sums_subseteq. Qed.

Lemma sums_frame b b' : frame_of b = frame_of b' -> sums_ok b -> sums_ok b'.
Proof. intros E. apply sums_settled. by apply settled_frame. Qed.

Lemma sums_same b b' : db_sums b' = db_sums b -> sums_ok b -> sums_ok b'.
Proof. intros E. apply sums_subseteq. by rewrite E. Qed.

Lemma save_sums_ok b k s bs : history k bs s -> sums_ok b -> sums_ok (save_block_sums k s b).
Proof.
  intros Hh Hb k' s' Hk'. cbn in Hk'. apply lookup_insert_Some in Hk' as [[<- <-]|[_ E]]; [by exists bs|by apply Hb].
Qed.

Lemma verify_sums_keeps b : keeps (ext_batch_is sums_ok) (verify_block_sums ct b).
Proof.
  unfold verify_block_sums. apply keeps_gets_in. intros s0 s Hs0 Es. unfold get_block_sums, found in Es.
  destruct (db_sums (x_batch s0) !! _) as [s1|] eqn:E; [|done]. injection Es as ->.
  destruct (Hs0 _ _ E) as [bs Hh]. clear s0 Hs0 E.
  destruct (verify_kernel_sums _ _ _ _ _) as [[us ks]|e] eqn:Ev; [|intros s1 r s' Hs H; by injection H as _ <-].
  assert (Hk : keeps (ext_batch_is sums_ok) (let* hash := must (block_hash ct b) in on_batch (save_block_sums hash (mkSums us ks)))).
  { apply keeps_must_in. intros k Ek. apply keeps_modify. intros s1 Hs1. unfold ext_batch_is in *. cbn.
    eapply save_sums_ok; [|exact Hs1]. by eapply history_block. }
  exact Hk.
Qed.

Lemma fork_sums ctx h : keeps (ext_batch_is sums_ok) (rewind_and_apply_fork ct ctx h).
Proof. apply fork_keeps_any; [apply sums_frame|apply verify_sums_keeps]. Qed.

(** Headers do not touch the sums. *)
Lemma sums_bodies b b' : bodies_of b' = bodies_of b -> sums_ok b -> sums_ok b'.
Proof. intros E. apply sums_same. exact (f_equal snd E). Qed.

Lemma process_block_sums ctx b : keeps (batch_is sums_ok) (process_block ct ctx b).
Proof.
  unfold process_block, validate_block, with_batch.
  apply keeps_bind; [apply keeps_gets|intros hd]. apply keeps_bind; [apply check_known_keeps|intros []].
  apply keeps_bind; [apply keeps_lift|intros []]. apply keeps_bind; [apply keeps_gets|intros prev].
  apply keeps_bind; [apply process_header_keeps, sums_bodies|intros []].
  apply keeps_bind; [keeps_auto|intros []].
  apply keeps_bind; [|intros fp].
  { apply extending_keeps, process_ext_keeps_any; [apply sums_frame|apply verify_sums_keeps]. }
  apply keeps_bind; [|intros []].
  { apply put_batch_opt_keeps. intros b0 b' E. apply sums_same. unfold save_block in E. destruct (block_hash ct b); [|done].
    by injection E as <-. }
  apply keeps_bind; [apply keeps_asks|intros tl].
  apply keeps_bind; [|intros []].
  { destruct (is_ok tl); [apply keeps_ret|]. apply keeps_bind; [apply keeps_must|intros t]. by apply put_batch_keeps. }
  destruct (has_more_work (header b) hd); [|apply keeps_ret].
  apply keeps_bind; [apply keeps_must|intros t]. apply keeps_bind; [by apply put_batch_keeps|intros []]. apply keeps_ret.
Qed.

Lemma reset_head_sums t rewind : keeps (chain_is sums_ok orphans_received) (reset_chain_head ct pv t rewind).
Proof.
  unfold reset_chain_head. apply keeps_bind; [apply move_ctx_keeps|intros ctx].
  apply on_us_keeps, committing_keeps. apply keeps_bind; [apply keeps_gets|intros h].
  apply keeps_bind; [|intros []].
  { apply extending_keeps, keeps_bind; [apply fork_sums|intros fp]. apply keeps_modify. by intros s. }
  destruct rewind; [|apply keeps_ret]. apply header_unit_keeps, keeps_bind; [|intros []].
  - apply keeps_same_batch. intros b. apply header_fork_keeps.
  - apply keeps_modify. by intros s.
Qed.

(** ** Events *)

(** A reset to genesis rebuilds sums that are missing from the whole hash set,
    which this does not cover. *)
Definition no_rebuild (e : Event) : Prop := match e with HeadResetToGenesis => False | _ => True end.

Lemma handle_sums archive_mode e : no_rebuild e -> event_ok e ->
  keeps (chain_is sums_ok orphans_received) (handle ct pv archive_mode genesis e).
Proof.
  intros Hn He.
  assert (Hh : forall d h o, keeps (batch_is sums_ok) (process_block_header ct (new_ctx ct pv o d) h)).
  { intros d h o. apply process_header_keeps, sums_bodies. }
  destruct e; try (apply quiet_keeps; exact I); cbn [handle event_ok no_rebuild] in *; try done.
  - apply keeps_bind; [|intros x; apply keeps_ret]. apply chain_process_block_keeps; [|by intros|done].
    intros d b' o _. apply process_block_sums.
  - unfold chain_process_block_header. apply keeps_bind; [apply keeps_asks|intros d].
    by apply on_us_keeps, committing_keeps.
  - apply keeps_bind; [|intros x; apply keeps_ret]. unfold sync_block_headers.
    apply keeps_bind; [apply keeps_asks|intros d]. apply on_us_keeps, committing_keeps, process_headers_keeps, sums_bodies.
  - apply reset_head_sums.
  - apply compact_keeps, sums_settled.
Qed.

(** ** The first start *)

Definition fresh (b : Batch) : Prop := db_head b = None /\ db_sums b = ∅.

Lemma fresh_same b b' : db_head b' = db_head b -> db_sums b' = db_sums b -> fresh b -> fresh b'.
Proof. unfold fresh. intros -> ->. done. Qed.

Lemma save_genesis_fresh : keeps (batch_is fresh) (save_genesis_header ct genesis).
Proof.
  unfold save_genesis_header. apply keeps_bind; [apply keeps_must|intros k]. apply keeps_bind; [apply keeps_asks|intros st].
  apply keeps_bind; [destruct (is_ok st); [apply keeps_ret|]|intros []].
  { apply put_batch_opt_keeps. intros b b' E. unfold save_block_header in E. destruct (header_hash ct _); [|done]. by injection E as <-. }
  apply keeps_bind; [apply keeps_asks|intros p]. destruct (_ =? 0); [|apply keeps_ret].
  apply header_unit_keeps, keeps_same_batch. intros b. apply apply_header_keeps.
Qed.

Lemma setup_header_fresh : keeps (batch_is fresh) (setup_header_head ct).
Proof.
  unfold setup_header_head. apply keeps_bind; [apply keeps_asks|intros hhd]. destruct hhd as [hd|e].
  - apply keeps_bind; [apply keeps_gets|intros p]. apply keeps_bind; [by apply keeps_modify|intros []].
    apply header_unit_keeps, keeps_same_batch. intros b. apply keeps_bind; [apply keeps_gets|intros h]. apply hx_rewind_keeps.
  - apply keeps_bind; [apply keeps_gets|intros k]. apply keeps_bind; [apply keeps_gets|intros h].
    apply keeps_bind; [apply keeps_must|intros t]. by apply put_batch_keeps.
Qed.

Lemma start_genesis_sums : keeps (batch_is sums_ok) (start_from_genesis ct genesis).
Proof.
  unfold start_from_genesis. apply keeps_bind; [|intros []].
  { apply put_batch_opt_keeps. intros b b' E. apply sums_same. unfold save_block in E. destruct (block_hash ct genesis); [|done].
    by injection E as <-. }
  apply keeps_must_in. intros k Ek. apply keeps_bind; [by apply put_batch_keeps|intros []].
  apply keeps_bind; [apply keeps_must|intros t]. apply keeps_bind; [by apply put_batch_keeps|intros []].
  assert (Hend : forall bs s, history k bs s -> keeps (batch_is sums_ok) (extending (apply_block ct genesis) ;* put_batch (save_block_sums k s))).
  { intros bs s Hh. apply keeps_bind; [|intros []].
    - apply extending_keeps, keeps_same_frame; [apply sums_frame|]. intros f. apply apply_block_keeps.
    - apply put_batch_keeps. intros b. by apply (save_sums_ok _ _ _ bs). }
  destruct (kernels (body genesis)) as [|x l] eqn:El.
  - apply (Hend []). by apply history_bare.
  - destruct (verify_kernel_sums _ _ _ _ _) as [[us ks]|e] eqn:Ev; [|intros u r u' Hu H; by injection H as _ <-].
    assert (Hs : keeps (batch_is sums_ok) (extending (apply_block ct genesis) ;* put_batch (save_block_sums k (mkSums us ks)))).
    { apply (Hend [genesis]). apply history_genesis; [by rewrite El|done|exact Ev]. }
    exact Hs.
Qed.

Lemma fresh_sums b : fresh b -> sums_ok b.
Proof. intros [_ E0] k s Hk. by rewrite E0, lookup_empty in Hk. Qed.

Lemma setup_sums u r u' : fresh (u_batch u) -> setup_head ct pv genesis false u = Some (r, u') -> batch_is sums_ok u'.
Proof.
  intros Hu E. unfold setup_head in E.
  apply bind_Some in E as [(e & E & ->)|(store & u2 & E2 & E)]; [done|]. apply asks_Some in E2 as [_ ->].
  unfold committing in E. destruct (bind (save_genesis_header ct genesis) _ u) as [[r2 u2]|] eqn:E2; [|done].
  assert (H2 : batch_is sums_ok u2 /\ batch_is sums_ok u); [|destruct r2; injection E as <- <-; apply H2].
  split; [|by apply fresh_sums].
  apply bind_Some in E2 as [(e & E2 & ->)|([] & u3 & E3 & E2)]; [by eapply fresh_sums, save_genesis_fresh|].
  apply save_genesis_fresh in E3; [|done].
  apply bind_Some in E2 as [(e & E2 & ->)|([] & u4 & E4 & E2)]; [by eapply fresh_sums, setup_header_fresh|].
  apply setup_header_fresh in E4; [|done].
  apply bind_Some in E2 as [(e & E2 & ->)|(hd & u5 & E5 & E2)]; [done|]. apply asks_Some in E5 as [[= ->] ->].
  unfold head in E2. rewrite (proj1 E4) in E2. cbn in E2. eapply start_genesis_sums; [|exact E2]. by apply fresh_sums.
Qed.

Lemma init_sums u c : fresh (u_batch u) -> init ct pv genesis u = Some (Ok c) -> chain_is sums_ok orphans_received c.
Proof.
  intros Hu H. unfold init in H.
  destruct (bind (setup_head ct pv genesis false) _ u) as [[r u']|] eqn:E; [|done]. cbn [mbind option_bind] in H.
  assert (Hs : batch_is sums_ok u').
  { apply bind_Some in E as [(e & E & ->)|([] & u1 & E1 & E)]; [by eapply setup_sums|].
    apply setup_sums in E1; [|done]. eapply committing_keeps; [|exact E1|exact E]. apply reindex_keeps, sums_settled. }
  destruct r; [|done]. cbn in H. injection H as <-. split; [exact Hs|]. apply map_Forall_empty.
Qed.

(** ** What the sums say *)

Section balance.
Context {PE : Pedersen} {PL : PedersenLaws}.

(** The values of the outputs less those of the inputs, and the excesses. *)
Definition created (bs : list Block) : Z :=
  sumZ (map (fun b => sum_of dlog (outputs_committed (body b)) - sum_of dlog (inputs_committed (body b))) bs).
Definition excesses (bs : list Block) : Z := sumZ (map (fun b => sum_of dlog (kernels_committed (body b))) bs).

Lemma history_balance k bs s : history k bs s ->
  dlog (utxo_sum s) == created bs - Z.of_nat (length bs) * REWARD * value_base /\
  dlog (kernel_sum s) == excesses bs /\
  dlog (utxo_sum s) == dlog (kernel_sum s) +
    scalar (match bs with b :: _ => total_kernel_offset (header b) | [] => blinding_zero end).
Proof.
  assert (Hstep : forall s b us ks c e, dlog (utxo_sum s) == c -> dlog (kernel_sum s) == e -> next_sums s b = Ok (us, ks) ->
    dlog us == c + (sum_of dlog (outputs_committed (body b)) - sum_of dlog (inputs_committed (body b))) - REWARD * value_base /\
    dlog ks == e + sum_of dlog (kernels_committed (body b)) /\
    dlog us == dlog ks + scalar (total_kernel_offset (header b))).
  { clear k bs s. intros s b us ks c e Hc He (Eu & Ek & E)%verify_kernel_sums_law; [|vm_compute; split; congruence].
    unfold sums_outputs_committed, sums_kernels_committed in *. rewrite sum_of_cons in *. split_and!; [..|done].
    - rewrite Eu, Hc. apply cong_eq. change header_overage with (- REWARD). lia.
    - rewrite Ek, He. reflexivity. }
  induction 1 as [k Hk Eh|k us ks Hk Eh Hn|k b bs s us ks Hh (Eu & Ek & _) Hn Eh]; unfold created, excesses in *.
  - cbn. rewrite dlog_zero, scalar_zero. split_and!; reflexivity.
  - apply (Hstep _ _ _ _ 0 0) in Hn as (H1 & H2 & H3); [|apply dlog_zero..]. cbn [map length utxo_sum kernel_sum]. unfold sumZ. cbn [foldr].
    split_and!; [rewrite H1; apply cong_eq; lia|rewrite H2; apply cong_eq; lia|done].
  - apply (Hstep _ _ _ _ _ _ Eu Ek) in Hn as (H1 & H2 & H3). cbn [map length utxo_sum kernel_sum]. unfold sumZ in *. cbn [foldr].
    split_and!; [rewrite H1; apply cong_eq; lia|rewrite H2; apply cong_eq; lia|done].
Qed.
End balance.
End supply.
