(* ===== verification/Atomic.v ===== *)
(** Units of work leave nothing behind when they fail.

    [extending] changes the backends in place and throws the changes away if its
    inside fails or asks for a rollback. The law of a backend is that discarding
    undoes everything since the last sync; the persistent backend satisfies it.
    So a block that is refused, or that does not have more work than the head,
    leaves the handles, the files and the database exactly as they were. *)

From Stdlib Require Import ZArith Lia.
From stdpp Require Import base numbers option sorting gmap list.
From S2P Require Import Prelude Consensus PmmrIndex Pmmr Ser LinkedList Kernel CutThrough Transaction PowTypes Block ChainTypes.
From S2P Require Import ChainStore BitmapAccumulator TxHashSet Pipe Chain PipeSpec HeaderChain ForkChoice.
Open Scope Z_scope.

(** ** Handles *)

Section handles.
Context {T E} {M : Mmr T E} {PH : PMMRHash T Ser.Hash}.
Implicit Types (p : PMMR (mmr T E)).

Definition since b0 p : Prop := unsynced b0 (backend p).

Lemma push_since b0 p x pos p' : push p x = Ok (pos, p') -> since b0 p -> since b0 p'.
Proof.
  unfold push, since. destruct (peak_map_height (size p)) as [pm h]. destruct (negb (h =? 0)); [done|].
  intros ([pos' hs] & _ & H)%rbind_Ok Hs. apply rbind_Ok in H as (b & Hb & H). injection H as <- <-.
  by eapply unsynced_append.
Qed.

Lemma prune_since b0 p pos f p' : prune p pos = Ok (f, p') -> since b0 p -> since b0 p'.
Proof.
  unfold prune, since. destruct (negb (is_leaf pos)); [done|]. destruct (backend_get_hash _ _).
  - intros (b & Hb & H)%rbind_Ok Hs. injection H as <- <-. by eapply unsynced_remove.
  - intros H Hs. by injection H as <- <-.
Qed.

Lemma rewind_since b0 p pos rm p' : Pmmr.rewind p pos rm = Ok p' -> since b0 p -> since b0 p'.
Proof.
  unfold Pmmr.rewind, since. intros (b & Hb & H)%rbind_Ok Hs. injection H as <-. by eapply unsynced_rewind.
Qed.

Lemma discard_since {L : MmrLaws M} b0 p sz : mmr_clean b0 -> since b0 p ->
  discard_handle sz (backend p) = Some (mkPMMR sz b0).
Proof. intros Hc Hs. unfold discard_handle. by rewrite (discard_law b0). Qed.
End handles.

Section atomic.
Context {CR : Crypto} {SU : SortUnstable} {NF : NrdFlag} (ct : ChainTypes).
Context {MH : Mmr BlockHeader HeaderEntry} {MO : Mmr OutputIdentifier OutputIdentifier}.
Context {MR : Mmr RangeProof RangeProof} {MK : Mmr TxKernel TxKernel}.

(** ** Header extensions *)

Section headers.
Context (b0 : mmr BlockHeader HeaderEntry).

Definition hx_since (s : HX) : Prop := since b0 (hx_pmmr (hx_ext s)).

(** Replacing the MMR of a header extension. *)
Lemma hx_update_keeps (f : PMMR (mmr BlockHeader HeaderEntry) -> result CE.Error (PMMR (mmr BlockHeader HeaderEntry))) t :
  (forall p p', f p = Ok p' -> since b0 p -> since b0 p') ->
  keeps hx_since (let* p := asks (fun s => hx_pmmr (hx_ext s)) in let* p := lift (f p) in
    let* t := must t in modify (set_hx p t)).
Proof.
  intros Hf s r s' Hs H. unfold bind, asks, lift, must, modify in H.
  destruct (f (hx_pmmr (hx_ext s))) as [p'|e] eqn:E; [|by injection H as _ <-].
  destruct t as [t|]; [|done]. injection H as _ <-. unfold hx_since. cbn. by eapply Hf.
Qed.

Lemma tx_err_Ok {A} (r : result pmmr_error A) x : tx_err r = Ok x <-> r = Ok x.
Proof. unfold tx_err. destruct r; cbn; [|done]. split; intros H; by injection H as ->. Qed.

Lemma apply_header_since h : keeps hx_since (apply_header ct h).
Proof.
  intros s r s' Hs H. unfold apply_header, bind, asks, lift, must, modify in H.
  destruct (tx_err _) as [[pos p']|e] eqn:E; [|by injection H as _ <-].
  destruct (tip_from_header ct h) as [t|]; [|done]. injection H as _ <-. unfold hx_since. cbn.
  apply tx_err_Ok in E. by eapply push_since.
Qed.

Lemma hx_rewind_since h : keeps hx_since (hx_rewind ct h).
Proof.
  unfold hx_rewind. apply (hx_update_keeps (fun p => tx_err (Pmmr.rewind p _ ∅))). intros p p' E%tx_err_Ok.
  by eapply rewind_since.
Qed.

Lemma on_current_since t : keeps hx_since (is_on_current_chain ct t).
Proof. unfold is_on_current_chain, hx_get_header_by_height. keeps_auto. Qed.

Lemma hx_root_since h : keeps hx_since (hx_validate_root ct h).
Proof. unfold hx_validate_root. keeps_auto. Qed.

Lemma fork_loop_since fuel h l : keeps hx_since (fork_loop ct fuel h l).
Proof.
  pose proof on_current_since. revert h l. induction fuel as [|fuel IH]; intros h l; cbn [fork_loop]; keeps_auto.
Qed.

Lemma header_fork_since ctx h : keeps hx_since (rewind_and_apply_header_fork ct ctx h).
Proof.
  unfold rewind_and_apply_header_fork, validate_header_ctx.
  apply keeps_bind; [apply fork_loop_since|intros [fh hs]]. apply keeps_bind; [apply hx_rewind_since|intros []].
  apply keeps_each. intros k. apply keeps_bind; [apply keeps_gets|intros x]. apply keeps_bind; [keeps_auto|intros []].
  apply keeps_bind; [apply hx_root_since|intros []]. apply apply_header_since.
Qed.

Lemma hx_rollback_since : keeps hx_since hx_force_rollback.
Proof. apply keeps_modify. by intros s. Qed.
End headers.

(** ** Extensions *)

Section extensions.
Context (h0 : mmr BlockHeader HeaderEntry) (o0 : mmr OutputIdentifier OutputIdentifier).
Context (r0 : mmr RangeProof RangeProof) (k0 : mmr TxKernel TxKernel).

Definition ex_since (s : EX) : Prop :=
  since h0 (hx_pmmr (x_header s)) /\ since o0 (output_pmmr (x_ext s)) /\ since r0 (rproof_pmmr (x_ext s)) /\
  since k0 (kernel_pmmr (x_ext s)).

Lemma on_batch_since f : keeps ex_since (on_batch f).
Proof. apply keeps_modify. by intros s. Qed.

(** Run a step that pushes, prunes or rewinds, whatever its outcome. *)
Ltac run_step H :=
  unfold bind, asks, lift, must, guard, on_ext, on_batch, modify, ret, throw in H;
  repeat (match type of H with context [match ?x with _ => _ end] => destruct x eqn:? end; simplify_eq/=);
  repeat (match goal with E : (if ?b then _ else _) _ = Some _ |- _ => destruct b end; simplify_eq/=);
  repeat match goal with E : tx_err _ = Ok _ |- _ => apply tx_err_Ok in E end.

Ltac since_solve := split_and!; eauto using push_since, prune_since, rewind_since.

Lemma apply_output_since out : keeps ex_since (apply_output out).
Proof. intros s r s' (H1 & H2 & H3 & H4) H. unfold apply_output in H. run_step H; since_solve. Qed.

Lemma apply_input_since c cp : keeps ex_since (apply_input c cp).
Proof. intros s r s' (H1 & H2 & H3 & H4) H. unfold apply_input in H. run_step H; since_solve. Qed.

Lemma apply_kernel_since k : keeps ex_since (apply_kernel k).
Proof. intros s r s' (H1 & H2 & H3 & H4) H. unfold apply_kernel in H. run_step H; since_solve. Qed.

Lemma rewind_mmrs_since o k l : keeps ex_since (rewind_mmrs_to_pos o k l).
Proof. intros s r s' (H1 & H2 & H3 & H4) H. unfold rewind_mmrs_to_pos in H. run_step H; since_solve. Qed.

(** The rest only looks at the MMRs. *)
Lemma quiet_since f : (forall e, output_pmmr (f e) = output_pmmr e /\ rproof_pmmr (f e) = rproof_pmmr e /\
    kernel_pmmr (f e) = kernel_pmmr e) -> keeps ex_since (on_ext f).
Proof.
  intros Hf. apply keeps_modify. intros s (H1 & H2 & H3 & H4). destruct (Hf (x_ext s)) as (E1 & E2 & E3).
  split_and!; cbn; by rewrite ?E1, ?E2, ?E3.
Qed.

#[local] Hint Resolve on_batch_since apply_output_since apply_input_since apply_kernel_since rewind_mmrs_since : keeps.
#[local] Hint Extern 1 (keeps ex_since (on_ext _)) => (apply quiet_since; by intros e) : keeps.

Lemma accumulator_since l : keeps ex_since (apply_to_bitmap_accumulator l).
Proof. unfold apply_to_bitmap_accumulator. keeps_auto. Qed.
#[local] Hint Resolve accumulator_since : keeps.

Lemma apply_kernels_since ks h : keeps ex_since (apply_kernels ks h).
Proof. unfold apply_kernels. keeps_auto. Qed.
#[local] Hint Resolve apply_kernels_since : keeps.

Lemma apply_block_since b : keeps ex_since (apply_block ct b).
Proof. unfold apply_block. keeps_auto. Qed.
#[local] Hint Resolve apply_block_since : keeps.

Lemma rewind_single_since b : keeps ex_since (rewind_single_block ct b).
Proof. unfold rewind_single_block, unspend. keeps_auto. Qed.
#[local] Hint Resolve rewind_single_since : keeps.

Lemma rewind_loop_since fuel target h l : keeps ex_since (rewind_loop ct fuel target h l).
Proof. revert h l. induction fuel as [|fuel IH]; intros h l; cbn [rewind_loop]; keeps_auto. Qed.
#[local] Hint Resolve rewind_loop_since : keeps.

Lemma ex_rewind_since h : keeps ex_since (ex_rewind ct h).
Proof. unfold ex_rewind. keeps_auto. Qed.
#[local] Hint Resolve ex_rewind_since : keeps.

Lemma in_header_since {A} (m : M HX A) : keeps (hx_since h0) m -> keeps ex_since (in_header m).
Proof. intros Hm. apply keeps_focus. intros s (H1 & H2). split; [|by split]. intros t r t' [Ht _] E. split; [by eapply (Hm t)|done]. Qed.

Lemma common_loop_since fuel h : keeps ex_since (common_loop ct fuel h).
Proof.
  revert h. induction fuel as [|fuel IH]; intros h; cbn [common_loop]; keeps_auto; apply in_header_since, on_current_since.
Qed.
#[local] Hint Resolve common_loop_since : keeps.

Lemma since_loop_since fuel fh h l : keeps ex_since (since_loop ct fuel fh h l).
Proof. revert h l. induction fuel as [|fuel IH]; intros h l; cbn [since_loop]; keeps_auto. Qed.
#[local] Hint Resolve since_loop_since : keeps.

Lemma add_block_since b : keeps ex_since (
  verify_coinbase_maturity ct b ;* let* _ := validate_utxo b in verify_block_sums ct b ;* apply_block_to_txhashset ct b).
Proof.
  unfold verify_coinbase_maturity, validate_utxo, verify_block_sums, apply_block_to_txhashset, validate_roots, validate_sizes.
  keeps_auto.
Qed.

Lemma fork_since ctx h : keeps ex_since (rewind_and_apply_fork ct ctx h).
Proof.
  unfold rewind_and_apply_fork. apply keeps_bind; [apply in_header_since, header_fork_since|intros []].
  pose proof add_block_since as Hadd. unfold reapply_block. keeps_auto.
Qed.

Lemma process_ext_since ctx b prev : keeps ex_since (process_block_ext ct ctx b prev).
Proof.
  unfold process_block_ext, verify_coinbase_maturity, validate_utxo, verify_block_sums, apply_block_to_txhashset,
    validate_roots, validate_sizes, ex_force_rollback.
  apply keeps_bind; [apply fork_since|intros fp]. keeps_auto.
Qed.
End extensions.

(** ** Units of work *)

Section units.
Context {LH : MmrLaws MH} {LO : MmrLaws MO} {LR : MmrLaws MR} {LK : MmrLaws MK}.

Definition trees_clean (t : TxHashSet) : Prop :=
  mmr_clean (backend (output_pmmr_h t)) /\ mmr_clean (backend (rproof_pmmr_h t)) /\
  mmr_clean (backend (kernel_pmmr_h t)).

(** What an extension starts with. *)
Definition starts_since (u : US) (s : EX) : Prop :=
  ex_since (backend (u_header u)) (backend (output_pmmr_h (u_trees u))) (backend (rproof_pmmr_h (u_trees u)))
    (backend (kernel_pmmr_h (u_trees u))) s.

Definition start_ext (u : US) (hd hhd : Tip) : EX :=
  mkEX (new_header_extension (u_header u) hhd) (new_extension (u_trees u) hd) (u_batch u).

Lemma start_since u hd hhd : starts_since u (start_ext u hd hhd).
Proof. split_and!; apply unsynced_none. Qed.

Lemma discard_trees_since t e : trees_clean t ->
  since (backend (output_pmmr_h t)) (output_pmmr e) -> since (backend (rproof_pmmr_h t)) (rproof_pmmr e) ->
  since (backend (kernel_pmmr_h t)) (kernel_pmmr e) -> discard_trees t e = Some t.
Proof.
  intros (C1 & C2 & C3) H1 H2 H3. unfold discard_trees.
  rewrite (discard_since _ _ (Pmmr.size (output_pmmr_h t)) C1 H1). cbn [mbind option_bind].
  rewrite (discard_since _ _ (Pmmr.size (rproof_pmmr_h t)) C2 H2). cbn [mbind option_bind].
  rewrite (discard_since _ _ (Pmmr.size (kernel_pmmr_h t)) C3 H3). cbn [mbind option_bind].
  by destruct t as [[] [] []].
Qed.

(** A unit of work that fails or is rolled back does nothing. *)
Lemma extending_undone {A} (inner : M EX A) u hd hhd r s : keeps (starts_since u) inner ->
  mmr_clean (backend (u_header u)) -> trees_clean (u_trees u) ->
  head (u_batch u) = Ok hd -> header_head (u_batch u) = Ok hhd ->
  inner (start_ext u hd hhd) = Some (r, s) -> (is_ok r = true -> ex_rollback (x_ext s) = true) ->
  extending inner u = Some (r, u).
Proof.
  intros Hk Ch Ct Eh Ehh H Hr. pose proof (Hk _ _ _ (start_since u hd hhd) H) as (H1 & H2 & H3 & H4).
  unfold extending. rewrite Eh, Ehh. unfold start_ext in H. rewrite H.
  rewrite (discard_since _ _ (Pmmr.size (u_header u)) Ch H1). cbn [mbind option_bind].
  assert (Eu : mkUS (mkPMMR (Pmmr.size (u_header u)) (backend (u_header u))) (u_trees u) (u_batch u) = u) by (by destruct u as [[] ? ?]).
  destruct r as [a|e].
  - rewrite Hr by done. rewrite discard_trees_since by done. cbn [mbind option_bind]. by rewrite Eu.
  - rewrite discard_trees_since by done. cbn [mbind option_bind]. by rewrite Eu.
Qed.

(** One of the files cannot be synced. *)
Definition sync_fails (t : TxHashSet) : Prop :=
  (exists b e, unsynced (backend (output_pmmr_h t)) b /\ mmr_sync b = Err e) \/
  (exists b e, unsynced (backend (rproof_pmmr_h t)) b /\ mmr_sync b = Err e) \/
  (exists b e, unsynced (backend (kernel_pmmr_h t)) b /\ mmr_sync b = Err e).

Lemma sync_handle_Err {T E} {M : Mmr T E} (p : PMMR (mmr T E)) sz e : sync_handle p sz = Err e ->
  exists e', mmr_sync (backend p) = Err e'.
Proof. unfold sync_handle, tx_err. destruct (mmr_sync (backend p)) as [b|e']; [done|]. by exists e'. Qed.

(** The trees after a unit of work, whatever the header MMR. *)
Lemma extending_trees {A} (inner : M EX A) u r u' : keeps (starts_since u) inner -> trees_clean (u_trees u) ->
  extending inner u = Some (r, u') ->
  match r with
  | Err _ => u_trees u' = u_trees u \/ sync_fails (u_trees u)
  | Ok _ => u_trees u' = u_trees u \/
      exists hd hhd a s, head (u_batch u) = Ok hd /\ inner (start_ext u hd hhd) = Some (Ok a, s) /\ ex_rollback (x_ext s) = false
  end.
Proof.
  intros Hk Ct H. unfold extending in H.
  destruct (head (u_batch u)) as [hd|] eqn:Eh; [|by injection H as <- <-; left].
  destruct (header_head (u_batch u)) as [hhd|] eqn:Ehh; [|by injection H as <- <-; left].
  fold (start_ext u hd hhd) in H. destruct (inner (start_ext u hd hhd)) as [[res s]|] eqn:E; [|done].
  pose proof (Hk _ _ _ (start_since u hd hhd) E) as (H1 & H2 & H3 & H4).
  destruct (discard_handle _ _) as [h|]; [|done]. cbn [mbind option_bind] in H.
  rewrite discard_trees_since in H by done. cbn [mbind option_bind] in H.
  destruct res as [a|e]; [|by injection H as <- <-; left].
  destruct (ex_rollback (x_ext s)) eqn:Er; [by injection H as <- <-; left|].
  destruct (ex_sizes (x_ext s)) as [[so sr] sk].
  destruct (sync_handle (output_pmmr (x_ext s)) so) as [o|e] eqn:Eo; cbn [rbind] in H.
  2: { injection H as <- <-. right. left. apply sync_handle_Err in Eo as [e' Ee]. by eexists _, e'. }
  destruct (sync_handle (rproof_pmmr (x_ext s)) sr) as [rp|e] eqn:Erp; cbn [rbind] in H.
  2: { injection H as <- <-. right. right. left. apply sync_handle_Err in Erp as [e' Ee]. by eexists _, e'. }
  destruct (sync_handle (kernel_pmmr (x_ext s)) sk) as [k|e] eqn:Ekp; cbn [rbind] in H.
  2: { injection H as <- <-. right. right. right. apply sync_handle_Err in Ekp as [e' Ee]. by eexists _, e'. }
  injection H as <- <-. right. by exists hd, hhd, a, s.
Qed.

(** Headers do not touch the trees. *)
Definition trees_are (t : TxHashSet) (u : US) : Prop := u_trees u = t.

Lemma on_header_trees {A} t (m : M (PMMR (mmr BlockHeader HeaderEntry) * Batch) A) : keeps (trees_are t) (on_header m).
Proof. apply keeps_focus. intros u Hu. split; [|exact Hu]. intros [h b] r [h' b'] _ _. exact Hu. Qed.

Lemma put_trees t f : keeps (trees_are t) (put_batch f).
Proof. apply keeps_modify. by intros u. Qed.

Lemma put_opt_trees t f : keeps (trees_are t) (put_batch_opt f).
Proof. unfold put_batch_opt. apply keeps_bind; [apply keeps_asks|intros b]. apply keeps_bind; [apply keeps_must|intros b']. apply put_trees. Qed.

Lemma process_header_trees t ctx h : keeps (trees_are t) (process_block_header ct ctx h).
Proof.
  unfold process_block_header, with_batch, add_block_header, update_header_head.
  apply keeps_bind; [apply keeps_gets|intros hd]. apply keeps_bind; [apply keeps_try, check_known_keeps|intros known].
  destruct (negb (is_ok known)); [apply keeps_ret|].
  apply keeps_bind; [apply keeps_gets|intros prev]. apply keeps_bind; [apply keeps_gets|intros hhd].
  apply keeps_bind; [apply keeps_must|intros k]. apply keeps_bind; [apply keeps_asks|intros existing].
  destruct (match existing with Ok _ => _ | Err _ => _ end); [apply keeps_ret|].
  apply keeps_bind; [apply validate_header_keeps|intros []]. apply keeps_bind; [apply on_header_trees|intros []].
  apply keeps_bind; [apply put_opt_trees|intros []]. destruct (has_more_work h hhd); [|apply keeps_ret].
  apply keeps_bind; [apply keeps_must|intros x]. apply put_trees.
Qed.

(** Everything that [process_block_ext] does is undone by a rollback, which it
    asks for unless the block has more work than the head. *)
Lemma process_ext_rollback ctx b prev hd s fp s' : head (x_batch s) = Ok hd ->
  process_block_ext ct ctx b prev s = Some (Ok fp, s') -> has_more_work (header b) hd = false ->
  ex_rollback (x_ext s') = true.
Proof.
  intros Hhd H Hw. unfold process_block_ext in H.
  apply bind_Ok in H as (fp' & s1 & H1 & H). apply (fork_keeps ct (part_of (x_batch s)) ctx prev) in H1; [|done].
  apply bind_Ok in H as ([] & s2 & H2 & H). apply (maturity_keeps ct (frame_of (x_batch s1)) b) in H2; [|done].
  apply bind_Ok in H as (x & s3 & H3 & H). apply (utxo_keeps (frame_of (x_batch s1)) b) in H3; [|done].
  apply bind_Ok in H as ([] & s4 & H4 & H). apply (block_sums_keeps ct (part_of (x_batch s)) b) in H4.
  2: { unfold same_part, same_frame in *. rewrite <- H1. by apply frame_part. }
  apply bind_Ok in H as ([] & s5 & H5 & H).
  apply (keeps_frame_part (part_of (x_batch s)) _ (fun f => to_txhashset_keeps ct f b)) in H5; [|done].
  apply bind_Ok in H as (hd' & s6 & H6 & H). apply gets_Ok in H6 as [H6 ->].
  assert (hd' = hd) as ->.
  { unfold same_part, part_of in H5. injection H5 as E _ _ _ _ _. unfold head in *. rewrite E in H6. congruence. }
  rewrite Hw in H. apply bind_Ok in H as ([] & s7 & H7 & H). injection H as _ <-. injection H7 as <-. done.
Qed.

(** After the unit of work, only the database changes. *)
Lemma block_saved_trees t b hd (fp : BlockHeader) : keeps (trees_are t) (
    add_block ct b ;*
    let* tl := asks (fun u => tail (u_batch u)) in
    (if is_ok tl then ret tt else update_body_tail ct (header b)) ;*
    if has_more_work (header b) hd then
      let* hd := must (tip_from_header ct (header b)) in update_head hd ;* ret (Some hd, fp)
    else ret (None, fp)).
Proof.
  unfold add_block, update_body_tail, update_head. apply keeps_bind; [apply put_opt_trees|intros []].
  apply keeps_bind; [apply keeps_asks|intros tl]. apply keeps_bind; [|intros []].
  { destruct (is_ok tl); [apply keeps_ret|]. apply keeps_bind; [apply keeps_must|intros x]. apply put_trees. }
  destruct (has_more_work _ _); [|apply keeps_ret]. apply keeps_bind; [apply keeps_must|intros x].
  apply keeps_bind; [apply put_trees|intros []]. apply keeps_ret.
Qed.

(** Effects that do not fail. *)
Definition succeeds {S A} (m : M S A) : Prop := forall s e s', m s <> Some (Err e, s').

Lemma succeeds_bind {S A B} (m : M S A) (k : A -> M S B) : succeeds m -> (forall a, succeeds (k a)) -> succeeds (bind m k).
Proof. intros Hm Hk s e s' [(e' & H & _)|(a & s1 & _ & H)]%bind_Some; [by eapply Hm|by eapply Hk]. Qed.

Lemma succeeds_must {S A} (o : option A) : succeeds (S := S) (must o).
Proof. intros s e s'. by destruct o. Qed.

Lemma block_saved_succeeds b hd (fp : BlockHeader) : succeeds (
    add_block ct b ;*
    let* tl := asks (fun u => tail (u_batch u)) in
    (if is_ok tl then ret tt else update_body_tail ct (header b)) ;*
    if has_more_work (header b) hd then
      let* hd := must (tip_from_header ct (header b)) in update_head hd ;* ret (Some hd, fp)
    else ret (None, fp)).
Proof.
  unfold add_block, update_body_tail, update_head, put_batch_opt, put_batch.
  repeat first [apply succeeds_bind; [|intros ?]|apply succeeds_must|by intros ? ? ?|
    match goal with |- succeeds (if ?c then _ else _) => destruct c end].
Qed.

Lemma process_block_trees ctx b u r u' : trees_clean (u_trees u) -> process_block ct ctx b u = Some (r, u') ->
  match r with
  | Err _ => u_trees u' = u_trees u \/ sync_fails (u_trees u)
  | Ok (None, _) => u_trees u' = u_trees u
  | Ok (Some _, _) => True
  end.
Proof.
  intros Ct H. unfold process_block, validate_block, with_batch in H.
  apply bind_Some in H as [(e & H & ->)|(hd & u1 & H1 & H)]; [injection H as _ <-; by left|]. apply gets_Ok in H1 as [Hhd ->].
  apply bind_Some in H as [(e & H & ->)|([] & u1 & H1 & H)].
  { left. by apply (check_known_keeps ct (trees_are (u_trees u)) (header b) hd) in H. }
  assert (u1 = u) as -> by (by apply (check_known_keeps ct (fun x => x = u) (header b) hd) in H1).
  apply bind_Some in H as [(e & H & ->)|([] & u1 & H2 & H)]; [injection H as _ <-; by left|]. apply lift_Ok in H2 as [_ ->].
  apply bind_Some in H as [(e & H & ->)|(prev & u1 & H2 & H)]; [injection H as _ <-; by left|]. apply gets_Ok in H2 as [_ ->].
  apply bind_Some in H as [(e & H & ->)|([] & u1 & H2 & H)].
  { left. by apply (process_header_trees (u_trees u)) in H. }
  assert (Hhd1 : db_head (u_batch u1) = db_head (u_batch u)).
  { apply (process_header_keeps ct (fun x => db_head x = db_head (u_batch u))) in H2; [done| |done].
    intros b0 b1 E%bodies_body. injection E as -> _. done. }
  apply (process_header_trees (u_trees u)) in H2; [|done]. unfold trees_are in H2.
  apply bind_Some in H as [(e & H & ->)|([] & u2 & H3 & H)].
  { left. apply bind_Some in H as [(e' & H & _)|(pv & u2 & H3 & H)]; [injection H as _ <-; done|].
    apply gets_Ok in H3 as [_ ->]. injection H as _ <-. done. }
  assert (u2 = u1) as ->.
  { apply bind_Ok in H3 as (pv & u3 & H4 & H3). apply gets_Ok in H4 as [_ ->]. by apply lift_Ok in H3 as [_ ->]. }
  apply bind_Some in H as [(e & H & ->)|(fp & u2 & H4 & H)].
  { apply extending_trees in H; [by rewrite H2 in H| |by rewrite H2]. apply process_ext_since. }
  assert (Hend : u_trees u' = u_trees u2).
  { by apply (block_saved_trees (u_trees u2) b hd fp) in H. }
  apply extending_trees in H4; [|apply process_ext_since|by rewrite H2].
  destruct H4 as [E|(hd' & hhd & a & s & Eh & Ei & Er)]; [rewrite E in Hend|].
  { destruct r as [[[t|] fp']|e]; [done| |left]; congruence. }
  assert (hd' = hd) as -> by (unfold head in *; rewrite Hhd1 in Eh; congruence).
  destruct (has_more_work (header b) hd) eqn:Ew; [|by rewrite (process_ext_rollback ctx b prev hd (start_ext u1 hd hhd) _ _ Eh Ei Ew) in Er].
  destruct r as [[[t|] fp']|e]; [done| |].
  - exfalso. clear - H. apply bind_Ok in H as ([] & u3 & _ & H). apply bind_Ok in H as (tl & u4 & _ & H).
    apply bind_Ok in H as ([] & u5 & _ & H). apply bind_Ok in H as (x & u6 & _ & H). apply bind_Ok in H as ([] & u7 & _ & H).
    by injection H.
  - exfalso. refine (block_saved_succeeds b hd fp u2 e u' _). by rewrite Ew.
Qed.
End units.
End atomic.
