(* ===== verification/ChainStorage.v ===== *)
(** The chain over its files.

    The MMRs of the chain are kept by the persistent backend of [PmmrStore]:
    the instance of [Mmr] that the chain runs on, and [PMMRHandle::new] and
    [TxHashSet::open] of [src/chain/src/txhashset/txhashset.rs], which open the
    files. A backend that was synced comes back from [discard] exactly as it was,
    whatever was appended, rewound or removed in between. *)

From Stdlib Require Import ZArith Lia.
From stdpp Require Import base numbers option sorting gmap list.
From S2P Require Import Prelude Consensus PmmrIndex Pmmr Ser Bitmap PruneList LeafSet AppendOnly PmmrStore LinkedList Kernel Transaction PowTypes Block ChainTypes.
From S2P Require Import ChainStore BitmapAccumulator TxHashSet.
Open Scope Z_scope.

(** ** The backend of the chain *)

Definition store_mmr {T E} {RE : Readable E} {WE : Writeable E} (as_elmt : T -> E) : Mmr T E := {|
  mmr := PMMRBackend (gset Z);
  mmr_backend := store_backend as_elmt;
  mmr_sync := sync;
  mmr_discard := discard;
  mmr_unpruned_size := unpruned_size;
  mmr_remove_from_leaf_set := remove_from_leaf_set;
  mmr_reset_prune_list pb := ran (reset_prune_list pb);
  mmr_check_compact := check_compact (E := E);
|}.

(** The files of a backend: those of the hashes, the data and their sizes, of the
    leaf set with its snapshot for a header, and of the prune list. *)
Record Files : Type := mkFiles {
  hash_disk : bytes;
  data_disk : bytes;
  size_disk : bytes;
  leaf_file : option (gset Z);
  leaf_snapshot : option (gset Z);
  prun_file : option (gset Z);
}.
Definition no_files : Files := mkFiles [] [] [] None None None.

Definition identifier_elmt_size : Z := 1 + PEDERSEN_COMMITMENT_SIZE.
Definition rproof_elmt_size : Z := 8 + MAX_PROOF_SIZE.

Section opening.
Context {CR : Crypto} {NF : NrdFlag} (ct : ChainTypes).

(** A header that cannot be hashed is caught before it is stored. *)
Definition header_elmt (h : BlockHeader) : HeaderEntry :=
  match header_entry ct h with
  | Some e => e
  | None => mkHeaderEntry Block.ZERO_HASH 0 Diff.zero 0 false
  end.

#[export] Instance header_mmr : Mmr BlockHeader HeaderEntry := store_mmr header_elmt.
#[export] Instance output_mmr : Mmr OutputIdentifier OutputIdentifier := store_mmr id.
#[export] Instance rproof_mmr : Mmr RangeProof RangeProof := store_mmr id.
#[export] Instance kernel_mmr : Mmr TxKernel TxKernel := store_mmr id.

(** [PMMRHandle::new]. [None] is a panic. *)
Definition handle_new {E} {RE : Readable E} (elmt_size : option Z) (f : Files) (prunable : bool)
    (version : ProtocolVersion) : option (result pmmr_error (PMMR (PMMRBackend (gset Z)))) :=
  match PmmrStore.new (E := E) (hash_disk f) (data_disk f) (size_disk f) (leaf_file f) (leaf_snapshot f) (prun_file f)
          prunable version elmt_size with
  | Err e => Some (Err e)
  | Ok b => let! size := unpruned_size b in Some (Ok (mkPMMR size b))
  end.

(** Opening the header MMR. *)
Definition header_open (f : Files) : option (result pmmr_error (PMMR (PMMRBackend (gset Z)))) :=
  handle_new (E := HeaderEntry) header_elmt_size f false (mkVersion 1).

(** The versions the kernel MMR may have been written with; [verify] is the check
    of the signature of a kernel. *)
Fixpoint open_kernels (verify : TxKernel -> bool) (f : Files) (versions : list ProtocolVersion)
    : option (result CE.Error (PMMR (PMMRBackend (gset Z)))) :=
  match versions with
  | [] => Some (Err CE.Other)
  | v :: versions =>
      let! r := handle_new (E := TxKernel) None f false v in
      match r with
      | Err e => Some (Err (CE.TxHashSetErr e))
      | Ok p =>
          if Pmmr.size p =? 0 then Some (Ok p)
          else
            match Pmmr.get_data (BE := store_backend id) (at_ (backend p) 1) 0 with
            | Some k => if verify k then Some (Ok p) else open_kernels verify f versions
            | None => open_kernels verify f versions
            end
      end
  end.

(** [TxHashSet::open] *)
Definition txhashset_open (verify : TxKernel -> bool) (fo fr fk : Files) : option (result CE.Error TxHashSet) :=
  match handle_new (E := OutputIdentifier) (Some identifier_elmt_size) fo true (mkVersion 1),
        handle_new (E := RangeProof) (Some rproof_elmt_size) fr true (mkVersion 1) with
  | Some (Ok o), Some (Ok r) =>
      match build_bitmap_accumulator o, open_kernels verify fk [mkVersion 2; mkVersion 1] with
      | Some (Ok a), Some (Ok k) => Some (Ok (mkTxHashSet o r k a))
      | Some (Err e), _ | Some (Ok _), Some (Err e) => Some (Err e)
      | _, _ => None
      end
  | Some (Err e), _ | Some (Ok _), Some (Err e) => Some (Err (CE.TxHashSetErr e))
  | _, _ => None
  end.
End opening.

(** ** Discarding *)

(** Nothing is pending, and there is something to go back to: a rewind of an
    empty file is not recorded. *)
Fixpoint file_clean (f : AppendOnlyFile) : Prop :=
  buffer f = [] /\ buffer_start_pos_bak f = 0 /\ 0 < buffer_start_pos f /\
  match size_info f with FixedSize _ => True | VariableSize sf => file_clean sf end.

(** A file that was not synced since it was [f0]. *)
Fixpoint file_since (f0 f : AppendOnlyFile) {struct f} : Prop :=
  disk f = disk f0 /\ AppendOnly.version f = AppendOnly.version f0 /\ mmap f = mmap f0 /\
  ((buffer_start_pos f = buffer_start_pos f0 /\ buffer_start_pos_bak f = 0) \/
   buffer_start_pos_bak f = buffer_start_pos f0) /\
  match size_info f, size_info f0 with
  | FixedSize n, FixedSize n0 => n = n0
  | VariableSize sf, VariableSize sf0 => file_since sf0 sf
  | _, _ => False
  end.

Lemma file_since_refl : forall f, file_clean f -> file_since f f.
Proof.
  fix IH 1. intros [d i v m b s k] (Hb & Hk & Hs & Hi). cbn in *. split_and!; try done; [by left|].
  destruct i as [n|sf]; [done|]. by apply IH.
Qed.

Lemma since_discard : forall f0 f, file_clean f0 -> file_since f0 f -> AppendOnly.discard f = f0.
Proof.
  fix IH 2. intros f0 [d i v m b s k]; destruct f0 as [d0 i0 v0 m0 b0 s0 k0]; intros Hf H. cbn in Hf, H.
  destruct Hf as (-> & -> & Hs0 & Hc), H as (-> & -> & -> & Hs & Hi).
  cbn. assert (Ei : match i with FixedSize n => FixedSize n | VariableSize sf => VariableSize (AppendOnly.discard sf) end = i0).
  { destruct i as [n|sf], i0 as [n0|sf0]; try done; f_equal; [done|]. by apply IH. }
  rewrite Ei. destruct Hs as [[-> ->]| ->]; [done|]. by rewrite (proj2 (Z.ltb_lt 0 s0) Hs0).
Qed.

Lemma since_rewind : forall f0 f pos, file_clean f0 -> file_since f0 f -> file_since f0 (AppendOnly.rewind f pos).
Proof.
  fix IH 2. intros f0 [d i v m b s k]; destruct f0 as [d0 i0 v0 m0 b0 s0 k0]; intros pos Hf H. cbn in Hf, H.
  destruct Hf as (-> & -> & Hs0 & Hc), H as (-> & -> & -> & Hs & Hi). cbn. split_and!; try done.
  - right. destruct Hs as [[-> ->]| ->]; [done|]. by rewrite (proj2 (Z.eqb_neq s0 0)) by lia.
  - destruct i as [n|sf], i0 as [n0|sf0]; try done. by apply IH.
Qed.

Lemma since_append : forall f0 f bs f', file_since f0 f -> AppendOnly.append f bs = Ok f' -> file_since f0 f'.
Proof.
  fix IH 2. intros f0 [d i v m b s k]; destruct f0 as [d0 i0 v0 m0 b0 s0 k0]; intros bs f' Hf H. cbn in Hf. destruct Hf as (-> & -> & -> & Hs & Hi).
  cbn [AppendOnly.append size_info] in H. destruct i as [n|sf]; [by injection H as <-|].
  destruct i0 as [n0|sf0]; [done|].
  apply rbind_Ok in H as (info & H & E). injection E as <-. apply rbind_Ok in H as (o & _ & H).
  apply rbind_Ok in H as (e & _ & H). apply rbind_Ok in H as (sf' & Ea & H). injection H as <-.
  cbn. split_and!; try done. by eapply IH.
Qed.
Section laws.
Context {T E : Type} {RE : Readable E} {WE : Writeable E} (as_elmt : T -> E).
Abbreviation PB := (PMMRBackend (gset Z)).

Lemma data_append {A} `{Writeable A} f0 f (x : A) n f' : io (DataFile.append f x) = Ok (n, f') -> file_since f0 f -> file_since f0 f'.
Proof.
  unfold io, DataFile.append, append_elmt. destruct (rbind (ser_vec _ x) _) as [f1|] eqn:E1; [|done].
  intros H1 Hs. injection H1 as _ <-. apply rbind_Ok in E1 as (bs & _ & E1). by eapply since_append.
Qed.

Lemma data_extend {A} `{Writeable A} f0 f (l : list A) n f' :
  io (DataFile.extend_from_slice f l) = Ok (n, f') -> file_since f0 f -> file_since f0 f'.
Proof.
  unfold io, DataFile.extend_from_slice. destruct (append_elmts f l) as [f1|] eqn:E1; [|done].
  intros H1 Hs. injection H1 as _ <-. revert f E1 Hs. induction l as [|x l IH]; intros f E1 Hs; [by injection E1 as <-|].
  cbn [append_elmts] in E1. apply rbind_Ok in E1 as (f2 & E2 & E1). apply (IH f2 E1).
  unfold append_elmt in E2. apply rbind_Ok in E2 as (bs & _ & E2). by eapply since_append.
Qed.

Lemma append_path (pl pl' : PruneList (gset Z)) pos0 : PruneList.append pl pos0 = Some pl' -> path pl' = path pl.
Proof.
  unfold PruneList.append. generalize 64%nat. intros fuel. revert pos0.
  induction fuel as [|fuel IH]; intros pos0 H; [done|]. cbn [append_loop] in H.
  destruct (pos0 <? _); [done|]. destruct (family pos0) as [parent0 sibling0].
  destruct (PruneList.is_pruned pl sibling0); [by eapply IH|].
  unfold append_single in H. destruct (pos0 <? _); [done|].
  apply bind_Some in H as (sh & _ & H). apply bind_Some in H as (lsh & _ & H). injection H as <-.
  cbn. unfold cleanup_subtree. by destruct (_ <=? _).
Qed.

(** A backend that was synced, with at least one element. *)
Definition store_clean (pb : PB) : Prop :=
  file_clean (hash_file pb) /\ file_clean (data_file pb) /\
  leaf_bitmap (leaf_set pb) = bitmap_bak (leaf_set pb) /\
  path (prune_list pb) = true /\ PruneList.discard (prune_list pb) (prun_disk pb) = Some (prune_list pb).

Definition store_since (b0 b : PB) : Prop :=
  prunable b = prunable b0 /\ file_since (hash_file b0) (hash_file b) /\ file_since (data_file b0) (data_file b) /\
  bitmap_bak (leaf_set b) = bitmap_bak (leaf_set b0) /\ path (prune_list b) = path (prune_list b0) /\
  leaf_disk b = leaf_disk b0 /\ prun_disk b = prun_disk b0.

Lemma store_discard b0 b : store_clean b0 -> store_since b0 b -> PmmrStore.discard b = Some b0.
Proof.
  intros (C1 & C2 & C3 & C4 & C5) (H1 & H2 & H3 & H4 & H5 & H6 & H7). unfold PmmrStore.discard.
  unfold PruneList.discard in *. rewrite H5, H7, C4 in *. rewrite C5. cbn [mbind option_bind].
  unfold DataFile.discard, LeafSet.discard. rewrite (since_discard _ _ C1 H2), (since_discard _ _ C2 H3), H1, H4, H6.
  destruct b0 as [? ? ? [] ? ? ?]. cbn in *. by subst.
Qed.

Lemma store_unsynced (b0 b : PB) : store_clean b0 -> unsynced (M := store_mmr as_elmt) b0 b -> store_since b0 b.
Proof.
  intros Hc H. destruct (Hc) as (C1 & C2 & _). induction H as [|b b' x hs _ IH H|b b' pos rm _ IH H|b b' pos _ IH H|b b' h pos _ IH H|b b' h _ IH H|b pos _ IH].
  - split_and!; try done; by apply file_since_refl.
  - destruct IH as (I1 & I2 & I3 & I4 & I5 & I6 & I7). change (PmmrStore.append as_elmt b x hs = Ok b') in H. unfold PmmrStore.append in H.
    apply rbind_Ok in H as ([n df] & Ed & H). apply rbind_Ok in H as ([n' hf] & Eh & H).
    apply (data_append (data_file b0)) in Ed; [|done]. apply (data_extend (hash_file b0)) in Eh; [|done].
    destruct (prunable (set_files b hf df)); [apply rbind_Ok in H as (sh & _ & H)|]; by injection H as <-.
  - destruct IH as (I1 & I2 & I3 & I4 & I5 & I6 & I7). change (PmmrStore.rewind b pos rm = Ok b') in H. unfold PmmrStore.rewind in H.
    apply rbind_Ok in H as (sh & _ & H). apply rbind_Ok in H as (lsh & _ & H). injection H as <-.
    destruct (prunable b) eqn:Ep; (split; [cbn [prunable set_files set_leaf_set]; by rewrite Ep|]);
      (split; [by apply since_rewind|]); (split; [by apply since_rewind|done]).
  - destruct IH as (I1 & I2 & I3 & I4 & I5 & I6 & I7). change (PmmrStore.remove b pos = Ok b') in H. unfold PmmrStore.remove in H.
    destruct (negb (prunable b)); [done|]. by injection H as <-.
  - destruct IH as (I1 & I2 & I3 & I4 & I5 & I6 & I7).
    change (Some (PmmrStore.append_pruned_subtree b h pos) = Some (Ok b')) in H. injection H as H. unfold PmmrStore.append_pruned_subtree in H.
    destruct (negb (prunable b)); [done|]. apply rbind_Ok in H as (b1 & E1 & H). apply rbind_Ok in H as (pl & E2 & H).
    injection H as <-. unfold PmmrStore.append_hash in E1. apply rbind_Ok in E1 as ([n hf] & Eh & E1). injection E1 as <-.
    apply (data_append (hash_file b0)) in Eh; [|done]. unfold ran, ok_or in E2.
    destruct (PruneList.append _ pos) as [pl'|] eqn:Ea; [|done]. injection E2 as <-. apply append_path in Ea.
    unfold store_since. cbn. cbn in Ea. rewrite Ea. done.
  - destruct IH as (I1 & I2 & I3 & I4 & I5 & I6 & I7).
    change (Some (PmmrStore.append_hash b h) = Some (Ok b')) in H. injection H as H. unfold PmmrStore.append_hash in H.
    apply rbind_Ok in H as ([n hf] & Eh & H). injection H as <-. by apply (data_append (hash_file b0)) in Eh.
  - done.
Qed.

#[export] Instance store_laws : MmrLaws (store_mmr as_elmt) :=
  Build_MmrLaws T E (store_mmr as_elmt) store_clean (fun b0 b Hc H => store_discard b0 b Hc (store_unsynced b0 b Hc H)).
End laws.

(** Being synced is decidable. *)
Fixpoint file_cleanb (f : AppendOnlyFile) : bool :=
  bool_decide (buffer f = []) && (buffer_start_pos_bak f =? 0) && (0 <? buffer_start_pos f) &&
  match size_info f with FixedSize _ => true | VariableSize sf => file_cleanb sf end.

Lemma file_cleanb_spec : forall f, file_cleanb f = true -> file_clean f.
Proof.
  fix IH 1. intros [d i v m b s k] H. cbn in H.
  apply andb_true_iff in H as [[[H1%bool_decide_eq_true H2%Z.eqb_eq]%andb_true_iff H3%Z.ltb_lt]%andb_true_iff H4].
  cbn. split; [exact H1|]. split; [exact H2|]. split; [exact H3|]. destruct i as [n|sf]; [exact I|]. by apply IH.
Qed.

#[local] Instance prune_list_eq_dec : EqDecision (PruneList (gset Z)).
Proof. solve_decision. Defined.

Definition store_cleanb (pb : PMMRBackend (gset Z)) : bool :=
  file_cleanb (hash_file pb) && file_cleanb (data_file pb) &&
  bool_decide (leaf_bitmap (leaf_set pb) = bitmap_bak (leaf_set pb)) && path (prune_list pb) &&
  bool_decide (PruneList.discard (prune_list pb) (prun_disk pb) = Some (prune_list pb)).

Lemma store_cleanb_spec pb : store_cleanb pb = true -> store_clean pb.
Proof.
  unfold store_cleanb. intros [[[[H1%file_cleanb_spec H2%file_cleanb_spec]%andb_true_iff H3%bool_decide_eq_true]%andb_true_iff H4]%andb_true_iff
    H5%bool_decide_eq_true]%andb_true_iff. by split_and!.
Qed.
