(* ===== verification/Orphans.v ===== *)
(** The pool of orphans.

    The pool holds at most [MAX_ORPHAN_SIZE] orphans, each of which is indexed
    under its height, whatever a chain is given. Processing the orphans after a
    block ends: every round that is followed by another takes an orphan out of
    the pool for good. *)

From Stdlib Require Import ZArith Lia.
From stdpp Require Import base numbers option sorting gmap list.
From S2P Require Import Prelude Consensus PmmrIndex Pmmr Ser LinkedList Kernel CutThrough Transaction PowTypes Block Pedersen ChainTypes.
From S2P Require Import ChainStore BitmapAccumulator TxHashSet Pipe Chain PipeSpec HeaderChain.
Open Scope Z_scope.

(** * The pool *)

Section pool.
Implicit Types (p : OrphanBlockPool) (os : gmap Ser.Hash Orphan) (idx : gmap Z (list Ser.Hash)).

Definition orphan_height (o : Orphan) : Z := height (header (or_block o)).

(** Every orphan is in the index under its height. *)
Definition indexed_by os idx : Prop := forall k o, os !! k = Some o ->
  exists hs, idx !! orphan_height o = Some hs /\ k ∈ hs.
Definition indexed p : Prop := indexed_by (orphans p) (height_idx p).

Lemma fold_delete_lookup hs os k : fold_left (fun os k => delete k os) hs os !! k = if decide (k ∈ hs) then None else os !! k.
Proof.
  revert os. induction hs as [|h hs IH]; intros os; [done|]. cbn [fold_left]. rewrite IH.
  destruct (decide (k = h)) as [->|Hn].
  - rewrite lookup_delete_eq, (decide_True _ _ (list_elem_of_here h hs)). by case_decide.
  - rewrite lookup_delete_ne by done. by repeat case_decide; try set_solver.
Qed.

(** Removing what is under a height. *)
Lemma evict_height_indexed h hs os idx : indexed_by os idx -> idx !! h = Some hs ->
  indexed_by (fold_left (fun os k => delete k os) hs os) (delete h idx).
Proof.
  intros Hi Hh k o. rewrite fold_delete_lookup. case_decide as Hk; [done|]. intros Ho.
  destruct (Hi k o Ho) as (hs' & E & Hin). exists hs'. split; [|done].
  rewrite lookup_delete_ne; [done|]. intros ->. congruence.
Qed.

(** The loop ends with fewer than the maximum, or with all heights done. *)
Lemma evict_loop_spec hs os idx : indexed_by os idx ->
  let '(os', idx') := evict_loop hs os idx in indexed_by os' idx' /\
    (Z.of_nat (base.size os') < MAX_ORPHAN_SIZE \/ forall h, h ∈ hs -> idx' !! h = None) /\
    (forall h, idx !! h = None -> idx' !! h = None).
Proof.
  revert os idx. induction hs as [|h hs IH]; intros os idx Hi; cbn [evict_loop].
  { split_and!; [done| |done]. right. intros h Hh. by apply elem_of_nil in Hh. }
  assert (Hs : exists os1 idx1, (match idx !! h with
      | Some hs => (fold_left (fun os k => delete k os) hs os, delete h idx) | None => (os, idx) end) = (os1, idx1) /\
      indexed_by os1 idx1 /\ idx1 !! h = None /\ forall h', idx !! h' = None -> idx1 !! h' = None).
  { destruct (idx !! h) as [l|] eqn:E; [|by exists os, idx].
    exists (fold_left (fun os k => delete k os) l os), (delete h idx). split_and!; [done|by apply evict_height_indexed|apply lookup_delete_eq|].
    intros h' Hn. by rewrite lookup_delete_None; right. }
  destruct Hs as (os1 & idx1 & -> & Hi1 & Hn1 & Hk1).
  destruct (Z.ltb_spec (Z.of_nat (base.size os1)) MAX_ORPHAN_SIZE) as [Hlt|Hge]; [split_and!; [done|by left|done]|].
  specialize (IH os1 idx1 Hi1). destruct (evict_loop hs os1 idx1) as [os' idx']. destruct IH as (Hi' & Hsz & Hk).
  split_and!; [done| |auto]. destruct Hsz as [?|Hall]; [by left|]. right. intros h' [->|Hh']%elem_of_cons; auto.
Qed.

Lemma indexed_filter (P : Ser.Hash * Orphan -> Prop) `{!forall x, Decision (P x)} os idx : indexed_by os idx -> indexed_by (filter P os) idx.
Proof. intros Hi k o [Ho _]%map_lookup_filter_Some. by apply Hi. Qed.

Lemma evict_indexed now p : indexed p -> indexed (evict now p) /\ orphans_len (evict now p) < MAX_ORPHAN_SIZE.
Proof.
  intros Hi. unfold evict.
  set (os0 := filter _ (orphans p)). set (hs := rev _).
  pose proof (evict_loop_spec hs os0 (height_idx p)) as Hl.
  assert (Hall : forall h, is_Some (height_idx p !! h) -> h ∈ hs).
  { intros h [l Hl']. unfold hs. apply list_elem_of_In. rewrite <- in_rev. apply list_elem_of_In.
    rewrite merge_sort_Permutation. apply list_elem_of_fmap. exists (h, l). split; [done|]. by apply elem_of_map_to_list. }
  destruct (evict_loop hs os0 (height_idx p)) as [os idx]. destruct Hl as (Hi' & Hsz & Hk); [by apply indexed_filter|].
  split.
  - intros k o Ho. cbn in *. destruct (Hi' k o Ho) as (l & E & Hin). exists l. split; [|done].
    apply map_lookup_filter_Some. split; [done|]. cbn. apply existsb_exists. exists k. split; [by apply list_elem_of_In|].
    apply bool_decide_eq_true. by exists o.
  - unfold orphans_len. cbn. destruct Hsz as [?|Hnone]; [done|].
    assert (Hempty : os = ∅).
    { apply map_empty. intros k. destruct (os !! k) as [o|] eqn:Ho; [|done]. exfalso.
      destruct (Hi' k o Ho) as (l & E & _). destruct (height_idx p !! orphan_height o) as [l'|] eqn:El.
      - rewrite Hnone in E; [done|]. apply Hall. by exists l'.
      - by rewrite (Hk _ El) in E. }
    by rewrite Hempty, map_size_empty.
Qed.

(** The invariant of the pool. *)
Definition pool_ok p : Prop := indexed p /\ orphans_len p <= MAX_ORPHAN_SIZE.

Lemma insert_size_le {V} (os : gmap Ser.Hash V) k o : (base.size (<[k := o]> os) <= S (base.size os))%nat.
Proof. destruct (os !! k) eqn:E; [rewrite map_size_insert_Some by done; lia|by rewrite map_size_insert_None]. Qed.

Lemma orphan_add_ok now k o p : pool_ok p -> pool_ok (orphan_add now k o p).
Proof.
  intros [Hi Hl]. unfold orphan_add. fold (orphan_height o).
  set (hs := default [] (height_idx p !! orphan_height o)).
  assert (Hi' : indexed (mkOrphans (<[k := o]> (orphans p)) (<[orphan_height o := hs ++ [k]]> (height_idx p)) (evicted p))).
  { intros k' o' Ho. cbn in *. apply lookup_insert_Some in Ho as [[<- <-]|[Hn Ho]].
    - exists (hs ++ [k]). split; [apply lookup_insert_eq|set_solver].
    - destruct (Hi k' o' Ho) as (l & E & Hin). destruct (decide (orphan_height o = orphan_height o')) as [Eh|Hne].
      + exists (hs ++ [k]). rewrite Eh, lookup_insert_eq. split; [done|]. unfold hs. rewrite Eh, E. set_solver.
      + exists l. by rewrite lookup_insert_ne. }
  destruct (Z.ltb_spec MAX_ORPHAN_SIZE (orphans_len (mkOrphans (<[k := o]> (orphans p)) (<[orphan_height o := hs ++ [k]]> (height_idx p)) (evicted p)))) as [Hlt|Hge].
  - destruct (evict_indexed now _ Hi') as [H1 H2]. split; [done|lia].
  - by split.
Qed.

(** Taking orphans by their hashes. *)
Lemma take_orphans_lookup hs os : forall k, snd (take_orphans hs os) !! k = if decide (k ∈ hs) then None else os !! k.
Proof.
  revert os. induction hs as [|h hs IH]; intros os k; cbn [take_orphans]; [done|].
  destruct (os !! h) as [o|] eqn:E.
  - specialize (IH (delete h os) k). destruct (take_orphans hs (delete h os)) as [l os']. cbn [snd] in *. rewrite IH.
    destruct (decide (k = h)) as [->|Hn].
    + rewrite lookup_delete_eq, (decide_True _ _ (list_elem_of_here h hs)). by case_decide.
    + rewrite lookup_delete_ne by done. by repeat case_decide; try set_solver.
  - rewrite IH. destruct (decide (k = h)) as [->|Hn]; [|by repeat case_decide; try set_solver].
    rewrite (decide_True _ _ (list_elem_of_here h hs)). by case_decide.
Qed.

Lemma take_orphans_size hs os : (length (fst (take_orphans hs os)) + base.size (snd (take_orphans hs os)) = base.size os)%nat.
Proof.
  revert os. induction hs as [|h hs IH]; intros os; cbn [take_orphans]; [done|].
  destruct (os !! h) as [o|] eqn:E; [|apply IH].
  specialize (IH (delete h os)). destruct (take_orphans hs (delete h os)) as [l os']. cbn [fst snd length] in *.
  rewrite map_size_delete_Some in IH by done. assert (base.size os <> 0%nat); [|lia].
  intros ->%map_size_empty_inv. by rewrite lookup_empty in E.
Qed.

Lemma take_orphans_in hs os o : o ∈ fst (take_orphans hs os) -> exists k, k ∈ hs /\ os !! k = Some o.
Proof.
  revert os. induction hs as [|h hs IH]; intros os; cbn [take_orphans]; [intros H; by apply elem_of_nil in H|].
  destruct (os !! h) as [o'|] eqn:E.
  - specialize (IH (delete h os)). destruct (take_orphans hs (delete h os)) as [l os']. cbn [fst] in *.
    intros [->|H]%elem_of_cons; [exists h; set_solver|]. destruct (IH H) as (k & Hk & Ho).
    exists k. apply lookup_delete_Some in Ho as [_ Ho]. set_solver.
  - intros H. destruct (IH os H) as (k & Hk & Ho). exists k. set_solver.
Qed.

Lemma take_orphans_all hs os k o : k ∈ hs -> os !! k = Some o -> o ∈ fst (take_orphans hs os).
Proof.
  revert os. induction hs as [|h hs IH]; intros os Hk Ho; [by apply elem_of_nil in Hk|]. cbn [take_orphans].
  destruct (os !! h) as [o'|] eqn:E.
  - specialize (IH (delete h os)). destruct (take_orphans hs (delete h os)) as [l os']. cbn [fst] in *.
    destruct (decide (k = h)) as [->|Hn]; [rewrite E in Ho; injection Ho as ->; set_solver|].
    apply elem_of_cons. right. apply IH; [set_solver|]. by rewrite lookup_delete_ne.
  - apply IH; [|done]. destruct (decide (k = h)) as [->|]; [congruence|set_solver].
Qed.

Lemma remove_by_height_ok h p : pool_ok p -> pool_ok (snd (remove_by_height h p)).
Proof.
  intros [Hi Hl]. unfold remove_by_height. destruct (height_idx p !! h) as [hs|] eqn:E; [|by split].
  pose proof (take_orphans_lookup hs (orphans p)) as Ht. pose proof (take_orphans_size hs (orphans p)) as Hsz.
  destruct (take_orphans hs (orphans p)) as [l os]. cbn in *. split.
  - intros k o Ho. cbn in *. rewrite Ht in Ho. case_decide as Hk; [done|].
    destruct (Hi k o Ho) as (l' & E' & Hin). exists l'. split; [|done]. rewrite lookup_delete_ne; [done|]. intros ->. congruence.
  - unfold orphans_len in *. cbn. lia.
Qed.

(** All the orphans of a height come out, and none stays. *)
Lemma remove_by_height_exact h p : pool_ok p ->
  (forall k o, orphans p !! k = Some o -> orphan_height o = h ->
     exists l, fst (remove_by_height h p) = Some l /\ o ∈ l) /\
  (forall k o, orphans (snd (remove_by_height h p)) !! k = Some o -> orphan_height o <> h).
Proof.
  intros [Hi Hl]. unfold remove_by_height. split.
  - intros k o Ho Eh. destruct (Hi k o Ho) as (hs & E & Hin). rewrite <- Eh, E.
    pose proof (take_orphans_all hs _ k o Hin Ho) as H. destruct (take_orphans hs (orphans p)) as [l os]. by exists l.
  - intros k o Ho Eh. destruct (height_idx p !! h) as [hs|] eqn:E.
    + pose proof (take_orphans_lookup hs (orphans p) k) as Ht. destruct (take_orphans hs (orphans p)) as [l os]. cbn in *.
      rewrite Ht in Ho. case_decide as Hk; [done|]. destruct (Hi k o Ho) as (l' & E' & Hin). congruence.
    + cbn in Ho. destruct (Hi k o Ho) as (l' & E' & Hin). congruence.
Qed.

End pool.

(** * The pool of a chain *)

Section chain_pool.
Context {CR : Crypto} {SU : SortUnstable} {NF : NrdFlag} (ct : ChainTypes).
Context {MH : Mmr BlockHeader HeaderEntry} {MO : Mmr OutputIdentifier OutputIdentifier}.
Context {MR : Mmr RangeProof RangeProof} {MK : Mmr TxKernel TxKernel}.
Context (pv : BlockHeader -> bool).

Definition pool_is (R : OrphanBlockPool -> Prop) (c : Chain) : Prop := R (c_orphans c).

Lemma on_us_pool {A} R (m : M US A) : keeps (pool_is R) (on_us m).
Proof. apply keeps_focus. intros c Hc. split; [|exact Hc]. intros u r u' _ _. exact Hc. Qed.

Lemma modify_pool R f : (forall c, c_orphans (f c) = c_orphans c) -> keeps (pool_is R) (modify f).
Proof. intros Hf. apply keeps_modify. intros c Hc. unfold pool_is in *. by rewrite Hf. Qed.
#[local] Hint Resolve on_us_pool : keeps.

(** A block leaves the pool alone, unless it joins it. *)
Lemma single_pool now b o c r c' : process_block_single ct pv now b o c = Some (r, c') ->
  c_orphans c' = c_orphans c \/
  exists k e, r = Err e /\ c_orphans c' = orphan_add now k (mkOrphan b o now) (c_orphans c).
Proof.
  set (p := c_orphans c). assert (Hp : pool_is (eq p) c) by done. intros H.
  unfold process_block_single in H.
  assert (Hend : keeps (pool_is (eq p)) (
      let* prev_head := from_db head in
      let* d := asks c_denylist in
      let* (hd, fork_point) := on_us (committing (process_block ct (new_ctx ct pv o d) b)) in
      let* prev := from_db (get_previous_header (header b)) in
      let* prev_tip := must (tip_from_header ct prev) in
      let* fork_tip := must (tip_from_header ct fork_point) in
      let* status := determine_status hd prev_tip prev_head fork_tip in
      notify (b, status, o) ;* ret hd)).
  { unfold from_db, determine_status, chain_is_on_current_chain, chain_header_hash_by_height. keeps_auto.
    all: by apply modify_pool. }
  assert (Hhd : keeps (pool_is (eq p)) (chain_process_block_header ct pv (header b) o)).
  { unfold chain_process_block_header. keeps_auto. }
  apply bind_Some in H as [(e & H & ->)|([] & c1 & H1 & H)]; [left; symmetry; exact (Hhd _ _ _ Hp H)|].
  assert (Hp1 : pool_is (eq p) c1) by exact (Hhd _ _ _ Hp H1).
  apply bind_Some in H as [(e & H & ->)|([] & c2 & H2 & H)]; [left; symmetry; exact (is_known_keeps ct (pool_is (eq p)) (header b) _ _ _ Hp1 H)|].
  apply (is_known_keeps ct (pool_is (eq p)) (header b) _ _ _ Hp1) in H2.
  apply bind_Some in H as [(e & H & ->)|([] & c3 & H3 & H)].
  - unfold check_orphan in H.
    apply bind_Some in H as [(e' & H & _)|(hd & c3 & H3 & H)]; [left; symmetry; by apply (keeps_gets (pool_is (eq p))) in H|].
    apply (keeps_gets (pool_is (eq p))) in H3; [|done].
    apply bind_Some in H as [(e' & H & _)|(ex & c4 & H4 & H)]; [done|]. apply asks_Some in H4 as [_ ->].
    destruct (_ || _); [done|]. apply bind_Some in H as [(e' & H & _)|(k & c4 & H4 & H)]; [by destruct (block_hash ct b)|].
    apply must_Ok in H4 as [_ ->]. apply bind_Some in H as [(e' & H & _)|([] & c5 & H5 & H)]; [done|].
    injection H5 as <-. injection H as _ <-. right. exists k, e. split; [done|]. cbn. by rewrite <- H3.
  - left. symmetry. refine (Hend c3 r c' _ H). unfold check_orphan in H3.
    apply bind_Some in H3 as [(e' & H3 & E)|(hd & c4 & H4 & H3)]; [done|].
    apply (keeps_gets (pool_is (eq p))) in H4; [|done].
    apply bind_Some in H3 as [(e' & H3 & E)|(ex & c5 & H5 & H3)]; [done|]. apply asks_Some in H5 as [_ ->].
    destruct (_ || _); [by injection H3 as <-|].
    apply bind_Some in H3 as [(e' & H3 & E)|(k & c5 & H5 & H3)]; [done|].
    by apply bind_Some in H3 as [(e' & H3 & E)|([] & c6 & H6 & H3)].
Qed.

Lemma single_pool_ok now b o : keeps (pool_is pool_ok) (process_block_single ct pv now b o).
Proof.
  intros c r c' Hc H. unfold pool_is in *. destruct (single_pool _ _ _ _ _ _ H) as [->|(k & e & _ & ->)]; [done|]. by apply orphan_add_ok.
Qed.

Lemma process_orphans_pool now os acc : keeps (pool_is pool_ok) (process_orphans ct pv now os acc).
Proof.
  revert acc. induction os as [|o os IH]; intros acc; cbn [process_orphans]; [apply keeps_ret|].
  apply keeps_bind; [apply keeps_try, single_pool_ok|intros r]. apply IH.
Qed.

Lemma check_orphans_pool now fuel n : keeps (pool_is pool_ok) (check_orphans ct pv now fuel n).
Proof.
  revert n. induction fuel as [|fuel IH]; intros n c r c' Hc H; cbn [check_orphans] in H; [done|].
  apply bind_Some in H as [(e & H & ->)|([os pool] & c1 & H1 & H)]; [done|].
  apply asks_Some in H1 as [H1 ->]. injection H1 as H1.
  pose proof (remove_by_height_ok n _ Hc) as Hp. rewrite <- H1 in Hp.
  apply bind_Some in H as [(e & H & ->)|([] & c2 & H2 & H)]; [done|]. unfold modify in H2. injection H2 as <-.
  cbn [snd] in Hp. destruct os as [l|]; [|by injection H as _ <-].
  refine (keeps_bind _ _ _ (process_orphans_pool now l None) _ (set_orphans pool c) _ _ Hp H).
  intros acc. destruct acc as [n'|]; [apply IH|apply keeps_ret].
Qed.

Lemma handle_pool archive_mode genesis e : keeps (pool_is pool_ok) (handle ct pv archive_mode genesis e).
Proof.
  destruct e; cbn [handle].
  - apply keeps_bind; [|intros x; apply keeps_ret]. unfold chain_process_block.
    apply keeps_bind; [apply keeps_try, single_pool_ok|intros res]. apply keeps_bind; [|intros []; apply keeps_lift].
    destruct (is_ok res); [|apply keeps_ret]. apply keeps_bind; [apply keeps_asks|intros fuel]. apply check_orphans_pool.
  - unfold chain_process_block_header. keeps_auto.
  - unfold sync_block_headers. keeps_auto.
  - by apply modify_pool.
  - unfold reset_chain_head, move_ctx. keeps_auto.
  - unfold reset_chain_head_to_genesis. keeps_auto.
  - unfold reset_pibd_head. keeps_auto.
  - unfold reset_prune_lists. keeps_auto.
  - unfold chain_compact, txhashset_archive_header, get_header_by_height, chain_header_hash_by_height, from_db. keeps_auto.
  - unfold chain_validate, move_ctx, readonly, from_db. keeps_auto.
  - unfold chain_validate_tx, validate_tx_against_utxo, view, validate_tx_kernels, readonly. keeps_auto.
  - unfold set_txhashset_roots, move_ctx, readonly. keeps_auto.
Qed.

(** ** Processing the orphans ends *)

Lemma orphan_add_size now k o p : (base.size (orphans (orphan_add now k o p)) <= S (base.size (orphans p)))%nat.
Proof.
  unfold orphan_add. set (p' := mkOrphans _ _ _).
  assert (H : (base.size (orphans p') <= S (base.size (orphans p)))%nat) by apply insert_size_le.
  destruct (_ <? _); [|done]. etrans; [apply map_subseteq_size, evict_subseteq|done].
Qed.

Definition pool_size (c : Chain) : nat := base.size (orphans (c_orphans c)).

Lemma process_orphans_size now os acc c r c' : process_orphans ct pv now os acc c = Some (r, c') ->
  exists a, r = Ok a /\ (pool_size c' <= pool_size c + length os)%nat /\
    (is_Some a -> is_Some acc \/ (pool_size c' < pool_size c + length os)%nat).
Proof.
  revert acc c. induction os as [|o os IH]; intros acc c H; cbn [process_orphans] in H.
  { injection H as <- <-. exists acc. cbn. split_and!; [done|lia|by left]. }
  apply bind_Some in H as [(e & H & ->)|(res & c1 & H1 & H)]; [unfold try in H; by destruct (process_block_single _ _ _ _ _ c) as [[]|]|].
  unfold try in H1. destruct (process_block_single ct pv now (or_block o) (or_opts o) c) as [[res' c2]|] eqn:E; [|done].
  injection H1 as -> ->. apply IH in H as (a & -> & Hs & Ha). exists a. split; [done|].
  assert (Hc1 : (pool_size c1 + (if is_ok res then 1 else 0) <= pool_size c + 1)%nat).
  { unfold pool_size. destruct (single_pool _ _ _ _ _ _ E) as [->|(k & e & -> & ->)]; [destruct (is_ok res); lia|].
    pose proof (orphan_add_size now k (mkOrphan (or_block o) (or_opts o) now) (c_orphans c)). cbn. lia. }
  cbn [length]. destruct (is_ok res) eqn:Er.
  - split; [lia|]. intros _. right. lia.
  - split; [lia|]. intros H. destruct (Ha H) as [?|?]; [by left|right; lia].
Qed.

(** The loop of [check_orphans], round by round, with no bound. *)
Inductive orphan_rounds (now : Z) : Z -> Chain -> option (result CE.Error unit * Chain) -> Prop :=
| rounds_none h c p : remove_by_height h (c_orphans c) = (None, p) ->
    orphan_rounds now h c (Some (Ok tt, set_orphans p c))
| rounds_panic h c os p : remove_by_height h (c_orphans c) = (Some os, p) ->
    process_orphans ct pv now os None (set_orphans p c) = None -> orphan_rounds now h c None
| rounds_stop h c os p c' : remove_by_height h (c_orphans c) = (Some os, p) ->
    process_orphans ct pv now os None (set_orphans p c) = Some (Ok None, c') -> orphan_rounds now h c (Some (Ok tt, c'))
| rounds_next h c os p n c' r : remove_by_height h (c_orphans c) = (Some os, p) ->
    process_orphans ct pv now os None (set_orphans p c) = Some (Ok (Some n), c') ->
    orphan_rounds now (add64 n 1) c' r -> orphan_rounds now h c r.

Lemma remove_by_height_size h p : (pool_size (set_orphans (snd (remove_by_height h (c_orphans p))) p) +
  length (default [] (fst (remove_by_height h (c_orphans p)))) = pool_size p)%nat.
Proof.
  unfold remove_by_height, pool_size. destruct (height_idx _ !! h) as [hs|]; [|cbn; lia].
  pose proof (take_orphans_size hs (orphans (c_orphans p))). destruct (take_orphans hs _) as [l os]. cbn in *. lia.
Qed.

Lemma check_orphans_rounds now fuel h c : (pool_size c < fuel)%nat ->
  orphan_rounds now h c (check_orphans ct pv now fuel h c).
Proof.
  revert h c. induction fuel as [|fuel IH]; intros h c Hf; [lia|]. cbn [check_orphans].
  unfold bind at 1, asks. destruct (remove_by_height h (c_orphans c)) as [os p] eqn:E.
  pose proof (remove_by_height_size h c) as Hs. rewrite E in Hs. cbn [fst snd] in Hs.
  unfold bind at 1, modify. destruct os as [os|]; [|by apply rounds_none].
  unfold bind. destruct (process_orphans ct pv now os None (set_orphans p c)) as [[r c']|] eqn:Ep; [|by eapply rounds_panic].
  apply process_orphans_size in Ep as Hp. destruct Hp as (a & -> & Hle & Ha).
  destruct a as [n|]; [|by eapply rounds_stop]. eapply rounds_next; [exact E|exact Ep|]. apply IH.
  destruct (Ha ltac:(by eexists)) as [[? ?]|?]; [done|]. change (default [] (Some os)) with os in Hs. lia.
Qed.

End chain_pool.
