(* ===== verification/Lookup.v ===== *)
(** Looking up the block of a kernel.

    The binary search of [get_header_for_kernel_index] finds the block that a
    kernel of the kernel MMR is in; 65 rounds are enough for heights of 64 bits.
    For a kernel beyond the last header it does not end. *)

From Stdlib Require Import ZArith Lia.
From stdpp Require Import base numbers option sorting gmap list.
From S2P Require Import Prelude Consensus PmmrIndex Pmmr Ser LinkedList Kernel CutThrough Transaction PowTypes Block Pedersen ChainTypes.
From S2P Require Import ChainStore BitmapAccumulator TxHashSet Pipe Chain PipeSpec HeaderChain.
Open Scope Z_scope.

Section lookup.
Context {CR : Crypto} {SU : SortUnstable} {NF : NrdFlag} (ct : ChainTypes).
Context {MH : Mmr BlockHeader HeaderEntry} {MO : Mmr OutputIdentifier OutputIdentifier}.
Context {MR : Mmr RangeProof RangeProof} {MK : Mmr TxKernel TxKernel}.
Implicit Types (c : Chain).

(** The header at a height of the header MMR. *)
Definition header_at c (n : Z) : result CE.Error BlockHeader :=
  let? hash := get_header_hash_by_height n (u_header (c_us c)) in get_block_header hash (db c).

Lemma get_header_at c n : get_header_by_height n c = Some (header_at c n, c).
Proof.
  unfold get_header_by_height, chain_header_hash_by_height, from_db, gets, header_at, bind.
  by destruct (get_header_hash_by_height n (u_header (c_us c))).
Qed.

(** The headers up to a height, with the kernels of each after those of the one before. *)
Definition headers_upto c (hd : Z -> BlockHeader) (max : Z) : Prop :=
  (forall n, 0 <= n <= max -> header_at c n = Ok (hd n)) /\
  (forall n, 0 < n <= max -> kernel_mmr_size (hd (n - 1)) < kernel_mmr_size (hd n)).

Lemma sizes_mono c hd max i j : headers_upto c hd max -> 0 <= i <= j -> j <= max ->
  kernel_mmr_size (hd i) <= kernel_mmr_size (hd j).
Proof.
  intros [_ Hm] Hi Hj. assert (Hk : 0 <= j - i) by lia. remember (j - i) as k eqn:Ek.
  revert j Ek Hi Hj. pattern k. apply natlike_ind; [|clear k Hk|done].
  - intros j Ek Hi Hj. replace j with i by lia. lia.
  - intros k Hk IH j Ek Hi Hj. specialize (IH (j - 1) ltac:(lia) ltac:(lia) ltac:(lia)). specialize (Hm j ltac:(lia)). lia.
Qed.

(** The middle, rounded up. *)
Lemma search_mid lo hi : 0 <= lo <= hi -> hi < 2 ^ 64 ->
  sub64 hi (sub64 hi lo / 2) = hi - (hi - lo) / 2 /\ lo <= hi - (hi - lo) / 2 <= hi /\
  (0 < hi -> 0 < hi - (hi - lo) / 2) /\ (lo < hi -> lo < hi - (hi - lo) / 2) /\
  (2 <= hi - lo -> hi - (hi - lo) / 2 < hi).
Proof.
  intros Hlo Hhi. assert (Hd : 0 <= (hi - lo) / 2 <= hi - lo).
  { split; [apply Z.div_pos; lia|]. apply Z.div_le_upper_bound; lia. }
  pose proof (Z.mul_div_le (hi - lo) 2 ltac:(lia)).
  assert (E : sub64 hi lo = hi - lo) by (apply sub64_small; unfold_words; lia).
  rewrite E, sub64_small by (unfold_words; lia). split_and!; [done|lia|lia|lia|lia|].
  intros H2. assert (1 <= (hi - lo) / 2); [|lia]. apply Z.div_le_lower_bound; lia.
Qed.

(** One step of the search. *)
Lemma kernel_step fuel c hd idx lo hi : headers_upto c hd hi -> 0 <= lo <= hi -> 0 < hi -> hi < 2 ^ 64 ->
  let mid := hi - (hi - lo) / 2 in
  kernel_height_loop (S fuel) idx lo hi c =
  if kernel_mmr_size (hd mid) <? idx then kernel_height_loop fuel idx mid hi c
  else if idx <? kernel_mmr_size (hd (mid - 1)) then kernel_height_loop fuel idx lo mid c
  else if idx =? kernel_mmr_size (hd (mid - 1)) then Some (Ok (hd (mid - 1)), c) else Some (Ok (hd mid), c).
Proof.
  intros [Hh _] Hlo H0 Hhi. destruct (search_mid lo hi Hlo Hhi) as (E & Hb & Hp & _). cbn zeta.
  specialize (Hp H0). cbn [kernel_height_loop]. rewrite E. unfold bind at 1.
  rewrite get_header_at, (Hh (hi - (hi - lo) / 2)) by lia.
  rewrite (proj2 (Z.eqb_neq (hi - (hi - lo) / 2) 0)) by lia. rewrite sub64_small by (unfold_words; lia).
  unfold bind at 1. rewrite get_header_at, (Hh (hi - (hi - lo) / 2 - 1)) by lia.
  set (mid := hi - (hi - lo) / 2).
  by destruct (kernel_mmr_size (hd mid) <? idx), (idx <? kernel_mmr_size (hd (mid - 1))), (idx =? kernel_mmr_size (hd (mid - 1))).
Qed.

(** The kernel is in the block found. *)
Definition kernel_in hd (idx n : Z) : Prop := kernel_mmr_size (hd (n - 1)) < idx <= kernel_mmr_size (hd n).

Lemma kernel_search k fuel c hd idx lo hi : headers_upto c hd hi -> 0 <= lo < hi -> hi < 2 ^ 64 ->
  hi - lo <= 2 ^ k -> 0 <= k -> (Z.to_nat k < fuel)%nat ->
  kernel_mmr_size (hd lo) < idx <= kernel_mmr_size (hd hi) ->
  exists n, lo < n <= hi /\ kernel_in hd idx n /\ kernel_height_loop fuel idx lo hi c = Some (Ok (hd n), c).
Proof.
  intros Hh Hlo Hhi Hk Hk0. revert fuel lo hi Hh Hlo Hhi Hk. pattern k. apply natlike_ind; [|clear k Hk0|done].
  - intros fuel lo hi Hh Hlo Hhi Hk Hf Hi. destruct fuel as [|fuel]; [lia|].
    assert (hi = lo + 1) as -> by lia. rewrite (kernel_step _ c hd) by (done || lia). cbn zeta.
    replace (lo + 1 - lo) with 1 by lia. change (1 / 2) with 0. rewrite Z.sub_0_r.
    rewrite (proj2 (Z.ltb_ge _ _)) by lia. replace (lo + 1 - 1) with lo by lia.
    rewrite (proj2 (Z.ltb_ge _ _)), (proj2 (Z.eqb_neq _ _)) by lia.
    exists (lo + 1). split; [lia|]. split; [|done]. unfold kernel_in. by replace (lo + 1 - 1) with lo by lia.
  - intros k Hk0 IH fuel lo hi Hh Hlo Hhi Hk Hf Hi. destruct fuel as [|fuel]; [lia|].
    rewrite Z.pow_succ_r in Hk by done.
    destruct (search_mid lo hi ltac:(lia) Hhi) as (_ & Hb & Hp & Hl & Hr). rewrite (kernel_step _ c hd) by (done || lia). cbn zeta.
    assert (Hd1 : (hi - lo) / 2 <= 2 ^ k) by (apply Z.div_le_upper_bound; lia).
    assert (Hd2 : hi - (hi - lo) / 2 - lo <= 2 ^ k).
    { pose proof (Z.div_mod (hi - lo) 2 ltac:(lia)). pose proof (Z.mod_pos_bound (hi - lo) 2 ltac:(lia)). lia. }
    set (mid := hi - (hi - lo) / 2) in *.
    assert (Hup : forall n, n <= hi -> headers_upto c hd n).
    { intros n Hn. destruct Hh as [H1 H2]. split; intros i Hi'; [apply H1|apply H2]; lia. }
    destruct (Z.ltb_spec (kernel_mmr_size (hd mid)) idx) as [H1|H1].
    + destruct (decide (mid = hi)) as [E|Hne]; [rewrite E in H1; lia|].
      destruct (IH fuel mid hi Hh ltac:(lia) Hhi ltac:(lia) ltac:(lia) ltac:(lia)) as (n & Hn & ? & ?). exists n. split; [lia|done].
    + destruct (Z.ltb_spec idx (kernel_mmr_size (hd (mid - 1)))) as [H2|H2].
      * destruct (IH fuel lo mid (Hup mid ltac:(lia)) ltac:(lia) ltac:(lia) ltac:(lia) ltac:(lia)) as (n & Hn & ? & ?);
          [lia|]. exists n. split; [lia|done].
      * destruct (Z.eqb_spec idx (kernel_mmr_size (hd (mid - 1)))) as [->|H3].
        -- exists (mid - 1). assert (lo < mid - 1).
           { destruct (decide (lo = mid - 1)) as [E|]; [rewrite <- E in Hi; lia|lia]. }
           split; [lia|]. split; [|done]. unfold kernel_in. destruct Hh as [_ Hm]. specialize (Hm (mid - 1) ltac:(lia)). lia.
        -- exists mid. split; [lia|]. split; [|done]. unfold kernel_in. lia.
Qed.

(** Beyond the last header the search never ends. *)
Lemma kernel_search_diverges fuel c hd idx lo hi : headers_upto c hd hi -> 0 <= lo <= hi -> 0 < hi -> hi < 2 ^ 64 ->
  kernel_mmr_size (hd hi) < idx -> kernel_height_loop fuel idx lo hi c = None.
Proof.
  intros Hh Hlo H0 Hhi Hi. revert lo Hlo. induction fuel as [|fuel IH]; intros lo Hlo; [done|].
  rewrite (kernel_step _ c hd) by done. cbn zeta. destruct (search_mid lo hi Hlo Hhi) as (_ & Hb & _).
  pose proof (sizes_mono c hd hi (hi - (hi - lo) / 2) hi Hh ltac:(lia) ltac:(lia)).
  rewrite (proj2 (Z.ltb_lt _ _)) by lia. apply IH. lia.
Qed.
End lookup.
