(* ===== verification/Start.v ===== *)
(** Starting a node.

    [setup_head] steps back from blocks that do not check until one does. The loop
    ends: each round goes one height down, and there is nothing to go back to
    from the genesis block. *)

From Stdlib Require Import ZArith Lia.
From stdpp Require Import base numbers option sorting gmap list.
From S2P Require Import Prelude Consensus PmmrIndex Pmmr Ser LinkedList Kernel CutThrough Transaction PowTypes Block Pedersen ChainTypes.
From S2P Require Import ChainStore BitmapAccumulator TxHashSet Pipe Chain PipeSpec HeaderChain ForkChoice.
Open Scope Z_scope.

Section start.
Context {CR : Crypto} {SU : SortUnstable} {NF : NrdFlag} (ct : ChainTypes).
Context {MH : Mmr BlockHeader HeaderEntry} {MO : Mmr OutputIdentifier OutputIdentifier}.
Context {MR : Mmr RangeProof RangeProof} {MK : Mmr TxKernel TxKernel}.
Context (pv : BlockHeader -> bool) (genesis : Block) (store : Batch) (resetting_pibd : bool).

(** One round: the tip to go on with, if the block of [hd] does not check. *)
Definition start_round (hd : Tip) : M US (option Tip) :=
  let* (h, pibd_in_progress) := start_header ct genesis store hd resetting_pibd in
  let* res := try (extending (check_start ct pv genesis h pibd_in_progress)) in
  if is_ok res then ret None
  else
    let* prev_header := with_batch (get_block_header (prev_block_h hd)) in
    let* _ := extending (rewind_and_apply_fork ct (any_header pv) prev_header) in
    let* hash := must (header_hash ct h) in
    put_batch (delete_block hash) ;*
    let* hd := must (tip_from_header ct prev_header) in
    put_batch (save_body_head hd) ;*
    ret (Some hd).

Lemma start_loop_round fuel hd u : start_loop ct pv genesis (S fuel) store hd resetting_pibd u =
  (let* o := start_round hd in
   match o with Some hd => start_loop ct pv genesis fuel store hd resetting_pibd | None => ret tt end) u.
Proof.
  cbn [start_loop]. unfold start_round, bind. destruct (start_header _ _ _ _ _ u) as [[[[h p]|e] u1]|]; [|done..].
  destruct (try _ u1) as [[[res|e] u2]|]; [|done..]. destruct (is_ok res); [done|].
  destruct (with_batch _ u2) as [[[prev|e] u3]|]; [|done..]. destruct (extending _ u3) as [[[fp|e] u4]|]; [|done..].
  destruct (must _ u4) as [[[k|e] u5]|]; [|done..]. destruct (put_batch _ u5) as [[[[]|e] u6]|]; [|done..].
  destruct (must _ u6) as [[[t|e] u7]|]; [|done..]. by destruct (put_batch _ u7) as [[[[]|e] u8]|].
Qed.

(** The loop, round by round, with no bound. *)
Inductive start_rounds : Tip -> US -> option (result CE.Error unit * US) -> Prop :=
| start_panic hd u : start_round hd u = None -> start_rounds hd u None
| start_fails hd u e u' : start_round hd u = Some (Err e, u') -> start_rounds hd u (Some (Err e, u'))
| start_done hd u u' : start_round hd u = Some (Ok None, u') -> start_rounds hd u (Some (Ok tt, u'))
| start_back hd u hd' u' r : start_round hd u = Some (Ok (Some hd'), u') -> start_rounds hd' u' r -> start_rounds hd u r.

Context (Hroot : rootless ct pv (header genesis)).
Context (Hty : typed (header genesis)) (Hzero : height (header genesis) = 0).
Context (m : gmap Ser.Hash BlockHeader) (Ht : header_tree ct pv (header genesis) m).

Abbreviation stored := (batch_is (headers_are m)).

Lemma start_round_keeps hd : keeps stored (start_round hd).
Proof.
  assert (Hq : forall b b', db_headers b' = db_headers b -> headers_are m b -> headers_are m b') by (unfold headers_are; congruence).
  unfold start_round. apply keeps_bind; [apply start_header_keeps|intros [h pibd]].
  apply keeps_bind; [apply keeps_try, (unit_keeps _ Hq); intros p; apply check_start_keeps|intros res].
  destruct (is_ok res); [apply keeps_ret|]. apply keeps_bind; [apply keeps_gets|intros prev].
  apply keeps_bind; [apply (unit_keeps _ Hq); intros p; apply fork_keeps|intros fp]. apply keeps_bind; [apply keeps_must|intros k].
  apply keeps_bind; [by apply put_keeps|intros []]. apply keeps_bind; [apply keeps_must|intros t].
  apply keeps_bind; [by apply put_keeps|intros []]. apply keeps_ret.
Qed.

(** Each round goes one height down, and there is nothing below genesis. *)
Lemma start_round_down hd u hd' u' : tip_stored ct m hd -> stored u ->
  start_round hd u = Some (Ok (Some hd'), u') -> tip_stored ct m hd' /\ 0 <= tip_height hd' < tip_height hd.
Proof.
  intros (h & Hh & Eh) Hu H. pose proof (tip_of_header ct h hd Eh) as Htip.
  assert (Hq : forall b b', db_headers b' = db_headers b -> headers_are m b -> headers_are m b') by (unfold headers_are; congruence).
  unfold start_round in H. apply bind_Ok in H as ([h0 pibd] & u1 & H1 & H).
  apply (start_header_keeps ct genesis stored) in H1; [|done].
  apply bind_Ok in H as (res & u2 & H2 & H).
  assert (Hu2 : stored u2).
  { eapply (keeps_try stored); [apply (unit_keeps _ Hq); intros p; apply check_start_keeps|exact H1|exact H2]. }
  destruct (is_ok res); [discriminate H|]. apply bind_Ok in H as (prev & u3 & H3 & H). apply gets_Ok in H3 as [H3 ->].
  apply bind_Ok in H as (fp & u4 & _ & H). apply bind_Ok in H as (k & u5 & _ & H).
  apply bind_Ok in H as ([] & u6 & _ & H). apply bind_Ok in H as (t & u7 & H7 & H). apply must_Ok in H7 as [Et _].
  apply bind_Ok in H as ([] & u8 & _ & H). injection H as <- _.
  unfold get_block_header, found in H3. cbn beta in H3.
  destruct (db_headers (u_batch u2) !! prev_block_h hd) as [prev'|] eqn:Ep; [|discriminate H3]. injection H3 as ->.
  unfold batch_is, headers_are in Hu2. rewrite Hu2 in Ep.
  assert (Eprev : prev_block_h hd = prev_hash h).
  { unfold tip_from_header in Eh. destruct (header_hash ct h); [|done]. cbn in Eh. injection Eh as <-. done. }
  rewrite Eprev in Ep. destruct (tree_linked _ _ _ _ Ht _ _ Hh) as [->|(prev0 & Hf)].
  { by rewrite (tree_root ct pv (header genesis) Hroot m Ht) in Ep. }
  pose proof (follows_stored _ _ _ _ _ Hf) as Es. assert (prev0 = prev) as -> by congruence.
  destruct (tree_typed _ _ _ _ Ht _ _ Hh) as [_ Hd].
  pose proof (follows_height_exact ct pv (header genesis) m h prev Ht Hty Hzero Hd Hf) as Hhe.
  assert (Eht : forall h t, tip_from_header ct h = Some t -> tip_height t = height h).
  { intros h1 t1 E1. unfold tip_from_header in E1. destruct (header_hash ct h1); [|done]. by injection E1 as <-. }
  rewrite (Eht _ _ Et), (Eht _ _ Eh). destruct (tree_typed _ _ _ _ Ht _ _ Es) as [Hp _]. unfold u64, in_range in Hp.
  split; [|lia]. exists prev. split; [|done]. pose proof (tree_keyed _ _ _ _ Ht _ _ Es) as Ek. 
  unfold tip_from_header in Et. rewrite Ek in Et. injection Et as <-. exact Es.
Qed.

Lemma start_loop_rounds fuel hd u : tip_stored ct m hd -> stored u -> (Z.to_nat (tip_height hd) < fuel)%nat ->
  start_rounds hd u (start_loop ct pv genesis fuel store hd resetting_pibd u).
Proof.
  revert hd u. induction fuel as [|fuel IH]; intros hd u Hs Hu Hf; [lia|]. rewrite start_loop_round. unfold bind.
  destruct (start_round hd u) as [[[[hd'|]|e] u']|] eqn:E; [|by apply start_done|by apply start_fails|by apply start_panic].
  destruct (start_round_down hd u hd' u' Hs Hu E) as [Hs' Hh]. eapply start_back; [exact E|].
  apply IH; [done| |lia]. by eapply start_round_keeps.
Qed.
End start.
