(* ===== verification/Walk.v ===== *)
(** The walks back over headers end.

    Finding the fork point, the blocks after it and what to rewind goes back from
    a stored header to its predecessors. As heights go down by one, the height of
    the header is enough fuel: the loops do what they would do with no bound. *)

From Stdlib Require Import ZArith Lia.
From stdpp Require Import base numbers option sorting gmap list.
From S2P Require Import Prelude Consensus PmmrIndex Pmmr Ser LinkedList Kernel CutThrough Transaction PowTypes Block Pedersen ChainTypes.
From S2P Require Import ChainStore BitmapAccumulator TxHashSet Pipe Chain PipeSpec HeaderChain.
Open Scope Z_scope.

(** ** Loops *)

Section loops.
Context {S X A : Type} (step : X -> M S (X + A)).

(** A loop whose rounds go on with [inl] and end with [inr], with no bound. *)
Inductive rounds : X -> S -> option (result CE.Error A * S) -> Prop :=
| rounds_panics x s : step x s = None -> rounds x s None
| rounds_fails x s e s' : step x s = Some (Err e, s') -> rounds x s (Some (Err e, s'))
| rounds_ends x s a s' : step x s = Some (Ok (inr a), s') -> rounds x s (Some (Ok a, s'))
| rounds_goes_on x s y s' r : step x s = Some (Ok (inl y), s') -> rounds y s' r -> rounds x s r.

(** A loop with fuel for as many rounds as [measure] says. *)
Lemma loop_rounds (loop : nat -> X -> M S A) (I : X -> S -> Prop) (measure : X -> nat) fuel x s :
  (forall fuel x s, I x s -> (measure x <= fuel)%nat -> loop fuel x s =
    (let* r := step x in match r with inr a => ret a | inl y => loop (pred fuel) y end) s) ->
  (forall x s y s', I x s -> step x s = Some (Ok (inl y), s') -> I y s' /\ (measure y < measure x)%nat) ->
  I x s -> (measure x <= fuel)%nat -> rounds x s (loop fuel x s).
Proof.
  intros Hloop Hstep. revert x s. induction fuel as [|fuel IH]; intros x s Hi Hm; rewrite Hloop by done; unfold bind;
    (destruct (step x s) as [[[[y|a]|e] s']|] eqn:E; [|by apply rounds_ends|by apply rounds_fails|by apply rounds_panics]);
    destruct (Hstep x s y s' Hi E) as [Hy Hlt]; [lia|].
  eapply rounds_goes_on; [exact E|]. apply IH; [done|lia].
Qed.
End loops.

(** ** The walks of the pipeline *)

Section walks.
Context {CR : Crypto} {SU : SortUnstable} {NF : NrdFlag} (ct : ChainTypes).
Context {MH : Mmr BlockHeader HeaderEntry} {MO : Mmr OutputIdentifier OutputIdentifier}.
Context {MR : Mmr RangeProof RangeProof} {MK : Mmr TxKernel TxKernel}.

Definition fork_step (x : BlockHeader * list Ser.Hash) : M HX (BlockHeader * list Ser.Hash + BlockHeader * list Ser.Hash) :=
  let '(current, fork_hashes) := x in
  if 0 <? height current then
    let* t := must (tip_from_header ct current) in
    let* on_chain := is_on_current_chain ct t in
    if on_chain then ret (inr (current, fork_hashes))
    else
      let* hash := must (header_hash ct current) in
      let* prev := gets (fun s => get_previous_header current (hx_batch s)) in
      ret (inl (prev, hash :: fork_hashes))
  else ret (inr (current, fork_hashes)).

Definition common_step (current : BlockHeader) : M EX (BlockHeader + BlockHeader) :=
  if 0 <? height current then
    let* t := must (tip_from_header ct current) in
    let* on_chain := in_header (is_on_current_chain ct t) in
    if on_chain then ret (inr current)
    else let* prev := gets (fun s => get_previous_header current (x_batch s)) in ret (inl prev)
  else ret (inr current).

Definition since_step (fork_height : Z) (x : BlockHeader * list Ser.Hash) : M EX (BlockHeader * list Ser.Hash + list Ser.Hash) :=
  let '(current, fork_hashes) := x in
  if fork_height <? height current then
    let* hash := must (header_hash ct current) in
    let* prev := gets (fun s => get_previous_header current (x_batch s)) in
    ret (inl (prev, hash :: fork_hashes))
  else ret (inr fork_hashes).

Definition rewind_step (target : Z) (x : BlockHeader * list Z) : M EX (BlockHeader * list Z + list Z) :=
  let '(current, affected_pos) := x in
  if target <? height current then
    let* hash := must (header_hash ct current) in
    let* block := gets (fun s => get_block hash (x_batch s)) in
    let* affected_pos_single_block := rewind_single_block ct block in
    let* current := gets (fun s => get_previous_header current (x_batch s)) in
    ret (inl (current, affected_pos ++ affected_pos_single_block))
  else ret (inr affected_pos).

Lemma fork_loop_step fuel current l s : (Z.to_nat (height current) <= fuel)%nat -> fork_loop ct fuel current l s =
  (let* r := fork_step (current, l) in match r with inr a => ret a | inl (h, l) => fork_loop ct (pred fuel) h l end) s.
Proof.
  intros Hf. unfold fork_step, bind, must, gets. destruct fuel as [|fuel]; cbn [fork_loop].
  { rewrite (proj2 (Z.ltb_ge 0 (height current))) by lia. done. }
  destruct (0 <? height current); [|done]. unfold bind, must, gets. destruct (tip_from_header ct current) as [t|]; [|done].
  destruct (is_on_current_chain ct t s) as [[[[]|e] s1]|]; try done. destruct (header_hash ct current) as [k|]; [|done].
  by destruct (get_previous_header current (hx_batch s1)) as [prev|e].
Qed.

Lemma common_loop_step fuel current s : (Z.to_nat (height current) <= fuel)%nat -> common_loop ct fuel current s =
  (let* r := common_step current in match r with inr a => ret a | inl h => common_loop ct (pred fuel) h end) s.
Proof.
  intros Hf. unfold common_step, bind, must, gets. destruct fuel as [|fuel]; cbn [common_loop].
  { rewrite (proj2 (Z.ltb_ge 0 (height current))) by lia. done. }
  destruct (0 <? height current); [|done]. unfold bind, must, gets. destruct (tip_from_header ct current) as [t|]; [|done].
  destruct (in_header (is_on_current_chain ct t) s) as [[[[]|e] s1]|]; try done.
  by destruct (get_previous_header current (x_batch s1)) as [prev|e].
Qed.

Lemma since_loop_step fh fuel current l s : 0 <= fh -> (Z.to_nat (height current) <= fuel)%nat -> since_loop ct fuel fh current l s =
  (let* r := since_step fh (current, l) in match r with inr a => ret a | inl (h, l) => since_loop ct (pred fuel) fh h l end) s.
Proof.
  intros Hfh Hf. unfold since_step, bind, must, gets. destruct fuel as [|fuel]; cbn [since_loop].
  { rewrite (proj2 (Z.ltb_ge fh (height current))) by lia. done. }
  destruct (fh <? height current); [|done]. unfold bind, must, gets. destruct (header_hash ct current) as [k|]; [|done].
  by destruct (get_previous_header current (x_batch s)) as [prev|e].
Qed.

Lemma rewind_loop_step target fuel current l s : 0 <= target -> (Z.to_nat (height current) <= fuel)%nat -> rewind_loop ct fuel target current l s =
  (let* r := rewind_step target (current, l) in match r with inr a => ret a | inl (h, l) => rewind_loop ct (pred fuel) target h l end) s.
Proof.
  intros Htg Hf. unfold rewind_step, bind, must, gets. destruct fuel as [|fuel]; cbn [rewind_loop].
  { rewrite (proj2 (Z.ltb_ge target (height current))) by lia. done. }
  destruct (target <? height current); [|done]. unfold bind, must, gets. destruct (header_hash ct current) as [k|]; [|done].
  destruct (get_block k (x_batch s)) as [b|e]; [|done]. destruct (rewind_single_block ct b s) as [[[pos|e] s1]|]; try done.
  by destruct (get_previous_header current (x_batch s1)) as [prev|e].
Qed.

(** *** Heights go down *)

Context (pv : BlockHeader -> bool) (genesis : BlockHeader).
Context (Hroot : rootless ct pv genesis) (Hty : typed genesis) (Hzero : height genesis = 0).
Context (m : gmap Ser.Hash BlockHeader) (Ht : header_tree ct pv genesis m).

Definition is_stored (h : BlockHeader) : Prop := exists k, m !! k = Some h.

Lemma prev_down h b prev : is_stored h -> headers_are m b -> get_previous_header h b = Ok prev ->
  is_stored prev /\ (Z.to_nat (height prev) < Z.to_nat (height h))%nat.
Proof.
  intros [k Hk] Hb. unfold get_previous_header, get_block_header, found. rewrite Hb.
  destruct (m !! prev_hash h) as [p|] eqn:Ep; [|done]. intros H. injection H as ->. split; [by exists (prev_hash h)|].
  destruct (tree_linked _ _ _ _ Ht _ _ Hk) as [->|(p & Hf)]; [by rewrite (tree_root ct pv genesis Hroot m Ht) in Ep|].
  pose proof (follows_stored _ _ _ _ _ Hf) as Es. assert (p = prev) as -> by congruence.
  destruct (tree_typed _ _ _ _ Ht _ _ Hk) as [_ Hd]. destruct (tree_typed _ _ _ _ Ht _ _ Es) as [Hp _].
  pose proof (follows_height_exact ct pv genesis m h prev Ht Hty Hzero Hd Hf). unfold u64, in_range in Hp. lia.
Qed.

Lemma fork_loop_rounds h l s : is_stored h -> headers_are m (hx_batch s) ->
  rounds fork_step (h, l) s (fork_loop ct (Z.to_nat (height h)) h l s).
Proof.
  intros Hh Hs. apply (loop_rounds fork_step (fun fuel x => fork_loop ct fuel x.1 x.2)
    (fun x s => is_stored x.1 /\ headers_are m (hx_batch s)) (fun x => Z.to_nat (height x.1)) _ (h, l)); [| |done..].
  { intros fuel [c k] s0 _ Hf. cbn [fst snd] in *. rewrite fork_loop_step by done. unfold bind. by destruct (fork_step _ s0) as [[[[[]|]|] ?]|]. }
  intros [c k] s0 [c' k'] s' [Hc Hb] E. unfold fork_step in E. destruct (0 <? height c); [|done].
  apply bind_Ok in E as (t & s1 & H1 & E). apply must_Ok in H1 as [_ ->].
  apply bind_Ok in E as (on & s1 & H1 & E). apply (on_current_keeps ct (hx_batch s0)) in H1; [|done].
  destruct on; [done|]. apply bind_Ok in E as (hash & s2 & H2 & E). apply must_Ok in H2 as [_ ->].
  apply bind_Ok in E as (prev & s2 & H2 & E). apply gets_Ok in H2 as [H2 ->]. injection E as -> _ ->.
  assert (Hb1 : headers_are m (hx_batch s')) by (unfold same_batch, headers_are in *; congruence).
  destruct (prev_down c _ c' Hc Hb1 H2) as [Hp Hlt]. done.
Qed.

(** The headers of an extension pair. *)
Abbreviation stored := (ext_batch_is (headers_are m)).

Lemma stored_part {A} (f : M EX A) : (forall p, keeps (same_part p) f) -> keeps stored f.
Proof.
  intros Hf. apply keeps_same_part; [|exact Hf]. intros b b' E. unfold headers_are. unfold part_of in E. by injection E as _ _ _ _ -> _.
Qed.

Lemma common_loop_rounds h s : is_stored h -> stored s ->
  rounds common_step h s (common_loop ct (Z.to_nat (height h)) h s).
Proof.
  intros Hh Hs. apply (loop_rounds common_step (common_loop ct) (fun h s => is_stored h /\ stored s) (fun h => Z.to_nat (height h))); [| |done..].
  { intros fuel c s0 _ Hf. by apply common_loop_step. }
  intros c s0 c' s' [Hc Hb] E. unfold common_step in E. destruct (0 <? height c); [|done].
  apply bind_Ok in E as (t & s1 & H1 & E). apply must_Ok in H1 as [_ ->].
  apply bind_Ok in E as (on & s1 & H1 & E). eapply (stored_part (in_header (is_on_current_chain ct t))) in H1; [|intros p; apply keeps_frame_part; intros f; apply in_header_keeps; intros b; apply on_current_keeps|exact Hb].
  destruct on; [done|]. apply bind_Ok in E as (prev & s2 & H2 & E). apply gets_Ok in H2 as [H2 ->]. injection E as -> ->.
  destruct (prev_down c _ c' Hc H1 H2) as [Hp Hlt]. done.
Qed.

Lemma since_loop_rounds fh h l s : 0 <= fh -> is_stored h -> stored s ->
  rounds (since_step fh) (h, l) s (since_loop ct (Z.to_nat (height h)) fh h l s).
Proof.
  intros Hfh Hh Hs. apply (loop_rounds (since_step fh) (fun fuel x => since_loop ct fuel fh x.1 x.2)
    (fun x s => is_stored x.1 /\ stored s) (fun x => Z.to_nat (height x.1)) _ (h, l)); [| |done..].
  { intros fuel [c k] s0 _ Hf. cbn [fst snd] in *. rewrite since_loop_step by done. unfold bind. by destruct (since_step _ _ s0) as [[[[[]|]|] ?]|]. }
  intros [c k] s0 [c' k'] s' [Hc Hb] E. unfold since_step in E. destruct (fh <? height c); [|done].
  apply bind_Ok in E as (hash & s2 & H2 & E). apply must_Ok in H2 as [_ ->].
  apply bind_Ok in E as (prev & s2 & H2 & E). apply gets_Ok in H2 as [H2 ->]. injection E as -> _ ->.
  destruct (prev_down c _ c' Hc Hb H2) as [Hp Hlt]. done.
Qed.

Lemma rewind_loop_rounds target h l s : 0 <= target -> is_stored h -> stored s ->
  rounds (rewind_step target) (h, l) s (rewind_loop ct (Z.to_nat (height h)) target h l s).
Proof.
  intros Htg Hh Hs. apply (loop_rounds (rewind_step target) (fun fuel x => rewind_loop ct fuel target x.1 x.2)
    (fun x s => is_stored x.1 /\ stored s) (fun x => Z.to_nat (height x.1)) _ (h, l)); [| |done..].
  { intros fuel [c k] s0 _ Hf. cbn [fst snd] in *. rewrite rewind_loop_step by done. unfold bind. by destruct (rewind_step _ _ s0) as [[[[[]|]|] ?]|]. }
  intros [c k] s0 [c' k'] s' [Hc Hb] E. unfold rewind_step in E. destruct (target <? height c); [|done].
  apply bind_Ok in E as (hash & s1 & H1 & E). apply must_Ok in H1 as [_ ->].
  apply bind_Ok in E as (b & s1 & H1 & E). apply gets_Ok in H1 as [_ ->].
  apply bind_Ok in E as (pos & s1 & H1 & E). eapply (stored_part (rewind_single_block ct b)) in H1; [|intros p; apply keeps_frame_part; intros f; apply rewind_single_keeps|exact Hb].
  apply bind_Ok in E as (prev & s2 & H2 & E). apply gets_Ok in H2 as [H2 ->]. injection E as -> _ ->.
  destruct (prev_down c _ c' Hc H1 H2) as [Hp Hlt]. done.
Qed.
End walks.
