(* ===== verification/ChainSpec.v ===== *)
(** What the chain guarantees.

    The main theorems about the node, from those of the files before: header
    validation and the tree of headers, the choice between forks, the heads, the
    supply, units of work that leave nothing behind when they fail, the pool of
    orphans, and the loops that end. They are applied to a small chain that runs
    over the persistent backend, from empty files through synced headers, an
    orphan and two blocks. *)

From Stdlib Require Import ZArith Lia.
From stdpp Require Import base numbers option sorting gmap list.
From S2P Require Import Prelude Consensus PmmrIndex Pmmr Ser LinkedList Kernel CutThrough Transaction PowTypes Block Pedersen ChainTypes.
From S2P Require Import ChainStore BitmapAccumulator TxHashSet Pipe Chain PipeSpec HeaderChain ForkChoice Supply Atomic ChainStorage Orphans Lookup Start Walk.
Open Scope Z_scope.

(** ** Theorems *)

Section theorems.
Context {CR : Crypto} {SU : SortUnstable} {NF : NrdFlag} (ct : ChainTypes).
Context {MH : Mmr BlockHeader HeaderEntry} {MO : Mmr OutputIdentifier OutputIdentifier}.
Context {MR : Mmr RangeProof RangeProof} {MK : Mmr TxKernel TxKernel}.

(** C4. A header is accepted exactly if it is on no denylist and follows a stored
    header: the height, version, time, weight, proof of work, difficulty and
    scaling are what the consensus rules say over the headers before it. *)
Theorem header_validation_exact ctx h u u' : contains_option (opts ctx) SKIP_POW = false -> typed h ->
  (forall prev, db_headers (u_batch u) !! prev_hash h = Some prev -> typed prev) ->
  validate_header ct ctx h u = Some (Ok tt, u') <->
  u' = u /\ header_allowed ctx h = Some (Ok tt) /\
  exists prev, follows ct (pow_verifier ctx) (db_headers (u_batch u)) h prev.
Proof. apply validate_header_Ok. Qed.

(** C1. Whatever a node is given, each stored header is under its hash, has the
    genesis header as its ancestor exactly its height back, has at least the work
    of so many steps, and follows the header before it. *)
Theorem stored_headers_form_chains pv archive_mode genesis c k h :
  binding ct pv (header genesis) -> rootless ct pv (header genesis) -> typed (header genesis) ->
  height (header genesis) = 0 -> reaches ct pv archive_mode genesis (event_ok) c ->
  db_headers (db c) !! k = Some h ->
  header_hash ct h = Some k /\
  ancestor (db_headers (db c)) h (Z.to_nat (height h)) = Some (header genesis) /\
  height h + num (header_difficulty (header genesis)) <= num (header_difficulty h) /\
  (h = header genesis \/ exists prev, follows ct pv (db_headers (db c)) h prev /\ height h = height prev + 1).
Proof.
  intros Hb Hr Hty Hh Hc Hk. apply reaches_tree in Hc as [Ht _]; [|done..].
  destruct (tree_path ct pv (header genesis) _ _ _ Ht Hty Hh Hk) as [Hanc Hw].
  split; [by apply (tree_keyed _ _ _ _ Ht)|]. split_and!; [done|done|].
  destruct (tree_linked _ _ _ _ Ht k h Hk) as [?|(prev & Hf)]; [by left|]. right. exists prev. split; [done|].
  apply (follows_height_exact ct pv (header genesis) (db_headers (db c))); try done. by eapply tree_typed.
Qed.

(** C3. A block that is accepted is stored; it becomes the head exactly if it has more
    total work than the head, and otherwise the head stays. *)
Theorem fork_choice ctx b u o fork_point u' hd : head (u_batch u) = Ok hd ->
  process_block ct ctx b u = Some (Ok (o, fork_point), u') ->
  exists t, tip_from_header ct (header b) = Some t /\
    db_blocks (u_batch u') = <[last_block_h t := block_as_read b]> (db_blocks (u_batch u)) /\
    (if has_more_work (header b) hd then db_head (u_batch u') = Some t /\ o = Some t
     else db_head (u_batch u') = Some hd /\ o = None).
Proof. apply process_block_Ok. Qed.

(** Events in a row, whatever their results. *)
Definition run_events pv archive_mode genesis : list Event -> M Chain unit :=
  each (fun e => let* _ := try (handle ct pv archive_mode genesis e) in ret tt).

Lemma run_keeps pv archive_mode genesis (P : Chain -> Prop) (ok : Event -> Prop) l :
  (forall e, ok e -> keeps P (handle ct pv archive_mode genesis e)) -> Forall ok l ->
  keeps P (run_events pv archive_mode genesis l).
Proof.
  intros Hk. induction 1 as [|e l He _ IH]; [apply keeps_ret|]. unfold run_events. cbn [each].
  apply keeps_bind; [|by intros []]. apply keeps_bind; [by apply keeps_try, Hk|intros x; apply keeps_ret].
Qed.

Lemma run_reaches pv archive_mode genesis ok l c r c' : reaches ct pv archive_mode genesis ok c -> Forall ok l ->
  run_events pv archive_mode genesis l c = Some (r, c') -> reaches ct pv archive_mode genesis ok c'.
Proof.
  intros Hc Hl H. eapply (run_keeps pv archive_mode genesis (reaches ct pv archive_mode genesis ok) ok); [|done..].
  intros e He c1 r1 c2 H1 H2. by eapply reaches_step.
Qed.

(** C21. Unless it is reset, the head never loses work. *)
Theorem head_work_grows pv archive_mode genesis l c r c' t :
  Forall (fun e => not_reset e /\ event_ok e) l -> orphans_received (c_orphans c) ->
  db_head (db c) = Some t -> run_events pv archive_mode genesis l c = Some (r, c') ->
  exists t', db_head (db c') = Some t' /\ num (tip_difficulty t) <= num (tip_difficulty t').
Proof.
  intros Hl Ho Hh H.
  apply (run_keeps pv archive_mode genesis (chain_is (work_at_least (num (tip_difficulty t))) orphans_received)
    (fun e => not_reset e /\ event_ok e)) in H as [Hw _];
    [exact Hw| |exact Hl|].
  - intros e [H1 H2]. by apply handle_work.
  - split; [|done]. by exists t.
Qed.


(** C2. The sums stored for a block are those of a history of blocks from genesis to
    it, whatever happens after the first start: the unspent outputs are worth one
    reward for each block, and the excesses and the offset account for the rest. *)
Theorem supply_balances {PE : Pedersen} {PL : PedersenLaws} pv archive_mode genesis u c l r c' k s :
  fresh (u_batch u) -> init ct pv genesis u = Some (Ok c) ->
  Forall (fun e => no_rebuild e /\ event_ok e) l -> run_events pv archive_mode genesis l c = Some (r, c') ->
  db_sums (db c') !! k = Some s ->
  exists bs, history ct genesis k bs s /\
    dlog (utxo_sum s) == created bs - Z.of_nat (length bs) * REWARD * value_base /\
    dlog (kernel_sum s) == excesses bs /\
    dlog (utxo_sum s) == dlog (kernel_sum s) +
      scalar (match bs with b :: _ => total_kernel_offset (header b) | [] => blinding_zero end).
Proof.
  intros Hu Hi Hl H Hk. apply init_sums in Hi; [|done].
  apply (run_keeps pv archive_mode genesis (chain_is (sums_ok ct genesis) orphans_received)
    (fun e => no_rebuild e /\ event_ok e)) in H as [Hs _]; [| |exact Hl|exact Hi].
  - destruct (Hs _ _ Hk) as [bs Hb]. exists bs. split; [done|]. by eapply history_balance.
  - intros e [H1 H2]. by apply handle_sums.
Qed.

(** Whatever is appended, rewound or removed after a sync, discarding brings the
    persistent backend back to the state of the sync. *)
Theorem discard_restores {T E : Type} {RE : Readable E} {WE : Writeable E} (as_elmt : T -> E) b0 b :
  store_clean b0 -> unsynced (M := store_mmr as_elmt) b0 b -> mmr_discard (Mmr := store_mmr as_elmt) b = Some b0.
Proof. intros Hc H. exact (discard_law (M := store_mmr as_elmt) b0 b Hc H). Qed.

(** C20. A unit of work that fails, or that is rolled back, leaves the handles, the
    files and the database exactly as they were. *)
Theorem unit_of_work_atomic {LH : MmrLaws MH} {LO : MmrLaws MO} {LR : MmrLaws MR} {LK : MmrLaws MK}
    {A} (inner : M EX A) u hd hhd r s :
  keeps (starts_since u) inner -> mmr_clean (backend (u_header u)) -> trees_clean (u_trees u) ->
  head (u_batch u) = Ok hd -> header_head (u_batch u) = Ok hhd ->
  inner (start_ext u hd hhd) = Some (r, s) -> (is_ok r = true -> ex_rollback (x_ext s) = true) ->
  extending inner u = Some (r, u).
Proof. apply extending_undone. Qed.


(** C22. Whatever a chain is given, its pool holds at most [MAX_ORPHAN_SIZE] orphans,
    each indexed under its height: so taking a height takes all its orphans. *)
Theorem orphan_pool_bounded pv archive_mode genesis l c r c' :
  pool_ok (c_orphans c) -> run_events pv archive_mode genesis l c = Some (r, c') ->
  orphans_len (c_orphans c') <= MAX_ORPHAN_SIZE /\
  (forall k o, orphans (c_orphans c') !! k = Some o ->
    exists l, fst (remove_by_height (orphan_height o) (c_orphans c')) = Some l /\ o ∈ l) /\
  (forall n k o, orphans (snd (remove_by_height n (c_orphans c'))) !! k = Some o -> orphan_height o <> n).
Proof.
  intros Hp H. apply (run_keeps pv archive_mode genesis (pool_is pool_ok) (fun _ => True)) in H as Hok; [..|exact Hp].
  - split; [apply Hok|]. split; [|intros n; by apply remove_by_height_exact].
    intros k o Ho. by apply (proj1 (remove_by_height_exact (orphan_height o) _ Hok) k o Ho).
  - intros e _. apply handle_pool.
  - by apply Forall_true.
Qed.

(** Processing the orphans after a block ends: with one more round than there are
    orphans, the loop has run to its end. *)
Theorem orphan_processing_ends pv now h c :
  orphan_rounds ct pv now h c (check_orphans ct pv now (S (pool_size c)) h c).
Proof. apply check_orphans_rounds. lia. Qed.

(** C25. Going back from blocks that do not check, when a node is started, ends. *)
Theorem start_up_ends pv genesis store resetting_pibd m hd u :
  rootless ct pv (header genesis) -> typed (header genesis) -> height (header genesis) = 0 ->
  header_tree ct pv (header genesis) m -> db_headers (u_batch u) = m ->
  tip_stored ct m hd ->
  start_rounds ct pv genesis store resetting_pibd hd u
    (start_loop ct pv genesis (S (Z.to_nat (tip_height hd))) store hd resetting_pibd u).
Proof. intros Hr Hty Hz Ht Hu Hs. apply (start_loop_rounds ct pv genesis store resetting_pibd Hr Hty Hz m Ht); [done|exact Hu|lia]. Qed.

(** Walking back from a stored header, to the fork point with the chain of headers
    or of blocks, to the blocks that follow it, or to the block to rewind to, ends. *)
Theorem fork_walks_end pv genesis m h :
  rootless ct pv genesis -> typed genesis -> height genesis = 0 -> header_tree ct pv genesis m -> is_stored m h ->
  (forall l s, headers_are m (hx_batch s) -> rounds (fork_step ct) (h, l) s (fork_loop ct (Z.to_nat (height h)) h l s)) /\
  (forall s, headers_are m (x_batch s) -> rounds (common_step ct) h s (common_loop ct (Z.to_nat (height h)) h s)) /\
  (forall n l s, 0 <= n -> headers_are m (x_batch s) ->
    rounds (since_step ct n) (h, l) s (since_loop ct (Z.to_nat (height h)) n h l s)) /\
  (forall n l s, 0 <= n -> headers_are m (x_batch s) ->
    rounds (rewind_step ct n) (h, l) s (rewind_loop ct (Z.to_nat (height h)) n h l s)).
Proof.
  intros Hr Hty Hz Ht Hh. split_and!.
  - intros l s Hs. by apply (fork_loop_rounds ct pv genesis Hr Hty Hz m Ht).
  - intros s Hs. by apply (common_loop_rounds ct pv genesis Hr Hty Hz m Ht).
  - intros n l s Hn Hs. by apply (since_loop_rounds ct pv genesis Hr Hty Hz m Ht).
  - intros n l s Hn Hs. by apply (rewind_loop_rounds ct pv genesis Hr Hty Hz m Ht).
Qed.

(** The search for the block of a kernel finds it, within 65 rounds, if the kernel
    is after genesis and not beyond the head. *)
Theorem kernel_lookup_exact c hd idx t :
  head (db c) = Ok t -> 0 < tip_height t < 2 ^ 64 -> headers_upto c hd (tip_height t) ->
  kernel_mmr_size (hd 0) < idx <= kernel_mmr_size (hd (tip_height t)) ->
  exists n, 0 < n <= tip_height t /\ kernel_mmr_size (hd (n - 1)) < idx <= kernel_mmr_size (hd n) /\
    get_header_for_kernel_index idx None None c = Some (Ok (hd n), c).
Proof.
  intros Hh Ht Hu Hi. destruct (kernel_search 64 65 c hd idx 0 (tip_height t)) as (n & Hn & Hk & E); try done; try lia.
  exists n. split; [done|]. split; [exact Hk|]. unfold get_header_for_kernel_index, from_db, gets, bind. rewrite Hh. exact E.
Qed.

(** Beyond the last header the search does not end, however long it runs. *)
Theorem kernel_lookup_diverges c hd idx hi fuel :
  0 < hi < 2 ^ 64 -> headers_upto c hd hi -> kernel_mmr_size (hd hi) < idx ->
  kernel_height_loop fuel idx 0 hi c = None.
Proof. intros Hh Hu Hi. apply (kernel_search_diverges fuel c hd); try done; lia. Qed.

(** Resetting the PIBD head has no effect: the batch is dropped. *)
Theorem pibd_head_kept genesis c r c' : reset_pibd_head ct genesis c = Some (r, c') ->
  pibd_head default_tip (db c') = pibd_head default_tip (db c).
Proof.
  unfold reset_pibd_head, on_us, focus, dropping. destruct (bind _ _ _) as [[r1 u]|]; [|done].
  intros H. by injection H as _ <-.
Qed.

End theorems.

(** ** The sample chain *)

(** The group of [Pedersen], with hashes of 32 bytes. *)
Definition chain_crypto : Crypto := {|
  blake2b := fun bs => mkHash (be 32 (be_value (1 :: bs) mod (2 ^ 255 - 19)));
  verify_batch := fun _ => true;
  verify_bullet_proof_multi := fun _ _ => true;
  commit_sum := @commit_sum pedersen_crypto;
  commit_value := @commit_value pedersen_crypto;
  commit_blind := @commit_blind pedersen_crypto;
  secret_key := @secret_key pedersen_crypto;
  blind_sum := @blind_sum pedersen_crypto;
|}.
Module Sample.
#[local] Existing Instance chain_crypto.
#[local] Instance nrd_off : NrdFlag := false.
Definition ct := AutomatedTesting.
#[local] Existing Instances output_mmr rproof_mmr kernel_mmr.
#[local] Instance headers : Mmr BlockHeader HeaderEntry := header_mmr ct.

Definition gen_header : BlockHeader := mkHeader 1 0 ZERO_HASH ZERO_HASH 1000 ZERO_HASH ZERO_HASH ZERO_HASH blinding_zero 0 0
  (mkProofOfWork (mkDifficulty 3) 1 7 (proof_zero ct (Z.to_nat (proofsize ct)))).
Definition gen : Block := mkBlock gen_header body_empty.

(** A node without files. *)
Definition empty_node : option US :=
  match header_open no_files, txhashset_open (fun _ => true) no_files no_files no_files with
  | Some (Ok h), Some (Ok t) => Some (mkUS h t empty_batch)
  | _, _ => None
  end.

Definition started (pv : BlockHeader -> bool) : option Chain :=
  match empty_node with
  | Some u => match init ct pv gen u with Some (Ok c) => Some c | _ => None end
  | None => None
  end.

(** A block that only pays its reward, over [prev]. *)
Definition reward_output (n : Z) : Output := mkOutput (mkOutputId CoinbaseOutput (sample_point (REWARD * 5 + n))) (mkRangeProof 675 (repeat 0 675)).
Definition reward_kernel (n : Z) : TxKernel := mkKernel CoinbaseKernel (sample_point n) (mkSignature (replicate 64 0)).
Definition mk_pow (work scaling n : Z) : ProofOfWork := mkProofOfWork (mkDifficulty work) scaling n (mkPow 10 [n; 2; 3; 4; 5; 6; 7; 8]).
Definition draft (prev : BlockHeader) (work scaling n : Z) : Block :=
  let height_ := height prev + 1 in
  mkBlock (mkHeader (header_version ct height_) height_ (default ZERO_HASH (header_hash ct prev)) ZERO_HASH
    (timestamp prev + 60) ZERO_HASH ZERO_HASH ZERO_HASH blinding_zero 0 0 (mk_pow work scaling n))
    (mkBody (inputs body_empty) [reward_output n] [reward_kernel n]).

Definition with_roots (b : Block) (c : option Chain) : Block :=
  match c with
  | Some c => match set_txhashset_roots ct (fun _ => true) b c with Some (Ok b, _) => b | _ => gen end
  | None => gen
  end.

Definition after (pv : BlockHeader -> bool) (l : list Event) (c : option Chain) : option Chain :=
  match c with
  | Some c => match run_events ct pv false gen l c with Some (_, c) => Some c | None => None end
  | None => None
  end.

Definition any : BlockHeader -> bool := fun _ => true.
Definition block1 : Block := Eval vm_compute in with_roots (draft gen_header 6 19 9) (started any).
(** As much work as [block1], and more. *)
Definition block1' : Block := Eval vm_compute in with_roots (draft gen_header 6 19 11) (started any).
Definition block2 : Block := Eval vm_compute in
  with_roots (draft (header block1) 9 19 10) (after any [BlockReceived block1 0 2000] (started any)).

(** The proofs of work that exist. *)
#[local] Instance difficulty_eq_dec : EqDecision Difficulty.
Proof. solve_decision. Defined.
#[local] Instance proof_eq_dec : EqDecision PowProof.
Proof. solve_decision. Defined.
#[local] Instance pow_eq_dec : EqDecision ProofOfWork.
Proof. solve_decision. Defined.
#[local] Instance header_eq_dec : EqDecision BlockHeader.
Proof. solve_decision. Defined.
Definition mined (h : BlockHeader) : bool := bool_decide (h = header block1 \/ h = header block2).

(** The headers come first, then the blocks, the second one too early. *)
Definition gen_tip : Tip := mkTip 0 (default ZERO_HASH (header_hash ct gen_header)) ZERO_HASH (mkDifficulty 3).
Definition events : list Event :=
  [HeadersReceived [header block1; header block2] gen_tip 0; BlockReceived block2 0 2000; BlockReceived block1 0 2000].
Definition hash_of (h : BlockHeader) : Ser.Hash := default ZERO_HASH (header_hash ct h).

(** ** Witnesses *)

Lemma checked {A} (o : option A) (f : A -> bool) :
  match o with Some x => f x | None => false end = true -> exists x, o = Some x /\ f x = true.
Proof. destruct o as [x|]; [|done]. by exists x. Qed.

Definition run_ok {S A} (o : option (result CE.Error A * S)) : bool := match o with Some (Ok _, _) => true | _ => false end.

Lemma run_ok_spec {S A} (o : option (result CE.Error A * S)) : run_ok o = true -> exists a s, o = Some (Ok a, s).
Proof. destruct o as [[[a|] s]|]; [|done..]. by exists a, s. Qed.

#[local] Instance tip_eq_dec : EqDecision Tip.
Proof. solve_decision. Defined.

Lemma started_init pv c : started pv = Some c -> exists u, empty_node = Some u /\ init ct pv gen u = Some (Ok c).
Proof.
  unfold started. destruct empty_node as [u|]; [|done]. intros H. exists u. split; [done|].
  destruct (init ct pv gen u) as [[]|]; [|done..]. by injection H as ->.
Qed.

Lemma empty_node_fresh u : empty_node = Some u -> fresh (u_batch u) /\ db_headers (u_batch u) = ∅.
Proof.
  unfold empty_node. destruct (header_open no_files) as [[h|]|]; [|done..].
  destruct (txhashset_open _ _ _ _) as [[t|]|]; [|done..]. intros H. by injection H as <-.
Qed.

Lemma started_orphans pv c : started pv = Some c -> orphans_received (c_orphans c).
Proof. intros (u & Hu & H)%started_init. by apply init_sums in H as [_ ?]; [|apply empty_node_fresh]. Qed.

Lemma started_reaches ok pv c : started pv = Some c -> reaches ct pv false gen ok c.
Proof. intros (u & Hu & H)%started_init. eapply reaches_start; [|exact H]. by apply empty_node_fresh. Qed.

Lemma after_run pv l c c' : started pv = Some c -> after pv l (Some c) = Some c' ->
  exists r, run_events ct pv false gen l c = Some (r, c').
Proof. intros _ H. unfold after in H. destruct (run_events _ _ _ _ l c) as [[r c1]|]; [|done]. injection H as ->. by exists r. Qed.

Lemma typed_iff h : typed h <-> (0 <=? height h) && (height h <? 2 ^ 64) && (0 <=? num (header_difficulty h)) &&
  (num (header_difficulty h) <? 2 ^ 64) = true.
Proof. unfold typed, u64, in_range. lia. Qed.

Ltac typed := by apply typed_iff; vm_compute.

Lemma events_ok : Forall (fun e => no_rebuild e /\ not_reset e /\ event_ok e) events.
Proof. repeat constructor; typed. Qed.

(** The hashes of the headers that may be mined are different. *)
Lemma mined_cases h : admissible ct mined gen_header h -> h = gen_header \/ h = header block1 \/ h = header block2.
Proof. intros [->|[_ H%bool_decide_eq_true]]; [by left|by right]. Qed.

Definition last_byte (h : option Ser.Hash) : Z := match h with Some h => nth 22 (hash_bytes h) 0 | None => 0 end.

Lemma mined_hashes h1 h2 k : admissible ct mined gen_header h1 -> admissible ct mined gen_header h2 ->
  header_hash ct h1 = Some k -> header_hash ct h2 = Some k -> h1 = h2.
Proof.
  intros H1%mined_cases H2%mined_cases E1 E2. rewrite <- E1 in E2. apply (f_equal last_byte) in E2. clear E1 k. revert E2.
  destruct H1 as [->|[->| ->]], H2 as [->|[->| ->]]; first [solve [vm_compute; discriminate] | reflexivity].
Qed.

Lemma mined_binding : binding ct mined gen_header.
Proof. intros h1 h2 k. apply mined_hashes. Qed.

Lemma mined_rootless : rootless ct mined gen_header.
Proof.
  intros h H%mined_cases E. apply (f_equal (fun h => match h with Some h => nth 21 (hash_bytes h) 0 | None => 0 end)) in E. revert E.
  destruct H as [->|[->| ->]]; vm_compute; discriminate.
Qed.

Lemma header_validation_exact_witness : exists c prev, started any = Some c /\
  follows ct any (db_headers (db c)) (header block1) prev.
Proof.
  set (ctx := new_ctx ct any 0 []).
  destruct (checked (started any) (fun c => bool_decide (db_headers (db c) !! prev_hash (header block1) = Some gen_header) &&
    run_ok (validate_header ct ctx (header block1) (c_us c))))
    as (c & Ec & [Hp%bool_decide_eq_true ([] & u' & E)%run_ok_spec]%andb_true_iff); [vm_compute; reflexivity|].
  unfold db in Hp.
  destruct (proj1 (header_validation_exact ct ctx (header block1) (c_us c) u' eq_refl ltac:(typed)
    ltac:(intros prev Hprev; rewrite Hp in Hprev; injection Hprev as <-; typed)) E) as (_ & _ & prev & Hf).
  exists c, prev. split; [exact Ec|exact Hf].
Defined.

Lemma events_keep : Forall (fun e => not_reset e /\ event_ok e) events.
Proof. eapply Forall_impl; [exact events_ok|]. by intros e (_ & ? & ?). Qed.

Lemma events_typed : Forall event_ok events.
Proof. eapply Forall_impl; [exact events_ok|]. by intros e (_ & _ & ?). Qed.

Lemma events_sums : Forall (fun e => no_rebuild e /\ event_ok e) events.
Proof. eapply Forall_impl; [exact events_ok|]. by intros e (? & _ & ?). Qed.

(** The node after the events, with what [f] says of it. *)
Lemma ran pv l (f0 f : Chain -> bool) :
  match started pv with Some c => f0 c | None => false end = true ->
  match after pv l (started pv) with Some c => f c | None => false end = true ->
  exists c0 c r, started pv = Some c0 /\ f0 c0 = true /\ run_events ct pv false gen l c0 = Some (r, c) /\ f c = true.
Proof.
  unfold after. destruct (started pv) as [c0|] eqn:E0; [|done]. destruct (run_events ct pv false gen l c0) as [[r c]|] eqn:E; [|done].
  intros H0 H. exists c0, c, r. split; [reflexivity|split; [exact H0|split; [exact E|exact H]]].
Qed.

Lemma stored_headers_form_chains_witness : exists c, reaches ct mined false gen event_ok c /\
  ancestor (db_headers (db c)) (header block2) 2 = Some gen_header /\
  exists prev, follows ct mined (db_headers (db c)) (header block2) prev.
Proof.
  destruct (ran mined events (fun _ => true) (fun c => bool_decide (db_headers (db c) !! hash_of (header block2) = Some (header block2))))
    as (c0 & c & r & H0 & _ & H & Hk%bool_decide_eq_true); [vm_compute; reflexivity..|].
  assert (Hc : reaches ct mined false gen event_ok c).
  { eapply run_reaches; [eapply started_reaches; exact H0|exact events_typed|exact H]. }
  exists c. split; [exact Hc|].
  destruct (stored_headers_form_chains ct mined false gen c _ _ mined_binding mined_rootless ltac:(typed) eq_refl Hc Hk)
    as (_ & Hanc & _ & [E|(prev & Hf & _)]); [apply (f_equal height) in E; vm_compute in E; discriminate E|].
  split; [exact Hanc|exists prev; exact Hf].
Defined.

Lemma fork_choice_witness : exists c o fork_point u', started any = Some c /\
  process_block ct (new_ctx ct any 0 []) block1 (c_us c) = Some (Ok (o, fork_point), u') /\
  exists t, tip_from_header ct (header block1) = Some t /\ db_head (u_batch u') = Some t.
Proof.
  set (ctx := new_ctx ct any 0 []).
  destruct (checked (started any) (fun c => bool_decide (db_head (u_batch (c_us c)) = Some gen_tip) &&
    run_ok (process_block ct ctx block1 (c_us c))))
    as (c & Ec & [Hp%bool_decide_eq_true ([o fp] & u' & E)%run_ok_spec]%andb_true_iff); [vm_compute; reflexivity|].
  assert (Hh : head (u_batch (c_us c)) = Ok gen_tip) by (unfold head; by rewrite Hp).
  destruct (fork_choice ct ctx block1 (c_us c) o fp u' gen_tip Hh E) as (t & Ht & _ & [Hd _]).
  exists c, o, fp, u'. split; [exact Ec|split; [exact E|]]. exists t. split; [exact Ht|exact Hd].
Defined.

Lemma head_work_grows_witness : exists c0 c t, started mined = Some c0 /\ (exists r, run_events ct mined false gen events c0 = Some (r, c)) /\
  db_head (db c) = Some t /\ 3 <= num (tip_difficulty t).
Proof.
  destruct (ran mined events (fun c => bool_decide (db_head (db c) = Some gen_tip)) (fun c => true))
    as (c0 & c & r & H0 & Hh%bool_decide_eq_true & H & _); [vm_compute; reflexivity..|].
  destruct (head_work_grows ct mined false gen events c0 r c gen_tip events_keep (started_orphans _ _ H0) Hh H) as (t & Ht & Hd).
  exists c0, c, t. split; [exact H0|]. split; [exists r; exact H|]. split; [exact Ht|exact Hd].
Defined.



#[local] Instance chain_pedersen : Pedersen := {|
  order := 1009;
  dlog := sample_log;
  value_base := 5;
  scalar := fun b => be_value (blinding_bytes b);
|}.

#[local] Instance chain_pedersen_laws : PedersenLaws.
Proof.
  constructor; [reflexivity|reflexivity|..].
  - intros p n c E. injection E as <-. apply (sample_value 33). lia.
  - intros v _. apply (sample_value 33). lia.
  - intros b c E. injection E as <-. apply (sample_value 33). lia.
  - intros b k E. injection E as <-. reflexivity.
  - intros p n b E. injection E as <-. apply (sample_value 32). lia.
Qed.

(** The two rewards of 300000 units of 5 each, and the excesses 9 and 10. *)
Lemma supply_balances_witness : exists u c0 r c s bs, empty_node = Some u /\ init ct mined gen u = Some (Ok c0) /\
  run_events ct mined false gen events c0 = Some (r, c) /\ db_sums (db c) !! hash_of (header block2) = Some s /\
  history ct gen (hash_of (header block2)) bs s /\
  dlog (utxo_sum s) == created bs - Z.of_nat (length bs) * REWARD * value_base.
Proof.
  destruct (ran mined events (fun _ => true) (fun c => bool_decide (is_Some (db_sums (db c) !! hash_of (header block2)))))
    as (c0 & c & r & H0 & _ & H & [s Hs]%bool_decide_eq_true); [vm_compute; reflexivity..|].
  destruct (started_init _ _ H0) as (u & Hu & Hi).
  destruct (supply_balances ct mined false gen u c0 events r c _ s (proj1 (empty_node_fresh u Hu)) Hi events_sums H Hs)
    as (bs & Hh & Hd & _).
  exists u, c0, r, c, s, bs. split; [exact Hu|]. split; [exact Hi|]. split; [exact H|]. split; [exact Hs|].
  split; [exact Hh|exact Hd].
Defined.

#[local] Instance headers_laws : MmrLaws headers := store_laws _.
#[local] Instance outputs_laws : MmrLaws output_mmr := store_laws _.
#[local] Instance rproofs_laws : MmrLaws rproof_mmr := store_laws _.
#[local] Instance kernels_laws : MmrLaws kernel_mmr := store_laws _.

Definition trees_cleanb (t : TxHashSet) : bool :=
  store_cleanb (backend (output_pmmr_h t)) && store_cleanb (backend (rproof_pmmr_h t)) &&
  store_cleanb (backend (kernel_pmmr_h t)).

Lemma trees_cleanb_spec t : trees_cleanb t = true -> trees_clean t.
Proof.
  unfold trees_cleanb. intros [[H1 H2]%andb_true_iff H3]%andb_true_iff.
  split; [by apply store_cleanb_spec|]. split; by apply store_cleanb_spec.
Qed.

(** A competing block with as much work as the head: checked, but rolled back. *)
Definition competing : M EX BlockHeader := process_block_ext ct (new_ctx ct any 0 []) block1' gen_header.
Definition block1_tip : Tip := mkTip 1 (hash_of (header block1)) (hash_of gen_header) (mkDifficulty 6).
Definition one_block (c : Chain) : bool :=
  trees_cleanb (u_trees (c_us c)) && store_cleanb (backend (u_header (c_us c))) &&
  bool_decide (db_head (db c) = Some block1_tip) && bool_decide (db_header_head (db c) = Some block1_tip).

Lemma unit_of_work_atomic_witness : exists c0 r c h, started any = Some c0 /\
  run_events ct any false gen [BlockReceived block1 0 2000] c0 = Some (r, c) /\
  extending competing (c_us c) = Some (Ok h, c_us c).
Proof.
  destruct (ran any [BlockReceived block1 0 2000] (fun _ => true) (fun c => one_block c &&
    run_ok (competing (start_ext (c_us c) block1_tip block1_tip)) &&
    match competing (start_ext (c_us c) block1_tip block1_tip) with Some (_, s) => ex_rollback (x_ext s) | None => false end))
    as (c0 & c & r & H0 & _ & H & [[[[[Ct%trees_cleanb_spec Ch%store_cleanb_spec]%andb_true_iff Hh%bool_decide_eq_true]%andb_true_iff
       Hhh%bool_decide_eq_true]%andb_true_iff (h & s & E)%run_ok_spec]%andb_true_iff Hr]%andb_true_iff); [vm_compute; reflexivity..|].
  rewrite E in Hr. exists c0, r, c, h. split; [exact H0|]. split; [exact H|].
  apply (unit_of_work_atomic competing (c_us c) block1_tip block1_tip (Ok h) s); [|exact Ch|exact Ct|..|exact E|intros _; exact Hr].
  - apply process_ext_since.
  - unfold head. unfold db in Hh. rewrite Hh. reflexivity.
  - unfold header_head. unfold db in Hhh. rewrite Hhh. reflexivity.
Defined.


Lemma orphan_pool_bounded_witness : exists c0 c r, started mined = Some c0 /\
  run_events ct mined false gen (take 2 events) c0 = Some (r, c) /\ orphans_len (c_orphans c) = 1 /\
  orphans_len (c_orphans c) <= MAX_ORPHAN_SIZE.
Proof.
  destruct (ran mined (take 2 events) (fun c => bool_decide (base.size (orphans (c_orphans c)) = 0%nat)) (fun c => orphans_len (c_orphans c) =? 1))
    as (c0 & c & r & H0 & Hs%bool_decide_eq_true & H & Hl%Z.eqb_eq); [vm_compute; reflexivity..|].
  exists c0, c, r. split; [exact H0|]. split; [exact H|]. split; [exact Hl|].
  refine (proj1 (orphan_pool_bounded ct mined false gen (take 2 events) c0 r c _ H)).
  split; [|unfold orphans_len; rewrite Hs; vm_compute; discriminate].
  intros k o Ho. apply map_size_empty_inv in Hs. rewrite Hs, lookup_empty in Ho. discriminate Ho.
Defined.

Definition at_height (n : Z) : BlockHeader := if n =? 0 then gen_header else if n =? 1 then header block1 else header block2.
Definition block2_tip : Tip := mkTip 2 (hash_of (header block2)) (hash_of (header block1)) (mkDifficulty 9).
Definition ok_is (r : result CE.Error BlockHeader) (h : BlockHeader) : bool := match r with Ok h' => bool_decide (h' = h) | Err _ => false end.

Lemma ok_is_spec r h : ok_is r h = true -> r = Ok h.
Proof. destruct r; [|done]. by intros ->%bool_decide_eq_true. Qed.

Definition two_blocks (c : Chain) : bool :=
  bool_decide (db_head (db c) = Some block2_tip) && bool_decide (db_headers (db c) !! last_block_h block2_tip = Some (header block2)) &&
  ok_is (header_at c 0) gen_header && ok_is (header_at c 1) (header block1) && ok_is (header_at c 2) (header block2).

Lemma two_blocks_spec c : two_blocks c = true -> head (db c) = Ok block2_tip /\ tip_stored ct (db_headers (db c)) block2_tip /\
  headers_upto c at_height 2.
Proof.
  unfold two_blocks. intros [[[[H1%bool_decide_eq_true H2%bool_decide_eq_true]%andb_true_iff H3%ok_is_spec]%andb_true_iff
    H4%ok_is_spec]%andb_true_iff H5%ok_is_spec]%andb_true_iff.
  split; [unfold head; rewrite H1; reflexivity|]. split.
  - exists (header block2). split; [exact H2|]. vm_compute. reflexivity.
  - split; intros n Hn.
    + assert (n = 0 \/ n = 1 \/ n = 2) as [->|[->| ->]] by (clear -Hn; lia); [exact H3|exact H4|exact H5].
    + assert (n = 1 \/ n = 2) as [->| ->] by (clear -Hn; lia); vm_compute; reflexivity.
Qed.

Lemma start_up_ends_witness : exists c0 c r, started mined = Some c0 /\ run_events ct mined false gen events c0 = Some (r, c) /\
  start_rounds ct mined gen (db c) false block2_tip (c_us c) (start_loop ct mined gen 3 (db c) block2_tip false (c_us c)).
Proof.
  destruct (ran mined events (fun _ => true) two_blocks)
    as (c0 & c & r & H0 & _ & H & (_ & Hs & _)%two_blocks_spec); [vm_compute; reflexivity..|].
  exists c0, c, r. split; [exact H0|]. split; [exact H|].
  refine (start_up_ends ct mined gen (db c) false (db_headers (db c)) block2_tip (c_us c) mined_rootless ltac:(typed) eq_refl _ eq_refl Hs).
  eapply (proj1 (reaches_tree ct mined false gen mined_binding mined_rootless ltac:(typed) c _)).
  Unshelve. eapply run_reaches; [eapply started_reaches; exact H0|exact events_typed|exact H].
Defined.

Lemma fork_walks_end_witness : exists c0 c r, started mined = Some c0 /\ run_events ct mined false gen events c0 = Some (r, c) /\
  forall l s, headers_are (db_headers (db c)) (hx_batch s) ->
    rounds (fork_step ct) (header block2, l) s (fork_loop ct 2 (header block2) l s).
Proof.
  destruct (ran mined events (fun _ => true) (fun c => bool_decide (db_headers (db c) !! hash_of (header block2) = Some (header block2))))
    as (c0 & c & r & H0 & _ & H & Hk%bool_decide_eq_true); [vm_compute; reflexivity..|].
  exists c0, c, r. split; [exact H0|]. split; [exact H|].
  refine (proj1 (fork_walks_end ct mined gen_header (db_headers (db c)) (header block2) mined_rootless ltac:(typed) eq_refl _ (ex_intro _ _ Hk))).
  eapply (proj1 (reaches_tree ct mined false gen mined_binding mined_rootless ltac:(typed) c _)).
  Unshelve. eapply run_reaches; [eapply started_reaches; exact H0|exact events_typed|exact H].
Defined.

Lemma kernel_lookup_exact_witness : exists c0 c r n, started mined = Some c0 /\ run_events ct mined false gen events c0 = Some (r, c) /\
  get_header_for_kernel_index 2 None None c = Some (Ok (at_height n), c) /\
  kernel_mmr_size (at_height (n - 1)) < 2 <= kernel_mmr_size (at_height n).
Proof.
  destruct (ran mined events (fun _ => true) two_blocks)
    as (c0 & c & r & H0 & _ & H & (Hh & _ & Hu)%two_blocks_spec); [vm_compute; reflexivity..|].
  destruct (kernel_lookup_exact c at_height 2 block2_tip Hh) as (n & _ & Hn & E); [vm_compute; split; reflexivity|exact Hu|vm_compute; split; [reflexivity|discriminate]|].
  exists c0, c, r, n. split; [exact H0|]. split; [exact H|]. split; [exact E|exact Hn].
Defined.

Lemma kernel_lookup_diverges_witness : exists c0 c r, started mined = Some c0 /\ run_events ct mined false gen events c0 = Some (r, c) /\
  kernel_height_loop 65 4 0 2 c = None.
Proof.
  destruct (ran mined events (fun _ => true) two_blocks)
    as (c0 & c & r & H0 & _ & H & (_ & _ & Hu)%two_blocks_spec); [vm_compute; reflexivity..|].
  exists c0, c, r. split; [exact H0|]. split; [exact H|].
  refine (kernel_lookup_diverges c at_height 4 2 65 _ Hu _); vm_compute; [split; reflexivity|reflexivity].
Defined.

Lemma pibd_head_kept_witness : exists c r c', started any = Some c /\ reset_pibd_head ct gen c = Some (Ok r, c') /\
  pibd_head default_tip (db c') = pibd_head default_tip (db c).
Proof.
  destruct (checked (started any) (fun c => run_ok (reset_pibd_head ct gen c)))
    as (c & Ec & (r & c' & E)%run_ok_spec); [vm_compute; reflexivity|].
  exists c, r, c'. split; [exact Ec|]. split; [exact E|]. exact (pibd_head_kept ct gen c (Ok r) c' E).
Defined.

(** Rewinding to nothing and appending something else, and then back. *)
Definition outputs_of (c : Chain) : mmr OutputIdentifier OutputIdentifier := backend (output_pmmr_h (u_trees (c_us c))).
Definition redone (c : Chain) : result pmmr_error (mmr OutputIdentifier OutputIdentifier) :=
  let? b := backend_rewind (outputs_of c) 0 ∅ in append b (identifier (reward_output 11)) [ZERO_HASH].

Lemma discard_restores_witness : exists c0 c r b, started any = Some c0 /\
  run_events ct any false gen [BlockReceived block1 0 2000] c0 = Some (r, c) /\ redone c = Ok b /\
  mmr_discard b = Some (outputs_of c).
Proof.
  destruct (ran any [BlockReceived block1 0 2000] (fun _ => true) (fun c => store_cleanb (outputs_of c) && is_ok (redone c)))
    as (c0 & c & r & H0 & _ & H & [Hc%store_cleanb_spec Hr]%andb_true_iff); [vm_compute; reflexivity..|].
  destruct (redone c) as [b|e] eqn:E; [|discriminate Hr]. exists c0, c, r, b. split; [exact H0|]. split; [exact H|]. split; [exact E|].
  unfold redone in E. apply rbind_Ok in E as (b1 & E1 & E2).
  apply (discard_restores id (outputs_of c) b Hc). eapply unsynced_append; [|exact E2]. eapply unsynced_rewind; [|exact E1]. apply unsynced_none.
Defined.
End Sample.
