(* ===== verification/DesegmenterSpec.v ===== *)
(** What the desegmenter guarantees.

    The sizes of the bitmap MMR and the case in which they cannot be computed,
    which segment is needed next, that it is always asked for once the bitmap is
    there and when it is not before, the invariant of the caches under every
    call, the batches that are applied, and the leaves that nobody checks. *)

From Stdlib Require Import ZArith Lia.
From stdpp Require Import base numbers option sorting gmap list.
From S2P Require Import Prelude Segments SegmentSpec SegmentServe Consensus PmmrIndex Pmmr Ser LinkedList Kernel CutThrough Transaction PowTypes Block Bitmap ChainTypes.
From S2P Require Import ChainStore BitmapAccumulator TxHashSet Pipe Chain Desegmenter.
Open Scope Z_scope.

(** ** Sizes *)

Lemma tiles_last a l r b : tiles a (l ++ [r]) b -> snd r = b.
Proof.
  revert a. induction l as [|[x y] l IH]; intros a; simpl.
  - destruct r. by intros (_ & _ & E).
  - intros (_ & _ & E). by apply IH in E.
Qed.

Lemma last_peak n : 1 <= n < 2 ^ 60 -> last (peaks (npos 0 n)) = Some (npos 0 n - 1).
Proof.
  intros Hn. destruct (peak_ranges_tile 62 0 n) as [Ht _]; [lia|change (Z.of_nat 62) with 62; lia..|].
  rewrite Z.mul_0_r, Z.add_0_l in Ht. change (npos 0 0) with 0 in Ht. rewrite peaks_npos by lia.
  pose proof (npos0_ge n ltac:(lia)) as Hge.
  assert (Hb : Forall (fun b => b ∈ peak_bits 62 n) (peak_bits 62 n)) by by apply Forall_forall.
  revert Hb Ht. generalize (peak_bits 62 n) at 2 3 4. intros bits.
  destruct bits as [|c bits _] using rev_ind; [cbn [map tiles]; intros _ Ht; exfalso; clear -Ht Hge Hn; lia|]. intros [_ Hc%Forall_inv]%Forall_app.
  rewrite !map_app. cbn [map]. rewrite last_snoc. intros Ht%tiles_last. unfold compose in Ht. f_equal.
  apply elem_of_peak_bits in Hc as [Hc Hbit]. unfold peak_pos in *.
  rewrite Z.testbit_odd, Z.shiftr_div_pow2 in Hbit by lia. pose proof (pow2_pos c ltac:(lia)).
  assert (0 < n / 2 ^ c).
  { destruct (Z.lt_trichotomy (n / 2 ^ c) 0) as [?|[E0|?]]; [|by rewrite E0 in Hbit|done].
    pose proof (Z.div_pos n (2 ^ c)). lia. }
  pose proof (Z.div_mod n (2 ^ c)). pose proof (Z.mod_pos_bound n (2 ^ c)).
  assert (npos c (n / 2 ^ c - 1) < npos 0 n) by (apply npos_lt_leaf; nia).
  destruct (npos_bounds c (n / 2 ^ c - 1)); [lia..|].
  rewrite range_npos in Ht by (try (unfold in_bounds); lia). simpl in Ht. lia.
Qed.

(** An archive header whose output MMR has at most one chunk of 1024 leaves
    stops the desegmenter from being made: the fallback of the size of the bitmap
    MMR, which is computed whether or not it is needed, unwraps the last peak of
    an empty MMR. With more outputs the sizes are the number of chunks and the
    size of the MMR over them. *)
Theorem desegmenter_new_panics (archive_header genesis : BlockHeader) n :
  output_mmr_size archive_header = npos 0 n -> 1 <= n < 2 ^ 60 ->
  let chunks := (n + 1023) / 1024 in
  match new_desegmenter archive_header genesis with
  | None => n <= 1024
  | Some d => 1024 < n /\ bitmap_mmr_leaf_count d = chunks /\ bitmap_mmr_size d = npos 0 chunks
  end.
Proof.
  intros Es Hn chunks. unfold new_desegmenter, bitmap_mmr_sizes. rewrite Es, n_leaves_npos by lia.
  change (div_ceil n 1024) with ((n + 1024 - 1) / 1024).
  replace (n + 1024 - 1) with (n + 1023) by lia. fold chunks.
  pose proof (Z.div_mod (n + 1023) 1024 ltac:(lia)). pose proof (Z.mod_pos_bound (n + 1023) 1024 ltac:(lia)).
  fold chunks in H, H0. assert (Hc : 1 <= chunks <= n) by lia. rewrite sub64_small, !insertion_index_npos by (unfold_words; lia).
  destruct (Z.eq_dec chunks 1) as [E1|E1]; [rewrite E1; simpl; lia|].
  rewrite !last_peak by lia. cbn [mbind option_bind default]. unfold id. pose proof (npos0_ge chunks ltac:(lia)).
  rewrite add64_small by (unfold_words; lia). cbn [bitmap_mmr_leaf_count Desegmenter.bitmap_mmr_size]. replace (1 + (npos 0 chunks - 1)) with (npos 0 chunks) by lia. split_and!; [lia|done..].
Qed.

Lemma count_npos n h : 0 <= n < 2 ^ 60 -> 0 <= h <= 60 -> count_segments_required (npos 0 n) h = (n + 2 ^ h - 1) / 2 ^ h.
Proof. intros Hn Hh. unfold count_segments_required, div_ceil. by rewrite n_leaves_npos, shl64_1 by lia. Qed.

Lemma ceil_div_eq n d : 0 <= n -> 0 < d ->
  exists q, (n + d - 1) / d = q /\ d * (q - 1) < n <= d * q /\ (n = d * q -> n / d = q) /\ (n < d * q -> n / d = q - 1).
Proof.
  intros Hn Hd. exists ((n + d - 1) / d). pose proof (Z.div_mod (n + d - 1) d ltac:(lia)).
  pose proof (Z.mod_pos_bound (n + d - 1) d ltac:(lia)). split; [done|]. split; [nia|]. split; intros Hq.
  - symmetry. apply Z.div_unique with 0; lia.
  - symmetry. apply Z.div_unique with (n - d * ((n + d - 1) / d - 1)); lia.
Qed.

Lemma next_required_npos m n h :
  0 <= m <= n -> 1 <= n < 2 ^ 58 -> 1 <= h <= 58 ->
  next_required_segment_index (npos 0 m) (npos 0 n) h =
    if (m =? n) && negb (m =? 1) then None else Some (m / 2 ^ h).
Proof.
  intros Hm Hn Hh. pose proof (pow2_pos h ltac:(lia)) as Hp.
  assert (2 ^ h <= 2 ^ 58) by (apply Z.pow_le_mono_r; lia).
  assert (2 ^ 1 <= 2 ^ h) by (apply Z.pow_le_mono_r; lia).
  unfold next_required_segment_index, local_segment_count. rewrite !count_npos by lia.
  destruct (ceil_div_eq m (2 ^ h)) as (c & -> & Hc & Hc1 & Hc2); [lia..|].
  destruct (ceil_div_eq n (2 ^ h)) as (t & -> & Ht & _); [lia..|].
  assert (Eone : (npos 0 m =? 1) = (m =? 1)).
  { destruct (Z.eqb_spec m 1) as [->|Hne]; [done|]. apply Z.eqb_neq. change (npos 0 m <> npos 0 1).
    intros E. destruct (npos_inj 0 m 0 1) as [_ E1]; [lia|lia|lia|lia|pose proof (npos0_ge m ltac:(lia)); lia|exact E|lia]. }
  assert (Esize : forall k, 0 <= k -> 2 ^ h * k < 2 ^ 60 -> pmmr_size k h = npos 0 (2 ^ h * k)).
  { intros k Hk Hb. unfold pmmr_size. rewrite shl64_1 by lia. rewrite mul64_small by (unfold_words; nia).
    rewrite Z.mul_comm. apply insertion_index_npos. nia. }
  rewrite Eone. destruct (Z.eqb_spec m 1) as [->|Hne]; cbn [negb].
  - rewrite Esize, Z.mul_0_r by lia. change (npos 0 0) with 0. change (npos 0 1) with 1.
    rewrite !andb_false_r. destruct (Z.eqb_spec 0 t); [nia|]. rewrite Z.div_small; [done|lia].
  - rewrite andb_true_r. rewrite Esize by nia.
    destruct (Z.ltb_spec (npos 0 m) (npos 0 n)) as [Hlt|Hge]; cbn [andb].
    + rewrite npos0_lt_iff in Hlt by lia. destruct (Z.eqb_spec m n); [lia|].
      destruct (Z.ltb_spec (npos 0 m) (npos 0 (2 ^ h * c))) as [Hl|Hg].
      * rewrite npos0_lt_iff in Hl by nia. rewrite sub64_small by (unfold_words; nia).
        rewrite Hc2 by lia. destruct (Z.eqb_spec (c - 1) t); [nia|done].
      * rewrite <- Z.nlt_ge, npos0_lt_iff in Hg by nia. rewrite Hc1 by lia.
        destruct (Z.eqb_spec c t); [nia|done].
    + rewrite <- Z.nlt_ge, npos0_lt_iff in Hge by lia. assert (m = n) as -> by lia. rewrite Z.eqb_refl.
      assert (c = t) as -> by nia. by rewrite Z.eqb_refl.
Qed.

(** Which segment comes next, at the height of outputs, range proofs and
    kernels: with [m] of [n] leaves in place it is the segment that the next
    leaf is in, whether or not [m] is at the start of a segment, and there is
    none when [m] is [n], except that an MMR with the genesis block only
    always asks for segment 0. *)
Theorem next_required_is_next_leaf m n :
  0 <= m <= n -> 1 <= n < 2 ^ 58 ->
  next_required_segment_index (npos 0 m) (npos 0 n) OUTPUT_SEGMENT_HEIGHT =
    (if (m =? n) && negb (m =? 1) then None else Some (m / 2048)) /\
  next_required_segment_index (npos 0 m) (npos 0 n) KERNEL_SEGMENT_HEIGHT =
    (if (m =? n) && negb (m =? 1) then None else Some (m / 2048)) /\
  next_required_segment_index (npos 0 m) (npos 0 n) RANGEPROOF_SEGMENT_HEIGHT =
    (if (m =? n) && negb (m =? 1) then None else Some (m / 2048)).
Proof. intros Hm Hn. change 2048 with (2 ^ 11). split_and!; apply next_required_npos; lia. Qed.

(** ** What is asked for *)

Lemma segment_last h i n :
  1 <= h <= 60 -> 0 <= i -> 2 ^ h * i < n < 2 ^ 60 ->
  snd (segment_pos_range (mkId h i) (npos 0 n)) =
    if 2 ^ h * (i + 1) <=? n then npos h i else npos 0 n - 1.
Proof.
  intros Hh Hi Hn. destruct (segment_geometry (mkId h i) n) as (_ & _ & ->); [split; simpl; lia|done].
Qed.

Lemma request_loop_length fuel ty h sz lsz has quota i added :
  0 <= added <= quota ->
  Z.of_nat (length (request_loop fuel ty h sz lsz has quota i added)) <= quota - added.
Proof.
  revert i added. induction fuel as [|fuel IH]; intros i added Ha; cbn [request_loop]; [simpl; lia|].
  destruct (Z.eqb_spec added quota); [simpl; lia|]. destruct (_ && _).
  - cbn [length]. specialize (IH (add64 i 1) (added + 1) ltac:(lia)). lia.
  - by apply IH.
Qed.

Section one_mmr.
Context (ty : SegmentType) (h m n : Z) (has : SegmentIdentifier -> bool) (max : Z).
Context (Hmn : 0 <= m <= n) (Hn : 1 <= n < 2 ^ 58) (Hh : 1 <= h <= 58) (Hmax : 3 <= max).

Let r := request ty h (npos 0 n) (npos 0 m) has max.
Let force := force_next ty h (npos 0 n) (npos 0 m) has max.

(** The next segment is in the list, or in the cache. *)
Definition covered (l : list SegmentTypeIdentifier) : Prop :=
  forall i, next_required_segment_index (npos 0 m) (npos 0 n) h = Some i ->
    has (mkId h i) = true \/ mkTypeId ty (mkId h i) ∈ l.

Lemma request_length : Z.of_nat (length r) <= max / 3.
Proof.
  unfold r, request. pose proof (Z.div_pos max 3). destruct (next_required_segment_index _ _ _); [|simpl; lia].
  etransitivity; [apply request_loop_length; lia|lia].
Qed.

Lemma request_covers : covered r \/ r = [].
Proof.
  unfold covered, r, request. rewrite next_required_npos by lia.
  destruct (_ && _); [by left|]. set (i := m / 2 ^ h). pose proof (pow2_pos h ltac:(lia)).
  assert (2 ^ h <= 2 ^ 58) by (apply Z.pow_le_mono_r; lia).
  assert (Hi : 0 <= i) by (apply Z.div_pos; lia).
  pose proof (Z.div_mod m (2 ^ h) ltac:(lia)) as Hdm. pose proof (Z.mod_pos_bound m (2 ^ h) ltac:(lia)). fold i in Hdm.
  rewrite count_npos by lia. destruct (ceil_div_eq n (2 ^ h)) as (t & -> & Ht & _); [lia..|].
  destruct (Z.to_nat (t - i)) as [|fuel] eqn:Ef; [by right|]. cbn [request_loop].
  assert (Hin : 2 ^ h * i < n) by nia.
  pose proof (Z.div_le_mono 3 max 3). change (3 / 3) with 1 in *.
  destruct (Z.eqb_spec 0 (max / 3)); [lia|]. rewrite segment_last by lia.
  destruct (Z.leb_spec (2 ^ h * (i + 1)) n) as [Hfull|Hlast].
  - assert (npos 0 m < npos h i).
    { apply leaf_before; [lia..|]. destruct (Z.eqb_spec h 0); [lia|]. unfold last_leaf. lia. }
    destruct (Z.ltb_spec (npos 0 m) (npos h i)); [|lia]. cbn [andb].
    destruct (has (mkId h i)) eqn:Eh; cbn [negb]; left; intros ? [= <-]; [by left|right; by left].
  - assert (t = i + 1) as -> by nia. replace (i + 1 - i) with 1 in Ef by lia. injection Ef as <-. cbn [request_loop].
    destruct (_ <? _); cbn [andb]; [|by right].
    destruct (has (mkId h i)) eqn:Eh; cbn [negb]; left; intros ? [= <-]; [by left|right; by left].
Qed.

Lemma force_covers l : covered (force l) .
Proof.
  intros i Ei. unfold force, force_next. rewrite Ei. destruct (has _); [by left|]. right. cbn [negb andb].
  case_bool_decide as Hin; cbn [negb]; [done|]. apply elem_of_app. right. by left.
Qed.

(** Nothing is dropped while there is room. *)
Lemma force_room l :
  force l = l \/ ~ covered l /\ (Z.of_nat (length l) < max -> exists x, force l = l ++ [x]).
Proof.
  unfold force, force_next, covered. destruct (next_required_segment_index _ _ _) as [i|]; [|by left].
  destruct (has (mkId h i)) eqn:Eh; [by left|]. cbn [negb andb]. case_bool_decide as Hin; cbn [negb]; [by left|].
  right. split; [intros Hc; destruct (Hc i eq_refl) as [?|?]; [congruence|done]|].
  intros Hl. destruct (Z.leb_spec max (Z.of_nat (length l))); [lia|by eexists].
Qed.

Lemma covered_app l x : covered l -> covered (l ++ x).
Proof. intros Hc i Ei. destruct (Hc i Ei); [by left|right; apply elem_of_app; by left]. Qed.
Lemma covered_app_r l x : covered l -> covered (x ++ l).
Proof. intros Hc i Ei. destruct (Hc i Ei); [by left|right; apply elem_of_app; by right]. Qed.
End one_mmr.

(** Three rounds that find room one after the other. *)
Lemma rounds_cover {X} (max q : Z) (c1 c2 c3 : list X -> Prop) (f1 f2 f3 : list X -> list X) (r1 r2 r3 : list X) :
  let ok (c : list X -> Prop) (f : list X -> list X) (r : list X) : Prop :=
    Z.of_nat (length r) <= q /\ (c r \/ r = []) /\ (forall l : list X, c (f l)) /\ (forall l x : list X, c l -> c (l ++ x)) /\ (forall l x : list X, c l -> c (x ++ l)) /\
    (forall l : list X, f l = l \/ ~ c l /\ (Z.of_nat (length l) < max -> exists x, f l = l ++ [x])) in
  1 <= q -> 3 * q <= max -> ok c1 f1 r1 -> ok c2 f2 r2 -> ok c3 f3 r3 ->
  let l := f3 (f2 (f1 (r1 ++ r2 ++ r3))) in c1 l /\ c2 l /\ c3 l.
Proof.
  intros ok Hq Hmax (L1 & R1 & F1 & A1 & P1 & S1) (L2 & R2 & F2 & A2 & P2 & S2) (L3 & R3 & F3 & A3 & P3 & S3).
  cbv zeta. set (v0 := r1 ++ r2 ++ r3).
  assert (E0 : Z.of_nat (length v0) = Z.of_nat (length r1) + Z.of_nat (length r2) + Z.of_nat (length r3))
    by (unfold v0; rewrite !length_app; lia).
  assert (N1 : ~ c1 v0 -> r1 = []) by (intros N; destruct R1; [destruct N; by apply A1|done]).
  assert (N2 : ~ c2 v0 -> r2 = []) by (intros N; destruct R2; [destruct N; apply P2; by apply A2|done]).
  assert (N3 : ~ c3 v0 -> r3 = []) by (intros N; destruct R3; [destruct N; apply P3; by apply P3|done]).
  clearbody v0.
  assert (T1 : exists x1, f1 v0 = v0 ++ x1 /\ (x1 = [] \/ r1 = [] /\ length x1 = 1%nat)).
  { destruct (S1 v0) as [->|[N E]]; [exists []; rewrite app_nil_r; auto|].
    rewrite (N1 N) in E0. simpl in E0. destruct E as [x ->]; [lia|]. exists [x]; auto. }
  destruct T1 as (x1 & E1 & H1). pose proof (F1 v0) as C1. rewrite E1 in C1 |- *.
  assert (T2 : exists x2, f2 (v0 ++ x1) = (v0 ++ x1) ++ x2 /\ (x2 = [] \/ r2 = [] /\ length x2 = 1%nat)).
  { destruct (S2 (v0 ++ x1)) as [->|[N E]]; [exists []; rewrite app_nil_r; auto|].
    assert (Er : r2 = []) by (apply N2; intros ?; destruct N; by apply A2). rewrite Er in E0. simpl in E0.
    destruct E as [x ->]; [rewrite length_app; destruct H1 as [->|[-> ->]]; simpl in *; lia|]. exists [x]; auto. }
  destruct T2 as (x2 & E2 & H2). pose proof (F2 (v0 ++ x1)) as C2. rewrite E2 in C2 |- *.
  assert (T3 : exists x3, f3 ((v0 ++ x1) ++ x2) = ((v0 ++ x1) ++ x2) ++ x3).
  { destruct (S3 ((v0 ++ x1) ++ x2)) as [->|[N E]]; [exists []; by rewrite app_nil_r|].
    assert (Er : r3 = []) by (apply N3; intros ?; destruct N; apply A3; by apply A3). rewrite Er in E0. simpl in E0.
    destruct E as [x ->]; [|by exists [x]]. rewrite !length_app.
    destruct H1 as [->|[-> ->]], H2 as [->|[-> ->]]; simpl in *; lia. }
  destruct T3 as (x3 & E3). pose proof (F3 ((v0 ++ x1) ++ x2)) as C3. rewrite E3 in C3 |- *. auto.
Qed.

Section requests.
Context {CR : Crypto} {SU : SortUnstable} {NF : NrdFlag} (ct : ChainTypes).
Context {MH : Mmr BlockHeader HeaderEntry} {MO : Mmr OutputIdentifier OutputIdentifier}.
Context {MR : Mmr RangeProof RangeProof} {MK : Mmr TxKernel TxKernel}.

(** No segment that the sync waits for is forgotten: whatever is cached and
    however few of at least three segments are asked for at a time, the next
    segment of each of the three MMRs is asked for or waits in its cache. *)
Theorem next_segments_asked_for max s o r o' k k' :
  let d := s_deseg s in
  3 <= max ->
  local_output_mmr_size s = npos 0 o -> output_mmr_size (archive_header d) = npos 0 o' ->
  local_rangeproof_mmr_size s = npos 0 r ->
  local_kernel_mmr_size s = npos 0 k -> kernel_mmr_size (archive_header d) = npos 0 k' ->
  0 <= o <= o' -> 0 <= r <= o' -> 0 <= k <= k' -> 1 <= o' < 2 ^ 58 -> 1 <= k' < 2 ^ 58 ->
  let l := desired_segments max s in
  (forall i, next_required_output_segment_index s = Some i ->
     has_segment_with_id (output_segment_cache d) (mkId OUTPUT_SEGMENT_HEIGHT i) = true \/
     mkTypeId SegOutput (mkId OUTPUT_SEGMENT_HEIGHT i) ∈ l) /\
  (forall i, next_required_rangeproof_segment_index s = Some i ->
     has_segment_with_id (rangeproof_segment_cache d) (mkId RANGEPROOF_SEGMENT_HEIGHT i) = true \/
     mkTypeId SegRangeProof (mkId RANGEPROOF_SEGMENT_HEIGHT i) ∈ l) /\
  (forall i, next_required_kernel_segment_index s = Some i ->
     has_segment_with_id (kernel_segment_cache d) (mkId KERNEL_SEGMENT_HEIGHT i) = true \/
     mkTypeId SegKernel (mkId KERNEL_SEGMENT_HEIGHT i) ∈ l).
Proof.
  intros d Hmax Eo Eo' Er Ek Ek' Ho Hr Hk Ho' Hk' l.
  unfold next_required_output_segment_index, next_required_rangeproof_segment_index, next_required_kernel_segment_index.
  subst l. unfold desired_segments. cbv zeta. fold d. rewrite Eo, Er, Ek, Eo', Ek'.
  pose proof (Z.div_le_mono 3 max 3). change (3 / 3) with 1 in *. pose proof (Z.mul_div_le max 3).
  pose proof (rounds_cover max (max / 3)
    (covered SegOutput OUTPUT_SEGMENT_HEIGHT o o' (has_segment_with_id (output_segment_cache d)))
    (covered SegRangeProof RANGEPROOF_SEGMENT_HEIGHT r o' (has_segment_with_id (rangeproof_segment_cache d)))
    (covered SegKernel KERNEL_SEGMENT_HEIGHT k k' (has_segment_with_id (kernel_segment_cache d)))) as Hc.
  unfold OUTPUT_SEGMENT_HEIGHT, RANGEPROOF_SEGMENT_HEIGHT, KERNEL_SEGMENT_HEIGHT in *.
  apply Hc; [lia|lia|..]; (split_and!;
    [apply request_length; lia|apply request_covers; lia|intros l; apply force_covers
    |intros l x; apply covered_app|intros l x; apply covered_app_r|intros l; apply force_room]).
Qed.
End requests.

(** ** The last segment of the bitmap *)

Section bitmap.
Context {CR : Crypto} {SU : SortUnstable} {NF : NrdFlag} (ct : ChainTypes).
Context {MH : Mmr BlockHeader HeaderEntry} {MO : Mmr OutputIdentifier OutputIdentifier}.
Context {MR : Mmr RangeProof RangeProof} {MK : Mmr TxKernel TxKernel}.

Lemma local_bitmap_npos d l : holds (d_accumulator d) l -> local_bitmap_mmr_size d = npos 0 (Z.of_nat (length l)).
Proof. intros [[(Es & _) _] _]. exact Es. Qed.

Lemma bitmap_request_none ids sz lsz has max :
  (forall id, id ∈ ids -> snd (segment_pos_range id sz) <= lsz) -> bitmap_request_loop ids sz lsz has max [] = [].
Proof.
  induction ids as [|id ids IH]; intros Hids; cbn [bitmap_request_loop]; [done|].
  pose proof (Hids id ltac:(by left)). destruct (Z.ltb_spec lsz (snd (segment_pos_range id sz))); [lia|]. cbn [andb].
  apply IH. intros x Hx. apply Hids. by right.
Qed.

Lemma remove_idx_None {E} (cache : list (Segment E Ser.Hash)) i :
  remove_idx cache i = None <-> forall s, s ∈ cache -> idx (Segments.identifier s) <> i.
Proof.
  induction cache as [|s cache IH]; cbn [remove_idx].
  { split; [intros _ ? []%elem_of_nil|done]. }
  destruct (Z.eqb_spec (idx (Segments.identifier s)) i) as [E1|E1].
  - split; [done|]. intros Hs. destruct (Hs s); [by left|done].
  - destruct (remove_idx cache i) as [[x c]|].
    + split; [done|]. intros Hs. destruct IH as [_ IH]. enough (Some (x, c) = None) by done.
      apply IH. intros y Hy. apply Hs. by right.
    + split; [|done]. intros _ y [->|Hy]%elem_of_cons; [done|]. by apply IH.
Qed.

(** C26. The sync of the bitmap can wait for a segment that it does not ask for.
    When the last segment has one chunk only, and is not in the cache once the
    segments before it are applied, it is the next one that is required and
    nothing is requested, for its last position, which is counted from 0, is
    not larger than the size of the local MMR. Nothing is applied either, so
    the state stays as it is. *)
Theorem bitmap_sync_stalls d u k l :
  holds (d_accumulator d) l -> Z.of_nat (length l) = 512 * k -> 1 <= k < 2 ^ 40 ->
  bitmap_mmr_size d = npos 0 (512 * k + 1) -> d_bitmap_cache d = None ->
  (forall s, s ∈ bitmap_segment_cache d -> idx (Segments.identifier s) <> k) ->
  next_required_bitmap_segment_index d = Some k /\
  (forall max, next_desired_segments max (mkDS d u) = Some (Ok [], mkDS d u)) /\
  apply_next_segments (mkDS d u) = Some (Ok tt, mkDS d u).
Proof.
  intros Hl Elen Hk Esz Ecache Hno. apply local_bitmap_npos in Hl as El. rewrite Elen in El.
  assert (Enext : next_required_bitmap_segment_index d = Some k).
  { unfold next_required_bitmap_segment_index. rewrite El, Esz, !count_npos by (unfold BITMAP_SEGMENT_HEIGHT; lia).
    change (2 ^ BITMAP_SEGMENT_HEIGHT) with 512.
    replace (512 * k + 512 - 1) with (k * 512 + 511) by lia. replace (512 * k + 1 + 512 - 1) with ((k + 1) * 512) by lia.
    rewrite Z.div_add_l, Z.div_mul by lia. change (511 / 512) with 0. destruct (Z.eqb_spec (k + 0) (k + 1)); [lia|].
    f_equal. lia. }
  split; [done|]. split.
  - intros max. unfold next_desired_segments, asks, bind. cbn [s_deseg]. rewrite Ecache. unfold ret. f_equal. f_equal. f_equal.
    unfold desired_bitmap_segments. apply bitmap_request_none. intros id (i & -> & Hi)%elem_of_map.
    rewrite El, Esz in *. rewrite elem_of_seqZ, count_npos in Hi by (unfold BITMAP_SEGMENT_HEIGHT; lia).
    change BITMAP_SEGMENT_HEIGHT with 9 in *. change (2 ^ 9) with 512 in *.
    replace (512 * k + 1 + 512 - 1) with ((k + 1) * 512) in Hi by lia. rewrite Z.div_mul in Hi by lia.
    rewrite segment_last by (change (2 ^ 9) with 512; lia). change (2 ^ 9) with 512.
    destruct (Z.leb_spec (512 * (i + 1)) (512 * k + 1)).
    + apply Z.nlt_ge. rewrite leaf_before by lia. change (9 =? 0) with false. unfold last_leaf. change (2 ^ 9) with 512. lia.
    + assert (i = k) as -> by lia. unfold npos. rewrite !Z.add_0_l. change (2 ^ 1) with 2.
      assert (Ec : count_ones (512 * k + 1) = 1 + count_ones (512 * k)).
      { replace (512 * k + 1) with (2 * (256 * k) + 1) by lia. rewrite count_ones_double1 by lia.
        replace (512 * k) with (2 * (256 * k)) by lia. by rewrite count_ones_double by lia. }
      lia.
  - unfold apply_next_segments, asks, bind. cbn [s_deseg]. rewrite Enext. apply remove_idx_None in Hno. by rewrite Hno.
Qed.
End bitmap.

(** ** The caches *)

Section caching.
Context {CR : Crypto} {SU : SortUnstable} {NF : NrdFlag} (ct : ChainTypes).
Context {MH : Mmr BlockHeader HeaderEntry} {MO : Mmr OutputIdentifier OutputIdentifier}.
Context {MR : Mmr RangeProof RangeProof} {MK : Mmr TxKernel TxKernel}.

(** A segment of each MMR that belongs to the archive header. *)
Definition bitmap_segment_ok (d : Desegmenter) (s : Segment BitmapChunk Ser.Hash) : Prop :=
  let h := archive_header d in
  exists other, validate_with (T := BitmapChunk) (BM := gset Z) (fun x i => leaf_hash x i) s (bitmap_mmr_size d) None
    (output_root h) (output_mmr_size h) other true = Ok tt.
Definition output_segment_ok (d : Desegmenter) (s : Segment OutputIdentifier Ser.Hash) : Prop :=
  let h := archive_header d in
  exists bitmap other, validate_with (T := OutputIdentifier) (fun x i => leaf_hash x i) s (output_mmr_size h) bitmap
    (output_root h) (output_mmr_size h) other false = Ok tt /\
    (bitmap = None \/ bitmap = d_bitmap_cache d /\ acc_root (d_accumulator d) = Some other).
Definition rangeproof_segment_ok (d : Desegmenter) (s : Segment RangeProof Ser.Hash) : Prop :=
  let h := archive_header d in
  exists bitmap, Segments.validate (T := RangeProof) (fun x i => leaf_hash x i) s (output_mmr_size h) bitmap
    (range_proof_root h) = Ok tt /\ (bitmap = None \/ bitmap = d_bitmap_cache d).
Definition kernel_segment_ok (d : Desegmenter) (s : Segment TxKernel Ser.Hash) : Prop :=
  let h := archive_header d in
  Segments.validate (T := TxKernel) (BM := gset Z) (fun x i => leaf_hash x i) s (kernel_mmr_size h) None (kernel_root h) = Ok tt.

(** A cache without two segments of one identifier. *)
Definition cache_ok {E} (ok : Segment E Ser.Hash -> Prop) (cache : list (Segment E Ser.Hash)) : Prop :=
  NoDup (map Segments.identifier cache) /\ Forall ok cache.

Lemma has_segment_spec {E} (cache : list (Segment E Ser.Hash)) id :
  has_segment_with_id cache id = true <-> id ∈ map Segments.identifier cache.
Proof.
  unfold has_segment_with_id. rewrite existsb_exists, elem_of_map. split.
  - intros (x & Hx & E1%bool_decide_eq_true_1). exists x. split; [done|by apply list_elem_of_In].
  - intros (x & -> & Hx). exists x. split; [by apply list_elem_of_In|by apply bool_decide_eq_true_2].
Qed.

Lemma cache_segment_ok {E} (ok : Segment E Ser.Hash -> Prop) cache s :
  cache_ok ok cache -> ok s -> cache_ok ok (cache_segment cache s).
Proof.
  intros [Hn Hf] Hs. unfold cache_segment. destruct (has_segment_with_id _ _) eqn:Eh; [done|].
  split; [|apply Forall_app; auto]. rewrite map_app. apply NoDup_app. split; [done|]. split; [|by apply NoDup_singleton].
  intros id Hid ->%list_elem_of_singleton. apply has_segment_spec in Hid. congruence.
Qed.

Lemma remove_idx_sublist {E} (cache : list (Segment E Ser.Hash)) i s c :
  remove_idx cache i = Some (s, c) -> c `sublist_of` cache /\ cache ≡ₚ s :: c /\ idx (Segments.identifier s) = i.
Proof.
  revert c. induction cache as [|x cache IH]; intros c; cbn [remove_idx]; [done|].
  destruct (Z.eqb_spec (idx (Segments.identifier x)) i) as [E1|E1]; [intros [= -> ->]; split_and!; [by constructor|done|done]|].
  destruct (remove_idx cache i) as [[y c']|]; [|done]. intros [= -> <-]. destruct (IH c' eq_refl) as (H1 & H2 & H3).
  split_and!; [by constructor|by rewrite H2, Permutation_swap|done].
Qed.

Lemma take_batch_sublist {E} n (cache : list (Segment E Ser.Hash)) i :
  snd (take_segment_batch n cache i) `sublist_of` cache.
Proof.
  revert cache i. induction n as [|n IH]; intros cache i; cbn [take_segment_batch]; [done|].
  destruct (remove_idx cache i) as [[s c]|] eqn:E1; [|done]. apply remove_idx_sublist in E1 as [Hs _].
  specialize (IH c (add64 i 1)). destruct (take_segment_batch n c _). simpl in *. by transitivity c.
Qed.

Lemma cache_ok_sublist {E} (ok : Segment E Ser.Hash -> Prop) c1 c2 : c1 `sublist_of` c2 -> cache_ok ok c2 -> cache_ok ok c1.
Proof.
  intros Hs [Hn Hf]. split.
  - eapply sublist_NoDup; [exact Hn|]. clear -Hs. induction Hs; cbn [map]; by constructor.
  - apply Forall_forall. intros x Hx. eapply Forall_forall in Hf; [done|]. by eapply elem_of_sublist.
Qed.

Lemma cache_ok_impl {E} (ok1 ok2 : Segment E Ser.Hash -> Prop) c : (forall s, ok1 s -> ok2 s) -> cache_ok ok1 c -> cache_ok ok2 c.
Proof. intros Hi [Hn Hf]. split; [done|]. by eapply Forall_impl. Qed.

(** What always holds of the desegmenter of an archive header. *)
Record deseg_ok (h : BlockHeader) (d : Desegmenter) : Prop := {
  ok_header : archive_header d = h;
  ok_sizes : bitmap_mmr_sizes (output_mmr_size h) = Some (bitmap_mmr_leaf_count d, bitmap_mmr_size d);
  ok_bitmap : forall b, d_bitmap_cache d = Some b ->
    as_bitmap (d_accumulator d) = Some b /\ next_required_bitmap_segment_index d = None;
  ok_bitmaps : cache_ok (bitmap_segment_ok d) (bitmap_segment_cache d);
  ok_outputs : cache_ok (output_segment_ok d) (output_segment_cache d);
  ok_rangeproofs : cache_ok (rangeproof_segment_ok d) (rangeproof_segment_cache d);
  ok_kernels : cache_ok (kernel_segment_ok d) (kernel_segment_cache d);
}.
Definition state_ok (h : BlockHeader) (s : DS) : Prop := deseg_ok h (s_deseg s).

Lemma new_deseg_ok h g d : new_desegmenter h g = Some d -> deseg_ok h d.
Proof.
  unfold new_desegmenter. destruct (bitmap_mmr_sizes _) as [[lc sz]|] eqn:Es; [|done]. cbn. intros [= <-].
  split; try done; by split; [constructor|].
Qed.

Lemma on_chain_keeps {A} h (m : M US A) : keeps (state_ok h) (on_chain m).
Proof. apply keeps_focus. intros s Hs. split; [|by destruct s]. by intros u r u' _ _. Qed.

Lemma on_deseg_keeps h f : (forall d, deseg_ok h d -> deseg_ok h (f d)) -> keeps (state_ok h) (on_deseg f).
Proof. intros Hf. apply keeps_modify. intros s Hs. by apply Hf. Qed.

(** A segment that validates is added. *)
Lemma checked_keeps {X} h (r : result seg_stop X) f s res s' :
  state_ok h s -> (forall x, r = Ok x -> deseg_ok h (f (s_deseg s))) ->
  (lift_seg r ;* on_deseg f) s = Some (res, s') -> state_ok h s'.
Proof.
  intros Hs Hf. unfold bind, lift_seg, on_deseg, modify.
  destruct r as [x|[|e]]; [|done|]; intros E1; injection E1 as <- <-; [by eapply Hf|done].
Qed.

Lemma add_bitmap_keeps h seg root : keeps (state_ok h) (add_bitmap_segment seg root).
Proof.
  intros s res s' Hs. unfold add_bitmap_segment. cbv zeta. unfold bind at 1, asks. apply checked_keeps; [done|].
  intros [] Hv. destruct Hs. split; try done. apply cache_segment_ok; [done|]. by exists root.
Qed.

Lemma add_output_keeps h seg : keeps (state_ok h) (add_output_segment seg).
Proof.
  intros s res s' Hs. unfold add_output_segment. cbv zeta. unfold bind at 1, asks. unfold bind at 1, must.
  destruct (acc_root _) as [root|] eqn:Er; [|done]. apply checked_keeps; [done|].
  intros [] Hv. destruct Hs. split; try done. apply cache_segment_ok; [done|]. eexists _, root. split; [exact Hv|by right].
Qed.

Lemma add_rangeproof_keeps h seg : keeps (state_ok h) (add_rangeproof_segment seg).
Proof.
  intros s res s' Hs. unfold add_rangeproof_segment. cbv zeta. unfold bind at 1, asks. apply checked_keeps; [done|].
  intros [] Hv. destruct Hs. split; try done. apply cache_segment_ok; [done|]. eexists. split; [exact Hv|by right].
Qed.

Lemma add_kernel_keeps h seg : keeps (state_ok h) (add_kernel_segment seg).
Proof.
  intros s res s' Hs. unfold add_kernel_segment. cbv zeta. unfold bind at 1, asks. apply checked_keeps; [done|].
  intros [] Hv. destruct Hs. split; try done. by apply cache_segment_ok.
Qed.

(** While the bitmap is missing, nothing is known with it. *)
Definition collecting (h : BlockHeader) (s : DS) : Prop := state_ok h s /\ d_bitmap_cache (s_deseg s) = None.

Lemma collecting_set h d a b : deseg_ok h d -> d_bitmap_cache d = None ->
  (forall x, b = Some x -> as_bitmap a = Some x /\ next_required_bitmap_segment_index (set_d_accumulator a d) = None) ->
  deseg_ok h (set_d_bitmap b (set_d_accumulator a d)).
Proof.
  intros [] Ec Hb. split; try done.
  - eapply cache_ok_impl; [|done]. intros x (bm & o & Hv & Hor). exists bm, o. split; [done|left].
    destruct Hor as [?|[-> _]]; congruence.
  - eapply cache_ok_impl; [|done]. intros x (bm & Hv & Hor). exists bm. split; [done|left].
    destruct Hor as [?| ->]; congruence.
Qed.

Lemma append_chunks_keeps h l : keeps (collecting h) (append_chunks l).
Proof.
  apply keeps_each. intros c s res s' [Hs Hc]. unfold bind at 1, asks, bind at 1, lift.
  destruct (append_chunk _ c) as [a|e]; [|intros [= <- <-]; by split]. intros [= <- <-]. split; [|done].
  unfold state_ok. cbn [s_deseg]. apply (collecting_set h (s_deseg s) a None) in Hs; [|done|done].
  destruct (s_deseg s). cbn in Hc |- *. by rewrite Hc.
Qed.

Lemma finalize_keeps h s res s' : collecting h s -> next_required_bitmap_segment_index (s_deseg s) = None ->
  finalize_bitmap s = Some (res, s') -> state_ok h s'.
Proof.
  intros [Hs Hc] Hn. unfold finalize_bitmap. unfold bind at 1, asks, bind at 1, must.
  destruct (as_bitmap _) as [b|] eqn:Eb; [|done]. unfold bind at 1, on_deseg, modify.
  apply on_chain_keeps. unfold state_ok. cbn [s_deseg].
  apply (collecting_set h (s_deseg s) (d_accumulator (s_deseg s)) (Some b)) in Hs; [|done|].
  - by destruct (s_deseg s).
  - intros x [= <-]. split; [done|]. rewrite <- Hn. by destruct (s_deseg s).
Qed.

(** The three steps that apply what is ready. *)
Lemma apply_ready_keeps {E} h (next : DS -> option Z) (get : Desegmenter -> list (Segment E Ser.Hash)) set apply :
  (forall d c, deseg_ok h d -> c `sublist_of` get d -> deseg_ok h (set c d)) ->
  (forall l, keeps (state_ok h) (apply l)) -> keeps (state_ok h) (apply_ready next get set apply).
Proof.
  intros Hset Happ s res s' Hs. unfold apply_ready. unfold bind at 1, asks.
  destruct (next s) as [i|].
  - pose proof (take_batch_sublist (Z.to_nat SEGMENT_APPLY_BATCH_SIZE) (get (s_deseg s)) i) as Hsub.
    destruct (take_segment_batch _ _ _) as [segs c]. unfold bind, on_deseg, modify.
    apply Happ. by apply Hset.
  - destruct (_ <=? _); intros [= <- <-]; [|done]. apply Hset; [done|apply sublist_nil_l].
Qed.

Lemma apply_outputs_keeps h l : keeps (state_ok h) (apply_output_segments l).
Proof. destruct l; [apply keeps_ret|apply on_chain_keeps]. Qed.
Lemma apply_rangeproofs_keeps h l : keeps (state_ok h) (apply_rangeproof_segments l).
Proof. destruct l; [apply keeps_ret|apply on_chain_keeps]. Qed.
Lemma deseg_kernels_keeps h l : keeps (state_ok h) (apply_kernel_segments l).
Proof. destruct l; [apply keeps_ret|apply on_chain_keeps]. Qed.

Lemma apply_next_keeps h : keeps (state_ok h) apply_next_segments.
Proof.
  intros s res s' Hs. unfold apply_next_segments. unfold bind at 1, asks.
  destruct (next_required_bitmap_segment_index (s_deseg s)) as [i|] eqn:En.
  - assert (Hc : d_bitmap_cache (s_deseg s) = None).
    { destruct (d_bitmap_cache (s_deseg s)) as [b|] eqn:Eb; [|done]. apply (ok_bitmap _ _ Hs) in Eb as [_ Eb]. congruence. }
    destruct (remove_idx _ i) as [[seg c]|] eqn:Er; [|intros [= <- <-]; done].
    unfold apply_bitmap_segment, bind, on_deseg, modify. intros Happ.
    apply append_chunks_keeps with (h := h) in Happ; [apply Happ|]. split; [|done].
    apply remove_idx_sublist in Er as [Hsub _]. destruct Hs. split; try done. cbn. by eapply cache_ok_sublist.
  - assert (Hrest : keeps (state_ok h) (
      apply_ready next_required_output_segment_index output_segment_cache set_output_segments apply_output_segments ;*
      apply_ready next_required_rangeproof_segment_index rangeproof_segment_cache set_rangeproof_segments apply_rangeproof_segments ;*
      apply_ready next_required_kernel_segment_index kernel_segment_cache set_kernel_segments apply_kernel_segments)).
    { apply keeps_bind; [|intros []; apply keeps_bind; [|intros []]]; apply apply_ready_keeps;
        auto using apply_outputs_keeps, apply_rangeproofs_keeps, deseg_kernels_keeps;
        intros d c [] Hsub; split; try done; cbn; by eapply cache_ok_sublist. }
    unfold bind at 1. destruct (d_bitmap_cache (s_deseg s)) as [b|] eqn:Ec.
    + unfold ret at 1. by apply Hrest.
    + destruct (finalize_bitmap s) as [[[[]|e] s1]|] eqn:Ef; [|intros [= <- <-]|done];
        eapply finalize_keeps in Ef; try (by split); [|done|done|done]. by apply Hrest.
Qed.

Lemma next_desired_keeps h max : keeps (state_ok h) (next_desired_segments max).
Proof.
  apply keeps_bind; [apply keeps_asks|intros s]. destruct (d_bitmap_cache _); [|apply keeps_ret].
  apply keeps_bind; [|intros []; apply keeps_ret]. destruct (desired_segments _ _); [|apply keeps_ret].
  by apply on_deseg_keeps; intros d [].
Qed.

Lemma check_progress_keeps h : keeps (state_ok h) (check_progress ct).
Proof.
  apply keeps_bind; [apply keeps_asks|intros s]. apply keeps_bind; [apply keeps_must|intros [x|]]; [|apply keeps_ret].
  apply keeps_bind; [by apply on_deseg_keeps; intros d []|intros []].
  apply keeps_bind; [apply keeps_must|intros t]. apply keeps_bind; [apply on_chain_keeps|intros []; apply keeps_ret].
Qed.

Lemma validate_complete_keeps h : keeps (state_ok h) (validate_complete_state ct).
Proof.
  unfold validate_complete_state. do 2 (apply keeps_bind; [apply keeps_asks|intros ?]). cbv zeta.
  repeat (apply keeps_bind; [apply keeps_must || apply keeps_lift|intros ?]). apply on_chain_keeps.
Qed.

(** What the node does with a desegmenter. *)
Inductive DesegCall : Type :=
| AddBitmap (segment : Segment BitmapChunk Ser.Hash) (output_root : Ser.Hash)
| AddOutput (segment : Segment OutputIdentifier Ser.Hash)
| AddRangeProof (segment : Segment RangeProof Ser.Hash)
| AddKernel (segment : Segment TxKernel Ser.Hash)
| ApplyNext
| NextDesired (max_elements : Z)
| CheckProgress
| CheckUpdateLeafSet
| ValidateComplete
| ResetState.

Definition run_call (c : DesegCall) : M DS unit :=
  match c with
  | AddBitmap x r => add_bitmap_segment x r
  | AddOutput x => add_output_segment x
  | AddRangeProof x => add_rangeproof_segment x
  | AddKernel x => add_kernel_segment x
  | ApplyNext => apply_next_segments
  | NextDesired n => next_desired_segments n ;* ret tt
  | CheckProgress => check_progress ct ;* ret tt
  | CheckUpdateLeafSet => check_update_leaf_set_state
  | ValidateComplete => validate_complete_state ct
  | ResetState => fun s => match reset (s_deseg s) with Some d => Some (Ok tt, mkDS d (s_us s)) | None => None end
  end.

(** The states of a desegmenter of [h]. The chain it shares changes in between. *)
Inductive deseg_reachable (h genesis : BlockHeader) : DS -> Prop :=
| deseg_start d u : new_desegmenter h genesis = Some d -> deseg_reachable h genesis (mkDS d u)
| deseg_call c s r s' : deseg_reachable h genesis s -> run_call c s = Some (r, s') -> deseg_reachable h genesis s'
| deseg_chain s u : deseg_reachable h genesis s -> deseg_reachable h genesis (mkDS (s_deseg s) u).

Lemma run_call_keeps h c : keeps (state_ok h) (run_call c).
Proof.
  destruct c; cbn [run_call];
    auto using add_bitmap_keeps, add_output_keeps, add_rangeproof_keeps, add_kernel_keeps, apply_next_keeps, validate_complete_keeps.
  - apply keeps_bind; [apply next_desired_keeps|intros _; apply keeps_ret].
  - apply keeps_bind; [apply check_progress_keeps|intros _; apply keeps_ret].
  - apply keeps_bind; [apply keeps_asks|intros d]. apply on_chain_keeps.
  - intros s r s' Hs. destruct (reset _) as [d|] eqn:Er; [|done]. intros [= <- <-].
    unfold reset in Er. apply new_deseg_ok in Er. by rewrite (ok_header _ _ Hs) in Er.
Qed.

(** C17. Whatever the peers send and in whatever order the sync proceeds, the
    caches hold each segment once and only segments that were proved against
    the roots of the archive header: bitmap segments against the output root
    with some root of the outputs, and the others with the bitmap, if there was
    one, which is the one that the finished accumulator stands for. *)
Theorem segment_caches_sound h genesis s : deseg_reachable h genesis s ->
  let d := s_deseg s in
  archive_header d = h /\
  cache_ok (bitmap_segment_ok d) (bitmap_segment_cache d) /\
  cache_ok (output_segment_ok d) (output_segment_cache d) /\
  cache_ok (rangeproof_segment_ok d) (rangeproof_segment_cache d) /\
  cache_ok (kernel_segment_ok d) (kernel_segment_cache d) /\
  (forall b, d_bitmap_cache d = Some b ->
     as_bitmap (d_accumulator d) = Some b /\ next_required_bitmap_segment_index d = None).
Proof.
  intros Hr. assert (Hs : state_ok h s).
  { induction Hr as [d u Hd|c s r s' _ IH Hc|s u _ IH]; [by eapply new_deseg_ok|by eapply run_call_keeps|done]. }
  destruct Hs. by split_and!.
Qed.
End caching.

(** A batch that is applied is a run of segments: their indices follow each
    other from the one that is needed, there are at most as many as allowed, and
    fewer only when the next one is not in the cache; the cache keeps the other
    segments. *)
Theorem segment_batch_is_run {E} (cache : list (Segment E Ser.Hash)) n i batch rest :
  0 <= i -> i + Z.of_nat n < 2 ^ 64 -> take_segment_batch n cache i = (batch, rest) ->
  map (fun s => idx (Segments.identifier s)) batch = seqZ i (Z.of_nat (length batch)) /\
  cache ≡ₚ batch ++ rest /\ (length batch <= n)%nat /\
  ((length batch < n)%nat -> forall s, s ∈ rest -> idx (Segments.identifier s) <> i + Z.of_nat (length batch)).
Proof.
  revert cache i batch rest. induction n as [|n IH]; intros cache i batch rest Hi Hn; cbn [take_segment_batch].
  { intros [= <- <-]. split_and!; [done|done|simpl; lia|simpl; lia]. }
  destruct (remove_idx cache i) as [[s c]|] eqn:Er.
  - apply remove_idx_sublist in Er as (_ & Hp & Hidx). rewrite add64_small by (unfold_words; lia).
    destruct (take_segment_batch n c (i + 1)) as [b r] eqn:Eb. intros [= <- <-].
    destruct (IH c (i + 1) b r) as (H1 & H2 & H3 & H4); [lia|lia|done|].
    split_and!; [|by rewrite Hp, H2|simpl; lia|].
    + cbn [map length]. rewrite H1, Hidx, Nat2Z.inj_succ, (seqZ_cons i) by lia.
      f_equal. by rewrite Z.pred_succ.
    + cbn [length]. intros Hl x Hx. rewrite Nat2Z.inj_succ. pose proof (H4 ltac:(lia) x Hx) as H5. lia.
  - intros [= <- <-]. split_and!; [done|done|simpl; lia|]. intros _ s Hs.
    replace (i + Z.of_nat (length [])) with i by (simpl; lia). by eapply remove_idx_None in Er.
Qed.

(** ** Leaves outside the range *)

Section foreign.
Context {T E H : Type} {PH : PMMRHash T H} {BM : Type} {HB : Bitmap BM} (elmt_hash : E -> Z -> H).
Implicit Types (s : Segment E H) (bitmap : option BM).

Lemma find_leaf_app (pos0 p : Z) (x : E) lv : p <> pos0 ->
  fst (find_leaf pos0 (lv ++ [(p, x)])) = fst (find_leaf pos0 lv) /\
  (fst (find_leaf pos0 lv) <> None -> snd (find_leaf pos0 (lv ++ [(p, x)])) = snd (find_leaf pos0 lv) ++ [(p, x)]).
Proof.
  intros Hne. induction lv as [|[q y] lv IH]; cbn [app find_leaf].
  - by destruct (Z.eqb_spec p pos0).
  - by destruct (q =? pos0).
Qed.

(** The loop of [root] leaves such a leaf over. *)
Lemma root_loop_foreign s sz bitmap p x l lv st : p ∉ l ->
  root_loop (T := T) elmt_hash (push_leaf s p x) sz bitmap (lv ++ [(p, x)], st) l =
    (let? (lv, st) := root_loop (T := T) elmt_hash s sz bitmap (lv, st) l in Ok (lv ++ [(p, x)], st)).
Proof.
  revert lv st. induction l as [|pos0 l IH]; intros lv st Hp; cbn [root_loop]; [done|].
  apply not_elem_of_cons in Hp as [Hne Hp]. unfold root_step.
  destruct (_ =? 0).
  - destruct (leaf_required _ _ _); [|by apply IH].
    destruct (find_leaf_app pos0 p x lv Hne) as [E1 E2].
    destruct (find_leaf pos0 (lv ++ [(p, x)])) as [d1 r1], (find_leaf pos0 lv) as [d2 r2]. cbn [fst snd] in E1, E2. subst d1.
    destruct d2 as [y|]; [|done]. cbn [expect_or ok_or rbind]. rewrite E2 by done. by apply IH.
  - destruct st as [|a [|b st]]; [done|done|].
    change (parent_hash (T := T) (push_leaf s p x)) with (parent_hash (T := T) s).
    destruct (parent_hash _ _ _ _ _ _); [|done]. by apply IH.
Qed.

Lemma seg_root_foreign s sz bitmap p x :
  length (leaf_pos s) = length (leaf_data s) ->
  (let '(first, last) := segment_pos_range (Segments.identifier s) sz in p ∉ range_incl first last) ->
  seg_root (T := T) elmt_hash (push_leaf s p x) sz bitmap = seg_root (T := T) elmt_hash s sz bitmap.
Proof.
  intros El Hp. unfold seg_root.
  change (Segments.identifier (push_leaf s p x)) with (Segments.identifier s).
  assert (Elv : leaf_iter (push_leaf s p x) = leaf_iter s ++ [(p, x)])
    by (unfold leaf_iter; cbn [leaf_pos leaf_data push_leaf]; by rewrite zip_with_app).
  destruct (segment_pos_range _ _) as [first last]. rewrite Elv, root_loop_foreign by done.
  destruct (root_loop _ s _ _ _ _) as [[lv st]|e]; [|done]. cbn [rbind].
  destruct (full_segment _ _); [done|].
  assert (Eb : forall ps st h, bag_loop (T := T) (push_leaf s p x) sz bitmap ps st h = bag_loop (T := T) s sz bitmap ps st h).
  { clear. induction ps as [|q ps IH]; intros st h; cbn [bag_loop]; [done|]. destruct st as [|a st]; [done|].
    change (Segments.get_hash (push_leaf s p x)) with (Segments.get_hash s). destruct (if _ && _ then _ else _); [|done]. cbn [rbind].
    destruct (expect_or _ _); [|done]. apply IH. }
  by rewrite Eb.
Qed.

Lemma first_unpruned_foreign s sz bitmap p x :
  length (leaf_pos s) = length (leaf_data s) ->
  (let '(first, last) := segment_pos_range (Segments.identifier s) sz in p ∉ range_incl first last) ->
  first_unpruned_parent (T := T) elmt_hash (push_leaf s p x) sz bitmap = first_unpruned_parent (T := T) elmt_hash s sz bitmap.
Proof.
  intros El Hp. unfold first_unpruned_parent. rewrite seg_root_foreign by done.
  change (Segments.identifier (push_leaf s p x)) with (Segments.identifier s).
  destruct (seg_root _ _ _ _) as [o|]; [|done]. cbn [rbind]. destruct (segment_pos_range _ _) as [first last]. destruct o; [done|].
  destruct (unwrap bitmap) as [b|]; [|done]. cbn [rbind].
  generalize (family_branch last sz) (n_leaves sz). intros branch nl. revert last Hp.
  assert (Eu : forall branch pos0, unpruned_loop (push_leaf s p x) b nl pos0 branch = unpruned_loop s b nl pos0 branch).
  { clear. induction branch as [|[q r] branch IH]; intros pos0; cbn [unpruned_loop];
      change (Segments.get_hash (push_leaf s p x)) with (Segments.get_hash s); destruct (Segments.get_hash s pos0); try done.
    destruct (_ =? 0); [apply IH|done]. }
  intros. apply Eu.
Qed.

Lemma validate_with_foreign s sz bitmap p x rt hp other left :
  length (leaf_pos s) = length (leaf_data s) ->
  (let '(first, last) := segment_pos_range (Segments.identifier s) sz in p ∉ range_incl first last) ->
  validate_with (T := T) elmt_hash (push_leaf s p x) sz bitmap rt hp other left =
    validate_with (T := T) elmt_hash s sz bitmap rt hp other left.
Proof.
  intros El Hp. unfold validate_with. rewrite first_unpruned_foreign by done. done.
Qed.
End foreign.

Section foreign_chunks.
Context {CR : Crypto} {SU : SortUnstable} {NF : NrdFlag} (ct : ChainTypes).
Context {MH : Mmr BlockHeader HeaderEntry} {MO : Mmr OutputIdentifier OutputIdentifier}.
Context {MR : Mmr RangeProof RangeProof} {MK : Mmr TxKernel TxKernel}.

Lemma append_chunks_spec cs d u l :
  holds (d_accumulator d) l -> Z.of_nat (length l + length cs) + 1 < 2 ^ 60 ->
  exists a, append_chunks cs (mkDS d u) = Some (Ok tt, mkDS (set_d_accumulator a d) u) /\ holds a (l ++ cs).
Proof.
  revert d l. induction cs as [|c cs IH]; intros d l Hl Hlen; cbn [length] in Hlen.
  { exists (d_accumulator d). rewrite app_nil_r. split; [|done]. by destruct d. }
  destruct (append_chunk_holds (d_accumulator d) l c Hl ltac:(lia)) as (a & Ea & Ha).
  destruct (IH (set_d_accumulator a d) (l ++ [c])) as (a' & E1 & H1); [done|rewrite length_app; cbn [length]; lia|].
  exists a'. rewrite <- app_assoc in H1. split; [|done].
  unfold append_chunks in *. cbn [each]. unfold bind at 1 2 3, asks, lift. cbn [s_deseg]. rewrite Ea.
  exact E1.
Qed.

(** C27. What a segment carries besides the leaves of its range is not looked at
    when it is checked, and all of it is applied: to a bitmap segment that
    belongs to the archive header, and is the next one, a peer can add a chunk
    of its own, and the chunk ends up in the accumulator. *)
Theorem foreign_chunk_applied d u seg root s1 pos x l :
  add_bitmap_segment seg root (mkDS d u) = Some (Ok tt, s1) ->
  length (leaf_pos seg) = length (leaf_data seg) ->
  (let '(first, last) := segment_pos_range (Segments.identifier seg) (bitmap_mmr_size d) in pos ∉ range_incl first last) ->
  next_required_bitmap_segment_index d = Some (idx (Segments.identifier seg)) ->
  (forall s, s ∈ bitmap_segment_cache d -> idx (Segments.identifier s) <> idx (Segments.identifier seg)) ->
  holds (d_accumulator d) l -> Z.of_nat (length l + length (leaf_data seg)) + 2 < 2 ^ 60 ->
  exists d', (add_bitmap_segment (push_leaf seg pos x) root ;* apply_next_segments) (mkDS d u) =
      Some (Ok tt, mkDS d' u) /\
    holds (d_accumulator d') (l ++ leaf_data seg ++ [x]) /\ bitmap_segment_cache d' = bitmap_segment_cache d.
Proof.
  intros Hadd El Hpos Hnext Hno Hl Hlen. unfold bind at 1. unfold add_bitmap_segment in *. cbv zeta in *.
  unfold bind, asks in Hadd. unfold bind at 1, asks at 1. cbn [s_deseg] in *.
  rewrite validate_with_foreign by done.
  destruct (validate_with _ _ _ _ _ _ _ _) as [[]|[|e]]; [|done|done]. clear Hadd. cbn [lift_seg]. unfold bind at 1.
  unfold on_deseg at 1, modify. cbn [s_deseg s_us lift_seg].
  set (d1 := set_bitmap_segments (cache_segment (bitmap_segment_cache d) (push_leaf seg pos x)) d).
  assert (Ec : cache_segment (bitmap_segment_cache d) (push_leaf seg pos x) = bitmap_segment_cache d ++ [push_leaf seg pos x]).
  { unfold cache_segment. destruct (has_segment_with_id _ _) eqn:Eh; [|done]. exfalso.
    apply has_segment_spec, elem_of_map in Eh as (y & Ey & Hy). apply (Hno y Hy). by rewrite <- Ey. }
  assert (Er : forall c, (forall s, s ∈ c -> idx (Segments.identifier s) <> idx (Segments.identifier seg)) ->
    remove_idx (c ++ [push_leaf seg pos x]) (idx (Segments.identifier seg)) = Some (push_leaf seg pos x, c)).
  { clear. induction c as [|y c IH]; intros Hc; cbn [app remove_idx].
    - cbn [push_leaf Segments.identifier]. by rewrite Z.eqb_refl.
    - destruct (Z.eqb_spec (idx (Segments.identifier y)) (idx (Segments.identifier seg))) as [E1|];
        [by destruct (Hc y ltac:(by left))|]. rewrite IH; [done|]. intros z Hz. apply Hc. by right. }
  unfold apply_next_segments, bind at 1, asks. cbn [s_deseg].
  change (next_required_bitmap_segment_index d1) with (next_required_bitmap_segment_index d). rewrite Hnext.
  change (bitmap_segment_cache d1) with (cache_segment (bitmap_segment_cache d) (push_leaf seg pos x)).
  rewrite Ec, Er by done. unfold apply_bitmap_segment, bind, on_deseg, modify. cbn [s_deseg s_us].
  destruct (append_chunks_spec (leaf_data seg ++ [x]) (set_bitmap_segments (bitmap_segment_cache d) d1) u l) as (a & E1 & Ha);
    [done|rewrite length_app; cbn [length]; lia|].
  eexists. split; [exact E1|]. split; [exact Ha|done].
Qed.
End foreign_chunks.
