(* ===== verification/StateSync.v ===== *)
(** Two nodes that sync.

    The rounds in which a node gets the kernels of another one, segment by
    segment, and the samples to which the theorems on the desegmenter are
    applied: a node with MMRs in memory, headers with a few thousand outputs and
    a bitmap of two chunks. *)

From Stdlib Require Import ZArith Lia.
From stdpp Require Import base numbers option sorting gmap list.
From S2P Require Import Prelude Segments SegmentSpec SegmentServe Consensus PmmrIndex Pmmr Ser LinkedList Kernel CutThrough Transaction PowTypes Block Bitmap ChainTypes.
From S2P Require Import ChainStore BitmapAccumulator TxHashSet Pipe Chain Desegmenter SyncState SyncSpec DesegmenterSpec ChainSpec.
Open Scope Z_scope.

(** ** Kernels, from one node to another *)

Section kernel_sync.
Context {CR : Crypto} {SU : SortUnstable} {NF : NrdFlag}.
Context {MH : Mmr BlockHeader HeaderEntry} {MO : Mmr OutputIdentifier OutputIdentifier}.
Context {MR : Mmr RangeProof RangeProof} {MK : Mmr TxKernel TxKernel} {BL : BackendLaws TxKernel TxKernel Ser.Hash (mmr TxKernel TxKernel)}.

(** The rounds of a node that is behind with a node that serves it: ask for the
    segment that is needed next, cut it, check it, apply it. *)
Fixpoint kernel_rounds (rounds : nat) (server : PMMR (mmr TxKernel TxKernel)) (kernel_root : Ser.Hash) : M EX unit :=
  match rounds with
  | O => ret tt
  | S rounds =>
      let* p := asks (fun s => kernel_pmmr (x_ext s)) in
      match next_required_segment_index (size p) (size server) KERNEL_SEGMENT_HEIGHT with
      | Some i =>
          let* seg := lift_seg (from_pmmr (T := TxKernel) (mkId KERNEL_SEGMENT_HEIGHT i) server false) in
          lift_seg (Segments.validate (T := TxKernel) (BM := gset Z) (fun x i => leaf_hash x i) seg (size server) None kernel_root) ;*
          apply_kernel_segment (leaf_pos seg) (leaf_data seg) ;*
          kernel_rounds rounds server kernel_root
      | None => ret tt
      end
  end.

(** Where the leaves of a segment go: all of them, in order, but for the genesis. *)
Definition leaf_nodes (a : Z) (ks : list nat) : list OrderedHashLeafNode :=
  map (fun k => LeafNode k (npos 0 (a + Z.of_nat k))) ks.

Lemma leaf_nodes_sorted a i c : 0 <= a -> StronglySorted node_le (leaf_nodes a (seq i c)).
Proof.
  intros Ha. revert i. induction c as [|c IH]; intros i; cbn [seq leaf_nodes map]; constructor; [apply IH|].
  apply Forall_forall. intros x (k & -> & Hk%elem_of_seq)%elem_of_map. unfold node_le. cbn [node_pos0].
  apply Z.lt_le_incl, npos0_mono. lia.
Qed.

Lemma zip_positions a i c :
  zip (seq i c) (map (npos 0) (seqZ (a + Z.of_nat i) (Z.of_nat c))) = map (fun k => (k, npos 0 (a + Z.of_nat k))) (seq i c).
Proof.
  revert i. induction c as [|c IH]; intros i; [done|].
  rewrite Nat2Z.inj_succ, seqZ_cons, Z.pred_succ by lia. cbn [seq map zip zip_with]. f_equal.
  rewrite <- IH. f_equal. f_equal. f_equal. lia.
Qed.

Lemma sort_leaves a c : 0 <= a -> a + Z.of_nat c < 2 ^ 60 ->
  sort_pmmr_hashes_and_leaves [] (map (npos 0) (seqZ a (Z.of_nat c))) (Some 0) =
    leaf_nodes a (if a =? 0 then seq 1 (pred c) else seq 0 c).
Proof.
  intros Ha Hc. unfold sort_pmmr_hashes_and_leaves. cbn [length seq zip zip_with map]. rewrite app_nil_r, length_map, length_seqZ, Nat2Z.id.
  pose proof (zip_positions a 0 c) as Ez. rewrite Z.add_0_r in Ez. rewrite Ez. clear Ez.
  assert (Eo : omap (fun '(data_index, pos0) =>
      if bool_decide (Some 0 = Some pos0) then None else Some (LeafNode data_index pos0))
      (map (fun k => (k, npos 0 (a + Z.of_nat k))) (seq 0 c)) = leaf_nodes a (if a =? 0 then seq 1 (pred c) else seq 0 c)).
  { assert (Hall : forall ks, (forall k, k ∈ ks -> 0 < a + Z.of_nat k) -> omap (fun '(data_index, pos0) =>
      if bool_decide (Some 0 = Some pos0) then None else Some (LeafNode data_index pos0))
      (map (fun k => (k, npos 0 (a + Z.of_nat k))) ks) = leaf_nodes a ks).
    { induction ks as [|k ks IH]; intros Hk; [done|]. cbn [map omap list_omap].
      pose proof (Hk k ltac:(by left)). pose proof (npos0_mono 0 (a + Z.of_nat k) ltac:(lia)). change (npos 0 0) with 0 in *.
      rewrite bool_decide_eq_false_2 by (intros [= E0]; lia). cbn [leaf_nodes map]. f_equal. apply IH.
      intros x Hx. apply Hk. by right. }
    destruct (Z.eqb_spec a 0) as [->|Hne].
    - destruct c as [|c]; [done|]. cbn [seq map pred omap list_omap]. change (npos 0 (0 + Z.of_nat 0)) with 0.
      rewrite bool_decide_eq_true_2 by done. apply Hall. intros k Hk%elem_of_seq. lia.
    - apply Hall. intros k _. lia. }
  etransitivity; [apply (f_equal (merge_sort node_le)); exact Eo|].
  assert (Hs : StronglySorted node_le (leaf_nodes a (if a =? 0 then seq 1 (pred c) else seq 0 c)))
    by (destruct (a =? 0); by apply leaf_nodes_sorted).
  assert (Htrans : Transitive node_le) by (intros x y z; unfold node_le; lia).
  assert (Htot : Total node_le) by (intros x y; unfold node_le; lia).
  apply (StronglySorted_unique_strong node_le); [|by apply StronglySorted_merge_sort|done|by apply merge_sort_Permutation].
  intros x y Hx Hy H1 H2. rewrite merge_sort_Permutation in Hx.
  apply elem_of_map in Hx as (k & -> & _). apply elem_of_map in Hy as (k' & -> & _).
  unfold node_le in *. cbn [node_pos0] in *.
  destruct (Z.lt_trichotomy (Z.of_nat k) (Z.of_nat k')) as [Hlt|[E0|Hlt]];
    [pose proof (npos0_mono (a + Z.of_nat k) (a + Z.of_nat k') ltac:(lia)); lia| |
     pose proof (npos0_mono (a + Z.of_nat k') (a + Z.of_nat k) ltac:(lia)); lia].
  by apply Nat2Z.inj in E0 as ->.
Qed.

Lemma kernel_loop_spec data a i j s l :
  Pmmr.rep (kernel_pmmr (x_ext s)) l -> 0 <= a -> (i + j = length data)%nat ->
  a + Z.of_nat i <= Z.of_nat (length l) ->
  a + Z.of_nat (length data) < 2 ^ 59 -> Z.of_nat (length l) < 2 ^ 59 ->
  exists p, kernel_segment_loop data (leaf_nodes a (seq i j)) s =
      Some (Ok tt, mkEX (x_header s) (set_kernel_pmmr p (x_ext s)) (x_batch s)) /\
    Pmmr.rep p (l ++ drop (length l - Z.to_nat a) data).
Proof.
  revert i s l. induction j as [|j IH]; intros i s l Hrep Ha Hij Hil Hd Hl; cbn [seq leaf_nodes map kernel_segment_loop].
  - exists (kernel_pmmr (x_ext s)). rewrite drop_ge, app_nil_r by lia. split; [|done]. destruct s as [h e b]. by destruct e.
  - unfold bind at 1, asks. pose proof Hrep as [(Es & _) _]. rewrite Es.
    destruct (Z.eqb_spec (npos 0 (a + Z.of_nat i)) (npos 0 (Z.of_nat (length l)))) as [E0|E0].
    + assert (Eil : a + Z.of_nat i = Z.of_nat (length l)).
      { pose proof (npos0_ge (Z.of_nat (length l)) ltac:(lia)). destruct (npos_inj 0 (a + Z.of_nat i) 0 (Z.of_nat (length l))) as [_ ?]; lia. }
      destruct (lookup_lt_is_Some_2 data i) as [x Hx]; [lia|]. rewrite Hx.
      destruct (push_rep _ l x Hrep ltac:(lia)) as (p & Ep & Hp).
      unfold bind at 1. unfold bind at 1, must. unfold bind at 1, lift, tx_err. rewrite Ep. cbn [lift].
      unfold on_ext, modify.
      destruct (IH (S i) (mkEX (x_header s) (set_kernel_pmmr p (x_ext s)) (x_batch s)) (l ++ [x])) as (p' & E1 & H1);
        [done|done|lia|rewrite length_app; cbn [length]; lia|done|rewrite length_app; cbn [length]; lia|].
      exists p'. split; [exact E1|]. rewrite length_app in H1. cbn [length] in H1.
      replace (length l + 1 - Z.to_nat a)%nat with (S i) in H1 by lia. replace (length l - Z.to_nat a)%nat with i by lia.
      rewrite <- app_assoc in H1. by rewrite (drop_S data x i Hx).
    + assert (a + Z.of_nat i <> Z.of_nat (length l)) by (intros E1; by rewrite E1 in E0).
      unfold bind at 1, ret. apply IH; [done..|lia|lia|lia|lia].
Qed.

Lemma apply_kernel_segment_spec data a s l :
  Pmmr.rep (kernel_pmmr (x_ext s)) l -> 0 <= a <= Z.of_nat (length l) -> (1 <= length l)%nat ->
  a + Z.of_nat (length data) < 2 ^ 59 -> Z.of_nat (length l) < 2 ^ 59 ->
  exists p, apply_kernel_segment (map (npos 0) (seqZ a (Z.of_nat (length data)))) data s =
      Some (Ok tt, mkEX (x_header s) (set_kernel_pmmr p (x_ext s)) (x_batch s)) /\
    Pmmr.rep p (l ++ drop (length l - Z.to_nat a) data).
Proof.
  intros Hrep Ha H1 Hd Hl. unfold apply_kernel_segment. rewrite sort_leaves by lia.
  destruct (Z.eqb_spec a 0) as [->|]; [|apply kernel_loop_spec; [done|lia..]].
  destruct data as [|x data]; [cbn [length pred seq leaf_nodes map kernel_segment_loop]|].
  - exists (kernel_pmmr (x_ext s)). rewrite drop_nil, app_nil_r. split; [|done]. destruct s as [h e b]. by destruct e.
  - cbn [length pred]. apply kernel_loop_spec; [done|cbn [length] in *; lia..].
Qed.

Lemma take_segment_spec {A} (ks : list A) m a c : (a <= m <= a + c)%nat ->
  take m ks ++ drop (m - a) (take c (drop a ks)) = take (a + c) ks.
Proof.
  intros Hm. rewrite take_drop_commute, drop_drop. replace (a + (m - a))%nat with m by lia.
  rewrite <- (take_drop m (take (a + c) ks)) at 2. f_equal. rewrite take_take. f_equal. lia.
Qed.

(** One round of a node with [m] of the kernels. *)
Lemma kernel_round server ks m rounds s :
  Pmmr.view server ks -> has_data id server ks ->
  Pmmr.rep (kernel_pmmr (x_ext s)) (take m ks) -> (1 <= m < length ks)%nat -> Z.of_nat (length ks) < 2 ^ 58 ->
  let i := Z.of_nat m / 2048 in
  exists p, kernel_rounds (S rounds) server (mmr_root ks) s =
      kernel_rounds rounds server (mmr_root ks) (mkEX (x_header s) (set_kernel_pmmr p (x_ext s)) (x_batch s)) /\
    Pmmr.rep p (take (Z.to_nat (Z.min (Z.of_nat (length ks)) (2048 * (i + 1)))) ks).
Proof.
  intros Hview Hdata Hrep Hm Hn i. set (n := Z.of_nat (length ks)) in *. assert (En : n = Z.of_nat (length ks)) by done.
  pose proof (Z.div_mod (Z.of_nat m) 2048 ltac:(lia)) as Hdm. pose proof (Z.mod_pos_bound (Z.of_nat m) 2048 ltac:(lia)).
  fold i in Hdm. assert (Hi : 0 <= i) by (apply Z.div_pos; lia).
  assert (Hok : seg_ok (mkId KERNEL_SEGMENT_HEIGHT i) n).
  { split; cbn [Segments.height Segments.idx]; change (2 ^ KERNEL_SEGMENT_HEIGHT) with 2048; unfold KERNEL_SEGMENT_HEIGHT; lia. }
  destruct (served id (fun x i => leaf_hash x i) (fun _ _ => eq_refl) server ks (mkId KERNEL_SEGMENT_HEIGHT i)
    (None : option (gset Z)) Hview Hdata Hok) as (seg & Eseg & Hon & Hv); [cbn [Segments.height]; unfold KERNEL_SEGMENT_HEIGHT; lia|].
  destruct (honest_leaves id ks _ seg false Hok) as [Elp Eld]; [cbn [Segments.height]; unfold KERNEL_SEGMENT_HEIGHT; lia|exact Hon|].
  cbn [Segments.height Segments.idx] in Elp, Eld. change (2 ^ KERNEL_SEGMENT_HEIGHT) with 2048 in *. fold n in Elp, Eld.
  set (c := Z.min n (2048 * (i + 1)) - 2048 * i) in *. rewrite list_fmap_id in Eld.
  assert (Ec : Z.of_nat (length (leaf_data seg)) = c) by (rewrite Eld, length_take, length_drop; lia).
  destruct (apply_kernel_segment_spec (leaf_data seg) (2048 * i) s (take m ks) Hrep) as (p & Ea & Hp);
    [rewrite length_take; lia|rewrite length_take; lia|lia|rewrite length_take; lia|].
  exists p. split.
  - cbn [kernel_rounds]. unfold bind at 1, asks. destruct Hrep as [(Es & _) _]. pose proof Hview as (Es' & _). rewrite Es, Es'.
    rewrite length_take. replace (Z.of_nat (m `min` length ks)) with (Z.of_nat m) by lia. fold n.
    unfold KERNEL_SEGMENT_HEIGHT at 1. rewrite next_required_npos by lia. destruct (Z.eqb_spec (Z.of_nat m) n); [lia|]. cbn [andb].
    change (2 ^ 11) with 2048. fold i. change (is_some (None : option (gset Z))) with false in Eseg.
    rewrite Eseg. unfold bind at 1, lift_seg at 1. fold n in Es'. rewrite <- Es', Hv. unfold bind at 1, lift_seg at 1.
    unfold bind. rewrite <- Ec in Elp. by rewrite Elp, Ea.
  - rewrite Eld, length_take in Hp. replace (m `min` length ks)%nat with m in Hp by lia.
    rewrite take_segment_spec in Hp by lia.
    by replace (Z.to_nat (Z.min n (2048 * (i + 1)))) with (Z.to_nat (2048 * i) + Z.to_nat c)%nat by lia.
Qed.

Lemma kernel_rounds_spec server ks m rounds s :
  Pmmr.view server ks -> has_data id server ks ->
  Pmmr.rep (kernel_pmmr (x_ext s)) (take m ks) -> (1 <= m <= length ks)%nat -> 2 <= Z.of_nat (length ks) < 2 ^ 58 ->
  m = length ks \/ Z.of_nat (length ks) <= 2048 * (Z.of_nat m / 2048 + Z.of_nat rounds) ->
  exists p, kernel_rounds rounds server (mmr_root ks) s =
      Some (Ok tt, mkEX (x_header s) (set_kernel_pmmr p (x_ext s)) (x_batch s)) /\ Pmmr.rep p ks.
Proof.
  intros Hview Hdata. revert m s. induction rounds as [|rounds IH]; intros m s Hrep Hm Hn Hr.
  - pose proof (Z.mul_div_le (Z.of_nat m) 2048 ltac:(lia)).
    exists (kernel_pmmr (x_ext s)). rewrite take_ge in Hrep by lia. split; [|done]. destruct s as [h e b]. by destruct e.
  - destruct (decide (m = length ks)) as [->|Hne].
    + rewrite take_ge in Hrep by lia. exists (kernel_pmmr (x_ext s)). split; [|done]. cbn [kernel_rounds].
      unfold bind at 1, asks. destruct Hrep as [(Es & _) _]. pose proof Hview as (Es' & _). rewrite Es, Es'.
      unfold KERNEL_SEGMENT_HEIGHT at 1. rewrite next_required_npos by lia. rewrite Z.eqb_refl.
      destruct (Z.eqb_spec (Z.of_nat (length ks)) 1); [lia|]. cbn [andb negb]. destruct s as [h e b]. by destruct e.
    + destruct (kernel_round server ks m rounds s Hview Hdata Hrep) as (p & Ep & Hp); [lia|lia|]. rewrite Ep.
      pose proof (Z.div_pos (Z.of_nat m) 2048 ltac:(lia) ltac:(lia)).
      destruct (IH _ (mkEX (x_header s) (set_kernel_pmmr p (x_ext s)) (x_batch s)) Hp) as (p' & E1 & H1);
        [lia|done| |by exists p'].
      destruct Hr as [?|Hr]; [lia|].
      destruct (Z.le_gt_cases (Z.of_nat (length ks)) (2048 * (Z.of_nat m / 2048 + 1))); [left; lia|right].
      rewrite Z.min_r, Z2Nat.id by lia.
      replace (2048 * (Z.of_nat m / 2048 + 1) / 2048) with (Z.of_nat m / 2048 + 1) by (rewrite Z.mul_comm, Z.div_mul; lia). lia.
Qed.

(** C14. Two honest nodes bring the kernels across: a node whose kernel MMR is a
    part of that of another one, with the genesis at least, asks for the segment
    that is needed next, the other one can cut it, it validates against the
    root, and applying it appends the kernels that are missing; after as many
    rounds as there are segments, from wherever it started, the node has all
    the kernels and the root of the other, and asks for nothing more. Nothing
    else of the extension changes. *)
Theorem kernel_sync_completes server ks m rounds s :
  Pmmr.view server ks -> has_data id server ks ->
  Pmmr.rep (kernel_pmmr (x_ext s)) (take m ks) -> (1 <= m <= length ks)%nat -> 2 <= Z.of_nat (length ks) < 2 ^ 58 ->
  Z.of_nat (length ks) <= 2048 * (Z.of_nat m / 2048 + Z.of_nat rounds) ->
  exists p, kernel_rounds rounds server (mmr_root ks) s =
      Some (Ok tt, mkEX (x_header s) (set_kernel_pmmr p (x_ext s)) (x_batch s)) /\
    Pmmr.rep p ks /\ root (T := TxKernel) p = Ok (mmr_root ks) /\
    next_required_segment_index (size p) (size server) KERNEL_SEGMENT_HEIGHT = None.
Proof.
  intros Hview Hdata Hrep Hm Hn Hr.
  destruct (kernel_rounds_spec server ks m rounds s Hview Hdata Hrep Hm Hn (or_intror Hr)) as (p & E1 & H1).
  exists p. split_and!; [done|done|apply root_view, H1|]. destruct H1 as [(Es & _) _], Hview as (Es' & _).
  rewrite Es, Es'. unfold KERNEL_SEGMENT_HEIGHT. rewrite next_required_npos by lia. rewrite Z.eqb_refl.
  destruct (Z.eqb_spec (Z.of_nat (length ks)) 1); [lia|done].
Qed.
End kernel_sync.

(** ** Samples *)

Module DesegSample.
#[local] Existing Instance chain_crypto.
#[local] Instance nrd_off : NrdFlag := false.

(** MMRs in memory. *)
Definition vec_mmr {T E} `{PMMRHash T Ser.Hash} (as_elmt : T -> E) : Mmr T E := {|
  mmr := Vec.VecBackend T Ser.Hash;
  mmr_backend := vec_backend as_elmt;
  mmr_sync := Ok;
  mmr_discard := Some;
  mmr_unpruned_size := fun b => Some (Z.of_nat (length (Vec.hashes b)));
  mmr_remove_from_leaf_set := fun b _ => b;
  mmr_reset_prune_list := Ok;
  mmr_check_compact := fun b _ _ => Ok (false, b);
|}.
#[local] Instance s_header_hash : PMMRHash BlockHeader Ser.Hash := header_pmmr_hash AutomatedTesting.
#[local] Instance s_headers : Mmr BlockHeader HeaderEntry := vec_mmr (fun h => mkHeaderEntry ZERO_HASH 0 (mkDifficulty 0) 0 false).
#[local] Instance s_outputs : Mmr OutputIdentifier OutputIdentifier := vec_mmr id.
#[local] Instance s_rproofs : Mmr RangeProof RangeProof := vec_mmr id.
#[local] Instance s_kernels : Mmr TxKernel TxKernel := vec_mmr id.

Definition header_with (output_root kernel_root : Ser.Hash) (outputs kernels : Z) : BlockHeader :=
  mkHeader 1 0 ZERO_HASH ZERO_HASH 1000 output_root ZERO_HASH kernel_root blinding_zero outputs kernels (pow Sample.gen_header).

Fixpoint push_all (p : PMMR (mmr TxKernel TxKernel)) (l : list TxKernel) : PMMR (mmr TxKernel TxKernel) :=
  match l with
  | [] => p
  | k :: l => match push (T := TxKernel) (E := TxKernel) p k with Ok (_, p) => push_all p l | Err _ => p end
  end.
Definition kernels_pushed (l : list TxKernel) : PMMR (mmr TxKernel TxKernel) :=
  push_all (new (Vec.new (T := TxKernel) (Hash := Ser.Hash)) : PMMR (mmr TxKernel TxKernel)) l.

Definition us : US :=
  mkUS (new (Vec.new (T := BlockHeader) (Hash := Ser.Hash)))
    (mkTxHashSet (new (Vec.new (T := OutputIdentifier) (Hash := Ser.Hash))) (new (Vec.new (T := RangeProof) (Hash := Ser.Hash)))
      (kernels_pushed [Sample.reward_kernel 1]) acc_new) empty_batch.

Definition small_header : BlockHeader := header_with ZERO_HASH ZERO_HASH (npos 0 1000) (npos 0 1).

Lemma desegmenter_new_panics_witness : new_desegmenter small_header small_header = None.
Proof.
  pose proof (desegmenter_new_panics small_header small_header 1000 eq_refl ltac:(lia)) as Hp. cbv zeta in Hp.
  destruct (new_desegmenter small_header small_header) as [d|]; [destruct Hp; lia|reflexivity].
Defined.

Lemma next_required_is_next_leaf_witness :
  next_required_segment_index (npos 0 9000) (npos 0 9720) OUTPUT_SEGMENT_HEIGHT = Some 4 /\
  next_required_segment_index (npos 0 9720) (npos 0 9720) OUTPUT_SEGMENT_HEIGHT = None.
Proof.
  split.
  - destruct (next_required_is_next_leaf 9000 9720) as (E1 & _); [lia|lia|]. rewrite E1. reflexivity.
  - destruct (next_required_is_next_leaf 9720 9720) as (E1 & _); [lia|lia|]. rewrite E1. reflexivity.
Defined.

(** A header of 5000 outputs and 3000 kernels. *)
Definition far_header : BlockHeader := header_with ZERO_HASH ZERO_HASH (npos 0 5000) (npos 0 3000).
Definition far_deseg : Desegmenter := mkDesegmenter far_header far_header acc_new [] [] [] [] 5 (npos 0 5) (Some ∅) false 0.

Lemma far_kernels_size : local_kernel_mmr_size (mkDS far_deseg us) = npos 0 1.
Proof. vm_compute. reflexivity. Qed.

Lemma next_segments_asked_for_witness :
  mkTypeId SegOutput (mkId OUTPUT_SEGMENT_HEIGHT 0) ∈ desired_segments 3 (mkDS far_deseg us) /\
  mkTypeId SegRangeProof (mkId RANGEPROOF_SEGMENT_HEIGHT 0) ∈ desired_segments 3 (mkDS far_deseg us) /\
  mkTypeId SegKernel (mkId KERNEL_SEGMENT_HEIGHT 0) ∈ desired_segments 3 (mkDS far_deseg us).
Proof.
  destruct (next_segments_asked_for 3 (mkDS far_deseg us) 0 0 5000 1 3000) as (H1 & H2 & H3);
    [lia|reflexivity|reflexivity|reflexivity|exact far_kernels_size|reflexivity|lia..|].
  destruct (H1 0) as [?|H1']; [vm_compute; reflexivity|discriminate|].
  destruct (H2 0) as [?|H2']; [vm_compute; reflexivity|discriminate|].
  destruct (H3 0) as [?|H3']; [vm_compute; reflexivity|discriminate|]. exact (conj H1' (conj H2' H3')).
Defined.

(** 513 chunks, of which 512 are there. *)
Definition stalled (a : BitmapAccumulator) : Desegmenter :=
  mkDesegmenter far_header far_header a [] [] [] [] 513 (npos 0 513) None false 0.

Lemma bitmap_sync_stalls_witness : exists a,
  next_required_bitmap_segment_index (stalled a) = Some 1 /\
  next_desired_segments 15 (mkDS (stalled a) us) = Some (Ok [], mkDS (stalled a) us) /\
  apply_next_segments (mkDS (stalled a) us) = Some (Ok tt, mkDS (stalled a) us).
Proof.
  destruct (append_empty_holds 512 acc_new [] new_holds ltac:(simpl; lia)) as (a & _ & Ha). exists a.
  destruct (bitmap_sync_stalls (stalled a) us 1 _ Ha) as (H1 & H2 & H3);
    [cbn [app]; rewrite length_replicate; lia|lia|reflexivity|reflexivity|intros s Hs; inversion Hs|].
  exact (conj H1 (conj (H2 15) H3)).
Defined.

Definition seg_at (i : Z) : Segment TxKernel Ser.Hash := empty (mkId 11 i).

Lemma segment_batch_is_run_witness :
  let '(batch, rest) := take_segment_batch 12 [seg_at 3; seg_at 5; seg_at 2] 2 in
  map (fun s => idx (Segments.identifier s)) batch = [2; 3] /\ rest = [seg_at 5].
Proof.
  pose proof (segment_batch_is_run [seg_at 3; seg_at 5; seg_at 2] 12 2 [seg_at 2; seg_at 3] [seg_at 5]
    ltac:(lia) ltac:(lia) eq_refl) as (H1 & _). exact (conj H1 eq_refl).
Defined.

(** Two chunks, and the segment that a node cuts from them. *)
Definition two_chunks : BitmapAccumulator := match append_empty 2 acc_new with Ok a => a | Err _ => acc_new end.
Definition chunk_segment : Segment BitmapChunk Ser.Hash :=
  match from_pmmr (T := BitmapChunk) (BE := vec_backend id) (mkId 9 0) (acc_readonly_pmmr two_chunks) false with
  | Ok s => s | Err _ => empty (mkId 9 0) end.
Definition chunk_header : BlockHeader :=
  header_with (pair_hash (T := BitmapChunk) (ZERO_HASH, default ZERO_HASH (acc_root two_chunks)) (npos 0 2000)) ZERO_HASH (npos 0 2000) (npos 0 1).
Definition chunk_deseg : Desegmenter :=
  match new_desegmenter chunk_header small_header with Some d => d | None => far_deseg end.
Definition with_segment : DS :=
  mkDS (set_bitmap_segments [chunk_segment] chunk_deseg) us.
Definition other_chunk : BitmapChunk := match Chunk.set Chunk.new 7 true with Some c => c | None => Chunk.new end.

Lemma chunk_segment_added : add_bitmap_segment chunk_segment ZERO_HASH (mkDS chunk_deseg us) = Some (Ok tt, with_segment).
Proof.
  assert (Hv : validate_with (T := BitmapChunk) (BM := gset Z) (fun x i => leaf_hash x i) chunk_segment (bitmap_mmr_size chunk_deseg) None
    (output_root (archive_header chunk_deseg)) (output_mmr_size (archive_header chunk_deseg)) ZERO_HASH true = Ok tt) by (vm_compute; reflexivity).
  assert (Hc : cache_segment (bitmap_segment_cache chunk_deseg) chunk_segment = [chunk_segment]) by (vm_compute; reflexivity).
  unfold add_bitmap_segment, bind, asks, lift_seg, on_deseg, modify. cbn [s_deseg s_us]. cbv beta iota zeta. rewrite Hv. cbv beta iota zeta. cbn [s_deseg s_us]. rewrite Hc. reflexivity.
Qed.

Lemma foreign_chunk_applied_witness : exists d,
  (add_bitmap_segment (push_leaf chunk_segment 9 other_chunk) ZERO_HASH ;* apply_next_segments) (mkDS chunk_deseg us) =
    Some (Ok tt, mkDS d us) /\
  holds (d_accumulator d) [Chunk.new; Chunk.new; other_chunk].
Proof.
  destruct (foreign_chunk_applied chunk_deseg us chunk_segment ZERO_HASH with_segment 9 other_chunk [] chunk_segment_added)
    as (d & H1 & H2 & _).
  - vm_compute. reflexivity.
  - assert (E1 : segment_pos_range (Segments.identifier chunk_segment) (bitmap_mmr_size chunk_deseg) = (0, 2))
      by (vm_compute; reflexivity).
    rewrite E1. unfold range_incl. rewrite elem_of_seqZ. lia.
  - vm_compute. reflexivity.
  - assert (E1 : bitmap_segment_cache chunk_deseg = []) by (vm_compute; reflexivity). rewrite E1. intros s Hs. exact (False_ind _ (proj1 (elem_of_nil s) Hs)).
  - apply new_holds.
  - vm_compute. reflexivity.
  - exists d. split; [exact H1|]. assert (E2 : leaf_data chunk_segment = [Chunk.new; Chunk.new]) by (vm_compute; reflexivity).
    rewrite E2 in H2. exact H2.
Defined.

(** A state that the desegmenter reaches. *)
Lemma with_segment_reachable : deseg_reachable AutomatedTesting chunk_header small_header with_segment.
Proof.
  assert (Hd : new_desegmenter chunk_header small_header = Some chunk_deseg) by (vm_compute; reflexivity).
  exact (deseg_call _ _ _ (AddBitmap chunk_segment ZERO_HASH) _ _ _ (deseg_start _ _ _ chunk_deseg us Hd) chunk_segment_added).
Qed.

Lemma segment_caches_sound_witness :
  cache_ok (bitmap_segment_ok chunk_deseg) [chunk_segment] /\ NoDup (map Segments.identifier [chunk_segment]).
Proof.
  destruct (segment_caches_sound AutomatedTesting chunk_header small_header with_segment with_segment_reachable) as (_ & H1 & _).
  split; [exact H1|exact (proj1 H1)].
Defined.

(** Three kernels, of which the node has the first. *)
#[local] Instance s_kernel_laws : BackendLaws TxKernel TxKernel Ser.Hash (mmr TxKernel TxKernel) := vec_laws id.
Definition ks : list TxKernel := [Sample.reward_kernel 1; Sample.reward_kernel 2; Sample.reward_kernel 3].

Lemma push_all_rep l' : forall p l, Pmmr.rep p l -> Z.of_nat (length l + length l') < 2 ^ 60 -> Pmmr.rep (push_all p l') (l ++ l').
Proof.
  induction l' as [|x l' IH]; intros p l Hrep Hl; cbn [push_all]; [by rewrite app_nil_r|]. cbn [length] in Hl.
  destruct (push_rep p l x Hrep ltac:(lia)) as (p' & -> & Hp).
  replace (l ++ x :: l') with ((l ++ [x]) ++ l') by (by rewrite <- app_assoc). apply IH; [exact Hp|].
  rewrite length_app. cbn [length]. lia.
Qed.

Lemma kernels_pushed_rep l : Z.of_nat (length l) < 2 ^ 60 -> Pmmr.rep (kernels_pushed l) l.
Proof. intros Hl. apply (push_all_rep l _ []); [|done]. by apply (new_rep (B := mmr TxKernel TxKernel)). Qed.

Lemma ks_data : has_data id (kernels_pushed ks) ks.
Proof. intros [|[|[|j]]] x Hx; simpl in Hx; simplify_eq; vm_compute; reflexivity. Qed.

Definition behind : EX :=
  mkEX (mkHeaderExt default_tip (new (Vec.new (T := BlockHeader) (Hash := Ser.Hash))) false)
    (new_extension (u_trees us) default_tip) empty_batch.

Lemma kernel_sync_completes_witness : exists p s,
  kernel_rounds 1 (kernels_pushed ks) (mmr_root ks) behind = Some (Ok tt, s) /\ kernel_pmmr (x_ext s) = p /\
  Pmmr.rep p ks /\ root (T := TxKernel) p = Ok (mmr_root ks).
Proof.
  destruct (kernel_sync_completes (kernels_pushed ks) ks 1 1 behind) as (p & E1 & H1 & H2 & _);
    [apply kernels_pushed_rep; reflexivity|exact ks_data|exact (kernels_pushed_rep [Sample.reward_kernel 1] eq_refl)
    |change (length ks) with 3%nat; lia|change (length ks) with 3%nat; lia|vm_compute; discriminate|].
  exists p. eexists. split; [exact E1|]. split; [reflexivity|]. exact (conj H1 H2).
Defined.

(** A segment of kernels that does not validate, and the node it is sent to. *)
Definition same_header (a b : BlockHeader) : bool := kernel_mmr_size a =? kernel_mmr_size b.
Definition far_hash : Ser.Hash := default ZERO_HASH (header_hash AutomatedTesting far_header).
Definition bad_segment : QueuedPIBDSegment := mkQueued 7 far_hash (PKernel far_hash (seg_at 0)).
Definition bad_id : SegmentTypeIdentifier := mkTypeId SegKernel (mkId 11 0).
Definition asked_sync : SyncState := run_ops [OAddSegment 0 bad_id 7 far_hash] sync_new.
Definition asked : SyncNode := mkSyncNode asked_sync us (Some far_deseg).
Abbreviation process now q n := (process_queued_pibd_segment AutomatedTesting same_header far_header now far_header q n).

Lemma refuses_bad : exists e n, process 0 bad_segment asked = Some (Err e, n).
Proof.
  assert (E : match process 0 bad_segment asked with Some (Err _, _) => true | _ => false end = true) by (vm_compute; reflexivity).
  destruct (process 0 bad_segment asked) as [[[[]|e] n]|]; [discriminate E|by exists e, n|discriminate E].
Qed.

Lemma sync_state_sound_witness : exists n o, process 0 bad_segment asked = Some n /\
  sn_sync (snd n) = run_ops [OAddSegment 0 bad_id 7 far_hash; o] sync_new.
Proof.
  destruct refuses_bad as (e & n & E).
  destruct (sync_state_sound [OAddSegment 0 bad_id 7 far_hash]) as [_ H].
  destruct (H _ _ _ _ _ _ _ _ _ _ _ _ _ _ _ _ E eq_refl) as [o Ho]. exists (Err e, n), o. exact (conj E Ho).
Defined.

Lemma bad_segments_refused_witness : exists e n, process 0 bad_segment asked = Some (Err e, n) /\
  rejected_pibd_segment_from_peer 1 bad_id 7 (sn_sync n) = true.
Proof.
  destruct refuses_bad as (e & n & E). exists e, n. split; [exact E|].
  destruct (bad_segments_refused AutomatedTesting same_header far_header 0 far_header bad_segment asked e n E
    (run_ops_ok _ _ sync_new_ok)) as (_ & H & _).
  exact (H 1 ltac:(unfold NANOS; lia)).
Defined.
End DesegSample.
