(* ===== verification/NodeSample.v ===== *)
(** A sample node: the theorems on nodes applied to the sample chain. *)

From Stdlib Require Import ZArith Lia.
From stdpp Require Import base numbers option sorting list gmap relations.
From S2P Require Import Prelude Consensus PmmrIndex Pmmr Ser LinkedList Kernel CutThrough Transaction PowTypes Block Segments ChainTypes.
From S2P Require Import ChainStore BitmapAccumulator TxHashSet Pipe Chain Desegmenter SyncState SyncSpec Pool PoolSpec TransactionPool TransactionPoolSpec PoolSample PoolChain Node PipeSpec NodeSpec ChainStorage ChainSpec.
Open Scope Z_scope.

Module NodeSample.
#[local] Existing Instance chain_crypto.
#[local] Existing Instance merge_sort_unstable.
#[local] Instance nrd_off : NrdFlag := false.
#[local] Instance sample_sip : SipHasher := fun k0 k1 bs => (k0 + 3 * k1 + be_value bs) mod 2 ^ 64.
#[local] Instance relays : PoolAdapter := fun _ => true.
#[local] Existing Instances output_mmr rproof_mmr kernel_mmr.
#[local] Instance headers : Mmr BlockHeader HeaderEntry := header_mmr AutomatedTesting.

(** A node that has just started, with a transaction in the pool that spends
    nothing. *)
Definition stale : TransactionPool :=
  mkTxPool PoolSample.sample_config (mkPool [mkEntry Broadcast 0 PoolSample.tx1]) (mkPool []) [] [].
Definition node_of (c : Chain) : Node := set_n_pool stale (node_start c PoolSample.sample_config).

Abbreviation single b n := (node_process_block_single AutomatedTesting Sample.any 2000 5 b 0 n).
Abbreviation process b n := (node_chain_process_block AutomatedTesting Sample.any 2000 5 b 0 n).

Lemma pool_follows_chain_witness : exists c t n, Sample.started Sample.any = Some c /\
  single Sample.block1 (node_of c) = Some (Ok (Some t), n) /\ pool_sound AutomatedTesting n /\
  entries (txpool (n_pool n)) = [].
Proof.
  destruct (Sample.checked (Sample.started Sample.any) (fun c =>
    match single Sample.block1 (node_of c) with
    | Some (Ok (Some _), n) => bool_decide (length (entries (txpool (n_pool n))) = 0%nat)
    | _ => false
    end)) as (c & Ec & H); [vm_compute; reflexivity|].
  destruct (single Sample.block1 (node_of c)) as [[[[t|]|e] n]|] eqn:E; [|discriminate H..].
  apply bool_decide_eq_true in H. exists c, t, n. split; [exact Ec|]. split; [exact E|].
  split; [|destruct (entries (txpool (n_pool n))); [reflexivity|discriminate H]].
  exact (pool_follows_chain AutomatedTesting Sample.any 5 2000 Sample.block1 0 (node_of c) (Ok (Some t)) n E).
Defined.

(** A peer floods the node with a segment that was asked for once, and sends the
    header of the first block. *)
Definition bad_peer : PeerInfo := mkPeerInfo 7 1 true 3.
Definition seg : PIBDSegment := PKernel ZERO_HASH (empty (mkId 11 0)).
Definition same_height (a b : BlockHeader) : bool := Block.height a =? Block.height b.
Definition flood : list (Z * NetEvent) :=
  [(0, ESync (OAddSegment 0 (segment_id seg) 7 ZERO_HASH)); (1, ESegment seg bad_peer); (2, ESegment seg bad_peer);
   (3, ESync (OUpdate (HeaderSync Sample.gen_tip Pihd 1 (mkDifficulty 6)))); (3, ESync (OAddHeader 3 (mkId 9 0) 7 1));
   (4, EHeaderSegment (mkId 9 0) [header Sample.block1] bad_peer); (5, EGetHeaderSegment (mkId 9 0) bad_peer);
   (6, ETransaction PoolSample.tx1 false); (7, EBlock Sample.block1 bad_peer 0)].

Abbreviation run l n := (run_node AutomatedTesting Sample.any Sample.gen 5 1 (fun _ => true) same_height false true l n).

Definition flooded (n : Node) : bool :=
  bool_decide (length (n_queue n) = 1%nat) && bool_decide (length (n_header_cache n) = 0%nat) &&
  match header_head (db (n_chain n)) with Ok t => tip_height t =? 1 | Err _ => false end.

Lemma peers_cannot_flood_witness : exists c r n, Sample.started Sample.any = Some c /\
  run flood (node_start c PoolSample.sample_config) = Some (r, n) /\ flooded n = true /\ bounded AutomatedTesting n.
Proof.
  destruct (Sample.checked (Sample.started Sample.any) (fun c =>
    match run flood (node_start c PoolSample.sample_config) with Some (_, n) => flooded n | None => false end))
    as (c & Ec & H); [vm_compute; reflexivity|].
  destruct (run flood (node_start c PoolSample.sample_config)) as [[r n]|] eqn:E; [|discriminate H].
  exists c, r, n. split; [exact Ec|]. split; [exact E|]. split; [exact H|].
  exact (peers_cannot_flood AutomatedTesting Sample.any Sample.gen 5 1 (fun _ => true) same_height false true flood c
    PoolSample.sample_config r n E).
Defined.

Lemma header_segments_rationed_witness : exists c, Sample.started Sample.any = Some c /\
  answered 7 (repeat (5, 7) 600) (node_start c PoolSample.sample_config) = 500 /\
  answered 7 (repeat (5, 7) 600) (node_start c PoolSample.sample_config) <= 1000.
Proof.
  destruct (Sample.checked (Sample.started Sample.any) (fun c =>
    answered 7 (repeat (5, 7) 600) (node_start c PoolSample.sample_config) =? 500)) as (c & Ec & H); [vm_compute; reflexivity|].
  exists c. split; [exact Ec|]. split; [apply Z.eqb_eq, H|].
  apply (header_segments_rationed AutomatedTesting Sample.any Sample.gen 5 1 (fun _ => true) same_height false true [] c
    PoolSample.sample_config (Ok tt) (node_start c PoolSample.sample_config) 5 7); [reflexivity|].
  apply Forall_forall. intros x Hx%list_elem_of_In. apply repeat_spec in Hx as ->. simpl. unfold NANOS, HEADER_SEGMENT_REQUEST_WINDOW_SECS. lia.
Defined.

(** The segment with the first block is in the cache. *)
Definition caching (c : Chain) : Node :=
  set_n_cache [mkEntry_ (mkId 9 0) [header Sample.block1] bad_peer]
    (set_n_sync (run_op (OUpdate (HeaderSync Sample.gen_tip Pihd 1 (mkDifficulty 6))) sync_new)
      (node_start c PoolSample.sample_config)).

Definition added_first (n : Node) : bool :=
  bool_decide (length (n_header_cache n) = 0%nat) &&
  match header_head (db (n_chain n)) with Ok t => tip_height t =? 1 | Err _ => false end.

Lemma header_joining_ends_witness : exists c k m r n', Sample.started Sample.any = Some c /\
  nsteps (joins AutomatedTesting Sample.any) k (caching c) m /\ (k <= 1)%nat /\
  joined AutomatedTesting Sample.any m r n' /\ added_first n' = true.
Proof.
  destruct (Sample.checked (Sample.started Sample.any) (fun c =>
    match process_ready_pihd_header_segments AutomatedTesting Sample.any (caching c) with
    | Some (_, n) => added_first n
    | None => false
    end)) as (c & Ec & H); [vm_compute; reflexivity|].
  destruct (header_joining_ends AutomatedTesting Sample.any (caching c)) as (k & m & Hk & Hl & [(r & n' & Hj & E)|[_ E]]);
    rewrite E in H; [|discriminate H].
  exists c, k, m, r, n'. split; [exact Ec|]. split; [exact Hk|]. split; [exact Hl|]. split; [exact Hj|exact H].
Defined.

Definition asking (c : Chain) : Node :=
  set_n_sync (run_op (OAddSegment 0 (segment_id seg) 7 ZERO_HASH) sync_new) (node_start c PoolSample.sample_config).

Lemma segment_admitted_once_witness : exists c n, Sample.started Sample.any = Some c /\
  queue_pibd_segment 1 true seg bad_peer (asking c) = Some (Ok true, n) /\ length (n_queue n) = 1%nat /\
  exists b, queue_pibd_segment 2 true seg bad_peer n = Some (Ok b, n).
Proof.
  destruct (Sample.checked (Sample.started Sample.any) (fun c =>
    match queue_pibd_segment 1 true seg bad_peer (asking c) with
    | Some (Ok true, n) => bool_decide (length (n_queue n) = 1%nat)
    | _ => false
    end)) as (c & Ec & H); [vm_compute; reflexivity|].
  destruct (queue_pibd_segment 1 true seg bad_peer (asking c)) as [[[[]|e] n]|] eqn:E; [|discriminate H..].
  exists c, n. split; [exact Ec|]. split; [exact E|]. split; [apply bool_decide_eq_true in H; exact H|].
  apply (segment_admitted_once AutomatedTesting true 1 2 seg seg bad_peer (asking c) (Ok true)); [|reflexivity|exact E|reflexivity].
  destruct (node_start_bounded AutomatedTesting c PoolSample.sample_config) as [_ H2 H3 H4].
  split; [exact (run_op_ok _ _ sync_new_ok)|exact H2|destruct H3; split; assumption|exact H4].
Defined.
End NodeSample.
